(* ===== verification/_CoqProject ===== *)
-Q . S2P
Prelude.v
Errors.v
Stateful.v
Json.v
JsonFacts.v
Checksum.v
Ord.v
Provenance.v
Time.v
Capture.v
CaptureFacts.v
Reader.v
Wire.v
WireFacts.v
Fragment.v
FragmentFacts.v
Stream.v
StreamFacts.v
Tracker.v
TrackerFacts.v
Dnp3Link.v
Dnp3LinkFacts.v
Modbus.v
ModbusFacts.v
Protocol.v
ProtocolFacts.v
Dnp3App.v
Dnp3AppFacts.v
Dnp3RoundTrip.v
Writer.v
WriterFacts.v
NgWriterFacts.v
Sha256.v
Index.v
IndexFacts.v
Semantics.v
SemanticsFacts.v
SemModbus.v
SemModbusFacts.v
SemDnp3.v
SemDnp3Facts.v
Workflow.v
WorkflowFacts.v
Correlate.v
CorrelateFacts.v
ConfirmFacts.v
Engine.v
EngineFacts.v
Codec.v
CodecFacts.v
HistModel.v
HistModelFacts.v
HistState.v
HistStateFacts.v
Journal.v
JournalFacts.v
HistIndex.v
HistIndexFacts.v
HistQuery.v
HistQueryFacts.v
HistOpenFacts.v
HistPagesFacts.v
