(* ===== verification/Prelude.v ===== *)
(** * pcap-evidence: a verified model of the analyzer

    This library models the core crate of the packet-capture analyzer ([src/src/*.rs]):
    a capture file comes in as bytes, and what leaves is an [Analysis] whose every
    statement can be traced to captured bytes; and the evidence model of the history
    crate ([src/history/src/*.rs]), which keeps claims about TCP octets across
    captures.  The definitions follow the Rust
    sources function by function; the theorems say what a careful reader of the
    program would want to rely on.

    ** The program and its parts

    [Engine::analyze] (engine.rs) drives one pass.  [CaptureIter] (capture.rs) cuts
    the file into records; each packet becomes an observation; [decode_packet]
    (wire.rs) strips the link and IP headers; [FragmentReassembler] (fragment.rs) puts
    IP fragments together; [decode_transport] yields a TCP segment, which
    [TcpTracker] (tcp.rs) assigns to a connection generation, or a UDP datagram, which
    [analyze_udp] (datagram.rs) decodes.  When the pass is over every flow is rebuilt by
    the [StreamAssembler] (tcp.rs), [classify_flow] (detection.rs, protocol.rs)
    selects its protocol, [decode] of dnp3.rs or modbus.rs frames it, and correlate.rs
    pairs requests, responses and confirmations after re-deriving their evidence with
    the verifiers of semantics/dnp3_workflow.rs.  All bytes travel as [EvidenceBytes]
    (provenance.rs), which remember the packet position every byte came from.

    In the history crate a TCP header becomes an [Observation] (model.rs), whose
    sequence flags and payload octets are located in an epoch of their tuple by
    [TupleState::ingest] (state.rs); a state, a decision and an observation are written
    in the canonical octets of codec.rs, and the journal (journal.rs) chains each record
    to the hash of its predecessor.  The placements of all payloads, appended in arrival
    order, are sorted into an index (index.rs).  [History] (query.rs) opens a sealed
    workspace, searches the index by bisection, reads the records it names, compares their
    octets with the source and shows an interval with every alternative it has.

    Files, in dependency order (a component [X] is modelled by [X.v] and its longer
    proofs are in [XFacts.v]):
    - [Prelude]: outcomes of Rust code, loops, machine integers, slices, shared lemmas.
    - [Errors] (error.rs, limits.rs); [Stateful]: computations that keep what they changed
      when they fail, with their program logic; [Json], [JsonFacts] (json.rs);
      [Checksum] (checksum.rs), [Ord] (the derived [Ord] instances, [BTreeMap], [sort] and [dedup]), [Provenance] (provenance.rs),
      [Time] (time.rs).
    - [Capture], [CaptureFacts] (capture.rs: [Decoder], [CaptureIter]) and [Reader]
      (the streaming reader of capture.rs, over an abstract [std::io::Read]).
    - [Wire], [WireFacts] (wire.rs); [Fragment], [FragmentFacts] (fragment.rs).
    - [Stream], [StreamFacts] and [Tracker], [TrackerFacts] (tcp.rs).
    - [Dnp3Link], [Dnp3LinkFacts], [Dnp3App], [Dnp3AppFacts], [Dnp3RoundTrip] (dnp3.rs,
      datagram.rs), [Modbus], [ModbusFacts] (modbus.rs and [padding_is_zero] of
      semantics/modbus.rs).
    - [Protocol], [ProtocolFacts] (protocol.rs, detection.rs, [Config] of engine.rs).
    - [Writer], [WriterFacts], [NgWriterFacts] (writer.rs, over an abstract
      [std::io::Write]).
    - [Sha256] (sha256.rs); [Index], [IndexFacts] (index.rs).
    - [Semantics], [SemanticsFacts] (semantics/mod.rs: limits, the budgeted report, its
      JSON); [SemModbus], [SemModbusFacts] (semantics/modbus.rs); [SemDnp3],
      [SemDnp3Facts] (semantics/dnp3.rs).
    - [Workflow], [WorkflowFacts] (the verifiers of semantics/dnp3_workflow.rs).
    - [Correlate], [CorrelateFacts], [ConfirmFacts] (correlate.rs and its submodule
      dnp3_confirmations.rs).
    - [Engine], [EngineFacts] (engine.rs).
    - [Codec], [CodecFacts] (history/src/codec.rs); [HistModel], [HistModelFacts]
      (history/src/model.rs); [HistState], [HistStateFacts] (history/src/state.rs: a
      tuple's state and its decisions); [Journal], [JournalFacts]
      (history/src/journal.rs); [HistIndex], [HistIndexFacts] (history/src/index.rs: the
      rows, the external merge sort and the search); [HistQuery], [HistQueryFacts],
      [HistOpenFacts], [HistPagesFacts] (history/src/query.rs, [extent] of
      typed_range_impl.rs, and the packet table and TCP records of pipeline.rs).

    ** How code becomes Rocq

    A fallible function returns [res E A] ([result A] when the error is the program's
    [Error]): a value, an error, [Panic] or [OutOfFuel].  [Panic] is what the compiled
    program does on an arithmetic overflow (the release profile enables overflow
    checks), an index or a slice out of range, or a failed [expect]; every such
    operation is written with a definition that can panic ([add_ovf], [slice], [idx],
    ...).  [OutOfFuel] is returned by a loop whose fuel ends, so a theorem of the form
    [wp m Q R] -- [m] returns a value with [Q] or an error with [R] -- is a proof of
    termination and of the absence of panics.  [usize] has 64 bits; integers are [Z]
    with the range of their type as a hypothesis where it matters.  Mutable state is
    passed explicitly; [&mut self] methods return the new state.  Allocation is
    assumed to succeed.  A [BTreeMap] is a sorted association list, with the
    comparison the program derives.  A file of the history crate is the list of its
    octets, with the fault-free behaviour of the calls made on it.  The work counters of the verifiers
    and the reports of the semantic decoders are threaded by the monad [Stateful], which
    keeps what a failed computation has changed.

    Code outside the crate is a parameter: [Read] and [Write] are type classes over a
    state with their documented laws ([Reader], [Writer]), the reads of a
    file of the history crate are a function that says how much each returns
    ([FileRead] of [HistIndex]), and the protocol plugins are records whose laws the
    builtin probes are proved to satisfy ([Protocol]).

    Fuel is chosen from the source's own bounds and never runs out in a theorem:
    records of a capture and of the passes over it, [S (S (length data))]; options of a
    block, one more than their bytes; VLAN tags 10 and IPv6 extension headers 18, the
    rounds the program's own limits allow; reads of the streaming reader and of
    [copy_exact], the bytes they are still to deliver plus a constant; expiry, one more
    than the deadlines; DNP3 and Modbus framing, DNP3 object headers and SHA-256 blocks, one
    more than the bytes left; the external sort, two more than the octets of its input, which
    bound its rows, runs and passes; bisection and the walks of the index, one more than the
    rows; hashing a file and reading a journal to its end, one more than their octets.

    ** What is proved

    - The whole analysis ([EngineFacts.analyze_total]): it terminates on every input;
      a result accounts for every packet of the whole file, in order, each with a final
      outcome; errors are budgets, an invalid configuration or an undecodable capture.
    - Capture: decoding never aborts, iteration is lossless, the streaming reader
      agrees with the iterator whatever the source delivers, written captures read
      back, failed writes leave a consistent writer, the time arithmetic is exact.
    - Index: a sidecar is accepted exactly when it is canonical; queries are exact.
    - Network: a datagram is the one its packet's link, VLAN and IP headers show, from the
      end of the headers to the announced length; segments are exactly its bytes with their
      checksum verdicts; fragments are reassembled byte for byte or quarantined.
    - Streams: a segment is never guessed into a flow; the reconstruction equals the
      specification position by position (byte, gap or conflict), with sources.
    - DNP3 and Modbus: frames are exactly the encodings in the stream; transport and
      application reassembly is sound and inverts segmentation; the CRC detects bursts.
    - Correlation: the evidence behind a pairing is re-derived from frames; every
      message and every fragment is accounted for once; a candidate excludes every
      alternative the capture shows; budgets are respected.
    - Fields: the Modbus report of a frame is complete exactly when its bytes encode a PDU
      of the grammar, and shows exactly its fields; every DNP3 object field is a reading
      of the octets it cites or follows from them as its basis says; the JSON of a report
      carries, for every field, the hash of those octets and the packet positions they
      were captured at.
    - JSON: rendered documents are read back as themselves; the bounded encoders succeed
      exactly when the rendered size fits.
    - History: configurations, tuples, observations, states and decisions are decoded from
      their encodings and from nothing else; an observation shows exactly what the header
      shows, with one witness for every octet it claims; ingestion assigns epochs by the
      configured rule, keeps the state's budgets and reports every change; a journal is
      accepted exactly when it was written by the program, and reading it by index gives
      what reading it in order gives; the external sort leaves exactly the rows in order
      whatever the chunk size, the fan-in and the way reads are split, and the bisection
      finds the first row at or after a key.  A workspace opens exactly when it is whole;
      a range query shows every overlapping row and nothing else, with octets only where
      all that cover a piece agree and the source attests them; a page of generations omits
      none, and an extent is never shortened by a limit.
    - Refinement and equivalence with reference definitions: SHA-256, the Internet
      checksum, recognition of DNP3, link parsing, stream reconstruction.

    ** Bounds in hypotheses

    Inputs are byte lists of at most [i64::MAX] bytes, as in any Rust slice.  Where a
    counter is compared with a configured budget the budget is taken at most
    [i64::MAX] ([config_typed]); larger budgets cannot be exhausted in memory.

    ** Not modelled

    The rendering of an analysis (report.rs apart from [error]) and the report builders of
    semantics/dnp3_workflow.rs ([link], [application], [append_objects]) are formatting;
    file publication (publish.rs) and the command line (main.rs, cli_ports.rs) are I/O.
    The external attempt labels of correlate.rs ([parse_labels], [match_attempts],
    [apply_labels]) need the standard library's address parser.  Of the history crate, the
    on-disk map of states ([Store]), the pipeline and its command line are I/O over the
    parts modelled here; [evidence_range] (typed_range_impl.rs) reads the report of a range
    query back.  The other crates of the repository (streaming,
    product, fuzz targets, desktop shell, tools) are left aside. *)

From stdpp Require Export base list numbers strings pretty sets.
From Stdlib Require Export ZArith Lia.

#[global] Open Scope Z_scope.

(** Keep [simpl] away from integer arithmetic on large literals. *)
#[global] Arguments Z.add : simpl never.
#[global] Arguments Z.sub : simpl never.
#[global] Arguments Z.mul : simpl never.
#[global] Arguments Z.div : simpl never.
#[global] Arguments Z.modulo : simpl never.
#[global] Arguments Z.pow : simpl never.
#[global] Arguments Z.land : simpl never.
#[global] Arguments Z.lor : simpl never.
#[global] Arguments Z.lxor : simpl never.
#[global] Arguments Z.shiftl : simpl never.
#[global] Arguments Z.shiftr : simpl never.
#[global] Arguments Z.eqb : simpl never.
#[global] Arguments Z.leb : simpl never.
#[global] Arguments Z.ltb : simpl never.
#[global] Arguments Z.min : simpl never.
#[global] Arguments Z.max : simpl never.
#[global] Arguments Z.to_nat : simpl never.
#[global] Arguments Z.of_nat : simpl never.

(** ** Outcomes of Rust code *)

(** [Ok] and [Err] are Rust's [Result]; [Panic] is an abort of the program (an
    index outside a slice, an arithmetic overflow: the crate builds with
    [overflow-checks = true]); [OutOfFuel] says that a loop of the model ran out
    of its step budget.  A theorem that a computation is safe excludes both. *)
Inductive res (E A : Type) : Type :=
| Ok (a : A)
| Err (e : E)
| Panic
| OutOfFuel.
Arguments Ok {E A} a.
Arguments Err {E A} e.
Arguments Panic {E A}.
Arguments OutOfFuel {E A}.

#[global] Instance res_ret {E} : MRet (res E) := λ A a, Ok a.
#[global] Instance res_bind {E} : MBind (res E) := λ A B f r,
  match r with
  | Ok a => f a
  | Err e => Err e
  | Panic => Panic
  | OutOfFuel => OutOfFuel
  end.
#[global] Instance res_fmap {E} : FMap (res E) := λ A B f r,
  match r with
  | Ok a => Ok (f a)
  | Err e => Err e
  | Panic => Panic
  | OutOfFuel => OutOfFuel
  end.

(** [Option::ok_or]. *)
Definition ok_or {E A} (o : option A) (e : E) : res E A :=
  match o with Some a => Ok a | None => Err e end.

(** [Result::ok]. *)
Definition res_ok {E A} (r : res E A) : option A :=
  match r with Ok a => Some a | _ => None end.

(** A computation whose error is inspected instead of propagated
    ([match f() { Ok(x) => .., Err(e) => .. }]). *)
Definition catch {E A} (r : res E A) : res E (A + E) :=
  match r with
  | Ok a => Ok (inl a)
  | Err e => Ok (inr e)
  | Panic => Panic
  | OutOfFuel => OutOfFuel
  end.

(** ** Weakest preconditions

    [wp r Q R]: [r] neither panics nor runs out of fuel; a returned value
    satisfies [Q] and a returned error satisfies [R]. *)
Definition wp {E A} (r : res E A) (Q : A → Prop) (R : E → Prop) : Prop :=
  match r with
  | Ok a => Q a
  | Err e => R e
  | Panic | OutOfFuel => False
  end.

(** [r] returns: a value or an error. *)
Definition safe {E A} (r : res E A) : Prop := wp r (λ _, True) (λ _, True).

Section wp_rules.
Context {E : Type}.

Lemma wp_ok {A} (a : A) (Q : A → Prop) (R : E → Prop) : Q a → wp (Ok a) Q R.
Proof. done. Qed.

Lemma wp_err {A} (e : E) (Q : A → Prop) (R : E → Prop) : R e → wp (Err e) Q R.
Proof. done. Qed.

Lemma wp_bind {A B} (r : res E A) (f : A → res E B) Q R :
  wp r (λ a, wp (f a) Q R) R → wp (r ≫= f) Q R.
Proof. destruct r; done. Qed.

Lemma wp_bind_inv {A B} (r : res E A) (f : A → res E B) Q R :
  wp (r ≫= f) Q R → wp r (λ a, wp (f a) Q R) R.
Proof. destruct r; done. Qed.

Lemma wp_mono {A} (r : res E A) (Q Q' : A → Prop) (R R' : E → Prop) :
  wp r Q R → (∀ a, Q a → Q' a) → (∀ e, R e → R' e) → wp r Q' R'.
Proof. destruct r; naive_solver. Qed.

Lemma wp_and {A} (r : res E A) (Q Q' : A → Prop) (R R' : E → Prop) :
  wp r Q R → wp r Q' R' → wp r (λ a, Q a ∧ Q' a) (λ e, R e ∧ R' e).
Proof. destruct r; naive_solver. Qed.

Lemma wp_safe {A} (r : res E A) Q R : wp r Q R → safe r.
Proof. destruct r; done. Qed.

Lemma wp_value {A} (r : res E A) Q R a : wp r Q R → r = Ok a → Q a.
Proof. by intros H ->. Qed.

Lemma wp_error {A} (r : res E A) Q R e : wp r Q R → r = Err e → R e.
Proof. by intros H ->. Qed.

(** What holds of the value [r] returns, given that it is safe. *)
Lemma wp_of_safe {A} (r : res E A) (Q : A → Prop) (R : E → Prop) :
  safe r → (∀ a, r = Ok a → Q a) → (∀ e, r = Err e → R e) → wp r Q R.
Proof. destruct r; naive_solver. Qed.

(** The value returned, named. *)
Lemma wp_eq {A} (r : res E A) Q R : wp r Q R → wp r (λ a, Q a ∧ r = Ok a) R.
Proof. by destruct r. Qed.

Lemma wp_ok_or {A} (o : option A) (e : E) (Q : A → Prop) (R : E → Prop) :
  (∀ a, o = Some a → Q a) → (o = None → R e) → wp (ok_or o e) Q R.
Proof. destruct o; naive_solver. Qed.

Lemma wp_catch {A} (r : res E A) (Q : A + E → Prop) (R : E → Prop) :
  wp r (λ a, Q (inl a)) (λ e, Q (inr e)) → wp (catch r) Q R.
Proof. by destruct r. Qed.

Lemma bind_Ok {A B} (a : A) (f : A → res E B) : Ok a ≫= f = f a.
Proof. done. Qed.

Lemma bind_ok {A B} (r : res E A) (f : A → res E B) b :
  r ≫= f = Ok b ↔ ∃ a, r = Ok a ∧ f a = Ok b.
Proof. destruct r; naive_solver. Qed.

Lemma bind_err {A B} (r : res E A) (f : A → res E B) e :
  r ≫= f = Err e ↔ r = Err e ∨ ∃ a, r = Ok a ∧ f a = Err e.
Proof. destruct r; naive_solver. Qed.

Lemma safe_ok_or_err {A} (r : res E A) :
  safe r → (∃ a, r = Ok a) ∨ ∃ e, r = Err e.
Proof. destruct r; naive_solver. Qed.
End wp_rules.

(** ** Loops

    One iteration of a [while]/[loop] either goes round again or leaves. *)
Inductive step (S A : Type) : Type :=
| Continue (s : S)
| Break (a : A).
Arguments Continue {S A} s.
Arguments Break {S A} a.

Fixpoint loop {E S A} (fuel : nat) (body : S → res E (step S A)) (s : S) : res E A :=
  match fuel with
  | O => OutOfFuel
  | Datatypes.S fuel =>
      r ← body s;
      match r with
      | Continue s' => loop fuel body s'
      | Break a => Ok a
      end
  end.

Lemma loop_S {E S A} fuel (body : S → res E (step S A)) s :
  loop (Datatypes.S fuel) body s =
    (r ← body s; match r with Continue s' => loop fuel body s' | Break a => Ok a end).
Proof. done. Qed.

(** The loop rule: an invariant [I], and a measure that every further round
    decreases and that the fuel exceeds; so the loop terminates. *)
Lemma wp_loop {E S A} (I : S → Prop) (m : S → Z) (body : S → res E (step S A))
    (Q : A → Prop) (R : E → Prop) (fuel : nat) (s : S) :
  (∀ s, I s →
     wp (body s)
        (λ r, match r with
              | Continue s' => I s' ∧ 0 ≤ m s' < m s
              | Break a => Q a
              end) R) →
  I s → 0 ≤ m s < Z.of_nat fuel →
  wp (loop fuel body s) Q R.
Proof.
  intros Hbody. revert s. induction fuel as [|fuel IH]; intros s Hs Hm; [lia|].
  simpl. apply wp_bind. eapply wp_mono; [by apply Hbody | | done].
  intros [s'|a]; [|done]. intros [HI Hlt]. apply IH; [done|lia].
Qed.

(** A [for] loop over a vector whose body may return early with an error. *)
Fixpoint foldM {E S A} (f : S → A → res E S) (s : S) (l : list A) : res E S :=
  match l with
  | [] => Ok s
  | a :: l => s' ← f s a; foldM f s' l
  end.

Lemma wp_foldM {E S A} (I : list A → S → Prop) (f : S → A → res E S)
    (Q : S → Prop) (R : E → Prop) (l done : list A) (s : S) :
  (∀ pre a post s, done ++ l = pre ++ a :: post → I pre s →
     wp (f s a) (I (pre ++ [a])) R) →
  I done s → (∀ s, I (done ++ l) s → Q s) →
  wp (foldM f s l) Q R.
Proof.
  revert done s. induction l as [|a l IH]; intros done s Hf Hs HQ; simpl.
  - apply HQ. by rewrite app_nil_r.
  - apply wp_bind. eapply wp_mono; [by apply (Hf done a l) | | auto].
    intros s' Hs'. apply (IH (done ++ [a])); rewrite <- ?app_assoc; auto.
Qed.

Lemma foldM_app {E S A} (f : S → A → res E S) s l1 l2 :
  foldM f s (l1 ++ l2) = (s' ← foldM f s l1; foldM f s' l2).
Proof.
  revert s. induction l1 as [|a l1 IH]; intros s; simpl; [done|].
  destruct (f s a); simpl; auto.
Qed.

(** ** Machine integers

    Every Rust integer is a [Z] together with the range of its type; [usize] is
    64 bits wide. *)
Abbreviation u8_max := 255 (only parsing).
Abbreviation u16_max := 65535 (only parsing).
Abbreviation u32_max := 4294967295 (only parsing).
Abbreviation u64_max := 18446744073709551615 (only parsing).
Abbreviation usize_max := 18446744073709551615 (only parsing).
Abbreviation i64_max := 9223372036854775807 (only parsing).
Abbreviation i64_min := (-9223372036854775808) (only parsing).
Abbreviation u128_max := 340282366920938463463374607431768211455 (only parsing).
Abbreviation i128_max := 170141183460469231731687303715884105727 (only parsing).
Abbreviation i128_min := (-170141183460469231731687303715884105728) (only parsing).

(** [a + b] and [a - b] on an unsigned type with maximum [max]: overflow aborts. *)
Definition add_ovf {E} (max a b : Z) : res E Z :=
  if a + b <=? max then Ok (a + b) else Panic.
Definition sub_ovf {E} (a b : Z) : res E Z :=
  if b <=? a then Ok (a - b) else Panic.
Definition mul_ovf {E} (max a b : Z) : res E Z :=
  if a * b <=? max then Ok (a * b) else Panic.

(** The same on a signed type with range [min..max]. *)
Definition signed_ovf {E} (min max v : Z) : res E Z :=
  if (min <=? v) && (v <=? max) then Ok v else Panic.

(** [checked_add], [checked_sub], [checked_mul], [saturating_sub] of an
    unsigned type. *)
Definition checked_add (max a b : Z) : option Z :=
  if a + b <=? max then Some (a + b) else None.
Definition checked_sub (a b : Z) : option Z :=
  if b <=? a then Some (a - b) else None.
Definition checked_mul (max a b : Z) : option Z :=
  if a * b <=? max then Some (a * b) else None.
Definition saturating_add (max a b : Z) : Z := Z.min max (a + b).
Definition saturating_sub (a b : Z) : Z := Z.max 0 (a - b).

(** [checked_add] of a signed type with range [min..max]. *)
Definition checked_add_signed (min max a b : Z) : option Z :=
  if (min <=? a + b) && (a + b <=? max) then Some (a + b) else None.

(** [wrapping_add]/[wrapping_sub] at width [w], and the reinterpretation of an
    unsigned [w]-bit value as a signed one ([as i32], [as i64]). *)
Definition wrapping_add (w a b : Z) : Z := (a + b) mod 2 ^ w.
Definition wrapping_sub (w a b : Z) : Z := (a - b) mod 2 ^ w.
Definition as_signed (w a : Z) : Z := if a <? 2 ^ (w - 1) then a else a - 2 ^ w.
Definition as_unsigned (w a : Z) : Z := a mod 2 ^ w.

(** [usize::div_ceil]. *)
Definition div_ceil (a b : Z) : Z := (a + b - 1) / b.

Section word_rules.
Context {E : Type}.

Lemma wp_add_ovf max a b (Q : Z → Prop) (R : E → Prop) :
  a + b ≤ max → Q (a + b) → wp (add_ovf max a b) Q R.
Proof. intros. unfold add_ovf. by rewrite (proj2 (Z.leb_le _ _)) by done. Qed.

Lemma wp_sub_ovf a b (Q : Z → Prop) (R : E → Prop) :
  b ≤ a → Q (a - b) → wp (sub_ovf a b) Q R.
Proof. intros. unfold sub_ovf. by rewrite (proj2 (Z.leb_le _ _)) by done. Qed.

Lemma wp_signed_ovf min max v (Q : Z → Prop) (R : E → Prop) :
  min ≤ v ≤ max → Q v → wp (signed_ovf min max v) Q R.
Proof. intros [? ?] ?. unfold signed_ovf. by rewrite !(proj2 (Z.leb_le _ _)) by done. Qed.

Lemma signed_ovf_ok min max v : min ≤ v ≤ max → @signed_ovf E min max v = Ok v.
Proof. intros [? ?]. unfold signed_ovf. by rewrite !(proj2 (Z.leb_le _ _)) by done. Qed.

Lemma mul_ovf_ok max a b : a * b ≤ max → @mul_ovf E max a b = Ok (a * b).
Proof. intros. unfold mul_ovf. by rewrite (proj2 (Z.leb_le _ _)) by done. Qed.

Lemma add_ovf_ok max a b : a + b ≤ max → @add_ovf E max a b = Ok (a + b).
Proof. intros. unfold add_ovf. by rewrite (proj2 (Z.leb_le _ _)) by done. Qed.

Lemma sub_ovf_ok a b : b ≤ a → @sub_ovf E a b = Ok (a - b).
Proof. intros. unfold sub_ovf. by rewrite (proj2 (Z.leb_le _ _)) by done. Qed.
End word_rules.

Lemma checked_add_Some max a b n :
  checked_add max a b = Some n ↔ n = a + b ∧ a + b ≤ max.
Proof. unfold checked_add. destruct (Z.leb_spec (a + b) max); naive_solver lia. Qed.

Lemma checked_add_None max a b : checked_add max a b = None ↔ max < a + b.
Proof. unfold checked_add. destruct (Z.leb_spec (a + b) max); naive_solver lia. Qed.

Lemma land_bound x m : 0 ≤ m → 0 ≤ Z.land x m ≤ m.
Proof.
  intros Hm. split; [by apply Z.land_nonneg; right|].
  rewrite Z.land_comm. apply Z.ldiff_le; [done|]. 
  apply Z.bits_inj'. intros i Hi.
  rewrite Z.ldiff_spec, Z.land_spec, Z.bits_0.
  by destruct (Z.testbit m i), (Z.testbit x i).
Qed.

Lemma land_ones_mod x n : 0 ≤ n → Z.land x (2 ^ n - 1) = x mod 2 ^ n.
Proof. intros. rewrite <- Z.land_ones by done. f_equal. rewrite Z.ones_equiv. lia. Qed.

Lemma shiftr_bound x n m : 0 ≤ x < m * 2 ^ n → 0 ≤ n → 0 ≤ Z.shiftr x n < m.
Proof.
  intros [H1 H2] Hn. rewrite Z.shiftr_div_pow2 by done.
  assert (0 < 2 ^ n) by (apply Z.pow_pos_nonneg; lia).
  split; [by apply Z.div_pos|]. apply Z.div_lt_upper_bound; lia.
Qed.

(** ** Slices *)

(** [v.len()]. *)
Definition zlen {A} (l : list A) : Z := Z.of_nat (length l).

(** [&v[a..b]], of which the Rust code checks the range (below). *)
Definition sub {A} (l : list A) (a b : Z) : list A :=
  take (Z.to_nat (b - a)) (drop (Z.to_nat a) l).

(** The element a checked access [v[i]] returns; 0 outside the range. *)
Definition nthz (l : list Z) (i : Z) : Z := nth (Z.to_nat i) l 0.

(** [v[i]]: outside the vector the program aborts. *)
Definition idx {E} (l : list Z) (i : Z) : res E Z :=
  if (0 <=? i) && (i <? zlen l) then Ok (nthz l i) else Panic.

(** [v[i]] on a vector of any type. *)
Definition index {E A} (l : list A) (i : Z) : res E A :=
  if 0 <=? i
  then match l !! Z.to_nat i with Some x => Ok x | None => Panic end
  else Panic.

(** [v.get(i)]. *)
Definition get {A} (l : list A) (i : Z) : option A :=
  if 0 <=? i then l !! Z.to_nat i else None.

(** [&v[a..b]]: an inverted or out-of-range slice aborts. *)
Definition slice {E A} (l : list A) (a b : Z) : res E (list A) :=
  if (0 <=? a) && (a <=? b) && (b <=? zlen l) then Ok (sub l a b) else Panic.

(** [iter().enumerate()]. *)
Definition enumerate {A} (l : list A) : list (Z * A) := zip (seqZ 0 (zlen l)) l.

(** [v.get(a..b)]. *)
Definition get_range {A} (l : list A) (a b : Z) : option (list A) :=
  if (0 <=? a) && (a <=? b) && (b <=? zlen l) then Some (sub l a b) else None.

(** [v[a..]]. *)
Definition slice_from {E A} (l : list A) (a : Z) : res E (list A) :=
  slice l a (zlen l).

Definition is_byte (b : Z) : Prop := 0 ≤ b < 256.
Definition bytes_ok (l : list Z) : Prop := Forall is_byte l.

(** Equality of byte slices. *)
Fixpoint bytes_eqb (a b : list Z) : bool :=
  match a, b with
  | [], [] => true
  | x :: a, y :: b => (x =? y) && bytes_eqb a b
  | _, _ => false
  end.

Lemma elem_of_concat {A} (x : A) (ls : list (list A)) : x ∈ concat ls ↔ ∃ l, l ∈ ls ∧ x ∈ l.
Proof. rewrite list_elem_of_In, in_concat. by setoid_rewrite <- list_elem_of_In. Qed.

Lemma filter_forall {A} (p : A → bool) l : Forall (λ x, p x = true) l → List.filter p l = l.
Proof. induction 1 as [|x l Hx _ IH]; simpl; [done|]. by rewrite Hx, IH. Qed.

Lemma filter_none {A} (p : A → bool) l : Forall (λ x, p x = false) l → List.filter p l = [].
Proof. induction 1 as [|x l Hx _ IH]; simpl; [done|]. by rewrite Hx. Qed.

Section slice_rules.
Context {A : Type}.
Implicit Types l k : list A.

Lemma zlen_nonneg l : 0 ≤ zlen l.
Proof. unfold zlen. lia. Qed.

Lemma zlen_nil : zlen (@nil A) = 0.
Proof. done. Qed.

Lemma zlen_cons x l : zlen (x :: l) = 1 + zlen l.
Proof. unfold zlen. simpl. lia. Qed.

Lemma zlen_app l k : zlen (l ++ k) = zlen l + zlen k.
Proof. unfold zlen. rewrite length_app. lia. Qed.

Lemma zlen_0_nil l : zlen l = 0 → l = [].
Proof. destruct l; [done|]. rewrite zlen_cons. pose proof (zlen_nonneg l). lia. Qed.

Lemma zlen_sub l a b : 0 ≤ a → a ≤ b → b ≤ zlen l → zlen (sub l a b) = b - a.
Proof. unfold zlen, sub. intros. rewrite length_take, length_drop. lia. Qed.

Lemma sub_full l : sub l 0 (zlen l) = l.
Proof. unfold sub, zlen. rewrite drop_0. apply take_ge. lia. Qed.

Lemma sub_empty l a : sub l a a = [].
Proof. unfold sub. by rewrite Z.sub_diag, take_0. Qed.

Lemma sub_sub l a b c d :
  0 ≤ a → 0 ≤ c → c ≤ d → d ≤ b - a → sub (sub l a b) c d = sub l (a + c) (a + d).
Proof.
  intros. unfold sub.
  rewrite skipn_firstn_comm, firstn_firstn, skipn_skipn.
  f_equal; [lia|f_equal; lia].
Qed.

Lemma sub_app_l l k a b : 0 ≤ a → b ≤ zlen l → sub (l ++ k) a b = sub l a b.
Proof.
  unfold sub, zlen. intros Ha Hb. destruct (decide (a ≤ b)).
  - rewrite drop_app_le by lia. apply take_app_le. rewrite length_drop. lia.
  - by replace (Z.to_nat (b - a)) with 0%nat by lia.
Qed.

Lemma sub_app_r l k a b :
  zlen l ≤ a → sub (l ++ k) a b = sub k (a - zlen l) (b - zlen l).
Proof.
  unfold sub, zlen. intros Ha. rewrite drop_app_ge by lia.
  f_equal; [lia|f_equal; lia].
Qed.

Lemma sub_split l a m b :
  0 ≤ a → a ≤ m → m ≤ b → sub l a b = sub l a m ++ sub l m b.
Proof.
  unfold sub. intros.
  replace (Z.to_nat (b - a)) with (Z.to_nat (m - a) + Z.to_nat (b - m))%nat by lia.
  rewrite <- take_take_drop, drop_drop. do 3 f_equal. lia.
Qed.

Lemma sub_0_app l k : sub (l ++ k) 0 (zlen l) = l.
Proof. rewrite sub_app_l by lia. apply sub_full. Qed.

Lemma sub_cons_0 x l b : 1 ≤ b → sub (x :: l) 0 b = x :: sub l 0 (b - 1).
Proof.
  unfold sub. intros. rewrite !drop_0.
  replace (Z.to_nat (b - 0)) with (S (Z.to_nat (b - 1 - 0))) by lia. done.
Qed.

Lemma sub_cons_S x l a b : 1 ≤ a → sub (x :: l) a b = sub l (a - 1) (b - 1).
Proof.
  unfold sub. intros. replace (Z.to_nat a) with (S (Z.to_nat (a - 1))) by lia.
  simpl. f_equal. lia.
Qed.

Lemma lookup_sub l a b (i : nat) :
  0 ≤ a → Z.of_nat i < b - a → sub l a b !! i = l !! (Z.to_nat a + i)%nat.
Proof. intros. unfold sub. rewrite lookup_take_lt by lia. apply lookup_drop. Qed.

Lemma Forall_sub (P : A → Prop) l a b : Forall P l → Forall P (sub l a b).
Proof. intros. unfold sub. by apply Forall_take, Forall_drop. Qed.

Lemma wp_slice {E} l a b (Q : list A → Prop) (R : E → Prop) :
  0 ≤ a → a ≤ b → b ≤ zlen l → Q (sub l a b) → wp (slice l a b) Q R.
Proof.
  intros. unfold slice.
  by rewrite !(proj2 (Z.leb_le _ _)) by done.
Qed.

Lemma slice_ok {E} l a b :
  0 ≤ a → a ≤ b → b ≤ zlen l → slice (E:=E) l a b = Ok (sub l a b).
Proof. intros. unfold slice. by rewrite !(proj2 (Z.leb_le _ _)) by done. Qed.

Lemma slice_inv {E} l a b k :
  slice (E:=E) l a b = Ok k → k = sub l a b ∧ 0 ≤ a ∧ a ≤ b ∧ b ≤ zlen l.
Proof.
  unfold slice. destruct (_ && _) eqn:H; [|done].
  apply andb_true_iff in H as [[]%andb_true_iff ?].
  intros; simplify_eq; split; [done|lia].
Qed.

Lemma get_Some l i x :
  get l i = Some x ↔ 0 ≤ i ∧ l !! Z.to_nat i = Some x.
Proof. unfold get. destruct (Z.leb_spec 0 i); naive_solver lia. Qed.

Lemma get_None l i : 0 ≤ i → get l i = None ↔ zlen l ≤ i.
Proof.
  intros. unfold get, zlen. rewrite (proj2 (Z.leb_le _ _)) by done.
  rewrite lookup_ge_None. lia.
Qed.

Lemma get_range_Some l a b k :
  get_range l a b = Some k ↔ k = sub l a b ∧ 0 ≤ a ∧ a ≤ b ∧ b ≤ zlen l.
Proof.
  unfold get_range.
  destruct (Z.leb_spec 0 a), (Z.leb_spec a b), (Z.leb_spec b (zlen l)); simpl;
    naive_solver lia.
Qed.
End slice_rules.

Lemma enumerate_get {A} (l : list A) i x : (i, x) ∈ enumerate l → get l i = Some x.
Proof.
  intros (n & Hn)%list_elem_of_lookup. unfold enumerate in Hn. rewrite lookup_zip_with in Hn.
  apply bind_Some in Hn as (a & Ha & Hn). apply bind_Some in Hn as (b & Hb & [= -> ->]).
  apply lookup_seqZ in Ha as [-> _]. apply get_Some. split; [lia|]. by replace (Z.to_nat _) with n by lia.
Qed.

Lemma enumerate_member {A} (l : list A) pre i x post :
  [] ++ enumerate l = pre ++ (i, x) :: post → get l i = Some x.
Proof. intros H. apply enumerate_get. rewrite app_nil_l in H. rewrite H. set_solver. Qed.

Lemma elem_of_enumerate {A} (l : list A) i x : get l i = Some x → (i, x) ∈ enumerate l.
Proof.
  intros [Hi Hl]%get_Some. apply list_elem_of_lookup. exists (Z.to_nat i). unfold enumerate.
  rewrite lookup_zip_with, Hl. rewrite (proj2 (lookup_seqZ 0 (zlen l) _ i)); [done|].
  apply lookup_lt_Some in Hl. unfold zlen. lia.
Qed.

Lemma get_snoc {A} (l : list A) x : get (l ++ [x]) (zlen l) = Some x.
Proof.
  apply get_Some. split; [apply zlen_nonneg|]. rewrite lookup_app_r by (unfold zlen; lia).
  replace (Z.to_nat (zlen l) - length l)%nat with 0%nat by (unfold zlen; lia). done.
Qed.

Lemma index_get {E A} (l : list A) i x (Q : A → Prop) (R : E → Prop) :
  get l i = Some x → Q x → wp (index l i) Q R.
Proof.
  intros [Hi Hl]%get_Some HQ. unfold index. rewrite (proj2 (Z.leb_le _ _)) by done. by rewrite Hl.
Qed.

#[global] Hint Resolve zlen_nonneg : core.

Section byte_rules.
Implicit Types l k : list Z.

Lemma nthz_0 x l : nthz (x :: l) 0 = x.
Proof. done. Qed.

Lemma nthz_S x l i : 1 ≤ i → nthz (x :: l) i = nthz l (i - 1).
Proof.
  intros. unfold nthz. replace (Z.to_nat i) with (S (Z.to_nat (i - 1))) by lia. done.
Qed.

Lemma nthz_lookup l i x : 0 ≤ i → l !! Z.to_nat i = Some x → nthz l i = x.
Proof. intros _ H. unfold nthz. by apply nth_lookup_Some. Qed.

Lemma nthz_byte l i : bytes_ok l → 0 ≤ nthz l i < 256.
Proof.
  intros H. unfold nthz.
  destruct (nth_in_or_default (Z.to_nat i) l 0) as [Hin| ->]; [|lia].
  apply list_elem_of_In in Hin. by eapply Forall_forall in H.
Qed.

Lemma nthz_drop l n i : 0 ≤ n → 0 ≤ i → nthz (drop (Z.to_nat n) l) i = nthz l (n + i).
Proof.
  intros. unfold nthz. replace (Z.to_nat (n + i)) with (Z.to_nat n + Z.to_nat i)%nat by lia.
  generalize (Z.to_nat n) (Z.to_nat i). clear. intros n i. revert l.
  induction n as [|n IH]; intros [|x l]; simpl; auto. by destruct i.
Qed.

Lemma nthz_take l n i : 0 ≤ i < n → nthz (take (Z.to_nat n) l) i = nthz l i.
Proof.
  intros. unfold nthz. assert (Z.to_nat i < Z.to_nat n)%nat as Hlt by lia. revert Hlt.
  generalize (Z.to_nat n) (Z.to_nat i). clear. intros n i. revert l i.
  induction n as [|n IH]; intros [|x l] [|i]; simpl; auto with lia.
Qed.

Lemma nthz_sub l a b i : 0 ≤ a → 0 ≤ i < b - a → nthz (sub l a b) i = nthz l (a + i).
Proof. intros. unfold sub. rewrite nthz_take, nthz_drop by lia. done. Qed.

Lemma nthz_app_l l k i : 0 ≤ i < zlen l → nthz (l ++ k) i = nthz l i.
Proof. unfold nthz, zlen. intros. apply app_nth1. lia. Qed.

Lemma nthz_app_r l k i : zlen l ≤ i → nthz (l ++ k) i = nthz k (i - zlen l).
Proof.
  unfold nthz, zlen. intros. rewrite app_nth2 by lia. f_equal. lia.
Qed.

Lemma lookup_nthz l i : 0 ≤ i < zlen l → l !! Z.to_nat i = Some (nthz l i).
Proof.
  unfold nthz, zlen. intros. destruct (lookup_lt_is_Some_2 l (Z.to_nat i)) as [x Hx]; [lia|].
  rewrite Hx. f_equal. symmetry. by apply nth_lookup_Some.
Qed.

Lemma sub_one l i : 0 ≤ i < zlen l → sub l i (i + 1) = [nthz l i].
Proof.
  intros Hi. unfold sub. replace (Z.to_nat (i + 1 - i)) with 1%nat by lia.
  pose proof (lookup_nthz l i Hi) as Hl. by rewrite (drop_S _ _ _ Hl).
Qed.

Lemma wp_idx {E} l i (Q : Z → Prop) (R : E → Prop) :
  0 ≤ i < zlen l → Q (nthz l i) → wp (idx l i) Q R.
Proof.
  intros [? ?] ?. unfold idx.
  by rewrite (proj2 (Z.leb_le _ _)), (proj2 (Z.ltb_lt _ _)) by done.
Qed.

Lemma idx_ok {E} l i : 0 ≤ i < zlen l → idx (E:=E) l i = Ok (nthz l i).
Proof.
  intros [? ?]. unfold idx.
  by rewrite (proj2 (Z.leb_le _ _)), (proj2 (Z.ltb_lt _ _)) by done.
Qed.

Lemma bytes_ok_sub l a b : bytes_ok l → bytes_ok (sub l a b).
Proof. apply Forall_sub. Qed.

Lemma bytes_ok_app l k : bytes_ok (l ++ k) ↔ bytes_ok l ∧ bytes_ok k.
Proof. apply Forall_app. Qed.

Lemma bytes_eqb_eq l k : bytes_eqb l k = true ↔ l = k.
Proof.
  revert k. induction l as [|x l IH]; intros [|y k]; simpl; try naive_solver.
  rewrite andb_true_iff, IH, Z.eqb_eq. naive_solver.
Qed.

Lemma bytes_eqb_neq l k : bytes_eqb l k = false ↔ l ≠ k.
Proof. rewrite <- not_true_iff_false, bytes_eqb_eq. done. Qed.

Lemma bytes_eqb_refl l : bytes_eqb l l = true.
Proof. by apply bytes_eqb_eq. Qed.
End byte_rules.

(** ** Byte orders *)

(** [uN::from_be_bytes] and [uN::from_le_bytes]. *)
Definition from_be_bytes (l : list Z) : Z := fold_left (λ acc b, acc * 256 + b) l 0.
Definition from_le_bytes (l : list Z) : Z := foldr (λ b acc, b + 256 * acc) 0 l.

(** [to_le_bytes]/[to_be_bytes] of an [n]-byte integer. *)
Fixpoint to_le_bytes (n : nat) (v : Z) : list Z :=
  match n with
  | O => []
  | S n => v mod 256 :: to_le_bytes n (v / 256)
  end.
Definition to_be_bytes (n : nat) (v : Z) : list Z := rev (to_le_bytes n v).

Lemma from_be_rev l : from_be_bytes l = from_le_bytes (rev l).
Proof.
  unfold from_be_bytes, from_le_bytes. rewrite <- fold_left_rev_right.
  change (@foldr Z Z) with (@fold_right Z Z).
  induction (rev l) as [|x k IH]; simpl; [done|]. rewrite IH. lia.
Qed.

Lemma from_le_bound l : bytes_ok l → 0 ≤ from_le_bytes l < 256 ^ zlen l.
Proof.
  unfold from_le_bytes. induction 1 as [|x l Hx Hl IH]; simpl; [done|].
  rewrite zlen_cons, Z.pow_add_r by (auto || lia). unfold is_byte in Hx. lia.
Qed.

Lemma length_to_le_bytes n v : length (to_le_bytes n v) = n.
Proof. revert v. induction n; simpl; auto. Qed.

Lemma to_le_bytes_ok n v : bytes_ok (to_le_bytes n v).
Proof.
  revert v. induction n as [|n IH]; intros v; simpl; constructor; [|apply IH].
  apply Z.mod_pos_bound. lia.
Qed.

Lemma from_to_le n v : from_le_bytes (to_le_bytes n v) = v mod 256 ^ Z.of_nat n.
Proof.
  revert v. unfold from_le_bytes. induction n as [|n IH]; intros v; simpl; [by rewrite Z.mod_1_r|].
  rewrite IH. replace (Z.of_nat (S n)) with (1 + Z.of_nat n) by lia.
  rewrite Z.pow_add_r by lia. rewrite Z.pow_1_r.
  assert (0 < 256 ^ Z.of_nat n) by (apply Z.pow_pos_nonneg; lia).
  rewrite (Z.rem_mul_r v 256) by lia. lia.
Qed.

Lemma to_from_le l : bytes_ok l → to_le_bytes (length l) (from_le_bytes l) = l.
Proof.
  unfold from_le_bytes. induction 1 as [|x l Hx Hl IH]; simpl; [done|].
  unfold is_byte in Hx. f_equal.
  - rewrite (Z.mul_comm 256), Z.mod_add, Z.mod_small by lia. done.
  - rewrite (Z.mul_comm 256), Z.div_add, Z.div_small, Z.add_0_l by lia. done.
Qed.

Lemma from_be_bound l : bytes_ok l → 0 ≤ from_be_bytes l < 256 ^ zlen l.
Proof.
  intros H. rewrite from_be_rev. unfold zlen. rewrite <- (length_rev l).
  apply from_le_bound. by apply Forall_rev.
Qed.

Lemma from_to_be n v : from_be_bytes (to_be_bytes n v) = v mod 256 ^ Z.of_nat n.
Proof. rewrite from_be_rev. unfold to_be_bytes. by rewrite rev_involutive, from_to_le. Qed.

Lemma length_to_be_bytes n v : length (to_be_bytes n v) = n.
Proof. unfold to_be_bytes. by rewrite length_rev, length_to_le_bytes. Qed.

Lemma to_be_bytes_ok n v : bytes_ok (to_be_bytes n v).
Proof. apply Forall_rev, to_le_bytes_ok. Qed.

(** ** Automation *)

Create HintDb pcap discriminated.
#[export] Hint Resolve zlen_nonneg bytes_ok_sub nthz_byte : pcap.

(** [lia] for goals with [/] and [mod] by a positive constant. *)
Ltac dlia := Z.to_euclidean_division_equations; lia.

(** Split the boolean tests of the source into the facts they establish. *)
Ltac bool_facts :=
  repeat match goal with
  | H : andb _ _ = true |- _ => apply andb_true_iff in H as [? ?]
  | H : orb _ _ = false |- _ => apply orb_false_iff in H as [? ?]
  | H : negb _ = true |- _ => apply negb_true_iff in H
  | H : negb _ = false |- _ => apply negb_false_iff in H
  | H : bytes_eqb _ _ = true |- _ => apply bytes_eqb_eq in H
  | H : bytes_eqb _ _ = false |- _ => apply bytes_eqb_neq in H
  end.

(** Rewrite the lengths of slices that are in range. *)
Ltac slice_len :=
  repeat match goal with
  | |- context [zlen (sub ?l ?a ?b)] => rewrite (zlen_sub l a b) by lia
  | H : context [zlen (sub ?l ?a ?b)] |- _ => rewrite (zlen_sub l a b) in H by lia
  end.

(** One step of a safety proof: follow the outermost operation of the program. *)
Ltac wp_step :=
  lazymatch goal with
  | |- wp (mbind _ _) _ _ => apply wp_bind
  | |- wp (Ok _) _ _ => apply wp_ok
  | |- wp (Err _) _ _ => apply wp_err
  | |- wp (idx _ _) _ _ => apply wp_idx; [slice_len; lia|]
  | |- wp (slice _ _ _) _ _ => apply wp_slice; [lia|lia|slice_len; lia|]
  | |- wp (add_ovf _ _ _) _ _ => apply wp_add_ovf; [lia|]
  | |- wp (sub_ovf _ _) _ _ => apply wp_sub_ovf; [lia|]
  | |- wp (signed_ovf _ _ _) _ _ => apply wp_signed_ovf; [lia|]
  | |- wp (catch _) _ _ => apply wp_catch
  | |- wp (ok_or _ _) _ _ => apply wp_ok_or; intros
  | |- wp (if ?c then _ else _) _ _ => destruct c eqn:?; bool_facts
  | |- wp (let _ := _ in _) _ _ => cbv zeta
  end.
Ltac wp_go := repeat wp_step.
