(* ===== verification/Errors.v ===== *)
(** * Errors and resource limits (src/error.rs, src/limits.rs)

    The error value every fallible routine of the crate returns, the length
    check [require] that guards the parsers, and the resource budgets. *)

From S2P Require Import Prelude.

(** ** error.rs *)

Inductive ErrorCode : Type :=
| Io | Usage | BadMagic | UnsupportedVersion | Truncated | InvalidLength
| LengthMismatch | InvalidOption | MissingInterface | InvalidTimestamp
| InexactTimestamp | LimitExceeded | UnsupportedLink | UnsupportedNetwork
| UnsupportedTransport | MalformedPacket | Checksum | FragmentConflict
| SequenceAmbiguous | ProtocolFraming | InvalidIndex | SourceMismatch
| InvalidLabel | OutputExists | Invariant.

#[global] Instance ErrorCode_eq_dec : EqDecision ErrorCode.
Proof. solve_decision. Defined.

(** [ErrorCode::as_str]. *)
Definition as_str (c : ErrorCode) : string :=
  match c with
  | Io => "io"
  | Usage => "usage"
  | BadMagic => "bad_magic"
  | UnsupportedVersion => "unsupported_version"
  | Truncated => "truncated"
  | InvalidLength => "invalid_length"
  | LengthMismatch => "length_mismatch"
  | InvalidOption => "invalid_option"
  | MissingInterface => "missing_interface"
  | InvalidTimestamp => "invalid_timestamp"
  | InexactTimestamp => "inexact_timestamp"
  | LimitExceeded => "limit_exceeded"
  | UnsupportedLink => "unsupported_link"
  | UnsupportedNetwork => "unsupported_network"
  | UnsupportedTransport => "unsupported_transport"
  | MalformedPacket => "malformed_packet"
  | Checksum => "checksum"
  | FragmentConflict => "fragment_conflict"
  | SequenceAmbiguous => "sequence_ambiguous"
  | ProtocolFraming => "protocol_framing"
  | InvalidIndex => "invalid_index"
  | SourceMismatch => "source_mismatch"
  | InvalidLabel => "invalid_label"
  | OutputExists => "output_exists"
  | Invariant => "invariant"
  end.

Record Error : Type := error_new {
  code : ErrorCode;
  offset : Z;
  field : string;
  detail : string;
}.

Abbreviation result := (res Error).

(** [Error::limit]. *)
Definition limit (field : string) : Error :=
  error_new LimitExceeded 0 field "configured resource budget exceeded".

(** A resource budget is exhausted. *)
Definition is_limit (e : Error) : Prop := ∃ s, e = limit s.

(** [require(data, count, offset, field)]. *)
Definition require (data : list Z) (count off : Z) (fld : string) : result unit :=
  if zlen data <? count
  then Err (error_new Truncated off fld
              ("need " +:+ pretty count +:+ " bytes; have " +:+ pretty (zlen data)))
  else Ok ().

Lemma wp_require data count off fld (Q : unit → Prop) (R : Error → Prop) :
  (zlen data < count →
     R (error_new Truncated off fld
          ("need " +:+ pretty count +:+ " bytes; have " +:+ pretty (zlen data)))) →
  (count ≤ zlen data → Q ()) →
  wp (require data count off fld) Q R.
Proof. intros. unfold require. destruct (Z.ltb_spec (zlen data) count); simpl; auto. Qed.

Lemma require_ok data count off fld u :
  require data count off fld = Ok u → count ≤ zlen data.
Proof. unfold require. destruct (Z.ltb_spec (zlen data) count); naive_solver. Qed.

Lemma require_pass data count off fld :
  count ≤ zlen data → require data count off fld = Ok ().
Proof. intros. unfold require. by rewrite (proj2 (Z.ltb_ge _ _)). Qed.

(** ** limits.rs *)

Record Limits : Type := {
  max_input_bytes : Z;
  max_block_bytes : Z;
  max_packet_bytes : Z;
  max_records : Z;
  max_interfaces : Z;
  max_options : Z;
  max_flows : Z;
  max_segments_per_flow : Z;
  max_stream_span : Z;
  max_retained_payload : Z;
  max_fragment_sets : Z;
  max_fragments_per_set : Z;
  fragment_frame_lifetime : Z;
  max_protocol_messages : Z;
  max_application_bytes : Z;
  max_labels : Z;
  max_correlation_checks : Z;
}.

(** [Limits::default]. *)
Definition limits_default : Limits := {|
  max_input_bytes := 256 * 1024 * 1024;
  max_block_bytes := 16 * 1024 * 1024;
  max_packet_bytes := 1024 * 1024;
  max_records := 1000000;
  max_interfaces := 1024;
  max_options := 4096;
  max_flows := 4096;
  max_segments_per_flow := 16384;
  max_stream_span := 4 * 1024 * 1024;
  max_retained_payload := 64 * 1024 * 1024;
  max_fragment_sets := 1024;
  max_fragments_per_set := 1024;
  fragment_frame_lifetime := 100000;
  max_protocol_messages := 100000;
  max_application_bytes := 1024 * 1024;
  max_labels := 10000;
  max_correlation_checks := 5000000;
|}.

(** The array [nonzero] that [Limits::validate] inspects. *)
Definition limit_fields (l : Limits) : list Z :=
  [ max_input_bytes l; max_block_bytes l; max_packet_bytes l; max_records l;
    max_interfaces l; max_options l; max_flows l; max_segments_per_flow l;
    max_stream_span l; max_retained_payload l; max_fragment_sets l;
    max_fragments_per_set l; max_protocol_messages l; max_application_bytes l;
    max_labels l; max_correlation_checks l ].

(** [Limits::validate]. *)
Definition validate (l : Limits) : result unit :=
  if existsb (Z.eqb 0) (limit_fields l) || (fragment_frame_lifetime l =? 0)
  then Err (error_new Usage 0 "limits" "all resource limits must be positive")
  else if (Z.shiftl 1 30 <=? max_stream_span l) || (max_block_bytes l <? 28)
  then Err (error_new Usage 0 "limits" "stream span must be < 2^30 and block limit >= 28")
  else Ok ().

(** Every limit is a [usize] ([fragment_frame_lifetime] a [u64]). *)
Definition limits_typed (l : Limits) : Prop :=
  Forall (λ n, 0 ≤ n ≤ usize_max) (fragment_frame_lifetime l :: limit_fields l).

(** What [validate] establishes of a [Limits] value. *)
Definition limits_ok (l : Limits) : Prop :=
  limits_typed l ∧ Forall (λ n, 1 ≤ n) (fragment_frame_lifetime l :: limit_fields l) ∧
  max_stream_span l < 2 ^ 30 ∧ 28 ≤ max_block_bytes l.

Lemma existsb_zero_false l :
  Forall (λ n, 0 ≤ n ≤ usize_max) l →
  existsb (Z.eqb 0) l = false → Forall (λ n, 1 ≤ n) l.
Proof.
  induction 1 as [|x l Hx Hl IH]; cbn [existsb]; [constructor|].
  intros [H1 H2]%orb_false_iff. constructor; [|auto].
  apply Z.eqb_neq in H1. lia.
Qed.

Lemma validate_limits_ok l u : limits_typed l → validate l = Ok u → limits_ok l.
Proof.
  intros Ht. unfold validate. case_match; [done|]. case_match; [done|].
  intros _. bool_facts.
  apply Forall_cons in Ht as Ht'. destruct Ht' as [Hf Hl].
  split; [done|]. split; [|change (Z.shiftl 1 30) with (2 ^ 30) in *; lia].
  constructor; [lia|]. by apply existsb_zero_false.
Qed.

Lemma wp_validate l (Q : unit → Prop) (R : Error → Prop) :
  limits_typed l → (limits_ok l → Q ()) → (∀ e, code e = Usage → R e) →
  wp (validate l) Q R.
Proof.
  intros Ht HQ HR. destruct (validate l) as [[]|e| |] eqn:Hv; simpl.
  - apply HQ. by eapply validate_limits_ok.
  - apply HR. revert Hv. unfold validate. repeat case_match; naive_solver.
  - revert Hv. unfold validate. repeat case_match; done.
  - revert Hv. unfold validate. repeat case_match; done.
Qed.

Lemma limits_ok_validate l : limits_ok l → validate l = Ok ().
Proof.
  intros (Ht & Hp & Hs & Hb). unfold validate.
  apply Forall_cons in Hp as [Hf Hp].
  assert (existsb (Z.eqb 0) (limit_fields l) = false) as ->.
  { clear -Hp. induction Hp as [|x k Hx Hk IH]; cbn [existsb]; [done|].
    rewrite IH, orb_false_r. apply Z.eqb_neq. lia. }
  rewrite (proj2 (Z.eqb_neq _ _)) by lia. simpl.
  change (Z.shiftl 1 30) with (2 ^ 30).
  by rewrite (proj2 (Z.leb_gt _ _)), (proj2 (Z.ltb_ge _ _)) by lia.
Qed.

(** The facts about one limit, for [lia]. *)
Ltac limits_facts H :=
  let Ht := fresh in let Hp := fresh in
  destruct H as (Ht & Hp & ? & ?);
  unfold limits_typed, limit_fields in Ht, Hp;
  repeat (apply Forall_cons in Ht as [? Ht]; apply Forall_cons in Hp as [? Hp]);
  clear Ht Hp.

Lemma limits_default_ok : limits_ok limits_default.
Proof.
  split; [|split; [|split]]; unfold limits_typed, limit_fields; simpl;
    repeat (constructor; [lia|]); try constructor; lia.
Qed.
