(* ===== verification/Stateful.v ===== *)
(** * Computations with a state that survives errors

    A function with a [&mut] parameter may return early with an error and leave what
    it has changed so far; the caller goes on with it.  [Stateful S A] is such a
    function: the state it leaves comes with a value, an error or an abort alike. *)

From S2P Require Import Prelude Errors.

Definition Stateful (S A : Type) : Type := S → S * result A.

#[global] Instance stateful_ret {S} : MRet (Stateful S) := λ A a s, (s, Ok a).
#[global] Instance stateful_bind {S} : MBind (Stateful S) := λ A B f m s,
  match m s with
  | (s, Ok a) => f a s
  | (s, Err e) => (s, Err e)
  | (s, Panic) => (s, Panic)
  | (s, OutOfFuel) => (s, OutOfFuel)
  end.

Definition lift {S A} (r : result A) : Stateful S A := λ s, (s, r).
Definition throw {S A} (e : Error) : Stateful S A := lift (Err e).

(** Reading and changing the state. *)
Definition get_state {S} : Stateful S S := λ s, (s, Ok s).
Definition modify {S} (f : S → S) : Stateful S unit := λ s, (f s, Ok ()).

(** A method that changes the state only if it succeeds. *)
Definition attempt {S} (f : S → result S) : Stateful S unit := λ s,
  match f s with
  | Ok s' => (s', Ok ())
  | Err e => (s, Err e)
  | Panic => (s, Panic)
  | OutOfFuel => (s, OutOfFuel)
  end.

(** [match f() { Ok(x) => .., Err(e) => .. }]; an abort stays an abort. *)
Definition catchC {S A} (m : Stateful S A) : Stateful S (A + Error) := λ s,
  let '(s, r) := m s in (s, catch r).

(** A [for] loop whose body may return early. *)
Fixpoint foldC {S B A} (f : B → A → Stateful S B) (b : B) (l : list A) : Stateful S B :=
  match l with
  | [] => mret b
  | a :: l => b' ← f b a; foldC f b' l
  end.

(** A loop whose body goes round again, leaves or returns early. *)
Fixpoint loopC {S St A} (fuel : nat) (body : St → Stateful S (step St A)) (x : St) : Stateful S A :=
  match fuel with
  | O => lift OutOfFuel
  | Datatypes.S fuel =>
      r ← body x;
      match r with
      | Continue x => loopC fuel body x
      | Break a => mret a
      end
  end.

(** ** A logic for the state

    [swp m s Q R]: started in [s], [m] returns; the state it leaves and the value
    satisfy [Q], the state and the error satisfy [R]. *)
Definition swp {S A} (m : Stateful S A) (s : S) (Q : S → A → Prop) (R : S → Error → Prop) : Prop :=
  wp (m s).2 (Q (m s).1) (R (m s).1).

Section swp_rules.
Context {S : Type} {R : S → Error → Prop}.

Lemma swp_ret {A} (a : A) s (Q : S → A → Prop) : Q s a → swp (mret a) s Q R.
Proof. done. Qed.

Lemma swp_lift {A} (r : result A) s (Q : S → A → Prop) : wp r (Q s) (R s) → swp (lift r) s Q R.
Proof. done. Qed.

Lemma swp_throw {A} e s (Q : S → A → Prop) : R s e → swp (throw e) s Q R.
Proof. done. Qed.

Lemma swp_bind {A B} (m : Stateful S A) (f : A → Stateful S B) s Q :
  swp m s (λ s' a, swp (f a) s' Q R) R → swp (m ≫= f) s Q R.
Proof. unfold swp, mbind, stateful_bind. by destruct (m s) as [s' [a|e| |]]. Qed.

Lemma swp_if {A} (c : bool) (m1 m2 : Stateful S A) s (Q : S → A → Prop) :
  (c = true → swp m1 s Q R) → (c = false → swp m2 s Q R) → swp (if c then m1 else m2) s Q R.
Proof. destruct c; auto. Qed.

Lemma swp_get s (Q : S → S → Prop) : Q s s → swp get_state s Q R.
Proof. done. Qed.

Lemma swp_modify f s (Q : S → unit → Prop) : Q (f s) () → swp (modify f) s Q R.
Proof. done. Qed.

Lemma swp_attempt f s (Q : S → unit → Prop) :
  wp (f s) (λ s', Q s' ()) (R s) → swp (attempt f) s Q R.
Proof. unfold swp, attempt. by destruct (f s). Qed.

Lemma swp_fold {B A} (I : list A → S → B → Prop) (f : B → A → Stateful S B) (Q : S → B → Prop)
    (l done : list A) s b :
  (∀ pre a post s b, done ++ l = pre ++ a :: post → I pre s b → swp (f b a) s (I (pre ++ [a])) R) →
  I done s b → (∀ s b, I (done ++ l) s b → Q s b) → swp (foldC f b l) s Q R.
Proof.
  revert done s b. induction l as [|a l IH]; intros done s b Hf Hs HQ; cbn [foldC].
  - apply swp_ret, HQ. by rewrite app_nil_r.
  - apply swp_bind. specialize (Hf done a l s b eq_refl Hs) as Hstep. unfold swp in *.
    eapply wp_mono; [exact Hstep| |done]. intros b' Hb'.
    apply (IH (done ++ [a])); rewrite <- ?app_assoc; auto.
Qed.
End swp_rules.

(** The loop rule: an invariant of the loop's and the shared state, and a measure the fuel exceeds. *)
Lemma swp_loop {S St A} (I : St → S → Prop) (measure : St → Z) (R : S → Error → Prop) (body : St → Stateful S (step St A))
    (Q : S → A → Prop) (fuel : nat) (x : St) s :
  (∀ x s, I x s →
     swp (body x) s (λ s' r, match r with Continue x' => I x' s' ∧ 0 ≤ measure x' < measure x | Break a => Q s' a end) R) →
  I x s → 0 ≤ measure x < Z.of_nat fuel → swp (loopC fuel body x) s Q R.
Proof.
  intros Hb. revert x s. induction fuel as [|fuel IH]; intros x s Hx Hm; [lia|]. cbn [loopC].
  apply swp_bind. specialize (Hb x s Hx) as Hstep. unfold swp in *. eapply wp_mono; [exact Hstep| |done].
  intros [x'|a]; [|done]. intros [Hx' Hlt]. apply IH; [done|lia].
Qed.

Lemma swp_mono {S A} (m : Stateful S A) s (Q Q' : S → A → Prop) (R R' : S → Error → Prop) :
  swp m s Q R → (∀ s a, Q s a → Q' s a) → (∀ s e, R s e → R' s e) → swp m s Q' R'.
Proof. intros H HQ HR. eapply wp_mono; [exact H|apply HQ|apply HR]. Qed.

Lemma swp_value {S A} (m : Stateful S A) s (Q : S → A → Prop) (R : S → Error → Prop) a :
  swp m s Q R → (m s).2 = Ok a → Q (m s).1 a.
Proof. unfold swp. intros H He. by rewrite He in H. Qed.

(** ** Whatever the state

    [wpce m Q R]: from every state [m] returns, a value satisfies [Q], an error [R];
    [wpc] leaves the errors open. *)
Definition wpce {S A} (m : Stateful S A) (Q : A → Prop) (R : Error → Prop) : Prop :=
  ∀ s, wp (m s).2 Q R.
Abbreviation wpc m Q := (wpce m Q (λ _, True)).

Section rules.
Context {St : Type} {R : Error → Prop}.

Lemma wpc_ret {A} (a : A) (Q : A → Prop) : Q a → wpce (S := St) (mret a) Q R.
Proof. intros H s. done. Qed.

Lemma wpc_lift {A} (r : result A) (Q : A → Prop) : wp r Q R → wpce (S := St) (lift r) Q R.
Proof. intros H s. done. Qed.

Lemma wpce_throw {A} e (Q : A → Prop) : R e → wpce (S := St) (throw e) Q R.
Proof. intros H s. done. Qed.

Lemma wpc_bind {A B} (m : Stateful St A) (f : A → Stateful St B) Q :
  wpce m (λ a, wpce (f a) Q R) R → wpce (m ≫= f) Q R.
Proof.
  intros H s. specialize (H s). unfold mbind, stateful_bind.
  by destruct (m s) as [s' [a|e| |]].
Qed.

Lemma wpce_catch {A} (m : Stateful St A) (Q : A + Error → Prop) (P : A → Prop) (P' : Error → Prop) :
  wpce m P P' → (∀ a, P a → Q (inl a)) → (∀ e, P' e → Q (inr e)) → wpce (catchC m) Q R.
Proof.
  intros H H1 H2 s. specialize (H s). unfold catchC. destruct (m s) as [s' [a|e| |]]; try done.
  - by apply H1.
  - by apply H2.
Qed.

Lemma wpc_fold {B A} (I : list A → B → Prop) (f : B → A → Stateful St B) (Q : B → Prop)
    (l done : list A) (b : B) :
  (∀ pre a post b, done ++ l = pre ++ a :: post → I pre b → wpce (f b a) (I (pre ++ [a])) R) →
  I done b → (∀ b, I (done ++ l) b → Q b) → wpce (foldC f b l) Q R.
Proof.
  revert done b. induction l as [|a l IH]; intros done b Hf Hb HQ; cbn [foldC].
  - apply wpc_ret, HQ. by rewrite app_nil_r.
  - apply wpc_bind. intros s. eapply wp_mono; [by apply (Hf done a l)| |done]. intros b' Hb'.
    apply (IH (done ++ [a])); rewrite <- ?app_assoc; auto.
Qed.

(** A loop whose invariant does not mention what was visited. *)
Lemma wpc_fold_inv {B A} (I : B → Prop) (f : B → A → Stateful St B) (l : list A) (b : B) :
  (∀ b a, a ∈ l → I b → wpce (f b a) I R) → I b → wpce (foldC f b l) I R.
Proof.
  intros Hf Hb. apply (wpc_fold (λ _, I)) with (done := []); [|done|done].
  intros pre a post b' Heq Hb'. apply Hf; [|done]. rewrite app_nil_l in Heq. rewrite Heq.
  apply elem_of_app. right. apply elem_of_cons. by left.
Qed.
End rules.

Lemma wpce_mono {S A} (m : Stateful S A) (Q Q' : A → Prop) (R R' : Error → Prop) :
  wpce m Q R → (∀ a, Q a → Q' a) → (∀ e, R e → R' e) → wpce m Q' R'.
Proof. intros H HQ HR s. eapply wp_mono; [apply H|apply HQ|apply HR]. Qed.

Lemma wpc_mono {S A} (m : Stateful S A) (Q Q' : A → Prop) :
  wpc m Q → (∀ a, Q a → Q' a) → wpc m Q'.
Proof. intros H HQ. by eapply wpce_mono. Qed.

Lemma wpc_throw {S A} e (Q : A → Prop) : wpce (S := S) (throw e) Q (λ _, True).
Proof. by apply wpce_throw. Qed.
