(* ===== verification/Json.v ===== *)
(** * The JSON encoder ([src/src/json.rs])

    Output-only JSON: the document is sized exactly before it is rendered, and the
    size is what the budgets of the reports are checked against.  A Rust [String] is
    a list of Unicode scalar values. *)

From S2P Require Import Prelude Errors.

(** ** Documents *)

#[local] Unset Elimination Schemes.
Inductive Json : Type :=
| Null
| Bool (b : bool)
| Number (n : Z)
| String_ (s : list Z)
| Array (items : list Json)
| Object (items : list (list Z * Json)).
#[local] Set Elimination Schemes.

(** The text of an ASCII literal. *)
Definition text (s : string) : list Z :=
  map (λ c, Z.of_N (Ascii.N_of_ascii c)) (String.list_ascii_of_string s).

(** [char::len_utf8], and the length of a [String] in bytes. *)
Definition len_utf8 (c : Z) : Z :=
  if c <? 0x80 then 1 else if c <? 0x800 then 2 else if c <? 0x10000 then 3 else 4.
Definition utf8_len (s : list Z) : Z := foldr (λ c n, len_utf8 c + n) 0 s.
#[global] Arguments utf8_len : simpl never.

(** [write!(out, "{v}")] of a [u64], which has at most 20 digits. *)
Fixpoint digits (fuel : nat) (n : Z) (out : list Z) : list Z :=
  match fuel with
  | O => out
  | S fuel =>
      let out := (48 + n mod 10) :: out in
      if n <? 10 then out else digits fuel (n / 10) out
  end.
Definition decimal (n : Z) : list Z := digits 20 n [].

(** [ilog10]: the powers of ten from 10 on that do not exceed [n]. *)
Definition ilog10 (n : Z) : Z := zlen (List.filter (λ k, 10 ^ k <=? n) (seqZ 1 19)).

(** [{:04x}] of a value below [0x10000]. *)
Definition hex_digit (d : Z) : Z := if d <? 10 then 48 + d else 87 + d.
Definition hex4 (n : Z) : list Z :=
  [hex_digit (n / 4096 mod 16); hex_digit (n / 256 mod 16); hex_digit (n / 16 mod 16); hex_digit (n mod 16)].

(** ** Rendering *)

(** One character of [escape]. *)
Definition escape_char (c : Z) : list Z :=
  if c =? 34 then [92; 34]
  else if c =? 92 then [92; 92]
  else if c =? 10 then [92; 110]
  else if c =? 13 then [92; 114]
  else if c =? 9 then [92; 116]
  else if c =? 8 then [92; 98]
  else if c =? 12 then [92; 102]
  else if c <? 32 then [92; 117] ++ hex4 c
  else [c].

(** [escape(value, out)]. *)
Definition escape (value out : list Z) : list Z :=
  foldl (λ out c, out ++ escape_char c) (out ++ [34]) value ++ [34].

(** [render(out)]: the document is appended to [out]. *)
Fixpoint render (j : Json) (out : list Z) : list Z :=
  match j with
  | Null => out ++ text "null"
  | Bool b => out ++ (if b then text "true" else text "false")
  | Number v => out ++ decimal v
  | String_ v => escape v out
  | Array items =>
      (fix items_from (i : Z) (items : list Json) (out : list Z) : list Z :=
         match items with
         | [] => out
         | item :: items =>
             items_from (i + 1) items (render item (if negb (i =? 0) then out ++ [44] else out))
         end) 0 items (out ++ [91]) ++ [93]
  | Object items =>
      (fix items_from (i : Z) (items : list (list Z * Json)) (out : list Z) : list Z :=
         match items with
         | [] => out
         | (key, item) :: items =>
             items_from (i + 1) items
               (render item (escape key (if negb (i =? 0) then out ++ [44] else out) ++ [58]))
         end) 0 items (out ++ [123]) ++ [125]
  end.

Definition encode (j : Json) : list Z := render j [].

(** ** The exact size *)

(** [quoted_len]. *)
Definition quoted_char (c : Z) : Z :=
  if (c =? 34) || (c =? 92) || (c =? 10) || (c =? 13) || (c =? 9) || (c =? 8) || (c =? 12) then 2
  else if c <? 32 then 6
  else len_utf8 c.
Definition quoted_len (value : list Z) : option Z :=
  foldl (λ size c, size ← size; checked_add usize_max size (quoted_char c)) (Some 2) value.

(** [items.len().saturating_sub(1)]. *)
Definition separators {A} (items : list A) : Z := Z.max 0 (zlen items - 1).

Fixpoint encoded_len (j : Json) : option Z :=
  match j with
  | Null => Some 4
  | Bool b => Some (if b then 4 else 5)
  | Number n => Some (if n =? 0 then 1 else ilog10 n + 1)
  | String_ s => quoted_len s
  | Array items =>
      size ← (fix sizes (items : list Json) (size : Z) : option Z :=
                match items with
                | [] => Some size
                | item :: items =>
                    n ← encoded_len item; size ← checked_add usize_max size n; sizes items size
                end) items 2;
      checked_add usize_max size (separators items)
  | Object items =>
      size ← (fix sizes (items : list (list Z * Json)) (size : Z) : option Z :=
                match items with
                | [] => Some size
                | (key, value) :: items =>
                    k ← quoted_len key; size ← checked_add usize_max size k;
                    size ← checked_add usize_max size 1;
                    n ← encoded_len value; size ← checked_add usize_max size n; sizes items size
                end) items 2;
      checked_add usize_max size (separators items)
  end.

(** [encoded_len_bounded]. *)
Definition encoded_len_bounded (j : Json) (lim : Z) : result Z :=
  ok_or (n ← encoded_len j; if n <=? lim then Some n else None) (limit "report_bytes").

(** [encode_bounded]; the reservation is assumed to succeed. *)
Definition encode_bounded (j : Json) (lim : Z) : result (list Z) :=
  encoded_len_bounded j lim ;; Ok (render j []).

(** [append_bounded]: the destination after the call. *)
Definition append_bounded (j : Json) (out : list Z) (lim : Z) : result (list Z) :=
  remaining ← ok_or (checked_sub lim (utf8_len out)) (limit "report_bytes");
  encoded_len_bounded j remaining ;; Ok (render j out).

(** [encode_bounded_line]. *)
Definition encode_bounded_line (j : Json) (lim : Z) : result (list Z) :=
  remaining ← ok_or (checked_sub lim 1) (limit "report_bytes");
  size ← encoded_len_bounded j remaining;
  ok_or (checked_add usize_max size 1) (limit "report_bytes") ;;
  Ok (render j [] ++ [10]).
