(* ===== verification/JsonFacts.v ===== *)
(** * Correctness of the JSON encoder

    The encoding is a JSON text that reads back as the document, and the size
    computed before rendering is exact, so a bounded encoding is produced exactly
    when it fits. *)

From S2P Require Import Prelude Errors.
From S2P Require Import Json.

(** ** Induction on documents *)

Section induction.
Context (P : Json → Prop).
Context (Hnull : P Null) (Hbool : ∀ b, P (Bool b)) (Hnum : ∀ n, P (Number n)) (Hstr : ∀ s, P (String_ s)).
Context (Harr : ∀ l, Forall P l → P (Array l)) (Hobj : ∀ l, Forall (λ kv, P kv.2) l → P (Object l)).

Fixpoint Json_ind (j : Json) : P j :=
  match j with
  | Null => Hnull
  | Bool b => Hbool b
  | Number n => Hnum n
  | String_ s => Hstr s
  | Array l =>
      Harr l ((fix go l : Forall P l :=
                 match l with
                 | [] => List.Forall_nil P
                 | x :: l => List.Forall_cons P x l (Json_ind x) (go l)
                 end) l)
  | Object l =>
      Hobj l ((fix go l : Forall (λ kv : list Z * Json, P kv.2) l :=
                 match l with
                 | [] => List.Forall_nil _
                 | x :: l => List.Forall_cons _ x l (Json_ind x.2) (go l)
                 end) l)
  end.
End induction.

(** ** The text of a document *)

Definition quoted (s : list Z) : list Z := [34] ++ flat_map escape_char s ++ [34].

(** Items separated by commas. *)
Fixpoint separated (l : list (list Z)) : list Z :=
  match l with
  | [] => []
  | [x] => x
  | x :: l => x ++ [44] ++ separated l
  end.

Fixpoint doc (j : Json) : list Z :=
  match j with
  | Null => text "null"
  | Bool b => if b then text "true" else text "false"
  | Number n => decimal n
  | String_ s => quoted s
  | Array l => [91] ++ separated (map doc l) ++ [93]
  | Object l => [123] ++ separated (map (λ kv, quoted kv.1 ++ [58] ++ doc kv.2) l) ++ [125]
  end.

Lemma escape_quoted s out : escape s out = out ++ quoted s.
Proof.
  unfold escape, quoted. rewrite app_assoc. rewrite app_assoc. f_equal. generalize (out ++ [34]) as acc.
  induction s as [|c s IH]; intros acc; cbn [foldl flat_map]; [by rewrite app_nil_r|].
  by rewrite IH, app_assoc.
Qed.

(** Items after the first are preceded by a comma. *)
Lemma separated_cons x l : separated (x :: l) = x ++ flat_map (λ y, [44] ++ y) l.
Proof.
  revert x. induction l as [|y l IH]; intros x; [by rewrite app_nil_r|].
  change (separated (x :: y :: l)) with (x ++ [44] ++ separated (y :: l)). rewrite IH. done.
Qed.

(** The loop over the items of an array or object. *)
Section items.
Context {A : Type} (draw : A → list Z → list Z) (body : A → list Z).

Fixpoint items_from (i : Z) (items : list A) (out : list Z) : list Z :=
  match items with
  | [] => out
  | item :: items => items_from (i + 1) items (draw item (if negb (i =? 0) then out ++ [44] else out))
  end.

Lemma items_from_later items i out :
  Forall (λ x, ∀ out, draw x out = out ++ body x) items → 0 < i →
  items_from i items out = out ++ flat_map (λ y, [44] ++ y) (map body items).
Proof.
  intros H. revert i out. induction H as [|x items Hx _ IH]; intros i out Hi; cbn [items_from map flat_map];
    [by rewrite app_nil_r|].
  rewrite IH by lia. rewrite (proj2 (Z.eqb_neq i 0)) by lia. cbn [negb]. rewrite Hx. by rewrite <- !app_assoc.
Qed.

Lemma items_separated items out :
  Forall (λ x, ∀ out, draw x out = out ++ body x) items →
  items_from 0 items out = out ++ separated (map body items).
Proof.
  intros H. destruct H as [|x items Hx H]; [by rewrite app_nil_r|].
  cbn [items_from map]. rewrite items_from_later by (done || lia). rewrite separated_cons. simpl.
  by rewrite Hx, <- app_assoc.
Qed.
End items.

Lemma render_doc j out : render j out = out ++ doc j.
Proof.
  revert out. induction j as [|b|n|s|l IH|l IH] using Json_ind; intros out; try done.
  - apply escape_quoted.
  - change (render (Array l) out) with (items_from render 0 l (out ++ [91]) ++ [93]).
    rewrite (items_separated _ doc) by done. cbn [doc]. by rewrite <- !app_assoc.
  - assert (render (Object l) out =
            items_from (λ kv out, render kv.2 (escape kv.1 out ++ [58])) 0 l (out ++ [123]) ++ [125]) as ->.
    { cbn [render]. f_equal.
      match goal with |- ?f 0 l ?o = ?g 0 l ?o => enough (∀ i out, f i l out = g i l out) by auto end.
      clear. induction l as [|[k x] l IH]; intros i out; [done|]. apply IH. }
    rewrite (items_separated _ (λ kv, quoted kv.1 ++ [58] ++ doc kv.2)).
    + cbn [doc]. by rewrite <- !app_assoc.
    + eapply Forall_impl; [exact IH|]. intros kv Hkv out'. rewrite Hkv, escape_quoted. by rewrite <- !app_assoc.
Qed.

(** ** Documents the program can hold *)

(** A Unicode scalar value. *)
Definition char_ok (c : Z) : Prop := 0 ≤ c < 0xd800 ∨ 0xe000 ≤ c < 0x110000.

Fixpoint json_ok (j : Json) : Prop :=
  match j with
  | Null | Bool _ => True
  | Number n => 0 ≤ n ≤ u64_max
  | String_ s => Forall char_ok s
  | Array l => foldr (λ x P, json_ok x ∧ P) True l
  | Object l => foldr (λ kv P, (Forall char_ok kv.1 ∧ json_ok kv.2) ∧ P) True l
  end.

Lemma foldr_Forall {A} (P : A → Prop) l : foldr (λ x Q, P x ∧ Q) True l ↔ Forall P l.
Proof. induction l as [|x l IH]; simpl; [by split|]. by rewrite Forall_cons, IH. Qed.

(** ** Decimal numbers *)

Definition is_digit (c : Z) : bool := (48 <=? c) && (c <=? 57).
Definition value (ds : list Z) : Z := foldl (λ v d, v * 10 + (d - 48)) 0 ds.

Lemma value_snoc ds d : value (ds ++ [d]) = value ds * 10 + (d - 48).
Proof. unfold value. by rewrite foldl_snoc. Qed.

(** The digits written, most significant first. *)
Lemma digits_spec fuel n out :
  0 ≤ n < 10 ^ Z.of_nat fuel → (0 < fuel)%nat →
  ∃ ds, digits fuel n out = ds ++ out ∧ ds ≠ [] ∧ Forall (λ d, is_digit d = true) ds ∧ value ds = n ∧
        n < 10 ^ zlen ds ∧ (n = 0 ∧ ds = [48] ∨ 10 ^ (zlen ds - 1) ≤ n ∧ head ds ≠ Some 48).
Proof.
  revert n out. induction fuel as [|fuel IH]; intros n out Hn Hf; [lia|]. cbn [digits].
  pose proof (Z.mod_pos_bound n 10 ltac:(lia)) as Hm. pose proof (Z.div_mod n 10 ltac:(lia)) as Hdm.
  assert (is_digit (48 + n mod 10) = true) as Hd by (unfold is_digit; lia).
  destruct (Z.ltb_spec n 10) as [Hlt|Hge].
  - rewrite (Z.mod_small n 10) in * by lia. exists [48 + n]. change (zlen [48 + n]) with 1.
    split_and!; [done|done|by constructor|unfold value; simpl; lia|lia|].
    destruct (Z.eq_dec n 0) as [->|Hz]; [by left|right]. change (10 ^ (1 - 1)) with 1. split; [lia|].
    simpl. intros [=]. lia.
  - rewrite Nat2Z.inj_succ, Z.pow_succ_r in Hn by lia.
    assert (0 < fuel)%nat as Hf'.
    { destruct fuel; [|lia]. change (10 ^ Z.of_nat 0) with 1 in Hn. lia. }
    destruct (IH (n / 10) ((48 + n mod 10) :: out)) as (ds & -> & Hne & Hds & Hv & Hup & Hlo);
      [split; [apply Z.div_pos; lia|apply Z.div_lt_upper_bound; lia]|done|].
    exists (ds ++ [48 + n mod 10]). rewrite <- app_assoc, value_snoc, zlen_app, Hv.
    change (zlen [48 + n mod 10]) with 1. pose proof (zlen_nonneg ds).
    split_and!; [done|by destruct ds|apply Forall_app; split; [done|by constructor]|lia| |].
    + rewrite Z.pow_add_r by lia. change (10 ^ 1) with 10. lia.
    + right. destruct Hlo as [[Hz _]|[Hlo Hh]].
      { apply Z.div_small_iff in Hz; lia. }
      assert (0 < zlen ds) by (destruct ds; [done|rewrite zlen_cons; pose proof (zlen_nonneg ds); lia]).
      split; [|by destruct ds]. replace (zlen ds + 1 - 1) with (Z.succ (zlen ds - 1)) by lia.
      rewrite Z.pow_succ_r by lia. lia.
Qed.

Lemma decimal_spec n :
  0 ≤ n ≤ u64_max →
  decimal n ≠ [] ∧ Forall (λ d, is_digit d = true) (decimal n) ∧ value (decimal n) = n ∧
  n < 10 ^ zlen (decimal n) ∧ (n = 0 ∧ decimal n = [48] ∨ 10 ^ (zlen (decimal n) - 1) ≤ n ∧ head (decimal n) ≠ Some 48).
Proof.
  intros Hn. unfold decimal.
  destruct (digits_spec 20 n []) as (ds & Hd & H); [change (10 ^ Z.of_nat 20) with 100000000000000000000; lia|lia|].
  rewrite Hd, app_nil_r. done.
Qed.

Lemma ilog10_spec n k : 0 ≤ k ≤ 19 → 10 ^ k ≤ n < 10 ^ (k + 1) → ilog10 n = k.
Proof.
  intros Hk Hn. unfold ilog10.
  assert (seqZ 1 19 = seqZ 1 k ++ seqZ (1 + k) (19 - k)) as ->.
  { replace 19 with (k + (19 - k)) at 1 by lia. apply seqZ_app; lia. }
  rewrite List.filter_app, filter_forall, filter_none, app_nil_r.
  - unfold zlen. rewrite length_seqZ. lia.
  - apply Forall_forall. intros j Hj%elem_of_seqZ. apply Z.leb_gt.
    eapply Z.lt_le_trans; [apply Hn|]. apply Z.pow_le_mono_r; lia.
  - apply Forall_forall. intros j Hj%elem_of_seqZ. apply Z.leb_le.
    etransitivity; [|apply Hn]. apply Z.pow_le_mono_r; lia.
Qed.

Lemma decimal_length n :
  0 ≤ n ≤ u64_max → zlen (decimal n) = if n =? 0 then 1 else ilog10 n + 1.
Proof.
  intros Hn. destruct (decimal_spec n Hn) as (Hne & _ & _ & Hup & [[-> ->]|[Hlo _]]); [done|].
  assert (0 < zlen (decimal n)) as Hz.
  { destruct (decimal n) as [|x l]; [done|]. rewrite zlen_cons. pose proof (zlen_nonneg l). lia. }
  assert (0 < 10 ^ (zlen (decimal n) - 1)) by (apply Z.pow_pos_nonneg; lia).
  rewrite (proj2 (Z.eqb_neq n 0)) by lia.
  assert (zlen (decimal n) - 1 < 20) as Hk.
  { apply (Z.pow_lt_mono_r_iff 10); [lia|lia|]. change (10 ^ 20) with 100000000000000000000. lia. }
  rewrite (ilog10_spec n (zlen (decimal n) - 1)); [lia|lia|]. split; [done|].
  by replace (zlen (decimal n) - 1 + 1) with (zlen (decimal n)) by lia.
Qed.

(** ** Sizes *)

(** A size that does not fit [usize] is [None]. *)
Definition fits (n : Z) : option Z := if n <=? usize_max then Some n else None.

Lemma fits_checked a b : 0 ≤ a → 0 ≤ b → (x ← fits a; checked_add usize_max x b) = fits (a + b).
Proof.
  intros Ha Hb. unfold fits, checked_add.
  destruct (Z.leb_spec a usize_max); simpl; repeat case_match; try done; lia.
Qed.

Lemma utf8_len_app s t : utf8_len (s ++ t) = utf8_len s + utf8_len t.
Proof. unfold utf8_len. induction s as [|c s IH]; simpl; lia. Qed.

Lemma len_utf8_pos c : 1 ≤ len_utf8 c ≤ 4.
Proof. unfold len_utf8. repeat case_match; lia. Qed.

Lemma utf8_len_nonneg s : 0 ≤ utf8_len s.
Proof. unfold utf8_len. induction s as [|c s IH]; simpl; [done|]. pose proof (len_utf8_pos c). lia. Qed.

Lemma utf8_len_ascii s : Forall (λ c, c < 128) s → utf8_len s = zlen s.
Proof.
  induction 1 as [|c s Hc _ IH]; [done|]. rewrite zlen_cons. unfold utf8_len in *. simpl. rewrite IH.
  unfold len_utf8. by rewrite (proj2 (Z.ltb_lt c 0x80)) by lia.
Qed.

Lemma hex_digit_range d : 0 ≤ d < 16 → 48 ≤ hex_digit d < 128.
Proof. unfold hex_digit. case_match; lia. Qed.

Lemma quoted_char_len c : char_ok c → utf8_len (escape_char c) = quoted_char c.
Proof.
  intros Hc. unfold escape_char, quoted_char.
  repeat match goal with |- context [?c =? ?k] => destruct (Z.eqb_spec c k) end; try done. simpl.
  destruct (Z.ltb_spec c 32); [|unfold utf8_len; simpl; lia].
  assert (∀ n, 0 ≤ hex_digit (n mod 16) < 128) as Hh.
  { intros m. pose proof (hex_digit_range (m mod 16) (Z.mod_pos_bound m 16 ltac:(lia))). lia. }
  rewrite utf8_len_ascii; [done|]. unfold hex4. repeat (apply List.Forall_cons; [first [lia|apply Hh]|]). constructor.
Qed.

Lemma quoted_len_fits s : Forall char_ok s → quoted_len s = fits (utf8_len (quoted s)).
Proof.
  intros Hs. unfold quoted_len, quoted. rewrite !utf8_len_app. change (utf8_len [34]) with 1.
  assert (∀ n, 0 ≤ n →
    foldl (λ size c, size ← size; checked_add usize_max size (quoted_char c)) (fits n) s =
    fits (n + utf8_len (flat_map escape_char s))) as H.
  { induction Hs as [|c s Hc Hs IH]; intros n Hn; cbn [foldl flat_map]; [by rewrite Z.add_0_r|].
    pose proof (utf8_len_nonneg (escape_char c)) as Hz. rewrite quoted_char_len in Hz by done.
    rewrite fits_checked, IH by lia. rewrite utf8_len_app, quoted_char_len by done. f_equal. lia. }
  change (Some 2) with (fits 2). rewrite H by lia. f_equal. lia.
Qed.

Lemma separated_len l : utf8_len (separated l) = foldr (λ x n, utf8_len x + n) 0 l + separators l.
Proof.
  destruct l as [|x l]; [done|]. rewrite separated_cons, utf8_len_app. unfold separators. rewrite zlen_cons.
  replace (Z.max 0 (1 + zlen l - 1)) with (zlen l) by (pose proof (zlen_nonneg l); lia). cbn [foldr].
  induction l as [|y l IH]; [change (utf8_len (flat_map _ [])) with 0; change (zlen []) with 0; simpl; lia|].
  cbn [flat_map foldr] in *. rewrite zlen_cons, !utf8_len_app.
  change (utf8_len [44]) with 1. lia.
Qed.

(** The loop that adds up the sizes of the items. *)
Section sizes.
Context {A : Type} (item_len : A → option Z) (body : A → list Z).

Fixpoint sizes (items : list A) (size : Z) : option Z :=
  match items with
  | [] => Some size
  | item :: items => n ← item_len item; size ← checked_add usize_max size n; sizes items size
  end.

Lemma sizes_fits items size :
  Forall (λ x, item_len x = fits (utf8_len (body x))) items → 0 ≤ size ≤ usize_max →
  sizes items size = fits (size + foldr (λ x n, utf8_len x + n) 0 (map body items)).
Proof.
  intros H. revert size. induction H as [|x items Hx _ IH]; intros size Hs; cbn [sizes map foldr].
  - unfold fits. rewrite Z.add_0_r. by rewrite (proj2 (Z.leb_le size usize_max)) by lia.
  - assert (0 ≤ foldr (λ x n, utf8_len x + n) 0 (map body items)) as Hn.
    { generalize (map body items) as l. induction l as [|y l IHl]; simpl; [done|]. pose proof (utf8_len_nonneg y). lia. }
    pose proof (utf8_len_nonneg (body x)) as Hb. rewrite Hx. unfold fits at 1, checked_add.
    destruct (Z.leb_spec (utf8_len (body x)) usize_max); simpl; [|unfold fits; case_match; [lia|done]].
    destruct (Z.leb_spec (size + utf8_len (body x)) usize_max); simpl; [|unfold fits; case_match; [lia|done]].
    rewrite IH by lia. f_equal. lia.
Qed.
End sizes.

Lemma bracketed_fits {A} (body : A → list Z) (l : list A) a b :
  len_utf8 a = 1 → len_utf8 b = 1 →
  (size ← fits (2 + foldr (λ x n, utf8_len x + n) 0 (map body l)); checked_add usize_max size (separators l)) =
  fits (utf8_len ([a] ++ separated (map body l) ++ [b])).
Proof.
  intros Ha Hb. rewrite fits_checked.
  - rewrite !utf8_len_app, separated_len. f_equal. unfold utf8_len at 2 4. simpl. rewrite Ha, Hb.
    unfold separators, zlen. rewrite length_map. lia.
  - generalize (map body l) as k. induction k as [|y k IHk]; simpl; [done|]. pose proof (utf8_len_nonneg y). lia.
  - unfold separators. lia.
Qed.

(** The members of an object: each key, a colon and the value. *)
Definition member (kv : list Z * Json) : list Z := quoted kv.1 ++ [58] ++ doc kv.2.
Fixpoint member_sizes (items : list (list Z * Json)) (size : Z) : option Z :=
  match items with
  | [] => Some size
  | (key, value) :: items =>
      k ← quoted_len key; size ← checked_add usize_max size k; size ← checked_add usize_max size 1;
      n ← encoded_len value; size ← checked_add usize_max size n; member_sizes items size
  end.

Lemma member_fits {B} (f : Z → option B) size q d :
  0 ≤ q → 0 ≤ d → 0 ≤ size →
  (k ← fits q; size ← checked_add usize_max size k; size ← checked_add usize_max size 1;
   n ← fits d; size ← checked_add usize_max size n; f size) =
  (n ← fits (q + (1 + d)); size ← checked_add usize_max size n; f size).
Proof.
  intros Hq Hd Hs. unfold fits, checked_add.
  destruct (Z.leb_spec (size + (q + (1 + d))) usize_max) as [Hle|Hgt].
  - repeat match goal with |- context [?a <=? ?b] => destruct (Z.leb_spec a b); simpl; [|exfalso; lia] end. f_equal. lia.
  - repeat match goal with |- context [?a <=? ?b] => destruct (Z.leb_spec a b); simpl; try done; try (exfalso; lia) end.
Qed.

Lemma member_sizes_eq items size :
  Forall (λ kv, Forall char_ok kv.1 ∧ encoded_len kv.2 = fits (utf8_len (doc kv.2))) items → 0 ≤ size ≤ usize_max →
  member_sizes items size = sizes (λ kv, fits (utf8_len (member kv))) items size.
Proof.
  intros H. revert size. induction H as [|[k v] items [Hk Hv] _ IH]; intros size Hs; [done|].
  cbn [member_sizes sizes]. cbn [fst snd] in *. rewrite quoted_len_fits, Hv by done. unfold member. cbn [fst snd].
  rewrite !utf8_len_app. change (utf8_len [58]) with 1.
  pose proof (utf8_len_nonneg (quoted k)). pose proof (utf8_len_nonneg (doc v)). rewrite member_fits by lia.
  unfold fits, checked_add. case_match; [|done]. simpl. case_match; [|done]. simpl. apply IH.
  bool_facts. lia.
Qed.

Lemma encoded_len_fits j : json_ok j → encoded_len j = fits (utf8_len (doc j)).
Proof.
  induction j as [|b|n|s|l IH|l IH] using Json_ind; intros Hok; [done|by destruct b|..].
  - destruct (decimal_spec n Hok) as (_ & Hd & _).
    cbn [encoded_len doc]. rewrite utf8_len_ascii, decimal_length by first [done|eapply Forall_impl; [exact Hd|]; unfold is_digit; intros; lia].
    unfold fits. rewrite (proj2 (Z.leb_le _ _)); [done|]. unfold ilog10.
    pose proof (List.filter_length_le (λ k, 10 ^ k <=? n) (seqZ 1 19)). rewrite length_seqZ in *. unfold zlen. case_match; lia.
  - by apply quoted_len_fits.
  - change (encoded_len (Array l)) with (size ← sizes encoded_len l 2; checked_add usize_max size (separators l)).
    rewrite (sizes_fits _ doc); [by apply bracketed_fits| |lia].
    apply foldr_Forall in Hok. rewrite Forall_forall in *. intros x Hx. by apply IH, Hok.
  - change (encoded_len (Object l)) with (size ← member_sizes l 2; checked_add usize_max size (separators l)).
    apply foldr_Forall in Hok.
    rewrite member_sizes_eq, (sizes_fits _ member); [by apply bracketed_fits| |lia| |lia].
    + by apply Forall_forall.
    + rewrite Forall_forall in *. intros x Hx. destruct (Hok x Hx). split; [done|]. by apply IH.
Qed.

(** ** A reader of JSON text

    The grammar of RFC 8259 without white space, signs, fractions and exponents; a
    [\u] escape stands for a scalar value. *)

Fixpoint eat (lit s : list Z) : option (list Z) :=
  match lit, s with
  | [], s => Some s
  | a :: lit, b :: s => if a =? b then eat lit s else None
  | _, [] => None
  end.

Definition unescape (e : Z) : option Z :=
  if e =? 34 then Some 34 else if e =? 92 then Some 92 else if e =? 47 then Some 47
  else if e =? 98 then Some 8 else if e =? 102 then Some 12 else if e =? 110 then Some 10
  else if e =? 114 then Some 13 else if e =? 116 then Some 9 else None.

Definition hex_value (c : Z) : option Z :=
  if is_digit c then Some (c - 48)
  else if (97 <=? c) && (c <=? 102) then Some (c - 87)
  else if (65 <=? c) && (c <=? 70) then Some (c - 55) else None.

Definition unhex (a b x y : Z) : option Z :=
  a ← hex_value a; b ← hex_value b; x ← hex_value x; y ← hex_value y;
  let n := ((a * 16 + b) * 16 + x) * 16 + y in
  if (0xd800 <=? n) && (n <? 0xe000) then None else Some n.

(** The characters of a string, up to the closing quote. *)
Fixpoint read_chars (s : list Z) : option (list Z * list Z) :=
  match s with
  | [] => None
  | c :: s =>
      if c =? 34 then Some ([], s)
      else if c =? 92 then
        match s with
        | [] => None
        | e :: s =>
            if e =? 117 then
              match s with
              | a :: b :: x :: y :: s =>
                  n ← unhex a b x y; r ← read_chars s; Some (n :: r.1, r.2)
              | _ => None
              end
            else n ← unescape e; r ← read_chars s; Some (n :: r.1, r.2)
        end
      else if c <? 32 then None
      else r ← read_chars s; Some (c :: r.1, r.2)
  end.

(** A number: digits, without a leading zero. *)
Fixpoint take_digits (s : list Z) : list Z * list Z :=
  match s with
  | c :: s' => if is_digit c then let r := take_digits s' in (c :: r.1, r.2) else ([], s)
  | [] => ([], [])
  end.
Definition read_number (s : list Z) : option (Json * list Z) :=
  let r := take_digits s in
  match r.1 with
  | [] => None
  | [_] => Some (Number (value r.1), r.2)
  | d :: _ => if d =? 48 then None else Some (Number (value r.1), r.2)
  end.

(** At least one item, then the closing bracket. *)
Fixpoint read_items {A} (item : list Z → option (A * list Z)) (close : Z) (n : nat) (s : list Z)
    : option (list A * list Z) :=
  match n with
  | O => None
  | S n =>
      x ← item s;
      match x.2 with
      | c :: s =>
          if c =? 44 then r ← read_items item close n s; Some (x.1 :: r.1, r.2)
          else if c =? close then Some ([x.1], s) else None
      | [] => None
      end
  end.

Definition read_member (item : list Z → option (Json * list Z)) (s : list Z)
    : option ((list Z * Json) * list Z) :=
  s ← eat [34] s; k ← read_chars s; s ← eat [58] k.2; v ← item s; Some ((k.1, v.1), v.2).

Fixpoint read (fuel : nat) (s : list Z) : option (Json * list Z) :=
  match fuel, s with
  | S fuel, c :: rest =>
      if c =? 110 then s ← eat (text "ull") rest; Some (Null, s)
      else if c =? 116 then s ← eat (text "rue") rest; Some (Bool true, s)
      else if c =? 102 then s ← eat (text "alse") rest; Some (Bool false, s)
      else if c =? 34 then r ← read_chars rest; Some (String_ r.1, r.2)
      else if c =? 91 then
        match eat [93] rest with
        | Some s => Some (Array [], s)
        | None => r ← read_items (read fuel) 93 fuel rest; Some (Array r.1, r.2)
        end
      else if c =? 123 then
        match eat [125] rest with
        | Some s => Some (Object [], s)
        | None => r ← read_items (read_member (read fuel)) 125 fuel rest; Some (Object r.1, r.2)
        end
      else read_number s
  | _, _ => None
  end.

Definition read_document (s : list Z) : option Json :=
  match read (length s) s with Some (j, []) => Some j | _ => None end.

(** ** Reading back *)

Lemma hex_value_digit d : 0 ≤ d < 16 → hex_value (hex_digit d) = Some d.
Proof.
  intros Hd. unfold hex_value, hex_digit, is_digit. destruct (Z.ltb_spec d 10).
  - rewrite (proj2 (andb_true_iff _ _)) by lia. f_equal. lia.
  - rewrite (proj2 (andb_false_iff _ _)) by lia. rewrite (proj2 (andb_true_iff _ _)) by lia. f_equal. lia.
Qed.

Lemma unhex_hex4 n :
  0 ≤ n < 0xd800 →
  unhex (hex_digit (n / 4096 mod 16)) (hex_digit (n / 256 mod 16)) (hex_digit (n / 16 mod 16)) (hex_digit (n mod 16))
  = Some n.
Proof.
  intros Hn. unfold unhex. rewrite !hex_value_digit by (apply Z.mod_pos_bound; lia). cbn [mbind option_bind]. cbv zeta.
  replace (((n / 4096 mod 16 * 16 + n / 256 mod 16) * 16 + n / 16 mod 16) * 16 + n mod 16) with n
    by (Z.to_euclidean_division_equations; lia).
  by rewrite (proj2 (andb_false_iff _ _)) by lia.
Qed.

Lemma read_chars_escape c s :
  char_ok c → read_chars (escape_char c ++ s) = (r ← read_chars s; Some (c :: r.1, r.2)).
Proof.
  intros Hc. unfold escape_char.
  repeat match goal with |- context [c =? ?k] => destruct (Z.eqb_spec c k) as [->|]; [done|] end.
  destruct (Z.ltb_spec c 32).
  - change (([92; 117] ++ hex4 c) ++ s) with
      (92 :: 117 :: hex_digit (c / 4096 mod 16) :: hex_digit (c / 256 mod 16) ::
       hex_digit (c / 16 mod 16) :: hex_digit (c mod 16) :: s).
    cbn [read_chars]. change (92 =? 34) with false. change (92 =? 92) with true. change (117 =? 117) with true.
    cbv iota. rewrite unhex_hex4 by (unfold char_ok in *; lia). done.
  - cbn [app read_chars]. rewrite !(proj2 (Z.eqb_neq c _)) by done. by rewrite (proj2 (Z.ltb_ge c 32)) by lia.
Qed.

Lemma read_quoted s rest :
  Forall char_ok s → read_chars (flat_map escape_char s ++ [34] ++ rest) = Some (s, rest).
Proof.
  induction 1 as [|c s Hc _ IH]; [done|]. cbn [flat_map]. rewrite <- app_assoc, read_chars_escape by done.
  by rewrite IH.
Qed.

(** A number is not followed by a digit. *)
Definition ends (rest : list Z) : Prop := match rest with c :: _ => is_digit c = false | [] => True end.

Lemma take_digits_app ds rest :
  Forall (λ d, is_digit d = true) ds → ends rest → take_digits (ds ++ rest) = (ds, rest).
Proof.
  intros Hds Hr. induction Hds as [|d ds Hd _ IH]; simpl.
  - destruct rest as [|c rest]; [done|]. simpl in *. by rewrite Hr.
  - by rewrite Hd, IH.
Qed.

Lemma read_decimal n rest :
  0 ≤ n ≤ u64_max → ends rest → read_number (decimal n ++ rest) = Some (Number n, rest).
Proof.
  intros Hn Hr. destruct (decimal_spec n Hn) as (Hne & Hds & Hv & _ & Hlead). unfold read_number.
  rewrite take_digits_app by done. cbn [fst snd]. rewrite Hv.
  destruct (decimal n) as [|d [|d' ds]]; [done|done|]. destruct Hlead as [[_ ?]|[_ Hh]]; [done|].
  destruct (Z.eqb_spec d 48) as [->|]; [done|done].
Qed.

(** The first character tells the kinds of documents apart. *)
Lemma doc_head j : json_ok j → ∃ c s, doc j = c :: s ∧ c ≠ 93 ∧ c ≠ 125.
Proof.
  destruct j as [|[]|n|s|l|l]; intros Hok;
    [exists 110, (text "ull")|exists 116, (text "rue")|exists 102, (text "alse")| |eexists 34, _|eexists 91, _|eexists 123, _];
    try (split; [reflexivity|lia]).
  destruct (decimal_spec n Hok) as (Hne & Hds & _). cbn [doc]. destruct (decimal n) as [|d ds]; [done|].
  apply Forall_cons in Hds as [Hd _]. exists d, ds. unfold is_digit in Hd. split; [done|lia].
Qed.

Section read_items.
Context {A : Type} (item : list Z → option (A * list Z)) (body : A → list Z) (close : Z).
Context (Hclose : close ≠ 44) (Hend : is_digit close = false).

Lemma read_items_separated l n rest :
  l ≠ [] → (length l ≤ n)%nat →
  Forall (λ x, ∀ rest, ends rest → item (body x ++ rest) = Some (x, rest)) l →
  read_items item close n (separated (map body l) ++ [close] ++ rest) = Some (l, rest).
Proof using Hclose Hend.
  intros Hne Hn Hl. revert n Hne Hn. induction Hl as [|x l Hx Hl IH]; intros n Hne Hn; [done|].
  destruct n as [|n]; [simpl in Hn; lia|]. cbn [read_items map]. destruct l as [|y l].
  - cbn [map separated]. rewrite Hx by done. cbn [mbind option_bind fst snd app].
    rewrite (proj2 (Z.eqb_neq close 44)) by done. by rewrite Z.eqb_refl.
  - change (separated (body x :: map body (y :: l))) with (body x ++ [44] ++ separated (map body (y :: l))).
    rewrite <- !app_assoc. rewrite Hx by done. cbn [mbind option_bind fst snd app]. change (44 =? 44) with true.
    cbv iota. change (separated (map body (y :: l)) ++ close :: rest) with
      (separated (map body (y :: l)) ++ [close] ++ rest). rewrite IH; [done|done|]. simpl in *. lia.
Qed.

Lemma length_separated l : (∀ x, x ∈ l → body x ≠ []) → (length l ≤ length (separated (map body l)))%nat.
Proof using.
  induction l as [|x l IH]; intros Hl; [done|]. destruct l as [|y l].
  - simpl. specialize (Hl x (list_elem_of_here _ _)). destruct (body x); [done|]. simpl. lia.
  - change (separated (map body (x :: y :: l))) with (body x ++ [44] ++ separated (map body (y :: l))).
    rewrite !length_app. cbn [length] in *. specialize (IH ltac:(intros z ?; apply Hl; by right)). lia.
Qed.

(** Every item is shorter than the list. *)
Lemma item_length x l : x ∈ l → (length (body x) ≤ length (separated (map body l)))%nat.
Proof using.
  induction l as [|y l IH]; [by intros ?%not_elem_of_nil|]. destruct l as [|z l].
  - intros ->%list_elem_of_singleton. simpl. lia.
  - change (separated (map body (y :: z :: l))) with (body y ++ [44] ++ separated (map body (z :: l))).
    rewrite !length_app. intros [->|Hx]%elem_of_cons; [lia|]. specialize (IH Hx). lia.
Qed.
End read_items.

Lemma quoted_cons s rest : quoted s ++ rest = 34 :: flat_map escape_char s ++ [34] ++ rest.
Proof. unfold quoted. by rewrite <- !app_assoc. Qed.

Lemma read_doc j : json_ok j → ∀ fuel rest,
  (length (doc j) ≤ fuel)%nat → ends rest → read fuel (doc j ++ rest) = Some (j, rest).
Proof.
  induction j as [|b|n|s|l IH|l IH] using Json_ind; intros Hok fuel rest Hf Hr.
  - destruct fuel; [simpl in Hf; lia|]. done.
  - destruct fuel; [destruct b; simpl in Hf; lia|]. by destruct b.
  - destruct (decimal_spec n Hok) as (Hne & Hds & _). cbn [doc] in *.
    destruct fuel; [destruct (decimal n); simpl in Hf; [done|lia]|].
    pose proof (read_decimal n rest Hok Hr) as Hn. destruct (decimal n) as [|d ds]; [done|].
    apply Forall_cons in Hds as [Hd _]. unfold is_digit in Hd. cbn [app read] in *.
    rewrite !(proj2 (Z.eqb_neq d _)) by lia. done.
  - destruct fuel; [simpl in Hf; lia|]. cbn [doc]. rewrite quoted_cons. cbn [read].
    change (34 =? 110) with false. change (34 =? 116) with false. change (34 =? 102) with false.
    change (34 =? 34) with true. cbv iota. by rewrite read_quoted.
  - destruct fuel as [|fuel]; [simpl in Hf; lia|]. cbn [doc] in *. apply foldr_Forall in Hok.
    assert (Forall (λ x, ∀ rest, ends rest → read fuel (doc x ++ rest) = Some (x, rest)) l) as Hitems.
    { apply Forall_forall. intros x Hx rest' Hr'. rewrite Forall_forall in *. apply IH; [done|by apply Hok| |done].
      pose proof (item_length doc x l Hx). rewrite !length_app in Hf. simpl in Hf. lia. }
    rewrite <- !app_assoc. change ([91] ++ ?s) with (91 :: s). cbn [read].
    change (91 =? 110) with false. change (91 =? 116) with false. change (91 =? 102) with false.
    change (91 =? 34) with false. change (91 =? 91) with true. cbv iota.
    destruct l as [|x l]; [done|].
    assert (eat [93] (separated (map doc (x :: l)) ++ [93] ++ rest) = None) as ->.
    { cbn [map]. rewrite separated_cons. apply Forall_cons in Hok as [Hx _].
      destruct (doc_head x Hx) as (c & s & -> & Hc & _). cbn [app eat]. by rewrite (proj2 (Z.eqb_neq 93 c)) by done. }
    rewrite (read_items_separated _ doc); [done|done|done|done| |done].
    pose proof (length_separated doc (x :: l)) as Hlen. rewrite !length_app in Hf.
    assert (∀ y, y ∈ x :: l → doc y ≠ []) as Hne.
    { intros y Hy. rewrite Forall_forall in Hok. destruct (doc_head y (Hok y Hy)) as (? & ? & -> & _). done. }
    specialize (Hlen Hne). simpl in *. lia.
  - destruct fuel as [|fuel]; [simpl in Hf; lia|]. cbn [doc] in *. apply foldr_Forall in Hok.
    change (λ kv : list Z * Json, quoted kv.1 ++ [58] ++ doc kv.2) with member in *.
    assert (Forall (λ x, ∀ rest, ends rest → read_member (read fuel) (member x ++ rest) = Some (x, rest)) l) as Hitems.
    { apply Forall_forall. intros [k v] Hx rest' Hr'. rewrite Forall_forall in *. destruct (Hok _ Hx) as [Hk Hv].
      unfold member, read_member. cbn [fst snd]. rewrite <- !app_assoc, quoted_cons. cbn [eat].
      change (34 =? 34) with true. cbv iota. cbn [mbind option_bind]. rewrite read_quoted by done.
      cbn [mbind option_bind fst snd app eat]. change (58 =? 58) with true. cbv iota. cbn [mbind option_bind].
      pose proof (item_length member (k, v) l Hx) as Hlen. rewrite !length_app in Hf. unfold member at 1 in Hlen.
      rewrite !length_app in Hlen. simpl in Hf, Hlen.
      rewrite (IH _ Hx Hv) by (done || simpl; lia). done. }
    rewrite <- !app_assoc. change ([123] ++ ?s) with (123 :: s). cbn [read].
    change (123 =? 110) with false. change (123 =? 116) with false. change (123 =? 102) with false.
    change (123 =? 34) with false. change (123 =? 91) with false. change (123 =? 123) with true. cbv iota.
    destruct l as [|x l]; [done|].
    assert (eat [125] (separated (map member (x :: l)) ++ [125] ++ rest) = None) as ->.
    { cbn [map]. rewrite separated_cons. unfold member at 1. by rewrite <- !app_assoc, quoted_cons. }
    rewrite (read_items_separated _ member); [done|done|done|done| |done].
    pose proof (length_separated member (x :: l)) as Hlen. rewrite !length_app in Hf.
    assert (∀ y, y ∈ x :: l → member y ≠ []) as Hne by (intros y _; unfold member, quoted; done).
    specialize (Hlen Hne). simpl in *. lia.
Qed.

Lemma encode_doc j : encode j = doc j.
Proof. apply (render_doc j []). Qed.

(** C34: an encoded document reads back.  Whatever characters the strings contain, the
    encoding of a document is a JSON text, and a reader of the JSON grammar returns
    exactly the document, with all of the text used. *)
Theorem json_roundtrip (j : Json) : json_ok j → read_document (encode j) = Some j.
Proof.
  intros Hok. unfold read_document. rewrite encode_doc. rewrite <- (app_nil_r (doc j)) at 2.
  by rewrite read_doc.
Qed.

Lemma encoded_len_bounded_spec j lim :
  json_ok j → lim ≤ usize_max →
  encoded_len_bounded j lim =
    if utf8_len (encode j) <=? lim then Ok (utf8_len (encode j)) else Err (limit "report_bytes").
Proof.
  intros Hok Hlim. unfold encoded_len_bounded. rewrite encoded_len_fits, encode_doc by done. unfold fits.
  destruct (Z.leb_spec (utf8_len (doc j)) usize_max); simpl; [by case_match|].
  by rewrite (proj2 (Z.leb_gt _ _)) by lia.
Qed.

(** The size computed before rendering is exact.  Each bounded operation returns
    the encoding exactly when its UTF-8 length, with what is already in the
    destination and the final newline, is within the limit; otherwise the report
    budget is exhausted and nothing is written.  Sizes near [usize::MAX] do not wrap. *)
Theorem json_bounded_exact (j : Json) (out : list Z) (lim : Z) :
  json_ok j → 0 ≤ lim ≤ usize_max →
  encode_bounded j lim =
    (if utf8_len (encode j) <=? lim then Ok (encode j) else Err (limit "report_bytes")) ∧
  append_bounded j out lim =
    (if utf8_len out + utf8_len (encode j) <=? lim then Ok (out ++ encode j) else Err (limit "report_bytes")) ∧
  encode_bounded_line j lim =
    (if utf8_len (encode j) + 1 <=? lim then Ok (encode j ++ [10]) else Err (limit "report_bytes")).
Proof.
  intros Hok Hlim. pose proof (utf8_len_nonneg (encode j)) as Hj. pose proof (utf8_len_nonneg out) as Ho.
  unfold encode_bounded, append_bounded, encode_bounded_line, checked_sub. split_and!.
  - rewrite encoded_len_bounded_spec by (done || lia). by case_match.
  - destruct (Z.leb_spec (utf8_len out) lim); [|by rewrite (proj2 (Z.leb_gt _ _)) by lia].
    cbn [ok_or]. rewrite bind_Ok, encoded_len_bounded_spec by (done || lia).
    destruct (Z.leb_spec (utf8_len (encode j)) (lim - utf8_len out)).
    + rewrite bind_Ok, (proj2 (Z.leb_le _ _)) by lia. by rewrite render_doc, encode_doc.
    + by rewrite (proj2 (Z.leb_gt _ _)) by lia.
  - destruct (Z.leb_spec 1 lim); [|by rewrite (proj2 (Z.leb_gt _ _)) by lia].
    cbn [ok_or]. rewrite bind_Ok, encoded_len_bounded_spec by (done || lia).
    destruct (Z.leb_spec (utf8_len (encode j)) (lim - 1)).
    + rewrite bind_Ok. unfold checked_add. rewrite !(proj2 (Z.leb_le _ _)) by lia. done.
    + by rewrite (proj2 (Z.leb_gt _ _)) by lia.
Qed.

(** ** Witnesses *)

(** An object with a string that needs escapes, numbers and nesting. *)
Definition sample_document : Json :=
  Object [(text "code", String_ (text "a" ++ [34; 10; 7; 0x1f600])); (text "n", Number 10);
          (text "list", Array [Null; Bool true; Number 0; Object []; Array []])].

Lemma sample_document_ok : json_ok sample_document.
Proof.
  unfold sample_document. cbn [json_ok foldr fst snd].
  repeat match goal with
         | |- char_ok _ => first [left; by vm_compute|right; by vm_compute]
         | |- Forall _ _ => constructor
         | |- _ ∧ _ => split
         | |- True => exact I
         | |- _ ≤ _ => by vm_compute
         end.
Qed.

Example sample_text :
  encode sample_document =
    text "{" ++ [34] ++ text "code" ++ [34] ++ text ":" ++ [34] ++ text "a\" ++ [34] ++ text "\n\u0007" ++
    [0x1f600; 34] ++ text "," ++ [34] ++ text "n" ++ [34] ++ text ":10," ++ [34] ++ text "list" ++ [34] ++
    text ":[null,true,0,{},[]]}".
Proof. by vm_compute. Qed.

Lemma json_roundtrip_witness : read_document (encode sample_document) = Some sample_document.
Proof. apply (json_roundtrip sample_document), sample_document_ok. Defined.

Lemma json_bounded_exact_witness :
  utf8_len (encode sample_document) = 60 ∧
  (encode_bounded sample_document 60 =
     (if utf8_len (encode sample_document) <=? 60 then Ok (encode sample_document) else Err (limit "report_bytes")) ∧
   append_bounded sample_document [32] 60 =
     (if utf8_len [32] + utf8_len (encode sample_document) <=? 60 then Ok ([32] ++ encode sample_document)
      else Err (limit "report_bytes")) ∧
   encode_bounded_line sample_document 60 =
     (if utf8_len (encode sample_document) + 1 <=? 60 then Ok (encode sample_document ++ [10])
      else Err (limit "report_bytes"))).
Proof.
  split; [by vm_compute|]. apply (json_bounded_exact sample_document [32] 60); [apply sample_document_ok|lia].
Defined.
