(* ===== verification/Checksum.v ===== *)
(** * The incremental Internet checksum (src/checksum.rs)

    RFC 1071 one's-complement checksum fed slice by slice.  The state carries
    the folded sum and, between two updates, the odd byte still waiting for its
    partner.  The theorems: no addition overflows its [u32], the result depends
    only on the concatenation of the slices, and it is the one's-complement
    checksum of that concatenation as RFC 1071 defines it. *)

From S2P Require Import Prelude Errors.

Record InternetChecksum : Type := {
  sum : Z;
  high_byte : option Z;
}.

(** [InternetChecksum::new] ([Default]). *)
Definition new : InternetChecksum := {| sum := 0; high_byte := None |}.

(** [add_word]: a [u32] addition, then one fold. *)
Definition add_word (c : InternetChecksum) (word : Z) : result InternetChecksum :=
  s ← add_ovf u32_max (sum c) word;
  f ← add_ovf u32_max (Z.land s 0xffff) (Z.shiftr s 16);
  Ok {| sum := f; high_byte := high_byte c |}.

(** The [chunks_exact(2)] loop of [update]: a pair is one big-endian word, an
    odd last byte is the remainder and becomes the new [high_byte]. *)
Fixpoint update_pairs (c : InternetChecksum) (bytes : list Z) : result InternetChecksum :=
  match bytes with
  | a :: b :: rest => c' ← add_word c (from_be_bytes [a; b]); update_pairs c' rest
  | [a] => Ok {| sum := sum c; high_byte := Some a |}
  | [] => Ok {| sum := sum c; high_byte := None |}
  end.

(** [update]. *)
Definition update (c : InternetChecksum) (bytes : list Z) : result InternetChecksum :=
  match bytes with
  | [] => Ok c
  | b0 :: rest =>
      match high_byte c with
      | Some high =>
          c' ← add_word {| sum := sum c; high_byte := None |} (from_be_bytes [high; b0]);
          update_pairs c' rest
      | None => update_pairs c bytes
      end
  end.

(** The fold loop of [finish]; a [u32] needs at most two rounds before the test
    fails. *)
Definition fold_carry (s : Z) : result Z :=
  loop 4 (λ s,
    if negb (Z.shiftr s 16 =? 0)
    then s' ← add_ovf u32_max (Z.land s 0xffff) (Z.shiftr s 16); Ok (Continue s')
    else Ok (Break s)) s.

(** [finish]: the complement as a [u16]. *)
Definition finish (c : InternetChecksum) : result Z :=
  s ← (match high_byte c with
       | Some high => add_ovf u32_max (sum c) (Z.shiftl high 8)
       | None => Ok (sum c)
       end);
  folded ← fold_carry s;
  Ok (65535 - Z.land folded 0xffff).

(** [wire::internet_checksum]. *)
Definition internet_checksum (data : list Z) : result Z :=
  c ← update new data; finish c.

(** ** RFC 1071 reference *)

(** The sum of the big-endian 16-bit words of [d], an odd last byte padded with
    a low-order zero. *)
Fixpoint word_sum (d : list Z) : Z :=
  match d with
  | a :: b :: rest => (a * 256 + b) + word_sum rest
  | [a] => a * 256
  | [] => 0
  end.

(** The one's-complement representative of a sum: 0 for 0, otherwise the member
    of 1..65535 that is congruent to it modulo 65535 (end-around carry). *)
Definition ones_complement (n : Z) : Z :=
  if n =? 0 then 0 else 1 + (n - 1) mod 65535.

Definition rfc1071 (d : list Z) : Z := 65535 - ones_complement (word_sum d).

(** The state after the bytes [d] have been consumed. *)
Fixpoint even_sum (d : list Z) : Z :=
  match d with
  | a :: b :: rest => (a * 256 + b) + even_sum rest
  | _ => 0
  end.
Fixpoint odd_tail (d : list Z) : option Z :=
  match d with
  | _ :: _ :: rest => odd_tail rest
  | [a] => Some a
  | [] => None
  end.
Definition state_of (d : list Z) : InternetChecksum :=
  {| sum := ones_complement (even_sum d); high_byte := odd_tail d |}.

(** Induction two bytes at a time. *)
Lemma pairs_ind {A} (P : list A → Prop) :
  P [] → (∀ a, P [a]) → (∀ a b l, P l → P (a :: b :: l)) → ∀ l, P l.
Proof.
  intros H0 H1 H2. fix IH 1. intros [|a [|b l]]; [done|apply H1|apply H2, IH].
Qed.

Lemma word_sum_split d :
  word_sum d = even_sum d + match odd_tail d with Some h => h * 256 | None => 0 end.
Proof. induction d as [|a|a b l IH] using pairs_ind; simpl; lia. Qed.

Lemma even_sum_nonneg d : bytes_ok d → 0 ≤ even_sum d.
Proof.
  induction d as [|a|a b l IH] using pairs_ind; simpl; try lia.
  intros [Ha [Hb Hl]%Forall_cons]%Forall_cons. unfold is_byte in *. specialize (IH Hl). lia.
Qed.

Lemma odd_tail_byte d h : bytes_ok d → odd_tail d = Some h → is_byte h.
Proof.
  induction d as [|a|a b l IH] using pairs_ind; simpl; try done.
  - intros [Ha _]%Forall_cons. naive_solver.
  - intros [Ha [Hb Hl]%Forall_cons]%Forall_cons. auto.
Qed.

Lemma even_app d b :
  odd_tail d = None →
  even_sum (d ++ b) = even_sum d + even_sum b ∧ odd_tail (d ++ b) = odd_tail b.
Proof.
  induction d as [|a|a a' l IH] using pairs_ind; simpl; try done.
  intros H. destruct (IH H) as [-> ->]. split; [lia|done].
Qed.

Lemma odd_app d h b0 b :
  odd_tail d = Some h →
  even_sum (d ++ b0 :: b) = even_sum d + (h * 256 + b0) + even_sum b ∧
  odd_tail (d ++ b0 :: b) = odd_tail b.
Proof.
  induction d as [|a|a a' l IH] using pairs_ind; simpl; try done.
  - intros [= ->]. split; [lia|done].
  - intros H. destruct (IH H) as [-> ->]. split; [lia|done].
Qed.

Lemma ones_complement_bound n : 0 ≤ n → 0 ≤ ones_complement n ≤ 65535.
Proof. unfold ones_complement. destruct (Z.eqb_spec n 0); dlia. Qed.

(** One fold of a sum below 2^17 is an end-around carry. *)
Lemma fold_once s :
  0 ≤ s < 131072 →
  Z.land s 0xffff + Z.shiftr s 16 = if s <? 65536 then s else s - 65535.
Proof.
  intros. change 0xffff with (2 ^ 16 - 1). rewrite land_ones_mod by lia.
  rewrite Z.shiftr_div_pow2 by lia. change (2 ^ 16) with 65536.
  destruct (Z.ltb_spec s 65536); dlia.
Qed.

Lemma ones_complement_add n w :
  0 ≤ n → 0 ≤ w ≤ 65535 →
  (if ones_complement n + w <? 65536 then ones_complement n + w
   else ones_complement n + w - 65535) = ones_complement (n + w).
Proof.
  intros. unfold ones_complement.
  destruct (Z.eqb_spec n 0), (Z.eqb_spec (n + w) 0); try lia;
    match goal with |- context [?x <? 65536] => destruct (Z.ltb_spec x 65536) end; dlia.
Qed.

Lemma add_word_spec n h w :
  0 ≤ n → 0 ≤ w ≤ 65535 →
  add_word {| sum := ones_complement n; high_byte := h |} w =
    Ok {| sum := ones_complement (n + w); high_byte := h |}.
Proof.
  intros. pose proof (ones_complement_bound n). unfold add_word. cbn [sum high_byte].
  rewrite add_ovf_ok, bind_Ok by lia.
  assert (0 ≤ ones_complement n + w < 131072) as Hs by lia.
  pose proof (fold_once _ Hs) as Hf.
  rewrite ones_complement_add in Hf by lia.
  rewrite add_ovf_ok, bind_Ok; [by rewrite Hf|].
  rewrite Hf. pose proof (ones_complement_bound (n + w)). lia.
Qed.

Lemma update_pairs_spec n h b :
  0 ≤ n → bytes_ok b →
  update_pairs {| sum := ones_complement n; high_byte := h |} b =
    Ok {| sum := ones_complement (n + even_sum b); high_byte := odd_tail b |}.
Proof.
  revert n h. induction b as [|a|a a' b IH] using pairs_ind; intros n h Hn Hb; simpl.
  - by rewrite Z.add_0_r.
  - by rewrite Z.add_0_r.
  - apply Forall_cons in Hb as [Ha [Ha' Hb]%Forall_cons]. unfold is_byte in *.
    rewrite add_word_spec by (unfold from_be_bytes; simpl; lia). simpl.
    rewrite IH by (auto; unfold from_be_bytes; simpl; lia).
    unfold from_be_bytes; simpl. do 3 f_equal. lia.
Qed.

Lemma update_state_of d b :
  bytes_ok d → bytes_ok b → update (state_of d) b = Ok (state_of (d ++ b)).
Proof.
  intros Hd Hb. destruct b as [|b0 b]; [by rewrite app_nil_r|].
  pose proof (even_sum_nonneg d Hd). unfold update, state_of. cbn [high_byte sum].
  destruct (odd_tail d) as [h|] eqn:Ho.
  - pose proof (odd_tail_byte d h Hd Ho) as Hh.
    destruct (odd_app d h b0 b Ho) as [-> ->].
    apply Forall_cons in Hb as [Hb0 Hb]. unfold is_byte in *.
    rewrite add_word_spec by (unfold from_be_bytes; simpl; lia). simpl.
    rewrite update_pairs_spec by (auto; unfold from_be_bytes; simpl; lia).
    unfold from_be_bytes; simpl. done.
  - destruct (even_app d (b0 :: b) Ho) as [-> ->].
    by rewrite update_pairs_spec.
Qed.

Lemma fold_carry_spec n :
  0 ≤ n < 131071 → fold_carry n = Ok (if n <? 65536 then n else n - 65535).
Proof.
  intros Hn. unfold fold_carry. pose proof (fold_once n ltac:(lia)) as Hf.
  assert (∀ m, 0 ≤ m < 65536 → Z.shiftr m 16 = 0) as Hsmall.
  { intros. rewrite Z.shiftr_div_pow2 by lia. by apply Z.div_small. }
  rewrite loop_S. destruct (Z.ltb_spec n 65536).
  - by rewrite Hsmall by lia.
  - assert (Z.shiftr n 16 ≠ 0).
    { rewrite Z.shiftr_div_pow2 by lia. change (2 ^ 16) with 65536. dlia. }
    rewrite (proj2 (Z.eqb_neq _ _)) by done. cbn [negb].
    rewrite add_ovf_ok by lia. rewrite !bind_Ok, Hf, loop_S.
    by rewrite Hsmall by lia.
Qed.

Lemma complement_u16 n : 0 ≤ n ≤ 65535 → 65535 - Z.land n 0xffff = 65535 - n.
Proof.
  intros. change 0xffff with (2 ^ 16 - 1). rewrite land_ones_mod by lia.
  by rewrite Z.mod_small by lia.
Qed.

Lemma finish_state_of d : bytes_ok d → finish (state_of d) = Ok (rfc1071 d).
Proof.
  intros Hd. unfold finish, rfc1071, state_of. cbn [high_byte sum].
  pose proof (even_sum_nonneg d Hd) as Hn. rewrite word_sum_split.
  pose proof (ones_complement_bound _ Hn).
  destruct (odd_tail d) as [h|] eqn:Ho.
  - pose proof (odd_tail_byte d h Hd Ho) as Hh. unfold is_byte in Hh.
    rewrite Z.shiftl_mul_pow2 by lia. change (2 ^ 8) with 256.
    rewrite add_ovf_ok, bind_Ok by lia.
    rewrite fold_carry_spec, bind_Ok, ones_complement_add by lia.
    by rewrite complement_u16 by (apply ones_complement_bound; lia).
  - rewrite bind_Ok, fold_carry_spec, bind_Ok by lia.
    rewrite (proj2 (Z.ltb_lt _ _)), Z.add_0_r, complement_u16 by lia. done.
Qed.

Lemma updates_state_of d slices :
  bytes_ok d → Forall bytes_ok slices →
  foldM update (state_of d) slices = Ok (state_of (d ++ concat slices)).
Proof.
  intros Hd Hs. revert d Hd. induction Hs as [|s slices Hs Hss IH]; intros d Hd; simpl.
  - by rewrite app_nil_r.
  - rewrite update_state_of by done. simpl. rewrite IH, app_assoc; [done|].
    by apply bytes_ok_app.
Qed.

Lemma internet_checksum_spec d : bytes_ok d → internet_checksum d = Ok (rfc1071 d).
Proof.
  intros Hd. unfold internet_checksum. change new with (state_of []).
  rewrite update_state_of by (done || constructor). simpl. by apply finish_state_of.
Qed.

(** The checksum of data that contains its own complement. *)
Lemma ones_complement_self n :
  0 ≤ n → ones_complement (n + (65535 - ones_complement n)) = 65535.
Proof.
  intros. unfold ones_complement. destruct (Z.eqb_spec n 0) as [->|].
  - by vm_compute.
  - destruct (Z.eqb_spec (n + (65535 - (1 + (n - 1) mod 65535))) 0); dlia.
Qed.

Lemma word_sum_even_app d k : odd_tail d = None → word_sum (d ++ k) = word_sum d + word_sum k.
Proof.
  intros H. rewrite !word_sum_split. destruct (even_app d k H) as [-> ->]. rewrite H. lia.
Qed.

Lemma word_sum_nonneg d : bytes_ok d → 0 ≤ word_sum d.
Proof.
  intros H. rewrite word_sum_split. pose proof (even_sum_nonneg d H).
  destruct (odd_tail d) eqn:Ho; [|lia].
  pose proof (odd_tail_byte d _ H Ho) as Hb. unfold is_byte in Hb. lia.
Qed.

(** The checksum of data supplied in any number of slices of any lengths,
    odd ones included, is the RFC 1071 one's-complement checksum of the
    concatenation; no [u32] addition overflows and the folding loop of [finish]
    terminates. *)
Theorem incremental_checksum_is_rfc1071 (slices : list (list Z)) :
  Forall bytes_ok slices →
  (c ← foldM update new slices; finish c) = Ok (rfc1071 (concat slices)).
Proof.
  intros Hs. change new with (state_of []). rewrite updates_state_of by (done || constructor).
  simpl. apply finish_state_of.
  induction Hs; simpl; [constructor|]. by apply bytes_ok_app.
Qed.

Lemma incremental_checksum_witness :
  (c ← foldM update new [[0x12]; [0x34; 0x56]; []; [0x78; 0x9a; 0xbc]]; finish c) =
    Ok (rfc1071 [0x12; 0x34; 0x56; 0x78; 0x9a; 0xbc]).
Proof.
  apply (incremental_checksum_is_rfc1071 [[0x12]; [0x34; 0x56]; []; [0x78; 0x9a; 0xbc]]).
  repeat constructor; lia.
Defined.

(** a header whose 16-bit checksum field, at an even position, holds the
    checksum computed with the field zeroed verifies: [internet_checksum] of
    the whole returns 0, the value [ipv4] and [transport_checksum] test for. *)
Theorem checksum_field_verifies (before after : list Z) :
  bytes_ok before → bytes_ok after → odd_tail before = None →
  let c := rfc1071 (before ++ [0; 0] ++ after) in
  internet_checksum (before ++ [Z.shiftr c 8; Z.land c 255] ++ after) = Ok 0.
Proof.
  intros Hb Ha He c.
  pose proof (word_sum_nonneg _ Hb). pose proof (word_sum_nonneg _ Ha).
  assert (word_sum (before ++ [0; 0] ++ after) = word_sum before + word_sum after) as Hw.
  { rewrite word_sum_even_app by done. simpl. lia. }
  assert (0 ≤ c ≤ 65535).
  { unfold c, rfc1071. rewrite Hw.
    pose proof (ones_complement_bound (word_sum before + word_sum after)). lia. }
  change 255 with (2 ^ 8 - 1). rewrite land_ones_mod, Z.shiftr_div_pow2 by lia.
  change (2 ^ 8) with 256. rewrite internet_checksum_spec.
  - unfold rfc1071 at 1. rewrite word_sum_even_app by done. simpl.
    replace (word_sum before + (c / 256 * 256 + c mod 256 + word_sum after))
      with (word_sum before + word_sum after + c) by dlia.
    unfold c, rfc1071. rewrite Hw, ones_complement_self by lia. done.
  - apply bytes_ok_app; split; [done|]. repeat constructor; try done; dlia.
Qed.

Lemma checksum_field_witness :
  internet_checksum [0x45; 0; 0; 20; Z.shiftr 0xbaeb 8; Z.land 0xbaeb 255] = Ok 0
  ∧ odd_tail [0x45; 0; 0; 20] = None.
Proof.
  split; [|reflexivity].
  assert (rfc1071 ([0x45; 0; 0; 20] ++ [0; 0] ++ []) = 0xbaeb) as Hc by (vm_compute; reflexivity).
  rewrite <- Hc.
  apply (checksum_field_verifies [0x45; 0; 0; 20] []); [repeat constructor; lia|constructor|reflexivity].
Defined.
