(* ===== verification/Ord.v ===== *)
(** * Ordered keys, sorted vectors and B-tree maps

    Rust's [derive(Ord)] is the lexicographic order of the fields; [sort] and
    [dedup] and the [BTreeMap]/[BTreeSet] collections are defined by it.  The
    class [Ord] states what those need of a key type and the rest of the file is
    proved against it: [sort_dedup] gives the strictly sorted list of the
    elements, and a map is the strictly sorted list of its bindings. *)

From S2P Require Import Prelude.
From Stdlib Require Import Sorting.

(** ** [Ord] *)

Class Ord (A : Type) : Type := {
  cmp : A → A → comparison;
  cmp_eq : ∀ x y, cmp x y = Eq ↔ x = y;
  cmp_antisym : ∀ x y, cmp y x = CompOpp (cmp x y);
  cmp_trans : ∀ x y z, cmp x y = Lt → cmp y z = Lt → cmp x z = Lt;
}.

Definition lt_ord {A} `{Ord A} (x y : A) : Prop := cmp x y = Lt.

Section ord_rules.
Context {A : Type} `{Ord A}.

Lemma cmp_refl (x : A) : cmp x x = Eq.
Proof. by apply cmp_eq. Qed.

Lemma lt_ord_irrefl (x : A) : ¬ lt_ord x x.
Proof. unfold lt_ord. by rewrite cmp_refl. Qed.

Lemma lt_ord_trans (x y z : A) : lt_ord x y → lt_ord y z → lt_ord x z.
Proof. apply cmp_trans. Qed.

Lemma cmp_gt (x y : A) : cmp x y = Gt ↔ lt_ord y x.
Proof. unfold lt_ord. rewrite (cmp_antisym x y). by destruct (cmp x y). Qed.

#[global] Instance ord_eq_dec : EqDecision A.
Proof.
  intros x y. destruct (cmp x y) eqn:Hc; [left; by apply cmp_eq| |];
    right; intros ->; by rewrite cmp_refl in Hc.
Defined.
End ord_rules.

(** ** Instances *)

#[global] Instance Z_ord : Ord Z.
Proof.
  refine {| cmp := Z.compare |}.
  - apply Z.compare_eq_iff.
  - intros. by rewrite Z.compare_antisym.
  - intros x y z. rewrite !Z.compare_lt_iff. lia.
Defined.

Definition bool_cmp (x y : bool) : comparison :=
  match x, y with false, true => Lt | true, false => Gt | _, _ => Eq end.
#[global] Instance bool_ord : Ord bool.
Proof.
  refine {| cmp := bool_cmp |}.
  - by intros [] [].
  - by intros [] [].
  - by intros [] [] [].
Defined.

(** A pair of comparisons, the first one deciding. *)
Definition then_cmp (c d : comparison) : comparison :=
  match c with Eq => d | _ => c end.

Section pair_ord.
Context {A B : Type} `{Ord A} `{Ord B}.
Definition pair_cmp (x y : A * B) : comparison :=
  then_cmp (cmp x.1 y.1) (cmp x.2 y.2).
#[global] Instance pair_ord : Ord (A * B).
Proof.
  refine {| cmp := pair_cmp |}; unfold pair_cmp.
  - intros [a b] [a' b']; simpl. split.
    + destruct (cmp a a') eqn:Ha; simpl; try done.
      apply cmp_eq in Ha as ->. by intros ->%cmp_eq.
    + intros [= -> ->]. by rewrite !cmp_refl.
  - intros [a b] [a' b']; simpl. rewrite (cmp_antisym a a'), (cmp_antisym b b').
    by destruct (cmp a a').
  - intros [a b] [a' b'] [a'' b'']; simpl.
    destruct (cmp a a') eqn:H1; try done; destruct (cmp a' a'') eqn:H2; try done; simpl;
      intros Hx Hy.
    + apply cmp_eq in H1 as ->, H2 as ->. rewrite cmp_refl. simpl. by eapply cmp_trans.
    + apply cmp_eq in H1 as ->. by rewrite H2.
    + apply cmp_eq in H2 as <-. by rewrite H1.
    + by rewrite (cmp_trans _ _ _ H1 H2).
Defined.
End pair_ord.

Section list_ord.
Context {A : Type} `{Ord A}.
Fixpoint list_cmp (x y : list A) : comparison :=
  match x, y with
  | [], [] => Eq
  | [], _ => Lt
  | _, [] => Gt
  | a :: x, b :: y => then_cmp (cmp a b) (list_cmp x y)
  end.
#[global] Instance list_ord : Ord (list A).
Proof.
  refine {| cmp := list_cmp |}.
  - induction x as [|a x IH]; intros [|b y]; simpl; try done. split.
    + destruct (cmp a b) eqn:Hc; simpl; try done.
      apply cmp_eq in Hc as ->. by intros ->%IH.
    + intros [= -> ->]. rewrite cmp_refl. by apply IH.
  - induction x as [|a x IH]; intros [|b y]; simpl; try done.
    rewrite (cmp_antisym a b), IH. by destruct (cmp a b).
  - induction x as [|a x IH]; intros [|b y] [|c z]; simpl; try done.
    destruct (cmp a b) eqn:H1; try done; destruct (cmp b c) eqn:H2; try done; simpl;
      intros Hx Hy.
    + apply cmp_eq in H1 as ->, H2 as ->. rewrite cmp_refl. simpl. by eapply IH.
    + apply cmp_eq in H1 as ->. by rewrite H2.
    + apply cmp_eq in H2 as <-. by rewrite H1.
    + by rewrite (cmp_trans _ _ _ H1 H2).
Defined.
End list_ord.

Section option_ord.
Context {A : Type} `{Ord A}.
Definition option_cmp (x y : option A) : comparison :=
  match x, y with
  | None, None => Eq
  | None, Some _ => Lt
  | Some _, None => Gt
  | Some a, Some b => cmp a b
  end.
#[global] Instance option_ord : Ord (option A).
Proof.
  refine {| cmp := option_cmp |}.
  - intros [a|] [b|]; simpl; try done. rewrite cmp_eq. naive_solver.
  - intros [a|] [b|]; simpl; try done. apply cmp_antisym.
  - intros [a|] [b|] [c|]; simpl; try done. apply cmp_trans.
Defined.
End option_ord.

(** The order a record inherits from the tuple of its fields. *)
Definition proj_ord {A B : Type} `{Ord B} (f : A → B) (inj : ∀ x y, f x = f y → x = y) : Ord A.
Proof.
  refine {| cmp := λ x y, cmp (f x) (f y) |}.
  - intros x y. rewrite cmp_eq. naive_solver.
  - intros. apply cmp_antisym.
  - intros x y z. apply cmp_trans.
Defined.

(** Strings are ordered by their bytes. *)
Definition string_bytes (s : string) : list Z :=
  map (λ c, Z.of_N (Ascii.N_of_ascii c)) (String.list_ascii_of_string s).

#[global] Instance string_ord : Ord string.
Proof.
  refine (proj_ord string_bytes _). intros x y H. unfold string_bytes in H.
  apply (list_fmap_eq_inj (λ c, Z.of_N (Ascii.N_of_ascii c))) in H.
  - by rewrite <- (String.string_of_list_ascii_of_string x), H, String.string_of_list_ascii_of_string.
  - intros a b Hab%N2Z.inj. by rewrite <- (Ascii.ascii_N_embedding a), Hab, Ascii.ascii_N_embedding.
Defined.

(** ** [sort] and [dedup] *)

Section sorting.
Context {A : Type} `{Ord A}.

Fixpoint insert_sorted (x : A) (l : list A) : list A :=
  match l with
  | [] => [x]
  | y :: l' => match cmp x y with Gt => y :: insert_sorted x l' | _ => x :: l end
  end.
(** [v.sort()]. *)
Definition sort (l : list A) : list A := foldr insert_sorted [] l.
(** [v.dedup()]: drop an element equal to its predecessor. *)
Fixpoint dedup (l : list A) : list A :=
  match l with
  | x :: l' =>
      match l' with
      | y :: _ => match cmp x y with Eq => dedup l' | _ => x :: dedup l' end
      | [] => [x]
      end
  | [] => []
  end.
Definition sort_dedup (l : list A) : list A := dedup (sort l).

Abbreviation le_ord := (λ x y : A, cmp x y ≠ Gt).

Lemma le_ord_trans x y z : le_ord x y → le_ord y z → le_ord x z.
Proof.
  intros H1 H2 H3. destruct (cmp x y) eqn:Hxy; [|destruct (cmp y z) eqn:Hyz|]; try done.
  - apply cmp_eq in Hxy as ->. done.
  - apply cmp_eq in Hyz as <-. by rewrite Hxy in H3.
  - by rewrite (cmp_trans _ _ _ Hxy Hyz) in H3.
Qed.

Lemma insert_sorted_perm x l : insert_sorted x l ≡ₚ x :: l.
Proof.
  induction l as [|y l IH]; simpl; [done|]. destruct (cmp x y); [done..|].
  rewrite IH. apply Permutation_swap.
Qed.

Lemma sort_perm l : sort l ≡ₚ l.
Proof. induction l as [|x l IH]; simpl; [done|]. by rewrite insert_sorted_perm, IH. Qed.

Lemma insert_sorted_sorted x l :
  StronglySorted le_ord l → StronglySorted le_ord (insert_sorted x l).
Proof.
  induction 1 as [|y l Hs IH Hall]; simpl; [repeat constructor|].
  destruct (cmp x y) eqn:Hc.
  1,2: constructor; [by constructor|]; constructor; [by rewrite Hc|];
       eapply Forall_impl; [exact Hall|]; intros z Hz; simpl in *;
       apply (le_ord_trans _ y); [by rewrite Hc|done].
  constructor; [done|]. rewrite insert_sorted_perm. constructor; [|done].
  by rewrite (proj1 (cmp_gt x y)).
Qed.

Lemma sort_sorted l : StronglySorted le_ord (sort l).
Proof. induction l; simpl; [constructor|]. by apply insert_sorted_sorted. Qed.

Lemma dedup_cons_cons x y l :
  dedup (x :: y :: l) = match cmp x y with Eq => dedup (y :: l) | _ => x :: dedup (y :: l) end.
Proof. done. Qed.

Lemma elem_of_dedup l x : x ∈ dedup l ↔ x ∈ l.
Proof.
  induction l as [|y [|z l] IH]; [done|done|]. rewrite dedup_cons_cons.
  destruct (cmp y z) eqn:Hc; rewrite ?(elem_of_cons (dedup _)), IH;
    [apply cmp_eq in Hc as ->|..]; rewrite !elem_of_cons; tauto.
Qed.

Lemma dedup_sorted l : StronglySorted le_ord l → StronglySorted lt_ord (dedup l).
Proof.
  induction 1 as [|y l Hs IH Hall]; [constructor|].
  destruct l as [|z l]; [repeat constructor|]. rewrite dedup_cons_cons.
  apply Forall_cons in Hall as [Hyz Hall].
  destruct (cmp y z) eqn:Hc; [done| |done].
  constructor; [done|]. apply Forall_forall. intros w Hw.
  rewrite elem_of_dedup in Hw. apply elem_of_cons in Hw as [->|Hw]; [done|].
  unfold lt_ord. apply StronglySorted_inv in Hs as [_ Hz].
  rewrite Forall_forall in Hz. specialize (Hz w Hw). simpl in Hz.
  destruct (cmp z w) eqn:Hzw; [|by eapply cmp_trans|done].
  by apply cmp_eq in Hzw as <-.
Qed.

(** [sort] followed by [dedup]: the strictly increasing list of the elements. *)
Lemma sort_dedup_sorted l : StronglySorted lt_ord (sort_dedup l).
Proof. apply dedup_sorted, sort_sorted. Qed.

Lemma elem_of_sort_dedup l x : x ∈ sort_dedup l ↔ x ∈ l.
Proof. unfold sort_dedup. by rewrite elem_of_dedup, sort_perm. Qed.

Lemma sorted_NoDup l : StronglySorted lt_ord l → NoDup l.
Proof.
  induction 1 as [|y l Hs IH Hall]; constructor; [|done].
  intros Hin. rewrite Forall_forall in Hall. by apply (lt_ord_irrefl y), Hall.
Qed.

(** A strictly sorted list is determined by its elements. *)
Lemma sorted_ext l k :
  StronglySorted lt_ord l → StronglySorted lt_ord k → (∀ x, x ∈ l ↔ x ∈ k) → l = k.
Proof.
  intros Hl. revert k. induction Hl as [|x l Hl IH Hall]; intros k Hk Heq.
  - destruct k as [|y k]; [done|]. specialize (Heq y). set_solver.
  - destruct Hk as [|y k Hk Hally]; [specialize (Heq x); set_solver|].
    rewrite Forall_forall in Hall, Hally.
    assert (x = y) as ->.
    { assert (x = y ∨ x ∈ k) as [?|Hx] by (apply elem_of_cons, Heq; set_solver); [done|].
      assert (y = x ∨ y ∈ l) as [?|Hy] by (apply elem_of_cons, Heq; set_solver); [done|].
      exfalso. apply (lt_ord_irrefl x). eapply lt_ord_trans; [by apply Hall|by apply Hally]. }
    f_equal. apply IH; [done|]. intros z. specialize (Heq z).
    rewrite !elem_of_cons in Heq. split; intros Hz.
    + destruct Heq as [[->|?] _]; [by right| |done].
      exfalso. by apply (lt_ord_irrefl y), Hall.
    + destruct Heq as [_ [->|?]]; [by right| |done].
      exfalso. by apply (lt_ord_irrefl y), Hally.
Qed.
End sorting.

(** ** [BTreeMap]

    The list of bindings in increasing key order. *)
Section btree_map.
Context {K V : Type} `{Ord K}.
Implicit Types m : list (K * V).

Definition bt_wf m : Prop := StronglySorted lt_ord (m.*1).

Fixpoint bt_get m (k : K) : option V :=
  match m with
  | [] => None
  | (k', v) :: m => match cmp k k' with Eq => Some v | _ => bt_get m k end
  end.

(** [map.insert(k, v)], also the write-back of [get_mut] and [entry]. *)
Fixpoint bt_insert m (k : K) (v : V) : list (K * V) :=
  match m with
  | [] => [(k, v)]
  | (k', v') :: m' =>
      match cmp k k' with
      | Lt => (k, v) :: m
      | Eq => (k, v) :: m'
      | Gt => (k', v') :: bt_insert m' k v
      end
  end.

Fixpoint bt_remove m (k : K) : list (K * V) :=
  match m with
  | [] => []
  | (k', v') :: m' =>
      match cmp k k' with Eq => bt_remove m' k | _ => (k', v') :: bt_remove m' k end
  end.

Lemma bt_get_insert_eq m k v : bt_get (bt_insert m k v) k = Some v.
Proof.
  induction m as [|[k' v'] m IH]; simpl; [by rewrite cmp_refl|].
  destruct (cmp k k') eqn:Hc; simpl; rewrite ?cmp_refl, ?Hc; done.
Qed.

Lemma bt_get_insert_ne m k k' v : k ≠ k' → bt_get (bt_insert m k v) k' = bt_get m k'.
Proof.
  intros Hne. assert (∀ B (x y : B), match cmp k' k with Eq => x | _ => y end = y) as Hk.
  { intros. destruct (cmp k' k) eqn:Hc; try done. by apply cmp_eq in Hc as ->. }
  induction m as [|[k2 v2] m IH]; simpl; [by rewrite Hk|].
  destruct (cmp k k2) eqn:Hc; simpl; rewrite ?Hk; try done.
  - apply cmp_eq in Hc as ->. by rewrite Hk.
  - by rewrite IH.
Qed.

Lemma bt_get_remove_eq m k : bt_get (bt_remove m k) k = None.
Proof.
  induction m as [|[k' v'] m IH]; simpl; [done|].
  destruct (cmp k k') eqn:Hc; simpl; rewrite ?Hc; done.
Qed.

Lemma bt_get_remove_ne m k k' : k ≠ k' → bt_get (bt_remove m k) k' = bt_get m k'.
Proof.
  intros Hne. induction m as [|[k2 v2] m IH]; simpl; [done|].
  destruct (cmp k k2) eqn:Hc; simpl; rewrite IH; try done.
  apply cmp_eq in Hc as ->. destruct (cmp k' k2) eqn:Hc'; try done.
  by apply cmp_eq in Hc' as ->.
Qed.

Lemma bt_get_elem m k v : bt_get m k = Some v → (k, v) ∈ m.
Proof.
  induction m as [|[k' v'] m IH]; simpl; [done|].
  destruct (cmp k k') eqn:Hc; rewrite elem_of_cons; auto.
  apply cmp_eq in Hc as ->. naive_solver.
Qed.

Lemma bt_elem_get m k v : bt_wf m → (k, v) ∈ m → bt_get m k = Some v.
Proof.
  unfold bt_wf. induction m as [|[k' v'] m IH]; simpl; [by intros _ ?%not_elem_of_nil|].
  intros [Hs Hall]%StronglySorted_inv [[= -> ->]|Hin]%elem_of_cons; [by rewrite cmp_refl|].
  rewrite IH by done. destruct (cmp k k') eqn:Hc; try done.
  apply cmp_eq in Hc as ->. rewrite Forall_forall in Hall. exfalso.
  apply (lt_ord_irrefl k'), Hall. apply list_elem_of_fmap. by exists (k', v).
Qed.

Lemma bt_get_None m k : bt_get m k = None ↔ k ∉ m.*1.
Proof.
  induction m as [|[k' v'] m IH]; simpl; [split; [by intros _ ?%not_elem_of_nil|done]|].
  rewrite not_elem_of_cons, <- IH. destruct (cmp k k') eqn:Hc.
  - apply cmp_eq in Hc as ->. naive_solver.
  - split; [|tauto]. intros. split; [|done]. intros ->. by rewrite cmp_refl in Hc.
  - split; [|tauto]. intros. split; [|done]. intros ->. by rewrite cmp_refl in Hc.
Qed.

Lemma elem_of_insert_keys m k v k' : k' ∈ (bt_insert m k v).*1 ↔ k' = k ∨ k' ∈ m.*1.
Proof.
  induction m as [|[k2 v2] m IH]; simpl; [set_solver|].
  destruct (cmp k k2) eqn:Hc; simpl; rewrite !elem_of_cons, ?IH; try tauto.
  apply cmp_eq in Hc as ->. tauto.
Qed.

Lemma elem_of_remove_keys m k k' : k' ∈ (bt_remove m k).*1 → k' ∈ m.*1.
Proof.
  induction m as [|[k2 v2] m IH]; simpl; [done|].
  destruct (cmp k k2); simpl; rewrite ?elem_of_cons; tauto.
Qed.

Lemma bt_insert_wf m k v : bt_wf m → bt_wf (bt_insert m k v).
Proof.
  unfold bt_wf. induction m as [|[k' v'] m IH]; simpl; [repeat constructor|].
  intros [Hs Hall]%StronglySorted_inv. destruct (cmp k k') eqn:Hc; simpl.
  - apply cmp_eq in Hc as ->. by constructor.
  - constructor; [by constructor|]. constructor; [done|].
    eapply Forall_impl; [exact Hall|]. intros. by eapply lt_ord_trans.
  - constructor; [auto|]. apply Forall_forall. intros x [->|Hx]%elem_of_insert_keys.
    + by apply cmp_gt.
    + rewrite Forall_forall in Hall. auto.
Qed.

Lemma bt_remove_wf m k : bt_wf m → bt_wf (bt_remove m k).
Proof.
  unfold bt_wf. induction m as [|[k' v'] m IH]; simpl; [done|].
  intros [Hs Hall]%StronglySorted_inv. destruct (cmp k k') eqn:Hc; simpl; [auto| |];
    (constructor; [auto|]; apply Forall_forall; intros x Hx%elem_of_remove_keys;
     rewrite Forall_forall in Hall; auto).
Qed.

Lemma bt_remove_notin m k : bt_get m k = None → bt_remove m k = m.
Proof.
  induction m as [|[k' v'] m IH]; simpl; [done|].
  destruct (cmp k k'); simpl; intros; f_equal; auto. done.
Qed.

Lemma bt_wf_head m k v : bt_wf ((k, v) :: m) → bt_wf m ∧ bt_get m k = None.
Proof.
  unfold bt_wf; simpl. intros [Hs Hall]%StronglySorted_inv. split; [done|].
  apply bt_get_None. intros Hin. rewrite Forall_forall in Hall.
  by apply (lt_ord_irrefl k), Hall.
Qed.

Lemma bt_get_insert m k v k' :
  bt_get (bt_insert m k v) k' = if decide (k = k') then Some v else bt_get m k'.
Proof. case_decide; subst; [apply bt_get_insert_eq|by apply bt_get_insert_ne]. Qed.

Lemma bt_get_remove m k k' :
  bt_get (bt_remove m k) k' = if decide (k = k') then None else bt_get m k'.
Proof. case_decide; subst; [apply bt_get_remove_eq|by apply bt_get_remove_ne]. Qed.

(** The sum of a measure over the bindings. *)
Definition bt_sum (f : V → Z) m : Z := foldr (λ kv acc, f kv.2 + acc) 0 m.

Lemma bt_sum_remove f m k :
  bt_wf m → bt_sum f (bt_remove m k) = bt_sum f m - from_option f 0 (bt_get m k).
Proof.
  induction m as [|[k' v'] m IH]; [done|]. intros [Hwf Hn]%bt_wf_head. simpl.
  destruct (cmp k k') eqn:Hc; simpl; rewrite ?IH by done; try lia.
  apply cmp_eq in Hc as ->. rewrite Hn. simpl. lia.
Qed.

Lemma bt_sum_insert f m k v :
  bt_wf m → bt_sum f (bt_insert m k v) = bt_sum f m - from_option f 0 (bt_get m k) + f v.
Proof.
  induction m as [|[k' v'] m IH]; simpl; [intros; lia|]. intros Hwf.
  pose proof (bt_wf_head _ _ _ Hwf) as [Hwf' Hn].
  destruct (cmp k k') eqn:Hc; simpl; rewrite ?IH by done; try lia.
  assert (bt_get m k = None) as ->; [|simpl; lia].
  apply bt_get_None. intros Hin. unfold bt_wf in Hwf. simpl in Hwf.
  apply StronglySorted_inv in Hwf as [_ Hall]. rewrite Forall_forall in Hall.
  apply (lt_ord_irrefl k). eapply lt_ord_trans; [done|by apply Hall].
Qed.

Lemma bt_sum_nonneg f m : Forall (λ kv, 0 ≤ f kv.2) m → 0 ≤ bt_sum f m.
Proof. induction 1; simpl; lia. Qed.

Lemma bt_sum_get f m k v :
  Forall (λ kv, 0 ≤ f kv.2) m → bt_get m k = Some v → f v ≤ bt_sum f m.
Proof.
  induction 1 as [|[k' v'] m Hv Hm IH]; simpl in *; [done|].
  pose proof (bt_sum_nonneg f m Hm). destruct (cmp k k'); intros; simplify_eq; try lia.
  all: specialize (IH ltac:(done)); lia.
Qed.

Lemma zlen_bt_sum m : zlen m = bt_sum (λ _, 1) m.
Proof. induction m as [|[k v] m IH]; [done|]. rewrite zlen_cons, IH. done. Qed.

Lemma Forall_bt_insert (P : K * V → Prop) m k v :
  Forall P m → P (k, v) → Forall P (bt_insert m k v).
Proof.
  intros Hm Hv. induction Hm as [|[k' v'] m Hk Hm IH]; simpl; [by repeat constructor|].
  destruct (cmp k k'); repeat constructor; done.
Qed.

Lemma Forall_bt_remove (P : K * V → Prop) m k : Forall P m → Forall P (bt_remove m k).
Proof.
  induction 1 as [|[k' v'] m Hk Hm IH]; simpl; [constructor|].
  destruct (cmp k k'); [done|by constructor..].
Qed.

Lemma Forall_bt_get (P : K * V → Prop) m k v : Forall P m → bt_get m k = Some v → P (k, v).
Proof. intros Hm ?%bt_get_elem. by eapply Forall_forall in Hm. Qed.

(** A key smaller than the first is not bound. *)
Lemma bt_get_below m k k' v : bt_wf ((k', v) :: m) → cmp k k' = Lt → bt_get m k = None.
Proof.
  intros [_ Hall]%StronglySorted_inv Hc. apply bt_get_None. intros Hin.
  rewrite Forall_forall in Hall. apply (lt_ord_irrefl k). eapply lt_ord_trans; [done|by apply Hall].
Qed.

(** Growing a value by an element grows the elements of the map by it. *)
Lemma bt_insert_concat {B} (f : V → list B) m k v x :
  bt_wf m → f v ≡ₚ from_option f [] (bt_get m k) ++ [x] →
  concat ((λ kv, f kv.2) <$> bt_insert m k v) ≡ₚ concat ((λ kv, f kv.2) <$> m) ++ [x].
Proof.
  induction m as [|[k' v'] m IH]; simpl; intros Hwf Hv; [by rewrite Hv|].
  pose proof (bt_wf_head _ _ _ Hwf) as [Hwf' _].
  destruct (cmp k k') eqn:Hc; simpl.
  - rewrite Hv. simpl. by rewrite <- !app_assoc, (Permutation_app_comm _ [x]).
  - rewrite (bt_get_below _ _ _ _ Hwf Hc) in Hv. rewrite Hv. simpl. apply Permutation_cons_append.
  - rewrite IH by done. by rewrite app_assoc.
Qed.
End btree_map.
