(* ===== verification/Provenance.v ===== *)
(** * Evidence bytes (src/provenance.rs)

    A byte vector with, for every byte, the captured packet and the position in
    it the byte was copied from, kept as a list of contiguous source spans.  The
    abstraction [origins] expands the spans to one source per byte; [slice] and
    [append] are proved to act on bytes and origins alike, so no operation can
    move a byte away from its provenance. *)

From S2P Require Import Prelude Errors Ord.

Record PacketId : Type := {
  capture : list Z;        (* [u8; 32] *)
  frame : Z;               (* u64 *)
  record_offset : Z;       (* u64 *)
}.

(** [derive(Ord)]: capture, then frame, then record offset. *)
Definition packet_key (p : PacketId) : list Z * (Z * Z) :=
  (capture p, (frame p, record_offset p)).
#[global] Instance PacketId_ord : Ord PacketId.
Proof. apply (proj_ord packet_key). by intros [] [] [=->->->]. Defined.

(** A half-open range [start..end] of the reconstructed bytes and the packet
    bytes from [packet_start] it was taken from. *)
Record SourceSpan : Type := {
  start : Z;
  end_ : Z;
  packet : PacketId;
  packet_start : Z;
}.

Record EvidenceBytes : Type := {
  data : list Z;
  spans : list SourceSpan;
  layout_valid : bool;
}.

#[global] Instance SourceSpan_eq_dec : EqDecision SourceSpan.
Proof. solve_decision. Defined.
#[global] Instance EvidenceBytes_eq_dec : EqDecision EvidenceBytes.
Proof. solve_decision. Defined.

(** [EvidenceBytes::default]. *)
Definition evidence_default : EvidenceBytes :=
  {| data := []; spans := []; layout_valid := true |}.

(** [len] and [is_empty]. *)
Definition len (e : EvidenceBytes) : Z := zlen (data e).
Definition is_empty (e : EvidenceBytes) : bool := zlen (data e) =? 0.

Definition invalid (d : string) : Error := error_new Invariant 0 "provenance" d.

(** [from_packet]. *)
Definition from_packet (d : list Z) (p : PacketId) (pstart : Z) : EvidenceBytes :=
  {| data := d;
     spans := if zlen d =? 0 then []
              else [{| start := 0; end_ := zlen d; packet := p; packet_start := pstart |}];
     layout_valid :=
       (zlen d =? 0) || (if checked_add usize_max pstart (zlen d) then true else false) |}.

(** [partition_point] followed by the suffix it names, on a slice partitioned by
    the predicate (the spans are sorted: [spans_partitioned] below). *)
Fixpoint skip_while {A} (P : A → bool) (l : list A) : list A :=
  match l with
  | [] => []
  | x :: l' => if P x then skip_while P l' else l
  end.

(** The loop of [slice]: spans are taken while they start before [b], clipped to
    [a..b] and rebased. *)
Fixpoint clip_spans (a b : Z) (l : list SourceSpan) : result (list SourceSpan) :=
  match l with
  | [] => Ok []
  | s :: l' =>
      if start s <? b then
        let lo := Z.max (start s) a in
        let hi := Z.min (end_ s) b in
        if lo <? hi then
          ps ← ok_or (checked_add usize_max (packet_start s) (lo - start s))
                 (invalid "source offset overflow");
          rest ← clip_spans a b l';
          Ok ({| start := lo - a; end_ := hi - a; packet := packet s;
                 packet_start := ps |} :: rest)
        else clip_spans a b l'
      else Ok []
  end.

(** [slice]. *)
Definition slice (e : EvidenceBytes) (a b : Z) : result EvidenceBytes :=
  if negb (layout_valid e) then Err (invalid "invalid source-span layout")
  else if (b <? a) || (zlen (data e) <? b)
  then Err (error_new Invariant 0 "evidence_slice" "slice outside retained evidence")
  else
    out ← clip_spans a b (skip_while (λ s, end_ s <=? a) (spans e));
    d ← Prelude.slice (data e) a b;
    Ok {| data := d; spans := out; layout_valid := true |}.

(** The body of the loop of [append]: the next span is merged into the last one
    when both cover adjacent bytes of the same packet. *)
Definition push_span (acc : list SourceSpan) (next : SourceSpan) : result (list SourceSpan) :=
  match last acc with
  | Some l =>
      if bool_decide (packet l = packet next) && (end_ l =? start next) then
        w ← sub_ovf (end_ l) (start l);
        if bool_decide (checked_add usize_max (packet_start l) w = Some (packet_start next))
        then Ok (removelast acc ++
                   [{| start := start l; end_ := end_ next; packet := packet l;
                       packet_start := packet_start l |}])
        else Ok (acc ++ [next])
      else Ok (acc ++ [next])
  | None => Ok (acc ++ [next])
  end.

(** [append]: the extended value; on an error the receiver is unchanged.
    Allocation ([try_reserve]) is assumed to succeed. *)
Definition append (e other : EvidenceBytes) (lim : Z) : result EvidenceBytes :=
  if negb (layout_valid e) || negb (layout_valid other)
  then Err (invalid "invalid source-span layout")
  else
    let base := zlen (data e) in
    end' ← ok_or (checked_add usize_max base (zlen (data other))) (limit "evidence_bytes");
    if lim <? end' then Err (limit "evidence_bytes")
    else
      sp ← foldM (λ acc s,
             st ← add_ovf usize_max base (start s);
             en ← add_ovf usize_max base (end_ s);
             push_span acc {| start := st; end_ := en; packet := packet s;
                              packet_start := packet_start s |})
             (spans e) (spans other);
      Ok {| data := data e ++ data other; spans := sp; layout_valid := layout_valid e |}.

(** [packets]. *)
Definition packets (e : EvidenceBytes) : list PacketId :=
  sort_dedup (map packet (spans e)).

(** The scan of [validate]: the spans tile [cursor..dlen]. *)
Fixpoint validate_from (dlen cursor : Z) (l : list SourceSpan) : bool :=
  match l with
  | [] => cursor =? dlen
  | s :: l' =>
      if negb (start s =? cursor) || (end_ s <=? start s) || (dlen <? end_ s) ||
         (if checked_add usize_max (packet_start s) (end_ s - start s) then false else true)
      then false
      else validate_from dlen (end_ s) l'
  end.

(** [validate]. *)
Definition validate (e : EvidenceBytes) : bool :=
  layout_valid e && validate_from (zlen (data e)) 0 (spans e).

(** ** Abstraction *)

(** The sources of the bytes a span covers. *)
Definition span_origins (s : SourceSpan) : list (PacketId * Z) :=
  (packet s,.) <$> seqZ (packet_start s) (end_ s - start s).

Definition spans_origins (l : list SourceSpan) : list (PacketId * Z) :=
  concat (span_origins <$> l).

(** The packet and packet position of every byte. *)
Definition origins (e : EvidenceBytes) : list (PacketId * Z) := spans_origins (spans e).

(** Values the program can hold: bytes in a vector of a machine-sized length,
    packet positions of type [usize]. *)
Definition ev_typed (e : EvidenceBytes) : Prop :=
  bytes_ok (data e) ∧ zlen (data e) ≤ i64_max ∧
  Forall (λ s, 0 ≤ packet_start s) (spans e).

(** The layout invariant. *)
Definition ev_ok (e : EvidenceBytes) : Prop := ev_typed e ∧ validate e = true.

(** ** Layout lemmas *)

Lemma validate_from_cons dlen c s l :
  validate_from dlen c (s :: l) = true ↔
  start s = c ∧ start s < end_ s ∧ end_ s ≤ dlen ∧
  packet_start s + (end_ s - start s) ≤ usize_max ∧ validate_from dlen (end_ s) l = true.
Proof.
  cbn [validate_from]. unfold checked_add.
  destruct (Z.eqb_spec (start s) c), (Z.leb_spec (end_ s) (start s)), (Z.ltb_spec dlen (end_ s)),
    (Z.leb_spec (packet_start s + (end_ s - start s)) usize_max); simpl; naive_solver lia.
Qed.

Lemma validate_from_le dlen c l : validate_from dlen c l = true → c ≤ dlen.
Proof.
  revert c. induction l as [|s l IH]; intros c; [simpl; lia|].
  intros (? & ? & ? & ? & ?)%validate_from_cons. lia.
Qed.

Lemma zlen_span_origins s : start s ≤ end_ s → zlen (span_origins s) = end_ s - start s.
Proof. intros. unfold span_origins, zlen. rewrite length_fmap, length_seqZ. lia. Qed.

Lemma spans_origins_cons s l : spans_origins (s :: l) = span_origins s ++ spans_origins l.
Proof. done. Qed.

Lemma spans_origins_app l k : spans_origins (l ++ k) = spans_origins l ++ spans_origins k.
Proof. unfold spans_origins. by rewrite fmap_app, concat_app. Qed.

Lemma zlen_spans_origins dlen c l :
  validate_from dlen c l = true → zlen (spans_origins l) = dlen - c.
Proof.
  revert c. induction l as [|s l IH]; intros c; [unfold spans_origins, zlen; simpl; lia|].
  intros (? & ? & ? & ? & H)%validate_from_cons.
  rewrite spans_origins_cons, zlen_app, zlen_span_origins, (IH _ H) by lia. lia.
Qed.

(** The precondition of [partition_point] in [slice]: the spans that end at or
    before a position form a prefix. *)
Lemma spans_partitioned dlen c l a :
  validate_from dlen c l = true →
  ∃ n, Forall (λ s, end_ s ≤ a) (take n l) ∧ Forall (λ s, a < end_ s) (drop n l).
Proof.
  revert c. induction l as [|s l IH]; intros c; [by exists 0%nat|].
  intros (? & ? & ? & ? & H)%validate_from_cons.
  destruct (decide (end_ s ≤ a)) as [Hs|Hs].
  - destruct (IH _ H) as (n & Ht & Hd). exists (S n). simpl. auto.
  - exists 0%nat. simpl. split; [done|]. constructor; [lia|].
    assert (a < end_ s) as Ha by lia. clear -H Ha. revert Ha H.
    generalize (end_ s). induction l as [|s' l IH]; intros c Hc; [by constructor|].
    intros (? & ? & ? & ? & H)%validate_from_cons. constructor; [lia|].
    apply (IH (end_ s')); [lia|done].
Qed.

(** Clipping inside a span. *)
Lemma span_origins_clip s lo hi :
  start s ≤ lo → lo ≤ hi → hi ≤ end_ s →
  (packet s,.) <$> seqZ (packet_start s + (lo - start s)) (hi - lo) =
    sub (span_origins s) (lo - start s) (hi - start s).
Proof.
  intros. unfold span_origins.
  replace (end_ s - start s) with ((lo - start s) + ((hi - lo) + (end_ s - hi))) by lia.
  rewrite !seqZ_app, !fmap_app by lia.
  rewrite sub_app_r by (unfold zlen; rewrite length_fmap, length_seqZ; lia).
  replace (zlen _) with (lo - start s) by (unfold zlen; rewrite length_fmap, length_seqZ; lia).
  rewrite sub_app_l by (unfold zlen; rewrite ?length_fmap, ?length_seqZ; lia).
  unfold sub. replace (Z.to_nat (lo - start s - (lo - start s))) with 0%nat by lia.
  rewrite drop_0, take_ge; [done|]. rewrite length_fmap, length_seqZ. lia.
Qed.

Lemma clip_spans_stop a b l dlen c :
  validate_from dlen c l = true → b ≤ c → clip_spans a b l = Ok [].
Proof.
  intros Hv Hb. destruct l as [|s l]; [done|].
  apply validate_from_cons in Hv as (? & _). simpl.
  by rewrite (proj2 (Z.ltb_ge _ _)) by lia.
Qed.

(** What clipping the spans from the cursor [c] on must give: they tile the
    part of [a..b] from [m] on, with the origins of those bytes. *)
Definition clipped (a b m : Z) (os : list (PacketId * Z)) (out : list SourceSpan) : Prop :=
  validate_from (b - a) (m - a) out = true ∧ spans_origins out = os ∧
  Forall (λ s, 0 ≤ packet_start s) out.

Lemma clip_spans_from a b l dlen c :
  validate_from dlen c l = true → Forall (λ s, 0 ≤ packet_start s) l →
  0 ≤ a → a ≤ c → c ≤ b → b ≤ dlen →
  ∃ out, clip_spans a b l = Ok out ∧ clipped a b c (sub (spans_origins l) 0 (b - c)) out.
Proof.
  revert c. induction l as [|s l IH]; intros c Hv Hp Ha Hc Hcb Hb.
  - simpl in Hv. exists []. split; [done|]. split; [simpl; lia|]. split; [|done].
    replace (b - c) with 0 by lia. by rewrite sub_empty.
  - destruct (decide (b = c)) as [->|Hne].
    { exists []. rewrite (clip_spans_stop _ _ _ dlen c) by (done || lia).
      split; [done|]. split; [simpl; lia|]. by rewrite Z.sub_diag, sub_empty. }
    apply validate_from_cons in Hv as (Hs & Hlt & Hle & Hpo & Hv).
    apply Forall_cons in Hp as [Hps Hp]. cbn [clip_spans].
    rewrite (proj2 (Z.ltb_lt (start s) b)) by lia.
    rewrite (Z.max_l (start s) a) by lia.
    rewrite (proj2 (Z.ltb_lt _ _)) by lia.
    unfold checked_add. rewrite (proj2 (Z.leb_le _ _)) by lia. cbn [ok_or]. rewrite bind_Ok.
    pose proof (zlen_span_origins s ltac:(lia)) as Hz.
    pose proof (span_origins_clip s (start s) (Z.min (end_ s) b)
                  ltac:(lia) ltac:(lia) ltac:(lia)) as Hclip.
    destruct (Z.le_gt_cases (end_ s) b) as [Heb|Heb].
    + destruct (IH (end_ s)) as (out & -> & Hvo & Ho & Hpo'); [done..|lia|lia|done|].
      rewrite bind_Ok. eexists; split; [done|]. rewrite Z.min_l in * by lia. split; [|split].
      * apply validate_from_cons; simpl. split_and!; try lia. done.
      * rewrite spans_origins_cons. unfold span_origins at 1; simpl.
        replace (end_ s - a - (start s - a)) with (end_ s - start s) by lia.
        rewrite Hclip, Ho, spans_origins_cons.
        rewrite (sub_split (_ ++ _) 0 (zlen (span_origins s)) (b - c)) by lia.
        rewrite sub_app_l, sub_app_r by lia. f_equal; f_equal; lia.
      * constructor; [simpl; lia|done].
    + rewrite (clip_spans_stop _ _ _ dlen (end_ s)) by (done || lia).
      rewrite bind_Ok. eexists; split; [done|]. rewrite Z.min_r in * by lia. split; [|split].
      * apply validate_from_cons; simpl. split_and!; try lia.
      * unfold spans_origins, span_origins at 1; simpl. rewrite app_nil_r.
        replace (b - a - (start s - a)) with (b - start s) by lia.
        rewrite Hclip, sub_app_l by lia. f_equal; lia.
      * constructor; [simpl; lia|done].
Qed.

(** The same from a cursor at or before [a], after the spans that end at or
    before [a] have been skipped. *)
Lemma clip_spans_skip a b l dlen c :
  validate_from dlen c l = true → Forall (λ s, 0 ≤ packet_start s) l →
  0 ≤ c → c ≤ a → a ≤ b → b ≤ dlen →
  ∃ out, clip_spans a b (skip_while (λ s, end_ s <=? a) l) = Ok out ∧
         clipped a b a (sub (spans_origins l) (a - c) (b - c)) out.
Proof.
  revert c. induction l as [|s l IH]; intros c Hv Hp Hc Hca Hab Hb.
  { simpl in Hv. exists []. split; [done|]. split; [simpl; lia|]. split; [|done].
    replace (b - c) with (a - c) by lia. by rewrite sub_empty. }
  pose proof Hv as (Hs & Hlt & Hle & Hpo & Hv')%validate_from_cons.
  pose proof Hp as [Hps Hp']%Forall_cons. cbn [skip_while].
  pose proof (zlen_span_origins s ltac:(lia)) as Hz.
  destruct (Z.leb_spec (end_ s) a) as [Hea|Hea].
  { destruct (IH (end_ s)) as (out & -> & Hcl); [done..|lia|lia|lia|done|].
    exists out. split; [done|]. rewrite spans_origins_cons, sub_app_r by lia.
    by replace (a - c - _) with (a - end_ s) by lia; replace (b - c - _) with (b - end_ s) by lia. }
  destruct (decide (a = b)) as [<-|Hne].
  { exists []. rewrite sub_empty. split; [|split; [simpl; lia|done]]. simpl.
    destruct (Z.ltb_spec (start s) a); [|done].
    rewrite (proj2 (Z.ltb_ge _ _)) by lia.
    by apply (clip_spans_stop _ _ _ dlen (end_ s)); [|lia]. }
  destruct (clip_spans_from a b
              ({| start := a; end_ := end_ s; packet := packet s;
                  packet_start := packet_start s + (a - start s) |} :: l) dlen a)
    as (out & Hout & Hcl); try lia.
  - apply validate_from_cons; simpl. split_and!; try lia. done.
  - constructor; [simpl; lia|done].
  - exists out. split.
    + revert Hout. cbn [clip_spans start end_ packet packet_start].
      rewrite !(proj2 (Z.ltb_lt _ b)) by lia.
      rewrite (Z.max_r (start s) a), Z.max_id by lia.
      rewrite !(proj2 (Z.ltb_lt a _)) by lia.
      unfold checked_add. rewrite !(proj2 (Z.leb_le _ usize_max)) by lia.
      cbn [ok_or]. rewrite !bind_Ok. by replace (packet_start s + (a - start s) + (a - a))
        with (packet_start s + (a - start s)) by lia.
    + replace (sub (spans_origins (s :: l)) (a - c) (b - c))
        with (sub (spans_origins ({| start := a; end_ := end_ s; packet := packet s;
                  packet_start := packet_start s + (a - start s) |} :: l)) 0 (b - a)); [done|].
      rewrite !spans_origins_cons. unfold span_origins at 1; simpl.
      pose proof (span_origins_clip s a (end_ s) ltac:(lia) ltac:(lia) ltac:(lia)) as ->.
      rewrite <- Hs. set (o := span_origins s) in *. set (os := spans_origins l).
      replace (end_ s - start s) with (zlen o) by lia.
      rewrite (sub_split (o ++ os) (a - start s) (Z.min (zlen o) (b - start s))) by lia.
      rewrite (sub_app_l o os (a - start s)) by lia.
      destruct (Z.le_gt_cases (zlen o) (b - start s)).
      * rewrite Z.min_l, (sub_app_r o os), Z.sub_diag by lia.
        rewrite (sub_split (sub o _ _ ++ os) 0 (zlen o - (a - start s))) by lia.
        rewrite (sub_app_l (sub o (a - start s) (zlen o)) os) by (rewrite ?zlen_sub; lia).
        rewrite (sub_app_r (sub o (a - start s) (zlen o)) os) by (rewrite ?zlen_sub; lia).
        rewrite zlen_sub by lia. rewrite sub_sub by lia.
        f_equal; f_equal; lia.
      * rewrite Z.min_r, sub_empty, app_nil_r by lia.
        rewrite (sub_app_l (sub o _ _) os) by (rewrite ?zlen_sub; lia). rewrite sub_sub by lia.
        f_equal; lia.
Qed.

(** ** [append] lemmas *)

Lemma validate_from_snoc dlen c l s :
  validate_from dlen c (l ++ [s]) = true ↔
  validate_from (start s) c l = true ∧ start s < end_ s ∧ end_ s = dlen ∧
  packet_start s + (end_ s - start s) ≤ usize_max.
Proof.
  revert c. induction l as [|x l IH]; intros c.
  - change ([] ++ [s]) with [s]. rewrite validate_from_cons. cbn [validate_from].
    rewrite !Z.eqb_eq. naive_solver lia.
  - change ((x :: l) ++ [s]) with (x :: (l ++ [s])). rewrite !validate_from_cons, IH. split.
    + intros (?&?&?&?& Hv &?&?&?). pose proof (validate_from_le _ _ _ Hv). naive_solver.
    + intros ((?&?&?&?& Hv) &?&?&?). naive_solver lia.
Qed.

Lemma push_span_spec acc m next :
  validate_from m 0 acc = true → Forall (λ s, 0 ≤ packet_start s) acc →
  start next = m → m < end_ next → 0 ≤ packet_start next →
  packet_start next + (end_ next - m) ≤ usize_max →
  ∃ acc', push_span acc next = Ok acc' ∧ validate_from (end_ next) 0 acc' = true ∧
    Forall (λ s, 0 ≤ packet_start s) acc' ∧
    spans_origins acc' = spans_origins acc ++ span_origins next.
Proof.
  intros Hv Hp Hs He Hps Hov.
  assert (push_span acc next = Ok (acc ++ [next]) →
    ∃ acc', push_span acc next = Ok acc' ∧ validate_from (end_ next) 0 acc' = true ∧
    Forall (λ s, 0 ≤ packet_start s) acc' ∧
    spans_origins acc' = spans_origins acc ++ span_origins next) as Hplain.
  { intros ->. eexists; split; [done|]. split_and!.
    - apply validate_from_snoc. rewrite Hs. split_and!; try done; lia.
    - apply Forall_app; auto.
    - rewrite spans_origins_app. f_equal. unfold spans_origins; simpl. by rewrite app_nil_r. }
  destruct acc as [|l acc' _] using rev_ind; [by apply Hplain|].
  revert Hplain. unfold push_span. rewrite last_snoc, removelast_last.
  apply validate_from_snoc in Hv as (Hv & Hlt & Hend & Hlo).
  apply Forall_app in Hp as [Hp [Hpl _]%Forall_cons].
  case_bool_decide as Hpk; [|simpl; auto].
  rewrite (proj2 (Z.eqb_eq _ _)) by lia. cbn [andb].
  rewrite sub_ovf_ok, bind_Ok by lia.
  case_bool_decide as Hadj; [|auto]. intros _. apply checked_add_Some in Hadj as [Hadj _].
  eexists; split; [done|]. split_and!.
  - apply validate_from_snoc; simpl. split_and!; try done; lia.
  - apply Forall_app; split; [done|]. by constructor.
  - rewrite !spans_origins_app, <- app_assoc. f_equal.
    unfold spans_origins; simpl. rewrite !app_nil_r. unfold span_origins; simpl.
    rewrite <- Hpk, Hadj, <- fmap_app. f_equal.
    replace (end_ next - start l) with ((end_ l - start l) + (end_ next - start next)) by lia.
    rewrite seqZ_app by lia. do 2 f_equal; lia.
Qed.

Lemma append_spans acc base olen c l :
  validate_from (base + c) 0 acc = true → Forall (λ s, 0 ≤ packet_start s) acc →
  validate_from olen c l = true → Forall (λ s, 0 ≤ packet_start s) l →
  0 ≤ base → base + olen ≤ usize_max →
  ∃ acc', foldM (λ acc s,
             st ← add_ovf usize_max base (start s);
             en ← add_ovf usize_max base (end_ s);
             push_span acc {| start := st; end_ := en; packet := packet s;
                              packet_start := packet_start s |}) acc l = Ok acc' ∧
    validate_from (base + olen) 0 acc' = true ∧ Forall (λ s, 0 ≤ packet_start s) acc' ∧
    spans_origins acc' = spans_origins acc ++ spans_origins l.
Proof.
  revert acc c. induction l as [|s l IH]; intros acc c Hacc Hpa Hv Hp Hb Hov.
  - simpl in Hv. exists acc. apply Z.eqb_eq in Hv as ->.
    split_and!; try done. unfold spans_origins at 3. simpl. by rewrite app_nil_r.
  - apply validate_from_cons in Hv as (Hs & Hlt & Hle & Hso & Hv).
    apply Forall_cons in Hp as [Hps Hp]. cbn [foldM].
    rewrite !add_ovf_ok, !bind_Ok by lia.
    destruct (push_span_spec acc (base + c)
      {| start := base + start s; end_ := base + end_ s; packet := packet s;
         packet_start := packet_start s |}) as (acc1 & -> & Hv1 & Hp1 & Ho1);
      simpl in *; try done; try lia.
    destruct (IH acc1 (end_ s)) as (acc2 & -> & Hv2 & Hp2 & Ho2); try done.
    exists acc2. split_and!; try done.
    rewrite Ho2, Ho1, spans_origins_cons, app_assoc. do 2 f_equal.
    unfold span_origins; simpl. by replace (base + end_ s - (base + start s))
      with (end_ s - start s) by lia.
Qed.

(** ** Every byte keeps its source *)

Lemma ev_ok_layout e :
  ev_ok e → layout_valid e = true ∧ validate_from (zlen (data e)) 0 (spans e) = true.
Proof. intros [_ H]. unfold validate in H. by apply andb_true_iff in H. Qed.

Lemma ev_ok_intro d sp :
  bytes_ok d → zlen d ≤ i64_max → Forall (λ s, 0 ≤ packet_start s) sp →
  validate_from (zlen d) 0 sp = true →
  ev_ok {| data := d; spans := sp; layout_valid := true |}.
Proof. intros. split; [done|]. unfold validate. simpl. done. Qed.

Lemma evidence_default_ok : ev_ok evidence_default.
Proof. apply ev_ok_intro; [constructor|by vm_compute|constructor|done]. Qed.

Lemma zlen_origins e : ev_ok e → zlen (origins e) = zlen (data e).
Proof.
  intros [_ H]%ev_ok_layout. unfold origins. rewrite (zlen_spans_origins _ _ _ H). lia.
Qed.

Lemma from_packet_ok d p ps :
  bytes_ok d → 0 ≤ ps → ps + zlen d ≤ i64_max → ev_ok (from_packet d p ps).
Proof.
  intros Hd Hps Hl. pose proof (zlen_nonneg d). unfold from_packet.
  unfold checked_add. rewrite (proj2 (Z.leb_le _ _)) by lia. rewrite orb_true_r.
  apply ev_ok_intro; try done; try lia; destruct (Z.eqb_spec (zlen d) 0) as [H0|H0].
  - constructor.
  - by repeat constructor.
  - simpl. lia.
  - apply validate_from_cons; simpl. split_and!; lia.
Qed.

Lemma slice_ev_ok e a b :
  ev_ok e → 0 ≤ a → a ≤ b → b ≤ zlen (data e) →
  ∃ e', slice e a b = Ok e' ∧ ev_ok e' ∧ data e' = sub (data e) a b ∧
        origins e' = sub (origins e) a b.
Proof.
  intros He Ha Hab Hb. pose proof (ev_ok_layout e He) as [Hl Hv].
  destruct He as [(Hby & Hlen & Hps) _].
  unfold slice. rewrite Hl, (proj2 (Z.ltb_ge _ _)), (proj2 (Z.ltb_ge _ _)) by lia.
  cbn [negb orb].
  destruct (clip_spans_skip a b (spans e) (zlen (data e)) 0) as (out & -> & Hvo & Ho & Hpo);
    [done|done|lia..|].
  rewrite bind_Ok, slice_ok, bind_Ok by done.
  eexists; split; [done|]. rewrite Z.sub_diag in Hvo. rewrite !Z.sub_0_r in Ho.
  split; [|done]. apply ev_ok_intro; rewrite ?zlen_sub by done; try done; try lia.
  by apply bytes_ok_sub.
Qed.

Lemma append_ev_ok e o lim :
  ev_ok e → ev_ok o → zlen (data e) + zlen (data o) ≤ Z.min lim i64_max →
  ∃ e', append e o lim = Ok e' ∧ ev_ok e' ∧ data e' = data e ++ data o ∧
        origins e' = origins e ++ origins o.
Proof.
  intros He Ho Hlim. pose proof (ev_ok_layout e He) as [Hl Hv].
  pose proof (ev_ok_layout o Ho) as [Hlo Hvo].
  destruct He as [(Hby & Hlen & Hps) _], Ho as [(Hbyo & Hleno & Hpso) _].
  unfold append. rewrite Hl, Hlo. cbn [negb orb]. unfold checked_add.
  rewrite (proj2 (Z.leb_le _ _)) by lia. cbn [ok_or]. rewrite bind_Ok.
  rewrite (proj2 (Z.ltb_ge _ _)) by lia.
  destruct (append_spans (spans e) (zlen (data e)) (zlen (data o)) 0 (spans o))
    as (acc & -> & Hva & Hpa & Hoa); try done; [by rewrite Z.add_0_r|lia|].
  rewrite bind_Ok. eexists; split; [done|].
  split; [|done]. apply ev_ok_intro; rewrite ?zlen_app; try done; try lia.
  by apply bytes_ok_app.
Qed.

(** Slicing evidence in range succeeds, keeps the layout invariant, and
    returns exactly the bytes of the range with exactly their sources: byte [i]
    of the result still names the packet and packet position byte [a + i] of the
    input was captured from. *)
Theorem slice_preserves_provenance (e : EvidenceBytes) (a b : Z) :
  ev_ok e → 0 ≤ a → a ≤ b → b ≤ zlen (data e) →
  ∃ e', slice e a b = Ok e' ∧ ev_ok e' ∧ data e' = sub (data e) a b ∧
        origins e' = sub (origins e) a b.
Proof. apply slice_ev_ok. Qed.

(** appending within the limit succeeds, keeps the layout invariant, and
    concatenates bytes and sources, whether or not adjacent spans were merged. *)
Theorem append_preserves_provenance (e o : EvidenceBytes) (lim : Z) :
  ev_ok e → ev_ok o → zlen (data e) + zlen (data o) ≤ Z.min lim i64_max →
  ∃ e', append e o lim = Ok e' ∧ ev_ok e' ∧ data e' = data e ++ data o ∧
        origins e' = origins e ++ origins o.
Proof. apply append_ev_ok. Qed.

(** ** Witnesses *)

Definition sample_packet (n : Z) : PacketId :=
  {| capture := replicate 32 0; frame := n; record_offset := 24 |}.
Definition sample_evidence : EvidenceBytes := from_packet [10; 20; 30; 40] (sample_packet 1) 54.

Lemma sample_evidence_ok : ev_ok sample_evidence.
Proof. apply from_packet_ok; [repeat constructor; lia|lia|by vm_compute]. Qed.

Lemma slice_preserves_provenance_witness :
  ∃ e', slice sample_evidence 1 3 = Ok e' ∧ ev_ok e' ∧ data e' = [20; 30] ∧
        origins e' = [(sample_packet 1, 55); (sample_packet 1, 56)].
Proof. apply (slice_preserves_provenance sample_evidence 1 3); [apply sample_evidence_ok|by vm_compute..]. Defined.

Lemma append_preserves_provenance_witness :
  ∃ e', append sample_evidence sample_evidence 8 = Ok e' ∧ ev_ok e' ∧
        data e' = [10; 20; 30; 40; 10; 20; 30; 40] ∧
        origins e' = origins sample_evidence ++ origins sample_evidence.
Proof.
  apply (append_preserves_provenance sample_evidence sample_evidence 8);
    [apply sample_evidence_ok|apply sample_evidence_ok|by vm_compute].
Defined.
