(* ===== verification/Time.v ===== *)
(** * Capture clocks (src/time.rs)

    Raw timestamps keep their resolution; conversion to signed nanoseconds is
    exact or refused.  The theorems say which timestamps convert, to what, and
    that the classic PCAP second/fraction form round-trips. *)

From S2P Require Import Prelude Errors.

Inductive Resolution : Type :=
| Decimal (e : Z)
| Binary (e : Z).

#[global] Instance Resolution_eq_dec : EqDecision Resolution.
Proof. solve_decision. Defined.

(** [Resolution::from_pcapng]. *)
Definition from_pcapng (value : Z) : Resolution :=
  if Z.land value 0x80 =? 0 then Decimal value else Binary (Z.land value 0x7f).

(** [Resolution::to_pcapng]. *)
Definition to_pcapng (r : Resolution) : result Z :=
  match r with
  | Decimal x => if x <=? 127 then Ok x
                 else Err (error_new InvalidTimestamp 0 "resolution" "exponent exceeds 127")
  | Binary x => if x <=? 127 then Ok (Z.lor x 0x80)
                else Err (error_new InvalidTimestamp 0 "resolution" "exponent exceeds 127")
  end.

Record Timestamp : Type := {
  ticks : Z;
  resolution : Resolution;
  offset_seconds : Z;
}.

(** [Timestamp::legacy]. *)
Definition legacy (seconds fraction : Z) (nanos : bool) : result Timestamp :=
  let scale := if nanos then 1000000000 else 1000000 in
  if scale <=? fraction
  then Err (error_new InvalidTimestamp 0 "timestamp_fraction" "fraction exceeds one second")
  else
    p ← mul_ovf u64_max seconds scale;
    t ← add_ovf u64_max p fraction;
    Ok {| ticks := t; resolution := Decimal (if nanos then 9 else 6); offset_seconds := 0 |}.

Definition inexact : Error :=
  error_new InexactTimestamp 0 "timestamp" "not exactly representable as signed nanoseconds".

(** [10u128.checked_pow(n)] and [1u128.checked_shl(n)]. *)
Definition checked_pow10 (n : Z) : option Z :=
  if 10 ^ n <=? u128_max then Some (10 ^ n) else None.
Definition checked_shl1 (n : Z) : option Z := if n <? 128 then Some (2 ^ n) else None.

(** The division shared by the fine resolutions: exact or refused. *)
Definition exact_div (n d : Z) : result Z :=
  if negb (n mod d =? 0) then Err inexact else Ok (n / d).

(** [Timestamp::unix_nanos]. *)
Definition unix_nanos (t : Timestamp) : result Z :=
  to_pcapng (resolution t) ;;
  part ← match resolution t with
         | Decimal e =>
             if e <=? 9 then mul_ovf u128_max (ticks t) (10 ^ (9 - e))
             else if ticks t =? 0 then Ok 0
             else divisor ← ok_or (checked_pow10 (e - 9)) inexact;
                  exact_div (ticks t) divisor
         | Binary e =>
             numerator ← mul_ovf u128_max (ticks t) 1000000000;
             divisor ← ok_or (checked_shl1 e) inexact;
             exact_div numerator divisor
         end;
  if i128_max <? part then Err inexact
  else
    off ← signed_ovf i128_min i128_max (offset_seconds t * 1000000000);
    ok_or (checked_add_signed i128_min i128_max part off) inexact.

(** [Timestamp::legacy_parts]; [/] and [%] on [i128] truncate, and the value is
    not negative where they are applied. *)
Definition legacy_parts (t : Timestamp) (nanos : bool) : result (Z * Z) :=
  value ← unix_nanos t;
  if value <? 0
  then Err (error_new InvalidTimestamp 0 "timestamp"
              "classic PCAP cannot represent negative seconds")
  else if u32_max <? Z.quot value 1000000000
  then Err (error_new InvalidTimestamp 0 "timestamp" "seconds exceed classic PCAP u32")
  else
    let seconds := Z.quot value 1000000000 in
    let fraction := Z.rem value 1000000000 in
    if negb nanos && negb (fraction mod 1000 =? 0)
    then Err (error_new InexactTimestamp 0 "timestamp"
                "would discard sub-microsecond precision")
    else Ok (seconds, if nanos then fraction else fraction / 1000).

(** ** Exactness *)

(** The values of the Rust types. *)
Definition res_typed (r : Resolution) : Prop :=
  match r with Decimal e | Binary e => 0 ≤ e ≤ u8_max end.
Definition ts_typed (t : Timestamp) : Prop :=
  0 ≤ ticks t ≤ u64_max ∧ res_typed (resolution t) ∧ i64_min ≤ offset_seconds t ≤ i64_max.

(** Ticks per second, for the exponents PCAPNG can encode. *)
Definition ticks_per_second (r : Resolution) : option Z :=
  match r with
  | Decimal e => if e <=? 127 then Some (10 ^ e) else None
  | Binary e => if e <=? 127 then Some (2 ^ e) else None
  end.

Lemma exact_div_spec n d v :
  0 ≤ n → 0 < d → exact_div n d = Ok v ↔ v * d = n.
Proof.
  intros Hn Hd. unfold exact_div.
  pose proof (Z.div_mod n d ltac:(lia)) as Hdm.
  destruct (Z.eqb_spec (n mod d) 0) as [H0|H0]; simpl.
  - split; [intros [= <-]; lia|]. intros <-. f_equal. by rewrite Z.div_mul by lia.
  - split; [done|]. intros <-. by rewrite Z.mod_mul in H0 by lia.
Qed.

Lemma exact_div_safe n d : safe (exact_div n d).
Proof. unfold exact_div. by destruct (negb _). Qed.

(** The nanosecond part before the offset is added. *)
Definition nanos_part (t : Timestamp) : result Z :=
  match resolution t with
  | Decimal e =>
      if e <=? 9 then mul_ovf u128_max (ticks t) (10 ^ (9 - e))
      else if ticks t =? 0 then Ok 0
      else divisor ← ok_or (checked_pow10 (e - 9)) inexact;
           exact_div (ticks t) divisor
  | Binary e =>
      numerator ← mul_ovf u128_max (ticks t) 1000000000;
      divisor ← ok_or (checked_shl1 e) inexact;
      exact_div numerator divisor
  end.

Lemma nanos_part_decimal t e v :
  ts_typed t → resolution t = Decimal e →
  (safe (nanos_part t)) ∧ (nanos_part t = Ok v ↔ v * 10 ^ e = ticks t * 10 ^ 9).
Proof.
  intros (Ht & Hr & _) He. unfold nanos_part. rewrite He in *. simpl in Hr.
  destruct (Z.leb_spec e 9) as [H9|H9].
  - assert (10 ^ (9 - e) ≤ 10 ^ 9) by (apply Z.pow_le_mono_r; lia).
    assert (0 < 10 ^ (9 - e)) by (apply Z.pow_pos_nonneg; lia).
    assert (ticks t * 10 ^ (9 - e) ≤ u128_max).
    { change (10 ^ 9) with 1000000000 in *. nia. }
    rewrite mul_ovf_ok by done. split; [done|].
    assert (10 ^ 9 = 10 ^ (9 - e) * 10 ^ e) as ->.
    { rewrite <- Z.pow_add_r by lia. f_equal. lia. }
    assert (0 < 10 ^ e) by (apply Z.pow_pos_nonneg; lia).
    rewrite Z.mul_assoc, Z.mul_cancel_r by lia. naive_solver.
  - assert (10 ^ e = 10 ^ (e - 9) * 10 ^ 9) as ->.
    { rewrite <- Z.pow_add_r by lia. f_equal. lia. }
    assert (0 < 10 ^ (e - 9)) by (apply Z.pow_pos_nonneg; lia).
    rewrite Z.mul_assoc, Z.mul_cancel_r by done.
    destruct (Z.eqb_spec (ticks t) 0) as [H0|H0].
    { split; [done|]. rewrite H0. split; [by intros [= <-]|].
      intros [->|]%Z.mul_eq_0; [done|lia]. }
    unfold checked_pow10. destruct (Z.leb_spec (10 ^ (e - 9)) u128_max); simpl.
    + split; [apply exact_div_safe|]. apply exact_div_spec; lia.
    + split; [done|]. split; [done|]. intros Hv.
      assert (v = 0 ∨ 1 ≤ v) as [->|] by nia; [lia|]. nia.
Qed.

Lemma nanos_part_binary t e v :
  ts_typed t → resolution t = Binary e → e ≤ 127 →
  (safe (nanos_part t)) ∧ (nanos_part t = Ok v ↔ v * 2 ^ e = ticks t * 10 ^ 9).
Proof.
  intros (Ht & Hr & _) He H127. unfold nanos_part. rewrite He in *. simpl in Hr.
  assert (0 < 2 ^ e) by (apply Z.pow_pos_nonneg; lia).
  change (10 ^ 9) with 1000000000.
  rewrite mul_ovf_ok, bind_Ok by lia. unfold checked_shl1.
  rewrite (proj2 (Z.ltb_lt _ _)) by lia. cbn [ok_or]. rewrite bind_Ok.
  split; [apply exact_div_safe|]. apply exact_div_spec; lia.
Qed.

Lemma nanos_part_spec t s v :
  ts_typed t → ticks_per_second (resolution t) = Some s →
  safe (nanos_part t) ∧ (nanos_part t = Ok v ↔ v * s = ticks t * 10 ^ 9) ∧ 1 ≤ s.
Proof.
  intros Ht Hs. unfold ticks_per_second in Hs.
  pose proof Ht as (_ & Hr & _).
  destruct (resolution t) as [e|e] eqn:He; simpl in Hr;
    destruct (Z.leb_spec e 127); try done; simplify_eq.
  - destruct (nanos_part_decimal t e v Ht He) as [? ?].
    split_and!; [done..|]. assert (0 < 10 ^ e) by (apply Z.pow_pos_nonneg; lia). lia.
  - destruct (nanos_part_binary t e v Ht He) as [? ?]; [lia|].
    split_and!; [done..|]. assert (0 < 2 ^ e) by (apply Z.pow_pos_nonneg; lia). lia.
Qed.

Lemma unix_nanos_unfold t :
  unix_nanos t =
    (to_pcapng (resolution t) ;;
     part ← nanos_part t;
     if i128_max <? part then Err inexact
     else off ← signed_ovf i128_min i128_max (offset_seconds t * 1000000000);
          ok_or (checked_add_signed i128_min i128_max part off) inexact).
Proof. done. Qed.

Lemma to_pcapng_ok r b : to_pcapng r = Ok b → is_Some (ticks_per_second r).
Proof. destruct r as [e|e]; simpl; destruct (e <=? 127); naive_solver. Qed.

Lemma to_pcapng_cases r :
  (∃ b s, to_pcapng r = Ok b ∧ ticks_per_second r = Some s) ∨
  (∃ e, to_pcapng r = Err e ∧ ticks_per_second r = None).
Proof. destruct r as [e|e]; simpl; destruct (e <=? 127); naive_solver. Qed.

(** The nanosecond part of a typed timestamp is small: it fits [i128] with the
    largest offset added. *)
Lemma unix_nanos_eq t s :
  ts_typed t → ticks_per_second (resolution t) = Some s →
  unix_nanos t = (λ part, part + offset_seconds t * 1000000000) <$> nanos_part t.
Proof.
  intros Ht Hs. rewrite unix_nanos_unfold.
  destruct (to_pcapng_cases (resolution t)) as [(b & s' & -> & _)|(e & _ & Hn)]; [|congruence].
  rewrite bind_Ok.
  destruct (nanos_part t) as [v|e| |] eqn:Hp; [|done..].
  destruct (nanos_part_spec t s v Ht Hs) as (_ & Hv & Hs1).
  pose proof Ht as (Htk & _ & Ho).
  assert (0 ≤ v ≤ u64_max * 1000000000) as Hb.
  { pose proof (proj1 Hv Hp) as Heq. change (10 ^ 9) with 1000000000 in Heq. nia. }
  rewrite bind_Ok, (proj2 (Z.ltb_ge _ _)) by lia.
  rewrite signed_ovf_ok, bind_Ok by lia.
  unfold checked_add_signed. rewrite !(proj2 (Z.leb_le _ _)) by lia. done.
Qed.

Lemma unix_nanos_safe t : ts_typed t → safe (unix_nanos t).
Proof.
  intros Ht. destruct (ticks_per_second (resolution t)) as [s|] eqn:Hs.
  - destruct (nanos_part_spec t s 0 Ht Hs) as (Hsafe & _).
    rewrite (unix_nanos_eq t s Ht Hs). by destruct (nanos_part t).
  - rewrite unix_nanos_unfold.
    by destruct (to_pcapng_cases (resolution t)) as [(b & s' & _ & Hn)|(e & -> & _)]; [congruence|].
Qed.

(** The conversion to Unix nanoseconds is exact and complete.  For a
    resolution PCAPNG can encode, with [s] ticks per second, it returns [v] if
    and only if [v], less the clock offset, is exactly [ticks / s] seconds in
    nanoseconds; it always returns, so a timestamp with no such value is
    refused.  A resolution outside the encoding is refused. *)
Theorem unix_nanos_exact (t : Timestamp) (v : Z) :
  ts_typed t →
  safe (unix_nanos t) ∧
  (unix_nanos t = Ok v ↔
     ∃ s, ticks_per_second (resolution t) = Some s ∧
          (v - offset_seconds t * 10 ^ 9) * s = ticks t * 10 ^ 9).
Proof.
  intros Ht. change (10 ^ 9) with 1000000000.
  destruct (ticks_per_second (resolution t)) as [s|] eqn:Hs.
  - destruct (nanos_part_spec t s (v - offset_seconds t * 1000000000) Ht Hs) as (Hsafe & Hiff & _).
    rewrite (unix_nanos_eq t s Ht Hs). split; [by destruct (nanos_part t)|].
    change (10 ^ 9) with 1000000000 in Hiff. split.
    + destruct (nanos_part t) as [p|e| |]; try done. intros [= <-]. exists s. split; [done|].
      apply Hiff. f_equal. lia.
    + intros (s' & [= <-] & Heq). apply Hiff in Heq. rewrite Heq. simpl. f_equal. lia.
  - rewrite unix_nanos_unfold.
    destruct (to_pcapng_cases (resolution t)) as [(b & s' & _ & Hn)|(e & -> & _)]; [congruence|].
    split; [done|]. split; [done|]. naive_solver.
Qed.

Definition sample_timestamp : Timestamp :=
  {| ticks := 1500000; resolution := Decimal 6; offset_seconds := -1 |}.

Lemma unix_nanos_exact_witness :
  safe (unix_nanos sample_timestamp) ∧ unix_nanos sample_timestamp = Ok 500000000.
Proof.
  assert (ts_typed sample_timestamp) as Ht by (repeat split; by vm_compute).
  destruct (unix_nanos_exact sample_timestamp 500000000 Ht) as [Hs Hv].
  split; [exact Hs|]. apply Hv. exists 1000000. split; by vm_compute.
Defined.

(** The classic PCAP encoding of a timestamp round-trips: the timestamp read
    from a record's seconds and fraction converts back to the same two fields. *)
Theorem legacy_roundtrip (seconds fraction : Z) (nanos : bool) (t : Timestamp) :
  0 ≤ seconds ≤ u32_max → 0 ≤ fraction ≤ u32_max →
  legacy seconds fraction nanos = Ok t →
  legacy_parts t nanos = Ok (seconds, fraction).
Proof.
  intros Hs Hf. unfold legacy. set (scale := if nanos then 1000000000 else 1000000).
  assert (scale ≤ 1000000000) by (unfold scale; destruct nanos; lia).
  assert (1 ≤ scale) by (unfold scale; destruct nanos; lia).
  destruct (Z.leb_spec scale fraction) as [|Hlt]; [done|].
  rewrite mul_ovf_ok, bind_Ok by nia. rewrite add_ovf_ok, bind_Ok by nia. intros [= <-].
  set (t := {| ticks := seconds * scale + fraction |}).
  assert (unix_nanos t = Ok (seconds * 1000000000 + fraction * (if nanos then 1 else 1000))) as Hu.
  { assert (ts_typed t) as Ht.
    { unfold t, ts_typed, scale in *; simpl. destruct nanos; simpl; lia. }
    apply (unix_nanos_exact t _ Ht). unfold t, scale in *; simpl.
    change (10 ^ 9) with 1000000000. destruct nanos; simpl.
    - exists 1000000000. split; [done|lia].
    - exists 1000000. split; [done|lia]. }
  unfold legacy_parts. rewrite Hu, bind_Ok.
  assert (0 ≤ fraction * (if nanos then 1 else 1000) < 1000000000) as Hfr
    by (unfold scale in Hlt; destruct nanos; lia).
  rewrite (proj2 (Z.ltb_ge _ _)) by lia.
  rewrite Z.quot_div_nonneg, Z.rem_mod_nonneg by lia.
  rewrite Z.div_add_l, (Z.div_small (fraction * _)), Z.add_0_r by lia.
  rewrite (Z.add_comm (seconds * _)), Z.mod_add, (Z.mod_small (fraction * _)) by lia.
  rewrite (proj2 (Z.ltb_ge _ _)) by lia.
  destruct nanos; simpl; [by rewrite Z.mul_1_r|].
  rewrite Z.mod_mul, Z.div_mul by lia. done.
Qed.

Lemma legacy_roundtrip_witness :
  legacy_parts {| ticks := 7000042; resolution := Decimal 6; offset_seconds := 0 |} false = Ok (7, 42).
Proof. apply (legacy_roundtrip 7 42 false); [lia|lia|by vm_compute]. Defined.

(** [to_pcapng] and [from_pcapng] are inverse on the encodable resolutions. *)
Lemma resolution_roundtrip_byte : Forall (λ b, to_pcapng (from_pcapng b) = Ok b) (seqZ 0 256).
Proof. vm_compute. repeat constructor. Qed.

Lemma to_from_pcapng b : is_byte b → to_pcapng (from_pcapng b) = Ok b.
Proof.
  intros Hb. pose proof resolution_roundtrip_byte as H. rewrite Forall_forall in H.
  apply H, elem_of_seqZ. unfold is_byte in Hb. lia.
Qed.

Lemma from_pcapng_typed b : is_byte b → res_typed (from_pcapng b).
Proof.
  intros Hb. unfold is_byte, from_pcapng in *. destruct (_ =? 0); simpl; [lia|].
  pose proof (land_bound b 127). lia.
Qed.
