(* ===== verification/Capture.v ===== *)
(** * Capture containers (src/capture.rs)

    The decoder for classic PCAP and PCAPNG: one state machine, fed a prefix of
    the unread input at an absolute file offset, that says how many bytes the
    next record needs ([required]) and decodes it ([decode]); and the slice
    iterator [CaptureIter] on top of it. *)

From S2P Require Import Prelude Errors Time.

Definition SHB : Z := 0x0a0d0d0a.

Inductive Endian : Type := Little | Big.

(** The integer a byte slice holds in a byte order. *)
Definition uint (e : Endian) (l : list Z) : Z :=
  match e with Little => from_le_bytes l | Big => from_be_bytes l end.
Definition put (e : Endian) (n : nat) (v : Z) : list Z :=
  match e with Little => to_le_bytes n v | Big => to_be_bytes n v end.

(** [Endian::u16], [Endian::u32], [Endian::u64]. *)
Definition u16 (e : Endian) (b : list Z) : result Z :=
  b0 ← idx b 0; b1 ← idx b 1; Ok (uint e [b0; b1]).
Definition u32 (e : Endian) (b : list Z) : result Z :=
  b0 ← idx b 0; b1 ← idx b 1; b2 ← idx b 2; b3 ← idx b 3; Ok (uint e [b0; b1; b2; b3]).
Definition u64 (e : Endian) (b : list Z) : result Z :=
  b0 ← idx b 0; b1 ← idx b 1; b2 ← idx b 2; b3 ← idx b 3;
  b4 ← idx b 4; b5 ← idx b 5; b6 ← idx b 6; b7 ← idx b 7;
  Ok (uint e [b0; b1; b2; b3; b4; b5; b6; b7]).

(** [Endian::put_u16], [Endian::put_u32], [Endian::put_u64]. *)
Definition put_u16 (e : Endian) (v : Z) (out : list Z) : list Z := out ++ put e 2 v.
Definition put_u32 (e : Endian) (v : Z) (out : list Z) : list Z := out ++ put e 4 v.
Definition put_u64 (e : Endian) (v : Z) (out : list Z) : list Z := out ++ put e 8 v.

Inductive Format : Type := Pcap | PcapNg.
Inductive ParseMode : Type := Strict | Evidence.
#[global] Instance Endian_eq_dec : EqDecision Endian.
Proof. solve_decision. Defined.
#[global] Instance Format_eq_dec : EqDecision Format.
Proof. solve_decision. Defined.
#[global] Instance ParseMode_eq_dec : EqDecision ParseMode.
Proof. solve_decision. Defined.

Record Warning : Type := { w_code : string; w_offset : Z }.
Record OptionMeta : Type := { o_code : Z; value_offset : Z; o_length : Z }.
Record Interface : Type := {
  if_section : Z;
  if_id : Z;
  if_link_type : Z;
  if_snaplen : Z;
  if_resolution : Resolution;
  if_offset_seconds : Z;
}.
Record LegacyHeader : Type := {
  lh_endian : Endian;
  lh_nanos : bool;
  lh_snaplen : Z;
  lh_link_word : Z;
}.
Record PacketMeta : Type := {
  frame : Z;
  section : Z;
  interface : Z;
  link_type : Z;
  captured_len : Z;
  original_len : Z;
  data_offset : Z;
  timestamp : option Timestamp;
}.
Inductive RecordKind : Type :=
| KLegacyHeader (h : LegacyHeader)
| KSection (id : Z) (declared_length : option Z)
| KInterface (i : Interface)
| KPacket (p : PacketMeta)
| KNames (records : Z)
| KStatistics (interface : Z) (timestamp : Timestamp)
| KSecrets (secrets_type secrets_len : Z)
| KCustom (pen : Z) (copy_on_edit : bool)
| KUnknown (block_type : Z).

Record CapRecord : Type := {
  r_offset : Z;
  r_endian : Endian;
  raw : list Z;
  kind : RecordKind;
  options : list OptionMeta;
  warnings : list Warning;
}.

(** [Record::option_value]. *)
Definition option_value (r : CapRecord) (o : OptionMeta) : option (list Z) :=
  match checked_add usize_max (value_offset o) (o_length o) with
  | Some e => get_range (raw r) (value_offset o) e
  | None => None
  end.

(** [Record::packet]. *)
Definition record_packet (r : CapRecord) : result (option (PacketMeta * list Z)) :=
  match kind r with
  | KPacket p =>
      e ← add_ovf usize_max (data_offset p) (captured_len p);
      d ← slice (raw r) (data_offset p) e;
      Ok (Some (p, d))
  | _ => Ok None
  end.

Inductive Decode : Type :=
| NeedMore (n : Z)
| DRecord (r : CapRecord).

Record Decoder : Type := {
  limits : Limits;
  mode : ParseMode;
  format : option Format;
  endian : Endian;
  legacy_header : option LegacyHeader;
  interfaces : list Interface;
  d_section : Z;
  sections_seen : Z;
  section_end : option Z;
  next_frame : Z;
  records : Z;
}.

(** [Decoder::new]. *)
Definition decoder_new (l : Limits) (m : ParseMode) : result Decoder :=
  validate l ;;
  Ok {| limits := l; mode := m; format := None; endian := Little; legacy_header := None;
        interfaces := []; d_section := 0; sections_seen := 0; section_end := None;
        next_frame := 1; records := 0 |}.

(** An error at a file offset past [base]: the [u64] addition is checked. *)
Definition error_at {A} (c : ErrorCode) (base delta : Z) (fld d : string) : result A :=
  o ← add_ovf u64_max base delta; Err (error_new c o fld d).

(** The magic numbers. *)
Definition magic_shb : list Z := [0x0a; 0x0d; 0x0d; 0x0a].
Definition magic_le_micro : list Z := [0xd4; 0xc3; 0xb2; 0xa1].
Definition magic_be_micro : list Z := [0xa1; 0xb2; 0xc3; 0xd4].
Definition magic_le_nano : list Z := [0x4d; 0x3c; 0xb2; 0xa1].
Definition magic_be_nano : list Z := [0xa1; 0xb2; 0x3c; 0x4d].

(** The classic magic numbers with their byte order and resolution. *)
Definition legacy_magic (m : list Z) : option (Endian * bool) :=
  if bytes_eqb m magic_le_micro then Some (Little, false)
  else if bytes_eqb m magic_be_micro then Some (Big, false)
  else if bytes_eqb m magic_le_nano then Some (Little, true)
  else if bytes_eqb m magic_be_nano then Some (Big, true)
  else None.

(** [Decoder::ng_endian]. *)
Definition ng_endian (input : list Z) (off : Z) : result Endian :=
  m ← slice input 8 12;
  if bytes_eqb m [0x4d; 0x3c; 0x2b; 0x1a] then Ok Little
  else if bytes_eqb m [0x1a; 0x2b; 0x3c; 0x4d] then Ok Big
  else error_at BadMagic off 8 "byte_order_magic" "invalid PCAPNG byte-order magic".

(** The PCAPNG part of [Decoder::required]. *)
Definition required_block (d : Decoder) (input : list Z) (off : Z) : result Z :=
  if zlen input <? 8 then Ok 8
  else
    m ← slice input 0 4;
    let is_section := bytes_eqb m magic_shb in
    if is_section && (zlen input <? 12) then Ok 12
    else
      e ← (if is_section then ng_endian input off else Ok (endian d));
      b ← slice input 4 8;
      size ← u32 e b;
      if (size <? 12) || negb (size mod 4 =? 0) || (is_section && (size <? 28))
      then error_at InvalidLength off 4 "block_length"
             "block length must be aligned and meet its minimum"
      else if max_block_bytes (limits d) <? size then Err (limit "block_bytes")
      else Ok size.

(** [Decoder::required]. *)
Definition required (d : Decoder) (input : list Z) (off : Z) : result Z :=
  ok_or (checked_add u64_max off (zlen input)) (limit "file_offset") ;;
  match format d with
  | None =>
      if zlen input <? 4 then Ok 4
      else
        m ← slice input 0 4;
        if negb (bytes_eqb m magic_shb)
        then match legacy_magic m with
             | Some _ => Ok 24
             | None => Err (error_new BadMagic off "magic" "not supported PCAP/PCAPNG")
             end
        else required_block d input off
  | Some Pcap =>
      if zlen input <? 16 then Ok 16
      else
        b ← slice input 8 12;
        size ← u32 (endian d) b;
        if max_packet_bytes (limits d) <? size then Err (limit "packet_bytes")
        else ok_or (checked_add usize_max size 16) (limit "packet_bytes")
  | Some PcapNg => required_block d input off
  end.

(** [Decoder::minimum]. *)
Definition minimum (actual expected off : Z) (fld : string) : result unit :=
  if actual <? expected
  then Err (error_new InvalidLength off fld "block shorter than fixed fields")
  else Ok ().

(** [Decoder::interface]. *)
Definition interface_at (d : Decoder) (id off : Z) : result Interface :=
  match get (interfaces d) id with
  | Some i => Ok i
  | None => error_at MissingInterface off 8 "interface_id"
              "interface has not been declared in this section"
  end.

(** [validate_lengths]: the warnings with the new one appended. *)
Definition validate_lengths (cap orig snap : Z) (m : ParseMode) (off : Z)
    (ws : list Warning) : result (list Warning) :=
  if (orig <? cap) || (negb (snap =? 0) && (snap <? cap)) then
    if bool_decide (m = Strict)
    then Err (error_new InvalidLength off "packet_lengths"
                "captured length exceeds original length or snaplen")
    else Ok (ws ++ [{| w_code := "contradictory_packet_lengths"; w_offset := off |}])
  else Ok ws.

(** [align4]: [(n + 3) & !3]. *)
Definition align4 (n : Z) : result Z :=
  match checked_add usize_max n 3 with
  | Some v => Ok (Z.ldiff v 3)
  | None => Err (limit "alignment")
  end.

(** The body of the loop of [parse_options]; the state is [(p, out)]. *)
Definition option_step (raw : list Z) (stop : Z) (e : Endian) (off : Z) (l : Limits)
    (st : Z * list OptionMeta) : result (step (Z * list OptionMeta) (list OptionMeta)) :=
  let '(p, out) := st in
  if negb (p <? stop) then Ok (Break out)
  else if stop - p <? 4
  then error_at InvalidOption off p "option" "partial option header"
  else
    cb ← slice raw p (p + 2);
    code ← u16 e cb;
    nb ← slice raw (p + 2) (p + 4);
    n ← u16 e nb;
    let p := p + 4 in
    if code =? 0 then
      if negb (n =? 0) then
        o ← add_ovf u64_max off p;
        o ← sub_ovf o 2;
        Err (error_new InvalidOption o "option_end" "terminator length must be zero")
      else Ok (Break out)
    else if max_options l <=? zlen out then Err (limit "options")
    else
      a ← align4 n;
      next ← ok_or (checked_add usize_max p a) (limit "option_length");
      if stop <? next
      then error_at InvalidOption off p "option_length" "option value/padding exceeds block"
      else if (existsb (Z.eqb code) [2988; 2989; 19372; 19373]) && (n <? 4)
      then error_at InvalidOption off p "custom_option" "custom option needs an enterprise number"
      else Ok (Continue (next, out ++ [{| o_code := code; value_offset := p; o_length := n |}])).

(** [parse_options]: every round consumes at least four bytes of the block. *)
Definition parse_options (raw : list Z) (start stop : Z) (e : Endian) (off : Z) (l : Limits)
  : result (list OptionMeta) :=
  loop (S (length raw)) (option_step raw stop e off l) (start, []).

(** ** [Decoder::decode]

    Each branch of the method, as the decoder it leaves (the count of records is
    incremented at the end) with the byte order, kind, options and warnings of
    the record.  No branch fails after its first assignment to the decoder, so
    an error leaves the state as it was. *)
Definition branch : Type := Decoder * Endian * RecordKind * list OptionMeta * list Warning.

(** The classic global header (lines 328-369). *)
Definition decode_legacy_header (d : Decoder) (raw : list Z) (off : Z) : result branch :=
  m ← slice raw 0 4;
  en ← ok_or (legacy_magic m) (error_new BadMagic off "magic" "unsupported magic");
  let '(e, nanos) := en in
  b ← slice raw 4 6; major ← u16 e b;
  b ← slice raw 6 8; minor ← u16 e b;
  if negb (major =? 2) || negb (minor =? 4)
  then error_at UnsupportedVersion off 4 "version" "only PCAP 2.4 is supported"
  else
    b ← slice raw 16 20; snaplen ← u32 e b;
    b ← slice raw 20 24; link_word ← u32 e b;
    let header := {| lh_endian := e; lh_nanos := nanos; lh_snaplen := snaplen;
                     lh_link_word := link_word |} in
    if snaplen =? 0
    then error_at InvalidLength off 16 "snaplen" "classic PCAP snaplen must be nonzero"
    else Ok ({| limits := limits d; mode := mode d; format := Some Pcap; endian := e;
                legacy_header := Some header; interfaces := interfaces d;
                d_section := d_section d; sections_seen := sections_seen d;
                section_end := section_end d; next_frame := next_frame d;
                records := records d |}, e, KLegacyHeader header, [], []).

(** [self.next_frame += 1]. *)
Definition bump_frame (d : Decoder) : result Decoder :=
  n ← add_ovf u64_max (next_frame d) 1;
  Ok {| limits := limits d; mode := mode d; format := format d; endian := endian d;
        legacy_header := legacy_header d; interfaces := interfaces d;
        d_section := d_section d; sections_seen := sections_seen d;
        section_end := section_end d; next_frame := n; records := records d |}.

(** A classic packet record (lines 370-411). *)
Definition decode_legacy_packet (d : Decoder) (raw : list Z) (off : Z) : result branch :=
  header ← ok_or (legacy_header d) (error_new Invariant off "state" "missing global header");
  b ← slice raw 8 12; cap ← u32 (endian d) b;
  b ← slice raw 12 16; orig ← u32 (endian d) b;
  ws ← validate_lengths cap orig (lh_snaplen header) (mode d) off [];
  b ← slice raw 0 4; sec ← u32 (endian d) b;
  b ← slice raw 4 8; frac ← u32 (endian d) b;
  time ← catch (legacy sec frac (lh_nanos header));
  tw ← match time with
       | inl t => Ok (Some t, ws)
       | inr err =>
           o ← add_ovf u64_max off 4;
           if bool_decide (mode d = Strict)
           then Err (error_new (code err) o (field err) (detail err))
           else Ok (None, ws ++ [{| w_code := "invalid_timestamp_fraction"; w_offset := o |}])
       end;
  let '(t, ws) := tw in
  let k := KPacket {| frame := next_frame d; section := 0; interface := 0;
                      link_type := Z.land (lh_link_word header) 0xffff;
                      captured_len := cap; original_len := orig; data_offset := 16;
                      timestamp := t |} in
  d ← bump_frame d;
  Ok (d, endian d, k, [], ws).

(** A section header block (lines 444-500). *)
Definition decode_section (d : Decoder) (raw : list Z) (e : Endian) (need off : Z)
  : result branch :=
  b ← slice raw 12 14; major ← u16 e b;
  b ← slice raw 14 16; minor ← u16 e b;
  if negb (major =? 1) || negb (minor =? 0)
  then error_at UnsupportedVersion off 12 "version" "only PCAPNG section 1.0 is decoded"
  else
    b ← slice raw 16 24; dv ← u64 e b;
    let declared := as_signed 64 dv in
    if declared <? -1
    then error_at InvalidLength off 16 "section_length" "negative section length other than -1"
    else if (0 <=? declared) && negb (declared mod 4 =? 0)
    then error_at InvalidLength off 16 "section_length"
           "finite section length must be 32-bit aligned"
    else
      opts ← parse_options raw 24 (need - 4) e off (limits d);
      send ← (if declared =? -1 then Ok None
              else x ← ok_or (v ← checked_add u64_max off need; checked_add u64_max v declared)
                         (limit "section_length");
                   Ok (Some x));
      let id := sections_seen d in
      seen ← ok_or (checked_add u32_max (sections_seen d) 1) (limit "sections");
      Ok ({| limits := limits d; mode := mode d; format := Some PcapNg; endian := e;
             legacy_header := legacy_header d; interfaces := [];
             d_section := id; sections_seen := seen; section_end := send;
             next_frame := next_frame d; records := records d |},
          e, KSection id (if declared <? 0 then None else Some declared), opts, []).

(** The state of the option scan of an interface block. *)
Record ClockOptions : Type := {
  co_resolution : Resolution;
  co_offset : Z;
  seen_resolution : bool;
  seen_offset : bool;
}.

Definition clock_option (raw : list Z) (e : Endian) (off : Z) (st : ClockOptions)
    (opt : OptionMeta) : result ClockOptions :=
  stop ← add_ovf usize_max (value_offset opt) (o_length opt);
  value ← slice raw (value_offset opt) stop;
  if o_code opt =? 9 then
    if negb (zlen value =? 1) || seen_resolution st
    then error_at InvalidOption off (value_offset opt) "if_tsresol"
           "expected one nonduplicated octet"
    else
      v ← idx value 0;
      Ok {| co_resolution := from_pcapng v; co_offset := co_offset st;
            seen_resolution := true; seen_offset := seen_offset st |}
  else if o_code opt =? 14 then
    if negb (zlen value =? 8) || seen_offset st
    then error_at InvalidOption off (value_offset opt) "if_tsoffset"
           "expected one nonduplicated signed 64-bit value"
    else
      v ← u64 e value;
      Ok {| co_resolution := co_resolution st; co_offset := as_signed 64 v;
            seen_resolution := seen_resolution st; seen_offset := true |}
  else Ok st.

(** An interface description block (lines 501-547). *)
Definition decode_interface (d : Decoder) (raw : list Z) (e : Endian) (need off : Z)
  : result branch :=
  minimum need 20 off "interface" ;;
  if max_interfaces (limits d) <=? zlen (interfaces d) then Err (limit "interfaces")
  else
    opts ← parse_options raw 16 (need - 4) e off (limits d);
    co ← foldM (clock_option raw e off)
           {| co_resolution := Decimal 6; co_offset := 0; seen_resolution := false;
              seen_offset := false |} opts;
    b ← slice raw 8 10; lt ← u16 e b;
    b ← slice raw 12 16; snap ← u32 e b;
    let i := {| if_section := d_section d; if_id := zlen (interfaces d) mod 2 ^ 32;
                if_link_type := lt; if_snaplen := snap;
                if_resolution := co_resolution co; if_offset_seconds := co_offset co |} in
    Ok ({| limits := limits d; mode := mode d; format := format d; endian := endian d;
           legacy_header := legacy_header d; interfaces := interfaces d ++ [i];
           d_section := d_section d; sections_seen := sections_seen d;
           section_end := section_end d; next_frame := next_frame d; records := records d |},
        e, KInterface i, opts, []).

(** The 64-bit clock of packet and statistics blocks, high word first. *)
Definition block_ticks (raw : list Z) (e : Endian) : result Z :=
  b ← slice raw 12 16; hi ← u32 e b;
  b ← slice raw 16 20; lo ← u32 e b;
  Ok (Z.lor (Z.shiftl hi 32) lo).

(** An enhanced packet block, or an obsolete packet block (lines 548-598). *)
Definition decode_packet_block (d : Decoder) (raw : list Z) (e : Endian) (block need off : Z)
  : result branch :=
  minimum need 32 off "packet" ;;
  id ← (if block =? 2 then b ← slice raw 8 10; u16 e b else b ← slice raw 8 12; u32 e b);
  i ← interface_at d id off;
  b ← slice raw 20 24; cap ← u32 e b;
  b ← slice raw 24 28; orig ← u32 e b;
  if max_packet_bytes (limits d) <? cap then Err (limit "packet_bytes")
  else
    a ← align4 cap;
    after ← ok_or (checked_add usize_max 28 a) (limit "packet_bytes");
    if need - 4 <? after
    then error_at InvalidLength off 20 "captured_length" "packet extends beyond block"
    else
      ws ← validate_lengths cap orig (if_snaplen i) (mode d) off [];
      opts ← parse_options raw after (need - 4) e off (limits d);
      t ← block_ticks raw e;
      let k := KPacket {| frame := next_frame d; section := d_section d; interface := id;
                          link_type := if_link_type i; captured_len := cap;
                          original_len := orig; data_offset := 28;
                          timestamp := Some {| ticks := t; resolution := if_resolution i;
                                               offset_seconds := if_offset_seconds i |} |} in
      d ← bump_frame d;
      Ok (d, e, k, opts, ws).

(** A simple packet block (lines 599-630). *)
Definition decode_simple_packet (d : Decoder) (raw : list Z) (e : Endian) (need off : Z)
  : result branch :=
  minimum need 16 off "simple_packet" ;;
  i ← interface_at d 0 off;
  b ← slice raw 8 12; orig ← u32 e b;
  let cap := if if_snaplen i =? 0 then orig else Z.min orig (if_snaplen i) in
  if max_packet_bytes (limits d) <? cap then Err (limit "packet_bytes")
  else
    a ← align4 cap;
    if bool_decide (checked_add usize_max 12 a ≠ Some (need - 4))
    then error_at InvalidLength off 8 "simple_packet"
           "SPB size disagrees with original length and first interface snaplen"
    else
      let k := KPacket {| frame := next_frame d; section := d_section d; interface := 0;
                          link_type := if_link_type i; captured_len := cap;
                          original_len := orig; data_offset := 12; timestamp := None |} in
      d ← bump_frame d;
      Ok (d, e, k, [], []).

(** One round of the name-record loop; the state is [(p, records)]. *)
Definition name_step (raw : list Z) (body_end : Z) (e : Endian) (off : Z) (l : Limits)
    (st : Z * Z) : result (step (Z * Z) (Z * Z)) :=
  let '(p, recs) := st in
  if body_end <? p + 4
  then error_at InvalidLength off p "name_record" "missing record terminator"
  else
    cb ← slice raw p (p + 2); code ← u16 e cb;
    nb ← slice raw (p + 2) (p + 4); n ← u16 e nb;
    let p := p + 4 in
    if code =? 0 then
      if negb (n =? 0) then
        o ← add_ovf u64_max off p;
        o ← sub_ovf o 2;
        Err (error_new InvalidLength o "name_record" "terminator has nonzero length")
      else Ok (Break (p, recs))
    else if max_options l <=? recs then Err (limit "name_records")
    else
      a ← align4 n;
      stop ← ok_or (checked_add usize_max p a) (limit "name_record");
      if body_end <? stop
      then error_at InvalidLength off p "name_record" "record exceeds block"
      else
        let addr := if code =? 1 then 4 else if code =? 2 then 16 else 0 in
        bad ← (if negb (addr =? 0)
               then if n <=? addr then Ok true
                    else last ← idx raw (p + n - 1); Ok (negb (last =? 0))
               else Ok false);
        if (bad : bool)
        then error_at InvalidLength off p "name_record"
               "address and NUL-terminated names required"
        else recs' ← add_ovf usize_max recs 1; Ok (Continue (stop, recs')).

(** A name resolution block (lines 631-691). *)
Definition decode_names (d : Decoder) (raw : list Z) (e : Endian) (need off : Z)
  : result branch :=
  pr ← loop (S (length raw)) (name_step raw (need - 4) e off (limits d)) (8, 0);
  opts ← parse_options raw (fst pr) (need - 4) e off (limits d);
  Ok (d, e, KNames (snd pr), opts, []).

(** An interface statistics block (lines 692-707). *)
Definition decode_statistics (d : Decoder) (raw : list Z) (e : Endian) (need off : Z)
  : result branch :=
  minimum need 24 off "statistics" ;;
  b ← slice raw 8 12; id ← u32 e b;
  i ← interface_at d id off;
  t ← block_ticks raw e;
  opts ← parse_options raw 20 (need - 4) e off (limits d);
  Ok (d, e, KStatistics id {| ticks := t; resolution := if_resolution i;
                              offset_seconds := if_offset_seconds i |}, opts, []).

(** A decryption secrets block (lines 708-727). *)
Definition decode_secrets (d : Decoder) (raw : list Z) (e : Endian) (need off : Z)
  : result branch :=
  minimum need 20 off "secrets" ;;
  b ← slice raw 12 16; n ← u32 e b;
  a ← align4 n;
  stop ← ok_or (checked_add usize_max 16 a) (limit "secrets");
  if need - 4 <? stop
  then error_at InvalidLength off 12 "secrets_length" "secrets extend beyond block"
  else
    opts ← parse_options raw stop (need - 4) e off (limits d);
    b ← slice raw 8 12; ty ← u32 e b;
    Ok (d, e, KSecrets ty n, opts, []).

(** A custom block (lines 728-734). *)
Definition decode_custom (d : Decoder) (raw : list Z) (e : Endian) (block need off : Z)
  : result branch :=
  minimum need 16 off "custom" ;;
  b ← slice raw 8 12; pen ← u32 e b;
  Ok (d, e, KCustom pen (block =? 0x00000bad), [], []).

(** The declared section boundary (lines 428-440). *)
Definition check_section_end (d : Decoder) (is_section : bool) (need off : Z) : result unit :=
  match section_end d with
  | Some stop =>
      record_end ← ok_or (checked_add u64_max off need) (limit "file_offset");
      if (is_section && negb (off =? stop)) || (negb is_section && (stop <? record_end))
      then Err (error_new LengthMismatch off "section_length"
                  "record violates declared section boundary")
      else Ok ()
  | None => Ok ()
  end.

(** A PCAPNG block (lines 412-739). *)
Definition decode_block (d : Decoder) (raw : list Z) (need off : Z) : result branch :=
  m ← slice raw 0 4;
  let is_section := bytes_eqb m magic_shb in
  e ← (if is_section then ng_endian raw off else Ok (endian d));
  b ← slice raw (need - 4) need; trailer ← u32 e b;
  if negb (trailer =? need) then
    o ← add_ovf u64_max off need;
    o ← sub_ovf o 4;
    Err (error_new LengthMismatch o "block_trailer" "leading and trailing lengths differ")
  else
    check_section_end d is_section need off ;;
    block ← u32 e m;
    if block =? SHB then decode_section d raw e need off
    else if block =? 1 then decode_interface d raw e need off
    else if (block =? 6) || (block =? 2) then decode_packet_block d raw e block need off
    else if block =? 3 then decode_simple_packet d raw e need off
    else if block =? 4 then decode_names d raw e need off
    else if block =? 5 then decode_statistics d raw e need off
    else if block =? 10 then decode_secrets d raw e need off
    else if (block =? 0x00000bad) || (block =? 0x40000bad)
    then decode_custom d raw e block need off
    else Ok (d, e, KUnknown block, [], []).

(** The branch [decode] takes on a complete record. *)
Definition decode_branch (d : Decoder) (raw : list Z) (need off : Z) : result branch :=
  match format d with
  | None =>
      m ← slice raw 0 4;
      if negb (bytes_eqb m magic_shb) then decode_legacy_header d raw off
      else decode_block d raw need off
  | Some Pcap => decode_legacy_packet d raw off
  | Some PcapNg => decode_block d raw need off
  end.

(** [self.records += 1]. *)
Definition bump_records (d : Decoder) : result Decoder :=
  n ← add_ovf usize_max (records d) 1;
  Ok {| limits := limits d; mode := mode d; format := format d; endian := endian d;
        legacy_header := legacy_header d; interfaces := interfaces d;
        d_section := d_section d; sections_seen := sections_seen d;
        section_end := section_end d; next_frame := next_frame d; records := n |}.

(** [Decoder::decode]. *)
Definition decode (d : Decoder) (input : list Z) (off : Z) : result (Decoder * Decode) :=
  if max_records (limits d) <=? records d then Err (limit "records")
  else
    need ← required d input off;
    if zlen input <? need then Ok (d, NeedMore need)
    else
      rw ← slice input 0 need;
      br ← decode_branch d rw need off;
      let '(d', e, k, opts, ws) := br in
      d' ← bump_records d';
      Ok (d', DRecord {| r_offset := off; r_endian := e; raw := rw; kind := k;
                         options := opts; warnings := ws |}).

(** [Decoder::finish]. *)
Definition decoder_finish (d : Decoder) (off : Z) : result unit :=
  match format d with
  | None => Err (error_new Truncated off "capture_header" "empty input is not a capture")
  | Some _ =>
      match section_end d with
      | Some stop =>
          if negb (stop =? off)
          then Err (error_new Truncated off "section_length"
                      "EOF disagrees with declared section length")
          else Ok ()
      | None => Ok ()
      end
  end.

(** ** [CaptureIter] *)

Record CaptureIter : Type := {
  ci_data : list Z;
  position : Z;
  decoder : Decoder;
  terminal : bool;
}.

(** [CaptureIter::new]. *)
Definition capture_iter_new (dat : list Z) (l : Limits) (m : ParseMode) : result CaptureIter :=
  if max_input_bytes l <? zlen dat then Err (limit "input_bytes")
  else
    d ← decoder_new l m;
    Ok {| ci_data := dat; position := 0; decoder := d; terminal := false |}.

(** [Iterator::next]: the iterator it leaves and the item, a record or an error. *)
Definition next (it : CaptureIter) : result (CaptureIter * option (CapRecord + Error)) :=
  let stop := {| ci_data := ci_data it; position := position it; decoder := decoder it;
                 terminal := true |} in
  if terminal it then Ok (it, None)
  else if position it =? zlen (ci_data it) then
    f ← catch (decoder_finish (decoder it) (position it));
    match f with
    | inl _ => Ok (stop, None)
    | inr e => Ok (stop, Some (inr e))
    end
  else
    rest ← slice_from (ci_data it) (position it);
    r ← catch (decode (decoder it) rest (position it));
    match r with
    | inl (d', DRecord rec) =>
        p ← add_ovf usize_max (position it) (zlen (raw rec));
        Ok ({| ci_data := ci_data it; position := p; decoder := d'; terminal := false |},
            Some (inl rec))
    | inl (_, NeedMore need) =>
        Ok (stop, Some (inr (error_new Truncated (position it) "record"
                   ("need " +:+ pretty need +:+ " bytes; have " +:+
                      pretty (zlen (ci_data it) - position it)))))
    | inr e => Ok (stop, Some (inr e))
    end.

(** [for record in iter]: the records up to the end or the first error. *)
Fixpoint collect (fuel : nat) (it : CaptureIter) : result (list CapRecord * option Error) :=
  match fuel with
  | O => OutOfFuel
  | S fuel =>
      n ← next it;
      match n with
      | (_, None) => Ok ([], None)
      | (_, Some (inr e)) => Ok ([], Some e)
      | (it', Some (inl r)) => rs ← collect fuel it'; Ok (r :: rs.1, rs.2)
      end
  end.
