(* ===== verification/CaptureFacts.v ===== *)
(** * The capture decoder is total and stays inside its input

    Lemmas and theorems about src/capture.rs: field reads, the sizes [required]
    asks for, the option and name-record loops, and every branch of [decode]. *)

From S2P Require Import Prelude Errors Time Capture.

(** ** Field reads *)

Lemma uint_bound e l : bytes_ok l → 0 ≤ uint e l < 256 ^ zlen l.
Proof. destruct e; [apply from_le_bound|apply from_be_bound]. Qed.

Lemma put_uint e l : bytes_ok l → put e (length l) (uint e l) = l.
Proof.
  intros H. destruct e; simpl; [by apply to_from_le|].
  unfold to_be_bytes. rewrite from_be_rev, <- (length_rev l).
  rewrite to_from_le by (by apply Forall_rev). apply rev_involutive.
Qed.

Lemma uint_put e n v : uint e (put e n v) = v mod 256 ^ Z.of_nat n.
Proof. destruct e; simpl; [apply from_to_le|apply from_to_be]. Qed.

Lemma bytes2 (l : list Z) : zlen l = 2 → l = [nthz l 0; nthz l 1].
Proof. destruct l as [|a [|b [|]]]; unfold zlen; simpl; try lia. done. Qed.
Lemma bytes4 (l : list Z) : zlen l = 4 → l = [nthz l 0; nthz l 1; nthz l 2; nthz l 3].
Proof. destruct l as [|a [|b [|c [|d [|]]]]]; unfold zlen; simpl; try lia. done. Qed.
Lemma bytes8 (l : list Z) :
  zlen l = 8 → l = [nthz l 0; nthz l 1; nthz l 2; nthz l 3; nthz l 4; nthz l 5; nthz l 6; nthz l 7].
Proof.
  destruct l as [|a [|b [|c [|d [|a' [|b' [|c' [|d' [|]]]]]]]]]; unfold zlen; simpl; try lia. done.
Qed.

Lemma u16_ok e b : zlen b = 2 → u16 e b = Ok (uint e b).
Proof. intros H. unfold u16. rewrite !idx_ok by lia. simpl. by rewrite <- bytes2. Qed.
Lemma u32_ok e b : zlen b = 4 → u32 e b = Ok (uint e b).
Proof. intros H. unfold u32. rewrite !idx_ok by lia. simpl. by rewrite <- bytes4. Qed.
Lemma u64_ok e b : zlen b = 8 → u64 e b = Ok (uint e b).
Proof. intros H. unfold u64. rewrite !idx_ok by lia. simpl. by rewrite <- bytes8. Qed.

Section reads.
Context (Q : Z → Prop) (R : Error → Prop).
Lemma wp_u16 e b :
  zlen b = 2 → bytes_ok b → (0 ≤ uint e b ≤ u16_max → Q (uint e b)) → wp (u16 e b) Q R.
Proof.
  intros Hl Hb HQ. rewrite u16_ok by done. apply HQ.
  pose proof (uint_bound e b Hb). rewrite Hl in *. lia.
Qed.
Lemma wp_u32 e b :
  zlen b = 4 → bytes_ok b → (0 ≤ uint e b ≤ u32_max → Q (uint e b)) → wp (u32 e b) Q R.
Proof.
  intros Hl Hb HQ. rewrite u32_ok by done. apply HQ.
  pose proof (uint_bound e b Hb). rewrite Hl in *. lia.
Qed.
Lemma wp_u64 e b :
  zlen b = 8 → bytes_ok b → (0 ≤ uint e b ≤ u64_max → Q (uint e b)) → wp (u64 e b) Q R.
Proof.
  intros Hl Hb HQ. rewrite u64_ok by done. apply HQ.
  pose proof (uint_bound e b Hb). rewrite Hl in *. lia.
Qed.
End reads.

Lemma as_signed64_bound v : 0 ≤ v ≤ u64_max → i64_min ≤ as_signed 64 v ≤ i64_max.
Proof.
  intros. unfold as_signed. change (2 ^ (64 - 1)) with 9223372036854775808.
  change (2 ^ 64) with 18446744073709551616.
  destruct (Z.ltb_spec v 9223372036854775808); lia.
Qed.

(** ** Fields of a record *)

Lemma zlen_put e n v : zlen (put e n v) = Z.of_nat n.
Proof. unfold zlen. destruct e; simpl; [by rewrite length_to_le_bytes|by rewrite length_to_be_bytes]. Qed.

Lemma put_bytes e n v : bytes_ok (put e n v).
Proof. destruct e; [apply to_le_bytes_ok|apply to_be_bytes_ok]. Qed.

Lemma u16_put e v : 0 ≤ v ≤ u16_max → u16 e (put e 2 v) = Ok v.
Proof. intros Hv. rewrite u16_ok, uint_put by apply zlen_put. by rewrite Z.mod_small by (simpl; lia). Qed.

Lemma u32_put e v : 0 ≤ v ≤ u32_max → u32 e (put e 4 v) = Ok v.
Proof. intros Hv. rewrite u32_ok, uint_put by apply zlen_put. by rewrite Z.mod_small by (simpl; lia). Qed.

Lemma u64_put e v : 0 ≤ v ≤ u64_max → u64 e (put e 8 v) = Ok v.
Proof. intros Hv. rewrite u64_ok, uint_put by apply zlen_put. by rewrite Z.mod_small by (simpl; lia). Qed.

(** A field of a list of fields. *)
Lemma slice_field {E} pre (f : list Z) post a b :
  a = zlen (concat pre) → b = a + zlen f →
  slice (E:=E) (concat (pre ++ f :: post)) a b = Ok f.
Proof.
  intros -> ->. pose proof (zlen_nonneg (concat pre)). pose proof (zlen_nonneg f).
  pose proof (zlen_nonneg (concat post)). rewrite concat_app. simpl.
  rewrite slice_ok by (rewrite ?zlen_app; lia). f_equal.
  rewrite sub_app_r, Z.sub_diag by lia. replace (zlen (concat pre) + zlen f - zlen (concat pre)) with (zlen f) by lia.
  apply sub_0_app.
Qed.

(** Read the field [f] after the fields [pre]. *)
Ltac field_len := simpl; rewrite ?app_nil_r; repeat rewrite ?zlen_app, ?zlen_put, ?zlen_cons, ?zlen_nil; done || lia.
Ltac read_field pre f a b :=
  let H := fresh in
  pose proof (λ post, slice_field (E:=Error) pre f post a b) as H; cbn [app] in H; rewrite H, bind_Ok by field_len; clear H.

(** ** Alignment *)

Lemma ldiff3 v : Z.ldiff v 3 = v - v mod 4.
Proof.
  change 3 with (Z.ones 2). rewrite Z.ldiff_ones_r by lia.
  rewrite Z.shiftl_mul_pow2, Z.shiftr_div_pow2 by lia. change (2 ^ 2) with 4. dlia.
Qed.

Lemma align4_ok n : 0 ≤ n ≤ u32_max → align4 n = Ok (Z.ldiff (n + 3) 3).
Proof. intros. unfold align4, checked_add. by rewrite (proj2 (Z.leb_le _ _)) by lia. Qed.

Lemma wp_align4 n (Q : Z → Prop) (R : Error → Prop) :
  0 ≤ n ≤ u32_max →
  (n ≤ Z.ldiff (n + 3) 3 ≤ n + 3 → Z.ldiff (n + 3) 3 mod 4 = 0 → Q (Z.ldiff (n + 3) 3)) →
  wp (align4 n) Q R.
Proof. intros. rewrite align4_ok by done. rewrite ldiff3 in *. simpl. apply H0; dlia. Qed.

Lemma wp_error_at {A} c base delta fld d (Q : A → Prop) (R : Error → Prop) :
  base + delta ≤ u64_max → R (error_new c (base + delta) fld d) →
  wp (error_at c base delta fld d) Q R.
Proof. intros. unfold error_at. rewrite add_ovf_ok by done. done. Qed.

Lemma wp_minimum actual expected off fld (Q : unit → Prop) (R : Error → Prop) :
  R (error_new InvalidLength off fld "block shorter than fixed fields") →
  (expected ≤ actual → Q ()) → wp (minimum actual expected off fld) Q R.
Proof. intros. unfold minimum. destruct (Z.ltb_spec actual expected); simpl; auto. Qed.

(** The steps of a proof that the decoder is safe; every error is allowed. *)
Ltac cap_step :=
  lazymatch goal with
  | |- wp (u16 _ _) _ _ => apply wp_u16; [slice_len; lia|auto with pcap|intros ?]
  | |- wp (u32 _ _) _ _ => apply wp_u32; [slice_len; lia|auto with pcap|intros ?]
  | |- wp (u64 _ _) _ _ => apply wp_u64; [slice_len; lia|auto with pcap|intros ?]
  | |- wp (align4 _) _ _ => apply wp_align4; [lia|intros ? ?]
  | |- wp (error_at _ _ _ _ _) _ _ => apply wp_error_at; [lia|exact I]
  | |- wp (minimum _ _ _ _) _ _ => apply wp_minimum; [exact I|intros ?]
  | |- True => exact I
  | _ => wp_step
  end.
Ltac cap_go := repeat cap_step.

(** ** The option loop *)

Definition option_in (lo stop : Z) (o : OptionMeta) : Prop :=
  lo ≤ value_offset o ∧ 0 ≤ o_length o ∧ value_offset o + o_length o ≤ stop.

(** Options are listed in order and do not overlap. *)
Fixpoint options_ordered (lo stop : Z) (l : list OptionMeta) : Prop :=
  match l with
  | [] => lo ≤ stop
  | o :: l => option_in lo stop o ∧ options_ordered (value_offset o + o_length o) stop l
  end.

Lemma options_ordered_snoc lo stop l o :
  options_ordered lo (value_offset o) l → option_in (value_offset o) stop o →
  options_ordered lo stop (l ++ [o]).
Proof.
  revert lo. induction l as [|x l IH]; intros lo; simpl.
  - intros Hlo (H1 & H2 & H3). unfold option_in. split_and!; lia.
  - intros [(H1 & H2 & H3) Ho] Hin. split; [|by apply IH].
    unfold option_in in *. split_and!; lia.
Qed.

Lemma options_ordered_weaken lo lo' stop stop' l :
  options_ordered lo stop l → lo' ≤ lo → stop ≤ stop' → options_ordered lo' stop' l.
Proof.
  revert lo lo'. induction l as [|x l IH]; intros lo lo'; simpl; [lia|].
  unfold option_in. intros [(?&?&?) Ho] ? ?. split; [lia|]. by eapply IH.
Qed.

Lemma wp_parse_options raw start stop e off l (Q : list OptionMeta → Prop) (R : Error → Prop) :
  bytes_ok raw → zlen raw ≤ i64_max → 0 ≤ start → start ≤ stop → stop ≤ zlen raw →
  0 ≤ off → off + zlen raw ≤ u64_max →
  (∀ opts, options_ordered start stop opts → Q opts) → (∀ e, R e) →
  wp (parse_options raw start stop e off l) Q R.
Proof.
  intros Hb Hlen Hs Hss Hst Ho Hov HQ HR. unfold parse_options.
  apply (wp_loop (λ st, start ≤ st.1 ≤ stop ∧ options_ordered start st.1 st.2)
                 (λ st, stop - st.1)).
  - intros [p out] [Hp Hout]; simpl in *.
    destruct (Z.ltb_spec p stop); simpl.
    2:{ apply HQ. eapply options_ordered_weaken; [done|lia..]. }
    cap_go; try apply HR; try (apply wp_error_at; [lia|apply HR]).
    { eapply HQ, options_ordered_weaken; [done|lia..]. }
    match goal with H : checked_add _ _ _ = Some _ |- _ => apply checked_add_Some in H as [-> ?] end.
    simpl. split; [|lia]. split; [lia|].
    eapply options_ordered_snoc; unfold option_in; simpl; [|lia].
    eapply options_ordered_weaken; [done|lia..].
  - simpl. split; [lia|done].
  - simpl. unfold zlen in *. lia.
Qed.

Lemma wp_names raw body_end e off l (Q : Z * Z → Prop) :
  bytes_ok raw → zlen raw ≤ i64_max → 8 ≤ body_end → body_end ≤ zlen raw →
  0 ≤ off → off + zlen raw ≤ u64_max → max_options l ≤ usize_max →
  (∀ p n, 8 ≤ p ≤ body_end → Q (p, n)) →
  wp (loop (S (length raw)) (name_step raw body_end e off l) (8, 0)) Q (λ _, True).
Proof.
  intros Hb Hlen Hs Hst Ho Hov Hmax HQ.
  apply (wp_loop (λ st, 8 ≤ st.1 ≤ body_end ∧ 0 ≤ st.2) (λ st, body_end - st.1)).
  - intros [p n] [Hp Hn]; simpl in *. cap_go; [by apply HQ; lia|..];
    repeat match goal with H : checked_add _ _ _ = Some _ |- _ => apply checked_add_Some in H as [-> ?] end;
    repeat (cap_go; simpl in *; try lia); repeat split; lia.
  - simpl. lia.
  - simpl. unfold zlen in *. lia.
Qed.

(** ** The state invariant *)

Definition iface_ok (i : Interface) : Prop :=
  0 ≤ if_snaplen i ≤ u32_max ∧ res_typed (if_resolution i) ∧
  i64_min ≤ if_offset_seconds i ≤ i64_max ∧ 0 ≤ if_link_type i ≤ u16_max.

(** What every reachable decoder satisfies.  The header record is counted but
    numbers no frame, which is what keeps [next_frame] within [u64]. *)
Definition decoder_ok (d : Decoder) : Prop :=
  limits_ok (limits d) ∧
  0 ≤ records d ≤ max_records (limits d) ∧
  1 ≤ next_frame d ∧
  match format d with
  | None => next_frame d = 1
  | Some _ => next_frame d ≤ records d
  end ∧
  (format d = Some Pcap → is_Some (legacy_header d)) ∧
  0 ≤ sections_seen d ≤ u32_max ∧
  Forall iface_ok (interfaces d).

Lemma decoder_new_ok l m d :
  limits_typed l → decoder_new l m = Ok d → decoder_ok d.
Proof.
  intros Ht. unfold decoder_new. intros (u & Hv & [= <-])%bind_ok.
  pose proof (validate_limits_ok l u Ht Hv) as Hl.
  unfold decoder_ok; simpl. split_and!; try done; try lia.
  limits_facts Hl. lia.
Qed.

Lemma clock_option_spec raw e off st opt :
  bytes_ok raw → zlen raw ≤ i64_max → 0 ≤ off → off + zlen raw ≤ u64_max →
  option_in 0 (zlen raw) opt →
  res_typed (co_resolution st) → i64_min ≤ co_offset st ≤ i64_max →
  wp (clock_option raw e off st opt)
     (λ st', res_typed (co_resolution st') ∧ i64_min ≤ co_offset st' ≤ i64_max) (λ _, True).
Proof.
  intros Hb Hl Ho Hov (H1 & H2 & H3) Hr Hf. unfold clock_option. cap_go; simpl; try done.
  - split; [|done]. apply from_pcapng_typed. apply nthz_byte; auto with pcap.
  - split; [done|]. by apply as_signed64_bound.
Qed.

Lemma wp_interface_at d id off (Q : Interface → Prop) :
  0 ≤ id → 0 ≤ off → off + 8 ≤ u64_max → Forall iface_ok (interfaces d) →
  (∀ i, iface_ok i → Q i) → wp (interface_at d id off) Q (λ _, True).
Proof.
  intros Hid Ho Hov Hf HQ. unfold interface_at. destruct (get _ _) as [i|] eqn:Hg.
  - apply get_Some in Hg as [_ Hg]. apply wp_ok, HQ. by eapply Forall_lookup_1.
  - by apply wp_error_at.
Qed.

Lemma wp_validate_lengths cap orig snap m off ws (Q : list Warning → Prop) :
  (∀ ws', Q ws') → wp (validate_lengths cap orig snap m off ws) Q (λ _, True).
Proof. intros. unfold validate_lengths. repeat case_match; simpl; auto. Qed.

Lemma wp_block_ticks raw e (Q : Z → Prop) :
  bytes_ok raw → 20 ≤ zlen raw → (∀ t, 0 ≤ t ≤ u64_max → Q t) →
  wp (block_ticks raw e) Q (λ _, True).
Proof.
  intros Hb Hl HQ. unfold block_ticks. cap_go. apply HQ.
  set (hi := uint _ _) in *. set (lo := uint e (sub raw 16 20)) in *.
  rewrite Z.shiftl_mul_pow2 by lia.
  assert (Z.land (hi * 2 ^ 32) lo = 0) as Hd.
  { apply Z.bits_inj'. intros n Hn. rewrite Z.land_spec, Z.bits_0.
    destruct (Z.ltb_spec n 32) as [H32|H32].
    - by rewrite Z.mul_pow2_bits_low.
    - rewrite (Z.testbit_eqb lo n) by done. rewrite Z.div_small, andb_false_r; [done|].
      assert (2 ^ 32 ≤ 2 ^ n) by (apply Z.pow_le_mono_r; lia). lia. }
  rewrite <- Z.lxor_lor, <- Z.add_nocarry_lxor by done. lia.
Qed.

(** ** [required] *)

(** The size a complete block declares. *)
Definition block_size (d : Decoder) (input : list Z) (need : Z) : Prop :=
  12 ≤ need ∧ need mod 4 = 0 ∧ need ≤ max_block_bytes (limits d) ∧
  (sub input 0 4 = magic_shb → 28 ≤ need).

(** [need] is the size of a record of which [input] holds a prefix. *)
Definition record_size (d : Decoder) (input : list Z) (need : Z) : Prop :=
  match format d with
  | None => sub input 0 4 ≠ magic_shb ∧ need = 24 ∨
            sub input 0 4 = magic_shb ∧ block_size d input need
  | Some Pcap => need = uint (endian d) (sub input 8 12) + 16 ∧
                 0 ≤ uint (endian d) (sub input 8 12) ≤ max_packet_bytes (limits d)
  | Some PcapNg => block_size d input need
  end.

Lemma wp_ng_endian input off (Q : Endian → Prop) :
  12 ≤ zlen input → 0 ≤ off → off + zlen input ≤ u64_max → (∀ e, Q e) →
  wp (ng_endian input off) Q (λ _, True).
Proof. intros Hl Ho Hov HQ. unfold ng_endian. cap_go; auto. Qed.

Lemma wp_required_block d input off (Q : Z → Prop) :
  bytes_ok input → 0 ≤ off → off + zlen input ≤ u64_max →
  (∀ n, 4 ≤ n → (zlen input < n ∨ block_size d input n) → Q n) →
  wp (required_block d input off) Q (λ _, True).
Proof.
  intros Hb Ho Hov HQ. unfold required_block. cap_go; try (apply HQ; lia).
  - apply wp_ng_endian; [lia|done..|]. intros e. cap_go. apply HQ; [lia|].
    right. unfold block_size. split_and!; try lia.
  - apply HQ; [lia|]. right. unfold block_size. split_and!; try lia. done.
Qed.

Lemma wp_required d input off (Q : Z → Prop) :
  bytes_ok input → zlen input ≤ i64_max → 0 ≤ off → limits_ok (limits d) →
  (∀ n, off + zlen input ≤ u64_max → 4 ≤ n →
        (zlen input < n ∨ record_size d input n) → Q n) →
  wp (required d input off) Q (λ _, True).
Proof.
  intros Hb Hl Ho Hlim HQ. unfold required. apply wp_bind, wp_ok_or; [|done].
  intros s [-> Hov]%checked_add_Some. pose proof Hlim as Hlim'. limits_facts Hlim'.
  unfold record_size in HQ. destruct (format d) as [[]|].
  - cap_go; [apply HQ; lia|]. 
    match goal with H : checked_add _ _ _ = Some _ |- _ => apply checked_add_Some in H as [-> ?] end.
    apply HQ; [lia|lia|]. right. lia.
  - apply wp_required_block; [done..|]. auto.
  - cap_go; try (apply HQ; lia).
    + destruct (legacy_magic _); [|done]. simpl. apply HQ; [lia..|]. right. by left.
    + apply wp_required_block; [done..|]. intros n Hn Hor. apply HQ; [done..|].
      destruct Hor; auto.
Qed.

(** ** The branches of [decode] *)

(** What a branch gives: the parts of the invariant it must restore, a packet
    that is numbered next and lies inside the record, options inside the block. *)
Definition packet_in (d : Decoder) (rw : list Z) (p : PacketMeta) : Prop :=
  frame p = next_frame d ∧ is_Some (format d) ∧
  0 ≤ data_offset p ∧ 0 ≤ captured_len p ≤ max_packet_bytes (limits d) ∧
  data_offset p + captured_len p ≤ zlen rw ∧
  from_option ts_typed True (timestamp p).

Definition branch_ok (d : Decoder) (rw : list Z) (b : branch) : Prop :=
  let '(d', e, k, opts, ws) := b in
  limits d' = limits d ∧ mode d' = mode d ∧ records d' = records d ∧
  is_Some (format d') ∧
  (is_Some (format d) → format d' = format d) ∧
  (format d' = Some Pcap → is_Some (legacy_header d')) ∧
  0 ≤ sections_seen d' ≤ u32_max ∧
  Forall iface_ok (interfaces d') ∧
  match k with
  | KPacket p => packet_in d rw p ∧ next_frame d' = next_frame d + 1
  | _ => next_frame d' = next_frame d
  end ∧
  options_ordered 0 (zlen rw) opts.

Lemma wp_bump_frame d (Q : Decoder → Prop) :
  decoder_ok d → records d < max_records (limits d) → is_Some (format d) →
  (∀ d', limits d' = limits d → mode d' = mode d → format d' = format d →
         endian d' = endian d → legacy_header d' = legacy_header d →
         interfaces d' = interfaces d → sections_seen d' = sections_seen d →
         next_frame d' = next_frame d + 1 → records d' = records d → Q d') →
  wp (bump_frame d) Q (λ _, True).
Proof.
  intros (Hl & Hr & Hn & Hf & _) Hrec [f Hfmt] HQ. unfold bump_frame. rewrite Hfmt in Hf.
  limits_facts Hl. apply wp_bind, wp_add_ovf; [lia|]. apply wp_ok. by apply HQ.
Qed.

Section branches.
Context (d : Decoder) (rw : list Z) (off need : Z).
Context (Hd : decoder_ok d) (Hrec : records d < max_records (limits d)).
Context (Hb : bytes_ok rw) (Hlen : zlen rw ≤ i64_max) (Hneed : zlen rw = need).
Context (Hoff : 0 ≤ off) (Hov : off + need ≤ u64_max).

Lemma legacy_header_spec :
  format d = None → need = 24 →
  wp (decode_legacy_header d rw off) (branch_ok d rw) (λ _, True).
Proof using All.
  intros Hf ->. destruct Hd as (Hl & Hr & Hn & Hnf & Hlh & Hss & Hi).
  unfold decode_legacy_header. cap_go.
  destruct a as [e nanos]. cap_go.
  unfold branch_ok; simpl. split_and!; try done; try lia.
  rewrite Hf. by intros [? ?].
Qed.

Lemma legacy_packet_spec :
  format d = Some Pcap → need = uint (endian d) (sub rw 8 12) + 16 →
  0 ≤ uint (endian d) (sub rw 8 12) ≤ max_packet_bytes (limits d) →
  wp (decode_legacy_packet d rw off) (branch_ok d rw) (λ _, True).
Proof using All.
  intros Hf Hn Hmax. pose proof Hd as (Hl & Hr & Hn1 & Hnf & Hlh & Hss & Hi).
  unfold decode_legacy_packet. cap_go. apply wp_validate_lengths. intros ws. cap_go.
  unfold legacy. set (scale := if lh_nanos a then 1000000000 else 1000000).
  assert (1 ≤ scale ≤ 1000000000) by (unfold scale; destruct (lh_nanos a); lia).
  (* the timestamp is typed, or refused and dropped *)
  match goal with |- wp ?r ?Q _ =>
    enough (∀ t, from_option ts_typed True t → ∀ ws,
      wp (d0 ← bump_frame d;
          Ok (d0, endian d0, KPacket {| frame := next_frame d; section := 0; interface := 0;
                    link_type := Z.land (lh_link_word a) 0xffff;
                    captured_len := uint (endian d) (sub rw 8 12);
                    original_len := uint (endian d) (sub rw 12 16); data_offset := 16;
                    timestamp := t |}, [], ws)) (branch_ok d rw) (λ _, True)) as Hfin
  end.
  - destruct (Z.leb_spec scale (uint (endian d) (sub rw 4 8))) as [Hs|Hs]; simpl.
    + rewrite add_ovf_ok by lia. rewrite bind_Ok. case_bool_decide; [done|].
      rewrite bind_Ok. by apply (Hfin None).
    + rewrite mul_ovf_ok, bind_Ok by nia. rewrite add_ovf_ok by nia. simpl.
      apply (Hfin (Some _)). unfold ts_typed; simpl.
      split; [nia|]. split; [destruct (lh_nanos a); simpl; lia|lia].
  - intros t Ht ws'. apply wp_bind, wp_bump_frame; [done..|by rewrite Hf|].
    intros d' E1 E2 E3 E4 E5 E6 E7 E8 E9. apply wp_ok. unfold branch_ok.
    rewrite E1, E2, E3, E5, E6, E7, E8, E9. unfold packet_in; simpl.
    rewrite Hf. split_and!; try done; try lia.
Qed.

(** A block that leaves the decoder as it was and holds no packet. *)
Lemma branch_unchanged e k opts :
  is_Some (format d) → (∀ p, k ≠ KPacket p) → options_ordered 0 (zlen rw) opts →
  branch_ok d rw (d, e, k, opts, []).
Proof using All.
  intros Hf Hk Ho. destruct Hd as (Hl & Hr & Hn & Hnf & Hlh & Hss & Hi).
  unfold branch_ok. split_and!; try done; try lia. destruct k; naive_solver.
Qed.

(** A packet block: numbered next, its bytes inside the record. *)
Lemma branch_packet e p opts ws :
  format d = Some PcapNg → packet_in d rw p → options_ordered 0 (zlen rw) opts →
  wp (d0 ← bump_frame d; Ok (d0, e, KPacket p, opts, ws)) (branch_ok d rw) (λ _, True).
Proof using All.
  intros Hf Hp Ho. pose proof Hd as (Hl & Hr & Hn & Hnf & Hlh & Hss & Hi).
  apply wp_bind, wp_bump_frame; [done..|by rewrite Hf|].
  intros d' E1 E2 E3 E4 E5 E6 E7 E8 E9. apply wp_ok. unfold branch_ok.
  rewrite E1, E2, E3, E5, E6, E7, E8, E9. rewrite Hf. split_and!; try done; try lia.
Qed.

Lemma section_spec e :
  28 ≤ need → format d ≠ Some Pcap →
  wp (decode_section d rw e need off) (branch_ok d rw) (λ _, True).
Proof using All.
  intros H28 Hf. destruct Hd as (Hl & Hr & Hn & Hnf & Hlh & Hss & Hi).
  unfold decode_section. cap_go. apply wp_parse_options; [done|lia..| |done].
  intros opts Ho. apply wp_bind.
  apply (wp_mono _ (λ _, True) _ (λ _, True)); [|intros send _|done].
  { cap_go. }
  apply wp_bind, wp_ok_or; [|done]. intros seen [-> Hseen]%checked_add_Some.
  apply wp_ok. unfold branch_ok; simpl. split_and!; try done; try lia.
  - intros [f Hfm]. destruct f; [done|]. by rewrite Hfm.
  - eapply options_ordered_weaken; [done|lia..].
Qed.

Lemma interface_spec e :
  12 ≤ need → is_Some (format d) →
  wp (decode_interface d rw e need off) (branch_ok d rw) (λ _, True).
Proof using All.
  intros H12 Hf. pose proof Hd as (Hl & Hr & Hn & Hnf & Hlh & Hss & Hi).
  unfold decode_interface. cap_go. apply wp_parse_options; [done|lia..| |done].
  intros opts Ho. apply wp_bind.
  apply (wp_foldM (λ _ st, res_typed (co_resolution st) ∧ i64_min ≤ co_offset st ≤ i64_max)
           _ _ _ _ []); [|simpl; lia|].
  - intros pre opt post st Heq [Hst1 Hst2]. apply clock_option_spec; try done; try lia.
    simpl in Heq. subst opts. clear -Ho Hneed. revert Ho.
    assert (∀ lo, 0 ≤ lo → options_ordered lo (need - 4) (pre ++ opt :: post) →
                  option_in 0 (zlen rw) opt) as Hgen; [|by apply Hgen].
    induction pre as [|x pre IH]; intros lo Hlo; simpl.
    + intros [(?&?&?) _]. unfold option_in. lia.
    + intros [(?&?&?) Hx]. apply (IH (value_offset x + o_length x)); [lia|done].
  - intros co [Hco1 Hco2]. cap_go. unfold branch_ok; simpl. split_and!; try done; try lia.
    + apply Forall_app; split; [done|]. constructor; [|done].
      unfold iface_ok; simpl. split_and!; try done; lia.
    + eapply options_ordered_weaken; [done|lia..].
Qed.

Lemma packet_block_spec e block :
  12 ≤ need → format d = Some PcapNg →
  wp (decode_packet_block d rw e block need off) (branch_ok d rw) (λ _, True).
Proof using All.
  intros H12 Hf. pose proof Hd as (Hl & Hr & Hn & Hnf & Hlh & Hss & Hi).
  unfold decode_packet_block. apply wp_bind, wp_minimum; [done|]. intros H32.
  apply wp_bind. apply (wp_mono _ (λ id, 0 ≤ id) _ (λ _, True)); [cap_go; lia|intros id Hid|done].
  apply wp_bind, wp_interface_at; [lia..|done|]. intros i (Hi1 & Hi2 & Hi3 & Hi4).
  cap_go. match goal with H : checked_add _ _ _ = Some _ |- _ => apply checked_add_Some in H as [-> ?] end.
  apply wp_validate_lengths. intros ws.
  apply wp_bind, wp_parse_options; [done|lia..| |done].
  intros opts Ho. apply wp_bind, wp_block_ticks; [done|lia|]. intros t Ht.
  cbv zeta. apply branch_packet; [done| |eapply options_ordered_weaken; [done|lia..]].
  unfold packet_in, ts_typed; simpl. rewrite Hf. split_and!; try done; lia.
Qed.

Lemma simple_packet_spec e :
  12 ≤ need → format d = Some PcapNg →
  wp (decode_simple_packet d rw e need off) (branch_ok d rw) (λ _, True).
Proof using All.
  intros H12 Hf. pose proof Hd as (Hl & Hr & Hn & Hnf & Hlh & Hss & Hi).
  unfold decode_simple_packet. apply wp_bind, wp_minimum; [done|]. intros H16.
  apply wp_bind, wp_interface_at; [lia..|done|]. intros i (Hi1 & Hi2 & Hi3 & Hi4).
  apply wp_bind, wp_slice; [lia..|]. apply wp_bind, wp_u32; [slice_len; lia|auto with pcap|].
  intros Horig. set (orig := uint e (sub rw 8 12)) in *. cbv zeta.
  set (cap := if if_snaplen i =? 0 then orig else Z.min orig (if_snaplen i)).
  assert (0 ≤ cap ≤ u32_max) by (unfold cap; destruct (_ =? 0); lia).
  destruct (Z.ltb_spec (max_packet_bytes (limits d)) cap); [done|].
  apply wp_bind, wp_align4; [lia|]. intros Ha Ham.
  case_bool_decide as Hsz; [apply wp_error_at; [lia|done]|].
  apply checked_add_Some in Hsz as [Hsz _].
  apply branch_packet; [done| |simpl; lia].
  unfold packet_in; simpl. rewrite Hf. split_and!; try done; lia.
Qed.

Lemma names_spec e :
  12 ≤ need → is_Some (format d) →
  wp (decode_names d rw e need off) (branch_ok d rw) (λ _, True).
Proof using All.
  intros H12 Hf. pose proof Hd as (Hl & _). limits_facts Hl.
  unfold decode_names. apply wp_bind, wp_names; try done; try lia.
  intros p n Hp. cbn [fst snd]. apply wp_bind, wp_parse_options; [done|lia..| |done].
  intros opts Ho. apply wp_ok, branch_unchanged; [done|done|].
  eapply options_ordered_weaken; [done|lia..].
Qed.

Lemma statistics_spec e :
  12 ≤ need → is_Some (format d) →
  wp (decode_statistics d rw e need off) (branch_ok d rw) (λ _, True).
Proof using All.
  intros H12 Hf. pose proof Hd as (Hl & Hr & Hn & Hnf & Hlh & Hss & Hi).
  unfold decode_statistics. cap_go. apply wp_interface_at; [lia..|done|]. intros i Hif.
  apply wp_bind, wp_block_ticks; [done|lia|]. intros t Ht.
  apply wp_bind, wp_parse_options; [done|lia..| |done].
  intros opts Ho. apply wp_ok, branch_unchanged; [done|done|].
  eapply options_ordered_weaken; [done|lia..].
Qed.

Lemma secrets_spec e :
  12 ≤ need → is_Some (format d) →
  wp (decode_secrets d rw e need off) (branch_ok d rw) (λ _, True).
Proof using All.
  intros H12 Hf. unfold decode_secrets. cap_go.
  match goal with H : checked_add _ _ _ = Some _ |- _ => apply checked_add_Some in H as [-> ?] end.
  apply wp_parse_options; [done|lia..| |done].
  intros opts Ho. cap_go. apply branch_unchanged; [done|done|].
  eapply options_ordered_weaken; [done|lia..].
Qed.

Lemma custom_spec e block :
  12 ≤ need → is_Some (format d) →
  wp (decode_custom d rw e block need off) (branch_ok d rw) (λ _, True).
Proof using All.
  intros H12 Hf. unfold decode_custom. cap_go.
  apply branch_unchanged; [done|done|simpl; lia].
Qed.

Lemma block_spec :
  block_size d rw need →
  (format d = Some PcapNg ∨ format d = None ∧ sub rw 0 4 = magic_shb) →
  wp (decode_block d rw need off) (branch_ok d rw) (λ _, True).
Proof using All.
  intros (H12 & H4 & Hmb & H28) Hf.
  unfold decode_block. apply wp_bind, wp_slice; [lia..|]. cbv zeta. apply wp_bind.
  apply (wp_mono _ (λ _, True) _ (λ _, True)); [|intros e _|done].
  { destruct (bytes_eqb _ _) eqn:Hm; bool_facts; [|done].
    apply wp_ng_endian; [specialize (H28 Hm); lia|lia..|done]. }
  cap_go. apply (wp_mono _ (λ _, True) _ (λ _, True)); [|intros [] _|done].
  { unfold check_section_end. case_match; [|done]. cap_go. }
  apply wp_bind, wp_u32; [slice_len; lia|auto with pcap|]. intros Hblk.
  destruct (decide (sub rw 0 4 = magic_shb)) as [Hm|Hm].
  - assert (uint e (sub rw 0 4) = SHB) as -> by (rewrite Hm; by destruct e).
    rewrite Z.eqb_refl. apply section_spec; [by apply H28|].
    intros Hp. rewrite Hp in Hf. naive_solver.
  - destruct Hf as [Hf|[_ ?]]; [|done]. assert (is_Some (format d)) as Hs by (by rewrite Hf).
    repeat match goal with |- wp (if ?c then _ else _) _ _ => destruct c eqn:? end.
    + exfalso. apply Hm. apply Z.eqb_eq in Heqb0.
      rewrite <- (put_uint e (sub rw 0 4)) by auto with pcap. rewrite Heqb0.
      assert (length (sub rw 0 4) = 4%nat) as ->
        by (pose proof (zlen_sub rw 0 4 ltac:(lia) ltac:(lia) ltac:(lia)); unfold zlen in *; lia).
      by destruct e.
    + by apply interface_spec.
    + by apply packet_block_spec.
    + by apply simple_packet_spec.
    + by apply names_spec.
    + by apply statistics_spec.
    + by apply secrets_spec.
    + by apply custom_spec.
    + apply branch_unchanged; [done|done|simpl; lia].
Qed.
End branches.

(** ** [decode] *)

(** The packet of a record lies inside it, so [Record::packet] returns its bytes. *)
Definition packet_range (r : CapRecord) : Prop :=
  match kind r with
  | KPacket p => 0 ≤ data_offset p ∧ 0 ≤ captured_len p ≤ usize_max ∧
                 data_offset p + captured_len p ≤ zlen (raw r) ∧
                 from_option ts_typed True (timestamp p)
  | _ => True
  end.

(** The frame number a record leaves for the next packet. *)
Definition frame_after (n : Z) (r : CapRecord) : Z :=
  match kind r with KPacket _ => n + 1 | _ => n end.
Definition frame_matches (n : Z) (r : CapRecord) : Prop :=
  match kind r with KPacket p => frame p = n | _ => True end.

(** What [decode] promises of a record it returns. *)
Definition record_ok (d d' : Decoder) (input : list Z) (off : Z) (r : CapRecord) : Prop :=
  decoder_ok d' ∧ limits d' = limits d ∧ mode d' = mode d ∧ records d' = records d + 1 ∧
  r_offset r = off ∧
  4 ≤ zlen (raw r) ≤ zlen input ∧ raw r = sub input 0 (zlen (raw r)) ∧
  packet_range r ∧ frame_matches (next_frame d) r ∧ next_frame d' = frame_after (next_frame d) r ∧
  options_ordered 0 (zlen (raw r)) (options r).

Definition decode_post (d : Decoder) (input : list Z) (off : Z) (p : Decoder * Decode) : Prop :=
  match p with
  | (d', NeedMore n) => d' = d ∧ zlen input < n ∧ required d input off = Ok n
  | (d', DRecord r) => record_ok d d' input off r
  end.

Lemma decode_branch_spec d input off need :
  decoder_ok d → records d < max_records (limits d) →
  bytes_ok input → zlen input ≤ i64_max → 0 ≤ off → off + zlen input ≤ u64_max →
  4 ≤ need ≤ zlen input → record_size d input need →
  wp (decode_branch d (sub input 0 need) need off) (branch_ok d (sub input 0 need)) (λ _, True).
Proof.
  intros Hd Hr Hb Hl Ho Hov Hn Hs. unfold decode_branch, record_size in *.
  assert (zlen (sub input 0 need) = need) as Hlen by (rewrite zlen_sub; lia).
  assert (∀ a b, 0 ≤ a → a ≤ b → b ≤ need → sub (sub input 0 need) a b = sub input a b) as Hsub.
  { intros. rewrite sub_sub by lia. f_equal; lia. }
  assert (bytes_ok (sub input 0 need)) by auto with pcap.
  destruct (format d) as [[]|] eqn:Hf.
  - destruct Hs as [Hs Hm].
    apply (legacy_packet_spec d _ off need); try done; try lia; rewrite Hsub by lia; lia.
  - apply block_spec; try done; try lia; [|by left].
    unfold block_size in *. rewrite Hsub by lia. done.
  - apply wp_bind, wp_slice; [lia..|]. rewrite Hsub by lia.
    destruct (bytes_eqb _ _) eqn:Hm; bool_facts; simpl.
    + destruct Hs as [[? _]|[_ Hs]]; [done|].
      apply block_spec; try done; try lia.
      * unfold block_size in *. rewrite Hsub by lia. done.
      * right. rewrite Hsub by lia. done.
    + destruct Hs as [[_ ->]|[? _]]; [|done].
      by apply (legacy_header_spec d _ off 24); try lia.
Qed.

Lemma wp_decode d input off :
  decoder_ok d → bytes_ok input → zlen input ≤ i64_max → 0 ≤ off →
  wp (decode d input off) (decode_post d input off) (λ _, True).
Proof.
  intros Hd Hb Hl Ho. unfold decode. pose proof Hd as (Hlim & Hrec & _).
  destruct (Z.leb_spec (max_records (limits d)) (records d)) as [|Hr]; [done|].
  apply wp_bind, (wp_of_safe _ _ _).
  { eapply wp_safe, wp_required; try done. }
  2: done.
  intros need Hreq.
  assert (wp (required d input off) (λ n, off + zlen input ≤ u64_max ∧ 4 ≤ n ∧
            (zlen input < n ∨ record_size d input n)) (λ _, True)) as Hw
    by (by apply wp_required).
  rewrite Hreq in Hw. destruct Hw as (Hov & H4 & Hor).
  destruct (Z.ltb_spec (zlen input) need) as [Hlt|Hge]; [done|].
  destruct Hor as [|Hsize]; [lia|].
  apply wp_bind, wp_slice; [lia..|]. apply wp_bind.
  eapply wp_mono; [by apply decode_branch_spec|simpl|done].
  intros [[[[d' e] k] opts] ws] (E1 & E2 & E3 & [f Ef] & Ef' & Elh & Ess & Eif & Ek & Eo).
  assert (zlen (sub input 0 need) = need) as Hlen by (rewrite zlen_sub; lia).
  apply wp_bind. unfold bump_records. pose proof Hlim as Hlim'. limits_facts Hlim'.
  apply wp_bind, wp_add_ovf; [lia|]. apply wp_ok, wp_ok. unfold decode_post, record_ok; simpl.
  rewrite Hlen. pose proof Hd as (_ & _ & Hn1 & Hnf & _).
  assert (next_frame d' = frame_after (next_frame d)
            {| r_offset := off; r_endian := e; raw := sub input 0 need; kind := k;
               options := opts; warnings := ws |} ∧
          1 ≤ next_frame d' ≤ records d + 1 ∧
          packet_range {| r_offset := off; r_endian := e; raw := sub input 0 need; kind := k;
               options := opts; warnings := ws |} ∧
          frame_matches (next_frame d) {| r_offset := off; r_endian := e; raw := sub input 0 need;
               kind := k; options := opts; warnings := ws |}) as (HF1 & HF2 & HF3 & HF4).
  { assert (next_frame d ≤ records d + 1) by (destruct (format d); lia).
    unfold frame_after, packet_range, frame_matches; simpl.
    destruct k; try (split_and!; try done; lia).
    destruct Ek as [(P1 & [f0 Hf0] & P3 & P4 & P5 & P6) P7]. rewrite Hf0 in Hnf.
    split_and!; try done; try lia. }
  rewrite Hlen in Eo. split_and!; try done; try lia.
  unfold decoder_ok; simpl. rewrite E1, E3, Ef in *. split_and!; try done; lia.
Qed.

(** [Decoder::decode] never aborts.  For every reachable decoder state, every
    byte string and every file offset it returns an error, asks for more input
    (strictly more than it was given, and exactly what [required] computes), or
    returns a record: a nonempty prefix of the input at the given offset, whose
    packet bytes and options lie inside it, whose packet is numbered with the
    next frame; and the decoder it leaves satisfies the invariant again. *)
Theorem decode_total (d : Decoder) (input : list Z) (off : Z) :
  decoder_ok d → bytes_ok input → zlen input ≤ i64_max → 0 ≤ off ≤ u64_max →
  wp (decode d input off)
     (λ p, match p with
           | (d', NeedMore n) => d' = d ∧ zlen input < n ∧ required d input off = Ok n
           | (d', DRecord r) => record_ok d d' input off r
           end) (λ _, True).
Proof. intros Hd Hb Hl [Ho _]. by apply wp_decode. Qed.

(** ** The slice iterator *)

(** The records of a capture, from position [pos] on, tile its bytes. *)
Fixpoint tiles (dat : list Z) (pos : Z) (rs : list CapRecord) : Prop :=
  match rs with
  | [] => True
  | r :: rs =>
      r_offset r = pos ∧ 0 < zlen (raw r) ∧ pos + zlen (raw r) ≤ zlen dat ∧
      raw r = sub dat pos (pos + zlen (raw r)) ∧ tiles dat (pos + zlen (raw r)) rs
  end.

(** Packets are numbered consecutively from [n], whatever is between them. *)
Fixpoint numbered (n : Z) (rs : list CapRecord) : Prop :=
  match rs with
  | [] => True
  | r :: rs => frame_matches n r ∧ numbered (frame_after n r) rs
  end.

Definition iter_ok (it : CaptureIter) : Prop :=
  decoder_ok (decoder it) ∧ bytes_ok (ci_data it) ∧ zlen (ci_data it) ≤ i64_max ∧
  0 ≤ position it ≤ zlen (ci_data it).

Definition next_post (it : CaptureIter) (p : CaptureIter * option (CapRecord + Error)) : Prop :=
  match p with
  | (it', Some (inl r)) =>
      terminal it = false ∧ iter_ok it' ∧ terminal it' = false ∧ ci_data it' = ci_data it ∧
      r_offset r = position it ∧ 0 < zlen (raw r) ∧
      position it' = position it + zlen (raw r) ∧
      raw r = sub (ci_data it) (position it) (position it') ∧
      packet_range r ∧ frame_matches (next_frame (decoder it)) r ∧
      next_frame (decoder it') = frame_after (next_frame (decoder it)) r ∧
      limits (decoder it') = limits (decoder it) ∧
      records (decoder it') = records (decoder it) + 1
  | (it', Some (inr _)) => terminal it' = true
  | (it', None) => terminal it' = true ∧ (terminal it = false → position it = zlen (ci_data it))
  end.

Lemma wp_next it : iter_ok it → wp (next it) (next_post it) (λ _, False).
Proof.
  intros (Hd & Hb & Hl & Hp). unfold next. destruct (terminal it) eqn:Ht; simpl.
  { rewrite Ht. naive_solver. }
  destruct (Z.eqb_spec (position it) (zlen (ci_data it))) as [Hend|Hend].
  { apply wp_bind, wp_catch. unfold decoder_finish.
    repeat case_match; simpl; naive_solver. }
  apply wp_bind. unfold slice_from. apply wp_slice; [lia..|].
  apply wp_bind, wp_catch.
  eapply wp_mono; [apply wp_decode; try done; [auto with pcap|rewrite zlen_sub; lia|lia]| |done].
  intros [d' [n|r]]; [done|].
  intros (H1 & H2 & H3 & H4 & H5 & H6 & H7 & H8 & H9 & H10 & H11). simpl.
  rewrite zlen_sub in H6 by lia. rewrite add_ovf_ok by lia. simpl.
  split_and!; try done; try lia; simpl.
  - unfold iter_ok; simpl. split_and!; try done; lia.
  - rewrite H7 at 1. rewrite sub_sub by lia. f_equal; lia.
Qed.

Lemma wp_collect it fuel :
  iter_ok it → terminal it = false →
  zlen (ci_data it) - position it + 1 < Z.of_nat fuel →
  wp (collect fuel it)
     (λ '(rs, err),
        tiles (ci_data it) (position it) rs ∧ numbered (next_frame (decoder it)) rs ∧
        Forall packet_range rs ∧
        zlen rs ≤ max_records (limits (decoder it)) - records (decoder it) ∧
        (err = None → concat (raw <$> rs) = sub (ci_data it) (position it) (zlen (ci_data it))))
     (λ _, False).
Proof.
  revert it. induction fuel as [|fuel IH]; intros it Hok Ht Hf; [pose proof Hok as (_&_&_&?); lia|].
  pose proof Hok as ((Hlim & Hrec & _) & _ & _ & Hpos).
  cbn [collect]. apply wp_bind. eapply wp_mono; [by apply wp_next| |done].
  intros [it' [[r|e]|]]; simpl.
  - intros (_ & Hok' & Ht' & Hdat & Hro & Hrl & Hp & Hraw & Hpr & Hfm & Hnf & Hl & Hr).
    apply wp_bind. eapply wp_mono; [apply IH; [done|done|rewrite Hdat, Hp; lia]| |done].
    intros [rs err] (T1 & T2 & T3 & T4 & T5). simpl. pose proof Hok' as (_&_&_&Hpos').
    rewrite Hdat in *. rewrite Hl, Hr, Hnf in *. rewrite zlen_cons.
    rewrite Hp in *. split_and!; try done; try lia; [by constructor|].
    intros He. rewrite (T5 He), Hraw at 1. symmetry. apply sub_split; lia.
  - intros _. split_and!; try done; rewrite ?zlen_nil; lia.
  - intros [_ Hend]. split_and!; try done; [rewrite ?zlen_nil; lia|].
    intros _. by rewrite (Hend Ht), sub_empty.
Qed.

Lemma capture_iter_new_ok dat l m it :
  bytes_ok dat → zlen dat ≤ i64_max → limits_typed l → capture_iter_new dat l m = Ok it →
  iter_ok it ∧ terminal it = false ∧ ci_data it = dat ∧ position it = 0 ∧
  next_frame (decoder it) = 1 ∧ records (decoder it) = 0 ∧ limits (decoder it) = l.
Proof.
  intros Hb Hl Ht. unfold capture_iter_new. destruct (_ <? _); [done|].
  intros (d & Hd & [= <-])%bind_ok. simpl.
  pose proof (decoder_new_ok l m d Ht Hd) as Hok.
  unfold decoder_new in Hd. apply bind_ok in Hd as (u & _ & [= <-]). simpl in *.
  pose proof (zlen_nonneg dat). unfold iter_ok; simpl. split_and!; try done; try lia.
Qed.

(** The bytes of a packet inside the capture file. *)
Lemma record_packet_bytes dat r p :
  raw r = sub dat (r_offset r) (r_offset r + zlen (raw r)) →
  0 ≤ r_offset r → r_offset r + zlen (raw r) ≤ zlen dat → zlen dat ≤ i64_max →
  packet_range r → kind r = KPacket p →
  record_packet r =
    Ok (Some (p, sub dat (r_offset r + data_offset p)
                         (r_offset r + data_offset p + captured_len p))).
Proof.
  intros Hraw Ho Hle Hl Hpr Hk. unfold record_packet, packet_range in *. rewrite Hk in *.
  destruct Hpr as (H1 & H2 & H3 & _).
  rewrite add_ovf_ok, bind_Ok by lia. rewrite slice_ok, bind_Ok by lia.
  do 3 f_equal. rewrite Hraw at 1. rewrite sub_sub by lia. f_equal; lia.
Qed.

Lemma capture_iter_lossless_spec (dat : list Z) (l : Limits) (m : ParseMode) (it : CaptureIter) :
  bytes_ok dat → zlen dat ≤ i64_max → limits_typed l →
  capture_iter_new dat l m = Ok it →
  ∃ rs err, collect (S (S (length dat))) it = Ok (rs, err) ∧
    tiles dat 0 rs ∧ numbered 1 rs ∧ Forall packet_range rs ∧
    zlen rs ≤ max_records l ∧
    (err = None → concat (raw <$> rs) = dat).
Proof.
  intros Hb Hl Ht Hnew.
  destruct (capture_iter_new_ok dat l m it Hb Hl Ht Hnew) as (Hok & Hterm & Hd & Hp & Hn & Hr & Hlim).
  pose proof (wp_collect it (S (S (length dat))) Hok Hterm) as Hw.
  rewrite Hd, Hp, Hn, Hr, Hlim in Hw. specialize (Hw ltac:(unfold zlen; lia)).
  destruct (collect _ _) as [[rs err]|e| |]; [|done..].
  destruct Hw as (H1 & H2 & H3 & H4 & H5). exists rs, err. split_and!; try done; [lia|].
  intros He. by rewrite (H5 He), sub_full.
Qed.

(** C17: iterating over a capture terminates without aborting and is lossless.
    The records are consecutive nonempty byte ranges of the file, in order, from
    its first byte; packets carry the frame numbers 1, 2, 3, ... without a gap
    even when other records lie between them; the packet bytes of every record
    lie inside it; the record budget holds; and when iteration ends without an
    error the records together are the whole file. *)
Theorem capture_iter_lossless (dat : list Z) (l : Limits) (m : ParseMode) (it : CaptureIter) :
  bytes_ok dat → zlen dat ≤ i64_max → limits_typed l →
  capture_iter_new dat l m = Ok it →
  ∃ rs err, collect (S (S (length dat))) it = Ok (rs, err) ∧
    tiles dat 0 rs ∧ numbered 1 rs ∧ Forall packet_range rs ∧
    zlen rs ≤ max_records l ∧
    (err = None → concat (raw <$> rs) = dat).
Proof. apply capture_iter_lossless_spec. Qed.

(** ** Witnesses *)

(** A classic little-endian capture with one four-byte packet. *)
Definition sample_header : list Z :=
  [0xd4; 0xc3; 0xb2; 0xa1; 2; 0; 4; 0; 0; 0; 0; 0; 0; 0; 0; 0; 255; 255; 0; 0; 1; 0; 0; 0].
Definition sample_capture : list Z :=
  sample_header ++ [7; 0; 0; 0; 42; 0; 0; 0; 4; 0; 0; 0; 4; 0; 0; 0; 0xde; 0xad; 0xbe; 0xef].

Definition sample_decoder : Decoder :=
  {| limits := limits_default; mode := Strict; format := None; endian := Little;
     legacy_header := None; interfaces := []; d_section := 0; sections_seen := 0;
     section_end := None; next_frame := 1; records := 0 |}.

Lemma sample_bytes_ok : bytes_ok sample_capture.
Proof. repeat (constructor; [unfold is_byte; lia|]). constructor. Qed.

Lemma sample_decoder_ok : decoder_ok sample_decoder.
Proof.
  apply (decoder_new_ok limits_default Strict); [apply limits_default_ok|by vm_compute].
Qed.

Lemma decode_total_witness :
  wp (decode sample_decoder sample_capture 0)
     (λ p, match p with
           | (d', NeedMore n) => d' = sample_decoder ∧ zlen sample_capture < n ∧
                                 required sample_decoder sample_capture 0 = Ok n
           | (d', DRecord r) => record_ok sample_decoder d' sample_capture 0 r
           end) (λ _, True).
Proof.
  apply (decode_total sample_decoder sample_capture 0);
    [apply sample_decoder_ok|apply sample_bytes_ok|by vm_compute|lia].
Defined.

Lemma capture_iter_lossless_witness :
  ∃ rs err, collect (S (S (length sample_capture)))
      {| ci_data := sample_capture; position := 0; decoder := sample_decoder;
         terminal := false |} = Ok (rs, err) ∧
    tiles sample_capture 0 rs ∧ numbered 1 rs ∧ Forall packet_range rs ∧
    zlen rs ≤ max_records limits_default ∧
    (err = None → concat (raw <$> rs) = sample_capture).
Proof.
  apply (capture_iter_lossless sample_capture limits_default Strict);
    [apply sample_bytes_ok|by vm_compute|apply limits_default_ok|by vm_compute].
Defined.

(** The sample holds the global header and one packet, and ends cleanly. *)
Example sample_collect :
  (rs ← collect 46 {| ci_data := sample_capture; position := 0; decoder := sample_decoder;
                      terminal := false |};
   Ok (map r_offset rs.1, rs.2)) = Ok ([0; 24], None).
Proof. by vm_compute. Qed.
