(* ===== verification/Reader.v ===== *)
(** * The streaming reader (src/capture.rs, [CaptureReader])

    [CaptureReader] reads from any [std::io::Read] into a buffer that it grows
    to exactly the size the decoder asks for, and decodes from it.  The source
    is a parameter: the class [Read] is the trait, [Source] states the part of
    its documented contract the reader relies on, and the theorem is that for
    every such source the reader returns the records [CaptureIter] returns on
    the same bytes, however the source splits or interrupts its reads. *)

From S2P Require Import Prelude Errors Time Capture CaptureFacts.

(** ** The trait [std::io::Read] *)

Inductive read_result : Type :=
| RInterrupted               (* ErrorKind::Interrupted *)
| RError (e : Error)         (* another I/O error, as the crate's [Error] *)
| RData (bytes : list Z).    (* the bytes read; none at the end of the stream *)

Class Read (R : Type) : Type := {
  read : R → Z → R * read_result;
}.

Record CaptureReader (R : Type) : Type := {
  reader : R;
  cr_decoder : Decoder;
  cr_offset : Z;
  cr_terminal : bool;
  max_input : Z;
}.
Arguments reader {R} _.
Arguments cr_decoder {R} _.
Arguments cr_offset {R} _.
Arguments cr_terminal {R} _.
Arguments max_input {R} _.
Arguments Build_CaptureReader {R} _ _ _ _ _.

Section reader.
Context {R : Type} `{Read R}.

(** [CaptureReader::new]. *)
Definition capture_reader_new (r : R) (l : Limits) (m : ParseMode) : result (CaptureReader R) :=
  d ← decoder_new l m;
  Ok (Build_CaptureReader r d 0 false (max_input_bytes l)).

(** The state of the loop of [read_one]: the source and the buffer.  The
    result is the record or the end of the capture, with the decoder and the
    offset after it.  On an error [next_record] only marks the reader
    terminal, so no more of the state is returned. *)
Definition read_step (cr : CaptureReader R) (st : R * list Z)
  : result (step (R * list Z) (R * Decoder * Z * option CapRecord)) :=
  let '(r, buffer) := st in
  need ← required (cr_decoder cr) buffer (cr_offset cr);
  if need <=? zlen buffer then
    dr ← decode (cr_decoder cr) buffer (cr_offset cr);
    match dr with
    | (d', DRecord rec) =>
        o ← ok_or (checked_add u64_max (cr_offset cr) (zlen (raw rec))) (limit "file_offset");
        Ok (Break (r, d', o, Some rec))
    | (_, NeedMore _) =>
        Err (error_new Invariant (cr_offset cr) "decoder" "required/decode disagreement")
    end
  else
    let old := zlen buffer in
    w ← sub_ovf need old;
    let count := Z.min w 8192 in
    match read r count with
    | (r', RInterrupted) => Ok (Continue (r', buffer))
    | (_, RError e) => Err e
    | (r', RData bytes) =>
        if zlen bytes =? 0 then
          if old =? 0 then
            decoder_finish (cr_decoder cr) (cr_offset cr) ;;
            Ok (Break (r', cr_decoder cr, cr_offset cr, None))
          else Err (error_new Truncated (cr_offset cr) "record"
                      ("EOF after " +:+ pretty old +:+ " bytes; need " +:+ pretty need))
        else
          s ← add_ovf usize_max old (zlen bytes);
          match checked_add u64_max (cr_offset cr) s with
          | Some e => if max_input cr <? e then Err (limit "input_bytes")
                      else Ok (Continue (r', buffer ++ bytes))
          | None => Err (limit "input_bytes")
          end
    end.

(** [CaptureReader::read_one] from an empty buffer, with [fuel] reads. *)
Definition read_one (fuel : nat) (cr : CaptureReader R)
  : result (R * Decoder * Z * option CapRecord) :=
  loop fuel (read_step cr) (reader cr, []).

(** [CaptureReader::next_record] iterated to the end or to the first error,
    which marks the reader terminal. *)
Fixpoint reader_collect (fuel rfuel : nat) (cr : CaptureReader R)
  : result (list CapRecord * option Error) :=
  match fuel with
  | O => OutOfFuel
  | S fuel =>
      if cr_terminal cr then Ok ([], None)
      else
        x ← catch (read_one rfuel cr);
        match x with
        | inr e => Ok ([], Some e)
        | inl (r, d, o, None) => Ok ([], None)
        | inl (r, d, o, Some rec) =>
            rs ← reader_collect fuel rfuel (Build_CaptureReader r d o false (max_input cr));
            Ok (rec :: rs.1, rs.2)
        end
  end.
End reader.

(** ** The contract of the source

    [feeds r bs k]: the source will deliver exactly the bytes [bs], interrupted
    at most [k] more times.  A read of a positive size returns at most that many
    bytes, and none only at the end of the stream. *)
Class Source (R : Type) `{Read R} : Type := {
  feeds : R → list Z → nat → Prop;
  read_ok : ∀ r bs k count, feeds r bs k → 0 < count →
    match read r count with
    | (r', RInterrupted) => ∃ k', k = S k' ∧ feeds r' bs k'
    | (_, RError _) => False
    | (r', RData x) => zlen x ≤ count ∧ (x = [] → bs = []) ∧
                       ∃ rest, bs = x ++ rest ∧ feeds r' rest k
    end;
}.

(** ** Decoding a longer input *)

Lemma error_at_not_ok {A} c base delta fld det (a : A) : error_at c base delta fld det ≠ Ok a.
Proof. unfold error_at, add_ovf. by case_match. Qed.

Lemma block_size_min d (b : list Z) off e is_section n :
  (size ← u32 e b;
   if (size <? 12) || negb (size mod 4 =? 0) || (is_section && (size <? 28))
   then error_at InvalidLength off 4 "block_length"
          "block length must be aligned and meet its minimum"
   else if max_block_bytes (limits d) <? size then Err (limit "block_bytes")
   else Ok size) = Ok n → 12 ≤ n.
Proof.
  intros (sz & _ & Hk)%bind_ok. revert Hk. case_match; [by intros ?%error_at_not_ok|].
  case_match; [done|]. bool_facts. intros; simplify_eq. lia.
Qed.

Section extend.
Context (d : Decoder) (input more : list Z) (off : Z).
Context (Hb : bytes_ok (input ++ more)) (Ho : 0 ≤ off).
Context (Hov : off + zlen (input ++ more) ≤ u64_max).

Lemma sub_more a b : 0 ≤ a → b ≤ zlen input → sub (input ++ more) a b = sub input a b.
Proof. apply sub_app_l. Qed.

Lemma slice_more a b : 0 ≤ a → a ≤ b → b ≤ zlen input →
  slice (E:=Error) (input ++ more) a b = slice input a b.
Proof.
  intros. pose proof (zlen_nonneg more).
  rewrite !slice_ok, sub_more by (rewrite ?zlen_app; lia). done.
Qed.

(** A decision [required] has taken, as the size of a record or as an error,
    stands when more input follows. *)
Definition decided (r : result Z) : Prop :=
  match r with Ok n => n ≤ zlen input | _ => True end.

Lemma required_block_more :
  decided (required_block d input off) →
  required_block d (input ++ more) off = required_block d input off.
Proof using Hov.
  unfold required_block. rewrite zlen_app. pose proof (zlen_nonneg more).
  destruct (Z.ltb_spec (zlen input) 8); [simpl; lia|].
  rewrite (proj2 (Z.ltb_ge (zlen input + zlen more) 8)) by lia.
  rewrite (slice_more 0 4), (slice_ok input 0 4), !bind_Ok by lia. cbv zeta.
  destruct (bytes_eqb _ _); cbn [andb].
  - destruct (Z.ltb_spec (zlen input) 12); [simpl; lia|].
    rewrite (proj2 (Z.ltb_ge (zlen input + zlen more) 12)) by lia. unfold ng_endian. by rewrite !slice_more by lia.
  - by rewrite !slice_more by lia.
Qed.

Lemma required_more :
  decided (required d input off) → required d (input ++ more) off = required d input off.
Proof using Hov.
  unfold required. pose proof (zlen_nonneg more). pose proof Hov as Hov'. rewrite zlen_app in Hov'.
  rewrite zlen_app.
  rewrite (proj2 (checked_add_Some _ off (zlen input) _)) by (split; [done|lia]).
  rewrite (proj2 (checked_add_Some _ off (zlen input + zlen more) _)) by (split; [done|lia]).
  cbn [ok_or]. rewrite !bind_Ok.
  destruct (format d) as [[]|].
  - destruct (Z.ltb_spec (zlen input) 16); [simpl; lia|].
    rewrite (proj2 (Z.ltb_ge (zlen input + zlen more) 16)) by lia. by rewrite !slice_more by lia.
  - apply required_block_more.
  - destruct (Z.ltb_spec (zlen input) 4); [simpl; lia|].
    rewrite (proj2 (Z.ltb_ge (zlen input + zlen more) 4)) by lia.
    rewrite (slice_more 0 4), (slice_ok input 0 4), !bind_Ok by lia.
    destruct (bytes_eqb _ _); [|done]. cbn [negb]. apply required_block_more.
Qed.

Lemma decode_more d' r :
  decode d input off = Ok (d', DRecord r) →
  decode d (input ++ more) off = Ok (d', DRecord r).
Proof using Hov.
  unfold decode. destruct (_ <=? _); [done|]. intros (need & Hreq & Hk)%bind_ok.
  destruct (Z.ltb_spec (zlen input) need) as [|Hn]; [done|].
  rewrite required_more by (by rewrite Hreq). rewrite Hreq, bind_Ok.
  pose proof (zlen_nonneg more). rewrite zlen_app, (proj2 (Z.ltb_ge (zlen input + zlen more) need)) by lia.
  apply bind_ok in Hk as (rw & Hs & Hk). pose proof Hs as (_ & H0 & H0n & Hle)%slice_inv.
  by rewrite slice_more, Hs, bind_Ok by lia.
Qed.

Lemma decode_more_err e :
  decode d input off = Err e → ∃ e', decode d (input ++ more) off = Err e'.
Proof using Hov.
  unfold decode. destruct (_ <=? _); [by eauto|]. intros [Hreq|(need & Hreq & Hk)]%bind_err.
  - rewrite required_more, Hreq by (by rewrite Hreq). by eexists.
  - destruct (Z.ltb_spec (zlen input) need) as [|Hn]; [done|].
    rewrite required_more by (by rewrite Hreq). rewrite Hreq, bind_Ok.
    pose proof (zlen_nonneg more). rewrite zlen_app, (proj2 (Z.ltb_ge (zlen input + zlen more) need)) by lia.
    apply bind_err in Hk as [Hs|(rw & Hs & Hk)].
    { unfold slice in Hs. by case_match. }
    pose proof Hs as (_ & H0 & H0n & Hle)%slice_inv.
    exists e. by rewrite slice_more, Hs, bind_Ok by lia.
Qed.

(** The size the decoder asks for never shrinks below what it asked for while
    the buffer was shorter, so the reader never reads past a record. *)
Lemma required_block_grows n n' :
  required_block d input off = Ok n → zlen (input ++ more) ≤ n →
  required_block d (input ++ more) off = Ok n' → zlen (input ++ more) ≤ n'.
Proof using Hov.
  intros Hn Hle Hn'. destruct (decide (n ≤ zlen input)) as [Hd|Hd].
  { rewrite required_block_more, Hn in Hn' by (by rewrite Hn). naive_solver. }
  revert Hn Hn'. unfold required_block. rewrite zlen_app in *. pose proof (zlen_nonneg more).
  destruct (Z.ltb_spec (zlen input) 8).
  { intros [= <-]. case_match; [intros; simplify_eq; lia|].
    intros (m & _ & Hk)%bind_ok. revert Hk. case_match; [intros; simplify_eq; lia|].
    intros (e & _ & (b & _ & ?%block_size_min)%bind_ok)%bind_ok. lia. }
  rewrite (proj2 (Z.ltb_ge (zlen input + zlen more) 8)) by lia.
  rewrite (slice_more 0 4), (slice_ok input 0 4), !bind_Ok by lia.
  destruct (bytes_eqb _ _); cbn [andb].
  - destruct (Z.ltb_spec (zlen input) 12).
    { intros [= <-]. case_match; [intros; simplify_eq; lia|].
      intros (e & _ & (b & _ & ?%(block_size_min d b off e true))%bind_ok)%bind_ok. lia. }
    rewrite (proj2 (Z.ltb_ge (zlen input + zlen more) 12)) by lia. unfold ng_endian.
    rewrite !slice_more by lia. intros Hn. rewrite Hn. intros; simplify_eq. lia.
  - rewrite !slice_more by lia. intros Hn. rewrite Hn. intros; simplify_eq. lia.
Qed.

Lemma required_grows n n' :
  required d input off = Ok n → zlen (input ++ more) ≤ n →
  required d (input ++ more) off = Ok n' → zlen (input ++ more) ≤ n'.
Proof using Hov Hb.
  intros Hn Hle Hn'. destruct (decide (n ≤ zlen input)) as [Hd|Hd].
  { rewrite required_more, Hn in Hn' by (by rewrite Hn). naive_solver. }
  revert Hn Hn'. unfold required. pose proof (zlen_nonneg more).
  intros (u & _ & Hn)%bind_ok (u' & _ & Hn')%bind_ok. revert Hn Hn'.
  destruct (format d) as [[]|].
  - rewrite zlen_app in *. destruct (Z.ltb_spec (zlen input) 16).
    + intros [= <-]. case_match; [intros; simplify_eq; lia|].
      intros (b & (-> & _ & _ & ?)%slice_inv & (sz & Hsz & Hk)%bind_ok)%bind_ok.
      rewrite u32_ok in Hsz by (apply zlen_sub; lia). simplify_eq.
      pose proof (uint_bound (endian d) _ (bytes_ok_sub _ 8 12 Hb)). revert Hk.
      case_match; [done|]. unfold ok_or. case_match; [|done]. intros [= <-].
      match goal with H : checked_add _ _ _ = _ |- _ => apply checked_add_Some in H end. lia.
    + rewrite (proj2 (Z.ltb_ge (zlen input + zlen more) 16)) by lia.
      rewrite !slice_more by lia. intros Hn. rewrite Hn. intros; simplify_eq. lia.
  - intros Hn. by apply (required_block_grows n).
  - destruct (Z.ltb_spec (zlen input) 4).
    + intros [= <-]. rewrite zlen_app in *. case_match; [intros; simplify_eq; lia|].
      intros (m & _ & Hk)%bind_ok. revert Hk. repeat case_match; try done; [intros; simplify_eq; lia|].
      unfold required_block. rewrite zlen_app, (proj2 (Z.ltb_lt (zlen input + zlen more) 8)) by lia.
      intros; simplify_eq; lia.
    + rewrite (proj2 (Z.ltb_ge (zlen (input ++ more)) 4)) by (rewrite zlen_app; lia).
      rewrite (slice_more 0 4), (slice_ok input 0 4), !bind_Ok by lia.
      case_match; [intros Hn; rewrite Hn; intros; simplify_eq; lia|].
      intros Hn. by apply (required_block_grows n).
Qed.
End extend.

(** ** The reader and the slice iterator agree *)

Section agree.
Context {R : Type} `{Source R}.

(** The capture ends at [rest]: not with a record. *)
Definition no_record (d : Decoder) (rest : list Z) (off : Z) (e : Error) : Prop :=
  match rest with
  | [] => decoder_finish d off = Err e
  | _ => ∀ d' rec, decode d rest off ≠ Ok (d', DRecord rec)
  end.

Definition read_post (d : Decoder) (rest : list Z) (off : Z) (k : nat)
    (x : R * Decoder * Z * option CapRecord) : Prop :=
  match x with
  | (r, d', o, Some rec) =>
      decode d rest off = Ok (d', DRecord rec) ∧ o = off + zlen (raw rec) ∧
      ∃ k', (k' ≤ k)%nat ∧ feeds r (sub rest (zlen (raw rec)) (zlen rest)) k'
  | (_, _, _, None) => rest = [] ∧ decoder_finish d off = Ok ()
  end.

(** What the loop of [read_one] maintains: the buffer is the beginning of what
    the source had left and is not longer than the record asked for. *)
Definition read_inv (d : Decoder) (rest : list Z) (off : Z) (k : nat)
    (more : list Z) (k' : nat) (st : R * list Z) : Prop :=
  rest = st.2 ++ more ∧ (k' ≤ k)%nat ∧ feeds st.1 more k' ∧
  ∀ n, required d st.2 off = Ok n → zlen st.2 ≤ n.

Context (d : Decoder) (off : Z) (mx : Z) (k : nat).
Context (Hd : decoder_ok d) (Hoff : 0 ≤ off) (Hmx : mx ≤ i64_max).

Lemma required_empty : off ≤ i64_max → ∃ n, required d [] off = Ok n.
Proof using Hoff.
  intros Hl. unfold required. change (zlen (@nil Z)) with 0.
  rewrite (proj2 (checked_add_Some _ off 0 _)) by (split; [done|lia]).
  cbn [ok_or]. rewrite bind_Ok. destruct (format d) as [[]|]; by eexists.
Qed.

Lemma no_record_required buffer more e :
  off + zlen (buffer ++ more) ≤ mx → required d buffer off = Err e →
  no_record d (buffer ++ more) off e.
Proof using Hoff Hmx.
  intros Hov Hreq. destruct (buffer ++ more) as [|x l] eqn:Happ.
  { apply app_nil in Happ as [-> ->]. destruct required_empty as [n Hn]; [|congruence].
    unfold zlen in Hov; simpl in Hov. lia. }
  simpl. intros d' rec. rewrite <- Happ in *. unfold decode. case_match; [done|].
  by rewrite required_more, Hreq by (lia || by rewrite Hreq).
Qed.

Lemma no_record_truncated rest n e :
  rest ≠ [] → required d rest off = Ok n → zlen rest < n → no_record d rest off e.
Proof.
  intros Hne Hreq Hn. destruct rest as [|x l]; [done|]. simpl. intros d' rec.
  unfold decode. case_match; [done|]. rewrite Hreq, bind_Ok.
  by rewrite (proj2 (Z.ltb_lt (zlen (x :: l)) n)) by done.
Qed.

Lemma decode_raw_len input d' rec n :
  decode d input off = Ok (d', DRecord rec) → required d input off = Ok n → zlen (raw rec) = n.
Proof.
  unfold decode. case_match; [done|]. intros Hde Hn. rewrite Hn, bind_Ok in Hde.
  destruct (Z.ltb_spec (zlen input) n); [done|].
  apply bind_ok in Hde as (rw & (-> & ? & ? & ?)%slice_inv & Hk).
  apply bind_ok in Hk as ([[[[? ?] ?] ?] ?] & _ & Hk).
  apply bind_ok in Hk as (? & _ & [= <- <-]). simpl. rewrite zlen_sub by lia. lia.
Qed.

Lemma safe_finish : safe (decoder_finish d off).
Proof. unfold decoder_finish. by repeat case_match. Qed.

Definition step_post (rest more : list Z) (k' : nat)
    (x : step (R * list Z) (R * Decoder * Z * option CapRecord)) : Prop :=
  match x with
  | Continue st' => ∃ more' k'', read_inv d rest off k more' k'' st' ∧
      zlen more' + Z.of_nat k'' < zlen more + Z.of_nat k'
  | Break a => read_post d rest off k a
  end.

Context (cr : CaptureReader R).
Context (Hcd : cr_decoder cr = d) (Hco : cr_offset cr = off) (Hcm : max_input cr = mx).

(** The buffer holds the record: it is decoded. *)
Lemma wp_read_decode r buffer more k' :
  bytes_ok (buffer ++ more) → off + zlen (buffer ++ more) ≤ mx →
  (k' ≤ k)%nat → feeds r more k' → required d buffer off = Ok (zlen buffer) → 4 ≤ zlen buffer →
  wp (read_step cr (r, buffer)) (step_post (buffer ++ more) more k')
     (no_record d (buffer ++ more) off).
Proof using Hd Hoff Hmx Hcd Hco.
  intros [Hbb Hbm]%bytes_ok_app Hov Hk Hf Hn H4. unfold read_step. rewrite Hcd, Hco, Hn, bind_Ok.
  pose proof Hov as Hov'. rewrite zlen_app in Hov'. pose proof (zlen_nonneg more).
  rewrite (proj2 (Z.leb_le (zlen buffer) (zlen buffer))) by lia.
  pose proof (wp_decode d buffer off Hd Hbb ltac:(lia) Hoff) as Hdec.
  destruct (decode d buffer off) as [[d' [m|rec]]|e| |] eqn:Hde; try done; simpl in Hdec.
  - rewrite Hn in Hdec. destruct Hdec as (_ & ? & [= <-]). lia.
  - rewrite bind_Ok, (decode_raw_len _ _ _ _ Hde Hn).
    rewrite (proj2 (checked_add_Some _ off (zlen buffer) _)) by (split; [done|lia]). simpl.
    rewrite (decode_raw_len _ _ _ _ Hde Hn).
    split_and!; [by apply decode_more; [lia|]|done|]. exists k'. split; [done|].
    rewrite zlen_app, sub_app_r by lia.
    replace (zlen buffer - zlen buffer) with 0 by lia.
    replace (zlen buffer + zlen more - zlen buffer) with (zlen more) by lia.
    by rewrite sub_full.
  - simpl. destruct (decode_more_err d buffer more off ltac:(lia) e Hde) as [e' He].
    destruct (buffer ++ more) as [|x l] eqn:Happ; simpl; [|by rewrite He].
    apply app_nil in Happ as [-> ->]. rewrite zlen_nil in H4. lia.
Qed.

(** The buffer is short: the source is read. *)
Lemma wp_read_more r buffer more k' n :
  bytes_ok (buffer ++ more) → off + zlen (buffer ++ more) ≤ mx →
  read_inv d (buffer ++ more) off k more k' (r, buffer) →
  required d buffer off = Ok n → zlen buffer < n →
  wp (read_step cr (r, buffer)) (step_post (buffer ++ more) more k')
     (no_record d (buffer ++ more) off).
Proof using Hoff Hmx Hcd Hco Hcm.
  intros Hb Hov (_ & Hk & Hf & Hexact) Hn Hlt. simpl in *. unfold read_step.
  rewrite Hcd, Hco, Hcm, Hn, bind_Ok, (proj2 (Z.leb_gt n (zlen buffer))) by lia.
  apply wp_bind, wp_sub_ovf; [lia|]. cbv zeta.
  pose proof (read_ok r more k' (Z.min (n - zlen buffer) 8192) Hf ltac:(lia)) as Hrd.
  destruct (read r _) as [r' [|e|bytes]]; [|done|].
  { destruct Hrd as (k'' & -> & Hf'). simpl. exists more, k''. split; [|lia].
    split_and!; simpl; try done; try lia. }
  destruct Hrd as (Hlen & Hnil & rest' & -> & Hf').
  pose proof (zlen_nonneg rest'). pose proof (zlen_nonneg bytes). pose proof (zlen_nonneg buffer).
  destruct (Z.eqb_spec (zlen bytes) 0) as [Hz|Hz].
  - pose proof (zlen_0_nil _ Hz) as ->. specialize (Hnil eq_refl).
    simpl in Hnil. subst rest'. rewrite !app_nil_r in *.
    destruct (Z.eqb_spec (zlen buffer) 0) as [Hz'|Hz'].
    + pose proof (zlen_0_nil _ Hz') as ->. pose proof safe_finish.
      destruct (decoder_finish d off) as [[]|e| |] eqn:Hfin; done.
    + simpl. apply (no_record_truncated buffer n); [|done|lia]. by intros ->.
  - rewrite !zlen_app in Hov. apply wp_bind, wp_add_ovf; [lia|].
    rewrite (proj2 (checked_add_Some _ off (zlen buffer + zlen bytes) _)) by (split; [done|lia]).
    rewrite (proj2 (Z.ltb_ge mx _)) by lia. simpl.
    exists rest', k'. rewrite zlen_app. split; [|lia].
    split_and!; simpl; [by rewrite app_assoc|done|done|].
    intros n' Hn'. apply (required_grows d buffer bytes off) with n; rewrite ?zlen_app; try done; try lia.
    rewrite app_assoc in Hb. by apply bytes_ok_app in Hb as [? _].
Qed.

Lemma wp_read_step more k' st rest :
  bytes_ok rest → off + zlen rest ≤ mx → read_inv d rest off k more k' st →
  wp (read_step cr st) (step_post rest more k') (no_record d rest off).
Proof using Hd Hoff Hmx Hcd Hco Hcm.
  destruct st as [r buffer]. intros Hb Hov Hinv. pose proof Hinv as (-> & Hk & Hf & Hexact).
  simpl in *. pose proof Hov as Hov'. rewrite zlen_app in Hov'. pose proof (zlen_nonneg more).
  pose proof Hb as [Hbb Hbm]%bytes_ok_app.
  pose proof (wp_required d buffer off (λ n, 4 ≤ n) Hbb ltac:(lia) Hoff (proj1 Hd) ltac:(done)) as Hreq.
  destruct (required d buffer off) as [n|e| |] eqn:Hn; try done; simpl in Hreq.
  - specialize (Hexact n eq_refl). destruct (decide (zlen buffer < n)).
    + by apply (wp_read_more r buffer more k' n).
    + apply wp_read_decode; try done; [|lia]. rewrite Hn. f_equal. lia.
  - unfold read_step. rewrite Hcd, Hco, Hn. simpl. by apply no_record_required.
Qed.

Lemma wp_read_loop rest fuel more k' st :
  bytes_ok rest → off + zlen rest ≤ mx → read_inv d rest off k more k' st →
  zlen more + Z.of_nat k' < Z.of_nat fuel →
  wp (loop fuel (read_step cr) st) (read_post d rest off k) (no_record d rest off).
Proof using Hd Hoff Hmx Hcd Hco Hcm.
  intros Hb Hov. revert more k' st. induction fuel as [|fuel IH]; intros more k' st Hinv Hf.
  { pose proof (zlen_nonneg more). lia. }
  rewrite loop_S. apply wp_bind. eapply wp_mono; [by eapply wp_read_step| |done].
  intros [st'|a]; [|done]. intros (more' & k'' & Hinv' & Hm). apply (IH more' k''); [done|lia].
Qed.
End agree.

Section streaming.
Context {R : Type} `{Source R}.

(** The reader at the position of an iterator. *)
Definition reader_at (it : CaptureIter) (r : R) : CaptureReader R :=
  Build_CaptureReader r (decoder it) (position it) false (max_input_bytes (limits (decoder it))).

Definition remaining (it : CaptureIter) : list Z :=
  sub (ci_data it) (position it) (zlen (ci_data it)).

Definition reader_fits (it : CaptureIter) (k rfuel : nat) : Prop :=
  iter_ok it ∧ terminal it = false ∧
  zlen (ci_data it) ≤ max_input_bytes (limits (decoder it)) ≤ i64_max ∧
  zlen (ci_data it) + Z.of_nat k < Z.of_nat rfuel.

Lemma wp_read_one it r k rfuel :
  reader_fits it k rfuel → feeds r (remaining it) k →
  wp (read_one rfuel (reader_at it r)) (read_post (decoder it) (remaining it) (position it) k)
     (no_record (decoder it) (remaining it) (position it)).
Proof.
  intros ((Hd & Hb & Hl & Hp) & Ht & Hmx & Hrf) Hf. unfold read_one.
  assert (zlen (remaining it) = zlen (ci_data it) - position it) by (apply zlen_sub; lia).
  apply (wp_read_loop (decoder it) (position it) (max_input_bytes (limits (decoder it))) k)
    with (remaining it) k; try done; try lia; [by apply bytes_ok_sub|].
  split_and!; try done. simpl. intros n Hn.
  pose proof (wp_required (decoder it) [] (position it) (λ n, 4 ≤ n) ltac:(constructor)
    ltac:(done) ltac:(lia) (proj1 Hd) ltac:(done)) as Hw.
  rewrite Hn in Hw. simpl in Hw. change (zlen (@nil Z)) with 0. lia.
Qed.

(** One step of the reader against one step of the iterator. *)
Definition step_agrees (it : CaptureIter) (k : nat)
    (n : result (CaptureIter * option (CapRecord + Error)))
    (x : result (R * Decoder * Z * option CapRecord)) : Prop :=
  match n, x with
  | Ok (it', Some (inl rec)), Ok (r', d', o, Some rec') =>
      rec' = rec ∧ d' = decoder it' ∧ o = position it' ∧
      ∃ k', (k' ≤ k)%nat ∧ feeds r' (sub (ci_data it) (position it') (zlen (ci_data it))) k'
  | Ok (_, Some (inr _)), Err _ => True
  | Ok (_, None), Ok (_, _, _, None) => True
  | _, _ => False
  end.

Lemma step_agree it r k rfuel :
  reader_fits it k rfuel → feeds r (remaining it) k →
  step_agrees it k (next it) (read_one rfuel (reader_at it r)).
Proof.
  intros Hfit Hf. pose proof (wp_read_one it r k rfuel Hfit Hf) as Hro.
  destruct Hfit as (Hit & Ht & Hmx & Hrf). pose proof (wp_next it Hit) as Hnx.
  destruct Hit as (Hd & Hb & Hl & Hp).
  assert (zlen (remaining it) = zlen (ci_data it) - position it) as Hrl by (apply zlen_sub; lia).
  destruct (read_one rfuel (reader_at it r)) as [[[[r' d'] o] [rec|]]|e| |]; try done; simpl in Hro.
  - destruct Hro as (Hdec & -> & k' & Hk' & Hf').
    pose proof (wp_decode (decoder it) (remaining it) (position it) Hd (bytes_ok_sub _ _ _ Hb)
      ltac:(lia) ltac:(lia)) as Hw. rewrite Hdec in Hw. destruct Hw as (_ & _ & _ & _ & _ & Hr & _).
    unfold next in *. rewrite Ht, (proj2 (Z.eqb_neq _ _)) in * by lia.
    unfold slice_from in *. rewrite slice_ok, bind_Ok in * by lia. fold (remaining it) in *.
    rewrite Hdec in *. simpl in *. rewrite add_ovf_ok in * by lia. simpl.
    split_and!; try done. exists k'. split; [done|]. rewrite Hrl in Hf'.
    unfold remaining in Hf'. rewrite sub_sub in Hf' by lia.
    by replace (position it + (zlen (ci_data it) - position it)) with (zlen (ci_data it)) in Hf' by lia.
  - destruct Hro as [Hnil Hfin]. rewrite Hnil, zlen_nil in Hrl.
    unfold next. rewrite Ht, (proj2 (Z.eqb_eq _ _)) by lia. by rewrite Hfin.
  - unfold next in *. rewrite Ht in *.
    destruct (Z.eqb_spec (position it) (zlen (ci_data it))).
    { rewrite (zlen_0_nil (remaining it)) in Hro by lia. simpl in Hro. by rewrite Hro. }
    unfold slice_from in *. rewrite slice_ok, bind_Ok in * by lia. fold (remaining it) in *.
    destruct (decode (decoder it) (remaining it) (position it)) as [[d1 [n1|rec1]]|e1| |] eqn:Hdec;
      try done.
    destruct (remaining it); [rewrite zlen_nil in Hrl; lia|]. by destruct (Hro d1 rec1).
Qed.

Lemma reader_collect_sim fuel rfuel it r k :
  reader_fits it k rfuel → feeds r (remaining it) k →
  zlen (ci_data it) - position it + 1 < Z.of_nat fuel →
  ∃ rs e1 e2, collect fuel it = Ok (rs, e1) ∧
    reader_collect fuel rfuel (reader_at it r) = Ok (rs, e2) ∧ (e1 = None ↔ e2 = None).
Proof.
  revert it r k. induction fuel as [|fuel IH]; intros it r k Hfit Hf Hfu.
  { destruct Hfit as ((_ & _ & _ & ?) & _). lia. }
  pose proof (step_agree it r k rfuel Hfit Hf) as Hst.
  destruct Hfit as (Hit & Ht & Hmx & Hrf). pose proof (wp_next it Hit) as Hnx. simpl.
  destruct (next it) as [[it' [[rec|e]|]]| | |]; simpl in Hst; try done; simpl in Hnx;
    destruct (read_one rfuel (reader_at it r)) as [[[[r' d'] o] [rec'|]]|e'| |]; try done; simpl.
  - destruct Hst as (-> & -> & -> & k' & Hk' & Hf').
    destruct Hnx as (_ & Hit' & Ht' & Hdat & _ & Hpos & Hpos' & _ & _ & _ & _ & Hlim & _).
    destruct (IH it' r' k') as (rs & e1 & e2 & H1 & H2 & H3).
    + unfold reader_fits. rewrite Hdat, Hlim. split_and!; try done; lia.
    + unfold remaining. by rewrite Hdat.
    + rewrite Hdat. lia.
    + unfold reader_at in H2. rewrite Hlim in H2. rewrite H1, H2. simpl. by eexists _, _, _.
  - by exists [], (Some e), (Some e').
  - by exists [], None, None.
Qed.
End streaming.

(** C24: Streaming is transparent.  For every source that honours the contract
    of [std::io::Read] (short reads of any size and [k] interruptions allowed)
    and delivers the bytes [dat], which fit the input limit, [CaptureReader]
    terminates and returns exactly the records [CaptureIter] returns on the
    whole of [dat]; it ends without an error exactly when the iterator does. *)
Theorem reader_agrees_with_iter {R} `{Source R} (r : R) (dat : list Z) (k : nat)
    (l : Limits) (m : ParseMode) (it : CaptureIter) (cr : CaptureReader R) :
  limits_typed l → bytes_ok dat → max_input_bytes l ≤ i64_max → feeds r dat k →
  capture_iter_new dat l m = Ok it → capture_reader_new r l m = Ok cr →
  ∃ rs e1 e2,
    collect (S (S (length dat))) it = Ok (rs, e1) ∧
    reader_collect (S (S (length dat))) (S (length dat + k)) cr = Ok (rs, e2) ∧
    (e1 = None ↔ e2 = None).
Proof.
  intros Hty Hb Hmx Hf Hit Hcr.
  assert (zlen dat ≤ max_input_bytes l) as Hl.
  { revert Hit. unfold capture_iter_new. destruct (Z.ltb_spec (max_input_bytes l) (zlen dat)); [done|lia]. }
  pose proof (capture_iter_new_ok dat l m it) as Hnew.
  destruct Hnew as (Hok & Ht & Hdat & Hpos & _ & _ & Hlim); try done; try lia.
  assert (cr = reader_at it r) as ->.
  { revert Hit Hcr. unfold capture_iter_new, capture_reader_new. case_match; [done|].
    intros (d & Hd & [= <-])%bind_ok. rewrite Hd, bind_Ok. intros [= <-].
    unfold reader_at; simpl in *. by rewrite Hlim. }
  apply reader_collect_sim with k.
  - unfold reader_fits. rewrite Hdat, Hlim. unfold zlen in *. split_and!; try done; lia.
  - unfold remaining. by rewrite Hdat, Hpos, sub_full.
  - rewrite Hdat, Hpos. unfold zlen. lia.
Qed.

(** A source that is interrupted a number of times and then delivers at most
    three bytes per read. *)
#[export] Instance slow_read : Read (list Z * nat) := {
  read r count :=
    match r with
    | (bs, S k) => ((bs, k), RInterrupted)
    | (bs, O) => let n := Z.to_nat (Z.min count 3) in ((drop n bs, O), RData (take n bs))
    end;
}.

#[export] Instance slow_source : Source (list Z * nat).
Proof.
  refine {| feeds r bs k := r = (bs, k) |}. intros r bs k count -> Hc. simpl.
  destruct k as [|k]; [|by eexists].
  split_and!; [unfold zlen; rewrite length_take; lia| |].
  - intros Hn. destruct bs; [done|]. destruct (Z.to_nat (Z.min count 3)) eqn:He; [lia|done].
  - eexists. split; [by rewrite take_drop|done].
Defined.

Lemma reader_agrees_witness :
  ∃ rs e1 e2,
    collect (S (S (length sample_capture)))
      {| ci_data := sample_capture; position := 0; decoder := sample_decoder;
         terminal := false |} = Ok (rs, e1) ∧
    reader_collect (S (S (length sample_capture))) (S (length sample_capture + 5))
      (Build_CaptureReader (sample_capture, 5%nat) sample_decoder 0 false
         (max_input_bytes limits_default)) = Ok (rs, e2) ∧
    (e1 = None ↔ e2 = None).
Proof.
  apply (reader_agrees_with_iter (sample_capture, 5%nat) sample_capture 5 limits_default Strict);
    [apply limits_default_ok|apply sample_bytes_ok|by vm_compute|done|by vm_compute|by vm_compute].
Defined.
