(* ===== verification/Wire.v ===== *)
(** * Link, network and transport decoding (src/wire.rs)

    From the bytes of one captured packet to an IP datagram ([decode_packet])
    and from a reassembled datagram to a TCP segment or a UDP datagram
    ([decode_transport]).  Every index and every sum of the source is an
    operation that can abort; the theorems of [WireFacts] exclude it. *)

From S2P Require Import Errors Ord Checksum Provenance Prelude.

Record Scope : Type := {
  section : Z;
  interface : Z;
  link_interface : option Z;
  vlans : list Z;
}.

Inductive IpAddr : Type :=
| V4 (octets : list Z)
| V6 (octets : list Z).

Record Endpoint : Type := {
  address : IpAddr;
  port : Z;
}.

Inductive Checksum : Type := Valid | Invalid | NotPresent | NotChecked.
Inductive ChecksumPolicy : Type := Observe | RequireValid.
Inductive ChecksumContext : Type := BaseAddresses | Unsupported.

#[global] Instance IpAddr_eq_dec : EqDecision IpAddr.
Proof. solve_decision. Defined.
#[global] Instance Scope_eq_dec : EqDecision Scope.
Proof. solve_decision. Defined.
#[global] Instance Endpoint_eq_dec : EqDecision Endpoint.
Proof. solve_decision. Defined.
#[global] Instance Checksum_eq_dec : EqDecision Checksum.
Proof. solve_decision. Defined.
#[global] Instance ChecksumPolicy_eq_dec : EqDecision ChecksumPolicy.
Proof. solve_decision. Defined.
#[global] Instance ChecksumContext_eq_dec : EqDecision ChecksumContext.
Proof. solve_decision. Defined.

(** The derived orders: fields in order, [V4] before [V6]. *)
Definition scope_key (s : Scope) : Z * (Z * (option Z * list Z)) :=
  (section s, (interface s, (link_interface s, vlans s))).
#[global] Instance Scope_ord : Ord Scope.
Proof. apply (proj_ord scope_key). by intros [] [] [=->->->->]. Defined.
Definition ip_key (a : IpAddr) : bool * list Z :=
  match a with V4 o => (false, o) | V6 o => (true, o) end.
#[global] Instance IpAddr_ord : Ord IpAddr.
Proof. apply (proj_ord ip_key). by intros [] [] [=->]. Defined.
Definition endpoint_key (e : Endpoint) : IpAddr * Z := (address e, port e).
#[global] Instance Endpoint_ord : Ord Endpoint.
Proof. apply (proj_ord endpoint_key). by intros [] [] [=->->]. Defined.

Record FragmentInfo : Type := {
  fi_id : Z;
  fi_offset : Z;
  more : bool;
}.

Record Datagram : Type := {
  scope : Scope;
  source : IpAddr;
  destination : IpAddr;
  protocol : Z;
  is_ipv6 : bool;
  network_header_len : Z;
  fragment : option FragmentInfo;
  payload : EvidenceBytes;
  ip_checksum : Checksum;
  checksum_context : ChecksumContext;
}.

Record TcpSegment : Type := {
  tcp_source : Endpoint;
  tcp_destination : Endpoint;
  sequence : Z;
  acknowledgement : Z;
  flags : Z;
  tcp_checksum : Checksum;
  tcp_payload : EvidenceBytes;
}.

(** [TcpSegment::syn], [ack], [fin], [rst], [data_sequence]. *)
Definition syn (s : TcpSegment) : bool := negb (Z.land (flags s) 0x02 =? 0).
Definition ack (s : TcpSegment) : bool := negb (Z.land (flags s) 0x10 =? 0).
Definition fin (s : TcpSegment) : bool := negb (Z.land (flags s) 0x01 =? 0).
Definition rst (s : TcpSegment) : bool := negb (Z.land (flags s) 0x04 =? 0).
Definition data_sequence (s : TcpSegment) : Z := wrapping_add 32 (sequence s) (Z.b2z (syn s)).

Record UdpDatagram : Type := {
  udp_source : Endpoint;
  udp_destination : Endpoint;
  udp_checksum : Checksum;
  udp_payload : EvidenceBytes;
}.

Inductive Transport : Type :=
| Tcp (t : TcpSegment)
| Udp (u : UdpDatagram).

(** [be16], [be32]. *)
Definition be16 (b : list Z) : result Z :=
  b0 ← idx b 0; b1 ← idx b 1; Ok (from_be_bytes [b0; b1]).
Definition be32 (b : list Z) : result Z :=
  b0 ← idx b 0; b1 ← idx b 1; b2 ← idx b 2; b3 ← idx b 3; Ok (from_be_bytes [b0; b1; b2; b3]).

Definition bad (fld det : string) : Error := error_new MalformedPacket 0 fld det.

(** [usize] and [u64] sums of the source. *)
Definition add (a b : Z) : result Z := add_ovf u64_max a b.

(** The [{:04x}] rendering of a [u16]. *)
Definition hex_digit (n : Z) : string :=
  match String.get (Z.to_nat (n mod 16)) "0123456789abcdef" with
  | Some c => String c EmptyString
  | None => EmptyString
  end.
Definition hex04 (n : Z) : string :=
  hex_digit (n / 4096) +:+ hex_digit (n / 256) +:+ hex_digit (n / 16) +:+ hex_digit n.

Definition with_link_interface (s : Scope) (i : Z) : Scope :=
  {| section := section s; interface := interface s; link_interface := Some i;
     vlans := vlans s |}.
Definition push_vlan (s : Scope) (v : Z) : Scope :=
  {| section := section s; interface := interface s; link_interface := link_interface s;
     vlans := vlans s ++ [v] |}.

(** [decode_packet], the link header: where the payload starts, its EtherType
    and the scope. *)
Definition link_header (link_type : Z) (pkt : list Z) (id : PacketId) (sc : Scope)
    : result (Z * Z * Scope) :=
  if link_type =? 1 then
    require pkt 14 (record_offset id) "ethernet" ;;
    b ← slice pkt 12 14; t ← be16 b; Ok (14, t, sc)
  else if link_type =? 113 then
    require pkt 16 (record_offset id) "linux_sll" ;;
    b ← slice pkt 14 16; t ← be16 b; Ok (16, t, sc)
  else if link_type =? 276 then
    require pkt 20 (record_offset id) "linux_sll2" ;;
    i ← slice pkt 4 8; i ← be32 i;
    b ← slice pkt 0 2; t ← be16 b; Ok (20, t, with_link_interface sc i)
  else if link_type =? 101 then
    require pkt 1 (record_offset id) "raw_ip" ;;
    b ← idx pkt 0;
    if Z.shiftr b 4 =? 4 then Ok (0, 0x0800, sc)
    else if Z.shiftr b 4 =? 6 then Ok (0, 0x86dd, sc)
    else Err (bad "raw_ip" "unknown version")
  else if link_type =? 228 then Ok (0, 0x0800, sc)
  else if link_type =? 229 then Ok (0, 0x86dd, sc)
  else if (link_type =? 0) || (link_type =? 108) then
    require pkt 4 (record_offset id) "loopback" ;;
    b ← slice pkt 0 4; network ← be32 b;
    b0 ← idx pkt 0; b1 ← idx pkt 1; b2 ← idx pkt 2; b3 ← idx pkt 3;
    let host := from_le_bytes [b0; b1; b2; b3] in
    let family := if (link_type =? 108) || existsb (Z.eqb network) [2; 10; 24; 28; 30]
                  then network else host in
    if family =? 2 then Ok (4, 0x0800, sc)
    else if existsb (Z.eqb family) [10; 24; 28; 30] then Ok (4, 0x86dd, sc)
    else Err (bad "loopback" "unsupported address family")
  else Err (error_new UnsupportedLink (record_offset id) "link_type"
              ("LINKTYPE " +:+ pretty link_type +:+ " has no decoder")).

(** [decode_packet], one round of the VLAN loop. *)
Definition vlan_step (pkt : list Z) (id : PacketId) (st : Z * Z * Scope)
    : result (step (Z * Z * Scope) (Z * Z * Scope)) :=
  let '(start, ether_type, sc) := st in
  if (ether_type =? 0x8100) || (ether_type =? 0x88a8) || (ether_type =? 0x9100) then
    if 8 <=? zlen (vlans sc) then Err (limit "vlan_depth")
    else
      s2 ← add start 2; s4 ← add start 4;
      require pkt s4 (record_offset id) "vlan" ;;
      b ← slice pkt start s2; tag ← be16 b;
      b ← slice pkt s2 s4; t ← be16 b;
      Ok (Continue (s4, t, push_vlan sc (Z.land tag 0x0fff)))
  else Ok (Break st).

(** [ipv4_checksum_context], one round over the options. *)
Definition ipv4_option_step (options : list Z) (st : Z * ChecksumContext)
    : result (step (Z * ChecksumContext) ChecksumContext) :=
  let '(p, context) := st in
  if p <? zlen options then
    ty ← idx options p;
    if ty =? 0 then Ok (Break context)
    else if ty =? 1 then p' ← add p 1; Ok (Continue (p', context))
    else
      p2 ← add p 2;
      require options p2 0 "ipv4_option_length" ;;
      p1 ← add p 1; n ← idx options p1;
      if n <? 2
      then Err (bad "ipv4_option_length" "option shorter than type and length")
      else
        pn ← add p n;
        require options pn 0 "ipv4_option_length" ;;
        let context := if (ty =? 131) || (ty =? 137) then Unsupported else context in
        Ok (Continue (pn, context))
  else Ok (Break context).

(** [ipv4_checksum_context]; every round advances. *)
Definition ipv4_checksum_context (options : list Z) : result ChecksumContext :=
  loop (S (length options)) (ipv4_option_step options) (0, BaseAddresses).

(** [ipv6_checksum_context], one round over the options. *)
Definition ipv6_option_step (header : list Z) (st : Z * ChecksumContext)
    : result (step (Z * ChecksumContext) ChecksumContext) :=
  let '(p, context) := st in
  if p <? zlen header then
    ty ← idx header p;
    if ty =? 0 then p' ← add p 1; Ok (Continue (p', context))
    else
      p2 ← add p 2;
      require header p2 0 "ipv6_option_length" ;;
      p1 ← add p 1; n ← idx header p1; n ← add n 2;
      pn ← add p n;
      require header pn 0 "ipv6_option_length" ;;
      let context := if ty =? 0xc9 then Unsupported else context in
      Ok (Continue (pn, context))
  else Ok (Break context).

(** [ipv6_checksum_context]. *)
Definition ipv6_checksum_context (proto : Z) (header : list Z) : result ChecksumContext :=
  if proto =? 43 then Ok Unsupported
  else if negb (proto =? 0) && negb (proto =? 60) then Ok BaseAddresses
  else loop (S (length header)) (ipv6_option_step header) (2, BaseAddresses).

(** [ipv4]. *)
Definition ipv4 (pkt : list Z) (start : Z) (id : PacketId) (sc : Scope) : result Datagram :=
  s20 ← add start 20;
  require pkt s20 (record_offset id) "ipv4" ;;
  b ← slice_from pkt start;
  b0 ← idx b 0;
  if negb (Z.shiftr b0 4 =? 4) then Err (bad "ipv4" "version mismatch")
  else
  let header := Z.land b0 15 * 4 in
  if header <? 20 then Err (bad "ipv4_ihl" "header shorter than 20 bytes")
  else
  o ← add (record_offset id) start;
  require b header o "ipv4_options" ;;
  tb ← slice b 2 4; total ← be16 tb;
  if total <? header then Err (bad "ipv4_total_length" "length smaller than header")
  else
  require b total o "ipv4_payload" ;;
  fb ← slice b 6 8; fl ← be16 fb;
  let off := Z.land fl 0x1fff * 8 in
  let mf := negb (Z.land fl 0x2000 =? 0) in
  if negb (Z.land fl 0x8000 =? 0) then Err (bad "ipv4_flags" "reserved flag set")
  else
  n ← sub_ovf total header;
  if mf && negb (n mod 8 =? 0)
  then Err (bad "ipv4_fragment" "non-final fragment length not a multiple of 8")
  else if (mf || negb (off =? 0)) && (total =? header)
  then Err (bad "ipv4_fragment" "empty fragment")
  else if match checked_add usize_max off n with None => true | Some e => 65535 <? e end
  then Err (bad "ipv4_fragment" "fragment range too large")
  else
  src ← slice b 12 16;
  dst ← slice b 16 20;
  ob ← slice b 20 header; context ← ipv4_checksum_context ob;
  proto ← idx b 9;
  frag ← (if mf || negb (off =? 0)
          then ib ← slice b 4 6; i ← be16 ib;
               Ok (Some {| fi_id := i; fi_offset := off; more := mf |})
          else Ok None);
  pl ← slice b header total;
  ps ← add start header;
  hb ← slice b 0 header;
  ck ← internet_checksum hb;
  Ok {| scope := sc; source := V4 src; destination := V4 dst; protocol := proto;
        is_ipv6 := false; network_header_len := header; fragment := frag;
        payload := from_packet pl id ps;
        ip_checksum := if ck =? 0 then Valid else Invalid;
        checksum_context := context |}.

(** [ipv6], the state of the extension-header loop. *)
Record Ext : Type := {
  next : Z;
  p : Z;
  depth : Z;
  x_fragment : option FragmentInfo;
  x_context : ChecksumContext;
}.

(** [ipv6], the Fragment header: the loop ends at a real fragment. *)
Definition ipv6_fragment (b : list Z) (total o : Z) (x : Ext) (depth' : Z) : result (step Ext Ext) :=
  bt ← slice b 0 total;
  p8 ← add (p x) 8;
  require bt p8 o "ipv6_fragment" ;;
  p1 ← add (p x) 1; p2 ← add (p x) 2; p4 ← add (p x) 4;
  bb ← slice b p2 p4; bits ← be16 bb;
  r ← (if negb (Z.land bits 0x0006 =? 0) then Ok true
       else v ← idx b p1; Ok (negb (v =? 0)));
  if (r : bool) then Err (bad "ipv6_fragment" "reserved bits set")
  else
  let off := Z.land bits 0xfff8 in
  let mf := negb (Z.land bits 1 =? 0) in
  ib ← slice b p4 p8; frag_id ← be32 ib;
  nx ← idx b (p x);
  left ← (if mf then sub_ovf total p8 else Ok 0);
  if mf && negb (left mod 8 =? 0)
  then Err (bad "ipv6_fragment" "non-final fragment length not a multiple of 8")
  else if mf || negb (off =? 0) then
    if total =? p8 then Err (bad "ipv6_fragment" "empty fragment")
    else Ok (Break {| next := nx; p := p8; depth := depth';
                      x_fragment := Some {| fi_id := frag_id; fi_offset := off; more := mf |};
                      x_context := x_context x |})
  else Ok (Continue {| next := nx; p := p8; depth := depth'; x_fragment := x_fragment x;
                       x_context := x_context x |}).

(** The length of an extension header: an authentication header counts 4-byte
    units, the others 8-byte units. *)
Definition extension_len (nx v : Z) : Z := if nx =? 51 then (v + 2) * 4 else (v + 1) * 8.

(** [ipv6], one round of the extension-header loop. *)
Definition ipv6_step (b : list Z) (total o : Z) (x : Ext) : result (step Ext Ext) :=
  if existsb (Z.eqb (next x)) [0; 43; 44; 51; 60] then
    depth' ← add_ovf 2147483647 (depth x) 1;
    if 16 <? depth' then Err (limit "ipv6_extension_depth")
    else
    bt ← slice b 0 total;
    p2 ← add (p x) 2;
    require bt p2 o "ipv6_extension" ;;
    if next x =? 44 then ipv6_fragment b total o x depth'
    else
    p1 ← add (p x) 1; v ← idx b p1;
    let ext := extension_len (next x) v in
    pe ← add (p x) ext;
    require bt pe o "ipv6_extension_length" ;;
    eb ← slice b (p x) pe;
    c ← ipv6_checksum_context (next x) eb;
    let context := match c with Unsupported => Unsupported | BaseAddresses => x_context x end in
    nx ← idx b (p x);
    Ok (Continue {| next := nx; p := pe; depth := depth'; x_fragment := x_fragment x;
                    x_context := context |})
  else Ok (Break x).

(** [ipv6]; the depth limit bounds the loop by 17 rounds. *)
Definition ipv6 (pkt : list Z) (start : Z) (id : PacketId) (sc : Scope) : result Datagram :=
  s40 ← add start 40;
  require pkt s40 (record_offset id) "ipv6" ;;
  b ← slice_from pkt start;
  b0 ← idx b 0;
  if negb (Z.shiftr b0 4 =? 6) then Err (bad "ipv6" "version mismatch")
  else
  nb ← slice b 4 6; n ← be16 nb;
  b6 ← idx b 6;
  if (n =? 0) && (b6 =? 0) && (40 <? zlen b)
  then Err (error_new UnsupportedNetwork (record_offset id) "ipv6_jumbo"
              "jumbogram semantics are not implemented")
  else
  total ← add 40 n;
  o ← add (record_offset id) start;
  require b total o "ipv6_payload" ;;
  s ← slice b 8 24;
  d ← slice b 24 40;
  x ← loop 18 (ipv6_step b total o)
        {| next := b6; p := 40; depth := 0; x_fragment := None; x_context := BaseAddresses |};
  pl ← slice b (p x) total;
  ps ← add start (p x);
  Ok {| scope := sc; source := V6 s; destination := V6 d; protocol := next x;
        is_ipv6 := true; network_header_len := p x; fragment := x_fragment x;
        payload := from_packet pl id ps;
        ip_checksum := NotPresent; checksum_context := x_context x |}.

(** [decode_packet]. *)
Definition decode_packet (link_type : Z) (pkt : list Z) (id : PacketId) (sc : Scope)
    : result Datagram :=
  st ← link_header link_type pkt id sc;
  st ← loop 10 (vlan_step pkt id) st;
  let '(start, ether_type, sc) := st in
  if ether_type =? 0x0800 then ipv4 pkt start id sc
  else if ether_type =? 0x86dd then ipv6 pkt start id sc
  else
    o ← add (record_offset id) start;
    Err (error_new UnsupportedNetwork o "ether_type" ("0x" +:+ hex04 ether_type)).

(** [transport_checksum]: the pseudo-header, then the bytes. *)
Definition transport_checksum (src dst : IpAddr) (proto : Z) (bytes : list Z) : result Checksum :=
  c ← (match src, dst with
       | V4 a, V4 b =>
           if zlen bytes <=? u16_max then
             c ← update new a; c ← update c b; c ← update c [0; proto];
             update c (to_be_bytes 2 (zlen bytes))
           else Err (bad "transport_length" "IPv4 transport exceeds 65535")
       | V6 a, V6 b =>
           if zlen bytes <=? u32_max then
             c ← update new a; c ← update c b; c ← update c (to_be_bytes 4 (zlen bytes));
             update c [0; 0; 0; proto]
           else Err (bad "transport_length" "IPv6 transport too large")
       | _, _ => Err (bad "address_family" "mixed source/destination address families")
       end);
  c ← update c bytes;
  f ← finish c;
  Ok (if f =? 0 then Valid else Invalid).

(** [checked_transport_checksum]. *)
Definition checked_transport_checksum (dg : Datagram) (context : ChecksumContext) (proto : Z)
    (bytes : list Z) : result Checksum :=
  match context with
  | BaseAddresses => transport_checksum (source dg) (destination dg) proto bytes
  | Unsupported => Ok NotChecked
  end.

(** [require_supported_checksum]. *)
Definition require_supported_checksum (c : Checksum) (pol : ChecksumPolicy) : result unit :=
  if bool_decide (pol = RequireValid) && bool_decide (c = NotChecked)
  then Err (error_new UnsupportedNetwork 0 "transport_checksum_operands"
              "network options require unsupported pseudo-header operands")
  else Ok ().

(** [decode_transport], one round of the post-fragment extension loop. *)
Definition post_fragment_step (dg : Datagram) (all : list Z) (st : Z * Z * Z * ChecksumContext)
    : result (step (Z * Z * Z * ChecksumContext) (Z * Z * ChecksumContext)) :=
  let '(proto, prefix, depth, context) := st in
  if is_ipv6 dg && existsb (Z.eqb proto) [0; 43; 51; 60] then
    depth' ← add_ovf 2147483647 depth 1;
    if 16 <? depth' then Err (limit "ipv6_extension_depth")
    else
    p2 ← add prefix 2;
    require all p2 0 "ipv6_post_fragment_extension" ;;
    p1 ← add prefix 1; v ← idx all p1;
    let n := extension_len proto v in
    pn ← add prefix n;
    require all pn 0 "ipv6_post_fragment_extension" ;;
    eb ← slice all prefix pn;
    c ← ipv6_checksum_context proto eb;
    let context := match c with Unsupported => Unsupported | BaseAddresses => context end in
    nx ← idx all prefix;
    Ok (Continue (nx, pn, depth', context))
  else Ok (Break (proto, prefix, context)).

(** [decode_transport], the TCP arm. *)
Definition decode_tcp (dg : Datagram) (pol : ChecksumPolicy) (prefix : Z)
    (context : ChecksumContext) (d : list Z) : result Transport :=
  require d 20 0 "tcp" ;;
  b12 ← idx d 12;
  let header := Z.shiftr b12 4 * 4 in
  if header <? 20 then Err (bad "tcp_offset" "data offset smaller than fixed header")
  else
  require d header 0 "tcp_options" ;;
  ck ← checked_transport_checksum dg context 6 d;
  require_supported_checksum ck pol ;;
  if bool_decide (pol = RequireValid) && negb (bool_decide (ck = Valid))
  then Err (error_new Errors.Checksum 0 "tcp" "invalid checksum; capture offload may be relevant")
  else
  pb ← slice d 0 2; sp ← be16 pb;
  pb ← slice d 2 4; dp ← be16 pb;
  pb ← slice d 4 8; sq ← be32 pb;
  pb ← slice d 8 12; an ← be32 pb;
  fl ← idx d 13;
  ps ← add prefix header;
  pl ← Provenance.slice (payload dg) ps (zlen (data (payload dg)));
  Ok (Tcp {| tcp_source := {| address := source dg; port := sp |};
             tcp_destination := {| address := destination dg; port := dp |};
             sequence := sq; acknowledgement := an; flags := fl; tcp_checksum := ck;
             tcp_payload := pl |}).

(** [decode_transport], the UDP arm. *)
Definition decode_udp (dg : Datagram) (pol : ChecksumPolicy) (prefix : Z)
    (context : ChecksumContext) (d : list Z) : result Transport :=
  require d 8 0 "udp" ;;
  lb ← slice d 4 6; ulen ← be16 lb;
  if ulen <? 8
  then Err (bad "udp_length" "UDP length smaller than header or unsupported jumbogram")
  else
  require d ulen 0 "udp_payload" ;;
  cb ← slice d 6 8; cv ← be16 cb;
  ck ← (if cv =? 0 then Ok (if is_ipv6 dg then Invalid else NotPresent)
        else ub ← slice d 0 ulen; checked_transport_checksum dg context 17 ub);
  require_supported_checksum ck pol ;;
  if bool_decide (pol = RequireValid) && bool_decide (ck = Invalid)
  then Err (error_new Errors.Checksum 0 "udp" "invalid UDP checksum")
  else
  pb ← slice d 0 2; sp ← be16 pb;
  pb ← slice d 2 4; dp ← be16 pb;
  p8 ← add prefix 8; pe ← add prefix ulen;
  pl ← Provenance.slice (payload dg) p8 pe;
  Ok (Udp {| udp_source := {| address := source dg; port := sp |};
             udp_destination := {| address := destination dg; port := dp |};
             udp_checksum := ck; udp_payload := pl |}).

(** [decode_transport]. *)
Definition decode_transport (dg : Datagram) (pol : ChecksumPolicy) : result Transport :=
  if fragment dg
  then Err (bad "fragment" "reassemble IP fragments before parsing transport")
  else if bool_decide (pol = RequireValid) && bool_decide (ip_checksum dg = Invalid)
  then Err (error_new Errors.Checksum 0 "ipv4" "invalid IPv4 checksum")
  else
  let all := data (payload dg) in
  st ← loop 18 (post_fragment_step dg all) (protocol dg, 0, 0, checksum_context dg);
  let '(proto, prefix, context) := st in
  d ← slice_from all prefix;
  if proto =? 6 then decode_tcp dg pol prefix context d
  else if proto =? 17 then decode_udp dg pol prefix context d
  else Err (error_new UnsupportedTransport 0 "ip_protocol"
              ("protocol " +:+ pretty proto +:+ " is not decoded")).
