(* ===== verification/WireFacts.v ===== *)
(** * Correctness of the packet decoders

    [decode_packet] and [decode_transport] return on every input; a datagram is the
    one its packet's link, VLAN and IP headers show, its payload the packet's own bytes
    at their own positions; the fragment fields obey the rules the reassembler relies
    on; and under the strict policy
    a TCP segment is returned only if its RFC 1071 checksum over the
    pseudo-header verifies. *)

From S2P Require Import Errors Ord Checksum Provenance Prelude Wire.

(** ** Field reads *)

Section reads.
Context (Q : Z → Prop) (R : Error → Prop).

Lemma wp_be16 b :
  zlen b = 2 → bytes_ok b → (0 ≤ from_be_bytes b ≤ 65535 → Q (from_be_bytes b)) → wp (be16 b) Q R.
Proof.
  intros Hl Hb HQ. pose proof (from_be_bound b Hb) as Hbd. rewrite Hl in Hbd.
  destruct b as [|x [|y [|z b]]]; try (unfold zlen in Hl; simpl in Hl; lia).
  unfold be16. rewrite !idx_ok by (unfold zlen; simpl; lia). apply HQ. lia.
Qed.

Lemma wp_be32 b :
  zlen b = 4 → bytes_ok b → (0 ≤ from_be_bytes b ≤ u32_max → Q (from_be_bytes b)) → wp (be32 b) Q R.
Proof.
  intros Hl Hb HQ. pose proof (from_be_bound b Hb) as Hbd. rewrite Hl in Hbd.
  destruct b as [|x [|y [|z [|w [|v b]]]]]; try (unfold zlen in Hl; simpl in Hl; lia).
  unfold be32. rewrite !idx_ok by (unfold zlen; simpl; lia). apply HQ. lia.
Qed.
End reads.

(** Follow the program, discharging reads and sums by their bounds. *)
Ltac wire_step :=
  lazymatch goal with
  | |- wp (add _ _) _ _ => apply wp_add_ovf; [slice_len; lia|]
  | |- wp (require _ _ _ _) _ _ => apply wp_require; [done|intros ?; slice_len]
  | |- wp (be16 _) _ _ => apply wp_be16; [slice_len; lia|auto with pcap|intros ?]
  | |- wp (be32 _) _ _ => apply wp_be32; [slice_len; lia|auto with pcap|intros ?]
  | |- wp (slice_from _ _) _ _ => unfold slice_from
  | |- wp (Err _) _ _ => exact I
  | _ => wp_step
  end.
Ltac wire_go := repeat wire_step.

(** A byte read from a byte string. *)
Ltac byte_fact b i :=
  let H := fresh "Hbyte" in
  assert (0 ≤ nthz b i < 256) as H by (apply nthz_byte; auto with pcap).

(** ** What a decoded datagram promises *)

(** The evidence consists of the bytes [a..b] of the packet, each with its own
    position as its source. *)
Definition cites (id : PacketId) (pkt : list Z) (e : EvidenceBytes) (a b : Z) : Prop :=
  0 ≤ a ≤ b ∧ b ≤ zlen pkt ∧ ev_ok e ∧ data e = sub pkt a b ∧ origins e = (id,.) <$> seqZ a (b - a).

Definition addr_ok (v6 : bool) (a : IpAddr) : Prop :=
  match a with
  | V4 o => v6 = false ∧ bytes_ok o ∧ zlen o = 4
  | V6 o => v6 = true ∧ bytes_ok o ∧ zlen o = 16
  end.

(** The rules fragments obey: 8-byte units, not empty, in range. *)
Definition fragment_ok (n : Z) (f : FragmentInfo) : Prop :=
  0 ≤ fi_id f ≤ u32_max ∧ 0 ≤ fi_offset f ≤ 65528 ∧ fi_offset f mod 8 = 0 ∧ 0 < n ∧
  (more f = true → n mod 8 = 0).

(** The header fields of a datagram. *)
Definition header_ok (dg : Datagram) : Prop :=
  0 ≤ protocol dg < 256 ∧ 0 ≤ network_header_len dg ≤ 65575 ∧
  addr_ok (is_ipv6 dg) (source dg) ∧ addr_ok (is_ipv6 dg) (destination dg).

Definition datagram_ok (dg : Datagram) : Prop :=
  ev_ok (payload dg) ∧ zlen (data (payload dg)) ≤ 65535 ∧ header_ok dg ∧
  (∀ f, fragment dg = Some f → fragment_ok (zlen (data (payload dg))) f).

Definition packet_ok (id : PacketId) (pkt : list Z) : Prop :=
  bytes_ok pkt ∧ zlen pkt ≤ i64_max ∧ 0 ≤ record_offset id ∧
  record_offset id + zlen pkt ≤ u64_max.

(** The datagram decoded from a packet with an IP header at [start]. *)
Definition decoded (id : PacketId) (pkt : list Z) (start : Z) (dg : Datagram) : Prop :=
  datagram_ok dg ∧
  ∃ b, start + network_header_len dg ≤ b ∧
    cites id pkt (payload dg) (start + network_header_len dg) b.

Lemma from_packet_cites id pkt a b :
  bytes_ok pkt → zlen pkt ≤ i64_max → 0 ≤ a → a ≤ b → b ≤ zlen pkt →
  cites id pkt (from_packet (sub pkt a b) id a) a b.
Proof.
  intros Hb Hl Ha Hab Hbl. split_and!; try done.
  - apply from_packet_ok; [by apply bytes_ok_sub|done|]. rewrite zlen_sub by done. lia.
  - unfold origins, from_packet. simpl. rewrite zlen_sub by done.
    destruct (Z.eqb_spec (b - a) 0) as [->|]; [done|].
    unfold spans_origins, span_origins. simpl. by rewrite app_nil_r, Z.sub_0_r.
Qed.

Lemma decoded_intro id pkt start h total dg :
  packet_ok id pkt → 0 ≤ start → 0 ≤ h ≤ total → start + total ≤ zlen pkt →
  total - h ≤ 65535 → total ≤ 65575 →
  payload dg = from_packet (sub (sub pkt start (zlen pkt)) h total) id (start + h) →
  network_header_len dg = h → 0 ≤ protocol dg < 256 →
  addr_ok (is_ipv6 dg) (source dg) → addr_ok (is_ipv6 dg) (destination dg) →
  (∀ f, fragment dg = Some f → fragment_ok (total - h) f) → decoded id pkt start dg.
Proof.
  intros (Hb & Hl & _) Hs Hh Ht Hn Hn' Hp Hnh Hpr Hsa Hda Hf.
  rewrite sub_sub in Hp by lia.
  pose proof (from_packet_cites id pkt (start + h) (start + total) Hb Hl
    ltac:(lia) ltac:(lia) ltac:(lia)) as Hc.
  assert (zlen (data (payload dg)) = total - h) as Hz.
  { rewrite Hp. simpl. rewrite zlen_sub by lia. lia. }
  split.
  - unfold datagram_ok, header_ok. rewrite Hz. split_and!; try done; try lia. rewrite Hp. apply Hc.
  - exists (start + total). rewrite Hnh, Hp. split; [lia|done].
Qed.

(** ** What a packet shows *)

(** The big-endian number in the octets [a..b]. *)
Definition number_at (b : list Z) (lo hi : Z) : Z := from_be_bytes (sub b lo hi).

(** Where the payload of a link header starts, its EtherType, and the scope. *)
Definition family_type (family ether_type : Z) : Prop :=
  family = 2 ∧ ether_type = 0x0800 ∨ family ∈ [10; 24; 28; 30] ∧ ether_type = 0x86dd.
Inductive framed (pkt : list Z) (sc : Scope) : Z → Z → Z → Scope → Prop :=
  | framed_ethernet : 14 ≤ zlen pkt → framed pkt sc 1 14 (number_at pkt 12 14) sc
  | framed_sll : 16 ≤ zlen pkt → framed pkt sc 113 16 (number_at pkt 14 16) sc
  | framed_sll2 : 20 ≤ zlen pkt → framed pkt sc 276 20 (number_at pkt 0 2) (with_link_interface sc (number_at pkt 4 8))
  | framed_raw4 : 1 ≤ zlen pkt → nthz pkt 0 / 16 = 4 → framed pkt sc 101 0 0x0800 sc
  | framed_raw6 : 1 ≤ zlen pkt → nthz pkt 0 / 16 = 6 → framed pkt sc 101 0 0x86dd sc
  | framed_ipv4 : framed pkt sc 228 0 0x0800 sc
  | framed_ipv6 : framed pkt sc 229 0 0x86dd sc
  | framed_loop t : 4 ≤ zlen pkt → family_type (number_at pkt 0 4) t → framed pkt sc 108 4 t sc
  | framed_null_big t : 4 ≤ zlen pkt → family_type (number_at pkt 0 4) t → framed pkt sc 0 4 t sc
  | framed_null_little t :
      4 ≤ zlen pkt → (∀ t, ¬ family_type (number_at pkt 0 4) t) → family_type (from_le_bytes (sub pkt 0 4)) t →
      framed pkt sc 0 4 t sc.

(** The VLAN tags passed from the first EtherType on, where they end, and the EtherType there. *)
Definition vlan_type (t : Z) : Prop := t ∈ [0x8100; 0x88a8; 0x9100].
Inductive tagged (pkt : list Z) (s0 t0 : Z) : list Z → Z → Z → Prop :=
  | tagged_none : tagged pkt s0 t0 [] s0 t0
  | tagged_more vs s t :
      tagged pkt s0 t0 vs s t → vlan_type t → s + 4 ≤ zlen pkt →
      tagged pkt s0 t0 (vs ++ [number_at pkt s (s + 2) mod 4096]) (s + 4) (number_at pkt (s + 2) (s + 4)).
Definition with_vlans (sc : Scope) (vs : list Z) : Scope :=
  {| section := section sc; interface := interface sc; link_interface := link_interface sc; vlans := vlans sc ++ vs |}.

(** A source route among the IPv4 options from [p] on. *)
Inductive source_routed (o : list Z) : Z → Prop :=
  | routed_here p : p < zlen o → nthz o p = 131 ∨ nthz o p = 137 → source_routed o p
  | routed_nop p : p < zlen o → nthz o p = 1 → source_routed o (p + 1) → source_routed o p
  | routed_later p :
      p < zlen o → nthz o p ≠ 0 → nthz o p ≠ 1 → source_routed o (p + nthz o (p + 1)) → source_routed o p.

(** The IPv4 header at [start], and the datagram it shows. *)
Definition ipv4_shown (id : PacketId) (pkt : list Z) (start : Z) (sc : Scope) (dg : Datagram) : Prop :=
  let b := sub pkt start (zlen pkt) in
  let header := nthz b 0 mod 16 * 4 in
  let total := number_at b 2 4 in
  let flags := number_at b 6 8 in
  let offset := flags mod 8192 * 8 in
  let more := Z.testbit flags 13 in
  (nthz b 0 / 16 = 4 ∧ 20 ≤ header ≤ total ∧ total ≤ zlen b ∧ Z.testbit flags 15 = false ∧
   offset + (total - header) ≤ 65535) ∧
  (scope dg = sc ∧ source dg = V4 (sub b 12 16) ∧ destination dg = V4 (sub b 16 20) ∧ protocol dg = nthz b 9 ∧
   is_ipv6 dg = false ∧ network_header_len dg = header) ∧
  fragment dg = (if more || negb (offset =? 0)
                 then Some {| fi_id := number_at b 4 6; fi_offset := offset; more := more |} else None) ∧
  cites id pkt (payload dg) (start + header) (start + total) ∧
  ip_checksum dg = (if rfc1071 (sub b 0 header) =? 0 then Valid else Invalid) ∧
  (checksum_context dg = Unsupported ↔ source_routed (sub b 20 header) 0).

(** A Home Address option among the options of an IPv6 extension header from [p] on. *)
Inductive home_address (h : list Z) : Z → Prop :=
  | home_here p : p < zlen h → nthz h p = 0xc9 → home_address h p
  | home_pad p : p < zlen h → nthz h p = 0 → home_address h (p + 1) → home_address h p
  | home_later p : p < zlen h → nthz h p ≠ 0 → home_address h (p + (nthz h (p + 1) + 2)) → home_address h p.

(** An extension header: its type, and the octets it takes. *)
Record ExtHeader : Type := { eh_type : Z; eh_start : Z; eh_end : Z }.
(** The final addresses are not those of the IPv6 header. *)
Definition rewrites_addresses (b : list Z) (h : ExtHeader) : Prop :=
  eh_type h = 43 ∨ eh_type h ∈ [0; 60] ∧ home_address (sub b (eh_start h) (eh_end h)) 2.

(** The Fragment header at [p]. *)
Definition fragment_bits (b : list Z) (p : Z) : Z := number_at b (p + 2) (p + 4).
Definition fragment_at (b : list Z) (p : Z) : FragmentInfo :=
  {| fi_id := number_at b (p + 4) (p + 8); fi_offset := fragment_bits b p / 8 * 8; more := Z.odd (fragment_bits b p) |}.
Definition is_fragment (f : FragmentInfo) : bool := more f || negb (fi_offset f =? 0).
Definition fragment_header (b : list Z) (total p : Z) : Prop :=
  p + 8 ≤ total ∧ nthz b (p + 1) = 0 ∧ fragment_bits b p / 2 mod 4 = 0.

(** The extension headers passed from the type [t0] of the first, in order; the next header
    is of type [t] at [p]. *)
Inductive passed (b : list Z) (total t0 : Z) : list ExtHeader → Z → Z → Prop :=
  | passed_none : passed b total t0 [] t0 40
  | passed_ext hs t p q :
      passed b total t0 hs t p → t ∈ [0; 43; 51; 60] → p + 2 ≤ total →
      q = p + (if t =? 51 then (nthz b (p + 1) + 2) * 4 else (nthz b (p + 1) + 1) * 8) → q ≤ total →
      passed b total t0 (hs ++ [{| eh_type := t; eh_start := p; eh_end := q |}]) (nthz b p) q
  | passed_atomic hs p :
      passed b total t0 hs 44 p → fragment_header b total p → is_fragment (fragment_at b p) = false →
      passed b total t0 (hs ++ [{| eh_type := 44; eh_start := p; eh_end := p + 8 |}]) (nthz b p) (p + 8).
(** Where the extension headers end: before another protocol, or after the header of a
    fragment. *)
Inductive chain_end (b : list Z) (total t0 : Z) (hs : list ExtHeader) : Z → Z → option FragmentInfo → Prop :=
  | chain_protocol t p : passed b total t0 hs t p → t ∉ [0; 43; 44; 51; 60] → chain_end b total t0 hs t p None
  | chain_fragment p :
      passed b total t0 hs 44 p → fragment_header b total p → is_fragment (fragment_at b p) = true →
      chain_end b total t0 hs (nthz b p) (p + 8) (Some (fragment_at b p)).

(** The IPv6 header at [start], and the datagram it shows. *)
Definition ipv6_shown (id : PacketId) (pkt : list Z) (start : Z) (sc : Scope) (dg : Datagram) : Prop :=
  let b := sub pkt start (zlen pkt) in
  let total := 40 + number_at b 4 6 in
  (nthz b 0 / 16 = 6 ∧ total ≤ zlen b) ∧
  (scope dg = sc ∧ source dg = V6 (sub b 8 24) ∧ destination dg = V6 (sub b 24 40) ∧ is_ipv6 dg = true) ∧
  (∃ hs, zlen hs ≤ 16 ∧ chain_end b total (nthz b 6) hs (protocol dg) (network_header_len dg) (fragment dg) ∧
     (checksum_context dg = Unsupported ↔ Exists (rewrites_addresses b) hs)) ∧
  cites id pkt (payload dg) (start + network_header_len dg) (start + total) ∧
  ip_checksum dg = NotPresent.

(** The datagram of a packet: its link header and VLAN tags lead to an IP header, and that
    header shows it. *)
Definition packet_shows (lt : Z) (pkt : list Z) (id : PacketId) (sc : Scope) (dg : Datagram) : Prop :=
  ∃ s0 t0 sc0 vs start t, framed pkt sc lt s0 t0 sc0 ∧ tagged pkt s0 t0 vs start t ∧
    (t = 0x0800 ∧ ipv4_shown id pkt start (with_vlans sc0 vs) dg ∨
     t = 0x86dd ∧ ipv6_shown id pkt start (with_vlans sc0 vs) dg).

(** ** Options and extension headers *)

Lemma wp_ipv4_options options :
  bytes_ok options → zlen options ≤ i64_max →
  wp (ipv4_checksum_context options) (λ c, c = Unsupported ↔ source_routed options 0) (λ _, True).
Proof.
  intros Hb Hl. pose proof (zlen_nonneg options). unfold ipv4_checksum_context.
  apply (wp_loop (λ st, 0 ≤ st.1 ≤ zlen options ∧
                        (source_routed options 0 ↔ st.2 = Unsupported ∨ source_routed options st.1)) (λ st, zlen options - st.1));
    [|simpl; split; [lia|naive_solver]|unfold zlen in *; simpl; lia].
  intros [p ctx] [Hp Hi]. cbn [fst snd] in *. unfold ipv4_option_step.
  wire_go; try done; cbn [fst snd].
  - rewrite Hi. split; [by left|]. intros [?|Hr]; [done|]. exfalso; inversion Hr; subst; lia.
  - split; [split; [lia|]|lia]. rewrite Hi. split; intros [?|Hr]; try (by left); right.
    + inversion Hr; subst; try (exfalso; lia). done.
    + apply routed_nop; [lia|lia|done].
  - byte_fact options (p + 1). wire_go; try done. cbn [fst snd]. split; [split; [lia|]|lia]. rewrite Hi.
    destruct ((nthz options p =? 131) || (nthz options p =? 137)) eqn:Ht.
    + split; [by left|]. intros _. right. apply routed_here; lia.
    + split; intros [?|Hr]; try (by left); right; [inversion Hr; subst; [exfalso; lia..|done]|]. by apply routed_later; try lia.
  - rewrite Hi. split; [by left|]. intros [?|Hr]; [done|]. exfalso; inversion Hr; subst; lia.
Qed.

Lemma wp_ipv6_options nx header :
  bytes_ok header → 2 ≤ zlen header ≤ i64_max →
  wp (ipv6_checksum_context nx header)
    (λ c, c = Unsupported ↔ nx = 43 ∨ nx ∈ [0; 60] ∧ home_address header 2) (λ _, True).
Proof.
  intros Hb Hl. unfold ipv6_checksum_context. wire_go; [split; [left; lia|done]|split; [done|]|].
  - intros [?|[?%list_elem_of_In _]]; simpl in *; lia.
  - assert (nx ≠ 43 ∧ nx ∈ [0; 60]) as [Hn Hin].
    { split; [lia|]. apply list_elem_of_In. simpl. match goal with H : _ && _ = false |- _ => apply andb_false_iff in H as [H|H] end; bool_facts; lia. }
    apply (wp_mono _ (λ c, c = Unsupported ↔ home_address header 2) _ (λ _, True)); [|tauto|done].
    apply (wp_loop (λ st, 0 ≤ st.1 ≤ zlen header ∧
                        (home_address header 2 ↔ st.2 = Unsupported ∨ home_address header st.1)) (λ st, zlen header - st.1));
      [|simpl; split; [lia|naive_solver]|unfold zlen in *; simpl; lia].
    intros [p ctx] [Hp Hi]. cbn [fst snd] in *. unfold ipv6_option_step.
    wire_go; try done; cbn [fst snd].
    + split; [split; [lia|]|lia]. rewrite Hi. split; intros [?|Hr]; try (by left); right.
      * inversion Hr; subst; try (exfalso; lia). done.
      * apply home_pad; [lia|lia|done].
    + byte_fact header (p + 1). wire_go; try done. cbn [fst snd]. split; [split; [lia|]|lia]. rewrite Hi.
      destruct (nthz header p =? 0xc9) eqn:Ht.
      * split; [by left|]. intros _. right. apply home_here; lia.
      * split; intros [?|Hr]; try (by left); right; [inversion Hr; subst; [exfalso; lia..|done]|]. by apply home_later; try lia.
    + rewrite Hi. split; [by left|]. intros [?|Hr]; [done|]. exfalso; inversion Hr; subst; lia.
Qed.

Lemma masked_bit x k : 0 ≤ k → (Z.land x (2 ^ k) =? 0) = negb (Z.testbit x k).
Proof.
  intros Hk. destruct (Z.testbit x k) eqn:Ht; simpl.
  - apply Z.eqb_neq. intros H0. apply (f_equal (λ v, Z.testbit v k)) in H0.
    by rewrite Z.land_spec, Ht, Z.pow2_bits_true, Z.bits_0 in H0.
  - apply Z.eqb_eq, Z.bits_inj'. intros n Hn. rewrite Z.land_spec, Z.bits_0, Z.pow2_bits_eqb by done.
    destruct (Z.eqb_spec k n) as [->|]; [by rewrite Ht|by rewrite andb_false_r].
Qed.
Lemma land_multiple x : 0 ≤ x < 65536 → Z.land x 0xfff8 = x / 8 * 8.
Proof.
  intros Hx. change 0xfff8 with (Z.land (Z.ones 16) (Z.lnot (Z.ones 3))).
  rewrite Z.land_assoc, Z.land_ones, Z.mod_small by lia. rewrite <- Z.ldiff_land, Z.ldiff_ones_r by done.
  by rewrite Z.shiftl_mul_pow2, Z.shiftr_div_pow2.
Qed.

(** The masks of the IP headers as arithmetic. *)
Lemma nibble_high x : Z.shiftr x 4 = x / 16.
Proof. by rewrite Z.shiftr_div_pow2. Qed.
Lemma nibble_low x : Z.land x 15 = x mod 16.
Proof. by apply (Z.land_ones x 4). Qed.
Lemma offset_units x : Z.land x 0x1fff = x mod 8192.
Proof. by apply (Z.land_ones x 13). Qed.
Lemma more_bit x : (Z.land x 0x2000 =? 0) = negb (Z.testbit x 13).
Proof. by apply (masked_bit x 13). Qed.
Lemma reserved_bit x : (Z.land x 0x8000 =? 0) = negb (Z.testbit x 15).
Proof. by apply (masked_bit x 15). Qed.

Lemma cites_from id pkt start h total :
  packet_ok id pkt → 0 ≤ start → 0 ≤ h ≤ total → start + total ≤ zlen pkt →
  cites id pkt (from_packet (sub (sub pkt start (zlen pkt)) h total) id (start + h)) (start + h) (start + total).
Proof. intros (Hb & Hl & _) Hs Hh Ht. rewrite sub_sub by lia. apply from_packet_cites; done || lia. Qed.

Lemma fragment_end off n :
  match checked_add usize_max off n with None => true | Some e => 65535 <? e end = false → off + n ≤ 65535.
Proof. unfold checked_add. destruct (_ <=? _) eqn:?; [|done]. lia. Qed.

Lemma ipv4_spec pkt start id sc :
  packet_ok id pkt → 0 ≤ start ≤ 1000 →
  wp (ipv4 pkt start id sc) (λ dg, decoded id pkt start dg ∧ ipv4_shown id pkt start sc dg) (λ _, True).
Proof.
  intros Hpk Hs. pose proof Hpk as (Hb & Hl & Hr & Hov). unfold ipv4. wire_go.
  set (b := sub pkt start (zlen pkt)) in *.
  assert (bytes_ok b) as Hbb by (by apply bytes_ok_sub).
  assert (zlen b = zlen pkt - start) as Hbl by (apply zlen_sub; lia).
  rewrite nibble_high, nibble_low in *. pose proof (Z.mod_pos_bound (nthz b 0) 16 ltac:(lia)).
  wire_go; try done. set (fl := from_be_bytes (sub b 6 8)) in *.
  rewrite ?offset_units, ?more_bit, ?reserved_bit, ?negb_involutive in *. pose proof (Z.mod_pos_bound fl 8192 ltac:(lia)).
  set (off := fl mod 8192 * 8) in *. set (mf := Z.testbit fl 13) in *.
  set (h := nthz b 0 mod 16 * 4) in *. set (total := from_be_bytes (sub b 2 4)) in *.
  eapply wp_mono; [apply wp_ipv4_options; [by apply bytes_ok_sub|rewrite zlen_sub; lia]| |done].
  intros ctx Hctx. byte_fact b 9. wire_step. wire_step. wire_step.
  apply wp_mono with (R := λ _, True) (Q := λ fr,
    (∀ f, fr = Some f → fragment_ok (total - h) f) ∧
    fr = if mf || negb (off =? 0) then Some {| fi_id := number_at b 4 6; fi_offset := off; more := mf |} else None);
    [|intros fr [Hfr Hfe]|done].
  - wire_go; [|done]. split; [|done]. intros f [= <-]. unfold fragment_ok; simpl.
    split_and!; try lia; [subst off; by rewrite Z.mod_mul by lia|].
    intros Hm. rewrite Hm in *. cbn [andb] in *. bool_facts. lia.
  - wire_go. rewrite internet_checksum_spec by auto with pcap. wire_go. split.
    + by apply (decoded_intro id pkt start h total); simpl; rewrite ?zlen_sub by lia;
        auto with pcap; try lia; try split_and!; auto with pcap.
    + unfold ipv4_shown. fold b. cbv zeta. unfold number_at. fold total fl off mf h. cbn.
      split; [split_and!; try done; try lia; [by apply negb_true_iff|]|].
      { by apply fragment_end. }
      split; [done|]. split; [done|]. split; [by apply cites_from; done || lia|]. done.
Qed.

(** The masks of the Fragment header as arithmetic. *)
Lemma reserved_bits x : 0 ≤ x → (Z.land x 6 =? 0) = (x / 2 mod 4 =? 0).
Proof.
  intros Hx. replace (Z.land x 6) with (x / 2 mod 4 * 2); [destruct (Z.eqb_spec (x / 2 mod 4) 0); lia|].
  rewrite <- Z.shiftr_div_pow2 with (n := 1), <- Z.land_ones with (n := 2) by lia.
  rewrite <- Z.shiftl_mul_pow2 with (n := 1) by lia. rewrite Z.shiftl_land.
  change (Z.shiftl (Z.ones 2) 1) with 6. apply Z.bits_inj'. intros n Hn.
  rewrite !Z.land_spec. destruct (Z.eqb_spec n 0) as [->|]; [by rewrite !andb_false_r|].
  by rewrite Z.shiftl_spec, Z.shiftr_spec, Z.sub_add by lia.
Qed.
Lemma more_odd x : (Z.land x 1 =? 0) = negb (Z.odd x).
Proof. rewrite <- Z.bit0_odd. by apply (masked_bit x 0). Qed.

Lemma offset_bound x : 0 ≤ x ≤ 65535 → 0 ≤ x / 8 * 8 ≤ 65528 ∧ (x / 8 * 8) mod 8 = 0.
Proof. intros Hx. rewrite Z.mod_mul by done. pose proof (Z.div_mod x 8 ltac:(done)). pose proof (Z.mod_pos_bound x 8 ltac:(done)). lia. Qed.

(** The extension-header loop of [ipv6]. *)
Definition ext_ok (total : Z) (x : Ext) : Prop :=
  40 ≤ p x ≤ total ∧ 0 ≤ next x < 256 ∧ 0 ≤ depth x ≤ 16.

Lemma extension_len_bound nx v : 0 ≤ v < 256 → 8 ≤ extension_len nx v ≤ 2048.
Proof. intros. unfold extension_len. case_match; lia. Qed.

Section ipv6_loop.
Context (b : list Z) (total o t0 : Z).
Context (Hb : bytes_ok b) (Ht : 40 ≤ total ≤ zlen b) (Hl : total ≤ 65575).

(** The headers passed when the loop is at [x]. *)
Definition chain_at (x : Ext) : Prop :=
  x_fragment x = None ∧
  ∃ hs, passed b total t0 hs (next x) (p x) ∧ depth x = zlen hs ∧
    (x_context x = Unsupported ↔ Exists (rewrites_addresses b) hs).

Definition ext_post (x : Ext) : Prop :=
  (ext_ok total x ∧ ∀ f, x_fragment x = Some f → fragment_ok (total - p x) f) ∧
  ∃ hs, zlen hs ≤ 16 ∧ chain_end b total t0 hs (next x) (p x) (x_fragment x) ∧
    (x_context x = Unsupported ↔ Exists (rewrites_addresses b) hs).

Definition ext_step_post (x : Ext) (r : step Ext Ext) : Prop :=
  match r with
  | Continue x' => (ext_ok total x' ∧ chain_at x') ∧ 0 ≤ 17 - depth x' < 17 - depth x
  | Break x' => ext_post x'
  end.

Lemma chain_more hs h x x' :
  passed b total t0 (hs ++ [h]) (next x') (p x') → x_fragment x' = None →
  depth x = zlen hs → depth x' = depth x + 1 → (x_context x = Unsupported ↔ Exists (rewrites_addresses b) hs) →
  (x_context x' = Unsupported ↔ x_context x = Unsupported ∨ rewrites_addresses b h) → chain_at x'.
Proof.
  intros Hp Hf Hd Hd' Hc Hc'. split; [done|]. eexists. split; [done|]. rewrite zlen_app. change (zlen [h]) with 1.
  split; [lia|]. rewrite Exists_app, Exists_cons, Exists_nil, Hc'. tauto.
Qed.

Lemma ipv6_fragment_spec x :
  ext_ok total x → chain_at x → next x = 44 → p x + 2 ≤ total → depth x + 1 ≤ 16 →
  wp (ipv6_fragment b total o x (depth x + 1)) (ext_step_post x) (λ _, True).
Proof using Hb Ht Hl.
  intros (Hp & Hn & Hd) (Hf & hs & Hpa & Hdp & Hc) H44 H2 H16. unfold ipv6_fragment. byte_fact b (p x).
  rewrite H44 in Hpa.
  wire_go; try done.
  all: change (from_be_bytes (sub b (p x + 2) (p x + 4))) with (fragment_bits b (p x)) in *.
  all: change (from_be_bytes (sub b (p x + 4) (p x + 8))) with (number_at b (p x + 4) (p x + 8)) in *.
  all: rewrite reserved_bits in * by lia; rewrite land_multiple in * by lia; rewrite more_odd in *.
  all: pose proof (offset_bound (fragment_bits b (p x)) ltac:(lia)) as [? ?].
  all: assert (fragment_header b total (p x)) as Hh by (split_and!; [lia|by apply Z.eqb_eq|by apply Z.eqb_eq]).
  1-2: split; [split; [unfold ext_ok; cbn; split_and!; lia|]|].
  1,3: intros f [= <-]; unfold fragment_ok; cbn; split_and!; try lia; intros; cbn [andb] in *; bool_facts; try done; lia.
  1-2: exists hs; cbn; split; [lia|]; split; [|done].
  1-2: match goal with |- chain_end _ _ _ _ _ _ (Some ?f) => replace f with (fragment_at b (p x)) end.
  1,3: apply chain_fragment; try done; unfold is_fragment; cbn.
  3-4: unfold fragment_at; f_equal; bool_facts; done.
  3: split; [split; [unfold ext_ok; cbn; split_and!; lia|]|cbn; lia].
  3: apply (chain_more hs {| eh_type := 44; eh_start := p x; eh_end := p x + 8 |} x); cbn; try done.
  1-2: destruct (Z.odd (fragment_bits b (p x))); cbn in *; done.
  - apply passed_atomic; try done. unfold is_fragment; cbn. destruct (Z.odd (fragment_bits b (p x))); cbn in *; bool_facts; [done|by apply negb_false_iff].
  - unfold rewrites_addresses; cbn. split; [by left|]. intros [?|[?|[Hin _]]]; [done..|].
    apply list_elem_of_In in Hin; simpl in Hin; lia.
Qed.

Lemma ipv6_step_spec x :
  ext_ok total x → chain_at x → wp (ipv6_step b total o x) (ext_step_post x) (λ _, True).
Proof using Hb Ht Hl.
  intros Hx Hc. pose proof Hx as (Hp & Hn & Hd). pose proof Hc as (Hf & hs & Hpa & Hdp & Hctx).
  unfold ipv6_step. wire_go; try done.
  - apply ipv6_fragment_spec; try done; lia.
  - byte_fact b (p x). byte_fact b (p x + 1).
    pose proof (extension_len_bound (next x) (nthz b (p x + 1)) ltac:(lia)).
    wire_go. set (q := p x + extension_len _ _) in *.
    eapply wp_mono; [apply wp_ipv6_options; [auto with pcap|slice_len; lia]| |done].
    intros c Hc'. wire_go. split; [split; [unfold ext_ok; cbn; split_and!; lia|]|cbn; lia].
    apply (chain_more hs {| eh_type := next x; eh_start := p x; eh_end := q |} x); cbn; try done.
    + apply passed_ext; [done| |lia|done|lia].
      match goal with H : existsb _ _ = true |- _ => apply existsb_exists in H as (t & Ht' & <-%Z.eqb_eq) end.
      simpl in Ht'. assert (next x = 0 ∨ next x = 43 ∨ next x = 51 ∨ next x = 60) by lia. set_solver.
    + unfold rewrites_addresses. cbn. rewrite <- Hc'. clear. destruct c; intuition congruence.
  - split; [split; [done|by rewrite Hf]|]. exists hs. split; [lia|]. split; [|done]. rewrite Hf.
    apply chain_protocol; [done|]. intros Hin%list_elem_of_In.
    match goal with H : existsb _ _ = false |- _ => assert (existsb (Z.eqb (next x)) [0; 43; 44; 51; 60] = true); [|congruence] end.
    apply existsb_exists. exists (next x). split; [done|apply Z.eqb_refl].
Qed.

Lemma ipv6_loop_spec :
  0 ≤ t0 < 256 →
  wp (loop 18 (ipv6_step b total o)
        {| next := t0; p := 40; depth := 0; x_fragment := None; x_context := BaseAddresses |})
     ext_post (λ _, True).
Proof using Hb Ht Hl.
  intros Hn. apply (wp_loop (λ x, ext_ok total x ∧ chain_at x) (λ x, 17 - depth x)).
  - intros x [Hx Hf]. by apply ipv6_step_spec.
  - split; [unfold ext_ok; simpl; split_and!; try done; lia|]. split; [done|].
    exists []. split; [constructor|]. split; [done|]. cbn. rewrite Exists_nil. done.
  - simpl. lia.
Qed.
End ipv6_loop.

Lemma ipv6_spec pkt start id sc :
  packet_ok id pkt → 0 ≤ start ≤ 1000 →
  wp (ipv6 pkt start id sc) (λ dg, decoded id pkt start dg ∧ ipv6_shown id pkt start sc dg) (λ _, True).
Proof.
  intros Hpk Hs. pose proof Hpk as (Hb & Hl & Hr & Hov). unfold ipv6. wire_go.
  set (b := sub pkt start (zlen pkt)) in *.
  assert (bytes_ok b) as Hbb by (by apply bytes_ok_sub).
  assert (zlen b = zlen pkt - start) as Hbl by (apply zlen_sub; lia).
  rewrite nibble_high in *. byte_fact b 6. wire_go; try done.
  eapply wp_mono; [apply (ipv6_loop_spec _ _ _ (nthz b 6)); [done|lia..]| |done].
  intros x (((Hp & Hn & Hd) & Hfr) & Hch). wire_go. split.
  - by apply (decoded_intro id pkt start (p x) (40 + from_be_bytes (sub b 4 6))); simpl;
      rewrite ?zlen_sub by lia; auto with pcap; try lia; try split_and!; auto with pcap.
  - unfold ipv6_shown. fold b. cbv zeta. unfold number_at. cbn.
    split; [split_and!; try done; try lia|]. split; [done|]. split; [done|]. split; [|done].
    apply cites_from; done || lia.
Qed.

(** ** [decode_packet] *)

(** The address families of the loopback headers. *)
Definition known_family (f : Z) : bool := existsb (Z.eqb f) [2; 10; 24; 28; 30].
Lemma family_ipv6 f : existsb (Z.eqb f) [10; 24; 28; 30] = true → family_type f 0x86dd.
Proof. intros Hf. right. split; [|done]. rewrite !elem_of_cons. cbn in Hf. lia. Qed.
Lemma family_known f t : family_type f t → known_family f = true.
Proof. unfold family_type, known_family. rewrite !elem_of_cons, elem_of_nil. cbn. lia. Qed.

Lemma host_order pkt :
  4 ≤ zlen pkt → from_le_bytes [nthz pkt 0; nthz pkt 1; nthz pkt 2; nthz pkt 3] = from_le_bytes (sub pkt 0 4).
Proof.
  intros Hl. destruct pkt as [|? [|? [|? [|? ?]]]]; try (unfold zlen in Hl; simpl in Hl; lia). done.
Qed.

(** The families recognised in network order are not looked up in host order. *)
Lemma loop_framed lk pkt sc t :
  (lk =? 0) || (lk =? 108) = true → 4 ≤ zlen pkt →
  family_type (if (lk =? 108) || known_family (from_be_bytes (sub pkt 0 4)) then from_be_bytes (sub pkt 0 4)
               else from_le_bytes [nthz pkt 0; nthz pkt 1; nthz pkt 2; nthz pkt 3]) t →
  framed pkt sc lk 4 t sc.
Proof.
  intros Hlt Hl. rewrite host_order by done. destruct (lk =? 108) eqn:H108; cbn [orb].
  - apply Z.eqb_eq in H108 as ->. by apply framed_loop.
  - rewrite orb_false_r in Hlt. apply Z.eqb_eq in Hlt as ->.
    destruct (known_family _) eqn:Hk; [by apply framed_null_big|]. apply framed_null_little; [done|].
    intros u Hu%family_known. unfold number_at in Hu. congruence.
Qed.

Lemma link_header_spec lk pkt id sc :
  bytes_ok pkt → zlen pkt ≤ i64_max →
  wp (link_header lk pkt id sc)
     (λ '(start, t, sc'), 0 ≤ start ≤ 20 ∧ start ≤ zlen pkt ∧ vlans sc' = vlans sc ∧
        framed pkt sc lk start t sc') (λ _, True).
Proof.
  intros Hb Hl. pose proof (zlen_nonneg pkt). unfold link_header.
  wire_go; try done; (split; [lia|split; [lia|split; [done|]]]);
    try match goal with H : (lk =? _) = true |- _ => apply Z.eqb_eq in H; rewrite H end; rewrite ?nibble_high in *.
  - by apply framed_ethernet.
  - by apply framed_sll.
  - by apply framed_sll2.
  - apply framed_raw4; [done|lia].
  - apply framed_raw6; [done|lia].
  - apply framed_ipv4.
  - apply framed_ipv6.
  - apply loop_framed; [done|done|]. left. split; [|done]. by apply Z.eqb_eq.
  - apply loop_framed; [done|done|]. by apply family_ipv6.
Qed.

Definition vlan_inv (pkt : list Z) (s0 t0 : Z) (sc0 : Scope) (st : Z * Z * Scope) : Prop :=
  let '(start, t, sc) := st in
  (0 ≤ start ≤ zlen pkt ∧ (start ≤ 20 + 4 * zlen (vlans sc) ∧ zlen (vlans sc) ≤ 8 ∨ start ≤ 20)) ∧
  ∃ vs, tagged pkt s0 t0 vs start t ∧ sc = with_vlans sc0 vs.

Lemma vlan_loop_spec pkt id s0 t0 sc0 :
  bytes_ok pkt → zlen pkt ≤ i64_max → 0 ≤ s0 ≤ 20 → s0 ≤ zlen pkt →
  wp (loop 10 (vlan_step pkt id) (s0, t0, sc0))
     (λ '(start, t, sc), (0 ≤ start ≤ 52 ∧ start ≤ zlen pkt) ∧
        ∃ vs, tagged pkt s0 t0 vs start t ∧ sc = with_vlans sc0 vs) (λ _, True).
Proof.
  intros Hb Hl Hs0 Hs0'.
  apply (wp_loop (vlan_inv pkt s0 t0 sc0) (λ st, Z.max 0 (9 - zlen (vlans st.2)))).
  - intros [[start t] sc] ((Hs & Hv) & vs & Htg & Hsc). unfold vlan_step.
    wire_go; try done; [|split; [lia|by exists vs]]. pose proof (zlen_nonneg (vlans sc)).
    split; [split; [unfold push_vlan; cbn [vlans]; rewrite zlen_app; change (zlen [_]) with 1; lia|]|
            cbn [snd]; unfold push_vlan; cbn [vlans]; rewrite zlen_app; change (zlen [_]) with 1; lia].
    eexists. split; [apply (tagged_more _ _ _ vs start t); [done| |lia]|].
    + unfold vlan_type. rewrite !elem_of_cons. lia.
    + subst sc. unfold push_vlan, with_vlans. cbn. by rewrite <- app_assoc, (Z.land_ones _ 12).
  - split; [split; lia|]. exists []. split; [constructor|]. destruct sc0. unfold with_vlans. cbn. by rewrite app_nil_r.
  - cbn [snd]. pose proof (zlen_nonneg (vlans sc0)). lia.
Qed.

Lemma decode_packet_shows lk pkt id sc :
  packet_ok id pkt →
  wp (decode_packet lk pkt id sc)
     (λ dg, (∃ start, 0 ≤ start ∧ decoded id pkt start dg) ∧ packet_shows lk pkt id sc dg) (λ _, True).
Proof.
  intros Hpk. pose proof Hpk as (Hb & Hl & Hr & Hov). unfold decode_packet.
  apply wp_bind. eapply wp_mono; [by apply link_header_spec| |done].
  intros [[s0 t0] sc0] (Hs & Hs' & _ & Hfr). apply wp_bind.
  eapply wp_mono; [by apply vlan_loop_spec| |done].
  intros [[start t] sc'] (Hst & vs & Htg & ->). wire_go; try done;
    (eapply wp_mono; [(apply ipv4_spec || apply ipv6_spec); [done|lia]| |done]); intros dg [Hd Hsh];
    (split; [exists start; split; [lia|done]|]); exists s0, t0, sc0, vs, start, t;
    (split; [done|]; split; [done|]); [left|right]; (split; [by apply Z.eqb_eq|done]).
Qed.

Lemma decode_packet_spec lt pkt id sc :
  packet_ok id pkt →
  wp (decode_packet lt pkt id sc) (λ dg, ∃ start, 0 ≤ start ∧ decoded id pkt start dg) (λ _, True).
Proof. intros Hpk. eapply wp_mono; [by apply decode_packet_shows|by intros dg [? _]|done]. Qed.

(** C39: [decode_packet] returns on every packet, for every link type: no index
    outside a slice, no arithmetic overflow, no endless VLAN or extension-header
    chain.  A datagram it returns is the one the packet's headers show
    ([packet_shows]).  The link header of the given link type fixes where its payload
    starts, its EtherType and, for SLL2, the interface; the VLAN tags are passed four
    octets at a time and kept in order.  Of an IPv4 header the addresses, protocol,
    identification, fragment offset and more-fragments bit are those octets, the payload
    is exactly the octets from the header length to the total length (link padding
    excluded), each with its own position in the packet as its source, the checksum is
    valid exactly when the header sums to zero, and the transport checksum is beyond
    reach exactly when an option is a source route.  Of an IPv6 header the same holds
    with the payload length as the end, and with the protocol, the start and the fragment
    those at the end of the chain of at most 16 extension headers, an atomic fragment
    header being passed.  Addresses have the length of their family, and a fragment obeys
    the fragmentation rules (8-byte units, not empty). *)
Theorem decode_packet_sound (lt : Z) (pkt : list Z) (id : PacketId) (sc : Scope) :
  packet_ok id pkt →
  wp (decode_packet lt pkt id sc)
     (λ dg, datagram_ok dg ∧ packet_shows lt pkt id sc dg)
     (λ _, True).
Proof.
  intros Hpk. eapply wp_mono; [by apply decode_packet_shows| |done].
  intros dg [(start & _ & Hd & _) Hsh]. done.
Qed.

(** ** [decode_transport] *)

(** Byte strings put together from known ones. *)
Ltac bytes_solve :=
  repeat first
    [ assumption
    | apply bytes_ok_app; split
    | apply List.Forall_nil
    | apply List.Forall_cons ].

(** The pseudo-header of RFC 793 (IPv4) and RFC 8200 (IPv6). *)
Definition pseudo_header (src dst : IpAddr) (proto n : Z) : list Z :=
  match src, dst with
  | V4 a, V4 b => a ++ b ++ [0; proto] ++ to_be_bytes 2 n
  | V6 a, V6 b => a ++ b ++ to_be_bytes 4 n ++ [0; 0; 0; proto]
  | _, _ => []
  end.

Definition checksum_of (src dst : IpAddr) (proto : Z) (bytes : list Z) : Checksum :=
  if rfc1071 (pseudo_header src dst proto (zlen bytes) ++ bytes) =? 0 then Valid else Invalid.

Lemma transport_checksum_spec v6 src dst proto bytes :
  addr_ok v6 src → addr_ok v6 dst → is_byte proto → bytes_ok bytes → zlen bytes ≤ 65535 →
  transport_checksum src dst proto bytes = Ok (checksum_of src dst proto bytes).
Proof.
  intros Hs Hd Hp Hb Hl. unfold transport_checksum, checksum_of.
  change new with (state_of []).
  assert (is_byte 0) by (unfold is_byte; lia).
  pose proof (to_be_bytes_ok 2 (zlen bytes)). pose proof (to_be_bytes_ok 4 (zlen bytes)).
  destruct src as [a|a], dst as [b|b]; simpl in Hs, Hd; try (exfalso; naive_solver congruence);
    destruct Hs as (_ & Ha & _), Hd as (_ & Hbb & _);
    rewrite (proj2 (Z.leb_le _ _)) by lia;
    repeat (rewrite update_state_of, bind_Ok by (bytes_solve));
    rewrite finish_state_of by (bytes_solve);
    simpl; by rewrite <- ?app_assoc.
Qed.

(** The evidence [e] is the range [a..b] of the evidence [w], sources included. *)
Definition part_of (w e : EvidenceBytes) (a b : Z) : Prop :=
  0 ≤ a ≤ b ∧ b ≤ zlen (data w) ∧ ev_ok e ∧ data e = sub (data w) a b ∧
  origins e = sub (origins w) a b.

(** The TCP segment in the transport bytes [d], which start at [prefix]. *)
Definition tcp_of (dg : Datagram) (prefix : Z) (d : list Z) (s : TcpSegment) : Prop :=
  let h := Z.shiftr (nthz d 12) 4 * 4 in
  20 ≤ h ≤ zlen d ∧ part_of (payload dg) (tcp_payload s) (prefix + h) (zlen (data (payload dg))) ∧
  tcp_source s = {| address := source dg; port := from_be_bytes (sub d 0 2) |} ∧
  tcp_destination s = {| address := destination dg; port := from_be_bytes (sub d 2 4) |} ∧
  sequence s = from_be_bytes (sub d 4 8) ∧ acknowledgement s = from_be_bytes (sub d 8 12) ∧
  flags s = nthz d 13 ∧
  (tcp_checksum s = checksum_of (source dg) (destination dg) 6 d ∨ tcp_checksum s = NotChecked).

(** The UDP datagram in the transport bytes [d]. *)
Definition udp_of (dg : Datagram) (prefix : Z) (d : list Z) (u : UdpDatagram) : Prop :=
  let n := from_be_bytes (sub d 4 6) in
  8 ≤ n ≤ zlen d ∧ part_of (payload dg) (udp_payload u) (prefix + 8) (prefix + n) ∧
  udp_source u = {| address := source dg; port := from_be_bytes (sub d 0 2) |} ∧
  udp_destination u = {| address := destination dg; port := from_be_bytes (sub d 2 4) |} ∧
  (if from_be_bytes (sub d 6 8) =? 0
   then udp_checksum u = if is_ipv6 dg then Invalid else NotPresent
   else udp_checksum u = checksum_of (source dg) (destination dg) 17 (sub d 0 n) ∨
        udp_checksum u = NotChecked).

(** What the strict policy adds. *)
Definition strict_ok (dg : Datagram) (t : Transport) : Prop :=
  ip_checksum dg ≠ Invalid ∧
  match t with
  | Tcp s => tcp_checksum s = Valid
  | Udp u => udp_checksum u = Valid ∨ udp_checksum u = NotPresent
  end.

Definition transport_of (dg : Datagram) (prefix : Z) (t : Transport) : Prop :=
  let d := sub (data (payload dg)) prefix (zlen (data (payload dg))) in
  match t with Tcp s => tcp_of dg prefix d s | Udp u => udp_of dg prefix d u end.

Section transport.
Context (dg : Datagram) (pol : ChecksumPolicy) (Hdg : datagram_ok dg).

Lemma wp_evidence_slice a b (Q : EvidenceBytes → Prop) (R : Error → Prop) :
  0 ≤ a → a ≤ b → b ≤ zlen (data (payload dg)) →
  (∀ e, part_of (payload dg) e a b → Q e) → wp (Provenance.slice (payload dg) a b) Q R.
Proof using Hdg.
  intros Ha Hab Hb HQ. destruct Hdg as (Hev & _).
  destruct (slice_ev_ok _ a b Hev Ha Hab Hb) as (e & -> & He & Hd & Ho).
  apply HQ. split_and!; try done; lia.
Qed.

Lemma wp_checked_checksum ctx proto bytes (Q : Checksum → Prop) (R : Error → Prop) :
  is_byte proto → bytes_ok bytes → zlen bytes ≤ 65535 →
  (∀ c, c = checksum_of (source dg) (destination dg) proto bytes ∨ c = NotChecked → Q c) →
  wp (checked_transport_checksum dg ctx proto bytes) Q R.
Proof using Hdg.
  intros Hp Hb Hl HQ. destruct Hdg as (_ & _ & (_ & _ & Hs & Hd) & _).
  destruct ctx; simpl; [|by apply HQ; right].
  rewrite (transport_checksum_spec (is_ipv6 dg)) by done. apply HQ. by left.
Qed.

Lemma wp_supported c (Q : unit → Prop) :
  (pol = RequireValid → c ≠ NotChecked → Q ()) → (pol = Observe → Q ()) →
  wp (require_supported_checksum c pol) Q (λ _, True).
Proof.
  intros H1 H2. unfold require_supported_checksum.
  destruct pol; simpl; [by apply H2|]. case_bool_decide; [done|]. simpl. by apply H1.
Qed.

Context (prefix : Z) (d : list Z).
Context (Hp : 0 ≤ prefix ≤ zlen (data (payload dg))).
Context (Hd : d = sub (data (payload dg)) prefix (zlen (data (payload dg)))).

Lemma transport_bytes : bytes_ok d ∧ zlen d = zlen (data (payload dg)) - prefix ∧
  zlen (data (payload dg)) ≤ 65535.
Proof using Hd Hdg Hp.
  destruct Hdg as (([Hb _] & _) & Hl & _). subst d.
  rewrite zlen_sub by lia. split_and!; [by apply bytes_ok_sub|done|done].
Qed.

Lemma decode_tcp_spec ctx :
  wp (decode_tcp dg pol prefix ctx d)
     (λ t, transport_of dg prefix t ∧
           match t with
           | Tcp s => pol = RequireValid → tcp_checksum s = Valid
           | Udp _ => False
           end) (λ _, True).
Proof using Hd Hdg Hp.
  pose proof transport_bytes as (Hb & Hz & Hl). unfold decode_tcp. byte_fact d 12.
  pose proof (shiftr_bound (nthz d 12) 4 16 ltac:(lia) ltac:(lia)).
  wire_go; try done. apply wp_checked_checksum; try done; [lia|].
  intros ck Hck. wire_go. 
  apply wp_supported; intros Hpol; try intros Hnc; wire_go; try done.
  all: apply wp_evidence_slice; [lia..|]; intros e He; apply wp_ok; split;
    [unfold transport_of; cbv zeta; rewrite <- Hd; unfold tcp_of; simpl; split_and!; done || lia|].
  - simpl. intros _. rewrite (bool_decide_eq_true_2 (pol = RequireValid)) in * by done.
    simpl in *. bool_facts. by eapply bool_decide_eq_true_1.
  - simpl. congruence.
Qed.

Lemma decode_udp_spec ctx :
  wp (decode_udp dg pol prefix ctx d)
     (λ t, transport_of dg prefix t ∧
           match t with
           | Udp u => pol = RequireValid → udp_checksum u = Valid ∨ udp_checksum u = NotPresent
           | Tcp _ => False
           end) (λ _, True).
Proof using Hd Hdg Hp.
  pose proof transport_bytes as (Hb & Hz & Hl). unfold decode_udp.
  wire_go; try done;
    [|apply wp_checked_checksum; [done|auto with pcap|slice_len; lia|]; intros ck Hck; wire_go].
  all: apply wp_supported; intros Hpol; try intros Hnc; wire_go; try done.
  all: apply wp_evidence_slice; [lia..|]; intros e He; apply wp_ok; split;
    [unfold transport_of; cbv zeta; rewrite <- Hd; unfold udp_of; cbn -[Z.eqb];
     match goal with H : (from_be_bytes (sub d 6 8) =? 0) = _ |- _ => rewrite H end;
     split_and!; done || lia|simpl; intros Hpol'; try congruence].
  all: rewrite (bool_decide_eq_true_2 (pol = RequireValid)) in * by done; simpl in *.
  all: match goal with H : bool_decide _ = false |- _ => apply bool_decide_eq_false in H end.
  - destruct (is_ipv6 dg); [done|by right].
  - destruct ck; naive_solver.
Qed.
End transport.

(** The post-fragment extension loop. *)
Lemma post_fragment_spec dg :
  datagram_ok dg →
  wp (loop 18 (post_fragment_step dg (data (payload dg))) (protocol dg, 0, 0, checksum_context dg))
     (λ '(_, prefix, _), 0 ≤ prefix ≤ zlen (data (payload dg)) ∧ (is_ipv6 dg = false → prefix = 0))
     (λ _, True).
Proof.
  intros (([Hb _] & _) & Hl & _). set (all := data (payload dg)) in *.
  apply (wp_loop (λ '(_, prefix, depth, _), 0 ≤ prefix ≤ zlen all ∧ 0 ≤ depth ≤ 16 ∧
                    (is_ipv6 dg = false → prefix = 0)) (λ st, 17 - st.1.2)).
  - intros [[[proto prefix] depth] ctx] (Hp & Hd & Hz). unfold post_fragment_step.
    wire_go; try done. byte_fact all (prefix + 1).
    pose proof (extension_len_bound proto (nthz all (prefix + 1)) ltac:(lia)).
    wire_go. eapply wp_mono; [apply wp_ipv6_options; [auto with pcap|slice_len; lia]| |done].
    intros c _. wire_go. simpl. split_and!; try lia. congruence.
  - pose proof (zlen_nonneg all). split_and!; try lia.
  - simpl. lia.
Qed.

Lemma decode_transport_spec (dg : Datagram) (pol : ChecksumPolicy) :
  datagram_ok dg →
  wp (decode_transport dg pol)
     (λ t, fragment dg = None ∧
           (∃ prefix, 0 ≤ prefix ≤ zlen (data (payload dg)) ∧
                      (is_ipv6 dg = false → prefix = 0) ∧ transport_of dg prefix t) ∧
           (pol = RequireValid → strict_ok dg t))
     (λ _, True).
Proof.
  intros Hdg. unfold decode_transport. destruct (fragment dg) eqn:Hf; [done|].
  destruct (_ && _) eqn:Hck; [done|]. cbv zeta. apply wp_bind.
  eapply wp_mono; [by apply post_fragment_spec| |done].
  intros [[proto prefix] ctx] [Hp Hz]. apply wp_bind. unfold slice_from.
  apply wp_slice; [lia..|].
  assert (pol = RequireValid → ip_checksum dg ≠ Invalid) as Hip.
  { intros ->. simpl in Hck. by apply bool_decide_eq_false in Hck. }
  wire_step; [|wire_step; [|done]].
  - eapply wp_mono; [by apply decode_tcp_spec| |done].
    intros [s|u] [Ht Hs]; [|done]. split_and!; eauto. intros Hpol. split; auto.
  - eapply wp_mono; [by apply decode_udp_spec| |done].
    intros [s|u] [Ht Hs]; [done|]. split_and!; eauto. intros Hpol. split; auto.
Qed.


(** ** Witnesses *)

(** An Ethernet frame with an IPv4 datagram and a TCP segment of four bytes. *)
Definition sample_frame : list Z :=
  [2; 0; 0; 0; 0; 1; 2; 0; 0; 0; 0; 2; 8; 0] ++
  [69; 0; 0; 44; 0; 1; 0; 0; 64; 6; 102; 201; 10; 0; 0; 1; 10; 0; 0; 2] ++
  [78; 32; 1; 246; 0; 0; 0; 100; 0; 0; 0; 0; 80; 24; 32; 0; 39; 70; 0; 0] ++ [1; 2; 3; 4].
Definition sample_scope : Scope :=
  {| section := 0; interface := 0; link_interface := None; vlans := [] |}.
Definition sample_datagram : Datagram :=
  {| scope := sample_scope; source := V4 [10; 0; 0; 1]; destination := V4 [10; 0; 0; 2];
     protocol := 6; is_ipv6 := false; network_header_len := 20; fragment := None;
     payload := from_packet (sub sample_frame 34 58) (sample_packet 1) 34;
     ip_checksum := Valid; checksum_context := BaseAddresses |}.

Lemma sample_frame_ok : packet_ok (sample_packet 1) sample_frame.
Proof. split_and!; [|by vm_compute..]. unfold sample_frame. repeat (constructor; [unfold is_byte; lia|]). constructor. Qed.

Example sample_frame_decodes :
  decode_packet 1 sample_frame (sample_packet 1) sample_scope = Ok sample_datagram.
Proof. by vm_compute. Qed.

Lemma decode_packet_witness :
  decode_packet 1 sample_frame (sample_packet 1) sample_scope = Ok sample_datagram ∧
  wp (decode_packet 1 sample_frame (sample_packet 1) sample_scope)
     (λ dg, datagram_ok dg ∧ packet_shows 1 sample_frame (sample_packet 1) sample_scope dg)
     (λ _, True).
Proof.
  split; [by vm_compute|].
  apply (decode_packet_sound 1 sample_frame (sample_packet 1) sample_scope). apply sample_frame_ok.
Defined.

Lemma sample_datagram_ok : datagram_ok sample_datagram.
Proof.
  pose proof (decode_packet_spec 1 sample_frame (sample_packet 1) sample_scope sample_frame_ok) as H.
  rewrite sample_frame_decodes in H. by destruct H as (_ & _ & ? & _).
Qed.

