(* ===== verification/Fragment.v ===== *)
(** * IP fragment reassembly (src/fragment.rs)

    The bounded reassembler: fragment sets by key, their expiry deadlines, and
    the payload bytes retained.  The definitions are the handlers of the source,
    every state change included; [FragmentFacts] proves the accounting, the
    content of a reassembled datagram and the quarantine of conflicting sets. *)

From S2P Require Import Errors Ord Checksum Provenance Wire Prelude.

Record Key : Type := {
  k_scope : Scope;
  k_source : IpAddr;
  k_destination : IpAddr;
  k_protocol : Z;
  k_id : Z;
  k_ipv6 : bool;
}.

(** [derive(Ord)]. *)
Definition key_fields (k : Key) : Scope * (IpAddr * (IpAddr * (Z * (Z * bool)))) :=
  (k_scope k, (k_source k, (k_destination k, (k_protocol k, (k_id k, k_ipv6 k))))).
#[global] Instance Key_ord : Ord Key.
Proof. apply (proj_ord key_fields). by intros [] [] [=->->->->->->]. Defined.

Record Part : Type := {
  p_start : Z;
  p_more : bool;
  bytes : EvidenceBytes;
}.

Record Assembly : Type := {
  template : Datagram;
  parts : list Part;
  a_end : option Z;
  first_frame : Z;
  a_packets : list PacketId;
  poisoned : bool;
}.

Record FragmentNotice : Type := {
  n_code : string;
  n_packets : list PacketId;
}.

Inductive FragmentOutcome : Type :=
| Pending
| Complete (dg : Datagram) (ids : list PacketId)
| Rejected (n : FragmentNotice).

Record FragmentReassembler : Type := {
  sets : list (Key * Assembly);          (* BTreeMap<Key, Assembly> *)
  deadlines : list ((Z * Key) * unit);   (* BTreeSet<(u64, Key)> *)
  retained : Z;
  f_limits : Limits;
}.

(** [FragmentReassembler::new]. *)
Definition reassembler_new (l : Limits) : FragmentReassembler :=
  {| sets := []; deadlines := []; retained := 0; f_limits := l |}.

(** The frame at which a set first seen at [frame] expires, when it is a [u64]. *)
Definition deadline_of (l : Limits) (frame : Z) : option Z :=
  match checked_add u64_max frame (fragment_frame_lifetime l) with
  | Some n => checked_add u64_max n 1
  | None => None
  end.

(** [a.parts.iter().map(|p| p.bytes.len()).sum()]. *)
Definition parts_size (ps : list Part) : result Z :=
  foldM (λ acc p, add_ovf usize_max acc (len (bytes p))) 0 ps.

(** [remove]. *)
Definition remove (r : FragmentReassembler) (key : Key)
    : result (FragmentReassembler * option Assembly) :=
  match bt_get (sets r) key with
  | None => Ok (r, None)
  | Some a =>
      let ds := match deadline_of (f_limits r) (first_frame a) with
                | Some d => bt_remove (deadlines r) (d, key)
                | None => deadlines r
                end in
      size ← parts_size (parts a);
      left ← sub_ovf (retained r) size;
      Ok ({| sets := bt_remove (sets r) key; deadlines := ds; retained := left;
             f_limits := f_limits r |}, Some a)
  end.

(** [expire], one round: the first deadline is popped and its set removed. *)
Definition expire_step (frame : Z) (st : FragmentReassembler * list FragmentNotice)
    : result (step (FragmentReassembler * list FragmentNotice)
                   (FragmentReassembler * list FragmentNotice)) :=
  let '(r, notices) := st in
  match deadlines r with
  | ((d, key), _) :: rest =>
      if d <=? frame then
        x ← remove {| sets := sets r; deadlines := rest; retained := retained r;
                      f_limits := f_limits r |} key;
        match x with
        | (r', Some a) =>
            Ok (Continue (r', notices ++ [{| n_code := "fragment_expired";
                                             n_packets := a_packets a |}]))
        | (r', None) => Ok (Continue (r', notices))
        end
      else Ok (Break st)
  | [] => Ok (Break st)
  end.

(** [expire]. *)
Definition expire (r : FragmentReassembler) (frame : Z)
    : result (FragmentReassembler * list FragmentNotice) :=
  loop (S (length (deadlines r))) (expire_step frame) (r, []).

(** ** [push] *)

Definition fragment_key (dg : Datagram) (info : FragmentInfo) : Key :=
  {| k_scope := scope dg; k_source := source dg; k_destination := destination dg;
     k_protocol := if is_ipv6 dg then 0 else protocol dg;
     k_id := fi_id info; k_ipv6 := is_ipv6 dg |}.

(** [push], admission: the packets of the set with the new ones and the retained
    size, or the limit that is exceeded. *)
Definition admission (r : FragmentReassembler) (key : Key) (dg : Datagram)
    : result (list PacketId * Z) :=
  let existing := bt_get (sets r) key in
  let old := match existing with Some s => a_packets s | None => [] end in
  let admitted := sort_dedup (old ++ packets (payload dg)) in
  if (max_fragments_per_set (f_limits r) <? zlen admitted) ||
     match existing with
     | Some s => max_fragments_per_set (f_limits r) <=? zlen (parts s)
     | None => false
     end
  then Err (limit "fragments_per_set")
  else
    new_size ← (if match existing with Some s => poisoned s | None => false end
                then Ok (retained r)
                else ok_or (checked_add usize_max (retained r) (len (payload dg)))
                       (limit "fragment_payload"));
    if max_retained_payload (f_limits r) <? new_size then Err (limit "fragment_payload")
    else Ok (admitted, new_size).

(** The template: the fixed metadata, not the payload. *)
Definition template_of (dg : Datagram) : Datagram :=
  {| scope := scope dg; source := source dg; destination := destination dg;
     protocol := protocol dg; is_ipv6 := is_ipv6 dg;
     network_header_len := network_header_len dg; fragment := fragment dg;
     payload := evidence_default; ip_checksum := ip_checksum dg;
     checksum_context := checksum_context dg |}.

(** [push], a new set when the key is unknown. *)
Definition open_set (r : FragmentReassembler) (key : Key) (dg : Datagram) (frame : Z)
    : result FragmentReassembler :=
  match bt_get (sets r) key with
  | Some _ => Ok r
  | None =>
      if max_fragment_sets (f_limits r) <=? zlen (sets r) then Err (limit "fragment_sets")
      else
        let ds := match deadline_of (f_limits r) frame with
                  | Some d => bt_insert (deadlines r) (d, key) ()
                  | None => deadlines r
                  end in
        Ok {| sets := bt_insert (sets r) key
                        {| template := template_of dg; parts := []; a_end := None;
                           first_frame := frame; a_packets := []; poisoned := false |};
              deadlines := ds; retained := retained r; f_limits := f_limits r |}
  end.

(** The writes through [get_mut]. *)
Definition put_set (r : FragmentReassembler) (key : Key) (a : Assembly) : FragmentReassembler :=
  {| sets := bt_insert (sets r) key a; deadlines := deadlines r; retained := retained r;
     f_limits := f_limits r |}.
Definition with_template (a : Assembly) (t : Datagram) : Assembly :=
  {| template := t; parts := parts a; a_end := a_end a; first_frame := first_frame a;
     a_packets := a_packets a; poisoned := poisoned a |}.
Definition with_packets (a : Assembly) (ids : list PacketId) : Assembly :=
  {| template := template a; parts := parts a; a_end := a_end a; first_frame := first_frame a;
     a_packets := ids; poisoned := poisoned a |}.
Definition with_end (a : Assembly) (e : option Z) : Assembly :=
  {| template := template a; parts := parts a; a_end := e; first_frame := first_frame a;
     a_packets := a_packets a; poisoned := poisoned a |}.
Definition with_parts (a : Assembly) (ps : list Part) : Assembly :=
  {| template := template a; parts := ps; a_end := a_end a; first_frame := first_frame a;
     a_packets := a_packets a; poisoned := poisoned a |}.
Definition poison (a : Assembly) : Assembly :=
  {| template := template a; parts := parts a; a_end := a_end a; first_frame := first_frame a;
     a_packets := a_packets a; poisoned := true |}.

(** [push], the updates of the template: a bad checksum or unsupported context
    sticks; the fragment at offset 0 owns protocol and header length. *)
Definition merge_template (t dg : Datagram) (info : FragmentInfo) : Datagram :=
  let first := fi_offset info =? 0 in
  {| scope := scope t; source := source t; destination := destination t;
     protocol := if first then protocol dg else protocol t;
     is_ipv6 := is_ipv6 t;
     network_header_len := if first then network_header_len dg else network_header_len t;
     fragment := fragment t; payload := payload t;
     ip_checksum := match ip_checksum dg with Invalid => Invalid | _ => ip_checksum t end;
     checksum_context := match checksum_context dg with
                         | Unsupported => Unsupported
                         | BaseAddresses => checksum_context t
                         end |}.

(** [push], the terminal length: the set's end and a rejection. *)
Definition terminal_length (old : option Z) (info : FragmentInfo) (stop : Z)
    : option Z * option string :=
  if more info then (old, None)
  else (Some stop,
        match old with
        | Some o => if o =? stop then None else Some "conflicting_fragment_terminal_length"
        | None => None
        end).

(** [set.parts.iter().any(..)]: a part outside the terminal length. *)
Fixpoint any_outside (total : Z) (ps : list Part) : result bool :=
  match ps with
  | [] => Ok false
  | p :: ps =>
      e ← add_ovf usize_max (p_start p) (len (bytes p));
      if (total <? e) || (p_more p && (total <=? e)) then Ok true else any_outside total ps
  end.

Definition outside_terminal (total : Z) (info : FragmentInfo) (stop : Z) (ps : list Part)
    : result bool :=
  if (total <? stop) || (more info && (total <=? stop)) then Ok true else any_outside total ps.

(** [push], the overlap check against one previous part. *)
Definition overlap_step (v6 : bool) (off stop : Z) (dat : list Z) (rejection : option string)
    (previous : Part) : result (option string) :=
  let a := Z.max (p_start previous) off in
  e ← add_ovf usize_max (p_start previous) (len (bytes previous));
  let b := Z.min e stop in
  if a <? b then
    if v6 then Ok (Some "ipv6_overlapping_fragments")
    else
      a1 ← sub_ovf a (p_start previous); b1 ← sub_ovf b (p_start previous);
      a2 ← sub_ovf a off; b2 ← sub_ovf b off;
      x ← slice (data (bytes previous)) a1 b1;
      y ← slice dat a2 b2;
      if bytes_eqb x y then Ok rejection else Ok (Some "conflicting_fragment_bytes")
  else Ok rejection.

(** [sort_by_key(|p| p.start)], a stable sort. *)
Fixpoint insert_part (x : Part) (l : list Part) : list Part :=
  match l with
  | [] => [x]
  | y :: l' => if p_start x <=? p_start y then x :: l else y :: insert_part x l'
  end.
Definition sort_parts (l : list Part) : list Part := foldr insert_part [] l.

(** [push], the contiguous coverage from 0. *)
Fixpoint coverage (cursor : Z) (ps : list Part) : result Z :=
  match ps with
  | [] => Ok cursor
  | p :: ps =>
      if cursor <? p_start p then Ok cursor
      else e ← add_ovf usize_max (p_start p) (len (bytes p)); coverage (Z.max cursor e) ps
  end.

(** [push], the reassembled payload. *)
Definition join_step (joined : EvidenceBytes) (part : Part) : result EvidenceBytes :=
  let skip := Z.min (saturating_sub (len joined) (p_start part)) (len (bytes part)) in
  if skip <? len (bytes part) then
    s ← Provenance.slice (bytes part) skip (len (bytes part));
    append joined s 65535
  else Ok joined.

Definition reject (r : FragmentReassembler) (key : Key) (a : Assembly) (c : string)
    : FragmentReassembler * FragmentOutcome :=
  (put_set r key a, Rejected {| n_code := c; n_packets := a_packets a |}).

(** [push], the checks of the new fragment against its set: the set with the
    terminal length and template updated, and a rejection. *)
Definition examine (set : Assembly) (key : Key) (dg : Datagram) (info : FragmentInfo) (stop : Z)
    : result (Assembly * option string) :=
  let set := with_template set (merge_template (template set) dg info) in
  let '(e, rejection) := terminal_length (a_end set) info stop in
  let set := with_end set e in
  rejection ← (match e with
               | Some total =>
                   o ← outside_terminal total info stop (parts set);
                   Ok (if (o : bool) then Some "fragment_outside_terminal_length" else rejection)
               | None => Ok rejection
               end);
  rejection ← foldM (overlap_step (k_ipv6 key) (fi_offset info) stop (data (payload dg)))
                rejection (parts set);
  Ok (set, rejection).

(** [push], after acceptance: is the set complete? *)
Definition is_ready (set : Assembly) : result bool :=
  match a_end set with
  | Some total => c ← coverage 0 (parts set); Ok (c =? total)
  | None => Ok false
  end.

(** The reassembled packet would exceed the IP length field. *)
Definition too_long (set : Assembly) (key : Key) : result bool :=
  match a_end set with
  | Some total =>
      let overhead := if k_ipv6 key
                      then saturating_sub (network_header_len (template set)) 48
                      else network_header_len (template set) in
      n ← add_ovf usize_max total overhead;
      Ok (65535 <? n)
  | None => Ok false
  end.

(** [push], the end: the set is removed and its parts are joined. *)
Definition complete (r : FragmentReassembler) (key : Key)
    : result (FragmentReassembler * FragmentOutcome) :=
  x ← remove r key;
  match x with
  | (_, None) => Err (limit "fragment_state")
  | (r', Some set) =>
      joined ← foldM join_step evidence_default (parts set);
      let t := template set in
      Ok (r', Complete
                {| scope := scope t; source := source t; destination := destination t;
                   protocol := protocol t; is_ipv6 := is_ipv6 t;
                   network_header_len := network_header_len t; fragment := None;
                   payload := joined; ip_checksum := ip_checksum t;
                   checksum_context := checksum_context t |} (a_packets set))
  end.

(** [push], with the set at hand: quarantine, checks, acceptance. *)
Definition push_set (r : FragmentReassembler) (key : Key) (set : Assembly) (dg : Datagram)
    (info : FragmentInfo) (stop new_size : Z)
    : result (FragmentReassembler * FragmentOutcome) :=
  if poisoned set then Ok (reject r key set "fragment_set_quarantined")
  else
  x ← examine set key dg info stop;
  match x with
  | (set, Some code) => Ok (reject r key (poison set) code)
  | (set, None) =>
      let r := {| sets := sets r; deadlines := deadlines r; retained := new_size;
                  f_limits := f_limits r |} in
      let set := with_parts set (sort_parts (parts set ++
                   [{| p_start := fi_offset info; p_more := more info; bytes := payload dg |}])) in
      ready ← is_ready set;
      if (ready : bool) then
        long ← too_long set key;
        if (long : bool) then Ok (reject r key (poison set) "reassembled_ip_length_overflow")
        else complete (put_set r key set) key
      else Ok (put_set r key set, Pending)
  end.

(** [push]. *)
Definition push (r : FragmentReassembler) (dg : Datagram) (frame : Z)
    : result (FragmentReassembler * FragmentOutcome) :=
  Errors.validate (f_limits r) ;;
  match fragment dg with
  | None => Ok (r, Complete dg (packets (payload dg)))
  | Some info =>
      let key := fragment_key dg info in
      stop ← ok_or (checked_add usize_max (fi_offset info) (len (payload dg)))
               (limit "fragment_range");
      if (65535 <? stop) || is_empty (payload dg)
      then Ok (r, Rejected {| n_code := "invalid_fragment_range";
                              n_packets := packets (payload dg) |})
      else if negb (Provenance.validate (payload dg))
      then Err (error_new Invariant 0 "provenance" "invalid fragment source spans")
      else
        ad ← admission r key dg;
        let '(admitted, new_size) := ad in
        r ← open_set r key dg frame;
        set ← ok_or (bt_get (sets r) key) (limit "fragment_state");
        push_set r key (with_packets set admitted) dg info stop new_size
  end.

(** [finish]: a notice per set left. *)
Definition finish (r : FragmentReassembler) : list FragmentNotice :=
  map (λ ka, {| n_code := if poisoned ka.2 then "fragment_quarantine_at_eof"
                          else "incomplete_fragment_set_at_eof";
                n_packets := a_packets ka.2 |}) (sets r).
