(* ===== verification/FragmentFacts.v ===== *)
(** * Correctness of fragment reassembly

    The invariant [fr_ok] ties the retained-byte counter, the deadline index and
    the fragment sets together; every operation keeps it.  A completed datagram
    contains every accepted fragment's bytes at its offset and nothing else, each
    byte with a source; a set that saw a conflict yields nothing until it
    expires. *)

From Stdlib Require Import Sorting.
From S2P Require Import Errors Ord Checksum Provenance Wire WireFacts Prelude Fragment.

(** ** The invariant *)

Definition p_end (p : Part) : Z := p_start p + zlen (data (bytes p)).

Definition part_ok (p : Part) : Prop :=
  ev_ok (bytes p) ∧ 0 ≤ p_start p < p_end p ∧ p_end p ≤ 65535.

(** Two fragments carry the same bytes where they overlap. *)
Definition agree (p q : Part) : Prop :=
  ∀ x, p_start p ≤ x < p_end p → p_start q ≤ x < p_end q →
    nthz (data (bytes p)) (x - p_start p) = nthz (data (bytes q)) (x - p_start q).

Definition psize (ps : list Part) : Z :=
  foldr (λ p acc, zlen (data (bytes p)) + acc) 0 ps.

(** What a set that is not quarantined satisfies: its fragments agree and lie
    inside the terminal length, when that is known. *)
Definition consistent (a : Assembly) : Prop :=
  (∀ p q, p ∈ parts a → q ∈ parts a → agree p q) ∧
  (∀ total, a_end a = Some total → 0 ≤ total ≤ 65535 ∧ Forall (λ p, p_end p ≤ total) (parts a)).

Definition start_le (p q : Part) : Prop := p_start p ≤ p_start q.

Definition assembly_ok (l : Limits) (a : Assembly) : Prop :=
  Forall part_ok (parts a) ∧ StronglySorted start_le (parts a) ∧
  zlen (parts a) ≤ max_fragments_per_set l ∧ header_ok (template a) ∧
  0 ≤ first_frame a ≤ u64_max ∧ (poisoned a = false → consistent a).

Definition set_size (a : Assembly) : Z := psize (parts a).

Definition fr_ok (r : FragmentReassembler) : Prop :=
  limits_ok (f_limits r) ∧ bt_wf (sets r) ∧ bt_wf (deadlines r) ∧
  Forall (λ ka, assembly_ok (f_limits r) ka.2) (sets r) ∧
  retained r = bt_sum set_size (sets r) ∧ retained r ≤ max_retained_payload (f_limits r) ∧
  zlen (sets r) ≤ max_fragment_sets (f_limits r) ∧
  (∀ d k, bt_get (deadlines r) (d, k) = Some () ↔
          ∃ a, bt_get (sets r) k = Some a ∧ deadline_of (f_limits r) (first_frame a) = Some d).

Lemma reassembler_new_ok l : limits_ok l → fr_ok (reassembler_new l).
Proof.
  intros Hl. pose proof Hl as Hl'. limits_facts Hl'.
  split_and!; simpl; try done; try (constructor); try lia. 
  all: naive_solver.
Qed.

(** ** Sizes *)

Lemma psize_nonneg ps : 0 ≤ psize ps.
Proof. induction ps as [|p ps IH]; simpl; [lia|]. pose proof (zlen_nonneg (data (bytes p))). lia. Qed.

Lemma psize_app ps qs : psize (ps ++ qs) = psize ps + psize qs.
Proof. induction ps as [|p ps IH]; simpl; lia. Qed.

Lemma psize_perm ps qs : ps ≡ₚ qs → psize ps = psize qs.
Proof. induction 1; simpl; lia. Qed.

Lemma set_size_nonneg m : Forall (λ ka : Key * Assembly, 0 ≤ set_size ka.2) m.
Proof. apply Forall_forall. intros. apply psize_nonneg. Qed.

Lemma parts_size_ok ps : psize ps ≤ usize_max → parts_size ps = Ok (psize ps).
Proof.
  intros H. unfold parts_size.
  assert (∀ acc, 0 ≤ acc → acc + psize ps ≤ usize_max →
            foldM (E:=Error) (λ acc p, add_ovf usize_max acc (len (bytes p))) acc ps = Ok (acc + psize ps)) as Hg.
  { clear H. induction ps as [|p ps IH]; simpl; intros acc Ha Hs; [f_equal; lia|].
    pose proof (psize_nonneg ps). pose proof (zlen_nonneg (data (bytes p))). unfold len.
    rewrite add_ovf_ok, bind_Ok by lia. rewrite IH by lia. f_equal. lia. }
  rewrite Hg by lia. f_equal.
Qed.

(** ** [remove] and [expire] *)

Section remove.
Context (r : FragmentReassembler) (Hok : fr_ok r).

Definition removed (key : Key) (a : Assembly) : FragmentReassembler :=
  {| sets := bt_remove (sets r) key;
     deadlines := match deadline_of (f_limits r) (first_frame a) with
                  | Some d => bt_remove (deadlines r) (d, key)
                  | None => deadlines r
                  end;
     retained := retained r - set_size a; f_limits := f_limits r |}.

Lemma set_size_retained key a :
  bt_get (sets r) key = Some a → set_size a ≤ retained r ≤ usize_max.
Proof using Hok.
  intros Hg. destruct Hok as (Hl & _ & _ & _ & Hr & Hm & _).
  limits_facts Hl. split; [|lia]. rewrite Hr. apply (bt_sum_get _ _ key); [|done].
  apply set_size_nonneg.
Qed.

Lemma remove_spec key a :
  bt_get (sets r) key = Some a →
  remove r key = Ok (removed key a, Some a).
Proof using Hok.
  intros Hg. pose proof (set_size_retained key a Hg). unfold remove. rewrite Hg. cbv zeta.
  unfold set_size in *. rewrite parts_size_ok by lia. rewrite bind_Ok, sub_ovf_ok by lia. done.
Qed.

Lemma removed_ok key a : bt_get (sets r) key = Some a → fr_ok (removed key a).
Proof using Hok.
  intros Hg. pose proof (set_size_retained key a Hg). pose proof (psize_nonneg (parts a)).
  destruct Hok as (Hl & Hs & Hd & Ha & Hr & Hm & Hn & Hdl). unfold removed.
  split_and!; simpl; try done; try (unfold set_size in *; lia).
  - by apply bt_remove_wf.
  - case_match; [by apply bt_remove_wf|done].
  - by apply Forall_bt_remove.
  - rewrite bt_sum_remove, Hg by done. simpl. lia.
  - rewrite zlen_bt_sum, bt_sum_remove, <- zlen_bt_sum, Hg by done. simpl. lia.
  - intros d k. rewrite bt_get_remove.
    assert (bt_get (match deadline_of (f_limits r) (first_frame a) with
                    | Some d0 => bt_remove (deadlines r) (d0, key)
                    | None => deadlines r
                    end) (d, k) =
            if decide (key = k) then None else bt_get (deadlines r) (d, k)) as ->.
    { case_decide as Hk.
      - subst k. destruct (deadline_of (f_limits r) (first_frame a)) as [d0|] eqn:Hd0.
        + rewrite bt_get_remove. case_decide; [done|].
          destruct (bt_get (deadlines r) (d, key)) as [[]|] eqn:He; [|done].
          apply Hdl in He as (a' & Hg' & Hd'). rewrite Hg in Hg'. simplify_eq.
        + destruct (bt_get (deadlines r) (d, key)) as [[]|] eqn:He; [|done].
          apply Hdl in He as (a' & Hg' & Hd'). rewrite Hg in Hg'. simplify_eq.
      - case_match; [|done]. rewrite bt_get_remove. case_decide; [|done]. simplify_eq. }
    case_decide; [naive_solver|apply Hdl].
Qed.
End remove.

(** A set whose deadline is [frame] or earlier. *)
Definition expired (l : Limits) (frame : Z) (a : Assembly) : Prop :=
  ∃ d, deadline_of l (first_frame a) = Some d ∧ d ≤ frame.

Section expire.
Context (r0 : FragmentReassembler) (frame : Z).

(** Every set dropped so far is reported with the packets it cites. *)
Definition reported (ns : list FragmentNotice) (a : Assembly) : Prop :=
  ∃ n, n ∈ ns ∧ n_packets n = a_packets a.

Definition expire_inv (st : FragmentReassembler * list FragmentNotice) : Prop :=
  let '(r, ns) := st in
  fr_ok r ∧ f_limits r = f_limits r0 ∧ zlen ns + zlen (sets r) = zlen (sets r0) ∧
  (∀ k a, bt_get (sets r0) k = Some a →
    bt_get (sets r) k = Some a ∨
    bt_get (sets r) k = None ∧ expired (f_limits r0) frame a ∧ reported ns a) ∧
  (∀ n, n ∈ ns → ∃ k a, bt_get (sets r0) k = Some a ∧ n_packets n = a_packets a).

Definition expire_sub (st : FragmentReassembler * list FragmentNotice) : Prop :=
  ∀ k a, bt_get (sets st.1) k = Some a → bt_get (sets r0) k = Some a.

Lemma expire_remove r d key u rest :
  fr_ok r → deadlines r = ((d, key), u) :: rest →
  ∃ a, bt_get (sets r) key = Some a ∧ deadline_of (f_limits r) (first_frame a) = Some d ∧
    remove {| sets := sets r; deadlines := rest; retained := retained r;
              f_limits := f_limits r |} key = Ok (removed r key a, Some a) ∧
    deadlines (removed r key a) = rest.
Proof.
  intros Hok Hd. pose proof Hok as (_ & _ & Hwf & _ & _ & _ & _ & Hdl).
  assert (bt_get (deadlines r) (d, key) = Some ()) as Hg.
  { rewrite Hd. cbn [bt_get]. rewrite cmp_refl. by destruct u. }
  apply Hdl in Hg as (a & Hg & Hda). exists a. split_and!; try done.
  - pose proof (remove_spec r Hok key a Hg) as Hr. unfold remove, removed in *. cbn [sets f_limits retained deadlines] in *.
    rewrite Hg, Hda in *. rewrite <- Hr. do 3 f_equal. rewrite Hd. cbn [bt_remove].
    by rewrite cmp_refl.
  - unfold removed; simpl. rewrite Hda, Hd. cbn [bt_remove]. rewrite cmp_refl.
    rewrite Hd in Hwf. apply bt_remove_notin. by apply bt_wf_head in Hwf as [_ ?].
Qed.

Lemma expire_step_spec r ns :
  expire_inv (r, ns) → expire_sub (r, ns) →
  wp (expire_step frame (r, ns))
     (λ x, match x with
           | Continue st => (expire_inv st ∧ expire_sub st) ∧
                            0 ≤ zlen (deadlines st.1) < zlen (deadlines r)
           | Break st => st = (r, ns) ∧ ∀ d k, bt_get (deadlines r) (d, k) = Some () → frame < d
           end) (λ _, False).
Proof.
  intros (Hok & Hlim & Hn & Hcov & Hrep) Hsub. unfold expire_step.
  destruct (deadlines r) as [|[[d key] u] rest] eqn:Hd; [by split|].
  destruct (Z.leb_spec d frame) as [Hle|Hgt].
  - destruct (expire_remove r d key u rest Hok Hd) as (a & Hg & Hda & -> & Hrest). rewrite bind_Ok.
    apply wp_ok. rewrite zlen_cons. pose proof (zlen_nonneg rest).
    cbn [fst snd]. rewrite Hrest. split; [split|lia].
    + split_and!; [by apply removed_ok|done|..].
      * rewrite zlen_app. unfold removed; simpl. destruct Hok as (_ & Hwf & _).
        rewrite (zlen_bt_sum (bt_remove _ _)), bt_sum_remove, <- zlen_bt_sum, Hg by done.
        simpl. rewrite zlen_cons, zlen_nil. lia.
      * intros k a' Hk. unfold removed; simpl. rewrite bt_get_remove. case_decide.
        -- subst k. right. destruct (Hcov _ _ Hk) as [Hk'|[Hk' _]]; [|congruence].
           rewrite Hg in Hk'. simplify_eq. split_and!; [done|exists d; by rewrite <- Hlim|].
           eexists. split; [apply elem_of_app; right; apply list_elem_of_here|done].
        -- destruct (Hcov _ _ Hk) as [Hk'|(Hk' & He & n & Hin & Hp)]; [by left|right].
           split_and!; [done..|]. exists n. split; [|done]. apply elem_of_app. by left.
      * intros n [Hin| ->%list_elem_of_singleton]%elem_of_app; [by apply Hrep|].
        exists key, a. split; [by apply Hsub|done].
    + intros k a'. unfold removed; simpl. rewrite bt_get_remove. case_decide; [done|]. apply Hsub.
  - apply wp_ok. split; [done|]. intros d' k' Hg%bt_get_elem.
    destruct Hok as (_ & _ & Hwf & _). rewrite Hd in Hwf. unfold bt_wf in Hwf. simpl in Hwf.
    apply StronglySorted_inv in Hwf as [_ Hall]. rewrite Forall_forall in Hall.
    apply elem_of_cons in Hg as [[=]|Hg]; [lia|].
    assert (lt_ord (d, key) (d', k')) as Hlt
      by (apply Hall, list_elem_of_fmap; by exists ((d', k'), ())).
    revert Hlt. unfold lt_ord. cbn. unfold pair_cmp. cbn.
    destruct (Z.compare_spec d d'); simpl; [lia|lia|done].
Qed.
End expire.

Lemma expire_spec r frame :
  fr_ok r →
  wp (expire r frame)
     (λ '(r', ns), fr_ok r' ∧ zlen ns + zlen (sets r') = zlen (sets r) ∧
        (∀ k a, bt_get (sets r') k = Some a ↔
               bt_get (sets r) k = Some a ∧ ¬ expired (f_limits r) frame a) ∧
        (∀ k a, bt_get (sets r) k = Some a → expired (f_limits r) frame a → reported ns a) ∧
        (∀ n, n ∈ ns → ∃ k a, bt_get (sets r) k = Some a ∧ n_packets n = a_packets a))
     (λ _, False).
Proof.
  intros Hok. unfold expire.
  apply (wp_loop (λ st, expire_inv r frame st ∧ expire_sub r st) (λ st, zlen (deadlines st.1))).
  - intros [r1 ns] [Hinv Hsub]. eapply wp_mono; [by apply (expire_step_spec r)| |done].
    intros [st|st]; [done|]. intros [-> Hdl]. destruct Hinv as (Hok1 & Hlim & Hn & Hcov & Hrep).
    assert (∀ k a, bt_get (sets r1) k = Some a → ¬ expired (f_limits r) frame a) as Hlive.
    { intros k a Hk (d & Hd & Hle). destruct Hok1 as (_ & _ & _ & _ & _ & _ & _ & Hiff).
      assert (frame < d); [|lia]. apply (Hdl d k), Hiff. exists a. by rewrite Hlim. }
    split_and!; try done.
    + intros k a. split; [intros Hk; split; [by apply Hsub|by eapply Hlive]|].
      intros [Hk Hne]. by destruct (Hcov k a Hk) as [?|(_ & ? & _)].
    + intros k a Hk He. destruct (Hcov k a Hk) as [Hl|(_ & _ & Hr)]; [|done].
      by destruct (Hlive _ _ Hl).
  - split; [|by intros k a]. split_and!; try done; [auto|]. by intros n ?%not_elem_of_nil.
  - cbn [fst]. pose proof (zlen_nonneg (deadlines r)). unfold zlen in *. lia.
Qed.

(** Expiry is exact.  [expire] terminates and keeps the invariant; after it a
    set is retained, unchanged, if and only if its deadline lies after [frame] (or
    does not fit a [u64]); there is one notice per dropped set, and it cites the
    packets of that set. *)
Theorem expire_exact (r : FragmentReassembler) (frame : Z) :
  fr_ok r →
  wp (expire r frame)
     (λ '(r', ns), fr_ok r' ∧ zlen ns + zlen (sets r') = zlen (sets r) ∧
        (∀ k a, bt_get (sets r') k = Some a ↔
               bt_get (sets r) k = Some a ∧ ¬ expired (f_limits r) frame a) ∧
        (∀ k a, bt_get (sets r) k = Some a → expired (f_limits r) frame a → reported ns a) ∧
        (∀ n, n ∈ ns → ∃ k a, bt_get (sets r) k = Some a ∧ n_packets n = a_packets a))
     (λ _, False).
Proof. apply expire_spec. Qed.

(** ** Sorting the parts *)

Lemma insert_part_perm x l : insert_part x l ≡ₚ x :: l.
Proof.
  induction l as [|y l IH]; simpl; [done|]. case_match; [done|].
  rewrite IH. apply Permutation_swap.
Qed.

Lemma sort_parts_perm l : sort_parts l ≡ₚ l.
Proof. induction l as [|x l IH]; simpl; [done|]. by rewrite insert_part_perm, IH. Qed.

Lemma insert_part_sorted x l : StronglySorted start_le l → StronglySorted start_le (insert_part x l).
Proof.
  unfold start_le. induction 1 as [|y l Hs IH Hall]; simpl; [repeat constructor|].
  destruct (Z.leb_spec (p_start x) (p_start y)).
  - constructor; [by constructor|]. constructor; [done|].
    eapply Forall_impl; [exact Hall|]. simpl. lia.
  - constructor; [done|]. rewrite insert_part_perm. constructor; [lia|done].
Qed.

Lemma sort_parts_sorted l : StronglySorted start_le (sort_parts l).
Proof. induction l; simpl; [constructor|]. by apply insert_part_sorted. Qed.

(** ** Examining a fragment *)

Lemma part_end p : part_ok p → add_ovf (E:=Error) usize_max (p_start p) (len (bytes p)) = Ok (p_end p).
Proof. intros (_ & H1 & H2). unfold p_end, len in *. rewrite add_ovf_ok by lia. done. Qed.

Lemma any_outside_spec total ps :
  Forall part_ok ps →
  ∃ b, any_outside total ps = Ok b ∧ (b = false → Forall (λ p, p_end p ≤ total) ps).
Proof.
  induction 1 as [|p ps Hp Hps (b & IH & Hb)]; simpl; [by exists false|].
  rewrite part_end, bind_Ok by done. destruct (Z.ltb_spec total (p_end p)); simpl; [by exists true|].
  case_match; [by exists true|]. exists b. split; [done|]. intros ->. constructor; auto.
Qed.

Lemma agree_sym p q : agree p q → agree q p.
Proof. intros H x H1 H2. symmetry. by apply H. Qed.

Lemma nthz_ext (l k : list Z) :
  zlen l = zlen k → (∀ i, 0 ≤ i < zlen l → nthz l i = nthz k i) → l = k.
Proof.
  intros Hl Hi. apply list_eq. intros i. destruct (decide (Z.of_nat i < zlen l)).
  - pose proof (lookup_nthz l (Z.of_nat i)) as H1. pose proof (lookup_nthz k (Z.of_nat i)) as H2.
    rewrite Nat2Z.id in H1, H2. rewrite H1, H2 by lia. f_equal. apply Hi. lia.
  - unfold zlen in *. rewrite !lookup_ge_None_2 by lia. done.
Qed.

Section overlaps.
Context (v6 : bool) (np : Part) (Hnp : part_ok np).

Lemma overlap_step_spec rej q :
  part_ok q →
  ∃ rej', overlap_step v6 (p_start np) (p_end np) (data (bytes np)) rej q = Ok rej' ∧
    (rej' = None → rej = None ∧ agree np q).
Proof using Hnp.
  intros Hq. unfold overlap_step. rewrite part_end, bind_Ok by done.
  destruct Hnp as (_ & Hn1 & Hn2), Hq as (_ & Hq1 & Hq2). cbv zeta.
  destruct (Z.ltb_spec (Z.max (p_start q) (p_start np)) (Z.min (p_end q) (p_end np))) as [Ho|Ho].
  - destruct v6; [by eexists|]. rewrite !sub_ovf_ok, !bind_Ok by lia.
    rewrite !slice_ok, !bind_Ok by (unfold p_end in *; lia).
    case_match eqn:Heq; [|by eexists]. apply bytes_eqb_eq in Heq. exists rej. split; [done|].
    intros ->. split; [done|]. intros x Hx1 Hx2.
    assert (nthz (sub (data (bytes q)) (Z.max (p_start q) (p_start np) - p_start q)
              (Z.min (p_end q) (p_end np) - p_start q)) (x - Z.max (p_start q) (p_start np)) =
            nthz (sub (data (bytes np)) (Z.max (p_start q) (p_start np) - p_start np)
              (Z.min (p_end q) (p_end np) - p_start np)) (x - Z.max (p_start q) (p_start np))) as He
      by (by rewrite Heq).
    rewrite !nthz_sub in He by lia.
    replace (x - p_start np) with (Z.max (p_start q) (p_start np) - p_start np +
      (x - Z.max (p_start q) (p_start np))) by lia. rewrite <- He. f_equal. lia.
  - exists rej. split; [done|]. intros ->. split; [done|]. intros x ? ?. lia.
Qed.

Lemma overlaps_spec rej qs :
  Forall part_ok qs →
  ∃ rej', foldM (overlap_step v6 (p_start np) (p_end np) (data (bytes np))) rej qs = Ok rej' ∧
    (rej' = None → rej = None ∧ Forall (agree np) qs).
Proof using Hnp.
  intros Hqs. revert rej. induction Hqs as [|q qs Hq Hqs IH]; intros rej; simpl; [by exists rej|].
  destruct (overlap_step_spec rej q Hq) as (rej1 & -> & H1). rewrite bind_Ok.
  destruct (IH rej1) as (rej2 & -> & H2). exists rej2. split; [done|]. intros ->.
  destruct (H2 eq_refl) as [-> ?]. destruct (H1 eq_refl) as [-> ?]. by repeat constructor.
Qed.
End overlaps.

(** The part a datagram contributes. *)
Definition new_part (dg : Datagram) (info : FragmentInfo) : Part :=
  {| p_start := fi_offset info; p_more := more info; bytes := payload dg |}.

Lemma merge_template_ok t dg info : header_ok t → header_ok dg → header_ok (merge_template t dg info).
Proof.
  intros (H1 & H2 & H3 & H4) (H1' & H2' & _). unfold header_ok, merge_template; simpl.
  split_and!; try done; case_match; lia.
Qed.

Lemma examine_spec l set key dg info :
  assembly_ok l set → poisoned set = false → header_ok dg → part_ok (new_part dg info) →
  wp (examine set key dg info (p_end (new_part dg info)))
     (λ '(set', rej), ∃ t e,
        set' = {| template := t; parts := parts set; a_end := e; first_frame := first_frame set;
                  a_packets := a_packets set; poisoned := false |} ∧ header_ok t ∧
        (rej = None →
           Forall (agree (new_part dg info)) (parts set) ∧
           ∀ total, e = Some total → p_end (new_part dg info) ≤ total ∧ 0 ≤ total ≤ 65535 ∧
             Forall (λ p, p_end p ≤ total) (parts set)))
     (λ _, False).
Proof.
  intros (Hps & Hsort & Hlen & Ht & Hff & Hcon) Hpo Hdg Hnp. unfold examine.
  specialize (Hcon Hpo) as [Hag Hend]. cbn [with_template a_end template].
  pose proof (merge_template_ok (template set) dg info Ht Hdg) as Hmt.
  set (np := new_part dg info) in *.
  destruct (terminal_length (a_end set) info (p_end np)) as [e rej0] eqn:Htl.
  cbn [with_end with_template parts]. apply wp_bind.
  assert (∀ total, e = Some total → 0 ≤ total ≤ 65535) as Hbnd.
  { intros total ->. revert Htl. unfold terminal_length. destruct Hnp as (_ & ? & ?).
    case_match; intros; simplify_eq; [by apply Hend|lia]. }
  apply wp_mono with (Q := λ rej, rej = None → ∀ total, e = Some total →
      p_end np ≤ total ∧ Forall (λ p, p_end p ≤ total) (parts set)) (R := λ _, False).
  - destruct e as [total|]; [|simpl; naive_solver]. unfold outside_terminal.
    destruct (Z.ltb_spec total (p_end np)); [by simpl|]. cbn [orb].
    destruct (more info && _); [by simpl|].
    destruct (any_outside_spec total (parts set) Hps) as (b & -> & Hb). simpl.
    destruct b; [done|]. intros -> ? [= <-]. auto.
  - intros rej Hrej. apply wp_bind.
    destruct (overlaps_spec (k_ipv6 key) np Hnp rej (parts set) Hps) as (rej' & Heq & Hr).
    change (fi_offset info) with (p_start np). change (payload dg) with (bytes np). rewrite Heq.
    apply wp_ok, wp_ok. exists (merge_template (template set) dg info), e.
    split_and!; [unfold with_end, with_template; simpl; by rewrite Hpo|done|]. intros ->.
    destruct (Hr eq_refl) as [-> ?]. split; [done|]. intros total ->.
    destruct (Hrej eq_refl total eq_refl). auto.
  - done.
Qed.

(** ** Joining the parts *)

(** Position [x] of the evidence [e] is byte [x - p_start p] of part [p], with
    the source it has there. *)
Definition from_part (e : EvidenceBytes) (p : Part) (x : Z) : Prop :=
  p_start p ≤ x < p_end p ∧
  data e !! Z.to_nat x = data (bytes p) !! Z.to_nat (x - p_start p) ∧
  origins e !! Z.to_nat x = origins (bytes p) !! Z.to_nat (x - p_start p).

(** Every byte of the evidence is a byte of some part. *)
Definition faithful (e : EvidenceBytes) (ps : list Part) : Prop :=
  ev_ok e ∧ ∀ x, 0 ≤ x < zlen (data e) → ∃ p, p ∈ ps ∧ from_part e p x.

Lemma lookup_sub_tail {A} (l : list A) a x :
  0 ≤ a ≤ zlen l → 0 ≤ x → sub l a (zlen l) !! Z.to_nat x = l !! Z.to_nat (a + x).
Proof.
  intros Ha Hx. unfold sub, zlen in *. rewrite take_ge by (rewrite length_drop; lia).
  rewrite lookup_drop. f_equal. lia.
Qed.

Lemma join_step_spec J done p :
  faithful J done → part_ok p → p_start p ≤ zlen (data J) ≤ 65535 →
  ∃ J', join_step J p = Ok J' ∧ faithful J' (done ++ [p]) ∧
        zlen (data J') = Z.max (zlen (data J)) (p_end p).
Proof.
  intros [HJ Hf] (Hev & Hp1 & Hp2) Hs. unfold join_step, len, saturating_sub. cbv zeta.
  unfold p_end in *. set (n := zlen (data (bytes p))) in *. set (c := zlen (data J)) in *.
  destruct (Z.ltb_spec (Z.min (Z.max 0 (c - p_start p)) n) n) as [Hlt|Hge].
  - assert (Z.min (Z.max 0 (c - p_start p)) n = c - p_start p) as -> by lia.
    destruct (slice_ev_ok (bytes p) (c - p_start p) n Hev) as (s & -> & Hs1 & Hs2 & Hs3); try lia.
    rewrite bind_Ok.
    assert (zlen (data s) = n - (c - p_start p)) as Hsl by (rewrite Hs2; apply zlen_sub; lia).
    destruct (append_ev_ok J s 65535 HJ Hs1) as (J' & -> & HJ' & Hd & Ho); [lia|].
    exists J'. split; [done|]. split; [|rewrite Hd, zlen_app; lia].
    split; [done|]. intros x Hx. rewrite Hd, zlen_app in Hx.
    pose proof (zlen_origins _ HJ) as HoJ. pose proof (zlen_origins _ Hev) as Hop.
    destruct (decide (x < c)).
    + destruct (Hf x) as (q & Hq & Hq1 & Hq2 & Hq3); [lia|].
      exists q. split; [set_solver|]. split; [done|]. rewrite Hd, Ho.
      rewrite !lookup_app_l by (unfold c, zlen in *; lia). done.
    + exists p. split; [set_solver|]. split; [unfold p_end; lia|]. rewrite Hd, Ho.
      rewrite !lookup_app_r by (unfold c, zlen in *; lia).
      replace (Z.to_nat x - length (data J))%nat with (Z.to_nat (x - c)) by (unfold c, zlen; lia).
      replace (Z.to_nat x - length (origins J))%nat with (Z.to_nat (x - c)) by (unfold c, zlen in *; lia).
      rewrite Hs2, Hs3. subst n. rewrite lookup_sub_tail by lia. rewrite <- Hop, lookup_sub_tail by lia.
      replace (c - p_start p + (x - c)) with (x - p_start p) by lia. done.
  - exists J. split; [done|]. split; [|lia]. split; [done|]. intros x Hx.
    destruct (Hf x Hx) as (q & Hq & Hq'). exists q. split; [set_solver|done].
Qed.

Lemma join_spec total J done ps :
  faithful J done → Forall part_ok ps → Forall (λ p, p_end p ≤ total) ps →
  zlen (data J) ≤ total ≤ 65535 → coverage (zlen (data J)) ps = Ok total →
  ∃ J', foldM join_step J ps = Ok J' ∧ faithful J' (done ++ ps) ∧ zlen (data J') = total.
Proof.
  intros Hf Hps Hend. revert J done Hf. induction Hps as [|p ps Hp Hps IH]; intros J done Hf HJ Hcov; simpl in *.
  - exists J. rewrite app_nil_r. naive_solver.
  - apply Forall_cons in Hend as [Hpe Hend]. rewrite part_end, bind_Ok in Hcov by done.
    destruct (Z.ltb_spec (zlen (data J)) (p_start p)).
    { injection Hcov as <-. destruct Hp as (_ & ? & _). lia. }
    destruct (join_step_spec J done p Hf Hp) as (J1 & -> & Hf1 & Hl1); [lia|]. rewrite bind_Ok.
    destruct (IH Hend J1 (done ++ [p])) as (J2 & ? & ? & ?); try done; [lia|by rewrite Hl1|].
    exists J2. by rewrite <- app_assoc in *.
Qed.

(** The content of a reassembled payload: exactly the fragments [ps]. *)
Definition reassembles (ps : list Part) (e : EvidenceBytes) : Prop :=
  ev_ok e ∧
  (∀ p, p ∈ ps → p_end p ≤ zlen (data e) ∧ sub (data e) (p_start p) (p_end p) = data (bytes p)) ∧
  (∀ x, 0 ≤ x < zlen (data e) → ∃ p, p ∈ ps ∧ from_part e p x).

Lemma faithful_reassembles J ps :
  faithful J ps → Forall part_ok ps → Forall (λ p, p_end p ≤ zlen (data J)) ps →
  (∀ p q, p ∈ ps → q ∈ ps → agree p q) → reassembles ps J.
Proof.
  intros [HJ Hf] Hps Hend Hag. split; [done|]. split; [|done]. intros p Hp.
  rewrite Forall_forall in Hps, Hend. destruct (Hps p Hp) as (_ & Hp1 & Hp2).
  specialize (Hend p Hp). simpl in Hend. split; [done|]. unfold p_end in *.
  apply nthz_ext; rewrite zlen_sub by lia; [lia|].
  intros i Hi. rewrite nthz_sub by lia.
  destruct (Hf (p_start p + i)) as (q & Hq & Hq1 & Hq2 & _); [lia|].
  pose proof (Hag p q Hp Hq (p_start p + i) ltac:(unfold p_end; lia) Hq1) as Ha.
  replace (p_start p + i - p_start p) with i in Ha by lia. rewrite Ha. unfold p_end in Hq1.
  rewrite lookup_nthz, lookup_nthz in Hq2 by lia. by injection Hq2.
Qed.

Lemma coverage_safe c ps : Forall part_ok ps → ∃ c', coverage c ps = Ok c'.
Proof.
  intros H. revert c. induction H as [|p ps Hp Hps IH]; intros c; simpl; [by eexists|].
  case_match; [by eexists|]. rewrite part_end, bind_Ok by done. apply IH.
Qed.

(** ** [push] *)

Definition with_retained (r : FragmentReassembler) (n : Z) : FragmentReassembler :=
  {| sets := sets r; deadlines := deadlines r; retained := n; f_limits := f_limits r |}.

Lemma with_retained_id r : with_retained r (retained r) = r.
Proof. by destruct r. Qed.

Lemma put_set_ok r key a0 a n :
  fr_ok r → bt_get (sets r) key = Some a0 → first_frame a = first_frame a0 →
  assembly_ok (f_limits r) a → n = retained r - set_size a0 + set_size a →
  n ≤ max_retained_payload (f_limits r) → fr_ok (put_set (with_retained r n) key a).
Proof.
  intros (Hl & Hs & Hd & Ha & Hr & Hm & Hn & Hdl) Hg Hff Hok -> Hmax.
  unfold put_set, with_retained. split_and!; simpl; try done.
  - by apply bt_insert_wf.
  - by apply Forall_bt_insert.
  - rewrite bt_sum_insert, Hg by done. simpl. lia.
  - rewrite zlen_bt_sum, bt_sum_insert, <- zlen_bt_sum, Hg by done. simpl. lia.
  - intros d k. rewrite Hdl. setoid_rewrite bt_get_insert. case_decide; [|done].
    subst k. rewrite Hg. split; intros (a1 & [= <-] & Hd1); eexists; split; try done; congruence.
Qed.

Lemma open_set_spec r key dg frame :
  fr_ok r → header_ok dg → 0 ≤ frame ≤ u64_max →
  wp (open_set r key dg frame)
     (λ r', fr_ok r' ∧ f_limits r' = f_limits r ∧ retained r' = retained r ∧
        (∀ k, k ≠ key → bt_get (sets r') k = bt_get (sets r) k) ∧
        ∃ a, bt_get (sets r') key = Some a ∧
          match bt_get (sets r) key with
          | Some a' => a = a'
          | None => parts a = [] ∧ poisoned a = false
          end) is_limit.
Proof.
  intros Hok Hh Hfr. unfold open_set. destruct (bt_get (sets r) key) as [a|] eqn:Hg.
  { apply wp_ok. split_and!; try done. by exists a. }
  destruct (Z.leb_spec (max_fragment_sets (f_limits r)) (zlen (sets r))); [by eexists|].
  apply wp_ok. simpl. destruct Hok as (Hl & Hs & Hd & Ha & Hr & Hm & Hn & Hdl).
  split_and!; try done.
  - split_and!; simpl; try done.
    + by apply bt_insert_wf.
    + case_match; [by apply bt_insert_wf|done].
    + apply Forall_bt_insert; [done|]. simpl. limits_facts Hl.
      split_and!; simpl; try done; try constructor; try (unfold zlen; simpl; lia); try lia.
      * intros p q Hp. by apply not_elem_of_nil in Hp.
      * intros; simplify_eq.
    + rewrite bt_sum_insert, Hg by done. unfold set_size in *; simpl. lia.
    + rewrite zlen_bt_sum, bt_sum_insert, <- zlen_bt_sum, Hg by done. simpl. lia.
    + intros d k. rewrite bt_get_insert.
      assert (bt_get (match deadline_of (f_limits r) frame with
                      | Some d0 => bt_insert (deadlines r) (d0, key) ()
                      | None => deadlines r
                      end) (d, k) = Some () ↔
              bt_get (deadlines r) (d, k) = Some () ∨ k = key ∧ deadline_of (f_limits r) frame = Some d) as ->.
      { destruct (deadline_of _ _) as [d0|]; [|naive_solver]. rewrite bt_get_insert.
        case_decide; simplify_eq; naive_solver. }
      rewrite Hdl. case_decide; subst; [|naive_solver].
      rewrite Hg. naive_solver.
  - intros k Hk. by rewrite bt_get_insert_ne by done.
  - eexists. by rewrite bt_get_insert_eq.
Qed.

Definition accepted (r : FragmentReassembler) (key : Key) : list Part :=
  match bt_get (sets r) key with Some a => parts a | None => [] end.
Definition quarantined (r : FragmentReassembler) (key : Key) : bool :=
  match bt_get (sets r) key with Some a => poisoned a | None => false end.

(** What [push] of a fragment promises. *)
Definition push_post (r : FragmentReassembler) (key : Key) (np : Part)
    (x : FragmentReassembler * FragmentOutcome) : Prop :=
  let '(r', out) := x in
  fr_ok r' ∧ (∀ k, k ≠ key → bt_get (sets r') k = bt_get (sets r) k) ∧
  match out with
  | Pending =>
      quarantined r key = false ∧ quarantined r' key = false ∧
      accepted r' key ≡ₚ accepted r key ++ [np]
  | Complete dg' _ =>
      quarantined r key = false ∧ bt_get (sets r') key = None ∧
      datagram_ok dg' ∧ fragment dg' = None ∧
      reassembles (accepted r key ++ [np]) (payload dg')
  | Rejected _ => r' = r ∨ quarantined r' key = true
  end.

Section push_set.
Context (r : FragmentReassembler) (key : Key) (a0 : Assembly) (admitted : list PacketId).
Context (dg : Datagram) (info : FragmentInfo) (new_size : Z).
Let np := new_part dg info.
Context (Hok : fr_ok r) (Hg : bt_get (sets r) key = Some a0).
Context (Hdg : header_ok dg) (Hnp : part_ok np).
Context (Hroom : zlen (parts a0) < max_fragments_per_set (f_limits r)).
Context (Hsize : poisoned a0 = false →
           new_size = retained r + zlen (data (payload dg)) ∧
           new_size ≤ max_retained_payload (f_limits r)).

Definition examined (t : Datagram) (e : option Z) (ps : list Part) (b : bool) : Assembly :=
  {| template := t; parts := ps; a_end := e; first_frame := first_frame a0;
     a_packets := admitted; poisoned := b |}.

Lemma set_ok : assembly_ok (f_limits r) a0.
Proof using Hok Hg.
  destruct Hok as (_ & _ & _ & Ha & _). apply (Forall_bt_get _ _ key a0 Ha Hg).
Qed.

(** A quarantined set keeps its parts. *)
Lemma poisoned_ok t e :
  header_ok t → fr_ok (put_set r key (examined t e (parts a0) true)).
Proof using Hok Hg.
  intros Ht. rewrite <- (with_retained_id r).
  pose proof set_ok as (H1 & H2 & H3 & _ & H5 & _).
  apply (put_set_ok r key a0); try done; [unfold set_size; simpl; lia|apply Hok].
Qed.

Let ps' := sort_parts (parts a0 ++ [np]).

Lemma accept_ok t e b :
  header_ok t → Forall (agree np) (parts a0) →
  (∀ total, e = Some total → p_end np ≤ total ∧ 0 ≤ total ≤ 65535 ∧
     Forall (λ p, p_end p ≤ total) (parts a0)) →
  poisoned a0 = false → assembly_ok (f_limits r) (examined t e ps' b).
Proof using Hok Hg Hnp Hroom.
  intros Ht Hag Hend Hpo. pose proof set_ok as (H1 & H2 & H3 & _ & H5 & H6).
  specialize (H6 Hpo) as [Hcon _].
  assert (ps' ≡ₚ parts a0 ++ [np]) as Hperm by apply sort_parts_perm.
  split_and!; cbn [parts template first_frame poisoned examined]; try done; try apply H5.
  - rewrite Hperm. apply Forall_app; split; [done|]. by apply Forall_singleton.
  - apply sort_parts_sorted.
  - unfold zlen in *. rewrite Hperm, length_app. simpl. lia.
  - intros _. split; cbn [parts a_end examined].
    + intros p q. rewrite Hperm, !elem_of_app, !list_elem_of_singleton.
      rewrite Forall_forall in Hag.
      intros [Hp| ->] [Hq| ->]; [by apply Hcon|by apply agree_sym, Hag|by apply Hag|].
      by intros x.
    + intros total He. destruct (Hend total He) as (? & ? & ?). split; [done|].
      rewrite Hperm. apply Forall_app; split; [done|]. by apply Forall_singleton.
Qed.

Lemma accepted_ok t e b :
  assembly_ok (f_limits r) (examined t e ps' b) → poisoned a0 = false →
  fr_ok (put_set (with_retained r new_size) key (examined t e ps' b)).
Proof using Hok Hg Hsize.
  intros Ha Hpo. destruct (Hsize Hpo) as [Hn Hm]. apply (put_set_ok r key a0); try done.
  unfold set_size; simpl. unfold ps'. rewrite (psize_perm _ _ (sort_parts_perm _)), psize_app.
  subst np. simpl. lia.
Qed.

(** Completion: the parts cover the terminal length. *)
Lemma complete_spec r' t total :
  fr_ok r' → bt_get (sets r') key = Some (examined t (Some total) ps' false) →
  coverage 0 ps' = Ok total →
  ∃ dg', complete r' key = Ok (removed r' key (examined t (Some total) ps' false),
                               Complete dg' admitted) ∧
    datagram_ok dg' ∧ fragment dg' = None ∧ reassembles (parts a0 ++ [np]) (payload dg').
Proof.
  intros Hok' Hg' Hcov. unfold complete. rewrite (remove_spec r' Hok' key _ Hg'), bind_Ok.
  destruct Hok' as (_ & _ & _ & Ha & _).
  pose proof (Forall_bt_get _ _ key _ Ha Hg') as (Hps & _ & _ & Ht & _ & Hcon).
  cbn [parts template examined snd poisoned] in *. destruct (Hcon eq_refl) as [Hag Hend].
  destruct (Hend total eq_refl) as [Hb Hall]. cbn [parts examined] in *.
  destruct (join_spec total evidence_default [] ps') as (J & -> & Hf & Hl); try done.
  { split; [apply evidence_default_ok|]. cbn. unfold zlen; simpl. lia. }
  rewrite bind_Ok. eexists. split; [done|]. split_and!; simpl; try done.
  - destruct Hf as [HJ _]. split_and!; simpl; try done; lia.
  - assert (reassembles ps' J) as (R1 & R2 & R3).
    { apply faithful_reassembles; try done. by rewrite Hl. }
    assert (ps' ≡ₚ parts a0 ++ [np]) as Hperm by apply sort_parts_perm.
    split_and!; [done| |].
    + intros p Hp. apply R2. by rewrite Hperm.
    + intros x Hx. setoid_rewrite <- Hperm. by apply R3.
Qed.

Definition push_set_post (x : FragmentReassembler * FragmentOutcome) : Prop :=
  let '(r', out) := x in
  fr_ok r' ∧ (∀ k, k ≠ key → bt_get (sets r') k = bt_get (sets r) k) ∧
  match out with
  | Pending => poisoned a0 = false ∧ ∃ a, bt_get (sets r') key = Some a ∧ poisoned a = false ∧
                 parts a ≡ₚ parts a0 ++ [np]
  | Complete dg' _ => poisoned a0 = false ∧ bt_get (sets r') key = None ∧ datagram_ok dg' ∧
                      fragment dg' = None ∧ reassembles (parts a0 ++ [np]) (payload dg')
  | Rejected _ => quarantined r' key = true
  end.

Lemma reject_post r' a c :
  fr_ok (put_set r' key a) → sets r' = sets r → poisoned a = true →
  push_set_post (reject r' key a c).
Proof.
  intros H1 H2 H3. unfold reject. split_and!; [done| |].
  - intros k Hk. simpl. by rewrite H2, bt_get_insert_ne.
  - unfold quarantined. simpl. by rewrite bt_get_insert_eq.
Qed.

(** After acceptance: pending, complete, or too long. *)
Lemma accept_spec t e :
  poisoned a0 = false → assembly_ok (f_limits r) (examined t e ps' false) →
  wp (ready ← is_ready (examined t e ps' false);
      if (ready : bool) then
        long ← too_long (examined t e ps' false) key;
        if (long : bool)
        then Ok (reject (with_retained r new_size) key (examined t e ps' true)
                   "reassembled_ip_length_overflow")
        else complete (put_set (with_retained r new_size) key (examined t e ps' false)) key
      else Ok (put_set (with_retained r new_size) key (examined t e ps' false), Pending))
     push_set_post (λ _, False).
Proof using Hok Hg Hsize.
  intros Hpo Ha. pose proof (accepted_ok t e false Ha Hpo) as Hfr.
  pose proof Ha as (Hps & Hso & Hle & Ht & Hff & Hcon). cbn [parts examined template poisoned] in *.
  assert (wp (E:=Error) (Ok (put_set (with_retained r new_size) key (examined t e ps' false), Pending))
            push_set_post (λ _, False)) as Hpend.
  { apply wp_ok. split_and!; [done| |done|].
    - intros k Hk. simpl. by rewrite bt_get_insert_ne.
    - eexists. split; [simpl; apply bt_get_insert_eq|]. split; [done|]. apply sort_parts_perm. }
  unfold is_ready, too_long. cbn [a_end examined parts template]. destruct e as [total|]; [|done].
  destruct (coverage_safe 0 ps' Hps) as [c Hc]. rewrite Hc, !bind_Ok.
  destruct (Z.eqb_spec c total) as [->|]; [|done].
  destruct (Hcon eq_refl) as [_ Hend]. destruct (Hend total eq_refl) as [Hb _].
  destruct Ht as (Ht1 & Ht2 & Ht3). unfold saturating_sub.
  rewrite add_ovf_ok, !bind_Ok by (case_match; lia). case_match.
  - apply wp_ok, reject_post; try done. apply accepted_ok; [|done].
    destruct Ha as (A1 & A2 & A3 & A4 & A5 & A6). by split_and!; try apply A5.
  - destruct (complete_spec (put_set (with_retained r new_size) key (examined t (Some total) ps' false))
      t total) as (dg' & -> & Hd1 & Hd2 & Hd3); try done; [by simpl; rewrite bt_get_insert_eq|].
    apply wp_ok. split_and!; try done.
    + by apply removed_ok; simpl; rewrite ?bt_get_insert_eq.
    + intros k Hk. simpl. by rewrite bt_get_remove_ne, bt_get_insert_ne.
    + simpl. apply bt_get_remove_eq.
Qed.

Lemma push_set_spec :
  wp (push_set r key (with_packets a0 admitted) dg info (p_end np) new_size)
     push_set_post (λ _, False).
Proof using Hok Hg Hdg Hnp Hroom Hsize.
  unfold push_set. pose proof set_ok as Ha0. cbn [with_packets poisoned].
  assert (poisoned a0 = true ∨ poisoned a0 = false) as [Hpo|Hpo] by (destruct (poisoned a0); auto);
    rewrite Hpo.
  { apply wp_ok, reject_post; try done. unfold with_packets. rewrite Hpo.
    apply (poisoned_ok (template a0) (a_end a0)). apply Ha0. }
  apply wp_bind. eapply wp_mono; [apply (examine_spec (f_limits r)); try done| |done].
  intros [set' rej] (t & e & -> & Ht & Hrej). cbn [parts with_packets a_packets first_frame] in Hrej |- *.
  destruct rej as [code|].
  - apply wp_ok, reject_post; try done. by apply poisoned_ok.
  - destruct (Hrej eq_refl) as [Hag Hend].
    apply (accept_spec t e); [done|]. by apply accept_ok.
Qed.
End push_set.

Lemma admission_spec r key dg :
  fr_ok r →
  wp (admission r key dg)
     (λ '(_, n), (∀ a, bt_get (sets r) key = Some a → zlen (parts a) < max_fragments_per_set (f_limits r)) ∧
        n ≤ max_retained_payload (f_limits r) ∧
        (quarantined r key = false → n = retained r + zlen (data (payload dg)))) is_limit.
Proof.
  intros Hok. unfold admission, quarantined. cbv zeta.
  destruct (_ || _) eqn:Hc; [by eexists|]. apply orb_false_iff in Hc as [_ Hc].
  assert (∀ a, bt_get (sets r) key = Some a → zlen (parts a) < max_fragments_per_set (f_limits r)) as Hr.
  { intros a Ha. rewrite Ha in Hc. lia. }
  destruct (match bt_get (sets r) key with Some s => poisoned s | None => false end).
  - rewrite bind_Ok. destruct (Z.ltb_spec (max_retained_payload (f_limits r)) (retained r)); [by eexists|].
    apply wp_ok. split_and!; [done|lia|done].
  - apply wp_bind, wp_ok_or; [|by eexists]. intros n [-> _]%checked_add_Some.
    unfold len. destruct (Z.ltb_spec (max_retained_payload (f_limits r))
      (retained r + zlen (data (payload dg)))); [by eexists|]. apply wp_ok. by split_and!.
Qed.

Lemma fragment_push_spec (r : FragmentReassembler) (dg : Datagram) (frame : Z) (info : FragmentInfo) :
  fr_ok r → datagram_ok dg → fragment dg = Some info → 0 ≤ frame ≤ u64_max →
  wp (push r dg frame) (push_post r (fragment_key dg info) (new_part dg info)) is_limit.
Proof.
  intros Hok Hdg Hf Hfr. pose proof Hdg as (Hev & Hl & Hh & Hfo).
  destruct (Hfo info Hf) as (Hid & Hoff & Hm8 & Hn & Hmore).
  unfold push. rewrite limits_ok_validate, bind_Ok, Hf by apply Hok. cbv zeta.
  set (key := fragment_key dg info). apply wp_bind, wp_ok_or; [|by eexists].
  intros stop [-> _]%checked_add_Some. unfold len.
  destruct (Z.ltb_spec 65535 (fi_offset info + zlen (data (payload dg)))) as [Hbig|Hfit]; simpl.
  { split_and!; try done. by left. }
  unfold is_empty. rewrite (proj2 (Z.eqb_neq _ 0)) by lia.
  destruct Hev as [Hty Hval]. rewrite Hval. cbn [negb]. apply wp_bind.
  eapply wp_mono; [by apply (admission_spec r key dg)| |done].
  intros [admitted n] (Hroom & Hmax & Hn'). apply wp_bind.
  eapply wp_mono; [by apply (open_set_spec r key dg frame)| |done].
  intros r1 (Hok1 & Hlim & Hret & Hoth & a & Hg & Ha). rewrite Hg. cbn [ok_or]. rewrite bind_Ok.
  assert (parts a = accepted r key ∧ poisoned a = quarantined r key) as [Hpa Hqa].
  { unfold accepted, quarantined. destruct (bt_get (sets r) key); [by subst|done]. }
  eapply wp_mono; [apply (push_set_spec r1 key a); try done| |done].
  - split_and!; try done; unfold p_end; simpl; lia.
  - rewrite Hlim. unfold accepted in Hpa. destruct (bt_get (sets r) key) as [a'|] eqn:Hg'.
    + subst a'. by apply Hroom.
    + rewrite Hpa. destruct Hok as (Hlo & _). limits_facts Hlo. unfold zlen; simpl. lia.
  - rewrite Hqa, Hret, Hlim. auto.
  - intros [r' out] (H1 & H2 & H3). split_and!; [done| |].
    + intros k Hk. by rewrite H2, Hoth.
    + rewrite Hqa, Hpa in H3. destruct out; [|done|by right].
      destruct H3 as (? & a' & Ha' & ? & ?). unfold quarantined at 2, accepted at 1. by rewrite Ha'.
Qed.

(** ** The packets a set cites *)

Definition cited_by (r : FragmentReassembler) (key : Key) : list PacketId :=
  match bt_get (sets r) key with Some a => a_packets a | None => [] end.

Lemma examine_packets set key dg info stop set' o :
  examine set key dg info stop = Ok (set', o) → a_packets set' = a_packets set ∧ poisoned set' = poisoned set.
Proof.
  unfold examine. destruct (terminal_length _ _ _) as [e rej].
  intros (o1 & _ & (o2 & _ & [= <- _])%bind_ok)%bind_ok. done.
Qed.

Lemma complete_packets r key a r' dg ids :
  bt_get (sets r) key = Some a → complete r key = Ok (r', Complete dg ids) → ids = a_packets a.
Proof.
  intros Hg. unfold complete, remove. rewrite Hg.
  intros ([r1 o] & (n & _ & (m & _ & [= _ <-])%bind_ok)%bind_ok & (j & _ & [= _ _ <-])%bind_ok)%bind_ok. done.
Qed.

Lemma complete_outcome r key r' out : complete r key = Ok (r', out) → ∃ dg ids, out = Complete dg ids.
Proof.
  unfold complete. intros ([r1 [a|]] & _ & H)%bind_ok; [|done].
  apply bind_ok in H as (j & _ & [= _ <-]). by eexists _, _.
Qed.

(** What [push_set] does with the packets of its set. *)
Lemma push_set_packets r key set dg info stop n r' out :
  push_set r key set dg info stop n = Ok (r', out) →
  match out with
  | Pending => cited_by r' key = a_packets set
  | Rejected m => n_packets m = a_packets set ∧ cited_by r' key = a_packets set
  | Complete _ ids => ids = a_packets set
  end.
Proof.
  assert (∀ r' a c, let x := reject r' key a c in
    match x.2 with
    | Pending => False
    | Rejected m => n_packets m = a_packets a ∧ cited_by x.1 key = a_packets a
    | Complete _ _ => False
    end) as Hrej.
  { intros r0 a c. unfold reject, cited_by. simpl. by rewrite bt_get_insert_eq. }
  unfold push_set. destruct (poisoned set).
  { intros [= <- <-]. apply (Hrej r set "fragment_set_quarantined"). }
  intros ([set' [code|]] & Hex%examine_packets & H)%bind_ok; destruct Hex as [Hp _].
  { injection H as <- <-. rewrite <- Hp. apply (Hrej r (poison set') code). }
  apply bind_ok in H as (ready & _ & H). destruct ready.
  - apply bind_ok in H as (long & _ & H). destruct long.
    + injection H as <- <-. rewrite <- Hp.
      match goal with |- context [put_set ?r ?k ?a] => apply (Hrej r a "reassembled_ip_length_overflow") end.
    + destruct (complete_outcome _ _ _ _ H) as (dg' & ids & ->). rewrite <- Hp.
      eapply complete_packets in H; [|simpl; apply bt_get_insert_eq]. done.
  - injection H as <- <-. unfold cited_by. simpl. by rewrite bt_get_insert_eq.
Qed.

(** [push] cites the packets of the fragment with those of its set: in the set, in
    the notice, or in the completed datagram. *)
Lemma push_packets r dg frame info r' out :
  push r dg frame = Ok (r', out) → fragment dg = Some info →
  let key := fragment_key dg info in
  let ids := sort_dedup (cited_by r key ++ packets (payload dg)) in
  match out with
  | Pending => cited_by r' key = ids
  | Rejected m => r' = r ∧ n_packets m = packets (payload dg) ∨ n_packets m = ids ∧ cited_by r' key = ids
  | Complete _ ids' => ids' = ids
  end.
Proof.
  unfold push. intros H Hf. apply bind_ok in H as (u & _ & H). rewrite Hf in H. cbv zeta in *.
  apply bind_ok in H as (stop & _ & H). destruct (_ || _) in H; [injection H as <- <-; by left|].
  destruct (negb _) in H; [done|]. apply bind_ok in H as ([admitted n] & Had & H).
  apply bind_ok in H as (r1 & _ & H). apply bind_ok in H as (set & _ & H).
  assert (admitted = sort_dedup (cited_by r (fragment_key dg info) ++ packets (payload dg))) as <-.
  { unfold admission in Had. cbv zeta in Had. destruct (_ || _) in Had; [done|].
    apply bind_ok in Had as (size & _ & Had). destruct (_ <? _) in Had; [done|]. by injection Had as <- _. }
  apply push_set_packets in H. cbn [with_packets a_packets] in H. destruct out; [done|done|by right].
Qed.

(** C35: reassembly is sound.  [push] of a fragment returns and keeps the
    invariant, in particular the retained-byte counter is exactly the bytes held
    and stays within the limit.  [Complete] is returned only for a set that was
    never quarantined; its payload contains every accepted fragment's bytes at
    the fragment's offset, every byte comes with the source it has in a fragment
    (none is synthesized), the set is gone, and the datagram is fit for
    [decode_transport].  [Pending] adds the fragment to its set; [Rejected] leaves
    the state unchanged or the set quarantined.  Other sets are untouched.  The only
    errors are exhausted limits. *)
Theorem push_sound (r : FragmentReassembler) (dg : Datagram) (frame : Z) (info : FragmentInfo) :
  fr_ok r → datagram_ok dg → fragment dg = Some info → 0 ≤ frame ≤ u64_max →
  wp (push r dg frame) (push_post r (fragment_key dg info) (new_part dg info)) is_limit.
Proof. apply fragment_push_spec. Qed.

(** ** Witnesses *)

(** A fragment at offset [off] with the bytes [b]. *)
Definition sample_fragment (n off : Z) (mf : bool) (b : list Z) : Datagram :=
  {| scope := sample_scope; source := V4 [10; 0; 0; 1]; destination := V4 [10; 0; 0; 2];
     protocol := 17; is_ipv6 := false; network_header_len := 20;
     fragment := Some {| fi_id := 7; fi_offset := off; more := mf |};
     payload := from_packet b (sample_packet n) 34;
     ip_checksum := Valid; checksum_context := BaseAddresses |}.

Definition first_half : Datagram := sample_fragment 1 0 true [1; 2; 3; 4; 5; 6; 7; 8].
Definition second_half : Datagram := sample_fragment 2 8 false [9; 10].

Lemma second_half_ok : datagram_ok second_half.
Proof.
  split_and!; [|by vm_compute| |].
  - apply from_packet_ok; [repeat constructor; lia|lia|by vm_compute].
  - split_and!; simpl; try lia; try done; repeat constructor; lia.
  - intros f [= <-]. split_and!; simpl; try done; unfold zlen; simpl; lia.
Qed.

(** The second half arrives first; the datagram is complete with the first half. *)
Example reassembly_out_of_order :
  (x ← push (reassembler_new limits_default) second_half 5;
   y ← push x.1 first_half 6;
   match x.2, y.2 with
   | Pending, Complete dg ids => Ok (data (payload dg), length ids, retained y.1)
   | _, _ => Panic
   end) = Ok ([1; 2; 3; 4; 5; 6; 7; 8; 9; 10], 2%nat, 0).
Proof. by vm_compute. Qed.

Lemma push_sound_witness :
  wp (push (reassembler_new limits_default) second_half 5)
     (push_post (reassembler_new limits_default)
        (fragment_key second_half {| fi_id := 7; fi_offset := 8; more := false |})
        (new_part second_half {| fi_id := 7; fi_offset := 8; more := false |})) is_limit.
Proof.
  apply (push_sound (reassembler_new limits_default) second_half 5);
    [apply reassembler_new_ok, limits_default_ok|apply second_half_ok|reflexivity|lia].
Defined.

(** The state in which the second half waits. *)
Definition waiting : FragmentReassembler :=
  match push (reassembler_new limits_default) second_half 5 with
  | Ok (r, _) => r
  | _ => reassembler_new limits_default
  end.

Lemma waiting_ok : fr_ok waiting.
Proof.
  pose proof (fragment_push_spec (reassembler_new limits_default) second_half 5 _
    (reassembler_new_ok _ limits_default_ok) second_half_ok eq_refl ltac:(lia)) as H.
  unfold waiting. revert H. destruct (push _ _ _) as [[r o]| | |]; [by intros [? _]| |done..].
  intros _. apply reassembler_new_ok, limits_default_ok.
Qed.

Lemma expire_exact_witness :
  (length (sets waiting) = 1)%nat ∧
  wp (expire waiting 70000)
     (λ '(r', ns), fr_ok r' ∧ zlen ns + zlen (sets r') = zlen (sets waiting) ∧
        (∀ k a, bt_get (sets r') k = Some a ↔
               bt_get (sets waiting) k = Some a ∧ ¬ expired (f_limits waiting) 70000 a) ∧
        (∀ k a, bt_get (sets waiting) k = Some a → expired (f_limits waiting) 70000 a → reported ns a) ∧
        (∀ n, n ∈ ns → ∃ k a, bt_get (sets waiting) k = Some a ∧ n_packets n = a_packets a))
     (λ _, False).
Proof. split; [by vm_compute|]. apply (expire_exact waiting 70000). apply waiting_ok. Defined.
