(* ===== verification/Stream.v ===== *)
(** * TCP stream reconstruction (src/tcp.rs, [StreamAssembler])

    One direction of a connection: captured segments placed in sequence space
    relative to an anchor, and the sweep over the segment boundaries that selects
    bytes under an explicit overlap policy and reports gaps and conflicts. *)

From S2P Require Import Errors Ord Provenance Prelude.

Inductive OverlapPolicy : Type := RejectConflict | FirstObserved | LastObserved.
#[global] Instance OverlapPolicy_eq_dec : EqDecision OverlapPolicy.
Proof. solve_decision. Defined.

(** [OverlapPolicy::as_str]. *)
Definition policy_str (p : OverlapPolicy) : string :=
  match p with
  | RejectConflict => "reject_conflict"
  | FirstObserved => "first_observed"
  | LastObserved => "last_observed"
  end.

Record StreamChunk : Type := {
  c_offset : Z;
  c_bytes : EvidenceBytes;
}.

Record StreamGap : Type := {
  g_start : Z;
  g_end : Z;
  reason : string;
}.

Record Conflict : Type := {
  x_start : Z;
  x_end : Z;
  x_packets : list PacketId;
}.

Record StreamResult : Type := {
  base_sequence : option Z;
  r_anchored : bool;
  chunks : list StreamChunk;
  gaps : list StreamGap;
  conflicts : list Conflict;
  duplicate_observed_bytes : Z;
}.

Record Segment : Type := {
  s_start : Z;
  s_bytes : EvidenceBytes;
}.

Record StreamAssembler : Type := {
  base : option Z;
  anchored_by_syn : bool;
  segments : list Segment;
  s_min : Z;
  s_max : Z;
  s_fin : option Z;
  s_retained : Z;
  s_limits : Limits;
}.

(** [sequence_delta]. *)
Definition sequence_delta (seq anchor : Z) : result Z :=
  let delta := wrapping_sub 32 seq anchor in
  if delta =? 0x80000000
  then Err (error_new SequenceAmbiguous 0 "sequence"
              "exact half-space difference has no unique ordering")
  else Ok (as_signed 32 delta).

(** [StreamAssembler::new]. *)
Definition assembler_new (syn : option Z) (l : Limits) : StreamAssembler :=
  {| base := option_map (λ n, wrapping_add 32 n 1) syn;
     anchored_by_syn := if syn then true else false;
     segments := []; s_min := 0; s_max := 0; s_fin := None; s_retained := 0; s_limits := l |}.

(** [StreamAssembler::push]. *)
Definition push (s : StreamAssembler) (seq : Z) (b : EvidenceBytes) : result StreamAssembler :=
  Errors.validate (s_limits s) ;;
  if is_empty b then Ok s
  else if negb (Provenance.validate b)
  then Err (error_new Invariant 0 "provenance" "invalid source-span layout")
  else
    kept ← ok_or (checked_add usize_max (s_retained s) (len b)) (limit "stream_retained_payload");
    if max_retained_payload (s_limits s) <? kept then Err (limit "stream_retained_payload")
    else if max_segments_per_flow (s_limits s) <=? zlen (segments s)
    then Err (limit "stream_segments")
    else
      let anchor := match base s with Some n => n | None => seq end in
      start ← sequence_delta seq anchor;
      stop ← ok_or (checked_add_signed i64_min i64_max start (as_signed 64 (len b)))
               (limit "stream_span");
      let lo := Z.min (s_min s) start in
      let hi := Z.max (s_max s) stop in
      w ← signed_ovf i64_min i64_max (hi - lo);
      if as_signed 64 (max_stream_span (s_limits s)) <? w then Err (limit "stream_span")
      else if anchored_by_syn s && (start <? 0)
      then Err (error_new SequenceAmbiguous 0 "sequence" "payload precedes observed SYN")
      else
        Ok {| base := Some anchor; anchored_by_syn := anchored_by_syn s;
              segments := segments s ++ [{| s_start := start; s_bytes := b |}];
              s_min := lo; s_max := hi; s_fin := s_fin s; s_retained := kept;
              s_limits := s_limits s |}.

(** [StreamAssembler::end_at]. *)
Definition end_at (s : StreamAssembler) (seq : Z) : result StreamAssembler :=
  Errors.validate (s_limits s) ;;
  let anchor := match base s with Some n => n | None => seq end in
  stop ← sequence_delta seq anchor;
  far ← (if stop <? s_min s then Ok true
         else w ← signed_ovf i64_min i64_max (stop - s_min s);
              Ok (as_signed 64 (max_stream_span (s_limits s)) <? w));
  if (far : bool) then Err (limit "fin_sequence")
  else if match s_fin s with Some old => negb (old =? stop) | None => false end
  then Err (error_new SequenceAmbiguous 0 "fin_sequence" "conflicting FIN positions")
  else
    Ok {| base := Some anchor; anchored_by_syn := anchored_by_syn s; segments := segments s;
          s_min := s_min s; s_max := s_max s; s_fin := Some stop; s_retained := s_retained s;
          s_limits := s_limits s |}.

(** ** [StreamAssembler::finish] *)

(** The boundary events: the segments that start and end at each position. *)
Definition Events : Type := list (Z * (list Z * list Z)).

(** [events.entry(k).or_default()]. *)
Definition event_at (ev : Events) (k : Z) : list Z * list Z := default ([], []) (bt_get ev k).
Definition touch (ev : Events) (k : Z) : Events := bt_insert ev k (event_at ev k).
Definition push_start (ev : Events) (k i : Z) : Events :=
  bt_insert ev k ((event_at ev k).1 ++ [i], (event_at ev k).2).
Definition push_end (ev : Events) (k i : Z) : Events :=
  bt_insert ev k ((event_at ev k).1, (event_at ev k).2 ++ [i]).

(** [finish], the events of the segments numbered from [i]. *)
Fixpoint segment_events (ev : Events) (i : Z) (segs : list Segment) : result Events :=
  match segs with
  | [] => Ok ev
  | s :: segs =>
      stop ← signed_ovf i64_min i64_max (s_start s + as_signed 64 (len (s_bytes s)));
      segment_events (push_end (push_start ev (s_start s) i) stop i) (i + 1) segs
  end.

Definition build_events (s : StreamAssembler) : result Events :=
  ev ← segment_events [] 0 (segments s);
  let ev := if anchored_by_syn s then touch ev 0 else ev in
  Ok (match s_fin s with Some f => touch ev f | None => ev end).

(** [boundaries.windows(2)]. *)
Fixpoint windows {A} (l : list A) : list (A * A) :=
  match l with
  | x :: l' => match l' with y :: _ => (x, y) :: windows l' | [] => [] end
  | [] => []
  end.

(** The set of active segments, a [BTreeSet<usize>]. *)
Definition Active : Type := list (Z * unit).

(** [finish], the events at a boundary: ends first, then starts. *)
Definition update_active (act : Active) (e : list Z * list Z) : Active :=
  fold_left (λ m i, bt_insert m i ()) e.1 (fold_left (λ m i, bt_remove m i) e.2 act).

(** [finish], the active segment whose bytes are taken. *)
Definition choose (pol : OverlapPolicy) (act : Active) : option Z :=
  match pol with
  | LastObserved => fst <$> last act
  | _ => fst <$> head act
  end.

(** [(pos - start) as usize]. *)
Definition rel (pos start : Z) : result Z :=
  d ← signed_ovf i64_min i64_max (pos - start); Ok (as_unsigned 64 d).

Fixpoint take_while {A} (P : A → bool) (l : list A) : list A :=
  match l with
  | [] => []
  | x :: l => if P x then x :: take_while P l else []
  end.

(** [finish], one active segment compared with the selected bytes. *)
Definition compare_step (segs : list Segment) (a b chosen : Z) (selected : list Z)
    (st : bool * list PacketId * Z) (i : Z) : result (bool * list PacketId * Z) :=
  let '(conflict, pkts, dup) := st in
  other ← index segs i;
  x ← rel a (s_start other);
  y ← rel b (s_start other);
  raw ← slice (data (s_bytes other)) x y;
  let same := bytes_eqb raw selected in
  dup ← (if negb (i =? chosen) && same then add_ovf usize_max dup (zlen raw) else Ok dup);
  let sp := take_while (λ s, start s <? y) (skip_while (λ s, end_ s <=? x) (spans (s_bytes other))) in
  Ok (conflict || negb same, pkts ++ map packet sp, dup).

Definition with_gap (r : StreamResult) (a b : Z) (why : string) : StreamResult :=
  {| base_sequence := base_sequence r; r_anchored := r_anchored r; chunks := chunks r;
     gaps := gaps r ++ [{| g_start := a; g_end := b; reason := why |}];
     conflicts := conflicts r; duplicate_observed_bytes := duplicate_observed_bytes r |}.
Definition with_conflict (r : StreamResult) (a b : Z) (pkts : list PacketId) : StreamResult :=
  {| base_sequence := base_sequence r; r_anchored := r_anchored r; chunks := chunks r;
     gaps := gaps r;
     conflicts := conflicts r ++ [{| x_start := a; x_end := b; x_packets := pkts |}];
     duplicate_observed_bytes := duplicate_observed_bytes r |}.
Definition with_dup (r : StreamResult) (n : Z) : StreamResult :=
  {| base_sequence := base_sequence r; r_anchored := r_anchored r; chunks := chunks r;
     gaps := gaps r; conflicts := conflicts r; duplicate_observed_bytes := n |}.
Definition with_chunks (r : StreamResult) (cs : list StreamChunk) : StreamResult :=
  {| base_sequence := base_sequence r; r_anchored := r_anchored r; chunks := cs;
     gaps := gaps r; conflicts := conflicts r;
     duplicate_observed_bytes := duplicate_observed_bytes r |}.

(** [finish], the selected bytes extend the last chunk when they are adjacent. *)
Definition add_chunk (cs : list StreamChunk) (a : Z) (b : EvidenceBytes) (span : Z)
    : result (list StreamChunk) :=
  match last cs with
  | Some previous =>
      e ← signed_ovf i64_min i64_max (c_offset previous + as_signed 64 (len (c_bytes previous)));
      if e =? a then
        joined ← append (c_bytes previous) b span;
        Ok (removelast cs ++ [{| c_offset := c_offset previous; c_bytes := joined |}])
      else Ok (cs ++ [{| c_offset := a; c_bytes := b |}])
  | None => Ok (cs ++ [{| c_offset := a; c_bytes := b |}])
  end.

(** [finish], one window of the sweep. *)
Definition sweep_step (segs : list Segment) (ev : Events) (pol : OverlapPolicy) (span : Z)
    (st : Active * StreamResult) (w : Z * Z) : result (Active * StreamResult) :=
  let '(act, res) := st in
  let '(a, b) := w in
  e ← (match bt_get ev a with Some e => Ok e | None => Panic end);
  let act := update_active act e in
  if zlen act =? 0 then Ok (act, with_gap res a b "missing_capture_bytes")
  else
    chosen ← ok_or (choose pol act) (limit "sweep");
    segment ← index segs chosen;
    x ← rel a (s_start segment);
    y ← rel b (s_start segment);
    selected ← slice (data (s_bytes segment)) x y;
    cmp ← foldM (compare_step segs a b chosen selected)
            (false, [], duplicate_observed_bytes res) (map fst act);
    let '(conflict, pkts, dup) := cmp in
    let res := with_dup res dup in
    let res := if (conflict : bool) then with_conflict res a b (sort_dedup pkts) else res in
    if conflict && bool_decide (pol = RejectConflict)
    then Ok (act, with_gap res a b "conflicting_capture_bytes")
    else
      bytes ← Provenance.slice (s_bytes segment) x y;
      cs ← add_chunk (chunks res) a bytes span;
      Ok (act, with_chunks res cs).

(** [finish]. *)
Definition finish (s : StreamAssembler) (pol : OverlapPolicy) : result StreamResult :=
  Errors.validate (s_limits s) ;;
  let res := {| base_sequence := base s; r_anchored := anchored_by_syn s; chunks := [];
                gaps := []; conflicts := []; duplicate_observed_bytes := 0 |} in
  if zlen (segments s) =? 0 then
    Ok (match s_fin s with
        | Some stop => if anchored_by_syn s && (0 <? stop)
                       then with_gap res 0 stop "missing_capture_bytes" else res
        | None => res
        end)
  else if match s_fin s with Some f => f <? s_max s | None => false end
  then Err (error_new SequenceAmbiguous 0 "fin_sequence" "observed payload extends beyond FIN")
  else
    ev ← build_events s;
    st ← foldM (sweep_step (segments s) ev pol (max_stream_span (s_limits s))) ([], res)
           (windows (map fst ev));
    Ok st.2.

(** ** Wrap-around *)

(** [sequence_delta] inverts wrap-around.  For every anchor and every offset of
    less than half the sequence space in either direction, the sequence number at
    that offset is mapped back to the offset; the one offset at exactly half the
    space, which has no unique sign, is an error. *)
Theorem sequence_delta_inverts (anchor d : Z) :
  -2147483648 < d < 2147483648 →
  sequence_delta ((anchor + d) mod 2 ^ 32) anchor = Ok d ∧
  sequence_delta ((anchor + 2147483648) mod 2 ^ 32) anchor =
    Err (error_new SequenceAmbiguous 0 "sequence" "exact half-space difference has no unique ordering").
Proof.
  intros Hd.
  assert (∀ e, ((anchor + e) mod 2 ^ 32 - anchor) mod 2 ^ 32 = e mod 2 ^ 32) as Hm.
  { intros e. rewrite Zminus_mod_idemp_l. f_equal. lia. }
  unfold sequence_delta, wrapping_sub. rewrite !Hm. split; [|done].
  change (2 ^ 32) with 4294967296.
  assert (d mod 4294967296 ≠ 2147483648) by dlia.
  rewrite (proj2 (Z.eqb_neq _ _)) by done. f_equal. unfold as_signed.
  change (2 ^ (32 - 1)) with 2147483648. change (2 ^ 32) with 4294967296. case_match; dlia.
Qed.

Lemma sequence_delta_witness :
  sequence_delta 5 4294967290 = Ok 11 ∧
  sequence_delta 2147483642 4294967290 =
    Err (error_new SequenceAmbiguous 0 "sequence" "exact half-space difference has no unique ordering").
Proof. apply (sequence_delta_inverts 4294967290 11). lia. Defined.
