(* ===== verification/StreamFacts.v ===== *)
(** * Correctness of stream reconstruction

    The sweep of [finish] against a pointwise specification: at every position of
    the stream the result holds the byte of the segment the policy selects, or a
    gap, and reports every position at which captured segments disagree. *)

From Stdlib Require Import Sorting.
From S2P Require Import Errors Ord Provenance Prelude Stream.

(** ** Sequence space *)

Lemma as_signed_32 d : 0 ≤ d < 2 ^ 32 →
  -2147483648 ≤ as_signed 32 d < 2147483648 ∧ as_signed 32 d mod 2 ^ 32 = d.
Proof.
  intros Hd. unfold as_signed. change (2 ^ (32 - 1)) with 2147483648.
  change (2 ^ 32) with 4294967296 in *. destruct (Z.ltb_spec d 2147483648).
  - rewrite Z.mod_small by lia. lia.
  - split; [lia|]. replace (d - 4294967296) with (d + (-1) * 4294967296) by lia.
    rewrite Z.mod_add, Z.mod_small by lia. done.
Qed.

Lemma as_signed_64 n : 0 ≤ n ≤ i64_max → as_signed 64 n = n.
Proof. intros. unfold as_signed. by rewrite (proj2 (Z.ltb_lt _ _)) by (change (2 ^ (64 - 1)) with 9223372036854775808; lia). Qed.

Lemma as_unsigned_64 n : 0 ≤ n ≤ i64_max → as_unsigned 64 n = n.
Proof. intros. unfold as_unsigned. apply Z.mod_small. lia. Qed.

Lemma sequence_delta_spec seq anchor :
  wp (sequence_delta seq anchor)
     (λ d, -2147483648 < d < 2147483648 ∧ (anchor + d) mod 2 ^ 32 = seq mod 2 ^ 32)
     (λ _, (seq - anchor) mod 2 ^ 32 = 0x80000000).
Proof.
  unfold sequence_delta, wrapping_sub. set (d := (seq - anchor) mod 2 ^ 32).
  assert (0 ≤ d < 2 ^ 32) as Hd by (apply Z.mod_pos_bound; lia).
  destruct (Z.eqb_spec d 0x80000000) as [He|He]; [done|].
  destruct (as_signed_32 d Hd) as [H1 H2]. apply wp_ok. split.
  - split; [|lia]. revert He H1 H2. unfold as_signed. change (2 ^ (32 - 1)) with 2147483648.
    change (2 ^ 32) with 4294967296 in *. case_match; lia.
  - rewrite <- Z.add_mod_idemp_r, H2 by lia. subst d.
    rewrite Z.add_mod_idemp_r by lia. f_equal. lia.
Qed.

(** ** The assembler's invariant *)

Definition s_end (s : Segment) : Z := s_start s + zlen (data (s_bytes s)).

Definition seg_ok (lo hi : Z) (s : Segment) : Prop :=
  ev_ok (s_bytes s) ∧ lo ≤ s_start s < s_end s ∧ s_end s ≤ hi.

Definition segs_size (segs : list Segment) : Z :=
  foldr (λ s acc, zlen (data (s_bytes s)) + acc) 0 segs.

Definition asm_ok (s : StreamAssembler) : Prop :=
  limits_ok (s_limits s) ∧ s_min s ≤ 0 ≤ s_max s ∧
  s_max s - s_min s ≤ max_stream_span (s_limits s) ∧
  Forall (seg_ok (s_min s) (s_max s)) (segments s) ∧
  s_retained s = segs_size (segments s) ∧ s_retained s ≤ max_retained_payload (s_limits s) ∧
  zlen (segments s) ≤ max_segments_per_flow (s_limits s) ∧
  (∀ f, s_fin s = Some f → s_min s ≤ f < 2147483648) ∧
  (anchored_by_syn s = true → s_min s = 0).

Lemma segs_size_nonneg segs : 0 ≤ segs_size segs.
Proof. induction segs as [|s segs IH]; simpl; [lia|]. pose proof (zlen_nonneg (data (s_bytes s))). lia. Qed.

Lemma segs_size_app a b : segs_size (a ++ b) = segs_size a + segs_size b.
Proof. induction a; simpl; lia. Qed.

Lemma assembler_new_ok syn l : limits_ok l → asm_ok (assembler_new syn l).
Proof.
  intros Hl. pose proof Hl as Hl'. limits_facts Hl'. change (2 ^ 30) with 1073741824 in *.
  split_and!; simpl; try done; try lia; unfold zlen; simpl; lia.
Qed.

Lemma seg_ok_mono lo hi lo' hi' s : lo' ≤ lo → hi ≤ hi' → seg_ok lo hi s → seg_ok lo' hi' s.
Proof. intros ? ? (? & ? & ?). split_and!; try done; lia. Qed.

(** Where a segment was placed. *)
Definition placed (s : StreamAssembler) (seq : Z) (b : EvidenceBytes) (s' : StreamAssembler) : Prop :=
  ∃ seg anchor, segments s' = segments s ++ [seg] ∧ s_bytes seg = b ∧ base s' = Some anchor ∧
    anchor = default seq (base s) ∧
    (anchor + s_start seg) mod 2 ^ 32 = seq mod 2 ^ 32 ∧ -2147483648 < s_start seg < 2147483648.

Lemma stream_push_spec s seq b :
  asm_ok s → ev_typed b → zlen (data b) ≤ 2 ^ 62 →
  wp (push s seq b) (λ s', asm_ok s' ∧ (s' = s ∧ data b = [] ∨ placed s seq b s')) (λ _, True).
Proof.
  intros Hok Hb H62. change (2 ^ 62) with 4611686018427387904 in H62.
  pose proof Hok as (Hl & Hmm & Hsp & Hsegs & Hr & Hrm & Hn & Hf & Ha).
  unfold push. rewrite limits_ok_validate, bind_Ok by done. unfold is_empty.
  destruct (Z.eqb_spec (zlen (data b)) 0) as [He|He].
  { apply wp_ok. split; [done|]. left. split; [done|]. by apply zlen_0_nil. }
  destruct (Provenance.validate b) eqn:Hval; [|done]. cbn [negb].
  assert (ev_ok b) as Hev by done. pose proof (zlen_nonneg (data b)).
  destruct Hb as (Hby & Hlen & Hps). unfold len.
  apply wp_bind, wp_ok_or; [|done]. intros kept [-> _]%checked_add_Some.
  destruct (Z.ltb_spec (max_retained_payload (s_limits s)) (s_retained s + zlen (data b))); [done|].
  destruct (Z.leb_spec (max_segments_per_flow (s_limits s)) (zlen (segments s))); [done|].
  cbv zeta. apply wp_bind. eapply wp_mono; [apply sequence_delta_spec| |done].
  intros start [Hst Hmod]. rewrite (as_signed_64 (zlen (data b))) by lia.
  apply wp_bind, wp_ok_or; [|done]. unfold checked_add_signed.
  intros stop. destruct (_ && _) eqn:Hchk; [|done]. intros [= <-].
  apply andb_true_iff in Hchk as [_ Hchk].
  pose proof Hl as Hl'. limits_facts Hl'. change (2 ^ 30) with 1073741824 in *. apply wp_bind, wp_signed_ovf; [lia|].
  rewrite as_signed_64 by lia.
  destruct (Z.ltb_spec (max_stream_span (s_limits s))
     (Z.max (s_max s) (start + zlen (data b)) - Z.min (s_min s) start)); [done|].
  destruct (anchored_by_syn s && (start <? 0)) eqn:Hanch; [done|]. apply wp_ok.
  assert (asm_ok {| base := Some (default seq (base s)); anchored_by_syn := anchored_by_syn s;
            segments := segments s ++ [{| s_start := start; s_bytes := b |}];
            s_min := Z.min (s_min s) start; s_max := Z.max (s_max s) (start + zlen (data b));
            s_fin := s_fin s; s_retained := s_retained s + zlen (data b); s_limits := s_limits s |}) as Hnew.
  { split_and!; cbn [s_min s_max segments s_retained s_limits s_fin anchored_by_syn]; try done; try lia.
    - apply Forall_app. split.
      + eapply Forall_impl; [exact Hsegs|]. intros x. apply seg_ok_mono; lia.
      + apply Forall_singleton. split_and!; unfold s_end; simpl; try done; lia.
    - rewrite segs_size_app. simpl. lia.
    - rewrite zlen_app, zlen_cons, zlen_nil. lia.
    - intros f Hf'. specialize (Hf f Hf'). lia.
    - intros Hx. rewrite Hx in Hanch. specialize (Ha Hx). simpl in Hanch. lia. }
  split; [by destruct (base s)|right].
  exists {| s_start := start; s_bytes := b |}, (default seq (base s)). simpl. split_and!; try done; try lia.
Qed.

Lemma end_at_spec s seq :
  asm_ok s →
  wp (end_at s seq)
     (λ s', asm_ok s' ∧ segments s' = segments s ∧
        ∃ f anchor, s_fin s' = Some f ∧ base s' = Some anchor ∧ anchor = default seq (base s) ∧
          (anchor + f) mod 2 ^ 32 = seq mod 2 ^ 32) (λ _, True).
Proof.
  intros Hok. pose proof Hok as (Hl & Hmm & Hsp & Hsegs & Hr & Hrm & Hn & Hf & Ha).
  unfold end_at. rewrite limits_ok_validate, bind_Ok by done. cbv zeta.
  apply wp_bind. eapply wp_mono; [apply sequence_delta_spec| |done].
  intros stop [Hst Hmod]. pose proof Hl as Hl'. limits_facts Hl'. change (2 ^ 30) with 1073741824 in *.
  destruct (Z.ltb_spec stop (s_min s)); [exact I|].
  rewrite signed_ovf_ok, !bind_Ok by lia.
  destruct (_ <? _); [done|]. destruct (match s_fin s with Some _ => _ | None => _ end); [done|].
  apply wp_ok. split; [|split; [done|]].
  - split_and!; simpl; try done; try lia. intros f [= <-]. lia.
  - exists stop, (default seq (base s)). simpl. split_and!; try done; by destruct (base s).
Qed.

(** ** Which segments cover a position *)

Definition covers (s : Segment) (x : Z) : bool := (s_start s <=? x) && (x <? s_end s).

(** The indices, from [i] on, of the segments that cover [x]. *)
Fixpoint cov_from (i : Z) (segs : list Segment) (x : Z) : list Z :=
  match segs with
  | [] => []
  | s :: segs => if covers s x then i :: cov_from (i + 1) segs x else cov_from (i + 1) segs x
  end.
Definition covering (segs : list Segment) (x : Z) : list Z := cov_from 0 segs x.

Lemma covers_true s x : covers s x = true ↔ s_start s ≤ x < s_end s.
Proof. unfold covers. rewrite andb_true_iff, Z.leb_le, Z.ltb_lt. lia. Qed.

(** Segment number [i]. *)
Definition nth_seg (segs : list Segment) (i : Z) (s : Segment) : Prop :=
  0 ≤ i ∧ segs !! Z.to_nat i = Some s.

Lemma nth_seg_cons s segs i t :
  nth_seg (s :: segs) i t ↔ (i = 0 ∧ s = t) ∨ (1 ≤ i ∧ nth_seg segs (i - 1) t).
Proof.
  unfold nth_seg. destruct (decide (i = 0)) as [->|Hi].
  - simpl. split; [intros [_ [= ->]]; by left|]. intros [[_ ->]|[? _]]; [done|lia].
  - split.
    + intros [H1 H2]. right. replace (Z.to_nat i) with (S (Z.to_nat (i - 1))) in H2 by lia.
      split_and!; [lia|lia|done].
    + intros [[? _]|[H1 [H2 H3]]]; [lia|]. replace (Z.to_nat i) with (S (Z.to_nat (i - 1))) by lia.
      split; [lia|done].
Qed.

Lemma nth_seg_fun segs i s t : nth_seg segs i s → nth_seg segs i t → s = t.
Proof. unfold nth_seg. naive_solver congruence. Qed.

Lemma nth_seg_ok lo hi segs i s : Forall (seg_ok lo hi) segs → nth_seg segs i s → seg_ok lo hi s.
Proof. intros H [_ Hi]. by eapply Forall_lookup in H. Qed.

Lemma elem_of_cov_from i segs x j :
  j ∈ cov_from i segs x ↔ ∃ s, nth_seg segs (j - i) s ∧ covers s x = true.
Proof.
  revert i. induction segs as [|s segs IH]; intros i; simpl.
  - split; [by intros ?%not_elem_of_nil|]. intros (s & [_ Hs] & _). by rewrite lookup_nil in Hs.
  - setoid_rewrite nth_seg_cons. destruct (covers s x) eqn:Hc; rewrite ?elem_of_cons, IH.
    + split.
      * intros [->|(t & [Hn0 Hn] & Ht)]; [exists s; split; [left; split; [lia|done]|done]|].
        exists t. split; [right; replace (j - i - 1) with (j - (i + 1)) by lia; split; [lia|done]|done].
      * intros (t & [[Hj ->]|[Hj Hn]] & Ht); [left; lia|]. right. exists t.
        by replace (j - (i + 1)) with (j - i - 1) by lia.
    + split.
      * intros (t & [Hn0 Hn] & Ht). exists t.
        split; [right; replace (j - i - 1) with (j - (i + 1)) by lia; split; [lia|done]|done].
      * intros (t & [[Hj <-]|[Hj Hn]] & Ht); [congruence|]. exists t.
        by replace (j - (i + 1)) with (j - i - 1) by lia.
Qed.

Lemma elem_of_covering segs x j :
  j ∈ covering segs x ↔ ∃ s, nth_seg segs j s ∧ covers s x = true.
Proof. unfold covering. rewrite elem_of_cov_from. by rewrite Z.sub_0_r. Qed.

Lemma cov_from_sorted i segs x : StronglySorted lt_ord (cov_from i segs x).
Proof.
  revert i. induction segs as [|s segs IH]; intros i; simpl; [constructor|].
  destruct (covers s x); [|done]. constructor; [done|]. apply Forall_forall.
  intros j (t & [Hj _] & _)%elem_of_cov_from. unfold lt_ord; simpl. apply Z.compare_lt_iff. lia.
Qed.

Lemma covering_sorted segs x : StronglySorted lt_ord (covering segs x).
Proof. apply cov_from_sorted. Qed.

(** ** The active set *)

Lemma bt_keys_remove {K V} `{Ord K} (m : list (K * V)) k k' :
  k' ∈ (bt_remove m k).*1 ↔ k' ∈ m.*1 ∧ k' ≠ k.
Proof.
  destruct (decide (k = k')) as [->|Hne].
  - pose proof (bt_get_remove_eq m k') as Hg. apply bt_get_None in Hg. naive_solver.
  - pose proof (bt_get_remove_ne m k k' Hne) as Hg.
    assert (∀ l : list (K * V), k' ∈ l.*1 ↔ bt_get l k' ≠ None) as Hiff.
    { intros l. rewrite bt_get_None. destruct (decide (k' ∈ l.*1)); tauto. }
    rewrite !Hiff, Hg. naive_solver.
Qed.

Lemma update_active_spec act e :
  bt_wf act →
  bt_wf (update_active act e) ∧
  ∀ i, i ∈ (update_active act e).*1 ↔ i ∈ e.1 ∨ i ∈ act.*1 ∧ i ∉ e.2.
Proof.
  intros Hwf. unfold update_active. destruct e as [st en]; simpl.
  assert (∀ m, bt_wf m → bt_wf (fold_left (λ (m : Active) i, bt_remove m i) en m) ∧
            ∀ i, i ∈ (fold_left (λ (m : Active) i, bt_remove m i) en m).*1 ↔ i ∈ m.*1 ∧ i ∉ en) as Hr.
  { induction en as [|j en IH]; simpl; intros m Hm.
    - split; [done|]. intros i. split; [intros; split; [done|apply not_elem_of_nil]|tauto].
    - destruct (IH (bt_remove m j)) as [H1 H2]; [by apply bt_remove_wf|]. split; [done|].
      intros i. rewrite H2, bt_keys_remove, not_elem_of_cons. tauto. }
  assert (∀ m, bt_wf m → bt_wf (fold_left (λ (m : Active) i, bt_insert m i ()) st m) ∧
            ∀ i, i ∈ (fold_left (λ (m : Active) i, bt_insert m i ()) st m).*1 ↔ i ∈ st ∨ i ∈ m.*1) as Hi.
  { clear Hr. induction st as [|j st IH]; simpl; intros m Hm.
    - split; [done|]. intros i. split; [by right|intros [?%not_elem_of_nil|?]; done].
    - destruct (IH (bt_insert m j ())) as [H1 H2]; [by apply bt_insert_wf|]. split; [done|].
      intros i. rewrite H2, elem_of_insert_keys, elem_of_cons. tauto. }
  destruct (Hr act Hwf) as [Hr1 Hr2]. destruct (Hi _ Hr1) as [Hi1 Hi2].
  split; [done|]. intros i. rewrite Hi2, Hr2. tauto.
Qed.

(** ** Boundaries *)

(** What [build_events] records. *)
Definition events_ok (segs : list Segment) (extra : Z → Prop) (ev : Events) : Prop :=
  bt_wf ev ∧
  (∀ k, k ∈ ev.*1 ↔ (∃ i s, nth_seg segs i s ∧ (s_start s = k ∨ s_end s = k)) ∨ extra k) ∧
  (∀ k i, i ∈ (event_at ev k).1 ↔ ∃ s, nth_seg segs i s ∧ s_start s = k) ∧
  (∀ k i, i ∈ (event_at ev k).2 ↔ ∃ s, nth_seg segs i s ∧ s_end s = k).

Lemma event_at_insert ev k e k' :
  event_at (bt_insert ev k e) k' = if decide (k = k') then e else event_at ev k'.
Proof. unfold event_at. rewrite bt_get_insert. by repeat case_decide. Qed.

Lemma nth_seg_snoc segs s i t :
  nth_seg (segs ++ [s]) i t ↔ nth_seg segs i t ∨ (i = zlen segs ∧ t = s).
Proof.
  unfold nth_seg, zlen. split.
  - intros [Hi [H|[H1 H2]]%lookup_app_Some]; [by left|]. right.
    apply list_lookup_singleton_Some in H2 as [H2 ->]. split; [lia|done].
  - intros [[Hi H]|[-> ->]]; [split; [done|by apply lookup_app_l_Some]|].
    split; [lia|]. rewrite Nat2Z.id. by rewrite lookup_app_r, Nat.sub_diag by lia.
Qed.

Lemma push_start_at ev k j k' i :
  (i ∈ (event_at (push_start ev k j) k').1 ↔ i ∈ (event_at ev k').1 ∨ k' = k ∧ i = j) ∧
  (event_at (push_start ev k j) k').2 = (event_at ev k').2.
Proof.
  unfold push_start. rewrite event_at_insert. case_decide as Hk; [subst k'|]; simpl.
  - by rewrite elem_of_app, list_elem_of_singleton; split; [tauto|].
  - split; [|done]. split; [by left|]. by intros [?|[-> _]].
Qed.

Lemma push_end_at ev k j k' i :
  (i ∈ (event_at (push_end ev k j) k').2 ↔ i ∈ (event_at ev k').2 ∨ k' = k ∧ i = j) ∧
  (event_at (push_end ev k j) k').1 = (event_at ev k').1.
Proof.
  unfold push_end. rewrite event_at_insert. case_decide as Hk; [subst k'|]; simpl.
  - by rewrite elem_of_app, list_elem_of_singleton; split; [tauto|].
  - split; [|done]. split; [by left|]. by intros [?|[-> _]].
Qed.

Lemma push_events_ok segs extra ev s :
  events_ok segs extra ev →
  events_ok (segs ++ [s]) extra
    (push_end (push_start ev (s_start s) (zlen segs)) (s_end s) (zlen segs)).
Proof.
  intros (Hwf & Hk & Hs & He). split_and!.
  - by apply bt_insert_wf, bt_insert_wf.
  - intros k. unfold push_end, push_start. rewrite !elem_of_insert_keys, Hk. setoid_rewrite nth_seg_snoc.
    split.
    + intros [->|[->|[(i & t & ? & ?)|?]]]; eauto 10.
    + intros [(i & t & [?|[-> ->]] & [<-|<-])|?]; eauto 10.
  - intros k i. rewrite (proj2 (push_end_at _ _ _ _ 0)), (proj1 (push_start_at _ _ _ _ i)), Hs.
    setoid_rewrite nth_seg_snoc.
    split; [intros [(t & ? & ?)|[-> ->]]; eauto 10|intros (t & [?|[-> ->]] & <-); eauto 10].
  - intros k i. rewrite (proj1 (push_end_at _ _ _ _ i)), (proj2 (push_start_at _ _ _ _ 0)), He.
    setoid_rewrite nth_seg_snoc.
    split; [intros [(t & ? & ?)|[-> ->]]; eauto 10|intros (t & [?|[-> ->]] & <-); eauto 10].
Qed.

Lemma touch_ok segs extra ev k :
  events_ok segs extra ev → events_ok segs (λ x, extra x ∨ x = k) (touch ev k).
Proof.
  intros (Hwf & Hk & Hs & He). unfold touch. split_and!.
  - by apply bt_insert_wf.
  - intros x. rewrite elem_of_insert_keys, Hk. tauto.
  - intros x i. rewrite event_at_insert. case_decide; subst; apply Hs.
  - intros x i. rewrite event_at_insert. case_decide; subst; apply He.
Qed.

Lemma segment_events_spec lo hi pre segs ev :
  Forall (seg_ok lo hi) segs → i64_min ≤ lo → hi ≤ i64_max →
  events_ok pre (λ _, False) ev →
  ∃ ev', segment_events ev (zlen pre) segs = Ok ev' ∧ events_ok (pre ++ segs) (λ _, False) ev'.
Proof.
  intros Hsegs Hlo Hhi. revert pre ev. induction Hsegs as [|s segs Hs Hsegs IH]; intros pre ev Hev; simpl.
  - exists ev. by rewrite app_nil_r.
  - destruct Hs as (([_ [Hl _]] & _) & Hs1 & Hs2). unfold len.
    rewrite as_signed_64 by (split; [apply zlen_nonneg|done]). fold (s_end s).
    rewrite signed_ovf_ok, bind_Ok by (unfold s_end in *; lia).
    destruct (IH (pre ++ [s]) (push_end (push_start ev (s_start s) (zlen pre)) (s_end s) (zlen pre)))
      as (ev' & Heq & Hok); [by apply push_events_ok|].
    exists ev'. rewrite zlen_app, zlen_cons, zlen_nil in Heq. rewrite <- app_assoc in Hok. by rewrite <- Heq.
Qed.

(** The positions the anchor and the FIN add to the boundaries. *)
Definition extra_boundary (s : StreamAssembler) (k : Z) : Prop :=
  anchored_by_syn s = true ∧ k = 0 ∨ s_fin s = Some k.

Lemma build_events_spec s :
  asm_ok s → ∃ ev, build_events s = Ok ev ∧ events_ok (segments s) (extra_boundary s) ev.
Proof.
  intros (Hl & Hmm & Hsp & Hsegs & _). limits_facts Hl. change (2 ^ 30) with 1073741824 in *.
  destruct (segment_events_spec (s_min s) (s_max s) [] (segments s) []) as (ev & Heq & Hev);
    [done|lia|lia| |].
  { split_and!; [constructor| | |].
    - intros k. split; [by intros ?%not_elem_of_nil|]. intros [(i & t & [_ Ht] & _)|[]]. by rewrite lookup_nil in Ht.
    - intros k i. simpl. split; [by intros ?%not_elem_of_nil|]. intros (t & [_ Ht] & _). by rewrite lookup_nil in Ht.
    - intros k i. simpl. split; [by intros ?%not_elem_of_nil|]. intros (t & [_ Ht] & _). by rewrite lookup_nil in Ht. }
  unfold build_events. rewrite zlen_nil in Heq. rewrite Heq, bind_Ok. eexists. split; [done|].
  assert (∀ P Q ev, events_ok (segments s) P ev → (∀ k, P k ↔ Q k) → events_ok (segments s) Q ev) as Hiff.
  { intros P Q e (H1' & H2' & H3' & H4') HPQ. split_and!; try done. intros k. by rewrite H2', HPQ. }
  unfold extra_boundary. simpl in Hev.
  destruct (anchored_by_syn s), (s_fin s) as [f|];
    (eapply Hiff; [first [exact Hev|by apply touch_ok|by apply touch_ok, touch_ok]|]); naive_solver.
Qed.

(** ** One window of the sweep *)

(** No segment boundary lies inside the window. *)
Definition window (segs : list Segment) (a b : Z) : Prop :=
  a < b ∧ Forall (λ s, s_start s ≤ a ∧ b ≤ s_end s ∨ b ≤ s_start s ∨ s_end s ≤ a) segs.

Lemma window_covering segs a b x : window segs a b → a ≤ x < b → covering segs x = covering segs a.
Proof.
  intros [Hab Hw] Hx. unfold covering. generalize 0 as i.
  induction Hw as [|s segs Hs Hw IH]; intros i; simpl; [done|].
  assert (covers s x = covers s a) as ->; [|by rewrite IH].
  apply eq_true_iff_eq. rewrite !covers_true. lia.
Qed.

(** The part of the captured bytes that lies before a position. *)
Definition clip (x : Z) (s : Segment) : Z := Z.max 0 (Z.min x (s_end s) - s_start s).
Definition clip_sum (segs : list Segment) (x : Z) : Z := foldr (λ s acc, clip x s + acc) 0 segs.

Lemma clip_sum_window segs a b :
  window segs a b → clip_sum segs b = clip_sum segs a + (b - a) * zlen (covering segs a).
Proof.
  intros [Hab Hw]. unfold covering. generalize 0 as i.
  induction Hw as [|s segs Hs Hw IH]; intros i; simpl; [unfold zlen; simpl; lia|].
  rewrite (IH (i + 1)). unfold clip. destruct (covers s a) eqn:Hc.
  - apply covers_true in Hc. rewrite zlen_cons. lia.
  - assert (¬ (s_start s ≤ a < s_end s)) by (rewrite <- covers_true, Hc; done). lia.
Qed.

Lemma clip_sum_size segs x : Forall (λ s, s_start s ≤ s_end s) segs → 0 ≤ clip_sum segs x ≤ segs_size segs.
Proof.
  induction 1 as [|s segs Hs Hw IH]; simpl; [lia|]. unfold clip. unfold s_end in *. lia.
Qed.

Section one_window.
Context (segs : list Segment) (lo hi a b : Z).
Context (Hsegs : Forall (seg_ok lo hi) segs) (Hlo : i64_min / 2 ≤ lo) (Hhi : hi ≤ i64_max / 2).
Context (Hwin : window segs a b).

(** The bytes of a segment in the window. *)
Definition raw_of (s : Segment) : list Z := sub (data (s_bytes s)) (a - s_start s) (b - s_start s).

Lemma active_seg i :
  i ∈ covering segs a →
  ∃ s, index (E:=Error) segs i = Ok s ∧ nth_seg segs i s ∧ seg_ok lo hi s ∧ s_start s ≤ a ∧ b ≤ s_end s.
Proof using Hsegs Hwin.
  intros (s & Hn & Hc)%elem_of_covering. exists s. pose proof Hn as [Hi Hl].
  assert (seg_ok lo hi s) as Hs by (by eapply nth_seg_ok).
  unfold index. rewrite (proj2 (Z.leb_le 0 i)), Hl by done. split_and!; try done.
  - apply covers_true in Hc. lia.
  - apply covers_true in Hc. destruct Hwin as [_ Hw].
    eapply Forall_lookup in Hw; [|exact Hl]. simpl in Hw. lia.
Qed.

Lemma rel_ok s x :
  seg_ok lo hi s → s_start s ≤ x ≤ s_end s → rel x (s_start s) = Ok (x - s_start s).
Proof using Hlo Hhi.
  intros (_ & H1 & H2) Hx. change (i64_min / 2) with (-4611686018427387904) in Hlo.
  change (i64_max / 2) with 4611686018427387903 in Hhi.
  unfold rel. rewrite signed_ovf_ok, bind_Ok by lia. by rewrite as_unsigned_64 by lia.
Qed.

Lemma compare_spec chosen selected l c pkts dup :
  (∀ i, i ∈ l → i ∈ covering segs a) →
  0 ≤ dup → dup + (b - a) * zlen l ≤ usize_max →
  ∃ c' pkts' dup',
    foldM (compare_step segs a b chosen selected) (c, pkts, dup) l = Ok (c', pkts', dup') ∧
    dup ≤ dup' ≤ dup + (b - a) * zlen l ∧
    (c' = true ↔ c = true ∨ ∃ i s, i ∈ l ∧ nth_seg segs i s ∧ raw_of s ≠ selected).
Proof using Hsegs Hwin Hlo Hhi.
  destruct Hwin as [Hab _].
  revert c pkts dup. induction l as [|i l IH]; intros c pkts dup Hin Hd Hmax.
  { exists c, pkts, dup. split_and!; [done|lia|unfold zlen; simpl; lia|].
    split; [by left|]. intros [?|(i & s & ?%not_elem_of_nil & _)]; done. }
  rewrite zlen_cons in *. pose proof (zlen_nonneg l).
  destruct (active_seg i) as (s & Hidx & Hn & Hs & H1 & H2); [set_solver|].
  cbn [foldM]. unfold compare_step at 2. rewrite Hidx, bind_Ok, !rel_ok, !bind_Ok by (done || lia).
  rewrite slice_ok, bind_Ok by (unfold s_end in *; lia). fold (raw_of s).
  assert (zlen (raw_of s) = b - a) as Hz by (unfold raw_of; rewrite zlen_sub by (unfold s_end in *; lia); lia).
  cbv zeta. set (same := bytes_eqb (raw_of s) selected).
  assert (∃ dup1, (if negb (i =? chosen) && same then add_ovf (E:=Error) usize_max dup (zlen (raw_of s)) else Ok dup)
            = Ok dup1 ∧ dup ≤ dup1 ≤ dup + (b - a)) as (dup1 & -> & Hd1).
  { rewrite Hz. case_match; [rewrite add_ovf_ok by nia|]; eexists; (split; [done|lia]). }
  rewrite bind_Ok, bind_Ok.
  destruct (IH (c || negb same) (pkts ++ map packet (take_while (λ s0, start s0 <? b - s_start s)
      (skip_while (λ s0, end_ s0 <=? a - s_start s) (spans (s_bytes s))))) dup1)
    as (c' & pkts' & dup' & Heq & Hb & Hc); [set_solver|lia|nia|].
  exists c', pkts', dup'. split_and!; [done|lia|nia|]. rewrite Hc, orb_true_iff, negb_true_iff.
  unfold same. rewrite bytes_eqb_neq. split.
  - intros [[?|?]|(j & t & ? & ?)]; [by left|right; exists i, s; set_solver|right; exists j, t; set_solver].
  - intros [?|(j & t & [->|Hj]%elem_of_cons & Hn' & Hr)]; [tauto| |right; by exists j, t].
    left. right. by rewrite (nth_seg_fun _ _ _ _ Hn Hn').
Qed.
End one_window.

(** ** What the result says at a position *)

Definition chunk_end (c : StreamChunk) : Z := c_offset c + zlen (data (c_bytes c)).

(** The byte and its source at position [x] of evidence placed at [off]. *)
Definition byte_at (e : EvidenceBytes) (off x : Z) (v : Z * (PacketId * Z)) : Prop :=
  data e !! Z.to_nat (x - off) = Some v.1 ∧ origins e !! Z.to_nat (x - off) = Some v.2.

Definition has_chunk (cs : list StreamChunk) (x : Z) : Prop :=
  ∃ c, c ∈ cs ∧ c_offset c ≤ x < chunk_end c.
Definition in_chunk (cs : list StreamChunk) (x : Z) (v : Z * (PacketId * Z)) : Prop :=
  ∃ c, c ∈ cs ∧ c_offset c ≤ x < chunk_end c ∧ byte_at (c_bytes c) (c_offset c) x v.
Definition has_gap (gs : list StreamGap) (x : Z) (why : string) : Prop :=
  ∃ g, g ∈ gs ∧ g_start g ≤ x < g_end g ∧ reason g = why.
Definition has_conflict (cs : list Conflict) (x : Z) : Prop :=
  ∃ c, c ∈ cs ∧ x_start c ≤ x < x_end c.

(** Well-formed chunk lists: ordered, maximal (never adjacent), inside [lo..hi]. *)
Definition chunk_ok (lo hi : Z) (c : StreamChunk) : Prop :=
  ev_ok (c_bytes c) ∧ lo ≤ c_offset c < chunk_end c ∧ chunk_end c ≤ hi.
Definition chunk_lt (c d : StreamChunk) : Prop := chunk_end c < c_offset d.
Definition chunks_ok (lo hi : Z) (cs : list StreamChunk) : Prop :=
  Forall (chunk_ok lo hi) cs ∧ StronglySorted chunk_lt cs.

Lemma has_gap_snoc gs a b w x why :
  has_gap (gs ++ [{| g_start := a; g_end := b; reason := w |}]) x why ↔
  has_gap gs x why ∨ a ≤ x < b ∧ why = w.
Proof.
  unfold has_gap. setoid_rewrite elem_of_app. setoid_rewrite list_elem_of_singleton. split.
  - intros (g & [Hg| ->] & Hx & <-); [left; by exists g|by right].
  - intros [(g & Hg & Hx)|[Hx ->]]; [by exists g; auto|]. eexists. split; [by right|done].
Qed.

Lemma has_conflict_snoc cs a b p x :
  has_conflict (cs ++ [{| x_start := a; x_end := b; x_packets := p |}]) x ↔
  has_conflict cs x ∨ a ≤ x < b.
Proof.
  unfold has_conflict. setoid_rewrite elem_of_app. setoid_rewrite list_elem_of_singleton. split.
  - intros (g & [Hg| ->] & Hx); [left; by exists g|by right].
  - intros [(g & Hg & Hx)|Hx]; [by exists g; auto|]. eexists. split; [by right|done].
Qed.

Lemma sorted_snoc_inv {A} (R : A → A → Prop) l x :
  StronglySorted R (l ++ [x]) ↔ StronglySorted R l ∧ Forall (λ y, R y x) l.
Proof.
  induction l as [|y l IH]; simpl.
  - split; [intros _; split; constructor|]. intros _. constructor; constructor.
  - split.
    + intros [Hs [Hall Hx]%Forall_app]%StronglySorted_inv. apply IH in Hs as [? ?].
      rewrite Forall_singleton in Hx. split; [by constructor|]. apply Forall_cons. split; [exact Hx|assumption].
    + intros [[? ?]%StronglySorted_inv [? ?]%Forall_cons]. constructor; [by apply IH|].
      apply Forall_app. split; [done|]. by apply Forall_singleton.
Qed.

(** Evidence followed by evidence. *)
Lemma byte_at_append p q e off x v :
  ev_ok p → data e = data p ++ data q → origins e = origins p ++ origins q → off ≤ x →
  byte_at e off x v ↔
  (x < off + zlen (data p) ∧ byte_at p off x v) ∨
  (off + zlen (data p) ≤ x ∧ byte_at q (off + zlen (data p)) x v).
Proof.
  intros Hp Hd Ho Hx. unfold byte_at. rewrite Hd, Ho.
  pose proof (zlen_origins p Hp) as Hz. unfold zlen in *.
  destruct (decide (x < off + Z.of_nat (length (data p)))).
  - rewrite !lookup_app_l by lia. naive_solver lia.
  - rewrite !lookup_app_r by lia.
    replace (Z.to_nat (x - off) - length (data p))%nat with (Z.to_nat (x - (off + Z.of_nat (length (data p))))) by lia.
    replace (Z.to_nat (x - off) - length (origins p))%nat with (Z.to_nat (x - (off + Z.of_nat (length (data p))))) by lia.
    naive_solver lia.
Qed.

Definition chunk_added (cs cs' : list StreamChunk) (a b : Z) (e : EvidenceBytes) : Prop :=
  (∀ x v, in_chunk cs' x v ↔ in_chunk cs x v ∨ a ≤ x < b ∧ byte_at e a x v) ∧
  (∀ x, has_chunk cs' x ↔ has_chunk cs x ∨ a ≤ x < b).

Lemma snoc_added cs a b e :
  zlen (data e) = b - a → chunk_added cs (cs ++ [{| c_offset := a; c_bytes := e |}]) a b e.
Proof.
  intros Hz. set (nc := {| c_offset := a; c_bytes := e |}).
  assert (chunk_end nc = b) as Hnc by (unfold chunk_end; simpl; lia).
  split; intros x; [intros v|];
    unfold in_chunk, has_chunk; setoid_rewrite elem_of_app; setoid_rewrite list_elem_of_singleton.
  - split; [intros (c & [Hc| ->] & Hx & Hv); [left; by exists c|rewrite Hnc in Hx; by right]|].
    intros [(c & Hc)|[Hx Hv]]; [exists c; naive_solver|]. exists nc. rewrite Hnc. auto.
  - split; [intros (c & [Hc| ->] & Hx); [left; by exists c|rewrite Hnc in Hx; by right]|].
    intros [(c & Hc)|Hx]; [exists c; naive_solver|]. exists nc. rewrite Hnc. auto.
Qed.

(** The last chunk extended by the adjacent evidence [e]. *)
Lemma merge_added front prev a b e j :
  ev_ok (c_bytes prev) → c_offset prev < chunk_end prev → chunk_end prev = a → a ≤ b →
  zlen (data e) = b - a → data j = data (c_bytes prev) ++ data e →
  origins j = origins (c_bytes prev) ++ origins e →
  chunk_end {| c_offset := c_offset prev; c_bytes := j |} = b ∧
  chunk_added (front ++ [prev]) (front ++ [{| c_offset := c_offset prev; c_bytes := j |}]) a b e.
Proof.
  intros Hp Hlt Heq Hab Hz Hjd Hjo. set (mc := {| c_offset := c_offset prev; c_bytes := j |}).
  assert (chunk_end mc = b) as Hmc by (unfold chunk_end in *; simpl; rewrite Hjd, zlen_app; lia).
  assert (∀ x v, c_offset prev ≤ x → byte_at j (c_offset prev) x v ↔
            (x < a ∧ byte_at (c_bytes prev) (c_offset prev) x v) ∨ (a ≤ x ∧ byte_at e a x v)) as Hb.
  { intros x v Hx. rewrite (byte_at_append (c_bytes prev) e) by done.
    fold (chunk_end prev). by rewrite Heq. }
  split; [done|]. split; intros x; [intros v|];
    unfold in_chunk, has_chunk; setoid_rewrite elem_of_app; setoid_rewrite list_elem_of_singleton.
  - split.
    + intros (c & [Hc| ->] & Hx & Hv); [left; by exists c; auto|]. rewrite Hmc in Hx. simpl in Hx, Hv.
      rewrite Hb in Hv by lia. destruct Hv as [[? ?]|[? ?]]; [|right; split; [lia|done]].
      left. exists prev. split; [by right|]. split; [lia|done].
    + intros [(c & [Hc| ->] & Hx & Hv)|[Hx Hv]]; [exists c; by auto| |];
        exists mc; rewrite Hmc; (split; [by right|]); simpl; (split; [lia|]);
        apply Hb; [lia| |lia|]; [left|right]; (split; [lia|done]).
  - split.
    + intros (c & [Hc| ->] & Hx); [left; by exists c; auto|]. rewrite Hmc in Hx. simpl in Hx.
      destruct (decide (x < a)); [left; exists prev; split; [by right|lia]|right; lia].
    + intros [(c & [Hc| ->] & Hx)|Hx]; [exists c; by auto| |];
        exists mc; rewrite Hmc; (split; [by right|]); simpl; lia.
Qed.

Lemma add_chunk_spec lo hi cs a b e span :
  chunks_ok lo a cs → lo ≤ a < b → b ≤ hi → i64_min / 2 ≤ lo → hi ≤ i64_max / 2 → hi - lo ≤ span →
  ev_ok e → zlen (data e) = b - a →
  ∃ cs', add_chunk cs a e span = Ok cs' ∧ chunks_ok lo b cs' ∧ chunk_added cs cs' a b e.
Proof.
  intros [Hall Hsort] Hab Hbh Hlo Hhi Hsp He Hz.
  change (i64_min / 2) with (-4611686018427387904) in Hlo.
  change (i64_max / 2) with 4611686018427387903 in Hhi.
  assert (chunk_ok lo b {| c_offset := a; c_bytes := e |}) as Hnc.
  { unfold chunk_ok, chunk_end; simpl. split_and!; try done; lia. }
  assert (Forall (chunk_ok lo b) cs) as Hall'.
  { eapply Forall_impl; [exact Hall|]. intros c (? & ? & ?). split_and!; try done; lia. }
  unfold add_chunk. destruct (last cs) as [prev|] eqn:Hlast.
  2: { apply last_None in Hlast as ->. eexists. split; [done|]. split; [|by apply snoc_added].
       split; [by apply Forall_singleton|]. constructor; constructor. }
  apply last_Some in Hlast as [front ->].
  apply Forall_app in Hall as [Hfront Hprev]. rewrite Forall_singleton in Hprev.
  destruct Hprev as (Hpe & Hp1 & Hp2). apply Forall_app in Hall' as [Hfront' Hprev'].
  unfold len. rewrite as_signed_64 by (split; [apply zlen_nonneg|apply Hpe]).
  fold (chunk_end prev). rewrite signed_ovf_ok, bind_Ok by lia.
  apply sorted_snoc_inv in Hsort as [Hs1 Hs2].
  destruct (Z.eqb_spec (chunk_end prev) a) as [Heq|Hne].
  - destruct (append_ev_ok (c_bytes prev) e span) as (j & -> & Hj & Hjd & Hjo); try done.
    { unfold chunk_end in *. lia. }
    rewrite bind_Ok. eexists. split; [done|]. rewrite removelast_last.
    destruct (merge_added front prev a b e j) as [Hmc Hadd]; try done; try lia.
    split; [split|done].
    + apply Forall_app. split; [done|]. apply Forall_singleton.
      unfold chunk_ok. rewrite Hmc. simpl. split_and!; try done; lia.
    + by apply sorted_snoc_inv.
  - eexists. split; [done|]. split; [|by apply snoc_added]. split.
    + apply Forall_app. split; [by apply Forall_app|]. by apply Forall_singleton.
    + apply sorted_snoc_inv. split; [by apply sorted_snoc_inv|]. apply Forall_app. split.
      * eapply Forall_impl; [exact Hs2|]. unfold chunk_lt. simpl. intros c Hc. lia.
      * apply Forall_singleton. unfold chunk_lt. simpl. lia.
Qed.

(** ** The specification of the sweep *)

(** The segment the policy selects at a position. *)
Definition selected (pol : OverlapPolicy) (segs : list Segment) (x : Z) : option Z :=
  match pol with
  | LastObserved => last (covering segs x)
  | _ => head (covering segs x)
  end.

(** Two captured segments carry different bytes for the position. *)
Definition disagree (segs : list Segment) (x : Z) : Prop :=
  ∃ i j s t, i ∈ covering segs x ∧ j ∈ covering segs x ∧ nth_seg segs i s ∧ nth_seg segs j t ∧
    nthz (data (s_bytes s)) (x - s_start s) ≠ nthz (data (s_bytes t)) (x - s_start t).

Definition position_ok (pol : OverlapPolicy) (segs : list Segment) (r : StreamResult) (x : Z) : Prop :=
  (* not captured: a gap *)
  (covering segs x = [] →
     has_gap (gaps r) x "missing_capture_bytes" ∧ ¬ has_chunk (chunks r) x ∧
     ¬ has_conflict (conflicts r) x) ∧
  (* captured: the selected byte with its source, or a conflict gap *)
  (∀ i s v, selected pol segs x = Some i → nth_seg segs i s → byte_at (s_bytes s) (s_start s) x v →
     (pol = RejectConflict ∧ has_conflict (conflicts r) x ∧
        has_gap (gaps r) x "conflicting_capture_bytes" ∧ ¬ has_chunk (chunks r) x) ∨
     (¬ (pol = RejectConflict ∧ has_conflict (conflicts r) x) ∧
        in_chunk (chunks r) x v ∧ ∀ why, ¬ has_gap (gaps r) x why)) ∧
  (* conflicts are reported, and none is invented *)
  (disagree segs x → has_conflict (conflicts r) x) ∧
  (has_conflict (conflicts r) x → ∃ y, covering segs y = covering segs x ∧ disagree segs y).

Definition same_at (r r' : StreamResult) (x : Z) : Prop :=
  (∀ v, in_chunk (chunks r') x v ↔ in_chunk (chunks r) x v) ∧
  (has_chunk (chunks r') x ↔ has_chunk (chunks r) x) ∧
  (∀ why, has_gap (gaps r') x why ↔ has_gap (gaps r) x why) ∧
  (has_conflict (conflicts r') x ↔ has_conflict (conflicts r) x).

Lemma position_ok_same pol segs r r' x :
  same_at r r' x → position_ok pol segs r x → position_ok pol segs r' x.
Proof.
  intros (H1 & H2 & H3 & H4) (P1 & P2 & P3 & P4). unfold position_ok.
  split_and!.
  - intros Hc. rewrite H2, H3, H4. by apply P1.
  - intros i s v Hi Hs Hv. rewrite H1, H2, H3, H4. setoid_rewrite H3. by apply (P2 i s).
  - by rewrite H4.
  - by rewrite H4.
Qed.

(** The result for the positions [lo..a]. *)
Definition res_inv (pol : OverlapPolicy) (segs : list Segment) (lo a : Z) (r : StreamResult) : Prop :=
  chunks_ok lo a (chunks r) ∧
  (∀ x why, has_gap (gaps r) x why → lo ≤ x < a) ∧
  (∀ x, has_conflict (conflicts r) x → lo ≤ x < a) ∧
  (∀ x, lo ≤ x < a → position_ok pol segs r x).

Lemma has_chunk_bound lo a cs x : chunks_ok lo a cs → has_chunk cs x → lo ≤ x < a.
Proof.
  intros [Hall _] (c & Hc & Hx). eapply Forall_forall in Hall; [|exact Hc].
  destruct Hall as (_ & ? & ?). lia.
Qed.

Lemma in_chunk_has cs x v : in_chunk cs x v → has_chunk cs x.
Proof. intros (c & ? & ? & _). by exists c. Qed.

Lemma list_neq_nthz (l k : list Z) :
  zlen l = zlen k → l ≠ k → ∃ i, 0 ≤ i < zlen l ∧ nthz l i ≠ nthz k i.
Proof.
  revert k. induction l as [|x l IH]; intros [|y k]; rewrite ?zlen_cons; try done;
    [pose proof (zlen_nonneg k); unfold zlen at 1; simpl; lia|pose proof (zlen_nonneg l); unfold zlen at 2; simpl; lia|].
  intros Hl Hne. pose proof (zlen_nonneg l). destruct (decide (x = y)) as [->|Hxy].
  - destruct (IH k) as (i & Hi & Hd); [lia|congruence|].
    exists (i + 1). split; [lia|]. rewrite !nthz_S by lia. by replace (i + 1 - 1) with i by lia.
  - exists 0. split; [lia|done].
Qed.

Lemma byte_at_slice e w a b off x v :
  data e = sub (data w) (a - off) (b - off) → origins e = sub (origins w) (a - off) (b - off) →
  off ≤ a → a ≤ x < b → byte_at e a x v ↔ byte_at w off x v.
Proof.
  intros Hd Ho Hoff Hx. unfold byte_at. rewrite Hd, Ho, !lookup_sub by lia.
  by replace (Z.to_nat (a - off) + Z.to_nat (x - a))%nat with (Z.to_nat (x - off)) by lia.
Qed.

Lemma selected_covering pol segs x i : selected pol segs x = Some i → i ∈ covering segs x.
Proof.
  unfold selected. destruct pol; intros H.
  1,2: destruct (covering segs x); simplify_eq/=; set_solver.
  apply last_Some in H as [l ->]. set_solver.
Qed.

Section sweep.
Context (pol : OverlapPolicy) (segs : list Segment) (mn mx lo span : Z).
Context (Hsegs : Forall (seg_ok mn mx) segs).
Context (Hmn : i64_min / 2 ≤ mn) (Hmx : mx ≤ i64_max / 2) (Hmnlo : mn ≤ lo).
Context (Hspan : mx - mn ≤ span) (Hsize : segs_size segs ≤ usize_max).

(** A window whose segments are all equal, or which the policy does not reject,
    extends the result. *)
Definition extends (a b : Z) (r r' : StreamResult) : Prop :=
  (∀ x, x < a → same_at r r' x) ∧ chunks_ok lo b (chunks r') ∧
  (∀ x why, has_gap (gaps r') x why → has_gap (gaps r) x why ∨ a ≤ x < b) ∧
  (∀ x, has_conflict (conflicts r') x → has_conflict (conflicts r) x ∨ a ≤ x < b) ∧
  (∀ x, a ≤ x < b → position_ok pol segs r' x).

Lemma extends_inv a b r r' :
  lo ≤ a < b → res_inv pol segs lo a r → extends a b r r' → res_inv pol segs lo b r'.
Proof.
  intros Hab (Hc & Hg & Hx & Hp) (Hs & Hc' & Hg' & Hx' & Hp'). split_and!; [done| | |].
  - intros x why [?%Hg|?]%Hg'; lia.
  - intros x [?%Hx|?]%Hx'; lia.
  - intros x Hx0. destruct (decide (x < a)).
    + apply (position_ok_same _ _ r); [by apply Hs|]. apply Hp. lia.
    + apply Hp'. lia.
Qed.

Context (a b : Z) (Hwin : window segs a b) (Hlo : lo ≤ a).
Context (r : StreamResult) (Hinv : res_inv pol segs lo a r).

Lemma nothing_at x : a ≤ x →
  ¬ has_chunk (chunks r) x ∧ (∀ why, ¬ has_gap (gaps r) x why) ∧ ¬ has_conflict (conflicts r) x.
Proof using Hinv.
  intros Hx. destruct Hinv as (Hc & Hg & Hcf & _). split_and!.
  - intros H%(has_chunk_bound _ _ _ _ Hc). lia.
  - intros why H%Hg. lia.
  - intros H%Hcf. lia.
Qed.

Lemma chunks_ok_mono hi hi' cs : hi ≤ hi' → chunks_ok lo hi cs → chunks_ok lo hi' cs.
Proof.
  intros Hh [Hall Hs]. split; [|done]. eapply Forall_impl; [exact Hall|].
  intros c (? & ? & ?). split_and!; try done; lia.
Qed.

(** Nothing captured. *)
Lemma gap_extends :
  covering segs a = [] → extends a b r (with_gap r a b "missing_capture_bytes").
Proof using Hinv Hwin.
  intros Hcov. pose proof Hwin as [Hab _]. unfold with_gap, extends, same_at; cbn [chunks gaps conflicts].
  setoid_rewrite has_gap_snoc. split_and!.
  - intros x Hx. split_and!; try done. intros why. split; [intros [?|[? _]]; [done|lia]|by left].
  - destruct Hinv as (Hc & _). apply (chunks_ok_mono a); [lia|done].
  - intros x why [?|[? _]]; auto.
  - auto.
  - intros x Hx. destruct (nothing_at x) as (N1 & N2 & N3); [lia|].
    assert (covering segs x = []) as Hcx by (by rewrite (window_covering _ a b)).
    split_and!; cbn [chunks gaps conflicts].
    + intros _. rewrite has_gap_snoc. split_and!; try done. by right.
    + intros i s v Hi. unfold selected in Hi. rewrite Hcx in Hi. by destruct pol.
    + intros (i & j & s & t & Hi & _). rewrite Hcx in Hi. by apply not_elem_of_nil in Hi.
    + done.
Qed.

Context (i : Z) (s : Segment).
Context (Hsel : selected pol segs a = Some i) (Hi : nth_seg segs i s).
Context (conf : bool) (Hconf : conf = true ↔
           ∃ j t, j ∈ covering segs a ∧ nth_seg segs j t ∧ raw_of a b t ≠ raw_of a b s).

(** The bytes of an active segment in the window. *)
Lemma raw_nth j t x :
  j ∈ covering segs a → nth_seg segs j t → a ≤ x < b →
  nthz (raw_of a b t) (x - a) = nthz (data (s_bytes t)) (x - s_start t) ∧ zlen (raw_of a b t) = b - a.
Proof using Hsegs Hwin.
  intros Hj Ht Hx. destruct (active_seg segs mn mx a b Hsegs Hwin j Hj) as (t' & _ & Ht' & Hok & H1 & H2).
  rewrite (nth_seg_fun _ _ _ _ Ht Ht'). destruct Hok as (_ & Hs1 & Hs2). unfold s_end in *.
  unfold raw_of. rewrite nthz_sub, zlen_sub by lia. split; [f_equal; lia|lia].
Qed.

Lemma conflict_iff x : a ≤ x < b → (disagree segs x → conf = true).
Proof using Hsegs Hwin Hconf.
  intros Hx (j & k & t & u & Hj & Hk & Ht & Hu & Hne). apply Hconf.
  rewrite (window_covering _ a b x Hwin Hx) in Hj, Hk.
  destruct (raw_nth j t x Hj Ht Hx) as [R1 _]. destruct (raw_nth k u x Hk Hu Hx) as [R2 _].
  destruct (decide (raw_of a b t = raw_of a b s)) as [He|He]; [|by exists j, t].
  exists k, u. split_and!; try done. intros He'. apply Hne. by rewrite <- R1, <- R2, He, He'.
Qed.

Lemma conflict_real x : a ≤ x < b → conf = true →
  ∃ y, covering segs y = covering segs x ∧ disagree segs y.
Proof using Hsegs Hwin Hconf Hsel Hi.
  intros Hx Hc. apply Hconf in Hc as (j & t & Hj & Ht & Hne).
  pose proof (selected_covering pol segs a i Hsel) as Hia.
  destruct (raw_nth j t x Hj Ht Hx) as [_ L1]. destruct (raw_nth i s x Hia Hi Hx) as [_ L2].
  destruct (list_neq_nthz _ _ ltac:(by rewrite L1, L2) Hne) as (n & Hn & Hd). rewrite L1 in Hn.
  assert (a ≤ a + n < b) as Hy by lia.
  destruct (raw_nth j t (a + n) Hj Ht Hy) as [R1 _]. destruct (raw_nth i s (a + n) Hia Hi Hy) as [R2 _].
  replace (a + n - a) with n in R1, R2 by lia. exists (a + n).
  pose proof (window_covering _ a b x Hwin Hx) as Hcx.
  pose proof (window_covering _ a b (a + n) Hwin Hy) as Hcy. rewrite Hcx, Hcy. split; [done|].
  exists j, i, t, s. rewrite Hcy. split_and!; try done. by rewrite <- R1, <- R2.
Qed.

Lemma selected_window x : a ≤ x < b → selected pol segs x = Some i ∧ covering segs x ≠ [].
Proof using Hwin Hsel.
  intros Hx. pose proof (selected_covering _ _ _ _ Hsel) as Hin. unfold selected in *.
  rewrite (window_covering _ a b x Hwin Hx). split; [done|]. intros He. rewrite He in Hin.
  by apply not_elem_of_nil in Hin.
Qed.

(** A rejected conflict. *)
Lemma reject_extends pkts dup :
  pol = RejectConflict → conf = true →
  extends a b r (with_gap (with_conflict (with_dup r dup) a b pkts) a b "conflicting_capture_bytes").
Proof using Hsegs Hwin Hconf Hsel Hi Hinv.
  intros Hpol Hc. pose proof Hwin as [Hab _].
  unfold with_gap, with_conflict, with_dup, extends, same_at; cbn [chunks gaps conflicts].
  setoid_rewrite has_gap_snoc. setoid_rewrite has_conflict_snoc. split_and!.
  - intros x Hx. split_and!; try done.
    + intros why. split; [intros [?|[? _]]; [done|lia]|by left].
    + split; [intros [?|?]; [done|lia]|by left].
  - destruct Hinv as (Hck & _). apply (chunks_ok_mono a); [lia|done].
  - intros x why [?|[? _]]; auto.
  - auto.
  - intros x Hx. destruct (nothing_at x) as (N1 & N2 & N3); [lia|].
    destruct (selected_window x Hx) as [Hsx Hne].
    split_and!; cbn [chunks gaps conflicts]; rewrite ?has_conflict_snoc.
    + done.
    + intros j t v _ _ _. left. rewrite has_gap_snoc, has_conflict_snoc. split_and!; try done; by right.
    + intros _. by right.
    + intros _. by apply conflict_real.
Qed.

(** Selected bytes. *)
Lemma chunk_extends pkts dup e cs' :
  ¬ (pol = RejectConflict ∧ conf = true) →
  data e = sub (data (s_bytes s)) (a - s_start s) (b - s_start s) →
  origins e = sub (origins (s_bytes s)) (a - s_start s) (b - s_start s) →
  s_start s ≤ a → chunks_ok lo b cs' → chunk_added (chunks r) cs' a b e →
  extends a b r (with_chunks (if conf then with_conflict (with_dup r dup) a b pkts else with_dup r dup) cs').
Proof using Hsegs Hwin Hconf Hsel Hi Hinv.
  intros Hpol Hd Ho Hst Hcs [Hin Hhas]. pose proof Hwin as [Hab _].
  set (r' := with_chunks _ _).
  assert (chunks r' = cs') as Hr1 by done.
  assert (gaps r' = gaps r) as Hr2 by (subst r'; by destruct conf).
  assert (∀ x, has_conflict (conflicts r') x ↔ has_conflict (conflicts r) x ∨ conf = true ∧ a ≤ x < b) as Hr3.
  { intros x. subst r'. destruct conf; simpl; [rewrite has_conflict_snoc; naive_solver|naive_solver]. }
  unfold extends, same_at. rewrite Hr1, Hr2. setoid_rewrite Hr3. setoid_rewrite Hin. setoid_rewrite Hhas.
  split_and!; try done.
  - intros x Hx. split_and!; try done.
    + intros v. split; [intros [?|[? _]]; [done|lia]|by left].
    + split; [intros [?|?]; [done|lia]|by left].
    + split; [intros [?|[_ ?]]; [done|lia]|by left].
  - auto.
  - intros x [?|[_ ?]]; auto.
  - intros x Hx. destruct (nothing_at x) as (N1 & N2 & N3); [lia|].
    destruct (selected_window x Hx) as [Hsx Hne]. unfold position_ok. rewrite Hr1, Hr2, Hr3.
    split_and!.
    + done.
    + intros j t v Hj Ht Hv. right. assert (j = i) as -> by congruence.
      rewrite (nth_seg_fun _ _ _ _ Ht Hi) in Hv. rewrite Hr3, Hin. split_and!; [|right|done].
      * intros [Hp [?|[Hc _]]]; [done|]. by apply Hpol.
      * split; [done|]. by apply (byte_at_slice e (s_bytes s) a b (s_start s)).
    + intros Hdis. right. split; [by apply (conflict_iff x)|done].
    + intros [?|[Hc _]]; [done|]. by apply conflict_real.
Qed.
End sweep.

Lemma choose_selected pol segs (act : Active) a :
  act.*1 = covering segs a → choose pol act = selected pol segs a.
Proof.
  intros H. unfold choose, selected. rewrite <- H.
  destruct pol; [by destruct act as [|[]]..|by rewrite fmap_last].
Qed.

Lemma selected_some pol segs a : covering segs a ≠ [] → ∃ i, selected pol segs a = Some i.
Proof.
  intros H. unfold selected. destruct (covering segs a) as [|x l] eqn:Hc; [done|].
  destruct pol; [by eexists..|]. destruct (last (x :: l)) eqn:Hl; [by eexists|]. by apply last_None in Hl.
Qed.

Section sweep_steps.
Context (pol : OverlapPolicy) (segs : list Segment) (mn mx lo span : Z).
Context (Hsegs : Forall (seg_ok mn mx) segs).
Context (Hmn : i64_min / 2 ≤ mn) (Hmx : mx ≤ i64_max / 2) (Hmnlo : mn ≤ lo).
Context (Hspan : mx - mn ≤ span) (Hsize : segs_size segs ≤ usize_max).
Context (ev : Events).

Definition sweep_inv (a : Z) (r : StreamResult) : Prop :=
  res_inv pol segs lo a r ∧ 0 ≤ duplicate_observed_bytes r ≤ clip_sum segs a.

Lemma clip_sum_max x : clip_sum segs x ≤ usize_max.
Proof using Hsegs Hsize.
  assert (Forall (λ s, s_start s ≤ s_end s) segs) as H
    by (eapply Forall_impl; [exact Hsegs|]; intros s (_ & ? & _); lia).
  pose proof (clip_sum_size segs x H). lia.
Qed.

Lemma sweep_step_spec act r a b e :
  bt_get ev a = Some e → (update_active act e).*1 = covering segs a → window segs a b → lo ≤ a →
  sweep_inv a r →
  ∃ r', sweep_step segs ev pol span (act, r) (a, b) = Ok (update_active act e, r') ∧ sweep_inv b r'.
Proof using Hsegs Hmn Hmx Hmnlo Hspan Hsize.
  intros He Hact Hwin Hlo [Hinv Hdup]. pose proof Hwin as [Hab _].
  pose proof (clip_sum_window segs a b Hwin) as Hclip. pose proof (clip_sum_max b) as Hmax.
  unfold sweep_step. rewrite He, bind_Ok. cbv zeta. set (act' := update_active act e) in *.
  assert (zlen act' = zlen (covering segs a)) as Hlen by (rewrite <- Hact; unfold zlen; by rewrite length_fmap).
  rewrite Hlen. destruct (Z.eqb_spec (zlen (covering segs a)) 0) as [Hz|Hz].
  { eexists. split; [done|]. split; [|simpl; rewrite Hclip, Hz; lia].
    apply (extends_inv pol segs lo a b r); [lia|done|]. apply gap_extends; [done..|]. by apply zlen_0_nil. }
  destruct (selected_some pol segs a) as [i Hsel]; [intros Hc; by rewrite Hc in Hz|].
  rewrite (choose_selected pol segs act' a Hact), Hsel. cbn [ok_or]. rewrite bind_Ok.
  destruct (active_seg segs mn mx a b Hsegs Hwin i) as (s & Hidx & Hs & Hok & H1 & H2);
    [by apply (selected_covering pol)|].
  rewrite Hidx, bind_Ok, !(rel_ok mn mx) , !bind_Ok by (done || lia).
  pose proof Hok as (Hev & Hs1 & Hs2). rewrite slice_ok, bind_Ok by (unfold s_end in *; lia).
  fold (raw_of a b s). change (map fst act') with (act'.*1). rewrite Hact.
  pose proof (zlen_nonneg (covering segs a)).
  destruct (compare_spec segs mn mx a b Hsegs Hmn Hmx Hwin i (raw_of a b s) (covering segs a) false []
    (duplicate_observed_bytes r)) as (conf & pkts & dup & -> & Hd & Hconf); [done|lia|lia|]. rewrite bind_Ok.
  assert (conf = true ↔ ∃ j t, j ∈ covering segs a ∧ nth_seg segs j t ∧ raw_of a b t ≠ raw_of a b s) as Hconf'.
  { rewrite Hconf. split; [by intros [?|?]|by right]. }
  destruct (conf && bool_decide (pol = RejectConflict)) eqn:Hrej.
  - apply andb_true_iff in Hrej as [Hc Hp%bool_decide_eq_true]. rewrite Hc.
    eexists. split; [done|]. split; [|simpl; lia].
    apply (extends_inv pol segs lo a b r); [lia|done|]. by eapply (reject_extends pol segs mn mx).
  - destruct (slice_ev_ok (s_bytes s) (a - s_start s) (b - s_start s) Hev) as (e' & -> & He' & Hde & Hoe);
      [unfold s_end in *; lia..|]. rewrite bind_Ok.
    destruct (add_chunk_spec lo mx (chunks r) a b e' span) as (cs' & Hadd & Hcs & Hca);
      [apply Hinv|lia|lia|lia|done|lia|done| |].
    { rewrite Hde, zlen_sub by (unfold s_end in *; lia). lia. }
    assert (∀ q : bool, chunks (if q then with_conflict (with_dup r dup) a b (sort_dedup pkts) else with_dup r dup)
              = chunks r) as -> by (by intros []). rewrite Hadd, bind_Ok.
    eexists. split; [done|]. split; [|destruct conf; simpl; lia].
    apply (extends_inv pol segs lo a b r); [lia|done|].
    eapply (chunk_extends pol segs mn mx); try done. intros [-> ->]. by rewrite bool_decide_true in Hrej.
Qed.

Context (extra : Z → Prop) (Hev : events_ok segs extra ev).

(** The active set before the events of the boundary [a]. *)
Definition active_before (act : Active) (a : Z) : Prop :=
  bt_wf act ∧ ∀ i, i ∈ act.*1 ↔ ∃ s, nth_seg segs i s ∧ s_start s < a ≤ s_end s.

Lemma seg_boundaries i s : nth_seg segs i s → s_start s ∈ ev.*1 ∧ s_end s ∈ ev.*1.
Proof using Hev. destruct Hev as (_ & Hk & _). intros Hs. rewrite !Hk. split; left; exists i, s; auto. Qed.

Lemma active_at_boundary act a e :
  active_before act a → bt_get ev a = Some e → (update_active act e).*1 = covering segs a.
Proof using Hev Hsegs.
  intros [Hwf Hact] He. destruct (update_active_spec act e Hwf) as [Hwf' Hin].
  apply sorted_ext; [done|apply covering_sorted|]. intros i.
  destruct Hev as (_ & _ & Hst & Hen). assert (event_at ev a = e) as Hea by (unfold event_at; by rewrite He).
  specialize (Hst a i). specialize (Hen a i). rewrite Hea in Hst, Hen.
  rewrite Hin, Hst, Hen, Hact, elem_of_covering. setoid_rewrite covers_true. split.
  - intros [(s & Hs & Hk)|[(s & Hs & Hk) Hno]]; exists s; (split; [done|]).
    + destruct (nth_seg_ok _ _ _ _ _ Hsegs Hs) as (_ & ? & _). lia.
    + assert (s_end s ≠ a) by (intros Hx; apply Hno; by exists s). lia.
  - intros (s & Hs & Hk). destruct (decide (s_start s = a)); [left; by exists s|right]. split.
    + exists s. split; [done|lia].
    + intros (t & Ht & Hk'). rewrite (nth_seg_fun _ _ _ _ Hs Ht) in Hk. lia.
Qed.

(** Consecutive boundaries. *)
Definition consecutive (a b : Z) : Prop := a < b ∧ ∀ k, k ∈ ev.*1 → k ≤ a ∨ b ≤ k.

Lemma consecutive_window a b : consecutive a b → window segs a b.
Proof using Hev Hsegs.
  intros [Hab Hno]. split; [done|]. apply Forall_lookup. intros n s Hs.
  assert (nth_seg segs (Z.of_nat n) s) as Hn by (split; [lia|by rewrite Nat2Z.id]).
  destruct (seg_boundaries _ _ Hn) as [?%Hno ?%Hno].
  destruct (nth_seg_ok _ _ _ _ _ Hsegs Hn) as (_ & ? & _). lia.
Qed.

Lemma active_next act a b e :
  active_before act a → bt_get ev a = Some e → consecutive a b → active_before (update_active act e) b.
Proof using Hev Hsegs.
  intros Hact He Hc. pose proof (active_at_boundary act a e Hact He) as Hcov.
  destruct Hact as [Hwf Hact]. destruct (update_active_spec act e Hwf) as [Hwf' _]. split; [done|].
  intros i. rewrite Hcov, elem_of_covering. setoid_rewrite covers_true. destruct Hc as [Hab Hno].
  split; intros (s & Hs & Hk); exists s; (split; [done|]);
    destruct (seg_boundaries _ _ Hs) as [?%Hno ?%Hno]; lia.
Qed.

Lemma sweep_fold rest : ∀ act r a,
  StronglySorted lt_ord (a :: rest) → a ∈ ev.*1 → (∀ k, k ∈ rest → k ∈ ev.*1) →
  (∀ k, k ∈ ev.*1 → k ≤ a ∨ k ∈ rest) → lo ≤ a → active_before act a → sweep_inv a r →
  ∃ act' r', foldM (sweep_step segs ev pol span) (act, r) (windows (a :: rest)) = Ok (act', r') ∧
             sweep_inv (default a (last rest)) r'.
Proof using Hsegs Hmn Hmx Hmnlo Hspan Hsize Hev.
  induction rest as [|b rest IH]; intros act r a Hsort Ha Hin Hcov Hlo Hact Hinv.
  { exists act, r. done. }
  apply StronglySorted_inv in Hsort as [Hsort Hall]. rewrite Forall_forall in Hall.
  assert (∀ k, k ∈ b :: rest → a < k) as Hgt by (intros k Hk; by apply Z.compare_lt_iff, Hall).
  pose proof Hsort as [_ Hallb]%StronglySorted_inv. rewrite Forall_forall in Hallb.
  assert (consecutive a b) as Hc.
  { split; [apply Hgt; set_solver|]. intros k [?|[->|Hk]%elem_of_cons]%Hcov; [by left|right; lia|].
    right. apply Z.lt_le_incl, Z.compare_lt_iff, (Hallb k Hk). }
  destruct (bt_get ev a) as [e|] eqn:He; [|by apply bt_get_None in He].
  destruct (sweep_step_spec act r a b e) as (r1 & Hstep & Hinv1); try done.
  { by apply active_at_boundary. } { by apply consecutive_window. }
  change (windows (a :: b :: rest)) with ((a, b) :: windows (b :: rest)). cbn [foldM].
  rewrite Hstep, bind_Ok.
  destruct (IH (update_active act e) r1 b) as (act' & r' & Heq & Hinv'); try done.
  - apply Hin. set_solver.
  - intros k Hk. apply Hin. set_solver.
  - intros k [?|[->|?]%elem_of_cons]%Hcov; [left; destruct Hc; lia|by left|by right].
  - destruct Hc. lia.
  - by apply (active_next act a).
  - exists act', r'. split; [done|]. rewrite last_cons. by destruct (last rest).
Qed.
End sweep_steps.

(** ** [finish] *)

(** The extent of the reconstruction: from the first to the last boundary. *)
Definition extent (s : StreamAssembler) (lo hi : Z) : Prop :=
  let boundary k := (∃ i seg, nth_seg (segments s) i seg ∧ (s_start seg = k ∨ s_end seg = k)) ∨
                    extra_boundary s k in
  boundary lo ∧ boundary hi ∧ ∀ k, boundary k → lo ≤ k ≤ hi.

(** No statement about a position. *)
Definition silent (r : StreamResult) (x : Z) : Prop :=
  ¬ has_chunk (chunks r) x ∧ (∀ why, ¬ has_gap (gaps r) x why) ∧ ¬ has_conflict (conflicts r) x.

Definition reconstructs (pol : OverlapPolicy) (s : StreamAssembler) (r : StreamResult) : Prop :=
  ∃ lo hi, extent s lo hi ∧ chunks_ok lo hi (chunks r) ∧
    (∀ x, lo ≤ x < hi → position_ok pol (segments s) r x) ∧
    (∀ x, ¬ (lo ≤ x < hi) → silent r x).

Lemma sorted_last_max (a : Z) rest k :
  StronglySorted lt_ord (a :: rest) → k ∈ a :: rest → a ≤ k ≤ default a (last rest).
Proof.
  revert a k. induction rest as [|b rest IH]; intros a k Hs Hk.
  - apply list_elem_of_singleton in Hk as ->. simpl. lia.
  - apply StronglySorted_inv in Hs as [Hs Hall]. rewrite Forall_forall in Hall.
    assert (a < b) by (apply Z.compare_lt_iff, Hall; set_solver).
    assert (default a (last (b :: rest)) = default b (last rest)) as ->
      by (rewrite last_cons; by destruct (last rest)).
    apply elem_of_cons in Hk as [->|Hk].
    + pose proof (IH b b Hs ltac:(set_solver)). lia.
    + pose proof (IH b k Hs Hk). lia.
Qed.

Lemma finish_spec s pol :
  asm_ok s → segments s ≠ [] → (∀ f, s_fin s = Some f → s_max s ≤ f) →
  ∃ r, finish s pol = Ok r ∧ reconstructs pol s r.
Proof.
  intros Hok Hne Hfin. pose proof Hok as (Hl & Hmm & Hsp & Hsegs & Hr & Hrm & Hn & Hf & Ha).
  unfold finish. rewrite limits_ok_validate, bind_Ok by done. cbv zeta.
  destruct (Z.eqb_spec (zlen (segments s)) 0) as [Hz|Hz]; [by apply zlen_0_nil in Hz|].
  assert (match s_fin s with Some f => f <? s_max s | None => false end = false) as ->.
  { destruct (s_fin s) as [f|]; [|done]. apply Z.ltb_ge. by apply Hfin. }
  destruct (build_events_spec s Hok) as (ev & -> & Hev). rewrite bind_Ok.
  pose proof Hev as (Hwf & Hkeys & _). limits_facts Hl. change (2 ^ 30) with 1073741824 in *.
  unfold bt_wf in Hwf.
  destruct (ev.*1) as [|lo rest] eqn:Hb.
  { destruct (segments s) as [|seg segs] eqn:Hs; [done|]. exfalso.
    apply (not_elem_of_nil (s_start seg)). apply Hkeys. left. exists 0, seg. split; [by split|by left]. }
  assert (map fst ev = lo :: rest) as -> by exact Hb.
  set (r0 := {| base_sequence := base s; r_anchored := anchored_by_syn s; chunks := []; gaps := [];
                conflicts := []; duplicate_observed_bytes := 0 |}).
  assert (∀ k, k ∈ lo :: rest → lo ≤ k ≤ default lo (last rest)) as Hmax by (intros; by apply sorted_last_max).
  assert (∀ k, k ∈ lo :: rest → s_min s ≤ k) as Hmin.
  { intros k [(i & seg & Hi & Hk)|[[? ->]|Hk]]%Hkeys; [|lia|by apply Hf].
    destruct (nth_seg_ok _ _ _ _ _ Hsegs Hi) as (_ & ? & _). lia. }
  destruct (sweep_fold pol (segments s) (s_min s) (s_max s) lo (max_stream_span (s_limits s)) Hsegs
    ltac:(change (i64_min / 2) with (-4611686018427387904); lia)
    ltac:(change (i64_max / 2) with 4611686018427387903; lia)
    ltac:(apply Hmin; set_solver) Hsp ltac:(lia) ev (extra_boundary s) Hev rest [] r0 lo)
    as (act & r & Heq & Hinv & _); rewrite ?Hb; try done; try lia.
  - set_solver.
  - intros k Hk. set_solver.
  - intros k [->|?]%elem_of_cons; [left; lia|by right].
  - split; [constructor|]. intros i. split; [by intros ?%not_elem_of_nil|]. intros (seg & Hs & Hk).
    assert (s_start seg ∈ lo :: rest) as ?%Hmax; [|lia]. apply Hkeys. left. exists i, seg. auto.
  - split; [|simpl; split; [lia|]].
    + split_and!; cbn.
      * split; constructor.
      * intros x why (g & ?%not_elem_of_nil & _). done.
      * intros x (g & ?%not_elem_of_nil & _). done.
      * intros x Hx. lia.
    + apply clip_sum_size. eapply Forall_impl; [exact Hsegs|]. intros seg (_ & ? & _). lia.
  - exists r. split; [exact (f_equal (λ z, z ≫= λ st, Ok st.2) Heq)|]. exists lo, (default lo (last rest)).
    destruct Hinv as (H1' & H2' & H3' & H4'). split_and!; try done.
    + split_and!; try (intros k Hk); apply Hkeys || (apply Hmax, Hkeys; done).
      * set_solver.
      * destruct (last rest) as [z|] eqn:Hlast; [|set_solver].
        apply last_Some in Hlast as [l ->]. set_solver.
    + intros x Hx. split_and!.
      * intros H'%(has_chunk_bound _ _ _ _ H1'). lia.
      * intros why H'%H2'. lia.
      * intros H'%H3'. lia.
Qed.

(** A pushed segment is placed where its sequence number says.  [push] returns
    and keeps the invariant (retained bytes exact, span below the limit); either
    the payload was empty, or the segment is appended with all its bytes at the
    signed offset of less than half the sequence space that is congruent to its
    sequence number relative to the anchor. *)
Theorem push_places (s : StreamAssembler) (seq : Z) (b : EvidenceBytes) :
  asm_ok s → ev_typed b → zlen (data b) ≤ 2 ^ 62 →
  wp (push s seq b) (λ s', asm_ok s' ∧ (s' = s ∧ data b = [] ∨ placed s seq b s')) (λ _, True).
Proof. apply stream_push_spec. Qed.

(** C2: the sweep implements the pointwise policy.  For every set of captured
    segments, [finish] returns; at every position between the first and the last
    boundary the result has the byte and the source of the first (or last)
    observed segment covering it, or a gap: "missing" exactly where nothing was
    captured, "conflicting" where segments disagree under [RejectConflict].  Every
    disagreement is inside a reported conflict, every reported conflict stems from
    one, chunks are disjoint and maximal, and nothing is said outside. *)
Theorem finish_reconstructs (s : StreamAssembler) (pol : OverlapPolicy) :
  asm_ok s → segments s ≠ [] → (∀ f, s_fin s = Some f → s_max s ≤ f) →
  ∃ r, finish s pol = Ok r ∧ reconstructs pol s r.
Proof. apply finish_spec. Qed.

(** ** Witnesses *)

(** Two segments that overlap in two bytes and disagree in the first of them. *)
Definition sample_assembler : StreamAssembler :=
  match (s ← push (assembler_new (Some 99) limits_default) 100 (from_packet [1; 2; 3; 4] (sample_packet 1) 54);
         push s 102 (from_packet [9; 4; 5] (sample_packet 2) 54)) with
  | Ok s => s
  | _ => assembler_new (Some 99) limits_default
  end.

Example sample_reconstruction :
  (r ← finish sample_assembler RejectConflict;
   Ok (map (λ c, (c_offset c, data (c_bytes c))) (chunks r),
       map (λ g, (g_start g, g_end g, reason g)) (gaps r),
       map (λ c, (x_start c, x_end c, length (x_packets c))) (conflicts r))) =
  Ok ([(0, [1; 2]); (4, [5])], [(2, 4, "conflicting_capture_bytes")], [(2, 4, 2%nat)]).
Proof. by vm_compute. Qed.

Lemma sample_bytes_typed l n : bytes_ok l → zlen l ≤ 100 → ev_typed (from_packet l (sample_packet n) 54).
Proof. intros Hb Hl. apply from_packet_ok; [done|lia|lia]. Qed.

Lemma sample_assembler_ok : asm_ok sample_assembler.
Proof.
  unfold sample_assembler.
  pose proof (stream_push_spec (assembler_new (Some 99) limits_default) 100 (from_packet [1; 2; 3; 4] (sample_packet 1) 54)
    (assembler_new_ok _ _ limits_default_ok)) as H1.
  destruct (push _ 100 _) as [s1| | |]; [|exact (assembler_new_ok _ _ limits_default_ok)..].
  rewrite bind_Ok. destruct H1 as [H1 _].
  { apply sample_bytes_typed; [repeat constructor; lia|by vm_compute]. } { by vm_compute. }
  pose proof (stream_push_spec s1 102 (from_packet [9; 4; 5] (sample_packet 2) 54) H1) as H2.
  destruct (push s1 102 _) as [s2| | |]; [|exact (assembler_new_ok _ _ limits_default_ok)..].
  destruct H2 as [H2 _]; [|by vm_compute|done].
  apply sample_bytes_typed; [repeat constructor; lia|by vm_compute].
Qed.

Lemma finish_reconstructs_witness :
  ∃ r, finish sample_assembler RejectConflict = Ok r ∧ reconstructs RejectConflict sample_assembler r.
Proof.
  apply (finish_reconstructs sample_assembler RejectConflict);
    [apply sample_assembler_ok|by vm_compute|by vm_compute].
Defined.

Lemma push_places_witness :
  wp (push (assembler_new (Some 4294967290) limits_default) 3 (from_packet [7; 8] (sample_packet 1) 54))
     (λ s', asm_ok s' ∧
        (s' = assembler_new (Some 4294967290) limits_default ∧
           data (from_packet [7; 8] (sample_packet 1) 54) = [] ∨
         placed (assembler_new (Some 4294967290) limits_default) 3
           (from_packet [7; 8] (sample_packet 1) 54) s')) (λ _, True).
Proof.
  apply (push_places (assembler_new (Some 4294967290) limits_default) 3);
    [apply assembler_new_ok, limits_default_ok
    |apply sample_bytes_typed; [repeat constructor; lia|by vm_compute]|by vm_compute].
Defined.
