(* ===== verification/Tracker.v ===== *)
(** * TCP flow generations (src/tcp.rs, [TcpTracker])

    Segments are assigned to connection generations of their endpoint pair: a SYN
    opens a generation, FIN and RST close it, idle time and sequence numbers
    decide between generations, and a segment that fits several is reported as
    ambiguous, never guessed.  At the end each generation's two directions are
    handed to the stream assembler. *)

From S2P Require Import Errors Ord Provenance Wire Prelude Stream.

(** A direction is 0 or 1 and indexes a two-element array. *)
Definition sel {A} (p : A * A) (d : Z) : A := if d =? 0 then p.1 else p.2.
Definition set2 {A} (p : A * A) (d : Z) (v : A) : A * A := if d =? 0 then (v, p.2) else (p.1, v).
Definition other (d : Z) : Z := 1 - d.

Record FlowKey : Type := {
  fk_scope : Scope;
  fk_a : Endpoint;
  fk_b : Endpoint;
}.

Definition flow_key_fields (k : FlowKey) : Scope * (Endpoint * Endpoint) := (fk_scope k, (fk_a k, fk_b k)).
#[global] Instance FlowKey_ord : Ord FlowKey.
Proof. apply (proj_ord flow_key_fields). by intros [] [] [=->->->]. Defined.

(** [FlowKey::new]: the endpoints in order, and the direction of the segment. *)
Definition flow_key_new (sc : Scope) (src dst : Endpoint) : FlowKey * Z :=
  match cmp src dst with
  | Gt => ({| fk_scope := sc; fk_a := dst; fk_b := src |}, 1)
  | _ => ({| fk_scope := sc; fk_a := src; fk_b := dst |}, 0)
  end.

Record Input : Type := {
  i_direction : Z;
  i_segment : TcpSegment;
}.

Record Flow : Type := {
  fl_id : Z;
  generation : Z;
  fl_key : FlowKey;
  fl_syn : option Z * option Z;
  anchors : option Z * option Z;
  fl_fin : bool * bool;
  fin_next : option Z * option Z;
  closed : bool;
  rst_seen : bool;
  has_payload : bool;
  midstream : bool;
  first_ns : option Z;
  last_ns : option Z;
  fl_packets : list PacketId;
  inputs : list Input;
  anomalies : list string;
}.

Record FlowResult : Type := {
  fr_id : Z;
  fr_generation : Z;
  fr_key : FlowKey;
  fr_syn : option Z * option Z;
  fr_closed : bool;
  fr_midstream : bool;
  fr_first_ns : option Z;
  fr_last_ns : option Z;
  fr_packets : list PacketId;
  streams : option StreamResult * option StreamResult;
  reconstruction_errors : list Error;
  fr_anomalies : list string;
}.

Inductive Assignment : Type :=
| Assigned (flow_id direction : Z)
| Ambiguous (candidate_flow_ids : list Z)
| Unassigned (why : string).

Record TcpTracker : Type := {
  keys : list (FlowKey * list Z);    (* BTreeMap<FlowKey, Vec<usize>> *)
  flows : list Flow;
  t_retained : Z;
  t_limits : Limits;
  idle_ns : Z;
}.

(** [TcpTracker::new]. *)
Definition tracker_new (l : Limits) (idle : Z) : result TcpTracker :=
  Errors.validate l ;;
  if idle <=? 0 then Err (error_new Usage 0 "idle_timeout" "must be positive")
  else Ok {| keys := []; flows := []; t_retained := 0; t_limits := l; idle_ns := idle |}.

(** The flow [create] pushes. *)
Definition fresh_flow (id gen : Z) (key : FlowKey) (mid : bool) : Flow :=
  {| fl_id := id; generation := gen; fl_key := key; fl_syn := (None, None); anchors := (None, None);
     fl_fin := (false, false); fin_next := (None, None); closed := false; rst_seen := false;
     has_payload := false; midstream := mid; first_ns := None; last_ns := None; fl_packets := [];
     inputs := []; anomalies := [] |}.

(** [TcpTracker::create]. *)
Definition create (t : TcpTracker) (key : FlowKey) (mid : bool) : result (TcpTracker * Z) :=
  if max_flows (t_limits t) <=? zlen (flows t) then Err (limit "flows")
  else
    let id := zlen (flows t) in
    gen ← (match bt_get (keys t) key with
           | Some ids => add_ovf usize_max (zlen ids) 1
           | None => Ok 1
           end);
    let ids := default [] (bt_get (keys t) key) in
    Ok ({| keys := bt_insert (keys t) key (ids ++ [id]);
           flows := flows t ++ [fresh_flow id gen key mid];
           t_retained := t_retained t; t_limits := t_limits t; idle_ns := idle_ns t |}, id).

(** [i128::saturating_sub]. *)
Definition saturating_sub_i128 (a b : Z) : Z := Z.max i128_min (Z.min i128_max (a - b)).

(** The flow has been idle for longer than the timeout; unavailable time never
    expires a flow. *)
Definition idle_expired (t : TcpTracker) (f : Flow) (now : option Z) : bool :=
  match now, last_ns f with
  | Some now, Some last => idle_ns t <? saturating_sub_i128 now last
  | _, _ => false
  end.

(** [TcpTracker::active_at]. *)
Definition active_at (t : TcpTracker) (f : Flow) (now : option Z) : bool :=
  match now, last_ns f with
  | Some now, Some last => saturating_sub_i128 now last <=? idle_ns t
  | _, _ => true
  end.

(** [sequence_delta(..).is_ok_and(|d| d.abs() <= max_stream_span)]. *)
Definition near (t : TcpTracker) (seq anchor : Z) : bool :=
  match sequence_delta seq anchor with
  | Ok d => Z.abs d <=? as_signed 64 (max_stream_span (t_limits t))
  | _ => false
  end.

(** [TcpTracker::plausible]. *)
Definition plausible (t : TcpTracker) (f : Flow) (dir : Z) (s : TcpSegment) : bool :=
  match sel (anchors f) dir with
  | Some anchor => near t (data_sequence s) anchor
  | None =>
      if ack s then
        match sel (anchors f) (other dir) with
        | Some anchor => near t (acknowledgement s) anchor
        | None => true
        end
      else true
  end.

(** [TcpTracker::is_final_ack]. *)
Definition is_final_ack (f : Flow) (dir : Z) (s : TcpSegment) : bool :=
  if rst_seen f || negb (fl_fin f).1 || negb (fl_fin f).2 || syn s || fin s || rst s ||
     negb (ack s) || negb (is_empty (tcp_payload s))
  then false
  else
    match sel (fin_next f) dir, sel (fin_next f) (other dir) with
    | Some own_next, Some peer_next =>
        (data_sequence s =? own_next) && (acknowledgement s =? peer_next)
    | _, _ => false
    end.

(** [iter().find(..)] and [iter().all(..)] with a body that indexes a vector. *)
Fixpoint findM {A} (f : A → result bool) (l : list A) : result (option A) :=
  match l with
  | [] => Ok None
  | x :: l => b ← f x; if (b : bool) then Ok (Some x) else findM f l
  end.
Fixpoint allM {A} (f : A → result bool) (l : list A) : result bool :=
  match l with
  | [] => Ok true
  | x :: l => b ← f x; if (b : bool) then allM f l else Ok false
  end.

(** [ingest_with_packets], a SYN without ACK: a generation that already has it, a
    simultaneous open, or a new generation. *)
Definition select_syn (t : TcpTracker) (key : FlowKey) (dir : Z) (now : option Z) (s : TcpSegment)
    (history : list Z) : result (TcpTracker * Z) :=
  same ← findM (λ id,
           f ← index (flows t) id;
           Ok (negb (closed f) && active_at t f now &&
               bool_decide (sel (fl_syn f) dir = Some (sequence s)))) (rev history);
  simultaneous ←
    (match last history with
     | Some id =>
         f ← index (flows t) id;
         Ok (if negb (closed f) && active_at t f now && negb (midstream f) && negb (has_payload f) &&
                (if sel (fl_syn f) dir then false else true) &&
                (if sel (fl_syn f) (other dir) then true else false)
             then Some id else None)
     | None => Ok None
     end);
  match same, simultaneous with
  | Some id, _ => Ok (t, id)
  | None, Some id => Ok (t, id)
  | None, None => create t key false
  end.

(** The candidates of the history: open, closed, closed with the final ACK. *)
Definition candidate_step (t : TcpTracker) (dir : Z) (now : option Z) (s : TcpSegment)
    (acc : list Z * list Z * list Z) (id : Z) : result (list Z * list Z * list Z) :=
  let '(open, closed_ids, final) := acc in
  f ← index (flows t) id;
  Ok (if negb (idle_expired t f now) && plausible t f dir s then
        if closed f then
          (open, closed_ids ++ [id], if is_final_ack f dir s then final ++ [id] else final)
        else (open ++ [id], closed_ids, final)
      else acc).

(** [ingest_with_packets], any other segment: a flow, or an assignment that ends
    the call. *)
Definition select_other (t : TcpTracker) (key : FlowKey) (dir : Z) (now : option Z) (s : TcpSegment)
    (history : list Z) : result (TcpTracker * (Z + Assignment)) :=
  acc ← foldM (candidate_step t dir now s) ([], [], []) history;
  let '(open, closed_ids, final) := acc in
  if negb (zlen final =? 0) && (zlen final =? 1) && (zlen closed_ids =? 1) && (zlen open =? 0) then
    id ← index final 0; Ok (t, inl id)
  else if negb (zlen closed_ids =? 0) then
    if syn s && (zlen open =? 0) then
      r ← create t key true; let '(t', id) := r in Ok (t', inl id)
    else if zlen open =? 0 then Ok (t, inr (Unassigned "closed_generation_requires_syn"))
    else Ok (t, inr (Ambiguous (sort (closed_ids ++ open))))
  else if 1 <? zlen open then Ok (t, inr (Ambiguous open))
  else
    match open with
    | id :: _ => Ok (t, inl id)
    | [] =>
        all_expired ← allM (λ id, f ← index (flows t) id; Ok (idle_expired t f now)) history;
        if all_expired || syn s then
          r ← create t key true; let '(t', id) := r in Ok (t', inl id)
        else Ok (t, inr (Unassigned "sequence_outside_known_generations"))
    end.

(** [ingest_with_packets], the choice of the flow. *)
Definition select (t : TcpTracker) (key : FlowKey) (dir : Z) (now : option Z) (s : TcpSegment)
    : result (TcpTracker * (Z + Assignment)) :=
  let history := default [] (bt_get (keys t) key) in
  if syn s && negb (ack s) then
    r ← select_syn t key dir now s history; let '(t', id) := r in Ok (t', inl id)
  else if zlen history =? 0 then
    r ← create t key true; let '(t', id) := r in Ok (t', inl id)
  else select_other t key dir now s history.

(** [ingest_with_packets], the flow with the segment. *)
Definition absorb (f : Flow) (dir : Z) (now : option Z) (ids : list PacketId) (s : TcpSegment) : Flow :=
  let syn' := if syn s then set2 (fl_syn f) dir (Some (sequence s)) else fl_syn f in
  let anchors' := set2 (anchors f) dir (Some (default (data_sequence s) (sel (anchors f) dir))) in
  let anomaly := match now with
                 | Some n => match last_ns f with
                             | Some l => if n <? l then ["capture_clock_reversal"] else []
                             | None => []
                             end
                 | None => ["packet_time_unavailable"]
                 end in
  let first' := match now with
                | Some n => Some (match first_ns f with Some x => Z.min x n | None => n end)
                | None => first_ns f
                end in
  let last' := match now with
               | Some n => Some (match last_ns f with Some x => Z.max x n | None => n end)
               | None => last_ns f
               end in
  let fin' := if fin s then set2 (fl_fin f) dir true else fl_fin f in
  let next' := if fin s
               then set2 (fin_next f) dir
                      (Some (default (wrapping_add 32 (wrapping_add 32 (data_sequence s)
                                        (as_unsigned 32 (len (tcp_payload s)))) 1)
                               (sel (fin_next f) dir)))
               else fin_next f in
  let rst' := rst_seen f || rst s in
  {| fl_id := fl_id f; generation := generation f; fl_key := fl_key f; fl_syn := syn';
     anchors := anchors'; fl_fin := fin'; fin_next := next';
     closed := closed f || (rst' || (fin'.1 && fin'.2)); rst_seen := rst';
     has_payload := has_payload f || negb (is_empty (tcp_payload s));
     midstream := midstream f; first_ns := first'; last_ns := last';
     fl_packets := fl_packets f ++ ids ++ packets (tcp_payload s);
     inputs := inputs f ++ [{| i_direction := dir; i_segment := s |}];
     anomalies := anomalies f ++ anomaly |}.

(** [TcpTracker::ingest_with_packets]; on an error the tracker is unchanged. *)
Definition ingest_with_packets (t : TcpTracker) (sc : Scope) (ids : list PacketId) (now : option Z)
    (s : TcpSegment) : result (TcpTracker * Assignment) :=
  if zlen ids =? 0
  then Err (error_new Invariant 0 "tcp_evidence" "TCP segment requires source packets")
  else
  kept ← ok_or (checked_add usize_max (t_retained t) (len (tcp_payload s)))
           (limit "tcp_retained_payload");
  if max_retained_payload (t_limits t) <? kept then Err (limit "tcp_retained_payload")
  else
  let '(key, dir) := flow_key_new sc (tcp_source s) (tcp_destination s) in
  r ← select t key dir now s;
  match r with
  | (t', inr a) => Ok (t', a)
  | (t', inl id) =>
      f ← index (flows t') id;
      if max_segments_per_flow (t_limits t') <=? zlen (inputs f)
      then Err (limit "segments_per_flow")
      else if syn s && match sel (fl_syn f) dir with
                       | Some old => negb (old =? sequence s)
                       | None => false
                       end
      then Ok (t', Unassigned "conflicting_syn_for_generation")
      else
        Ok ({| keys := keys t'; flows := <[Z.to_nat id := absorb f dir now ids s]> (flows t');
               t_retained := kept; t_limits := t_limits t'; idle_ns := idle_ns t' |},
            Assigned id dir)
  end.

(** [TcpTracker::ingest]. *)
Definition ingest (t : TcpTracker) (sc : Scope) (p : PacketId) (now : option Z) (s : TcpSegment)
    : result (TcpTracker * Assignment) :=
  ingest_with_packets t sc [p] now s.

(** ** [TcpTracker::finish] *)

(** The assemblers of both directions, which of them failed, and the errors. *)
Record Rebuild : Type := {
  rb_streams : StreamAssembler * StreamAssembler;
  rb_invalid : bool * bool;
  rb_errors : list Error;
}.

(** [finish], one input: pushed into its direction's assembler unless that has
    already failed. *)
Definition rebuild_step (r : Rebuild) (i : Input) : result Rebuild :=
  let d := i_direction i in
  let s := i_segment i in
  if sel (rb_invalid r) d then Ok r
  else
    let seq := data_sequence s in
    x ← catch (
          a ← push (sel (rb_streams r) d) seq (tcp_payload s);
          if fin s
          then end_at a (wrapping_add 32 seq (as_unsigned 32 (len (tcp_payload s))))
          else Ok a);
    match x with
    | inl a => Ok {| rb_streams := set2 (rb_streams r) d a; rb_invalid := rb_invalid r;
                     rb_errors := rb_errors r |}
    | inr e => Ok {| rb_streams := rb_streams r; rb_invalid := set2 (rb_invalid r) d true;
                     rb_errors := rb_errors r ++ [e] |}
    end.

(** [finish], the stream of one direction. *)
Definition rebuild_stream (r : Rebuild) (d : Z) (errs : list Error) (pol : OverlapPolicy)
    : result (option StreamResult * list Error) :=
  if sel (rb_invalid r) d then Ok (None, errs)
  else
    x ← catch (finish (sel (rb_streams r) d) pol);
    match x with
    | inl s => Ok (Some s, errs)
    | inr e => Ok (None, errs ++ [e])
    end.

(** [finish], one flow. *)
Definition finish_flow (l : Limits) (pol : OverlapPolicy) (f : Flow) : result FlowResult :=
  r ← foldM rebuild_step
        {| rb_streams := (assembler_new (fl_syn f).1 l, assembler_new (fl_syn f).2 l);
           rb_invalid := (false, false); rb_errors := [] |} (inputs f);
  a ← rebuild_stream r 0 (rb_errors r) pol;
  b ← rebuild_stream r 1 a.2 pol;
  Ok {| fr_id := fl_id f; fr_generation := generation f; fr_key := fl_key f; fr_syn := fl_syn f;
        fr_closed := closed f; fr_midstream := midstream f; fr_first_ns := first_ns f;
        fr_last_ns := last_ns f; fr_packets := sort_dedup (fl_packets f);
        streams := (a.1, b.1); reconstruction_errors := b.2;
        fr_anomalies := sort_dedup (anomalies f) |}.

(** [TcpTracker::finish]. *)
Definition tracker_finish (t : TcpTracker) (pol : OverlapPolicy) : result (list FlowResult) :=
  foldM (λ out f, r ← finish_flow (t_limits t) pol f; Ok (out ++ [r])) [] (flows t).
