(* ===== verification/TrackerFacts.v ===== *)
(** * Correctness of flow tracking

    The key index lists exactly the generations of each endpoint pair, in order
    and numbered from one; a segment is recorded in exactly one flow of its own
    key or in none; and [tracker_finish] returns for every flow, with streams that
    the assembler's specification describes. *)

From Stdlib Require Import Sorting.
From S2P Require Import Errors Ord Provenance Wire WireFacts Prelude Stream StreamFacts Tracker.

(** ** The invariant *)

(** The positions, from [i] on, at which a key occurs. *)
Fixpoint occurrences (key : FlowKey) (i : Z) (l : list FlowKey) : list Z :=
  match l with
  | [] => []
  | k :: l => if decide (key = k) then i :: occurrences key (i + 1) l else occurrences key (i + 1) l
  end.

Lemma occurrences_app key i l k :
  occurrences key i (l ++ k) = occurrences key i l ++ occurrences key (i + zlen l) k.
Proof.
  revert i. induction l as [|x l IH]; intros i; simpl; [by rewrite zlen_nil, Z.add_0_r|].
  rewrite !IH, zlen_cons. replace (i + 1 + zlen l) with (i + (1 + zlen l)) by lia. by case_decide.
Qed.

Lemma elem_of_occurrences key i l j :
  j ∈ occurrences key i l → i ≤ j < i + zlen l ∧ l !! Z.to_nat (j - i) = Some key.
Proof.
  revert i. induction l as [|x l IH]; intros i; simpl; [by intros ?%not_elem_of_nil|].
  rewrite zlen_cons. pose proof (zlen_nonneg l).
  assert (j ∈ occurrences key (i + 1) l →
    i ≤ j < i + (1 + zlen l) ∧ (x :: l) !! Z.to_nat (j - i) = Some key) as Hin.
  { intros [Hj Hl]%IH. split; [lia|].
    replace (Z.to_nat (j - i)) with (S (Z.to_nat (j - (i + 1)))) by lia. done. }
  case_decide as Hk; [|done]. intros [->|Hj]%elem_of_cons; [|by apply Hin].
  split; [lia|]. rewrite Z.sub_diag. subst. done.
Qed.

Definition input_ok (i : Input) : Prop :=
  (i_direction i = 0 ∨ i_direction i = 1) ∧ ev_ok (tcp_payload (i_segment i)) ∧
  zlen (data (tcp_payload (i_segment i))) ≤ 65535.

Definition flow_size (f : Flow) : Z :=
  foldr (λ i acc, len (tcp_payload (i_segment i)) + acc) 0 (inputs f).
Definition flows_size (l : list Flow) : Z := foldr (λ f acc, flow_size f + acc) 0 l.

Lemma flows_size_app l k : flows_size (l ++ k) = flows_size l + flows_size k.
Proof. unfold flows_size. induction l as [|f l IH]; simpl; lia. Qed.

Definition flow_ok (l : Limits) (f : Flow) : Prop :=
  Forall input_ok (inputs f) ∧ zlen (inputs f) ≤ max_segments_per_flow l.

Definition tracker_ok (t : TcpTracker) : Prop :=
  limits_ok (t_limits t) ∧ 0 < idle_ns t ∧ bt_wf (keys t) ∧
  zlen (flows t) ≤ max_flows (t_limits t) ∧
  Forall (flow_ok (t_limits t)) (flows t) ∧
  t_retained t = flows_size (flows t) ∧ t_retained t ≤ max_retained_payload (t_limits t) ∧
  (* the index lists the generations of every key, in order *)
  (∀ key, default [] (bt_get (keys t) key) = occurrences key 0 (map fl_key (flows t))) ∧
  (* flows carry their position and their generation number *)
  (∀ i f, flows t !! i = Some f →
     fl_id f = Z.of_nat i ∧
     generation f = zlen (occurrences (fl_key f) 0 (take i (map fl_key (flows t)))) + 1).

Lemma tracker_new_spec l idle :
  limits_typed l → wp (tracker_new l idle) tracker_ok (λ _, True).
Proof.
  intros Hty. unfold tracker_new. apply wp_bind, wp_of_safe; [| |done].
  { unfold Errors.validate. by repeat case_match. }
  intros u Hv. pose proof (validate_limits_ok l u Hty Hv) as Hl.
  destruct (Z.leb_spec idle 0); [done|]. apply wp_ok. pose proof Hl as Hl'. limits_facts Hl'.
  split_and!; simpl; try done; try constructor; try (unfold zlen; simpl; lia); try lia.
Qed.

(** ** Choosing a flow *)

Lemma zlen_occurrences key i l : zlen (occurrences key i l) ≤ zlen l.
Proof.
  revert i. induction l as [|x l IH]; intros i; simpl; [done|]. specialize (IH (i + 1)).
  rewrite zlen_cons. case_decide; rewrite ?zlen_cons; lia.
Qed.

Lemma index_ok {A} (l : list A) i x : 0 ≤ i → l !! Z.to_nat i = Some x → index (E:=Error) l i = Ok x.
Proof. intros Hi Hl. unfold index. by rewrite (proj2 (Z.leb_le 0 i)), Hl by done. Qed.

Lemma elem_of_rev_list {A} (x : A) l : x ∈ rev l ↔ x ∈ l.
Proof. rewrite !list_elem_of_In. symmetry. apply in_rev. Qed.

Section tracker.
Context (t : TcpTracker) (Hok : tracker_ok t).

Lemma history_flow key id :
  id ∈ default [] (bt_get (keys t) key) →
  ∃ f, index (E:=Error) (flows t) id = Ok f ∧ 0 ≤ id ∧ flows t !! Z.to_nat id = Some f ∧ fl_key f = key.
Proof using Hok.
  destruct Hok as (_ & _ & _ & _ & _ & _ & _ & Hidx & _). rewrite Hidx.
  intros [Hi Hl]%elem_of_occurrences. rewrite Z.sub_0_r in Hl.
  change (map fl_key (flows t)) with (fl_key <$> flows t) in Hl.
  apply list_lookup_fmap_Some in Hl as (f & Hf & Hk). exists f.
  split_and!; try done; [|lia]. apply index_ok; [lia|done].
Qed.

(** The tracker with a flow added. *)
Definition grown (key : FlowKey) (t' : TcpTracker) : Prop :=
  ∃ gen mid, flows t' = flows t ++ [fresh_flow (zlen (flows t)) gen key mid].

(** The only reason not to have one. *)
Definition no_room (e : Error) : Prop := e = limit "flows" ∧ max_flows (t_limits t) ≤ zlen (flows t).

Lemma create_spec key mid :
  wp (create t key mid)
     (λ '(t', id), tracker_ok t' ∧ t_limits t' = t_limits t ∧ t_retained t' = t_retained t ∧
        idle_ns t' = idle_ns t ∧ id = zlen (flows t) ∧ grown key t')
     no_room.
Proof using Hok.
  pose proof Hok as (Hl & Hid & Hwf & Hn & Hfl & Hr & Hm & Hidx & Hgen).
  unfold create. destruct (Z.leb_spec (max_flows (t_limits t)) (zlen (flows t))) as [|Hlt]; [done|].
  cbv zeta. pose proof (Hidx key) as Hk. set (n := zlen (flows t)) in *.
  assert (zlen (map fl_key (flows t)) = n) as Hmn by (unfold n, zlen; by rewrite length_map).
  pose proof (zlen_occurrences key 0 (map fl_key (flows t))) as Hz. rewrite Hmn in Hz.
  pose proof Hl as Hl'. limits_facts Hl'.
  assert ((match bt_get (keys t) key with
           | Some ids => add_ovf (E:=Error) usize_max (zlen ids) 1
           | None => Ok 1
           end) = Ok (zlen (occurrences key 0 (map fl_key (flows t))) + 1)) as ->.
  { destruct (bt_get (keys t) key) as [ids|]; simpl in Hk; rewrite <- Hk in *; [|done].
    rewrite add_ovf_ok by lia. done. }
  rewrite bind_Ok. apply wp_ok. rewrite Hk. set (gen := zlen _ + 1). set (f := fresh_flow n gen key mid).
  split; [|split_and!; try done; by exists gen, mid].
  assert (map fl_key (flows t ++ [f]) = map fl_key (flows t) ++ [key]) as Hmap by (by rewrite map_app).
  split_and!; simpl; try done.
  - by apply bt_insert_wf.
  - rewrite zlen_app, zlen_cons, zlen_nil. lia.
  - apply Forall_app. split; [done|]. apply Forall_singleton. split; [constructor|].
    unfold zlen; simpl. lia.
  - rewrite flows_size_app. unfold flows_size at 2, flow_size at 1. simpl. lia.
  - intros k. rewrite Hmap, occurrences_app, Z.add_0_l, Hmn, bt_get_insert. simpl.
    destruct (decide (key = k)) as [->|Hne]; destruct (decide _); try congruence; [done|].
    by rewrite app_nil_r.
  - intros i g Hg. rewrite Hmap. apply lookup_app_Some in Hg as [Hg|[Hi Hg]].
    + destruct (Hgen i g Hg) as [Hg1 Hg2]. split; [done|].
      assert (i < length (flows t))%nat by (by eapply lookup_lt_Some).
      rewrite take_app_le by (rewrite length_map; lia). done.
    + apply list_lookup_singleton_Some in Hg as [Hi' <-]. unfold f; simpl.
      assert (i = length (flows t)) as -> by lia. split; [done|].
      rewrite take_app_length' by (by rewrite length_map). done.
Qed.

Lemma findM_spec {A} (f : A → result bool) (g : A → bool) l :
  (∀ x, x ∈ l → f x = Ok (g x)) → findM f l = Ok (List.find g l).
Proof.
  induction l as [|x l IH]; intros H; simpl; [done|].
  rewrite H, bind_Ok by set_solver. destruct (g x); [done|]. apply IH. set_solver.
Qed.

Lemma allM_spec {A} (f : A → result bool) (g : A → bool) l :
  (∀ x, x ∈ l → f x = Ok (g x)) → allM f l = Ok (forallb g l).
Proof.
  induction l as [|x l IH]; intros H; simpl; [done|].
  rewrite H, bind_Ok by set_solver. destruct (g x); [|done]. apply IH. set_solver.
Qed.

(** A flow with a property. *)
Definition flow_sat (P : Flow → bool) (id : Z) : bool :=
  match flows t !! Z.to_nat id with Some f => P f | None => false end.

Section selection.
Context (key : FlowKey) (dir : Z) (now : option Z) (s : TcpSegment).
Abbreviation history := (default [] (bt_get (keys t) key)).

Lemma flow_sat_index (P : Flow → bool) id :
  id ∈ history → (f ← index (flows t) id; Ok (P f)) = Ok (E:=Error) (flow_sat P id).
Proof using Hok.
  intros (f & -> & _ & Hf & _)%(history_flow key id). rewrite bind_Ok. unfold flow_sat. by rewrite Hf.
Qed.

(** The segment's flow: an existing one, for a reason, or a fresh one of its key,
    for a reason. *)
Definition chosen_post (old : Z → Prop) (new : Prop) (x : TcpTracker * Z) : Prop :=
  let '(t', id) := x in
  tracker_ok t' ∧ t_limits t' = t_limits t ∧ t_retained t' = t_retained t ∧ idle_ns t' = idle_ns t ∧
  (t' = t ∧ old id ∨ grown key t' ∧ id = zlen (flows t) ∧ new) ∧
  0 ≤ id ∧ ∃ f, flows t' !! Z.to_nat id = Some f ∧ fl_key f = key.

Lemma chosen_create mid old (new : Prop) : new → wp (create t key mid) (chosen_post old new) no_room.
Proof using Hok.
  intros Hnew. eapply wp_mono; [apply create_spec| |done].
  intros [t' id] (H1 & H2 & H3 & H4 & -> & Hg). pose proof Hg as (gen & m & Hf).
  split_and!; try done; [by right|].
  exists (fresh_flow (zlen (flows t)) gen key m). split; [|done]. rewrite Hf. apply list_lookup_middle. unfold zlen. lia.
Qed.

Lemma chosen_history id (old : Z → Prop) new : id ∈ history → old id → chosen_post old new (t, id).
Proof using Hok.
  intros (f & _ & H0 & Hf & Hk)%(history_flow key id) Ho. split_and!; try done; [by left|]. by exists f.
Qed.

(** An initial SYN belongs to an open generation in which it was already seen, or
    to the latest one when that only has the peer's SYN. *)
Definition same_syn (f : Flow) : bool :=
  negb (closed f) && active_at t f now && bool_decide (sel (fl_syn f) dir = Some (sequence s)).
Definition peer_syn_only (f : Flow) : bool :=
  negb (closed f) && active_at t f now && negb (midstream f) && negb (has_payload f) &&
  (if sel (fl_syn f) dir then false else true) &&
  (if sel (fl_syn f) (other dir) then true else false).
Definition syn_old (id : Z) : Prop :=
  flow_sat same_syn id = true ∨
  last history = Some id ∧ flow_sat peer_syn_only id = true ∧ ∀ i, i ∈ history → flow_sat same_syn i = false.
Definition syn_new : Prop :=
  (∀ i, i ∈ history → flow_sat same_syn i = false) ∧
  ∀ i, last history = Some i → flow_sat peer_syn_only i = false.

Lemma last_history {i} : last history = Some i → i ∈ history.
Proof. intros [l ->]%last_Some. set_solver. Qed.

Lemma select_syn_spec :
  wp (select_syn t key dir now s history) (chosen_post syn_old syn_new) no_room.
Proof using Hok.
  unfold select_syn. rewrite (findM_spec _ (flow_sat same_syn)), bind_Ok.
  2:{ intros id Hid. rewrite elem_of_rev_list in Hid. by rewrite <- flow_sat_index. }
  assert ((match last history with
           | Some id => f ← index (flows t) id; Ok (if peer_syn_only f then Some id else None)
           | None => Ok None
           end) = Ok (E:=Error) (id ← last history; if flow_sat peer_syn_only id then Some id else None)) as Hsim.
  { destruct (last history) as [id|] eqn:Hl; [|done]. simpl.
    destruct (history_flow key id (last_history Hl)) as (f & -> & _ & Hf & _).
    rewrite bind_Ok. unfold flow_sat. by rewrite Hf. }
  unfold peer_syn_only at 1 in Hsim. rewrite Hsim, bind_Ok. clear Hsim.
  destruct (List.find _ _) as [id|] eqn:Hfind.
  { apply find_some in Hfind as [Hi Hs]. apply list_elem_of_In in Hi. rewrite elem_of_rev_list in Hi.
    apply wp_ok, chosen_history; [done|by left]. }
  assert (∀ i, i ∈ history → flow_sat same_syn i = false) as Hno.
  { intros i Hi. apply (find_none _ _ Hfind), list_elem_of_In. by rewrite elem_of_rev_list. }
  destruct (last history) as [id|] eqn:Hl; simpl.
  2:{ apply chosen_create. split; [done|]. intros ?. by rewrite Hl. }
  destruct (flow_sat peer_syn_only id) eqn:Hp.
  - apply wp_ok, chosen_history; [by apply last_history|by right].
  - apply chosen_create. split; [done|]. intros ?. rewrite Hl. by intros [= <-].
Qed.

(** The generations a segment that opens nothing may belong to: of its key, not
    idle for too long, and with sequence numbers in reach. *)
Definition fits (f : Flow) : bool := negb (idle_expired t f now) && plausible t f dir s.
Definition open_fit (f : Flow) : bool := fits f && negb (closed f).
Definition closed_fit (f : Flow) : bool := fits f && closed f.
Definition final_fit (f : Flow) : bool := closed_fit f && is_final_ack f dir s.
Definition candidate (id : Z) : Prop := id ∈ history ∧ flow_sat fits id = true.

Lemma candidates_spec l open cl fin_ :
  (∀ id, id ∈ l → id ∈ history) →
  foldM (candidate_step t dir now s) (open, cl, fin_) l =
  Ok (open ++ List.filter (flow_sat open_fit) l, cl ++ List.filter (flow_sat closed_fit) l,
      fin_ ++ List.filter (flow_sat final_fit) l).
Proof using Hok.
  revert open cl fin_. induction l as [|id l IH]; intros open cl fin_ Hl; simpl.
  { by rewrite !app_nil_r. }
  destruct (history_flow key id) as (f & -> & _ & Hf & _); [apply Hl; set_solver|].
  assert (∀ P, flow_sat P id = P f) as Hs by (intros P; unfold flow_sat; by rewrite Hf).
  rewrite !bind_Ok, !Hs.
  assert (open_fit f = fits f && negb (closed f) ∧ closed_fit f = fits f && closed f ∧
          final_fit f = fits f && closed f && is_final_ack f dir s) as (-> & -> & ->) by done.
  change (negb (idle_expired t f now) && plausible t f dir s) with (fits f).
  assert (∀ i, i ∈ l → i ∈ history) as Hl' by (intros; apply Hl; set_solver).
  destruct (fits f), (closed f), (is_final_ack f dir s); simpl;
    rewrite IH by done; repeat rewrite <- app_assoc; done.
Qed.

Lemma elem_of_sat P id : id ∈ List.filter (flow_sat P) history ↔ id ∈ history ∧ flow_sat P id = true.
Proof. rewrite !list_elem_of_In. apply filter_In. Qed.

Lemma candidate_split id :
  candidate id ↔ id ∈ List.filter (flow_sat open_fit) history ∨
                 id ∈ List.filter (flow_sat closed_fit) history.
Proof.
  rewrite !elem_of_sat. unfold candidate, flow_sat, closed_fit, open_fit.
  destruct (flows t !! Z.to_nat id) as [f|]; [|naive_solver].
  destruct (fits f), (closed f); simpl; naive_solver.
Qed.

Lemma final_closed id :
  id ∈ List.filter (flow_sat final_fit) history → id ∈ List.filter (flow_sat closed_fit) history.
Proof.
  rewrite !elem_of_sat. unfold flow_sat, final_fit. intros [Hi H]. split; [done|].
  destruct (flows t !! Z.to_nat id); [|done]. by apply andb_true_iff in H as [-> _].
Qed.

(** Such a segment goes into an existing generation only if that is its one
    candidate, and opens a generation only without an open candidate. *)
Definition data_old (id : Z) : Prop := candidate id ∧ ∀ id', candidate id' → id' = id.
Definition data_new : Prop := ∀ id, candidate id → flow_sat closed id = true.

(** What the choice promises.  A segment is ambiguous only with all its candidates
    listed, and left unassigned only without an open candidate. *)
Definition select_post (x : TcpTracker * (Z + Assignment)) : Prop :=
  match x with
  | (t', inl id) =>
      if syn s && negb (ack s) then chosen_post syn_old syn_new (t', id)
      else chosen_post data_old data_new (t', id)
  | (t', inr (Assigned _ _)) => False
  | (t', inr (Ambiguous ids)) => t' = t ∧ 2 ≤ zlen ids ∧ ∀ id, id ∈ ids ↔ candidate id
  | (t', inr (Unassigned _)) => t' = t ∧ data_new
  end.

Section data_segment.
Hypothesis (Hdata : syn s && negb (ack s) = false).

Lemma create_inl mid :
  data_new →
  wp (r ← create t key mid; let '(t', id) := r in Ok (t', inl (B:=Assignment) id)) select_post no_room.
Proof using Hok Hdata.
  intros Hn. apply wp_bind. eapply wp_mono; [by apply (chosen_create mid data_old data_new)| |done].
  intros [t' id] H. apply wp_ok. simpl. by rewrite Hdata.
Qed.

Lemma chosen_data id : id ∈ history → data_old id → select_post (t, inl id).
Proof using Hok Hdata. intros Hi Ho. simpl. rewrite Hdata. by apply chosen_history. Qed.

Lemma select_other_spec : wp (select_other t key dir now s history) select_post no_room.
Proof using Hok Hdata.
  unfold select_other. rewrite candidates_spec, bind_Ok, !app_nil_l by done.
  pose proof candidate_split as Hc. pose proof final_closed as Hfc.
  pose proof chosen_data as Hdat. pose proof create_inl as Hnew. pose proof elem_of_sat as Hel.
  set (open := List.filter (flow_sat open_fit) history) in Hc |- *.
  set (cl := List.filter (flow_sat closed_fit) history) in Hc, Hfc |- *.
  set (fin_ := List.filter (flow_sat final_fit) history) in Hfc |- *.
  assert (∀ id, id ∈ cl → flow_sat closed id = true) as Hcl.
  { intros id [_ Hs]%Hel. unfold flow_sat, closed_fit in Hs |- *.
    destruct (flows t !! Z.to_nat id); [|done]. by apply andb_true_iff in Hs as [_ ?]. }
  pose proof (zlen_nonneg cl). pose proof (zlen_nonneg open).
  destruct (negb (zlen fin_ =? 0) && (zlen fin_ =? 1) && (zlen cl =? 1) && (zlen open =? 0)) eqn:Hc1.
  - assert (zlen fin_ = 1 ∧ zlen cl = 1 ∧ open = []) as (H1 & H2 & H3).
    { split_and!; [lia..|]. apply zlen_0_nil. lia. }
    destruct fin_ as [|id [|]]; [done| |rewrite !zlen_cons in H1; pose proof (zlen_nonneg l); lia].
    destruct cl as [|id' [|]]; [done| |rewrite !zlen_cons in H2; pose proof (zlen_nonneg l); lia].
    assert (id = id') as <- by (specialize (Hfc id); set_solver).
    cbn. apply Hdat; [apply (proj2 (Hc id)); set_solver|].
    split; [apply Hc; set_solver|]. intros i. rewrite Hc, H3. set_solver.
  - clear Hc1. destruct (Z.eqb_spec (zlen cl) 0) as [Hz|Hz]; cbn [negb].
    + apply zlen_0_nil in Hz. rewrite Hz in Hc. destruct (Z.ltb_spec 1 (zlen open)).
      { apply wp_ok. split_and!; [done|lia|]. intros id. rewrite Hc. set_solver. }
      destruct open as [|id [|]]; [| |rewrite !zlen_cons in *; pose proof (zlen_nonneg l); lia].
      * assert (data_new) by (intros i; rewrite Hc; set_solver).
        rewrite (allM_spec _ (flow_sat (λ f, idle_expired t f now))), bind_Ok
          by (intros; by rewrite <- flow_sat_index).
        destruct (_ || _); [by apply Hnew|done].
      * apply wp_ok, Hdat; [apply (proj2 (Hc id)); set_solver|].
        split; [apply Hc; set_solver|]. intros i. rewrite Hc. set_solver.
    + destruct (Z.eqb_spec (zlen open) 0) as [Ho|Ho].
      * apply zlen_0_nil in Ho. assert (data_new) by (intros i; rewrite Hc, Ho; set_solver).
        rewrite andb_true_r. destruct (syn s); [by apply Hnew|done].
      * rewrite andb_false_r. apply wp_ok. split_and!; [done| |].
        -- unfold zlen in *. rewrite sort_perm, length_app. lia.
        -- intros id. rewrite sort_perm, Hc. set_solver.
Qed.
End data_segment.

Lemma select_spec : wp (select t key dir now s) select_post no_room.
Proof using Hok.
  unfold select. destruct (syn s && negb (ack s)) eqn:Hd.
  - apply wp_bind. eapply wp_mono; [apply select_syn_spec| |done].
    intros [t' id] H. apply wp_ok. simpl. by rewrite Hd.
  - destruct (Z.eqb_spec (zlen history) 0) as [Hz|Hz]; [|by apply select_other_spec].
    apply create_inl; [done|]. apply zlen_0_nil in Hz. intros id [Hi _]. rewrite Hz in Hi. set_solver.
Qed.
End selection.
End tracker.

(** ** Recording the segment *)

Lemma flows_size_insert l i f g :
  l !! i = Some f → flows_size (<[i := g]> l) = flows_size l - flow_size f + flow_size g.
Proof.
  revert i. induction l as [|x l IH]; intros [|i] Hi; try done; simpl in *.
  - injection Hi as ->. lia.
  - rewrite (IH i Hi). lia.
Qed.

Lemma map_fl_key_insert l i f g :
  l !! i = Some f → fl_key g = fl_key f → map fl_key (<[i := g]> l) = map fl_key l.
Proof.
  intros Hi Hk. change (fl_key <$> <[i:=g]> l = fl_key <$> l). rewrite list_fmap_insert, Hk.
  apply list_insert_id. by rewrite list_lookup_fmap, Hi.
Qed.

(** The flow with the segment: identity unchanged, the segment appended with its
    packets, an observed SYN never replaced by another, closed for good. *)
Definition recorded (ids : list PacketId) (dir : Z) (s : TcpSegment) (f g : Flow) : Prop :=
  fl_key g = fl_key f ∧ fl_id g = fl_id f ∧ generation g = generation f ∧ midstream g = midstream f ∧
  inputs g = inputs f ++ [{| i_direction := dir; i_segment := s |}] ∧
  fl_packets g = fl_packets f ++ ids ++ packets (tcp_payload s) ∧
  (closed f = true → closed g = true) ∧ (rst s = true → closed g = true) ∧
  (∀ d old, d = 0 ∨ d = 1 → sel (fl_syn f) d = Some old → sel (fl_syn g) d = Some old) ∧
  (syn s = true → sel (fl_syn g) dir = Some (sequence s)).

Definition syn_conflict (dir : Z) (s : TcpSegment) (f : Flow) : bool :=
  syn s && match sel (fl_syn f) dir with Some old => negb (old =? sequence s) | None => false end.

Lemma absorb_recorded f dir now ids s :
  dir = 0 ∨ dir = 1 → syn_conflict dir s f = false → recorded ids dir s f (absorb f dir now ids s).
Proof.
  intros Hd Hc. unfold syn_conflict in Hc. split_and!; try done; cbn [absorb closed fl_syn].
  - by intros ->.
  - intros ->. by rewrite orb_true_r, orb_true_r.
  - intros d old Hd' Ho. destruct (syn s); [|done]. unfold sel, set2 in *.
    destruct Hd as [-> | ->], Hd' as [-> | ->]; simpl in *; try done; rewrite Ho in Hc;
      apply negb_false_iff, Z.eqb_eq in Hc; by subst.
  - intros ->. unfold sel, set2. by destruct Hd as [-> | ->].
Qed.

Lemma absorb_ok t id f g ids dir s :
  tracker_ok t → flows t !! Z.to_nat id = Some f → recorded ids dir s f g →
  (dir = 0 ∨ dir = 1) → ev_ok (tcp_payload s) → zlen (data (tcp_payload s)) ≤ 65535 →
  zlen (inputs f) < max_segments_per_flow (t_limits t) →
  t_retained t + len (tcp_payload s) ≤ max_retained_payload (t_limits t) →
  tracker_ok {| keys := keys t; flows := <[Z.to_nat id := g]> (flows t);
                t_retained := t_retained t + len (tcp_payload s);
                t_limits := t_limits t; idle_ns := idle_ns t |}.
Proof.
  intros Hok Hf Hrec Hd Hev Hlen Hn Hm. pose proof Hok as (Hl & Hid & Hwf & Hfn & Hfl & Hr & Hrm & Hidx & Hgen).
  destruct Hrec as (Hk & Hi & Hg & _ & Hin & _).
  split_and!; cbn [t_limits idle_ns keys flows t_retained]; try done.
  - unfold zlen. by rewrite length_insert.
  - apply Forall_insert; [done|]. pose proof (Forall_lookup_1 _ _ _ _ Hfl Hf) as [Hf1 Hf2]. split.
    + rewrite Hin. apply Forall_app. split; [done|]. by apply Forall_singleton.
    + rewrite Hin, zlen_app, zlen_cons, zlen_nil. lia.
  - rewrite (flows_size_insert _ _ _ _ Hf), Hr. unfold flow_size at 2. rewrite Hin, foldr_app. simpl.
    assert (∀ z l, foldr (λ i acc, len (tcp_payload (i_segment i)) + acc) z l =
                   foldr (λ i acc, len (tcp_payload (i_segment i)) + acc) 0 l + z) as Hz.
    { intros z l. induction l as [|x l IH]; simpl; lia. }
    rewrite Hz. fold (flow_size f). lia.
  - intros key. by rewrite (map_fl_key_insert _ _ _ _ Hf Hk).
  - intros i h Hh. rewrite (map_fl_key_insert _ _ _ _ Hf Hk).
    apply list_lookup_insert_Some in Hh as [(<- & <- & _)|[_ Hh]]; [|by apply Hgen].
    rewrite Hi, Hg, Hk. by apply Hgen.
Qed.

(** ** [ingest_with_packets] *)

(** The segment was recorded in the flow [id], a generation of its key that was
    there for the reason [old] or is fresh for the reason [new]; every other flow
    is as before. *)
Definition assigned (t t' : TcpTracker) (key : FlowKey) (dir : Z) (ids : list PacketId) (s : TcpSegment)
    (old : Z → Prop) (new : Prop) (id : Z) : Prop :=
  0 ≤ id ∧ ∃ f g,
    (flows t !! Z.to_nat id = Some f ∧ old id ∧ zlen (flows t') = zlen (flows t) ∨
     (∃ gen mid, f = fresh_flow id gen key mid) ∧ new ∧ id = zlen (flows t) ∧
       zlen (flows t') = zlen (flows t) + 1) ∧
    fl_key f = key ∧ flows t' !! Z.to_nat id = Some g ∧ recorded ids dir s f g ∧
    ∀ j, 0 ≤ j < zlen (flows t) → j ≠ id → flows t' !! Z.to_nat j = flows t !! Z.to_nat j.

Definition ingest_post (t : TcpTracker) (key : FlowKey) (dir : Z) (now : option Z) (ids : list PacketId)
    (s : TcpSegment) (x : TcpTracker * Assignment) : Prop :=
  let '(t', a) := x in
  tracker_ok t' ∧
  match a with
  | Assigned id d =>
      d = dir ∧
      (if syn s && negb (ack s)
       then assigned t t' key dir ids s (syn_old t key dir now s) (syn_new t key dir now s) id
       else assigned t t' key dir ids s (data_old t key dir now s) (data_new t key dir now s) id)
  | Ambiguous l => t' = t ∧ 2 ≤ zlen l ∧ ∀ id, id ∈ l ↔ candidate t key dir now s id
  | Unassigned why =>
      t' = t ∧
      (data_new t key dir now s ∨
       ∃ id f, flows t !! Z.to_nat id = Some f ∧ fl_key f = key ∧ syn_conflict dir s f = true)
  end.

(** Every error of [ingest_with_packets] and its cause. *)
Definition ingest_error (t : TcpTracker) (key : FlowKey) (ids : list PacketId) (s : TcpSegment) (e : Error) : Prop :=
  e = error_new Invariant 0 "tcp_evidence" "TCP segment requires source packets" ∧ ids = [] ∨
  e = limit "tcp_retained_payload" ∧
    max_retained_payload (t_limits t) < t_retained t + len (tcp_payload s) ∨
  no_room t e ∨
  e = limit "segments_per_flow" ∧
    ∃ f, f ∈ flows t ∧ fl_key f = key ∧ max_segments_per_flow (t_limits t) ≤ zlen (inputs f).

Lemma flow_key_dir sc a b key dir : flow_key_new sc a b = (key, dir) → dir = 0 ∨ dir = 1.
Proof. unfold flow_key_new. case_match; intros [= _ <-]; auto. Qed.

(** What recording in a chosen flow gives. *)
Lemma record_chosen t t1 key id dir now ids s old new f :
  chosen_post t key old new (t1, id) → flows t1 !! Z.to_nat id = Some f →
  (dir = 0 ∨ dir = 1) → syn_conflict dir s f = false →
  ∀ t', flows t' = <[Z.to_nat id := absorb f dir now ids s]> (flows t1) →
  assigned t t' key dir ids s old new id.
Proof.
  intros (_ & _ & _ & _ & Hc & Hid & h & Hh & Hk) Hf Hd Hs t' Ht'. rewrite Hf in Hh. injection Hh as <-.
  assert (Z.to_nat id < length (flows t1))%nat as Hlt by (by eapply lookup_lt_Some).
  split; [done|]. exists f, (absorb f dir now ids s). split_and!; try done.
  - rewrite Ht'. unfold zlen. rewrite length_insert.
    destruct Hc as [[-> Ho]|((gen & mid & Hg) & -> & Hn)]; [by left|right]. rewrite Hg in Hf |- *.
    rewrite length_app. simpl. split_and!; try done; [|lia].
    rewrite list_lookup_middle in Hf by (unfold zlen; lia). injection Hf as <-. by exists gen, mid.
  - rewrite Ht'. by apply list_lookup_insert_eq.
  - by apply absorb_recorded.
  - intros j Hj Hne. rewrite Ht', list_lookup_insert_ne by lia.
    destruct Hc as [[-> _]|((gen & mid & Hg) & _)]; [done|]. rewrite Hg. apply lookup_app_l. unfold zlen in *. lia.
Qed.

Section ingest.
Context (t : TcpTracker) (Hok : tracker_ok t) (key : FlowKey) (dir : Z) (now : option Z).
Context (ids : list PacketId) (s : TcpSegment).
Context (Hdir : dir = 0 ∨ dir = 1) (Hev : ev_ok (tcp_payload s)).
Context (Hlen : zlen (data (tcp_payload s)) ≤ 65535).
Context (Hroom : t_retained t + len (tcp_payload s) ≤ max_retained_payload (t_limits t)).

(** A chosen flow that is fresh has room and no SYN; one that is not is of [t]. *)
Lemma chosen_flow old new t1 id f :
  chosen_post t key old new (t1, id) → flows t1 !! Z.to_nat id = Some f →
  fl_key f = key ∧
  (t1 = t ∨ zlen (inputs f) < max_segments_per_flow (t_limits t1) ∧ syn_conflict dir s f = false).
Proof using Hok.
  intros (Hok1 & Hl & _ & _ & Hc & _ & h & Hh & Hk) Hf. rewrite Hf in Hh. injection Hh as <-.
  split; [done|]. destruct Hc as [[-> _]|((gen & mid & Hg) & -> & _)]; [by left|right].
  rewrite Hg, list_lookup_middle in Hf by (unfold zlen; lia). injection Hf as <-.
  destruct Hok1 as (Hl1 & _). limits_facts Hl1. split; [simpl; rewrite zlen_nil; lia|].
  unfold syn_conflict, sel. simpl. destruct (dir =? 0); by rewrite andb_false_r.
Qed.

Lemma record_step old new t1 id :
  chosen_post t key old new (t1, id) →
  wp (f ← index (flows t1) id;
      if max_segments_per_flow (t_limits t1) <=? zlen (inputs f) then Err (limit "segments_per_flow")
      else if syn_conflict dir s f then Ok (t1, Unassigned "conflicting_syn_for_generation")
      else Ok ({| keys := keys t1; flows := <[Z.to_nat id := absorb f dir now ids s]> (flows t1);
                  t_retained := t_retained t + len (tcp_payload s); t_limits := t_limits t1;
                  idle_ns := idle_ns t1 |}, Assigned id dir))
     (λ '(t', a), tracker_ok t' ∧
        match a with
        | Assigned i d => d = dir ∧ assigned t t' key dir ids s old new i
        | Ambiguous _ => False
        | Unassigned _ =>
            t' = t ∧ ∃ id f, flows t !! Z.to_nat id = Some f ∧ fl_key f = key ∧ syn_conflict dir s f = true
        end)
     (ingest_error t key ids s).
Proof using Hok Hdir Hev Hlen Hroom.
  intros Hpost. pose proof Hpost as (Hok1 & Hl & Hr & Hi & _ & Hid & f & Hf & Hk).
  rewrite (index_ok _ _ _ Hid Hf), bind_Ok.
  destruct (chosen_flow old new t1 id f Hpost Hf) as [_ Hor].
  destruct (Z.leb_spec (max_segments_per_flow (t_limits t1)) (zlen (inputs f))) as [Hfull|Hfree].
  { apply wp_err. right. right. right. destruct Hor as [->|[? _]]; [|lia].
    split; [done|]. exists f. split_and!; try done. by eapply list_elem_of_lookup_2. }
  destruct (syn_conflict dir s f) eqn:Hc.
  { destruct Hor as [->|[_ ?]]; [|done]. apply wp_ok. split_and!; try done. by exists id, f. }
  apply wp_ok. split.
  - rewrite <- Hr. eapply absorb_ok; try done; [by apply absorb_recorded|]. by rewrite Hr, Hl.
  - split; [done|]. by eapply record_chosen.
Qed.
End ingest.

Lemma ingest_spec t sc ids now s key dir :
  tracker_ok t → ev_ok (tcp_payload s) → zlen (data (tcp_payload s)) ≤ 65535 →
  flow_key_new sc (tcp_source s) (tcp_destination s) = (key, dir) →
  wp (ingest_with_packets t sc ids now s) (ingest_post t key dir now ids s) (ingest_error t key ids s).
Proof.
  intros Hok Hev Hlen Hkey. unfold ingest_with_packets.
  destruct (Z.eqb_spec (zlen ids) 0) as [Hz|_]; [apply wp_err; left; split; [done|by apply zlen_0_nil]|].
  pose proof Hok as (Hl & _ & _ & _ & _ & _ & Hm & _). limits_facts Hl.
  pose proof (zlen_nonneg (data (tcp_payload s))).
  apply wp_bind, wp_ok_or.
  2:{ intros Hn%checked_add_None. right; left. split; [done|]. lia. }
  intros kept [-> _]%checked_add_Some.
  destruct (Z.ltb_spec (max_retained_payload (t_limits t)) (t_retained t + len (tcp_payload s))) as [Hx|Hroom].
  { apply wp_err. right; left. done. }
  rewrite Hkey. pose proof (flow_key_dir _ _ _ _ _ Hkey) as Hd.
  apply wp_bind. eapply wp_mono; [by apply (select_spec t Hok key dir now s)| |].
  2:{ intros e He. right. right. by left. }
  intros [t1 [id|a]] Hp; simpl in Hp.
  - unfold ingest_post. destruct (syn s && negb (ack s));
      (eapply wp_mono; [eapply (record_step t Hok key dir now ids s); eassumption| |done]);
      intros [t' [i d|l|why]] [Hok' Ha]; split; try done; (split; [apply Ha|right; apply Ha]).
  - destruct a as [|l|why]; [done| |]; pose proof Hp as [-> _]; (apply wp_ok; split; [done|]); [done|].
    split; [done|left; apply Hp].
Qed.

(** ** [finish] *)

(** The inputs of a direction that carry payload. *)
Definition carried (d : Z) (l : list Input) : list Input :=
  List.filter (λ i, (i_direction i =? d) && negb (is_empty (tcp_payload (i_segment i)))) l.

(** A segment of the assembler is this input's payload, at its sequence number. *)
Definition seg_of (a : StreamAssembler) (seg : Segment) (i : Input) : Prop :=
  s_bytes seg = tcp_payload (i_segment i) ∧
  ∃ anchor, base a = Some anchor ∧
    (anchor + s_start seg) mod 2 ^ 32 = data_sequence (i_segment i) mod 2 ^ 32.

(** The assembler holds exactly the payload of a direction, in capture order. *)
Definition rebuilt (l : list Input) (d : Z) (a : StreamAssembler) : Prop :=
  asm_ok a ∧ Forall2 (seg_of a) (segments a) (carried d l).

Definition rebuild_inv (l : list Input) (r : Rebuild) : Prop :=
  ∀ d, d = 0 ∨ d = 1 →
    if sel (rb_invalid r) d then rb_errors r ≠ [] else rebuilt l d (sel (rb_streams r) d).

Lemma seg_of_base a b seg i :
  (∀ anchor, base a = Some anchor → base b = Some anchor) → seg_of a seg i → seg_of b seg i.
Proof. intros Hb (Hs & anchor & Ha & Hm). split; [done|]. exists anchor. auto. Qed.

Lemma carried_snoc d l i :
  carried d (l ++ [i]) =
  carried d l ++ (if (i_direction i =? d) && negb (is_empty (tcp_payload (i_segment i))) then [i] else []).
Proof. unfold carried. by rewrite List.filter_app. Qed.

Lemma push_rebuilt l d a i :
  rebuilt l d a → input_ok i → i_direction i = d →
  wp (push a (data_sequence (i_segment i)) (tcp_payload (i_segment i)))
     (rebuilt (l ++ [i]) d) (λ _, True).
Proof.
  intros [Hok Hseg] (_ & [Hty _] & Hlen) Hd.
  eapply wp_mono; [apply stream_push_spec; [done|done|lia]| |done].
  intros b [Hb Hpost]. split; [done|]. rewrite carried_snoc, Hd, Z.eqb_refl. simpl. unfold is_empty.
  destruct Hpost as [[-> He]|(seg & anchor & Hs & Hby & Hba & Ha & Hm & _)].
  - rewrite He. simpl. by rewrite app_nil_r.
  - rewrite Hs. assert (zlen (data (tcp_payload (i_segment i))) ≠ 0) as Hne.
    { destruct Hb as (_ & _ & _ & Hf & _). rewrite Hs, Forall_app, Forall_singleton in Hf.
      destruct Hf as (_ & _ & Hlt & _). unfold s_end in Hlt. rewrite Hby in Hlt. lia. }
    rewrite (proj2 (Z.eqb_neq _ _) Hne). simpl. apply Forall2_app.
    + eapply Forall2_impl; [exact Hseg|]. intros x y. apply seg_of_base. intros c Hc.
      by rewrite Hba, Ha, Hc.
    + constructor; [|constructor]. split; [done|]. by exists anchor.
Qed.

Lemma end_rebuilt l d a seq : rebuilt l d a → wp (end_at a seq) (rebuilt l d) (λ _, True).
Proof.
  intros [Hok Hseg]. eapply wp_mono; [by apply end_at_spec| |done].
  intros b (Hb & Hs & f & anchor & _ & Hba & Ha & _). split; [done|]. rewrite Hs.
  eapply Forall2_impl; [exact Hseg|]. intros x y. apply seg_of_base. intros c Hc. by rewrite Hba, Ha, Hc.
Qed.

Lemma rebuilt_skip l d a i : i_direction i ≠ d → rebuilt l d a → rebuilt (l ++ [i]) d a.
Proof.
  intros Hd [Hok Hseg]. split; [done|]. rewrite carried_snoc, (proj2 (Z.eqb_neq _ _)) by done.
  simpl. by rewrite app_nil_r.
Qed.

Lemma sel_set2 {A} (p : A * A) d d' v :
  d = 0 ∨ d = 1 → d' = 0 ∨ d' = 1 → sel (set2 p d v) d' = if d' =? d then v else sel p d'.
Proof. unfold sel, set2. intros [-> | ->] [-> | ->]; done. Qed.

Lemma rebuild_step_spec l r i :
  rebuild_inv l r → input_ok i → wp (rebuild_step r i) (rebuild_inv (l ++ [i])) (λ _, False).
Proof.
  intros Hinv Hi. pose proof Hi as (Hd & _). unfold rebuild_step.
  pose proof (Hinv (i_direction i) Hd) as Hcur.
  assert (∀ d, d = 0 ∨ d = 1 → d ≠ i_direction i →
    if sel (rb_invalid r) d then rb_errors r ≠ [] else rebuilt (l ++ [i]) d (sel (rb_streams r) d)) as Hoth.
  { intros d Hd' Hne. specialize (Hinv d Hd'). destruct (sel (rb_invalid r) d); [done|]. by apply rebuilt_skip. }
  destruct (sel (rb_invalid r) (i_direction i)) eqn:Hv.
  { apply wp_ok. intros d Hd'. destruct (decide (d = i_direction i)) as [->|]; [by rewrite Hv|by apply Hoth]. }
  apply wp_bind, wp_catch. eapply (wp_mono _ (rebuilt (l ++ [i]) (i_direction i)) _ (λ _, True)).
  - apply wp_bind. eapply wp_mono; [by apply push_rebuilt| |done]. intros a Ha.
    destruct (fin (i_segment i)); [by apply end_rebuilt|done].
  - intros a Ha. apply wp_ok. intros d Hd'. cbn [rb_invalid rb_errors rb_streams].
    rewrite sel_set2 by done. destruct (Z.eqb_spec d (i_direction i)) as [->|]; [by rewrite Hv|by apply Hoth].
  - intros e _. apply wp_ok. intros d Hd'. cbn [rb_invalid rb_errors rb_streams].
    rewrite sel_set2 by done. destruct (Z.eqb_spec d (i_direction i)) as [->|Hne].
    + by destruct (rb_errors r).
    + specialize (Hoth d Hd' Hne). destruct (sel (rb_invalid r) d); [by destruct (rb_errors r)|done].
Qed.

(** A direction's reconstruction. *)
Definition stream_post (pol : OverlapPolicy) (a : StreamAssembler) (r : StreamResult) : Prop :=
  (segments a = [] → chunks r = [] ∧ conflicts r = []) ∧ (segments a ≠ [] → reconstructs pol a r).

Lemma stream_finish_spec a pol : asm_ok a → wp (finish a pol) (stream_post pol a) (λ _, True).
Proof.
  intros Hok. destruct (decide (segments a = [])) as [He|Hne].
  - unfold finish. pose proof Hok as (Hl & _). rewrite limits_ok_validate, bind_Ok by done.
    rewrite He. cbn. split; [|done]. intros _.
    destruct (s_fin a); [|done]. by destruct (_ && _).
  - assert ((∃ f, s_fin a = Some f ∧ f < s_max a) ∨ ∀ f, s_fin a = Some f → s_max a ≤ f) as [(f & Hf & Hlt)|Hf].
    { destruct (s_fin a) as [f|]; [|by right]. destruct (Z.lt_ge_cases f (s_max a)); [left; by exists f|right].
      by intros ? [= <-]. }
    + unfold finish. pose proof Hok as (Hl & _). rewrite limits_ok_validate, bind_Ok by done.
      destruct (Z.eqb_spec (zlen (segments a)) 0) as [Hz|_]; [by apply zlen_0_nil in Hz|].
      by rewrite Hf, (proj2 (Z.ltb_lt _ _) Hlt).
    + destruct (finish_spec a pol Hok Hne Hf) as (r & -> & Hr). apply wp_ok. by split.
Qed.

(** What a flow's result says of the flow. *)
Definition flow_result (pol : OverlapPolicy) (f : Flow) (r : FlowResult) : Prop :=
  fr_id r = fl_id f ∧ fr_generation r = generation f ∧ fr_key r = fl_key f ∧ fr_syn r = fl_syn f ∧
  fr_closed r = closed f ∧ fr_midstream r = midstream f ∧
  StronglySorted lt_ord (fr_packets r) ∧ (∀ p, p ∈ fr_packets r ↔ p ∈ fl_packets f) ∧
  ∀ d, d = 0 ∨ d = 1 →
    match sel (streams r) d with
    | Some st => ∃ a, rebuilt (inputs f) d a ∧ stream_post pol a st
    | None => reconstruction_errors r ≠ []
    end.

Lemma rebuild_stream_spec l r d errs pol :
  rebuild_inv l r → (d = 0 ∨ d = 1) → (rb_errors r ≠ [] → errs ≠ []) →
  wp (rebuild_stream r d errs pol)
     (λ '(o, errs'), (errs ≠ [] → errs' ≠ []) ∧
        match o with
        | Some st => ∃ a, rebuilt l d a ∧ stream_post pol a st
        | None => errs' ≠ []
        end) (λ _, False).
Proof.
  intros Hinv Hd He. specialize (Hinv d Hd). unfold rebuild_stream.
  destruct (sel (rb_invalid r) d); [apply wp_ok; auto|].
  apply wp_bind, wp_catch. eapply wp_mono; [apply stream_finish_spec; apply Hinv| |].
  - intros st Hst. apply wp_ok. split; [done|]. by exists (sel (rb_streams r) d).
  - intros e _. apply wp_ok. by destruct errs.
Qed.

Lemma finish_flow_spec l pol f :
  limits_ok l → flow_ok l f → wp (finish_flow l pol f) (flow_result pol f) (λ _, False).
Proof.
  intros Hl [Hin Hn]. unfold finish_flow. apply wp_bind.
  apply (wp_foldM rebuild_inv) with (done := []).
  - intros pre i post r Heq Hinv. apply rebuild_step_spec; [done|].
    rewrite app_nil_l in Heq. rewrite Heq, Forall_app, Forall_cons in Hin. apply Hin.
  - intros d [-> | ->]; simpl; (split; [by apply assembler_new_ok|constructor]).
  - intros r Hinv. rewrite app_nil_l in Hinv. apply wp_bind.
    eapply wp_mono; [apply (rebuild_stream_spec (inputs f)); auto| |done]. intros [a ea] [Ha1 Ha2].
    apply wp_bind. eapply wp_mono; [apply (rebuild_stream_spec (inputs f) r 1 ea); auto| |done].
    intros [b eb] [Hb1 Hb2]. apply wp_ok. split_and!; try done; simpl.
    + apply sort_dedup_sorted.
    + intros p. apply elem_of_sort_dedup.
    + intros d [-> | ->]; [|by destruct b]. destruct a; [done|]. by apply Hb1, Ha2.
Qed.

Lemma tracker_finish_spec t pol :
  tracker_ok t → wp (tracker_finish t pol) (λ rs, Forall2 (flow_result pol) (flows t) rs) (λ _, False).
Proof.
  intros (Hl & _ & _ & _ & Hfl & _). unfold tracker_finish.
  apply (wp_foldM (λ pre out, Forall2 (flow_result pol) pre out)) with (done := []); [|constructor|done].
  intros pre f post out Heq Hpre. rewrite app_nil_l in Heq. apply wp_bind.
  eapply wp_mono; [apply finish_flow_spec; [done|]| |done].
  - rewrite Heq, Forall_app, Forall_cons in Hfl. apply Hfl.
  - intros r Hr. apply wp_ok, Forall2_app; [done|]. by constructor.
Qed.


(** C37: finishing loses no flow and no error.  [tracker_finish] always returns,
    one result per flow in order, with the flow's identity and its packets sorted
    and without duplicates; each direction either has a stream, reconstructed by
    the pointwise policy from exactly that direction's payloads in capture order
    at their sequence numbers, or is missing with an error reported. *)
Theorem tracker_finish_total (t : TcpTracker) (pol : OverlapPolicy) :
  tracker_ok t → ∃ rs, tracker_finish t pol = Ok rs ∧ Forall2 (flow_result pol) (flows t) rs.
Proof.
  intros Hok. pose proof (tracker_finish_spec t pol Hok) as H.
  destruct (tracker_finish t pol) as [rs| | |]; try done. by exists rs.
Qed.

(** ** Witnesses *)

Definition sample_endpoint (n : Z) : Endpoint := {| address := V4 [10; 0; 0; n]; port := 1000 + n |}.
Definition sample_segment (a b seq fl n : Z) (bytes : list Z) : TcpSegment :=
  {| tcp_source := sample_endpoint a; tcp_destination := sample_endpoint b; sequence := seq;
     acknowledgement := 0; flags := fl; tcp_checksum := Valid;
     tcp_payload := from_packet bytes (sample_packet n) 54 |}.

(** A connection: SYN, data, retransmitted data, FIN. *)
Definition sample_inputs : list TcpSegment :=
  [sample_segment 1 2 99 0x02 1 []; sample_segment 1 2 100 0x10 2 [1; 2; 3];
   sample_segment 1 2 102 0x11 3 [3; 4]].

Definition sample_tracker (l : list TcpSegment) : result TcpTracker :=
  t ← tracker_new limits_default 1000;
  foldM (λ t s, r ← ingest_with_packets t sample_scope [sample_packet 1] None s; Ok r.1) t l.

Example sample_tracker_streams :
  (t ← sample_tracker sample_inputs; rs ← tracker_finish t RejectConflict;
   Ok (map (λ r, (fr_id r, fr_midstream r,
                  option_map (λ st, map (λ c, (c_offset c, data (c_bytes c))) (chunks st)) (streams r).1,
                  option_map (λ st, length (chunks st)) (streams r).2)) rs)) =
  Ok [(0, false, Some [(0, [1; 2; 3; 4])], Some 0%nat)].
Proof. by vm_compute. Qed.

Lemma sample_segment_ok a b seq fl n bytes :
  bytes_ok bytes → zlen bytes ≤ 100 → ev_ok (tcp_payload (sample_segment a b seq fl n bytes)) ∧
  zlen (data (tcp_payload (sample_segment a b seq fl n bytes))) ≤ 65535.
Proof. intros Hb Hl. split; [apply from_packet_ok; [done|lia|lia]|simpl; lia]. Qed.

Lemma sample_tracker_ok l :
  Forall (λ s, ev_ok (tcp_payload s) ∧ zlen (data (tcp_payload s)) ≤ 65535) l →
  wp (sample_tracker l) tracker_ok (λ _, True).
Proof.
  intros Hl. unfold sample_tracker. apply wp_bind.
  eapply wp_mono; [apply tracker_new_spec, limits_default_ok| |done]. intros t Ht.
  apply (wp_foldM (λ _ t, tracker_ok t)) with (done := []); [|done|done].
  intros pre s post t' Heq Ht'. rewrite app_nil_l in Heq. rewrite Heq, Forall_app, Forall_cons in Hl.
  destruct Hl as (_ & [Hev Hlen] & _). apply wp_bind.
  destruct (flow_key_new sample_scope (tcp_source s) (tcp_destination s)) as [key dir] eqn:Hk.
  eapply wp_mono; [by eapply ingest_spec| |done]. intros [t'' a] [H _]. exact H.
Qed.

Lemma sample_inputs_ok : Forall (λ s, ev_ok (tcp_payload s) ∧ zlen (data (tcp_payload s)) ≤ 65535) sample_inputs.
Proof.
  repeat (constructor; [apply sample_segment_ok; [repeat (constructor; [unfold is_byte; lia|]); constructor|by vm_compute]|]).
  constructor.
Qed.

Definition empty_tracker : TcpTracker :=
  {| keys := []; flows := []; t_retained := 0; t_limits := limits_default; idle_ns := 1000 |}.
Definition ran (l : list TcpSegment) : TcpTracker :=
  match sample_tracker l with Ok t => t | _ => empty_tracker end.

Lemma ran_ok l :
  Forall (λ s, ev_ok (tcp_payload s) ∧ zlen (data (tcp_payload s)) ≤ 65535) l → tracker_ok (ran l).
Proof.
  intros Hl%sample_tracker_ok. unfold ran. destruct (sample_tracker l) as [t| | |]; try done.
  exact (tracker_new_spec limits_default 1000 (proj1 limits_default_ok)).
Qed.

Example ran_flow : map (λ f, (generation f, length (inputs f), closed f)) (flows (ran sample_inputs)) = [(1, 3%nat, false)].
Proof. by vm_compute. Qed.

Lemma tracker_finish_total_witness :
  ∃ rs, tracker_finish (ran sample_inputs) RejectConflict = Ok rs ∧
        Forall2 (flow_result RejectConflict) (flows (ran sample_inputs)) rs.
Proof. apply (tracker_finish_total (ran sample_inputs) RejectConflict), ran_ok, sample_inputs_ok. Defined.

Definition sample_key : FlowKey :=
  {| fk_scope := sample_scope; fk_a := sample_endpoint 1; fk_b := sample_endpoint 2 |}.
Definition sample_reply : TcpSegment := sample_segment 2 1 499 0x12 4 [7].

