(* ===== verification/Dnp3Link.v ===== *)
(** * The DNP3 link layer (src/dnp3.rs)

    Protocol issues, control octets and function codes, the CRC of link blocks and
    [parse_link], which checks a frame block by block and returns its user data
    with the capture bytes it came from. *)

From S2P Require Import Errors Provenance Prelude.

Record ProtocolIssue : Type := {
  code : string;
  pi_packets : list PacketId;
  pi_stream_offset : Z;
}.

Record LinkControl : Type := {
  lc_direction : bool;
  primary : bool;
  fcb : option bool;
  fcv : option bool;
  dfc : option bool;
  reserved : option bool;
  lc_function : Z;
  function_name : string;
}.

(** [bool::then_some]. *)
Definition then_some {A} (b : bool) (x : A) : option A := if b then Some x else None.

(** [control & mask != 0]. *)
Definition has_bits (control mask : Z) : bool := negb (Z.land control mask =? 0).

(** [link_control], the name of a function. *)
Definition link_function_name (prim : bool) (function : Z) : string :=
  if prim then
    if function =? 0 then "reset_link_states"
    else if function =? 1 then "reset_user_process"
    else if function =? 2 then "test_link_states"
    else if function =? 3 then "confirmed_user_data"
    else if function =? 4 then "unconfirmed_user_data"
    else if function =? 9 then "request_link_status"
    else "primary_unknown"
  else
    if function =? 0 then "ack"
    else if function =? 1 then "nack"
    else if function =? 11 then "link_status"
    else if function =? 14 then "link_service_not_functioning"
    else if function =? 15 then "link_service_not_implemented"
    else "secondary_unknown".

(** [link_control]. *)
Definition link_control (control : Z) : LinkControl :=
  let prim := has_bits control 0x40 in
  let function := Z.land control 0x0f in
  {| lc_direction := has_bits control 0x80; primary := prim;
     fcb := then_some prim (has_bits control 0x20);
     fcv := then_some prim (has_bits control 0x10);
     dfc := then_some (negb prim) (has_bits control 0x10);
     reserved := then_some (negb prim) (has_bits control 0x20);
     lc_function := function; function_name := link_function_name prim function |}.

Record LinkFrame : Type := {
  lf_stream_offset : Z;
  lf_control : Z;
  lf_link_control : LinkControl;
  lf_source : Z;
  lf_destination : Z;
  broadcast : bool;
  user_data : EvidenceBytes;
  lf_raw : EvidenceBytes;
}.

Inductive MessageClass : Type :=
| McRequest | McResponse | McUnsolicited | McConfirm | McUnknown.
#[global] Instance MessageClass_eq_dec : EqDecision MessageClass.
Proof. solve_decision. Defined.

(** [MessageClass::as_str]. *)
Definition class_str (c : MessageClass) : string :=
  match c with
  | McRequest => "request"
  | McResponse => "response"
  | McUnsolicited => "unsolicited"
  | McConfirm => "confirm"
  | McUnknown => "unknown"
  end.

Inductive FunctionCode : Type :=
| FcConfirm | FcRead | FcWrite | FcSelect | FcOperate
| FcDirectOperate | FcDirectOperateNoResponse | FcImmediateFreeze | FcImmediateFreezeNoResponse | FcFreezeClear
| FcFreezeClearNoResponse | FcFreezeAtTime | FcFreezeAtTimeNoResponse | FcColdRestart | FcWarmRestart
| FcInitializeData | FcInitializeApplication | FcStartApplication | FcStopApplication | FcSaveConfiguration
| FcEnableUnsolicited | FcDisableUnsolicited | FcAssignClass | FcDelayMeasure | FcRecordCurrentTime
| FcOpenFile | FcCloseFile | FcDeleteFile | FcGetFileInfo | FcAuthenticateFile
| FcAbortFile | FcActivateConfiguration | FcAuthRequest | FcAuthRequestNoAck | FcResponse
| FcUnsolicitedResponse | FcAuthResponse
| FcUnknown (function : Z).

(** [FunctionCode::from_wire]. *)
Definition from_wire (function : Z) : FunctionCode :=
  if function =? 0x00 then FcConfirm
  else if function =? 0x01 then FcRead
  else if function =? 0x02 then FcWrite
  else if function =? 0x03 then FcSelect
  else if function =? 0x04 then FcOperate
  else if function =? 0x05 then FcDirectOperate
  else if function =? 0x06 then FcDirectOperateNoResponse
  else if function =? 0x07 then FcImmediateFreeze
  else if function =? 0x08 then FcImmediateFreezeNoResponse
  else if function =? 0x09 then FcFreezeClear
  else if function =? 0x0a then FcFreezeClearNoResponse
  else if function =? 0x0b then FcFreezeAtTime
  else if function =? 0x0c then FcFreezeAtTimeNoResponse
  else if function =? 0x0d then FcColdRestart
  else if function =? 0x0e then FcWarmRestart
  else if function =? 0x0f then FcInitializeData
  else if function =? 0x10 then FcInitializeApplication
  else if function =? 0x11 then FcStartApplication
  else if function =? 0x12 then FcStopApplication
  else if function =? 0x13 then FcSaveConfiguration
  else if function =? 0x14 then FcEnableUnsolicited
  else if function =? 0x15 then FcDisableUnsolicited
  else if function =? 0x16 then FcAssignClass
  else if function =? 0x17 then FcDelayMeasure
  else if function =? 0x18 then FcRecordCurrentTime
  else if function =? 0x19 then FcOpenFile
  else if function =? 0x1a then FcCloseFile
  else if function =? 0x1b then FcDeleteFile
  else if function =? 0x1c then FcGetFileInfo
  else if function =? 0x1d then FcAuthenticateFile
  else if function =? 0x1e then FcAbortFile
  else if function =? 0x1f then FcActivateConfiguration
  else if function =? 0x20 then FcAuthRequest
  else if function =? 0x21 then FcAuthRequestNoAck
  else if function =? 0x81 then FcResponse
  else if function =? 0x82 then FcUnsolicitedResponse
  else if function =? 0x83 then FcAuthResponse
  else FcUnknown function.

(** [FunctionCode::as_str]. *)
Definition function_str (f : FunctionCode) : string :=
  match f with
  | FcConfirm => "confirm"
  | FcRead => "read"
  | FcWrite => "write"
  | FcSelect => "select"
  | FcOperate => "operate"
  | FcDirectOperate => "direct_operate"
  | FcDirectOperateNoResponse => "direct_operate_no_response"
  | FcImmediateFreeze => "immediate_freeze"
  | FcImmediateFreezeNoResponse => "immediate_freeze_no_response"
  | FcFreezeClear => "freeze_clear"
  | FcFreezeClearNoResponse => "freeze_clear_no_response"
  | FcFreezeAtTime => "freeze_at_time"
  | FcFreezeAtTimeNoResponse => "freeze_at_time_no_response"
  | FcColdRestart => "cold_restart"
  | FcWarmRestart => "warm_restart"
  | FcInitializeData => "initialize_data"
  | FcInitializeApplication => "initialize_application"
  | FcStartApplication => "start_application"
  | FcStopApplication => "stop_application"
  | FcSaveConfiguration => "save_configuration"
  | FcEnableUnsolicited => "enable_unsolicited"
  | FcDisableUnsolicited => "disable_unsolicited"
  | FcAssignClass => "assign_class"
  | FcDelayMeasure => "delay_measure"
  | FcRecordCurrentTime => "record_current_time"
  | FcOpenFile => "open_file"
  | FcCloseFile => "close_file"
  | FcDeleteFile => "delete_file"
  | FcGetFileInfo => "get_file_info"
  | FcAuthenticateFile => "authenticate_file"
  | FcAbortFile => "abort_file"
  | FcActivateConfiguration => "activate_configuration"
  | FcAuthRequest => "auth_request"
  | FcAuthRequestNoAck => "auth_request_no_ack"
  | FcResponse => "response"
  | FcUnsolicitedResponse => "unsolicited_response"
  | FcAuthResponse => "auth_response"
  | FcUnknown _ => "unknown"
  end.

(** [function_code]. *)
Definition function_code (function : Z) : FunctionCode := from_wire function.

(** ** The CRC *)

(** [crc16_dnp], one bit and one octet. *)
Definition crc_bit (crc : Z) : Z :=
  if negb (Z.land crc 1 =? 0) then Z.lxor (Z.shiftr crc 1) 0xa6bc else Z.shiftr crc 1.
Definition crc_byte (crc byte : Z) : Z := Nat.iter 8 crc_bit (Z.lxor crc byte).

(** [crc16_dnp]; [!crc] on 16 bits. *)
Definition crc16_dnp (d : list Z) : Z := Z.lxor (fold_left crc_byte d 0) 0xffff.

Definition le16 (b : list Z) : result Z :=
  b0 ← idx b 0; b1 ← idx b 1; Ok (from_le_bytes [b0; b1]).

(** [dnp3_workflow::is_broadcast]. *)
Definition is_broadcast (address : Z) : bool := 0xfffd <=? address.

(** ** [parse_link] *)

(** [parse_link], the data blocks: [n] octets and their CRC, from [p] on. *)
Fixpoint data_blocks (fuel : nat) (bytes : EvidenceBytes) (offset : Z) (input : list Z)
    (user : EvidenceBytes) (p remaining : Z) : result EvidenceBytes :=
  match fuel with
  | O => OutOfFuel
  | S fuel =>
      if negb (0 <? remaining) then Ok user
      else
        let n := Z.min remaining 16 in
        block ← slice input p (p + n);
        tail ← slice input (p + n) (p + n + 2);
        sum ← le16 tail;
        if negb (crc16_dnp block =? sum)
        then Err (error_new Errors.Checksum 0 "dnp3_data_crc" "data block CRC mismatch")
        else
          a ← add_ovf usize_max offset p;
          b ← add_ovf usize_max a n;
          piece ← Provenance.slice bytes a b;
          user ← append user piece 250;
          data_blocks fuel bytes offset input user (p + n + 2) (remaining - n)
  end.

(** [parse_link]. *)
Definition parse_link (bytes : EvidenceBytes) (offset stream_base : Z) : result (LinkFrame * Z) :=
  off ← ok_or (if offset <=? i64_max then Some offset else None) (limit "stream_offset");
  stream_offset ← ok_or (checked_add_signed i64_min i64_max stream_base off) (limit "stream_offset");
  input ← ok_or (get_range (data bytes) offset (zlen (data bytes)))
            (error_new Truncated 0 "dnp3" "offset beyond input");
  if zlen input <? 10 then Err (error_new Truncated 0 "dnp3_header" "need 10 octets")
  else
  magic ← slice input 0 2;
  if negb (bytes_eqb magic [0x05; 0x64])
  then Err (error_new ProtocolFraming 0 "dnp3_magic" "not a DNP3 link frame")
  else
  length ← idx input 2;
  if length <? 5
  then Err (error_new InvalidLength 0 "dnp3_length" "length must include five fixed link octets")
  else
  header ← slice input 0 8;
  tail ← slice input 8 10;
  sum ← le16 tail;
  if negb (crc16_dnp header =? sum)
  then Err (error_new Errors.Checksum 0 "dnp3_header_crc" "header CRC mismatch")
  else
  data_len ← sub_ovf length 5;
  let total := 10 + data_len + 2 * div_ceil data_len 16 in
  if zlen input <? total
  then Err (error_new Truncated 0 "dnp3_frame" "frame extends beyond contiguous captured bytes")
  else
  user ← data_blocks (S (Z.to_nat data_len)) bytes offset input evidence_default 10 data_len;
  control ← idx input 3;
  s ← slice input 6 8; src ← le16 s;
  d ← slice input 4 6; dst ← le16 d;
  stop ← add_ovf usize_max offset total;
  whole ← Provenance.slice bytes offset stop;
  Ok ({| lf_stream_offset := stream_offset; lf_control := control;
         lf_link_control := link_control control; lf_source := src; lf_destination := dst;
         broadcast := is_broadcast dst; user_data := user; lf_raw := whole |}, total).
