(* ===== verification/Dnp3LinkFacts.v ===== *)
(** * Correctness of the DNP3 link layer

    The CRC is linear and detects every error confined to two adjacent octets; a
    frame is accepted exactly when the captured bytes are the encoding of its
    fields and user data, and the user data keeps its sources. *)

From S2P Require Import Errors Provenance Prelude Dnp3Link.

(** ** The CRC *)

#[local] Arguments crc_byte : simpl never.

Lemma lxor_bound n a b : 0 ≤ n → 0 ≤ a < 2 ^ n → 0 ≤ b < 2 ^ n → 0 ≤ Z.lxor a b < 2 ^ n.
Proof.
  intros Hn Ha Hb. assert (0 ≤ Z.lxor a b) as H0 by (apply Z.lxor_nonneg; lia). split; [done|].
  destruct (decide (Z.lxor a b = 0)) as [->|Hne]; [lia|]. apply Z.log2_lt_pow2; [lia|].
  pose proof (Z.log2_lxor a b ltac:(lia) ltac:(lia)) as Hl.
  destruct (decide (n = 0)) as [->|]; [assert (a = 0) as -> by lia; assert (b = 0) as -> by lia; done|].
  assert (∀ x, 0 ≤ x < 2 ^ n → Z.log2 x < n) as Hlog.
  { intros x Hx. destruct (decide (x = 0)) as [->|]; [simpl; lia|]. apply Z.log2_lt_pow2; lia. }
  pose proof (Hlog a Ha). pose proof (Hlog b Hb). lia.
Qed.

Lemma crc_bit_alt c : crc_bit c = Z.lxor (Z.shiftr c 1) (if Z.odd c then 0xa6bc else 0).
Proof.
  unfold crc_bit. change 1 with (Z.ones 1) at 1. rewrite Z.land_ones by lia.
  change (2 ^ 1) with 2. rewrite Zmod_odd. destruct (Z.odd c); simpl; [done|by rewrite Z.lxor_0_r].
Qed.

Lemma lxor_swap a b c d : Z.lxor (Z.lxor a b) (Z.lxor c d) = Z.lxor (Z.lxor a c) (Z.lxor b d).
Proof.
  rewrite !Z.lxor_assoc. f_equal. rewrite <- !Z.lxor_assoc. f_equal. apply Z.lxor_comm.
Qed.

Lemma crc_bit_lxor a b : crc_bit (Z.lxor a b) = Z.lxor (crc_bit a) (crc_bit b).
Proof.
  rewrite !crc_bit_alt, Z.shiftr_lxor, lxor_swap. f_equal.
  rewrite <- !Z.bit0_odd, Z.lxor_spec. by destruct (Z.testbit a 0), (Z.testbit b 0).
Qed.

Lemma crc_bit_range c : 0 ≤ c < 2 ^ 16 → 0 ≤ crc_bit c < 2 ^ 16.
Proof.
  intros Hc. rewrite crc_bit_alt. apply lxor_bound; [lia| |destruct (Z.odd c); lia].
  rewrite Z.shiftr_div_pow2 by lia. change (2 ^ 1) with 2. dlia.
Qed.

Lemma crc_bit_zero c : 0 ≤ c < 2 ^ 16 → crc_bit c = 0 → c = 0.
Proof.
  intros Hc. rewrite crc_bit_alt. intros He%Z.lxor_eq.
  rewrite Z.shiftr_div_pow2 in He by lia. change (2 ^ 1) with 2 in He.
  destruct (Z.odd c) eqn:Ho; [dlia|]. pose proof (Zmod_odd c) as Hm. rewrite Ho in Hm. dlia.
Qed.

Lemma crc_iter_lxor n a b : Nat.iter n crc_bit (Z.lxor a b) = Z.lxor (Nat.iter n crc_bit a) (Nat.iter n crc_bit b).
Proof. induction n as [|n IH]; simpl; [done|]. by rewrite IH, crc_bit_lxor. Qed.

Lemma crc_iter_range n c : 0 ≤ c < 2 ^ 16 → 0 ≤ Nat.iter n crc_bit c < 2 ^ 16.
Proof. intros Hc. induction n as [|n IH]; simpl; [done|]. by apply crc_bit_range. Qed.

Lemma crc_iter_zero n c : 0 ≤ c < 2 ^ 16 → Nat.iter n crc_bit c = 0 → c = 0.
Proof.
  intros Hc. induction n as [|n IH]; simpl; [done|]. intros He.
  apply IH, crc_bit_zero; [by apply crc_iter_range|done].
Qed.

Lemma crc_iter_0 n : Nat.iter n crc_bit 0 = 0.
Proof. induction n as [|n IH]; simpl; [done|]. by rewrite IH. Qed.

Lemma crc_byte_range c b : 0 ≤ c < 2 ^ 16 → is_byte b → 0 ≤ crc_byte c b < 2 ^ 16.
Proof. intros Hc Hb. unfold crc_byte, is_byte in *. apply crc_iter_range, lxor_bound; lia. Qed.

Lemma crc_range l : ∀ c, 0 ≤ c < 2 ^ 16 → bytes_ok l → 0 ≤ fold_left crc_byte l c < 2 ^ 16.
Proof.
  induction l as [|b l IH]; intros c Hc Hl; simpl; [done|].
  apply Forall_cons in Hl as [Hb Hl]. apply IH; [by apply crc_byte_range|done].
Qed.

Lemma crc16_range l : bytes_ok l → 0 ≤ crc16_dnp l < 65536.
Proof.
  intros Hl. unfold crc16_dnp. change 65536 with (2 ^ 16). apply lxor_bound; [lia| |lia].
  apply crc_range; [lia|done].
Qed.

(** Equal sums of equal tails come from equal states. *)
Lemma crc_tail_inj l : ∀ c d,
  0 ≤ c < 2 ^ 16 → 0 ≤ d < 2 ^ 16 → bytes_ok l →
  fold_left crc_byte l c = fold_left crc_byte l d → c = d.
Proof.
  induction l as [|b l IH]; intros c d Hc Hd Hl; simpl; [done|].
  apply Forall_cons in Hl as [Hb Hl]. intros He.
  apply IH in He; [|by apply crc_byte_range..|done]. unfold crc_byte in He.
  apply Z.lxor_eq_0_iff in He. rewrite <- crc_iter_lxor, lxor_swap, Z.lxor_nilpotent, Z.lxor_0_r in He.
  apply crc_iter_zero in He; [by apply Z.lxor_eq|]. apply lxor_bound; lia.
Qed.

(** The state after an octet that differs leaves the low eight bits. *)
Lemma crc_octet_high d : 0 < d < 256 → 256 ≤ Nat.iter 8 crc_bit d.
Proof.
  intros Hd. assert (forallb (λ n, 256 <=? Nat.iter 8 crc_bit (Z.of_nat n)) (seq 1 255) = true) as H
    by (by vm_compute).
  rewrite forallb_forall in H. specialize (H (Z.to_nat d)). rewrite in_seq, Z2Nat.id in H by lia.
  apply Z.leb_le, H. lia.
Qed.

Lemma crc_byte_eq c d a b :
  0 ≤ c < 2 ^ 16 → 0 ≤ d < 2 ^ 16 → is_byte a → is_byte b →
  crc_byte c a = crc_byte d b → Z.lxor c d = Z.lxor a b.
Proof.
  intros Hc Hd Ha Hb E. unfold crc_byte, is_byte in *. apply Z.lxor_eq_0_iff in E.
  rewrite <- crc_iter_lxor, lxor_swap in E. apply crc_iter_zero in E; [by apply Z.lxor_eq|].
  apply lxor_bound; [lia|by apply lxor_bound|apply lxor_bound; lia].
Qed.

Lemma crc_byte_diff c a a' : Z.lxor (crc_byte c a) (crc_byte c a') = Nat.iter 8 crc_bit (Z.lxor a a').
Proof. unfold crc_byte. by rewrite <- crc_iter_lxor, lxor_swap, Z.lxor_nilpotent, Z.lxor_0_l. Qed.

Lemma crc_one c a a' : 0 ≤ c < 2 ^ 16 → is_byte a → is_byte a' → crc_byte c a = crc_byte c a' → a = a'.
Proof.
  intros Hc Ha Ha' He. apply crc_byte_eq in He; [|done..]. rewrite Z.lxor_nilpotent in He.
  symmetry in He. by apply Z.lxor_eq.
Qed.

Lemma crc_two c a a' b b' :
  0 ≤ c < 2 ^ 16 → is_byte a → is_byte a' → is_byte b → is_byte b' →
  crc_byte (crc_byte c a) b = crc_byte (crc_byte c a') b' → a = a' ∧ b = b'.
Proof.
  intros Hc Ha Ha' Hb Hb' He. apply crc_byte_eq in He; [|by apply crc_byte_range..|done|done].
  rewrite crc_byte_diff in He. unfold is_byte in *.
  pose proof (lxor_bound 8 a a' ltac:(lia) Ha Ha') as Hxa. pose proof (lxor_bound 8 b b' ltac:(lia) Hb Hb') as Hxb.
  destruct (decide (Z.lxor a a' = 0)) as [Hz|Hz].
  - rewrite Hz, crc_iter_0 in He. symmetry in He. apply Z.lxor_eq in He, Hz. done.
  - pose proof (crc_octet_high (Z.lxor a a') ltac:(lia)) as Hhi. rewrite He in Hhi. lia.
Qed.

Lemma fold_left_1 {A B} (f : A → B → A) x c : fold_left f [x] c = f c x.
Proof. done. Qed.
Lemma fold_left_2 {A B} (f : A → B → A) x y c : fold_left f [x; y] c = f (f c x) y.
Proof. done. Qed.

Lemma crc_window c w w' :
  0 ≤ c < 2 ^ 16 → bytes_ok w → bytes_ok w' → length w = length w' → (length w ≤ 2)%nat →
  fold_left crc_byte w c = fold_left crc_byte w' c → w = w'.
Proof.
  intros Hc Hw Hw' Hl H2.
  destruct w as [|a [|b [|? w]]]; [| | |cbn in H2; lia].
  - by destruct w'.
  - destruct w' as [|a' [|? w']]; [done| |done]. rewrite !fold_left_1. intros He. f_equal.
    apply (Forall_singleton is_byte) in Hw, Hw'. exact (crc_one c a a' Hc Hw Hw' He).
  - destruct w' as [|a' [|b' [|? w']]]; [done|done| |done]. rewrite !fold_left_2. intros He.
    inversion_clear Hw as [|? ? Ha Hr]. inversion_clear Hw' as [|? ? Ha' Hr'].
    apply (Forall_singleton is_byte) in Hr, Hr'.
    destruct (crc_two c a a' b b' Hc Ha Ha' Hr Hr' He) as [-> ->]. done.
Qed.

(** C40: the CRC detects bursts.  Two blocks of octets that differ only inside a
    window of at most two adjacent octets have different sums. *)
Theorem crc_detects_bursts (pre w w' post : list Z) :
  bytes_ok pre → bytes_ok w → bytes_ok w' → bytes_ok post →
  length w = length w' → (length w ≤ 2)%nat → w ≠ w' →
  crc16_dnp (pre ++ w ++ post) ≠ crc16_dnp (pre ++ w' ++ post).
Proof.
  intros Hpre Hw Hw' Hpost Hl H2 Hne He. apply Hne. unfold crc16_dnp in He.
  apply (f_equal (λ x, Z.lxor x 0xffff)) in He.
  rewrite !Z.lxor_assoc, !Z.lxor_nilpotent, !Z.lxor_0_r, !fold_left_app in He.
  assert (∀ l, bytes_ok l → 0 ≤ fold_left crc_byte l (fold_left crc_byte pre 0) < 2 ^ 16) as Hr.
  { intros l Hl'. apply crc_range; [apply crc_range; [lia|done]|done]. }
  apply crc_tail_inj in He; [|by apply Hr..|done].
  eapply crc_window; [apply (crc_range pre 0); [lia|done]|done..].
Qed.

(** ** Blocks *)

Definition crc_le (l : list Z) : list Z := to_le_bytes 2 (crc16_dnp l).

(** The reference encoding of user data: blocks of at most 16 octets, each
    followed by its CRC. *)
Fixpoint encode_blocks (fuel : nat) (v : list Z) : list Z :=
  match fuel, v with
  | S fuel, _ :: _ => take 16 v ++ crc_le (take 16 v) ++ encode_blocks fuel (drop 16 v)
  | _, _ => []
  end.

(** The elements at the positions of [n] data octets of a list of blocks. *)
Fixpoint strip {A} (fuel : nat) (l : list A) (n : Z) : list A :=
  match fuel with
  | O => []
  | S fuel =>
      if 0 <? n
      then let k := Z.min n 16 in sub l 0 k ++ strip fuel (drop (Z.to_nat (k + 2)) l) (n - k)
      else []
  end.

(** Every block has its CRC. *)
Fixpoint blocks_ok (fuel : nat) (l : list Z) (n : Z) : bool :=
  match fuel with
  | O => true
  | S fuel =>
      if 0 <? n
      then let k := Z.min n 16 in
           (crc16_dnp (sub l 0 k) =? from_le_bytes (sub l k (k + 2))) &&
           blocks_ok fuel (drop (Z.to_nat (k + 2)) l) (n - k)
      else true
  end.

Definition blocks_len (n : Z) : Z := n + 2 * div_ceil n 16.

Lemma blocks_len_step n : 0 < n → blocks_len n = Z.min n 16 + 2 + blocks_len (n - Z.min n 16).
Proof. intros Hn. unfold blocks_len, div_ceil. destruct (Z.min_spec n 16) as [[? ->]|[? ->]]; dlia. Qed.

Lemma blocks_len_nonneg n : 0 ≤ n → n ≤ blocks_len n.
Proof. intros Hn. unfold blocks_len, div_ceil. dlia. Qed.

Lemma crc_le_length l : length (crc_le l) = 2%nat.
Proof. apply length_to_le_bytes. Qed.

Lemma crc_le_eq l t : bytes_ok l → bytes_ok t → length t = 2%nat → crc16_dnp l = from_le_bytes t ↔ t = crc_le l.
Proof.
  intros Hl Ht H2. unfold crc_le. split.
  - intros ->. rewrite <- H2. symmetry. by apply to_from_le.
  - intros ->. rewrite from_to_le. symmetry. apply Z.mod_small. apply (crc16_range l Hl).
Qed.

Lemma take_16 {A} (v : list A) : take 16 v = sub v 0 (Z.min (zlen v) 16).
Proof.
  unfold sub, zlen. rewrite drop_0, Z.sub_0_r.
  destruct (decide (length v ≤ 16)%nat); [|f_equal; lia].
  rewrite take_ge by lia. rewrite take_ge by lia. done.
Qed.

Lemma zlen_drop_16 {A} (v : list A) : zlen (drop 16 v) = zlen v - Z.min (zlen v) 16.
Proof. unfold zlen. rewrite length_drop. lia. Qed.

(** One block of the encoding. *)
Lemma encode_block fuel v :
  v ≠ [] → let k := Z.min (zlen v) 16 in
  encode_blocks (S fuel) v = sub v 0 k ++ crc_le (sub v 0 k) ++ encode_blocks fuel (drop 16 v) ∧
  0 < k ∧ zlen (sub v 0 k) = k.
Proof.
  intros Hv k. assert (sub v 0 k = take 16 v) as Hs by (unfold k; by rewrite take_16).
  destruct v as [|x v]; [done|]. pose proof (zlen_nonneg v).
  assert (0 < k) by (unfold k; rewrite zlen_cons; lia). split_and!; [by rewrite Hs|done|].
  rewrite zlen_sub by (unfold k in *; lia). lia.
Qed.

Lemma encode_blocks_strip fuel : ∀ v rest,
  (length v ≤ fuel)%nat → bytes_ok v →
  strip fuel (encode_blocks fuel v ++ rest) (zlen v) = v ∧
  blocks_ok fuel (encode_blocks fuel v ++ rest) (zlen v) = true ∧
  zlen (encode_blocks fuel v) = blocks_len (zlen v).
Proof.
  induction fuel as [|fuel IH]; intros v rest Hl Hv.
  { by destruct v; simpl in Hl; [|lia]. }
  destruct (decide (v = [])) as [->|Hne]; [done|].
  destruct (encode_block fuel v Hne) as (He & Hk & Hz). rewrite He. cbn [strip blocks_ok].
  set (k := Z.min (zlen v) 16) in *. rewrite <- !app_assoc.
  assert (0 < zlen v) by lia. rewrite (proj2 (Z.ltb_lt _ _)) by done. cbv zeta. fold k.
  assert (zlen (crc_le (sub v 0 k)) = 2) as Hc by (unfold zlen; by rewrite crc_le_length).
  set (tl := encode_blocks fuel (drop 16 v)) in *.
  assert (sub (sub v 0 k ++ crc_le (sub v 0 k) ++ tl ++ rest) 0 k = sub v 0 k) as ->.
  { rewrite <- Hz at 3. apply sub_0_app. }
  assert (sub (sub v 0 k ++ crc_le (sub v 0 k) ++ tl ++ rest) k (k + 2) = crc_le (sub v 0 k)) as ->.
  { rewrite sub_app_r by lia. rewrite Hz, Z.sub_diag. replace (k + 2 - k) with (zlen (crc_le (sub v 0 k))) by lia.
    apply sub_0_app. }
  assert (drop (Z.to_nat (k + 2)) (sub v 0 k ++ crc_le (sub v 0 k) ++ tl ++ rest) = tl ++ rest) as ->.
  { rewrite app_assoc. apply drop_app_length'. rewrite length_app. unfold zlen in *. lia. }
  pose proof (zlen_drop_16 v) as Hd. fold k in Hd.
  destruct (IH (drop 16 v) rest) as (IH1 & IH2 & IH3).
  { rewrite length_drop. unfold zlen in *. lia. } { by apply Forall_drop. }
  fold tl in IH1, IH2, IH3. rewrite <- Hd, IH1, IH2. split_and!.
  - rewrite <- (take_drop 16 v) at 3. f_equal. symmetry. apply take_16.
  - rewrite andb_true_r. apply Z.eqb_eq, crc_le_eq; [by apply bytes_ok_sub|apply to_le_bytes_ok|apply crc_le_length|done].
  - rewrite !zlen_app, IH3, Hz, Hc, Hd, (blocks_len_step (zlen v)) by done. fold k. lia.
Qed.

Lemma strip_length {A} fuel : ∀ (l : list A) n,
  0 ≤ n → (Z.to_nat n ≤ fuel)%nat → blocks_len n ≤ zlen l → zlen (strip fuel l n) = n.
Proof.
  induction fuel as [|fuel IH]; intros l n Hn Hf Hl; cbn [strip]; [rewrite zlen_nil; lia|].
  destruct (Z.ltb_spec 0 n); [|rewrite zlen_nil; lia]. cbv zeta. set (k := Z.min n 16).
  pose proof (blocks_len_step n ltac:(done)) as Hs. fold k in Hs.
  pose proof (blocks_len_nonneg (n - k) ltac:(lia)).
  rewrite zlen_app, zlen_sub, IH by (unfold zlen in *; rewrite ?length_drop; lia). lia.
Qed.

Lemma strip_bytes fuel : ∀ l n, bytes_ok l → bytes_ok (strip fuel l n).
Proof.
  induction fuel as [|fuel IH]; intros l n Hl; cbn [strip]; [constructor|].
  destruct (0 <? n); [|constructor]. cbv zeta. apply Forall_app. split; [by apply bytes_ok_sub|].
  apply IH. by apply Forall_drop.
Qed.

Lemma strip_blocks_encode fuel : ∀ l n,
  bytes_ok l → 0 ≤ n → (Z.to_nat n ≤ fuel)%nat → blocks_len n ≤ zlen l →
  blocks_ok fuel l n = true → sub l 0 (blocks_len n) = encode_blocks fuel (strip fuel l n).
Proof.
  induction fuel as [|fuel IH]; intros l n Hb Hn Hf Hl Hok.
  { assert (n = 0) as -> by lia. apply sub_empty. }
  pose proof (strip_length (S fuel) l n Hn Hf Hl) as Hsl. cbn [strip blocks_ok] in *.
  destruct (Z.ltb_spec 0 n) as [Hpos|]; [|assert (n = 0) as -> by lia; apply sub_empty].
  cbv zeta in *. set (k := Z.min n 16) in *. set (l' := drop (Z.to_nat (k + 2)) l) in *.
  apply andb_true_iff in Hok as [Hc Hok]. apply Z.eqb_eq in Hc.
  pose proof (blocks_len_step n Hpos) as Hs. fold k in Hs. pose proof (blocks_len_nonneg (n - k) ltac:(lia)).
  assert (zlen l' = zlen l - (k + 2)) as Hl' by (unfold l', zlen in *; rewrite length_drop; lia).
  assert (zlen (sub l 0 k) = k) as Hk by (rewrite zlen_sub; lia).
  apply crc_le_eq in Hc; [|by apply bytes_ok_sub..|].
  2:{ pose proof (zlen_sub l k (k + 2) ltac:(lia) ltac:(lia) ltac:(lia)). unfold zlen in *. lia. }
  set (w := strip fuel l' (n - k)) in *.
  assert (zlen w = n - k) as Hw by (apply strip_length; lia).
  assert (take 16 (sub l 0 k ++ w) = sub l 0 k ∧ drop 16 (sub l 0 k ++ w) = w) as [Ht Hd].
  { destruct (decide (k = 16)) as [Hk16|Hk16].
    - split; [apply take_app_length'|apply drop_app_length']; unfold zlen in *; lia.
    - assert (w = []) as -> by (apply zlen_0_nil; lia). rewrite app_nil_r.
      split; [apply take_ge|apply drop_ge]; unfold zlen in *; lia. }
  destruct (encode_block fuel (sub l 0 k ++ w)) as (He & _ & _).
  { intros [E _]%app_eq_nil. rewrite E, zlen_nil in Hk. lia. }
  rewrite <- take_16, Ht, Hd in He. rewrite He, <- Hc.
  rewrite (sub_split l 0 k (blocks_len n)), (sub_split l k (k + 2) (blocks_len n)) by lia.
  f_equal. f_equal. unfold w. rewrite <- (IH l' (n - k)); [|by apply Forall_drop|lia..|done].
  unfold sub, l'. rewrite drop_drop, Hs. f_equal; [lia|]. f_equal. lia.
Qed.

(** ** [data_blocks] *)

Lemma wp_le16 l (Q : Z → Prop) (R : Error → Prop) :
  zlen l = 2 → Q (from_le_bytes l) → wp (le16 l) Q R.
Proof.
  intros Hl HQ. destruct l as [|x [|y [|]]]; rewrite ?zlen_cons, ?zlen_nil in Hl; try lia; [done|].
  pose proof (zlen_nonneg l). lia.
Qed.

Section blocks.
Context (bytes : EvidenceBytes) (offset : Z).
Context (Hb : ev_ok bytes) (Ho : 0 ≤ offset ≤ zlen (data bytes)).
Abbreviation input := (sub (data bytes) offset (zlen (data bytes))).
Abbreviation sources := (sub (origins bytes) offset (zlen (data bytes))).

Lemma data_blocks_spec fuel : ∀ user p n,
  ev_ok user → 0 ≤ p → 0 ≤ n → zlen (data user) + n ≤ 250 → p + blocks_len n ≤ zlen input →
  (Z.to_nat n < fuel)%nat →
  wp (data_blocks fuel bytes offset input user p n)
     (λ u, ev_ok u ∧ blocks_ok fuel (drop (Z.to_nat p) input) n = true ∧
           data u = data user ++ strip fuel (drop (Z.to_nat p) input) n ∧
           origins u = origins user ++ strip fuel (drop (Z.to_nat p) sources) n)
     (λ _, blocks_ok fuel (drop (Z.to_nat p) input) n = false).
Proof using Hb Ho.
  induction fuel as [|fuel IH]; intros user p n Hu Hp Hn H250 Hlen Hf; [lia|].
  cbn [data_blocks strip blocks_ok]. destruct (Z.ltb_spec 0 n) as [Hpos|]; cbn [negb].
  2:{ apply wp_ok. by rewrite !app_nil_r. }
  cbv zeta. set (k := Z.min n 16) in *.
  pose proof (blocks_len_step n Hpos) as Hs. fold k in Hs. pose proof (blocks_len_nonneg (n - k) ltac:(lia)).
  assert (zlen input = zlen (data bytes) - offset) as Hin by (apply zlen_sub; lia).
  assert (∀ A (l : list A) a b, 0 ≤ a → sub (drop (Z.to_nat p) l) a b = sub l (p + a) (p + b)) as Hds.
  { intros A l a b Ha. unfold sub. rewrite drop_drop. f_equal; [lia|f_equal; lia]. }
  assert (∀ A (l : list A), drop (Z.to_nat (k + 2)) (drop (Z.to_nat p) l) = drop (Z.to_nat (p + k + 2)) l) as Hdd.
  { intros A l. rewrite drop_drop. f_equal. lia. }
  rewrite !Hds, !Hdd, Z.add_0_r by lia. replace (p + (k + 2)) with (p + k + 2) by lia.
  apply wp_bind, wp_slice; [lia..|]. apply wp_bind, wp_slice; [lia..|].
  apply wp_bind, wp_le16; [rewrite zlen_sub; lia|].
  destruct (Z.eqb_spec (crc16_dnp (sub input p (p + k))) (from_le_bytes (sub input (p + k) (p + k + 2)))) as [Hc|Hc];
    cbn [negb andb]; [|done].
  pose proof Hb as [(_ & Hmax & _) _].
  apply wp_bind, wp_add_ovf; [lia|]. apply wp_bind, wp_add_ovf; [lia|].
  destruct (slice_ev_ok bytes (offset + p) (offset + p + k)) as (piece & -> & Hpk & Hd & Hor); [done|lia..|].
  assert (zlen (data piece) = k) as Hpz by (rewrite Hd, zlen_sub; lia).
  rewrite bind_Ok. destruct (append_ev_ok user piece 250) as (u & -> & Huk & Hud & Huo); [done|done|lia|].
  rewrite bind_Ok. eapply wp_mono; [apply IH; try done; rewrite ?Hud, ?zlen_app; lia| |done].
  intros u' (H1 & H2 & H3 & H4). split_and!; [done|done| |].
  - rewrite H3, Hud, Hd, <- app_assoc. f_equal. f_equal. rewrite sub_sub by lia. f_equal; lia.
  - rewrite H4, Huo, Hor, <- app_assoc. f_equal. f_equal. rewrite sub_sub by lia. f_equal; lia.
Qed.
End blocks.

(** ** [parse_link] *)

(** The reference encoding of a frame. *)
Definition link_header (control dst src n : Z) : list Z :=
  [0x05; 0x64; 5 + n; control] ++ to_le_bytes 2 dst ++ to_le_bytes 2 src.
Definition encode_link (control dst src : Z) (v : list Z) : list Z :=
  let h := link_header control dst src (zlen v) in h ++ crc_le h ++ encode_blocks (S (length v)) v.

Lemma zlen_link_header c d s n : zlen (link_header c d s n) = 8.
Proof. done. Qed.

(** What a list that starts with an encoding looks like. *)
Lemma encode_link_view c d s v rest :
  bytes_ok v → let input := encode_link c d s v ++ rest in
  10 + blocks_len (zlen v) ≤ zlen input ∧ sub input 0 2 = [0x05; 0x64] ∧ nthz input 2 = 5 + zlen v ∧
  sub input 8 10 = crc_le (sub input 0 8) ∧ blocks_ok (S (length v)) (drop 10 input) (zlen v) = true.
Proof.
  intros Hv input. unfold input, encode_link. set (h := link_header c d s (zlen v)).
  pose proof (crc_le_length h) as Hc. rewrite <- !app_assoc.
  destruct (encode_blocks_strip (S (length v)) v rest) as (_ & H2 & H3); [lia|done|].
  assert (zlen (crc_le h) = 2) as Hcz by (unfold zlen; lia). split_and!.
  - rewrite !zlen_app, H3, Hcz. unfold h. rewrite zlen_link_header. pose proof (zlen_nonneg rest). lia.
  - done.
  - done.
  - rewrite (sub_app_r h) by (unfold h; rewrite zlen_link_header; lia).
    assert (zlen h = 8) as Hh by done. rewrite Hh. change (8 - 8) with 0. change (10 - 8) with 2.
    rewrite <- Hcz at 1. rewrite sub_0_app. f_equal.
  - rewrite app_assoc, drop_app_length'; [done|]. rewrite length_app, Hc. done.
Qed.

(** A list whose header checks pass starts with an encoding. *)
Lemma encode_link_intro input :
  bytes_ok input → let n := nthz input 2 - 5 in
  10 ≤ zlen input → 0 ≤ n → 10 + blocks_len n ≤ zlen input → sub input 0 2 = [0x05; 0x64] →
  crc16_dnp (sub input 0 8) = from_le_bytes (sub input 8 10) →
  blocks_ok (S (Z.to_nat n)) (drop 10 input) n = true →
  sub input 0 (10 + blocks_len n) =
  encode_link (nthz input 3) (from_le_bytes (sub input 4 6)) (from_le_bytes (sub input 6 8))
    (strip (S (Z.to_nat n)) (drop 10 input) n).
Proof.
  intros Hb n H10 Hn Hlen Hmagic Hcrc Hblocks.
  assert (zlen (drop 10 input) = zlen input - 10) as Hd by (unfold zlen in *; rewrite length_drop; lia).
  pose proof (strip_length (S (Z.to_nat n)) (drop 10 input) n Hn ltac:(lia) ltac:(lia)) as Hsl.
  assert (∀ a b, 0 ≤ a → a ≤ b → b ≤ 10 → length (sub input a b) = Z.to_nat (b - a)) as Hsub.
  { intros a b Ha Hab Hb'. pose proof (zlen_sub input a b Ha Hab ltac:(lia)). unfold zlen in *. lia. }
  assert (sub input 0 8 = link_header (nthz input 3) (from_le_bytes (sub input 4 6))
                            (from_le_bytes (sub input 6 8)) n) as Hh.
  { rewrite (sub_split input 0 2 8), (sub_split input 2 3 8), (sub_split input 3 4 8), (sub_split input 4 6 8) by lia.
    pose proof (sub_one input 2 ltac:(lia)) as H2. pose proof (sub_one input 3 ltac:(lia)) as H3.
    change (2 + 1) with 3 in H2. change (3 + 1) with 4 in H3. rewrite H2, H3, Hmagic. unfold link_header.
    replace (5 + n) with (nthz input 2) by lia.
    pose proof (to_from_le (sub input 4 6) (bytes_ok_sub _ _ _ Hb)) as H4.
    pose proof (to_from_le (sub input 6 8) (bytes_ok_sub _ _ _ Hb)) as H6.
    rewrite Hsub in H4, H6 by lia. change (Z.to_nat (6 - 4)) with 2%nat in H4. change (Z.to_nat (8 - 6)) with 2%nat in H6.
    rewrite H4, H6. done. }
  unfold encode_link. rewrite Hsl. rewrite <- Hh.
  apply crc_le_eq in Hcrc; [|by apply bytes_ok_sub..|by rewrite Hsub by lia].
  pose proof (blocks_len_nonneg n Hn).
  rewrite (sub_split input 0 8), (sub_split input 8 10) by lia. rewrite Hcrc. f_equal. f_equal.
  replace (length (strip (S (Z.to_nat n)) (drop 10 input) n)) with (Z.to_nat n) by (unfold zlen in *; lia).
  rewrite <- (strip_blocks_encode _ (drop 10 input) n); [|by apply Forall_drop|lia..|done].
  unfold sub. rewrite drop_0. f_equal. lia.
Qed.

(** A parsed frame: the captured bytes are the encoding of its fields and user
    data, and both keep their sources. *)
Definition link_post (bytes : EvidenceBytes) (offset base : Z) (x : LinkFrame * Z) : Prop :=
  let '(f, total) := x in
  let v := data (user_data f) in
  offset + total ≤ zlen (data bytes) ∧ zlen v ≤ 250 ∧
  sub (data bytes) offset (offset + total) = encode_link (lf_control f) (lf_destination f) (lf_source f) v ∧
  ev_ok (user_data f) ∧
  origins (user_data f) =
    strip (S (length v)) (sub (origins bytes) (offset + 10) (zlen (data bytes))) (zlen v) ∧
  ev_ok (lf_raw f) ∧ data (lf_raw f) = sub (data bytes) offset (offset + total) ∧
  origins (lf_raw f) = sub (origins bytes) offset (offset + total) ∧
  lf_stream_offset f = base + offset ∧ is_byte (lf_control f) ∧
  0 ≤ lf_destination f < 65536 ∧ 0 ≤ lf_source f < 65536 ∧
  broadcast f = (65533 <=? lf_destination f) ∧ lf_link_control f = link_control (lf_control f).

(** No frame starts at the offset. *)
Definition no_frame (bytes : EvidenceBytes) (offset : Z) : Prop :=
  ∀ c d s v rest, bytes_ok v → zlen v ≤ 250 →
    sub (data bytes) offset (zlen (data bytes)) ≠ encode_link c d s v ++ rest.

Lemma from_le_16 l : bytes_ok l → zlen l = 2 → 0 ≤ from_le_bytes l < 65536.
Proof. intros Hl Hz. pose proof (from_le_bound l Hl) as H. by rewrite Hz in H. Qed.

Lemma drop_sub {A} (l : list A) a n : 0 ≤ a → 0 ≤ n →
  drop (Z.to_nat n) (sub l a (zlen l)) = sub l (a + n) (zlen l).
Proof.
  intros Ha Hn. unfold sub. rewrite skipn_firstn_comm, drop_drop. f_equal; [lia|]. f_equal. lia.
Qed.

Section parse.
Context (bytes : EvidenceBytes) (offset base : Z).
Context (Hb : ev_ok bytes) (Ho : 0 ≤ offset ≤ zlen (data bytes)) (Hbase : i64_min ≤ base + offset ≤ i64_max).
Abbreviation input := (sub (data bytes) offset (zlen (data bytes))).

(** To reject it is enough to contradict one of the marks of an encoding. *)
Lemma no_frame_intro :
  (∀ v, bytes_ok v → nthz input 2 = 5 + zlen v → 10 + blocks_len (nthz input 2 - 5) ≤ zlen input →
     sub input 0 2 = [0x05; 0x64] → sub input 8 10 = crc_le (sub input 0 8) →
     blocks_ok (S (Z.to_nat (nthz input 2 - 5))) (drop 10 input) (nthz input 2 - 5) = true → False) →
  no_frame bytes offset.
Proof.
  intros H c d s v rest Hv _ He. destruct (encode_link_view c d s v rest Hv) as (H1 & H2 & H3 & H4 & H5).
  rewrite <- He in H1, H2, H3, H4, H5. apply (H v Hv H3); rewrite ?H3; replace (5 + zlen v - 5) with (zlen v) by lia;
    try done. unfold zlen at 1. by rewrite Nat2Z.id.
Qed.

Lemma zlen_input : zlen input = zlen (data bytes) - offset.
Proof using Ho. apply zlen_sub; lia. Qed.

(** The frame that is built once every check has passed. *)
Lemma link_accept u :
  let n := nthz input 2 - 5 in
  0 ≤ n ≤ 250 → 10 + blocks_len n ≤ zlen input → sub input 0 2 = [0x05; 0x64] →
  crc16_dnp (sub input 0 8) = from_le_bytes (sub input 8 10) →
  ev_ok u → blocks_ok (S (Z.to_nat n)) (drop 10 input) n = true →
  data u = strip (S (Z.to_nat n)) (drop 10 input) n →
  origins u = strip (S (Z.to_nat n)) (drop 10 (sub (origins bytes) offset (zlen (data bytes)))) n →
  wp (control ← idx input 3;
      s ← slice input 6 8; src ← le16 s; d ← slice input 4 6; dst ← le16 d;
      stop ← add_ovf usize_max offset (10 + blocks_len n);
      whole ← Provenance.slice bytes offset stop;
      Ok ({| lf_stream_offset := base + offset; lf_control := control;
             lf_link_control := link_control control; lf_source := src; lf_destination := dst;
             broadcast := is_broadcast dst; user_data := u; lf_raw := whole |}, 10 + blocks_len n))
     (link_post bytes offset base) (λ _, no_frame bytes offset).
Proof using Hb Ho.
  intros n Hn Hlen Hmagic Hcrc Hu Hok Hud Huo. pose proof zlen_input as Hin.
  pose proof Hb as [(Hby & Hmax & _) _]. assert (bytes_ok input) as Hib by (by apply bytes_ok_sub).
  pose proof (blocks_len_nonneg n ltac:(lia)). assert (blocks_len n ≤ 300) by (unfold blocks_len, div_ceil in *; dlia).
  apply wp_bind, wp_idx; [lia|]. apply wp_bind, wp_slice; [lia..|].
  apply wp_bind, wp_le16; [rewrite zlen_sub; lia|]. apply wp_bind, wp_slice; [lia..|].
  apply wp_bind, wp_le16; [rewrite zlen_sub; lia|]. apply wp_bind, wp_add_ovf; [lia|].
  destruct (slice_ev_ok bytes offset (offset + (10 + blocks_len n))) as (w & -> & Hw & Hwd & Hwo); [done|lia..|].
  rewrite bind_Ok. apply wp_ok.
  pose proof (encode_link_intro input Hib ltac:(lia) ltac:(lia) Hlen Hmagic Hcrc Hok) as Henc.
  assert (zlen (drop 10 input) = zlen input - 10) as Hd by (unfold zlen in *; rewrite length_drop; lia).
  pose proof (strip_length (S (Z.to_nat n)) (drop 10 input) n ltac:(lia) ltac:(lia) ltac:(lia)) as Hz.
  fold n in Henc. rewrite <- Hud in Henc, Hz. assert (length (data u) = Z.to_nat n) as Hlu by (unfold zlen in Hz; lia).
  unfold link_post. cbn [user_data lf_control lf_destination lf_source lf_raw lf_stream_offset broadcast].
  rewrite Hz, Hlu. split_and!; try done; try lia.
  - rewrite sub_sub in Henc by lia. rewrite Z.add_0_r in Henc. exact Henc.
  - rewrite Huo. f_equal. rewrite <- (zlen_origins bytes Hb). apply (drop_sub _ offset 10); lia.
  - apply (nthz_byte input 3 Hib).
  - apply from_le_16; [by apply bytes_ok_sub|rewrite zlen_sub; lia].
  - apply from_le_16; [by apply bytes_ok_sub|rewrite zlen_sub; lia].
  - apply from_le_16; [by apply bytes_ok_sub|rewrite zlen_sub; lia].
  - apply from_le_16; [by apply bytes_ok_sub|rewrite zlen_sub; lia].
Qed.

Lemma parse_link_spec :
  wp (parse_link bytes offset base) (link_post bytes offset base) (λ _, no_frame bytes offset).
Proof using Hb Ho Hbase.
  pose proof Hb as [(Hby & Hmax & _) _]. unfold parse_link, checked_add_signed, get_range.
  rewrite (proj2 (Z.leb_le offset i64_max)) by lia. cbn [ok_or]. rewrite bind_Ok.
  rewrite (proj2 (Z.leb_le _ (base + offset))), (proj2 (Z.leb_le (base + offset) _)) by lia.
  cbn [andb ok_or]. rewrite bind_Ok.
  rewrite (proj2 (Z.leb_le 0 offset)), (proj2 (Z.leb_le offset _)), (proj2 (Z.leb_le (zlen (data bytes)) _)) by lia.
  cbn [andb ok_or]. rewrite bind_Ok. pose proof zlen_input as Hin.
  assert (bytes_ok input) as Hib by (by apply bytes_ok_sub).
  pose proof (nthz_byte input 2 Hib) as H2b. pose proof no_frame_intro as Hno.
  destruct (Z.ltb_spec (zlen input) 10) as [H10|H10].
  { apply wp_err, Hno. intros v Hv He Hl _ _ _. pose proof (zlen_nonneg v).
    pose proof (blocks_len_nonneg (nthz input 2 - 5)). lia. }
  apply wp_bind, wp_slice; [lia..|]. destruct (bytes_eqb _ _) eqn:Hmagic; cbn [negb]; bool_facts; [|by apply wp_err, Hno].
  apply wp_bind, wp_idx; [lia|]. destruct (Z.ltb_spec (nthz input 2) 5) as [H5|H5].
  { apply wp_err, Hno. intros v Hv He. pose proof (zlen_nonneg v). lia. }
  apply wp_bind, wp_slice; [lia..|]. apply wp_bind, wp_slice; [lia..|].
  apply wp_bind, wp_le16; [rewrite zlen_sub; lia|].
  destruct (Z.eqb_spec (crc16_dnp (sub input 0 8)) (from_le_bytes (sub input 8 10))) as [Hcrc|Hcrc]; cbn [negb].
  2:{ apply wp_err, Hno. intros v Hv _ _ _ H _. apply Hcrc, crc_le_eq; [by apply bytes_ok_sub..| |done].
      rewrite H. apply crc_le_length. }
  apply wp_bind, wp_sub_ovf; [lia|]. cbv zeta. set (n := nthz input 2 - 5) in *.
  replace (10 + n + 2 * div_ceil n 16) with (10 + blocks_len n) by (unfold blocks_len; lia).
  destruct (Z.ltb_spec (zlen input) (10 + blocks_len n)) as [Hsh|Hlen].
  { apply wp_err, Hno. intros v Hv _ Hl. lia. }
  assert (0 ≤ n ≤ 250) as Hn by lia. pose proof (blocks_len_nonneg n ltac:(lia)).
  apply wp_bind. eapply wp_mono; [apply (data_blocks_spec bytes offset Hb Ho);
    [apply evidence_default_ok|lia|lia|simpl; rewrite zlen_nil; lia|lia|lia]| |].
  - intros u (Hu & Hok & Hud & Huo). by apply link_accept.
  - intros e Hbad. apply Hno. intros v Hv _ _ _ _ Hok.
    assert (true = false) by (rewrite <- Hok; exact Hbad). done.
Qed.
End parse.

(** C30: a frame is accepted exactly when it is the encoding of what is reported.
    [parse_link] returns on every captured stream and offset; an accepted frame's
    bytes are the reference encoding (header CRC, blocks of 16 with their CRCs) of
    its control, addresses and user data, whose octets keep their sources; where
    it reports an error no encoding of any frame starts. *)
Theorem parse_link_exact (bytes : EvidenceBytes) (offset base : Z) :
  ev_ok bytes → 0 ≤ offset ≤ zlen (data bytes) → i64_min ≤ base + offset ≤ i64_max →
  wp (parse_link bytes offset base) (link_post bytes offset base) (λ _, no_frame bytes offset).
Proof. intros Hb Ho Hbase. by apply parse_link_spec. Qed.

(** ** Witnesses *)

Definition sample_link : list Z := encode_link 0xc4 1 1024 [0xc0; 0xc1; 0x01; 60; 2; 6].

Example sample_link_parses :
  (r ← parse_link (from_packet (7 :: sample_link) (sample_packet 1) 54) 1 0;
   Ok (lf_source r.1, lf_destination r.1, data (user_data r.1), r.2)) =
  Ok (1024, 1, [0xc0; 0xc1; 0x01; 60; 2; 6], 18).
Proof. by vm_compute. Qed.

Lemma sample_link_ok : ev_ok (from_packet (7 :: sample_link) (sample_packet 1) 54).
Proof.
  apply from_packet_ok; [|lia|by vm_compute]. apply Forall_cons. split; [unfold is_byte; lia|].
  assert (forallb (λ b, (0 <=? b) && (b <? 256)) sample_link = true) as H by (by vm_compute).
  rewrite forallb_forall in H. apply Forall_forall. intros b Hb%list_elem_of_In%H. unfold is_byte. lia.
Qed.

Lemma parse_link_witness :
  wp (parse_link (from_packet (7 :: sample_link) (sample_packet 1) 54) 1 0)
     (link_post (from_packet (7 :: sample_link) (sample_packet 1) 54) 1 0)
     (λ _, no_frame (from_packet (7 :: sample_link) (sample_packet 1) 54) 1).
Proof.
  apply (parse_link_exact (from_packet (7 :: sample_link) (sample_packet 1) 54) 1 0);
    [apply sample_link_ok|split; by vm_compute|lia].
Defined.

Lemma crc_detects_bursts_witness : crc16_dnp ([5; 100] ++ [1; 2] ++ [9]) ≠ crc16_dnp ([5; 100] ++ [1; 3] ++ [9]).
Proof.
  apply (crc_detects_bursts [5; 100] [1; 2] [1; 3] [9]); try done;
    repeat (constructor; [unfold is_byte; lia|]); constructor.
Defined.
