(* ===== verification/Modbus.v ===== *)
(** * Modbus/TCP (src/modbus.rs)

    MBAP framing of a reconstructed stream, validation of the shape of common
    function codes, and the consistency check of a request with a response. *)

From S2P Require Import Errors Provenance Wire Prelude Stream Dnp3Link.

Inductive Role : Type := Request | Response | RUnknown.
#[global] Instance Role_eq_dec : EqDecision Role.
Proof. solve_decision. Defined.

(** [Role::as_str]. *)
Definition role_str (r : Role) : string :=
  match r with
  | Request => "request"
  | Response => "response"
  | RUnknown => "unknown"
  end.

Record ModbusMessage : Type := {
  m_stream_offset : Z;
  transaction : Z;
  unit_id : Z;
  m_function : Z;
  m_role : Role;
  shape_valid : bool;
  semantics_supported : bool;
  boundary_verified : bool;
  m_raw : EvidenceBytes;
}.

Record ModbusResult : Type := {
  messages : list ModbusMessage;
  issues : list ProtocolIssue;
}.

(** [a && b] where [b] may abort. *)
Definition and_then (a : bool) (b : result bool) : result bool := if a then b else Ok false.

(** [be16(&b[i..i + 2])]. *)
Definition be16_at (b : list Z) (i : Z) : result Z := x ← slice b i (i + 2); be16 x.

(** [quantity]. *)
Definition quantity (pdu : list Z) (max : Z) : result bool :=
  if zlen pdu <? 5 then Ok false
  else
    start ← be16_at pdu 1;
    count ← be16_at pdu 3;
    if (1 <=? count) && (count <=? max)
    then n ← add_ovf u32_max start count; Ok (n <=? 65536)
    else Ok false.

(** [matches!(f, a..=b | ..)]. *)
Definition in_list (f : Z) (l : list Z) : bool := existsb (Z.eqb f) l.

(** [pdu_shape], the match on a normal function and a known role. *)
Definition function_shape (pdu : list Z) (f : Z) (role : Role) : result bool :=
  let n := zlen pdu in
  if in_list f [1; 2] then
    match role with
    | Request => and_then (n =? 5) (quantity pdu 2000)
    | Response =>
        and_then (3 <=? n)
          (b ← idx pdu 1; and_then (b <=? 250) (m ← sub_ovf n 2; Ok (b =? m)))
    | RUnknown => Ok true
    end
  else if in_list f [3; 4] then
    match role with
    | Request => and_then (n =? 5) (quantity pdu 125)
    | Response =>
        and_then (4 <=? n)
          (b ← idx pdu 1;
           and_then ((b <=? 250) && (b mod 2 =? 0)) (m ← sub_ovf n 2; Ok (b =? m)))
    | RUnknown => Ok true
    end
  else if f =? 5 then
    and_then (n =? 5) (v ← be16_at pdu 3; Ok (in_list v [0x0000; 0xff00]))
  else if f =? 6 then Ok (n =? 5)
  else if f =? 15 then
    match role with
    | Request =>
        and_then (7 <=? n)
          (q ← quantity pdu 1968;
           and_then q
             (b ← idx pdu 5; c ← be16_at pdu 3;
              and_then (b =? div_ceil c 8) (m ← sub_ovf n 6; Ok (b =? m))))
    | Response => and_then (n =? 5) (quantity pdu 1968)
    | RUnknown => Ok true
    end
  else if f =? 16 then
    match role with
    | Request =>
        and_then (8 <=? n)
          (q ← quantity pdu 123;
           and_then q
             (b ← idx pdu 5; c ← be16_at pdu 3;
              and_then (b =? 2 * c) (m ← sub_ovf n 6; Ok (b =? m))))
    | Response => and_then (n =? 5) (quantity pdu 123)
    | RUnknown => Ok true
    end
  else Ok true.

(** [pdu_shape] for the roles [Request] and [Response]. *)
Definition known_shape (pdu : list Z) (role : Role) : result bool :=
  match pdu with
  | [] => Ok false
  | f :: _ =>
      if Z.land f 0x7f =? 0 then Ok false
      else if negb (Z.land f 0x80 =? 0) then
        and_then (bool_decide (role = Response) && (zlen pdu =? 2))
          (e ← idx pdu 1; Ok (in_list e [1; 2; 3; 4; 5; 6; 8; 10; 11]))
      else function_shape pdu f role
  end.

(** [pdu_shape]; an unknown role is either of the known ones. *)
Definition pdu_shape (pdu : list Z) (role : Role) : result bool :=
  match role with
  | RUnknown =>
      match pdu with
      | [] => Ok false
      | f :: _ =>
          if Z.land f 0x7f =? 0 then Ok false
          else a ← known_shape pdu Request; if (a : bool) then Ok true else known_shape pdu Response
      end
  | _ => known_shape pdu role
  end.

(** [capacity]. *)
Definition capacity (out : ModbusResult) (additions : Z) (l : Limits) : result () :=
  used ← ok_or (n ← checked_add usize_max (zlen (messages out)) (zlen (issues out));
                checked_add usize_max n additions) (limit "modbus_messages");
  if max_protocol_messages l <? used then Err (limit "modbus_messages") else Ok ().

(** [add_issue]. *)
Definition add_issue (out : ModbusResult) (why : string) (b : EvidenceBytes) (at_ : Z) (l : Limits)
    : result ModbusResult :=
  capacity out 1 l ;;
  Ok {| messages := messages out;
        issues := issues out ++ [{| code := why; pi_packets := packets b; pi_stream_offset := at_ |}] |}.

(** [decode], a complete frame of [total] bytes at [p]. *)
Definition add_message (out : ModbusResult) (role : Role) (l : Limits) (b : EvidenceBytes) (verified : bool)
    (rest : list Z) (p at_ total : Z) : result ModbusResult :=
  pdu ← slice rest 7 total;
  valid ← pdu_shape pdu role;
  f ← idx rest 7;
  let supported := in_list (Z.land f 0x7f) [1; 2; 3; 4; 5; 6; 15; 16] &&
                   negb (bool_decide (role = RUnknown)) in
  capacity out (1 + Z.b2z (negb supported) + Z.b2z (negb valid)) l ;;
  raw ← Provenance.slice b p (p + total);
  out ← (if supported then Ok out else add_issue out "unsupported_modbus_function_or_role" raw at_ l);
  out ← (if valid then Ok out else add_issue out "invalid_modbus_pdu_shape" raw at_ l);
  tr ← be16_at rest 0;
  u ← idx rest 6;
  Ok {| messages := messages out ++
          [{| m_stream_offset := at_; transaction := tr; unit_id := u; m_function := f; m_role := role;
              shape_valid := valid; semantics_supported := supported; boundary_verified := verified;
              m_raw := raw |}];
        issues := issues out |}.

(** [decode], the bytes from [p] on that are not a frame. *)
Definition stop_at (out : ModbusResult) (why : string) (b : EvidenceBytes) (p at_ : Z) (l : Limits)
    : result ModbusResult :=
  tail ← Provenance.slice b p (len b); add_issue out why tail at_ l.

(** [decode], the frames of a chunk. *)
Fixpoint frames (fuel : nat) (out : ModbusResult) (role : Role) (l : Limits) (c : StreamChunk)
    (verified : bool) (p : Z) : result ModbusResult :=
  match fuel with
  | O => OutOfFuel
  | S fuel =>
      let b := c_bytes c in
      if negb (p <? len b) then Ok out
      else
        rest ← slice_from (data b) p;
        at_ ← signed_ovf i64_min i64_max (c_offset c + as_signed 64 p);
        if zlen rest <? 7 then stop_at out "truncated_modbus_mbap" b p at_ l
        else
          length ← be16_at rest 4;
          proto ← be16_at rest 2;
          if negb (proto =? 0) || negb ((2 <=? length) && (length <=? 254))
          then stop_at out "modbus_framing_lost" b p at_ l
          else
            let total := length + 6 in
            if max_application_bytes l <? total then Err (limit "modbus_adu_bytes")
            else if zlen rest <? total then stop_at out "truncated_modbus_adu" b p at_ l
            else
              out ← add_message out role l b verified rest p at_ total;
              frames fuel out role l c verified (p + total)
  end.

(** [decode], one chunk. *)
Definition decode_chunk (anchored : bool) (role : Role) (l : Limits) (out : ModbusResult) (c : StreamChunk)
    : result ModbusResult :=
  n ← ok_or (if len (c_bytes c) <=? i64_max then Some (len (c_bytes c)) else None) (limit "stream_offset");
  _ ← ok_or (checked_add_signed i64_min i64_max (c_offset c) n) (limit "stream_offset");
  if negb (Provenance.validate (c_bytes c))
  then Err (error_new Invariant 0 "provenance" "invalid Modbus source spans")
  else
    let verified := anchored && (c_offset c =? 0) in
    out ← (if verified then Ok out
           else add_issue out "modbus_start_boundary_unverified" (c_bytes c) (c_offset c) l);
    frames (S (List.length (data (c_bytes c)))) out role l c verified 0.

(** [decode]. *)
Definition decode (s : StreamResult) (role : Role) (l : Limits) : result ModbusResult :=
  Errors.validate l ;;
  foldM (decode_chunk (r_anchored s) role l) {| messages := []; issues := [] |} (chunks s).

(** ** [response_matches] *)

(** [response_matches], [metadata_agrees]. *)
Definition metadata_agrees (m : ModbusMessage) : result bool :=
  let raw := data (m_raw m) in
  and_then (8 <=? zlen raw)
    (p ← be16_at raw 2;
     and_then (p =? 0)
       (n ← be16_at raw 4;
        and_then (n + 6 =? zlen raw)
          (t ← be16_at raw 0;
           and_then (transaction m =? t)
             (u ← idx raw 6; and_then (unit_id m =? u) (f ← idx raw 7; Ok (m_function m =? f)))))).

(** [semantics::modbus::padding_is_zero]. *)
Definition padding_is_zero (q : Z) (b : list Z) : bool :=
  if (q =? 0) || negb (zlen b =? div_ceil q 8) then false
  else
    let used := q mod 8 in
    (used =? 0) ||
    match last b with
    | Some x => Z.land x (as_unsigned 8 (Z.shiftl 0xff used)) =? 0
    | None => false
    end.

(** [response_matches], the payloads of a normal response. *)
Definition payload_matches (f : Z) (req rsp : list Z) : result bool :=
  if in_list f [1; 2] then
    and_then ((zlen req =? 12) && (9 <=? zlen rsp))
      (b ← idx rsp 8; c ← be16_at req 10;
       and_then (b =? div_ceil c 8) (rest ← slice_from rsp 9; Ok (padding_is_zero c rest)))
  else if in_list f [3; 4] then
    and_then ((zlen req =? 12) && (9 <=? zlen rsp))
      (b ← idx rsp 8; c ← be16_at req 10; Ok (b =? 2 * c))
  else if in_list f [5; 6; 15; 16] then
    and_then ((12 <=? zlen req) && (zlen rsp =? 12))
      (x ← slice req 8 12; y ← slice rsp 8 12; Ok (bytes_eqb x y))
  else Ok false.

(** [response_matches]. *)
Definition response_matches (request response : ModbusMessage) : result bool :=
  if negb (in_list (m_function request) [1; 2; 3; 4; 5; 6; 15; 16]) ||
     negb (Provenance.validate (m_raw request)) || negb (Provenance.validate (m_raw response)) ||
     negb (bool_decide (m_role request = Request)) || negb (bool_decide (m_role response = Response)) ||
     negb (shape_valid request) || negb (shape_valid response) ||
     negb (semantics_supported request) || negb (semantics_supported response) ||
     negb (transaction request =? transaction response) ||
     negb (unit_id request =? unit_id response) ||
     negb (m_function request =? Z.land (m_function response) 0x7f)
  then Ok false
  else
    a ← metadata_agrees request;
    b ← (if (a : bool) then metadata_agrees response else Ok false);
    if negb (b : bool) then Ok false
    else
      let req := data (m_raw request) in
      let rsp := data (m_raw response) in
      if (zlen req <? 8) || (zlen rsp <? 8) then Ok false
      else
        x ← slice_from req 7;
        a ← pdu_shape x Request;
        b ← (if (a : bool) then y ← slice_from rsp 7; pdu_shape y Response else Ok false);
        if negb (b : bool) then Ok false
        else if negb (Z.land (m_function response) 0x80 =? 0) then Ok true
        else payload_matches (m_function request) req rsp.
