(* ===== verification/ModbusFacts.v ===== *)
(** * Correctness of Modbus decoding

    Decoding terminates on every reconstructed stream and cuts each chunk into
    consecutive complete frames with their sources, up to the first position where
    no frame starts, which is reported; a response accepted for a request answers
    it. *)

From S2P Require Import Errors Provenance Wire Prelude Stream StreamFacts Dnp3Link Modbus.

(** ** Reading words *)

Definition word (l : list Z) (i : Z) : Z := 256 * nthz l i + nthz l (i + 1).

Lemma be16_at_ok l i : 0 ≤ i → i + 2 ≤ zlen l → be16_at l i = Ok (word l i).
Proof.
  intros Hi Hl. unfold be16_at. rewrite slice_ok, bind_Ok by lia. unfold be16.
  rewrite !idx_ok by (rewrite ?zlen_sub; lia). rewrite !bind_Ok. f_equal.
  unfold word, from_be_bytes. simpl. rewrite !nthz_sub by lia. rewrite Z.add_0_r. lia.
Qed.

Lemma wp_be16_at l i (Q : Z → Prop) (R : Error → Prop) :
  0 ≤ i → i + 2 ≤ zlen l → Q (word l i) → wp (be16_at l i) Q R.
Proof. intros Hi Hl HQ. by rewrite be16_at_ok. Qed.

Lemma word_range l i : bytes_ok l → 0 ≤ word l i < 65536.
Proof. intros Hl. unfold word. pose proof (nthz_byte l i Hl). pose proof (nthz_byte l (i + 1) Hl). lia. Qed.

Lemma word_sub l a b i : 0 ≤ a → 0 ≤ i → i + 1 < b - a → word (sub l a b) i = word l (a + i).
Proof. intros. unfold word. rewrite !nthz_sub by lia. by rewrite Z.add_assoc. Qed.

(** One step through the validators. *)
Ltac mb_step :=
  lazymatch goal with
  | |- wp (and_then ?a _) _ _ => unfold and_then at 1
  | |- wp (be16_at _ _) _ _ => apply wp_be16_at; [lia|lia|]
  | |- wp (quantity _ _) _ _ => unfold quantity
  | |- wp (match ?r with Request => _ | Response => _ | RUnknown => _ end) _ _ => destruct r
  | |- _ => wp_step
  end.
Ltac mb_go := repeat mb_step.

(** ** Shapes *)

Section shape.
Context (pdu : list Z) (Hpdu : bytes_ok pdu).

Lemma word_pdu i : 0 ≤ word pdu i < 65536.
Proof using Hpdu. by apply word_range. Qed.

(** The validators return, and an accepted response has its byte count. *)
Lemma function_shape_spec f role :
  wp (function_shape pdu f role)
     (λ b, b = true → role = Response → in_list f [1; 2; 3; 4] = true → zlen pdu = 2 + nthz pdu 1)
     (λ _, False).
Proof using Hpdu.
  unfold function_shape. pose proof (word_pdu 1). pose proof (word_pdu 3).
  cbv zeta. mb_go; try done; intros; try done; try lia; simpl in *; bool_facts; try lia.
Qed.
End shape.

Lemma known_shape_spec pdu role :
  bytes_ok pdu →
  wp (known_shape pdu role)
     (λ b, b = true → role = Response →
        (Z.land (nthz pdu 0) 0x80 ≠ 0 → zlen pdu = 2) ∧
        (Z.land (nthz pdu 0) 0x80 = 0 → in_list (nthz pdu 0) [1; 2; 3; 4] = true → zlen pdu = 2 + nthz pdu 1))
     (λ _, False).
Proof.
  intros Hpdu. unfold known_shape. destruct pdu as [|f tl] eqn:Hp; [done|]. rewrite <- Hp in *.
  assert (nthz pdu 0 = f) as -> by (by rewrite Hp).
  destruct (Z.eqb_spec (Z.land f 0x7f) 0) as [|_]; [done|].
  destruct (Z.eqb_spec (Z.land f 0x80) 0) as [H0|H0]; cbn [negb].
  - eapply wp_mono; [by apply function_shape_spec| |done]. intros b Hb Ht Hr. split; [done|auto].
  - mb_go; [|done]. intros _ _. split; [lia|done].
Qed.

Lemma pdu_shape_total pdu role : bytes_ok pdu → ∃ b, pdu_shape pdu role = Ok b.
Proof.
  intros Hpdu.
  assert (wp (pdu_shape pdu role) (λ _, True) (λ _, False)) as H.
  { unfold pdu_shape. destruct role.
    - eapply wp_mono; [by apply known_shape_spec|done|done].
    - eapply wp_mono; [by apply known_shape_spec|done|done].
    - assert (∀ r, wp (known_shape pdu r) (λ _, True) (λ _, False)) as Hk
        by (intros r; eapply wp_mono; [by apply known_shape_spec|done|done]).
      destruct pdu as [|f tl] eqn:Hp; [done|]. destruct (_ =? 0); [done|].
      apply wp_bind. eapply wp_mono; [apply Hk| |done]. intros [] _; [done|apply Hk]. }
  destruct (pdu_shape pdu role); try done. by eexists.
Qed.

(** ** Framing *)

(** A complete frame starts here. *)
Definition complete_frame (l : list Z) : bool :=
  (7 <=? zlen l) && (word l 2 =? 0) && (2 <=? word l 4) && (word l 4 <=? 254) && (6 + word l 4 <=? zlen l).

Definition supported (f : Z) (role : Role) : bool :=
  in_list (Z.land f 0x7f) [1; 2; 3; 4; 5; 6; 15; 16] && negb (bool_decide (role = RUnknown)).

(** A message is the frame at [p] of a chunk, with its sources and the fields of
    its own bytes. *)
Definition message_at (c : StreamChunk) (verified : bool) (role : Role) (p : Z) (m : ModbusMessage) : Prop :=
  let b := c_bytes c in
  let raw := data (m_raw m) in
  let n := zlen raw in
  m_stream_offset m = c_offset c + p ∧ ev_ok (m_raw m) ∧
  raw = sub (data b) p (p + n) ∧ origins (m_raw m) = sub (origins b) p (p + n) ∧
  p + n ≤ zlen (data b) ∧ complete_frame raw = true ∧ n = 6 + word raw 4 ∧
  transaction m = word raw 0 ∧ unit_id m = nthz raw 6 ∧ m_function m = nthz raw 7 ∧
  m_role m = role ∧ boundary_verified m = verified ∧
  pdu_shape (sub raw 7 n) role = Ok (shape_valid m) ∧ semantics_supported m = supported (nthz raw 7) role.

(** Consecutive messages from [p] to [q]. *)
Fixpoint framed (c : StreamChunk) (verified : bool) (role : Role) (p : Z) (ms : list ModbusMessage) (q : Z) : Prop :=
  match ms with
  | [] => p = q
  | m :: ms => message_at c verified role p m ∧ framed c verified role (p + zlen (data (m_raw m))) ms q
  end.

Lemma framed_app c v role p ms q ms' q' :
  framed c v role p ms q → framed c v role q ms' q' → framed c v role p (ms ++ ms') q'.
Proof.
  revert p. induction ms as [|m ms IH]; intros p; simpl; [by intros ->|].
  intros [Hm H1] H2. split; [done|]. by apply IH.
Qed.

Definition issue_at (why : string) (at_ : Z) (iss : list ProtocolIssue) : Prop :=
  ∃ i, i ∈ iss ∧ code i = why ∧ pi_stream_offset i = at_.

(** Every message outside the supported subset or with a bad shape is reported. *)
Definition flagged (ms : list ModbusMessage) (iss : list ProtocolIssue) : Prop :=
  ∀ m, m ∈ ms →
    (shape_valid m = false → issue_at "invalid_modbus_pdu_shape" (m_stream_offset m) iss) ∧
    (semantics_supported m = false → issue_at "unsupported_modbus_function_or_role" (m_stream_offset m) iss).

Definition fits (l : Limits) (out : ModbusResult) : Prop :=
  zlen (messages out) + zlen (issues out) ≤ max_protocol_messages l.

Definition modbus_error (e : Error) : Prop := e = limit "modbus_messages" ∨ e = limit "modbus_adu_bytes".

Lemma issue_at_mono why at_ iss iss' : (∀ i, i ∈ iss → i ∈ iss') → issue_at why at_ iss → issue_at why at_ iss'.
Proof. intros H (i & Hi & Hc). exists i. auto. Qed.

Lemma capacity_spec out n l :
  limits_ok l → 0 ≤ n →
  wp (capacity out n l) (λ _, zlen (messages out) + zlen (issues out) + n ≤ max_protocol_messages l) modbus_error.
Proof.
  intros Hl Hn. unfold capacity. apply wp_bind, wp_ok_or; [|by left].
  intros used Hu. simpl in Hu. destruct (checked_add _ _ _) as [x|] eqn:Hx; [|done]. simpl in Hu.
  apply checked_add_Some in Hx as [-> _], Hu as [-> _].
  destruct (Z.ltb_spec (max_protocol_messages l) (zlen (messages out) + zlen (issues out) + n));
    [by left|by apply wp_ok].
Qed.

Lemma add_issue_spec out why b at_ l :
  limits_ok l →
  wp (add_issue out why b at_ l)
     (λ out', fits l out' ∧ messages out' = messages out ∧
        ∃ i, issues out' = issues out ++ [i] ∧ code i = why ∧ pi_stream_offset i = at_ ∧ pi_packets i = packets b)
     modbus_error.
Proof.
  intros Hl. unfold add_issue. apply wp_bind. eapply wp_mono; [apply capacity_spec; [done|lia]| |done].
  intros u Hc. cbv beta in Hc. apply wp_ok. split; [|split; [done|by eexists]]. unfold fits. simpl.
  rewrite zlen_app, zlen_cons, zlen_nil. lia.
Qed.

(** ** One frame *)

Section chunk.
Context (c : StreamChunk) (verified : bool) (role : Role) (l : Limits) (Hl : limits_ok l).
Abbreviation b := (c_bytes c).
Context (Hb : ev_ok b) (Hoff : i64_min ≤ c_offset c) (Hend : c_offset c + zlen (data b) ≤ i64_max).
Abbreviation rest p := (sub (data b) p (zlen (data b))).

(** The issues added for a frame. *)
Lemma frame_issue (cond : bool) out why raw at_ :
  fits l out →
  wp (if cond then Ok out else add_issue out why raw at_ l)
     (λ out', fits l out' ∧ messages out' = messages out ∧
        ∃ iss, issues out' = issues out ++ iss ∧ zlen iss = Z.b2z (negb cond) ∧
          (cond = false → issue_at why at_ iss)) modbus_error.
Proof using Hl.
  intros Hf. destruct cond.
  - apply wp_ok. split_and!; try done. exists []. by rewrite app_nil_r.
  - eapply wp_mono; [by apply add_issue_spec| |done]. intros out' (H1 & H2 & i & H3 & H4 & H5 & _).
    split_and!; try done. exists [i]. split_and!; [done|done|]. intros _. exists i.
    split; [by apply list_elem_of_singleton|done].
Qed.

Lemma add_message_spec out p :
  fits l out → 0 ≤ p ≤ zlen (data b) → complete_frame (rest p) = true →
  wp (add_message out role l b verified (rest p) p (c_offset c + p) (word (rest p) 4 + 6))
     (λ out', fits l out' ∧ ∃ m iss, messages out' = messages out ++ [m] ∧ issues out' = issues out ++ iss ∧
        message_at c verified role p m ∧ zlen (data (m_raw m)) = 6 + word (rest p) 4 ∧ flagged [m] iss)
     modbus_error.
Proof using Hl Hb.
  intros Hf Hp Hc. pose proof Hb as [(Hby & Hmax & _) _]. unfold complete_frame in Hc. bool_facts.
  set (r := rest p) in *. assert (zlen r = zlen (data b) - p) as Hr by (apply zlen_sub; lia).
  assert (bytes_ok r) as Hrb by (by apply bytes_ok_sub). set (n := word r 4 + 6) in *.
  unfold add_message. apply wp_bind, wp_slice; [lia..|].
  destruct (pdu_shape_total (sub r 7 n) role) as (valid & Hv); [by apply bytes_ok_sub|]. rewrite Hv, bind_Ok.
  apply wp_bind, wp_idx; [lia|]. cbv zeta. fold (supported (nthz r 7) role).
  set (sup := supported (nthz r 7) role).
  apply wp_bind. eapply wp_mono; [apply capacity_spec; [done|by destruct sup, valid]| |done]. intros u Hcap. cbv beta in Hcap.
  destruct (slice_ev_ok b p (p + n)) as (raw & -> & Hraw & Hd & Hor); [done|lia..|]. rewrite bind_Ok.
  apply wp_bind. eapply wp_mono; [by apply frame_issue| |done]. intros out1 (Hf1 & Hm1 & i1 & Hi1 & Hz1 & Ha1).
  apply wp_bind. eapply wp_mono; [by apply frame_issue| |done]. intros out2 (Hf2 & Hm2 & i2 & Hi2 & Hz2 & Ha2).
  apply wp_bind, wp_be16_at; [lia..|]. apply wp_bind, wp_idx; [lia|]. apply wp_ok.
  assert (zlen (data raw) = n) as Hn by (rewrite Hd, zlen_sub; lia).
  assert (raw_r : data raw = sub r 0 n) by (rewrite Hd; unfold r; rewrite sub_sub by lia; f_equal; lia).
  split.
  { unfold fits. simpl. rewrite zlen_app, zlen_cons, zlen_nil, Hm2, Hm1, Hi2, Hi1, !zlen_app, Hz1, Hz2. lia. }
  eexists _, (i1 ++ i2). cbn [messages issues]. rewrite Hm2, Hm1, Hi2, Hi1, app_assoc.
  split_and!; [done|done| |cbn; lia|].
  - unfold message_at. cbn [m_raw m_stream_offset transaction unit_id m_function m_role boundary_verified
      shape_valid semantics_supported]. rewrite Hn.
    assert (∀ i, 0 ≤ i < n → nthz (data raw) i = nthz r i) as Hnth by (intros; rewrite raw_r, nthz_sub by lia; done).
    assert (∀ i, 0 ≤ i < n - 1 → word (data raw) i = word r i) as Hw by (intros; unfold word; rewrite !Hnth by lia; done).
    rewrite !Hw, !Hnth by lia. split_and!; try done; try lia.
    + unfold complete_frame. rewrite Hn, !Hw by lia. lia.
    + rewrite raw_r, sub_sub by lia. rewrite !Z.add_0_l. done.
  - intros m ->%list_elem_of_singleton. cbn. split.
    + intros H'. eapply issue_at_mono; [|by apply Ha2]. intros i Hi'. apply elem_of_app. by right.
    + intros H'. eapply issue_at_mono; [|by apply Ha1]. intros i Hi'. apply elem_of_app. by left.
Qed.

(** What was decoded from [p] on: messages up to [q], where nothing is left or no
    frame starts and an issue says so. *)
Definition decoded_from (p : Z) (ms : list ModbusMessage) (iss : list ProtocolIssue) : Prop :=
  ∃ q, framed c verified role p ms q ∧ p ≤ q ≤ zlen (data b) ∧ flagged ms iss ∧
    (q < zlen (data b) → complete_frame (rest q) = false ∧
       ∃ why, issue_at why (c_offset c + q) iss).

Definition extended (p : Z) (out out' : ModbusResult) : Prop :=
  fits l out' ∧ ∃ ms iss, messages out' = messages out ++ ms ∧ issues out' = issues out ++ iss ∧
    decoded_from p ms iss.

Lemma stop_spec out why p :
  0 ≤ p < zlen (data b) → complete_frame (rest p) = false →
  wp (stop_at out why b p (c_offset c + p) l) (extended p out) modbus_error.
Proof using Hl Hb.
  intros Hp Hc. unfold stop_at. destruct (slice_ev_ok b p (zlen (data b))) as (tl & Htl & _); [done|lia..|].
  unfold len. rewrite Htl, bind_Ok. eapply wp_mono; [by apply add_issue_spec| |done].
  intros out' (Hf & Hm & i & Hi & Hw & Ha & _). split; [done|]. exists [], [i].
  rewrite app_nil_r. split_and!; [done|done|]. exists p. split_and!; [done|lia|lia| |].
  - by intros m ?%not_elem_of_nil.
  - intros _. split; [done|]. exists why, i. split; [by apply list_elem_of_singleton|done].
Qed.

Lemma extended_step p out out1 out2 m iss :
  messages out1 = messages out ++ [m] → issues out1 = issues out ++ iss →
  message_at c verified role p m → flagged [m] iss →
  extended (p + zlen (data (m_raw m))) out1 out2 → extended p out out2.
Proof.
  intros Hm Hi Hat Hfl (Hf & ms & iss' & Hms & His & q & Hq & Hr & Hfl' & Hend').
  split; [done|]. exists (m :: ms), (iss ++ iss'). rewrite Hms, His, Hm, Hi, <- !app_assoc. split_and!; [done|done|].
  pose proof (zlen_nonneg (data (m_raw m))).
  assert (∀ i, i ∈ iss → i ∈ iss ++ iss') by (intros i ?; apply elem_of_app; by left).
  assert (∀ i, i ∈ iss' → i ∈ iss ++ iss') by (intros i ?; apply elem_of_app; by right).
  exists q. split_and!; [done|lia|lia| |].
  - intros x [->|Hx]%elem_of_cons.
    + destruct (Hfl m) as [Ha1 Ha2]; [by apply list_elem_of_singleton|].
      split; intros H'; (eapply issue_at_mono; [|by (apply Ha1 || apply Ha2)]); done.
    + destruct (Hfl' x Hx) as [Ha1 Ha2]. split; intros H'; (eapply issue_at_mono; [|by (apply Ha1 || apply Ha2)]); done.
  - intros Hlt. destruct (Hend' Hlt) as [Ha1 (why & Ha2)]. split; [done|]. exists why. eapply issue_at_mono; [|done]. done.
Qed.

Lemma frames_spec fuel : ∀ out p,
  fits l out → 0 ≤ p ≤ zlen (data b) → (Z.to_nat (zlen (data b) - p) < fuel)%nat →
  wp (frames fuel out role l c verified p) (extended p out) modbus_error.
Proof using Hl Hb Hoff Hend.
  induction fuel as [|fuel IH]; intros out p Hf Hp Hfuel; [lia|]. cbn [frames]. cbv zeta. unfold len.
  destruct (Z.ltb_spec p (zlen (data b))) as [Hlt|Hge]; cbn [negb].
  2:{ apply wp_ok. split; [done|]. exists [], []. rewrite !app_nil_r. split_and!; [done|done|].
      exists p. split_and!; [done|lia|lia|by intros m ?%not_elem_of_nil|lia]. }
  unfold slice_from. apply wp_bind, wp_slice; [lia..|]. set (r := rest p) in *.
  assert (zlen r = zlen (data b) - p) as Hr by (apply zlen_sub; lia).
  pose proof Hb as [(Hby & Hmax & _) _]. assert (bytes_ok r) as Hrb by (by apply bytes_ok_sub).
  pose proof (word_range r 4 Hrb) as H4. pose proof (word_range r 2 Hrb) as H2.
  rewrite (as_signed_64 p) by lia. apply wp_bind, wp_signed_ovf; [lia|].
  pose proof (stop_spec out) as Hstop. fold r in Hstop.
  destruct (Z.ltb_spec (zlen r) 7); [apply Hstop; [lia|unfold r, complete_frame in *; lia]|].
  apply wp_bind, wp_be16_at; [lia..|]. apply wp_bind, wp_be16_at; [lia..|].
  destruct (negb (word r 2 =? 0) || negb ((2 <=? word r 4) && (word r 4 <=? 254))) eqn:Hbad.
  { apply Hstop; [lia|]. unfold complete_frame. fold r. lia. }
  destruct (Z.ltb_spec (max_application_bytes l) (word r 4 + 6)); [by right|].
  destruct (Z.ltb_spec (zlen r) (word r 4 + 6)); [apply Hstop; [lia|unfold complete_frame; fold r; lia]|].
  assert (complete_frame r = true) as Hcf by (unfold complete_frame; lia).
  apply wp_bind. eapply wp_mono; [by apply add_message_spec| |done].
  intros out1 (Hf1 & m & iss & Hm & Hi & Hat & Hlen & Hfl). fold r in Hlen.
  eapply wp_mono; [apply IH; [done|lia|lia]| |done]. intros out2 Hext.
  eapply extended_step; try done. by replace (p + zlen (data (m_raw m))) with (p + (word r 4 + 6)) by lia.
Qed.
End chunk.

(** ** [decode] *)

Definition chunk_typed (c : StreamChunk) : Prop := ev_ok (c_bytes c) ∧ i64_min ≤ c_offset c.

(** A chunk's messages and issues; a start that no SYN anchors is reported. *)
Definition chunk_decoded (anchored : bool) (role : Role) (c : StreamChunk)
    (part : list ModbusMessage * list ProtocolIssue) : Prop :=
  let verified := anchored && (c_offset c =? 0) in
  decoded_from c verified role 0 part.1 part.2 ∧
  (verified = false → issue_at "modbus_start_boundary_unverified" (c_offset c) part.2).

Lemma decoded_from_more c verified role p ms iss i :
  decoded_from c verified role p ms iss → decoded_from c verified role p ms (i :: iss).
Proof.
  intros (q & Hq & Hr & Hfl & Hend). assert (∀ x, x ∈ iss → x ∈ i :: iss) as Hin by (intros; by right).
  exists q. split_and!; [done|apply Hr|apply Hr| |].
  - intros m Hm. destruct (Hfl m Hm) as [H1 H2]. split; intros H; (eapply issue_at_mono; [|by (apply H1 || apply H2)]); done.
  - intros Hlt. destruct (Hend Hlt) as [Hc (why & Hw)]. split; [done|]. exists why. by eapply issue_at_mono; [|done].
Qed.

Lemma decode_chunk_spec anchored role l out c :
  limits_ok l → chunk_typed c → fits l out →
  wp (decode_chunk anchored role l out c)
     (λ out', fits l out' ∧ ∃ ms iss, messages out' = messages out ++ ms ∧ issues out' = issues out ++ iss ∧
        chunk_decoded anchored role c (ms, iss))
     (λ e, modbus_error e ∨ e = limit "stream_offset" ∧ i64_max < c_offset c + zlen (data (c_bytes c))).
Proof.
  intros Hl [Hb Hoff] Hf. pose proof Hb as [(_ & Hmax & _) Hval]. pose proof (zlen_nonneg (data (c_bytes c))).
  unfold decode_chunk, len. rewrite (proj2 (Z.leb_le _ _)) by done. cbn [ok_or]. rewrite bind_Ok.
  unfold checked_add_signed. rewrite (proj2 (Z.leb_le i64_min _)) by lia. cbn [andb].
  destruct (Z.leb_spec (c_offset c + zlen (data (c_bytes c))) i64_max) as [Hend|]; cbn [ok_or];
    [|by right]. rewrite bind_Ok, Hval. cbn [negb]. cbv zeta. set (v := anchored && (c_offset c =? 0)).
  apply wp_bind. eapply wp_mono; [by apply frame_issue| |by left]. intros out1 (Hf1 & Hm1 & i1 & Hi1 & Hz1 & Ha1).
  eapply wp_mono; [apply (frames_spec c v role l Hl Hb Hoff Hend); [done|lia|unfold zlen; lia]| |by left].
  intros out2 (Hf2 & ms & iss & Hm2 & Hi2 & Hdec). split; [done|]. exists ms, (i1 ++ iss).
  rewrite Hm2, Hi2, Hm1, Hi1, app_assoc. split; [done|]. split; [done|]. split; fold v.
  - simpl. destruct i1 as [|i [|? i1]]; [done|by apply decoded_from_more|].
    rewrite !zlen_cons in Hz1. pose proof (zlen_nonneg i1). destruct v; simpl in Hz1; lia.
  - intros Hv. eapply issue_at_mono; [|by apply Ha1]. intros i Hi. apply elem_of_app. by left.
Qed.

Lemma modbus_decode_spec s role l :
  limits_ok l → Forall chunk_typed (chunks s) →
  wp (decode s role l)
     (λ out, fits l out ∧ ∃ parts, Forall2 (chunk_decoded (r_anchored s) role) (chunks s) parts ∧
        messages out = concat (map fst parts) ∧ issues out = concat (map snd parts))
     (λ e, modbus_error e ∨ e = limit "stream_offset" ∧
        ∃ c, c ∈ chunks s ∧ i64_max < c_offset c + zlen (data (c_bytes c))).
Proof.
  intros Hl Hcs. unfold decode. rewrite limits_ok_validate, bind_Ok by done.
  apply (wp_foldM (λ pre out, fits l out ∧ ∃ parts, Forall2 (chunk_decoded (r_anchored s) role) pre parts ∧
        messages out = concat (map fst parts) ∧ issues out = concat (map snd parts))) with (done := []); [|..|done].
  - intros pre c post out Heq (Hf & parts & Hp & Hm & Hi). rewrite app_nil_l in Heq.
    rewrite Heq, Forall_app, Forall_cons in Hcs. destruct Hcs as (_ & Hc & _).
    eapply wp_mono; [by apply decode_chunk_spec| |].
    + intros out' (Hf' & ms & iss & Hm' & Hi' & Hd). split; [done|]. exists (parts ++ [(ms, iss)]).
      rewrite !map_app, !concat_app. simpl. rewrite !app_nil_r, Hm', Hi', Hm, Hi.
      split_and!; [|done|done]. apply Forall2_app; [done|]. by constructor.
    + intros e [He|[He Hx]]; [by left|right]. split; [done|]. exists c. split; [|done].
      rewrite Heq. apply elem_of_app. right. by left.
  - split; [|by exists []]. unfold fits. limits_facts Hl. change (0 + 0 ≤ max_protocol_messages l). lia.
Qed.


(** ** [response_matches] *)

(** Bit [i] of a list of octets, least significant bit of the first octet first. *)
Definition bit_at (l : list Z) (i : Z) : bool := Z.testbit (nthz l (i / 8)) (i mod 8).

Lemma land_mask_zero x used :
  0 ≤ x < 256 → 0 < used < 8 → Z.land x (as_unsigned 8 (Z.shiftl 0xff used)) = 0 →
  ∀ i, used ≤ i < 8 → Z.testbit x i = false.
Proof.
  intros Hx Hu Hz i Hi. pose proof (f_equal (λ z, Z.testbit z i) Hz) as Hb. cbv beta in Hb.
  rewrite Z.land_spec, Z.bits_0 in Hb. unfold as_unsigned in Hb.
  rewrite Z.mod_pow2_bits_low, Z.shiftl_spec in Hb by lia.
  change 255 with (Z.ones 8) in Hb. rewrite Z.ones_spec_low in Hb by lia. by rewrite andb_true_r in Hb.
Qed.

Lemma last_nthz (l : list Z) x : last l = Some x → nthz l (zlen l - 1) = x.
Proof.
  intros [k ->]%last_Some. rewrite zlen_app, zlen_cons, zlen_nil.
  rewrite nthz_app_r by lia. by replace (zlen k + (1 + 0) - 1 - zlen k) with 0 by lia.
Qed.

(** The unused bits are zero. *)
Lemma padding_is_zero_spec q l :
  bytes_ok l → 0 ≤ q → padding_is_zero q l = true →
  zlen l = div_ceil q 8 ∧ ∀ i, q ≤ i < 8 * zlen l → bit_at l i = false.
Proof.
  intros Hl Hq. unfold padding_is_zero. destruct (Z.eqb_spec q 0); [done|]. cbn [orb].
  destruct (Z.eqb_spec (zlen l) (div_ceil q 8)) as [Hz|]; [|done]. cbn [negb]. intros Hp. split; [done|].
  intros i Hi. unfold div_ceil in Hz. apply orb_true_iff in Hp as [Hu%Z.eqb_eq|Hp]; [dlia|].
  destruct (last l) as [x|] eqn:Hlast; [|done]. apply Z.eqb_eq in Hp. apply last_nthz in Hlast.
  destruct (decide (q mod 8 = 0)); [dlia|].
  unfold bit_at. replace (i / 8) with (zlen l - 1) by dlia. rewrite Hlast.
  apply (land_mask_zero x (q mod 8)); [subst x; by apply nthz_byte|dlia|done|dlia].
Qed.

(** The response's bytes answer the request's. *)
Definition answers (req rsp : list Z) : Prop :=
  8 ≤ zlen req ∧ 8 ≤ zlen rsp ∧ word rsp 0 = word req 0 ∧ nthz rsp 6 = nthz req 6 ∧
  Z.land (nthz rsp 7) 0x7f = nthz req 7 ∧ in_list (nthz req 7) [1; 2; 3; 4; 5; 6; 15; 16] = true ∧
  if Z.land (nthz rsp 7) 0x80 =? 0 then
    if in_list (nthz req 7) [1; 2] then
      (* one bit per coil asked for, the rest of the last octet zero *)
      nthz rsp 8 = div_ceil (word req 10) 8 ∧ zlen rsp = 9 + nthz rsp 8 ∧
      ∀ i, word req 10 ≤ i < 8 * nthz rsp 8 → bit_at (sub rsp 9 (zlen rsp)) i = false
    else if in_list (nthz req 7) [3; 4] then
      (* two octets per register asked for *)
      nthz rsp 8 = 2 * word req 10 ∧ zlen rsp = 9 + nthz rsp 8
    else
      (* a write is echoed *)
      sub rsp 8 12 = sub req 8 12
  else zlen rsp = 9.

Lemma metadata_spec m :
  wp (metadata_agrees m)
     (λ b, b = true → 8 ≤ zlen (data (m_raw m)) ∧ transaction m = word (data (m_raw m)) 0 ∧
        unit_id m = nthz (data (m_raw m)) 6 ∧ m_function m = nthz (data (m_raw m)) 7)
     (λ _, False).
Proof. unfold metadata_agrees. mb_go; try done. intros ?%Z.eqb_eq. split_and!; lia. Qed.

Lemma land_byte_split x : is_byte x → Z.land x 0x80 = 0 → Z.land x 0x7f = x.
Proof.
  intros Hx H0. assert (Z.land x 255 = x) as Hx' by (change 255 with (Z.ones 8); rewrite Z.land_ones by lia; apply Z.mod_small, Hx).
  rewrite <- Hx' at 2. change 255 with (Z.lor 0x80 0x7f). by rewrite Z.land_lor_distr_r, H0, Z.lor_0_l.
Qed.

Lemma in_list_1234 f : in_list f [1; 2; 3; 4] = in_list f [1; 2] || in_list f [3; 4].
Proof. unfold in_list. simpl. by destruct (f =? 1), (f =? 2). Qed.

Lemma payload_spec f req rsp :
  bytes_ok req → bytes_ok rsp → in_list f [1; 2; 3; 4; 5; 6; 15; 16] = true →
  (in_list f [1; 2; 3; 4] = true → zlen rsp = 9 + nthz rsp 8) →
  wp (payload_matches f req rsp)
     (λ b, b = true →
        if in_list f [1; 2] then
          nthz rsp 8 = div_ceil (word req 10) 8 ∧ zlen rsp = 9 + nthz rsp 8 ∧
          ∀ i, word req 10 ≤ i < 8 * nthz rsp 8 → bit_at (sub rsp 9 (zlen rsp)) i = false
        else if in_list f [3; 4] then nthz rsp 8 = 2 * word req 10 ∧ zlen rsp = 9 + nthz rsp 8
        else sub rsp 8 12 = sub req 8 12)
     (λ _, False).
Proof.
  intros Hq Hr Hf Hcount. unfold payload_matches. rewrite in_list_1234 in Hcount.
  destruct (in_list f [1; 2]) eqn:H12; [|destruct (in_list f [3; 4]) eqn:H34].
  - specialize (Hcount eq_refl). pose proof (word_range req 10 Hq). unfold slice_from. mb_go; try done.
    intros Hp. apply padding_is_zero_spec in Hp as [Hz Hb]; [|by apply bytes_ok_sub|lia].
    rewrite zlen_sub in Hz, Hb by lia. split_and!; [lia|done|]. intros i Hi. apply Hb. lia.
  - specialize (Hcount eq_refl). mb_go; try done. intros ?%Z.eqb_eq. split; [lia|done].
  - mb_go; try done. intros He. bool_facts. done.
Qed.

(** The shape of a response of at least eight octets. *)
Lemma response_shape rsp :
  bytes_ok rsp → 8 ≤ zlen rsp →
  wp (y ← slice_from rsp 7; pdu_shape y Response)
     (λ b, b = true →
        (Z.land (nthz rsp 7) 0x80 ≠ 0 → zlen rsp = 9) ∧
        (Z.land (nthz rsp 7) 0x80 = 0 → in_list (nthz rsp 7) [1; 2; 3; 4] = true → zlen rsp = 9 + nthz rsp 8))
     (λ _, False).
Proof.
  intros Hr H8. unfold slice_from. apply wp_bind, wp_slice; [lia..|].
  set (pdu := sub rsp 7 (zlen rsp)). assert (zlen pdu = zlen rsp - 7) as Hz by (apply zlen_sub; lia).
  assert (nthz pdu 0 = nthz rsp 7) as Hp0 by (unfold pdu; by rewrite nthz_sub by lia).
  eapply wp_mono; [apply (known_shape_spec pdu Response); by apply bytes_ok_sub| |done].
  intros b Hb Ht. destruct (Hb Ht eq_refl) as [Hexc Hnorm]. rewrite Hp0 in Hexc, Hnorm. split.
  - intros Hx%Hexc. lia.
  - intros H0 Hin. specialize (Hnorm H0 Hin). pose proof (nthz_byte pdu 1 (bytes_ok_sub _ _ _ Hr)).
    assert (nthz pdu 1 = nthz rsp 8) as <- by (unfold pdu; by rewrite nthz_sub by lia). lia.
Qed.

(** The checks after the header fields were found to agree. *)
Lemma bodies_spec f g req rsp :
  bytes_ok req → bytes_ok rsp → 8 ≤ zlen req → 8 ≤ zlen rsp → nthz req 7 = f → nthz rsp 7 = g →
  f = Z.land g 0x7f → in_list f [1; 2; 3; 4; 5; 6; 15; 16] = true →
  word rsp 0 = word req 0 → nthz rsp 6 = nthz req 6 →
  wp (x ← slice_from req 7;
      a ← pdu_shape x Request;
      b ← (if (a : bool) then y ← slice_from rsp 7; pdu_shape y Response else Ok false);
      if negb (b : bool) then Ok false
      else if negb (Z.land g 0x80 =? 0) then Ok true else payload_matches f req rsp)
     (λ b, b = true → answers req rsp) (λ _, False).
Proof.
  intros Hq Hr Hq8 Hr8 Hf Hg Hfg Hin Ht Hu. unfold slice_from at 1. apply wp_bind, wp_slice; [lia..|].
  destruct (pdu_shape_total (sub req 7 (zlen req)) Request) as (x & ->); [by apply bytes_ok_sub|].
  rewrite bind_Ok. destruct x; [|done]. apply wp_bind.
  eapply wp_mono; [by apply response_shape| |done]. intros [] Hb; [|done]. cbn [negb].
  destruct (Hb eq_refl) as [Hexc Hnorm]. rewrite Hg in Hexc, Hnorm.
  assert (is_byte g) as Hgb by (subst g; by apply nthz_byte).
  unfold answers. rewrite Hf, Hg. destruct (Z.eqb_spec (Z.land g 0x80) 0) as [H0|H0]; cbn [negb].
  - assert (f = g) as Hfg' by (by rewrite Hfg, land_byte_split). rewrite <- Hfg' in Hnorm, H0.
    eapply wp_mono; [exact (payload_spec f req rsp Hq Hr Hin (Hnorm H0))| |done].
    intros b Hpost Hb'. split_and!; try done. exact (Hpost Hb').
  - apply wp_ok. intros _. split_and!; try done. by apply Hexc.
Qed.

Lemma response_spec request response :
  bytes_ok (data (m_raw request)) → bytes_ok (data (m_raw response)) →
  wp (response_matches request response)
     (λ b, b = true → answers (data (m_raw request)) (data (m_raw response))) (λ _, False).
Proof.
  intros Hq Hr. unfold response_matches. match goal with |- wp (if ?c then _ else _) _ _ => destruct c eqn:Hc end; [done|].
  rewrite !orb_false_iff, !negb_false_iff, !Z.eqb_eq in Hc. destruct Hc as [[[Hc Ht] Hu] Hf].
  assert (in_list (m_function request) [1; 2; 3; 4; 5; 6; 15; 16] = true) as Hin by tauto. clear Hc.
  apply wp_bind. eapply wp_mono; [apply metadata_spec| |done]. intros [] Ha; [|done].
  destruct (Ha eq_refl) as (M1 & M2 & M3 & M4).
  apply wp_bind. eapply wp_mono; [apply metadata_spec| |done]. intros [] Hb; [|done]. cbn [negb].
  destruct (Hb eq_refl) as (N1 & N2 & N3 & N4).
  rewrite (proj2 (Z.ltb_ge (zlen (data (m_raw request))) 8)), (proj2 (Z.ltb_ge (zlen (data (m_raw response))) 8)) by lia.
  cbn [orb]. apply bodies_spec; try done; congruence.
Qed.

(** An accepted response answers its request.  For any two messages, whatever
    their public fields say, [response_matches] returns; when it accepts, the
    captured bytes have the same transaction and unit, the response's function is
    the request's, and either it is an exception of nine octets or its payload
    fits: as many coils or registers as asked for with zero padding bits, or an
    echo of the write. *)
Theorem response_matches_sound (request response : ModbusMessage) :
  bytes_ok (data (m_raw request)) → bytes_ok (data (m_raw response)) →
  ∃ b, response_matches request response = Ok b ∧
       (b = true → answers (data (m_raw request)) (data (m_raw response))).
Proof.
  intros Hq Hr. pose proof (response_spec request response Hq Hr) as H.
  destruct (response_matches request response) as [b| | |]; try done. by exists b.
Qed.

(** ** Witnesses *)

(** A request for ten coils, its response, a truncated frame. *)
Definition sample_request : list Z := [0; 1; 0; 0; 0; 6; 17; 1; 0; 19; 0; 10].
Definition sample_response : list Z := [0; 1; 0; 0; 0; 5; 17; 1; 2; 0xcd; 0x02].
Definition sample_chunk (l : list Z) : StreamChunk :=
  {| c_offset := 0; c_bytes := from_packet l (sample_packet 1) 54 |}.
Definition sample_stream (l : list Z) : StreamResult :=
  {| base_sequence := Some 1; r_anchored := true; chunks := [sample_chunk l]; gaps := []; conflicts := [];
     duplicate_observed_bytes := 0 |}.

Example sample_decode :
  (r ← decode (sample_stream (sample_request ++ [0; 2; 0])) Request limits_default;
   Ok (map (λ m, (m_stream_offset m, transaction m, m_function m, shape_valid m)) (messages r),
       map (λ i, (code i, pi_stream_offset i)) (issues r))) =
  Ok ([(0, 1, 1, true)], [("truncated_modbus_mbap", 12)]).
Proof. by vm_compute. Qed.

Lemma small_bytes_ok l : forallb (λ b, (0 <=? b) && (b <? 256)) l = true → bytes_ok l.
Proof. rewrite forallb_forall. intros H. apply Forall_forall. intros b Hb%list_elem_of_In%H. unfold is_byte. lia. Qed.


Definition message_of (l : list Z) (role : Role) : ModbusMessage :=
  match decode (sample_stream l) role limits_default with
  | Ok {| messages := m :: _ |} => m
  | _ => {| m_stream_offset := 0; transaction := 0; unit_id := 0; m_function := 0; m_role := role;
            shape_valid := false; semantics_supported := false; boundary_verified := false;
            m_raw := evidence_default |}
  end.

Example sample_pair :
  response_matches (message_of sample_request Request) (message_of sample_response Response) = Ok true.
Proof. by vm_compute. Qed.

Lemma response_matches_witness :
  ∃ b, response_matches (message_of sample_request Request) (message_of sample_response Response) = Ok b ∧
       (b = true → answers (data (m_raw (message_of sample_request Request)))
                           (data (m_raw (message_of sample_response Response)))).
Proof.
  apply (response_matches_sound (message_of sample_request Request) (message_of sample_response Response));
    apply small_bytes_ok; by vm_compute.
Defined.
