(* ===== verification/Protocol.v ===== *)
(** * Protocol probes and their use (src/protocol.rs, src/detection.rs, [Config] of src/engine.rs)

    Probes are an open interface: a name and a function on a contiguous prefix.
    The registry runs every probe and never picks a winner; [classify_flow] runs
    the built-in registry on every chunk of a flow and combines the content matches
    with the configured ports. *)

From S2P Require Import Capture Errors Provenance Wire Prelude Stream Tracker Dnp3Link Modbus.

Inductive ProbeTransport : Type := PTcp | PUdp.
#[global] Instance ProbeTransport_eq_dec : EqDecision ProbeTransport.
Proof. solve_decision. Defined.

Inductive ProbeStrength : Type := HeaderStructure | CompleteFrameChecksums.

Inductive ProbeResult : Type :=
| NoMatch
| NeedMore (minimum_total : Z)
| Match (protocol : string) (strength : ProbeStrength) (examined_bytes : Z) (why : string).

Record ProbeObservation : Type := {
  o_probe : string;
  o_result : ProbeResult;
}.

Record ProbeInput : Type := {
  transport : ProbeTransport;
  source_port : Z;
  destination_port : Z;
  prefix : list Z;
}.

(** The trait [ProtocolProbe]: an object with a name and a read-only function. *)
Record ProtocolProbe : Type := {
  name : string;
  probe : ProbeInput → result ProbeResult;
}.

Record ProbeRegistry : Type := {
  probes : list ProtocolProbe;
  max_probes : Z;
  max_prefix_bytes : Z;
}.

(** [ProbeRegistry::new]. *)
Definition registry_new (max_p max_b : Z) : result ProbeRegistry :=
  if (max_p =? 0) || (max_b =? 0)
  then Err (error_new Usage 0 "protocol_probe_limits" "limits must be positive")
  else Ok {| probes := []; max_probes := max_p; max_prefix_bytes := max_b |}.

(** [ProbeRegistry::register]. *)
Definition register (r : ProbeRegistry) (p : ProtocolProbe) : result ProbeRegistry :=
  if String.eqb (name p) "" || existsb (λ q, String.eqb (name q) (name p)) (probes r)
  then Err (error_new Usage 0 "protocol_probe" "probe names must be nonempty and unique")
  else if max_probes r <=? zlen (probes r) then Err (limit "protocol_probes")
  else Ok {| probes := probes r ++ [p]; max_probes := max_probes r; max_prefix_bytes := max_prefix_bytes r |}.

(** [inspect], the checks on one result. *)
Definition admissible (r : ProbeRegistry) (n : Z) (res : ProbeResult) : result () :=
  match res with
  | NoMatch => Ok ()
  | NeedMore total =>
      if total <=? n
      then Err (error_new Invariant 0 "protocol_probe" "NeedMore must require strictly more input")
      else if max_prefix_bytes r <? total then Err (limit "protocol_probe_prefix")
      else Ok ()
  | Match protocol _ examined _ =>
      if (examined =? 0) || (n <? examined) || String.eqb protocol ""
      then Err (error_new Invariant 0 "protocol_probe" "invalid successful probe extent or protocol name")
      else Ok ()
  end.

(** [ProbeRegistry::inspect]. *)
Definition inspect (r : ProbeRegistry) (i : ProbeInput) : result (list ProbeObservation) :=
  if max_prefix_bytes r <? zlen (prefix i) then Err (limit "protocol_probe_prefix")
  else
    foldM (λ out p,
      res ← probe p i;
      admissible r (zlen (prefix i)) res ;;
      Ok (out ++ [{| o_probe := name p; o_result := res |}])) [] (probes r).

(** ** The built-in probes *)

(** [Dnp3Probe::probe], the data blocks: are all the sums right? *)
Fixpoint probe_blocks (fuel : nat) (b : list Z) (at_ remaining : Z) : result bool :=
  match fuel with
  | O => OutOfFuel
  | S fuel =>
      if negb (0 <? remaining) then Ok true
      else
        let count := Z.min remaining 16 in
        block ← slice b at_ (at_ + count);
        x ← idx b (at_ + count);
        y ← idx b (at_ + count + 1);
        if negb (crc16_dnp block =? from_le_bytes [x; y]) then Ok false
        else probe_blocks fuel b (at_ + (count + 2)) (remaining - count)
  end.

(** [Dnp3Probe::probe]. *)
Definition dnp3_probe (i : ProbeInput) : result ProbeResult :=
  let b := prefix i in
  if zlen b =? 0 then Ok (NeedMore 2)
  else
  b0 ← idx b 0;
  if negb (b0 =? 0x05) then Ok NoMatch
  else if zlen b <? 2 then Ok (NeedMore 2)
  else
  b1 ← idx b 1;
  if negb (b1 =? 0x64) then Ok NoMatch
  else if zlen b <? 3 then Ok (NeedMore 3)
  else
  b2 ← idx b 2;
  if b2 <? 5 then Ok NoMatch
  else if zlen b <? 10 then Ok (NeedMore 10)
  else
  header ← slice b 0 8;
  x ← idx b 8;
  y ← idx b 9;
  if negb (crc16_dnp header =? from_le_bytes [x; y]) then Ok NoMatch
  else
  user_len ← sub_ovf b2 5;
  let total := 10 + user_len + 2 * div_ceil user_len 16 in
  if zlen b <? total then Ok (NeedMore total)
  else
  ok ← probe_blocks (S (Z.to_nat user_len)) b 10 user_len;
  if negb (ok : bool) then Ok NoMatch
  else Ok (Match "dnp3" CompleteFrameChecksums total "complete_link_frame_with_valid_header_and_data_crcs").

Definition Dnp3Probe : ProtocolProbe := {| name := "dnp3_link_crc"; probe := dnp3_probe |}.

(** [ModbusProbe::probe]. *)
Definition modbus_probe (i : ProbeInput) : result ProbeResult :=
  if negb (bool_decide (transport i = PTcp)) then Ok NoMatch
  else
  let b := prefix i in
  if zlen b <? 4 then Ok (NeedMore 4)
  else
  proto ← slice b 2 4;
  if negb (bytes_eqb proto [0; 0]) then Ok NoMatch
  else if zlen b <? 6 then Ok (NeedMore 6)
  else
  x ← idx b 4;
  y ← idx b 5;
  let length := from_be_bytes [x; y] in
  if negb ((2 <=? length) && (length <=? 254)) then Ok NoMatch
  else
  let total := 6 + length in
  if zlen b <? total then Ok (NeedMore total)
  else
  f ← idx b 7;
  if Z.land f 0x7f =? 0 then Ok NoMatch
  else Ok (Match "modbus" HeaderStructure total
             "plausible_complete_mbap_frame_not_a_unique_protocol_signature").

Definition ModbusProbe : ProtocolProbe := {| name := "modbus_tcp_mbap"; probe := modbus_probe |}.

(** [ProbeRegistry::builtins]. *)
Definition builtins : result ProbeRegistry :=
  r ← registry_new 16 4096; r ← register r Dnp3Probe; register r ModbusProbe.

(** ** [Config] *)

Record Config : Type := {
  limits : Limits;
  parse_mode : ParseMode;
  overlap_policy : OverlapPolicy;
  checksum_policy : ChecksumPolicy;
  idle_timeout_ns : Z;
  dnp3_ports : list Z;
  modbus_ports : list Z;
}.

(** [Config::default]. *)
Definition config_default : Config :=
  {| limits := limits_default; parse_mode := Strict; overlap_policy := RejectConflict;
     checksum_policy := Observe; idle_timeout_ns := 120000000000; dnp3_ports := [20000];
     modbus_ports := [502] |}.

(** [Vec<u16>::contains]. *)
Definition contains (l : list Z) (p : Z) : bool := existsb (Z.eqb p) l.

(** [Config::validate]. *)
Definition config_validate (c : Config) : result () :=
  Errors.validate (limits c) ;;
  if idle_timeout_ns c <=? 0 then Err (error_new Usage 0 "idle_timeout" "must be positive")
  else if existsb (contains (modbus_ports c)) (dnp3_ports c)
  then Err (error_new Usage 0 "protocol_ports" "a port cannot select two dissectors")
  else
    n ← add_ovf usize_max (zlen (dnp3_ports c)) (zlen (modbus_ports c));
    if 128 <? n then Err (limit "protocol_ports") else Ok ().

(** ** [classify_flow] *)

Record Selection : Type := {
  sel_dnp3 : bool;
  sel_modbus : bool;
  basis : string;
  matched : list string;
}.

(** [classify_flow], one observation. *)
Definition note_match (content : bool * bool) (o : ProbeObservation) : bool * bool :=
  match o_result o with
  | Match protocol _ _ _ =>
      if String.eqb protocol "dnp3" then (true, content.2)
      else if String.eqb protocol "modbus" then (content.1, true)
      else content
  | _ => content
  end.

(** [classify_flow], one chunk. *)
Definition probe_chunk (r : ProbeRegistry) (sport dport : Z) (content : bool * bool) (c : StreamChunk)
    : result (bool * bool) :=
  if is_empty (c_bytes c) then Ok content
  else
    pre ← slice (data (c_bytes c)) 0 (Z.min (len (c_bytes c)) 4096);
    obs ← inspect r {| transport := PTcp; source_port := sport; destination_port := dport; prefix := pre |};
    Ok (fold_left note_match obs content).

(** [classify_flow], one direction. *)
Definition probe_stream (r : ProbeRegistry) (sport dport : Z) (content : bool * bool) (s : option StreamResult)
    : result (bool * bool) :=
  match s with
  | Some st => foldM (probe_chunk r sport dport) content (chunks st)
  | None => Ok content
  end.

(** [classify_flow]. *)
Definition classify_flow (f : FlowResult) (c : Config) : result Selection :=
  r ← builtins;
  let a := port (fk_a (fr_key f)) in
  let b := port (fk_b (fr_key f)) in
  content ← probe_stream r a b (false, false) (streams f).1;
  content ← probe_stream r b a content (streams f).2;
  let '(content_dnp3, content_modbus) := content in
  let hint_dnp3 := contains (dnp3_ports c) a || contains (dnp3_ports c) b in
  let hint_modbus := contains (modbus_ports c) a || contains (modbus_ports c) b in
  let dnp3 := content_dnp3 || hint_dnp3 in
  let modbus := content_modbus || hint_modbus in
  Ok {| sel_dnp3 := dnp3; sel_modbus := modbus;
        basis :=
          if content_dnp3 || content_modbus then
            if (content_dnp3 && hint_modbus) || (content_modbus && hint_dnp3)
            then "content_and_configured_port_hint" else "content"
          else if dnp3 || modbus then "configured_port_hint_unconfirmed_by_probe"
          else "none";
        matched := (if dnp3 then ["dnp3"] else []) ++ (if modbus then ["modbus"] else []) |}.
