(* ===== verification/ProtocolFacts.v ===== *)
(** * Correctness of protocol recognition

    Probes are used through an interface with laws; the built-in probes discharge
    it and are exact for the reference encodings; the registry reports every probe
    in order; a flow is classified by what its chunks start with and by the
    configured ports, and by nothing else. *)

From S2P Require Import Capture Errors Provenance Wire Prelude Stream Tracker.
From S2P Require Import Dnp3Link Dnp3LinkFacts Modbus ModbusFacts Protocol.

(** ** The interface *)

(** What a result may claim of a prefix of [n] bytes. *)
Definition result_ok (max n : Z) (r : ProbeResult) : Prop :=
  match r with
  | NoMatch => True
  | NeedMore total => n < total ≤ max
  | Match protocol _ examined _ => 0 < examined ≤ n ∧ protocol ≠ ""%string
  end.

(** A probe that the registry can run: it returns on every prefix, and its claims
    are about the prefix. *)
Class LawfulProbe (max : Z) (p : ProtocolProbe) : Prop := {
  probe_returns i : bytes_ok (prefix i) →
    ∃ r, probe p i = Ok r ∧ result_ok max (zlen (prefix i)) r;
}.

Lemma admissible_ok r n res : result_ok (max_prefix_bytes r) n res → admissible r n res = Ok ().
Proof.
  destruct res as [|total|protocol st examined why]; simpl; [done| |].
  - intros H. by rewrite (proj2 (Z.leb_gt _ _)), (proj2 (Z.ltb_ge _ _)) by lia.
  - intros [H1 H2]. rewrite (proj2 (Z.eqb_neq _ _)), (proj2 (Z.ltb_ge _ _)) by lia.
    by rewrite (proj2 (String.eqb_neq _ _)).
Qed.

(** The observation of a probe. *)
Definition observes (i : ProbeInput) (p : ProtocolProbe) (o : ProbeObservation) : Prop :=
  o_probe o = name p ∧ probe p i = Ok (o_result o).

Lemma inspect_spec r i :
  Forall (LawfulProbe (max_prefix_bytes r)) (probes r) → bytes_ok (prefix i) →
  zlen (prefix i) ≤ max_prefix_bytes r →
  ∃ obs, inspect r i = Ok obs ∧ Forall2 (observes i) (probes r) obs.
Proof.
  intros Hlaw Hb Hlen. unfold inspect. rewrite (proj2 (Z.ltb_ge _ _)) by done.
  match goal with |- ∃ obs, foldM ?f [] _ = _ ∧ _ => set (step := f) end.
  assert (wp (foldM step [] (probes r)) (λ obs, Forall2 (observes i) (probes r) obs) (λ _, False)) as H.
  { apply (wp_foldM (λ pre out, Forall2 (observes i) pre out)) with (done := []); [|constructor|done].
    intros pre p post out Heq Hpre. rewrite app_nil_l in Heq. rewrite Heq, Forall_app, Forall_cons in Hlaw.
    destruct Hlaw as (_ & Hp & _). destruct (probe_returns i Hb) as (res & Hres & Hok).
    unfold step. rewrite Hres, bind_Ok, admissible_ok, bind_Ok by done.
    apply wp_ok, Forall2_app; [done|]. by constructor. }
  destruct (foldM step [] (probes r)) as [obs| | |]; try done. by exists obs.
Qed.

(** ** The DNP3 probe *)

Lemma sub_two l i : 0 ≤ i → i + 2 ≤ zlen l → sub l i (i + 2) = [nthz l i; nthz l (i + 1)].
Proof.
  intros Hi Hl. rewrite (sub_split l i (i + 1)), sub_one by lia.
  replace (i + 2) with (i + 1 + 1) by lia. by rewrite sub_one by lia.
Qed.

Lemma probe_blocks_spec fuel : ∀ b p n,
  0 ≤ p → 0 ≤ n → p + blocks_len n ≤ zlen b → (Z.to_nat n < fuel)%nat →
  probe_blocks fuel b p n = Ok (blocks_ok fuel (drop (Z.to_nat p) b) n).
Proof.
  induction fuel as [|fuel IH]; intros b p n Hp Hn Hlen Hf; [lia|]. cbn [probe_blocks blocks_ok].
  destruct (Z.ltb_spec 0 n) as [Hpos|]; cbn [negb]; [|done]. cbv zeta. set (k := Z.min n 16) in *.
  pose proof (blocks_len_step n Hpos) as Hs. fold k in Hs. pose proof (blocks_len_nonneg (n - k) ltac:(lia)).
  assert (∀ x y, 0 ≤ x → sub (drop (Z.to_nat p) b) x y = sub b (p + x) (p + y)) as Hds.
  { intros x y Hx. unfold sub. rewrite drop_drop. f_equal; [lia|f_equal; lia]. }
  rewrite slice_ok, !bind_Ok, !idx_ok, !bind_Ok by lia.
  rewrite !Hds, Z.add_0_r, Z.add_assoc, sub_two by lia.
  destruct (_ =? _); cbn [negb andb]; [|done]. rewrite IH by lia. rewrite drop_drop. do 3 f_equal. lia.
Qed.

(** The prefix can be completed to a stream that starts with this frame. *)
Definition completes (b : list Z) (c d s : Z) (v : list Z) : Prop :=
  bytes_ok v ∧ zlen v ≤ 250 ∧ ∃ rest tl, b ++ rest = encode_link c d s v ++ tl.

Definition starts_frame (b : list Z) (n : Z) : Prop :=
  ∃ c d s v, bytes_ok v ∧ zlen v ≤ 250 ∧ n = zlen (encode_link c d s v) ∧ sub b 0 n = encode_link c d s v ∧
             n ≤ zlen b.

(** Exactness: a match is a complete frame, no match refutes every continuation,
    and every continuation that is a frame has the length asked for. *)
Definition dnp3_exact (b : list Z) (r : ProbeResult) : Prop :=
  match r with
  | NoMatch => ∀ c d s v, ¬ completes b c d s v
  | NeedMore n => zlen b < n ≤ 292 ∧ ∀ c d s v, completes b c d s v → n ≤ zlen (encode_link c d s v)
  | Match protocol _ n _ => protocol = "dnp3" ∧ starts_frame b n
  end.

Lemma zlen_encode_link c d s v : bytes_ok v → zlen (encode_link c d s v) = 10 + blocks_len (zlen v).
Proof.
  intros Hv. unfold encode_link. cbv zeta. rewrite !zlen_app, zlen_link_header.
  destruct (encode_blocks_strip (S (length v)) v []) as (_ & _ & ->); [lia|done|].
  unfold zlen at 1. rewrite crc_le_length. lia.
Qed.

(** The marks of a frame on a prefix of it. *)
Lemma completes_marks b c d s v :
  completes b c d s v →
  (1 ≤ zlen b → nthz b 0 = 0x05) ∧ (2 ≤ zlen b → nthz b 1 = 0x64) ∧ (3 ≤ zlen b → nthz b 2 = 5 + zlen v) ∧
  (10 ≤ zlen b → sub b 8 10 = crc_le (sub b 0 8)) ∧
  (10 + blocks_len (zlen v) ≤ zlen b → blocks_ok (S (length v)) (drop 10 b) (zlen v) = true).
Proof.
  intros (Hv & H250 & rest & tl & He). destruct (encode_link_view c d s v tl Hv) as (H1 & H2 & H3 & H4 & H5).
  assert (∀ i, 0 ≤ i < zlen b → nthz b i = nthz (encode_link c d s v ++ tl) i) as Hn
    by (intros i Hi; rewrite <- He; symmetry; by apply nthz_app_l).
  assert (∀ i j, 0 ≤ i → j ≤ zlen b → sub b i j = sub (encode_link c d s v ++ tl) i j) as Hsub
    by (intros i j Hi Hj; rewrite <- He; symmetry; by apply sub_app_l).
  split_and!; intros Hl.
  - by rewrite Hn by lia.
  - by rewrite Hn by lia.
  - rewrite Hn by lia. exact H3.
  - rewrite !Hsub by lia. exact H4.
  - pose proof (zlen_encode_link c d s v Hv) as Hz.
    assert (b = encode_link c d s v ++ drop (length (encode_link c d s v)) b) as ->.
    { rewrite <- (take_drop (length (encode_link c d s v)) b) at 1. f_equal.
      rewrite <- (take_app_le b rest) by (unfold zlen in *; lia). by rewrite He, take_app_length. }
    apply encode_link_view; done.
Qed.

Lemma blocks_len_250 n : 0 ≤ n ≤ 250 → n ≤ blocks_len n ≤ 282.
Proof. intros Hn. unfold blocks_len, div_ceil. dlia. Qed.

(** A prefix that passes every check starts with a frame. *)
Lemma starts_frame_intro b :
  bytes_ok b → let n := nthz b 2 - 5 in
  0 ≤ n ≤ 250 → 10 + blocks_len n ≤ zlen b → nthz b 0 = 0x05 → nthz b 1 = 0x64 →
  crc16_dnp (sub b 0 8) = from_le_bytes (sub b 8 10) →
  blocks_ok (S (Z.to_nat n)) (drop 10 b) n = true → starts_frame b (10 + blocks_len n).
Proof.
  intros Hb n Hn Hlen H0 H1 Hcrc Hok. pose proof (blocks_len_250 n Hn).
  assert (sub b 0 2 = [0x05; 0x64]) as Hm by (pose proof (sub_two b 0 ltac:(lia) ltac:(lia)) as E; change (0 + 2) with 2 in E; change (0 + 1) with 1 in E; by rewrite E, H0, H1).
  pose proof (encode_link_intro b Hb ltac:(lia) ltac:(lia) Hlen Hm Hcrc Hok) as Henc. fold n in Henc.
  assert (zlen (drop 10 b) = zlen b - 10) as Hd by (unfold zlen in *; rewrite length_drop; lia).
  pose proof (strip_length (S (Z.to_nat n)) (drop 10 b) n ltac:(lia) ltac:(lia) ltac:(lia)) as Hz.
  exists (nthz b 3), (from_le_bytes (sub b 4 6)), (from_le_bytes (sub b 6 8)), (strip (S (Z.to_nat n)) (drop 10 b) n).
  split_and!; [|lia| |done|done].
  - apply strip_bytes. by apply Forall_drop.
  - rewrite <- Henc, zlen_sub; lia.
Qed.

Lemma dnp3_probe_spec i :
  bytes_ok (prefix i) → ∃ r, dnp3_probe i = Ok r ∧ dnp3_exact (prefix i) r.
Proof.
  intros Hb. unfold dnp3_probe. set (b := prefix i) in *. cbv zeta. pose proof (zlen_nonneg b).
  assert (∀ c d s v, completes b c d s v → 10 + blocks_len (zlen v) = zlen (encode_link c d s v) ∧ 0 ≤ zlen v ≤ 250) as Hce.
  { intros c d s v (Hv & H250 & _). split; [by rewrite zlen_encode_link|]. pose proof (zlen_nonneg v). lia. }
  assert (∀ n, zlen b < n ≤ 10 → dnp3_exact b (NeedMore n)) as Hmore.
  { intros n Hn. split; [lia|]. intros c d s v [Hz Hv]%Hce. pose proof (blocks_len_250 (zlen v) Hv). lia. }
  destruct (Z.eqb_spec (zlen b) 0) as [Hz|Hz]; [eexists; split; [done|apply Hmore; lia]|].
  rewrite (idx_ok b 0), bind_Ok by lia. destruct (Z.eqb_spec (nthz b 0) 0x05) as [E0|E0]; cbn [negb].
  2:{ eexists; split; [done|]. intros c d s v (M0 & _)%completes_marks. apply E0, M0. lia. }
  destruct (Z.ltb_spec (zlen b) 2); [eexists; split; [done|apply Hmore; lia]|].
  rewrite (idx_ok b 1), bind_Ok by lia. destruct (Z.eqb_spec (nthz b 1) 0x64) as [E1|E1]; cbn [negb].
  2:{ eexists; split; [done|]. intros c d s v (_ & M1 & _)%completes_marks. apply E1, M1. lia. }
  destruct (Z.ltb_spec (zlen b) 3); [eexists; split; [done|apply Hmore; lia]|].
  rewrite (idx_ok b 2), bind_Ok by lia. pose proof (nthz_byte b 2 Hb).
  destruct (Z.ltb_spec (nthz b 2) 5).
  { eexists; split; [done|]. intros c d s v (_ & _ & M2 & _)%completes_marks. pose proof (zlen_nonneg v). lia. }
  destruct (Z.ltb_spec (zlen b) 10); [eexists; split; [done|apply Hmore; lia]|].
  rewrite (slice_ok b 0 8), bind_Ok, (idx_ok b 8), bind_Ok, (idx_ok b 9), bind_Ok by lia.
  pose proof (sub_two b 8 ltac:(lia) ltac:(lia)) as E8. change (8 + 2) with 10 in E8. change (8 + 1) with 9 in E8.
  rewrite <- E8. destruct (Z.eqb_spec (crc16_dnp (sub b 0 8)) (from_le_bytes (sub b 8 10))) as [Hcrc|Hcrc]; cbn [negb].
  2:{ eexists; split; [done|]. intros c d s v (_ & _ & _ & M8 & _)%completes_marks. apply Hcrc.
      apply crc_le_eq; [by apply bytes_ok_sub..| |by apply M8]. rewrite M8 by lia. apply crc_le_length. }
  rewrite (sub_ovf_ok (nthz b 2) 5), bind_Ok by lia. set (n := nthz b 2 - 5).
  replace (10 + n + 2 * div_ceil n 16) with (10 + blocks_len n) by (unfold blocks_len; lia).
  pose proof (blocks_len_250 n ltac:(lia)).
  assert (∀ c d s v, completes b c d s v → n = zlen v) as Hnv
    by (intros c d s v (_ & _ & M2 & _)%completes_marks; lia).
  destruct (Z.ltb_spec (zlen b) (10 + blocks_len n)) as [Hsh|Hlen].
  { eexists; split; [done|]. split; [lia|]. intros c d s v Hc. rewrite (Hnv _ _ _ _ Hc).
    destruct (Hce _ _ _ _ Hc). lia. }
  rewrite probe_blocks_spec, bind_Ok by lia. change (Z.to_nat 10) with 10%nat.
  destruct (blocks_ok _ _ _) eqn:Hok; cbn [negb]; eexists; (split; [done|]).
  - split; [done|]. apply starts_frame_intro; try done; lia.
  - intros c d s v Hc. pose proof (Hnv _ _ _ _ Hc) as Hv. apply completes_marks in Hc as (_ & _ & _ & _ & M5).
    rewrite Hv in Hok, Hlen. specialize (M5 Hlen). unfold zlen in Hok at 1. rewrite Nat2Z.id in Hok. congruence.
Qed.

(** ** The Modbus probe *)

(** A complete frame with a function code starts here. *)
Definition modbus_frame (l : list Z) : Prop :=
  complete_frame l = true ∧ Z.land (nthz l 7) 0x7f ≠ 0.

Definition modbus_exact (b : list Z) (r : ProbeResult) : Prop :=
  match r with
  | NoMatch => ∀ rest, bytes_ok rest → ¬ modbus_frame (b ++ rest)
  | NeedMore n => zlen b < n ≤ 260 ∧ ∀ rest, bytes_ok rest → modbus_frame (b ++ rest) → n ≤ 6 + word (b ++ rest) 4
  | Match protocol _ n _ => protocol = "modbus" ∧ modbus_frame b ∧ n = 6 + word b 4
  end.

Lemma word_app_l l k i : 0 ≤ i → i + 2 ≤ zlen l → word (l ++ k) i = word l i.
Proof. intros Hi Hl. unfold word. by rewrite !nthz_app_l by lia. Qed.

Lemma complete_frame_facts l :
  complete_frame l = true → 7 ≤ zlen l ∧ word l 2 = 0 ∧ 2 ≤ word l 4 ≤ 254 ∧ 6 + word l 4 ≤ zlen l.
Proof. unfold complete_frame. intros H. bool_facts. lia. Qed.

Lemma modbus_probe_spec i :
  bytes_ok (prefix i) → transport i = PTcp → ∃ r, modbus_probe i = Ok r ∧ modbus_exact (prefix i) r.
Proof.
  intros Hb Ht. unfold modbus_probe. rewrite bool_decide_true by done. cbn [negb]. set (b := prefix i) in *. cbv zeta.
  assert (∀ n, zlen b < n ≤ 8 → modbus_exact b (NeedMore n)) as Hmore.
  { intros n Hn. split; [lia|]. intros rest Hr [Hc%complete_frame_facts _]. lia. }
  pose proof (word_range b 4 Hb) as W4.
  destruct (Z.ltb_spec (zlen b) 4); [eexists; split; [done|apply Hmore; pose proof (zlen_nonneg b); lia]|].
  rewrite (slice_ok b 2 4), bind_Ok by lia. pose proof (sub_two b 2 ltac:(lia) ltac:(lia)) as E2.
  change (2 + 2) with 4 in E2. rewrite E2. pose proof (nthz_byte b 2 Hb). pose proof (nthz_byte b (2 + 1) Hb).
  destruct (bytes_eqb _ _) eqn:Hz; cbn [negb]; bool_facts.
  2:{ eexists; split; [done|]. intros rest Hr [(_ & Hw & _)%complete_frame_facts _]. apply Hz.
      rewrite word_app_l in Hw by lia. unfold word in Hw. f_equal; [lia|f_equal; lia]. }
  injection Hz as Hz1 Hz2. assert (word b 2 = 0) as W2 by (unfold word; lia).
  destruct (Z.ltb_spec (zlen b) 6); [eexists; split; [done|apply Hmore; lia]|].
  rewrite (idx_ok b 4), bind_Ok, (idx_ok b 5), bind_Ok by lia.
  assert (from_be_bytes [nthz b 4; nthz b 5] = word b 4) as -> 
    by (unfold word; change (4 + 1) with 5; unfold from_be_bytes; cbn [fold_left]; lia).
  assert (∀ rest, word (b ++ rest) 4 = word b 4) as Hw by (intros; apply word_app_l; lia).
  destruct ((2 <=? word b 4) && (word b 4 <=? 254)) eqn:Hr; cbn [negb].
  2:{ eexists; split; [done|]. intros rest Hr' [(_ & _ & Hx & _)%complete_frame_facts _]. rewrite Hw in Hx. lia. }
  bool_facts. destruct (Z.ltb_spec (zlen b) (6 + word b 4)).
  { eexists; split; [done|]. split; [lia|]. intros rest _ _. rewrite Hw. lia. }
  rewrite (idx_ok b 7), bind_Ok by lia. destruct (Z.eqb_spec (Z.land (nthz b 7) 0x7f) 0) as [E7|E7]; eexists; (split; [done|]).
  - intros rest _ [_ H7]. apply H7. by rewrite nthz_app_l by lia.
  - split; [done|]. split; [|done]. split; [|done]. unfold complete_frame. lia.
Qed.

(** ** The built-in registry *)

#[global] Instance Dnp3Probe_lawful : LawfulProbe 4096 Dnp3Probe.
Proof.
  constructor. intros i Hb. destruct (dnp3_probe_spec i Hb) as (r & Hr & He). exists r. split; [exact Hr|].
  destruct r as [|n|p st n why]; simpl in *; [done|lia|]. destruct He as [-> (c & d & s & v & Hv & _ & -> & _ & Hl)].
  rewrite zlen_encode_link in * by done. pose proof (blocks_len_nonneg (zlen v) (zlen_nonneg v)).
  pose proof (zlen_nonneg v). split; [lia|done].
Qed.

#[global] Instance ModbusProbe_lawful : LawfulProbe 4096 ModbusProbe.
Proof.
  constructor. intros i Hb. destruct (transport i) eqn:Ht.
  - destruct (modbus_probe_spec i Hb Ht) as (r & Hr & He). exists r. split; [exact Hr|].
    destruct r as [|n|p st n why]; simpl in *; [done|lia|]. destruct He as (-> & [Hc%complete_frame_facts _] & ->).
    split; [lia|done].
  - exists NoMatch. simpl. unfold modbus_probe. by rewrite Ht.
Qed.

Definition builtin_registry : ProbeRegistry :=
  {| probes := [Dnp3Probe; ModbusProbe]; max_probes := 16; max_prefix_bytes := 4096 |}.

Lemma builtins_ok : builtins = Ok builtin_registry.
Proof. reflexivity. Qed.

Lemma builtin_inspect i :
  bytes_ok (prefix i) → zlen (prefix i) ≤ 4096 → transport i = PTcp →
  ∃ d m, inspect builtin_registry i =
           Ok [{| o_probe := "dnp3_link_crc"; o_result := d |}; {| o_probe := "modbus_tcp_mbap"; o_result := m |}] ∧
         dnp3_exact (prefix i) d ∧ modbus_exact (prefix i) m.
Proof.
  intros Hb Hl Ht. destruct (inspect_spec builtin_registry i) as (obs & -> & Hobs); [|done|done|].
  { apply Forall_cons; split; [apply Dnp3Probe_lawful|]. apply Forall_singleton, ModbusProbe_lawful. }
  inversion_clear Hobs as [|? o1 ? obs1 [Hn1 Hp1] Hobs1]. inversion_clear Hobs1 as [|? o2 ? obs2 [Hn2 Hp2] Hobs2].
  inversion_clear Hobs2. destruct o1 as [n1 d], o2 as [n2 m]. simpl in *. subst n1 n2. exists d, m. split; [done|].
  destruct (dnp3_probe_spec i Hb) as (d' & Hd & Hd'). destruct (modbus_probe_spec i Hb Ht) as (m' & Hm & Hm').
  split; congruence.
Qed.

(** ** [classify_flow] *)

Definition starts_dnp3 (l : list Z) : Prop := ∃ n, starts_frame l n.

(** Looking at the first 4096 bytes is enough. *)
Lemma dnp3_prefix l r :
  dnp3_exact (sub l 0 (Z.min (zlen l) 4096)) r →
  (if r is Match _ _ _ _ then True else False) ↔ starts_dnp3 l.
Proof.
  set (k := Z.min (zlen l) 4096). pose proof (zlen_nonneg l).
  assert (zlen (sub l 0 k) = k) as Hk by (rewrite zlen_sub; lia).
  assert (∀ c d s v n, bytes_ok v → zlen v ≤ 250 → n = zlen (encode_link c d s v) → sub l 0 n = encode_link c d s v →
            n ≤ zlen l → completes (sub l 0 k) c d s v) as Hcomp.
  { intros c d s v n Hv H250 -> He Hl. split_and!; [done|done|]. exists (drop (Z.to_nat k) l), (drop (length (encode_link c d s v)) l).
    rewrite <- He at 1. unfold sub. rewrite drop_0, !Z.sub_0_r, take_drop. unfold zlen. by rewrite Nat2Z.id, take_drop. }
  intros Hr. split.
  - destruct r as [| |p st n why]; [done|done|]. intros _. destruct Hr as [_ (c & d & s & v & Hv & H250 & Hn & He & Hl)].
    pose proof (zlen_nonneg (encode_link c d s v)).
    exists n, c, d, s, v. split_and!; try done; [|lia]. rewrite sub_sub in He by lia. by rewrite Z.add_0_l in He.
  - intros (n & c & d & s & v & Hv & H250 & Hn & He & Hl). pose proof (Hcomp _ _ _ _ _ Hv H250 Hn He Hl) as Hc.
    destruct r as [|m|]; [by apply (Hr c d s v)| |done]. destruct Hr as [Hm Hall]. specialize (Hall _ _ _ _ Hc). lia.
Qed.

Lemma modbus_prefix l r :
  bytes_ok l → modbus_exact (sub l 0 (Z.min (zlen l) 4096)) r →
  (if r is Match _ _ _ _ then True else False) ↔ modbus_frame l.
Proof.
  intros Hb. set (k := Z.min (zlen l) 4096). pose proof (zlen_nonneg l).
  assert (zlen (sub l 0 k) = k) as Hk by (rewrite zlen_sub; lia).
  assert (sub l 0 k ++ drop (Z.to_nat k) l = l) as Hl by (unfold sub; by rewrite drop_0, Z.sub_0_r, take_drop).
  assert (bytes_ok (drop (Z.to_nat k) l)) as Hd by (by apply Forall_drop).
  intros Hr. split.
  - destruct r as [| |p st n why]; [done|done|]. intros _. destruct Hr as (_ & [Hc H7] & _).
    apply complete_frame_facts in Hc as (C1 & C2 & C3 & C4).
    assert (word l 4 = word (sub l 0 k) 4) as W4 by (rewrite <- Hl at 1; apply word_app_l; lia).
    assert (word l 2 = word (sub l 0 k) 2) as W2 by (rewrite <- Hl at 1; apply word_app_l; lia).
    split; [unfold complete_frame; lia|]. rewrite <- Hl, nthz_app_l by lia. done.
  - intros Hf. destruct r as [|m|]; [|destruct Hr as [Hm Hall]|done].
    + apply (Hr _ Hd). by rewrite Hl.
    + specialize (Hall _ Hd). rewrite Hl in Hall. specialize (Hall Hf).
      destruct Hf as [Hc%complete_frame_facts _]. lia.
Qed.

(** The content flags after probing, and what they stand for. *)
Definition flags_of (content content' : bool * bool) (P Q : Prop) : Prop :=
  (content'.1 = true ↔ content.1 = true ∨ P) ∧ (content'.2 = true ↔ content.2 = true ∨ Q).

Definition chunk_bytes_ok (c : StreamChunk) : Prop := bytes_ok (data (c_bytes c)).

Lemma empty_no_frame c : is_empty (c_bytes c) = true → ¬ starts_dnp3 (data (c_bytes c)) ∧ ¬ modbus_frame (data (c_bytes c)).
Proof.
  unfold is_empty. intros Hz%Z.eqb_eq. split.
  - intros (n & c' & d & s & v & Hv & _ & -> & _ & Hl). rewrite zlen_encode_link in Hl by done.
    pose proof (blocks_len_nonneg (zlen v) (zlen_nonneg v)). pose proof (zlen_nonneg v). lia.
  - intros [Hc%complete_frame_facts _]. lia.
Qed.

Lemma probe_chunk_spec sport dport content c :
  chunk_bytes_ok c →
  ∃ content', probe_chunk builtin_registry sport dport content c = Ok content' ∧
    flags_of content content' (starts_dnp3 (data (c_bytes c))) (modbus_frame (data (c_bytes c))).
Proof.
  intros Hb. unfold probe_chunk. destruct (is_empty (c_bytes c)) eqn:He.
  { exists content. split; [done|]. destruct (empty_no_frame c He). unfold flags_of. tauto. }
  unfold len. set (l := data (c_bytes c)) in *. pose proof (zlen_nonneg l).
  rewrite (slice_ok l 0 (Z.min (zlen l) 4096)), bind_Ok by lia.
  match goal with |- context [inspect _ ?i] => destruct (builtin_inspect i) as (d & m & -> & Hd & Hm) end.
  { by apply bytes_ok_sub. } { simpl. rewrite zlen_sub; lia. } { done. }
  rewrite bind_Ok. eexists; split; [done|]. cbn [prefix] in Hd, Hm.
  pose proof (dnp3_prefix l d Hd) as Pd. pose proof (modbus_prefix l m Hb Hm) as Pm.
  destruct content as [c1 c2]. cbn [fold_left]. unfold flags_of, note_match. cbn [o_result].
  destruct d as [| |pd ? ? ?], m as [| |pm ? ? ?]; try destruct Hd as [-> _]; try destruct Hm as [-> _]; simpl; tauto.
Qed.

Lemma probe_stream_spec sport dport content o :
  Forall chunk_bytes_ok (default [] (chunks <$> o)) →
  ∃ content', probe_stream builtin_registry sport dport content o = Ok content' ∧
    flags_of content content'
      (∃ c, c ∈ default [] (chunks <$> o) ∧ starts_dnp3 (data (c_bytes c)))
      (∃ c, c ∈ default [] (chunks <$> o) ∧ modbus_frame (data (c_bytes c))).
Proof.
  unfold probe_stream. destruct o as [st|]; simpl.
  2:{ intros _. exists content. split; [done|]. unfold flags_of.
      split; split; auto; intros [?|(c & ?%not_elem_of_nil & _)]; done. }
  generalize (chunks st). intros cs. revert content. induction cs as [|c cs IH]; intros content Hcs; cbn [foldM].
  { exists content. split; [done|]. unfold flags_of. split; split; auto; intros [?|(c & ?%not_elem_of_nil & _)]; done. }
  apply Forall_cons in Hcs as [Hc Hcs]. destruct (probe_chunk_spec sport dport content c Hc) as (c1 & -> & F1).
  rewrite bind_Ok. destruct (IH c1 Hcs) as (c2 & -> & F2). exists c2. split; [done|].
  unfold flags_of in *. destruct F1 as [F1 G1], F2 as [F2 G2]. rewrite F2, F1, G2, G1.
  setoid_rewrite elem_of_cons. naive_solver.
Qed.

(** The chunks of both directions of a flow. *)
Definition flow_chunks (f : FlowResult) : list StreamChunk :=
  default [] (chunks <$> (streams f).1) ++ default [] (chunks <$> (streams f).2).

(** A configured port of the list is an end of the flow. *)
Definition hinted (ports : list Z) (f : FlowResult) : Prop :=
  port (fk_a (fr_key f)) ∈ ports ∨ port (fk_b (fr_key f)) ∈ ports.

Definition content_dnp3 (f : FlowResult) : Prop := ∃ c, c ∈ flow_chunks f ∧ starts_dnp3 (data (c_bytes c)).
Definition content_modbus (f : FlowResult) : Prop := ∃ c, c ∈ flow_chunks f ∧ modbus_frame (data (c_bytes c)).

Definition selection_ok (f : FlowResult) (c : Config) (s : Selection) : Prop :=
  (sel_dnp3 s = true ↔ content_dnp3 f ∨ hinted (dnp3_ports c) f) ∧
  (sel_modbus s = true ↔ content_modbus f ∨ hinted (modbus_ports c) f) ∧
  (basis s = "none" ↔ sel_dnp3 s = false ∧ sel_modbus s = false) ∧
  (basis s = "configured_port_hint_unconfirmed_by_probe" →
     ¬ content_dnp3 f ∧ ¬ content_modbus f) ∧
  (basis s = "content_and_configured_port_hint" ↔
     content_dnp3 f ∧ hinted (modbus_ports c) f ∨ content_modbus f ∧ hinted (dnp3_ports c) f) ∧
  matched s = (if sel_dnp3 s then ["dnp3"] else []) ++ (if sel_modbus s then ["modbus"] else []).

Lemma contains_spec l p : contains l p = true ↔ p ∈ l.
Proof.
  unfold contains. rewrite existsb_exists. setoid_rewrite Z.eqb_eq. setoid_rewrite <- list_elem_of_In.
  split; [by intros (x & Hx & <-)|]. intros Hp. by exists p.
Qed.

Lemma hinted_spec ports f :
  contains ports (port (fk_a (fr_key f))) || contains ports (port (fk_b (fr_key f))) = true ↔ hinted ports f.
Proof. by rewrite orb_true_iff, !contains_spec. Qed.

Lemma exists_app {A} (P : A → Prop) l k :
  (∃ x, x ∈ l ++ k ∧ P x) ↔ (∃ x, x ∈ l ∧ P x) ∨ (∃ x, x ∈ k ∧ P x).
Proof. setoid_rewrite elem_of_app. naive_solver. Qed.

Lemma classify_flow_spec (f : FlowResult) (c : Config) :
  Forall chunk_bytes_ok (flow_chunks f) → ∃ s, classify_flow f c = Ok s ∧ selection_ok f c s.
Proof.
  intros Hb. apply Forall_app in Hb as [H1 H2]. unfold classify_flow. rewrite builtins_ok, bind_Ok. cbv zeta.
  destruct (probe_stream_spec (port (fk_a (fr_key f))) (port (fk_b (fr_key f))) (false, false) _ H1) as (c1 & -> & F1 & G1).
  rewrite bind_Ok.
  destruct (probe_stream_spec (port (fk_b (fr_key f))) (port (fk_a (fr_key f))) c1 _ H2) as (c2 & -> & F2 & G2).
  rewrite bind_Ok. destruct c2 as [d m]. eexists; split; [done|].
  assert (d = true ↔ content_dnp3 f) as Hd.
  { unfold content_dnp3, flow_chunks. rewrite exists_app. simpl in F2. rewrite F2, F1. simpl. naive_solver. }
  assert (m = true ↔ content_modbus f) as Hm.
  { unfold content_modbus, flow_chunks. rewrite exists_app. simpl in G2. rewrite G2, G1. simpl. naive_solver. }
  pose proof (hinted_spec (dnp3_ports c) f) as Hhd. pose proof (hinted_spec (modbus_ports c) f) as Hhm.
  unfold selection_ok. cbn [sel_dnp3 sel_modbus basis matched]. rewrite <- Hd, <- Hm, <- Hhd, <- Hhm.
  clear. generalize (contains (dnp3_ports c) (port (fk_a (fr_key f))) || contains (dnp3_ports c) (port (fk_b (fr_key f)))).
  generalize (contains (modbus_ports c) (port (fk_a (fr_key f))) || contains (modbus_ports c) (port (fk_b (fr_key f)))).
  intros hm hd. split_and!; try done; destruct d, m, hd, hm; simpl; naive_solver.
Qed.


(** Every probe is run and reported.  For any registry of lawful probes and
    any prefix within the limit, [inspect] returns one observation per registered
    probe, in registration order, with exactly that probe's result: a match of one
    probe never hides another's. *)
Theorem inspect_reports_all (r : ProbeRegistry) (i : ProbeInput) :
  Forall (LawfulProbe (max_prefix_bytes r)) (probes r) → bytes_ok (prefix i) →
  zlen (prefix i) ≤ max_prefix_bytes r →
  ∃ obs, inspect r i = Ok obs ∧ Forall2 (observes i) (probes r) obs.
Proof. apply inspect_spec. Qed.

(** The DNP3 probe decides from a prefix.  It returns on every prefix; a match
    is a complete frame; no match means that no continuation of the prefix starts
    with a frame; a request for more names at most the length of every frame the
    prefix can still become. *)
Theorem dnp3_probe_exact (i : ProbeInput) :
  bytes_ok (prefix i) → ∃ r, dnp3_probe i = Ok r ∧ dnp3_exact (prefix i) r.
Proof. apply dnp3_probe_spec. Qed.

(** ** Witnesses *)

Definition sample_probe_input (l : list Z) : ProbeInput :=
  {| transport := PTcp; source_port := 40000; destination_port := 20000; prefix := l |}.

Example sample_probes :
  (probe Dnp3Probe (sample_probe_input sample_link), probe Dnp3Probe (sample_probe_input (take 12 sample_link)),
   probe ModbusProbe (sample_probe_input sample_request)) =
  (Ok (Match "dnp3" CompleteFrameChecksums 18 "complete_link_frame_with_valid_header_and_data_crcs"),
   Ok (NeedMore 18),
   Ok (Match "modbus" HeaderStructure 12 "plausible_complete_mbap_frame_not_a_unique_protocol_signature")).
Proof. by vm_compute. Qed.

Lemma dnp3_probe_witness :
  ∃ r, dnp3_probe (sample_probe_input (take 12 sample_link)) = Ok r ∧ dnp3_exact (take 12 sample_link) r.
Proof. apply (dnp3_probe_exact (sample_probe_input (take 12 sample_link))), small_bytes_ok. by vm_compute. Defined.

Lemma inspect_witness :
  ∃ obs, inspect builtin_registry (sample_probe_input sample_request) = Ok obs ∧
         Forall2 (observes (sample_probe_input sample_request)) [Dnp3Probe; ModbusProbe] obs.
Proof.
  apply (inspect_reports_all builtin_registry); [|apply small_bytes_ok; by vm_compute|by vm_compute].
  apply Forall_cons. split; [apply Dnp3Probe_lawful|]. apply Forall_singleton, ModbusProbe_lawful.
Defined.

Definition sample_flow_result : FlowResult :=
  {| fr_id := 0; fr_generation := 1;
     fr_key := {| fk_scope := {| section := 0; interface := 0; link_interface := None; vlans := [] |};
                  fk_a := {| address := V4 [10; 0; 0; 1]; port := 40000 |};
                  fk_b := {| address := V4 [10; 0; 0; 2]; port := 502 |} |};
     fr_syn := (Some 1, None); fr_closed := false; fr_midstream := false; fr_first_ns := None; fr_last_ns := None;
     fr_packets := []; streams := (Some (sample_stream sample_link), None); reconstruction_errors := [];
     fr_anomalies := [] |}.

Example sample_classified :
  (s ← classify_flow sample_flow_result config_default; Ok (sel_dnp3 s, sel_modbus s, basis s)) =
  Ok (true, true, "content_and_configured_port_hint").
Proof. by vm_compute. Qed.

