(* ===== verification/Dnp3App.v ===== *)
(** * DNP3 transport and application reassembly (src/dnp3.rs, src/datagram.rs)

    [decode] walks the chunks of a reconstructed stream, cuts them into link
    frames, joins transport segments of one address pair into application
    fragments and fragments into messages.  Every chunk starts with empty state;
    the loop over one chunk is [chunk_step] on the record [Work], which holds the
    local variables of the source's loop.  The datagram entry points are at the end. *)

From S2P Require Import Errors Ord Provenance Wire Stream Dnp3Link Prelude.

#[global] Instance MessageClass_ord : Ord MessageClass.
Proof.
  refine (proj_ord (λ c, match c with McRequest => 0 | McResponse => 1 | McUnsolicited => 2 | McConfirm => 3
                                    | McUnknown => 4 end) _).
  by intros [] [].
Defined.

(** ** Results *)

Record ApplicationFragment : Type := {
  af_source : Z;
  af_destination : Z;
  af_control : Z;
  af_function : Z;
  af_sequence : Z;
  af_class : MessageClass;
  af_iin : option Z;
  af_first : bool;
  final_fragment : bool;
  confirmation_requested : bool;
  af_frames : list Z;
  af_raw : EvidenceBytes;
  af_objects : EvidenceBytes;
}.

Record ApplicationMessage : Type := {
  am_source : Z;
  am_destination : Z;
  am_function : Z;
  am_first_sequence : Z;
  am_class : MessageClass;
  complete : bool;
  am_fragments : list Z;
  am_packets : list PacketId;
  am_objects : EvidenceBytes;
}.

Record RejectedLinkRange : Type := {
  rl_stream_offset : Z;
  rl_declared_length : option Z;
  rl_code : string;
  incomplete : bool;
  rl_raw : EvidenceBytes;
}.

Record Dnp3Result : Type := {
  frames : list LinkFrame;
  fragments : list ApplicationFragment;
  messages : list ApplicationMessage;
  issues : list ProtocolIssue;
  rejected_link_ranges : list RejectedLinkRange;
}.

Definition result_default : Dnp3Result :=
  {| frames := []; fragments := []; messages := []; issues := []; rejected_link_ranges := [] |}.

(** ** Pending assemblies *)

Record TransportAssembly : Type := {
  ta_last_sequence : Z;
  seen_segments : list (Z * list Z);
  ta_direction : bool;
  ta_bytes : EvidenceBytes;
  ta_frames : list Z;
}.

Record AppAssembly : Type := {
  aa_direction : bool;
  aa_source : Z;
  aa_destination : Z;
  aa_function : Z;
  aa_first_sequence : Z;
  aa_last_sequence : Z;
  aa_class : MessageClass;
  aa_fragments : list Z;
  aa_objects : EvidenceBytes;
  aa_packets : list PacketId;
}.

Definition TransportMap : Type := list ((Z * Z) * TransportAssembly).
Definition AppMap : Type := list ((Z * Z * MessageClass) * AppAssembly).

(** [issue]. *)
Definition issue (out : Dnp3Result) (c : string) (ps : list PacketId) (at_ : Z) (l : Limits) : result Dnp3Result :=
  if max_protocol_messages l <=? zlen (issues out) then Err (limit "dnp3_issues")
  else Ok {| frames := frames out; fragments := fragments out; messages := messages out;
             issues := issues out ++ [{| Dnp3Link.code := c; pi_packets := ps; pi_stream_offset := at_ |}];
             rejected_link_ranges := rejected_link_ranges out |}.

(** [emit_app]. *)
Definition emit_app (out : Dnp3Result) (app : AppAssembly) (done_ : bool) (l : Limits) : result Dnp3Result :=
  if max_protocol_messages l <=? zlen (messages out) then Err (limit "dnp3_messages")
  else Ok {| frames := frames out; fragments := fragments out;
             messages := messages out ++
               [{| am_source := aa_source app; am_destination := aa_destination app; am_function := aa_function app;
                   am_first_sequence := aa_first_sequence app; am_class := aa_class app; complete := done_;
                   am_fragments := aa_fragments app; am_packets := sort_dedup (aa_packets app);
                   am_objects := aa_objects app |}];
             issues := issues out; rejected_link_ranges := rejected_link_ranges out |}.

(** The class of an application function. *)
Definition app_class (function : Z) (unsolicited : bool) : MessageClass :=
  if function =? 0 then McConfirm
  else if (1 <=? function) && (function <=? 31) && negb unsolicited then McRequest
  else if (function =? 0x81) && negb unsolicited then McResponse
  else if (function =? 0x82) && unsolicited then McUnsolicited
  else McUnknown.

(** [app_fragment]. *)
Definition app_fragment (bytes : EvidenceBytes) (source destination : Z) (fs : list Z) : result ApplicationFragment :=
  let raw := data bytes in
  if zlen raw <? 2
  then Err (error_new Truncated 0 "dnp3_application" "missing application control/function")
  else
    control ← idx raw 0;
    function ← idx raw 1;
    let unsolicited := has_bits control 0x10 in
    let response := (function =? 0x81) || (function =? 0x82) in
    let header := if response then 4 else 2 in
    if zlen raw <? header
    then Err (error_new Truncated 0 "dnp3_iin" "response is missing IIN")
    else
      iin ← (if response then b ← slice raw 2 4; v ← le16 b; Ok (Some v) else Ok None);
      objects ← Provenance.slice bytes header (len bytes);
      Ok {| af_source := source; af_destination := destination; af_control := control;
            af_function := function; af_sequence := Z.land control 15; af_class := app_class function unsolicited;
            af_iin := iin; af_first := has_bits control 0x80; final_fragment := has_bits control 0x40;
            confirmation_requested := has_bits control 0x20; af_frames := fs; af_raw := bytes;
            af_objects := objects |}.

(** The classes, in the order [interrupt_applications] and [decode] list them. *)
Definition all_classes : list MessageClass := [McRequest; McResponse; McUnsolicited; McConfirm; McUnknown].

(** [interrupt_applications]. *)
Definition interrupt_applications (out : Dnp3Result) (apps : AppMap) (key : Z * Z) (l : Limits)
    : result (Dnp3Result * AppMap) :=
  foldM (λ '(out, apps) c,
           match bt_get apps (key, c) with
           | Some pending => out ← emit_app out pending false l; Ok (out, bt_remove apps (key, c))
           | None => Ok (out, apps)
           end) (out, apps) all_classes.

(** ** The link subset (src/semantics/dnp3_workflow.rs) *)

Definition address_kind (address : Z) : string :=
  if address <=? 0xffef then "individual"
  else if address <=? 0xfffb then "reserved"
  else if address =? 0xfffc then "self_address"
  else "broadcast".

(** [link_issue]. *)
Definition link_issue (control source destination user_length : Z) : option (ErrorCode * string) :=
  let c := link_control control in
  let f := lc_function c in
  let one_of := λ l, existsb (Z.eqb f) l in
  let user_function := primary c && one_of [3; 4] in
  if negb (primary c) && bool_decide (reserved c = Some true)
  then Some (ProtocolFraming, "dnp3_secondary_reserved_control_bit")
  else if negb (if primary c then one_of [0; 2; 3; 4; 9] else one_of [0; 1; 11; 15])
  then Some (UnsupportedTransport, "dnp3_link_function_outside_subset")
  else if primary c && negb (bool_decide (fcv c = Some (one_of [2; 3])))
  then Some (ProtocolFraming, "dnp3_link_fcv_function_conflict")
  else if negb (bool_decide (address_kind source = "individual"))
  then Some (ProtocolFraming, "dnp3_non_individual_source_address")
  else if bool_decide (address_kind destination = "reserved")
  then Some (ProtocolFraming, "dnp3_reserved_destination_address")
  else if bool_decide (address_kind destination = "self_address")
  then Some (UnsupportedTransport, "dnp3_self_address_not_resolved")
  else if is_broadcast destination && (negb (lc_direction c) || negb user_function)
  then Some (ProtocolFraming, "dnp3_broadcast_direction_or_function_conflict")
  else if bool_decide (user_function = (user_length =? 0))
  then Some (ProtocolFraming, "dnp3_link_function_length_conflict")
  else None.

(** ** [decode]

    The local variables of the loop over a chunk. *)
Record Work : Type := {
  out : Dnp3Result;
  rejected_bytes : Z;
  transport : TransportMap;
  applications : AppMap;
  pos : Z;
  skipped : Z;
}.

Definition with_out (w : Work) (o : Dnp3Result) : Work :=
  {| out := o; rejected_bytes := rejected_bytes w; transport := transport w; applications := applications w;
     pos := pos w; skipped := skipped w |}.
Definition with_transport (w : Work) (t : TransportMap) : Work :=
  {| out := out w; rejected_bytes := rejected_bytes w; transport := t; applications := applications w;
     pos := pos w; skipped := skipped w |}.
Definition with_apps (w : Work) (o : Dnp3Result) (a : AppMap) : Work :=
  {| out := o; rejected_bytes := rejected_bytes w; transport := transport w; applications := a;
     pos := pos w; skipped := skipped w |}.
Definition with_pos (w : Work) (p s : Z) : Work :=
  {| out := out w; rejected_bytes := rejected_bytes w; transport := transport w; applications := applications w;
     pos := p; skipped := s |}.

(** [issue(..)?] and [interrupt_applications(..)?] on the state. *)
Definition note (l : Limits) (w : Work) (c : string) (ps : list PacketId) (at_ : Z) : result Work :=
  o ← issue (out w) c ps at_ l; Ok (with_out w o).
Definition interrupt (l : Limits) (w : Work) (key : Z * Z) : result Work :=
  r ← interrupt_applications (out w) (applications w) key l;
  Ok (with_apps w (fst r) (snd r)).

(** [chunk.offset + p as i64]. *)
Definition offset_at (base p : Z) : result Z := signed_ovf i64_min i64_max (base + as_signed 64 p).

(** The header check that vouches for a declared length. *)
Definition declared_length (tail : list Z) : result (option Z) :=
  if zlen tail <? 10 then Ok None
  else
    length ← idx tail 2;
    if length <? 5 then Ok None
    else
      header ← slice tail 0 8;
      b ← slice tail 8 10; sum ← le16 b;
      if negb (crc16_dnp header =? sum) then Ok None
      else n ← sub_ovf length 5; Ok (Some (10 + n + 2 * div_ceil n 16)).

(** Everything pending is given up: one issue per transport, then one incomplete
    message per application assembly. *)
Definition abandon (l : Limits) (c : string) (w : Work) (at_ : Z) : result Work :=
  o ← foldM (λ o (kv : (Z * Z) * TransportAssembly), issue o c (packets (ta_bytes kv.2)) at_ l) (out w) (transport w);
  o ← foldM (λ o (kv : (Z * Z * MessageClass) * AppAssembly), emit_app o kv.2 false l) o (applications w);
  Ok (with_apps (with_transport w []) o []).

(** The [Err] arm of the match on [parse_link]. *)
Definition on_bad_frame (l : Limits) (chunk : StreamChunk) (w : Work) (e : Error) : result (step Work Work) :=
  let bytes := c_bytes chunk in
  at_ ← offset_at (c_offset chunk) (pos w);
  w ← abandon l "transport_interrupted_by_bad_frame" w at_;
  ten ← add_ovf usize_max (pos w) 10;
  piece ← Provenance.slice bytes (pos w) (Z.min ten (len bytes));
  w ← note l w (if bool_decide (Errors.code e = Errors.Checksum) then "dnp3_crc_failure" else "dnp3_invalid_or_truncated_frame")
        (packets piece) at_;
  tail ← slice_from (data bytes) (pos w);
  declared ← declared_length tail;
  let captured := Z.min (default (zlen tail) declared) (zlen tail) in
  rb ← ok_or (match checked_add usize_max (rejected_bytes w) captured with
              | Some n => if n <=? max_application_bytes l then Some n else None
              | None => None
              end) (limit "dnp3_rejected_link_bytes");
  if max_protocol_messages l <=? zlen (rejected_link_ranges (out w)) then Err (limit "dnp3_rejected_link_ranges")
  else
    stop ← add_ovf usize_max (pos w) captured;
    raw ← Provenance.slice bytes (pos w) stop;
    let o := out w in
    let w := {| out := {| frames := frames o; fragments := fragments o; messages := messages o; issues := issues o;
                          rejected_link_ranges := rejected_link_ranges o ++
                            [{| rl_stream_offset := at_; rl_declared_length := declared; rl_code := field e;
                                incomplete := bool_decide (Errors.code e = Truncated); rl_raw := raw |}] |};
                rejected_bytes := rb; transport := transport w; applications := applications w;
                pos := pos w; skipped := skipped w |} in
    declared ← declared_length tail;
    match declared with
    | Some declared =>
        let rejected := Z.min declared (zlen tail) in
        stop ← add_ovf usize_max (pos w) rejected;
        piece ← Provenance.slice bytes (pos w) stop;
        w ← note l w "dnp3_rejected_declared_link_range" (packets piece) at_;
        Ok (Continue (with_pos w stop 0))
    | None =>
        piece ← Provenance.slice bytes (pos w) (len bytes);
        w ← note l w "dnp3_link_boundary_lost_no_resynchronization" (packets piece) at_;
        Ok (Break w)
    end.

(** Skipped octets before a good frame: pending state cannot bridge them. *)
Definition resynchronize (l : Limits) (chunk : StreamChunk) (w : Work) : result Work :=
  if 0 <? skipped w then
    at_ ← offset_at (c_offset chunk) (pos w);
    w ← abandon l "transport_interrupted_by_resynchronization" w at_;
    start ← sub_ovf (pos w) (skipped w);
    piece ← Provenance.slice (c_bytes chunk) start (pos w);
    at_ ← offset_at (c_offset chunk) start;
    w ← note l w "dnp3_link_resynchronized" (packets piece) at_;
    Ok (with_pos w (pos w) 0)
  else Ok w.

(** The pending transport of an address pair and the applications over it are given up. *)
Definition drop_pair (l : Limits) (w : Work) (key : Z * Z) : result Work :=
  interrupt l (with_transport w (bt_remove (transport w) key)) key.

(** The link frame itself: recorded, checked against the link subset; [None] is
    [continue], otherwise the frame's number. *)
Definition on_link (l : Limits) (w : Work) (frame : LinkFrame) : result (Work * option Z) :=
  if max_protocol_messages l <=? zlen (frames (out w)) then Err (limit "dnp3_frames")
  else
    let key := (lf_source frame, lf_destination frame) in
    let at_ := lf_stream_offset frame in
    let frame_id := zlen (frames (out w)) in
    let c := lf_link_control frame in
    let d := user_data frame in
    w ← (if bool_decide (reserved c = Some true)
         then note l w "dnp3_reserved_link_control_bit" (packets (lf_raw frame)) at_ else Ok w);
    w ← (if bool_decide (function_name c = "primary_unknown") || bool_decide (function_name c = "secondary_unknown")
         then note l w "unsupported_dnp3_link_function" (packets (lf_raw frame)) at_ else Ok w);
    let o := out w in
    let w := with_out w {| frames := frames o ++ [frame]; fragments := fragments o; messages := messages o;
                           issues := issues o; rejected_link_ranges := rejected_link_ranges o |} in
    match link_issue (lf_control frame) (lf_source frame) (lf_destination frame) (len d) with
    | Some (_, c) =>
        w ← note l w c (packets (lf_raw frame)) at_;
        w ← drop_pair l w key;
        Ok (w, None)
    | None =>
        if is_empty d then Ok (w, None)
        else if negb (primary c && ((lc_function c =? 3) || (lc_function c =? 4))) then
          w ← note l w "unsupported_dnp3_link_function_with_data" (packets d) at_;
          w ← drop_pair l w key;
          Ok (w, None)
        else Ok (w, Some frame_id)
    end.

(** A change of direction within an assembly of the pair. *)
Definition on_direction (l : Limits) (w : Work) (frame : LinkFrame) : result Work :=
  let key := (lf_source frame, lf_destination frame) in
  let direction := lc_direction (lf_link_control frame) in
  let changed :=
    (match bt_get (transport w) key with Some p => negb (eqb (ta_direction p) direction) | None => false end) ||
    existsb (λ c, match bt_get (applications w) (key, c) with
                  | Some p => negb (eqb (aa_direction p) direction)
                  | None => false
                  end) all_classes in
  if changed then
    w ← note l w "dnp3_link_direction_changed_within_assembly" (packets (user_data frame)) (lf_stream_offset frame);
    drop_pair l w key
  else Ok w.

(** [(sequence + 1) & mask] on [u8]. *)
Definition next_sequence (s mask : Z) : Z := Z.land (s + 1) mask.

(** An exact copy of a segment seen before, out of sequence. *)
Definition is_duplicate (t : TransportAssembly) (seq : Z) (d : list Z) : bool :=
  negb (seq =? next_sequence (ta_last_sequence t) 63) &&
  match bt_get (seen_segments t) seq with Some b => bytes_eqb b d | None => false end.

(** A different segment under a number seen before, out of sequence. *)
Definition is_conflict (t : TransportAssembly) (seq : Z) : bool :=
  negb (seq =? next_sequence (ta_last_sequence t) 63) &&
  (if bt_get (seen_segments t) seq then true else false).

(** A first segment: a new assembly, giving up a pending one. *)
Definition start_transport (l : Limits) (w : Work) (frame : LinkFrame) (frame_id seq : Z) : result Work :=
  let key := (lf_source frame, lf_destination frame) in
  let d := user_data frame in
  w ← match bt_get (transport w) key with
      | Some old =>
          let w := with_transport w (bt_remove (transport w) key) in
          w ← note l w "dnp3_transport_restart_before_fin" (packets (ta_bytes old)) (lf_stream_offset frame);
          interrupt l w key
      | None => Ok w
      end;
  n ← sub_ovf (len d) 1;
  if max_application_bytes l <? n then Err (limit "dnp3_application_bytes")
  else
    piece ← Provenance.slice d 1 (len d);
    Ok (with_transport w (bt_insert (transport w) key
          {| ta_last_sequence := seq; seen_segments := [(seq, data d)];
             ta_direction := lc_direction (lf_link_control frame); ta_bytes := piece; ta_frames := [frame_id] |})).

(** A later segment in sequence. *)
Definition extend_transport (l : Limits) (w : Work) (frame : LinkFrame) (frame_id seq : Z) (t : TransportAssembly)
    : result Work :=
  let d := user_data frame in
  piece ← Provenance.slice d 1 (len d);
  bytes ← append (ta_bytes t) piece (max_application_bytes l);
  if max_protocol_messages l <=? zlen (ta_frames t) then Err (limit "dnp3_transport_frames")
  else
    Ok (with_transport w (bt_insert (transport w) (lf_source frame, lf_destination frame)
          {| ta_last_sequence := seq; seen_segments := bt_insert (seen_segments t) seq (data d);
             ta_direction := ta_direction t; ta_bytes := bytes; ta_frames := ta_frames t ++ [frame_id] |})).

(** A segment that contradicts the pending assembly. *)
Definition reject_transport (l : Limits) (w : Work) (frame : LinkFrame) (old : TransportAssembly) (c : string)
    : result Work :=
  let key := (lf_source frame, lf_destination frame) in
  let w := with_transport w (bt_remove (transport w) key) in
  w ← note l w c (sort_dedup (packets (ta_bytes old) ++ packets (user_data frame))) (lf_stream_offset frame);
  interrupt l w key.

(** Where a segment goes; [false] is [continue]. *)
Definition place_segment (l : Limits) (w : Work) (frame : LinkFrame) (frame_id seq : Z) (first : bool)
    : result (Work * bool) :=
  let key := (lf_source frame, lf_destination frame) in
  let at_ := lf_stream_offset frame in
  let d := user_data frame in
  match bt_get (transport w) key with
  | Some previous =>
      if is_duplicate previous seq (data d) then
        if max_protocol_messages l <=? zlen (ta_frames previous) then Err (limit "dnp3_transport_frames")
        else
          let w := with_transport w (bt_insert (transport w) key
                     {| ta_last_sequence := ta_last_sequence previous; seen_segments := seen_segments previous;
                        ta_direction := ta_direction previous; ta_bytes := ta_bytes previous;
                        ta_frames := ta_frames previous ++ [frame_id] |}) in
          w ← note l w (if ta_last_sequence previous =? seq then "duplicate_dnp3_transport_segment"
                        else "reordered_duplicate_dnp3_transport_segment") (packets d) at_;
          Ok (w, false)
      else if negb first && is_conflict previous seq then
        w ← reject_transport l w frame previous "conflicting_dnp3_transport_duplicate"; Ok (w, false)
      else if first then w ← start_transport l w frame frame_id seq; Ok (w, true)
      else if negb (seq =? next_sequence (ta_last_sequence previous) 63) then
        w ← reject_transport l w frame previous "dnp3_transport_sequence_gap_or_conflict"; Ok (w, false)
      else w ← extend_transport l w frame frame_id seq previous; Ok (w, true)
  | None =>
      if first then w ← start_transport l w frame frame_id seq; Ok (w, true)
      else
        w ← note l w "orphan_dnp3_transport_segment" (packets d) at_;
        w ← interrupt l w key;
        Ok (w, false)
  end.

(** The transport segment of a frame; the completed assembly, [None] is [continue]. *)
Definition on_transport (l : Limits) (w : Work) (frame : LinkFrame) (frame_id : Z)
    : result (Work * option TransportAssembly) :=
  let key := (lf_source frame, lf_destination frame) in
  header ← idx (data (user_data frame)) 0;
  r ← place_segment l w frame frame_id (Z.land header 63) (has_bits header 0x40);
  let '(w, placed) := r in
  if placed && has_bits header 0x80 then
    complete ← ok_or (bt_get (transport w) key) (limit "dnp3_state");
    Ok (with_transport w (bt_remove (transport w) key), Some complete)
  else Ok (w, None).

(** The packets of the frames of a fragment. *)
Definition frame_packets (out : Dnp3Result) (ids : list Z) : result (list PacketId) :=
  ps ← foldM (λ acc i, f ← index (frames out) i; Ok (acc ++ packets (lf_raw f))) [] ids;
  Ok (sort_dedup ps).

(** A first fragment: a new assembly, emitting a pending one as incomplete. *)
Definition start_application (l : Limits) (w : Work) (direction : bool) (frag : ApplicationFragment) (frag_id : Z)
    (ps : list PacketId) : result Work :=
  let key := (af_source frag, af_destination frag, af_class frag) in
  w ← match bt_get (applications w) key with
      | Some old => o ← emit_app (out w) old false l; Ok (with_apps w o (bt_remove (applications w) key))
      | None => Ok w
      end;
  Ok (with_apps w (out w) (bt_insert (applications w) key
        {| aa_direction := direction; aa_source := af_source frag; aa_destination := af_destination frag;
           aa_function := af_function frag; aa_first_sequence := af_sequence frag;
           aa_last_sequence := af_sequence frag; aa_class := af_class frag; aa_fragments := [frag_id];
           aa_objects := af_objects frag; aa_packets := ps |})).

(** A later fragment: joined when it continues the pending assembly. *)
Definition extend_application (l : Limits) (w : Work) (frag : ApplicationFragment) (frag_id at_ : Z)
    (ps : list PacketId) : result Work :=
  let key := (af_source frag, af_destination frag, af_class frag) in
  match bt_get (applications w) key with
  | Some previous =>
      if (af_sequence frag =? next_sequence (aa_last_sequence previous) 15) && (af_function frag =? aa_function previous)
      then
        objects ← append (aa_objects previous) (af_objects frag) (max_application_bytes l);
        Ok (with_apps w (out w) (bt_insert (applications w) key
              {| aa_direction := aa_direction previous; aa_source := aa_source previous;
                 aa_destination := aa_destination previous; aa_function := aa_function previous;
                 aa_first_sequence := aa_first_sequence previous; aa_last_sequence := af_sequence frag;
                 aa_class := aa_class previous; aa_fragments := aa_fragments previous ++ [frag_id];
                 aa_objects := objects; aa_packets := aa_packets previous ++ ps |}))
      else
        let w := with_apps w (out w) (bt_remove (applications w) key) in
        w ← note l w "dnp3_application_sequence_gap_or_conflict" ps at_;
        o ← emit_app (out w) previous false l;
        Ok (with_out w o)
  | None => note l w "orphan_dnp3_application_fragment" ps at_
  end.

(** The application fragment of a completed transport assembly. *)
Definition on_application (l : Limits) (w : Work) (frame : LinkFrame) (assembled : TransportAssembly) : result Work :=
  let key := (lf_source frame, lf_destination frame) in
  let at_ := lf_stream_offset frame in
  r ← catch (app_fragment (ta_bytes assembled) (fst key) (snd key) (ta_frames assembled));
  match r with
  | inr _ =>
      w ← note l w "invalid_dnp3_application_header" (packets (ta_bytes assembled)) at_;
      interrupt l w key
  | inl frag =>
      if max_protocol_messages l <=? zlen (fragments (out w)) then Err (limit "dnp3_fragments")
      else
        let frag_id := zlen (fragments (out w)) in
        let app_key := (af_source frag, af_destination frag, af_class frag) in
        ps ← frame_packets (out w) (af_frames frag);
        w ← (if bool_decide (af_class frag = McUnknown)
             then note l w "unsupported_or_inconsistent_dnp3_application_function" ps at_ else Ok w);
        w ← (if af_first frag
             then start_application l w (lc_direction (lf_link_control frame)) frag frag_id ps
             else extend_application l w frag frag_id at_ ps);
        let o := out w in
        let w := with_out w {| frames := frames o; fragments := fragments o ++ [frag]; messages := messages o;
                               issues := issues o; rejected_link_ranges := rejected_link_ranges o |} in
        if final_fragment frag then
          match bt_get (applications w) app_key with
          | Some done_ =>
              o ← emit_app (out w) done_ true l;
              Ok (with_apps w o (bt_remove (applications w) app_key))
          | None => Ok w
          end
        else Ok w
  end.

(** Lines 653-962: a good frame of [used] octets. *)
Definition on_frame (l : Limits) (w : Work) (frame : LinkFrame) (used : Z) : result Work :=
  p ← add_ovf usize_max (pos w) used;
  r ← on_link l (with_pos w p (skipped w)) frame;
  match r with
  | (w, None) => Ok w
  | (w, Some frame_id) =>
      w ← on_direction l w frame;
      r ← on_transport l w frame frame_id;
      match r with
      | (w, None) => Ok w
      | (w, Some assembled) => on_application l w frame assembled
      end
  end.

(** One round of the loop over a chunk. *)
Definition chunk_step (l : Limits) (chunk : StreamChunk) (w : Work) : result (step Work Work) :=
  let bytes := c_bytes chunk in
  if negb (pos w <? len bytes) then Ok (Break w)
  else
    two ← add_ovf usize_max (pos w) 2;
    if negb (bool_decide (get_range (data bytes) (pos w) two = Some [0x05; 0x64])) then
      s ← add_ovf usize_max (skipped w) 1;
      p ← add_ovf usize_max (pos w) 1;
      Ok (Continue (with_pos w p s))
    else
      parsed ← catch (parse_link bytes (pos w) (c_offset chunk));
      match parsed with
      | inr e => on_bad_frame l chunk w e
      | inl (frame, used) =>
          w ← resynchronize l chunk w;
          w ← on_frame l w frame used;
          Ok (Continue w)
      end.

(** The checks on a chunk before it is scanned (lines 517-529). *)
Definition check_chunk (chunk : StreamChunk) : result unit :=
  extent ← ok_or (if len (c_bytes chunk) <=? i64_max then Some (len (c_bytes chunk)) else None) (limit "stream_offset");
  ok_or (checked_add_signed i64_min i64_max (c_offset chunk) extent) (limit "stream_offset") ;;
  if negb (validate (c_bytes chunk)) then Err (error_new Invariant 0 "provenance" "invalid DNP3 source spans")
  else Ok ().

(** After the loop (lines 964-984). *)
Definition finish_chunk (l : Limits) (chunk : StreamChunk) (w : Work) : result (Dnp3Result * Z) :=
  w ← (if 0 <? skipped w then
         start ← sub_ovf (pos w) (skipped w);
         piece ← Provenance.slice (c_bytes chunk) start (pos w);
         at_ ← offset_at (c_offset chunk) start;
         note l w "trailing_unframed_dnp3_bytes" (packets piece) at_
       else Ok w);
  o ← foldM (λ o (kv : (Z * Z) * TransportAssembly),
               at_ ← offset_at (c_offset chunk) (len (c_bytes chunk));
               issue o "incomplete_dnp3_transport_at_gap_or_eof" (packets (ta_bytes kv.2)) at_ l) (out w) (transport w);
  o ← foldM (λ o (kv : (Z * Z * MessageClass) * AppAssembly), emit_app o kv.2 false l) o (applications w);
  Ok (o, rejected_bytes w).

Definition decode_chunk (l : Limits) (st : Dnp3Result * Z) (chunk : StreamChunk) : result (Dnp3Result * Z) :=
  check_chunk chunk ;;
  w ← loop (S (length (data (c_bytes chunk)))) (chunk_step l chunk)
        {| out := fst st; rejected_bytes := snd st; transport := []; applications := []; pos := 0; skipped := 0 |};
  finish_chunk l chunk w.

(** [decode]. *)
Definition decode (stream : StreamResult) (l : Limits) : result Dnp3Result :=
  Errors.validate l ;;
  r ← foldM (decode_chunk l) (result_default, 0) (chunks stream);
  Ok (fst r).

(** ** Datagrams (src/datagram.rs) *)

Record DatagramAnalysis : Type := {
  da_scope : Scope;
  da_source : Endpoint;
  da_destination : Endpoint;
  da_packets : list PacketId;
  da_payload : EvidenceBytes;
  da_data : Dnp3Result + Error;
}.

(** [decode_dnp3_datagram]. *)
Definition decode_dnp3_datagram (bytes : EvidenceBytes) (l : Limits) : result Dnp3Result :=
  Errors.validate l ;;
  if max_application_bytes l <? len bytes then Err (limit "dnp3_datagram_bytes")
  else if negb (validate bytes) then Err (error_new Invariant 0 "provenance" "invalid datagram source spans")
  else
    decode {| base_sequence := None; r_anchored := false;
              chunks := if is_empty bytes then [] else [{| c_offset := 0; c_bytes := bytes |}];
              gaps := []; conflicts := []; duplicate_observed_bytes := 0 |} l.

(** [analyze_udp]. *)
Definition analyze_udp (scope : Scope) (d : UdpDatagram) (contributors : list PacketId) (dnp3_ports : list Z)
    (l : Limits) : result (option DatagramAnalysis) :=
  Errors.validate l ;;
  if negb (existsb (Z.eqb (port (udp_source d))) dnp3_ports) && negb (existsb (Z.eqb (port (udp_destination d))) dnp3_ports)
  then Ok None
  else if is_empty (udp_payload d) then Ok None
  else if zlen contributors =? 0
  then Err (error_new Invariant 0 "udp_evidence" "source contributors are required")
  else
    r ← catch (decode_dnp3_datagram (udp_payload d) l);
    Ok (Some {| da_scope := scope; da_source := udp_source d; da_destination := udp_destination d;
                da_packets := sort_dedup (contributors ++ packets (udp_payload d)); da_payload := udp_payload d;
                da_data := r |}).
