(* ===== verification/Dnp3AppFacts.v ===== *)
(** * Correctness of DNP3 reassembly

    What may be assembled from what: [assembled] for transport segments of one
    address pair, [joined] for application fragments, both over the frames (the
    fragments) of one chunk only.  The invariant of the loop over a chunk says that
    everything pending and everything reported is of that form; the theorems at the
    end are about whole streams and datagrams. *)

From Stdlib Require Import Sorting.Sorted.
From S2P Require Import Errors Ord Provenance Wire Stream Dnp3Link Dnp3LinkFacts Dnp3App Prelude.

(** ** Specification *)

Section spec.
Context (fs : list LinkFrame) (lo : Z).

(** Frame [i], not before [lo], with its transport octet and the rest of its data. *)
Definition segment (pair : Z * Z) (dir : bool) (i : Z) (f : LinkFrame) (h : Z) (rest : list Z) : Prop :=
  lo ≤ i ∧ get fs i = Some f ∧ (lf_source f, lf_destination f) = pair ∧ lc_direction (lf_link_control f) = dir ∧
  data (user_data f) = h :: rest.

(** [assembled pair dir ids s bytes os fin]: the frames [ids] of one address pair and
    direction, the first with FIR, the last accepted sequence number [s], every further
    segment without FIR and with the next number modulo 64, or an exact repetition of
    one of them, which adds nothing; none but the last, and that iff [fin], has FIN.
    [bytes] and [os] are the segments without their transport octets, and their sources. *)
Inductive assembled (pair : Z * Z) (dir : bool) :
    list Z → Z → list Z → list (PacketId * Z) → bool → Prop :=
  | as_first i f h rest :
      segment pair dir i f h rest → has_bits h 0x40 = true →
      assembled pair dir [i] (Z.land h 63) rest (drop 1 (origins (user_data f))) (has_bits h 0x80)
  | as_next ids s bytes os i f h rest :
      assembled pair dir ids s bytes os false → segment pair dir i f h rest → has_bits h 0x40 = false →
      Z.land h 63 = (s + 1) mod 64 → (∀ j, j ∈ ids → j < i) →
      assembled pair dir (ids ++ [i]) (Z.land h 63) (bytes ++ rest) (os ++ drop 1 (origins (user_data f)))
        (has_bits h 0x80)
  | as_duplicate ids s bytes os i f h rest j g :
      assembled pair dir ids s bytes os false → segment pair dir i f h rest →
      j ∈ ids → segment pair dir j g h rest → (∀ j, j ∈ ids → j < i) →
      assembled pair dir (ids ++ [i]) s bytes os false.

(** An application fragment: a complete assembly and the fields of its header. *)
Definition fragment_ok (r : ApplicationFragment) : Prop :=
  ∃ dir s c fn rest,
    assembled (af_source r, af_destination r) dir (af_frames r) s (data (af_raw r)) (origins (af_raw r)) true ∧
    data (af_raw r) = c :: fn :: rest ∧ af_control r = c ∧ af_function r = fn ∧ af_sequence r = c mod 16 ∧
    af_class r = app_class fn (has_bits c 0x10) ∧ af_first r = has_bits c 0x80 ∧
    final_fragment r = has_bits c 0x40 ∧ confirmation_requested r = has_bits c 0x20 ∧
    let header := if (fn =? 0x81) || (fn =? 0x82) then 4 else 2 in
    header ≤ zlen (data (af_raw r)) ∧
    af_iin r = (if (fn =? 0x81) || (fn =? 0x82)
                then Some (from_le_bytes (Prelude.sub (data (af_raw r)) 2 4)) else None) ∧
    ev_ok (af_objects r) ∧ data (af_objects r) = drop (Z.to_nat header) (data (af_raw r)) ∧
    origins (af_objects r) = drop (Z.to_nat header) (origins (af_raw r)) ∧ ev_ok (af_raw r).
End spec.

Section messages.
Context (fs : list LinkFrame) (frs : list ApplicationFragment) (lo : Z).

Definition fragment_at (key : Z * Z * MessageClass) (i : Z) (r : ApplicationFragment) : Prop :=
  lo ≤ i ∧ get frs i = Some r ∧ (af_source r, af_destination r, af_class r) = key.

(** [joined key ids fn s0 s objs os fin]: the fragments [ids] of one address pair and
    class, the first with FIR, every further one without it, with the next sequence
    number modulo 16 and the same function; none but the last, and that iff [fin], is
    final.  [objs] and [os] are their objects and the sources of these. *)
Inductive joined (key : Z * Z * MessageClass) :
    list Z → Z → Z → Z → list Z → list (PacketId * Z) → bool → Prop :=
  | jn_first i r :
      fragment_at key i r → af_first r = true →
      joined key [i] (af_function r) (af_sequence r) (af_sequence r) (data (af_objects r)) (origins (af_objects r))
        (final_fragment r)
  | jn_next ids fn s0 s objs os i r :
      joined key ids fn s0 s objs os false → fragment_at key i r → af_first r = false →
      af_function r = fn → af_sequence r = (s + 1) mod 16 → (∀ j, j ∈ ids → j < i) →
      joined key (ids ++ [i]) fn s0 (af_sequence r) (objs ++ data (af_objects r)) (os ++ origins (af_objects r))
        (final_fragment r).

(** The packets cited are those of the frames of the fragments. *)
Definition cites (ids : list Z) (ps : list PacketId) : Prop :=
  ∀ p, p ∈ ps ↔ ∃ i r j f, i ∈ ids ∧ get frs i = Some r ∧ j ∈ af_frames r ∧ get fs j = Some f ∧ p ∈ packets (lf_raw f).

Definition message_ok (m : ApplicationMessage) : Prop :=
  (∃ s, joined (am_source m, am_destination m, am_class m) (am_fragments m) (am_function m) (am_first_sequence m) s
          (data (am_objects m)) (origins (am_objects m)) (complete m)) ∧
  ev_ok (am_objects m) ∧ cites (am_fragments m) (am_packets m).
End messages.

(** One chunk: the frames are encodings found in it, fragments are assembled from them
    alone, messages joined from these fragments alone. *)
Definition chunk_decoded (c : StreamChunk) (o o' : Dnp3Result) : Prop :=
  (∃ fs, frames o' = frames o ++ fs ∧
     Forall (λ f, ∃ p n, 0 ≤ p ∧ link_post (c_bytes c) p (c_offset c) (f, n)) fs) ∧
  (∃ frs, fragments o' = fragments o ++ frs ∧ Forall (fragment_ok (frames o') (zlen (frames o))) frs) ∧
  (∃ ms, messages o' = messages o ++ ms ∧
     Forall (message_ok (frames o') (fragments o') (zlen (fragments o))) ms).

Inductive decoded : list StreamChunk → Dnp3Result → Prop :=
  | decoded_nil : decoded [] result_default
  | decoded_snoc cs c o o' : decoded cs o → chunk_decoded c o o' → decoded (cs ++ [c]) o'.

(** ** Growing results *)

Lemma get_app_Some {A} (l k : list A) i x : get l i = Some x → get (l ++ k) i = Some x.
Proof. rewrite !get_Some. intros [H1 H2]. split; [done|]. by apply lookup_app_l_Some. Qed.

Lemma get_length {A} (l k : list A) x : get (l ++ x :: k) (zlen l) = Some x.
Proof. apply get_Some. split; [apply zlen_nonneg|]. unfold zlen. rewrite Nat2Z.id. by apply list_lookup_middle. Qed.

Lemma get_index {E A} (l : list A) i x : get l i = Some x → index (E:=E) l i = Ok x.
Proof. unfold get, index. destruct (0 <=? i); [|done]. by intros ->. Qed.

Lemma segment_grow fs k lo pair dir i f h rest :
  segment fs lo pair dir i f h rest → segment (fs ++ k) lo pair dir i f h rest.
Proof. intros (H1 & H2 & H3). split_and!; try done; try apply H3. by apply get_app_Some. Qed.

Lemma assembled_grow fs k lo pair dir ids s bytes os fin :
  assembled fs lo pair dir ids s bytes os fin → assembled (fs ++ k) lo pair dir ids s bytes os fin.
Proof. induction 1; econstructor; eauto using segment_grow. Qed.

Lemma fragment_ok_grow fs k lo r : fragment_ok fs lo r → fragment_ok (fs ++ k) lo r.
Proof. intros (dir & s & c & fn & rest & H & Hr). exists dir, s, c, fn, rest. split; [by apply assembled_grow|done]. Qed.

Lemma joined_grow frs k lo key ids fn s0 s objs os fin :
  joined frs lo key ids fn s0 s objs os fin → joined (frs ++ k) lo key ids fn s0 s objs os fin.
Proof. induction 1 as [i r [? []]|? ? ? ? ? ? ? ? ? ? [? []]]; econstructor; eauto; split; eauto using get_app_Some. Qed.

(** Every frame of an assembly and every fragment of a message exists. *)
Lemma assembled_get fs lo pair dir ids s bytes os fin i :
  assembled fs lo pair dir ids s bytes os fin → i ∈ ids → ∃ f, get fs i = Some f ∧ lo ≤ i < zlen fs.
Proof.
  assert (∀ j f h rest, segment fs lo pair dir j f h rest → ∃ f, get fs j = Some f ∧ lo ≤ j < zlen fs) as Hs.
  { intros j f h rest (Hlo & Hg & _). exists f. split; [done|]. apply get_Some in Hg as [H1 H2].
    apply lookup_lt_Some in H2. unfold zlen. lia. }
  induction 1; rewrite ?elem_of_app, list_elem_of_singleton; naive_solver.
Qed.

Lemma joined_get frs lo key ids fn s0 s objs os fin i :
  joined frs lo key ids fn s0 s objs os fin → i ∈ ids → ∃ r, get frs i = Some r ∧ lo ≤ i < zlen frs.
Proof.
  assert (∀ j r, fragment_at frs lo key j r → ∃ r, get frs j = Some r ∧ lo ≤ j < zlen frs) as Hs.
  { intros j r (Hlo & Hg & _). exists r. split; [done|]. apply get_Some in Hg as [H1 H2].
    apply lookup_lt_Some in H2. unfold zlen. lia. }
  induction 1; rewrite ?elem_of_app, list_elem_of_singleton; naive_solver.
Qed.

Lemma get_app_inv {A} (l k : list A) i x y : get l i = Some x → get (l ++ k) i = Some y → y = x.
Proof. intros H1%(get_app_Some _ k) H2. congruence. Qed.

Lemma cites_grow fs frs k1 k2 lo ids ps :
  (∀ i, i ∈ ids → ∃ r, get frs i = Some r ∧ fragment_ok fs lo r) →
  cites fs frs ids ps → cites (fs ++ k1) (frs ++ k2) ids ps.
Proof.
  intros Hids Hc p. rewrite (Hc p). split.
  - intros (i & r & j & f & Hi & Hr & Hj & Hf & Hp). exists i, r, j, f. split_and!; eauto using get_app_Some.
  - intros (i & r & j & f & Hi & Hr & Hj & Hf & Hp). destruct (Hids i Hi) as (r' & Hr' & Hok).
    pose proof (get_app_inv _ _ _ _ _ Hr' Hr) as ->. destruct Hok as (dir & s & c & fn & rest & Has & _).
    destruct (assembled_get _ _ _ _ _ _ _ _ _ j Has Hj) as (g & Hg & _).
    pose proof (get_app_inv _ _ _ _ _ Hg Hf) as ->. by exists i, r', j, g.
Qed.

Lemma sub_full_from {A} (k : list A) a : 0 ≤ a → Prelude.sub k a (zlen k) = drop (Z.to_nat a) k.
Proof. intros. unfold sub. apply take_ge. rewrite length_drop. unfold zlen. lia. Qed.

(** The segment without its transport octet. *)
Lemma segment_body f h rest :
  ev_ok (user_data f) → data (user_data f) = h :: rest →
  ∃ e, Provenance.slice (user_data f) 1 (len (user_data f)) = Ok e ∧ ev_ok e ∧ data e = rest ∧
       origins e = drop 1 (origins (user_data f)).
Proof.
  intros Hev Hd. unfold len. pose proof (zlen_nonneg rest).
  destruct (slice_ev_ok (user_data f) 1 (zlen (data (user_data f))) Hev) as (e & -> & He & Hde & Hoe);
    [lia|rewrite Hd, zlen_cons; lia|lia|]. exists e. split_and!; [done|done|..].
  - rewrite Hde, Hd, sub_full_from by lia. done.
  - rewrite Hoe, <- (zlen_origins _ Hev), sub_full_from by lia. done.
Qed.

(** ** The loop over a chunk *)

Section chunk.
Context (l : Limits) (Hlim : max_application_bytes l ≤ i64_max).
Context (c : StreamChunk) (Hc : ev_ok (c_bytes c)).
Context (Hoff : i64_min ≤ c_offset c ∧ c_offset c + zlen (data (c_bytes c)) ≤ i64_max).
Context (o0 : Dnp3Result).

Abbreviation flo := (zlen (frames o0)).
Abbreviation glo := (zlen (fragments o0)).

(** A pending transport assembly; its map of segments holds segments of its frames. *)
Definition transport_ok (fs : list LinkFrame) (key : Z * Z) (t : TransportAssembly) : Prop :=
  assembled fs flo key (ta_direction t) (ta_frames t) (ta_last_sequence t) (data (ta_bytes t)) (origins (ta_bytes t)) false ∧
  ev_ok (ta_bytes t) ∧
  ∀ s b, bt_get (seen_segments t) s = Some b →
    ∃ j g h rest, j ∈ ta_frames t ∧ segment fs flo key (ta_direction t) j g h rest ∧ b = h :: rest ∧ Z.land h 63 = s.

(** A pending application assembly; [fin] once its final fragment has been added. *)
Definition app_ok (fs : list LinkFrame) (frs : list ApplicationFragment) (fin : bool)
    (key : Z * Z * MessageClass) (a : AppAssembly) : Prop :=
  joined frs glo key (aa_fragments a) (aa_function a) (aa_first_sequence a) (aa_last_sequence a)
    (data (aa_objects a)) (origins (aa_objects a)) fin ∧
  key = (aa_source a, aa_destination a, aa_class a) ∧ ev_ok (aa_objects a) ∧ cites fs frs (aa_fragments a) (aa_packets a).

Definition transports_ok (fs : list LinkFrame) (t : TransportMap) : Prop :=
  Forall (λ kv, transport_ok fs kv.1 kv.2) t.
Definition apps_ok (fs : list LinkFrame) (frs : list ApplicationFragment) (a : AppMap) : Prop :=
  Forall (λ kv, app_ok fs frs false kv.1 kv.2) a.

Record work_ok (w : Work) : Prop := {
  wk_out : chunk_decoded c o0 (out w);
  wk_transport : transports_ok (frames (out w)) (transport w);
  wk_apps : apps_ok (frames (out w)) (fragments (out w)) (applications w);
  wk_skipped : 0 ≤ skipped w ≤ pos w;
  wk_pos : pos w ≤ zlen (data (c_bytes c));
  wk_rejected : 0 ≤ rejected_bytes w;
}.

(** Same frames, fragments and messages. *)
Definition same_reports (o o' : Dnp3Result) : Prop :=
  frames o' = frames o ∧ fragments o' = fragments o ∧ messages o' = messages o.

Lemma chunk_decoded_same o o' : same_reports o o' → chunk_decoded c o0 o → chunk_decoded c o0 o'.
Proof. intros (H1 & H2 & H3). unfold chunk_decoded. by rewrite H1, H2, H3. Qed.

Lemma wp_issue o code ps at_ (Q : Dnp3Result → Prop) :
  (∀ o', same_reports o o' → Q o') → wp (issue o code ps at_ l) Q is_limit.
Proof. intros HQ. unfold issue. destruct (_ <=? _); [by eexists|]. apply wp_ok, HQ. done. Qed.

(** The packets of an assembly: sorted and distinct, the same set. *)
Lemma cites_sort_dedup fs frs ids ps : cites fs frs ids ps → cites fs frs ids (sort_dedup ps).
Proof. intros H p. by rewrite elem_of_sort_dedup. Qed.

Lemma wp_emit o key a fin (Q : Dnp3Result → Prop) :
  chunk_decoded c o0 o → app_ok (frames o) (fragments o) fin key a →
  (∀ o', frames o' = frames o → fragments o' = fragments o → chunk_decoded c o0 o' → Q o') →
  wp (emit_app o a fin l) Q is_limit.
Proof.
  intros (Hf & Hg & (ms & Hm & Hms)) (Hj & -> & He & Hci) HQ. unfold emit_app. destruct (_ <=? _); [by eexists|].
  apply wp_ok, HQ; [done..|]. split_and!; try done. cbn [messages frames fragments].
  eexists (ms ++ [_]). rewrite Hm, <- app_assoc. split; [done|]. apply Forall_app, conj; [done|]. apply Forall_singleton.
  split_and!; [by eexists|done|by apply cites_sort_dedup].
Qed.

Lemma wp_note w code ps at_ (Q : Work → Prop) :
  work_ok w → (∀ w', work_ok w' → same_reports (out w) (out w') → transport w' = transport w →
                     applications w' = applications w → pos w' = pos w → skipped w' = skipped w →
                     rejected_bytes w' = rejected_bytes w → Q w') →
  wp (note l w code ps at_) Q is_limit.
Proof.
  intros Hw HQ. unfold note. apply wp_bind, wp_issue. intros o' Ho. apply wp_ok, HQ; try done.
  destruct Hw as [H1 H2 H3 H4 H5 H6]. destruct Ho as (Ho1 & Ho2 & Ho3). split; try done; cbn.
  - by eapply chunk_decoded_same.
  - by rewrite Ho1.
  - by rewrite Ho1, Ho2.
Qed.

(** Dropping pending entries and emitting them keeps the invariant. *)
Lemma work_transport w t : work_ok w → transports_ok (frames (out w)) t → work_ok (with_transport w t).
Proof. intros [] Ht. by split. Qed.

Lemma work_remove_transport w key : work_ok w → work_ok (with_transport w (bt_remove (transport w) key)).
Proof. intros Hw. apply work_transport; [done|]. apply Forall_bt_remove, Hw. Qed.

Lemma work_apps w o a :
  work_ok w → frames o = frames (out w) → fragments o = fragments (out w) → chunk_decoded c o0 o →
  apps_ok (frames o) (fragments o) a → work_ok (with_apps w o a).
Proof. intros [] Hf Hg Ho Ha. split; try done. cbn. by rewrite Hf. Qed.

Lemma wp_interrupt_applications o a key (Q : Dnp3Result * AppMap → Prop) :
  chunk_decoded c o0 o → apps_ok (frames o) (fragments o) a →
  (∀ o' a', frames o' = frames o → fragments o' = fragments o → chunk_decoded c o0 o' →
     apps_ok (frames o) (fragments o) a' → Q (o', a')) →
  wp (interrupt_applications o a key l) Q is_limit.
Proof.
  intros Ho Ha HQ. unfold interrupt_applications.
  apply (wp_foldM (λ _ oa, frames oa.1 = frames o ∧ fragments oa.1 = fragments o ∧ chunk_decoded c o0 oa.1 ∧
                           apps_ok (frames o) (fragments o) oa.2) _ _ _ _ []).
  - intros _ cl _ [o1 a1] _ (H1 & H2 & H3 & H4). cbn [fst snd] in *.
    destruct (bt_get a1 (key, cl)) as [p|] eqn:Hp; [|by apply wp_ok].
    pose proof (Forall_bt_get _ _ _ _ H4 Hp) as Hpend. cbn [fst snd] in Hpend.
    apply wp_bind, (wp_emit _ (key, cl) _ false); [done|by rewrite H1, H2|]. intros o2 Hf Hg Ho2. apply wp_ok. cbn [fst snd].
    rewrite Hf, Hg. split_and!; try done. by apply Forall_bt_remove.
  - done.
  - intros [o1 a1] (H1 & H2 & H3 & H4). by apply HQ.
Qed.

Lemma wp_interrupt w key (Q : Work → Prop) :
  work_ok w → (∀ w', work_ok w' → frames (out w') = frames (out w) → transport w' = transport w →
                     pos w' = pos w → skipped w' = skipped w → rejected_bytes w' = rejected_bytes w → Q w') →
  wp (interrupt l w key) Q is_limit.
Proof.
  intros Hw HQ. unfold interrupt. apply wp_bind, wp_interrupt_applications; [apply Hw..|].
  intros o' a' Hf Hg Ho Ha. apply wp_ok, HQ; try done. cbn [fst snd]. apply work_apps; try done. by rewrite Hf, Hg.
Qed.

Lemma wp_drop_pair w key (Q : Work → Prop) :
  work_ok w → (∀ w', work_ok w' → frames (out w') = frames (out w) → transport w' = bt_remove (transport w) key →
                     pos w' = pos w → skipped w' = skipped w → rejected_bytes w' = rejected_bytes w → Q w') →
  wp (drop_pair l w key) Q is_limit.
Proof. intros Hw HQ. unfold drop_pair. apply wp_interrupt; [by apply work_remove_transport|]. intros w' ?????. by apply HQ. Qed.

(** Emitting every pending application. *)
Lemma wp_emit_all o a (Q : Dnp3Result → Prop) :
  chunk_decoded c o0 o → apps_ok (frames o) (fragments o) a →
  (∀ o', frames o' = frames o → fragments o' = fragments o → chunk_decoded c o0 o' → Q o') →
  wp (foldM (λ o (kv : (Z * Z * MessageClass) * AppAssembly), emit_app o kv.2 false l) o a) Q is_limit.
Proof.
  intros Ho Ha HQ.
  apply (wp_foldM (λ _ o1, frames o1 = frames o ∧ fragments o1 = fragments o ∧ chunk_decoded c o0 o1) _ _ _ _ []).
  - intros pre [k p] post o1 Heq (H1 & H2 & H3). rewrite app_nil_l in Heq. unfold apps_ok in Ha.
    rewrite Heq, Forall_app, Forall_cons in Ha. cbn [snd] in *.
    apply (wp_emit _ k _ false); [done|rewrite H1, H2; apply Ha|]. intros o2 ???. split_and!; congruence || done.
  - done.
  - intros o1 (H1 & H2 & H3). by apply HQ.
Qed.

(** One issue per pending transport. *)
Lemma wp_issue_all (code : string) (o : Dnp3Result) (t : TransportMap) (at_ : result Z) (Q : Dnp3Result → Prop) :
  (∃ a, at_ = Ok a) → (∀ o', same_reports o o' → Q o') →
  wp (foldM (λ o (kv : (Z * Z) * TransportAssembly), a ← at_; issue o code (packets (ta_bytes kv.2)) a l) o t) Q is_limit.
Proof.
  intros [a ->] HQ. apply (wp_foldM (λ _, same_reports o) _ _ _ _ []); [|done|auto].
  intros _ kv _ o1 _ (H1 & H2 & H3). rewrite bind_Ok. apply wp_issue. intros o2 (G1 & G2 & G3).
  split_and!; congruence.
Qed.

Lemma wp_abandon code w at_ (Q : Work → Prop) :
  work_ok w → (∀ w', work_ok w' → frames (out w') = frames (out w) → transport w' = [] → applications w' = [] →
                     pos w' = pos w → skipped w' = skipped w → rejected_bytes w' = rejected_bytes w → Q w') →
  wp (abandon l code w at_) Q is_limit.
Proof.
  intros Hw HQ. unfold abandon. apply wp_bind, (wp_issue_all code (out w) (transport w) (Ok at_)); [by eexists|].
  intros o1 H1. pose proof (chunk_decoded_same _ _ H1 (wk_out w Hw)) as Ho1. destruct H1 as (H1 & H2 & H3).
  apply wp_bind, wp_emit_all; [done|rewrite H1, H2; apply Hw|]. intros o2 G1 G2 G3. apply wp_ok, HQ; try done; [|cbn; congruence].
  destruct Hw. split; try done; cbn; constructor.
Qed.

(** Offsets inside the chunk. *)
Lemma wp_offset_at p (Q : Z → Prop) (R : Error → Prop) :
  0 ≤ p ≤ zlen (data (c_bytes c)) → Q (c_offset c + p) → wp (offset_at (c_offset c) p) Q R.
Proof using Hc Hoff.
  intros Hp HQ. destruct Hc as [(_ & Hmax & _) _]. unfold offset_at.
  assert (as_signed 64 p = p) as ->.
  { unfold as_signed. change (2 ^ (64 - 1)) with 9223372036854775808. by rewrite (proj2 (Z.ltb_lt _ _)) by lia. }
  apply wp_signed_ovf; [lia|done].
Qed.

Lemma wp_piece a b (Q : EvidenceBytes → Prop) (R : Error → Prop) :
  0 ≤ a → a ≤ b → b ≤ zlen (data (c_bytes c)) → (∀ e, Q e) → wp (Provenance.slice (c_bytes c) a b) Q R.
Proof using Hc.
  intros Ha Hab Hb HQ. destruct (slice_ev_ok (c_bytes c) a b Hc Ha Hab Hb) as (e & -> & _). apply wp_ok, HQ.
Qed.

Lemma work_pos w p s :
  work_ok w → 0 ≤ s ≤ p → p ≤ zlen (data (c_bytes c)) → work_ok (with_pos w p s).
Proof. intros [] Hs Hp. by split. Qed.

(** The header check never aborts; a declared length is at least ten. *)
Lemma wp_declared_length tail (Q : option Z → Prop) (R : Error → Prop) :
  bytes_ok tail → (∀ d, (∀ n, d = Some n → 10 ≤ n ≤ 292) → Q d) → wp (declared_length tail) Q R.
Proof.
  intros Hb HQ. unfold declared_length. destruct (Z.ltb_spec (zlen tail) 10); [apply wp_ok, HQ; naive_solver|].
  pose proof (nthz_byte tail 2 Hb) as H2. unfold is_byte in H2.
  apply wp_bind, wp_idx; [lia|]. destruct (Z.ltb_spec (nthz tail 2) 5); [apply wp_ok, HQ; naive_solver|].
  apply wp_bind, wp_slice; [lia..|]. apply wp_bind, wp_slice; [lia..|].
  apply wp_bind, wp_le16; [rewrite zlen_sub; lia|]. destruct (negb _); [apply wp_ok, HQ; naive_solver|].
  apply wp_bind, wp_sub_ovf; [lia|]. apply wp_ok, HQ. intros n [= <-]. unfold div_ceil. dlia.
Qed.

(** After a bad frame scanning goes on behind it or stops. *)
Lemma wp_on_bad_frame w e :
  work_ok w → pos w < zlen (data (c_bytes c)) →
  wp (on_bad_frame l c w e)
    (λ r, match r with Continue w' => work_ok w' ∧ pos w < pos w' | Break w' => work_ok w' end) is_limit.
Proof using Hc Hoff.
  intros Hw Hp. pose proof (wk_skipped w Hw) as Hs. pose proof (wk_pos w Hw) as Hpos. pose proof Hc as [(Hby & Hmax & _) _].
  unfold on_bad_frame. apply wp_bind, wp_offset_at; [lia|]. apply wp_bind, wp_abandon; [done|].
  intros w1 Hw1 Hf1 _ _ Hp1 Hs1 Hr1. apply wp_bind, wp_add_ovf; [lia|]. unfold len.
  apply wp_bind, wp_piece; [lia..|]. intros pc. apply wp_bind, wp_note; [done|]. intros w2 Hw2 _ _ _ Hp2 Hs2 Hr2.
  rewrite Hp1 in Hp2. apply wp_bind. unfold slice_from. apply wp_slice; [lia..|].
  set (tail := Prelude.sub (data (c_bytes c)) (pos w2) (zlen (data (c_bytes c)))).
  assert (zlen tail = zlen (data (c_bytes c)) - pos w) as Hz by (unfold tail; rewrite zlen_sub; lia).
  assert (bytes_ok tail) as Htb by (by apply bytes_ok_sub).
  apply wp_bind, wp_declared_length; [done|]. intros d Hd.
  apply wp_bind, wp_ok_or; [|intros _; by eexists]. intros rb Hrb.
  assert (0 ≤ Z.min (default (zlen tail) d) (zlen tail) ≤ zlen tail) as Hcap.
  { destruct d as [n|]; simpl; [specialize (Hd n eq_refl)|]; pose proof (zlen_nonneg tail); lia. }
  assert (0 ≤ rb) as Hrb0.
  { pose proof (wk_rejected w2 Hw2). destruct (checked_add _ _ _) as [n|] eqn:Hn; [|done].
    apply checked_add_Some in Hn as [-> _]. destruct (_ <=? _); [|done]. injection Hrb as <-. lia. }
  destruct (_ <=? zlen (rejected_link_ranges _)); [by eexists|].
  apply wp_bind, wp_add_ovf; [lia|]. apply wp_bind, wp_piece; [lia..|]. intros raw. cbv zeta.
  match goal with |- context [declared_length tail ≫= ?f] => set (k := f) end.
  assert (∀ o, same_reports (out w2) o → work_ok {| out := o; rejected_bytes := rb; transport := transport w2;
    applications := applications w2; pos := pos w2; skipped := skipped w2 |}) as Hw3.
  { intros o Ho. pose proof (chunk_decoded_same _ _ Ho (wk_out w2 Hw2)) as Hco. destruct Ho as (E1 & E2 & E3).
    destruct Hw2. split; try done; cbn; by rewrite ?E1, ?E2. }
  apply wp_bind, wp_declared_length; [done|]. intros d2 Hd2. unfold k.
  destruct d2 as [n|]; [specialize (Hd2 n eq_refl)|]; cbn [pos out].
  - apply wp_bind, wp_add_ovf; [lia|]. apply wp_bind, wp_piece; [lia..|]. intros pc2.
    apply wp_bind, wp_note; [by apply Hw3|]. intros w4 Hw4 _ _ _ Hp4 _ _. cbn in Hp4. apply wp_ok. split; [|cbn; lia].
    apply work_pos; [done|lia|lia].
  - apply wp_bind, wp_piece; [lia..|]. intros pc2. apply wp_bind, wp_note; [by apply Hw3|].
    intros w4 Hw4 _ _ _ _ _ _. by apply wp_ok.
Qed.

Lemma wp_resynchronize w (Q : Work → Prop) :
  work_ok w → (∀ w', work_ok w' → frames (out w') = frames (out w) → pos w' = pos w → skipped w' = 0 → Q w') →
  wp (resynchronize l c w) Q is_limit.
Proof using Hc Hoff.
  intros Hw HQ. pose proof (wk_skipped w Hw) as Hs. pose proof (wk_pos w Hw) as Hpos. pose proof Hc as [(Hby & Hmax & _) _].
  unfold resynchronize. destruct (Z.ltb_spec 0 (skipped w)); [|apply wp_ok, HQ; done || lia].
  apply wp_bind, wp_offset_at; [lia|]. apply wp_bind, wp_abandon; [done|]. intros w1 Hw1 Hf1 _ _ Hp1 Hs1 _.
  rewrite Hp1, Hs1. apply wp_bind, wp_sub_ovf; [lia|]. apply wp_bind, wp_piece; [lia..|]. intros pc.
  apply wp_bind, wp_offset_at; [lia|]. apply wp_bind, wp_note; [done|]. intros w2 Hw2 (Hf2 & _) _ _ Hp2 _ _.
  apply wp_ok, HQ; [|by rewrite <- Hf1, <- Hf2|cbn; congruence|done].
  apply work_pos; [done|lia|lia].
Qed.

(** ** One frame *)

(** The pending assemblies use frames before [id] only. *)
Definition fresh (id : Z) (t : TransportMap) : Prop := Forall (λ kv, ∀ j, j ∈ ta_frames kv.2 → j < id) t.

Lemma work_fresh w : work_ok w → fresh (zlen (frames (out w))) (transport w).
Proof.
  intros Hw. eapply Forall_impl; [apply Hw|]. intros [k t] (Has & _) j Hj. cbn [snd] in *.
  destruct (assembled_get _ _ _ _ _ _ _ _ _ j Has Hj) as (f & _ & ?). lia.
Qed.

Lemma fragment_of o i r :
  chunk_decoded c o0 o → glo ≤ i → get (fragments o) i = Some r → fragment_ok (frames o) flo r.
Proof.
  intros (_ & (frs & Hg & Hall) & _) Hi [H0 Hget]%get_Some. rewrite Hg in Hget.
  rewrite lookup_app_r in Hget by (unfold zlen in Hi; lia). by eapply Forall_lookup_1 in Hall.
Qed.

Lemma app_fragments o fin key a i :
  chunk_decoded c o0 o → app_ok (frames o) (fragments o) fin key a → i ∈ aa_fragments a →
  ∃ r, get (fragments o) i = Some r ∧ fragment_ok (frames o) flo r.
Proof.
  intros Ho (Hj & _) Hi. destruct (joined_get _ _ _ _ _ _ _ _ _ _ i Hj Hi) as (r & Hr & Hlo & _).
  exists r. split; [done|]. by eapply fragment_of.
Qed.

Lemma app_ok_grow o k1 k2 fin key a :
  chunk_decoded c o0 o → app_ok (frames o) (fragments o) fin key a →
  app_ok (frames o ++ k1) (fragments o ++ k2) fin key a.
Proof.
  intros Ho Ha. pose proof (λ i, app_fragments o fin key a i Ho Ha) as Hfr. destruct Ha as (Hj & Hk & He & Hci).
  split_and!; [by apply joined_grow|done|done|]. by apply (cites_grow _ _ _ _ flo).
Qed.

Lemma transport_ok_grow fs k key t : transport_ok fs key t → transport_ok (fs ++ k) key t.
Proof.
  intros (Has & He & Hseen). split_and!; [by apply assembled_grow|done|]. intros s b Hb.
  destruct (Hseen s b Hb) as (j & g & h & rest & Hj & Hg & Hr). exists j, g, h, rest. split_and!; try done; try apply Hr.
  by apply segment_grow.
Qed.

Lemma message_grow o k1 k2 m :
  chunk_decoded c o0 o → message_ok (frames o) (fragments o) glo m →
  message_ok (frames o ++ k1) (fragments o ++ k2) glo m.
Proof.
  intros Ho ((s & Hj) & He & Hci). split_and!; [exists s; by apply joined_grow|done|].
  apply (cites_grow _ _ _ _ flo); [|done]. intros i Hi.
  destruct (joined_get _ _ _ _ _ _ _ _ _ _ i Hj Hi) as (r & Hr & Hlo & _). exists r. split; [done|]. by eapply fragment_of.
Qed.

(** A frame is recorded. *)
Lemma work_frame w f p n :
  work_ok w → 0 ≤ p → link_post (c_bytes c) p (c_offset c) (f, n) →
  work_ok (with_out w {| frames := frames (out w) ++ [f]; fragments := fragments (out w); messages := messages (out w);
                         issues := issues (out w); rejected_link_ranges := rejected_link_ranges (out w) |}).
Proof.
  intros Hw Hp Hpost. pose proof (wk_out w Hw) as Ho. destruct Hw as [_ Ht Ha Hs Hpos Hr]. split; cbn; try done.
  - destruct Ho as ((fs & Hf & Hfs) & (frs & Hg & Hgs) & (ms & Hm & Hms)). split_and!; cbn.
    + exists (fs ++ [f]). rewrite Hf, app_assoc. split; [done|]. apply Forall_app, conj, Forall_singleton; [done|].
      exists p, n. done.
    + exists frs. split; [done|]. eapply Forall_impl; [done|]. intros r Hrok. by apply fragment_ok_grow.
    + exists ms. split; [done|]. eapply Forall_impl; [done|]. intros m Hmok.
      pose proof (message_grow (out w) [f] [] m) as Hmg. rewrite app_nil_r in Hmg. apply Hmg; [|done].
      by split_and!; [exists fs|exists frs|exists ms].
  - eapply Forall_impl; [exact Ht|]. intros kv. apply transport_ok_grow.
  - eapply Forall_impl; [exact Ha|]. intros kv Hkv. pose proof (app_ok_grow (out w) [f] [] false kv.1 kv.2 Ho Hkv) as Hga.
    by rewrite app_nil_r in Hga.
Qed.

(** What holds while frame [id] is processed. *)
Definition during (f : LinkFrame) (id p s : Z) (w : Work) : Prop :=
  work_ok w ∧ get (frames (out w)) id = Some f ∧ flo ≤ id ∧ fresh id (transport w) ∧ pos w = p ∧ skipped w = s.

Lemma during_note f id p s w code ps at_ (Q : Work → Prop) :
  during f id p s w → (∀ w', during f id p s w' → transport w' = transport w → applications w' = applications w →
                             fragments (out w') = fragments (out w) → Q w') →
  wp (note l w code ps at_) Q is_limit.
Proof.
  intros (Hw & Hg & Hlo & Hfr & Hp & Hs) HQ. apply wp_note; [done|]. intros w' Hw' (E1 & E2 & _) Ht Ha Hp' Hs' _.
  apply HQ; try done. split_and!; try done; congruence || by rewrite Ht.
Qed.

Lemma during_interrupt f id p s w key (Q : Work → Prop) :
  during f id p s w → (∀ w', during f id p s w' → transport w' = transport w → Q w') →
  wp (interrupt l w key) Q is_limit.
Proof.
  intros (Hw & Hg & Hlo & Hfr & Hp & Hs) HQ. apply wp_interrupt; [done|]. intros w' Hw' E1 Ht Hp' Hs' _.
  apply HQ; try done. split_and!; try done; congruence || by rewrite Ht.
Qed.

Lemma during_remove f id p s w key :
  during f id p s w → during f id p s (with_transport w (bt_remove (transport w) key)).
Proof.
  intros (Hw & Hg & Hlo & Hfr & Hp & Hs). split_and!; try done; [by apply work_remove_transport|].
  by apply Forall_bt_remove.
Qed.

Lemma during_drop f id p s w key (Q : Work → Prop) :
  during f id p s w → (∀ w', during f id p s w' → transport w' = bt_remove (transport w) key → Q w') →
  wp (drop_pair l w key) Q is_limit.
Proof. intros Hd HQ. unfold drop_pair. apply (during_interrupt f id p s); [by apply during_remove|]. auto. Qed.

Lemma wp_on_link w f q n :
  work_ok w → 0 ≤ q → link_post (c_bytes c) q (c_offset c) (f, n) →
  wp (on_link l w f)
    (λ '(w', r), ∃ id, during f id (pos w) (skipped w) w' ∧
       match r with Some i => i = id ∧ data (user_data f) ≠ [] | None => True end) is_limit.
Proof.
  intros Hw Hq Hpost. unfold on_link. destruct (_ <=? _); [by eexists|]. cbv zeta.
  assert (∀ w1 code (b : bool) (Q : Work → Prop), work_ok w1 →
    (∀ w2, work_ok w2 → frames (out w2) = frames (out w1) → transport w2 = transport w1 → pos w2 = pos w1 →
           skipped w2 = skipped w1 → Q w2) →
    wp (if b then note l w1 code (packets (lf_raw f)) (lf_stream_offset f) else Ok w1) Q is_limit) as Hnote.
  { intros w1 code b Q Hw1 HQ. destruct b; [|by apply wp_ok, HQ].
    apply wp_note; [done|]. intros w2 Hw2 (E & _) Ht _ Hp Hs _. by apply HQ. }
  apply wp_bind, Hnote; [done|]. intros w1 Hw1 Hf1 Ht1 Hp1 Hs1. apply wp_bind, Hnote; [done|].
  intros w2 Hw2 Hf2 Ht2 Hp2 Hs2. pose proof (work_frame w2 f q n Hw2 Hq Hpost) as Hw3.
  match type of Hw3 with work_ok ?x => set (w3 := x) in Hw3 |- * end.
  assert (frames (out w) = frames (out w2)) as Hf by congruence. rewrite Hf.
  set (id := zlen (frames (out w2))).
  assert (during f id (pos w) (skipped w) w3) as Hd.
  { split_and!; [done|apply get_length| |by apply work_fresh in Hw2|cbn; congruence|cbn; congruence].
    destruct (wk_out w2 Hw2) as ((fs & E & _) & _). unfold id. rewrite E, zlen_app. pose proof (zlen_nonneg fs). lia. }
  clearbody w3 id. destruct (link_issue _ _ _ _) as [[ec code]|].
  - apply wp_bind, (during_note f id (pos w) (skipped w)); [done|]. intros w4 Hw4 _ _ _.
    apply wp_bind, (during_drop f id (pos w) (skipped w)); [done|]. intros w5 Hw5 _. apply wp_ok. by exists id.
  - destruct (is_empty (user_data f)) eqn:He; [apply wp_ok; by exists id|].
    destruct (negb _).
    + apply wp_bind, (during_note f id (pos w) (skipped w)); [done|]. intros w4 Hw4 _ _ _.
      apply wp_bind, (during_drop f id (pos w) (skipped w)); [done|]. intros w5 Hw5 _. apply wp_ok. by exists id.
    + apply wp_ok. exists id. split_and!; try done. intros E. unfold is_empty in He. by rewrite E in He.
Qed.

(** After the check every pending assembly of the pair has the frame's direction. *)
Lemma wp_on_direction w f id p s :
  during f id p s w →
  wp (on_direction l w f)
    (λ w', during f id p s w' ∧
       ∀ t, bt_get (transport w') (lf_source f, lf_destination f) = Some t →
            ta_direction t = lc_direction (lf_link_control f)) is_limit.
Proof.
  intros Hd. unfold on_direction. cbv zeta.
  destruct (match bt_get (transport w) (lf_source f, lf_destination f) with Some q => _ | None => false end) eqn:Ht;
    cbn [orb]; [|destruct (existsb _ all_classes)].
  - apply wp_bind, (during_note f id p s); [done|]. intros w1 Hw1 Et _ _. apply (during_drop f id p s); [done|].
    intros w2 Hw2 ->. split; [done|]. by rewrite bt_get_remove_eq.
  - apply wp_bind, (during_note f id p s); [done|]. intros w1 Hw1 Et _ _. apply (during_drop f id p s); [done|].
    intros w2 Hw2 ->. split; [done|]. by rewrite bt_get_remove_eq.
  - apply wp_ok. split; [done|]. intros t Hg. rewrite Hg in Ht. apply negb_false_iff in Ht. by apply eqb_prop.
Qed.

(** ** The transport segment *)

Lemma bt_remove_insert {K V} `{Ord K} (m : list (K * V)) k v : bt_remove (bt_insert m k v) k = bt_remove m k.
Proof.
  induction m as [|[k' v'] m IH]; simpl; [by rewrite cmp_refl|].
  destruct (cmp k k') eqn:E; simpl; rewrite ?E, ?cmp_refl; simpl; rewrite ?E; [done|done|by rewrite IH].
Qed.

(** An assembly that may just have been completed. *)
Definition placed_ok (fs : list LinkFrame) (key : Z * Z) (fin : bool) (t : TransportAssembly) : Prop :=
  assembled fs flo key (ta_direction t) (ta_frames t) (ta_last_sequence t) (data (ta_bytes t)) (origins (ta_bytes t)) fin ∧
  ev_ok (ta_bytes t) ∧
  ∀ s b, bt_get (seen_segments t) s = Some b →
    ∃ j g h rest, j ∈ ta_frames t ∧ segment fs flo key (ta_direction t) j g h rest ∧ b = h :: rest ∧ Z.land h 63 = s.

Lemma next_sequence_mod s : next_sequence s 63 = (s + 1) mod 64.
Proof. unfold next_sequence. change 63 with (Z.ones 6). by rewrite Z.land_ones by lia. Qed.

Lemma next_sequence_mod16 s : next_sequence s 15 = (s + 1) mod 16.
Proof. unfold next_sequence. change 15 with (Z.ones 4). by rewrite Z.land_ones by lia. Qed.

(** [append] within the limit, or the limit error. *)
Lemma wp_append e o lim (Q : EvidenceBytes → Prop) :
  ev_ok e → ev_ok o → lim ≤ i64_max →
  (∀ e', ev_ok e' → data e' = data e ++ data o → origins e' = origins e ++ origins o → Q e') →
  wp (append e o lim) Q is_limit.
Proof.
  intros He Ho Hl HQ. destruct (Z.le_gt_cases (zlen (data e) + zlen (data o)) lim) as [Hle|Hgt].
  - destruct (append_ev_ok e o lim He Ho) as (e' & -> & H1 & H2 & H3); [lia|]. by apply wp_ok, HQ.
  - pose proof (ev_ok_layout e He) as [Hl1 _]. pose proof (ev_ok_layout o Ho) as [Hl2 _].
    unfold append. rewrite Hl1, Hl2. cbn [negb orb]. apply wp_bind, wp_ok_or; [|intros _; by eexists].
    intros n [-> _]%checked_add_Some. rewrite (proj2 (Z.ltb_lt _ _)) by lia. by eexists.
Qed.

Section frame.
Context (f : LinkFrame) (Hev : ev_ok (user_data f)) (h : Z) (rest : list Z) (Hd : data (user_data f) = h :: rest).
Context (id p s : Z).

Abbreviation pair := ((lf_source f, lf_destination f)).
Abbreviation dir := (lc_direction (lf_link_control f)).

Lemma frame_segment w : during f id p s w → segment (frames (out w)) flo pair dir id f h rest.
Proof using All. intros (_ & Hg & Hlo & _). split_and!; done. Qed.

Lemma wp_body (Q : EvidenceBytes → Prop) (R : Error → Prop) :
  (∀ e, ev_ok e → data e = rest → origins e = drop 1 (origins (user_data f)) → Q e) →
  wp (Provenance.slice (user_data f) 1 (len (user_data f))) Q R.
Proof using Hev Hd.
  intros HQ. destruct (segment_body f h rest Hev Hd) as (e & -> & H1 & H2 & H3). by apply wp_ok, HQ.
Qed.

(** The result of placing a segment. *)
Definition placed (w' : Work) : Prop :=
  ∃ w t, during f id p s w ∧ placed_ok (frames (out w)) pair (has_bits h 0x80) t ∧
    w' = with_transport w (bt_insert (transport w) pair t).

Lemma wp_start_transport w :
  during f id p s w → has_bits h 0x40 = true → wp (start_transport l w f id (Z.land h 63)) placed is_limit.
Proof using All.
  intros Hw Hfir. unfold start_transport. cbv zeta.
  apply wp_bind. apply (wp_mono _ (during f id p s) _ is_limit is_limit); [|intros w1 Hw1|done].
  { destruct (bt_get _ _); [|by apply wp_ok]. apply wp_bind, (during_note f id p s); [by apply during_remove|].
    intros w1 Hw1 _ _ _. by apply (during_interrupt f id p s). }
  apply wp_bind, wp_sub_ovf; [unfold len; rewrite Hd, zlen_cons; pose proof (zlen_nonneg rest); lia|].
  destruct (_ <? _); [by eexists|]. apply wp_bind, wp_body. intros e He Hde Hoe. apply wp_ok.
  eexists w1, _. split; [done|split; [|done]]. unfold placed_ok. cbn.
  pose proof (frame_segment w1 Hw1) as Hs. split_and!; [|done|].
  - rewrite Hde, Hoe. by eapply as_first.
  - intros s' b. cbn. destruct (Z.compare s' (Z.land h 63)) eqn:E; try done. intros [= <-].
    exists id, f, h, rest. apply Z.compare_eq_iff in E. split_and!; try done; [by apply list_elem_of_singleton|apply Hs..].
Qed.

Lemma wp_extend_transport w t :
  during f id p s w → has_bits h 0x40 = false → bt_get (transport w) pair = Some t → ta_direction t = dir →
  Z.land h 63 = (ta_last_sequence t + 1) mod 64 →
  wp (extend_transport l w f id (Z.land h 63) t) placed is_limit.
Proof using All.
  intros Hw Hfir Ht Hdir Hseq. unfold extend_transport. cbv zeta.
  pose proof Hw as (Hwk & _ & _ & Hfr & _). pose proof (Forall_bt_get _ _ _ _ (wk_transport w Hwk) Ht) as (Has & Het & Hseen).
  pose proof (Forall_bt_get _ _ _ _ Hfr Ht) as Hlt. cbn [fst snd] in *. pose proof (frame_segment w Hw) as Hs.
  apply wp_bind, wp_body. intros e He Hde Hoe. apply wp_bind, wp_append; [done|done|done|]. intros b Hb Hdb Hob.
  destruct (_ <=? _); [by eexists|]. apply wp_ok. eexists w, _. split; [done|split; [|done]]. unfold placed_ok. cbn.
  rewrite Hdir in *. split_and!; [|done|].
  - rewrite Hdb, Hob, Hde, Hoe. by eapply as_next.
  - intros s' b'. rewrite bt_get_insert. destruct (decide _) as [Heq|].
    + intros [= <-]. exists id, f, h, rest. split_and!; try done; [apply elem_of_app; right; by apply list_elem_of_singleton|apply Hs..].
    + intros (j & g & h' & rest' & Hj & Hg)%Hseen. exists j, g, h', rest'. split; [|done]. apply elem_of_app. by left.
Qed.

(** A repetition: the frame is noted in the assembly, which is otherwise unchanged. *)
Lemma duplicate_ok w t :
  during f id p s w → bt_get (transport w) pair = Some t → ta_direction t = dir →
  is_duplicate t (Z.land h 63) (data (user_data f)) = true →
  during f id p s w → work_ok (with_transport w (bt_insert (transport w) pair
    {| ta_last_sequence := ta_last_sequence t; seen_segments := seen_segments t; ta_direction := ta_direction t;
       ta_bytes := ta_bytes t; ta_frames := ta_frames t ++ [id] |})).
Proof using All.
  intros Hw Ht Hdir Hdup _. pose proof Hw as (Hwk & _ & _ & Hfr & _).
  pose proof (Forall_bt_get _ _ _ _ (wk_transport w Hwk) Ht) as (Has & Het & Hseen).
  pose proof (Forall_bt_get _ _ _ _ Hfr Ht) as Hlt. cbn [fst snd] in *. pose proof (frame_segment w Hw) as Hs.
  apply work_transport; [done|]. apply Forall_bt_insert; [apply Hwk|]. cbn. unfold is_duplicate in Hdup.
  apply andb_true_iff in Hdup as [_ Hdup]. destruct (bt_get (seen_segments t) _) as [b|] eqn:Hb; [|done].
  apply bytes_eqb_eq in Hdup. destruct (Hseen _ _ Hb) as (j & g & h' & rest' & Hj & Hg & Hbeq & _).
  rewrite Hbeq, Hd in Hdup. injection Hdup as -> ->. rewrite Hdir in *. split_and!; [|done|].
  - by eapply as_duplicate.
  - intros s' b' (j' & g' & h' & rest' & Hj' & Hg')%Hseen. exists j', g', h', rest'. split; [|done].
    apply elem_of_app. by left.
Qed.

Definition at_pos (w : Work) : Prop := work_ok w ∧ pos w = p ∧ skipped w = s.

Lemma during_at_pos w : during f id p s w → at_pos w.
Proof. intros (Hw & _ & _ & _ & Hp & Hs). done. Qed.

Lemma wp_reject_transport w t code (Q : Work → Prop) :
  during f id p s w → (∀ w', at_pos w' → Q w') → wp (reject_transport l w f t code) Q is_limit.
Proof.
  intros Hw HQ. unfold reject_transport. cbv zeta. apply wp_bind, (during_note f id p s); [by apply during_remove|].
  intros w1 Hw1 _ _ _. apply (during_interrupt f id p s); [done|]. intros w2 Hw2 _. by apply HQ, during_at_pos.
Qed.

Definition place_post (r : Work * bool) : Prop := if r.2 then placed r.1 else at_pos r.1.

Lemma wp_place_segment w :
  during f id p s w → (∀ t, bt_get (transport w) pair = Some t → ta_direction t = dir) →
  wp (place_segment l w f id (Z.land h 63) (has_bits h 0x40)) place_post is_limit.
Proof using All.
  intros Hw Hdir. unfold place_segment. cbv zeta.
  assert (has_bits h 0x40 = true →
    wp (w1 ← start_transport l w f id (Z.land h 63); Ok (w1, true)) place_post is_limit) as Hstart.
  { intros Hfir. apply wp_bind. eapply wp_mono; [by apply wp_start_transport| |done]. intros w1 Hw1. by apply wp_ok. }
  destruct (bt_get (transport w) pair) as [t|] eqn:Ht.
  - specialize (Hdir t eq_refl). destruct (is_duplicate t _ _) eqn:Hdup.
    { destruct (_ <=? _); [by eexists|]. pose proof (duplicate_ok w t Hw Ht Hdir Hdup Hw) as Hw1.
      apply wp_bind, wp_note; [done|]. intros w2 Hw2 _ _ _ Hp2 Hs2 _. apply wp_ok.
      destruct Hw as (_ & _ & _ & _ & Hp & Hs). split; [done|]. cbn in Hp2, Hs2 |- *. split; congruence. }
    destruct (has_bits h 0x40) eqn:Hfir; cbn [negb andb]; [by apply Hstart|].
    destruct (is_conflict t _).
    { apply wp_bind, wp_reject_transport; [done|]. intros w1 Hw1. by apply wp_ok. }
    rewrite next_sequence_mod. destruct (Z.eqb_spec (Z.land h 63) ((ta_last_sequence t + 1) mod 64)); cbn [negb].
    + apply wp_bind. eapply wp_mono; [by apply wp_extend_transport| |done]. intros w1 Hw1. by apply wp_ok.
    + apply wp_bind, wp_reject_transport; [done|]. intros w1 Hw1. by apply wp_ok.
  - destruct (has_bits h 0x40) eqn:Hfir; [by apply Hstart|]. apply wp_bind, (during_note f id p s); [done|].
    intros w1 Hw1 _ _ _. apply wp_bind, (during_interrupt f id p s); [done|]. intros w2 Hw2 _. apply wp_ok.
    by apply during_at_pos.
Qed.

Lemma wp_on_transport w :
  during f id p s w → (∀ t, bt_get (transport w) pair = Some t → ta_direction t = dir) →
  wp (on_transport l w f id)
    (λ '(w', r), at_pos w' ∧
       match r with Some t => placed_ok (frames (out w')) pair true t | None => True end) is_limit.
Proof using All.
  intros Hw Hdir. unfold on_transport. cbv zeta. rewrite Hd. apply wp_bind, wp_idx; [rewrite zlen_cons; pose proof (zlen_nonneg rest); lia|].
  change (nthz (h :: rest) 0) with h. apply wp_bind. eapply wp_mono; [by apply wp_place_segment| |done].
  intros [w1 b] Hb. unfold place_post in Hb. cbn [fst snd] in Hb. destruct b; cbn [andb]; [|by apply wp_ok].
  destruct Hb as (w2 & t & Hw2 & Ht & ->). destruct (has_bits h 0x80).
  - cbn [transport with_transport]. rewrite bt_get_insert_eq. cbn [ok_or]. rewrite bind_Ok. apply wp_ok.
    split; [|done]. rewrite bt_remove_insert.
    by apply (during_at_pos (with_transport w2 (bt_remove (transport w2) pair))), during_remove.
  - apply wp_ok. split; [|done]. apply during_at_pos in Hw2 as (Hw2 & Hp2 & Hs2). split_and!; try done.
    apply work_transport; [done|]. apply Forall_bt_insert; [apply Hw2|]. done.
Qed.
End frame.

(** ** The application fragment *)

Lemma mod16 v : Z.land v 15 = v mod 16.
Proof. change 15 with (Z.ones 4). by rewrite Z.land_ones by lia. Qed.

Lemma wp_app_fragment fs bytes src dst ids dir s :
  assembled fs flo (src, dst) dir ids s (data bytes) (origins bytes) true → ev_ok bytes →
  wp (app_fragment bytes src dst ids)
    (λ r, fragment_ok fs flo r ∧ af_source r = src ∧ af_destination r = dst ∧ af_frames r = ids) (λ _, True).
Proof.
  intros Has He. unfold app_fragment. cbv zeta. destruct (Z.ltb_spec (zlen (data bytes)) 2) as [|Hlen]; [done|].
  destruct (data bytes) as [|ct [|fn rest]] eqn:Hdata; rewrite ?zlen_cons, ?zlen_nil in Hlen; [lia|lia|]. rewrite <- Hdata in *.
  assert (zlen (data bytes) = 2 + zlen rest) as Hz by (rewrite Hdata, !zlen_cons; lia). pose proof (zlen_nonneg rest).
  apply wp_bind, wp_idx; [lia|]. apply wp_bind, wp_idx; [lia|].
  assert (nthz (data bytes) 0 = ct ∧ nthz (data bytes) 1 = fn) as [-> ->] by (by rewrite Hdata).
  set (response := (fn =? 0x81) || (fn =? 0x82)). set (header := if response then 4 else 2).
  assert (2 ≤ header ≤ 4 ∧ (response = true → header = 4)) as [Hh Hresp] by (unfold header; destruct response; split; done || lia).
  destruct (Z.ltb_spec (zlen (data bytes)) header) as [|Hlong]; [done|].
  apply wp_bind. apply (wp_mono _ (λ v, v = if response then Some (from_le_bytes (Prelude.sub (data bytes) 2 4)) else None)
    _ (λ _, True) (λ _, True)); [|intros iin ->|done].
  { destruct response; [|done]. specialize (Hresp eq_refl). apply wp_bind, wp_slice; [lia..|].
    apply wp_bind, wp_le16; [rewrite zlen_sub; lia|]. done. }
  destruct (slice_ev_ok bytes header (len bytes) He) as (objs & -> & Hobj & Hdo & Hoo); [unfold len; lia..|].
  rewrite bind_Ok. apply wp_ok. split; [|done]. exists dir, s, ct, fn, rest. cbn [af_source af_destination af_frames af_raw
    af_control af_function af_sequence af_class af_first final_fragment confirmation_requested af_iin af_objects].
  split_and!; try done; [apply mod16|rewrite Hdo; unfold len; apply sub_full_from; destruct (_ || _); lia|].
  rewrite Hoo. unfold len. rewrite <- (zlen_origins bytes He). apply sub_full_from. destruct (_ || _); lia.
Qed.

Lemma wp_frame_packets o ids (Q : list PacketId → Prop) (R : Error → Prop) :
  (∀ j, j ∈ ids → ∃ f, get (frames o) j = Some f) →
  (∀ ps, (∀ q, q ∈ ps ↔ ∃ j f, j ∈ ids ∧ get (frames o) j = Some f ∧ q ∈ packets (lf_raw f)) → Q ps) →
  wp (frame_packets o ids) Q R.
Proof.
  intros Hids HQ. unfold frame_packets. apply wp_bind.
  apply (wp_foldM (λ pre ps, ∀ q, q ∈ ps ↔ ∃ j f, j ∈ pre ∧ get (frames o) j = Some f ∧ q ∈ packets (lf_raw f)) _ _ _ _ []).
  - intros pre i post acc Heq Hacc. destruct (Hids i) as [f Hf]; [rewrite app_nil_l in Heq; rewrite Heq; set_solver|].
    apply wp_bind. rewrite (get_index _ _ _ Hf). apply wp_ok, wp_ok. intros q.
    rewrite elem_of_app, Hacc. setoid_rewrite elem_of_app. setoid_rewrite list_elem_of_singleton.
    split; [intros [(j & g & Hj)|Hq]; [exists j, g; naive_solver|exists i, f; naive_solver]|].
    intros (j & g & [Hj| ->] & Hg & Hq); [left; by exists j, g|right; congruence].
  - intros q. set_solver.
  - intros ps Hps. apply wp_ok, HQ. intros q. rewrite elem_of_sort_dedup. apply Hps.
Qed.

(** A fragment is recorded. *)
Lemma work_fragment w r :
  work_ok w → fragment_ok (frames (out w)) flo r →
  work_ok (with_out w {| frames := frames (out w); fragments := fragments (out w) ++ [r]; messages := messages (out w);
                         issues := issues (out w); rejected_link_ranges := rejected_link_ranges (out w) |}).
Proof.
  intros Hw Hr. pose proof (wk_out w Hw) as Ho. destruct Hw as [_ Ht Ha Hs Hpos Hrb]. split; cbn; try done.
  - destruct Ho as ((fs & Hf & Hfs) & (frs & Hg & Hgs) & (ms & Hm & Hms)). split_and!; cbn.
    + by exists fs.
    + exists (frs ++ [r]). rewrite Hg, app_assoc. split; [done|]. by apply Forall_app, conj, Forall_singleton.
    + exists ms. split; [done|]. eapply Forall_impl; [done|]. intros m Hmok.
      pose proof (message_grow (out w) [] [r] m) as Hmg. rewrite app_nil_r in Hmg. apply Hmg; [|done].
      by split_and!; [exists fs|exists frs|exists ms].
  - eapply Forall_impl; [exact Ha|]. intros kv Hkv. pose proof (app_ok_grow (out w) [] [r] false kv.1 kv.2 Ho Hkv) as Hga.
    by rewrite app_nil_r in Hga.
Qed.

(** The packets of one more fragment. *)
Lemma cites_snoc fs frs ids ps r qs :
  (∀ i, i ∈ ids → ∃ r', get frs i = Some r') → cites fs frs ids ps →
  (∀ q, q ∈ qs ↔ ∃ j f, j ∈ af_frames r ∧ get fs j = Some f ∧ q ∈ packets (lf_raw f)) →
  cites fs (frs ++ [r]) (ids ++ [zlen frs]) (ps ++ qs).
Proof.
  intros Hids Hps Hqs q. rewrite elem_of_app, (Hps q), (Hqs q). split.
  - intros [(i & r' & j & f & Hi & Hr & Hrest)|(j & f & Hrest)].
    + exists i, r', j, f. rewrite elem_of_app. split_and!; try apply Hrest; [by left|by apply get_app_Some].
    + exists (zlen frs), r, j, f. rewrite elem_of_app, list_elem_of_singleton. split_and!; try apply Hrest; [by right|apply get_length].
  - intros (i & r' & j & f & Hi & Hr & Hrest). rewrite elem_of_app, list_elem_of_singleton in Hi. destruct Hi as [Hi| ->].
    + left. destruct (Hids i Hi) as [r'' Hr'']. pose proof (get_app_inv _ _ _ _ _ Hr'' Hr) as ->. by exists i, r'', j, f.
    + right. rewrite get_length in Hr. injection Hr as <-. by exists j, f.
Qed.

Section application.
Context (r : ApplicationFragment) (ps : list PacketId) (p s : Z) (dir : bool) (at_ : Z).
Context (objects_ok : ev_ok (af_objects r)).

Abbreviation key := ((af_source r, af_destination r, af_class r)).

(** The state with the fragment joined but not yet recorded. *)
Definition joined_state (o1 : Dnp3Result) (w : Work) : Prop :=
  ∃ w1, at_pos p s w1 ∧ frames (out w1) = frames o1 ∧ fragments (out w1) = fragments o1 ∧
    ((w = w1 ∧ bt_get (applications w1) key = None) ∨
     ∃ a, w = with_apps w1 (out w1) (bt_insert (applications w1) key a) ∧
          app_ok (frames o1) (fragments o1 ++ [r]) (final_fragment r) key a).

Definition packets_ok (o1 : Dnp3Result) : Prop :=
  ∀ q, q ∈ ps ↔ ∃ j f, j ∈ af_frames r ∧ get (frames o1) j = Some f ∧ q ∈ packets (lf_raw f).

Lemma new_fragment_at w : work_ok w → fragment_at (fragments (out w) ++ [r]) glo key (zlen (fragments (out w))) r.
Proof.
  intros Hw. split_and!; [|apply get_length|done]. destruct (wk_out w Hw) as (_ & (frs & -> & _) & _).
  rewrite zlen_app. pose proof (zlen_nonneg frs). lia.
Qed.

Lemma wp_start_application w :
  at_pos p s w → packets_ok (out w) → af_first r = true →
  wp (start_application l w dir r (zlen (fragments (out w))) ps) (joined_state (out w)) is_limit.
Proof using All.
  intros (Hw & Hp & Hs) Hps Hfir. unfold start_application. cbv zeta.
  pose proof (new_fragment_at w Hw) as Hat.
  apply wp_bind. apply (wp_mono _ (λ w1, at_pos p s w1 ∧ frames (out w1) = frames (out w) ∧ fragments (out w1) = fragments (out w))
    _ is_limit is_limit); [|intros w1 (Hw1 & Hf1 & Hg1)|done].
  - destruct (bt_get (applications w) key) as [old|] eqn:Hold; [|by apply wp_ok].
    pose proof (Forall_bt_get _ _ _ _ (wk_apps w Hw) Hold) as Hao. cbn [fst snd] in Hao.
    apply wp_bind, (wp_emit _ key _ false); [apply Hw|done|]. intros o' Hf Hg Ho'. apply wp_ok. split_and!; try done.
    split; [|done]. apply work_apps; try done. rewrite Hf, Hg. apply Forall_bt_remove, Hw.
  - apply wp_ok. exists w1. split_and!; try done. right. eexists. split; [done|].
    split_and!; [by apply jn_first|done|done|]. cbn [aa_fragments aa_packets].
    pose proof (cites_snoc (frames (out w)) (fragments (out w)) [] [] r ps) as Hc'. cbn [app] in Hc'. apply Hc'; [set_solver| |done].
    intros q. set_solver.
Qed.

Lemma wp_extend_application w :
  at_pos p s w → packets_ok (out w) → af_first r = false →
  wp (extend_application l w r (zlen (fragments (out w))) at_ ps) (joined_state (out w)) is_limit.
Proof using All.
  intros (Hw & Hp & Hs) Hps Hfir. unfold extend_application. cbv zeta. pose proof (new_fragment_at w Hw) as Hat.
  destruct (bt_get (applications w) key) as [old|] eqn:Hold.
  - pose proof (Forall_bt_get _ _ _ _ (wk_apps w Hw) Hold) as Hao. cbn [fst snd] in Hao.
    rewrite next_sequence_mod16. destruct (_ && _) eqn:Hnext.
    + apply andb_true_iff in Hnext as [Hseq%Z.eqb_eq Hfn%Z.eqb_eq]. destruct Hao as (Hj & Hk & He & Hci).
      apply wp_bind, wp_append; [done|done|done|]. intros objs Hob Hdo Hoo. apply wp_ok. exists w. split_and!; try done.
      right. eexists. split; [done|]. split_and!; cbn [aa_fragments aa_function aa_first_sequence aa_last_sequence aa_objects
        aa_source aa_destination aa_class aa_packets]; try done.
      * rewrite Hdo, Hoo. eapply jn_next; try done; [by apply joined_grow|]. intros j Hjin.
        destruct (joined_get _ _ _ _ _ _ _ _ _ _ j Hj Hjin) as (x & _ & ?). lia.
      * apply cites_snoc; [|done|done]. intros j Hjin.
        destruct (joined_get _ _ _ _ _ _ _ _ _ _ j Hj Hjin) as (x & ? & _). by exists x.
    + assert (work_ok (with_apps w (out w) (bt_remove (applications w) key))) as Hw1.
      { apply work_apps; try done; [apply Hw|]. apply Forall_bt_remove, Hw. }
      apply wp_bind, wp_note; [done|]. intros w2 Hw2 (E1 & E2 & E3) Ht2 Ha2 Hp2 Hs2 _. cbn in E1, E2, Ha2, Hp2, Hs2.
      apply wp_bind, (wp_emit _ key _ false); [apply Hw2|by rewrite E1, E2|]. intros o' Hf Hg Ho'. apply wp_ok.
      eexists. split_and!; [| | |left; split; [done|]].
      * split; [|cbn; split; congruence]. destruct Hw2 as [_ H2 H3 H4 H5 H6]. split; cbn; rewrite ?Hf, ?Hg; done.
      * cbn. congruence.
      * cbn. congruence.
      * cbn. rewrite Ha2. apply bt_get_remove_eq.
  - apply wp_note; [done|]. intros w1 Hw1 (E1 & E2 & _) _ Ha1 Hp1 Hs1 _. exists w1. split_and!; try done.
    + split; [done|split; congruence].
    + left. split; [done|]. by rewrite Ha1.
Qed.
End application.

Lemma wp_on_application w f t p s :
  at_pos p s w → placed_ok (frames (out w)) (lf_source f, lf_destination f) true t →
  wp (on_application l w f t) (at_pos p s) is_limit.
Proof using All.
  intros Hw (Has & Het & _). unfold on_application. cbv zeta. cbn [fst snd]. apply wp_bind, wp_catch.
  eapply wp_mono; [by eapply wp_app_fragment| |].
  2:{ intros e _. pose proof Hw as (Hwk & Hp & Hs). apply wp_bind, wp_note; [done|]. intros w1 Hw1 _ _ _ Hp1 Hs1 _.
      apply wp_interrupt; [done|]. intros w2 Hw2 _ _ Hp2 Hs2 _. split; [done|]. split; congruence. }
  intros r (Hr & Hsrc & Hdst & Hids). destruct (_ <=? zlen (fragments _)); [by eexists|].
  pose proof Hr as (rdir & rs & ct & fn & rest & Hras & Hrr).
  apply wp_bind, wp_frame_packets.
  { intros j Hj. destruct (assembled_get _ _ _ _ _ _ _ _ _ j Hras Hj) as (g & Hg & _). by exists g. }
  intros ps Hps. pose proof Hw as (Hwk & Hp & Hs).
  assert (ev_ok (af_objects r)) as Hobj by apply Hrr.
  apply wp_bind. apply (wp_mono _ (λ w1, at_pos p s w1 ∧ frames (out w1) = frames (out w) ∧ fragments (out w1) = fragments (out w))
    _ is_limit is_limit); [|intros w1 (Hw1 & Hf1 & Hg1)|done].
  { case_bool_decide; [|by apply wp_ok]. apply wp_note; [done|]. intros w1 Hw1 (E1 & E2 & _) _ _ Hp1 Hs1 _.
    split_and!; [split; [done|split; congruence]|done..]. }
  assert (packets_ok r ps (out w1)) as Hps1 by (intros q; rewrite Hf1; apply Hps).
  apply wp_bind. apply (wp_mono _ (joined_state r p s (out w1)) _ is_limit is_limit); [|intros w2 Hw2|done].
  { rewrite <- Hg1. destruct (af_first r) eqn:Hfir; [by apply wp_start_application|by apply wp_extend_application]. }
  destruct Hw2 as (w3 & (Hw3 & Hp3 & Hs3) & Hf3 & Hg3 & [[-> Hnone]|(a & -> & Ha)]);
    (pose proof (work_fragment w3 r Hw3) as Hw4; rewrite Hf3, Hf1 in Hw4; specialize (Hw4 Hr);
     rewrite <- Hf1, <- Hf3 in Hw4).
  - destruct (final_fragment r); cbn [applications with_out]; [rewrite Hnone|]; by apply wp_ok.
  - rewrite <- Hf3, <- Hg3 in Ha. destruct (final_fragment r).
    + cbn [applications with_out with_apps]. rewrite bt_get_insert_eq. apply wp_bind.
      apply (wp_emit _ (af_source r, af_destination r, af_class r) _ true); [apply Hw4|done|]. intros o' Hf Hg Ho'. apply wp_ok.
      split; [|done]. cbn [out with_out with_apps applications]. rewrite bt_remove_insert.
      destruct Hw4 as [_ H2 H3 H4 H5 H6]. cbn in H2, H3, Hf, Hg.
      split; cbn; rewrite ?Hf, ?Hg; try done. by apply Forall_bt_remove.
    + apply wp_ok. split; [|done]. destruct Hw4 as [H1 H2 H3 H4 H5 H6]. split; try done. cbn in H3 |- *. by apply Forall_bt_insert.
Qed.

(** A good frame of [n] octets at position [q]. *)
Lemma wp_on_frame w f n :
  work_ok w → link_post (c_bytes c) (pos w) (c_offset c) (f, n) → 0 < n →
  wp (on_frame l w f n) (at_pos (pos w + n) (skipped w)) is_limit.
Proof using All.
  intros Hw Hpost Hn. pose proof (wk_skipped w Hw) as Hs. pose proof (wk_pos w Hw) as Hpos.
  pose proof Hc as [(_ & Hmax & _) _]. assert (pos w + n ≤ zlen (data (c_bytes c))) as Hend by apply Hpost.
  assert (ev_ok (user_data f)) as Hev by apply Hpost.
  unfold on_frame. apply wp_bind, wp_add_ovf; [lia|].
  assert (work_ok (with_pos w (pos w + n) (skipped w))) as Hw1 by (apply work_pos; done || lia).
  apply wp_bind. eapply wp_mono; [by apply (wp_on_link _ f (pos w) n Hw1 ltac:(lia))| |done].
  intros [w2 [i|]] (id & Hd & Hi); cbn [pos skipped with_pos] in Hd; [|by apply wp_ok, (during_at_pos _ _ _ _ _ Hd)].
  destruct Hi as [-> Hne]. destruct (data (user_data f)) as [|h rest] eqn:Hdata; [done|].
  apply wp_bind. eapply wp_mono; [by apply wp_on_direction| |done]. intros w3 [Hd3 Hdir].
  apply wp_bind. eapply wp_mono; [by apply (wp_on_transport f Hev h rest Hdata id (pos w + n) (skipped w))| |done].
  intros [w4 [t|]] [Hw4 Ht]; [by apply wp_on_application|by apply wp_ok].
Qed.

(** ** The loop and what follows it *)

Lemma link_post_length p f n : link_post (c_bytes c) p (c_offset c) (f, n) → 0 ≤ p → 10 ≤ n.
Proof using Hc.
  intros (Hend & Hv & Henc & Hu & _) Hp. pose proof Hu as [(Hby & _ & _) _].
  destruct (encode_link_view (lf_control f) (lf_destination f) (lf_source f) (data (user_data f)) [] Hby) as (Hlen & _).
  rewrite app_nil_r, <- Henc in Hlen.
  pose proof (blocks_len_nonneg (zlen (data (user_data f))) (zlen_nonneg _)). pose proof (zlen_nonneg (data (user_data f))).
  destruct (Z.le_gt_cases 0 n); [rewrite zlen_sub in Hlen by lia; lia|].
  unfold sub in Hlen. replace (Z.to_nat (p + n - p)) with 0%nat in Hlen by lia. rewrite take_0 in Hlen. rewrite (zlen_nil (A:=Z)) in Hlen. lia.
Qed.

Lemma wp_chunk_step w :
  work_ok w →
  wp (chunk_step l c w)
    (λ r, match r with
          | Continue w' => work_ok w' ∧ 0 ≤ zlen (data (c_bytes c)) - pos w' < zlen (data (c_bytes c)) - pos w
          | Break w' => work_ok w'
          end) is_limit.
Proof using All.
  intros Hw. pose proof (wk_skipped w Hw) as Hs. pose proof (wk_pos w Hw) as Hpos. pose proof Hc as [(_ & Hmax & _) _].
  unfold chunk_step, len. cbv zeta. destruct (Z.ltb_spec (pos w) (zlen (data (c_bytes c)))) as [Hlt|]; cbn [negb]; [|by apply wp_ok].
  apply wp_bind, wp_add_ovf; [lia|]. destruct (negb _).
  { apply wp_bind, wp_add_ovf; [lia|]. apply wp_bind, wp_add_ovf; [lia|]. apply wp_ok.
    split; [apply work_pos; done || lia|cbn; lia]. }
  apply wp_bind, wp_catch. eapply wp_mono; [apply parse_link_spec; [done|lia|lia]| |].
  - intros [f n] Hpost. pose proof (link_post_length _ _ _ Hpost ltac:(lia)) as Hn.
    apply wp_bind, wp_resynchronize; [done|]. intros w1 Hw1 _ Hp1 Hs1. rewrite <- Hp1 in Hpost.
    apply wp_bind. eapply wp_mono; [by apply (wp_on_frame w1 f n Hw1 Hpost); lia| |done].
    intros w2 (Hw2 & Hp2 & _). apply wp_ok. split; [done|]. pose proof (wk_pos w2 Hw2). lia.
  - intros e _. eapply wp_mono; [by apply wp_on_bad_frame| |done]. intros [w1|w1]; [|done].
    intros [Hw1 Hp1]. split; [done|]. pose proof (wk_pos w1 Hw1). lia.
Qed.

Lemma wp_finish_chunk w :
  work_ok w → wp (finish_chunk l c w) (λ st, chunk_decoded c o0 st.1 ∧ 0 ≤ st.2) is_limit.
Proof using All.
  intros Hw. pose proof (wk_skipped w Hw) as Hs. pose proof (wk_pos w Hw) as Hpos. pose proof Hc as [(_ & Hmax & _) _].
  unfold finish_chunk. apply wp_bind. apply (wp_mono _ work_ok _ is_limit is_limit); [|intros w1 Hw1|done].
  { destruct (Z.ltb_spec 0 (skipped w)); [|by apply wp_ok]. apply wp_bind, wp_sub_ovf; [lia|].
    apply wp_bind, wp_piece; [lia..|]. intros pc. apply wp_bind, wp_offset_at; [lia|]. by apply wp_note. }
  assert (∃ a, offset_at (c_offset c) (len (c_bytes c)) = Ok a) as Hat.
  { pose proof (wp_offset_at (len (c_bytes c)) (λ _, True) (λ _, False)) as H. unfold len in *.
    pose proof (zlen_nonneg (data (c_bytes c))). destruct (offset_at _ _) as [a|e| |]; [by exists a|..]; exfalso; apply H; done || lia. }
  apply wp_bind, wp_issue_all; [done|]. intros o1 H1. pose proof (chunk_decoded_same _ _ H1 (wk_out w1 Hw1)) as Ho1.
  destruct H1 as (H1 & H2 & H3). apply wp_bind, wp_emit_all; [done|rewrite H1, H2; apply Hw1|]. intros o2 _ _ Ho2.
  apply wp_ok. split; [done|]. apply Hw1.
Qed.
End chunk.

(** ** Whole streams *)

Lemma chunk_decoded_refl c o : chunk_decoded c o o.
Proof. split_and!; exists []; by rewrite app_nil_r. Qed.

(** A chunk as the types have it. *)
Definition chunk_typed (c : StreamChunk) : Prop := ev_typed (c_bytes c) ∧ i64_min ≤ c_offset c.

(** Every error is an exhausted budget, or names a chunk whose evidence is invalid. *)
Definition dnp3_error (cs : list StreamChunk) (e : Error) : Prop :=
  is_limit e ∨
  (e = error_new Invariant 0 "provenance" "invalid DNP3 source spans" ∧ ∃ c, c ∈ cs ∧ validate (c_bytes c) = false).

Lemma wp_decode_chunk l o rb c cs :
  max_application_bytes l ≤ i64_max → chunk_typed c → 0 ≤ rb → c ∈ cs →
  wp (decode_chunk l (o, rb) c) (λ st, chunk_decoded c o st.1 ∧ 0 ≤ st.2) (dnp3_error cs).
Proof.
  intros Hl [Hty Hoff] Hrb Hin. pose proof Hty as (_ & Hmax & _). pose proof (zlen_nonneg (data (c_bytes c))) as Hz.
  unfold decode_chunk, check_chunk, len. cbn [fst snd]. rewrite (proj2 (Z.leb_le _ _)) by done. cbn [ok_or].
  apply wp_bind. rewrite bind_Ok. apply wp_bind, wp_ok_or; [|intros _; left; by eexists].
  intros x Hx. unfold checked_add_signed in Hx. destruct (_ && _) eqn:Hb in Hx; [|done]. bool_facts. clear Hx.
  destruct (validate (c_bytes c)) eqn:Hv; cbn [negb]; [|right; split; [done|by exists c]]. apply wp_ok.
  assert (ev_ok (c_bytes c)) as Hok by done. apply wp_bind.
  eapply (wp_mono _ _ _ is_limit); [|intros w Hw|by left].
  - apply (wp_loop (work_ok c o) (λ w, zlen (data (c_bytes c)) - pos w) _ (work_ok c o)).
    + intros w Hw. apply wp_chunk_step; done || lia.
    + split; cbn; [apply chunk_decoded_refl|constructor|constructor|lia..].
    + cbn. unfold zlen. lia.
  - eapply wp_mono; [apply wp_finish_chunk; done || lia|done|by left].
Qed.

Lemma decode_spec stream l :
  limits_ok l → max_application_bytes l ≤ i64_max → Forall chunk_typed (chunks stream) →
  wp (decode stream l) (decoded (chunks stream)) (dnp3_error (chunks stream)).
Proof.
  intros Hl Hmax Hcs. unfold decode. rewrite limits_ok_validate, bind_Ok by done. apply wp_bind.
  apply (wp_foldM (λ cs st, decoded cs st.1 ∧ 0 ≤ st.2) _ _ _ _ []); [|split; [constructor|done]|].
  - intros pre c post [o rb] Heq [Ho Hrb]. cbn [fst snd] in *. rewrite app_nil_l in Heq.
    assert (c ∈ chunks stream) as Hin by (rewrite Heq; set_solver).
    eapply wp_mono; [apply wp_decode_chunk; [done|by eapply Forall_forall in Hcs|done|done]| |done].
    intros [o' rb'] [Ho' Hrb']. split; [by eapply decoded_snoc|done].
  - intros [o rb] [Ho _]. apply wp_ok, Ho.
Qed.

(** C3: DNP3 reassembly is sound and total.  On every stream [decode] terminates
    without aborting.  Its frames are link encodings found in the chunks; every
    application fragment is the concatenation, byte for byte with its sources, of
    segments of frames of one chunk, address pair and direction, opened by FIR, closed
    by FIN, consecutively numbered up to exact repetitions; every message joins objects
    of consecutive fragments of one chunk, pair, class and function, is complete
    exactly when its last fragment is final, and cites exactly the packets of its
    frames.  The only errors are exhausted budgets and invalid evidence. *)
Theorem dnp3_decode_sound (stream : StreamResult) (l : Limits) :
  limits_ok l → max_application_bytes l ≤ i64_max → Forall chunk_typed (chunks stream) →
  wp (decode stream l) (decoded (chunks stream)) (dnp3_error (chunks stream)).
Proof. apply decode_spec. Qed.

(** ** Datagrams *)

Lemma analyze_udp_spec (scope : Scope) (d : UdpDatagram) (contributors : list PacketId) (ports : list Z) (l : Limits) :
  limits_ok l → max_application_bytes l ≤ i64_max → ev_typed (udp_payload d) →
  wp (analyze_udp scope d contributors ports l)
    (λ a, match a with
          | None => (port (udp_source d) ∉ ports ∧ port (udp_destination d) ∉ ports) ∨ data (udp_payload d) = []
          | Some a => (port (udp_source d) ∈ ports ∨ port (udp_destination d) ∈ ports) ∧ data (udp_payload d) ≠ [] ∧
              da_scope a = scope ∧ da_source a = udp_source d ∧ da_destination a = udp_destination d ∧
              da_payload a = udp_payload d ∧ StronglySorted lt_ord (da_packets a) ∧
              (∀ q, q ∈ da_packets a ↔ q ∈ contributors ∨ q ∈ packets (udp_payload d)) ∧
              match da_data a with
              | inl out => decoded [{| c_offset := 0; c_bytes := udp_payload d |}] out
              | inr e => is_limit e ∨ validate (udp_payload d) = false
              end
          end)
    (λ _, contributors = []).
Proof.
  intros Hl Hmax Hty. unfold analyze_udp. rewrite limits_ok_validate, bind_Ok by done.
  assert (∀ q, existsb (Z.eqb q) ports = true ↔ q ∈ ports) as Hport.
  { intros q. rewrite existsb_exists. setoid_rewrite <- list_elem_of_In. setoid_rewrite Z.eqb_eq. naive_solver. }
  destruct (negb _ && negb _) eqn:Hp.
  { bool_facts. left. rewrite <- !Hport. by split; congruence. }
  assert (port (udp_source d) ∈ ports ∨ port (udp_destination d) ∈ ports) as Hsel.
  { rewrite <- !Hport. destruct (existsb _ _); [by left|right]. by destruct (existsb _ _). }
  destruct (is_empty (udp_payload d)) eqn:He; unfold is_empty in He.
  { right. destruct (data (udp_payload d)); [done|]. rewrite zlen_cons in He. pose proof (zlen_nonneg l0). lia. }
  destruct (Z.eqb_spec (zlen contributors) 0) as [Hz|].
  { apply wp_err. destruct contributors; [done|]. rewrite zlen_cons in Hz. pose proof (zlen_nonneg contributors). lia. }
  assert (data (udp_payload d) ≠ []) as Hne by (intros E; by rewrite E in He).
  apply wp_bind, wp_catch.
  assert (wp (decode_dnp3_datagram (udp_payload d) l)
    (decoded [{| c_offset := 0; c_bytes := udp_payload d |}])
    (λ e, is_limit e ∨ validate (udp_payload d) = false)) as Hdec.
  { unfold decode_dnp3_datagram. rewrite limits_ok_validate, bind_Ok by done. destruct (_ <? _); [left; by eexists|].
    destruct (validate (udp_payload d)) eqn:Hv; cbn [negb]; [|by right]. unfold is_empty. rewrite He.
    eapply wp_mono; [apply decode_spec; [done|done|]|done|].
    - apply Forall_singleton. split; [done|cbn; lia].
    - intros e [Hlim|(_ & c & Hc%list_elem_of_singleton & Hbad)]; [by left|]. subst c. cbn in Hbad. congruence. }
  eapply wp_mono; [apply Hdec| |].
  - intros out Hout. apply wp_ok. split_and!; try done; [apply sort_dedup_sorted|].
    intros q. cbn [da_packets]. by rewrite elem_of_sort_dedup, elem_of_app.
  - intros e Hbad. apply wp_ok. split_and!; try done; [apply sort_dedup_sorted|].
    intros q. cbn [da_packets]. by rewrite elem_of_sort_dedup, elem_of_app.
Qed.

(** A UDP datagram is analysed exactly when it has a configured port and a
    payload.  [analyze_udp] terminates without aborting; the analysis keeps the
    endpoints and the payload, cites exactly the contributors and the packets of the
    payload, each once and in order, and holds what DNP3 reassembly of the payload as a
    stream of its own returns, success or error.  Without contributors it is refused. *)
Theorem analyze_udp_exact (scope : Scope) (d : UdpDatagram) (contributors : list PacketId) (ports : list Z) (l : Limits) :
  limits_ok l → max_application_bytes l ≤ i64_max → ev_typed (udp_payload d) →
  wp (analyze_udp scope d contributors ports l)
    (λ a, match a with
          | None => (port (udp_source d) ∉ ports ∧ port (udp_destination d) ∉ ports) ∨ data (udp_payload d) = []
          | Some a => (port (udp_source d) ∈ ports ∨ port (udp_destination d) ∈ ports) ∧ data (udp_payload d) ≠ [] ∧
              da_scope a = scope ∧ da_source a = udp_source d ∧ da_destination a = udp_destination d ∧
              da_payload a = udp_payload d ∧ StronglySorted lt_ord (da_packets a) ∧
              (∀ q, q ∈ da_packets a ↔ q ∈ contributors ∨ q ∈ packets (udp_payload d)) ∧
              match da_data a with
              | inl out => decoded [{| c_offset := 0; c_bytes := udp_payload d |}] out
              | inr e => is_limit e ∨ validate (udp_payload d) = false
              end
          end)
    (λ _, contributors = []).
Proof. apply analyze_udp_spec. Qed.

(** ** Witnesses *)

(** A request in two transport segments, the first one repeated. *)
Definition sample_dnp3_bytes : list Z :=
  encode_link 0xc4 1 1024 [0x45; 0xc1; 0x01; 60] ++ encode_link 0xc4 1 1024 [0x45; 0xc1; 0x01; 60] ++
  encode_link 0xc4 1 1024 [0x86; 2; 6].
Definition sample_dnp3_payload : EvidenceBytes := from_packet sample_dnp3_bytes (sample_packet 7) 42.
Definition sample_dnp3_stream : StreamResult :=
  {| base_sequence := None; r_anchored := false; chunks := [{| c_offset := 0; c_bytes := sample_dnp3_payload |}];
     gaps := []; conflicts := []; duplicate_observed_bytes := 0 |}.

Lemma sample_dnp3_ok : ev_ok sample_dnp3_payload.
Proof.
  apply from_packet_ok; [|lia|by vm_compute].
  assert (forallb (λ b, (0 <=? b) && (b <? 256)) sample_dnp3_bytes = true) as H by (by vm_compute).
  rewrite forallb_forall in H. apply Forall_forall. intros b Hb%list_elem_of_In%H. unfold is_byte. lia.
Qed.

Example sample_dnp3_decodes :
  (out ← decode sample_dnp3_stream limits_default;
   Ok ((λ r, (af_frames r, data (af_objects r))) <$> fragments out,
       (λ m, (am_fragments m, data (am_objects m), complete m)) <$> messages out, Dnp3Link.code <$> issues out)) =
  Ok ([([0; 1; 2], [60; 2; 6])], [([0], [60; 2; 6], true)], ["duplicate_dnp3_transport_segment"]).
Proof. by vm_compute. Qed.

Lemma dnp3_decode_sound_witness :
  wp (decode sample_dnp3_stream limits_default) (decoded [{| c_offset := 0; c_bytes := sample_dnp3_payload |}])
    (dnp3_error [{| c_offset := 0; c_bytes := sample_dnp3_payload |}]).
Proof.
  apply (dnp3_decode_sound sample_dnp3_stream limits_default limits_default_ok); [by vm_compute|].
  apply Forall_singleton. split; [apply sample_dnp3_ok|by vm_compute].
Defined.

Definition sample_dnp3_datagram : UdpDatagram :=
  {| udp_source := {| address := V4 [10; 0; 0; 1]; port := 20000 |};
     udp_destination := {| address := V4 [10; 0; 0; 2]; port := 40000 |}; udp_checksum := NotPresent;
     udp_payload := sample_dnp3_payload |}.

Lemma analyze_udp_witness :
  ∃ scope, wp (analyze_udp scope sample_dnp3_datagram [sample_packet 9] [20000] limits_default)
    (λ a, match a with
          | None => (20000 ∉ [20000] ∧ 40000 ∉ [20000]) ∨ data sample_dnp3_payload = []
          | Some a => (20000 ∈ [20000] ∨ 40000 ∈ [20000]) ∧ data sample_dnp3_payload ≠ [] ∧
              da_scope a = scope ∧ da_source a = udp_source sample_dnp3_datagram ∧
              da_destination a = udp_destination sample_dnp3_datagram ∧
              da_payload a = sample_dnp3_payload ∧ StronglySorted lt_ord (da_packets a) ∧
              (∀ q, q ∈ da_packets a ↔ q ∈ [sample_packet 9] ∨ q ∈ packets sample_dnp3_payload) ∧
              match da_data a with
              | inl out => decoded [{| c_offset := 0; c_bytes := sample_dnp3_payload |}] out
              | inr e => is_limit e ∨ validate sample_dnp3_payload = false
              end
          end)
    (λ _, [sample_packet 9] = []).
Proof.
  exists {| section := 0; interface := 0; link_interface := None; vlans := [] |}.
  apply (analyze_udp_exact _ sample_dnp3_datagram [sample_packet 9] [20000] limits_default limits_default_ok);
    [by vm_compute|apply sample_dnp3_ok].
Defined.
