(* ===== verification/Dnp3RoundTrip.v ===== *)
(** * DNP3 round trip

    A message that is sent as link frames with consecutively numbered transport
    segments is what [Dnp3App.decode] reports: one fragment with the octets sent and
    one complete message with its objects, without an issue. *)

From S2P Require Import Errors Ord Provenance Stream Dnp3Link Dnp3LinkFacts Dnp3App Dnp3AppFacts Prelude.

(** ** The encoding of a frame determines its fields *)

Lemma to_le_inj n a b : 0 ≤ a < 256 ^ Z.of_nat n → 0 ≤ b < 256 ^ Z.of_nat n → to_le_bytes n a = to_le_bytes n b → a = b.
Proof.
  intros Ha Hb H. apply (f_equal from_le_bytes) in H. rewrite !from_to_le in H. by rewrite !Z.mod_small in H.
Qed.

Lemma encode_link_inj c d s v r c' d' s' v' r' :
  bytes_ok v → bytes_ok v' → 0 ≤ d < 65536 → 0 ≤ d' < 65536 → 0 ≤ s < 65536 → 0 ≤ s' < 65536 →
  encode_link c d s v ++ r = encode_link c' d' s' v' ++ r' → c = c' ∧ d = d' ∧ s = s' ∧ v = v' ∧ r = r'.
Proof.
  intros Hv Hv' Hd Hd' Hs Hs' H. unfold encode_link in H. rewrite <- !app_assoc in H.
  apply app_inj_1 in H as [Hh H]; [|done]. unfold link_header in Hh.
  apply app_inj_1 in Hh as [Hh Hrest]; [|done]. injection Hh as Hz Hc. apply app_inj_1 in Hrest as [Hdd Hss]; [|by rewrite !length_to_le_bytes].
  assert (zlen v = zlen v') as Hlen by lia. apply app_inj_1 in H as [_ H]; [|by rewrite !crc_le_length].
  destruct (encode_blocks_strip (S (length v)) v r) as (S1 & _ & L1); [lia|done|].
  destruct (encode_blocks_strip (S (length v')) v' r') as (S2 & _ & L2); [lia|done|].
  assert (length v = length v') as Hl by (unfold zlen in Hlen; lia).
  assert (v = v') as ->. { rewrite <- S1, <- S2. by rewrite H, Hl, Hlen. }
  split_and!; [done|by apply (to_le_inj 2)|by apply (to_le_inj 2)|done|]. by apply app_inv_head in H.
Qed.

(** [parse_link] on bytes that continue with an encoding. *)
Lemma parse_link_encoded bytes offset base c d s v rest :
  ev_ok bytes → 0 ≤ offset → i64_min ≤ base + offset ≤ i64_max →
  drop (Z.to_nat offset) (data bytes) = encode_link c d s v ++ rest → offset ≤ zlen (data bytes) →
  bytes_ok v → zlen v ≤ 250 → 0 ≤ d < 65536 → 0 ≤ s < 65536 →
  ∃ f, parse_link bytes offset base = Ok (f, zlen (encode_link c d s v)) ∧
       link_post bytes offset base (f, zlen (encode_link c d s v)) ∧ lf_control f = c ∧ lf_destination f = d ∧
       lf_source f = s ∧ data (user_data f) = v.
Proof.
  intros Hb Ho Hbase Hdata Hle Hv Hlen Hd Hs.
  assert (sub (data bytes) offset (zlen (data bytes)) = encode_link c d s v ++ rest) as Hsub.
  { rewrite <- Hdata. apply sub_full_from. lia. }
  pose proof (parse_link_spec bytes offset base) as Hp. specialize (Hp Hb (conj Ho Hle) Hbase).
  destruct (parse_link bytes offset base) as [[f n]|e| |]; [|exfalso; by eapply Hp|done..].
  pose proof Hp as (Hend & Hvl & Henc & Hu & _ & _ & _ & _ & _ & _ & Hdst & Hsrc & _).
  pose proof Hu as [(Hbu & _ & _) _].
  pose proof (link_post_length {| c_offset := base; c_bytes := bytes |} Hb _ _ _ Hp Ho) as Hn.
  assert (sub (data bytes) offset (zlen (data bytes)) =
          sub (data bytes) offset (offset + n) ++ sub (data bytes) (offset + n) (zlen (data bytes))) as Hsplit.
  { apply sub_split; lia. }
  rewrite Hsub, Henc in Hsplit.
  apply encode_link_inj in Hsplit as (-> & -> & -> & -> & _); try done.
  assert (n = zlen (encode_link (lf_control f) (lf_destination f) (lf_source f) (data (user_data f)))) as Hz.
  { rewrite <- Henc, zlen_sub by lia. lia. }
  rewrite <- Hz. by exists f.
Qed.

(** ** Sending *)

(** The transport octet of a segment. *)
Definition transport_octet (seq : Z) (first last : bool) : Z :=
  seq + (if first then 0x40 else 0) + (if last then 0x80 else 0).

Definition transport_octet_check (s : Z) (fb : bool * bool) : bool :=
  let o := transport_octet s fb.1 fb.2 in
  (Z.land o 63 =? s) && Bool.eqb (has_bits o 0x40) fb.1 && Bool.eqb (has_bits o 0x80) fb.2 && (0 <=? o) && (o <? 256).

Lemma transport_octet_table :
  forallb (λ s, forallb (transport_octet_check s) [(true, true); (true, false); (false, true); (false, false)]) (seqZ 0 64) = true.
Proof. by vm_compute. Qed.

Lemma transport_octet_ok s f b : 0 ≤ s < 64 →
  Z.land (transport_octet s f b) 63 = s ∧ has_bits (transport_octet s f b) 0x40 = f ∧
  has_bits (transport_octet s f b) 0x80 = b ∧ is_byte (transport_octet s f b).
Proof.
  intros Hs. pose proof transport_octet_table as H. rewrite forallb_forall in H.
  specialize (H s ltac:(apply list_elem_of_In, elem_of_seqZ; lia)). rewrite forallb_forall in H.
  specialize (H (f, b) ltac:(destruct f, b; simpl; tauto)). unfold transport_octet_check in H. cbn [fst snd] in H. bool_facts.
  repeat match goal with E : Bool.eqb _ _ = true |- _ => apply eqb_prop in E end. unfold is_byte. split_and!; try done; lia.
Qed.

(** The segments [segs] as link frames, numbered from [seq]; the first has FIR, the
    last FIN. *)
Fixpoint send (control dst src seq : Z) (first : bool) (segs : list (list Z)) : list Z :=
  match segs with
  | [] => []
  | v :: rest =>
      encode_link control dst src (transport_octet seq first (match rest with [] => true | _ => false end) :: v) ++
      send control dst src ((seq + 1) mod 64) false rest
  end.

Section transfer.
Context (l : Limits) (Hlim : max_application_bytes l ≤ i64_max) (control dst src : Z).
Context (Hdst : 0 ≤ dst < 65536) (Hsrc : 0 ≤ src < 65536) (Hlink : link_issue control src dst 1 = None).
Context (c : StreamChunk) (Hc : ev_ok (c_bytes c)).
Context (Hoff : i64_min ≤ c_offset c ∧ c_offset c + zlen (data (c_bytes c)) ≤ i64_max).

Abbreviation key := ((src, dst)).
Abbreviation dir := (lc_direction (link_control control)).

(** The state while the segments are read: only frames and the pending assembly. *)
Definition st (fs : list LinkFrame) (tr : TransportMap) (p : Z) : Work :=
  {| out := {| frames := fs; fragments := []; messages := []; issues := []; rejected_link_ranges := [] |};
     rejected_bytes := 0; transport := tr; applications := []; pos := p; skipped := 0 |}.

(** A frame of the transfer with a segment. *)
Definition carries (f : LinkFrame) (h : Z) (v : list Z) : Prop :=
  lf_control f = control ∧ lf_destination f = dst ∧ lf_source f = src ∧ lf_link_control f = link_control control ∧
  ev_ok (user_data f) ∧ data (user_data f) = h :: v.

Lemma link_fields n : 0 < n → link_issue control src dst n = None ∧
  primary (link_control control) = true ∧
  (lc_function (link_control control) = 3 ∨ lc_function (link_control control) = 4).
Proof using Hlink.
  intros Hn. revert Hlink. unfold link_issue. rewrite (proj2 (Z.eqb_neq n 0)) by lia. change (1 =? 0) with false.
  set (cl := link_control control). cbv zeta. intros H. rewrite H. split; [done|]. revert H.
  do 7 match goal with |- context [if ?b then Some _ else _] => destruct b; [done|] end.
  case_bool_decide as Hu; [done|]. intros _. apply not_false_is_true in Hu. apply andb_true_iff in Hu as [Hp Hf]. split; [done|].
  cbn [existsb] in Hf. rewrite orb_false_r in Hf. apply orb_true_iff in Hf as [H%Z.eqb_eq|H%Z.eqb_eq]; [by left|by right].
Qed.

Lemma on_link_quiet fs tr p f h v :
  carries f h v → zlen fs < max_protocol_messages l →
  on_link l (st fs tr p) f = Ok (st (fs ++ [f]) tr p, Some (zlen fs)).
Proof using Hlink.
  intros (H1 & H2 & H3 & H4 & Hev & Hd) Hlen. unfold on_link. cbn [out st frames]. rewrite (proj2 (Z.leb_gt _ _)) by done. cbv zeta.
  pose proof (zlen_nonneg v). assert (len (user_data f) = 1 + zlen v) as Hz by (unfold len; by rewrite Hd, zlen_cons).
  destruct (link_fields (len (user_data f))) as (Hli & Hprim & Hfn); [lia|]. rewrite H1, H2, H3, H4.
  assert (reserved (link_control control) = None) as Hres.
  { unfold link_control in *. cbn [primary reserved] in *. by rewrite Hprim. }
  assert (function_name (link_control control) = "confirmed_user_data" ∨
          function_name (link_control control) = "unconfirmed_user_data") as Hname.
  { unfold link_control in *. cbn [primary function_name lc_function] in *. rewrite Hprim.
    destruct Hfn as [-> | ->]; [by left|by right]. }
  rewrite Hres. rewrite (bool_decide_eq_false_2 (None = Some true)), bind_Ok by done.
  assert (bool_decide (function_name (link_control control) = "primary_unknown") ||
          bool_decide (function_name (link_control control) = "secondary_unknown") = false) as -> by (by destruct Hname as [-> | ->]).
  rewrite bind_Ok. cbn [out st]. rewrite Hli. unfold is_empty. change (zlen (data (user_data f))) with (len (user_data f)).
  rewrite (proj2 (Z.eqb_neq _ _)) by lia. rewrite Hprim. destruct Hfn as [-> | ->]; done.
Qed.

Lemma on_direction_quiet fs tr p f h v :
  carries f h v → (∀ t, bt_get tr key = Some t → ta_direction t = dir) →
  on_direction l (st fs tr p) f = Ok (st fs tr p).
Proof.
  intros (H1 & H2 & H3 & H4 & _) Hdir. unfold on_direction. rewrite H2, H3, H4. cbv zeta. cbn [transport applications st].
  assert ((match bt_get tr key with Some q => negb (Bool.eqb (ta_direction q) dir) | None => false end) = false) as ->.
  { destruct (bt_get tr key) as [t|]; [|done]. rewrite (Hdir t eq_refl). by rewrite Bool.eqb_reflx. }
  done.
Qed.

Definition pending (t : TransportAssembly) (seq : Z) (body : list Z) (ids : list Z) : Prop :=
  ta_last_sequence t = seq ∧ ta_direction t = dir ∧ ev_ok (ta_bytes t) ∧ data (ta_bytes t) = body ∧ ta_frames t = ids.

(** What [on_transport] leaves: the assembly, handed over when it is complete. *)
Definition handed (fs : list LinkFrame) (p : Z) (fin : bool) (t : TransportAssembly) : Work * option TransportAssembly :=
  if fin then (st fs [] p, Some t) else (st fs [(key, t)] p, None).

Lemma cmp_key : cmp key key = Eq.
Proof. apply cmp_refl. Qed.

Lemma body_slice f h v : carries f h v →
  ∃ e, Provenance.slice (user_data f) 1 (len (user_data f)) = Ok e ∧ ev_ok e ∧ data e = v.
Proof.
  intros (_ & _ & _ & _ & Hev & Hd). destruct (segment_body f h v Hev Hd) as (e & H1 & H2 & H3 & _). by exists e.
Qed.

Lemma on_transport_first fs p f h v id :
  carries f h v → has_bits h 0x40 = true → zlen v ≤ max_application_bytes l →
  ∃ t, pending t (Z.land h 63) v [id] ∧ on_transport l (st fs [] p) f id = Ok (handed fs p (has_bits h 0x80) t).
Proof.
  intros Hf Hfir Hlen. destruct (body_slice f h v Hf) as (e & He & Hev & Hde). destruct Hf as (H1 & H2 & H3 & H4 & Hu & Hd).
  eexists {| ta_last_sequence := Z.land h 63; seen_segments := [(Z.land h 63, data (user_data f))];
             ta_direction := dir; ta_bytes := e; ta_frames := [id] |}. split; [done|].
  unfold on_transport. rewrite H2, H3. cbv zeta. rewrite Hd. rewrite (idx_ok (h :: v) 0), bind_Ok.
  2:{ rewrite zlen_cons. pose proof (zlen_nonneg v). lia. }
  change (nthz (h :: v) 0) with h. unfold place_segment. rewrite H2, H3, Hfir. cbv zeta. cbn [transport st bt_get].
  unfold start_transport. rewrite H2, H3. cbv zeta. cbn [transport st bt_get]. rewrite bind_Ok.
  assert (len (user_data f) = 1 + zlen v) as Hz by (unfold len; by rewrite Hd, zlen_cons). pose proof (zlen_nonneg v).
  rewrite sub_ovf_ok, bind_Ok by lia. rewrite (proj2 (Z.ltb_ge _ _)) by lia. rewrite He, !bind_Ok, H4. cbn [andb].
  rewrite ?Hd. unfold handed. destruct (has_bits h 0x80); [|done]. cbn [transport with_transport st bt_insert bt_get].
  rewrite cmp_key. cbn [ok_or]. rewrite bind_Ok. cbn [bt_remove]. by rewrite cmp_key.
Qed.

Lemma on_transport_next fs p f h v id t seq body ids :
  carries f h v → pending t seq body ids → has_bits h 0x40 = false → Z.land h 63 = (seq + 1) mod 64 →
  zlen body + zlen v ≤ max_application_bytes l → zlen ids < max_protocol_messages l →
  ∃ t', pending t' (Z.land h 63) (body ++ v) (ids ++ [id]) ∧
        on_transport l (st fs [(key, t)] p) f id = Ok (handed fs p (has_bits h 0x80) t').
Proof using Hlim.
  intros Hf (T1 & T2 & T3 & T4 & T5) Hfir Hseq Hlen Hids. destruct (body_slice f h v Hf) as (e & He & Hev & Hde).
  destruct Hf as (H1 & H2 & H3 & H4 & Hu & Hd).
  destruct (append_ev_ok (ta_bytes t) e (max_application_bytes l) T3 Hev) as (b & Hb & Hbe & Hbd & _); [rewrite T4, Hde; lia|].
  eexists {| ta_last_sequence := Z.land h 63; seen_segments := bt_insert (seen_segments t) (Z.land h 63) (data (user_data f));
             ta_direction := dir; ta_bytes := b; ta_frames := ids ++ [id] |}.
  split; [split_and!; try done; cbn; by rewrite Hbd, T4, Hde|].
  unfold on_transport. rewrite H2, H3. cbv zeta. rewrite Hd. rewrite (idx_ok (h :: v) 0), bind_Ok.
  2:{ rewrite zlen_cons. pose proof (zlen_nonneg v). lia. }
  change (nthz (h :: v) 0) with h. unfold place_segment. rewrite H2, H3, Hfir. cbv zeta. cbn [transport st bt_get].
  rewrite cmp_key. unfold is_duplicate, is_conflict. rewrite next_sequence_mod, T1, <- Hseq, Z.eqb_refl. cbn [negb andb].
  unfold extend_transport. cbv zeta. rewrite He, bind_Ok, Hb, bind_Ok, T5, (proj2 (Z.leb_gt _ _)) by done.
  rewrite !bind_Ok, T2, H2, H3. cbn [andb transport st bt_insert]. rewrite cmp_key.
  rewrite ?Hd. unfold handed. destruct (has_bits h 0x80); [|done]. cbn [transport with_transport st bt_get].
  rewrite cmp_key. cbn [ok_or]. rewrite bind_Ok. cbn [bt_remove]. by rewrite cmp_key.
Qed.

(** ** The application layer *)

(** A message in one fragment: FIR and FIN, a known function, the indications of a
    response. *)
Definition is_response (fn : Z) : bool := (fn =? 0x81) || (fn =? 0x82).
Definition single_fragment (body : list Z) (ac fn : Z) (objects : list Z) : Prop :=
  has_bits ac 0x80 = true ∧ has_bits ac 0x40 = true ∧ app_class fn (has_bits ac 0x10) ≠ McUnknown ∧
  ∃ iin, length iin = (if is_response fn then 2%nat else 0%nat) ∧ body = ac :: fn :: iin ++ objects.

(** The report of the transfer. *)
Definition reported (fs : list LinkFrame) (ids : list Z) (body : list Z) (ac fn : Z) (objects : list Z) (o : Dnp3Result) : Prop :=
  ∃ r m, o = {| frames := fs; fragments := [r]; messages := [m]; issues := []; rejected_link_ranges := [] |} ∧
    af_frames r = ids ∧ data (af_raw r) = body ∧ data (af_objects r) = objects ∧
    am_source m = src ∧ am_destination m = dst ∧ am_function m = fn ∧ am_first_sequence m = ac mod 16 ∧
    am_class m = app_class fn (has_bits ac 0x10) ∧ complete m = true ∧ am_fragments m = [0] ∧ data (am_objects m) = objects.

Definition done_state (w : Work) (o : Dnp3Result) (p : Z) : Prop :=
  w = {| out := o; rejected_bytes := 0; transport := []; applications := []; pos := p; skipped := 0 |}.

Lemma app_fragment_single bytes ids body ac fn objects :
  ev_ok bytes → data bytes = body → single_fragment body ac fn objects →
  ∃ r, app_fragment bytes src dst ids = Ok r ∧ af_source r = src ∧ af_destination r = dst ∧ af_function r = fn ∧
    af_sequence r = ac mod 16 ∧ af_class r = app_class fn (has_bits ac 0x10) ∧ af_first r = true ∧
    final_fragment r = true ∧ af_frames r = ids ∧ af_raw r = bytes ∧ data (af_objects r) = objects.
Proof.
  intros He Hdata (Hfir & Hfin & _ & iin & Hiin & Hbody). unfold app_fragment. cbv zeta. rewrite Hdata, Hbody.
  assert (zlen (ac :: fn :: iin ++ objects) = 2 + Z.of_nat (length iin) + zlen objects) as Hz.
  { rewrite !zlen_cons, zlen_app. unfold zlen. lia. }
  pose proof (zlen_nonneg objects). rewrite (proj2 (Z.ltb_ge _ 2)) by lia. rewrite (idx_ok _ 0), bind_Ok by lia.
  rewrite (idx_ok _ 1), bind_Ok by lia. cbv beta.
  change (nthz (ac :: fn :: iin ++ objects) 0) with ac. change (nthz (ac :: fn :: iin ++ objects) 1) with fn.
  fold (is_response fn). set (header := if is_response fn then 4 else 2).
  assert (header = 2 + Z.of_nat (length iin)) as Hh by (unfold header; rewrite Hiin; by destruct (is_response fn)).
  rewrite (proj2 (Z.ltb_ge _ header)) by lia.
  assert (∃ v, (if is_response fn then b ← Prelude.slice (ac :: fn :: iin ++ objects) 2 4; v ← le16 b; Ok (Some v) else Ok None) = Ok v) as [v ->].
  { destruct (is_response fn); [|by eexists]. rewrite slice_ok, bind_Ok by (rewrite ?Hz; lia).
    destruct iin as [|x [|y [|]]]; try done. eexists. reflexivity. }
  rewrite bind_Ok.
  destruct (slice_ev_ok bytes header (len bytes) He) as (objs & -> & Hobj & Hdo & _);
    [lia|unfold len; rewrite Hdata, Hbody, Hz; lia|unfold len; lia|].
  rewrite bind_Ok. eexists. split; [done|]. cbn. split_and!; try done; [apply mod16|].
  rewrite Hdo. unfold len. rewrite sub_full_from by lia. rewrite Hdata, Hbody, Hh.
  replace (Z.to_nat (2 + Z.of_nat (length iin))) with (2 + length iin)%nat by lia. cbn [drop Nat.add].
  by rewrite drop_app_length.
Qed.

Lemma on_application_single fs p f t ids body ac fn objects :
  limits_ok l → lf_source f = src → lf_destination f = dst → ev_ok (ta_bytes t) → data (ta_bytes t) = body → ta_frames t = ids →
  (∀ j, j ∈ ids → ∃ g, get fs j = Some g) → single_fragment body ac fn objects →
  ∃ w o, on_application l (st fs [] p) f t = Ok w ∧ done_state w o p ∧ reported fs ids body ac fn objects o.
Proof.
  intros Hl H2 H3 He Hdata Hids Hget Hsingle. limits_facts Hl. unfold on_application. rewrite H2, H3, Hids. cbv zeta. cbn [fst snd].
  destruct (app_fragment_single (ta_bytes t) ids body ac fn objects He Hdata Hsingle)
    as (r & -> & R1 & R2 & R3 & R4 & R5 & R6 & R7 & R8 & R9 & R10). cbn [catch]. rewrite bind_Ok. cbn [out st fragments].
  rewrite (proj2 (Z.leb_gt _ _)) by (rewrite zlen_nil; lia). rewrite R8.
  assert (wp (frame_packets {| frames := fs; fragments := []; messages := []; issues := []; rejected_link_ranges := [] |} ids)
    (λ _, True) (λ _, False)) as Hps by (eapply wp_frame_packets; eauto).
  destruct (frame_packets _ ids) as [ps|e| |]; [|done..]. rewrite bind_Ok.
  destruct Hsingle as (_ & _ & Hclass & _). rewrite R5, bool_decide_eq_false_2, bind_Ok by done. rewrite R6.
  unfold start_application. rewrite R1, R2, R5. cbv zeta. cbn [applications st bt_get]. rewrite !bind_Ok, R7.
  cbn [applications with_out with_apps bt_insert bt_get].
  rewrite bt_get_insert_eq, bt_remove_insert. unfold emit_app. cbn [out with_out with_apps messages st].
  rewrite (proj2 (Z.leb_gt _ _)) by (rewrite zlen_nil; lia). rewrite bind_Ok. eexists _, _. split; [done|]. split; [done|].
  eexists r, _. cbn. rewrite R3, R4, R9. done.
Qed.

(** ** The loop *)

Abbreviation frame_len h v := (zlen (encode_link control dst src (h :: v))).

Lemma frame_len_pos h v : bytes_ok (h :: v) → 10 ≤ frame_len h v.
Proof.
  intros Hb. destruct (encode_link_view control dst src (h :: v) [] Hb) as (H & _). rewrite app_nil_r in H.
  pose proof (blocks_len_nonneg (zlen (h :: v)) (zlen_nonneg _)). pose proof (zlen_nonneg (h :: v)). lia.
Qed.

Lemma drop_length p (rest x : list Z) :
  0 ≤ p ≤ zlen (data (c_bytes c)) → drop (Z.to_nat p) (data (c_bytes c)) = x ++ rest →
  p + zlen x + zlen rest = zlen (data (c_bytes c)) ∧
  drop (Z.to_nat (p + zlen x)) (data (c_bytes c)) = rest.
Proof.
  intros Hp H. split.
  - apply (f_equal length) in H. rewrite length_drop, length_app in H. unfold zlen in *. lia.
  - pose proof (zlen_nonneg x). replace (Z.to_nat (p + zlen x)) with (Z.to_nat p + length x)%nat by (unfold zlen; lia).
    rewrite <- drop_drop, H. by rewrite drop_app_length.
Qed.

Lemma chunk_step_good fs tr p h v rest :
  0 ≤ p ≤ zlen (data (c_bytes c)) →
  drop (Z.to_nat p) (data (c_bytes c)) = encode_link control dst src (h :: v) ++ rest →
  bytes_ok (h :: v) → zlen v ≤ 249 →
  ∃ f, carries f h v ∧
    chunk_step l c (st fs tr p) = (w ← on_frame l (st fs tr p) f (frame_len h v); Ok (Continue w)).
Proof using Hc Hoff Hdst Hsrc.
  intros Hp Hdrop Hb Hv. pose proof (frame_len_pos h v Hb) as Hn. pose proof Hc as [(_ & Hmax & _) _].
  destruct (drop_length p rest _ Hp Hdrop) as [Hz _]. pose proof (zlen_nonneg rest).
  destruct (parse_link_encoded (c_bytes c) p (c_offset c) control dst src (h :: v) rest) as (f & Hparse & Hpost & F1 & F2 & F3 & F4);
    try done; try lia; [rewrite zlen_cons; lia|].
  exists f. split.
  - split_and!; try done; [|apply Hpost]. assert (lf_link_control f = link_control (lf_control f)) as -> by apply Hpost. by rewrite F1.
  - unfold chunk_step, len. cbv zeta. cbn [pos st]. rewrite (proj2 (Z.ltb_lt _ _)) by lia. cbn [negb].
    rewrite (add_ovf_ok usize_max p 2), bind_Ok by lia. unfold get_range.
    rewrite (proj2 (Z.leb_le 0 p)), (proj2 (Z.leb_le p (p + 2))), (proj2 (Z.leb_le (p + 2) _)) by lia. cbn [andb].
    assert (Prelude.sub (data (c_bytes c)) p (p + 2) = [0x05; 0x64]) as ->.
    { unfold sub. rewrite Hdrop. replace (Z.to_nat (p + 2 - p)) with 2%nat by lia. done. }
    rewrite bool_decide_eq_true_2 by done. cbn [negb]. rewrite Hparse. cbn [catch]. rewrite bind_Ok. done.
Qed.

(** A frame up to its transport segment. *)
Lemma on_frame_quiet fs tr p f h v n :
  carries f h v → zlen fs < max_protocol_messages l → (∀ t, bt_get tr key = Some t → ta_direction t = dir) →
  p + n ≤ usize_max →
  on_frame l (st fs tr p) f n =
    (r ← on_transport l (st (fs ++ [f]) tr (p + n)) f (zlen fs);
     match r with (w, None) => Ok w | (w, Some t) => on_application l w f t end).
Proof using Hlink.
  intros Hf Hfs Hdir Hn. unfold on_frame. cbn [pos st]. rewrite add_ovf_ok, bind_Ok by done.
  change (with_pos (st fs tr p) (p + n) (skipped (st fs tr p))) with (st fs tr (p + n)).
  rewrite (on_link_quiet fs tr (p + n) f h v), bind_Ok by done.
  by rewrite (on_direction_quiet (fs ++ [f]) tr (p + n) f h v), bind_Ok by done.
Qed.

Lemma chunk_step_end w : len (c_bytes c) ≤ pos w → chunk_step l c w = Ok (Break w).
Proof. intros H. unfold chunk_step. cbv zeta. by rewrite (proj2 (Z.ltb_ge _ _)). Qed.

Lemma get_old_new fs f ids :
  (∀ j, j ∈ ids → ∃ g, get fs j = Some g) → ∀ j, j ∈ ids ++ [zlen fs] → ∃ g : LinkFrame, get (fs ++ [f]) j = Some g.
Proof.
  intros H j. rewrite elem_of_app, list_elem_of_singleton. intros [Hj| ->].
  - destruct (H j Hj) as [g Hg]. exists g. by apply get_app_Some.
  - exists f. apply get_length.
Qed.

(** A segment of a transfer. *)
Definition segment_fits (v : list Z) : Prop := bytes_ok v ∧ zlen v ≤ 249.

(** The segments after the first. *)
Lemma transfer_rest segs : ∀ s fs t ids body p fuel ac fn objects,
  limits_ok l → segs ≠ [] → pending t s body ids → (∀ j, j ∈ ids → ∃ g, get fs j = Some g) →
  0 ≤ p ≤ zlen (data (c_bytes c)) →
  drop (Z.to_nat p) (data (c_bytes c)) = send control dst src ((s + 1) mod 64) false segs →
  Forall segment_fits segs → zlen fs + zlen segs ≤ max_protocol_messages l → zlen ids ≤ zlen fs →
  zlen body + zlen (concat segs) ≤ max_application_bytes l → single_fragment (body ++ concat segs) ac fn objects →
  (length segs < fuel)%nat →
  ∃ fs' w o, loop fuel (chunk_step l c) (st fs [(key, t)] p) = Ok w ∧ done_state w o (zlen (data (c_bytes c))) ∧
    reported fs' (ids ++ seqZ (zlen fs) (zlen segs)) (body ++ concat segs) ac fn objects o.
Proof using All.
  induction segs as [|v segs IH]; intros s fs t ids body p fuel ac fn objects Hl Hne Ht Hids Hp Hdrop Hfit Hfs Hif Hbody Hsing Hfuel; [done|].
  apply Forall_cons in Hfit as [[Hvb Hvl] Hfit]. cbn [send] in Hdrop. rewrite zlen_cons in Hfs. cbn [concat] in Hbody, Hsing |- *.
  rewrite zlen_app in Hbody. pose proof (zlen_nonneg segs). pose proof (zlen_nonneg (concat segs)). pose proof (zlen_nonneg v).
  pose proof Hc as [(_ & Hmax & _) _].
  set (fin := match segs with [] => true | _ => false end) in Hdrop. set (h := transport_octet ((s + 1) mod 64) false fin) in Hdrop.
  destruct (transport_octet_ok ((s + 1) mod 64) false fin ltac:(dlia)) as (O1 & O2 & O3 & O4). fold h in O1, O2, O3, O4.
  assert (bytes_ok (h :: v)) as Hhv by (by apply Forall_cons). pose proof (frame_len_pos h v Hhv).
  destruct (chunk_step_good fs [(key, t)] p h v _ Hp Hdrop Hhv Hvl) as (f & Hf & Hstep).
  destruct (drop_length p _ _ Hp Hdrop) as [Hz Hrest]. pose proof (zlen_nonneg (send control dst src (((s + 1) mod 64 + 1) mod 64) false segs)).
  destruct fuel as [|fuel]; [simpl in Hfuel; lia|]. rewrite loop_S, Hstep.
  rewrite (on_frame_quiet fs [(key, t)] p f h v) by (done || lia || (intros t'; cbn [bt_get]; rewrite cmp_key; intros [= <-]; apply Ht)).
  destruct (on_transport_next (fs ++ [f]) (p + frame_len h v) f h v (zlen fs) t s body ids) as (t' & Ht' & ->); try done; try lia.
  rewrite bind_Ok, O3. pose proof (get_old_new fs f ids Hids) as Hids'.
  destruct segs as [|v2 segs]; cbn [fin handed].
  - destruct Hf as (F1 & F2 & F3 & _). pose proof Ht' as (_ & _ & T3 & T4 & T5). cbn [concat] in Hsing |- *. rewrite app_nil_r in *.
    destruct (on_application_single (fs ++ [f]) (p + frame_len h v) f t' _ _ ac fn objects Hl F3 F2 T3 T4 T5 Hids' Hsing)
      as (w & o & -> & Hw & Ho). rewrite !bind_Ok. destruct fuel as [|fuel]; [simpl in Hfuel; lia|].
    cbn [send] in Hz. rewrite (zlen_nil (A:=Z)) in Hz. rewrite loop_S, chunk_step_end by (rewrite Hw; cbn [pos]; unfold len; lia). rewrite bind_Ok.
    exists (fs ++ [f]), w, o. split_and!; [done|unfold done_state in *; rewrite Hw; f_equal; lia|].
    change (zlen [v]) with 1. by rewrite (seqZ_cons (zlen fs) 1), seqZ_nil by lia.
  - rewrite !bind_Ok. rewrite <- O1 in Hrest.
    destruct (IH (Z.land h 63) (fs ++ [f]) t' (ids ++ [zlen fs]) (body ++ v) (p + frame_len h v) fuel ac fn objects)
      as (fs' & w & o & Hloop & Hw & Ho); try done; try lia.
    + rewrite zlen_app, (zlen_cons f), zlen_nil. clear -Hfs. lia.
    + clear -Hif. unfold zlen in *. rewrite !length_app. simpl. lia.
    + rewrite zlen_app. clear -Hbody. lia.
    + by rewrite <- app_assoc.
    + clear -Hfuel. simpl in *. lia.
    + exists fs', w, o. split_and!; try done. rewrite (zlen_cons v), (seqZ_cons (zlen fs)) by (pose proof (zlen_nonneg segs); rewrite zlen_cons; lia).
      rewrite zlen_app, (zlen_cons f), zlen_nil, <- !app_assoc in Ho. cbn [app] in Ho.
      replace (Z.succ (zlen fs)) with (zlen fs + (1 + 0)) by lia. replace (Z.pred (1 + zlen (v2 :: segs))) with (zlen (v2 :: segs)) by lia. done.
Qed.

(** The whole transfer. *)
Lemma transfer_loop segs seq ac fn objects :
  limits_ok l → 0 ≤ seq < 64 → segs ≠ [] → data (c_bytes c) = send control dst src seq true segs →
  Forall segment_fits segs → zlen segs ≤ max_protocol_messages l → zlen (concat segs) ≤ max_application_bytes l →
  single_fragment (concat segs) ac fn objects →
  ∃ fs w o, loop (S (length (data (c_bytes c)))) (chunk_step l c) (st [] [] 0) = Ok w ∧
    done_state w o (zlen (data (c_bytes c))) ∧ reported fs (seqZ 0 (zlen segs)) (concat segs) ac fn objects o.
Proof using All.
  intros Hl Hseq Hne Hdata Hfit Hms Hbody Hsing. destruct segs as [|v segs]; [done|].
  apply Forall_cons in Hfit as [[Hvb Hvl] Hfit]. cbn [send] in Hdata. rewrite zlen_cons in Hms. cbn [concat] in Hbody, Hsing |- *.
  rewrite zlen_app in Hbody. pose proof (zlen_nonneg segs). pose proof (zlen_nonneg (concat segs)). pose proof (zlen_nonneg v).
  pose proof Hc as [(_ & Hmax & _) _]. pose proof (zlen_nonneg (data (c_bytes c))) as Hd0.
  set (fin := match segs with [] => true | _ => false end) in Hdata. set (h := transport_octet seq true fin) in Hdata.
  destruct (transport_octet_ok seq true fin Hseq) as (O1 & O2 & O3 & O4). fold h in O1, O2, O3, O4.
  assert (bytes_ok (h :: v)) as Hhv by (by apply Forall_cons). pose proof (frame_len_pos h v Hhv) as Hn.
  assert (0 ≤ 0 ≤ zlen (data (c_bytes c))) as Hp by lia.
  destruct (chunk_step_good [] [] 0 h v _ Hp Hdata Hhv Hvl) as (f & Hf & Hstep).
  destruct (drop_length 0 _ _ Hp Hdata) as [Hz Hrest].
  pose proof (zlen_nonneg (send control dst src ((seq + 1) mod 64) false segs)).
  rewrite loop_S, Hstep. rewrite (on_frame_quiet [] [] 0 f h v) by (done || lia || (rewrite zlen_nil; lia)).
  destruct (on_transport_first ([] ++ [f]) (0 + frame_len h v) f h v 0) as (t & Ht & Hplace); [done|done|lia|].
  change (zlen []) with 0 at 1. rewrite Hplace, bind_Ok, O3.
  assert (∀ j, j ∈ [0] → ∃ g, get [f] j = Some g) as Hids by (intros j ->%list_elem_of_singleton; by exists f).
  destruct segs as [|v2 segs]; cbn [fin handed].
  - destruct Hf as (F1 & F2 & F3 & _). pose proof Ht as (_ & _ & T3 & T4 & T5). cbn [concat] in Hsing |- *. rewrite app_nil_r in Hsing |- *.
    destruct (on_application_single [f] (0 + frame_len h v) f t _ _ ac fn objects Hl F3 F2 T3 T4 T5 Hids Hsing)
      as (w & o & E & Hw & Ho). cbn [app]. rewrite E, !bind_Ok. cbn [send] in Hz. rewrite (zlen_nil (A:=Z)) in Hz.
    assert (∃ k, length (data (c_bytes c)) = S k) as [k ->].
    { destruct (length (data (c_bytes c))) eqn:E0; [|by eexists]. unfold zlen in *. lia. }
    rewrite loop_S, chunk_step_end by (rewrite Hw; cbn [pos]; unfold len; lia). rewrite bind_Ok.
    exists [f], w, o. split_and!; [done|unfold done_state in *; rewrite Hw; f_equal; lia|done].
  - rewrite !bind_Ok. rewrite <- O1 in Hrest. cbn [app].
    assert (length (v2 :: segs) < length (data (c_bytes c)))%nat as Hfuel.
    { assert (∀ ss s0, Forall segment_fits ss → 0 ≤ s0 < 64 → 10 * zlen ss ≤ zlen (send control dst src s0 false ss)) as Hlen.
      { clear -Hdst. induction ss as [|x ss IH]; intros s0 Hss Hs0; [cbn; unfold zlen; simpl; lia|].
        apply Forall_cons in Hss as [[Hx _] Hss]. cbn [send]. rewrite zlen_app, zlen_cons.
        destruct (transport_octet_ok s0 false (match ss with [] => true | _ => false end) Hs0) as (_ & _ & _ & Hb).
        pose proof (frame_len_pos _ x ltac:(apply Forall_cons; split; [exact Hb|exact Hx])).
        specialize (IH ((s0 + 1) mod 64) Hss ltac:(dlia)). lia. }
      specialize (Hlen (v2 :: segs) ((seq + 1) mod 64) Hfit ltac:(dlia)). clear -Hlen Hz Hn. unfold zlen in *. lia. }
    destruct (transfer_rest (v2 :: segs) (Z.land h 63) [f] t [0] v (0 + frame_len h v) (length (data (c_bytes c))) ac fn objects)
      as (fs' & w & o & Hloop & Hw & Ho); try done; try lia.
    exists fs', w, o. split_and!; try done. rewrite (zlen_cons v), (seqZ_cons 0) by (clear -segs; rewrite zlen_cons; pose proof (zlen_nonneg segs); lia).
      cbn [app] in Ho. change (zlen [f]) with 1 in Ho. change (Z.succ 0) with 1.
      replace (Z.pred (1 + zlen (v2 :: segs))) with (zlen (v2 :: segs)) by lia. done.
Qed.
End transfer.

(** C4: DNP3 reassembly recovers what was sent.  When a message in one application
    fragment is cut into transport segments of at most 249 octets, numbered from any
    start, and sent as link frames of a valid pair of addresses, [decode] of the stream
    returns exactly these frames, one fragment with the octets of the message, and one
    complete message with its function, class, sequence number and objects, and raises
    no issue, provided the budgets admit them. *)
Theorem dnp3_transfer_roundtrip (l : Limits) (control dst src seq : Z) (segs : list (list Z)) (ac fn : Z)
    (objects : list Z) (bytes : EvidenceBytes) (base : Z) (stream : StreamResult) :
  limits_ok l → max_application_bytes l ≤ i64_max → 0 ≤ dst < 65536 → 0 ≤ src < 65536 →
  link_issue control src dst 1 = None → 0 ≤ seq < 64 → segs ≠ [] → Forall segment_fits segs →
  zlen segs ≤ max_protocol_messages l → zlen (concat segs) ≤ max_application_bytes l →
  single_fragment (concat segs) ac fn objects →
  ev_ok bytes → data bytes = send control dst src seq true segs →
  i64_min ≤ base → base + zlen (data bytes) ≤ i64_max → chunks stream = [{| c_offset := base; c_bytes := bytes |}] →
  ∃ fs o, decode stream l = Ok o ∧ reported dst src fs (seqZ 0 (zlen segs)) (concat segs) ac fn objects o.
Proof.
  intros Hl Hmax Hdst Hsrc Hlink Hseq Hne Hfit Hms Hbody Hsing Hb Hdata Hbase Hoff Hstream.
  pose proof Hb as [(_ & Hlen & _) Hval]. pose proof (zlen_nonneg (data bytes)).
  destruct (transfer_loop l Hmax control dst src Hdst Hsrc Hlink {| c_offset := base; c_bytes := bytes |} Hb (conj Hbase Hoff)
    segs seq ac fn objects) as (fs & w & o & Hloop & Hw & Ho); try done. cbn [c_bytes] in Hloop.
  exists fs, o. split; [|done]. unfold decode. rewrite limits_ok_validate, bind_Ok, Hstream by done. cbn [foldM].
  unfold decode_chunk, check_chunk, len. cbn [c_bytes c_offset fst snd]. rewrite (proj2 (Z.leb_le (zlen (data bytes)) i64_max)) by done.
  cbn [ok_or]. rewrite bind_Ok. unfold checked_add_signed.
  rewrite (proj2 (Z.leb_le i64_min (base + zlen (data bytes)))), (proj2 (Z.leb_le (base + zlen (data bytes)) i64_max)) by lia.
  cbn [andb ok_or]. rewrite bind_Ok, Hval. cbn [negb]. rewrite bind_Ok. unfold st in Hloop. unfold result_default. rewrite Hloop, bind_Ok.
  rewrite Hw. unfold finish_chunk. cbn [skipped transport applications out rejected_bytes foldM]. done.
Qed.

Lemma dnp3_transfer_witness :
  ∃ fs o, decode {| base_sequence := None; r_anchored := false;
                    chunks := [{| c_offset := 5; c_bytes := from_packet (send 0xc4 1 1024 62 true
                                    [[0xc3; 0x01]; [60; 2]; [6]]) (sample_packet 7) 42 |}];
                    gaps := []; conflicts := []; duplicate_observed_bytes := 0 |} limits_default = Ok o ∧
    reported 1 1024 fs [0; 1; 2] [0xc3; 0x01; 60; 2; 6] 0xc3 0x01 [60; 2; 6] o.
Proof.
  assert (ev_ok (from_packet (send 0xc4 1 1024 62 true [[0xc3; 0x01]; [60; 2]; [6]]) (sample_packet 7) 42)) as Hok.
  { apply from_packet_ok; [|lia|by vm_compute].
    assert (forallb (λ b, (0 <=? b) && (b <? 256)) (send 0xc4 1 1024 62 true [[0xc3; 0x01]; [60; 2]; [6]]) = true) as H by (by vm_compute).
    rewrite forallb_forall in H. apply Forall_forall. intros b Hb%list_elem_of_In%H. unfold is_byte. lia. }
  apply (dnp3_transfer_roundtrip limits_default 0xc4 1 1024 62 [[0xc3; 0x01]; [60; 2]; [6]] 0xc3 0x01 [60; 2; 6]
    (from_packet (send 0xc4 1 1024 62 true [[0xc3; 0x01]; [60; 2]; [6]]) (sample_packet 7) 42) 5 _ limits_default_ok);
    [by vm_compute|lia|lia|by vm_compute|lia|done| |by vm_compute|by vm_compute| |exact Hok|by vm_compute|lia|by vm_compute|reflexivity].
  - repeat (apply Forall_cons; split; [split; [repeat (apply Forall_cons; split; [unfold is_byte; lia|]); constructor|by vm_compute]|]). constructor.
  - split_and!; [by vm_compute..|]. by exists [].
Defined.
