(* ===== verification/Writer.v ===== *)
(** * Capture writers (src/writer.rs)

    The classic PCAP and the PCAPNG writer over any [std::io::Write], and the exact
    copy.  A method that only refuses its arguments is [Err] and leaves the writer
    alone; a method whose write fails returns the error with the writer it leaves,
    which refuses every further call. *)

From S2P Require Import Errors Time Capture Prelude.

(** The methods of [std::io::Write] the source calls, the error already converted
    with [From<std::io::Error>]. *)
Class Write (W : Type) : Type := {
  write_all : W → list Z → W * option Error;
  flush : W → W * option Error;
}.

Definition writer_failed : Error :=
  error_new Io 0 "writer_failed"
    "an earlier write failed; discard this writer rather than retrying an unknown partial write".

Section writers.
Context {W : Type} `{Write W}.

(** [write_all(..).and_then(|_| write_all(..))]. *)
Fixpoint write_chunks (w : W) (l : list (list Z)) : W * option Error :=
  match l with
  | [] => (w, None)
  | b :: l => match write_all w b with
              | (w', None) => write_chunks w' l
              | (w', Some e) => (w', Some e)
              end
  end.

(** ** Classic PCAP *)

Record PcapWriter : Type := {
  pw_output : W;
  pw_endian : Endian;
  pw_nanos : bool;
  pw_snaplen : Z;
  pw_limits : Limits;
  pw_failed : bool;
}.

(** [PcapWriter::new], the global header. *)
Definition global_header (e : Endian) (nanos : bool) (link_type snaplen : Z) : list Z :=
  let h := put_u32 e (if nanos then 0xa1b23c4d else 0xa1b2c3d4) [] in
  let h := put_u16 e 2 h in
  let h := put_u16 e 4 h in
  let h := put_u32 e 0 h in
  let h := put_u32 e 0 h in
  let h := put_u32 e snaplen h in
  put_u32 e link_type h.

(** [PcapWriter::new]. *)
Definition pcap_new (output : W) (e : Endian) (nanos : bool) (link_type snaplen : Z) (l : Limits)
    : result PcapWriter :=
  validate l ;;
  if snaplen =? 0 then Err (error_new InvalidLength 0 "snaplen" "must be nonzero")
  else
    match write_all output (global_header e nanos link_type snaplen) with
    | (_, Some err) => Err err
    | (output, None) =>
        Ok {| pw_output := output; pw_endian := e; pw_nanos := nanos; pw_snaplen := snaplen;
              pw_limits := l; pw_failed := false |}
    end.

(** [PcapWriter::packet], the record header. *)
Definition packet_header (e : Endian) (sec frac cap original_len : Z) : list Z :=
  let h := put_u32 e sec [] in
  let h := put_u32 e frac h in
  let h := put_u32 e cap h in
  put_u32 e original_len h.

(** [u32::try_from]. *)
Definition to_u32 (n : Z) : option Z := if n <=? u32_max then Some n else None.

(** [PcapWriter::packet]. *)
Definition pcap_packet (w : PcapWriter) (t : Timestamp) (original_len : Z) (d : list Z)
    : result (PcapWriter * option Error) :=
  if pw_failed w then Err writer_failed
  else if (max_packet_bytes (pw_limits w) <? zlen d) || (pw_snaplen w <? zlen d) || (original_len <? zlen d)
  then Err (error_new InvalidLength 0 "packet"
              "capture length exceeds budget, snaplen, or original length")
  else
    parts ← legacy_parts t (pw_nanos w);
    let '(sec, frac) := parts in
    cap ← ok_or (to_u32 (zlen d)) (limit "packet_bytes");
    let '(output, err) := write_chunks (pw_output w) [packet_header (pw_endian w) sec frac cap original_len; d] in
    Ok ({| pw_output := output; pw_endian := pw_endian w; pw_nanos := pw_nanos w;
           pw_snaplen := pw_snaplen w; pw_limits := pw_limits w;
           pw_failed := if err then true else false |}, err).

(** [PcapWriter::finish]. *)
Definition pcap_finish (w : PcapWriter) : result W :=
  if pw_failed w then Err writer_failed
  else match flush (pw_output w) with
       | (output, None) => Ok output
       | (_, Some e) => Err e
       end.

(** ** PCAPNG *)

Record PcapNgWriter : Type := {
  ng_output : W;
  nw_endian : Endian;
  ng_interfaces : list Interface;
  ng_limits : Limits;
  ng_failed : bool;
}.

(** [PcapNgWriter::block]. *)
Definition block (w : PcapNgWriter) (ty : Z) (body : list Z) : result (PcapNgWriter * option Error) :=
  if ng_failed w then Err writer_failed
  else
    total ← ok_or (checked_add usize_max (zlen body) 12) (limit "block_bytes");
    if (max_block_bytes (ng_limits w) <? total) || negb (total mod 4 =? 0) then Err (limit "block_bytes")
    else
      total ← ok_or (to_u32 total) (limit "block_bytes");
      let header := put_u32 (nw_endian w) total (put_u32 (nw_endian w) ty []) in
      let trailer := put_u32 (nw_endian w) total [] in
      let '(output, err) := write_chunks (ng_output w) [header; body; trailer] in
      Ok ({| ng_output := output; nw_endian := nw_endian w; ng_interfaces := ng_interfaces w;
             ng_limits := ng_limits w; ng_failed := if err then true else false |}, err).

(** [PcapNgWriter::new], the body of the section header. *)
Definition section_body (e : Endian) : list Z :=
  let b := put_u32 e 0x1a2b3c4d [] in
  let b := put_u16 e 1 b in
  let b := put_u16 e 0 b in
  put_u64 e u64_max b.

(** [PcapNgWriter::new]. *)
Definition pcapng_new (output : W) (e : Endian) (l : Limits) : result PcapNgWriter :=
  validate l ;;
  r ← block {| ng_output := output; nw_endian := e; ng_interfaces := []; ng_limits := l; ng_failed := false |}
        0x0a0d0d0a (section_body e);
  match r with
  | (w, None) => Ok w
  | (_, Some err) => Err err
  end.

(** [Vec::resize]. *)
Definition resize (l : list Z) (n v : Z) : list Z :=
  take (Z.to_nat n) l ++ replicate (Z.to_nat (n - zlen l)) v.

(** [option]: the body with an option appended. *)
Definition put_option (body : list Z) (e : Endian) (code : Z) (value : list Z) : result (list Z) :=
  n ← ok_or (if zlen value <=? u16_max then Some (zlen value) else None) (limit "option");
  let body := put_u16 e n (put_u16 e code body) ++ value in
  padded ← align4 (zlen body);
  Ok (resize body padded 0).

(** [PcapNgWriter::interface], the body of the block. *)
Definition interface_body (e : Endian) (link_type snaplen res offset_seconds : Z) : result (list Z) :=
  let body := put_u32 e snaplen (put_u16 e 0 (put_u16 e link_type [])) in
  body ← put_option body e 9 [res];
  body ← put_option body e 14 (put_u64 e (as_unsigned 64 offset_seconds) []);
  put_option body e 0 [].

(** [PcapNgWriter::interface]; the interface is recorded only when its block is
    written. *)
Definition ng_interface (w : PcapNgWriter) (link_type snaplen : Z) (r : Resolution) (offset_seconds : Z)
    : result (PcapNgWriter * (Z + Error)) :=
  if ng_failed w then Err writer_failed
  else if max_interfaces (ng_limits w) <=? zlen (ng_interfaces w) then Err (limit "interfaces")
  else
    res ← to_pcapng r;
    id ← ok_or (to_u32 (zlen (ng_interfaces w))) (limit "interfaces");
    body ← interface_body (nw_endian w) link_type snaplen res offset_seconds;
    x ← block w 1 body;
    match x with
    | (w, Some err) => Ok (w, inr err)
    | (w, None) =>
        Ok ({| ng_output := ng_output w; nw_endian := nw_endian w;
               ng_interfaces := ng_interfaces w ++
                 [{| if_section := 0; if_id := id; if_link_type := link_type; if_snaplen := snaplen;
                     if_resolution := r; if_offset_seconds := offset_seconds |}];
               ng_limits := ng_limits w; ng_failed := ng_failed w |}, inl id)
    end.

(** [PcapNgWriter::packet], the body of the block. *)
Definition packet_body (e : Endian) (id ticks cap original_len : Z) (d : list Z) (total : Z) : list Z :=
  let b := put_u32 e id [] in
  let b := put_u32 e (as_unsigned 32 (Z.shiftr ticks 32)) b in
  let b := put_u32 e (as_unsigned 32 ticks) b in
  let b := put_u32 e cap b in
  let b := put_u32 e original_len b in
  resize (b ++ d) total 0.

(** [PcapNgWriter::packet]. *)
Definition ng_packet (w : PcapNgWriter) (interface_id : Z) (t : Timestamp) (original_len : Z) (d : list Z)
    : result (PcapNgWriter * option Error) :=
  if ng_failed w then Err writer_failed
  else
    i ← ok_or (get (ng_interfaces w) interface_id)
          (error_new MissingInterface 0 "interface" "declare interface before packet");
    if negb (bool_decide (resolution t = if_resolution i)) || negb (offset_seconds t =? if_offset_seconds i)
    then Err (error_new InvalidTimestamp 0 "timestamp"
                "raw clock semantics must match the interface exactly")
    else if (max_packet_bytes (ng_limits w) <? zlen d) || (original_len <? zlen d) ||
            (negb (if_snaplen i =? 0) && (if_snaplen i <? zlen d))
    then Err (error_new InvalidLength 0 "packet" "invalid captured length")
    else
      a ← align4 (zlen d);
      total ← ok_or (checked_add usize_max 20 a) (limit "block_bytes");
      if match checked_add usize_max total 12 with
         | Some v => max_block_bytes (ng_limits w) <? v
         | None => true
         end
      then Err (limit "block_bytes")
      else
        cap ← ok_or (to_u32 (zlen d)) (limit "packet_bytes");
        block w 6 (packet_body (nw_endian w) interface_id (ticks t) cap original_len d total).

(** [PcapNgWriter::finish]. *)
Definition ng_finish (w : PcapNgWriter) : result W :=
  if ng_failed w then Err writer_failed
  else match flush (ng_output w) with
       | (output, None) => Ok output
       | (_, Some e) => Err e
       end.

(** [copy_exact]: every record is decoded before the bytes are written. *)
Definition copy_exact (input : list Z) (output : W) (l : Limits) (m : ParseMode) : result W :=
  it ← capture_iter_new input l m;
  r ← collect (S (S (length input))) it;
  match r with
  | (_, Some e) => Err e
  | (_, None) =>
      match write_all output input with
      | (_, Some e) => Err e
      | (output, None) =>
          match flush output with
          | (output, None) => Ok output
          | (_, Some e) => Err e
          end
      end
  end.
End writers.
Arguments PcapWriter W : clear implicits.
Arguments PcapNgWriter W : clear implicits.
