(* ===== verification/WriterFacts.v ===== *)
(** * Correctness of the capture writers

    A sink is anything that honours the contract of [Write]: what a call reports
    as written is appended, a failed call appends a prefix.  A writer's file is
    whole records, except after a failed write, which it remembers; and what a
    writer finishes, the decoder reads back. *)

From S2P Require Import Errors Time Capture CaptureFacts Prelude Writer.

(** ** Sinks *)

Class Sink (W : Type) `{Write W} : Type := {
  written : W → list Z;
  write_all_ok w b :
    match write_all w b with
    | (w', None) => written w' = written w ++ b
    | (w', Some _) => ∃ p, p `prefix_of` b ∧ written w' = written w ++ p
    end;
  flush_ok w : written (flush w).1 = written w;
}.

(** [Vec<u8>]: writing never fails. *)
#[global] Instance Vec_Write : Write (list Z) := {
  write_all w b := (w ++ b, None);
  flush w := (w, None);
}.
#[global] Program Instance Vec_Sink : Sink (list Z) := { written w := w }.
Next Obligation. done. Qed.
Next Obligation. done. Qed.

Section sink.
Context {W : Type} `{Sink W}.

Lemma write_chunks_ok (w : W) l :
  match write_chunks w l with
  | (w', None) => written w' = written w ++ concat l
  | (w', Some _) => ∃ p, p `prefix_of` concat l ∧ written w' = written w ++ p
  end.
Proof.
  revert w. induction l as [|b l IH]; intros w; simpl; [by rewrite app_nil_r|].
  pose proof (write_all_ok w b) as Hb. destruct (write_all w b) as [w1 [e|]].
  - destruct Hb as (p & [q ->] & Hp). exists p. split; [|done]. rewrite <- app_assoc. by apply prefix_app_r.
  - specialize (IH w1). destruct (write_chunks w1 l) as [w2 [e|]].
    + destruct IH as (p & Hp & ->). exists (b ++ p). split; [by apply prefix_app|]. by rewrite Hb, app_assoc.
    + by rewrite IH, Hb, app_assoc.
Qed.
End sink.

(** ** Reading back records *)

(** The decoder accepts the record at the head of any longer input. *)
Definition reads (d : Decoder) (off : Z) (rec : list Z) (d' : Decoder) (r : CapRecord) : Prop :=
  rec ≠ [] ∧ raw r = rec ∧ ∀ rest, bytes_ok rest → off + zlen (rec ++ rest) ≤ i64_max →
    decode d (rec ++ rest) off = Ok (d', DRecord r).

Lemma slice_app {E} (l k : list Z) a b : 0 ≤ a ≤ b → b ≤ zlen l → slice (E:=E) (l ++ k) a b = slice l a b.
Proof.
  intros Ha Hb. pose proof (zlen_nonneg k). rewrite !slice_ok by (rewrite ?zlen_app; lia).
  by rewrite sub_app_l by lia.
Qed.

(** Consecutive records from an offset. *)
Fixpoint reads_all (d : Decoder) (off : Z) (recs : list (list Z)) (d' : Decoder) (rs : list CapRecord) : Prop :=
  match recs, rs with
  | [], [] => d = d'
  | rec :: recs, r :: rs => ∃ d1, reads d off rec d1 r ∧ reads_all d1 (off + zlen rec) recs d' rs
  | _, _ => False
  end.

Lemma reads_all_snoc d off recs d1 rs rec d2 r :
  reads_all d off recs d1 rs → reads d1 (off + zlen (concat recs)) rec d2 r →
  reads_all d off (recs ++ [rec]) d2 (rs ++ [r]).
Proof.
  revert d off rs. induction recs as [|x recs IH]; intros d off [|y rs]; simpl; try done.
  - intros ->. rewrite Z.add_0_r. intros Hr. by exists d2.
  - intros (d0 & Hx & Hrest). rewrite zlen_app, Z.add_assoc. intros Hr. exists d0. split; [done|]. by apply IH.
Qed.

Lemma concat_bytes (l : list (list Z)) : Forall bytes_ok l → bytes_ok (concat l).
Proof. induction 1; simpl; [constructor|]. by apply Forall_app. Qed.

Lemma reads_all_length d off recs d' rs :
  reads_all d off recs d' rs → (length recs ≤ length (concat recs))%nat.
Proof.
  revert d off rs. induction recs as [|rec recs IH]; intros d off [|r rs]; simpl; try done.
  intros (d1 & (Hne & _) & H). rewrite length_app. specialize (IH _ _ _ H). destruct rec; [done|simpl; lia].
Qed.

(** What holds along a successful fold. *)
Lemma foldM_ok_inv {E S A} (I : list A → S → Prop) (f : S → A → res E S) l : ∀ done s s',
  foldM f s l = Ok s' → I done s →
  (∀ pre x post s s1, done ++ l = pre ++ x :: post → I pre s → f s x = Ok s1 → I (pre ++ [x]) s1) →
  I (done ++ l) s'.
Proof.
  induction l as [|x l IH]; intros dn s s' Hf Hs Hstep; simpl in Hf.
  - injection Hf as <-. by rewrite app_nil_r.
  - apply bind_ok in Hf as (s1 & H1 & Hf). replace (dn ++ x :: l) with ((dn ++ [x]) ++ l) by (by rewrite <- app_assoc).
    apply (IH _ s1); [done|by eapply Hstep|]. intros pre y post. rewrite <- app_assoc. apply Hstep.
Qed.

(** Iterating over the records returns them all. *)
Lemma collect_reads recs : ∀ pre d d' rs fuel,
  reads_all d (zlen pre) recs d' rs → Forall bytes_ok recs →
  decoder_finish d' (zlen (pre ++ concat recs)) = Ok () → zlen (pre ++ concat recs) ≤ i64_max →
  (length recs < fuel)%nat →
  collect fuel {| ci_data := pre ++ concat recs; position := zlen pre; decoder := d; terminal := false |} =
    Ok (rs, None).
Proof.
  induction recs as [|rec recs IH]; intros pre d d' [|r rs] fuel Hr Hb Hf Hlen Hfuel; try done;
    (destruct fuel as [|fuel]; [simpl in Hfuel; lia|]); simpl in Hr; cbn [collect].
  - subst d'. simpl in *. rewrite app_nil_r in *. unfold next. cbn [terminal ci_data position decoder].
    by rewrite Z.eqb_refl, Hf.
  - destruct Hr as (d1 & (Hne & Hraw & Hdec) & Hrest). apply Forall_cons in Hb as [Hb1 Hb2].
    cbn [concat] in *. rewrite !zlen_app in Hlen. pose proof (zlen_nonneg pre). pose proof (zlen_nonneg (concat recs)).
    assert (0 < zlen rec) as Hpos by (destruct rec; [done|rewrite zlen_cons; pose proof (zlen_nonneg rec); lia]).
    unfold next. cbn [terminal ci_data position decoder]. rewrite !zlen_app, (proj2 (Z.eqb_neq _ _)) by lia.
    unfold slice_from. rewrite slice_ok, bind_Ok by (rewrite ?zlen_app; lia).
    assert (sub (pre ++ rec ++ concat recs) (zlen pre) (zlen (pre ++ rec ++ concat recs)) = rec ++ concat recs) as ->.
    { rewrite sub_app_r, Z.sub_diag, zlen_app by lia.
      replace (zlen pre + zlen (rec ++ concat recs) - zlen pre) with (zlen (rec ++ concat recs)) by lia. apply sub_full. }
    rewrite Hdec by (rewrite ?zlen_app; by apply concat_bytes || lia). cbn [catch]. rewrite bind_Ok, Hraw, add_ovf_ok, !bind_Ok by lia.
    rewrite (app_assoc pre rec), <- (zlen_app pre rec), (IH (pre ++ rec) d1 d' rs fuel);
      rewrite <- ?app_assoc; try done.
    + by rewrite zlen_app.
    + rewrite !zlen_app. lia.
    + simpl in Hfuel. lia.
Qed.

(** One record: its length is what the decoder asks for, and a branch accepts it. *)
Lemma reads_intro d off rec d1 e k opts ws :
  rec ≠ [] → records d < max_records (limits d) → records d1 = records d → records d < usize_max →
  (∀ rest, bytes_ok rest → off + zlen (rec ++ rest) ≤ i64_max → required d (rec ++ rest) off = Ok (zlen rec)) →
  decode_branch d rec (zlen rec) off = Ok (d1, e, k, opts, ws) →
  reads d off rec
    {| limits := limits d1; mode := mode d1; format := format d1; endian := endian d1;
       legacy_header := legacy_header d1; interfaces := interfaces d1; d_section := d_section d1;
       sections_seen := sections_seen d1; section_end := section_end d1; next_frame := next_frame d1;
       records := records d + 1 |}
    {| r_offset := off; r_endian := e; raw := rec; kind := k; options := opts; warnings := ws |}.
Proof.
  intros Hne Hrec Hr1 Hmax Hreq Hbr. split_and!; [done|done|]. intros rest Hrest Hlim. unfold decode.
  rewrite (proj2 (Z.leb_gt _ _)), Hreq, bind_Ok by done. pose proof (zlen_nonneg rest).
  rewrite zlen_app, (proj2 (Z.ltb_ge _ _)) by lia.
  pose proof (zlen_nonneg rec). rewrite slice_ok, bind_Ok, sub_0_app by (rewrite ?zlen_app; lia).
  rewrite Hbr, bind_Ok. unfold bump_records. rewrite Hr1, add_ovf_ok, !bind_Ok by lia. done.
Qed.

(** ** Classic PCAP *)

(** The part of [legacy_parts] that survives: the instant. *)
Lemma legacy_parts_spec t nanos s f :
  legacy_parts t nanos = Ok (s, f) →
  0 ≤ s ≤ u32_max ∧ 0 ≤ f < (if nanos then 1000000000 else 1000000) ∧
  unix_nanos t = Ok (s * 1000000000 + f * (if nanos then 1 else 1000)).
Proof.
  unfold legacy_parts. intros Hp. apply bind_ok in Hp as (v & Hv & Hp).
  destruct (Z.ltb_spec v 0); [done|]. rewrite Z.quot_div_nonneg, Z.rem_mod_nonneg in Hp by lia.
  destruct (Z.ltb_spec u32_max (v / 1000000000)); [done|].
  destruct (negb nanos && negb ((v mod 1000000000) mod 1000 =? 0)) eqn:Hc; [done|].
  injection Hp as <- <-. rewrite Hv. destruct nanos; simpl in Hc; split_and!; try dlia; f_equal; try dlia.
Qed.

Lemma legacy_instant s f (nanos : bool) :
  0 ≤ s ≤ u32_max → 0 ≤ f < (if nanos then 1000000000 else 1000000) →
  ∃ t, legacy s f nanos = Ok t ∧ unix_nanos t = Ok (s * 1000000000 + f * (if nanos then 1 else 1000)).
Proof.
  intros Hs Hf. unfold legacy. rewrite (proj2 (Z.leb_gt _ _)) by (destruct nanos; lia).
  rewrite mul_ovf_ok, bind_Ok, add_ovf_ok, bind_Ok by (destruct nanos; lia). eexists; split; [done|].
  unfold unix_nanos. destruct nanos; cbn [resolution ticks offset_seconds].
  - change (to_pcapng (Decimal 9)) with (Ok (E:=Error) 9). rewrite bind_Ok. change (9 <=? 9) with true. cbv iota.
    change (10 ^ (9 - 9)) with 1. rewrite mul_ovf_ok, bind_Ok by lia.
    rewrite (proj2 (Z.ltb_ge _ _)) by lia. rewrite signed_ovf_ok, bind_Ok by lia. unfold checked_add_signed.
    rewrite !(proj2 (Z.leb_le _ _)) by lia. cbn. f_equal. lia.
  - change (to_pcapng (Decimal 6)) with (Ok (E:=Error) 6). rewrite bind_Ok. change (6 <=? 9) with true. cbv iota.
    change (10 ^ (9 - 6)) with 1000. rewrite mul_ovf_ok, bind_Ok by lia.
    rewrite (proj2 (Z.ltb_ge _ _)) by lia. rewrite signed_ovf_ok, bind_Ok by lia. unfold checked_add_signed.
    rewrite !(proj2 (Z.leb_le _ _)) by lia. cbn. f_equal. lia.
Qed.

Section pcap.
Context (e : Endian) (nanos : bool) (link_type snaplen : Z) (l : Limits) (m : ParseMode).
Context (Hl : limits_ok l) (Hlt : 0 ≤ link_type ≤ u16_max) (Hsnap : 0 < snaplen ≤ u32_max).

Definition written_header : LegacyHeader :=
  {| lh_endian := e; lh_nanos := nanos; lh_snaplen := snaplen; lh_link_word := link_type |}.

(** The decoder after the header and [n] packets; [r] counts the records. *)
Definition header_state (n r : Z) : Decoder :=
  {| limits := l; mode := m; format := Some Pcap; endian := e; legacy_header := Some written_header;
     interfaces := []; d_section := 0; sections_seen := 0; section_end := None; next_frame := 1 + n;
     records := r |}.
Definition header_decoder (n : Z) : Decoder := header_state n n.
Definition after_packets (n : Z) : Decoder := header_state n (n + 1).

Definition before_header : Decoder :=
  {| limits := l; mode := m; format := None; endian := Little; legacy_header := None;
     interfaces := []; d_section := 0; sections_seen := 0; section_end := None; next_frame := 1; records := 0 |}.

Definition magic_number : Z := if nanos then 0xa1b23c4d else 0xa1b2c3d4.
Abbreviation magic := (put e 4 magic_number).

Lemma header_fields :
  global_header e nanos link_type snaplen =
  concat [magic; put e 2 2; put e 2 4; put e 4 0; put e 4 0; put e 4 snaplen; put e 4 link_type].
Proof. unfold global_header, put_u16, put_u32. simpl. by rewrite !app_nil_r, <- !app_assoc. Qed.

Lemma magic_known : legacy_magic magic = Some (e, nanos) ∧ bytes_eqb magic magic_shb = false.
Proof. unfold magic_number. by destruct e, nanos. Qed.

Lemma header_reads :
  reads before_header 0 (global_header e nanos link_type snaplen) (after_packets 0)
    {| r_offset := 0; r_endian := e; raw := global_header e nanos link_type snaplen;
       kind := KLegacyHeader written_header; options := []; warnings := [] |}.
Proof using Hl Hlt Hsnap.
  destruct magic_known as [Hm Hshb]. limits_facts Hl. rewrite header_fields.
  match goal with |- reads _ _ ?r _ _ => assert (zlen r = 24) as Hz by (simpl; rewrite !zlen_app, !zlen_put; done) end.
  apply (reads_intro before_header 0 _ (header_decoder 0)).
  - intros E. by rewrite E in Hz.
  - simpl. lia.
  - done.
  - simpl. lia.
  - intros rest Hb Hlim. unfold required. pose proof (zlen_nonneg rest). rewrite Z.add_0_l in *.
    unfold checked_add. rewrite Z.add_0_l, (proj2 (Z.leb_le _ _)) by lia. cbn [ok_or]. rewrite bind_Ok. cbn [format before_header].
    rewrite zlen_app, (proj2 (Z.ltb_ge _ _)) by lia.
    rewrite slice_app by lia. read_field (@nil (list Z)) (put e 4 magic_number) 0 4. rewrite Hshb, Hm, Hz. done.
  - unfold decode_branch. cbn [format before_header]. read_field (@nil (list Z)) (put e 4 magic_number) 0 4. rewrite Hshb. cbn [negb].
    unfold decode_legacy_header. read_field (@nil (list Z)) (put e 4 magic_number) 0 4. rewrite Hm. cbn [ok_or]. rewrite bind_Ok.
    read_field [magic] (put e 2 2) 4 6. rewrite u16_put, bind_Ok by lia.
    read_field [magic; put e 2 2] (put e 2 4) 6 8. rewrite u16_put, bind_Ok by lia. cbn [Z.eqb negb orb Pos.eqb].
    read_field [magic; put e 2 2; put e 2 4; put e 4 0; put e 4 0] (put e 4 snaplen) 16 20. rewrite u32_put, bind_Ok by lia.
    read_field [magic; put e 2 2; put e 2 4; put e 4 0; put e 4 0; put e 4 snaplen] (put e 4 link_type) 20 24.
    rewrite u32_put, bind_Ok by lia. by rewrite (proj2 (Z.eqb_neq snaplen 0)) by lia.
Qed.

(** A packet read back: its bytes, lengths, place and instant. *)
Definition packet_back (n : Z) (t : Timestamp) (orig : Z) (d : list Z) (r : CapRecord) : Prop :=
  warnings r = [] ∧
  ∃ p t', record_packet r = Ok (Some (p, d)) ∧ frame p = n ∧ Capture.link_type p = link_type ∧
    captured_len p = zlen d ∧ original_len p = orig ∧ timestamp p = Some t' ∧ unix_nanos t' = unix_nanos t.

Lemma packet_header_fields sec frac cap orig :
  packet_header e sec frac cap orig = concat [put e 4 sec; put e 4 frac; put e 4 cap; put e 4 orig].
Proof. unfold packet_header, put_u32. simpl. by rewrite app_nil_r, <- !app_assoc. Qed.

Definition pcap_record (sec frac orig : Z) (d : list Z) : list Z :=
  concat [put e 4 sec; put e 4 frac; put e 4 (zlen d); put e 4 orig; d].

Lemma zlen_pcap_record sec frac orig d : zlen (pcap_record sec frac orig d) = 16 + zlen d.
Proof. unfold pcap_record. field_len. Qed.

Lemma packet_reads n off t sec frac orig d :
  legacy_parts t nanos = Ok (sec, frac) → 0 ≤ n → n + 1 < max_records l → 0 ≤ orig ≤ u32_max →
  zlen d ≤ max_packet_bytes l → zlen d ≤ snaplen → zlen d ≤ orig →
  ∃ r, reads (after_packets n) off (pcap_record sec frac orig d) (after_packets (n + 1)) r ∧
       packet_back (n + 1) t orig d r.
Proof using Hl Hlt Hsnap.
  intros (Hs & Hf & Ht)%legacy_parts_spec Hn Hrec Ho Hmp Hsn Hor. limits_facts Hl.
  destruct (legacy_instant sec frac nanos Hs Hf) as (t' & Hleg & Ht'). pose proof (zlen_nonneg d).
  pose proof (zlen_pcap_record sec frac orig d) as Hz.
  set (k := KPacket {| frame := 1 + n; Capture.section := 0; interface := 0;
                       Capture.link_type := Z.land link_type 0xffff; captured_len := zlen d;
                       original_len := orig; data_offset := 16; timestamp := Some t' |}).
  eexists. split; [apply (reads_intro (after_packets n) off _ (header_state (n + 1) (n + 1)) e k [] [])|].
  - intros E. rewrite E, zlen_nil in Hz. lia.
  - simpl. lia.
  - done.
  - simpl. lia.
  - intros rest Hb Hlim. unfold required. pose proof (zlen_nonneg rest). rewrite zlen_app in Hlim |- *.
    unfold checked_add. rewrite (proj2 (Z.leb_le _ _)) by lia. cbn [ok_or]. rewrite bind_Ok. cbn [format after_packets header_state].
    rewrite (proj2 (Z.ltb_ge _ _)) by lia. rewrite slice_app by lia. unfold pcap_record.
    read_field [put e 4 sec; put e 4 frac] (put e 4 (zlen d)) 8 12. rewrite u32_put, bind_Ok by lia.
    cbn [limits after_packets header_state]. rewrite (proj2 (Z.ltb_ge (max_packet_bytes l) (zlen d))) by lia.
    rewrite (proj2 (Z.leb_le _ _)) by lia. cbn [ok_or]. fold (pcap_record sec frac orig d). rewrite Hz. f_equal. lia.
  - unfold decode_branch. cbn [format after_packets header_state]. unfold decode_legacy_packet, pcap_record.
    cbn [legacy_header after_packets header_state ok_or endian mode]. rewrite bind_Ok. cbn [lh_snaplen lh_nanos lh_link_word written_header].
    read_field [put e 4 sec; put e 4 frac] (put e 4 (zlen d)) 8 12. rewrite u32_put, bind_Ok by lia.
    read_field [put e 4 sec; put e 4 frac; put e 4 (zlen d)] (put e 4 orig) 12 16. rewrite u32_put, bind_Ok by lia.
    unfold validate_lengths. rewrite (proj2 (Z.ltb_ge orig (zlen d))), (proj2 (Z.ltb_ge snaplen (zlen d))) by lia.
    rewrite andb_false_r. cbn [orb]. rewrite bind_Ok.
    read_field (@nil (list Z)) (put e 4 sec) 0 4. rewrite u32_put, bind_Ok by lia.
    read_field [put e 4 sec] (put e 4 frac) 4 8. rewrite u32_put, bind_Ok by (destruct nanos; lia).
    rewrite Hleg. cbn [catch]. rewrite !bind_Ok. unfold bump_frame. cbn [next_frame after_packets header_state].
    rewrite add_ovf_ok, !bind_Ok by lia. replace (1 + n + 1) with (1 + (n + 1)) by lia. done.
  - split; [done|]. exists {| frame := 1 + n; Capture.section := 0; interface := 0;
      Capture.link_type := Z.land link_type 0xffff; captured_len := zlen d; original_len := orig;
      data_offset := 16; timestamp := Some t' |}, t'.
    split_and!; simpl; try done; try lia; [|change 65535 with (Z.ones 16); rewrite Z.land_ones by lia; apply Z.mod_small; lia|congruence].
    unfold record_packet. simpl. rewrite add_ovf_ok, bind_Ok by lia. unfold pcap_record.
    by read_field [put e 4 sec; put e 4 frac; put e 4 (zlen d); put e 4 orig] d 16 (16 + zlen d).
Qed.

(** ** A whole file *)

(** A packet given to the writer. *)
Record InPacket : Type := { in_time : Timestamp; in_orig : Z; in_data : list Z }.
Definition in_ok (p : InPacket) : Prop := 0 ≤ in_orig p ≤ u32_max ∧ bytes_ok (in_data p).

(** The packets read back, numbered from [n + 1]. *)
Fixpoint packets_back (n : Z) (ps : list InPacket) (rs : list CapRecord) : Prop :=
  match ps, rs with
  | [], [] => True
  | p :: ps, r :: rs => packet_back (n + 1) (in_time p) (in_orig p) (in_data p) r ∧ packets_back (n + 1) ps rs
  | _, _ => False
  end.

Lemma packets_back_snoc n ps rs p r :
  packets_back n ps rs → packet_back (n + zlen ps + 1) (in_time p) (in_orig p) (in_data p) r →
  packets_back n (ps ++ [p]) (rs ++ [r]).
Proof.
  revert n rs. induction ps as [|x ps IH]; intros n [|y rs]; simpl; try done.
  - rewrite zlen_nil, Z.add_0_r. auto.
  - rewrite zlen_cons. intros [H1 H2] H3. split; [done|]. apply IH; [done|].
    by replace (n + 1 + zlen ps + 1) with (n + (1 + zlen ps) + 1) by lia.
Qed.

Context {W : Type} `{Sink W}.

Definition pcap_step (w : PcapWriter W) (p : InPacket) : result (PcapWriter W) :=
  r ← pcap_packet w (in_time p) (in_orig p) (in_data p);
  match r with (w, None) => Ok w | (_, Some err) => Err err end.

(** A file: the header, the packets, [finish]. *)
Definition pcap_file (out : W) (ps : list InPacket) : result W :=
  w ← pcap_new out e nanos link_type snaplen l;
  w ← foldM pcap_step w ps;
  pcap_finish w.

(** The writer after its header and some packets. *)
Definition pcap_inv (base : list Z) (ps : list InPacket) (w : PcapWriter W) : Prop :=
  pw_endian w = e ∧ pw_nanos w = nanos ∧ pw_snaplen w = snaplen ∧ pw_limits w = l ∧ pw_failed w = false ∧
  ∃ recs, written (pw_output w) = base ++ global_header e nanos link_type snaplen ++ concat recs ∧
    Forall bytes_ok recs ∧ length recs = length ps ∧
    (zlen ps < max_records l → ∃ rs,
       reads_all (after_packets 0) 24 recs (after_packets (zlen ps)) rs ∧ packets_back 0 ps rs).

Lemma pcap_step_inv base ps w p w' :
  in_ok p → pcap_inv base ps w → pcap_step w p = Ok w' → pcap_inv base (ps ++ [p]) w'.
Proof using Hl Hlt Hsnap.
  intros [Hor Hb] (H1 & H2 & H3 & H4 & H5 & recs & Hw & Hrb & Hlen & Hrs) Hstep.
  unfold pcap_step, pcap_packet in Hstep. rewrite H5, H4, H3, H2, H1 in Hstep.
  match type of Hstep with context [if ?c then _ else _] => destruct c eqn:Hc end; [done|]. bool_facts.
  destruct (legacy_parts (in_time p) nanos) as [[sec frac]| | |] eqn:Hparts; try done. rewrite bind_Ok in Hstep.
  unfold to_u32 in Hstep. rewrite (proj2 (Z.leb_le (zlen (in_data p)) u32_max)) in Hstep by lia.
  cbn [ok_or] in Hstep. rewrite bind_Ok in Hstep.
  pose proof (write_chunks_ok (pw_output w) [packet_header e sec frac (zlen (in_data p)) (in_orig p); in_data p]) as Hwr.
  destruct (write_chunks (pw_output w) _) as [out [err|]]; [done|]. injection Hstep as <-.
  split_and!; try done. exists (recs ++ [pcap_record sec frac (in_orig p) (in_data p)]). split_and!.
  - cbn [pw_output]. rewrite Hwr, Hw, packet_header_fields, concat_app, <- !app_assoc. unfold pcap_record. simpl.
    by rewrite !app_nil_r, <- !app_assoc.
  - apply Forall_app. split; [done|]. apply Forall_singleton, concat_bytes.
    repeat (apply Forall_cons; split; [apply put_bytes|]). by apply Forall_singleton.
  - rewrite !length_app, Hlen. done.
  - rewrite zlen_app, zlen_cons, zlen_nil, Z.add_0_r. intros Hmax. destruct Hrs as (rs & Hr & Hpb); [lia|].
    destruct (packet_reads (zlen ps) (24 + zlen (concat recs)) (in_time p) sec frac (in_orig p) (in_data p))
      as (r & Hread & Hback); try done; try lia.
    exists (rs ++ [r]). split; [by eapply reads_all_snoc|]. by apply packets_back_snoc.
Qed.

Lemma pcap_file_inv out ps out' :
  Forall in_ok ps → pcap_file out ps = Ok out' →
  ∃ w, pcap_inv (written out) ps w ∧ written out' = written (pw_output w).
Proof using Hl Hlt Hsnap.
  intros Hps Hfile. unfold pcap_file in Hfile. apply bind_ok in Hfile as (w0 & Hnew & Hfile).
  apply bind_ok in Hfile as (w & Hfold & Hfin).
  assert (pcap_inv (written out) [] w0) as Hw0.
  { unfold pcap_new in Hnew. rewrite limits_ok_validate, bind_Ok in Hnew by done.
    destruct (snaplen =? 0); [done|]. pose proof (write_all_ok out (global_header e nanos link_type snaplen)) as Hw.
    destruct (write_all out _) as [out1 [err|]]; [done|]. injection Hnew as <-. split_and!; try done.
    exists []. cbn [pw_output]. rewrite Hw, app_nil_r. split_and!; try done. intros _. by exists []. }
  exists w. split.
  - apply (foldM_ok_inv (pcap_inv (written out)) pcap_step ps [] w0); [done|done|].
    intros pre p post w1 w2 Heq H1 H2. rewrite app_nil_l in Heq. eapply pcap_step_inv; [|done|done].
    rewrite Heq, Forall_app, Forall_cons in Hps. apply Hps.
  - unfold pcap_finish in Hfin. destruct (pw_failed w); [done|]. pose proof (flush_ok (pw_output w)) as Hfl.
    destruct (flush (pw_output w)) as [out1 [err|]]; [done|]. by injection Hfin as <-.
Qed.

Lemma pcap_file_reads out ps out' it :
  Forall in_ok ps → pcap_file out ps = Ok out' → written out = [] → zlen ps < max_records l →
  zlen (written out') ≤ i64_max → capture_iter_new (written out') l m = Ok it →
  ∃ h rs, collect (S (S (length (written out')))) it = Ok (h :: rs, None) ∧
          kind h = KLegacyHeader written_header ∧ packets_back 0 ps rs.
Proof using Hl Hlt Hsnap.
  intros Hps Hfile Hempty Hn Hlen Hit.
  destruct (pcap_file_inv out ps out' Hps Hfile) as (w & (_ & _ & _ & _ & _ & recs & Hw & Hrb & Hlr & Hrs) & Hout).
  rewrite Hempty, app_nil_l in Hw. rewrite Hw in Hout. destruct (Hrs Hn) as (rs & Hread & Hback).
  set (h := {| r_offset := 0; r_endian := e; raw := global_header e nanos link_type snaplen;
               kind := KLegacyHeader written_header; options := []; warnings := [] |}).
  assert (zlen (global_header e nanos link_type snaplen) = 24) as Hz by (rewrite header_fields; field_len).
  assert (reads_all before_header 0 (global_header e nanos link_type snaplen :: recs) (after_packets (zlen ps)) (h :: rs)) as Hall.
  { exists (after_packets 0). split; [apply header_reads|]. by rewrite Hz. }
  exists h, rs. split_and!; [|done|done].
  unfold capture_iter_new in Hit. destruct (_ <? _); [done|]. unfold decoder_new in Hit.
  rewrite limits_ok_validate, !bind_Ok in Hit by done. injection Hit as <-. rewrite Hout.
  apply (collect_reads (global_header e nanos link_type snaplen :: recs) [] before_header (after_packets (zlen ps)));
    [done| |done|by rewrite Hout in Hlen|].
  - constructor; [|done]. rewrite header_fields. apply concat_bytes.
    repeat (apply Forall_cons; split; [apply put_bytes|]). constructor.
  - pose proof (reads_all_length _ _ _ _ _ Hall). cbn [concat]. simpl in *. lia.
Qed.
End pcap.

Lemma capture_iter_new_fits dat l m :
  limits_ok l → zlen dat ≤ max_input_bytes l → ∃ it, capture_iter_new dat l m = Ok it.
Proof.
  intros Hl Hlen. unfold capture_iter_new, decoder_new. rewrite (proj2 (Z.ltb_ge _ _)) by done.
  rewrite limits_ok_validate, !bind_Ok by done. eauto.
Qed.

(** C29: the classic PCAP writer round-trips through the decoder.  Over any sink that
    honours [Write], when creating the writer, writing the packets [ps] and finishing
    all succeed, the file fits the input limit and there is room for the header among
    the records, then iterating over the file returns the header given to the writer
    and the packets in order, without warnings: the same bytes, original length and
    link type, frames numbered from one, and timestamps of the same instant. *)
Theorem pcap_roundtrip {W : Type} `{Sink W} (e : Endian) (nanos : bool) (link_type snaplen : Z)
    (l : Limits) (m : ParseMode) (out out' : W) (ps : list InPacket) :
  limits_ok l → 0 ≤ link_type ≤ u16_max → 0 < snaplen ≤ u32_max → Forall in_ok ps →
  written out = [] → pcap_file e nanos link_type snaplen l out ps = Ok out' →
  zlen ps < max_records l → zlen (written out') ≤ Z.min (max_input_bytes l) i64_max →
  ∃ it h rs, capture_iter_new (written out') l m = Ok it ∧
    collect (S (S (length (written out')))) it = Ok (h :: rs, None) ∧
    kind h = KLegacyHeader {| lh_endian := e; lh_nanos := nanos; lh_snaplen := snaplen; lh_link_word := link_type |} ∧
    packets_back link_type 0 ps rs.
Proof.
  intros Hl Hlt Hsn Hps Hout Hfile Hn Hlen.
  destruct (capture_iter_new_fits (written out') l m) as [it Hit]; [done|lia|].
  destruct (pcap_file_reads e nanos link_type snaplen l m Hl Hlt Hsn out ps out' it)
    as (h & rs & Hc & Hh & Hb); try done; [lia|]. by exists it, h, rs.
Qed.

Definition sample_packet : InPacket :=
  {| in_time := {| ticks := 1000000042; resolution := Decimal 6; offset_seconds := 0 |};
     in_orig := 5; in_data := [1; 2; 3] |}.

Lemma pcap_roundtrip_witness :
  ∃ out', pcap_file Big false 1 65535 limits_default ([] : list Z) [sample_packet; sample_packet] = Ok out' ∧
    ∃ it h rs, capture_iter_new out' limits_default Strict = Ok it ∧
      collect (S (S (length out'))) it = Ok (h :: rs, None) ∧
      kind h = KLegacyHeader {| lh_endian := Big; lh_nanos := false; lh_snaplen := 65535; lh_link_word := 1 |} ∧
      packets_back 1 0 [sample_packet; sample_packet] rs.
Proof.
  destruct (pcap_file Big false 1 65535 limits_default ([] : list Z) [sample_packet; sample_packet])
    as [out'| | |] eqn:Hf; [|by vm_compute in Hf..].
  exists out'. split; [done|].
  refine (pcap_roundtrip Big false 1 65535 limits_default Strict [] out' _ limits_default_ok _ _ _ _ Hf _ _);
    [lia|lia| |done|by vm_compute|by vm_compute in Hf; injection Hf as <-; vm_compute].
  repeat constructor; simpl; try lia.
Defined.

(** ** Refusals and failures *)

Inductive Outcome : Type := Accepted | Refused | Broken.

(** A run of calls of [pcap_packet] with what each of them came to. *)
Inductive pcap_run {W : Type} `{Write W} : PcapWriter W → list (InPacket * Outcome) → PcapWriter W → Prop :=
  | run_done w : pcap_run w [] w
  | run_accepted w p w1 log w' :
      pcap_packet w (in_time p) (in_orig p) (in_data p) = Ok (w1, None) →
      pcap_run w1 log w' → pcap_run w ((p, Accepted) :: log) w'
  | run_refused w p err log w' :
      pcap_packet w (in_time p) (in_orig p) (in_data p) = Err err →
      pcap_run w log w' → pcap_run w ((p, Refused) :: log) w'
  | run_broken w p w1 err log w' :
      pcap_packet w (in_time p) (in_orig p) (in_data p) = Ok (w1, Some err) →
      pcap_run w1 log w' → pcap_run w ((p, Broken) :: log) w'.

(** The packets whose calls came to [o]. *)
Definition packets_of (o : Outcome) (log : list (InPacket * Outcome)) : list InPacket :=
  omap (λ '(p, o'), match o, o' with
                    | Accepted, Accepted | Refused, Refused | Broken, Broken => Some p
                    | _, _ => None
                    end) log.

(** The record of a packet. *)
Definition record_of (e : Endian) (nanos : bool) (p : InPacket) (rec : list Z) : Prop :=
  ∃ sec frac, legacy_parts (in_time p) nanos = Ok (sec, frac) ∧ rec = pcap_record e sec frac (in_orig p) (in_data p).

(** One call: the record is appended whole, or a prefix of it and the writer is
    failed; a failed writer writes nothing. *)
Lemma pcap_packet_effect {W : Type} `{Sink W} (w w' : PcapWriter W) p err :
  pcap_packet w (in_time p) (in_orig p) (in_data p) = Ok (w', err) →
  pw_failed w = false ∧ pw_endian w' = pw_endian w ∧ pw_nanos w' = pw_nanos w ∧
  pw_failed w' = bool_decide (err ≠ None) ∧
  ∃ rec, record_of (pw_endian w) (pw_nanos w) p rec ∧
    (err = None → written (pw_output w') = written (pw_output w) ++ rec) ∧
    (err ≠ None → ∃ t, t `prefix_of` rec ∧ written (pw_output w') = written (pw_output w) ++ t).
Proof.
  unfold pcap_packet. destruct (pw_failed w); [done|].
  match goal with |- context [if ?c then _ else _] => destruct c; [done|] end.
  destruct (legacy_parts (in_time p) (pw_nanos w)) as [[sec frac]| | |] eqn:Hp; try done. rewrite bind_Ok.
  unfold to_u32. destruct (zlen (in_data p) <=? u32_max); [|done]. cbn [ok_or]. rewrite bind_Ok.
  pose proof (write_chunks_ok (pw_output w)
    [packet_header (pw_endian w) sec frac (zlen (in_data p)) (in_orig p); in_data p]) as Hw.
  assert (concat [packet_header (pw_endian w) sec frac (zlen (in_data p)) (in_orig p); in_data p] =
          pcap_record (pw_endian w) sec frac (in_orig p) (in_data p)) as Hrec.
  { rewrite packet_header_fields. unfold pcap_record. simpl. by rewrite !app_nil_r, <- !app_assoc. }
  destruct (write_chunks (pw_output w) _) as [o [x|]]; intros [= <- <-];
    (split_and!; [done..|]); eexists; (split; [by exists sec, frac|]); split; intros; by exact Hw || congruence.
Qed.

Lemma pcap_run_spec {W : Type} `{Sink W} (w w' : PcapWriter W) log :
  pcap_run w log w' →
  ∃ recs tail, written (pw_output w') = written (pw_output w) ++ concat recs ++ tail ∧
    Forall2 (record_of (pw_endian w) (pw_nanos w)) (packets_of Accepted log) recs ∧
    (pw_failed w = true → log = (λ p, (p, Refused)) <$> packets_of Refused log) ∧
    (pw_failed w = true → recs = [] ∧ tail = [] ∧ pw_failed w' = true) ∧
    (pw_failed w = false → pw_failed w' = false → tail = [] ∧ packets_of Broken log = []) ∧
    (pw_failed w = false → pw_failed w' = true → ∃ log1 p ps rec,
       log = log1 ++ (p, Broken) :: ((λ q, (q, Refused)) <$> ps) ∧ packets_of Broken log1 = [] ∧
       record_of (pw_endian w) (pw_nanos w) p rec ∧ tail `prefix_of` rec).
Proof.
  induction 1 as [w|w p w1 log w' Hp Hrun IH|w p err log w' Hp Hrun IH|w p w1 err log w' Hp Hrun IH].
  - exists [], []. rewrite !app_nil_r. split_and!; try done; intros; solve [by constructor | congruence].
  - apply pcap_packet_effect in Hp as (Hf & He & Hn & Hf1 & rec & Hrec & Hout & _). specialize (Hout eq_refl).
    destruct IH as (recs & tail & Hw & Hall & _ & _ & Hok & Hbad). rewrite He, Hn, Hf1 in *.
    exists (rec :: recs), tail. split_and!; rewrite ?Hf; try done.
    + rewrite Hw, Hout. simpl. by rewrite <- !app_assoc.
    + by constructor.
    + intros _ Hf'. destruct Hbad as (log1 & q & ps & r & -> & Hb & Hr & Ht); [done|done|].
      by exists ((p, Accepted) :: log1), q, ps, r.
  - destruct IH as (recs & tail & Hw & Hall & Hlog & Hdead & Hok & Hbad).
    exists recs, tail. split_and!; try done.
    + intros Hf. specialize (Hlog Hf). cbn. by f_equal.
    + intros Hf Hf'. destruct Hbad as (log1 & q & ps & r & -> & Hb & Hr & Ht); [done|done|].
      by exists ((p, Refused) :: log1), q, ps, r.
  - apply pcap_packet_effect in Hp as (Hf & He & Hn & Hf1 & rec & Hrec & _ & Hout).
    destruct Hout as (t & Ht & Hout); [done|].
    destruct IH as (recs & tail & Hw & Hall & Hlog & Hdead & _ & _). rewrite He, Hn, Hf1 in *.
    destruct (Hdead eq_refl) as (-> & -> & Hf'). specialize (Hlog eq_refl).
    exists [], t. split_and!; rewrite ?Hf, ?Hf'; try done.
    + by rewrite Hw, Hout, !app_nil_r.
    + intros _ _. exists [], p, (packets_of Refused log), rec. split_and!; try done. cbn. by f_equal.
Qed.

(** A classic PCAP writer leaves whole records or a remembered failure.  In any
    run of packet calls over a sink that honours [Write], the output grows by exactly
    the records of the accepted packets, in order, followed by a tail.  While the
    writer has not failed the tail is empty and no call broke.  Once it has failed,
    exactly one call broke, the tail is a prefix of that packet's record, and every
    later call was refused. *)
Theorem pcap_writer_atomic {W : Type} `{Sink W} (w w' : PcapWriter W) (log : list (InPacket * Outcome)) :
  pw_failed w = false → pcap_run w log w' →
  ∃ recs tail, written (pw_output w') = written (pw_output w) ++ concat recs ++ tail ∧
    Forall2 (record_of (pw_endian w) (pw_nanos w)) (packets_of Accepted log) recs ∧
    (pw_failed w' = false → tail = [] ∧ packets_of Broken log = []) ∧
    (pw_failed w' = true → ∃ log1 p ps rec,
       log = log1 ++ (p, Broken) :: ((λ q, (q, Refused)) <$> ps) ∧ packets_of Broken log1 = [] ∧
       record_of (pw_endian w) (pw_nanos w) p rec ∧ tail `prefix_of` rec).
Proof.
  intros Hf (recs & tail & Hw & Hall & _ & _ & Hok & Hbad)%pcap_run_spec. exists recs, tail.
  split_and!; auto.
Qed.

(** A disk of a hundred bytes. *)
#[local] Instance Disk_Write : Write (list Z * ()) := {
  write_all w b := if zlen (w.1 ++ b) <=? 100 then ((w.1 ++ b, ()), None)
                   else ((w.1 ++ take (100 - length w.1) b, ()), Some (error_new Io 0 "write" "full"));
  flush w := (w, None);
}.
#[local] Program Instance Disk_Sink : Sink (list Z * ()) := { written w := w.1 }.
Next Obligation.
  intros [w []] b. cbn. destruct (_ <=? _); [done|]. exists (take (100 - length w) b). split; [|done].
  exists (drop (100 - length w) b). by rewrite take_drop.
Qed.
Next Obligation. done. Qed.

Definition sample_writer : PcapWriter (list Z * ()) :=
  {| pw_output := ([], ()); pw_endian := Little; pw_nanos := true; pw_snaplen := 65535;
     pw_limits := limits_default; pw_failed := false |}.
Definition sample_log : list (InPacket * Outcome) :=
  [(sample_packet, Accepted); (sample_packet, Accepted); (sample_packet, Accepted);
   (sample_packet, Accepted); (sample_packet, Accepted); (sample_packet, Broken); (sample_packet, Refused)].

Lemma sample_run : ∃ w', pcap_run sample_writer sample_log w' ∧ pw_failed w' = true.
Proof.
  eexists. split.
  - do 5 (eapply run_accepted; [by vm_compute|]). eapply run_broken; [by vm_compute|].
    eapply run_refused; [by vm_compute|]. apply run_done.
  - done.
Qed.

Lemma pcap_writer_atomic_witness :
  ∃ w', pcap_run sample_writer sample_log w' ∧ pw_failed w' = true ∧
    ∃ recs tail, written (pw_output w') = written (pw_output sample_writer) ++ concat recs ++ tail ∧
      Forall2 (record_of Little true) (packets_of Accepted sample_log) recs ∧
      (pw_failed w' = false → tail = [] ∧ packets_of Broken sample_log = []) ∧
      (pw_failed w' = true → ∃ log1 p ps rec,
         sample_log = log1 ++ (p, Broken) :: ((λ q, (q, Refused)) <$> ps) ∧ packets_of Broken log1 = [] ∧
         record_of Little true p rec ∧ tail `prefix_of` rec).
Proof.
  destruct sample_run as (w' & Hrun & Hf). exists w'. split; [done|]. split; [done|].
  by apply (pcap_writer_atomic sample_writer w' sample_log).
Defined.

(** ** The exact copy *)

(** [copy_exact] copies a capture exactly or says why not.  It terminates without
    aborting.  On success the whole input was decoded without an error, its records
    together are the input, and the output has grown by exactly the input.  An error
    is the input budget or invalid limits, the error at which decoding the capture
    stopped, before anything was written, or the failure of the sink. *)
Theorem copy_exact_exact {W : Type} `{Sink W} (input : list Z) (out : W) (l : Limits) (m : ParseMode) :
  bytes_ok input → zlen input ≤ i64_max → limits_typed l →
  wp (copy_exact input out l m)
    (λ out', ∃ it rs, capture_iter_new input l m = Ok it ∧
       collect (S (S (length input))) it = Ok (rs, None) ∧ concat (raw <$> rs) = input ∧
       written out' = written out ++ input)
    (λ err, capture_iter_new input l m = Err err ∨
       (∃ it rs, capture_iter_new input l m = Ok it ∧ collect (S (S (length input))) it = Ok (rs, Some err)) ∨
       (write_all out input).2 = Some err ∨ (flush (write_all out input).1).2 = Some err).
Proof.
  intros Hb Hlen Hl. unfold copy_exact.
  destruct (capture_iter_new input l m) as [it|err| |] eqn:Hit.
  - destruct (capture_iter_lossless_spec input l m it Hb Hlen Hl Hit) as (rs & err & Hc & _ & _ & _ & _ & Hall).
    rewrite bind_Ok, Hc, bind_Ok. destruct err as [err|]; [right; left; by exists it, rs|].
    pose proof (write_all_ok out input) as Hw. destruct (write_all out input) as [out1 [err|]]; [right; right; by left|].
    pose proof (flush_ok out1) as Hf. cbn [fst]. destruct (flush out1) as [out2 [err|]]; [do 3 right; done|].
    exists it, rs. split_and!; auto. cbn in Hf. by rewrite Hf.
  - by left.
  - revert Hit. unfold capture_iter_new, decoder_new. destruct (_ <? _); [done|].
    pose proof (wp_validate l (λ _, True) (λ _, True) Hl ltac:(done) ltac:(done)) as Hv. by destruct (validate l).
  - revert Hit. unfold capture_iter_new, decoder_new. destruct (_ <? _); [done|].
    pose proof (wp_validate l (λ _, True) (λ _, True) Hl ltac:(done) ltac:(done)) as Hv. by destruct (validate l).
Qed.

Lemma copy_exact_exact_witness :
  wp (copy_exact sample_capture ([] : list Z) limits_default Strict)
    (λ out', ∃ it rs, capture_iter_new sample_capture limits_default Strict = Ok it ∧
       collect (S (S (length sample_capture))) it = Ok (rs, None) ∧ concat (raw <$> rs) = sample_capture ∧
       written out' = written ([] : list Z) ++ sample_capture)
    (λ err, capture_iter_new sample_capture limits_default Strict = Err err ∨
       (∃ it rs, capture_iter_new sample_capture limits_default Strict = Ok it ∧
                 collect (S (S (length sample_capture))) it = Ok (rs, Some err)) ∨
       (write_all ([] : list Z) sample_capture).2 = Some err ∨
       (flush (write_all ([] : list Z) sample_capture).1).2 = Some err).
Proof.
  apply (copy_exact_exact sample_capture ([] : list Z) limits_default Strict);
    [apply sample_bytes_ok|by vm_compute|apply limits_default_ok].
Defined.
