(* ===== verification/NgWriterFacts.v ===== *)
(** * The PCAPNG writer round-trips

    The blocks the PCAPNG writer of [Writer] emits as lists of fields, what the
    decoder makes of each of them, and the simulation between the writer's
    interfaces and the decoder's over a whole file. *)

From S2P Require Import Errors Time Capture CaptureFacts Prelude Writer WriterFacts.

(** ** Encodings *)

Lemma from_pcapng_decimal : Forall (λ x, from_pcapng x = Decimal x) (seqZ 0 128).
Proof. vm_compute. repeat constructor. Qed.
Lemma from_pcapng_binary :
  Forall (λ x, from_pcapng (Z.lor x 0x80) = Binary x ∧ is_byte (Z.lor x 0x80)) (seqZ 0 128).
Proof. vm_compute. repeat constructor; done. Qed.

Lemma from_to_pcapng r v : res_typed r → to_pcapng r = Ok v → from_pcapng v = r ∧ is_byte v.
Proof.
  destruct r as [x|x]; simpl; intros Hx; destruct (Z.leb_spec x 127); try done; intros [= <-].
  - pose proof (proj1 (Forall_forall _ _) from_pcapng_decimal x) as H1. unfold is_byte.
    split; [|lia]. apply H1, elem_of_seqZ. lia.
  - apply (proj1 (Forall_forall _ _) from_pcapng_binary x), elem_of_seqZ. lia.
Qed.

Lemma signed_unsigned v : i64_min ≤ v ≤ i64_max → as_signed 64 (as_unsigned 64 v) = v.
Proof.
  intros. unfold as_signed, as_unsigned. change (2 ^ (64 - 1)) with 9223372036854775808.
  change (2 ^ 64) with 18446744073709551616. destruct (Z.ltb_spec (v mod 18446744073709551616) 9223372036854775808); dlia.
Qed.

Lemma as_unsigned64_bound v : 0 ≤ as_unsigned 64 v ≤ u64_max.
Proof. unfold as_unsigned. change (2 ^ 64) with 18446744073709551616. dlia. Qed.

Lemma high_low v : 0 ≤ v ≤ u64_max →
  0 ≤ as_unsigned 32 (Z.shiftr v 32) ≤ u32_max ∧ 0 ≤ as_unsigned 32 v ≤ u32_max ∧
  Z.lor (Z.shiftl (as_unsigned 32 (Z.shiftr v 32)) 32) (as_unsigned 32 v) = v.
Proof.
  intros Hv. unfold as_unsigned. rewrite Z.shiftr_div_pow2 by lia. change (2 ^ 32) with 4294967296 in *.
  split_and!; try dlia. rewrite (Z.mod_small (v / 4294967296)) by dlia.
  change 4294967296 with (2 ^ 32). rewrite <- Z.shiftr_div_pow2, <- Z.land_ones, Z.shiftl_mul_pow2 by lia.
  rewrite <- Z.shiftl_mul_pow2, <- Z.ldiff_ones_r by lia. apply Z.bits_inj'. intros i Hi.
  rewrite Z.lor_spec, Z.ldiff_spec, Z.land_spec. by destruct (Z.testbit v i), (Z.testbit (Z.ones 32) i).
Qed.

(** [align4] on lengths that fit. *)
Definition padded (n : Z) : Z := n + (- n) mod 4.

Lemma align4_padded n : 0 ≤ n ≤ u32_max → align4 n = Ok (padded n).
Proof. intros. rewrite align4_ok, ldiff3 by done. unfold padded. f_equal. dlia. Qed.

Lemma padded_bounds n : 0 ≤ n → n ≤ padded n < n + 4 ∧ padded n mod 4 = 0.
Proof. unfold padded. dlia. Qed.

Definition zeros (n : Z) : list Z := replicate (Z.to_nat n) 0.
Lemma zlen_zeros n : 0 ≤ n → zlen (zeros n) = n.
Proof. intros. unfold zlen, zeros. rewrite length_replicate. lia. Qed.
Lemma zeros_bytes n : bytes_ok (zeros n).
Proof. unfold bytes_ok, zeros. apply Forall_replicate. unfold is_byte. lia. Qed.

Lemma resize_padded b n : zlen b ≤ n → resize b n 0 = b ++ zeros (n - zlen b).
Proof. intros. unfold resize. by rewrite take_ge by (unfold zlen in *; lia). Qed.

Lemma put_option_ok body e code v :
  zlen v ≤ u16_max → zlen body mod 4 = 0 → zlen body ≤ u16_max →
  put_option body e code v =
    Ok (body ++ put e 2 code ++ put e 2 (zlen v) ++ v ++ zeros (padded (zlen v) - zlen v)).
Proof.
  intros Hv Hm Hb. pose proof (zlen_nonneg v). pose proof (zlen_nonneg body). unfold put_option.
  rewrite (proj2 (Z.leb_le _ _)) by done. cbn [ok_or]. rewrite bind_Ok. unfold put_u16.
  rewrite align4_padded, bind_Ok by (rewrite !zlen_app, !zlen_put; lia).
  rewrite !zlen_app, !zlen_put. f_equal. rewrite resize_padded.
  - rewrite <- !app_assoc. rewrite !zlen_app, !zlen_put. do 5 f_equal. unfold padded. dlia.
  - rewrite !zlen_app, !zlen_put. unfold padded. dlia.
Qed.

(** ** Blocks as fields *)

Section ng.
Context (e : Endian) (l : Limits) (m : ParseMode) (Hl : limits_ok l).

(** A block: type, length, body fields, length. *)
Definition block_fields (ty total : Z) (body : list (list Z)) : list (list Z) :=
  put e 4 ty :: put e 4 total :: body ++ [put e 4 total].

Lemma concat_block_fields ty total body :
  concat (block_fields ty total body) = put e 4 ty ++ put e 4 total ++ concat body ++ put e 4 total.
Proof. unfold block_fields. simpl. rewrite concat_app. simpl. by rewrite app_nil_r. Qed.

Lemma zlen_block_fields ty total body : zlen (concat (block_fields ty total body)) = 12 + zlen (concat body).
Proof. rewrite concat_block_fields, !zlen_app, !zlen_put. lia. Qed.

Definition section_fields : list (list Z) := [put e 4 0x1a2b3c4d; put e 2 1; put e 2 0; put e 8 u64_max].

Definition interface_fields (lt snap res off : Z) : list (list Z) :=
  [put e 2 lt; put e 2 0; put e 4 snap; put e 2 9; put e 2 1; [res]; zeros 3;
   put e 2 14; put e 2 8; put e 8 (as_unsigned 64 off); put e 2 0; put e 2 0].

Definition packet_fields (id ticks orig : Z) (d : list Z) : list (list Z) :=
  [put e 4 id; put e 4 (as_unsigned 32 (Z.shiftr ticks 32)); put e 4 (as_unsigned 32 ticks);
   put e 4 (zlen d); put e 4 orig; d; zeros (padded (zlen d) - zlen d)].

Lemma section_body_fields : section_body e = concat section_fields.
Proof. unfold section_body, put_u16, put_u32, put_u64. simpl. by rewrite !app_nil_r, <- !app_assoc. Qed.

Lemma interface_body_fields lt snap res off :
  interface_body e lt snap res off = Ok (concat (interface_fields lt snap res off)).
Proof.
  unfold interface_body, put_u16, put_u32, put_u64. rewrite !app_nil_l.
  assert (zlen (A:=Z) [res] = 1 ∧ zlen (put e 8 (as_unsigned 64 off)) = 8 ∧ zlen (zeros 3) = 3) as (H1 & H2 & H3)
    by (by rewrite zlen_put).
  rewrite put_option_ok, bind_Ok, H1 by (rewrite ?zlen_app, ?zlen_put, ?H1; done).
  change (padded 1 - 1) with 3. change (padded 8 - 8) with 0.
  rewrite put_option_ok, bind_Ok, H2 by (rewrite ?zlen_app, ?zlen_put, ?H1, ?H2, ?H3; lia || done).
  change (padded 8 - 8) with 0. rewrite put_option_ok by (rewrite ?zlen_app, ?zlen_put, ?H1, ?H3, ?zlen_nil; lia || done).
  f_equal. simpl. by rewrite !app_nil_r, <- !app_assoc.
Qed.

Lemma zlen_interface_fields lt snap res off : zlen (concat (interface_fields lt snap res off)) = 32.
Proof. unfold interface_fields. cbn [concat]. by rewrite !zlen_app, !zlen_put. Qed.

Lemma packet_body_fields id ticks orig d :
  packet_body e id ticks (zlen d) orig d (20 + padded (zlen d)) = concat (packet_fields id ticks orig d).
Proof.
  pose proof (padded_bounds (zlen d) (zlen_nonneg d)).
  unfold packet_body, put_u32. rewrite app_nil_l, resize_padded by (rewrite !zlen_app, !zlen_put; lia).
  rewrite !zlen_app, !zlen_put. simpl. rewrite !app_nil_r, <- !app_assoc. do 7 f_equal. lia.
Qed.

Lemma zlen_packet_fields id ticks orig d : zlen (concat (packet_fields id ticks orig d)) = 20 + padded (zlen d).
Proof.
  pose proof (padded_bounds (zlen d) (zlen_nonneg d)).
  simpl. rewrite ?zlen_app, ?zlen_put, zlen_zeros, zlen_nil by lia. lia.
Qed.

(** [PcapNgWriter::block] appends the block. *)
Lemma block_ok {W : Type} `{Sink W} (w w' : PcapNgWriter W) ty body :
  nw_endian w = e → block w ty (concat body) = Ok (w', None) →
  ng_failed w = false ∧ ng_failed w' = false ∧ nw_endian w' = e ∧ ng_limits w' = ng_limits w ∧
  ng_interfaces w' = ng_interfaces w ∧
  12 + zlen (concat body) ≤ Z.min u32_max (max_block_bytes (ng_limits w)) ∧ (12 + zlen (concat body)) mod 4 = 0 ∧
  written (ng_output w') = written (ng_output w) ++ concat (block_fields ty (12 + zlen (concat body)) body).
Proof.
  intros He. unfold block. destruct (ng_failed w) eqn:Hf; [done|]. unfold checked_add.
  destruct (Z.leb_spec (zlen (concat body) + 12) usize_max); [|done]. cbn [ok_or]. rewrite bind_Ok.
  match goal with |- context [if ?c then _ else _] => destruct c eqn:Hc; [done|] end. bool_facts.
  unfold to_u32. destruct (Z.leb_spec (zlen (concat body) + 12) u32_max); [|done]. cbn [ok_or]. rewrite bind_Ok, He.
  unfold put_u32. rewrite !app_nil_l, (Z.add_comm (zlen _) 12) in *.
  pose proof (write_chunks_ok (ng_output w)
    [put e 4 ty ++ put e 4 (12 + zlen (concat body)); concat body; put e 4 (12 + zlen (concat body))]) as Hw.
  destruct (write_chunks _ _) as [o [err|]]; [done|]. intros [= <-]. split_and!; try done; try lia.
  cbn [ng_output]. rewrite Hw, concat_block_fields. simpl. by rewrite app_nil_r, <- !app_assoc.
Qed.

(** ** What the decoder makes of a block *)

(** The decoder after the section header, [n] packets and [r] records. *)
Definition ng_state (ifs : list Interface) (n r : Z) : Decoder :=
  {| limits := l; mode := m; format := Some PcapNg; endian := e; legacy_header := None;
     interfaces := ifs; d_section := 0; sections_seen := 1; section_end := None; next_frame := 1 + n;
     records := r |}.

Lemma block_type ty : ty = 1 ∨ ty = 6 → bytes_eqb (put e 4 ty) magic_shb = false ∧ u32 e (put e 4 ty) = Ok ty.
Proof. intros [-> | ->]; by destruct e. Qed.

Lemma required_block_ok ifs n r ty total body rest off :
  ty = 1 ∨ ty = 6 → total = 12 + zlen (concat body) → total ≤ Z.min u32_max (max_block_bytes l) → total mod 4 = 0 →
  0 ≤ off → off + zlen (concat (block_fields ty total body) ++ rest) ≤ i64_max →
  required (ng_state ifs n r) (concat (block_fields ty total body) ++ rest) off = Ok total.
Proof using Hl.
  intros Hty Ht Hmax Hm Hoff Hlim. unfold required. pose proof (zlen_nonneg rest). pose proof (zlen_nonneg (concat body)).
  pose proof (zlen_block_fields ty total body) as Hz.
  rewrite zlen_app in Hlim. unfold checked_add. rewrite zlen_app, (proj2 (Z.leb_le _ _)) by lia. cbn [ok_or]. rewrite bind_Ok.
  cbn [format ng_state]. unfold required_block. rewrite zlen_app, (proj2 (Z.ltb_ge _ _)) by lia.
  rewrite !slice_app by lia. unfold block_fields.
  read_field (@nil (list Z)) (put e 4 ty) 0 4. rewrite (proj1 (block_type ty Hty)). cbn [andb]. rewrite bind_Ok.
  read_field [put e 4 ty] (put e 4 total) 4 8. cbn [endian ng_state]. rewrite u32_put, bind_Ok by lia.
  rewrite (proj2 (Z.ltb_ge total 12)) by lia. rewrite Hm. cbn [Z.eqb negb orb].
  by rewrite (proj2 (Z.ltb_ge _ _)) by (cbn [limits ng_state]; lia).
Qed.

Lemma decode_branch_block ifs n r ty total body off :
  ty = 1 ∨ ty = 6 → total = 12 + zlen (concat body) → total ≤ u32_max →
  let rec := concat (block_fields ty total body) in
  decode_branch (ng_state ifs n r) rec total off =
    if ty =? 1 then decode_interface (ng_state ifs n r) rec e total off
    else decode_packet_block (ng_state ifs n r) rec e 6 total off.
Proof using Hl.
  intros Hty Ht Hmax rec. pose proof (zlen_nonneg (concat body)). unfold decode_branch. cbn [format ng_state].
  unfold decode_block, rec, block_fields.
  read_field (@nil (list Z)) (put e 4 ty) 0 4. destruct (block_type ty Hty) as [Hshb Hu]. rewrite Hshb, bind_Ok.
  cbn [endian ng_state].
  assert (∀ F, slice (E:=Error) (concat (put e 4 ty :: put e 4 total :: body ++ [put e 4 total])) (total - 4) total ≫= F
    = F (put e 4 total)) as ->.
  { intros F. pose proof (λ post, slice_field (E:=Error) (put e 4 ty :: put e 4 total :: body) (put e 4 total) post
      (total - 4) total) as Hs. cbn [app] in Hs. rewrite Hs; [done|cbn [concat]; rewrite !zlen_app, !zlen_put; lia|rewrite zlen_put; lia]. }
  cbv beta. rewrite (u32_put e total), bind_Ok by lia. cbv beta. rewrite Z.eqb_refl. cbn [negb]. unfold check_section_end. cbn [section_end ng_state].
  rewrite bind_Ok, Hu, bind_Ok. destruct Hty as [-> | ->]; done.
Qed.

(** One option of the list, and its end. *)
Lemma option_step_value pre code v zs post stop p off out :
  p = zlen (concat pre) → 0 < code ≤ 32 → zlen v ≤ 255 → p + 4 + padded (zlen v) ≤ stop → stop ≤ i64_max →
  zlen out < max_options l →
  option_step (concat (pre ++ put e 2 code :: put e 2 (zlen v) :: v :: zs :: post)) stop e off l (p, out) =
    Ok (Continue (p + 4 + padded (zlen v), out ++ [{| o_code := code; value_offset := p + 4; o_length := zlen v |}])).
Proof.
  intros -> Hc Hv Hstop Hmax Hout. pose proof (zlen_nonneg v) as Hv0. pose proof (zlen_nonneg (concat pre)) as Hp0.
  destruct (padded_bounds (zlen v) Hv0) as [Hpad _].
  unfold option_step. rewrite (proj2 (Z.ltb_lt _ _)), (proj2 (Z.ltb_ge _ 4)) by lia. cbn [negb].
  rewrite (slice_field pre (put e 2 code) _ (zlen (concat pre))), bind_Ok by (rewrite ?zlen_put; lia || done). cbv beta.
  rewrite (u16_put e code), bind_Ok by lia. cbv beta.
  pose proof (λ post, slice_field (E:=Error) (pre ++ [put e 2 code]) (put e 2 (zlen v)) post
    (zlen (concat pre) + 2) (zlen (concat pre) + 4)) as Hs.
  setoid_rewrite <- app_assoc in Hs. cbn [app] in Hs.
  rewrite Hs, bind_Ok by (rewrite ?concat_app; simpl; rewrite ?zlen_app, ?zlen_put, ?zlen_nil; lia). clear Hs. cbv beta.
  rewrite (u16_put e (zlen v)), bind_Ok by lia. cbv beta.
  rewrite (proj2 (Z.eqb_neq code 0)), (proj2 (Z.leb_gt _ _)), align4_padded, bind_Ok by lia.
  unfold checked_add. rewrite (proj2 (Z.leb_le _ _)) by lia. cbn [ok_or]. rewrite bind_Ok, (proj2 (Z.ltb_ge _ _)) by lia.
  cbn [existsb]. rewrite !(proj2 (Z.eqb_neq code _)) by lia. done.
Qed.

Lemma option_step_end pre post stop p off out :
  p = zlen (concat pre) → p + 4 ≤ stop →
  option_step (concat (pre ++ put e 2 0 :: put e 2 0 :: post)) stop e off l (p, out) = Ok (Break out).
Proof.
  intros -> Hstop. unfold option_step. rewrite (proj2 (Z.ltb_lt _ _)), (proj2 (Z.ltb_ge _ 4)) by lia. cbn [negb].
  rewrite (slice_field pre (put e 2 0) _ (zlen (concat pre))), bind_Ok by (rewrite ?zlen_put; lia || done). cbv beta.
  rewrite (u16_put e 0), bind_Ok by lia. cbv beta.
  pose proof (λ post, slice_field (E:=Error) (pre ++ [put e 2 0]) (put e 2 0) post
    (zlen (concat pre) + 2) (zlen (concat pre) + 4)) as Hs.
  setoid_rewrite <- app_assoc in Hs. cbn [app] in Hs.
  rewrite Hs, bind_Ok by (rewrite ?concat_app; simpl; rewrite ?zlen_app, ?zlen_put, ?zlen_nil; lia). clear Hs. cbv beta.
  rewrite (u16_put e 0), bind_Ok by lia. cbv beta.
  done.
Qed.

Lemma parse_interface_options lt snap res off0 off :
  2 ≤ max_options l →
  let rec := concat (block_fields 1 44 (interface_fields lt snap res off0)) in
  parse_options rec 16 40 e off l =
    Ok [{| o_code := 9; value_offset := 20; o_length := 1 |}; {| o_code := 14; value_offset := 28; o_length := 8 |}].
Proof.
  intros Hopt rec. unfold parse_options.
  assert (zlen rec = 44) as Hz by (unfold rec; by rewrite zlen_block_fields, zlen_interface_fields).
  destruct (length rec) as [|[|[|k]]] eqn:Hlen; unfold zlen in Hz; try lia. clear Hz Hlen.
  unfold rec, block_fields, interface_fields. cbn [app].
  pose proof (option_step_value [put e 4 1; put e 4 44; put e 2 lt; put e 2 0; put e 4 snap] 9 [res] (zeros 3)) as H1.
  change (zlen [res]) with 1 in H1. cbn [app] in H1.
  rewrite loop_S, H1, bind_Ok by (field_len || done). clear H1.
  change (16 + 4 + padded 1) with 24.
  pose proof (option_step_value [put e 4 1; put e 4 44; put e 2 lt; put e 2 0; put e 4 snap; put e 2 9; put e 2 1;
    [res]; zeros 3] 14 (put e 8 (as_unsigned 64 off0))) as H2. rewrite zlen_put in H2. cbn [app] in H2.
  change (Z.of_nat 8) with 8 in H2.
  rewrite loop_S, H2, bind_Ok by (field_len || (rewrite ?zlen_app, ?zlen_cons, ?zlen_nil; lia)). clear H2. change (24 + 4 + padded 8) with 36.
  pose proof (option_step_end [put e 4 1; put e 4 44; put e 2 lt; put e 2 0; put e 4 snap; put e 2 9; put e 2 1;
    [res]; zeros 3; put e 2 14; put e 2 8; put e 8 (as_unsigned 64 off0)]) as H3. cbn [app] in H3.
  by rewrite loop_S, H3, bind_Ok by (field_len || done).
Qed.

(** The fixed byte of [if_tsresol] and the eight of [if_tsoffset]. *)
Lemma decode_interface_ok ifs n r lt snap res v off0 off :
  2 ≤ max_options l → zlen ifs < max_interfaces l → to_pcapng res = Ok v → res_typed res →
  0 ≤ lt ≤ u16_max → 0 ≤ snap ≤ u32_max → i64_min ≤ off0 ≤ i64_max → zlen ifs ≤ u32_max →
  let i := {| if_section := 0; if_id := zlen ifs; if_link_type := lt; if_snaplen := snap;
              if_resolution := res; if_offset_seconds := off0 |} in
  decode_interface (ng_state ifs n r) (concat (block_fields 1 44 (interface_fields lt snap v off0))) e 44 off =
    Ok (ng_state (ifs ++ [i]) n r, e, KInterface i,
        [{| o_code := 9; value_offset := 20; o_length := 1 |}; {| o_code := 14; value_offset := 28; o_length := 8 |}], []).
Proof.
  intros Hopt Hifs Hres Hty Hlt Hsnap Hoff Hid i. destruct (from_to_pcapng res v Hty Hres) as [Hfrom Hv].
  pose proof (zlen_nonneg ifs).
  unfold decode_interface. change (minimum 44 20 off "interface") with (Ok (E:=Error) ()). rewrite bind_Ok.
  cbn [limits ng_state interfaces]. rewrite (proj2 (Z.leb_gt _ _)) by done.
  change (44 - 4) with 40. rewrite parse_interface_options, bind_Ok by done. cbv beta.
  assert (foldM (clock_option (concat (block_fields 1 44 (interface_fields lt snap v off0))) e off)
    {| co_resolution := Decimal 6; co_offset := 0; seen_resolution := false; seen_offset := false |}
    [{| o_code := 9; value_offset := 20; o_length := 1 |}; {| o_code := 14; value_offset := 28; o_length := 8 |}] =
    Ok {| co_resolution := res; co_offset := off0; seen_resolution := true; seen_offset := true |}) as ->.
  { unfold block_fields, interface_fields. cbn [app foldM]. set (c := clock_option _ e off).
    assert (c {| co_resolution := Decimal 6; co_offset := 0; seen_resolution := false; seen_offset := false |}
              {| o_code := 9; value_offset := 20; o_length := 1 |} =
            Ok {| co_resolution := res; co_offset := 0; seen_resolution := true; seen_offset := false |}) as ->.
    { subst c. unfold clock_option. cbn [value_offset o_length]. rewrite add_ovf_ok, bind_Ok by lia. change (20 + 1) with 21.
      read_field [put e 4 1; put e 4 44; put e 2 lt; put e 2 0; put e 4 snap; put e 2 9; put e 2 1] [v] 20 21.
      cbn [o_code seen_resolution]. change (9 =? 9) with true. change (zlen [v] =? 1) with true. cbn [negb orb].
      change (idx [v] 0) with (Ok (E:=Error) v). by rewrite bind_Ok, Hfrom. }
    rewrite bind_Ok. subst c. unfold clock_option. cbn [value_offset o_length].
    rewrite add_ovf_ok, bind_Ok by lia. change (28 + 8) with 36.
    read_field [put e 4 1; put e 4 44; put e 2 lt; put e 2 0; put e 4 snap; put e 2 9; put e 2 1; [v]; zeros 3;
      put e 2 14; put e 2 8] (put e 8 (as_unsigned 64 off0)) 28 36.
    rewrite zlen_put, u64_put by apply as_unsigned64_bound. cbn [o_code seen_offset co_resolution seen_resolution].
    change (14 =? 9) with false. change (14 =? 14) with true. change (Z.of_nat 8 =? 8) with true. cbn [negb orb].
    rewrite !bind_Ok. by rewrite signed_unsigned. }
  rewrite bind_Ok. unfold block_fields, interface_fields. cbn [app].
  read_field [put e 4 1; put e 4 44] (put e 2 lt) 8 10. rewrite u16_put, bind_Ok by lia.
  read_field [put e 4 1; put e 4 44; put e 2 lt; put e 2 0] (put e 4 snap) 12 16. rewrite u32_put, bind_Ok by lia.
  cbn [co_resolution co_offset d_section ng_state]. change (2 ^ 32) with 4294967296. rewrite Z.mod_small by lia. done.
Qed.

Lemma parse_no_options rec start stop off :
  stop ≤ start → parse_options rec start stop e off l = Ok [].
Proof. intros. unfold parse_options. rewrite loop_S. unfold option_step. by rewrite (proj2 (Z.ltb_ge _ _)) by lia. Qed.

(** An enhanced packet block without options. *)
Lemma decode_packet_ok ifs n r id i tk orig d off :
  get ifs id = Some i → 0 ≤ id ≤ u32_max → 0 ≤ tk ≤ u64_max → 0 ≤ orig ≤ u32_max → 0 ≤ n → n + 2 ≤ u64_max →
  zlen d ≤ max_packet_bytes l → zlen d ≤ orig → if_snaplen i = 0 ∨ zlen d ≤ if_snaplen i →
  32 + padded (zlen d) ≤ u32_max →
  let total := 32 + padded (zlen d) in
  decode_packet_block (ng_state ifs n r) (concat (block_fields 6 total (packet_fields id tk orig d))) e 6 total off =
    Ok (ng_state ifs (n + 1) r, e,
        KPacket {| frame := 1 + n; section := 0; interface := id; link_type := if_link_type i;
                   captured_len := zlen d; original_len := orig; data_offset := 28;
                   timestamp := Some {| ticks := tk; resolution := if_resolution i;
                                        offset_seconds := if_offset_seconds i |} |}, [], []).
Proof.
  intros Hi Hid Htk Ho Hn Hn2 Hmp Hor Hsn Htot total. destruct (high_low tk Htk) as (Hhi & Hlo & Hboth).
  pose proof (zlen_nonneg d) as Hd. destruct (padded_bounds _ Hd) as [Hpad _].
  unfold decode_packet_block, minimum. rewrite (proj2 (Z.ltb_ge _ _)), bind_Ok by lia.
  change (6 =? 2) with false. cbv iota. unfold block_fields, packet_fields. cbn [app].
  read_field [put e 4 6; put e 4 total] (put e 4 id) 8 12. rewrite (u32_put e id), bind_Ok by lia.
  unfold interface_at. cbn [interfaces ng_state]. rewrite Hi, bind_Ok.
  set (hi := as_unsigned 32 (Z.shiftr tk 32)) in *. set (lo := as_unsigned 32 tk) in *.
  read_field [put e 4 6; put e 4 total; put e 4 id; put e 4 hi; put e 4 lo] (put e 4 (zlen d)) 20 24.
  rewrite (u32_put e (zlen d)), bind_Ok by lia.
  read_field [put e 4 6; put e 4 total; put e 4 id; put e 4 hi; put e 4 lo; put e 4 (zlen d)] (put e 4 orig) 24 28.
  rewrite (u32_put e orig), bind_Ok by lia. cbn [limits ng_state]. rewrite (proj2 (Z.ltb_ge _ _)) by lia.
  rewrite align4_padded, bind_Ok by lia. unfold checked_add. rewrite (proj2 (Z.leb_le _ _)) by lia. cbn [ok_or].
  rewrite bind_Ok, (proj2 (Z.ltb_ge _ _)) by (unfold total; lia).
  unfold validate_lengths. rewrite (proj2 (Z.ltb_ge orig _)) by lia. cbn [orb].
  assert (negb (if_snaplen i =? 0) && (if_snaplen i <? zlen d) = false) as ->.
  { destruct Hsn as [-> |Hsn]; [done|]. rewrite (proj2 (Z.ltb_ge _ _)) by lia. apply andb_false_r. }
  rewrite bind_Ok, parse_no_options, bind_Ok by (unfold total; lia).
  unfold block_ticks. read_field [put e 4 6; put e 4 total; put e 4 id] (put e 4 hi) 12 16.
  rewrite (u32_put e hi), bind_Ok by lia.
  read_field [put e 4 6; put e 4 total; put e 4 id; put e 4 hi] (put e 4 lo) 16 20.
  rewrite (u32_put e lo), bind_Ok by lia. rewrite Hboth, bind_Ok.
  unfold bump_frame. cbn [next_frame ng_state]. rewrite add_ovf_ok, !bind_Ok by lia.
  unfold ng_state. replace (1 + n + 1) with (1 + (n + 1)) by lia. done.
Qed.

(** The section header block that opens a file. *)
Definition section_record : list Z := concat (block_fields SHB 28 section_fields).

Lemma section_reads :
  reads (before_header l m) 0 section_record (ng_state [] 0 1)
    {| r_offset := 0; r_endian := e; raw := section_record; kind := KSection 0 None; options := []; warnings := [] |}.
Proof using Hl.
  assert (zlen section_record = 28) as Hz.
  { unfold section_record. rewrite zlen_block_fields. unfold section_fields. cbn [concat]. by rewrite !zlen_app, !zlen_put. }
  assert (bytes_eqb (put e 4 SHB) magic_shb = true ∧ u32 e (put e 4 SHB) = Ok SHB) as [Hshb Hty] by (by destruct e).
  assert (∀ rest off, ng_endian (section_record ++ rest) off = Ok e) as Hend.
  { intros rest off. unfold ng_endian. rewrite slice_app by lia. unfold section_record, block_fields, section_fields. cbn [app].
    read_field [put e 4 SHB; put e 4 28] (put e 4 0x1a2b3c4d) 8 12. by destruct e. }
  limits_facts Hl.
  apply (reads_intro (before_header l m) 0 _ (ng_state [] 0 0)).
  - intros E. by rewrite E in Hz.
  - simpl. lia.
  - done.
  - simpl. lia.
  - intros rest Hb Hlim. unfold required. pose proof (zlen_nonneg rest). rewrite Z.add_0_l in *. rewrite zlen_app in Hlim |- *.
    unfold checked_add. rewrite Z.add_0_l, (proj2 (Z.leb_le _ _)) by lia. cbn [ok_or]. rewrite bind_Ok. cbn [format before_header].
    rewrite (proj2 (Z.ltb_ge _ _)) by lia. unfold required_block. rewrite zlen_app, !(proj2 (Z.ltb_ge (zlen section_record + _) _)) by lia.
    assert (slice (E:=Error) (section_record ++ rest) 0 4 = Ok (put e 4 SHB)) as ->.
    { rewrite slice_app by lia. apply (slice_field (@nil (list Z)) (put e 4 SHB)); field_len. }
    assert (slice (E:=Error) (section_record ++ rest) 4 8 = Ok (put e 4 28)) as ->.
    { rewrite slice_app by lia. apply (slice_field [put e 4 SHB]); field_len. }
    rewrite !bind_Ok, Hshb. cbn [negb andb]. rewrite Hend, !bind_Ok, u32_put, bind_Ok by lia.
    change ((28 <? 12) || negb (28 mod 4 =? 0) || (true && (28 <? 28))) with false. cbv iota.
    cbn [limits before_header]. destruct Hl as (_ & _ & _ & Hblk).
    rewrite (proj2 (Z.ltb_ge (max_block_bytes l) 28)) by done. by rewrite Hz.
  - rewrite Hz. unfold decode_branch, decode_block. cbn [format before_header].
    assert (slice (E:=Error) section_record 0 4 = Ok (put e 4 SHB)) as ->.
    { apply (slice_field (@nil (list Z)) (put e 4 SHB)); field_len. }
    assert (slice (E:=Error) section_record (28 - 4) 28 = Ok (put e 4 28)) as ->.
    { apply (slice_field [put e 4 SHB; put e 4 28; put e 4 0x1a2b3c4d; put e 2 1; put e 2 0; put e 8 u64_max]); field_len. }
    specialize (Hend [] 0). rewrite app_nil_r in Hend. rewrite !bind_Ok, Hshb. cbn [negb]. rewrite Hend, !bind_Ok.
    rewrite (u32_put e 28), bind_Ok, Z.eqb_refl by lia. cbn [negb]. unfold check_section_end.
    cbn [section_end before_header]. rewrite bind_Ok, Hty, bind_Ok, Z.eqb_refl.
    unfold decode_section, section_record, block_fields, section_fields. cbn [app].
    read_field [put e 4 SHB; put e 4 28; put e 4 0x1a2b3c4d] (put e 2 1) 12 14. rewrite (u16_put e 1), bind_Ok by lia.
    read_field [put e 4 SHB; put e 4 28; put e 4 0x1a2b3c4d; put e 2 1] (put e 2 0) 14 16. rewrite (u16_put e 0), bind_Ok by lia.
    change (negb (1 =? 1) || negb (0 =? 0)) with false. cbv iota.
    read_field [put e 4 SHB; put e 4 28; put e 4 0x1a2b3c4d; put e 2 1; put e 2 0] (put e 8 u64_max) 16 24.
    rewrite u64_put, bind_Ok by lia. change (as_signed 64 u64_max) with (-1). cbn [Z.ltb Z.leb Z.compare Pos.compare Pos.compare_cont andb negb].
    rewrite parse_no_options, bind_Ok by lia. done.
Qed.

(** ** Whole files *)

(** A call of the writer. *)
Inductive NgOp : Type :=
  | OpInterface (lt snap : Z) (res : Resolution) (off : Z)
  | OpPacket (id : Z) (t : Timestamp) (orig : Z) (d : list Z).

(** The arguments have their Rust types. *)
Definition op_typed (o : NgOp) : Prop :=
  match o with
  | OpInterface lt snap res off =>
      0 ≤ lt ≤ u16_max ∧ 0 ≤ snap ≤ u32_max ∧ res_typed res ∧ i64_min ≤ off ≤ i64_max
  | OpPacket id t orig d =>
      0 ≤ id ≤ u32_max ∧ 0 ≤ ticks t ≤ u64_max ∧ 0 ≤ orig ≤ u32_max ∧ bytes_ok d
  end.

(** What the decoder must report of a call, after the interfaces [ifs] and [n] packets. *)
Definition op_back (ifs : list Interface) (n : Z) (o : NgOp) (r : CapRecord) : Prop :=
  warnings r = [] ∧
  match o with
  | OpInterface lt snap res off =>
      kind r = KInterface {| if_section := 0; if_id := zlen ifs; if_link_type := lt; if_snaplen := snap;
                             if_resolution := res; if_offset_seconds := off |}
  | OpPacket id t orig d =>
      ∃ i, get ifs id = Some i ∧
      record_packet r = Ok (Some ({| frame := n + 1; section := 0; interface := id; link_type := if_link_type i;
                                     captured_len := zlen d; original_len := orig; data_offset := 28;
                                     timestamp := Some t |}, d))
  end.

Definition op_interfaces (ifs : list Interface) (o : NgOp) : list Interface :=
  match o with
  | OpInterface lt snap res off =>
      ifs ++ [{| if_section := 0; if_id := zlen ifs; if_link_type := lt; if_snaplen := snap;
                 if_resolution := res; if_offset_seconds := off |}]
  | OpPacket _ _ _ _ => ifs
  end.
Definition op_packets (n : Z) (o : NgOp) : Z :=
  match o with OpInterface _ _ _ _ => n | OpPacket _ _ _ _ => n + 1 end.

(** Every call is reported, in order. *)
Fixpoint ops_back (ifs : list Interface) (n : Z) (os : list NgOp) (rs : list CapRecord) : Prop :=
  match os, rs with
  | [], [] => True
  | o :: os, r :: rs => op_back ifs n o r ∧ ops_back (op_interfaces ifs o) (op_packets n o) os rs
  | _, _ => False
  end.

Lemma ops_back_snoc ifs n os rs o r :
  ops_back ifs n os rs → op_back (foldl op_interfaces ifs os) (foldl op_packets n os) o r →
  ops_back ifs n (os ++ [o]) (rs ++ [r]).
Proof.
  revert ifs n rs. induction os as [|x os IH]; intros ifs n [|y rs]; simpl; try done.
  intros [H1 H2] H3. split; [done|]. by apply IH.
Qed.

Lemma op_packets_bounds os n : n ≤ foldl op_packets n os ≤ n + zlen os.
Proof.
  revert n. induction os as [|o os IH]; intros n; cbn [foldl]; [rewrite zlen_nil; lia|].
  rewrite zlen_cons. specialize (IH (op_packets n o)). destruct o; simpl in *; lia.
Qed.

(** The record of a call. *)
Definition op_record (o : NgOp) (rec : list Z) : Prop :=
  match o with
  | OpInterface lt snap res off =>
      ∃ v, to_pcapng res = Ok v ∧ rec = concat (block_fields 1 44 (interface_fields lt snap v off))
  | OpPacket id t orig d =>
      rec = concat (block_fields 6 (32 + padded (zlen d)) (packet_fields id (ticks t) orig d))
  end.

Lemma block_record_reads ifs n r ty total body off d1 k opts :
  ty = 1 ∨ ty = 6 → total = 12 + zlen (concat body) → total ≤ Z.min u32_max (max_block_bytes l) → total mod 4 = 0 →
  0 ≤ off → r < max_records l →
  (∀ d, d = ng_state ifs n r →
     (if ty =? 1 then decode_interface d (concat (block_fields ty total body)) e total off
      else decode_packet_block d (concat (block_fields ty total body)) e 6 total off) = Ok (ng_state d1.1 d1.2 r, e, k, opts, [])) →
  reads (ng_state ifs n r) off (concat (block_fields ty total body)) (ng_state d1.1 d1.2 (r + 1))
    {| r_offset := off; r_endian := e; raw := concat (block_fields ty total body); kind := k; options := opts; warnings := [] |}.
Proof using Hl.
  intros Hty Ht Hmax Hm Hoff Hr Hdec. limits_facts Hl. pose proof (zlen_nonneg (concat body)).
  assert (zlen (concat (block_fields ty total body)) = total) as Hz by (rewrite zlen_block_fields; lia).
  apply (reads_intro (ng_state ifs n r) off _ (ng_state d1.1 d1.2 r)).
  - intros E. rewrite E, zlen_nil in Hz. lia.
  - done.
  - done.
  - simpl. lia.
  - intros rest Hb Hlim. rewrite Hz. by apply required_block_ok.
  - rewrite Hz, decode_branch_block by (done || lia). by apply Hdec.
Qed.

(** What the writer checks before it writes. *)
Definition op_accepted (ifs : list Interface) (o : NgOp) : Prop :=
  match o with
  | OpInterface lt snap res off => zlen ifs < max_interfaces l ∧ zlen ifs ≤ u32_max ∧ 44 ≤ max_block_bytes l
  | OpPacket id t orig d =>
      ∃ i, get ifs id = Some i ∧ resolution t = if_resolution i ∧ offset_seconds t = if_offset_seconds i ∧
      zlen d ≤ max_packet_bytes l ∧ zlen d ≤ orig ∧ (if_snaplen i = 0 ∨ zlen d ≤ if_snaplen i) ∧
      32 + padded (zlen d) ≤ Z.min u32_max (max_block_bytes l)
  end.

Lemma op_reads ifs n r off o rec :
  2 ≤ max_options l → op_typed o → op_accepted ifs o → op_record o rec →
  0 ≤ n → n < r → r < max_records l → 0 ≤ off →
  ∃ cr, reads (ng_state ifs n r) off rec (ng_state (op_interfaces ifs o) (op_packets n o) (r + 1)) cr ∧
        op_back ifs n o cr.
Proof using Hl.
  intros Hopt Hty Hacc Hrec Hn Hnr Hr Hoff. limits_facts Hl.
  destruct o as [lt snap res off0|id t orig d]; cbn [op_typed op_accepted op_record] in Hty, Hacc, Hrec.
  - destruct Hrec as (v & Hv & ->). eexists. split.
    + apply (block_record_reads ifs n r 1 44 _ off
        (ifs ++ [{| if_section := 0; if_id := zlen ifs; if_link_type := lt; if_snaplen := snap;
                    if_resolution := res; if_offset_seconds := off0 |}], n)); try done;
        [by left|by rewrite zlen_interface_fields|lia|].
      intros d ->. apply decode_interface_ok; naive_solver lia.
    + by split.
  - subst rec. destruct Hacc as (i & Hi & Hres & Hofs & Hmp & Hor & Hsn & Htot).
    pose proof (padded_bounds _ (zlen_nonneg d)) as [Hp Hp4]. eexists. split.
    + apply (block_record_reads ifs n r 6 _ _ off (ifs, n + 1)); try done; [by right| | |].
      * rewrite zlen_packet_fields. lia.
      * dlia.
      * intros d' ->. apply (decode_packet_ok ifs n r id i (ticks t)); naive_solver lia.
    + split; [done|]. exists i. split; [done|]. unfold record_packet. cbn [kind data_offset captured_len raw].
      rewrite add_ovf_ok, bind_Ok by lia. unfold block_fields, packet_fields. cbn [app].
      read_field [put e 4 6; put e 4 (32 + padded (zlen d)); put e 4 id; put e 4 (as_unsigned 32 (Z.shiftr (ticks t) 32));
        put e 4 (as_unsigned 32 (ticks t)); put e 4 (zlen d); put e 4 orig] d 28 (28 + zlen d).
      rewrite (Z.add_comm 1 n), <- Hres, <- Hofs. by destruct t.
Qed.

Context {W : Type} `{Sink W}.

Definition ng_step (w : PcapNgWriter W) (o : NgOp) : result (PcapNgWriter W) :=
  match o with
  | OpInterface lt snap res off =>
      r ← ng_interface w lt snap res off;
      match r with (w, inl _) => Ok w | (_, inr err) => Err err end
  | OpPacket id t orig d =>
      r ← ng_packet w id t orig d;
      match r with (w, None) => Ok w | (_, Some err) => Err err end
  end.

(** A file: the section header, the calls, [finish]. *)
Definition ng_file (out : W) (os : list NgOp) : result W :=
  w ← pcapng_new out e l;
  w ← foldM ng_step w os;
  ng_finish w.

Lemma ng_step_effect w o w' :
  op_typed o → nw_endian w = e → ng_limits w = l → ng_step w o = Ok w' →
  op_accepted (ng_interfaces w) o ∧ nw_endian w' = e ∧ ng_limits w' = l ∧
  ng_interfaces w' = op_interfaces (ng_interfaces w) o ∧
  ∃ rec, op_record o rec ∧ bytes_ok rec ∧ written (ng_output w') = written (ng_output w) ++ rec.
Proof using Hl.
  intros Hty He Hlim. destruct o as [lt snap res off0|id t orig d]; simpl in Hty; unfold ng_step.
  - unfold ng_interface. destruct (ng_failed w); [done|]. rewrite Hlim.
    destruct (Z.leb_spec (max_interfaces l) (zlen (ng_interfaces w))); [done|].
    destruct (to_pcapng res) as [v| | |] eqn:Hv; try done. rewrite bind_Ok.
    unfold to_u32. destruct (Z.leb_spec (zlen (ng_interfaces w)) u32_max); [|done]. cbn [ok_or].
    rewrite bind_Ok, He, interface_body_fields, bind_Ok.
    destruct (block w 1 _) as [[w1 [err|]]| | |] eqn:Hb; try done. rewrite !bind_Ok. intros [= <-].
    apply block_ok in Hb as (_ & _ & He1 & Hl1 & Hi1 & Hlen & Hm & Hw); [|done].
    rewrite zlen_interface_fields in *. change (12 + 32) with 44 in *. rewrite Hlim in *.
    cbn [nw_endian ng_limits ng_interfaces ng_output]. rewrite Hi1. split_and!; try done; [cbn [op_accepted]; lia|].
    eexists. split; [by exists v|]. split; [|done]. destruct (from_to_pcapng res v) as [_ Hbv]; [naive_solver|done|].
    apply concat_bytes. unfold block_fields, interface_fields. cbn [app].
    repeat (apply Forall_cons; split; [first [apply put_bytes|apply zeros_bytes|by apply Forall_singleton]|]). constructor.
  - unfold ng_packet. destruct (ng_failed w); [done|]. rewrite Hlim.
    destruct (get (ng_interfaces w) id) as [i|] eqn:Hi; [|done]. cbn [ok_or]. rewrite bind_Ok.
    match goal with |- context [if ?c then _ else _] => destruct c eqn:Hc1; [done|] end.
    match goal with |- context [if ?c then _ else _] => destruct c eqn:Hc2; [done|] end.
    bool_facts. pose proof (zlen_nonneg d). limits_facts Hl. rewrite align4_padded, bind_Ok by lia.
    pose proof (padded_bounds _ (zlen_nonneg d)) as [Hp Hp4].
    unfold checked_add. rewrite (proj2 (Z.leb_le (20 + _) _)) by lia. cbn [ok_or]. rewrite bind_Ok.
    match goal with |- context [if ?c then _ else _] => destruct c eqn:Hc3; [done|] end.
    unfold to_u32. rewrite (proj2 (Z.leb_le (zlen d) u32_max)) by lia. cbn [ok_or]. rewrite bind_Ok, He, packet_body_fields.
    destruct (block w 6 _) as [[w1 [err|]]| | |] eqn:Hb; try done. rewrite !bind_Ok. intros [= <-].
    apply block_ok in Hb as (_ & _ & He1 & Hl1 & Hi1 & Hlen & Hm & Hw); [|done].
    rewrite zlen_packet_fields in *. replace (12 + (20 + padded (zlen d))) with (32 + padded (zlen d)) in * by lia.
    rewrite Hlim in *. split_and!; try done.
    + exists i. split_and!; try done; try lia.
      match goal with H : bool_decide _ = true |- _ => by apply bool_decide_eq_true in H end.
    + eexists. split; [done|]. split; [|done]. apply concat_bytes. unfold block_fields, packet_fields. cbn [app].
      repeat (apply Forall_cons; split; [first [apply put_bytes|apply zeros_bytes|apply Hty]|]). constructor.
Qed.

(** The writer after its section header and some calls: the decoder that has read its
    output holds the same interfaces. *)
Definition ng_inv (base : list Z) (os : list NgOp) (w : PcapNgWriter W) : Prop :=
  nw_endian w = e ∧ ng_limits w = l ∧ ng_interfaces w = foldl op_interfaces [] os ∧
  ∃ recs, written (ng_output w) = base ++ section_record ++ concat recs ∧ Forall bytes_ok recs ∧
    length recs = length os ∧
    (zlen os < max_records l → ∃ rs,
       reads_all (ng_state [] 0 1) 28 recs
         (ng_state (foldl op_interfaces [] os) (foldl op_packets 0 os) (1 + zlen os)) rs ∧ ops_back [] 0 os rs).

Lemma ng_step_inv base os w o w' :
  2 ≤ max_options l → op_typed o → ng_inv base os w → ng_step w o = Ok w' → ng_inv base (os ++ [o]) w'.
Proof using Hl.
  intros Hopt Hty (H1 & H2 & H3 & recs & Hw & Hrb & Hlen & Hrs) Hstep.
  destruct (ng_step_effect w o w' Hty H1 H2 Hstep) as (Hacc & He & Hli & Hif & rec & Hrec & Hbr & Hout).
  rewrite H3 in Hacc, Hif. split_and!; [done|done|by rewrite foldl_snoc|].
  exists (recs ++ [rec]). split_and!.
  - rewrite Hout, Hw, concat_app. simpl. by rewrite app_nil_r, <- !app_assoc.
  - by apply Forall_app, conj, Forall_singleton.
  - by rewrite !length_app, Hlen.
  - rewrite zlen_app, zlen_cons, zlen_nil, Z.add_0_r. intros Hmax. pose proof (zlen_nonneg os).
    destruct Hrs as (rs & Hr & Hback); [lia|]. pose proof (op_packets_bounds os 0).
    destruct (op_reads (foldl op_interfaces [] os) (foldl op_packets 0 os) (1 + zlen os) (28 + zlen (concat recs)) o rec)
      as (cr & Hcr & Hcb); try done; try lia; [pose proof (zlen_nonneg (concat recs)); lia|].
    exists (rs ++ [cr]). rewrite !foldl_snoc, Z.add_assoc. split; [|by apply ops_back_snoc].
    by eapply reads_all_snoc.
Qed.

Lemma ng_file_inv out os out' :
  2 ≤ max_options l → Forall op_typed os → ng_file out os = Ok out' →
  ∃ w, ng_inv (written out) os w ∧ written out' = written (ng_output w).
Proof using Hl.
  intros Hopt Hos Hfile. unfold ng_file in Hfile. apply bind_ok in Hfile as (w0 & Hnew & Hfile).
  apply bind_ok in Hfile as (w & Hfold & Hfin).
  assert (ng_inv (written out) [] w0) as Hw0.
  { unfold pcapng_new in Hnew. rewrite limits_ok_validate, bind_Ok, section_body_fields in Hnew by done.
    apply bind_ok in Hnew as ([w1 [err|]] & Hb & Hnew); [done|]. injection Hnew as <-.
    apply block_ok in Hb as (_ & _ & He1 & Hl1 & Hi1 & _ & _ & Hw); [|done].
    split_and!; try done. exists []. cbn [ng_output] in Hw. split_and!; try done.
    - rewrite Hw, app_nil_r. unfold section_record. do 3 f_equal.
      unfold section_fields. cbn [concat]. by rewrite !zlen_app, !zlen_put.
    - intros _. by exists []. }
  exists w. split.
  - apply (foldM_ok_inv (ng_inv (written out)) ng_step os [] w0); [done|done|].
    intros pre o post w1 w2 Heq H1 H2. rewrite app_nil_l in Heq. eapply ng_step_inv; [done| |done|done].
    rewrite Heq, Forall_app, Forall_cons in Hos. apply Hos.
  - unfold ng_finish in Hfin. destruct (ng_failed w); [done|]. pose proof (flush_ok (ng_output w)) as Hfl.
    destruct (flush (ng_output w)) as [out1 [err|]]; [done|]. by injection Hfin as <-.
Qed.

Lemma ng_file_reads out os out' it :
  2 ≤ max_options l → Forall op_typed os → ng_file out os = Ok out' → written out = [] → zlen os < max_records l →
  zlen (written out') ≤ i64_max → capture_iter_new (written out') l m = Ok it →
  ∃ h rs, collect (S (S (length (written out')))) it = Ok (h :: rs, None) ∧
          kind h = KSection 0 None ∧ r_endian h = e ∧ ops_back [] 0 os rs.
Proof using Hl.
  intros Hopt Hos Hfile Hempty Hn Hlen Hit.
  destruct (ng_file_inv out os out' Hopt Hos Hfile) as (w & (_ & _ & _ & recs & Hw & Hrb & Hlr & Hrs) & Hout).
  rewrite Hempty, app_nil_l in Hw. rewrite Hw in Hout. destruct (Hrs Hn) as (rs & Hread & Hback).
  set (h := {| r_offset := 0; r_endian := e; raw := section_record; kind := KSection 0 None; options := []; warnings := [] |}).
  assert (reads_all (before_header l m) 0 (section_record :: recs)
    (ng_state (foldl op_interfaces [] os) (foldl op_packets 0 os) (1 + zlen os)) (h :: rs)) as Hall.
  { exists (ng_state [] 0 1). split; [apply section_reads|]. replace (zlen section_record) with 28; [done|].
    unfold section_record. rewrite zlen_block_fields. unfold section_fields. cbn [concat]. by rewrite !zlen_app, !zlen_put. }
  exists h, rs. split_and!; [|done|done|done].
  unfold capture_iter_new in Hit. destruct (_ <? _); [done|]. unfold decoder_new in Hit.
  rewrite limits_ok_validate, !bind_Ok in Hit by done. injection Hit as <-. rewrite Hout.
  apply (collect_reads (section_record :: recs) [] (before_header l m)
    (ng_state (foldl op_interfaces [] os) (foldl op_packets 0 os) (1 + zlen os))); [done| |done|by rewrite Hout in Hlen|].
  - constructor; [|done]. unfold section_record. apply concat_bytes. unfold block_fields, section_fields. cbn [app].
    repeat (apply Forall_cons; split; [apply put_bytes|]). constructor.
  - pose proof (reads_all_length _ _ _ _ _ Hall). cbn [concat]. simpl in *. lia.
Qed.
End ng.

(** C25: the PCAPNG writer round-trips through the decoder.  Over any sink that
    honours [Write] and for limits that allow the two options of an interface, when
    the writer accepts the calls [os] and finishes and the file fits the limits, then
    iterating over the file returns a section header and one record per call, in
    order, without warnings: every interface with the identifier, link type, snap
    length, resolution and clock offset it was declared with, every packet with its
    bytes, original length, interface and exactly the timestamp it was given. *)
Theorem pcapng_roundtrip {W : Type} `{Sink W} (e : Endian) (l : Limits) (m : ParseMode) (out out' : W) (os : list NgOp) :
  limits_ok l → 2 ≤ max_options l → Forall op_typed os → written out = [] → ng_file e l out os = Ok out' →
  zlen os < max_records l → zlen (written out') ≤ Z.min (max_input_bytes l) i64_max →
  ∃ it h rs, capture_iter_new (written out') l m = Ok it ∧
    collect (S (S (length (written out')))) it = Ok (h :: rs, None) ∧
    kind h = KSection 0 None ∧ r_endian h = e ∧ ops_back [] 0 os rs.
Proof.
  intros Hl Hopt Hos Hout Hfile Hn Hlen. destruct (capture_iter_new_fits (written out') l m) as [it Hit]; [done|lia|].
  destruct (ng_file_reads e l m Hl out os out' it) as (h & rs & Hc & Hh & He & Hb); try done; [lia|].
  by exists it, h, rs.
Qed.

Definition sample_ops : list NgOp :=
  [OpInterface 1 65535 (Decimal 9) (-5);
   OpPacket 0 {| ticks := 1700000000000000001; resolution := Decimal 9; offset_seconds := -5 |} 5 [1; 2; 3];
   OpInterface 113 0 (Binary 10) 0;
   OpPacket 1 {| ticks := 77; resolution := Binary 10; offset_seconds := 0 |} 4 [9; 8; 7; 6]].

Lemma pcapng_roundtrip_witness :
  ∃ out', ng_file Little limits_default ([] : list Z) sample_ops = Ok out' ∧
    ∃ it h rs, capture_iter_new out' limits_default Strict = Ok it ∧
      collect (S (S (length out'))) it = Ok (h :: rs, None) ∧
      kind h = KSection 0 None ∧ r_endian h = Little ∧ ops_back [] 0 sample_ops rs.
Proof.
  destruct (ng_file Little limits_default ([] : list Z) sample_ops) as [out'| | |] eqn:Hf; [|by vm_compute in Hf..].
  exists out'. split; [done|].
  refine (pcapng_roundtrip Little limits_default Strict [] out' sample_ops limits_default_ok _ _ eq_refl Hf _ _);
    [by simpl| |by vm_compute|by vm_compute in Hf; injection Hf as <-; vm_compute].
  repeat constructor; simpl; lia.
Defined.
