(* ===== verification/Sha256.v ===== *)
(** * SHA-256 ([src/src/sha256.rs])

    The incremental hasher that identifies sources and sidecars: the compression
    function, buffering of partial blocks, padding, and hexadecimal output.  The
    facts show that feeding a message in any pieces gives the digest the standard
    defines on the whole padded message, without an out-of-range access. *)

From S2P Require Import Prelude Errors.

(** ** Words *)

(** [u32::rotate_right], [u32::wrapping_add] and [!x]. *)
Definition rotate_right (x n : Z) : Z :=
  Z.lor (Z.shiftr x n) (Z.land (Z.shiftl x (32 - n)) u32_max).
Definition add32 (a b : Z) : Z := wrapping_add 32 a b.
Definition not32 (x : Z) : Z := Z.lxor x u32_max.

(** The table of round constants; a row of the source is written as one 256-bit
    number, whose words are the elements of the row. *)
Definition row_words (row : Z) : list Z :=
  map (λ i, Z.land (Z.shiftr row (32 * (7 - i))) u32_max) (seqZ 0 8).

Definition K : list Z := Eval vm_compute in concat (map row_words [
    0x428a2f9871374491b5c0fbcfe9b5dba53956c25b59f111f1923f82a4ab1c5ed5;
    0xd807aa9812835b01243185be550c7dc372be5d7480deb1fe9bdc06a7c19bf174;
    0xe49b69c1efbe47860fc19dc6240ca1cc2de92c6f4a7484aa5cb0a9dc76f988da;
    0x983e5152a831c66db00327c8bf597fc7c6e00bf3d5a7914706ca635114292967;
    0x27b70a852e1b21384d2c6dfc53380d13650a7354766a0abb81c2c92e92722c85;
    0xa2bfe8a1a81a664bc24b8b70c76c51a3d192e819d6990624f40e3585106aa070;
    0x19a4c1161e376c082748774c34b0bcb5391c0cb34ed8aa4a5b9cca4f682e6ff3;
    0x748f82ee78a5636f84c878148cc7020890befffaa4506cebbef9a3f7c67178f2]).

Record Sha256 : Type := {
  h_state : list Z;
  h_buffer : list Z;
  h_used : Z;
  h_bytes : Z;
}.

Definition initial_state : list Z :=
  [0x6a09e667; 0xbb67ae85; 0x3c6ef372; 0xa54ff53a; 0x510e527f; 0x9b05688c; 0x1f83d9ab; 0x5be0cd19].

(** [Sha256::new]. *)
Definition sha256_new : Sha256 :=
  {| h_state := initial_state; h_buffer := replicate 64 0; h_used := 0; h_bytes := 0 |}.

(** ** [compress] *)

(** The sixteen words of a block, then the rounds [16..64] of the schedule.  The
    arrays have fixed sizes and every index is a loop counter inside them. *)
Definition schedule_word (block w : list Z) (i : Z) : list Z :=
  let p := i * 4 in
  <[Z.to_nat i := from_be_bytes [nthz block p; nthz block (p + 1);
                                 nthz block (p + 2); nthz block (p + 3)]]> w.

Definition schedule_step (w : list Z) (i : Z) : list Z :=
  let w15 := nthz w (i - 15) in
  let s0 := Z.lxor (Z.lxor (rotate_right w15 7) (rotate_right w15 18)) (Z.shiftr w15 3) in
  let w2 := nthz w (i - 2) in
  let s1 := Z.lxor (Z.lxor (rotate_right w2 17) (rotate_right w2 19)) (Z.shiftr w2 10) in
  <[Z.to_nat i := add32 (add32 (add32 (nthz w (i - 16)) s0) (nthz w (i - 7))) s1]> w.

Definition schedule (block : list Z) : list Z :=
  fold_left schedule_step (seqZ 16 48)
    (fold_left (schedule_word block) (seqZ 0 16) (replicate 64 0)).

Definition vars : Type := Z * Z * Z * Z * Z * Z * Z * Z.

(** One round of the second loop. *)
Definition round (w : list Z) (v : vars) (i : Z) : vars :=
  let '(a, b, c, d, e, f, g, h) := v in
  let s1 := Z.lxor (Z.lxor (rotate_right e 6) (rotate_right e 11)) (rotate_right e 25) in
  let ch := Z.lxor (Z.land e f) (Z.land (not32 e) g) in
  let t1 := add32 (add32 (add32 (add32 h s1) ch) (nthz K i)) (nthz w i) in
  let s0 := Z.lxor (Z.lxor (rotate_right a 2) (rotate_right a 13)) (rotate_right a 22) in
  let maj := Z.lxor (Z.lxor (Z.land a b) (Z.land a c)) (Z.land b c) in
  let t2 := add32 s0 maj in
  (add32 t1 t2, a, b, c, add32 d t1, e, f, g).

(** [Sha256::compress] as a function of the chaining state. *)
Definition compress (state block : list Z) : list Z :=
  let w := schedule block in
  let '(a, b, c, d, e, f, g, h) :=
    fold_left (round w) (seqZ 0 64)
      (nthz state 0, nthz state 1, nthz state 2, nthz state 3,
       nthz state 4, nthz state 5, nthz state 6, nthz state 7) in
  zip_with add32 state [a; b; c; d; e; f; g; h].

(** [self.compress(&block)]. *)
Definition sha256_compress (s : Sha256) (block : list Z) : Sha256 :=
  {| h_state := compress (h_state s) block; h_buffer := h_buffer s;
     h_used := h_used s; h_bytes := h_bytes s |}.

(** ** [update] *)

(** [dst[a..b].copy_from_slice(src)]: the lengths must agree. *)
Definition copy_into (dst : list Z) (a b : Z) (src : list Z) : result (list Z) :=
  _ ← slice dst a b;
  if zlen src =? b - a then Ok (sub dst 0 a ++ src ++ sub dst b (zlen dst)) else Panic.

(** The first branch of [update]: complete the buffered block. *)
Definition fill_buffer (s : Sha256) (data : list Z) : result (Sha256 * list Z) :=
  if negb (h_used s =? 0) then
    room ← sub_ovf 64 (h_used s);
    let n := Z.min room (zlen data) in
    stop ← add_ovf usize_max (h_used s) n;
    front ← slice data 0 n;
    buffer ← copy_into (h_buffer s) (h_used s) stop front;
    rest ← slice_from data n;
    let s := {| h_state := h_state s; h_buffer := buffer; h_used := stop;
                h_bytes := h_bytes s |} in
    if stop =? 64
    then
      let s := sha256_compress s buffer in
      Ok ({| h_state := h_state s; h_buffer := h_buffer s; h_used := 0;
             h_bytes := h_bytes s |}, rest)
    else Ok (s, rest)
  else Ok (s, data).

(** [while data.len() >= 64]. *)
Definition block_step (st : Sha256 * list Z) : result (step (Sha256 * list Z) (Sha256 * list Z)) :=
  let '(s, data) := st in
  if 64 <=? zlen data then
    block ← slice data 0 64;
    rest ← slice_from data 64;
    Ok (Continue (sha256_compress s block, rest))
  else Ok (Break (s, data)).

Definition update (s : Sha256) (data : list Z) : result Sha256 :=
  let s := {| h_state := h_state s; h_buffer := h_buffer s; h_used := h_used s;
              h_bytes := wrapping_add 64 (h_bytes s) (zlen data) |} in
  filled ← fill_buffer s data;
  tail ← loop (S (length data)) block_step filled;
  let '(s, data) := tail in
  if negb (zlen data =? 0)
  then
    buffer ← copy_into (h_buffer s) 0 (zlen data) data;
    Ok {| h_state := h_state s; h_buffer := buffer; h_used := zlen data; h_bytes := h_bytes s |}
  else Ok s.

(** ** [finalize] *)

(** [buffer[a..b].fill(0)]. *)
Definition fill_zero (dst : list Z) (a b : Z) : result (list Z) :=
  copy_into dst a b (replicate (Z.to_nat (b - a)) 0).

Definition state_bytes (state : list Z) : list Z := concat (map (to_be_bytes 4) state).

Definition finalize (s : Sha256) : result (list Z) :=
  let bits := (h_bytes s * 8) mod 2 ^ 64 in
  stop ← add_ovf usize_max (h_used s) 1;
  buffer ← copy_into (h_buffer s) (h_used s) stop [0x80];
  padded ← (if 56 <? stop
            then
              full ← fill_zero buffer stop 64;
              zeroed ← fill_zero full 0 64;
              Ok (compress (h_state s) full, zeroed)
            else
              zeroed ← fill_zero buffer stop 56;
              Ok (h_state s, zeroed));
  let '(state, buffer) := padded in
  block ← copy_into buffer 56 64 (to_be_bytes 8 bits);
  Ok (state_bytes (compress state block)).

(** [sha256::digest]. *)
Definition digest (data : list Z) : result (list Z) :=
  h ← update sha256_new data;
  finalize h.

(** [sha256::hex]. *)
Definition alphabet : list Z :=
  [48; 49; 50; 51; 52; 53; 54; 55; 56; 57; 97; 98; 99; 100; 101; 102].
Definition hex (data : list Z) : list Z :=
  concat (map (λ b, [nthz alphabet (Z.shiftr b 4); nthz alphabet (Z.land b 15)]) data).

(** The standard's vectors for the empty message and for the three bytes abc. *)
Example digest_empty :
  digest [] = Ok [0xe3; 0xb0; 0xc4; 0x42; 0x98; 0xfc; 0x1c; 0x14; 0x9a; 0xfb; 0xf4; 0xc8; 0x99;
    0x6f; 0xb9; 0x24; 0x27; 0xae; 0x41; 0xe4; 0x64; 0x9b; 0x93; 0x4c; 0xa4; 0x95; 0x99; 0x1b;
    0x78; 0x52; 0xb8; 0x55].
Proof. by vm_compute. Qed.

Example digest_abc :
  digest [97; 98; 99] = Ok [0xba; 0x78; 0x16; 0xbf; 0x8f; 0x01; 0xcf; 0xea; 0x41; 0x41; 0x40;
    0xde; 0x5d; 0xae; 0x22; 0x23; 0xb0; 0x03; 0x61; 0xa3; 0x96; 0x17; 0x7a; 0x9c; 0xb4; 0x10;
    0xff; 0x61; 0xf2; 0x00; 0x15; 0xad].
Proof. by vm_compute. Qed.

#[local] Opaque compress initial_state to_be_bytes.

(** ** The digest the standard defines *)

(** FIPS 180-4, section 5.1.1: a one bit, zeros up to 56 modulo 64, the length of
    the message in bits as a big-endian 64-bit number. *)
Definition sha_pad (m : list Z) : list Z :=
  m ++ [0x80] ++ replicate (Z.to_nat ((55 - zlen m) mod 64)) 0 ++
  to_be_bytes 8 ((8 * zlen m) mod 2 ^ 64).

(** The first [n] 64-byte blocks of a byte string. *)
Fixpoint chunks64 (n : nat) (l : list Z) : list (list Z) :=
  match n with
  | O => []
  | S n => sub l 0 64 :: chunks64 n (sub l 64 (zlen l))
  end.

Definition sha_reference (m : list Z) : list Z :=
  let p := sha_pad m in
  state_bytes (fold_left compress (chunks64 (Z.to_nat (zlen p / 64)) p) initial_state).

(** ** The hasher has absorbed a message *)

Definition block64 (b : list Z) : Prop := zlen b = 64.

(** [bs] are the blocks already compressed, [rest] the buffered bytes. *)
Record absorbed (s : Sha256) (m : list Z) (bs : list (list Z)) (rest : list Z) : Prop := {
  ab_message : m = concat bs ++ rest;
  ab_blocks : Forall block64 bs;
  ab_state : h_state s = fold_left compress bs initial_state;
  ab_rest : zlen rest < 64;
  ab_used : h_used s = zlen rest;
  ab_length : zlen (h_buffer s) = 64;
  ab_buffer : sub (h_buffer s) 0 (zlen rest) = rest;
}.

Lemma copy_into_ok dst a b src :
  0 ≤ a → a ≤ b → b ≤ zlen dst → zlen src = b - a →
  copy_into dst a b src = Ok (sub dst 0 a ++ src ++ sub dst b (zlen dst)).
Proof.
  intros ? ? ? Hs. unfold copy_into. rewrite slice_ok, bind_Ok by lia.
  by rewrite (proj2 (Z.eqb_eq _ _) Hs).
Qed.

Lemma zlen_replicate {A} (n : Z) (x : A) : 0 ≤ n → zlen (replicate (Z.to_nat n) x) = n.
Proof. intros. unfold zlen. rewrite length_replicate. lia. Qed.

Lemma zlen_concat64 bs : Forall block64 bs → zlen (concat bs) = 64 * zlen bs.
Proof.
  induction 1 as [|b bs Hb _ IH]; simpl; [done|].
  rewrite zlen_app, zlen_cons, IH, Hb. lia.
Qed.

Lemma chunks64_app b l n : zlen b = 64 → chunks64 (S n) (b ++ l) = b :: chunks64 n l.
Proof.
  intros Hb. cbn [chunks64]. rewrite <- Hb, sub_0_app. f_equal. f_equal.
  rewrite sub_app_r, zlen_app by lia.
  replace (zlen b - zlen b) with 0 by lia. replace (zlen b + zlen l - zlen b) with (zlen l) by lia.
  apply sub_full.
Qed.

Lemma chunks64_concat bs : Forall block64 bs → chunks64 (length bs) (concat bs) = bs.
Proof.
  induction 1 as [|b bs Hb _ IH]; [done|]. change (concat (b :: bs)) with (b ++ concat bs).
  change (length (b :: bs)) with (S (length bs)). by rewrite chunks64_app, IH.
Qed.

(** The reference digest of a message whose padding is cut into blocks. *)
Lemma sha_reference_blocks m bs :
  Forall block64 bs → sha_pad m = concat bs →
  sha_reference m = state_bytes (fold_left compress bs initial_state).
Proof.
  intros Hbs Hp. unfold sha_reference. rewrite Hp, zlen_concat64 by done.
  rewrite (Z.mul_comm 64), Z.div_mul by lia. unfold zlen. rewrite Nat2Z.id.
  by rewrite chunks64_concat.
Qed.

(** ** [update] *)

Lemma absorbed_new : absorbed sha256_new [] [] [].
Proof. by constructor. Qed.

Lemma fold_left_snoc {A B} (f : A → B → A) l b a : fold_left f (l ++ [b]) a = f (fold_left f l a) b.
Proof. by rewrite fold_left_app. Qed.

(** Compressing a block that completes the buffered bytes. *)
Lemma absorbed_block s m bs rest b :
  absorbed s m bs rest →
  absorbed {| h_state := compress (h_state s) (rest ++ b); h_buffer := h_buffer s;
              h_used := 0; h_bytes := h_bytes s |} (m ++ b) (bs ++ [rest ++ b]) [] ∨
  zlen (rest ++ b) ≠ 64.
Proof.
  intros [-> H2 H3 H4 H5 H6 H7]. destruct (decide (zlen (rest ++ b) = 64)) as [E|]; [left|by right].
  constructor; simpl; try done.
  - by rewrite concat_app, app_nil_r, <- app_assoc; simpl; rewrite app_nil_r.
  - apply Forall_app. by split; [|constructor].
  - by rewrite fold_left_snoc, H3.
Qed.

Lemma block_step_eq s data :
  block_step (s, data) =
    if 64 <=? zlen data then
      block ← slice data 0 64;
      rest ← slice_from data 64;
      Ok (Continue (sha256_compress s block, rest))
    else Ok (Break (s, data)).
Proof. done. Qed.

Lemma block_loop s m bs data fuel :
  absorbed s m bs [] → (length data < fuel)%nat →
  ∃ s' front bs' rest, loop fuel block_step (s, data) = Ok (s', rest) ∧
    data = front ++ rest ∧ zlen rest < 64 ∧ absorbed s' (m ++ front) bs' [] ∧
    h_bytes s' = h_bytes s.
Proof.
  revert s m bs data. induction fuel as [|fuel IH]; intros s m bs data Hab Hf; [lia|].
  rewrite loop_S, block_step_eq. destruct (Z.leb_spec 64 (zlen data)) as [Hge|Hlt].
  - rewrite slice_ok, bind_Ok by lia. unfold slice_from. rewrite slice_ok, bind_Ok by lia.
    rewrite bind_Ok. destruct (absorbed_block _ _ _ _ (sub data 0 64) Hab) as [Hb|Hn].
    2: { exfalso. apply Hn. simpl. rewrite zlen_sub by lia. lia. }
    simpl in Hb. destruct Hab as [H1 H2 H3 H4 H5 H6 H7].
    assert (absorbed (sha256_compress s (sub data 0 64)) (m ++ sub data 0 64)
              (bs ++ [sub data 0 64]) []) as Hab'.
    { destruct Hb as [B1 B2 B3 B4 B5 B6 B7]. by constructor. }
    destruct (IH _ _ _ (sub data 64 (zlen data)) Hab') as (s' & front & bs' & rest & E & Hd & Hr & Ha & Hby).
    { pose proof (zlen_sub data 64 (zlen data) ltac:(lia) Hge ltac:(lia)) as Hl. unfold zlen in *. lia. }
    exists s', (sub data 0 64 ++ front), bs', rest. split_and!; try done.
    + rewrite <- app_assoc, <- Hd, <- sub_split by lia. by rewrite sub_full.
    + by rewrite app_assoc.
  - rewrite bind_Ok. exists s, [], bs, data. split_and!; try done. by rewrite app_nil_r.
Qed.

(** Storing [x] behind the buffered bytes. *)
Lemma absorbed_store s m bs rest x by_ :
  absorbed s m bs rest → zlen rest + zlen x < 64 →
  absorbed {| h_state := h_state s;
              h_buffer := sub (h_buffer s) 0 (zlen rest) ++ x ++
                          sub (h_buffer s) (zlen rest + zlen x) (zlen (h_buffer s));
              h_used := zlen rest + zlen x; h_bytes := by_ |} (m ++ x) bs (rest ++ x).
Proof.
  intros [-> H2 H3 H4 H5 H6 H7] Hlt. pose proof (zlen_nonneg rest). pose proof (zlen_nonneg x).
  constructor; simpl; rewrite ?H7; try done.
  - by rewrite app_assoc.
  - by rewrite zlen_app.
  - by rewrite zlen_app.
  - rewrite !zlen_app, zlen_sub by lia. lia.
  - rewrite app_assoc. apply sub_0_app.
Qed.

Lemma absorbed_bytes s m bs rest n :
  absorbed s m bs rest →
  absorbed {| h_state := h_state s; h_buffer := h_buffer s; h_used := h_used s; h_bytes := n |}
           m bs rest.
Proof. intros []. by constructor. Qed.

Lemma fill_buffer_spec s m bs rest data :
  absorbed s m bs rest →
  ∃ s' front data', fill_buffer s data = Ok (s', data') ∧ data = front ++ data' ∧
    h_bytes s' = h_bytes s ∧
    ∃ bs' rest', absorbed s' (m ++ front) bs' rest' ∧ (rest' = [] ∨ data' = []).
Proof.
  intros Hab. pose proof Hab as [H1 H2 H3 H4 H5 H6 H7]. unfold fill_buffer.
  pose proof (zlen_nonneg data). pose proof (zlen_nonneg rest). rewrite H5.
  destruct (Z.eqb_spec (zlen rest) 0) as [Hz|Hz]; simpl.
  { apply zlen_0_nil in Hz as ->. exists s, [], data. split_and!; try done.
    exists bs, []. rewrite app_nil_r. split; [done|by left]. }
  rewrite sub_ovf_ok, bind_Ok by lia. rewrite add_ovf_ok, bind_Ok by lia.
  rewrite (slice_ok data 0), bind_Ok by lia.
  assert (zlen (sub data 0 (Z.min (64 - zlen rest) (zlen data)))
          = Z.min (64 - zlen rest) (zlen data)) as Hfl by (rewrite zlen_sub; lia).
  rewrite copy_into_ok, bind_Ok by lia. unfold slice_from. rewrite slice_ok, bind_Ok by lia.
  set (n := Z.min (64 - zlen rest) (zlen data)) in *.
  exists (if zlen rest + n =? 64 then
    {| h_state := compress (h_state s) (rest ++ sub data 0 n);
       h_buffer := sub (h_buffer s) 0 (zlen rest) ++ sub data 0 n ++
                   sub (h_buffer s) (zlen rest + n) (zlen (h_buffer s));
       h_used := 0; h_bytes := h_bytes s |}
    else
    {| h_state := h_state s;
       h_buffer := sub (h_buffer s) 0 (zlen rest) ++ sub data 0 n ++
                   sub (h_buffer s) (zlen rest + n) (zlen (h_buffer s));
       h_used := zlen rest + n; h_bytes := h_bytes s |}), (sub data 0 n), (sub data n (zlen data)).
  assert (data = sub data 0 n ++ sub data n (zlen data)) as Hsplit
    by (rewrite <- sub_split by lia; by rewrite sub_full).
  destruct (Z.eqb_spec (zlen rest + n) 64) as [Hfull|Hpart].
  - split_and!; try done.
    + unfold sha256_compress; simpl. do 3 f_equal.
      rewrite H7. rewrite Hfull. rewrite H6, sub_empty, app_nil_r. done.
    + destruct (absorbed_block _ _ _ _ (sub data 0 n) Hab) as [Hb|Hn].
      2: { exfalso. apply Hn. rewrite zlen_app, Hfl. lia. }
      exists (bs ++ [rest ++ sub data 0 n]), []. split; [|by left].
      destruct Hb as [B1 B2 B3 B4 B5 B6 B7].
      constructor; simpl; [exact B1|exact B2|exact B3|done|done| |done].
      rewrite !zlen_app, !zlen_sub by lia. lia.
  - split_and!; try done. exists bs, (rest ++ sub data 0 n). split; [|right].
    + rewrite <- Hfl at 2 3. apply absorbed_store; [done|lia].
    + assert (n = zlen data) as -> by lia. apply sub_empty.
Qed.

Lemma update_spec s m bs rest data :
  absorbed s m bs rest →
  ∃ s' bs' rest', update s data = Ok s' ∧ absorbed s' (m ++ data) bs' rest' ∧
    h_bytes s' = wrapping_add 64 (h_bytes s) (zlen data).
Proof.
  intros Hab. unfold update.
  destruct (fill_buffer_spec _ _ _ _ data (absorbed_bytes _ _ _ _
              (wrapping_add 64 (h_bytes s) (zlen data)) Hab))
    as (s1 & front & data' & -> & Hdata & Hby & bs1 & rest1 & Hab1 & Hor).
  rewrite bind_Ok. simpl in Hby.
  destruct Hor as [-> | ->].
  - destruct (block_loop s1 _ bs1 data' (S (length data)) Hab1)
      as (s2 & front2 & bs2 & rest2 & -> & Hd2 & Hr2 & Hab2 & Hby2).
    { rewrite Hdata, length_app. lia. }
    rewrite bind_Ok. assert (m ++ data = (m ++ front) ++ front2 ++ rest2) as ->
      by (by rewrite Hdata, Hd2, app_assoc).
    destruct (Z.eqb_spec (zlen rest2) 0) as [Hz|Hz]; simpl.
    + apply zlen_0_nil in Hz as ->. rewrite app_nil_r. exists s2, bs2, [].
      split_and!; [done..|congruence].
    + pose proof (zlen_nonneg rest2). pose proof (ab_length _ _ _ _ Hab2) as Hl.
      rewrite copy_into_ok, bind_Ok by lia.
      eexists _, bs2, rest2. split_and!; [done| |simpl; congruence].
      rewrite (app_assoc _ front2 rest2).
      apply (absorbed_store s2 _ bs2 [] rest2 (h_bytes s2) Hab2). rewrite zlen_nil. lia.
  - rewrite loop_S, block_step_eq. simpl. rewrite app_nil_r in Hdata. subst front.
    exists s1, bs1, rest1. split_and!; [done..|congruence].
Qed.

(** ** [finalize] *)

Lemma copy_into_app x y z a b src :
  a = zlen x → b = zlen x + zlen y → zlen src = zlen y →
  copy_into (x ++ y ++ z) a b src = Ok (x ++ src ++ z).
Proof.
  intros -> -> Hs. pose proof (zlen_nonneg x). pose proof (zlen_nonneg y).
  pose proof (zlen_nonneg z). rewrite copy_into_ok by (rewrite ?zlen_app; lia). do 2 f_equal; [apply sub_0_app|].
  f_equal. rewrite app_assoc, <- zlen_app, sub_app_r by lia. rewrite Z.sub_diag.
  replace (zlen ((x ++ y) ++ z) - zlen (x ++ y)) with (zlen z) by (rewrite (zlen_app (x ++ y)); lia).
  apply sub_full.
Qed.

Lemma fill_zero_app x y z a b :
  a = zlen x → b = zlen x + zlen y →
  fill_zero (x ++ y ++ z) a b = Ok (x ++ replicate (Z.to_nat (zlen y)) 0 ++ z).
Proof.
  intros -> ->. unfold fill_zero. replace (zlen x + zlen y - zlen x) with (zlen y) by lia.
  apply copy_into_app; try done. by rewrite zlen_replicate.
Qed.

Lemma cut_at (l : list Z) (n : Z) :
  0 ≤ n ≤ zlen l → ∃ a b, l = a ++ b ∧ zlen a = n ∧ zlen b = zlen l - n.
Proof.
  intros. exists (sub l 0 n), (sub l n (zlen l)). rewrite <- sub_split by lia.
  rewrite !zlen_sub, sub_full by lia. split_and!; lia || done.
Qed.

(** The last one or two blocks of the padded message. *)
Lemma sha_pad_tail m bs rest :
  m = concat bs ++ rest → Forall block64 bs → zlen rest < 64 →
  sha_pad m = concat bs ++ (rest ++ [0x80]) ++
    replicate (Z.to_nat (if 55 <? zlen rest then 119 - zlen rest else 55 - zlen rest)) 0 ++
    to_be_bytes 8 ((8 * zlen m) mod 2 ^ 64).
Proof.
  intros Hm Hbs Hr. unfold sha_pad. pose proof (zlen_nonneg rest).
  assert (zlen m = 64 * zlen bs + zlen rest) as Hlen by (rewrite Hm, zlen_app, zlen_concat64 by done; lia).
  replace ((55 - zlen m) mod 64)
    with (if 55 <? zlen rest then 119 - zlen rest else 55 - zlen rest).
  { rewrite Hm at 1. by rewrite <- !app_assoc. }
  rewrite Hlen. destruct (Z.ltb_spec 55 (zlen rest)).
  - apply (Z.mod_unique _ _ (- zlen bs - 1)); lia.
  - apply (Z.mod_unique _ _ (- zlen bs)); lia.
Qed.

Lemma sha_reference_one m bs b1 :
  Forall block64 bs → zlen b1 = 64 → sha_pad m = concat bs ++ b1 →
  sha_reference m = state_bytes (compress (fold_left compress bs initial_state) b1).
Proof.
  intros Hbs Hb Hp. rewrite (sha_reference_blocks m (bs ++ [b1])).
  - by rewrite fold_left_snoc.
  - apply Forall_app. by split; [|constructor].
  - rewrite concat_app. simpl. by rewrite app_nil_r.
Qed.

Lemma sha_reference_two m bs b1 b2 :
  Forall block64 bs → zlen b1 = 64 → zlen b2 = 64 → sha_pad m = concat bs ++ b1 ++ b2 →
  sha_reference m =
    state_bytes (compress (compress (fold_left compress bs initial_state) b1) b2).
Proof.
  intros Hbs Hb1 Hb2 Hp. rewrite (sha_reference_one m (bs ++ [b1]) b2); [| |done|].
  - by rewrite fold_left_snoc.
  - apply Forall_app. by split; [|constructor].
  - rewrite concat_app. simpl. by rewrite app_nil_r, <- app_assoc.
Qed.

Lemma finalize_spec s m bs rest :
  absorbed s m bs rest → h_bytes s = zlen m mod 2 ^ 64 → finalize s = Ok (sha_reference m).
Proof.
  intros [Hm H2 H3 H4 H5 H6 H7] Hby. unfold finalize. pose proof (zlen_nonneg rest).
  pose proof (sha_pad_tail m bs rest Hm H2 H4) as Hpad.
  replace ((h_bytes s * 8) mod 2 ^ 64) with ((8 * zlen m) mod 2 ^ 64)
    by (rewrite Hby, Z.mul_mod_idemp_l by lia; f_equal; lia).
  set (bits := to_be_bytes 8 ((8 * zlen m) mod 2 ^ 64)) in *.
  assert (zlen bits = 8) as Hbl by (unfold bits, zlen; by rewrite length_to_be_bytes).
  destruct (cut_at (h_buffer s) (zlen rest)) as (r' & y & Hbuf & Hr' & Hy); [lia|].
  rewrite Hbuf in H7. rewrite <- Hr', sub_0_app in H7. subst r'.
  destruct (cut_at y 1) as (y1 & y2 & -> & Hy1 & Hy2); [lia|].
  rewrite Hbuf, H5, add_ovf_ok, bind_Ok, (copy_into_app rest y1 y2), bind_Ok by (done || lia).
  rewrite (app_assoc rest). set (x := rest ++ [0x80]) in *.
  assert (zlen x = zlen rest + 1) as Hx by (unfold x; by rewrite zlen_app).
  rewrite zlen_app in Hy. destruct (Z.ltb_spec 56 (zlen rest + 1)) as [Hbig|Hsmall].
  - rewrite (proj2 (Z.ltb_lt _ _)) in Hpad by lia.
    rewrite <- (app_nil_r y2) at 1. rewrite (fill_zero_app x y2 []), bind_Ok by lia.
    set (full := x ++ replicate (Z.to_nat (zlen y2)) 0 ++ []).
    assert (zlen full = 64) as Hf
      by (unfold full; rewrite app_nil_r, zlen_app, zlen_replicate by lia; lia).
    assert (fill_zero full 0 64 = Ok (replicate (56 + 8) 0)) as ->.
    { pose proof (fill_zero_app [] full [] 0 64 eq_refl) as Hz. rewrite Hf, app_nil_r in Hz.
      by apply Hz. }
    rewrite !bind_Ok.
    rewrite replicate_add. rewrite <- (app_nil_r (replicate 8 0)).
    rewrite (copy_into_app (replicate 56 0) (replicate 8 0) [] 56 64 bits), bind_Ok by done.
    rewrite app_nil_r, H3. symmetry. f_equal.
    apply sha_reference_two; [done..| |].
    { rewrite zlen_app, Hbl. done. }
    rewrite Hpad. f_equal. unfold full. rewrite app_nil_r, <- app_assoc. f_equal.
    rewrite app_assoc, <- replicate_add. do 2 f_equal. lia.
  - rewrite (proj2 (Z.ltb_ge _ _)) in Hpad by lia.
    destruct (cut_at y2 (55 - zlen rest)) as (u & v & -> & Hu & Hv); [lia|].
    rewrite zlen_app in Hv, Hy.
    rewrite (fill_zero_app x u v), !bind_Ok by lia.
    rewrite app_assoc, <- (app_nil_r v).
    rewrite (copy_into_app _ v [] 56 64 bits), bind_Ok
      by (rewrite ?zlen_app, ?zlen_replicate; lia).
    rewrite app_nil_r, H3, Hu. symmetry. f_equal.
    apply sha_reference_one; [done| |].
    { rewrite !zlen_app, zlen_replicate by lia. lia. }
    rewrite Hpad. by rewrite <- !app_assoc.
Qed.

(** ** The digest *)

Lemma updates_spec pieces s m bs rest :
  absorbed s m bs rest → h_bytes s = zlen m mod 2 ^ 64 →
  ∃ s' bs' rest', foldM update s pieces = Ok s' ∧ absorbed s' (m ++ concat pieces) bs' rest' ∧
    h_bytes s' = zlen (m ++ concat pieces) mod 2 ^ 64.
Proof.
  revert s m bs rest. induction pieces as [|p pieces IH]; intros s m bs rest Hab Hby.
  - exists s, bs, rest. by rewrite app_nil_r.
  - cbn [foldM concat].
    destruct (update_spec s m bs rest p Hab) as (s1 & bs1 & rest1 & -> & Hab1 & Hby1).
    rewrite bind_Ok. rewrite app_assoc. apply (IH s1 _ bs1 rest1 Hab1).
    rewrite Hby1, Hby, zlen_app. unfold wrapping_add. by rewrite Z.add_mod_idemp_l by lia.
Qed.

Lemma incremental_spec pieces :
  (s ← foldM update sha256_new pieces; finalize s) = Ok (sha_reference (concat pieces)).
Proof.
  destruct (updates_spec pieces _ _ _ _ absorbed_new eq_refl) as (s & bs & rest & -> & Hab & Hby).
  rewrite bind_Ok. by apply (finalize_spec s _ bs rest).
Qed.

Lemma digest_ok data : digest data = Ok (sha_reference data).
Proof.
  pose proof (incremental_spec [data]) as H. simpl in H. rewrite app_nil_r in H.
  unfold digest. by destruct (update sha256_new data).
Qed.

#[local] Transparent compress initial_state.

Lemma initial_length : length initial_state = 8%nat.
Proof. done. Qed.

Lemma length_compress state block : length state = 8%nat → length (compress state block) = 8%nat.
Proof.
  intros H. unfold compress.
  destruct (fold_left (round (schedule block)) _ _) as [[[[[[[a b] c] d] e] f] g] h].
  by rewrite length_zip_with, H.
Qed.

Lemma zlen_state_bytes st : zlen (state_bytes st) = 4 * zlen st.
Proof.
  unfold state_bytes. induction st as [|w st IH]; [done|].
  change (concat (map (to_be_bytes 4) (w :: st)))
    with (to_be_bytes 4 w ++ concat (map (to_be_bytes 4) st)).
  rewrite zlen_app, zlen_cons, IH. unfold zlen at 1. rewrite length_to_be_bytes. lia.
Qed.

Lemma state_bytes_ok st : bytes_ok (state_bytes st).
Proof.
  unfold state_bytes. induction st as [|w st IH]; [constructor|].
  apply bytes_ok_app. split; [apply to_be_bytes_ok|done].
Qed.

#[local] Opaque compress initial_state.

Lemma fold_left_length {B} (f : list Z → B → list Z) (bs : list B) n :
  (∀ st b, length st = n → length (f st b) = n) →
  ∀ st, length st = n → length (fold_left f bs st) = n.
Proof. intros Hf. induction bs as [|b bs IH]; intros st Hst; [done|]. by apply IH, Hf. Qed.

Lemma sha_reference_length m : zlen (sha_reference m) = 32.
Proof.
  unfold sha_reference. rewrite zlen_state_bytes. unfold zlen at 1.
  rewrite (fold_left_length compress _ 8 length_compress _ initial_length). lia.
Qed.

Lemma sha_reference_bytes m : bytes_ok (sha_reference m).
Proof. apply state_bytes_ok. Qed.

(** C33: hashing is incremental and total.  However a message is cut into the
    pieces passed to [update] (pieces shorter than a block, spanning blocks or
    empty), [update] and [finalize] stay inside their buffers and the result is
    the 32-byte digest that FIPS 180-4 defines on the whole padded message, the
    bit length reduced modulo 2^64. *)
Theorem sha256_incremental (pieces : list (list Z)) :
  (s ← foldM update sha256_new pieces; finalize s) = Ok (sha_reference (concat pieces)) ∧
  zlen (sha_reference (concat pieces)) = 32 ∧ bytes_ok (sha_reference (concat pieces)).
Proof.
  split; [apply incremental_spec|]. split; [apply sha_reference_length|apply sha_reference_bytes].
Qed.
