(* ===== verification/Index.v ===== *)
(** * Capture index ([src/src/index.rs])

    The sidecar of a capture: the packet entries of one strict pass over the
    source, their fixed-width encoding with digests of the source and of the
    sidecar itself, and the queries a verified index answers. *)

From S2P Require Import Prelude Errors Ord Time Capture Sha256.

Definition MAGIC : list Z := [80; 67; 73; 68; 88; 48; 48; 49].
Definition HEADER : Z := 56.
Definition ENTRY : Z := 64.

Record IndexEntry : Type := {
  record_offset : Z;
  record_length : Z;
  packet_meta : PacketMeta;
}.

Record Index : Type := {
  source_len : Z;
  source_sha256 : list Z;
  entries : list IndexEntry;
}.

Definition invalid (detail : string) : Error := error_new InvalidIndex 0 "index" detail.

(** [u32::try_from]. *)
Definition u32_from (n : Z) (e : Error) : result Z :=
  if n <=? u32_max then Ok n else Err e.

(** ** [Index::build] *)

(** One record of the [for] loop; [record?] returns the first error. *)
Definition build_step (st : CaptureIter * list IndexEntry)
  : result (step (CaptureIter * list IndexEntry) (list IndexEntry)) :=
  let '(it, es) := st in
  n ← next it;
  match n with
  | (_, None) => Ok (Break es)
  | (_, Some (inr e)) => Err e
  | (it, Some (inl record)) =>
      p ← record_packet record;
      match p with
      | Some (packet, _) =>
          len ← u32_from (zlen (raw record)) (limit "index_record_length");
          Ok (Continue (it, es ++ [{| record_offset := r_offset record; record_length := len;
                                      packet_meta := packet |}]))
      | None => Ok (Continue (it, es))
      end
  end.

Definition build (source : list Z) (l : Limits) : result Index :=
  it ← capture_iter_new source l Strict;
  es ← loop (S (S (length source))) build_step (it, []);
  h ← digest source;
  Ok {| source_len := zlen source; source_sha256 := h; entries := es |}.

(** ** [Index::encode] *)

Definition encode_entry (out : list Z) (entry : IndexEntry) : result (list Z) :=
  let p := packet_meta entry in
  let out := put_u64 Little (record_offset entry) out in
  let out := put_u32 Little (record_length entry) out in
  data_off ← u32_from (data_offset p) (limit "index_data_offset");
  let out := put_u32 Little data_off out in
  let out := put_u32 Little (captured_len p) out in
  let out := put_u32 Little (original_len p) out in
  let out := put_u64 Little (frame p) out in
  let out := put_u32 Little (section p) out in
  let out := put_u32 Little (interface p) out in
  let out := put_u32 Little (link_type p) out in
  match timestamp p with
  | Some time =>
      let out := out ++ [1] in
      res ← to_pcapng (resolution time);
      let out := out ++ [res] in
      let out := put_u16 Little 0 out in
      let out := put_u64 Little (ticks time) out in
      Ok (put_u64 Little (as_unsigned 64 (offset_seconds time)) out)
  | None => Ok (out ++ replicate 20 0)
  end.

Definition encode (ix : Index) : result (list Z) :=
  _ ← ok_or (x ← checked_mul usize_max (zlen (entries ix)) ENTRY;
             checked_add usize_max x (HEADER + 32)) (limit "index_bytes");
  let out := MAGIC in
  let out := put_u64 Little (source_len ix) out in
  let out := out ++ source_sha256 ix in
  let out := put_u64 Little (zlen (entries ix)) out in
  out ← foldM encode_entry out (entries ix);
  h ← digest out;
  Ok (out ++ h).

(** ** [VerifiedIndex] *)

Record VerifiedIndex : Type := {
  v_source : list Z;
  v_index : Index;
  sorted_times : list (Z * Z);
  unknown_times : list Z;
}.
Record TimeQuery : Type := { frames : list Z; unresolved_frames : list Z }.

(** [entry.packet.timestamp.and_then(|t| t.unix_nanos().ok())]; a conversion that
    aborts would abort the caller. *)
Definition entry_time (e : IndexEntry) : result (option Z) :=
  match timestamp (packet_meta e) with
  | Some t =>
      r ← catch (unix_nanos t);
      Ok (match r with inl n => Some n | inr _ => None end)
  | None => Ok None
  end.

Definition times_step (acc : list (Z * Z) * list Z) (e : IndexEntry)
  : result (list (Z * Z) * list Z) :=
  t ← entry_time e;
  match t with
  | Some time => Ok (acc.1 ++ [(time, frame (packet_meta e))], acc.2)
  | None => Ok (acc.1, acc.2 ++ [frame (packet_meta e)])
  end.

(** [VerifiedIndex::from_canonical]; the pairs are totally ordered, so the order
    [sort_unstable] gives is the sorted one. *)
Definition from_canonical (source : list Z) (ix : Index) : result VerifiedIndex :=
  ts ← foldM times_step ([], []) (entries ix);
  Ok {| v_source := source; v_index := ix; sorted_times := sort ts.1; unknown_times := ts.2 |}.

(** [VerifiedIndex::build]. *)
Definition verified_build (source : list Z) (l : Limits) : result VerifiedIndex :=
  ix ← build source l; from_canonical source ix.

(** [VerifiedIndex::load]. *)
Definition load (source sidecar : list Z) (l : Limits) : result VerifiedIndex :=
  validate l ;;
  if zlen sidecar <? HEADER + 32 then Err (invalid "truncated header") else
  magic ← slice sidecar 0 8;
  if negb (bytes_eqb magic MAGIC) then Err (invalid "unsupported index magic/version") else
  b ← slice sidecar 48 56; count ← u64 Little b;
  if max_records l <? count then Err (limit "index_entries") else
  expected_len ← ok_or (x ← checked_mul usize_max count ENTRY;
                        checked_add usize_max x (HEADER + 32)) (invalid "size overflow");
  if negb (expected_len =? zlen sidecar)
  then Err (invalid "size does not equal header + entries + digest") else
  if max_input_bytes l <? zlen source then Err (limit "input_bytes") else
  b ← slice sidecar 8 16; len ← u64 Little b;
  same ← (if negb (len =? zlen source) then Ok false
          else b ← slice sidecar 16 48; h ← digest source; Ok (bytes_eqb b h));
  if negb same
  then Err (error_new SourceMismatch 0 "index_source" "source bytes do not match the sidecar") else
  body_end ← sub_ovf (zlen sidecar) 32;
  b ← slice sidecar body_end (zlen sidecar);
  body ← slice sidecar 0 body_end; h ← digest body;
  if negb (bytes_eqb b h) then Err (invalid "index digest mismatch") else
  ix ← build source l;
  e ← encode ix;
  if negb (bytes_eqb e sidecar)
  then Err (invalid "reconstructed source metadata disagrees with the sidecar (even if rehashed)")
  else from_canonical source ix.

(** [VerifiedIndex::packet]. *)
Definition packet (v : VerifiedIndex) (frame : Z) : result (list Z) :=
  i ← ok_or (checked_sub frame 1) (invalid "frame must be positive");
  entry ← ok_or (get (entries (v_index v)) i) (invalid "frame outside capture");
  start ← ok_or (checked_add usize_max (record_offset entry) (data_offset (packet_meta entry)))
                (invalid "packet offset overflow");
  stop ← ok_or (checked_add usize_max start (captured_len (packet_meta entry)))
               (invalid "packet end overflow");
  ok_or (get_range (v_source v) start stop) (invalid "packet range outside verified source").

(** [slice::partition_point] on a slice partitioned by [p]. *)
Definition partition_point {A} (p : A → bool) (l : list A) : Z :=
  (fix go l := match l with [] => 0 | x :: l => if p x then 1 + go l else 0 end) l.

(** [VerifiedIndex::time_range]. *)
Definition time_range (v : VerifiedIndex) (start_ns end_ns : Z) : result TimeQuery :=
  if end_ns <? start_ns then Err (invalid "inverted time range") else
  let first := partition_point (λ '(time, _), time <? start_ns) (sorted_times v) in
  let stop := partition_point (λ '(time, _), time <=? end_ns) (sorted_times v) in
  window ← slice (sorted_times v) first stop;
  Ok {| frames := sort (map snd window); unresolved_frames := unknown_times v |}.
