(* ===== verification/IndexFacts.v ===== *)
(** * Correctness of the capture index

    An index built from a source lists exactly the packets of one strict pass; a
    sidecar is accepted exactly when it is the canonical encoding of that index;
    and the two queries answer from the source bytes and the exact times. *)

From stdpp Require Import sorting.
From S2P Require Import Prelude Errors Ord Time Capture CaptureFacts Sha256 Index.

(** ** What an index records of a capture *)

(** The entry of a record, if it is a packet, and the packet's bytes. *)
Definition entry_of (r : CapRecord) : option IndexEntry :=
  match kind r with
  | KPacket p => Some {| record_offset := r_offset r; record_length := zlen (raw r);
                         packet_meta := p |}
  | _ => None
  end.
Definition packet_data (r : CapRecord) : option (list Z) :=
  match record_packet r with Ok (Some (_, d)) => Some d | _ => None end.

(** The bytes of a capture an entry points at. *)
Definition entry_start (e : IndexEntry) : Z := record_offset e + data_offset (packet_meta e).
Definition entry_bytes (dat : list Z) (e : IndexEntry) : list Z :=
  sub dat (entry_start e) (entry_start e + captured_len (packet_meta e)).

Definition entry_ok (dat : list Z) (n : Z) (e : IndexEntry) : Prop :=
  frame (packet_meta e) = n ∧ 0 ≤ record_offset e ∧ 0 ≤ data_offset (packet_meta e) ∧
  0 ≤ captured_len (packet_meta e) ∧
  entry_start e + captured_len (packet_meta e) ≤ zlen dat ∧
  from_option ts_typed True (timestamp (packet_meta e)).

(** Entries are numbered consecutively from [n]. *)
Fixpoint entries_ok (dat : list Z) (n : Z) (es : list IndexEntry) : Prop :=
  match es with
  | [] => True
  | e :: es => entry_ok dat n e ∧ entries_ok dat (n + 1) es
  end.

Lemma entries_ok_lookup dat n es i e :
  entries_ok dat n es → es !! i = Some e → entry_ok dat (n + Z.of_nat i) e.
Proof.
  revert n i. induction es as [|x es IH]; intros n [|i]; simpl; try done.
  - intros [H _] [= <-]. by rewrite Z.add_0_r.
  - intros [_ H] Hi. specialize (IH _ _ H Hi).
    by replace (n + Z.of_nat (S i)) with (n + 1 + Z.of_nat i) by lia.
Qed.

(** A record is a packet, with its entry, or neither has an entry nor packet bytes. *)
Lemma record_cases r :
  (∃ p, kind r = KPacket p ∧
        entry_of r = Some {| record_offset := r_offset r; record_length := zlen (raw r);
                             packet_meta := p |}) ∨
  entry_of r = None ∧ record_packet r = Ok None ∧ packet_data r = None ∧
    (∀ n, frame_after n r = n).
Proof.
  unfold entry_of, packet_data, record_packet, frame_after.
  destruct (kind r); naive_solver.
Qed.

Lemma entries_of_records dat pos n rs :
  0 ≤ pos → zlen dat ≤ i64_max →
  tiles dat pos rs → numbered n rs → Forall packet_range rs →
  entries_ok dat n (omap entry_of rs) ∧
  omap packet_data rs = entry_bytes dat <$> omap entry_of rs.
Proof.
  intros Hpos Hl. revert pos n Hpos. induction rs as [|r rs IH]; intros pos n Hpos; [done|].
  intros (T1 & T2 & T3 & T4 & T5) [N1 N2] [P1 P2]%Forall_cons.
  destruct (IH (pos + zlen (raw r)) (frame_after n r) ltac:(lia) T5 N2 P2) as [I1 I2].
  simpl. destruct (record_cases r) as [(p & Hk & ->)|(-> & _ & -> & Hn)].
  2: { rewrite Hn in I1. by split. }
  rewrite <- T1 in T3, T4. unfold frame_after, frame_matches, packet_range in *.
  unfold packet_data at 1. rewrite (record_packet_bytes dat r p) by (done || lia).
  rewrite Hk in *. destruct P1 as (Q1 & Q2 & Q3 & Q4).
  split; [|simpl; f_equal; exact I2]. split; [|done]. unfold entry_ok, entry_start; simpl. split_and!; done || lia.
Qed.

(** ** [Index::build] *)

Lemma build_step_eq it es :
  build_step (it, es) =
    (n ← next it;
     match n with
     | (_, None) => Ok (Break es)
     | (_, Some (inr e)) => Err e
     | (it, Some (inl record)) =>
         p ← record_packet record;
         match p with
         | Some (packet, _) =>
             len ← u32_from (zlen (raw record)) (limit "index_record_length");
             Ok (Continue (it, es ++ [{| record_offset := r_offset record;
                                         record_length := len; packet_meta := packet |}]))
         | None => Ok (Continue (it, es))
         end
     end).
Proof. done. Qed.

Lemma build_loop fuel it es rs err :
  iter_ok it → terminal it = false → collect fuel it = Ok (rs, err) →
  match loop fuel build_step (it, es) with
  | Ok es' => err = None ∧ es' = es ++ omap entry_of rs
  | Err e => err = Some e ∨
      (e = limit "index_record_length" ∧ Exists (λ r, u32_max < zlen (raw r)) rs)
  | _ => False
  end.
Proof.
  revert it es rs. induction fuel as [|fuel IH]; intros it es rs Hok Ht; [done|].
  cbn [collect]. rewrite loop_S, build_step_eq. pose proof (wp_next it Hok) as Hn.
  destruct (next it) as [[it' [[r|e]|]]|e| |]; try done; rewrite !bind_Ok; simpl in Hn.
  - intros (rs' & Hc & [= <- <-])%bind_ok. destruct rs' as [rs' err']. simpl in *.
    pose proof Hok as (_ & _ & Hlen & Hpos).
    destruct Hn as (_ & Hok' & Ht' & Hd' & Hro & _ & Hp' & Hraw & Hpr & _).
    pose proof (λ es, IH it' es rs' Hok' Ht' Hc) as IH'. clear IH.
    cbn [fst snd]. change (omap entry_of (r :: rs')) with
      (match entry_of r with Some y => y :: omap entry_of rs' | None => omap entry_of rs' end).
    destruct (record_cases r) as [(p & Hk & ->)|(-> & -> & _)].
    + pose proof Hok' as (_ & _ & _ & Hpos').
      rewrite (record_packet_bytes (ci_data it) r p)
        by (done || rewrite ?Hd', ?Hro, <- ?Hp' in *; done || lia).
      rewrite bind_Ok. unfold u32_from.
      destruct (Z.leb_spec (zlen (raw r)) u32_max) as [Hle|Hgt]; simpl.
      * specialize (IH' (es ++ [{| record_offset := r_offset r; record_length := zlen (raw r);
                                   packet_meta := p |}])).
        destruct (loop fuel _ _); [|..]; try done.
        -- by rewrite <- app_assoc in IH'.
        -- destruct IH' as [|[? ?]]; [by left|right]. split; [done|by right].
      * right. split; [done|by left].
    + rewrite bind_Ok. simpl. specialize (IH' es). destruct (loop fuel _ _); [done| |done..].
      destruct IH' as [|[? ?]]; [by left|right]. split; [done|by right].
  - intros [= <- <-]. by left.
  - intros [= <- <-]. by rewrite app_nil_r.
Qed.

(** The index of the records [rs]. *)
Definition index_of (source : list Z) (rs : list CapRecord) : Index :=
  {| source_len := zlen source; source_sha256 := sha_reference source;
     entries := omap entry_of rs |}.

(** One strict pass over [source] ends without an error and gives [rs]. *)
Definition strict_pass (source : list Z) (l : Limits) (rs : list CapRecord) : Prop :=
  ∃ it, capture_iter_new source l Strict = Ok it ∧
        collect (S (S (length source))) it = Ok (rs, None).

Section source.
Context (source : list Z) (l : Limits).
Context (Hb : bytes_ok source) (Hlen : zlen source ≤ i64_max) (Ht : limits_typed l).

Lemma build_spec :
  match build source l with
  | Ok ix => ∃ rs, strict_pass source l rs ∧ ix = index_of source rs
  | Err e =>
      capture_iter_new source l Strict = Err e ∨
      ∃ it rs err, capture_iter_new source l Strict = Ok it ∧
        collect (S (S (length source))) it = Ok (rs, err) ∧
        (err = Some e ∨
         e = limit "index_record_length" ∧ Exists (λ r, u32_max < zlen (raw r)) rs)
  | _ => False
  end.
Proof using All.
  unfold build. destruct (capture_iter_new source l Strict) as [it|e| |] eqn:Hnew; rewrite ?bind_Ok.
  - destruct (capture_iter_lossless_spec source l Strict it Hb Hlen Ht Hnew)
      as (rs & err & Hc & _).
    destruct (capture_iter_new_ok source l Strict it Hb Hlen Ht Hnew) as (Hok & Hterm & _).
    pose proof (build_loop _ it [] rs err Hok Hterm Hc) as Hl.
    destruct (loop _ _ _) as [es|e| |]; try done; rewrite ?bind_Ok.
    + destruct Hl as [-> ->]. rewrite digest_ok, bind_Ok. exists rs. split; [by exists it|done].
    + right. by exists it, rs, err.
  - by left.
  - revert Hnew. unfold capture_iter_new. destruct (_ <? _); [done|].
    unfold decoder_new, validate. by repeat case_match.
  - revert Hnew. unfold capture_iter_new. destruct (_ <? _); [done|].
    unfold decoder_new, validate. by repeat case_match.
Qed.

(** What an index that was built promises. *)
Lemma strict_pass_ok rs :
  strict_pass source l rs →
  entries_ok source 1 (omap entry_of rs) ∧
  omap packet_data rs = entry_bytes source <$> omap entry_of rs ∧
  zlen rs ≤ max_records l ∧ validate l = Ok () ∧ zlen source ≤ max_input_bytes l.
Proof using All.
  intros (it & Hnew & Hc).
  destruct (capture_iter_lossless_spec source l Strict it Hb Hlen Ht Hnew)
    as (rs' & err & Hc' & T & N & P & M & _).
  rewrite Hc in Hc'. injection Hc' as <- <-.
  destruct (entries_of_records source 0 1 rs ltac:(lia) Hlen T N P) as [E1 E2].
  split_and!; [done..| |].
  - revert Hnew. unfold capture_iter_new, decoder_new. destruct (_ <? _); [done|].
    by destruct (validate l) as [[]| | |].
  - revert Hnew. unfold capture_iter_new. by destruct (Z.ltb_spec (max_input_bytes l) (zlen source)).
Qed.
End source.

Lemma zlen_omap_le {A B} (f : A → option B) (xs : list A) : zlen (omap f xs) ≤ zlen xs.
Proof.
  induction xs as [|x xs IH]; [done|]. simpl. rewrite zlen_cons.
  destruct (f x); rewrite ?zlen_cons; unfold omap in IH; lia.
Qed.

(** ** [Index::encode] *)

Lemma encode_entry_spec out e :
  wp (encode_entry out e) (λ out', ∃ b, out' = out ++ b ∧ zlen b = 64) (λ _, True).
Proof.
  unfold encode_entry, u32_from, put_u64, put_u32, put_u16.
  destruct (_ <=? _); [|done]. rewrite bind_Ok.
  destruct (timestamp (packet_meta e)) as [t|].
  - apply wp_bind. unfold to_pcapng. destruct (resolution t); destruct (_ <=? 127); try done;
      (apply wp_ok, wp_ok; rewrite <- !app_assoc; eexists; split; [reflexivity|];
       rewrite !zlen_app, !zlen_put; done).
  - apply wp_ok. rewrite <- !app_assoc. eexists; split; [reflexivity|].
    by rewrite !zlen_app, !zlen_put.
Qed.

Lemma encode_entries_spec out es :
  wp (foldM encode_entry out es) (λ out', ∃ b, out' = out ++ b ∧ zlen b = 64 * zlen es)
     (λ _, True).
Proof.
  revert out. induction es as [|e es IH]; intros out; cbn [foldM].
  - apply wp_ok. exists []. by rewrite app_nil_r.
  - apply wp_bind. eapply wp_mono; [apply encode_entry_spec| |done].
    intros out1 (b & -> & Hb). eapply wp_mono; [apply IH| |done].
    intros out2 (b' & -> & Hb'). exists (b ++ b'). rewrite zlen_app, zlen_cons.
    split; [by rewrite app_assoc|lia].
Qed.

(** The layout of a sidecar. *)
Definition sidecar_layout (ix : Index) (s : list Z) : Prop :=
  ∃ entry_bytes_, let body := MAGIC ++ put Little 8 (source_len ix) ++ source_sha256 ix ++
                              put Little 8 (zlen (entries ix)) ++ entry_bytes_ in
    zlen entry_bytes_ = 64 * zlen (entries ix) ∧ s = body ++ sha_reference body ∧
    zlen (entries ix) * 64 + 88 ≤ usize_max.

Lemma encode_spec ix : wp (encode ix) (sidecar_layout ix) (λ _, True).
Proof.
  unfold encode, ENTRY, HEADER. apply wp_bind, wp_ok_or; [|done].
  intros cap Hcap. apply wp_bind. eapply wp_mono; [apply encode_entries_spec| |done].
  intros out (b & -> & Hb). rewrite digest_ok, bind_Ok. apply wp_ok. exists b.
  unfold put_u64. rewrite <- !app_assoc. split_and!; [done|done|].
  revert Hcap. unfold checked_mul, checked_add.
  destruct (Z.leb_spec (zlen (entries ix) * 64) usize_max); simpl; [|done].
  destruct (Z.leb_spec (zlen (entries ix) * 64 + (56 + 32)) usize_max); [|done]. lia.
Qed.

(** ** [from_canonical] and the queries *)

(** The exact time of an entry, if it has one. *)
Definition exact_time (e : IndexEntry) : option Z := timestamp (packet_meta e) ≫= λ t, res_ok (unix_nanos t).
Definition timed (e : IndexEntry) : option (Z * Z) :=
  (λ t, (t, frame (packet_meta e))) <$> exact_time e.
Definition untimed (e : IndexEntry) : option Z :=
  match exact_time e with Some _ => None | None => Some (frame (packet_meta e)) end.

Lemma entry_time_ok dat n e : entry_ok dat n e → entry_time e = Ok (exact_time e).
Proof.
  intros (_ & _ & _ & _ & _ & Ht). unfold entry_time, exact_time.
  destruct (timestamp (packet_meta e)) as [t|]; [|done]. simpl in *.
  apply unix_nanos_safe in Ht. by destruct (unix_nanos t).
Qed.

Lemma times_ok dat n es acc :
  entries_ok dat n es →
  foldM times_step acc es = Ok (acc.1 ++ omap timed es, acc.2 ++ omap untimed es).
Proof.
  revert n acc. induction es as [|e es IH]; intros n [a b].
  - intros _. simpl. by rewrite !app_nil_r.
  - intros [He Hes]. cbn [foldM].
    assert (times_step (a, b) e = match exact_time e with
              | Some time => Ok (a ++ [(time, frame (packet_meta e))], b)
              | None => Ok (a, b ++ [frame (packet_meta e)]) end) as ->.
    { unfold times_step. by rewrite (entry_time_ok dat n e He). }
    simpl. unfold timed at 1, untimed at 1. destruct (exact_time e); simpl;
      rewrite (IH _ _ Hes); simpl; by rewrite <- app_assoc.
Qed.

(** The verified index over an index. *)
Definition verified (source : list Z) (ix : Index) : VerifiedIndex :=
  {| v_source := source; v_index := ix; sorted_times := sort (omap timed (entries ix));
     unknown_times := omap untimed (entries ix) |}.

Lemma from_canonical_ok dat n source ix :
  entries_ok dat n (entries ix) → from_canonical source ix = Ok (verified source ix).
Proof. intros H. unfold from_canonical. by rewrite (times_ok dat n _ _ H). Qed.

(** *** Sorted windows *)

Section window.
Context {A : Type} `{Ord A}.
Implicit Types l : list A.
Abbreviation le_ord := (λ x y : A, cmp x y ≠ Gt).

Lemma partition_point_cons (p : A → bool) x l :
  partition_point p (x :: l) = if p x then 1 + partition_point p l else 0.
Proof. done. Qed.

Lemma partition_point_bound (p : A → bool) l : 0 ≤ partition_point p l ≤ zlen l.
Proof.
  induction l as [|x l IH]; [done|]. rewrite partition_point_cons, zlen_cons.
  destruct (p x); lia.
Qed.

(** On a sorted slice and a predicate closed downwards. *)
Lemma partition_point_split (p : A → bool) l :
  (∀ x y, cmp x y ≠ Gt → p y = true → p x = true) → StronglySorted le_ord l →
  sub l 0 (partition_point p l) = List.filter p l ∧
  sub l (partition_point p l) (zlen l) = List.filter (λ x, negb (p x)) l.
Proof.
  intros Hp. induction 1 as [|x l Hs IH Hx]; [done|].
  rewrite partition_point_cons. pose proof (partition_point_bound p l). simpl.
  destruct (p x) eqn:E; simpl.
  - rewrite sub_cons_0, sub_cons_S, zlen_cons by lia.
    replace (1 + partition_point p l - 1) with (partition_point p l) by lia.
    replace (1 + zlen l - 1) with (zlen l) by lia. by destruct IH as [-> ->].
  - rewrite sub_empty, sub_full.
    assert (Forall (λ y, p y = false) l) as Hall.
    { eapply Forall_impl; [exact Hx|]. simpl. intros y Hxy.
      destruct (p y) eqn:Ey; [|done]. by rewrite (Hp x y Hxy Ey) in E. }
    rewrite filter_none by done. split; [done|]. f_equal. symmetry. apply filter_forall.
    eapply Forall_impl; [exact Hall|]. simpl. by intros y ->.
Qed.

Lemma filter_filter (p q : A → bool) l :
  List.filter p (List.filter q l) = List.filter (λ x, q x && p x) l.
Proof.
  induction l as [|x l IH]; simpl; [done|]. destruct (q x); simpl; [|done].
  destruct (p x); by rewrite IH.
Qed.

(** The window between two partition points. *)
Lemma window_split (p q : A → bool) l :
  (∀ x y, cmp x y ≠ Gt → p y = true → p x = true) →
  (∀ x y, cmp x y ≠ Gt → q y = true → q x = true) →
  (∀ x, p x = true → q x = true) → StronglySorted le_ord l →
  0 ≤ partition_point p l ≤ partition_point q l ∧
  sub l (partition_point p l) (partition_point q l) =
    List.filter (λ x, negb (p x) && q x) l.
Proof.
  intros Hp Hq Hpq Hs.
  assert (partition_point p l ≤ partition_point q l) as Hle.
  { clear Hs Hp Hq. induction l as [|x l IH]; [done|]. rewrite !partition_point_cons.
    pose proof (partition_point_bound q l).
    destruct (p x) eqn:E; [rewrite (Hpq x E); lia|]. destruct (q x); lia. }
  pose proof (partition_point_bound p l). split; [lia|].
  clear Hle. induction Hs as [|x l Hs IH Hx]; [done|].
  rewrite !partition_point_cons. simpl. 
  pose proof (partition_point_bound p l). pose proof (partition_point_bound q l).
  destruct (p x) eqn:E; simpl.
  - rewrite (Hpq x E), sub_cons_S by lia.
    replace (1 + partition_point p l - 1) with (partition_point p l) by lia.
    replace (1 + partition_point q l - 1) with (partition_point q l) by lia. apply IH; lia.
  - destruct (partition_point_split q (x :: l) Hq) as [Hw _]; [by constructor|].
    rewrite partition_point_cons in Hw. simpl in Hw.
    assert (Forall (λ y, p y = false) l) as Hall.
    { eapply Forall_impl; [exact Hx|]. simpl. intros y Hxy.
      destruct (p y) eqn:Ey; [|done]. by rewrite (Hp x y Hxy Ey) in E. }
    rewrite Hw. clear -Hall. assert (List.filter q l = List.filter (λ x, negb (p x) && q x) l) as ->.
    { induction Hall as [|y l Hy _ IH]; simpl; [done|]. by rewrite Hy, IH. }
    done.
Qed.

End window.

(** ** [VerifiedIndex::load] *)

(** The fields of a sidecar, read back. *)
Lemma layout_slices {E} (m len h n es t : list Z) :
  zlen m = 8 → zlen len = 8 → zlen h = 32 → zlen n = 8 → zlen t = 32 →
  let s := (m ++ len ++ h ++ n ++ es) ++ t in
  slice (E:=E) s 0 8 = Ok m ∧ slice (E:=E) s 8 16 = Ok len ∧ slice (E:=E) s 16 48 = Ok h ∧
  slice (E:=E) s 48 56 = Ok n ∧
  slice (E:=E) s 0 (zlen s - 32) = Ok (m ++ len ++ h ++ n ++ es) ∧
  slice (E:=E) s (zlen s - 32) (zlen s) = Ok t.
Proof.
  intros H1 H2 H3 H4 H5 s.
  assert (∀ pre f post a b, s = concat (pre ++ f :: post) → a = zlen (concat pre) →
            b = a + zlen f → slice (E:=E) s a b = Ok f) as Hf
    by (intros pre f post a b ->; apply slice_field).
  assert (s = concat [m; len; h; n; es; t]) as Hc
    by (unfold s; cbn [concat]; by rewrite app_nil_r, <- !app_assoc).
  assert (zlen s = zlen (m ++ len ++ h ++ n ++ es) + 32) as Hs by (unfold s; rewrite (zlen_app (m ++ _)), H5; done).
  split_and!.
  - eapply (Hf [] m); [exact Hc|done|lia].
  - eapply (Hf [m] len); [exact Hc|field_len|lia].
  - eapply (Hf [m; len] h); [exact Hc|field_len|lia].
  - eapply (Hf [m; len; h] n); [exact Hc|field_len|lia].
  - eapply (Hf [] _ [t]); [unfold s; cbn [concat app]; by rewrite app_nil_r|done|lia].
  - eapply (Hf [_] t []); [unfold s; cbn [concat app]; by rewrite app_nil_r|cbn [concat]; rewrite app_nil_r, Hs; lia|lia].
Qed.

Section load.
Context (source : list Z) (l : Limits).
Context (Hb : bytes_ok source) (Hlen : zlen source ≤ i64_max) (Ht : limits_typed l).

Lemma build_ok ix :
  build source l = Ok ix →
  ∃ rs, strict_pass source l rs ∧ ix = index_of source rs ∧ entries_ok source 1 (entries ix) ∧
    zlen (entries ix) ≤ max_records l ∧ validate l = Ok () ∧ zlen source ≤ max_input_bytes l.
Proof using All.
  intros Hbuild. pose proof (build_spec source l Hb Hlen Ht) as Hs. rewrite Hbuild in Hs.
  destruct Hs as (rs & Hp & ->). exists rs.
  destruct (strict_pass_ok source l Hb Hlen Ht rs Hp) as (H1 & _ & H3 & H4 & H5).
  split_and!; try done. pose proof (zlen_omap_le entry_of rs). simpl in *. lia.
Qed.

Lemma build_safe : safe (build source l).
Proof using All.
  pose proof (build_spec source l Hb Hlen Ht). by destruct (build source l).
Qed.

Lemma load_safe sidecar : safe (load source sidecar l).
Proof using All.
  unfold load, HEADER, ENTRY, safe. pose proof (zlen_nonneg sidecar).
  apply wp_bind. assert (safe (validate l)) as Hv by (unfold validate; by repeat case_match).
  eapply wp_mono; [exact Hv|intros _ _|done].
  destruct (Z.ltb_spec (zlen sidecar) (56 + 32)) as [|Hl]; [done|].
  wp_go; try done. rewrite u64_ok by (rewrite zlen_sub; lia). apply wp_ok.
  wp_go; try done. rewrite u64_ok by (rewrite zlen_sub; lia). apply wp_ok.
  wp_go; rewrite ?digest_ok; wp_go; rewrite ?digest_ok; wp_go; try done.
  all: apply (wp_of_safe _ _ _); [apply build_safe|intros ix Hix|done].
  all: destruct (build_ok ix Hix) as (rs & _ & _ & Hes & _).
  all: apply wp_bind; eapply wp_mono; [apply encode_spec|intros e _|done].
  all: destruct (negb _); [done|]; by rewrite (from_canonical_ok source 1).
Qed.

Lemma load_complete sidecar ix :
  build source l = Ok ix → encode ix = Ok sidecar →
  load source sidecar l = Ok (verified source ix).
Proof using All.
  intros Hbuild Henc. destruct (build_ok ix Hbuild) as (rs & _ & Hix & Hes & Hn & Hv & Hi).
  pose proof (wp_value _ _ _ _ (encode_spec ix) Henc) as (eb & Heb & Hs & Hcap).
  assert (source_len ix = zlen source ∧ source_sha256 ix = sha_reference source) as [Esl Esh]
    by (by rewrite Hix).
  rewrite Esl, Esh in Hs. set (n := zlen (entries ix)) in *.
  pose proof (zlen_nonneg (entries ix)) as Hn0. fold n in Hn0. pose proof (zlen_nonneg source).
  set (body := MAGIC ++ put Little 8 (zlen source) ++ sha_reference source ++
               put Little 8 n ++ eb) in *.
  assert (zlen body = 56 + 64 * n) as Hbl.
  { unfold body. rewrite !zlen_app, !zlen_put, sha_reference_length.
    change (zlen MAGIC) with 8. lia. }
  assert (zlen sidecar = 88 + 64 * n) as Hsl by (rewrite Hs, zlen_app, sha_reference_length; lia).
  destruct (layout_slices (E:=Error) MAGIC (put Little 8 (zlen source)) (sha_reference source)
              (put Little 8 n) eb (sha_reference body)) as (R1 & R2 & R3 & R4 & R5 & R6);
    [done|apply zlen_put|apply sha_reference_length|apply zlen_put|apply sha_reference_length|].
  fold body in R1, R2, R3, R4, R5, R6. rewrite <- Hs in R1, R2, R3, R4, R5, R6.
  unfold load, HEADER, ENTRY. rewrite Hv, bind_Ok.
  rewrite (proj2 (Z.ltb_ge (zlen sidecar) _)) by lia.
  rewrite R1, bind_Ok, bytes_eqb_refl. cbn [negb].
  rewrite R4, bind_Ok, u64_put, bind_Ok by lia.
  rewrite (proj2 (Z.ltb_ge (max_records l) n)) by lia.
  unfold checked_mul. rewrite (proj2 (Z.leb_le (n * 64) _)) by lia.
  change (Some (n * 64) ≫= λ x, checked_add usize_max x (56 + 32))
    with (checked_add usize_max (n * 64) (56 + 32)).
  unfold checked_add. rewrite (proj2 (Z.leb_le (n * 64 + (56 + 32)) _)) by lia.
  unfold ok_or at 1. rewrite bind_Ok.
  rewrite (proj2 (Z.eqb_eq (n * 64 + (56 + 32)) (zlen sidecar))) by lia. cbn [negb].
  rewrite (proj2 (Z.ltb_ge (max_input_bytes l) _)) by lia.
  rewrite R2, bind_Ok, u64_put, bind_Ok by lia. rewrite Z.eqb_refl. cbn [negb].
  rewrite R3, bind_Ok, digest_ok, bind_Ok, bytes_eqb_refl, bind_Ok. cbn [negb].
  rewrite sub_ovf_ok, bind_Ok by lia. rewrite R6, bind_Ok, R5, bind_Ok, digest_ok, bind_Ok.
  rewrite bytes_eqb_refl. cbn [negb].
  rewrite Hbuild, bind_Ok, Henc, bind_Ok, bytes_eqb_refl. cbn [negb].
  by apply (from_canonical_ok source 1).
Qed.

Lemma load_sound sidecar v :
  load source sidecar l = Ok v →
  ∃ ix, build source l = Ok ix ∧ encode ix = Ok sidecar ∧ v = verified source ix.
Proof using All.
  unfold load, HEADER, ENTRY. intros Hload.
  repeat match type of Hload with
  | (_ ≫= _) = Ok _ => apply bind_ok in Hload as (? & ? & Hload)
  | (if ?c then _ else _) = Ok _ => destruct c eqn:?; [try discriminate|try discriminate]
  end.
  bool_facts. subst.
  match goal with Hx : build source l = Ok ?ix |- _ =>
    exists ix; destruct (build_ok ix Hx) as (rs & _ & _ & Hes & _);
    rewrite (from_canonical_ok source 1) in Hload by exact Hes
  end.
  naive_solver.
Qed.
End load.

(** ** The queries *)

Lemma lookup_get {A} (xs : list A) i : 0 ≤ i → get xs i = xs !! Z.to_nat i.
Proof. intros. unfold get. by rewrite (proj2 (Z.leb_le _ _)). Qed.

Lemma packet_spec source l rs n :
  bytes_ok source → zlen source ≤ i64_max → limits_typed l → strict_pass source l rs →
  packet (verified source (index_of source rs)) n =
    if n <? 1 then Err (invalid "frame must be positive")
    else ok_or (get (omap packet_data rs) (n - 1)) (invalid "frame outside capture").
Proof.
  intros Hb Hl Ht Hp. destruct (strict_pass_ok source l Hb Hl Ht rs Hp) as (Hes & Hdat & _).
  rewrite Hdat. unfold packet, checked_sub. simpl.
  destruct (Z.ltb_spec n 1); [by rewrite (proj2 (Z.leb_gt _ _)) by lia|].
  rewrite (proj2 (Z.leb_le _ _)) by lia. simpl. rewrite !lookup_get by lia.
  rewrite list_lookup_fmap. destruct (omap entry_of rs !! Z.to_nat (n - 1)) as [e|] eqn:He; [|done].
  simpl. destruct (entries_ok_lookup source 1 _ _ e Hes He) as (_ & E1 & E2 & E3 & E4 & _).
  unfold entry_start in E4. unfold checked_add, entry_bytes, entry_start.
  rewrite (proj2 (Z.leb_le (record_offset e + _) _)) by lia. simpl.
  rewrite (proj2 (Z.leb_le (record_offset e + data_offset (packet_meta e) + _) _)) by lia. simpl.
  unfold get_range. by rewrite !(proj2 (Z.leb_le _ _)) by lia.
Qed.

(** The frame of an entry whose exact time is in the closed range. *)
Definition in_range (a b : Z) (e : IndexEntry) : option Z :=
  t ← exact_time e; if (a <=? t) && (t <=? b) then Some (frame (packet_meta e)) else None.

Lemma in_range_frames a b es :
  map snd (List.filter (λ x : Z * Z, negb (x.1 <? a) && (x.1 <=? b)) (omap timed es))
  = omap (in_range a b) es.
Proof.
  induction es as [|e es IH]; [done|]. simpl. unfold timed at 1, in_range at 1.
  destruct (exact_time e) as [t|]; simpl; [|done].
  rewrite (Z.leb_antisym t a). destruct (negb (t <? a) && (t <=? b)); simpl; [f_equal|]; exact IH.
Qed.

(** Frames increase along the entries. *)
Lemma in_range_sorted dat n a b es :
  entries_ok dat n es →
  Forall (λ f, n ≤ f) (omap (in_range a b) es) ∧
  StronglySorted (λ x y : Z, cmp x y ≠ Gt) (omap (in_range a b) es).
Proof.
  revert n. induction es as [|e es IH]; intros n; [by repeat constructor|].
  intros [He Hes]. destruct (IH _ Hes) as [H1 H2]. destruct He as (Hf & _). simpl.
  assert (Forall (λ f, n ≤ f) (omap (in_range a b) es)) as H1'
    by (eapply Forall_impl; [exact H1|]; simpl; lia).
  destruct (in_range a b e) as [f|] eqn:Hr; [|done].
  assert (f = n) as ->.
  { revert Hr. unfold in_range. destruct (exact_time e); simpl; [|done].
    destruct (_ && _); naive_solver. }
  split; [by constructor|]. constructor; [done|].
  eapply Forall_impl; [exact H1'|]. simpl. intros x Hx. rewrite Z.compare_gt_iff. lia.
Qed.

Lemma window_spec (ps : list (Z * Z)) a b :
  a ≤ b → StronglySorted (λ x y : Z * Z, cmp x y ≠ Gt) ps →
  slice (E:=Error) ps (partition_point (λ '(time, _), time <? a) ps)
           (partition_point (λ '(time, _), time <=? b) ps) =
    Ok (List.filter (λ x : Z * Z, negb (x.1 <? a) && (x.1 <=? b)) ps).
Proof.
  intros Hab Hs.
  assert (∀ x y : Z * Z, cmp x y ≠ Gt → x.1 ≤ y.1) as Hle.
  { intros [t f] [t' f'] Hc. change (then_cmp (t ?= t') (f ?= f') ≠ Gt) in Hc. simpl.
    destruct (Z.compare_spec t t'); simpl in Hc; [lia..|done]. }
  destruct (window_split (λ '(time, _), time <? a) (λ '(time, _), time <=? b) ps) as [Hr Hw];
    [..|exact Hs|].
  - intros x y Hc. specialize (Hle x y Hc). destruct x, y; simpl in *. lia.
  - intros x y Hc. specialize (Hle x y Hc). destruct x, y; simpl in *. lia.
  - intros [t f]. simpl. lia.
  - pose proof (partition_point_bound (λ '(time, _), time <=? b) ps).
    rewrite slice_ok, Hw by lia. f_equal. apply List.filter_ext. by intros [t f].
Qed.

Lemma filter_perm {A} (p : A → bool) l k : l ≡ₚ k → List.filter p l ≡ₚ List.filter p k.
Proof.
  induction 1 as [|x l k _ IH|x y l|l k m _ IH1 _ IH2]; simpl; [done|..].
  - destruct (p x); by rewrite IH.
  - destruct (p x), (p y); done || apply Permutation_swap.
  - by rewrite IH1.
Qed.

Lemma sorted_unique (l k : list Z) :
  StronglySorted (λ x y : Z, cmp x y ≠ Gt) l → StronglySorted (λ x y : Z, cmp x y ≠ Gt) k →
  l ≡ₚ k → l = k.
Proof.
  apply StronglySorted_unique. intros x y H1 H2.
  rewrite Z.compare_gt_iff in H1. rewrite Z.compare_gt_iff in H2. lia.
Qed.

Lemma time_range_spec dat n source ix a b :
  entries_ok dat n (entries ix) →
  time_range (verified source ix) a b =
    if b <? a then Err (invalid "inverted time range")
    else Ok {| frames := omap (in_range a b) (entries ix);
               unresolved_frames := omap untimed (entries ix) |}.
Proof.
  intros Hes. unfold time_range, verified; cbn [sorted_times unknown_times].
  destruct (Z.ltb_spec b a) as [|Hab]; [done|].
  rewrite window_spec, bind_Ok by (lia || apply sort_sorted). do 2 f_equal.
  apply sorted_unique; [apply sort_sorted|by eapply in_range_sorted|].
  rewrite sort_perm, <- in_range_frames. apply Permutation_map, filter_perm, sort_perm.
Qed.

(** ** The properties *)

(** Building an index is total and exact.  When it succeeds, one strict pass
    over the source ended without an error and the entries are its packets, in
    order, with their record offsets and lengths, beside the length and SHA-256
    of the source.  When it fails the error is the decoder's first error, or a
    packet record was longer than [u32::MAX]. *)
Theorem index_build_exact (source : list Z) (l : Limits) :
  bytes_ok source → zlen source ≤ i64_max → limits_typed l →
  match build source l with
  | Ok ix => ∃ rs, strict_pass source l rs ∧ ix = index_of source rs
  | Err e =>
      capture_iter_new source l Strict = Err e ∨
      ∃ it rs err, capture_iter_new source l Strict = Ok it ∧
        collect (S (S (length source))) it = Ok (rs, err) ∧
        (err = Some e ∨
         e = limit "index_record_length" ∧ Exists (λ r, u32_max < zlen (raw r)) rs)
  | _ => False
  end.
Proof. apply build_spec. Qed.

(** C28: a sidecar is never an authority.  Loading any bytes as a sidecar returns;
    it succeeds if and only if the bytes are the canonical encoding of the index
    rebuilt from the source, and then gives that index and no other.  So a
    sidecar that is truncated, extended, stale, altered, or altered and rehashed
    is refused, and every sidecar this code writes for the source is accepted. *)
Theorem index_load_canonical (source sidecar : list Z) (l : Limits) (v : VerifiedIndex) :
  bytes_ok source → zlen source ≤ i64_max → limits_typed l →
  safe (load source sidecar l) ∧
  (load source sidecar l = Ok v ↔
     ∃ ix, build source l = Ok ix ∧ encode ix = Ok sidecar ∧ v = verified source ix).
Proof.
  intros Hb Hl Ht. split; [by apply load_safe|]. split; [by apply load_sound|].
  intros (ix & H1 & H2 & ->). by apply load_complete.
Qed.

(** A verified index answers from the source.  Frame [n] is the [n]-th packet
    of the strict pass, its bytes exactly those the record holds; frame 0 and
    frames past the last packet are refused, and no other error occurs.  A time
    query refuses an inverted range and otherwise lists, in capture order, the
    frames whose exact time lies in the closed range, and separately every frame
    without an exact time. *)
Theorem verified_queries_exact (source : list Z) (l : Limits) (rs : list CapRecord) (n a b : Z) :
  bytes_ok source → zlen source ≤ i64_max → limits_typed l → strict_pass source l rs →
  let v := verified source (index_of source rs) in
  packet v n =
    (if n <? 1 then Err (invalid "frame must be positive")
     else ok_or (get (omap packet_data rs) (n - 1)) (invalid "frame outside capture")) ∧
  time_range v a b =
    (if b <? a then Err (invalid "inverted time range")
     else Ok {| frames := omap (in_range a b) (omap entry_of rs);
                unresolved_frames := omap untimed (omap entry_of rs) |}).
Proof.
  intros Hb Hl Ht Hp v. split; [by apply (packet_spec source l)|].
  destruct (strict_pass_ok source l Hb Hl Ht rs Hp) as (Hes & _).
  by apply (time_range_spec source 1).
Qed.

(** ** Witnesses *)

Lemma index_build_exact_witness :
  match build sample_capture limits_default with
  | Ok ix => ∃ rs, strict_pass sample_capture limits_default rs ∧ ix = index_of sample_capture rs
  | Err e =>
      capture_iter_new sample_capture limits_default Strict = Err e ∨
      ∃ it rs err, capture_iter_new sample_capture limits_default Strict = Ok it ∧
        collect (S (S (length sample_capture))) it = Ok (rs, err) ∧
        (err = Some e ∨
         e = limit "index_record_length" ∧ Exists (λ r, u32_max < zlen (raw r)) rs)
  | _ => False
  end.
Proof.
  apply (index_build_exact sample_capture limits_default);
    [apply sample_bytes_ok|by vm_compute|apply limits_default_ok].
Defined.

(** The sidecar of the sample capture loads. *)
Definition sample_index : Index :=
  match build sample_capture limits_default with
  | Ok ix => ix
  | _ => {| source_len := 0; source_sha256 := []; entries := [] |}
  end.
Definition sample_sidecar : list Z := match encode sample_index with Ok s => s | _ => [] end.

Example sample_sidecar_loads :
  (v ← load sample_capture sample_sidecar limits_default; packet v 1)
    = Ok [0xde; 0xad; 0xbe; 0xef].
Proof. by vm_compute. Qed.

(** Changing one byte of the sidecar, or of the source, is noticed. *)
Example sample_sidecar_altered :
  load sample_capture (<[60%nat := 1]> sample_sidecar) limits_default
    = Err (invalid "index digest mismatch") ∧
  code <$> match load (<[43%nat := 0]> sample_capture) sample_sidecar limits_default with
           | Err e => Some e | _ => None end = Some SourceMismatch.
Proof. by vm_compute. Qed.

Lemma index_load_canonical_witness :
  safe (load sample_capture sample_sidecar limits_default) ∧
  (load sample_capture sample_sidecar limits_default = Ok (verified sample_capture sample_index) ↔
     ∃ ix, build sample_capture limits_default = Ok ix ∧ encode ix = Ok sample_sidecar ∧
           verified sample_capture sample_index = verified sample_capture ix).
Proof.
  apply (index_load_canonical sample_capture sample_sidecar limits_default);
    [apply sample_bytes_ok|by vm_compute|apply limits_default_ok].
Defined.

Definition sample_records : list CapRecord :=
  match it ← capture_iter_new sample_capture limits_default Strict;
        collect (S (S (length sample_capture))) it with Ok (rs, _) => rs | _ => [] end.

Lemma verified_queries_exact_witness :
  let v := verified sample_capture (index_of sample_capture sample_records) in
  packet v 1 =
    (if 1 <? 1 then Err (invalid "frame must be positive")
     else ok_or (get (omap packet_data sample_records) (1 - 1)) (invalid "frame outside capture")) ∧
  time_range v 0 7000042000 =
    (if 7000042000 <? 0 then Err (invalid "inverted time range")
     else Ok {| frames := omap (in_range 0 7000042000) (omap entry_of sample_records);
                unresolved_frames := omap untimed (omap entry_of sample_records) |}).
Proof.
  apply (verified_queries_exact sample_capture limits_default sample_records 1 0 7000042000);
    [apply sample_bytes_ok|by vm_compute|apply limits_default_ok|].
  exists {| ci_data := sample_capture; position := 0; decoder := sample_decoder;
            terminal := false |}.
  split; by vm_compute.
Defined.

(** The query finds the packet at its exact time. *)
Example sample_time_range :
  omap (in_range 0 7000042000) (omap entry_of sample_records) = [1].
Proof. by vm_compute. Qed.
