(* ===== verification/Semantics.v ===== *)
(** * Semantic reports ([src/src/semantics/mod.rs])

    A [Report] collects the records a protocol decoder finds in evidence bytes.  The
    decoder goes through [add], which admits a record only if its fields lie in the
    source and its budgets last; a failure ends the report but keeps what was
    decoded.  The JSON of a report cites the captured bytes behind every field. *)

From S2P Require Import Prelude Errors Stateful Json Provenance Sha256.

Definition SCHEMA : string := "pcap-evidence.semantic-subset.v1".

(** ** [Limits] *)

Record SemLimits : Type := {
  sl_input_bytes : Z;
  sl_records : Z;
  sl_fields : Z;
  sl_source_spans : Z;
  sl_work : Z;
  sl_json_bytes : Z;
}.

(** [Limits::default]. *)
Definition sem_default : SemLimits := {|
  sl_input_bytes := 65536; sl_records := 2048; sl_fields := 8192; sl_source_spans := 16384;
  sl_work := 1048576; sl_json_bytes := 4 * 1024 * 1024 |}.

(** [Limits::from_capture]. *)
Definition from_capture (l : Limits) : SemLimits := {|
  sl_input_bytes := Z.min (sl_input_bytes sem_default) (max_application_bytes l);
  sl_records := Z.min (sl_records sem_default) (max_protocol_messages l);
  sl_fields := Z.min (sl_fields sem_default) (max_protocol_messages l);
  sl_source_spans := sl_source_spans sem_default;
  sl_work := sl_work sem_default;
  sl_json_bytes := sl_json_bytes sem_default |}.

(** [Limits::validate]. *)
Definition sem_validate (l : SemLimits) : result unit :=
  if existsb (Z.eqb 0) [sl_input_bytes l; sl_records l; sl_fields l; sl_source_spans l; sl_work l;
                        sl_json_bytes l]
     || (16 * 1024 * 1024 <? sl_input_bytes l) || (65536 <? sl_records l)
     || (262144 <? sl_fields l) || (1048576 <? sl_source_spans l)
     || (64 * 1024 * 1024 <? sl_work l) || (64 * 1024 * 1024 <? sl_json_bytes l)
  then Err (error_new Usage 0 "semantic_limits" "zero or excessive limit")
  else Ok ().

(** ** What is decoded *)

Inductive Status : Type := DecodedSubset | Incomplete | Unsupported | Rejected | Limited.
#[global] Instance Status_eq_dec : EqDecision Status.
Proof. solve_decision. Defined.

(** [Status::as_str]. *)
Definition status_str (s : Status) : string :=
  match s with
  | DecodedSubset => "decoded_subset"
  | Incomplete => "incomplete"
  | Unsupported => "unsupported"
  | Rejected => "rejected"
  | Limited => "limit_exceeded"
  end.

Inductive Value : Type :=
| Unsigned (n : Z)
| Signed (n : Z)
| Boolean (b : bool)
| Float32Bits (n : Z)
| Float64Bits (n : Z)
| OctetsSha256 (length : Z) (digest : list Z)
| Milliseconds48 (n : Z)
| RelativeMilliseconds16 (n : Z).

(** [Value::kind]. *)
Definition value_kind (v : Value) : string :=
  match v with
  | Unsigned _ => "unsigned"
  | Signed _ => "signed"
  | Boolean _ => "boolean"
  | Float32Bits _ => "ieee754_binary32_bits"
  | Float64Bits _ => "ieee754_binary64_bits"
  | OctetsSha256 _ _ => "octets_sha256"
  | Milliseconds48 _ => "wire_milliseconds_48"
  | RelativeMilliseconds16 _ => "relative_milliseconds_16_unresolved"
  end.

(** A range [start..end] of the source is the pair of its ends. *)
Record Field : Type := {
  f_name : string;
  f_value : Value;
  f_range : Z * Z;
  f_bit : option Z;
  f_basis : string;
}.

(** [Field::new], [Field::bit_field] and [Field::derived]. *)
Definition field_new (name : string) (v : Value) (range : Z * Z) : Field :=
  {| f_name := name; f_value := v; f_range := range; f_bit := None;
     f_basis := "direct_wire_field" |}.
Definition bit_field (name : string) (v : bool) (byte bit : Z) : Field :=
  {| f_name := name; f_value := Boolean v; f_range := (byte, byte + 1); f_bit := Some bit;
     f_basis := "lsb_zero_bit_position" |}.
Definition derived (name : string) (v : Z) (range : Z * Z) (basis : string) : Field :=
  {| f_name := name; f_value := Unsigned v; f_range := range; f_bit := None; f_basis := basis |}.

(** [Record] and [Record::new]. *)
Record SemRecord : Type := record_new {
  r_kind : string;
  r_range : Z * Z;
  r_fields : list Field;
}.

(** [Issue]. *)
Record SemIssue : Type := { i_code : string; i_range : Z * Z }.

(** ** [Report] *)

Record Report : Type := {
  rp_source : EvidenceBytes;
  rp_protocol : string;
  rp_context : string;
  rp_limits : SemLimits;
  rp_status : Status;
  consumed : Z;
  records : list SemRecord;
  issues : list SemIssue;
  rp_fields : Z;
  rp_spans : Z;
  rp_work : Z;
}.

(** [Report::new]. *)
Definition report_new (source : EvidenceBytes) (protocol context : string) (limits : SemLimits)
    : result Report :=
  sem_validate limits ;;
  if (sl_input_bytes limits <? len source) || (sl_source_spans limits <? zlen (spans source))
  then Err (limit "semantic_input") else
  if negb (Provenance.validate source)
  then Err (error_new Invariant 0 "semantic_provenance" "invalid source spans") else
  work ← ok_or (n ← checked_add usize_max (len source) (zlen (spans source));
                if n <=? sl_work limits then Some n else None) (limit "semantic_work");
  Ok {| rp_source := source; rp_protocol := protocol; rp_context := context; rp_limits := limits;
        rp_status := DecodedSubset; consumed := 0; records := []; issues := []; rp_fields := 0;
        rp_spans := 0; rp_work := work |}.

(** [take_while]. *)
Fixpoint take_while {A} (P : A → bool) (l : list A) : list A :=
  match l with
  | [] => []
  | x :: l => if P x then x :: take_while P l else []
  end.

(** The spans that meet a range: from the [partition_point] of those that end at or
    before it, while they start before its end. *)
Definition touched (source : EvidenceBytes) (range : Z * Z) : list SourceSpan :=
  take_while (λ s, start s <? range.2) (skip_while (λ s, end_ s <=? range.1) (spans source)).

(** The body of the loop of [add] over the fields: the spans counted so far. *)
Definition field_spans (source : EvidenceBytes) (spans : Z) (f : Field) : result Z :=
  if (f_range f).2 <=? (f_range f).1 then
    Err (error_new Invariant 0 "semantic_field" "invalid field witness")
  else if (len source <? (f_range f).2) || match f_bit f with Some n => 7 <? n | None => false end then
    Err (error_new Invariant 0 "semantic_field" "invalid field witness")
  else ok_or (checked_add usize_max spans (zlen (touched source (f_range f)))) (limit "semantic_spans").

(** What [add] makes of the report when it succeeds; a failure leaves it as it was. *)
Definition add_record (r : Report) (record : SemRecord) : result Report :=
  if ((r_range record).2 <? (r_range record).1) || (len (rp_source r) <? (r_range record).2)
  then Err (error_new Invariant 0 "semantic_record" "invalid record range") else
  spans ← foldM (field_spans (rp_source r)) 0 (r_fields record);
  let n := zlen (r_fields record) in
  fields ← ok_or (checked_add usize_max (rp_fields r) n) (limit "semantic_fields");
  total ← ok_or (checked_add usize_max (rp_spans r) spans) (limit "semantic_spans");
  work ← ok_or (w ← checked_add usize_max (rp_work r) spans; checked_add usize_max w n)
           (limit "semantic_work");
  let l := rp_limits r in
  if (sl_records l <=? zlen (records r)) || (sl_fields l <? fields)
     || (sl_source_spans l <? total) || (sl_work l <? work)
  then Err (limit "semantic_output")
  else Ok {| rp_source := rp_source r; rp_protocol := rp_protocol r; rp_context := rp_context r;
             rp_limits := l; rp_status := rp_status r; consumed := consumed r;
             records := records r ++ [record]; issues := issues r; rp_fields := fields;
             rp_spans := total; rp_work := work |}.

Definition with_consumed (r : Report) (n : Z) : Report :=
  {| rp_source := rp_source r; rp_protocol := rp_protocol r; rp_context := rp_context r;
     rp_limits := rp_limits r; rp_status := rp_status r; consumed := n; records := records r;
     issues := issues r; rp_fields := rp_fields r; rp_spans := rp_spans r; rp_work := rp_work r |}.
Definition with_status (r : Report) (s : Status) : Report :=
  {| rp_source := rp_source r; rp_protocol := rp_protocol r; rp_context := rp_context r;
     rp_limits := rp_limits r; rp_status := s; consumed := consumed r; records := records r;
     issues := issues r; rp_fields := rp_fields r; rp_spans := rp_spans r; rp_work := rp_work r |}.

(** The state after [warn]. *)
Definition with_issue (r : Report) (code : string) (range : Z * Z) : Report :=
  if zlen (issues r) <? sl_records (rp_limits r)
  then {| rp_source := rp_source r; rp_protocol := rp_protocol r; rp_context := rp_context r;
          rp_limits := rp_limits r; rp_status := rp_status r; consumed := consumed r;
          records := records r; issues := issues r ++ [{| i_code := code; i_range := range |}];
          rp_fields := rp_fields r; rp_spans := rp_spans r; rp_work := rp_work r |}
  else with_status r Limited.

(** The methods a decoder calls on [out: &mut Report]. *)
Definition add (record : SemRecord) : Stateful Report unit := attempt (λ r, add_record r record).
Definition advance (n : Z) : Stateful Report unit := modify (λ r, with_consumed r n).
Definition warn (code : string) (range : Z * Z) : Stateful Report unit :=
  modify (λ r, with_issue r code range).

(** [stop]. *)
Definition stop_status (c : ErrorCode) : Status :=
  match c with
  | Truncated => Incomplete
  | UnsupportedTransport | UnsupportedVersion => Unsupported
  | LimitExceeded => Limited
  | _ => Rejected
  end.
Definition stop (r : Report) (e : Error) (at_ : Z) : Report :=
  let r := with_status r (stop_status (code e)) in
  let r := with_consumed r (Z.min at_ (len (rp_source r))) in
  with_issue r (field e) (consumed r, len (rp_source r)).

(** ** [fail], [need] and [uint]

    [uint] is called with one to eight bytes. *)

Definition fail (c : ErrorCode) (at_ : Z) (field : string) : Error :=
  error_new c at_ field "semantic subset stopped; tail retained without resynchronization".

Definition need (bytes : list Z) (at_ count : Z) (field : string) : result unit :=
  match checked_add usize_max at_ count with
  | Some n => if zlen bytes <? n then Err (fail Truncated at_ field) else Ok ()
  | None => Err (fail Truncated at_ field)
  end.

Definition uint (bytes : list Z) (at_ count : Z) (little : bool) : result Z :=
  b ← Prelude.slice bytes at_ (at_ + count);
  Ok (if little then from_le_bytes b else from_be_bytes b).

(** ** The JSON of a report *)

Definition jstr (s : string) : Json := String_ (text s).
(** [n.to_string().into()]. *)
Definition jnum (n : Z) : Json := String_ (decimal n).
Definition signed_decimal (n : Z) : list Z := if n <? 0 then 45 :: decimal (- n) else decimal n.
(** [{n:0kx}] of a value of at most [k] hexadecimal digits. *)
Definition hex_fixed (k : Z) (n : Z) : list Z :=
  map (λ i, hex_digit (n / 16 ^ (k - 1 - i) mod 16)) (seqZ 0 k).
Definition object (l : list (string * Json)) : Json :=
  Object (map (λ '(k, v), (text k, v)) l).

(** [Value::json]. *)
Definition value_json (v : Value) : Json :=
  match v with
  | Unsigned n | Milliseconds48 n => jnum n
  | Signed n => String_ (signed_decimal n)
  | Boolean b => Bool b
  | Float32Bits n => String_ (hex_fixed 8 n)
  | Float64Bits n => String_ (hex_fixed 16 n)
  | OctetsSha256 length digest => object [("length", jnum length); ("sha256", String_ (hex digest))]
  | RelativeMilliseconds16 n => jnum n
  end.

(** [range_json]. *)
Definition range_json (r : Z * Z) : Json := object [("start", jnum r.1); ("end", jnum r.2)].

(** The closure of [witness]: the part of a span inside the range, counted from it. *)
Definition witness_span (range : Z * Z) (s : SourceSpan) : result SourceSpan :=
  let a := Z.max range.1 (start s) in
  let b := Z.min range.2 (end_ s) in
  d ← sub_ovf a (start s);
  ps ← add_ovf usize_max (packet_start s) d;
  st ← sub_ovf a range.1;
  en ← sub_ovf b range.1;
  Ok {| start := st; end_ := en; packet := packet s; packet_start := ps |}.
Definition span_json (s : SourceSpan) : Json :=
  object [("frame", jnum (frame (packet s))); ("record_offset", jnum (record_offset (packet s)));
          ("packet_start", jnum (packet_start s)); ("start", jnum (start s)); ("end", jnum (end_ s))].

(** [witness]. *)
Definition witness (source : EvidenceBytes) (range : Z * Z) : result Json :=
  b ← Prelude.slice (data source) range.1 range.2;
  sha ← digest b;
  ss ← mapM (witness_span range) (touched source range);
  Ok (object [("sha256", String_ (hex sha)); ("spans", Array (map span_json ss))]).

(** [Report::json]: a field, a record, an issue and the undecoded tail. *)
Definition field_json (source : EvidenceBytes) (f : Field) : result Json :=
  evidence ← witness source (f_range f);
  Ok (object [("name", jstr (f_name f)); ("type", jstr (value_kind (f_value f)));
              ("value", value_json (f_value f)); ("range", range_json (f_range f));
              ("basis", jstr (f_basis f));
              ("bit", match f_bit f with Some b => Number b | None => Null end);
              ("evidence", evidence)]).
Definition record_json (source : EvidenceBytes) (r : SemRecord) : result Json :=
  fs ← mapM (field_json source) (r_fields r);
  Ok (object [("kind", jstr (r_kind r)); ("range", range_json (r_range r)); ("fields", Array fs)]).
Definition issue_json (i : SemIssue) : Json :=
  object [("code", jstr (i_code i)); ("range", range_json (i_range i))].
Definition tail_json (r : Report) : result Json :=
  let n := len (rp_source r) in
  if consumed r <? n then
    evidence ← witness (rp_source r) (consumed r, n);
    Ok (object [("range", range_json (consumed r, n)); ("evidence", evidence)])
  else Ok Null.

(** [Report::json]. *)
Definition report_json (r : Report) : result Json :=
  sha ← digest (data (rp_source r));
  rs ← mapM (record_json (rp_source r)) (records r);
  tail ← tail_json r;
  let value := object [
    ("schema", jstr SCHEMA); ("protocol", jstr (rp_protocol r));
    ("decoder", jstr "independent-tier-a-subset/1"); ("context", jstr (rp_context r));
    ("status", jstr (status_str (rp_status r))); ("support", jstr "implemented-partial");
    ("input_length", jnum (len (rp_source r))); ("input_sha256", String_ (hex sha));
    ("consumed", jnum (consumed r));
    ("all_input_consumed",
      Bool (bool_decide (rp_status r = DecodedSubset) && (consumed r =? len (rp_source r))));
    ("device_effect_established", Bool false); ("normative_conformance_certified", Bool false);
    ("source_binding", jstr "inherited_from_parent_capture_or_run");
    ("records", Array rs); ("issues", Array (map issue_json (issues r)));
    ("undecoded_tail", tail)] in
  encode_bounded value (sl_json_bytes (rp_limits r)) ;;
  Ok value.

(** [report::error]; the detail is the text of the error. *)
Definition error_json (e : Error) : Json :=
  object [("code", jstr (as_str (code e))); ("offset", jnum (offset e));
          ("field", jstr (field e)); ("detail", jstr (detail e))].

(** [as_json]. *)
Definition as_json (r : result Report) : result Json :=
  v ← catch (r ≫= report_json);
  Ok match v with
     | inl value => value
     | inr e =>
         object [("schema", jstr SCHEMA);
                 ("status", jstr (if bool_decide (code e = LimitExceeded)
                                  then "limit_exceeded" else "rejected"));
                 ("error", error_json e); ("device_effect_established", Bool false)]
     end.
