(* ===== verification/SemanticsFacts.v ===== *)
(** * Reports and their evidence

    [add] admits a record exactly when its fields lie in the source and the budgets
    last; the counters of a report are functions of its records.  The JSON of a report
    exists unless it is too long, and the evidence beside each range is the hash of its
    bytes with exactly the packet positions those bytes were captured at. *)

From S2P Require Import Prelude Errors Stateful Json JsonFacts Provenance Sha256 Semantics.

(** ** Well-formed reports *)

Definition in_source (e : EvidenceBytes) (r : Z * Z) : Prop := 0 ≤ r.1 ∧ r.1 ≤ r.2 ∧ r.2 ≤ len e.
Definition bit_ok (f : Field) : Prop := match f_bit f with Some b => 0 ≤ b ≤ 7 | None => True end.
Definition field_ok (e : EvidenceBytes) (f : Field) : Prop :=
  in_source e (f_range f) ∧ (f_range f).1 < (f_range f).2 ∧ bit_ok f.
Definition record_ok (e : EvidenceBytes) (r : SemRecord) : Prop :=
  in_source e (r_range r) ∧ Forall (field_ok e) (r_fields r).

(** What a list of records costs. *)
Definition fields_of (rs : list SemRecord) : list Field := concat (map r_fields rs).
Definition span_cost (e : EvidenceBytes) (fs : list Field) : Z :=
  foldr (λ f n, zlen (touched e (f_range f)) + n) 0 fs.
Definition affordable (l : SemLimits) (e : EvidenceBytes) (rs : list SemRecord) : Prop :=
  let fs := fields_of rs in
  zlen rs ≤ sl_records l ∧ zlen fs ≤ sl_fields l ∧ span_cost e fs ≤ sl_source_spans l ∧
  len e + zlen (spans e) + span_cost e fs + zlen fs ≤ sl_work l.

Record report_ok (r : Report) : Prop := {
  ro_source : ev_ok (rp_source r);
  ro_limits : sem_validate (rp_limits r) = Ok ();
  ro_consumed : 0 ≤ consumed r ≤ len (rp_source r);
  ro_records : Forall (record_ok (rp_source r)) (records r);
  ro_issues : Forall (λ i, in_source (rp_source r) (i_range i)) (issues r);
  ro_fields : rp_fields r = zlen (fields_of (records r));
  ro_spans : rp_spans r = span_cost (rp_source r) (fields_of (records r));
  ro_work : rp_work r = len (rp_source r) + zlen (spans (rp_source r)) + rp_spans r + rp_fields r;
  ro_afford : affordable (rp_limits r) (rp_source r) (records r);
  ro_warned : zlen (issues r) ≤ sl_records (rp_limits r);
}.

(** The limits are machine integers. *)
Definition sem_typed (l : SemLimits) : Prop :=
  Forall (λ n, 0 ≤ n) [sl_input_bytes l; sl_records l; sl_fields l; sl_source_spans l; sl_work l;
                       sl_json_bytes l].

Lemma sem_default_typed : sem_typed sem_default.
Proof. repeat constructor; simpl; lia. Qed.

(** ** Arithmetic of costs *)

Lemma span_cost_nonneg e fs : 0 ≤ span_cost e fs.
Proof. induction fs as [|f fs IH]; simpl; [done|]. pose proof (zlen_nonneg (touched e (f_range f))). lia. Qed.

Lemma span_cost_app e fs gs : span_cost e (fs ++ gs) = span_cost e fs + span_cost e gs.
Proof. induction fs as [|f fs IH]; simpl; [done|]. rewrite IH. lia. Qed.

Lemma fields_of_app rs qs : fields_of (rs ++ qs) = fields_of rs ++ fields_of qs.
Proof. unfold fields_of. by rewrite map_app, concat_app. Qed.

Lemma fields_of_one r : fields_of [r] = r_fields r.
Proof. unfold fields_of. simpl. by rewrite app_nil_r. Qed.

Lemma affordable_prefix l e rs qs : affordable l e (rs ++ qs) → affordable l e rs.
Proof.
  unfold affordable. rewrite fields_of_app, span_cost_app, !zlen_app.
  pose proof (zlen_nonneg qs). pose proof (zlen_nonneg (fields_of qs)).
  pose proof (span_cost_nonneg e (fields_of qs)). lia.
Qed.

Lemma sem_validate_bounds l u :
  sem_validate l = Ok u →
  sl_records l ≠ 0 ∧ sl_input_bytes l ≤ 16777216 ∧ sl_records l ≤ 65536 ∧ sl_fields l ≤ 262144 ∧
  sl_source_spans l ≤ 1048576 ∧ sl_work l ≤ 67108864 ∧ sl_json_bytes l ≤ 67108864.
Proof.
  unfold sem_validate. destruct (_ || _) eqn:H; [done|]. intros _.
  repeat (apply orb_false_iff in H as [H ?]). cbn [existsb] in H. bool_facts.
  split_and!; lia.
Qed.

(** A range meets at most as many spans as it has bytes. *)
Lemma take_while_spans dlen c l b :
  validate_from dlen c l = true → zlen (take_while (λ s, start s <? b) l) ≤ Z.max 0 (b - c).
Proof.
  revert c. induction l as [|s l IH]; intros c; [unfold zlen; simpl; lia|].
  intros (Hs & ? & ? & ? & Hv)%validate_from_cons. cbn [take_while].
  destruct (Z.ltb_spec (start s) b); [|unfold zlen; simpl; lia].
  rewrite zlen_cons. specialize (IH _ Hv). lia.
Qed.

Lemma touched_bound e r : ev_ok e → r.1 < r.2 → zlen (touched e r) ≤ r.2 - r.1.
Proof.
  intros [_ Hv]%ev_ok_layout Hr. unfold touched. revert Hv. generalize 0.
  induction (spans e) as [|s l IH]; intros c Hv; [unfold zlen; simpl; lia|].
  pose proof Hv as (Hs & ? & ? & ? & Hv')%validate_from_cons. cbn [skip_while].
  destruct (Z.leb_spec (end_ s) r.1); [by apply (IH (end_ s))|]. cbn [take_while].
  destruct (start s <? r.2); [|unfold zlen; simpl; lia].
  rewrite zlen_cons. pose proof (take_while_spans _ _ _ r.2 Hv'). lia.
Qed.

Lemma spans_bound e : ev_ok e → zlen (spans e) ≤ len e.
Proof.
  intros [_ Hv]%ev_ok_layout. unfold len. revert Hv. replace (zlen (data e)) with (zlen (data e) - 0) at 2 by lia.
  generalize 0. induction (spans e) as [|s l IH]; intros c Hv.
  - apply validate_from_le in Hv. unfold zlen at 1. simpl. lia.
  - apply validate_from_cons in Hv as (Hs & ? & ? & ? & Hv). rewrite zlen_cons. specialize (IH _ Hv). lia.
Qed.

(** Bytes cited by the fields of records. *)
Definition width (fs : list Field) : Z := foldr (λ f n, (f_range f).2 - (f_range f).1 + n) 0 fs.

Lemma span_cost_width e fs :
  ev_ok e → Forall (λ f, (f_range f).1 < (f_range f).2) fs → span_cost e fs ≤ width fs.
Proof.
  intros He. induction 1 as [|f fs Hlt Hfs IH]; simpl; [done|].
  pose proof (touched_bound e (f_range f) He Hlt). unfold span_cost, width in *. lia.
Qed.

Lemma width_app fs gs : width (fs ++ gs) = width fs + width gs.
Proof. induction fs as [|f fs IH]; [done|]. cbn [app width foldr]. fold (width (fs ++ gs)) (width fs). lia. Qed.

(** A record of at most [k] fields that cite at most [w] bytes. *)
Definition light (k w : Z) (r : SemRecord) : Prop :=
  zlen (r_fields r) ≤ k ∧ width (r_fields r) ≤ w ∧
  Forall (λ f, (f_range f).1 < (f_range f).2) (r_fields r).

Lemma light_bound k w rs :
  Forall (light k w) rs →
  zlen (fields_of rs) ≤ k * zlen rs ∧ width (fields_of rs) ≤ w * zlen rs ∧
  Forall (λ f, (f_range f).1 < (f_range f).2) (fields_of rs).
Proof.
  induction 1 as [|r rs (Hk & Hw & Hf) Hrs (IHk & IHw & IHf)].
  { change (fields_of []) with (@nil Field). unfold zlen. simpl. split_and!; [lia|lia|done]. }
  change (fields_of (r :: rs)) with (r_fields r ++ fields_of rs). rewrite zlen_app, zlen_cons, width_app.
  split_and!; [lia|lia|]. by apply Forall_app.
Qed.

(** ** [add] *)

Lemma field_spans_fold e fs n :
  Forall (field_ok e) fs → 0 ≤ n →
  wp (foldM (field_spans e) n fs) (λ m, m = n + span_cost e fs ∧ m ≤ Z.max n usize_max)
     (λ e', is_limit e' ∧ usize_max < n + span_cost e fs).
Proof.
  intros H. revert n. induction H as [|f fs (Hin & Hlt & Hbit) Hfs IH]; intros n Hn.
  { simpl. lia. }
  destruct Hin as (? & ? & ?). cbn [foldM span_cost foldr].
  fold (span_cost e fs). pose proof (span_cost_nonneg e fs).
  pose proof (zlen_nonneg (touched e (f_range f))).
  apply wp_bind. unfold field_spans at 1. rewrite (proj2 (Z.leb_gt _ _)) by done.
  rewrite (proj2 (Z.ltb_ge (len e) _)) by done. cbn [orb].
  replace (match f_bit f with Some n0 => 7 <? n0 | None => false end) with false.
  2: { unfold bit_ok in Hbit. destruct (f_bit f); [|done]. symmetry. apply Z.ltb_ge. lia. }
  apply wp_ok_or.
  - intros m [-> Hle]%checked_add_Some. eapply wp_mono; [apply IH; lia| |].
    + intros m [-> ?]. lia.
    + intros e' [? ?]. split; [done|lia].
  - intros Hov%checked_add_None. split; [by eexists|]. lia.
Qed.

(** The report with more records, and at another position. *)
Definition grown (r : Report) (rs : list SemRecord) (c : Z) : Report :=
  {| rp_source := rp_source r; rp_protocol := rp_protocol r; rp_context := rp_context r;
     rp_limits := rp_limits r; rp_status := rp_status r; consumed := c; records := records r ++ rs;
     issues := issues r; rp_fields := rp_fields r + zlen (fields_of rs);
     rp_spans := rp_spans r + span_cost (rp_source r) (fields_of rs);
     rp_work := rp_work r + span_cost (rp_source r) (fields_of rs) + zlen (fields_of rs) |}.

Lemma grown_nil r : grown r [] (consumed r) = r.
Proof. destruct r. unfold grown. simpl. f_equal; rewrite ?app_nil_r; change (zlen (fields_of [])) with 0; lia || done. Qed.

Lemma grown_grown r rs c qs d : grown (grown r rs c) qs d = grown r (rs ++ qs) d.
Proof.
  unfold grown. simpl. rewrite fields_of_app, span_cost_app, zlen_app, <- app_assoc. f_equal; lia.
Qed.

Lemma with_consumed_grown r rs c d : with_consumed (grown r rs c) d = grown r rs d.
Proof. done. Qed.

Lemma grown_ok r rs c :
  report_ok r → Forall (record_ok (rp_source r)) rs → 0 ≤ c ≤ len (rp_source r) →
  affordable (rp_limits r) (rp_source r) (records r ++ rs) → report_ok (grown r rs c).
Proof.
  intros [] Hrs Hc Ha. constructor; simpl; try done.
  - by apply Forall_app.
  - rewrite fields_of_app, zlen_app. lia.
  - rewrite fields_of_app, span_cost_app. lia.
  - lia.
Qed.

(** A record in the source is admitted exactly when the budgets last. *)
Lemma add_record_spec r rec :
  report_ok r → record_ok (rp_source r) rec →
  wp (add_record r rec)
     (λ r', r' = grown r [rec] (consumed r) ∧
            affordable (rp_limits r) (rp_source r) (records r ++ [rec]))
     (λ e, is_limit e ∧ ¬ affordable (rp_limits r) (rp_source r) (records r ++ [rec])).
Proof.
  intros [] [(? & ? & ?) Hf]. unfold add_record.
  rewrite (proj2 (Z.ltb_ge _ _)), (proj2 (Z.ltb_ge (len _) _)) by done. cbn [orb].
  pose proof (sem_validate_bounds _ _ ro_limits0) as Hb.
  unfold affordable in *. rewrite fields_of_app, fields_of_one, span_cost_app, !zlen_app.
  set (n := zlen (r_fields rec)). set (s := span_cost (rp_source r) (r_fields rec)).
  assert (zlen [rec] = 1) as -> by done.
  pose proof (zlen_nonneg (r_fields rec)). pose proof (span_cost_nonneg (rp_source r) (r_fields rec)).
  pose proof (zlen_nonneg (fields_of (records r))).
  pose proof (span_cost_nonneg (rp_source r) (fields_of (records r))).
  apply wp_bind. eapply wp_mono; [by apply field_spans_fold| |].
  2: { intros e [He Hov]. split; [done|]. fold s in Hov. lia. }
  intros m [-> _]. rewrite Z.add_0_l. fold s. cbv zeta.
  assert (∀ o (P : Z → Prop) fld, (∀ v, o = Some v → P v) → (o = None → False) →
            wp (ok_or o (limit fld)) P (λ e, is_limit e ∧ False)) as Hsome.
  { intros [] P fld HP HN; simpl; [by apply HP|by destruct HN]. }
  apply wp_bind, wp_ok_or; [intros f1 [-> _]%checked_add_Some|intros ?%checked_add_None; split; [by eexists|lia]].
  apply wp_bind, wp_ok_or; [intros f2 [-> _]%checked_add_Some|intros ?%checked_add_None; split; [by eexists|lia]].
  apply wp_bind, wp_ok_or.
  - intros w Hw. destruct (checked_add _ (rp_work r) s) as [w1|] eqn:Hw1; [|done]. simpl in Hw.
    apply checked_add_Some in Hw1 as [-> _]. apply checked_add_Some in Hw as [-> _].
    destruct (_ || _) eqn:Ht.
    + split; [by eexists|]. repeat (apply orb_true_iff in Ht as [Ht|Ht]); lia.
    + bool_facts. split; [|lia]. unfold grown. rewrite fields_of_one. subst n s. f_equal; lia.
  - intros Hw. split; [by eexists|]. destruct (checked_add _ (rp_work r) s) as [w1|] eqn:Hw1.
    + simpl in Hw. apply checked_add_Some in Hw1 as [-> _]. apply checked_add_None in Hw. lia.
    + apply checked_add_None in Hw1. lia.
Qed.

(** [add] checks what it cannot know: whatever record it is given, it admits only one
    that lies in the source, and a refusal changes nothing. *)
Definition range_nonneg (r : SemRecord) : Prop :=
  0 ≤ (r_range r).1 ∧
  Forall (λ f, 0 ≤ (f_range f).1 ∧ match f_bit f with Some k => 0 ≤ k | None => True end) (r_fields r).

Lemma field_spans_checked e fs n :
  Forall (λ f, 0 ≤ (f_range f).1 ∧ match f_bit f with Some k => 0 ≤ k | None => True end) fs →
  wp (foldM (field_spans e) n fs) (λ _, Forall (field_ok e) fs) (λ _, True).
Proof.
  intros H. revert n. induction H as [|f fs [Hf Hbit] Hfs IH]; intros n; [by simpl|].
  cbn [foldM]. apply wp_bind. unfold field_spans at 1.
  destruct (Z.leb_spec (f_range f).2 (f_range f).1); [done|].
  destruct (_ || _) eqn:Hb; [done|]. apply wp_ok_or; [|done]. intros m _.
  eapply wp_mono; [apply IH| |done]. intros ? Hok. constructor; [|done]. bool_facts.
  unfold field_ok, in_source, bit_ok. destruct (f_bit f); bool_facts; split_and!; lia || done.
Qed.

Lemma add_record_checked r rec :
  report_ok r → range_nonneg rec →
  wp (add_record r rec)
     (λ r', r' = grown r [rec] (consumed r) ∧ record_ok (rp_source r) rec ∧ report_ok r') (λ _, True).
Proof.
  intros Hr [Hrange Hf].
  assert (wp (add_record r rec) (λ _, record_ok (rp_source r) rec) (λ _, True)) as Hchecked.
  { unfold add_record. destruct (_ || _) eqn:Hb; [done|]. bool_facts.
    apply wp_bind. eapply wp_mono; [by apply field_spans_checked| |done]. intros n Hok.
    assert (record_ok (rp_source r) rec) as Hrec by (split; [split_and!; lia|done]).
    cbv zeta. do 3 (apply wp_bind, wp_ok_or; [intros ? _|done]). by destruct (_ || _). }
  apply wp_eq in Hchecked. eapply wp_mono; [exact Hchecked| |done]. intros r' [Hrec Hr'].
  pose proof (wp_value _ _ _ _ (add_record_spec r rec Hr Hrec) Hr') as [-> Ha].
  split; [done|]. split; [done|]. apply grown_ok; [done|by constructor|apply Hr|done].
Qed.

Lemma swp_add r rec Q R :
  report_ok r → record_ok (rp_source r) rec →
  (affordable (rp_limits r) (rp_source r) (records r ++ [rec]) →
   report_ok (grown r [rec] (consumed r)) → Q (grown r [rec] (consumed r)) ()) →
  (∀ e, code e = LimitExceeded → ¬ affordable (rp_limits r) (rp_source r) (records r ++ [rec]) → R r e) →
  swp (add rec) r Q R.
Proof.
  intros Hr Hrec HQ HR. apply swp_attempt.
  eapply wp_mono; [by apply add_record_spec| |by intros e [[s ->] ?]; auto].
  intros r' [-> Ha]. apply HQ; [done|]. apply grown_ok; auto. apply Hr.
Qed.

Lemma report_ok_limits r : report_ok r → 1 ≤ sl_records (rp_limits r).
Proof.
  intros H. pose proof (sem_validate_bounds _ _ (ro_limits r H)).
  pose proof (ro_afford r H) as [? _]. pose proof (zlen_nonneg (records r)). lia.
Qed.

(** ** [warn], [stop] and [Report::new] *)

Lemma with_issue_ok r c range :
  report_ok r → in_source (rp_source r) range → report_ok (with_issue r c range).
Proof.
  intros [] Hin. unfold with_issue. destruct (Z.ltb_spec (zlen (issues r)) (sl_records (rp_limits r))).
  - constructor; simpl; try done.
    + apply Forall_app; auto.
    + rewrite zlen_app. change (zlen [_]) with 1. lia.
  - by constructor.
Qed.

Lemma stop_ok r e at_ : report_ok r → 0 ≤ at_ → report_ok (stop r e at_).
Proof.
  intros [] Ha. pose proof (zlen_nonneg (data (rp_source r))). unfold len in *.
  apply with_issue_ok; [|split_and!; simpl; unfold len; lia].
  constructor; simpl; unfold len; try done. lia.
Qed.

Lemma stop_status_not_decoded c : stop_status c ≠ DecodedSubset.
Proof. by destruct c. Qed.

Lemma stop_not_decoded r e at_ : rp_status (stop r e at_) ≠ DecodedSubset.
Proof.
  unfold stop, with_issue. destruct (_ <? _); [|done]. apply stop_status_not_decoded.
Qed.

Lemma stop_limited r e at_ : code e = LimitExceeded → rp_status (stop r e at_) = Limited.
Proof. intros He. unfold stop, with_issue. rewrite He. by destruct (_ <? _). Qed.

(** The empty report of a source. *)
Definition blank (source : EvidenceBytes) (protocol context : string) (limits : SemLimits) : Report :=
  {| rp_source := source; rp_protocol := protocol; rp_context := context; rp_limits := limits;
     rp_status := DecodedSubset; consumed := 0; records := []; issues := []; rp_fields := 0;
     rp_spans := 0; rp_work := len source + zlen (spans source) |}.

(** The budgets admit the source itself. *)
Definition input_fits (l : SemLimits) (e : EvidenceBytes) : Prop :=
  sem_validate l = Ok () ∧ len e ≤ sl_input_bytes l ∧ zlen (spans e) ≤ sl_source_spans l ∧
  len e + zlen (spans e) ≤ sl_work l.

Definition report_error (e : Error) : Prop :=
  e = error_new Usage 0 "semantic_limits" "zero or excessive limit" ∨ is_limit e.

Lemma report_new_spec source p c l :
  ev_ok source → sem_typed l →
  wp (report_new source p c l)
     (λ r, r = blank source p c l ∧ report_ok r ∧ input_fits l source)
     (λ e, report_error e ∧ ¬ input_fits l source).
Proof.
  intros Hs Ht. unfold report_new. apply wp_bind.
  destruct (sem_validate l) as [[]|e| |] eqn:Hv; cycle 1.
  { simpl. split; [|intros [Hf _]; congruence]. left.
    unfold sem_validate in Hv. destruct (_ || _); congruence. }
  { exfalso. unfold sem_validate in Hv. by destruct (_ || _). }
  { exfalso. unfold sem_validate in Hv. by destruct (_ || _). }
  simpl. pose proof (sem_validate_bounds _ _ Hv). unfold input_fits.
  pose proof (zlen_nonneg (data source)). pose proof (zlen_nonneg (spans source)).
  destruct (_ || _) eqn:Hin.
  { simpl. split; [by right; eexists|]. apply orb_true_iff in Hin as [?|?]; lia. }
  bool_facts. destruct Hs as [Hty Hval]. rewrite Hval. cbn [negb].
  apply wp_bind, wp_ok_or.
  - intros w Hw. destruct (checked_add _ _ _) as [n|] eqn:Hn; [|done]. simpl in Hw.
    apply checked_add_Some in Hn as [-> _].
    destruct (Z.leb_spec (len source + zlen (spans source)) (sl_work l)); [|done].
    injection Hw as <-. simpl. split; [done|]. split; [|split_and!; [done|lia..]].
    unfold sem_typed in Ht. repeat (apply Forall_cons in Ht as [? Ht]). cbn beta in *.
    constructor; simpl; try done; try lia; unfold len in *; try lia.
    change (fields_of []) with (@nil Field). unfold affordable. simpl.
    change (fields_of []) with (@nil Field). simpl. change (zlen (@nil SemRecord)) with 0.
    change (zlen (@nil Field)) with 0. unfold len. split_and!; lia.
  - intros Hw. split; [by right; eexists|].
    destruct (checked_add _ _ _) as [n|] eqn:Hn.
    + simpl in Hw. apply checked_add_Some in Hn as [-> _].
      destruct (Z.leb_spec (len source + zlen (spans source)) (sl_work l)); [done|]. lia.
    + apply checked_add_None in Hn. lia.
Qed.

(** ** Evidence *)

Lemma skip_while_valid dlen c l a :
  validate_from dlen c l = true →
  ∃ c', validate_from dlen c' (skip_while (λ s, end_ s <=? a) l) = true ∧
        Forall (λ s, a < end_ s) (skip_while (λ s, end_ s <=? a) l).
Proof.
  revert c. induction l as [|s l IH]; intros c Hv; [by exists c|].
  pose proof Hv as (? & ? & ? & ? & Hv')%validate_from_cons. cbn [skip_while].
  destruct (Z.leb_spec (end_ s) a) as [Hs|Hs]; [by apply (IH (end_ s))|].
  exists c. split; [done|]. constructor; [lia|]. clear IH Hv. revert Hv' Hs. generalize (end_ s).
  induction l as [|s' l IH]; intros z Hv Hz; [done|].
  apply validate_from_cons in Hv as (? & ? & ? & ? & Hv). constructor; [lia|].
  apply (IH (end_ s')); [done|lia].
Qed.

(** The closure of [witness] clips the spans as [slice] does. *)
Lemma witness_spans_clip a b dlen c l :
  0 ≤ a → a < b → validate_from dlen c l = true → Forall (λ s, 0 ≤ packet_start s) l →
  Forall (λ s, a < end_ s) l →
  mapM (witness_span (a, b)) (take_while (λ s, start s <? b) l) = clip_spans a b l.
Proof.
  intros Ha Hab. revert c. induction l as [|s l IH]; intros c Hv Hp He; [done|].
  apply validate_from_cons in Hv as (? & ? & ? & ? & Hv).
  apply Forall_cons in Hp as [? Hp]. apply Forall_cons in He as [? He].
  cbn [take_while clip_spans]. destruct (Z.ltb_spec (start s) b) as [Hs|Hs]; [|done].
  cbn [mapM]. rewrite (IH _ Hv Hp He). unfold witness_span. cbn [fst snd].
  rewrite (Z.max_comm a), (Z.min_comm b).
  rewrite (proj2 (Z.ltb_lt (Z.max _ _) _)) by lia.
  rewrite !sub_ovf_ok, !bind_Ok, add_ovf_ok, !bind_Ok by lia.
  unfold checked_add. rewrite (proj2 (Z.leb_le _ _)) by lia. cbn [ok_or]. by rewrite !bind_Ok.
Qed.

(** The evidence of a piece of the source: the hash of its bytes and its spans. *)
Definition evidence_json (e : EvidenceBytes) : Json :=
  object [("sha256", String_ (hex (sha_reference (data e)))); ("spans", Array (map span_json (spans e)))].

(** [j] cites the bytes of the range and the packet positions they were captured at. *)
Definition cites (source : EvidenceBytes) (range : Z * Z) (j : Json) : Prop :=
  ∃ e, ev_ok e ∧ data e = sub (data source) range.1 range.2 ∧
       origins e = sub (origins source) range.1 range.2 ∧ j = evidence_json e.

Lemma witness_cites source range :
  ev_ok source → in_source source range → range.1 < range.2 →
  ∃ j, witness source range = Ok j ∧ cites source range j.
Proof.
  intros Hs (Ha & _ & Hb) Hab. unfold len in Hb. destruct range as [a b]. cbn [fst snd] in *.
  destruct (slice_ev_ok source a b Hs) as (e & He & Hok & Hd & Ho); [lia..|].
  exists (evidence_json e). split; [|by exists e].
  pose proof (ev_ok_layout _ Hs) as [Hl Hv]. destruct Hs as [(_ & _ & Hp) _].
  unfold witness. cbn [fst snd]. rewrite slice_ok, bind_Ok, digest_ok, bind_Ok by lia.
  unfold touched. cbn [fst snd].
  destruct (skip_while_valid _ _ _ a Hv) as (c & Hv' & He').
  assert (Forall (λ s, 0 ≤ packet_start s) (skip_while (λ s, end_ s <=? a) (spans source))) as Hp'.
  { clear -Hp. induction (spans source) as [|s l IH]; [done|]. cbn [skip_while].
    destruct (_ <=? _); [apply IH; by inversion Hp|done]. }
  rewrite (witness_spans_clip a b (zlen (data source)) c) by (done || lia).
  unfold Provenance.slice in He. rewrite Hl in He. cbn [negb] in He.
  rewrite (proj2 (Z.ltb_ge b a)), (proj2 (Z.ltb_ge _ b)) in He by lia. cbn [orb] in He.
  destruct (clip_spans _ _ _) as [out|?| |] in He |- *; try done.
  rewrite slice_ok in He by lia. cbn [mbind res_bind] in He |- *. injection He as <-. unfold evidence_json. simpl.
  by rewrite <- Hd.
Qed.

(** ** The document of a report *)

(** The document with its evidence left open. *)
Definition field_doc (source : EvidenceBytes) (f : Field) (j : Json) : Prop :=
  ∃ ev, cites source (f_range f) ev ∧
  j = object [("name", jstr (f_name f)); ("type", jstr (value_kind (f_value f)));
              ("value", value_json (f_value f)); ("range", range_json (f_range f));
              ("basis", jstr (f_basis f));
              ("bit", match f_bit f with Some b => Number b | None => Null end); ("evidence", ev)].
Definition record_doc (source : EvidenceBytes) (r : SemRecord) (j : Json) : Prop :=
  ∃ fs, Forall2 (field_doc source) (r_fields r) fs ∧
  j = object [("kind", jstr (r_kind r)); ("range", range_json (r_range r)); ("fields", Array fs)].
Definition tail_doc (r : Report) (j : Json) : Prop :=
  let range := (consumed r, len (rp_source r)) in
  if consumed r <? len (rp_source r)
  then ∃ ev, cites (rp_source r) range ev ∧ j = object [("range", range_json range); ("evidence", ev)]
  else j = Null.
Definition report_doc (r : Report) (j : Json) : Prop :=
  ∃ rs tail, Forall2 (record_doc (rp_source r)) (records r) rs ∧ tail_doc r tail ∧
  j = object [
    ("schema", jstr SCHEMA); ("protocol", jstr (rp_protocol r));
    ("decoder", jstr "independent-tier-a-subset/1"); ("context", jstr (rp_context r));
    ("status", jstr (status_str (rp_status r))); ("support", jstr "implemented-partial");
    ("input_length", jnum (len (rp_source r)));
    ("input_sha256", String_ (hex (sha_reference (data (rp_source r)))));
    ("consumed", jnum (consumed r));
    ("all_input_consumed",
      Bool (bool_decide (rp_status r = DecodedSubset) && (consumed r =? len (rp_source r))));
    ("device_effect_established", Bool false); ("normative_conformance_certified", Bool false);
    ("source_binding", jstr "inherited_from_parent_capture_or_run");
    ("records", Array rs); ("issues", Array (map issue_json (issues r)));
    ("undecoded_tail", tail)].

Lemma mapM_ok {A B} (f : A → result B) (P : A → B → Prop) l :
  Forall (λ x, ∃ y, f x = Ok y ∧ P x y) l → ∃ k, mapM f l = Ok k ∧ Forall2 P l k.
Proof.
  induction 1 as [|x l (y & Hy & HP) Hl (k & Hk & HF)]; [by exists []|].
  exists (y :: k). cbn [mapM]. rewrite Hy, bind_Ok, Hk, bind_Ok. split; [done|by constructor].
Qed.

Lemma field_json_doc source f :
  ev_ok source → field_ok source f → ∃ j, field_json source f = Ok j ∧ field_doc source f j.
Proof.
  intros Hs (Hin & Hlt & _). destruct (witness_cites source (f_range f) Hs Hin Hlt) as (ev & Hev & Hc).
  eexists. unfold field_json. rewrite Hev, bind_Ok. split; [done|]. by exists ev.
Qed.

Lemma record_json_doc source r :
  ev_ok source → record_ok source r → ∃ j, record_json source r = Ok j ∧ record_doc source r j.
Proof.
  intros Hs [_ Hf]. destruct (mapM_ok (field_json source) (field_doc source) (r_fields r)) as (fs & Hfs & HF).
  { eapply Forall_impl; [exact Hf|]. intros f Hok. by apply field_json_doc. }
  eexists. unfold record_json. rewrite Hfs, bind_Ok. split; [done|]. by exists fs.
Qed.

Lemma tail_json_doc r : report_ok r → ∃ j, tail_json r = Ok j ∧ tail_doc r j.
Proof.
  intros Hr. pose proof (ro_consumed r Hr). unfold tail_json, tail_doc. cbv zeta.
  destruct (Z.ltb_spec (consumed r) (len (rp_source r))); [|by eexists].
  destruct (witness_cites (rp_source r) (consumed r, len (rp_source r))) as (ev & Hev & Hc);
    [apply Hr|split_and!; simpl; lia|done|].
  eexists. rewrite Hev, bind_Ok. split; [done|]. by exists ev.
Qed.

(** *** Its characters are Unicode *)

Lemma text_ok s : Forall char_ok (text s).
Proof.
  apply Forall_forall. intros c Hc. unfold text in Hc. apply list_elem_of_In, in_map_iff in Hc as (a & <- & _).
  pose proof (Ascii.N_ascii_bounded a). unfold char_ok. lia.
Qed.

Lemma digits_ok fuel n out : Forall char_ok out → Forall char_ok (digits fuel n out).
Proof.
  revert n out. induction fuel as [|fuel IH]; intros n out Ho; [done|]. cbn [digits].
  assert (Forall char_ok ((48 + n mod 10) :: out)).
  { constructor; [|done]. pose proof (Z.mod_pos_bound n 10). unfold char_ok. lia. }
  destruct (_ <? _); [done|by apply IH].
Qed.

Lemma decimal_ok n : Forall char_ok (decimal n).
Proof. by apply digits_ok. Qed.

Lemma hex_ok l : Forall char_ok (hex l).
Proof.
  unfold hex. apply Forall_concat, Forall_forall. intros k Hk.
  apply list_elem_of_In, in_map_iff in Hk as (b & <- & _).
  assert (∀ i, char_ok (nthz alphabet i)) as Hal.
  { intros i. unfold nthz. destruct (nth_in_or_default (Z.to_nat i) alphabet 0) as [Hin| ->]; [|unfold char_ok; lia].
    assert (Forall char_ok alphabet) as Ha by (unfold alphabet, char_ok; rewrite !Forall_cons; repeat split; lia || done).
    rewrite Forall_forall in Ha. by apply Ha, list_elem_of_In. }
  by rewrite !Forall_cons.
Qed.

Lemma hex_digit_ok d : 0 ≤ d < 16 → char_ok (hex_digit d).
Proof. intros. unfold hex_digit, char_ok. destruct (_ <? _); lia. Qed.

Lemma hex_fixed_ok k n : Forall char_ok (hex_fixed k n).
Proof.
  apply Forall_forall. intros c Hc. unfold hex_fixed in Hc.
  apply list_elem_of_In, in_map_iff in Hc as (i & <- & _). apply hex_digit_ok, Z.mod_pos_bound. lia.
Qed.

Lemma object_ok l : Forall (λ kv, json_ok kv.2) l → json_ok (object l).
Proof.
  unfold object. cbn [json_ok]. induction 1 as [|[k v] l Hv Hl IH]; [done|].
  cbn [map foldr]. split; [|done]. split; [apply text_ok|done].
Qed.

(** Reduce an object to its values that are not plain strings. *)
Ltac each_value :=
  apply object_ok; rewrite !Forall_cons; cbn [snd]; split_and!;
  try solve [exact I | apply text_ok | apply decimal_ok | apply hex_ok | apply Forall_nil; exact I].

Lemma array_ok l : Forall json_ok l → json_ok (Array l).
Proof. cbn [json_ok]. induction 1; [done|]. by cbn [foldr]. Qed.

Lemma value_json_ok v : json_ok (value_json v).
Proof.
  destruct v; cbn [value_json]; try apply decimal_ok; try apply hex_fixed_ok; try done.
  - unfold signed_decimal. cbn [json_ok]. destruct (_ <? _); [|apply decimal_ok].
    constructor; [unfold char_ok; lia|apply decimal_ok].
  - each_value.
Qed.

Lemma range_json_ok r : json_ok (range_json r).
Proof. each_value. Qed.

Lemma cites_ok source range j : cites source range j → json_ok j.
Proof.
  intros (e & _ & _ & _ & ->). each_value. apply array_ok, Forall_forall. intros x Hx. apply list_elem_of_In, in_map_iff in Hx as (s & <- & _).
  each_value.
Qed.

Lemma field_doc_ok source f j : bit_ok f → field_doc source f j → json_ok j.
Proof.
  intros Hb (ev & Hev & ->). each_value.
  - apply value_json_ok.
  - apply range_json_ok.
  - unfold bit_ok in Hb. destruct (f_bit f); cbn; lia.
  - by eapply cites_ok.
Qed.

Lemma Forall2_right {A B} (P : A → B → Prop) (Q : A → Prop) (R : B → Prop) l k :
  Forall2 P l k → Forall Q l → (∀ x y, Q x → P x y → R y) → Forall R k.
Proof. intros HP HQ HR. induction HP; [done|]. apply Forall_cons in HQ as [? ?]. eauto. Qed.

Lemma record_doc_ok source r j : record_ok source r → record_doc source r j → json_ok j.
Proof.
  intros [_ Hr] (fs & Hfs & ->). each_value; [apply range_json_ok|].
  apply array_ok. eapply Forall2_right; [exact Hfs|exact Hr|]. intros f x (_ & _ & Hb). by apply field_doc_ok.
Qed.

Lemma report_doc_ok r j : report_ok r → report_doc r j → json_ok j.
Proof.
  intros Hr (rs & tail & Hrs & Htail & ->).
  each_value.
  - apply array_ok. eapply Forall2_right; [exact Hrs|apply Hr|]. intros x y. apply record_doc_ok.
  - apply array_ok, Forall_forall. intros x Hx. apply list_elem_of_In, in_map_iff in Hx as (i & <- & _).
    each_value; apply range_json_ok.
  - unfold tail_doc in Htail. cbv zeta in Htail. destruct (_ <? _); [|by rewrite Htail].
    destruct Htail as (ev & Hev & ->). each_value; [apply range_json_ok|by eapply cites_ok].
Qed.

(** The document exists, unless its size exceeds the budget of the report. *)
Lemma report_json_doc r :
  report_ok r →
  ∃ j, report_doc r j ∧ json_ok j ∧
       report_json r = if utf8_len (encode j) <=? sl_json_bytes (rp_limits r)
                       then Ok j else Err (limit "report_bytes").
Proof.
  intros Hr.
  destruct (mapM_ok (record_json (rp_source r)) (record_doc (rp_source r)) (records r)) as (rs & Hrs & HF).
  { eapply Forall_impl; [apply Hr|]. intros x Hok. apply record_json_doc; [apply Hr|done]. }
  destruct (tail_json_doc r Hr) as (tail & Htail & Hdoc).
  pose proof (sem_validate_bounds _ _ (ro_limits r Hr)) as Hb.
  eexists. assert (report_doc r ?[j]) as Hj by (exists rs, tail; split_and!; [exact HF|exact Hdoc|reflexivity]).
  split; [exact Hj|]. pose proof (report_doc_ok r _ Hr Hj) as Hok. split; [exact Hok|].
  unfold report_json. rewrite digest_ok, bind_Ok, Hrs, bind_Ok, Htail, bind_Ok. cbv zeta.
  unfold encode_bounded. rewrite encoded_len_bounded_spec by (done || lia).
  by destruct (_ <=? _).
Qed.

(** What [as_json] makes of an error. *)
Definition refusal (e : Error) : Json :=
  object [("schema", jstr SCHEMA);
          ("status", jstr (if bool_decide (code e = LimitExceeded) then "limit_exceeded" else "rejected"));
          ("error", error_json e); ("device_effect_established", Bool false)].

Lemma refusal_ok e : json_ok (refusal e).
Proof. unfold refusal. each_value. unfold error_json. each_value. Qed.

(** [as_json] returns the document of a report that fits its budget; everything else
    becomes the document of the error. *)
Lemma as_json_doc m (P : Report → Prop) (Q : Error → Prop) :
  wp m (λ r, report_ok r ∧ P r) Q →
  ∃ v, as_json m = Ok v ∧ json_ok v ∧
    ((∃ r, m = Ok r ∧ report_doc r v ∧ utf8_len (encode v) ≤ sl_json_bytes (rp_limits r)) ∨
     (∃ e, m = Err e ∧ v = refusal e) ∨
     (∃ r j, m = Ok r ∧ report_doc r j ∧ sl_json_bytes (rp_limits r) < utf8_len (encode j) ∧
             v = refusal (limit "report_bytes"))).
Proof.
  intros Hm. unfold as_json. destruct m as [r|e| |]; try done.
  - destruct Hm as [Hr _]. destruct (report_json_doc r Hr) as (j & Hj & Hok & Hjson).
    cbn [mbind res_bind]. rewrite Hjson. destruct (Z.leb_spec (utf8_len (encode j)) (sl_json_bytes (rp_limits r))).
    + exists j. split; [done|]. split; [done|]. left. by exists r.
    + exists (refusal (limit "report_bytes")). split; [done|]. split; [apply refusal_ok|]. right. right.
      by exists r, j.
  - exists (refusal e). split; [done|]. split; [apply refusal_ok|]. right. left. by exists e.
Qed.

(** C16: a rendered report cites its source.  The JSON of a well-formed report is a
    Unicode document within the byte budget, and beside every field and beside the
    undecoded tail it carries the SHA-256 of exactly the bytes of that range and spans
    that list, byte for byte, the packets and packet positions they were captured at;
    a report whose document is too long is replaced by an error document.  Nothing
    aborts. *)
Theorem report_cites_source (r : Report) :
  report_ok r →
  ∃ v, as_json (Ok r) = Ok v ∧ json_ok v ∧
    (report_doc r v ∧ utf8_len (encode v) ≤ sl_json_bytes (rp_limits r) ∨
     v = refusal (limit "report_bytes") ∧
     ∃ j, report_doc r j ∧ sl_json_bytes (rp_limits r) < utf8_len (encode j)).
Proof.
  intros Hr. destruct (as_json_doc (Ok r) (λ _, True) (λ _, False)) as (v & Hv & Hok & Hcase); [done|].
  exists v. split; [done|]. split; [done|].
  destruct Hcase as [(r' & [= <-] & ? & ?)|[(e & ? & _)|(r' & j & [= <-] & ? & ? & ->)]]; [by left|done|right].
  split; [done|]. by exists j.
Qed.

(** ** Loops that add records *)

Lemma zlen_seqZ n : 0 ≤ n → zlen (seqZ 0 n) = n.
Proof. intros. unfold zlen. rewrite length_seqZ. lia. Qed.

Lemma seqZ_split n pre a post :
  seqZ 0 n = pre ++ a :: post → a = zlen pre ∧ 0 ≤ a < n ∧ pre = seqZ 0 a.
Proof.
  intros H.
  assert (a = zlen pre) as Ha.
  { assert (seqZ 0 n !! length pre = Some a) as Hl by (rewrite H; by apply list_lookup_middle).
    apply lookup_seqZ in Hl as [-> _]. unfold zlen. lia. }
  assert (zlen (seqZ 0 n) = zlen pre + 1 + zlen post) as Hz.
  { rewrite H, zlen_app, zlen_cons. lia. }
  pose proof (zlen_nonneg pre). pose proof (zlen_nonneg post).
  unfold zlen in Hz at 1. rewrite length_seqZ in Hz.
  split_and!; [done|lia..|].
  replace n with (a + (n - a)) in H by lia. rewrite seqZ_app in H by lia.
  apply app_inj_1 in H as [H _]; [done|]. rewrite length_seqZ, Ha. unfold zlen. lia.
Qed.

(** A report on this source under these limits. *)
Definition reports (l : SemLimits) (source : EvidenceBytes) (r : Report) : Prop :=
  report_ok r ∧ rp_source r = source ∧ rp_limits r = l.

Lemma wp_need b at_ n fld (Q : unit → Prop) (R : Error → Prop) :
  0 ≤ at_ → 0 ≤ n → at_ + n ≤ usize_max →
  (at_ + n ≤ zlen b → Q ()) → (zlen b < at_ + n → R (fail Truncated at_ fld)) →
  wp (need b at_ n fld) Q R.
Proof.
  intros Ha Hn Hm HQ HR. unfold need, checked_add. rewrite (proj2 (Z.leb_le _ _)) by lia.
  destruct (Z.ltb_spec (zlen b) (at_ + n)); simpl; auto.
Qed.

(** A failed loop: the report is well formed and the records of the whole loop are not
    affordable. *)
Definition broke (l : SemLimits) (source : EvidenceBytes) (rs : list SemRecord) (r : Report) (e : Error) : Prop :=
  reports l source r ∧ code e = LimitExceeded ∧ ¬ affordable l source rs.

Lemma broke_more l source rs qs r e : broke l source rs r e → broke l source (rs ++ qs) r e.
Proof. intros (? & ? & Hn). split_and!; [done..|]. intros Ha. by eapply Hn, affordable_prefix. Qed.

(** Round [i] adds [rec i] and leaves the position at [pos (i + 1)]. *)
Lemma swp_fill (step : unit → Z → Stateful Report unit) (rec : Z → SemRecord) (pos : Z → Z) n r :
  report_ok r → 0 ≤ n → consumed r = pos 0 →
  (∀ i r', 0 ≤ i < n → report_ok r' → rp_source r' = rp_source r → rp_limits r' = rp_limits r →
     consumed r' = pos i →
     swp (step () i) r' (λ s _, s = grown r' [rec i] (pos (i + 1)) ∧ report_ok s)
         (broke (rp_limits r) (rp_source r) (records r' ++ [rec i]))) →
  swp (foldC step () (seqZ 0 n)) r
      (λ s _, s = grown r (map rec (seqZ 0 n)) (pos n) ∧ report_ok s)
      (broke (rp_limits r) (rp_source r) (records r ++ map rec (seqZ 0 n))).
Proof.
  intros Hr Hn Hc Hstep.
  apply (swp_fold (λ pre s _, s = grown r (map rec pre) (pos (zlen pre)) ∧ report_ok s)) with (done := []).
  - rewrite app_nil_l. intros pre i post s [] Hsplit [Hs Hok].
    pose proof (seqZ_split _ _ _ _ Hsplit) as (Hi & Hin & Hpre).
    eapply swp_mono; [apply (Hstep i s); [done|done|by rewrite Hs..|]|..].
    + rewrite Hs. simpl. by rewrite Hi.
    + intros s' [] [-> Hok']. split; [|done]. rewrite Hs, grown_grown, map_app, zlen_app, <- Hi. done.
    + intros s' e Hb. rewrite Hsplit, map_app. cbn [map].
      change (rec i :: map rec post) with ([rec i] ++ map rec post).
      rewrite (app_assoc (map rec pre)), (app_assoc (records r)). apply broke_more.
      rewrite Hs in Hb. simpl in Hb. by rewrite app_assoc.
  - split; [|done]. cbn [map]. change (zlen (@nil Z)) with 0. rewrite <- Hc. by rewrite grown_nil.
  - intros s [] [-> Hok]. rewrite app_nil_l. split; [|by rewrite app_nil_l in Hok].
    f_equal. f_equal. unfold zlen. rewrite length_seqZ. lia.
Qed.

(** ** Witnesses *)

(** Four captured bytes, of which nothing is decoded. *)
Definition sample_blank : Report := blank sample_evidence "modbus" "request" sem_default.

Lemma sample_blank_ok : report_ok sample_blank.
Proof.
  constructor; simpl; try done. apply Provenance.sample_evidence_ok.
Qed.

Lemma report_cites_source_witness :
  report_ok sample_blank ∧
  ∃ v, as_json (Ok sample_blank) = Ok v ∧ json_ok v ∧
    (report_doc sample_blank v ∧ utf8_len (encode v) ≤ sl_json_bytes (rp_limits sample_blank) ∨
     v = refusal (limit "report_bytes") ∧
     ∃ j, report_doc sample_blank j ∧ sl_json_bytes (rp_limits sample_blank) < utf8_len (encode j)).
Proof. split; [apply sample_blank_ok|apply (report_cites_source sample_blank sample_blank_ok)]. Defined.
