(* ===== verification/SemModbus.v ===== *)
(** * Modbus fields ([src/src/semantics/modbus.rs])

    The semantic report of one Modbus/TCP frame in a role the caller supplies, the
    check of a request with a response, and the comparison of the tokens a streaming
    adapter keeps in their place.  Positions inside a frame are at most 260, so the
    sums of positions are written plainly. *)

From S2P Require Import Prelude Errors Stateful Json Provenance Modbus Semantics.

Definition num (name : string) (value start stop : Z) : Field :=
  field_new name (Unsigned value) (start, stop).
Definition invalid (at_ : Z) (code : string) : Error := fail InvalidLength at_ code.

(** [quantity]. *)
Definition quantity (b : list Z) (max : Z) : result (Z * Z) :=
  need b 8 4 "modbus_address_quantity_truncated" ;;
  first ← uint b 8 2 false;
  count ← uint b 10 2 false;
  if (count =? 0) || (max <? count) || (65536 <? first + count)
  then Err (invalid 8 "modbus_address_quantity_range") else Ok (first, count).

(** [exact]. *)
Definition exact (b : list Z) (expected : Z) : result unit :=
  if negb (zlen b =? expected) then Err (invalid 0 "modbus_pdu_shape") else Ok ().

(** [address_fields]. *)
Definition address_fields (b : list Z) (max : Z) : result (list Field) :=
  fc ← quantity b max;
  let '(first, count) := fc in
  Ok [num "starting_address_zero_based" first 8 10; num "quantity" count 10 12].

(** The record [registers] makes of the register at [p], and one round of its loop. *)
Definition register_record (p v : Z) (address : option (Z * (Z * Z))) : SemRecord :=
  record_new "register" (p, p + 2)
    (num "register_u16" v p (p + 2) ::
     match address with
     | Some (a, range) =>
         [derived "address_zero_based" a range "starting_address_plus_record_ordinal"]
     | None => []
     end).
Definition register_step (b : list Z) (at_ : Z) (first : option Z) (address_range : Z * Z)
    (_ : unit) (i : Z) : Stateful Report unit :=
  let p := at_ + i * 2 in
  lift (need b p 2 "modbus_register_truncated") ;;
  v ← lift (uint b p 2 false);
  add (register_record p v ((λ first, (first + i, address_range)) <$> first)) ;;
  advance (p + 2).

(** [registers]. *)
Definition registers (b : list Z) (at_ count : Z) (first : option Z) (address_range : Z * Z)
    : Stateful Report unit :=
  foldC (register_step b at_ first address_range) () (seqZ 0 count).

(** [decode_body], the header of the frame. *)
Definition mbap_record (tid len unit_ function : Z) : SemRecord :=
  record_new "mbap" (0, 8)
    [num "transaction_id" tid 0 2; num "protocol_id" 0 2 4; num "length" len 4 6;
     num "unit_id" unit_ 6 7; num "function" function 7 8].
Definition decode_mbap (b : list Z) : Stateful Report Z :=
  lift (need b 0 8 "modbus_mbap_truncated") ;;
  len ← lift (uint b 4 2 false);
  protocol ← lift (uint b 2 2 false);
  if negb (protocol =? 0) || negb ((2 <=? len) && (len <=? 254))
  then throw (invalid 2 "modbus_mbap_fields")
  else if zlen b <? len + 6 then throw (fail Truncated (zlen b) "modbus_adu_truncated")
  else if negb (zlen b =? len + 6) then throw (invalid 4 "modbus_exactly_one_adu_required")
  else
    function ← lift (idx b 7);
    tid ← lift (uint b 0 2 false);
    unit_ ← lift (idx b 6);
    add (mbap_record tid len unit_ function) ;;
    advance 8 ;;
    mret function.

(** [decode_body], an exception response. *)
Definition exception_record (code : Z) : SemRecord :=
  record_new "exception_response" (8, 9) [num "exception_code" code 8 9].
Definition decode_exception (b : list Z) (role : Role) : Stateful Report unit :=
  lift (exact b 9) ;;
  code ← lift (idx b 8);
  if negb (bool_decide (role = Response)) || negb (in_list code [1; 2; 3; 4; 5; 6; 8; 10; 11])
  then throw (invalid 8 "modbus_exception_role_or_code")
  else
    add (exception_record code) ;;
    advance 9.

(** [decode_body], [(1..=4, Role::Request)]. *)
Definition decode_read_request (b : list Z) (function : Z) : Stateful Report unit :=
  lift (exact b 12) ;;
  fields ← lift (address_fields b (if function <=? 2 then 2000 else 125));
  add (record_new "read_request" (8, 12) fields).

(** [decode_body], [(1..=4, Role::Response)]. *)
Definition octet_record (at_ v : Z) : SemRecord :=
  record_new "packed_response_octet" (at_, at_ + 1) [num "packed_lsb_first" v at_ (at_ + 1)].
Definition octet_step (b : list Z) (_ : unit) (i : Z) : Stateful Report unit :=
  let at_ := 9 + i in
  v ← lift (idx b at_);
  add (octet_record at_ v) ;;
  advance (at_ + 1).
Definition decode_read_response (b : list Z) (function : Z) : Stateful Report unit :=
  lift (need b 8 1 "modbus_byte_count_truncated") ;;
  count ← lift (idx b 8);
  if (count =? 0) || (250 <? count) || negb (zlen b =? 9 + count)
     || ((3 <=? function) && negb (count mod 2 =? 0))
  then throw (invalid 8 "modbus_read_response_byte_count")
  else
    add (record_new "read_response" (8, 9) [num "byte_count" count 8 9]) ;;
    advance 9 ;;
    if 3 <=? function then registers b 9 (count / 2) None (0, 0)
    else
      foldC (octet_step b) () (seqZ 0 count) ;;
      warn "requested_bit_count_and_addresses_require_request" (9, zlen b).

(** [decode_body], [(5 | 6, _)]. *)
Definition decode_write_single (b : list Z) (function : Z) (role : Role) : Stateful Report unit :=
  lift (exact b 12) ;;
  value ← lift (uint b 10 2 false);
  if (function =? 5) && negb (in_list value [0; 0xff00])
  then throw (invalid 10 "modbus_single_coil_encoding")
  else
    address ← lift (uint b 8 2 false);
    let fields := [num "address_zero_based" address 8 10; num "wire_value" value 10 12] ++
      (if function =? 5 then [field_new "coil_value" (Boolean (value =? 0xff00)) (10, 12)] else []) in
    add (record_new (if bool_decide (role = Request) then "write_request" else "write_echo_response")
           (8, 12) fields).

(** [decode_body], [(15 | 16, Role::Response)]. *)
Definition decode_write_echo (b : list Z) (function : Z) : Stateful Report unit :=
  lift (exact b 12) ;;
  fields ← lift (address_fields b (if function =? 15 then 1968 else 123));
  add (record_new "write_echo_response" (8, 12) fields).

(** [decode_body], [(15 | 16, Role::Request)]. *)
Definition coil_record (first i v : Z) : SemRecord :=
  let at_ := 13 + i / 8 in
  let bit := i mod 8 in
  record_new "coil" (at_, at_ + 1)
    [derived "address_zero_based" (first + i) (8, 10) "starting_address_plus_record_ordinal";
     bit_field "value" (negb (Z.land v (Z.shiftl 1 bit) =? 0)) at_ bit].
Definition coil_step (b : list Z) (first : Z) (_ : unit) (i : Z) : Stateful Report unit :=
  v ← lift (idx b (13 + i / 8));
  add (coil_record first i v).
Definition decode_coils (b : list Z) (first count : Z) : Stateful Report unit :=
  out ← get_state;
  if saturating_sub (sl_records (rp_limits out)) (zlen (records out)) <? count
  then throw (fail LimitExceeded 13 "modbus_coil_record_budget")
  else
    foldC (coil_step b first) () (seqZ 0 count) ;;
    rest ← lift (slice_from b 13);
    if negb (padding_is_zero count rest)
    then warn "write_unused_bits_nonzero_recommendation" (zlen b - 1, zlen b)
    else mret ().
Definition decode_write_multiple (b : list Z) (function : Z) : Stateful Report unit :=
  lift (need b 8 5 "modbus_write_header_truncated") ;;
  fc ← lift (quantity b (if function =? 15 then 1968 else 123));
  let '(first, count) := fc in
  let expected := if function =? 15 then div_ceil count 8 else count * 2 in
  n ← lift (idx b 12);
  if negb (n =? expected) || negb (zlen b =? 13 + expected)
  then throw (invalid 12 "modbus_write_byte_count")
  else
    fields ← lift (address_fields b (if function =? 15 then 1968 else 123));
    add (record_new "write_multiple_request" (8, 13) (fields ++ [num "byte_count" expected 12 13])) ;;
    advance 13 ;;
    if function =? 16 then registers b 13 count (Some first) (8, 10)
    else decode_coils b first count.

(** [decode_body], the match on the function and the role. *)
Definition decode_function (b : list Z) (function : Z) (role : Role) : Stateful Report unit :=
  if in_list function [1; 2; 3; 4] then
    match role with
    | Request => decode_read_request b function
    | Response => decode_read_response b function
    | RUnknown => throw (fail UnsupportedTransport 8 "modbus_role_outside_subset")
    end
  else if in_list function [5; 6] then decode_write_single b function role
  else if in_list function [15; 16] then
    match role with
    | Response => decode_write_echo b function
    | Request => decode_write_multiple b function
    | RUnknown => throw (fail UnsupportedTransport 8 "modbus_role_outside_subset")
    end
  else throw (fail UnsupportedTransport 8 "modbus_role_outside_subset").

(** [decode_body]. *)
Definition decode_body (b : list Z) (role : Role) : Stateful Report unit :=
  function ← decode_mbap b;
  if bool_decide (role = RUnknown)
  then throw (fail UnsupportedTransport 8 "modbus_role_not_supplied")
  else if negb (in_list (Z.land function 0x7f) [1; 2; 3; 4; 5; 6; 15; 16])
  then throw (fail UnsupportedTransport 7 "modbus_function_outside_field_subset")
  else if negb (Z.land function 0x80 =? 0) then decode_exception b role
  else
    decode_function b function role ;;
    advance (zlen b).

(** [decode]. *)
Definition decode (source : EvidenceBytes) (role : Role) (limits : SemLimits) : result Report :=
  out ← report_new source "modbus" (role_str role) limits;
  let '(out, r) := decode_body (data source) role out in
  v ← catch r;
  Ok match v with
     | inl _ => out
     | inr e => stop out e (consumed out)
     end.

(** [alternatives_json]. *)
Definition alternatives_json (source : EvidenceBytes) (role : Role) (limits : SemLimits) : result Json :=
  let roles := match role with RUnknown => [Request; Response] | _ => [role] end in
  interpretations ← mapM (λ r, as_json (decode source r limits)) roles;
  let value := object [
    ("schema", jstr "pcap-evidence.modbus-alternatives.v1");
    ("selection", jstr (if bool_decide (role = RUnknown) then "unresolved_role" else "caller_supplied_role"));
    ("interpretations", Array interpretations);
    ("device_effect_established", Bool false)] in
  v ← catch (encode_bounded value (sl_json_bytes limits));
  Ok match v with
     | inl _ => value
     | inr e => object [("schema", jstr "pcap-evidence.modbus-alternatives.v1");
                        ("status", jstr "limit_exceeded"); ("error", error_json e)]
     end.

(** ** [check_pair] *)

Inductive PairStatus : Type := ConsistentWithinSubset | Inconsistent | NotComparable.

Definition not_comparable (s : Status) : bool :=
  bool_decide (s = Unsupported) || bool_decide (s = Limited).

Definition check_pair (request response : ModbusMessage) (limits : SemLimits) : result PairStatus :=
  a ← decode (m_raw request) Request limits;
  b ← decode (m_raw response) Response limits;
  if not_comparable (rp_status a) || not_comparable (rp_status b) then Ok NotComparable
  else if negb (bool_decide (rp_status a = DecodedSubset)) || negb (bool_decide (rp_status b = DecodedSubset))
  then Ok Inconsistent
  else m ← response_matches request response;
       Ok (if (m : bool) then ConsistentWithinSubset else Inconsistent).

(** ** [compatibility_matches]

    A [&str] is its list of characters. *)

(** [str::strip_prefix] and [str::split_once]. *)
Fixpoint strip_prefix (p s : list Z) : option (list Z) :=
  match p, s with
  | [], _ => Some s
  | a :: p, b :: s => if a =? b then strip_prefix p s else None
  | _ :: _, [] => None
  end.
Definition starts_with (p s : list Z) : bool := if strip_prefix p s then true else false.
Fixpoint split_once (c : Z) (s : list Z) : option (list Z * list Z) :=
  match s with
  | [] => None
  | x :: s => if x =? c then Some ([], s)
              else '(a, b) ← split_once c s; Some (x :: a, b)
  end.

(** [str::parse] of an unsigned integer of maximum [max]: an optional plus sign and at
    least one digit. *)
Fixpoint parse_digits (max acc : Z) (s : list Z) : option Z :=
  match s with
  | [] => Some acc
  | c :: s =>
      if (48 <=? c) && (c <=? 57)
      then let acc := 10 * acc + (c - 48) in if acc <=? max then parse_digits max acc s else None
      else None
  end.
Definition parse_uint (max : Z) (s : list Z) : option Z :=
  let s := match s with 43 :: s => s | _ => s end in
  match s with [] => None | _ => parse_digits max 0 s end.

Definition PREFIX : list Z := text "modbus-bits-v1:".
Definition compatibility_matches (request response : list Z) : bool :=
  if bool_decide (request = []) || bool_decide (response = []) then true
  else if negb (starts_with PREFIX request) && negb (starts_with PREFIX response)
  then bytes_eqb request response
  else
    match n ← strip_prefix (text "modbus-bits-v1:quantity:") request; parse_uint u16_max n with
    | None => false
    | Some q =>
        match body ← strip_prefix (text "modbus-bits-v1:response:") response; split_once 58 body with
        | None => false
        | Some (count, last) =>
            match parse_uint usize_max count, parse_uint u8_max last with
            | Some count, Some last =>
                if (q =? 0) || (2000 <? q) || negb (count =? div_ceil q 8) then false
                else (q mod 8 =? 0) || (Z.land last (as_unsigned 8 (Z.shiftl 0xff (q mod 8))) =? 0)
            | _, _ => false
            end
        end
    end.
