(* ===== verification/SemModbusFacts.v ===== *)
(** * The meaning of Modbus frames

    A grammar of the supported PDUs gives each its octets and its fields.  A report is
    complete exactly when the frame is the encoding of one of them for the role and the
    budgets last, and its records are the fields of that PDU. *)

From S2P Require Import Prelude Errors Stateful Json JsonFacts Provenance Modbus ModbusFacts Semantics SemanticsFacts SemModbus.

(** ** The grammar *)

Inductive Pdu : Type :=
| PException (function code : Z)
| PRead (function first count : Z)
| PBits (function : Z) (octets : list Z)
| PRegisters (function : Z) (values : list Z)
| PCoil (address : Z) (on : bool)
| PRegister (address value : Z)
| PEcho (function first count : Z)
| PWriteCoils (first count : Z) (octets : list Z)
| PWriteRegisters (first : Z) (values : list Z).

Abbreviation be2 := (to_be_bytes 2).
Definition words (vs : list Z) : list Z := concat (map be2 vs).

Definition pdu_bytes (p : Pdu) : list Z :=
  match p with
  | PException f c => [128 + f; c]
  | PRead f first count => f :: be2 first ++ be2 count
  | PBits f os => f :: zlen os :: os
  | PRegisters f vs => f :: 2 * zlen vs :: words vs
  | PCoil a on => 5 :: be2 a ++ be2 (if on then 0xff00 else 0)
  | PRegister a v => 6 :: be2 a ++ be2 v
  | PEcho f first count => f :: be2 first ++ be2 count
  | PWriteCoils first count os => 15 :: be2 first ++ be2 count ++ zlen os :: os
  | PWriteRegisters first vs => 16 :: be2 first ++ be2 (zlen vs) ++ 2 * zlen vs :: words vs
  end.

(** The address space of 65536 points holds the block. *)
Definition block_ok (first count max : Z) : Prop :=
  0 ≤ first ∧ 1 ≤ count ≤ max ∧ first + count ≤ 65536.
Definition u16_ok (v : Z) : Prop := 0 ≤ v < 65536.

(** The PDUs a client sends ([Request]) and those a server answers with. *)
Definition pdu_ok (role : Role) (p : Pdu) : Prop :=
  match p, role with
  | PException f c, Response => f ∈ [1; 2; 3; 4; 5; 6; 15; 16] ∧ c ∈ [1; 2; 3; 4; 5; 6; 8; 10; 11]
  | PRead f first count, Request =>
      f ∈ [1; 2] ∧ block_ok first count 2000 ∨ f ∈ [3; 4] ∧ block_ok first count 125
  | PBits f os, Response => f ∈ [1; 2] ∧ 1 ≤ zlen os ≤ 250 ∧ bytes_ok os
  | PRegisters f vs, Response => f ∈ [3; 4] ∧ 1 ≤ zlen vs ≤ 125 ∧ Forall u16_ok vs
  | PCoil a _, (Request | Response) => u16_ok a
  | PRegister a v, (Request | Response) => u16_ok a ∧ u16_ok v
  | PEcho f first count, Response =>
      f = 15 ∧ block_ok first count 1968 ∨ f = 16 ∧ block_ok first count 123
  | PWriteCoils first count os, Request =>
      block_ok first count 1968 ∧ zlen os = div_ceil count 8 ∧ bytes_ok os
  | PWriteRegisters first vs, Request => block_ok first (zlen vs) 123 ∧ Forall u16_ok vs
  | _, _ => False
  end.

(** A frame: transaction, protocol 0, length of the rest, unit, PDU. *)
Definition adu (tid unit_ : Z) (p : Pdu) : list Z :=
  be2 tid ++ [0; 0] ++ be2 (1 + zlen (pdu_bytes p)) ++ [unit_] ++ pdu_bytes p.
Definition adu_ok (tid unit_ : Z) : Prop := u16_ok tid ∧ 0 ≤ unit_ < 256.

(** ** The fields of a PDU *)

Definition block_fields (first count : Z) : list Field :=
  [num "starting_address_zero_based" first 8 10; num "quantity" count 10 12].
Definition register_records (at_ : Z) (first : option Z) (vs : list Z) : list SemRecord :=
  map (λ i, register_record (at_ + 2 * i) (nthz vs i) ((λ first, (first + i, (8, 10))) <$> first))
    (seqZ 0 (zlen vs)).
Definition octet_records (os : list Z) : list SemRecord :=
  map (λ i, octet_record (9 + i) (nthz os i)) (seqZ 0 (zlen os)).
Definition coil_records (first count : Z) (os : list Z) : list SemRecord :=
  map (λ i, coil_record first i (nthz os (i / 8))) (seqZ 0 count).

Definition pdu_records (role : Role) (p : Pdu) : list SemRecord :=
  match p with
  | PException _ c => [exception_record c]
  | PRead _ first count => [record_new "read_request" (8, 12) (block_fields first count)]
  | PBits _ os => record_new "read_response" (8, 9) [num "byte_count" (zlen os) 8 9] :: octet_records os
  | PRegisters _ vs =>
      record_new "read_response" (8, 9) [num "byte_count" (2 * zlen vs) 8 9] :: register_records 9 None vs
  | PCoil a on =>
      [record_new (if bool_decide (role = Request) then "write_request" else "write_echo_response") (8, 12)
         [num "address_zero_based" a 8 10; num "wire_value" (if on then 0xff00 else 0) 10 12;
          field_new "coil_value" (Boolean on) (10, 12)]]
  | PRegister a v =>
      [record_new (if bool_decide (role = Request) then "write_request" else "write_echo_response") (8, 12)
         [num "address_zero_based" a 8 10; num "wire_value" v 10 12]]
  | PEcho _ first count => [record_new "write_echo_response" (8, 12) (block_fields first count)]
  | PWriteCoils first count os =>
      record_new "write_multiple_request" (8, 13)
        (block_fields first count ++ [num "byte_count" (zlen os) 12 13]) :: coil_records first count os
  | PWriteRegisters first vs =>
      record_new "write_multiple_request" (8, 13)
        (block_fields first (zlen vs) ++ [num "byte_count" (2 * zlen vs) 12 13])
      :: register_records 13 (Some first) vs
  end.
Definition adu_records (role : Role) (tid unit_ : Z) (p : Pdu) : list SemRecord :=
  mbap_record tid (1 + zlen (pdu_bytes p)) unit_ (nthz (pdu_bytes p) 0) :: pdu_records role p.

(** What a complete report remarks. *)
Definition pdu_issues (p : Pdu) : list SemIssue :=
  match p with
  | PBits _ os =>
      [{| i_code := "requested_bit_count_and_addresses_require_request"; i_range := (9, 9 + zlen os) |}]
  | PWriteCoils _ count os =>
      if padding_is_zero count os then []
      else [{| i_code := "write_unused_bits_nonzero_recommendation";
               i_range := (12 + zlen os, 13 + zlen os) |}]
  | _ => []
  end.

(** ** Reading a PDU from a frame *)

Definition block_b (first count max : Z) : bool :=
  (1 <=? count) && (count <=? max) && (first + count <=? 65536).
Definition words_of (b : list Z) (at_ n : Z) : list Z := map (λ i, word b (at_ + 2 * i)) (seqZ 0 n).

(** The PDU of a frame whose header is in order. *)
Definition read_response_of (b : list Z) : option Pdu :=
  let f := nthz b 7 in
  let c := nthz b 8 in
  if (9 <=? zlen b) && (1 <=? c) && (c <=? 250) && (zlen b =? 9 + c) then
    if 3 <=? f then if c mod 2 =? 0 then Some (PRegisters f (words_of b 9 (c / 2))) else None
    else Some (PBits f (sub b 9 (zlen b)))
  else None.
Definition write_multiple_of (b : list Z) : option Pdu :=
  let f := nthz b 7 in
  let first := word b 8 in
  let count := word b 10 in
  let n := if f =? 15 then div_ceil count 8 else count * 2 in
  if (13 <=? zlen b) && block_b first count (if f =? 15 then 1968 else 123)
     && (nthz b 12 =? n) && (zlen b =? 13 + n)
  then Some (if f =? 15 then PWriteCoils first count (sub b 13 (zlen b))
             else PWriteRegisters first (words_of b 13 count))
  else None.
Definition function_of (role : Role) (b : list Z) : option Pdu :=
  let f := nthz b 7 in
  if in_list f [1; 2; 3; 4] then
    match role with
    | Request => if (zlen b =? 12) && block_b (word b 8) (word b 10) (if f <=? 2 then 2000 else 125)
                 then Some (PRead f (word b 8) (word b 10)) else None
    | Response => read_response_of b
    | RUnknown => None
    end
  else if in_list f [5; 6] then
    if zlen b =? 12 then
      if f =? 5 then
        if in_list (word b 10) [0; 0xff00] then Some (PCoil (word b 8) (word b 10 =? 0xff00)) else None
      else Some (PRegister (word b 8) (word b 10))
    else None
  else if in_list f [15; 16] then
    match role with
    | Response => if (zlen b =? 12) && block_b (word b 8) (word b 10) (if f =? 15 then 1968 else 123)
                  then Some (PEcho f (word b 8) (word b 10)) else None
    | Request => write_multiple_of b
    | RUnknown => None
    end
  else None.
Definition exception_of (role : Role) (b : list Z) : option Pdu :=
  if (zlen b =? 9) && bool_decide (role = Response) && in_list (nthz b 8) [1; 2; 3; 4; 5; 6; 8; 10; 11]
  then Some (PException (Z.land (nthz b 7) 0x7f) (nthz b 8)) else None.
Definition framed_b (b : list Z) : bool :=
  (8 <=? zlen b) && (word b 2 =? 0) && (2 <=? word b 4) && (word b 4 <=? 254) && (zlen b =? word b 4 + 6).
Definition pdu_of (role : Role) (b : list Z) : option Pdu :=
  if framed_b b && negb (bool_decide (role = RUnknown))
     && in_list (Z.land (nthz b 7) 0x7f) [1; 2; 3; 4; 5; 6; 15; 16]
  then if negb (Z.land (nthz b 7) 0x80 =? 0) then exception_of role b else function_of role b
  else None.

(** ** The decoder reads it *)

(** Issues added to a report. *)
Definition remark (r : Report) (iss : list SemIssue) : Report :=
  {| rp_source := rp_source r; rp_protocol := rp_protocol r; rp_context := rp_context r;
     rp_limits := rp_limits r; rp_status := rp_status r; consumed := consumed r; records := records r;
     issues := issues r ++ iss; rp_fields := rp_fields r; rp_spans := rp_spans r; rp_work := rp_work r |}.

Lemma remark_nil r : remark r [] = r.
Proof. destruct r. unfold remark. simpl. by rewrite app_nil_r. Qed.

Lemma with_issue_remark r c range :
  zlen (issues r) < sl_records (rp_limits r) →
  with_issue r c range = remark r [{| i_code := c; i_range := range |}].
Proof. intros H. unfold with_issue. by rewrite (proj2 (Z.ltb_lt _ _)). Qed.

Lemma uint_word b i : 0 ≤ i → i + 2 ≤ zlen b → uint b i 2 false = Ok (word b i).
Proof.
  intros Hi Hl. unfold uint. rewrite slice_ok, bind_Ok by lia. f_equal.
  assert (zlen (sub b i (i + 2)) = 2) as Hz by (rewrite zlen_sub; lia).
  pose proof (nthz_sub b i (i + 2) 0 Hi ltac:(lia)) as H0.
  pose proof (nthz_sub b i (i + 2) 1 Hi ltac:(lia)) as H1. rewrite Z.add_0_r in H0.
  destruct (sub b i (i + 2)) as [|x [|y [|z l]]]; unfold zlen in Hz; simpl in Hz; try lia.
  unfold word. rewrite <- H0, <- H1. unfold from_be_bytes, nthz. simpl. lia.
Qed.

Lemma wp_exact b n (Q : unit → Prop) (R : Error → Prop) :
  (zlen b = n → Q ()) → (zlen b ≠ n → R (SemModbus.invalid 0 "modbus_pdu_shape")) → wp (exact b n) Q R.
Proof. intros HQ HR. unfold exact. destruct (Z.eqb_spec (zlen b) n); simpl; auto. Qed.

Lemma wp_block b max (Q : Z * Z → Prop) (R : Error → Prop) :
  zlen b ≤ i64_max →
  (12 ≤ zlen b → block_b (word b 8) (word b 10) max = true → Q (word b 8, word b 10)) →
  (∀ e, 12 ≤ zlen b → block_b (word b 8) (word b 10) max = false → R e) →
  (∀ e, zlen b < 12 → R e) →
  bytes_ok b → wp (SemModbus.quantity b max) Q R.
Proof.
  intros Hl HQ HR1 HR2 Hb. unfold SemModbus.quantity. apply wp_bind, wp_need; [lia|lia|lia| |auto].
  intros H12. rewrite !uint_word, !bind_Ok by lia.
  pose proof (word_range b 10 Hb). unfold block_b in *.
  destruct (_ || _) eqn:Ht; [apply HR1|apply HQ]; try lia.
Qed.

Lemma wp_address_fields b max (Q : list Field → Prop) (R : Error → Prop) :
  zlen b ≤ i64_max →
  (12 ≤ zlen b → block_b (word b 8) (word b 10) max = true → Q (block_fields (word b 8) (word b 10))) →
  (∀ e, 12 ≤ zlen b → block_b (word b 8) (word b 10) max = false → R e) →
  (∀ e, zlen b < 12 → R e) →
  bytes_ok b → wp (address_fields b max) Q R.
Proof. intros. unfold address_fields. apply wp_bind, wp_block; auto. Qed.

(** The fields of a record, each in the frame. *)
Ltac each_field := repeat (apply Forall_cons; split; [unfold bit_ok; split_and!; simpl; done || lia|]); try done.

(** One step through the decoder. *)
Ltac swp_step :=
  lazymatch goal with
  | |- swp (mbind _ _) _ _ _ => apply swp_bind
  | |- swp (mret _) _ _ _ => apply swp_ret
  | |- swp (lift _) _ _ _ => apply swp_lift
  | |- swp (throw _) _ _ _ => apply swp_throw
  | |- swp (advance _) _ _ _ => apply swp_modify
  | |- swp get_state _ _ _ => apply swp_get
  | |- swp (if _ then _ else _) _ _ _ => apply swp_if; intros; bool_facts
  | |- swp (let _ := _ in _) _ _ _ => cbv zeta
  | |- wp (need _ _ _ _) _ _ => apply wp_need; [lia|lia|lia|intros|intros]
  | |- wp (uint _ _ 2 false) _ _ => rewrite uint_word by lia; apply wp_ok
  | |- _ => wp_step
  end.

Section decode.
Context (role : Role) (b : list Z) (source : EvidenceBytes) (l : SemLimits).
Context (Hsource : data source = b) (Hbytes : bytes_ok b) (Hlen : zlen b ≤ i64_max).

(** The report a decoder continues: well formed, without an issue so far. *)
Definition fresh (r : Report) : Prop :=
  report_ok r ∧ rp_source r = source ∧ rp_limits r = l ∧ issues r = [].

(** A part of the decoder reads the PDU [o] up to a position: it adds the records and issues of the PDU,
    or fails because there is none or they are not affordable. *)
Definition reads_to (at_ : Z → Prop) (m : Stateful Report unit) (o : option Pdu) : Prop :=
  ∀ r, fresh r →
  swp m r
    (λ s _, ∃ p c, o = Some p ∧ s = remark (grown r (pdu_records role p) c) (pdu_issues p) ∧
            report_ok s ∧ at_ c)
    (λ s e, reports l source s ∧
            (o = None ∨ ∃ p, o = Some p ∧ code e = LimitExceeded ∧ ¬ affordable l source (records r ++ pdu_records role p))).

Definition reads : Stateful Report unit → option Pdu → Prop := reads_to (λ c, 0 ≤ c ≤ zlen b).

Lemma record_ok_intro r :
  0 ≤ (r_range r).1 → (r_range r).1 ≤ (r_range r).2 → (r_range r).2 ≤ zlen b →
  Forall (λ f, 0 ≤ (f_range f).1 < (f_range f).2 ∧ (f_range f).2 ≤ zlen b ∧ bit_ok f) (r_fields r) →
  record_ok source r.
Proof using Hsource.
  intros H1 H2 H3 Hf. unfold record_ok, in_source, len. rewrite Hsource. split; [done|].
  eapply Forall_impl; [exact Hf|]. intros f ((? & ?) & ? & ?). unfold field_ok, in_source, len.
  rewrite Hsource. split_and!; lia || done.
Qed.

Lemma swp_add_fresh rec r Q R :
  fresh r → record_ok source rec →
  (report_ok (grown r [rec] (consumed r)) → Q (grown r [rec] (consumed r)) ()) →
  (∀ e, broke l source (records r ++ [rec]) r e → R r e) → swp (add rec) r Q R.
Proof.
  intros (Hok & Hs & Hl & _) Hrec HQ HR. apply swp_add; [done|by rewrite Hs|auto|].
  intros e He Hn. rewrite Hs, Hl in Hn. apply HR. by split_and!.
Qed.

Lemma fresh_reports r : fresh r → reports l source r.
Proof. intros (? & ? & ? & _). by split_and!. Qed.

Lemma fresh_grown r rs c : fresh r → report_ok (grown r rs c) → fresh (grown r rs c).
Proof. intros (_ & Hs & Hl & Hi) Hok. by split_and!. Qed.

Lemma grown_moved r rs c d :
  report_ok (grown r rs c) → rp_source r = source → 0 ≤ d ≤ zlen b → report_ok (grown r rs d).
Proof using Hsource. intros [] Hs Hd. constructor; simpl in *; try done. rewrite Hs. unfold len. by rewrite Hsource. Qed.

(** The loops over registers, response octets and coils. *)
Lemma swp_registers at_ n first range r :
  fresh r → consumed r = at_ → 0 ≤ n → 0 ≤ at_ → at_ + 2 * n ≤ zlen b →
  let rs := map (λ i, register_record (at_ + i * 2) (word b (at_ + i * 2)) ((λ first, (first + i, range)) <$> first))
              (seqZ 0 n) in
  (match first with Some _ => in_source source range ∧ range.1 < range.2 | None => True end) →
  swp (registers b at_ n first range) r
      (λ s _, s = grown r rs (at_ + n * 2) ∧ report_ok s) (broke l source (records r ++ rs)).
Proof using Hsource Hlen.
  intros (Hok & Hs & Hl & Hi) Hc Hn Ha Hb rs Hr. subst rs. rewrite <- Hl, <- Hs. unfold registers.
  apply (swp_fill _ (λ i, register_record (at_ + i * 2) (word b (at_ + i * 2)) _) (λ i, at_ + i * 2));
    [done|done|lia|].
  intros i s Hin Hsok Hss Hsl Hsc. unfold register_step. cbv zeta.
  repeat swp_step; [|lia].
  apply swp_add; [done| |intros _ Hok'|].
  - rewrite Hss, Hs. apply record_ok_intro; simpl; try lia.
    apply Forall_cons. split; [split_and!; simpl; done || lia|]. destruct first as [f|]; [|done]. apply Forall_cons. split; [|done].
    destruct Hr as [(? & ? & Hle) ?]. unfold len in Hle. rewrite Hsource in Hle. simpl. split_and!; done || lia.
  - repeat swp_step. rewrite with_consumed_grown. split; [f_equal; lia|].
    eapply grown_moved; [exact Hok'|by rewrite Hss|lia].
  - intros e He Hna. rewrite Hss, Hsl in Hna. by split_and!.
Qed.

Lemma swp_octets n r :
  fresh r → consumed r = 9 → 0 ≤ n → 9 + n ≤ zlen b →
  let rs := map (λ i, octet_record (9 + i) (nthz b (9 + i))) (seqZ 0 n) in
  swp (foldC (octet_step b) () (seqZ 0 n)) r
      (λ s _, s = grown r rs (9 + n) ∧ report_ok s) (broke l source (records r ++ rs)).
Proof using Hsource Hlen.
  intros (Hok & Hs & Hl & Hi) Hc Hn Hb rs. subst rs. rewrite <- Hl, <- Hs.
  apply (swp_fill _ (λ i, octet_record (9 + i) (nthz b (9 + i))) (λ i, 9 + i)); [done|done|lia|].
  intros i s Hin Hsok Hss Hsl Hsc. unfold octet_step. cbv zeta. repeat swp_step.
  apply swp_add; [done| |intros _ Hok'|].
  - rewrite Hss, Hs. apply record_ok_intro; simpl; try lia. each_field.
  - repeat swp_step. rewrite with_consumed_grown. split; [f_equal; lia|].
    eapply grown_moved; [exact Hok'|by rewrite Hss|lia].
  - intros e He Hna. rewrite Hss, Hsl in Hna. by split_and!.
Qed.

Lemma swp_coils first n r :
  fresh r → consumed r = 13 → 0 ≤ n → 13 + div_ceil n 8 ≤ zlen b →
  let rs := map (λ i, coil_record first i (nthz b (13 + i / 8))) (seqZ 0 n) in
  swp (foldC (coil_step b first) () (seqZ 0 n)) r
      (λ s _, s = grown r rs 13 ∧ report_ok s) (broke l source (records r ++ rs)).
Proof using Hsource Hlen.
  intros (Hok & Hs & Hl & Hi) Hc Hn Hb rs. subst rs. rewrite <- Hl, <- Hs.
  apply (swp_fill _ (λ i, coil_record first i (nthz b (13 + i / 8))) (λ _, 13)); [done|done|lia|].
  intros i s Hin Hsok Hss Hsl Hsc. unfold coil_step.
  assert (0 ≤ i / 8 ∧ i / 8 < div_ceil n 8) as [? ?] by (unfold div_ceil; dlia).
  repeat swp_step. apply swp_add; [done| |intros _ Hok'|].
  - rewrite Hss, Hs. apply record_ok_intro; simpl; try lia.
    pose proof (Z.mod_pos_bound i 8 ltac:(lia)). each_field.
  - split; [by rewrite Hsc|done].
  - intros e He Hna. rewrite Hss, Hsl in Hna. by split_and!.
Qed.
(** The parts of the decoder. *)

Lemma reads_advance m o k : 0 ≤ k ≤ zlen b → reads m o → reads_to (eq k) (m ;; advance k) o.
Proof using Hsource.
  intros Hk H r Hf. apply swp_bind. eapply swp_mono; [by apply H| |done].
  intros s [] (p & c & Ho & -> & Hok & Hc). apply swp_modify. exists p, k.
  split_and!; [done|done| |done].
  destruct Hf as (_ & Hs & _). destruct Hok. constructor; simpl in *; try done.
  rewrite Hs. unfold len. rewrite Hsource. lia.
Qed.

(** A PDU whose fields are one record. *)
Lemma reads_add rec p :
  record_ok source rec → pdu_records role p = [rec] → pdu_issues p = [] → reads (add rec) (Some p).
Proof using Hsource.
  intros Hrec Hp Hi r Hf. apply swp_add_fresh; [done|done|..].
  - intros Hok. exists p, (consumed r). rewrite Hp, Hi, remark_nil. split_and!; try done.
    all: pose proof (ro_consumed _ Hok) as Hc; simpl in Hc; destruct Hf as (_ & Hs & _);
      rewrite Hs in Hc; unfold len in Hc; rewrite Hsource in Hc; lia.
  - intros e (Hok & He & Hn). split; [done|]. right. exists p. by rewrite Hp.
Qed.

(** Nothing to read. *)
Lemma no_pdu r (P : Pdu → Prop) :
  fresh r → reports l source r ∧ (@None Pdu = None ∨ ∃ p, None = Some p ∧ P p).
Proof. intros Hf. split; [by apply fresh_reports|by left]. Qed.

Lemma reads_exception : reads_to (eq (zlen b)) (decode_exception b role) (exception_of role b).
Proof using Hsource Hlen.
  intros r Hf. unfold decode_exception, exception_of.
  apply swp_bind, swp_lift, wp_exact; [intros H9|intros Hn; rewrite (proj2 (Z.eqb_neq (zlen b) _)) by done; cbn [andb]; by apply no_pdu].
  rewrite (proj2 (Z.eqb_eq (zlen b) _)) by done. cbn [andb]. apply swp_bind, swp_lift, wp_idx; [lia|].
  destruct (bool_decide (role = Response) && in_list (nthz b 8) _) eqn:Hc.
  - apply andb_true_iff in Hc as [-> ->]. cbn [negb orb]. rewrite H9.
    apply (reads_advance (add _) (Some (PException (Z.land (nthz b 7) 0x7f) (nthz b 8)))); [lia| |done].
    apply reads_add; [|done|done]. apply record_ok_intro; simpl; try lia. each_field.
  - rewrite <- negb_andb, Hc. by apply no_pdu.
Qed.

Lemma reads_read_request :
  role = Request → in_list (nthz b 7) [1; 2; 3; 4] = true →
  reads (decode_read_request b (nthz b 7))
    (if (zlen b =? 12) && block_b (word b 8) (word b 10) (if nthz b 7 <=? 2 then 2000 else 125)
     then Some (PRead (nthz b 7) (word b 8) (word b 10)) else None).
Proof using Hsource Hlen Hbytes.
  intros Hr Hin r Hf. unfold decode_read_request.
  apply swp_bind, swp_lift, wp_exact; [intros H12|intros Hn; rewrite (proj2 (Z.eqb_neq (zlen b) _)) by done; cbn [andb]; by apply no_pdu].
  rewrite (proj2 (Z.eqb_eq (zlen b) _)) by done. cbn [andb].
  apply swp_bind, swp_lift, wp_address_fields; [done| | |lia|done].
  - intros _ ->. apply reads_add; [|done|done|done]. apply record_ok_intro; simpl; try lia. each_field.
  - intros e _ ->. by apply no_pdu.
Qed.

Lemma reads_write_echo :
  role = Response →
  reads (decode_write_echo b (nthz b 7))
    (if (zlen b =? 12) && block_b (word b 8) (word b 10) (if nthz b 7 =? 15 then 1968 else 123)
     then Some (PEcho (nthz b 7) (word b 8) (word b 10)) else None).
Proof using Hsource Hlen Hbytes.
  intros Hr r Hf. unfold decode_write_echo.
  apply swp_bind, swp_lift, wp_exact; [intros H12|intros Hn; rewrite (proj2 (Z.eqb_neq (zlen b) _)) by done; cbn [andb]; by apply no_pdu].
  rewrite (proj2 (Z.eqb_eq (zlen b) _)) by done. cbn [andb].
  apply swp_bind, swp_lift, wp_address_fields; [done| | |lia|done].
  - intros _ ->. apply reads_add; [|done|done|done]. apply record_ok_intro; simpl; try lia. each_field.
  - intros e _ ->. by apply no_pdu.
Qed.

Lemma reads_write_single :
  in_list (nthz b 7) [5; 6] = true →
  reads (decode_write_single b (nthz b 7) role)
    (if zlen b =? 12 then
       if nthz b 7 =? 5 then
         if in_list (word b 10) [0; 0xff00] then Some (PCoil (word b 8) (word b 10 =? 0xff00)) else None
       else Some (PRegister (word b 8) (word b 10))
     else None).
Proof using Hsource Hlen.
  intros Hin r Hf. unfold decode_write_single.
  apply swp_bind, swp_lift, wp_exact; [intros H12|intros Hn; rewrite (proj2 (Z.eqb_neq (zlen b) _)) by done; cbn [andb]; by apply no_pdu].
  rewrite (proj2 (Z.eqb_eq (zlen b) _)) by done. apply swp_bind, swp_lift. rewrite uint_word by lia. apply wp_ok.
  destruct (Z.eqb_spec (nthz b 7) 5) as [H5|H5]; cbn [andb].
  - destruct (in_list (word b 10) _) eqn:Hv; cbn [negb]; [|by apply no_pdu].
    apply swp_bind, swp_lift. rewrite uint_word by lia. apply wp_ok.
    apply reads_add; [|cbn [pdu_records app]|done|done].
    + apply record_ok_intro; simpl; try lia. each_field.
    + do 4 f_equal. cbn [in_list existsb] in Hv.
      destruct (Z.eqb_spec (word b 10) 0xff00) as [->|]; [done|]. do 2 f_equal. lia.
  - apply swp_bind, swp_lift. rewrite uint_word by lia. apply wp_ok.
    apply reads_add; [|done|done|done]. apply record_ok_intro; simpl; try lia. each_field.
Qed.
(** A PDU whose first record is followed by a loop. *)
Lemma reads_then rec k m p rs c :
  record_ok source rec → pdu_records role p = rec :: rs → 0 ≤ k ≤ zlen b → 0 ≤ c ≤ zlen b →
  (∀ r, fresh r → consumed r = k →
     swp m r (λ s _, s = remark (grown r rs c) (pdu_issues p) ∧ report_ok s) (broke l source (records r ++ rs))) →
  reads (add rec ;; advance k ;; m) (Some p).
Proof using Hsource.
  intros Hrec Hp Hk Hc Hm r Hf. apply swp_bind, swp_add_fresh; [done|done|..].
  - intros Hok. apply swp_bind, swp_modify. rewrite with_consumed_grown.
    assert (fresh (grown r [rec] k)) as Hf'.
    { apply fresh_grown; [done|]. eapply grown_moved; [exact Hok|apply Hf|done]. }
    eapply swp_mono; [by apply Hm|..].
    + intros s [] [-> Hs]. exists p, c. rewrite grown_grown in *. rewrite Hp. split_and!; done || lia.
    + intros s e (Hs & He & Hn). split; [done|]. right. exists p. split_and!; [done..|].
      simpl in Hn. rewrite <- app_assoc in Hn. by rewrite Hp.
  - intros e (Hs & He & Hn). split; [done|]. right. exists p. split_and!; [done..|]. rewrite Hp.
    intros Ha. apply Hn. change (rec :: rs) with ([rec] ++ rs) in Ha. rewrite app_assoc in Ha.
    by eapply affordable_prefix.
Qed.

Lemma zlen_words_of at_ n : 0 ≤ n → zlen (words_of b at_ n) = n.
Proof. intros. unfold words_of, zlen. rewrite length_map. by apply zlen_seqZ. Qed.

Lemma nthz_words_of at_ n i : 0 ≤ i < n → nthz (words_of b at_ n) i = word b (at_ + 2 * i).
Proof.
  intros Hi. apply nthz_lookup; [lia|]. unfold words_of. apply list_lookup_fmap_Some.
  exists i. split; [done|]. apply lookup_seqZ. lia.
Qed.

Lemma register_records_words at_ n first range :
  0 ≤ n → (first ≠ None → range = (8, 10)) →
  register_records at_ first (words_of b at_ n) =
    map (λ i, register_record (at_ + i * 2) (word b (at_ + i * 2)) ((λ first, (first + i, range)) <$> first)) (seqZ 0 n).
Proof.
  intros Hn Hr. unfold register_records. rewrite zlen_words_of by done.
  apply map_ext_in. intros i Hi%list_elem_of_In%elem_of_seqZ. rewrite nthz_words_of by lia.
  rewrite (Z.mul_comm 2). f_equal. destruct first; [|done]. by rewrite Hr.
Qed.

Lemma map_nthz_sub {B} (g : Z → Z → B) at_ n :
  0 ≤ at_ → 0 ≤ n → at_ + n ≤ zlen b →
  map (λ i, g i (nthz (sub b at_ (at_ + n)) i)) (seqZ 0 n) = map (λ i, g i (nthz b (at_ + i))) (seqZ 0 n).
Proof.
  intros. apply map_ext_in. intros i Hi%list_elem_of_In%elem_of_seqZ. by rewrite nthz_sub by lia.
Qed.

Lemma reads_read_response :
  in_list (nthz b 7) [1; 2; 3; 4] = true → 8 ≤ zlen b →
  reads (decode_read_response b (nthz b 7)) (read_response_of b).
Proof using Hsource Hlen Hbytes.
  intros Hin H8 r Hf. unfold decode_read_response, read_response_of.
  apply swp_bind, swp_lift, wp_need; [lia..| |].
  2: { intros H9. rewrite (proj2 (Z.leb_gt 9 _)) by lia. by apply no_pdu. }
  intros H9. rewrite (proj2 (Z.leb_le 9 _)) by lia. cbn [andb].
  apply swp_bind, swp_lift, wp_idx; [lia|]. set (c := nthz b 8).
  pose proof (nthz_byte b 8 Hbytes) as Hc. fold c in Hc.
  destruct (_ || _) eqn:Hbad.
  - assert ((if (1 <=? c) && (c <=? 250) && (zlen b =? 9 + c) then if 3 <=? nthz b 7 then if c mod 2 =? 0 then Some (PRegisters (nthz b 7) (words_of b 9 (c / 2))) else None else Some (PBits (nthz b 7) (sub b 9 (zlen b))) else None) = None) as ->; [|by apply no_pdu].
    destruct ((1 <=? c) && (c <=? 250) && (zlen b =? 9 + c)) eqn:Hgood; [|done]. bool_facts.
    destruct (Z.leb_spec 3 (nthz b 7)); [|exfalso; lia]. destruct (c mod 2 =? 0) eqn:?; [exfalso; simpl in *; lia|done].
  - repeat (apply orb_false_iff in Hbad as [Hbad ?]). bool_facts.
    rewrite (proj2 (Z.leb_le 1 c)), (proj2 (Z.leb_le c 250)), (proj2 (Z.eqb_eq (zlen b) _)) by lia. cbn [andb].
    destruct (Z.leb_spec 3 (nthz b 7)) as [H3|H3]; cbn [andb] in *; bool_facts.
    + rewrite (proj2 (Z.eqb_eq (c mod 2) 0)) by lia.
      assert (0 ≤ c / 2 ∧ 2 * (c / 2) = c) as [? Hhalf] by dlia.
      apply (reads_then _ 9 _ _ (register_records 9 None (words_of b 9 (c / 2))) (9 + c / 2 * 2)); try done; try lia.
      * apply record_ok_intro; simpl; try lia. each_field.
      * cbn [pdu_records]. rewrite zlen_words_of by lia. by rewrite Hhalf.
      * intros r' Hf' Hc'. rewrite (register_records_words 9 _ None (0, 0)) by done. cbn [pdu_issues].
        rewrite remark_nil. apply swp_registers; done || lia.
    + apply (reads_then _ 9 _ _ (octet_records (sub b 9 (zlen b))) (9 + c)); try done; try lia.
      * apply record_ok_intro; simpl; try lia. each_field.
      * cbn [pdu_records]. rewrite zlen_sub by lia. by replace (zlen b - 9) with c by lia.
      * intros r' Hf' Hc'. unfold octet_records. rewrite zlen_sub by lia.
        replace (zlen b) with (9 + c) by lia. replace (9 + c - 9) with c by lia.
        rewrite (map_nthz_sub (λ i o, octet_record (9 + i) o)) by lia.
        apply swp_bind. eapply swp_mono; [apply swp_octets; done || lia| |done].
        intros s [] [-> Hs]. apply swp_modify. cbn [pdu_issues].
        rewrite zlen_sub by lia. replace (9 + c - 9) with c by lia.
        assert (zlen (issues r') < sl_records (rp_limits r')) as Hi.
        { destruct Hf' as (Hok & _ & _ & ->). pose proof (report_ok_limits _ Hok). unfold zlen at 1. simpl. lia. }
        rewrite with_issue_remark by done. split; [done|]. rewrite <- with_issue_remark by done.
        apply with_issue_ok; [done|]. destruct Hf' as (_ & Hs' & _). unfold in_source. simpl. rewrite Hs'.
        unfold len. rewrite Hsource. lia.
Qed.
Lemma reads_write_multiple :
  in_list (nthz b 7) [15; 16] = true → role = Request → 8 ≤ zlen b →
  reads (decode_write_multiple b (nthz b 7)) (write_multiple_of b).
Proof using Hsource Hlen Hbytes.
  intros Hin Hrole H8 r Hf. unfold decode_write_multiple, write_multiple_of.
  apply swp_bind, swp_lift, wp_need; [lia..| |].
  2: { intros H13. rewrite (proj2 (Z.leb_gt 13 _)) by lia. by apply no_pdu. }
  intros H13. rewrite (proj2 (Z.leb_le 13 _)) by lia. cbn [andb].
  apply swp_bind, swp_lift, wp_block; [done| | |lia|done].
  2: { intros e _ ->. by apply no_pdu. }
  intros _ Hblock. pose proof Hblock as Hbl. unfold block_b in Hbl. bool_facts. rewrite Hblock. cbn [andb].
  set (first := word b 8) in *. set (count := word b 10) in *.
  set (n := if nthz b 7 =? 15 then div_ceil count 8 else count * 2) in *.
  apply swp_bind, swp_lift, wp_idx; [lia|].
  destruct (_ || _) eqn:Hbad.
  { rewrite <- negb_andb in Hbad. apply negb_true_iff in Hbad. fold n. rewrite Hbad. by apply no_pdu. }
  rewrite <- negb_andb in Hbad. apply negb_false_iff in Hbad. fold n. rewrite Hbad. bool_facts.
  pose proof (nthz_byte b 12 Hbytes).
  apply swp_bind, swp_lift, wp_address_fields; [done| |intros e _ Hno; fold first count in Hno; congruence|lia|done].
  intros _ _. fold first count. cbn [in_list existsb] in Hin.
  destruct (Z.eqb_spec (nthz b 7) 15) as [H15|H15].
  - rewrite (proj2 (Z.eqb_neq (nthz b 7) 16)) by lia.
    assert (0 ≤ n ∧ n = div_ceil count 8) as [Hn Hn'] by lia.
    apply (reads_then _ 13 _ _ (coil_records first count (sub b 13 (zlen b))) 13); try done; try lia.
    + apply record_ok_intro; simpl; try lia. each_field.
    + cbn [pdu_records]. rewrite zlen_sub by lia. by replace (zlen b - 13) with n by lia.
    + intros r' Hf' Hc'. cbn [pdu_issues]. unfold decode_coils. apply swp_bind, swp_get.
      assert (coil_records first count (sub b 13 (zlen b)) =
              map (λ i, coil_record first i (nthz b (13 + i / 8))) (seqZ 0 count)) as ->.
      { unfold coil_records. apply map_ext_in. intros i Hi%list_elem_of_In%elem_of_seqZ.
        assert (0 ≤ i / 8 < n) by (rewrite Hn'; unfold div_ceil; dlia). by rewrite nthz_sub by lia. }
      destruct (Z.ltb_spec (saturating_sub (sl_records (rp_limits r')) (zlen (records r'))) count) as [Hb|Hb].
      { apply swp_throw. destruct Hf' as (Hok & <- & <- & _). split; [done|]. split; [done|].
        intros (Hlim & _). rewrite zlen_app in Hlim. unfold zlen at 2 in Hlim.
        rewrite length_map, length_seqZ in Hlim. unfold saturating_sub in Hb. lia. }
      apply swp_bind. eapply swp_mono; [apply swp_coils; done || lia| |done].
      intros s [] [-> Hs]. apply swp_bind, swp_lift. unfold slice_from. rewrite slice_ok by lia. apply wp_ok.
      destruct (padding_is_zero count (sub b 13 (zlen b))); cbn [negb].
      { apply swp_ret. by rewrite remark_nil. }
      apply swp_modify. rewrite zlen_sub by lia.
      replace (12 + (zlen b - 13)) with (zlen b - 1) by lia. replace (13 + (zlen b - 13)) with (zlen b) by lia.
      assert (zlen (issues r') < sl_records (rp_limits r')) as Hi.
      { destruct Hf' as (Hok & _ & _ & ->). pose proof (report_ok_limits _ Hok). unfold zlen at 1. simpl. lia. }
      rewrite with_issue_remark by done. split; [done|]. rewrite <- with_issue_remark by done.
      apply with_issue_ok; [done|]. destruct Hf' as (_ & Hs' & _). unfold in_source. simpl. rewrite Hs'.
      unfold len. rewrite Hsource. lia.
  - rewrite (proj2 (Z.eqb_eq (nthz b 7) 16)) by lia.
    assert (0 ≤ n ∧ n = count * 2) as [Hn Hn'] by lia.
    apply (reads_then _ 13 _ _ (register_records 13 (Some first) (words_of b 13 count)) (13 + count * 2)); try done; try lia.
    + apply record_ok_intro; simpl; try lia. each_field.
    + cbn [pdu_records]. rewrite zlen_words_of by lia. by rewrite (Z.mul_comm 2), <- Hn'.
    + intros r' Hf' Hc'. rewrite (register_records_words 13 _ (Some first) (8, 10)) by (done || lia).
      cbn [pdu_issues]. rewrite remark_nil. apply swp_registers; try done; try lia.
      unfold in_source, len. rewrite Hsource. simpl. lia.
Qed.
Lemma reads_function :
  8 ≤ zlen b → reads_to (eq (zlen b)) (decode_function b (nthz b 7) role ;; advance (zlen b)) (function_of role b).
Proof using Hsource Hlen Hbytes.
  intros H8. apply reads_advance; [lia|]. unfold decode_function, function_of.
  destruct (in_list (nthz b 7) [1; 2; 3; 4]) eqn:H1.
  - destruct role eqn:Hr.
    + by apply reads_read_request.
    + by apply reads_read_response.
    + intros r Hf. by apply no_pdu.
  - destruct (in_list (nthz b 7) [5; 6]) eqn:H5; [by apply reads_write_single|].
    destruct (in_list (nthz b 7) [15; 16]) eqn:H15; [|intros r Hf; by apply no_pdu].
    destruct role eqn:Hr.
    + by apply reads_write_multiple.
    + by apply reads_write_echo.
    + intros r Hf. by apply no_pdu.
Qed.

Lemma swp_mbap r :
  fresh r →
  let m := mbap_record (word b 0) (word b 4) (nthz b 6) (nthz b 7) in
  swp (decode_mbap b) r
    (λ s f, framed_b b = true ∧ f = nthz b 7 ∧ s = grown r [m] 8 ∧ fresh s)
    (λ s e, reports l source s ∧ (framed_b b = false ∨ framed_b b = true ∧ broke l source (records r ++ [m]) s e)).
Proof using Hsource Hlen Hbytes.
  intros Hf m. unfold decode_mbap, framed_b. pose proof (fresh_reports _ Hf) as Hrep.
  apply swp_bind, swp_lift, wp_need; [lia..| |].
  2: { intros H8. rewrite (proj2 (Z.leb_gt 8 _)) by lia. by split; [|left]. }
  intros H8. rewrite (proj2 (Z.leb_le 8 _)) by lia. cbn [andb]. repeat swp_step.
  - split; [done|left]. destruct (word b 2 =? 0); [|done]. simpl in *. bool_facts. by rewrite H.
  - split; [done|left]. rewrite (proj2 (Z.eqb_neq (zlen b) _)) by lia. by rewrite andb_false_r.
  - split; [done|left]. rewrite (proj2 (Z.eqb_neq (zlen b) _)) by lia. by rewrite andb_false_r.
  - apply swp_add_fresh; [done| |intros Hg|intros e He].
    + apply record_ok_intro; simpl; try lia. each_field.
    + repeat swp_step. rewrite with_consumed_grown.
      split_and!; [bool_facts; lia|done|done|]. apply fresh_grown; [done|].
      eapply grown_moved; [exact Hg|apply Hf|lia].
    + split; [apply He|right]. split; [bool_facts; lia|done].
Qed.

(** [decode_body] adds the frame header and the PDU the frame holds. *)
Lemma swp_body r :
  fresh r →
  let m := mbap_record (word b 0) (word b 4) (nthz b 6) (nthz b 7) in
  swp (decode_body b role) r
    (λ s _, ∃ p, pdu_of role b = Some p ∧
            s = remark (grown r (m :: pdu_records role p) (zlen b)) (pdu_issues p) ∧ report_ok s)
    (λ s e, reports l source s ∧
            (pdu_of role b = None ∨ ∃ p, pdu_of role b = Some p ∧ code e = LimitExceeded ∧
                                       ¬ affordable l source (records r ++ m :: pdu_records role p))).
Proof using Hsource Hlen Hbytes.
  intros Hf m. unfold decode_body, pdu_of. apply swp_bind.
  eapply swp_mono; [by apply swp_mbap| |].
  2: { intros s e [Hs [->|[-> (_ & He & Hn)]]]; [by split; [|left]|]. split; [done|].
       destruct (_ && _); [|by left]. destruct (if _ : bool then _ else _) as [p|]; [right|by left].
       exists p. split_and!; [done..|]. intros Ha. apply Hn.
       change (m :: pdu_records role p) with ([m] ++ pdu_records role p) in Ha.
       rewrite app_assoc in Ha. by eapply affordable_prefix. }
  intros s f (Hfr & -> & -> & Hf'). rewrite Hfr. cbn [andb].
  assert (8 ≤ zlen b) as H8 by (unfold framed_b in Hfr; bool_facts; lia).
  destruct (bool_decide (role = RUnknown)); cbn [negb andb]; [by apply swp_throw, no_pdu|].
  destruct (in_list (Z.land (nthz b 7) 0x7f) _); cbn [negb]; [|by apply swp_throw, no_pdu].
  assert (∀ mm o, reads_to (eq (zlen b)) mm o →
    swp mm (grown r [m] 8)
      (λ s _, ∃ p, o = Some p ∧ s = remark (grown r (m :: pdu_records role p) (zlen b)) (pdu_issues p) ∧ report_ok s)
      (λ s e, reports l source s ∧ (o = None ∨ ∃ p, o = Some p ∧ code e = LimitExceeded ∧
                                       ¬ affordable l source (records r ++ m :: pdu_records role p)))) as Hcont.
  { intros mm o Hm. eapply swp_mono; [by apply Hm|..].
    - intros s [] (p & c & Ho & -> & Hs & <-). exists p. rewrite grown_grown in *. done.
    - intros s e (Hs & [Ho|(p & Ho & He & Hn)]); (split; [done|]); [by left|right]. exists p.
      split_and!; [done..|]. simpl in Hn. by rewrite <- app_assoc in Hn. }
  destruct (negb (Z.land (nthz b 7) 0x80 =? 0)).
  - apply Hcont, reads_exception.
  - by apply Hcont, reads_function.
Qed.
End decode.

(** ** Frames and the grammar *)

Lemma sub_head b i n : 0 ≤ i < n → n ≤ zlen b → sub b i n = nthz b i :: sub b (i + 1) n.
Proof. intros. rewrite (sub_split b i (i + 1) n), sub_one by lia. done. Qed.

Lemma be2_word b i : bytes_ok b → 0 ≤ i → i + 2 ≤ zlen b → be2 (word b i) = sub b i (i + 2).
Proof.
  intros Hb Hi Hl. rewrite !sub_head by lia. replace (i + 1 + 1) with (i + 2) by lia. rewrite sub_empty.
  pose proof (nthz_byte b i Hb). pose proof (nthz_byte b (i + 1) Hb).
  unfold word. cbn [to_be_bytes to_le_bytes rev app]. unfold to_be_bytes. cbn [to_le_bytes rev app].
  f_equal; [dlia|]. f_equal. dlia.
Qed.

Lemma words_words_of b at_ n :
  bytes_ok b → 0 ≤ at_ → at_ + 2 * Z.of_nat n ≤ zlen b →
  words (words_of b at_ (Z.of_nat n)) = sub b at_ (at_ + 2 * Z.of_nat n).
Proof.
  intros Hb. revert at_. induction n as [|n IH]; intros at_ Ha Hl.
  { rewrite Z.mul_0_r, Z.add_0_r, sub_empty. done. }
  unfold words_of. replace (Z.of_nat (S n)) with (1 + Z.of_nat n) in * by lia.
  rewrite seqZ_app by lia. cbn [map]. rewrite map_app. unfold words. rewrite map_app, concat_app.
  change (seqZ 0 1) with [0]. cbn [map concat]. rewrite app_nil_r, be2_word by (done || lia).
  rewrite (sub_split b at_ (at_ + 2)) by lia. f_equal; [f_equal; lia|].
  replace (at_ + 2 * (1 + Z.of_nat n)) with (at_ + 2 + 2 * Z.of_nat n) by lia.
  rewrite <- IH by lia. unfold words, words_of. do 2 f_equal.
  replace (0 + 1) with (1 + 0) by lia. rewrite <- fmap_add_seqZ.
  change (Z.add 1 <$> seqZ 0 (Z.of_nat n)) with (map (Z.add 1) (seqZ 0 (Z.of_nat n))). rewrite map_map.
  apply map_ext. intros i. f_equal. lia.
Qed.

Lemma words_of_u16 b at_ n : bytes_ok b → Forall u16_ok (words_of b at_ n).
Proof.
  intros Hb. apply Forall_forall. intros v Hv. apply list_elem_of_In, in_map_iff in Hv as (i & <- & _).
  by apply word_range.
Qed.

Section sound.
Context (b : list Z) (Hb : bytes_ok b) (Hlen : zlen b ≤ i64_max).

Lemma block_b_ok first count max : 0 ≤ first → block_b first count max = true → block_ok first count max.
Proof. intros. unfold block_b in *. bool_facts. unfold block_ok. lia. Qed.

Lemma in_list_elem f l : in_list f l = true → f ∈ l.
Proof.
  unfold in_list. intros (x & Hx & ->%Z.eqb_eq)%existsb_exists. by apply list_elem_of_In.
Qed.

(** The octets of a block, or of a register and its value. *)
Lemma four_bytes : 12 ≤ zlen b → be2 (word b 8) ++ be2 (word b 10) = sub b 8 12.
Proof using Hb. intros H. rewrite !be2_word by (done || lia). by rewrite <- sub_split by lia. Qed.

Ltac member := rewrite ?elem_of_cons; lia.

Lemma read_response_of_sound p :
  in_list (nthz b 7) [1; 2; 3; 4] = true → read_response_of b = Some p →
  pdu_ok Response p ∧ nthz b 7 :: sub b 8 (zlen b) = pdu_bytes p.
Proof using Hb.
  intros Hin. cbn [in_list existsb] in Hin. unfold read_response_of.
  destruct (_ && _) eqn:Hc; [|done]. bool_facts.
  rewrite (sub_head b 8) by lia. change (8 + 1) with 9. set (c := nthz b 8) in *.
  destruct (Z.leb_spec 3 (nthz b 7)) as [H3|H3].
  - destruct (Z.eqb_spec (c mod 2) 0) as [Heven|]; [|done]. intros [= <-]. cbn [pdu_ok pdu_bytes].
    assert (0 ≤ c / 2 ∧ 2 * (c / 2) = c) as [? Hhalf] by dlia.
    rewrite zlen_words_of, Hhalf by lia. split.
    + split_and!; [member|lia|lia|by apply words_of_u16].
    + do 2 f_equal. rewrite <- (Z2Nat.id (c / 2)) by lia. rewrite words_words_of by (done || lia).
      f_equal. lia.
  - intros [= <-]. cbn [pdu_ok pdu_bytes]. rewrite zlen_sub by lia.
    replace (zlen b - 9) with c by lia. split; [|done].
    split_and!; [member|lia|lia|by apply bytes_ok_sub].
Qed.

Lemma write_multiple_of_sound p :
  in_list (nthz b 7) [15; 16] = true → write_multiple_of b = Some p →
  pdu_ok Request p ∧ nthz b 7 :: sub b 8 (zlen b) = pdu_bytes p.
Proof using Hb.
  intros Hin. cbn [in_list existsb] in Hin. unfold write_multiple_of.
  destruct (_ && _) eqn:Hc; [|done]. intros [= <-]. bool_facts.
  match goal with H : block_b _ _ _ = true |- _ => apply block_b_ok in H as Hblock end.
  2: { by apply word_range. }
  rewrite (sub_split b 8 12) by lia. rewrite <- four_bytes by lia. rewrite <- app_assoc.
  rewrite (sub_head b 12) by lia. change (12 + 1) with 13.
  set (first := word b 8) in *. set (count := word b 10) in *.
  destruct (Z.eqb_spec (nthz b 7) 15) as [H15|H15]; cbn [pdu_ok pdu_bytes].
  - rewrite zlen_sub by lia. replace (zlen b - 13) with (nthz b 12) by lia. rewrite H15.
    split; [|done]. split_and!; [done|lia|by apply bytes_ok_sub].
  - destruct Hblock as (? & ? & ?). rewrite zlen_words_of by lia. replace (nthz b 7) with 16 by lia. split.
    + split; [by unfold block_ok|by apply words_of_u16].
    + replace (nthz b 12) with (2 * count) by lia. do 5 f_equal.
      pose proof (words_words_of b 13 (Z.to_nat count) Hb) as Hw. rewrite Z2Nat.id in Hw by lia.
      rewrite Hw by lia. f_equal. lia.
Qed.

Lemma function_of_sound role p :
  8 ≤ zlen b → role ≠ RUnknown → function_of role b = Some p →
  pdu_ok role p ∧ nthz b 7 :: sub b 8 (zlen b) = pdu_bytes p.
Proof using Hb.
  intros H8 Hrole. unfold function_of. pose proof (word_range b 8 Hb) as Hw8. pose proof (word_range b 10 Hb) as Hw10.
  destruct (in_list (nthz b 7) [1; 2; 3; 4]) eqn:Hf.
  - destruct role; [|by apply read_response_of_sound|done].
    destruct (_ && _) eqn:Hc; [|done]. intros [= <-]. bool_facts.
    match goal with H : block_b _ _ _ = true |- _ => apply block_b_ok in H; [|lia] end.
    replace (zlen b) with 12 by lia. cbn [pdu_ok pdu_bytes]. rewrite four_bytes by lia. split; [|done].
    cbn [in_list existsb] in Hf. destruct (Z.leb_spec (nthz b 7) 2); [left|right]; (split; [member|done]).
  - destruct (in_list (nthz b 7) [5; 6]) eqn:H56.
    + cbn [in_list existsb] in H56. destruct (Z.eqb_spec (zlen b) 12) as [H12|]; [|done]. rewrite H12.
      destruct (Z.eqb_spec (nthz b 7) 5) as [->|].
      * destruct (in_list (word b 10) _) eqn:Hv; [|done]. intros [= <-]. cbn [in_list existsb] in Hv.
        rewrite <- four_bytes by lia. cbn [pdu_ok pdu_bytes]. split; [by destruct role|].
        do 3 f_equal. destruct (Z.eqb_spec (word b 10) 0xff00); lia.
      * intros [= <-]. rewrite <- four_bytes by lia. cbn [pdu_ok pdu_bytes].
        replace (nthz b 7) with 6 by lia. split; [by destruct role|done].
    + destruct (in_list (nthz b 7) [15; 16]) eqn:H15; [|done].
      destruct role; [by apply write_multiple_of_sound| |done].
      destruct (_ && _) eqn:Hc; [|done]. intros [= <-]. bool_facts.
      match goal with H : block_b _ _ _ = true |- _ => apply block_b_ok in H; [|lia] end.
      replace (zlen b) with 12 by lia. cbn [pdu_ok pdu_bytes]. rewrite four_bytes by lia. split; [|done].
      cbn [in_list existsb] in H15. destruct (Z.eqb_spec (nthz b 7) 15); [left|right]; (split; [lia|done]).
Qed.
(** The function octet of an exception response. *)
Lemma exception_octet f : 0 ≤ f < 256 → Z.land f 0x80 ≠ 0 → 128 + Z.land f 0x7f = f.
Proof using.
  intros Hf. assert (Forall (λ f, (Z.land f 0x80 =? 0) || (128 + Z.land f 0x7f =? f) = true) (seqZ 0 256)) as Hall
    by (vm_compute; repeat constructor).
  rewrite Forall_forall in Hall. specialize (Hall f). rewrite elem_of_seqZ in Hall. specialize (Hall ltac:(lia)).
  intros Hn. apply orb_true_iff in Hall as [?|?]; lia.
Qed.

Lemma pdu_of_sound role p :
  pdu_of role b = Some p →
  adu_ok (word b 0) (nthz b 6) ∧ pdu_ok role p ∧ b = adu (word b 0) (nthz b 6) p ∧
  word b 4 = 1 + zlen (pdu_bytes p) ∧ nthz b 7 = nthz (pdu_bytes p) 0.
Proof using Hb Hlen.
  unfold pdu_of. destruct (framed_b b) eqn:Hfr; [|done]. unfold framed_b in Hfr. bool_facts. cbn [andb].
  destruct (bool_decide_reflect (role = RUnknown)) as [|Hrole]; [done|]. cbn [negb andb].
  destruct (in_list (Z.land (nthz b 7) 0x7f) _) eqn:Hf; [|done]. intros Hp.
  assert (pdu_ok role p ∧ nthz b 7 :: sub b 8 (zlen b) = pdu_bytes p) as [Hok Hbytes].
  { destruct (Z.eqb_spec (Z.land (nthz b 7) 0x80) 0) as [Hlow|Hhigh]; cbn [negb] in Hp.
    - apply function_of_sound; [lia|done|done].
    - unfold exception_of in Hp. destruct (_ && _) eqn:Hc; [|done]. injection Hp as <-. bool_facts.
      match goal with H : bool_decide _ = true |- _ => apply bool_decide_eq_true in H as -> end. cbn [pdu_ok pdu_bytes].
      split; [split; by apply in_list_elem|]. rewrite exception_octet by (done || by apply nthz_byte).
      rewrite sub_head by lia. replace (zlen b) with (8 + 1) by lia. by rewrite sub_empty. }
  pose proof (word_range b 0 Hb). pose proof (nthz_byte b 6 Hb).
  assert (word b 4 = 1 + zlen (pdu_bytes p)) as Hl.
  { rewrite <- Hbytes, zlen_cons, zlen_sub by lia. lia. }
  split; [done|]. split; [done|]. split_and!; [|done|by rewrite <- Hbytes].
  unfold adu. rewrite <- Hl, !be2_word by (done || lia).
  assert ([0; 0] = sub b 2 4) as ->.
  { change 4 with (2 + 2). rewrite <- (be2_word b 2) by (done || lia). by replace (word b 2) with 0 by lia. }
  rewrite <- Hbytes, <- (sub_one b 6) by lia. rewrite <- (sub_head b 7) by lia.
  rewrite <- !sub_split by lia. by rewrite sub_full.
Qed.
End sound.

(** Reading back an encoded frame. *)

Lemma be2_eq v : be2 v = [v / 256 mod 256; v mod 256].
Proof. done. Qed.

Lemma u16_split v : u16_ok v → 256 * (v / 256 mod 256) + v mod 256 = v.
Proof. unfold u16_ok. intros. dlia. Qed.

Lemma zlen_words vs : zlen (words vs) = 2 * zlen vs.
Proof.
  unfold words. induction vs as [|v vs IH]; [done|]. cbn [map concat].
  rewrite zlen_app, IH, zlen_cons, be2_eq. change (zlen [_; _]) with 2. lia.
Qed.

Lemma word_words vs i : Forall u16_ok vs → 0 ≤ i < zlen vs → word (words vs) (2 * i) = nthz vs i.
Proof.
  intros Hvs. revert i. induction Hvs as [|v vs Hv Hvs IH]; intros i Hi; [unfold zlen in Hi; simpl in Hi; lia|].
  unfold words. cbn [map concat]. rewrite be2_eq. cbn [app]. rewrite zlen_cons in Hi.
  destruct (decide (i = 0)) as [->|Hne].
  - unfold word. rewrite nthz_0. cbn [nthz]. by apply u16_split.
  - unfold word. rewrite !nthz_S by lia. replace (2 * i - 1 - 1) with (2 * (i - 1)) by lia.
    replace (2 * i + 1 - 1 - 1) with (2 * (i - 1) + 1) by lia. apply IH. lia.
Qed.

Lemma words_of_words pre vs :
  Forall u16_ok vs → words_of (pre ++ words vs) (zlen pre) (zlen vs) = vs.
Proof.
  intros Hvs. apply list_eq. intros i. destruct (decide (Z.of_nat i < zlen vs)) as [Hi|Hi].
  - unfold words_of. change (map ?f ?l) with (f <$> l). rewrite list_lookup_fmap.
    rewrite (lookup_seqZ_lt 0) by lia. simpl.
    rewrite <- (Nat2Z.id i) at 2. rewrite (lookup_nthz vs) by lia. f_equal.
    rewrite <- (word_words vs (Z.of_nat i)) by (done || lia). unfold word.
    rewrite !nthz_app_r by lia. f_equal; [|]; repeat f_equal; lia.
  - rewrite !lookup_ge_None_2; [done|..].
    + unfold zlen in Hi. lia.
    + unfold words_of. rewrite length_map, length_seqZ. unfold zlen in *. lia.
Qed.

Lemma words_ok vs : bytes_ok (words vs).
Proof.
  unfold words. induction vs as [|v vs IH]; [constructor|]. cbn [map concat].
  apply bytes_ok_app. split; [apply to_be_bytes_ok|done].
Qed.

Lemma pdu_bytes_size role p : pdu_ok role p → 2 ≤ zlen (pdu_bytes p) ≤ 253.
Proof.
  destruct p, role; cbn [pdu_ok pdu_bytes]; try done; intros H;
    rewrite ?zlen_app, ?zlen_cons, ?zlen_app, ?zlen_cons, ?zlen_words; unfold block_ok in *;
    try change (zlen (be2 _)) with 2; try change (zlen (@nil Z)) with 0; try lia.
  all: destruct H as ((? & ? & ?) & ? & _) || destruct H as ((? & ? & ?) & _); unfold div_ceil in *; dlia.
Qed.

Lemma sub_behind (pre l : list Z) n : n = zlen pre + zlen l → sub (pre ++ l) (zlen pre) n = l.
Proof. intros ->. rewrite sub_app_r, Z.sub_diag by lia. rewrite Z.add_simpl_l. apply sub_full. Qed.

Section complete.
Context (role : Role) (tid unit_ : Z) (Hadu : adu_ok tid unit_).

Ltac split_member H := rewrite ?elem_of_cons, elem_of_nil in H; destruct H as [H|H]; [|repeat destruct H as [H|H]; try done].

Lemma zlen_adu p : zlen (adu tid unit_ p) = 7 + zlen (pdu_bytes p).
Proof. unfold adu. rewrite !zlen_app, !be2_eq. change (zlen [_; _]) with 2. change (zlen [unit_]) with 1. lia. Qed.

Lemma adu_framed p : pdu_ok role p → framed_b (adu tid unit_ p) = true.
Proof.
  intros Hp. pose proof (pdu_bytes_size _ _ Hp). unfold framed_b. rewrite zlen_adu.
  assert (word (adu tid unit_ p) 2 = 0) as -> by done.
  assert (word (adu tid unit_ p) 4 = 1 + zlen (pdu_bytes p)) as ->.
  { apply (u16_split (1 + zlen (pdu_bytes p))). unfold u16_ok. lia. }
  lia.
Qed.

Lemma block_b_true first count max : block_ok first count max → block_b first count max = true.
Proof. unfold block_ok, block_b. lia. Qed.

(** The words and octets of the PDU, at their positions in the frame. *)
Lemma adu_octet p i : 0 ≤ i → nthz (adu tid unit_ p) (7 + i) = nthz (pdu_bytes p) i.
Proof.
  intros Hi. unfold adu. rewrite !be2_eq.
  change (nthz ([tid / 256 mod 256; tid mod 256; 0; 0; (1 + zlen (pdu_bytes p)) / 256 mod 256;
                 (1 + zlen (pdu_bytes p)) mod 256; unit_] ++ pdu_bytes p) (7 + i) = nthz (pdu_bytes p) i).
  rewrite nthz_app_r by (change (zlen _) with 7; lia). f_equal. change (zlen [_; _; _; _; _; _; _]) with 7. lia.
Qed.

Lemma adu_word p i : 0 ≤ i → word (adu tid unit_ p) (7 + i) = word (pdu_bytes p) i.
Proof. intros Hi. unfold word. by rewrite <- Z.add_assoc, !adu_octet by lia. Qed.

Lemma adu_sub p i : 0 ≤ i ≤ zlen (pdu_bytes p) →
  sub (adu tid unit_ p) (7 + i) (zlen (adu tid unit_ p)) = sub (pdu_bytes p) i (zlen (pdu_bytes p)).
Proof.
  intros Hi. rewrite zlen_adu. unfold adu. rewrite !be2_eq.
  change (sub ([tid / 256 mod 256; tid mod 256; 0; 0; (1 + zlen (pdu_bytes p)) / 256 mod 256;
                (1 + zlen (pdu_bytes p)) mod 256; unit_] ++ pdu_bytes p) (7 + i) (7 + zlen (pdu_bytes p)) =
          sub (pdu_bytes p) i (zlen (pdu_bytes p))).
  rewrite sub_app_r by (change (zlen [_; _; _; _; _; _; _]) with 7; lia).
  change (zlen [_; _; _; _; _; _; _]) with 7. f_equal; lia.
Qed.

Lemma adu_words p i n : 0 ≤ i → words_of (adu tid unit_ p) (7 + i) n = words_of (pdu_bytes p) i n.
Proof.
  intros Hi. unfold words_of. apply map_ext_in. intros k Hk%list_elem_of_In%elem_of_seqZ.
  rewrite <- Z.add_assoc. apply adu_word. lia.
Qed.

(** The four octets of a block behind the function. *)
Lemma block_words f x y tl : u16_ok x → u16_ok y →
  word (f :: be2 x ++ be2 y ++ tl) 1 = x ∧ word (f :: be2 x ++ be2 y ++ tl) 3 = y.
Proof. intros Hx Hy. rewrite !be2_eq. split; [by apply (u16_split x)|by apply (u16_split y)]. Qed.
Lemma zlen_block f x y tl : zlen (f :: be2 x ++ be2 y ++ tl) = 5 + zlen tl.
Proof. rewrite zlen_cons, !zlen_app, !be2_eq. change (zlen [_; _]) with 2. lia. Qed.

Lemma function_of_adu p :
  pdu_ok role p → (∀ f c, p ≠ PException f c) → function_of role (adu tid unit_ p) = Some p.
Proof.
  intros Hp Hne. unfold function_of, read_response_of, write_multiple_of.
  assert (nthz (adu tid unit_ p) 7 = nthz (pdu_bytes p) 0) as -> by (apply (adu_octet p 0); lia).
  assert (nthz (adu tid unit_ p) 8 = nthz (pdu_bytes p) 1) as -> by (apply (adu_octet p 1); lia).
  assert (nthz (adu tid unit_ p) 12 = nthz (pdu_bytes p) 5) as -> by (apply (adu_octet p 5); lia).
  assert (word (adu tid unit_ p) 8 = word (pdu_bytes p) 1) as -> by (apply (adu_word p 1); lia).
  assert (word (adu tid unit_ p) 10 = word (pdu_bytes p) 3) as -> by (apply (adu_word p 3); lia).
  assert (∀ n, words_of (adu tid unit_ p) 9 n = words_of (pdu_bytes p) 2 n) as Hw9 by (intros; apply (adu_words p 2); lia).
  assert (∀ n, words_of (adu tid unit_ p) 13 n = words_of (pdu_bytes p) 6 n) as Hw13 by (intros; apply (adu_words p 6); lia).
  rewrite ?Hw9, ?Hw13. rewrite !zlen_adu.
  pose proof (pdu_bytes_size _ _ Hp) as Hsize.
  destruct p as [f c|f first count|f os|f vs|a on|a v|f first count|first count os|first vs].
  - by destruct (Hne f c).
  - destruct role; try done. cbn [pdu_ok pdu_bytes] in *.
    destruct (block_words f first count []) as [H1 H2]; [unfold u16_ok, block_ok in *; lia..|].
    rewrite app_nil_r in H1, H2. rewrite H1, H2.
    pose proof (zlen_block f first count []) as Hz. rewrite app_nil_r in Hz. rewrite Hz. rewrite nthz_0.
    destruct Hp as [[Hf Hb]|[Hf Hb]]; apply block_b_true in Hb; rewrite !elem_of_cons, elem_of_nil in Hf;
      (transitivity (if block_b first count (if f <=? 2 then 2000 else 125) then Some (PRead f first count) else None);
       [destruct_or! Hf; subst f; reflexivity || done
       |destruct_or! Hf; subst f; try done; simpl; by rewrite Hb]).
  - destruct role; try done. cbn [pdu_ok pdu_bytes] in *. destruct Hp as (Hf & Hn & _).
    rewrite nthz_0. change (nthz (f :: zlen os :: os) 1) with (zlen os). rewrite !zlen_cons.
    assert (sub (adu tid unit_ (PBits f os)) 9 (7 + (1 + (1 + zlen os))) = os) as ->.
    { pose proof (adu_sub (PBits f os) 2) as Hs. change (7 + 2) with 9 in Hs. rewrite zlen_adu in Hs. cbn [pdu_bytes] in Hs.
      rewrite !zlen_cons in Hs. rewrite Hs by lia.
      apply (sub_behind [f; zlen os] os). change (zlen [f; _]) with 2. lia. }
    rewrite (proj2 (Z.leb_le 9 _)), (proj2 (Z.leb_le 1 _)), (proj2 (Z.leb_le _ 250)), (proj2 (Z.eqb_eq _ _)) by lia.
    rewrite !elem_of_cons, elem_of_nil in Hf. destruct_or! Hf; subst f; done.
  - destruct role; try done. cbn [pdu_ok pdu_bytes] in *. destruct Hp as (Hf & Hn & Hvs).
    rewrite nthz_0. change (nthz (f :: 2 * zlen vs :: words vs) 1) with (2 * zlen vs).
    rewrite !zlen_cons, zlen_words.
    rewrite (proj2 (Z.leb_le 9 _)), (proj2 (Z.leb_le 1 _)), (proj2 (Z.leb_le _ 250)), (proj2 (Z.eqb_eq _ (9 + _))) by lia.
    replace (2 * zlen vs mod 2) with 0 by dlia. replace (2 * zlen vs / 2) with (zlen vs) by dlia.
    pose proof (words_of_words [f; 2 * zlen vs] vs Hvs) as Hw.
    change ([f; 2 * zlen vs] ++ words vs) with (f :: 2 * zlen vs :: words vs) in Hw.
    change (zlen [f; 2 * zlen vs]) with 2 in Hw. rewrite Hw.
    rewrite !elem_of_cons, elem_of_nil in Hf. destruct_or! Hf; subst f; done.
  - cbn [pdu_ok pdu_bytes] in *.
    assert (u16_ok a) as Ha by (by destruct role).
    destruct (block_words 5 a (if on then 0xff00 else 0) []) as [H1 H2]; [done|by destruct on|].
    rewrite app_nil_r in H1, H2. rewrite H1, H2. destruct on, role; try done.
  - cbn [pdu_ok pdu_bytes] in *.
    assert (u16_ok a ∧ u16_ok v) as [Ha Hv] by (by destruct role).
    destruct (block_words 6 a v []) as [H1 H2]; [done|done|].
    rewrite app_nil_r in H1, H2. rewrite H1, H2. destruct role; done.
  - destruct role; try done. cbn [pdu_ok pdu_bytes] in *.
    destruct (block_words f first count []) as [H1 H2]; [unfold u16_ok, block_ok in *; lia..|].
    rewrite app_nil_r in H1, H2. rewrite H1, H2.
    destruct Hp as [[-> Hb]|[-> Hb]]; apply block_b_true in Hb.
    + transitivity (if block_b first count 1968 then Some (PEcho 15 first count) else None); [done|by rewrite Hb].
    + transitivity (if block_b first count 123 then Some (PEcho 16 first count) else None); [done|by rewrite Hb].
  - destruct role; try done. cbn [pdu_ok pdu_bytes] in *. destruct Hp as (Hb & Hn & _). pose proof (zlen_nonneg os).
    destruct (block_words 15 first count (zlen os :: os)) as [H1 H2]; [unfold u16_ok, block_ok in *; lia..|].
    rewrite H1, H2, zlen_block, zlen_cons. rewrite nthz_0.
    assert (nthz (15 :: be2 first ++ be2 count ++ zlen os :: os) 5 = zlen os) as -> by done.
    assert (sub (adu tid unit_ (PWriteCoils first count os)) 13 (7 + (5 + (1 + zlen os))) = os) as ->.
    { pose proof (adu_sub (PWriteCoils first count os) 6) as Hs. change (7 + 6) with 13 in Hs. rewrite zlen_adu in Hs. cbn [pdu_bytes] in Hs.
      rewrite zlen_block, zlen_cons in Hs. rewrite Hs by lia.
      apply (sub_behind (15 :: be2 first ++ be2 count ++ [zlen os]) os). change (zlen (15 :: _)) with 6. lia. }
    change (in_list 15 [1; 2; 3; 4]) with false. change (in_list 15 [5; 6]) with false.
    change (in_list 15 [15; 16]) with true. change (15 =? 15) with true. cbv iota.
    apply block_b_true in Hb as ->. rewrite <- Hn.
    rewrite (proj2 (Z.leb_le 13 _)), !(proj2 (Z.eqb_eq _ _)) by lia. done.
  - destruct role; try done. cbn [pdu_ok pdu_bytes] in *. destruct Hp as (Hb & Hvs).
    destruct (block_words 16 first (zlen vs) (2 * zlen vs :: words vs)) as [H1 H2]; [unfold u16_ok, block_ok in *; lia..|].
    rewrite H1, H2, zlen_block, zlen_cons, zlen_words. rewrite nthz_0.
    assert (nthz (16 :: be2 first ++ be2 (zlen vs) ++ 2 * zlen vs :: words vs) 5 = 2 * zlen vs) as -> by done.
    change (in_list 16 [1; 2; 3; 4]) with false. change (in_list 16 [5; 6]) with false.
    change (in_list 16 [15; 16]) with true. change (16 =? 15) with false. cbv iota.
    apply block_b_true in Hb as ->.
    pose proof (words_of_words (16 :: be2 first ++ be2 (zlen vs) ++ [2 * zlen vs]) vs Hvs) as Hw.
    rewrite !be2_eq in *. cbn [app] in *. change (zlen [_; _; _; _; _; _]) with 6 in Hw. rewrite Hw.
    pose proof (zlen_nonneg vs). rewrite (proj2 (Z.leb_le 13 _)), !(proj2 (Z.eqb_eq _ _)) by lia. done.
Qed.

Lemma pdu_of_adu p : pdu_ok role p → pdu_of role (adu tid unit_ p) = Some p.
Proof.
  intros Hp. unfold pdu_of. rewrite (adu_framed p Hp). cbn [andb].
  assert (role ≠ RUnknown) as Hr by (intros ->; by destruct p).
  rewrite bool_decide_eq_false_2 by done. cbn [negb andb].
  assert (nthz (adu tid unit_ p) 7 = nthz (pdu_bytes p) 0) as -> by (apply (adu_octet p 0); lia).
  assert ((∃ f c, p = PException f c) ∨ ¬ ∃ f c, p = PException f c) as [(f & c & ->)|Hne].
  { destruct p; try (by right; intros (? & ? & ?)). left. by do 2 eexists. }
  - destruct role; try done. destruct Hp as [Hf Hc]. unfold exception_of. rewrite zlen_adu.
    assert (nthz (adu tid unit_ (PException f c)) 7 = 128 + f) as -> by (apply (adu_octet (PException f c) 0); lia).
    assert (nthz (adu tid unit_ (PException f c)) 8 = c) as -> by (apply (adu_octet (PException f c) 1); lia).
    rewrite !elem_of_cons, elem_of_nil in Hf. rewrite !elem_of_cons, elem_of_nil in Hc.
    transitivity (if in_list c [1; 2; 3; 4; 5; 6; 8; 10; 11] then Some (PException f c) else None);
      [destruct_or! Hf; by subst f|]. destruct_or! Hc; by subst c.
  - rewrite function_of_adu by (done || intros f c ->; by destruct Hne; exists f, c).
    assert (Z.land (nthz (pdu_bytes p) 0) 0x80 = 0 ∧
            in_list (Z.land (nthz (pdu_bytes p) 0) 0x7f) [1; 2; 3; 4; 5; 6; 15; 16] = true) as [-> ->]; [|done].
    destruct p, role; cbn [pdu_ok pdu_bytes] in *; try done; try (by destruct Hne; do 2 eexists);
      rewrite nthz_0; rewrite ?elem_of_cons, ?elem_of_nil in Hp; naive_solver.
Qed.
End complete.

(** ** The report *)

(** The report of a frame that encodes a PDU, if its records are affordable. *)
Definition full_report (r : Report) (role : Role) (tid unit_ : Z) (p : Pdu) : Prop :=
  rp_status r = DecodedSubset ∧ records r = adu_records role tid unit_ p ∧ issues r = pdu_issues p ∧
  consumed r = len (rp_source r).

Lemma report_spec source role l :
  ev_ok source → sem_typed l →
  wp (SemModbus.decode source role l)
     (λ r, reports l source r ∧ input_fits l source ∧
           match pdu_of role (data source) with
           | Some p =>
               let rs := adu_records role (word (data source) 0) (nthz (data source) 6) p in
               full_report r role (word (data source) 0) (nthz (data source) 6) p ∧ affordable l source rs ∨
               rp_status r = Limited ∧ ¬ affordable l source rs
           | None => rp_status r ≠ DecodedSubset
           end)
     (λ e, report_error e ∧ ¬ input_fits l source).
Proof.
  intros Hs Hl. unfold SemModbus.decode. apply wp_bind.
  eapply wp_mono; [by apply report_new_spec| |done]. intros r (-> & Hok & Hfits).
  pose proof Hs as [(Hb & Hlen & _) _].
  assert (fresh source l (blank source "modbus" (role_str role) l)) as Hfresh by (by split_and!).
  pose proof (swp_body role (data source) source l eq_refl Hb Hlen _ Hfresh) as Hbody.
  unfold swp in Hbody. destruct (decode_body _ _ _) as [s o]. cbn [fst snd] in Hbody. cbv zeta in Hbody.
  assert (∀ p, pdu_of role (data source) = Some p →
            mbap_record (word (data source) 0) (word (data source) 4) (nthz (data source) 6) (nthz (data source) 7)
              :: pdu_records role p = adu_records role (word (data source) 0) (nthz (data source) 6) p) as Hrecs.
  { intros p Hp. pose proof (pdu_of_sound _ Hb Hlen _ _ Hp) as (_ & _ & _ & Hw & Hf).
    unfold adu_records. by rewrite Hw, Hf. }
  apply wp_bind, wp_catch. eapply wp_mono; [exact Hbody|..].
  - intros [] (p & Hp & -> & Hs'). apply wp_ok. rewrite Hp, <- (Hrecs p Hp). split; [by split_and!|].
    split; [done|]. left. split; [|apply (ro_afford _ Hs')].
    unfold full_report. rewrite <- (Hrecs p Hp). by split_and!.
  - intros e ((Hs' & Hsrc & Hlim) & Hcase). apply wp_ok.
    assert (reports l source (stop s e (consumed s))) as Hrep.
    { split; [by apply stop_ok; [|apply ro_consumed]|]. unfold stop, with_issue. by destruct (_ <? _). }
    split; [done|]. split; [done|]. destruct Hcase as [->|(p & Hp & He & Hn)]; [apply stop_not_decoded|].
    rewrite Hp, <- (Hrecs p Hp). right. split; [by apply stop_limited|done].
Qed.

(** *** The default budgets suffice *)

Lemma pdu_records_light role p :
  pdu_ok role p →
  ∃ r rs, pdu_records role p = r :: rs ∧ light 3 6 r ∧ Forall (light 2 4) rs ∧ zlen rs ≤ 1968.
Proof.
  assert (∀ at_ first vs, Forall (light 2 4) (register_records at_ first vs)) as Hreg.
  { intros. apply Forall_forall. intros x Hx. apply list_elem_of_In, in_map_iff in Hx as (i & <- & _).
    destruct first; (split; [done|]); (split; [simpl; lia|]); repeat constructor; simpl; lia. }
  assert (∀ at_ first vs, zlen (register_records at_ first vs) = zlen vs) as Hzr.
  { intros. unfold register_records, zlen. rewrite length_map, length_seqZ. lia. }
  assert (∀ os, Forall (light 2 4) (octet_records os) ∧ zlen (octet_records os) = zlen os) as Hoct.
  { intros. split; [|unfold octet_records, zlen; rewrite length_map, length_seqZ; lia].
    apply Forall_forall. intros x Hx. apply list_elem_of_In, in_map_iff in Hx as (i & <- & _).
    split; [done|]. split; [simpl; lia|]. repeat constructor; simpl; lia. }
  assert (∀ first count os, 0 ≤ count →
            Forall (light 2 4) (coil_records first count os) ∧ zlen (coil_records first count os) = count) as Hcoil.
  { intros. split; [|unfold coil_records, zlen; rewrite length_map, length_seqZ; lia].
    apply Forall_forall. intros x Hx. apply list_elem_of_In, in_map_iff in Hx as (i & <- & _).
    split; [done|]. split; [simpl; lia|]. repeat constructor; simpl; lia. }
  assert (zlen (@nil SemRecord) ≤ 1968) by done.
  destruct p, role; cbn [pdu_ok pdu_records]; try done; intros Hp; do 2 eexists; (split; [done|]);
    (split; [split; [done|]; split; [simpl; lia|]; repeat constructor; simpl; lia|]);
    unfold block_ok in *; try (split; [done || apply Hreg || apply Hoct|rewrite ?Hzr; try rewrite (proj2 (Hoct _)); lia]).
  destruct Hp as ((? & ? & ?) & _). destruct (Hcoil first count octets) as [? ->]; [lia|]. split; [done|lia].
Qed.

Lemma default_affordable role source tid unit_ p :
  ev_ok source → pdu_ok role p → data source = adu tid unit_ p →
  input_fits sem_default source ∧ affordable sem_default source (adu_records role tid unit_ p).
Proof.
  intros Hs Hp Hd. pose proof (spans_bound _ Hs) as Hsp.
  assert (len source ≤ 260) as Hlen.
  { unfold len. rewrite Hd, zlen_adu. pose proof (pdu_bytes_size _ _ Hp). lia. }
  pose proof (zlen_nonneg (spans source)).
  split; [split_and!; [done|simpl; lia..]|].
  destruct (pdu_records_light _ _ Hp) as (r & rs & Heq & Hr & Hrs & Hn).
  unfold adu_records. rewrite Heq. set (m := mbap_record _ _ _ _).
  destruct (light_bound 5 8 [m; r]) as (Hf1 & Hw1 & Hne1).
  { constructor; [|constructor; [|done]].
    - split; [done|]. split; [done|]. repeat constructor; simpl; lia.
    - destruct Hr as (? & ? & ?). split_and!; [lia|lia|done]. }
  destruct (light_bound 2 4 rs Hrs) as (Hf2 & Hw2 & Hne2).
  assert (span_cost source (fields_of ([m; r] ++ rs)) ≤ 16 + 4 * zlen rs) as Hcost.
  { etransitivity; [apply span_cost_width; [done|]|].
    - rewrite fields_of_app. by apply Forall_app.
    - rewrite fields_of_app, width_app. change (zlen [m; r]) with 2 in Hw1. lia. }
  change (m :: r :: rs) with ([m; r] ++ rs). unfold affordable.
  rewrite zlen_app. rewrite fields_of_app in *. rewrite zlen_app.
  change (zlen [m; r]) with 2 in *. simpl sl_records. simpl sl_fields. simpl sl_source_spans. simpl sl_work. lia.
Qed.

(** Complete reports are those of encoded PDUs. *)
Lemma decode_exact (source : EvidenceBytes) (role : Role) (l : SemLimits) :
  ev_ok source → sem_typed l →
  wp (SemModbus.decode source role l)
     (λ r, reports l source r ∧ input_fits l source ∧
           (rp_status r = DecodedSubset →
              ∃ tid unit_ p, adu_ok tid unit_ ∧ pdu_ok role p ∧ data source = adu tid unit_ p ∧
                             full_report r role tid unit_ p) ∧
           (∀ tid unit_ p, adu_ok tid unit_ → pdu_ok role p → data source = adu tid unit_ p →
              full_report r role tid unit_ p ∧ affordable l source (adu_records role tid unit_ p) ∨
              rp_status r = Limited ∧ ¬ affordable l source (adu_records role tid unit_ p)))
     (λ e, report_error e ∧ ¬ input_fits l source).
Proof.
  intros Hs Hl. pose proof Hs as [(Hb & Hlen & _) _].
  eapply wp_mono; [by apply report_spec| |done]. intros r (Hrep & Hfits & Hcase).
  split; [done|]. split; [done|]. split.
  - intros Hst. destruct (pdu_of role (data source)) as [p|] eqn:Hp; [|done].
    pose proof (pdu_of_sound _ Hb Hlen _ _ Hp) as (? & ? & ? & _).
    destruct Hcase as [[Hfull _]|[Hlim _]]; [|congruence]. by do 3 eexists.
  - intros tid unit_ p Ha Hp Hdata. rewrite Hdata, pdu_of_adu in Hcase by done.
    assert (word (adu tid unit_ p) 0 = tid) as Hw by apply (u16_split tid), Ha.
    assert (nthz (adu tid unit_ p) 6 = unit_) as Hu by done.
    by rewrite Hw, Hu in Hcase.
Qed.

(** C5: the report of a Modbus frame is exact.  [decode] returns a report unless the
    budgets do not admit the frame itself or are invalid.  The report is well formed:
    its records and issues lie in the frame and within the budgets.  It is complete
    exactly when the captured bytes are the encoding of a PDU of the grammar that the
    role may send and the fields of that PDU are affordable; its records are then those
    fields, with the ranges they are encoded at.  A frame that encodes a PDU is never
    reported as anything else than complete or over budget, and under the default
    budgets it is complete. *)
Theorem modbus_fields_exact (source : EvidenceBytes) (role : Role) (l : SemLimits) :
  ev_ok source → sem_typed l →
  wp (SemModbus.decode source role l)
     (λ r, reports l source r ∧ input_fits l source ∧
           (rp_status r = DecodedSubset →
              ∃ tid unit_ p, adu_ok tid unit_ ∧ pdu_ok role p ∧ data source = adu tid unit_ p ∧
                             full_report r role tid unit_ p) ∧
           (∀ tid unit_ p, adu_ok tid unit_ → pdu_ok role p → data source = adu tid unit_ p →
              full_report r role tid unit_ p ∧ affordable l source (adu_records role tid unit_ p) ∨
              rp_status r = Limited ∧ ¬ affordable l source (adu_records role tid unit_ p)))
     (λ e, report_error e ∧ ¬ input_fits l source) ∧
  (∀ tid unit_ p, adu_ok tid unit_ → pdu_ok role p → data source = adu tid unit_ p →
     ∃ r, SemModbus.decode source role sem_default = Ok r ∧ full_report r role tid unit_ p).
Proof.
  intros Hs Hl.
  split; [by apply decode_exact|]. intros tid unit_ p Ha Hp Hd.
  destruct (default_affordable _ _ _ _ _ Hs Hp Hd) as [Hfit Hafford].
  assert (sem_typed sem_default) as Ht by (repeat constructor; simpl; lia).
  pose proof (decode_exact source role _ Hs Ht) as Hgen. destruct (SemModbus.decode source role sem_default) as [r|e| |]; try done.
  - exists r. split; [done|]. destruct Hgen as (_ & _ & _ & Hc).
    destruct (Hc tid unit_ p Ha Hp Hd) as [[Hfull _]|[_ Hn]]; [done|]. by destruct Hn.
  - destruct Hgen as [_ Hn]. by destruct Hn.
Qed.

(** ** Pairs *)

(** The response answers the request. *)
Definition pairs (p q : Pdu) : Prop :=
  match p, q with
  | _, PException f _ => f = nthz (pdu_bytes p) 0
  | PRead f _ count, PBits g os =>
      f = g ∧ zlen os = div_ceil count 8 ∧ ∀ i, count ≤ i < 8 * zlen os → bit_at os i = false
  | PRead f _ count, PRegisters g vs => f = g ∧ zlen vs = count
  | PCoil a on, PCoil a' on' => a = a' ∧ on = on'
  | PRegister a v, PRegister a' v' => a = a' ∧ v = v'
  | PWriteCoils first count _, PEcho g first' count' => g = 15 ∧ first = first' ∧ count = count'
  | PWriteRegisters first vs, PEcho g first' count' => g = 16 ∧ first = first' ∧ zlen vs = count'
  | _, _ => False
  end.

Lemma be2_inj x y : u16_ok x → u16_ok y → be2 x = be2 y → x = y.
Proof. intros Hx Hy Heq. rewrite !be2_eq in Heq. injection Heq as Hhi Hlo. rewrite <- (u16_split x), <- (u16_split y) by done. lia. Qed.

Lemma block_octets f x y tl : sub (f :: be2 x ++ be2 y ++ tl) 1 5 = be2 x ++ be2 y.
Proof. rewrite !be2_eq. done. Qed.

(** A write and its echo agree on their four octets. *)
Lemma block_echo f x y tl g x' y' tl' :
  u16_ok x → u16_ok y → u16_ok x' → u16_ok y' →
  sub (g :: be2 x' ++ be2 y' ++ tl') 1 5 = sub (f :: be2 x ++ be2 y ++ tl) 1 5 → x = x' ∧ y = y'.
Proof.
  intros ???? H. rewrite !block_octets in H. apply app_inj_1 in H as [Hx Hy]; [|by rewrite !length_to_be_bytes].
  split; symmetry; by apply be2_inj.
Qed.

Lemma adu_block tid unit_ p i j :
  0 ≤ i → i ≤ j → j ≤ zlen (pdu_bytes p) → sub (adu tid unit_ p) (7 + i) (7 + j) = sub (pdu_bytes p) i j.
Proof.
  intros Hi Hij Hj. pose proof (adu_sub tid unit_ p 0 ltac:(lia)) as Hs. rewrite sub_full in Hs. rewrite <- Hs.
  rewrite sub_sub; [f_equal; lia|..]; rewrite ?zlen_adu; lia.
Qed.

(** What the function of a request tells. *)
Lemma request_function p :
  pdu_ok Request p →
  match nthz (pdu_bytes p) 0 with
  | 1 | 2 | 3 | 4 => ∃ first count, p = PRead (nthz (pdu_bytes p) 0) first count ∧ u16_ok first ∧ u16_ok count
  | 5 => ∃ a on, p = PCoil a on ∧ u16_ok a
  | 6 => ∃ a v, p = PRegister a v ∧ u16_ok a ∧ u16_ok v
  | 15 => ∃ first count os, p = PWriteCoils first count os ∧ u16_ok first ∧ u16_ok count
  | 16 => ∃ first vs, p = PWriteRegisters first vs ∧ u16_ok first ∧ u16_ok (zlen vs)
  | _ => True
  end.
Proof.
  unfold u16_ok. destruct p as [f c|f first count|f os|f vs|a on|a v|f first count|first count os|first vs]; try done;
    cbn [pdu_ok pdu_bytes]; rewrite nthz_0; unfold block_ok; intros Hp.
  - destruct Hp as [[Hf Hb]|[Hf Hb]]; rewrite !elem_of_cons, elem_of_nil in Hf; destruct_or! Hf; subst f; try done;
      do 2 eexists; (split; [done|lia]).
  - by do 2 eexists.
  - by do 2 eexists.
  - do 3 eexists. split; [done|lia].
  - do 2 eexists. split; [done|lia].
Qed.

Section pair.
Context (tid unit_ tid' unit' : Z) (p q : Pdu).
Context (Hp : pdu_ok Request p) (Hq : pdu_ok Response q).
Let req := adu tid unit_ p.
Let rsp := adu tid' unit' q.
Let fp := nthz (pdu_bytes p) 0.

(** The last part of [answers], for a response that is not an exception. *)
Definition data_answers : Prop :=
  if in_list fp [1; 2] then
    nthz rsp 8 = div_ceil (word req 10) 8 ∧ zlen rsp = 9 + nthz rsp 8 ∧
    ∀ i, word req 10 ≤ i < 8 * nthz rsp 8 → bit_at (sub rsp 9 (zlen rsp)) i = false
  else if in_list fp [3; 4] then nthz rsp 8 = 2 * word req 10 ∧ zlen rsp = 9 + nthz rsp 8
  else sub rsp 8 12 = sub req 8 12.

Lemma read_count f first count : p = PRead f first count → u16_ok first → u16_ok count → word req 10 = count.
Proof.
  intros Heq Hf Hc. subst req. pose proof (adu_word tid unit_ p 3 ltac:(lia)) as Hw. change (7 + 3) with 10 in Hw.
  rewrite Hw, Heq. cbn [pdu_bytes]. pose proof (proj2 (block_words f first count [] Hf Hc)) as Hx.
  by rewrite app_nil_r in Hx.
Qed.

Lemma echo_octets : 5 ≤ zlen (pdu_bytes p) → 5 ≤ zlen (pdu_bytes q) →
  sub rsp 8 12 = sub req 8 12 → sub (pdu_bytes q) 1 5 = sub (pdu_bytes p) 1 5.
Proof.
  intros H1 H2 Heq. subst req rsp.
  pose proof (adu_block tid unit_ p 1 5) as Ha. pose proof (adu_block tid' unit' q 1 5) as Hb.
  change (7 + 1) with 8 in *. change (7 + 5) with 12 in *. rewrite <- Ha, <- Hb by lia. done.
Qed.

Lemma data_pairs :
  (∀ f c, q ≠ PException f c) → nthz (pdu_bytes q) 0 = fp → data_answers → pairs p q.
Proof.
  intros Hne Hf Hans. pose proof echo_octets as Hecho. pose proof read_count as Hcount. pose proof (request_function p Hp) as Hreq. fold fp in Hreq.
  unfold data_answers in Hans. rewrite <- Hf in Hreq, Hans.
  assert (nthz rsp 8 = nthz (pdu_bytes q) 1) as H8 by (apply (adu_octet tid' unit' q 1); lia).
  assert (zlen rsp = 7 + zlen (pdu_bytes q)) as Hz by apply zlen_adu.
  assert (sub rsp 9 (zlen rsp) = sub (pdu_bytes q) 2 (zlen (pdu_bytes q))) as H9.
  { apply (adu_sub tid' unit' q 2). pose proof (pdu_bytes_size _ _ Hq). lia. }
  rewrite H9, H8, Hz in Hans. clear H8 H9 Hz. clearbody req rsp fp.
  destruct q as [f c|?|g os|g vs|a' on'|a' v'|g first' count'|?|?]; try done; cbn [pdu_ok pdu_bytes] in *;
    rewrite nthz_0 in *.
  - by destruct (Hne f c).
  - destruct Hq as (Hg & Hn & _). rewrite !elem_of_cons, elem_of_nil in Hg.
    destruct_or! Hg; subst g; try done; destruct Hreq as (first & count & Heq & ? & ?);
      rewrite (Hcount _ _ _ Heq) in Hans by done; rewrite Heq; cbn [pairs]; destruct Hans as (Hc & _ & Hbits);
      (split; [done|]); change (nthz (?x :: ?y :: os) 1) with y in *;
      change (sub (?x :: zlen os :: os) 2 ?n) with (sub ([x; zlen os] ++ os) (zlen [x; zlen os]) n) in Hbits;
      rewrite sub_behind in Hbits by (rewrite !zlen_cons; change (zlen (@nil Z)) with 0; lia); by split.
  - destruct Hq as (Hg & Hn & _). rewrite !elem_of_cons, elem_of_nil in Hg.
    destruct_or! Hg; subst g; try done; destruct Hreq as (first & count & Heq & ? & ?);
      rewrite (Hcount _ _ _ Heq) in Hans by done; rewrite Heq; cbn [pairs];
      change (nthz (?x :: ?y :: words vs) 1) with y in *; (split; [done|]); change (in_list _ [1; 2]) with false in Hans;
      change (in_list _ [3; 4]) with true in Hans; cbv iota in Hans; lia.
  - destruct Hreq as (a & on & Heq & Ha). apply Hecho in Hans; [|by rewrite Heq|done].
    rewrite Heq in Hans |- *. cbn [pairs pdu_bytes] in *.
    rewrite <- (app_nil_r (be2 (if on' then _ else _))), <- (app_nil_r (be2 (if on then _ else _))) in Hans.
    apply block_echo in Hans as [-> Hv]; [|done|by destruct on|done|by destruct on']. split; [done|].
    by destruct on, on'.
  - destruct Hq as [? ?]. destruct Hreq as (a & v & Heq & ? & ?). apply Hecho in Hans; [|by rewrite Heq|done].
    rewrite Heq in Hans |- *. cbn [pairs pdu_bytes] in *.
    rewrite <- (app_nil_r (be2 v')), <- (app_nil_r (be2 v)) in Hans.
    by apply block_echo in Hans as [-> ->].
  - assert (u16_ok first' ∧ u16_ok count') as [? ?] by (unfold block_ok, u16_ok in *; lia).
    destruct Hq as [[-> _]|[-> _]].
    + destruct Hreq as (first & count & os & Heq & ? & ?). apply Hecho in Hans; [| |done].
      * rewrite Heq in Hans |- *. cbn [pairs pdu_bytes] in *.
        rewrite <- (app_nil_r (be2 count')) in Hans. by apply block_echo in Hans as [-> ->].
      * rewrite Heq. cbn [pdu_bytes]. rewrite zlen_block. pose proof (zlen_nonneg (zlen os :: os)). lia.
    + destruct Hreq as (first & vs & Heq & ? & ?). apply Hecho in Hans; [| |done].
      * rewrite Heq in Hans |- *. cbn [pairs pdu_bytes] in *.
        rewrite <- (app_nil_r (be2 count')) in Hans. by apply block_echo in Hans as [-> ->].
      * rewrite Heq. cbn [pdu_bytes]. rewrite zlen_block. pose proof (zlen_nonneg (2 * zlen vs :: words vs)). lia.
Qed.
End pair.

Lemma answers_pairs tid unit_ p tid' unit' q :
  adu_ok tid unit_ → adu_ok tid' unit' → pdu_ok Request p → pdu_ok Response q →
  answers (adu tid unit_ p) (adu tid' unit' q) → tid = tid' ∧ unit_ = unit' ∧ pairs p q.
Proof.
  intros [Ht Hu] [Ht' Hu'] Hp Hq (_ & _ & Htid & Hunit & Hf & _ & Hrest).
  assert (∀ t u x, u16_ok t → word (adu t u x) 0 = t) as Hw by (intros; by apply u16_split).
  rewrite !Hw in Htid by done.
  change (nthz (adu tid' unit' q) 6) with unit' in Hunit. change (nthz (adu tid unit_ p) 6) with unit_ in Hunit.
  split; [done|]. split; [done|].
  assert (∀ t u x, nthz (adu t u x) 7 = nthz (pdu_bytes x) 0) as Hfun by (intros; apply (adu_octet t u x 0); lia).
  rewrite !Hfun in Hf, Hrest.
  assert ((∃ f c, q = PException f c) ∨ (∀ f c, q ≠ PException f c)) as [(f & c & ->)|Hne].
  { destruct q; try (by right). left. by do 2 eexists. }
  - destruct Hq as [Hq _]. cbn [pdu_bytes] in Hf. rewrite nthz_0 in Hf.
    assert (Z.land (128 + f) 0x7f = f) as Hmask
      by (rewrite !elem_of_cons, elem_of_nil in Hq; destruct_or! Hq; by subst f).
    destruct p; cbn [pairs]; congruence || done.
  - assert (Z.land (nthz (pdu_bytes q) 0) 0x7f = nthz (pdu_bytes q) 0 ∧ Z.land (nthz (pdu_bytes q) 0) 0x80 = 0)
      as [Hmask Hlow].
    { clear -Hq Hne. destruct q; cbn [pdu_ok pdu_bytes] in *; try done; try (by destruct (Hne function code));
        rewrite nthz_0; rewrite ?elem_of_cons, ?elem_of_nil in Hq; naive_solver. }
    rewrite Hmask in Hf. rewrite Hlow in Hrest.
    by apply (data_pairs tid unit_ tid' unit' p q Hp Hq Hne Hf).
Qed.

(** C26: a checked pair is a request and its answer.  [check_pair] returns, or fails
    only where one of the frames is over budget; it calls a pair consistent only if the
    captured bytes of the two messages encode a request PDU and a response PDU with the
    same transaction and unit, and the response is an exception to that function, the
    data asked for (as many registers, or bits with zero padding), or the echo of the
    write. *)
Theorem check_pair_sound (request response : ModbusMessage) (l : SemLimits) :
  ev_ok (m_raw request) → ev_ok (m_raw response) → sem_typed l →
  wp (check_pair request response l)
     (λ s, s = ConsistentWithinSubset →
        ∃ tid unit_ p q, pdu_ok Request p ∧ pdu_ok Response q ∧ pairs p q ∧
          data (m_raw request) = adu tid unit_ p ∧ data (m_raw response) = adu tid unit_ q)
     report_error.
Proof.
  intros Hq Hr Hl. unfold check_pair. apply wp_bind.
  eapply wp_mono; [by apply (decode_exact (m_raw request) Request l)| |by intros e [? _]].
  intros a (_ & _ & Ha & _). apply wp_bind.
  eapply wp_mono; [by apply (decode_exact (m_raw response) Response l)| |by intros e [? _]].
  intros b (_ & _ & Hb & _). destruct (_ || _); [done|].
  destruct (bool_decide_reflect (rp_status a = DecodedSubset)) as [Hsa|]; [|done].
  destruct (bool_decide_reflect (rp_status b = DecodedSubset)) as [Hsb|]; [|done]. cbn [negb orb].
  pose proof Hq as [(Hqb & _) _]. pose proof Hr as [(Hrb & _) _].
  apply wp_bind. eapply wp_mono; [by apply response_spec| |done].
  intros [] Hm; [|done]. apply wp_ok. intros _. specialize (Hm eq_refl).
  destruct (Ha Hsa) as (tid & unit_ & p & Hadu & Hp & Hd & _).
  destruct (Hb Hsb) as (tid' & unit' & q & Hadu' & Hpq & Hd' & _).
  rewrite Hd, Hd' in Hm. destruct (answers_pairs _ _ _ _ _ _ Hadu Hadu' Hp Hpq Hm) as (-> & -> & Hpair).
  exists tid', unit', p, q. by split_and!.
Qed.

(** ** Tokens *)

Lemma parse_digits_value mx ds acc :
  Forall (λ d, is_digit d = true) ds → 0 ≤ acc →
  foldl (λ v d, v * 10 + (d - 48)) acc ds ≤ mx →
  parse_digits mx acc ds = Some (foldl (λ v d, v * 10 + (d - 48)) acc ds) ∧
  acc ≤ foldl (λ v d, v * 10 + (d - 48)) acc ds.
Proof.
  intros Hds. revert acc. induction Hds as [|d ds Hd Hds IH]; intros acc Ha Hm; [done|].
  cbn [foldl parse_digits] in *. unfold is_digit in Hd. rewrite Hd. bool_facts.
  destruct (IH (acc * 10 + (d - 48))) as [Hp Hle]; [lia|done|].
  replace (10 * acc + (d - 48)) with (acc * 10 + (d - 48)) by lia.
  rewrite (proj2 (Z.leb_le _ _)) by lia. split; [done|lia].
Qed.

Lemma parse_decimal mx n : 0 ≤ n ≤ mx → mx ≤ u64_max → parse_uint mx (decimal n) = Some n.
Proof.
  intros Hn Hmx. destruct (decimal_spec n) as (Hne & Hds & Hv & _); [lia|]. unfold parse_uint.
  destruct (parse_digits_value mx (decimal n) 0 Hds) as [Hp _]; [done|fold (value (decimal n)); lia|].
  fold (value (decimal n)) in Hp. rewrite Hv in Hp. destruct (decimal n) as [|d ds]; [done|].
  apply Forall_cons in Hds as [Hd _]. unfold is_digit in Hd.
  assert (match d :: ds with 43 :: s => s | _ => d :: ds end = d :: ds) as ->; [|done].
  destruct (Z.eqb_spec d 43) as [->|]; [done|]. repeat (destruct d as [|d|d]; try done).
Qed.

Lemma strip_prefix_app p s : strip_prefix p (p ++ s) = Some s.
Proof. induction p as [|c p IH]; [by destruct s|]. cbn [app strip_prefix]. by rewrite Z.eqb_refl. Qed.

Lemma split_once_decimal n s : 0 ≤ n ≤ u64_max → split_once 58 (decimal n ++ 58 :: s) = Some (decimal n, s).
Proof.
  intros Hn. destruct (decimal_spec n Hn) as (_ & Hds & _). induction Hds as [|d ds Hd Hds IH]; [done|].
  cbn [app split_once]. unfold is_digit in Hd. destruct (Z.eqb_spec d 58); [lia|]. by rewrite IH.
Qed.

(** The tokens a streaming adapter keeps of a request and of a response. *)
Definition quantity_token (q : Z) : list Z := text "modbus-bits-v1:quantity:" ++ decimal q.
Definition response_token (n last : Z) : list Z :=
  text "modbus-bits-v1:response:" ++ decimal n ++ 58 :: decimal last.

(** The tokens decide what the frames would: whether the response holds one bit for
    each of the quantity asked for and zero padding, for a legal quantity. *)
Lemma tokens_decide_padding q body :
  u16_ok q → bytes_ok body → 1 ≤ zlen body ≤ 255 →
  compatibility_matches (quantity_token q) (response_token (zlen body) (nthz body (zlen body - 1))) =
  (q <=? 2000) && padding_is_zero q body.
Proof.
  unfold u16_ok. intros Hq Hb Hn. pose proof (nthz_byte body (zlen body - 1) Hb) as Hlast.
  unfold compatibility_matches, quantity_token, response_token.
  assert (last body = Some (nthz body (zlen body - 1))) as Hl.
  { rewrite last_lookup. replace (pred (length body)) with (Z.to_nat (zlen body - 1)) by (unfold zlen; lia).
    apply lookup_nthz. lia. }
  rewrite !bool_decide_eq_false_2 by done. cbn [orb].
  assert (∀ s, starts_with PREFIX (text "modbus-bits-v1:quantity:" ++ s) = true) as -> by done.
  cbn [negb andb]. rewrite !strip_prefix_app.
  cbn [mbind option_bind]. rewrite (parse_decimal u16_max q), split_once_decimal by lia.
  rewrite (parse_decimal usize_max (zlen body)), (parse_decimal u8_max) by lia.
  unfold padding_is_zero. rewrite Hl.
  destruct (Z.eqb_spec q 0); cbn [orb]; [by rewrite andb_false_r|].
  destruct (Z.ltb_spec 2000 q); cbn [orb]; [by rewrite (proj2 (Z.leb_gt q 2000)) by lia|].
  rewrite (proj2 (Z.leb_le q 2000)) by lia. by destruct (zlen body =? div_ceil q 8).
Qed.

(** ** Witnesses *)

(** A read of three registers, and the answer. *)
Definition sample_read : EvidenceBytes := from_packet (adu 1 17 (PRead 3 107 3)) (sample_packet 1) 54.
Definition sample_values : EvidenceBytes :=
  from_packet (adu 1 17 (PRegisters 3 [555; 0; 100])) (sample_packet 2) 54.

Example sample_report :
  (r ← SemModbus.decode sample_values Response sem_default;
   Ok (rp_status r, map (λ x, (r_kind x, r_range x)) (records r), consumed r)) =
  Ok (DecodedSubset,
      [("mbap", (0, 8)); ("read_response", (8, 9)); ("register", (9, 11)); ("register", (11, 13)); ("register", (13, 15))],
      15).
Proof. by vm_compute. Qed.

Lemma sample_exchange_ok : ev_ok sample_read ∧ ev_ok sample_values.
Proof. split; (apply from_packet_ok; [apply small_bytes_ok; by vm_compute|lia|by vm_compute]). Qed.

Lemma modbus_fields_exact_witness :
  wp (SemModbus.decode sample_values Response sem_default)
     (λ r, reports sem_default sample_values r ∧ input_fits sem_default sample_values ∧
           (rp_status r = DecodedSubset →
              ∃ tid unit_ p, adu_ok tid unit_ ∧ pdu_ok Response p ∧ data sample_values = adu tid unit_ p ∧
                             full_report r Response tid unit_ p) ∧
           (∀ tid unit_ p, adu_ok tid unit_ → pdu_ok Response p → data sample_values = adu tid unit_ p →
              full_report r Response tid unit_ p ∧
              affordable sem_default sample_values (adu_records Response tid unit_ p) ∨
              rp_status r = Limited ∧
              ¬ affordable sem_default sample_values (adu_records Response tid unit_ p)))
     (λ e, report_error e ∧ ¬ input_fits sem_default sample_values) ∧
  (∀ tid unit_ p, adu_ok tid unit_ → pdu_ok Response p → data sample_values = adu tid unit_ p →
     ∃ r, SemModbus.decode sample_values Response sem_default = Ok r ∧ full_report r Response tid unit_ p).
Proof.
  apply (modbus_fields_exact sample_values Response sem_default);
    [apply sample_exchange_ok|apply sem_default_typed].
Defined.

Definition sample_message (e : EvidenceBytes) (role : Role) : ModbusMessage :=
  {| m_stream_offset := 0; transaction := 1; unit_id := 17; m_function := 3; m_role := role;
     shape_valid := true; semantics_supported := true; boundary_verified := true; m_raw := e |}.

Lemma check_pair_sound_witness :
  check_pair (sample_message sample_read Request) (sample_message sample_values Response) sem_default =
    Ok ConsistentWithinSubset ∧
  wp (check_pair (sample_message sample_read Request) (sample_message sample_values Response) sem_default)
     (λ s, s = ConsistentWithinSubset →
        ∃ tid unit_ p q, pdu_ok Request p ∧ pdu_ok Response q ∧ pairs p q ∧
          data (m_raw (sample_message sample_read Request)) = adu tid unit_ p ∧
          data (m_raw (sample_message sample_values Response)) = adu tid unit_ q)
     report_error.
Proof.
  split; [by vm_compute|].
  apply (check_pair_sound (sample_message sample_read Request) (sample_message sample_values Response) sem_default);
    [apply sample_exchange_ok|apply sample_exchange_ok|apply sem_default_typed].
Defined.
