(* ===== verification/SemDnp3.v ===== *)
(** * DNP3 object fields ([src/src/semantics/dnp3.rs])

    The semantic report of the object bytes of a DNP3 application message: object
    headers with their qualifiers, then the values the headers announce.  The decoder
    moves a position through the bytes; when it fails, the position tells where the
    undecoded tail begins.  Sums of positions inside a buffer are written plainly: a
    slice has at most [i64::MAX] bytes. *)

From S2P Require Import Prelude Errors Stateful Json Provenance Sha256 Dnp3App Semantics.

Inductive Context : Type :=
| ReadHeaders | ResponseValues | ControlValues | TimeWriteValues | FileValues | ClassHeaders
| UnsupportedFunction.
#[global] Instance Context_eq_dec : EqDecision Context.
Proof. solve_decision. Defined.

(** [x ∈ a..=b] and [x ∈ a | b | ..]. *)
Definition between (a b x : Z) : bool := (a <=? x) && (x <=? b).
Definition among (x : Z) (l : list Z) : bool := existsb (Z.eqb x) l.

(** [Context::from_function]. *)
Definition from_function (function : Z) : Context :=
  if function =? 1 then ReadHeaders
  else if function =? 2 then TimeWriteValues
  else if between 25 28 function || (function =? 30) then FileValues
  else if among function [20; 21] then ClassHeaders
  else if among function [0x81; 0x82] then ResponseValues
  else if between 3 6 function then ControlValues
  else UnsupportedFunction.

(** [Context::name]. *)
Definition context_name (c : Context) : string :=
  match c with
  | ReadHeaders => "read_object_headers"
  | ResponseValues => "response_object_values"
  | ControlValues => "control_object_values"
  | TimeWriteValues => "non_secure_time_write_values"
  | FileValues => "file_control_values"
  | ClassHeaders => "unsolicited_class_headers"
  | UnsupportedFunction => "function_not_in_subset"
  end.

(** ** Shapes *)

Inductive Shape : Type :=
| Packed (bits : Z)
| Binary (bits time : Z)
| Counter (width : Z) (flags : bool) (time : Z)
| Analog (width : Z) (flags float signed : bool) (time : Z) (status_last : bool)
| Time (width : Z)
| Octets (width : Z)
| Attribute
| ControlRelayOutput.

(** [shape], the analog inputs and outputs. *)
Definition analog_shape (g v : Z) : option Shape :=
  if (g =? 30) && (v =? 1) then Some (Analog 4 true false true 0 false)
  else if (g =? 30) && (v =? 2) then Some (Analog 2 true false true 0 false)
  else if (g =? 30) && (v =? 3) then Some (Analog 4 false false true 0 false)
  else if (g =? 30) && (v =? 4) then Some (Analog 2 false false true 0 false)
  else if (g =? 30) && (v =? 5) then Some (Analog 4 true true false 0 false)
  else if (g =? 30) && (v =? 6) then Some (Analog 8 true true false 0 false)
  else if (g =? 31) && (v =? 1) then Some (Analog 4 true false true 0 false)
  else if (g =? 31) && (v =? 2) then Some (Analog 2 true false true 0 false)
  else if (g =? 31) && (v =? 3) then Some (Analog 4 true false true 6 false)
  else if (g =? 31) && (v =? 4) then Some (Analog 2 true false true 6 false)
  else if (g =? 31) && (v =? 5) then Some (Analog 4 false false true 0 false)
  else if (g =? 31) && (v =? 6) then Some (Analog 2 false false true 0 false)
  else if (g =? 31) && (v =? 7) then Some (Analog 4 true true false 0 false)
  else if (g =? 31) && (v =? 8) then Some (Analog 8 true true false 0 false)
  else if among g [32; 33; 42; 43] && among v [1; 3; 5; 7] then
    Some (Analog 4 true (among v [5; 7]) (among v [1; 3]) (if among v [3; 7] then 6 else 0) false)
  else if among g [32; 33; 42; 43] && among v [2; 4; 6; 8] then
    Some (Analog (if among v [2; 4] then 2 else 8) true (among v [6; 8]) (among v [2; 4])
            (if among v [4; 8] then 6 else 0) false)
  else if (g =? 34) && (v =? 1) then Some (Analog 2 false false false 0 false)
  else if (g =? 34) && (v =? 2) then Some (Analog 4 false false false 0 false)
  else if (g =? 34) && (v =? 3) then Some (Analog 4 false true false 0 false)
  else if (g =? 40) && between 1 4 v then
    Some (Analog (if among v [1; 3] then 4 else if v =? 2 then 2 else 8) true (among v [3; 4])
            (among v [1; 2]) 0 false)
  else if (g =? 41) && between 1 4 v then
    Some (Analog (if among v [1; 3] then 4 else if v =? 2 then 2 else 8) false (among v [3; 4])
            (among v [1; 2]) 0 true)
  else None.

(** [shape]. *)
Definition shape (g v : Z) : option Shape :=
  if (g =? 0) && (between 0 253 v || (v =? 255)) then Some Attribute
  else if among g [1; 10; 80] && (v =? 1) then Some (Packed 1)
  else if (g =? 3) && (v =? 1) then Some (Packed 2)
  else if (among g [1; 10] && (v =? 2)) || (among g [2; 11; 13] && (v =? 1)) then Some (Binary 1 0)
  else if (g =? 4) && (v =? 1) then Some (Binary 2 0)
  else if (g =? 3) && (v =? 2) then Some (Binary 2 0)
  else if among g [2; 11; 13] && (v =? 2) then Some (Binary 1 6)
  else if (g =? 4) && (v =? 2) then Some (Binary 2 6)
  else if (g =? 2) && (v =? 3) then Some (Binary 1 2)
  else if (g =? 4) && (v =? 3) then Some (Binary 2 2)
  else if between 20 23 g && (v =? 1) then Some (Counter 4 true 0)
  else if between 20 23 g && (v =? 2) then Some (Counter 2 true 0)
  else if between 21 23 g && (v =? 5) then Some (Counter 4 true 6)
  else if between 21 23 g && (v =? 6) then Some (Counter 2 true 6)
  else if ((g =? 20) && (v =? 5)) || ((g =? 21) && (v =? 9)) then Some (Counter 4 false 0)
  else if ((g =? 20) && (v =? 6)) || ((g =? 21) && (v =? 10)) then Some (Counter 2 false 0)
  else match analog_shape g v with
  | Some s => Some s
  | None =>
      if ((g =? 50) && among v [1; 3]) || ((g =? 51) && among v [1; 2]) then Some (Time 6)
      else if (g =? 52) && among v [1; 2] then Some (Time 2)
      else if (g =? 102) && (v =? 1) then Some (Counter 1 false 0)
      else if among g [110; 111] && between 1 255 v then Some (Octets v)
      else if (g =? 12) && (v =? 1) then Some ControlRelayOutput
      else None
  end.

(** [known_header]. *)
Definition known_header (g v : Z) : bool :=
  (if shape g v then true else false)
  || ((g =? 0) && (v =? 254))
  || ((v =? 0) && among g [1; 2; 3; 4; 10; 11; 13; 20; 21; 22; 23; 30; 31; 32; 33; 34; 40; 41; 42; 43;
                           102; 110; 111])
  || ((g =? 60) && between 1 4 v)
  || ((g =? 70) && between 2 8 v).

(** ** The decoder's state *)

(** [out: &mut Report] and [p: &mut usize]. *)
Definition Cursor : Type := Report * Z.
Definition Decoding : Type → Type := Stateful Cursor.

Definition on_report {A} (m : Stateful Report A) : Decoding A := λ s,
  let '(out, r) := m s.1 in ((out, s.2), r).
Definition position : Decoding Z := λ s, (s, Ok s.2).
Definition move_to (p : Z) : Decoding unit := modify (λ s, (s.1, p)).

(** ** Object headers *)

Record Header : Type := {
  group : Z;
  variation : Z;
  qualifier : Z;
  count : option Z;
  first : option Z;
  prefix : Z;
  range_witness : Z * Z;
}.

Definition unsigned (name : string) (n a b : Z) : Field := field_new name (Unsigned n) (a, b).

(** [parse_header], the match on the qualifier: the count, the first index, the size of
    the index prefix, the end of the header and the fields. *)
Definition parse_range (b : list Z) (at_ range_code : Z) : result (option Z * option Z * Z * Z * list Field) :=
  let n := Z.shiftl 1 range_code in
  need b at_ (n * 2) "dnp3_range_truncated" ;;
  first ← uint b at_ n true;
  last ← uint b (at_ + n) n true;
  if last <? first then Err (fail InvalidLength at_ "dnp3_inverted_range") else
  Ok (Some (last - first + 1), Some first, 0, at_ + n * 2,
      [unsigned "range_start" first at_ (at_ + n); unsigned "range_stop" last (at_ + n) (at_ + n * 2)]).
Definition parse_count (b : list Z) (at_ prefix_code range_code : Z)
    : result (option Z * option Z * Z * Z * list Field) :=
  let n := Z.shiftl 1 (range_code - 7) in
  need b at_ n "dnp3_count_truncated" ;;
  count ← uint b at_ n true;
  let prefix := if prefix_code =? 0 then 0 else if prefix_code =? 1 then 1
                else if prefix_code =? 2 then 2 else 4 in
  Ok (Some count, None, prefix, at_ + n, [unsigned "count" count at_ (at_ + n)]).
Definition parse_file_count (b : list Z) (at_ : Z) : result (option Z * option Z * Z * Z * list Field) :=
  need b at_ 1 "dnp3_file_object_count_truncated" ;;
  count ← idx b at_;
  Ok (Some count, None, 0, at_ + 1, [unsigned "count" count at_ (at_ + 1)]).
Definition parse_qualifier (b : list Z) (start g v q : Z) : result (option Z * option Z * Z * Z * list Field) :=
  let at_ := start + 3 in
  let prefix_code := Z.shiftr q 4 in
  let range_code := Z.land q 0x0f in
  if (prefix_code =? 0) && between 0 2 range_code then parse_range b at_ range_code
  else if (prefix_code =? 0) && (range_code =? 6) then Ok (None, None, 0, at_, [])
  else if between 0 3 prefix_code && between 7 9 range_code then parse_count b at_ prefix_code range_code
  else if (prefix_code =? 5) && (range_code =? 11) && (g =? 70) && between 2 8 v then parse_file_count b at_
  else Err (fail UnsupportedTransport (start + 2) "dnp3_qualifier_outside_subset").

(** [parse_header]. *)
Definition header_fields (start g v q : Z) : list Field :=
  [unsigned "group" g start (start + 1); unsigned "variation" v (start + 1) (start + 2);
   unsigned "qualifier" q (start + 2) (start + 3)].
Definition parse_header (b : list Z) : Decoding Header :=
  start ← position;
  lift (need b start 3 "dnp3_object_header_truncated") ;;
  g ← lift (idx b start);
  v ← lift (idx b (start + 1));
  q ← lift (idx b (start + 2));
  if negb (known_header g v)
  then throw (fail UnsupportedTransport start "dnp3_group_variation_outside_subset")
  else
    parsed ← lift (parse_qualifier b start g v q);
    let '(count, first, prefix, stop, more) := parsed in
    on_report (add (record_new "object_header" (start, stop) (header_fields start g v q ++ more))) ;;
    move_to stop ;;
    mret {| group := g; variation := v; qualifier := q; count := count; first := first;
            prefix := prefix; range_witness := (start + 3, stop) |}.

(** [index_field]. *)
Definition index_field (h : Header) (ordinal : Z) (b : list Z) (p : Z) : result (list Field) :=
  if 0 <? prefix h then
    n ← uint b p (prefix h) true;
    Ok [unsigned "point_index" n p (p + prefix h)]
  else Ok match first h with
          | Some first => [derived "point_index" (first + ordinal) (range_witness h)
                             "range_start_plus_record_ordinal"]
          | None => []
          end.

(** [is_boolean_attribute]. *)
Definition is_boolean_attribute (variation : Z) : bool :=
  among variation [219; 222; 225; 226; 227; 230; 231; 234; 237].

(** ** File objects *)

(** [need_file_object_field]. *)
Definition need_file_object_field (object_end at_ count : Z) (field : string) : result unit :=
  end' ← ok_or (checked_add usize_max at_ count) (fail InvalidLength at_ field);
  if object_end <? end' then Err (fail InvalidLength at_ field) else Ok ().

(** [Value::OctetsSha256] of [b[at_..stop]]. *)
Definition octets (b : list Z) (name : string) (length at_ stop : Z) : result Field :=
  bytes ← Prelude.slice b at_ stop;
  sha ← digest bytes;
  Ok (field_new name (OctetsSha256 length sha) (at_, stop)).

(** A little-endian field of [n] octets. *)
Definition le_field (b : list Z) (name : string) (at_ n : Z) : result Field :=
  v ← uint b at_ n true;
  Ok (unsigned name v at_ (at_ + n)).
Definition ms_field (b : list Z) (name : string) (at_ n : Z) : result Field :=
  v ← uint b at_ n true;
  Ok (field_new name (Milliseconds48 v) (at_, at_ + n)).
Definition byte_field (b : list Z) (name : string) (at_ : Z) : result Field :=
  v ← idx b at_;
  Ok (unsigned name v at_ (at_ + 1)).

(** The name of a file, after [fixed] octets, and the bounds it must respect. *)
Definition file_name_bounds (b : list Z) (data length fixed : Z) : result (Z * Z) :=
  offset ← uint b data 2 true;
  size ← uint b (data + 2) 2 true;
  let offset := as_unsigned 16 offset in
  let size := as_unsigned 16 size in
  stop ← ok_or (checked_add usize_max offset size) (fail InvalidLength data "dnp3_file_name_range");
  if negb (offset =? fixed) || negb (stop =? length)
  then Err (fail InvalidLength data "dnp3_file_name_range") else Ok (offset, size).
Definition file_name (b : list Z) (data offset size : Z) : result (list Field) :=
  if 0 <? size then f ← octets b "file_name" size (data + offset) (data + (offset + size)); Ok [f] else Ok [].

(** [file_object_fields], variation 3. *)
Definition file_command (b : list Z) (data object_end length : Z) : result (list Field) :=
  need_file_object_field object_end data 26 "dnp3_file_command" ;;
  os ← file_name_bounds b data length 26;
  let '(offset, size) := os in
  creation ← ms_field b "creation_time" (data + 4) 6;
  permissions ← le_field b "permissions" (data + 10) 2;
  auth ← octets b "auth_key" 4 (data + 12) (data + 16);
  fsize ← le_field b "file_size" (data + 16) 4;
  mode ← le_field b "mode" (data + 20) 2;
  block ← le_field b "maximum_block_size" (data + 22) 2;
  request ← le_field b "request_id" (data + 24) 2;
  name ← file_name b data offset size;
  Ok ([unsigned "file_name_offset" offset data (data + 2);
       unsigned "file_name_length" size (data + 2) (data + 4);
       creation; permissions; auth; fsize; mode; block; request] ++ name).

(** A text after a fixed status header that ends at [stop]. *)
Definition status_text (b : list Z) (length fixed status_at stop object_end : Z) : result (list Field) :=
  text_length ← sub_ovf length fixed;
  let f := derived "status_text_length" text_length (status_at, stop)
             "file_object_length_minus_fixed_status_header" in
  if 0 <? text_length
  then t ← octets b "status_text" text_length stop object_end; Ok [f; t] else Ok [f].

(** Variation 4. *)
Definition file_command_status (b : list Z) (data object_end length : Z) : result (list Field) :=
  need_file_object_field object_end data 13 "dnp3_file_command_status" ;;
  handle ← le_field b "file_handle" data 4;
  size ← le_field b "file_size" (data + 4) 4;
  block ← le_field b "maximum_block_size" (data + 8) 2;
  request ← le_field b "request_id" (data + 10) 2;
  status ← byte_field b "status" (data + 12);
  more ← status_text b length 13 (data + 12) (data + 13) object_end;
  Ok ([handle; size; block; request; status] ++ more).

(** Variation 5. *)
Definition file_transport (b : list Z) (data object_end length : Z) : result (list Field) :=
  need_file_object_field object_end data 8 "dnp3_file_transport" ;;
  handle ← le_field b "file_handle" data 4;
  block ← le_field b "block_number" (data + 4) 4;
  content ← sub_ovf length 8;
  let size := derived "content_length" content (data + 4, data + 8)
                "file_object_length_minus_fixed_transport_header" in
  more ← (if 8 <? length then c ← octets b "content" content (data + 8) object_end; Ok [c] else Ok []);
  Ok ([handle; block; size] ++ more).

(** Variation 6. *)
Definition file_transport_status (b : list Z) (data object_end length : Z) : result (list Field) :=
  need_file_object_field object_end data 9 "dnp3_file_transport_status" ;;
  handle ← le_field b "file_handle" data 4;
  block ← le_field b "block_number" (data + 4) 4;
  status ← byte_field b "status" (data + 8);
  more ← status_text b length 9 (data + 8) (data + 9) object_end;
  Ok ([handle; block; status] ++ more).

(** Variation 7. *)
Definition file_descriptor (b : list Z) (data object_end length : Z) : result (list Field) :=
  need_file_object_field object_end data 20 "dnp3_file_descriptor" ;;
  os ← file_name_bounds b data length 20;
  let '(offset, size) := os in
  type ← le_field b "file_type" (data + 4) 2;
  fsize ← le_field b "file_size" (data + 6) 4;
  creation ← ms_field b "creation_time" (data + 10) 6;
  permissions ← le_field b "permissions" (data + 16) 2;
  request ← le_field b "request_id" (data + 18) 2;
  name ← (if 0 <? size then f ← octets b "file_name" size (data + offset) object_end; Ok [f] else Ok []);
  Ok ([unsigned "file_name_offset" offset data (data + 2);
       unsigned "file_name_length" size (data + 2) (data + 4);
       type; fsize; creation; permissions; request] ++ name).

(** Variation 8. *)
Definition file_specification (b : list Z) (base data object_end length : Z) : result (list Field) :=
  spec ← octets b "file_specification" length data object_end;
  Ok [derived "file_specification_length" length (base, base + 2) "file_object_payload_length"; spec].

(** [file_object_fields]; another variation is unreachable. *)
Definition file_object_fields (b : list Z) (variation base length : Z) : result (list Field) :=
  let data := base + 2 in
  object_end ← ok_or (checked_add usize_max data length) (fail InvalidLength data "dnp3_file_object_range");
  need b data length "dnp3_file_object_truncated" ;;
  more ← (if variation =? 2 then Err (fail UnsupportedTransport data "dnp3_file_authentication_opaque")
          else if variation =? 3 then file_command b data object_end length
          else if variation =? 4 then file_command_status b data object_end length
          else if variation =? 5 then file_transport b data object_end length
          else if variation =? 6 then file_transport_status b data object_end length
          else if variation =? 7 then file_descriptor b data object_end length
          else if variation =? 8 then file_specification b base data object_end length
          else Panic);
  Ok (unsigned "length" length base (base + 2) :: more).

(** ** Attributes *)

(** The value of an attribute, the match on its data type; lists and unknown types also
    report, so this is a part of the decoder. *)
Definition list_entry (b : list Z) (value_start : Z) (_ : unit) (ordinal : Z) : Decoding unit :=
  let at_ := value_start + ordinal * 2 in
  v ← lift (idx b at_);
  p ← lift (idx b (at_ + 1));
  on_report (add (record_new "attribute_list_entry" (at_, at_ + 2)
    [unsigned "variation" v at_ (at_ + 1); unsigned "properties" p (at_ + 1) (at_ + 2)])).
Definition signed_attribute (b : list Z) (value_start length : Z) : result Z :=
  if length =? 1 then v ← idx b value_start; Ok (as_signed 8 v)
  else if length =? 2 then v ← uint b value_start 2 true; Ok (as_signed 16 (as_unsigned 16 v))
  else if length =? 4 then v ← uint b value_start 4 true; Ok (as_signed 32 (as_unsigned 32 v))
  else Err (fail UnsupportedTransport value_start "dnp3_attribute_signed_width").
Definition hashed (b : list Z) (length at_ stop : Z) : result Value :=
  bytes ← Prelude.slice b at_ stop;
  sha ← digest bytes;
  Ok (OctetsSha256 length sha).
Definition attribute_value (b : list Z) (variation data_type data value_start length value_end : Z)
    : Decoding (list Field * Value) :=
  if among data_type [1; 5; 6] then v ← lift (hashed b length value_start value_end); mret ([], v)
  else if data_type =? 2 then
    if among length [1; 2; 4]
    then n ← lift (uint b value_start length true); mret ([], Unsigned n)
    else throw (fail UnsupportedTransport value_start "dnp3_attribute_unsigned_width")
  else if data_type =? 3 then
    n ← lift (signed_attribute b value_start length);
    (if is_boolean_attribute variation && negb (n =? 0) && negb (n =? 1)
     then on_report (warn "dnp3_attribute_boolean_non_binary" (value_start, value_end)) else mret ()) ;;
    if is_boolean_attribute variation && ((n =? 0) || (n =? 1))
    then mret ([], Boolean (n =? 1)) else mret ([], Signed n)
  else if data_type =? 4 then
    if length =? 4 then n ← lift (uint b value_start length true); mret ([], Float32Bits (as_unsigned 32 n))
    else if length =? 8 then n ← lift (uint b value_start length true); mret ([], Float64Bits n)
    else throw (fail UnsupportedTransport value_start "dnp3_attribute_float_width")
  else if data_type =? 7 then
    if length =? 6 then n ← lift (uint b value_start length true); mret ([], Milliseconds48 n)
    else throw (fail UnsupportedTransport value_start "dnp3_attribute_time_width")
  else if among data_type [254; 255] then
    if length mod 2 =? 0 then
      foldC (list_entry b value_start) () (seqZ 0 (length / 2)) ;;
      v ← lift (hashed b length value_start value_end);
      mret ([derived "list_entry_count" (length / 2) (value_start, value_end) "attribute_list_pairs"], v)
    else throw (fail UnsupportedTransport value_start "dnp3_attribute_list_width")
  else
    on_report (warn "dnp3_attribute_data_type_opaque" (data, value_end)) ;;
    v ← lift (hashed b length value_start value_end);
    mret ([], v).

(** [objects], one round of the loop over attributes. *)
Definition attribute_step (b : list Z) (h : Header) (_ : unit) (ordinal : Z) : Decoding unit :=
  at_ ← position;
  lift (need b at_ (prefix h + 2) "dnp3_attribute_envelope_truncated") ;;
  let data := at_ + prefix h in
  data_type ← lift (idx b data);
  encoded_length ← lift (idx b (data + 1));
  let length := if data_type =? 255 then 256 + encoded_length else encoded_length in
  let value_start := data + 2 in
  lift (need b value_start length "dnp3_attribute_value_truncated") ;;
  let value_end := value_start + length in
  index ← lift (index_field h ordinal b at_);
  let extended := if data_type =? 255
    then [derived "value_length" length (data + 1, data + 2) "extended_attribute_length_plus_256"] else [] in
  mv ← attribute_value b (variation h) data_type data value_start length value_end;
  let '(more, value) := mv in
  on_report (add (record_new "attribute_value" (at_, value_end)
    (index ++ [unsigned "data_type" data_type data (data + 1);
               unsigned "length" encoded_length (data + 1) (data + 2)] ++ extended ++ more ++
     [field_new "value" value (value_start, value_end)]))) ;;
  move_to value_end.

(** ** [objects] *)

(** One file object. *)
Definition file_object_step (b : list Z) (h : Header) (_ : unit) (_ : Z) : Decoding unit :=
  length_at ← position;
  lift (need b length_at 2 "dnp3_file_object_length_truncated") ;;
  n ← lift (uint b length_at 2 true);
  let length := as_unsigned 16 n in
  stop ← lift (ok_or (at_ ← checked_add usize_max length_at 2; checked_add usize_max at_ length)
                 (fail InvalidLength length_at "dnp3_file_object_range"));
  lift (need b (length_at + 2) length "dnp3_file_object_truncated") ;;
  fields ← lift (file_object_fields b (variation h) length_at length);
  on_report (add (record_new "file_object" (length_at, stop) fields)) ;;
  move_to stop.

(** One value of a packed array that starts at [base]. *)
Definition packed_step (b : list Z) (h : Header) (bits base : Z) (_ : unit) (ordinal : Z) : Decoding unit :=
  let bit_offset := ordinal * bits in
  let at_ := base + bit_offset / 8 in
  index ← lift (index_field h ordinal b base);
  octet ← lift (idx b at_);
  let value :=
    if bits =? 1
    then bit_field "value" (negb (Z.land octet (Z.shiftl 1 (bit_offset mod 8)) =? 0)) at_ (bit_offset mod 8)
    else unsigned "value" (Z.land (Z.shiftr octet (bit_offset mod 8)) (Z.shiftl 1 bits - 1)) at_ (at_ + 1) in
  on_report (add (record_new "object_value" (at_, at_ + 1) (index ++ [value]))).
Definition packed (b : list Z) (h : Header) (count bits : Z) : Decoding unit :=
  base ← position;
  if bool_decide (first h = None) || negb (prefix h =? 0)
  then throw (fail UnsupportedTransport base "dnp3_packed_requires_range_qualifier")
  else
    total ← lift (mul_ovf usize_max count bits);
    let bytes := div_ceil total 8 in
    lift (need b base bytes "dnp3_packed_truncated") ;;
    foldC (packed_step b h bits base) () (seqZ 0 count) ;;
    move_to (base + bytes).

(** The octets of a value. *)
Definition shape_width (s : Shape) : Z :=
  match s with
  | Binary _ time => 1 + time
  | Counter width flags time => width + Z.b2z flags + time
  | Analog width flags _ _ time status_last => width + Z.b2z flags + time + Z.b2z status_last
  | Time width => width
  | Octets width => width
  | ControlRelayOutput => 11
  | Packed _ | Attribute => 0
  end.

(** The fields of a value at [data]. *)
Definition flags_field (b : list Z) (flags : bool) (data : Z) : result (list Field) :=
  if flags then f ← byte_field b "flags" data; Ok [f] else Ok [].
Definition time_field (b : list Z) (at_ time : Z) : result (list Field) :=
  if 0 <? time then
    n ← uint b at_ time true;
    Ok [field_new "time" (if time =? 6 then Milliseconds48 n else RelativeMilliseconds16 (as_unsigned 16 n))
          (at_, at_ + time)]
  else Ok [].
Definition binary_fields (b : list Z) (bits time data : Z) : result (list Field) :=
  octet ← idx b data;
  let value := if bits =? 1 then bit_field "value" (negb (Z.land octet 0x80 =? 0)) data 7
               else unsigned "value" (Z.land (Z.shiftr octet 6) 0x03) data (data + 1) in
  time ← time_field b (data + 1) time;
  Ok ([unsigned "flags" octet data (data + 1); value] ++ time).
Definition counter_fields (b : list Z) (width : Z) (flags : bool) (time data : Z) : result (list Field) :=
  fs ← flags_field b flags data;
  let v := data + Z.b2z flags in
  value ← le_field b "value" v width;
  time ← time_field b (v + width) time;
  Ok (fs ++ [value] ++ time).
Definition analog_value (width : Z) (float signed : bool) (n : Z) : Value :=
  if float then if width =? 4 then Float32Bits (as_unsigned 32 n) else Float64Bits n
  else if signed then
    if width =? 2 then Signed (as_signed 16 (as_unsigned 16 n)) else Signed (as_signed 32 (as_unsigned 32 n))
  else Unsigned n.
Definition analog_fields (b : list Z) (width : Z) (flags float signed : bool) (time : Z) (status_last : bool)
    (data : Z) : result (list Field) :=
  fs ← flags_field b flags data;
  let v := data + Z.b2z flags in
  n ← uint b v width true;
  time ← (if 0 <? time then f ← ms_field b "time" (v + width) time; Ok [f] else Ok []);
  status ← (if status_last then f ← byte_field b "command_status" (v + width); Ok [f] else Ok []);
  Ok (fs ++ [field_new "value" (analog_value width float signed n) (v, v + width)] ++ time ++ status).
Definition time_fields (b : list Z) (width data : Z) : result (list Field) :=
  n ← uint b data width true;
  Ok [field_new (if width =? 6 then "time" else "time_delay")
        (if width =? 6 then Milliseconds48 n else Unsigned n) (data, data + width)].
Definition control_fields (b : list Z) (data : Z) : result (list Field) :=
  code ← byte_field b "control_code" data;
  count ← byte_field b "count" (data + 1);
  on_time ← le_field b "on_time_ms" (data + 2) 4;
  off_time ← le_field b "off_time_ms" (data + 6) 4;
  status ← byte_field b "status" (data + 10);
  Ok [code; count; on_time; off_time; status].
Definition value_fields (b : list Z) (s : Shape) (data : Z) : result (list Field) :=
  match s with
  | Binary bits time => binary_fields b bits time data
  | Counter width flags time => counter_fields b width flags time data
  | Analog width flags float signed time status_last =>
      analog_fields b width flags float signed time status_last data
  | Time width => time_fields b width data
  | Octets width => f ← octets b "value" width data (data + width); Ok [f]
  | ControlRelayOutput => control_fields b data
  | Packed _ => Ok []
  | Attribute => Panic
  end.

(** One value of fixed width. *)
Definition value_step (b : list Z) (h : Header) (s : Shape) (_ : unit) (ordinal : Z) : Decoding unit :=
  let width := shape_width s in
  at_ ← position;
  lift (need b at_ (prefix h + width) "dnp3_object_value_truncated") ;;
  index ← lift (index_field h ordinal b at_);
  fields ← lift (value_fields b s (at_ + prefix h));
  on_report (add (record_new "object_value" (at_, at_ + prefix h + width) (index ++ fields))) ;;
  move_to (at_ + (prefix h + width)).

(** [objects]. *)
Definition objects (b : list Z) (h : Header) : Decoding unit :=
  p ← position;
  match count h with
  | None => throw (fail UnsupportedTransport p "dnp3_all_objects_response_has_no_count")
  | Some count =>
      out ← on_report get_state;
      if saturating_sub (sl_records (rp_limits out)) (zlen (records out)) <? count
      then throw (fail LimitExceeded p "dnp3_object_count_budget")
      else if (group h =? 70) && (qualifier h =? 0x5b)
      then foldC (file_object_step b h) () (seqZ 0 count)
      else
        s ← lift (ok_or (shape (group h) (variation h))
                    (fail UnsupportedTransport p "dnp3_response_variation_has_no_value_width"));
        match s with
        | Attribute => foldC (attribute_step b h) () (seqZ 0 count)
        | Packed bits => packed b h count bits
        | _ => foldC (value_step b h s) () (seqZ 0 count)
        end
  end.

(** ** [decode] *)

(** The conditions on a header in its context. *)
Definition context_checks (b : list Z) (context : Context) (start : Z) (h : Header) : Decoding unit :=
  p ← position;
  q ← lift (idx b (start + 2));
  if bool_decide (context = ReadHeaders) && (group h =? 0) && (variation h =? 254) && negb (q =? 0)
  then throw (fail UnsupportedTransport (start + 2) "dnp3_attribute_all_request_requires_range")
  else if bool_decide (context = TimeWriteValues) &&
          negb ((group h =? 50) && among (variation h) [1; 3] && (q =? 7) && bool_decide (count h = Some 1))
  then throw (fail UnsupportedTransport start "dnp3_time_write_requires_g50v1_or_v3_count_one")
  else if bool_decide (context = FileValues) && negb ((group h =? 70) && (qualifier h =? 0x5b))
  then throw (fail UnsupportedTransport start "dnp3_file_control_requires_group70_free_format")
  else if bool_decide (context = ClassHeaders) &&
          (negb (group h =? 60) || negb (between 2 4 (variation h)) || negb (q =? 6))
  then throw (fail UnsupportedTransport start "dnp3_unsolicited_control_requires_class_all_objects")
  else if bool_decide (context = ControlValues) && negb ((group h =? 12) && (variation h =? 1))
  then throw (fail UnsupportedTransport p "dnp3_control_function_object_mismatch")
  else mret ().

(** One index of a read request. *)
Definition selector_step (b : list Z) (h : Header) (count : Z) (_ : unit) (ordinal : Z) : Decoding unit :=
  p ← position;
  lift (need b p (prefix h) "dnp3_read_index_truncated") ;;
  index ← lift (uint b p (prefix h) true);
  on_report (add (record_new "read_point_selector" (p, p + prefix h)
                    [unsigned "point_index" index p (p + prefix h)])) ;;
  move_to (p + prefix h) ;;
  if ordinal =? saturating_sub count 1 then on_report (advance (p + prefix h)) else mret ().
Definition selectors (b : list Z) (h : Header) : Decoding unit :=
  p ← position;
  if negb (prefix h =? 0) then
    match count h with
    | None => throw (fail UnsupportedTransport p "dnp3_read_index_list_without_count")
    | Some count => foldC (selector_step b h count) () (seqZ 0 count)
    end
  else mret ().

(** The body of the loop. *)
Definition decode_header (b : list Z) (context : Context) : Decoding unit :=
  start ← position;
  h ← parse_header b;
  context_checks b context start h ;;
  if bool_decide (context = ReadHeaders) || bool_decide (context = ClassHeaders)
  then selectors b h else objects b h.

(** The loop of [decode]. *)
Definition decode_round (b : list Z) (context : Context) (s : Cursor) : result (step Cursor Report) :=
  let '(out, p) := s in
  if p <? zlen b then
    let '((out, p), r) := decode_header b context (out, p) in
    v ← catch r;
    Ok match v with
       | inl _ => Continue (with_consumed out p, p)
       | inr e => Break (stop out e p)
       end
  else Ok (Break out).

(** [decode]; a round takes at least the three octets of a header. *)
Definition decode (source : EvidenceBytes) (context : Context) (limits : SemLimits) : result Report :=
  out ← report_new source "dnp3" (context_name context) limits;
  if bool_decide (context = UnsupportedFunction)
  then Ok (stop out (fail UnsupportedTransport 0 "dnp3_application_function_not_in_subset") 0)
  else
    let b := data source in
    if (zlen b =? 0) && negb (bool_decide (context = ResponseValues))
    then Ok (stop out (fail ProtocolFraming 0 "dnp3_workflow_objects_required") 0)
    else loop (S (length b)) (decode_round b context) (out, 0).

(** ** Adapters *)

(** The report of a body that is not a complete message. *)
Definition incomplete_report (objects : EvidenceBytes) (limits : SemLimits) (e : Error) : result Report :=
  out ← report_new objects "dnp3" "incomplete_application_message" limits;
  Ok (stop out e 0).

(** The closure of [fragment_json]. *)
Definition fragment_report (fragment : ApplicationFragment) (limits : SemLimits) : result Report :=
  let raw := data (af_raw fragment) in
  let header := if among (af_function fragment) [0x81; 0x82] then 4 else 2 in
  let mismatch := fail Invariant 0 "dnp3_fragment_metadata_mismatch" in
  if zlen raw <? header then Err mismatch else
  r0 ← idx raw 0;
  r1 ← idx raw 1;
  if negb (r0 =? af_control fragment) || negb (r1 =? af_function fragment) then Err mismatch else
  expected ← Provenance.slice (af_raw fragment) header (zlen raw);
  if negb (bytes_eqb (data expected) (data (af_objects fragment)))
     || negb (bool_decide (spans expected = spans (af_objects fragment)))
  then Err (fail Invariant header "dnp3_fragment_object_witness_mismatch")
  else if negb (Z.land r0 0xc0 =? 0xc0)
  then incomplete_report (af_objects fragment) limits (fail Truncated 0 "dnp3_application_fragment_needs_assembly")
  else decode (af_objects fragment) (from_function (af_function fragment)) limits.

(** [fragment_json], [message_json] and [assembled_message_json]. *)
Definition fragment_json (fragment : ApplicationFragment) (limits : SemLimits) : result Json :=
  as_json (fragment_report fragment limits).
Definition message_json (objects : EvidenceBytes) (function : Z) (limits : SemLimits) : result Json :=
  as_json (decode objects (from_function function) limits).
Definition assembled_message_json (objects : EvidenceBytes) (function : Z) (complete : bool) (limits : SemLimits)
    : result Json :=
  if complete then message_json objects function limits
  else as_json (incomplete_report objects limits (fail Truncated 0 "dnp3_application_message_incomplete")).
