(* ===== verification/SemDnp3Facts.v ===== *)
(** * The meaning of DNP3 object fields

    Every field of a report is a reading of exactly the octets it cites, or is derived
    from them in the way its basis says; the records follow each other without a gap
    from the start of the objects to the position the report has consumed; a complete
    report has as many values after each header as the header announces. *)

From S2P Require Import Prelude Errors Stateful Json Provenance Sha256 ModbusFacts Dnp3App Semantics SemanticsFacts SemDnp3.

(** ** Readings of octets *)

(** [v] is what the octets [bs] say, least significant octet first. *)
Inductive reading (bs : list Z) : Value → Prop :=
| reads_unsigned : reading bs (Unsigned (from_le_bytes bs))
| reads_signed : reading bs (Signed (as_signed (8 * zlen bs) (from_le_bytes bs)))
| reads_truth n : as_signed (8 * zlen bs) (from_le_bytes bs) = n → n = 0 ∨ n = 1 → reading bs (Boolean (n =? 1))
| reads_pair x k : bs = [x] → 0 ≤ k ≤ 6 → reading bs (Unsigned (Z.land (Z.shiftr x k) 3))
| reads_float32 : zlen bs = 4 → reading bs (Float32Bits (from_le_bytes bs))
| reads_float64 : zlen bs = 8 → reading bs (Float64Bits (from_le_bytes bs))
| reads_octets : reading bs (OctetsSha256 (zlen bs) (sha_reference bs))
| reads_time : zlen bs = 6 → reading bs (Milliseconds48 (from_le_bytes bs))
| reads_delay : zlen bs = 2 → reading bs (RelativeMilliseconds16 (from_le_bytes bs)).

(** A field that is in the octets: a bit of one of them, or all of them. *)
Definition direct (b : list Z) (f : Field) : Prop :=
  let bs := sub b (f_range f).1 (f_range f).2 in
  match f_bit f with
  | Some k => ∃ x, bs = [x] ∧ f_value f = Boolean (Z.testbit x k)
  | None => reading bs (f_value f)
  end.

(** An index between the two halves of a start and stop range. *)
Definition ordinal_index (b : list Z) (f : Field) : Prop :=
  ∃ n v, (f_range f).2 = (f_range f).1 + 2 * n ∧ f_value f = Unsigned v ∧
    from_le_bytes (sub b (f_range f).1 ((f_range f).1 + n)) ≤ v ≤
    from_le_bytes (sub b ((f_range f).1 + n) (f_range f).2).

(** A field of a record that extends over [range]: how its basis justifies its value. *)
Definition justified (b : list Z) (range : Z * Z) (f : Field) : Prop :=
  f_basis f = "direct_wire_field" ∧ f_bit f = None ∧ direct b f ∨
  f_basis f = "lsb_zero_bit_position" ∧ f_bit f ≠ None ∧ direct b f ∨
  f_basis f = "range_start_plus_record_ordinal" ∧ ordinal_index b f ∨
  f_basis f = "extended_attribute_length_plus_256" ∧ f_value f = Unsigned (256 + nthz b (f_range f).1) ∨
  f_basis f = "attribute_list_pairs" ∧ f_value f = Unsigned (((f_range f).2 - (f_range f).1) / 2) ∨
  f_basis f ∈ ["file_object_length_minus_fixed_status_header";
               "file_object_length_minus_fixed_transport_header"; "file_object_payload_length"] ∧
    f_value f = Unsigned (range.2 - (f_range f).2).

(** The ranges of a field are machine integers. *)
Definition placed (f : Field) : Prop :=
  0 ≤ (f_range f).1 ∧ match f_bit f with Some k => 0 ≤ k | None => True end.
Definition fields_true (b : list Z) (range : Z * Z) (fs : list Field) : Prop :=
  Forall (λ f, placed f ∧ justified b range f) fs.
Definition record_true (b : list Z) (r : SemRecord) : Prop := fields_true b (r_range r) (r_fields r).

(** ** Shapes *)

(** The widths a shape can have. *)
Definition shape_ok (s : Shape) : Prop :=
  match s with
  | Packed bits => bits = 1 ∨ bits = 2
  | Binary bits time => (bits = 1 ∨ bits = 2) ∧ (time = 0 ∨ time = 2 ∨ time = 6)
  | Counter width _ time => (width = 1 ∨ width = 2 ∨ width = 4) ∧ (time = 0 ∨ time = 6)
  | Analog width _ float signed time _ =>
      (if float then width = 4 ∨ width = 8 else width = 2 ∨ width = 4) ∧ (time = 0 ∨ time = 6)
  | Time width => width = 2 ∨ width = 6
  | Octets width => 1 ≤ width ≤ 255
  | Attribute | ControlRelayOutput => True
  end.

Lemma among_In x l : among x l = true → x ∈ l.
Proof. unfold among. intros H. apply existsb_exists in H as (y & Hy & ->%Z.eqb_eq). by apply list_elem_of_In. Qed.

Lemma between_true a b x : between a b x = true → a ≤ x ≤ b.
Proof. unfold between. intros. bool_facts. lia. Qed.

(** The shapes a chain of conditions returns, each with the numbers its condition names. *)
Ltac named :=
  repeat match goal with
  | H : _ && _ = true |- _ => apply andb_true_iff in H as [? H]
  | H : among ?v _ = true |- _ => is_var v; apply among_In in H; repeat apply elem_of_cons in H as [->|H]; try by apply elem_of_nil in H
  | H : between _ _ _ = true |- _ => apply between_true in H
  end.
Ltac each_shape :=
  repeat (lazymatch goal with |- (if ?c then _ else _) = _ → _ => let H := fresh "Hc" in destruct c eqn:H end;
    [intros [= <-]; first [solve [simpl; auto]|named; first [solve [simpl; auto]|simpl; lia|idtac]]|
     lazymatch goal with H : _ = false |- _ => clear H end]).

Lemma analog_shape_ok g v s : analog_shape g v = Some s → shape_ok s.
Proof.
  unfold analog_shape. each_shape; [..|done].
  all: assert (v = 1 ∨ v = 2 ∨ v = 3 ∨ v = 4) as [->|[->|[->| ->]]] by lia; simpl; auto.
Qed.

Lemma shape_ok_of g v s : shape g v = Some s → shape_ok s.
Proof.
  unfold shape. each_shape.
  destruct (analog_shape g v) as [s'|] eqn:Ha; [intros [= <-]; by eapply analog_shape_ok|].
  each_shape. done.
Qed.

Lemma shape_width_bound s : shape_ok s → 0 ≤ shape_width s ≤ 255.
Proof.
  assert (∀ c, 0 ≤ Z.b2z c ≤ 1) as H by (intros []; simpl; lia).
  destruct s as [|bits time|w fl time|w fl float sg time last| | | |]; simpl; try lia.
  - pose proof (H fl). lia.
  - pose proof (H fl). pose proof (H last). destruct float; lia.
Qed.

(** ** The builders of fields *)

Section builders.
Context (b : list Z) (Hb : bytes_ok b) (Hlen : zlen b ≤ i64_max).

Lemma uint_le at_ n : 0 ≤ at_ → 0 ≤ n → at_ + n ≤ zlen b → uint b at_ n true = Ok (from_le_bytes (sub b at_ (at_ + n))).
Proof. intros. unfold uint. by rewrite slice_ok, bind_Ok by lia. Qed.

Lemma wp_uint at_ n (Q : Z → Prop) (R : Error → Prop) :
  0 ≤ at_ → 0 ≤ n → at_ + n ≤ zlen b → Q (from_le_bytes (sub b at_ (at_ + n))) → wp (uint b at_ n true) Q R.
Proof. intros ??? HQ. by rewrite uint_le. Qed.

(** The number of [n] octets. *)
Lemma le_bound at_ n : 0 ≤ at_ → 0 ≤ n → at_ + n ≤ zlen b → 0 ≤ from_le_bytes (sub b at_ (at_ + n)) < 256 ^ n.
Proof using Hb.
  intros. pose proof (from_le_bound (sub b at_ (at_ + n)) (bytes_ok_sub _ _ _ Hb)) as Hl.
  by rewrite zlen_sub, Z.add_simpl_l in Hl by lia.
Qed.

Lemma le_one at_ : 0 ≤ at_ < zlen b → from_le_bytes (sub b at_ (at_ + 1)) = nthz b at_.
Proof using. intros Hi. rewrite sub_one by done. unfold from_le_bytes. simpl. lia. Qed.

Definition true_at (range : Z * Z) (f : Field) : Prop := placed f ∧ justified b range f.

Lemma true_direct range name v p q :
  0 ≤ p → reading (sub b p q) v → true_at range (field_new name v (p, q)).
Proof. intros Hp Hv. split; [by split|]. left. by split_and!. Qed.

Lemma true_octet range name p : 0 ≤ p < zlen b → true_at range (unsigned name (nthz b p) p (p + 1)).
Proof using. intros Hp. apply true_direct; [lia|]. rewrite <- le_one by done. constructor. Qed.

Lemma true_uint range name p n :
  0 ≤ p → true_at range (unsigned name (from_le_bytes (sub b p (p + n))) p (p + n)).
Proof. intros Hp. apply true_direct; [done|constructor]. Qed.

Lemma true_bit range name p k :
  0 ≤ p < zlen b → 0 ≤ k → true_at range (bit_field name (Z.testbit (nthz b p) k) p k).
Proof using.
  intros Hp Hk. split; [split; [simpl; lia|done]|]. right. left. split; [done|]. split; [done|].
  exists (nthz b p). split; [|done]. apply sub_one. lia.
Qed.

Lemma true_pair range name p k :
  0 ≤ p < zlen b → 0 ≤ k ≤ 6 →
  true_at range (unsigned name (Z.land (Z.shiftr (nthz b p) k) 3) p (p + 1)).
Proof using.
  intros Hp Hk. apply true_direct; [lia|]. apply (reads_pair _ (nthz b p)); [|done]. by apply sub_one.
Qed.

Lemma land_bit x k : 0 ≤ k → negb (Z.land x (Z.shiftl 1 k) =? 0) = Z.testbit x k.
Proof using.
  intros Hk. rewrite Z.shiftl_mul_pow2, Z.mul_1_l by done.
  destruct (Z.testbit x k) eqn:Hx.
  - apply negb_true_iff, Z.eqb_neq. intros H0.
    assert (Z.testbit (Z.land x (2 ^ k)) k = false) as Hf by (by rewrite H0, Z.testbit_0_l).
    by rewrite Z.land_spec, Hx, Z.pow2_bits_true in Hf.
  - apply negb_false_iff, Z.eqb_eq, Z.bits_inj_0. intros i. rewrite Z.land_spec.
    destruct (decide (i = k)) as [->|Hne]; [by rewrite Hx|].
    rewrite Z.pow2_bits_false by done. apply andb_false_r.
Qed.

(** One field in the program. *)
Lemma wp_le_field range name p n :
  0 ≤ p → 0 ≤ n → p + n ≤ zlen b → wp (le_field b name p n) (true_at range) (λ _, True).
Proof using.
  intros. unfold le_field. apply wp_bind, wp_uint; [done..|]. apply wp_ok. by apply true_uint.
Qed.

Lemma wp_byte_field range name p : 0 ≤ p < zlen b → wp (byte_field b name p) (true_at range) (λ _, True).
Proof using. intros. unfold byte_field. apply wp_bind, wp_idx; [done|]. apply wp_ok. by apply true_octet. Qed.

Lemma wp_ms_field range name p : 0 ≤ p → p + 6 ≤ zlen b → wp (ms_field b name p 6) (true_at range) (λ _, True).
Proof using.
  intros. unfold ms_field. apply wp_bind, wp_uint; [lia..|]. apply wp_ok, true_direct; [done|].
  apply reads_time. rewrite zlen_sub; lia.
Qed.

Lemma wp_octets range name n p q :
  0 ≤ p → p ≤ q → q ≤ zlen b → n = q - p → wp (octets b name n p q) (true_at range) (λ _, True).
Proof using.
  intros Hp Hq Hz ->. unfold octets. apply wp_bind, wp_slice; [done..|]. rewrite digest_ok, bind_Ok.
  apply wp_ok, true_direct; [done|]. rewrite <- (zlen_sub b p q) at 1 by lia. constructor.
Qed.

Lemma fields_true_nil range : fields_true b range [].
Proof. constructor. Qed.
Lemma fields_true_cons range f fs : true_at range f → fields_true b range fs → fields_true b range (f :: fs).
Proof. by constructor. Qed.
Lemma fields_true_app range fs gs : fields_true b range fs → fields_true b range gs → fields_true b range (fs ++ gs).
Proof. intros. by apply Forall_app. Qed.

(** *** File objects *)

Lemma wp_file_need object_end at_ n fld (Q : unit → Prop) (R : Error → Prop) :
  0 ≤ at_ → 0 ≤ n → at_ + n ≤ usize_max → (∀ e, R e) → (at_ + n ≤ object_end → Q ()) →
  wp (need_file_object_field object_end at_ n fld) Q R.
Proof using.
  intros Ha Hn Hm HR HQ. unfold need_file_object_field. apply wp_bind, wp_ok_or; [|intros _; apply HR].
  intros m [-> _]%checked_add_Some. destruct (Z.ltb_spec object_end (at_ + n)); [apply HR|]. by apply HQ.
Qed.

Lemma small_le p n : 0 ≤ p → p + n ≤ zlen b → n = 2 ∨ n = 4 →
  as_unsigned (8 * n) (from_le_bytes (sub b p (p + n))) = from_le_bytes (sub b p (p + n)).
Proof using Hb.
  intros Hp Hz Hn. pose proof (le_bound p n Hp ltac:(lia) Hz). unfold as_unsigned.
  destruct Hn as [-> | ->]; apply Z.mod_small; lia.
Qed.

Lemma as_unsigned_16 p : 0 ≤ p → p + 2 ≤ zlen b →
  as_unsigned 16 (from_le_bytes (sub b p (p + 2))) = from_le_bytes (sub b p (p + 2)).
Proof using Hb. intros. apply (small_le p 2); auto. Qed.
Lemma as_unsigned_32 p : 0 ≤ p → p + 4 ≤ zlen b →
  as_unsigned 32 (from_le_bytes (sub b p (p + 4))) = from_le_bytes (sub b p (p + 4)).
Proof using Hb. intros. apply (small_le p 4); auto. Qed.

(** One step through a program that builds fields. *)
Ltac field_step range :=
  lazymatch goal with
  | |- wp (mbind _ _) _ _ => apply wp_bind
  | |- wp (Ok _) _ _ => apply wp_ok
  | |- wp (Err _) _ _ => exact I
  | |- wp (need_file_object_field _ _ _ _) _ _ => apply wp_file_need; [lia|lia|lia|done|intros ?]
  | |- wp (le_field _ _ _ _) _ _ => eapply wp_mono; [apply (wp_le_field range); lia| |done]; intros ? ?
  | |- wp (ms_field _ _ _ _) _ _ => eapply wp_mono; [apply (wp_ms_field range); lia| |done]; intros ? ?
  | |- wp (byte_field _ _ _) _ _ => eapply wp_mono; [apply (wp_byte_field range); lia| |done]; intros ? ?
  | |- wp (octets _ _ _ _ _) _ _ => eapply wp_mono; [apply (wp_octets range); lia| |done]; intros ? ?
  | |- wp (sub_ovf _ _) _ _ => apply wp_sub_ovf; [lia|]
  | |- wp (if ?c then _ else _) _ _ => let H := fresh "Hc" in destruct c eqn:H
  | |- wp (let _ := _ in _) _ _ => cbv zeta
  | |- fields_true _ _ [] => apply fields_true_nil
  | |- fields_true _ _ (_ :: _) => apply fields_true_cons
  | |- fields_true _ _ (_ ++ _) => apply fields_true_app
  | |- true_at _ _ => assumption
  end.

Section file.
Context (base length : Z) (Hbase : 0 ≤ base) (Hl : 0 ≤ length ≤ u16_max) (Hfit : base + 2 + length ≤ zlen b).
Let data := base + 2.
Let stop := data + length.
Let range := (base, stop).

Lemma wp_file_name_bounds fixed (Q : Z * Z → Prop) :
  4 ≤ fixed ≤ length →
  (∀ size, size = from_le_bytes (sub b (data + 2) (data + 2 + 2)) →
           fixed = from_le_bytes (sub b data (data + 2)) → 0 ≤ size → fixed + size = length → Q (fixed, size)) →
  wp (file_name_bounds b data length fixed) Q (λ _, True).
Proof using Hb Hlen Hbase Hl Hfit.
  intros Hfx HQ. unfold file_name_bounds. apply wp_bind, wp_uint; [lia..|]. apply wp_bind, wp_uint; [lia..|].
  cbv zeta. rewrite !as_unsigned_16 by lia. apply wp_bind, wp_ok_or; [|done]. intros m [-> _]%checked_add_Some.
  destruct (_ || _) eqn:Hc; [done|]. bool_facts. apply wp_ok.
  pose proof (le_bound (data + 2) 2 ltac:(lia) ltac:(lia) ltac:(lia)).
  replace (from_le_bytes (sub b data (data + 2))) with fixed in * by lia. apply HQ; lia.
Qed.

Ltac file_step := field_step range.

(** A length that the object's own end determines. *)
Lemma true_remaining name basis p q n :
  0 ≤ p → basis ∈ ["file_object_length_minus_fixed_status_header";
                   "file_object_length_minus_fixed_transport_header"; "file_object_payload_length"] →
  n = stop - q → true_at range (derived name n (p, q) basis).
Proof using. intros Hp Hbasis ->. split; [by split|]. do 5 right. by split. Qed.

Lemma wp_status_text fixed at_ q :
  0 ≤ at_ → 0 ≤ q → q = data + fixed → fixed ≤ length →
  wp (status_text b length fixed at_ q stop) (fields_true b range) (λ _, True).
Proof using Hb Hlen Hbase Hl Hfit.
  intros. unfold status_text. repeat file_step; apply true_remaining; try lia; set_solver.
Qed.

(** The name of the file, when it is not empty. *)
Lemma wp_name name size p q :
  0 ≤ p → p ≤ q → q ≤ zlen b → size = q - p →
  wp (if 0 <? size then f ← octets b name size p q; Ok [f] else Ok []) (fields_true b range) (λ _, True).
Proof using. intros. repeat file_step. Qed.

Lemma wp_file_command : wp (file_command b data stop length) (fields_true b range) (λ _, True).
Proof using Hb Hlen Hbase Hl Hfit.
  unfold file_command. do 2 file_step. apply wp_bind, wp_file_name_bounds; [lia|].
  intros size Hsize Hoff Hn Hsum. do 14 file_step.
  apply wp_bind. eapply wp_mono; [unfold file_name; apply wp_name; lia| |done]. intros name Hname.
  repeat file_step; try done.
  - rewrite Hoff. apply true_uint. lia.
  - rewrite Hsize. replace (data + 4) with (data + 2 + 2) by lia. apply true_uint. lia.
Qed.

Lemma wp_file_command_status : wp (file_command_status b data stop length) (fields_true b range) (λ _, True).
Proof using Hb Hlen Hbase Hl Hfit.
  unfold file_command_status. do 12 file_step.
  apply wp_bind. eapply wp_mono; [apply wp_status_text; lia| |done]. intros more Hmore. by repeat file_step.
Qed.

Lemma wp_file_transport : wp (file_transport b data stop length) (fields_true b range) (λ _, True).
Proof using Hb Hlen Hbase Hl Hfit.
  unfold file_transport. do 8 file_step. cbv zeta.
  apply wp_bind. eapply (wp_mono _ (fields_true b range) _ (λ _, True)); [|intros more Hmore|done].
  - destruct (Z.ltb_spec 8 length); repeat file_step.
  - repeat file_step; [|done]. apply true_remaining; [lia|set_solver|lia].
Qed.

Lemma wp_file_transport_status : wp (file_transport_status b data stop length) (fields_true b range) (λ _, True).
Proof using Hb Hlen Hbase Hl Hfit.
  unfold file_transport_status. do 8 file_step.
  apply wp_bind. eapply wp_mono; [apply wp_status_text; lia| |done]. intros more Hmore. by repeat file_step.
Qed.

Lemma wp_file_descriptor : wp (file_descriptor b data stop length) (fields_true b range) (λ _, True).
Proof using Hb Hlen Hbase Hl Hfit.
  unfold file_descriptor. do 2 file_step. apply wp_bind, wp_file_name_bounds; [lia|].
  intros size Hsize Hoff Hn Hsum. do 10 file_step.
  apply wp_bind. eapply wp_mono; [apply wp_name; lia| |done]. intros name Hname.
  repeat file_step; try done.
  - rewrite Hoff. apply true_uint. lia.
  - rewrite Hsize. replace (data + 4) with (data + 2 + 2) by lia. apply true_uint. lia.
Qed.

Lemma wp_file_specification :
  wp (file_specification b base data stop length) (fields_true b range) (λ _, True).
Proof using Hb Hlen Hbase Hl Hfit.
  unfold file_specification. repeat file_step. apply true_remaining; [lia|set_solver|lia].
Qed.

Lemma wp_file_object_fields variation :
  2 ≤ variation ≤ 8 → length = from_le_bytes (sub b base (base + 2)) →
  wp (file_object_fields b variation base length) (fields_true b range) (λ _, True).
Proof using Hb Hlen Hbase Hl Hfit.
  intros Hv Hlength. unfold file_object_fields. cbv zeta. fold data.
  apply wp_bind, wp_ok_or; [|done]. intros m [-> _]%checked_add_Some. fold stop.
  apply wp_bind. unfold need, checked_add. rewrite (proj2 (Z.leb_le _ _)) by lia.
  rewrite (proj2 (Z.ltb_ge _ _)) by lia. apply wp_ok, wp_bind.
  eapply (wp_mono _ (fields_true b range) _ (λ _, True)); [|intros more Hmore|done].
  - assert (variation = 2 ∨ variation = 3 ∨ variation = 4 ∨ variation = 5 ∨ variation = 6 ∨ variation = 7
      ∨ variation = 8) as Hcase by lia.
    destruct Hcase as [->|[->|[->|[->|[->|[->| ->]]]]]]; cbn [Z.eqb Pos.eqb];
      first [exact I|apply wp_file_command|apply wp_file_command_status|apply wp_file_transport
        |apply wp_file_transport_status|apply wp_file_descriptor|apply wp_file_specification].
  - apply wp_ok, fields_true_cons; [|done]. rewrite Hlength at 1. by apply true_uint.
Qed.
End file.

(** *** Values *)

Section value.
Context (range : Z * Z).
Ltac value_step := field_step range.

Lemma wp_time_field p time :
  0 ≤ p → p + time ≤ zlen b → time = 0 ∨ time = 2 ∨ time = 6 →
  wp (time_field b p time) (fields_true b range) (λ _, True).
Proof using Hb Hlen.
  intros Hp Hz [->|[-> | ->]]; unfold time_field; cbn [Z.ltb Z.compare Z.eqb Pos.eqb]; [apply wp_ok; constructor|..].
  - apply wp_bind, wp_uint; [lia..|]. apply wp_ok, fields_true_cons; [|constructor].
    rewrite as_unsigned_16 by lia. apply true_direct; [done|]. apply reads_delay. rewrite zlen_sub; lia.
  - apply wp_bind, wp_uint; [lia..|]. apply wp_ok, fields_true_cons; [|constructor].
    apply true_direct; [done|]. apply reads_time. rewrite zlen_sub; lia.
Qed.

Lemma wp_flags_field flags p :
  0 ≤ p → p + Z.b2z flags ≤ zlen b → wp (flags_field b flags p) (fields_true b range) (λ _, True).
Proof using Hb Hlen.
  intros. unfold flags_field. destruct flags; simpl in *; repeat value_step.
Qed.

Lemma wp_binary bits time p :
  shape_ok (Binary bits time) → 0 ≤ p → p + (1 + time) ≤ zlen b →
  wp (binary_fields b bits time p) (fields_true b range) (λ _, True).
Proof using Hb Hlen.
  intros [Hbits Htime] Hp Hz. unfold binary_fields. apply wp_bind, wp_idx; [lia|]. cbv zeta.
  apply wp_bind. eapply wp_mono; [apply wp_time_field; [lia|lia|done]| |done]. intros fs Hfs.
  apply wp_ok, fields_true_cons; [apply true_octet; lia|]. apply fields_true_cons; [|done].
  destruct Hbits as [-> | ->]; cbn [Z.eqb Pos.eqb].
  - change 0x80 with (Z.shiftl 1 7). rewrite land_bit by done. apply true_bit; lia.
  - apply true_pair; lia.
Qed.

Lemma wp_counter width flags time p :
  shape_ok (Counter width flags time) → 0 ≤ p → p + (width + Z.b2z flags + time) ≤ zlen b →
  wp (counter_fields b width flags time p) (fields_true b range) (λ _, True).
Proof using Hb Hlen.
  intros [Hw Htime] Hp Hz. unfold counter_fields. assert (0 ≤ Z.b2z flags) by (destruct flags; simpl; lia).
  apply wp_bind. eapply wp_mono; [apply wp_flags_field; lia| |done]. intros fs Hfs. cbv zeta.
  apply wp_bind. eapply wp_mono; [apply (wp_le_field range); lia| |done]. intros v Hv.
  apply wp_bind. eapply wp_mono; [apply wp_time_field; lia| |done]. intros ts Hts.
  apply wp_ok, fields_true_app; [done|]. by apply fields_true_cons.
Qed.

Lemma reads_analog width float signed p :
  shape_ok (Analog width false float signed 0 false) → 0 ≤ p → p + width ≤ zlen b →
  reading (sub b p (p + width)) (analog_value width float signed (from_le_bytes (sub b p (p + width)))).
Proof using Hb.
  intros [Hw _] Hp Hz. assert (zlen (sub b p (p + width)) = width) as Hn by (rewrite zlen_sub; destruct float; lia).
  unfold analog_value. destruct float.
  - destruct Hw as [-> | ->]; cbn [Z.eqb Pos.eqb].
    + rewrite as_unsigned_32 by lia. by apply reads_float32.
    + by apply reads_float64.
  - destruct signed; [|constructor].
    destruct Hw as [-> | ->]; cbn [Z.eqb Pos.eqb].
    + rewrite as_unsigned_16 by lia. replace 16 with (8 * zlen (sub b p (p + 2))) by lia. constructor.
    + rewrite as_unsigned_32 by lia. replace 32 with (8 * zlen (sub b p (p + 4))) by lia. constructor.
Qed.

Lemma wp_analog width flags float signed time last p :
  shape_ok (Analog width flags float signed time last) → 0 ≤ p →
  p + (width + Z.b2z flags + time + Z.b2z last) ≤ zlen b →
  wp (analog_fields b width flags float signed time last p) (fields_true b range) (λ _, True).
Proof using Hb Hlen.
  intros [Hw Htime] Hp Hz. unfold analog_fields.
  assert (0 ≤ Z.b2z flags ∧ 0 ≤ Z.b2z last) as [? ?] by (destruct flags, last; simpl; lia).
  assert (2 ≤ width) by (destruct float; lia).
  apply wp_bind. eapply wp_mono; [apply wp_flags_field; lia| |done]. intros fs Hfs. cbv zeta.
  apply wp_bind, wp_uint; [lia..|].
  apply wp_bind. eapply (wp_mono _ (fields_true b range) _ (λ _, True)); [|intros ts Hts|done].
  { destruct (Z.ltb_spec 0 time) as [Ht|]; [|apply wp_ok; constructor].
    replace time with 6 in * by lia. repeat value_step. }
  apply wp_bind. eapply (wp_mono _ (fields_true b range) _ (λ _, True)); [|intros ls Hls|done].
  { destruct last; simpl in *; repeat value_step. }
  apply wp_ok, fields_true_app; [done|]. cbn [app]. apply fields_true_cons; [|by apply fields_true_app].
  apply true_direct; [lia|]. apply reads_analog; [by split; [|left]|lia..].
Qed.

Lemma wp_value_fields s p :
  shape_ok s → s ≠ Attribute → 0 ≤ p → p + shape_width s ≤ zlen b →
  wp (value_fields b s p) (fields_true b range) (λ _, True).
Proof using Hb Hlen.
  intros Hs Hna Hp Hz. destruct s; cbn [shape_width value_fields] in *; try done.
  - apply wp_ok. constructor.
  - by apply wp_binary.
  - by apply wp_counter.
  - by apply wp_analog.
  - unfold shape_ok in Hs. unfold time_fields. apply wp_bind, wp_uint; [lia..|]. apply wp_ok, fields_true_cons; [|constructor].
    apply true_direct; [done|]. destruct Hs as [-> | ->]; cbn [Z.eqb Pos.eqb]; [constructor|].
    apply reads_time. rewrite zlen_sub; lia.
  - unfold shape_ok in Hs. repeat value_step.
  - unfold control_fields. repeat value_step.
Qed.

(** *** Indices *)

(** A header announces a count and says where its indices come from. *)
Definition header_ok (h : Header) : Prop :=
  (prefix h = 0 ∨ prefix h = 1 ∨ prefix h = 2 ∨ prefix h = 4) ∧
  (∀ c, count h = Some c → 0 ≤ c ≤ 4294967296) ∧
  (∀ f, first h = Some f → ∃ a n c, range_witness h = (a, a + 2 * n) ∧ 0 ≤ a ∧ count h = Some c ∧
     f = from_le_bytes (sub b a (a + n)) ∧ f + c - 1 = from_le_bytes (sub b (a + n) (a + 2 * n))) ∧
  (qualifier h = 0x5b → 2 ≤ variation h ≤ 8).

Lemma wp_index_field h ordinal p c :
  header_ok h → count h = Some c → 0 ≤ ordinal < c → 0 ≤ p → p + prefix h ≤ zlen b →
  wp (index_field h ordinal b p) (fields_true b range) (λ _, True).
Proof using.
  intros (Hpre & _ & Hfirst & _) Hc Ho Hp Hz. unfold index_field. destruct (Z.ltb_spec 0 (prefix h)).
  - apply wp_bind, wp_uint; [lia..|]. apply wp_ok, fields_true_cons; [|constructor]. by apply true_uint.
  - apply wp_ok. destruct (first h) as [f|]; [|constructor].
    destruct (Hfirst f eq_refl) as (a & n & c' & -> & Ha & Hc' & Hf & Hl).
    apply fields_true_cons; [|constructor]. split; [by split|]. do 2 right. left. split; [done|].
    exists n, (f + ordinal). simpl. split_and!; [done|done|lia|].
    rewrite <- Hl. assert (c' = c) by congruence. lia.
Qed.
End value.
End builders.

(** ** The decoder *)

(** Every octet up to [p] belongs to a record. *)
Definition covered (rs : list SemRecord) (p : Z) : Prop :=
  ∀ i, 0 ≤ i < p → ∃ r, r ∈ rs ∧ (r_range r).1 ≤ i < (r_range r).2.

(** The values among the records after a header; the entries of an attribute list belong
    to the attribute's value. *)
Definition values (rs : list SemRecord) : Z := zlen (List.filter (λ r, negb (r_kind r =? "attribute_list_entry")%string) rs).

(** The contexts whose headers have no values, only, if the qualifier has a prefix, a
    list of indices. *)
Definition headers_only (context : Context) : bool :=
  bool_decide (context = ReadHeaders) || bool_decide (context = ClassHeaders).

(** The number in the field of that name. *)
Definition number (name : string) (r : SemRecord) : option Z :=
  match List.find (λ f, (f_name f =? name)%string) (r_fields r) with
  | Some {| f_value := Unsigned n |} => Some n
  | _ => None
  end.

(** How many values the record of a header announces. *)
Definition announced (context : Context) (hd : SemRecord) : Z :=
  let prefixed := match number "qualifier" hd with Some q => between 1 3 (Z.shiftr q 4) | None => false end in
  if headers_only context && negb prefixed then 0 else
  match number "count" hd, number "range_start" hd, number "range_stop" hd with
  | Some n, _, _ => n
  | _, Some a, Some z => z - a + 1
  | _, _, _ => 0
  end.

(** Headers, each with the values it announces. *)
Inductive blocks (context : Context) : list SemRecord → Prop :=
| blocks_none : blocks context []
| blocks_more rs hd vs :
    blocks context rs → r_kind hd = "object_header" → Forall (λ r, r_kind r ≠ "object_header") vs →
    values vs = announced context hd → blocks context (rs ++ hd :: vs).

Section decoder.
Context (b : list Z) (source : EvidenceBytes) (l : SemLimits).
Context (Hsource : data source = b) (Hb : bytes_ok b) (Hlen : zlen b ≤ i64_max).

(** What holds at every moment, also when the decoder stops. *)
Definition sound (s : Cursor) : Prop :=
  reports l source s.1 ∧ 0 ≤ s.2 ≤ zlen b ∧ Forall (record_true b) (records s.1) ∧ covered (records s.1) s.2.

(** After the records [base], the last of them a header, [k] values were read. *)
Definition since (base : list SemRecord) (k : Z) (s : Cursor) : Prop :=
  sound s ∧ ∃ vs, records s.1 = base ++ vs ∧ values vs = k ∧ Forall (λ r, r_kind r ≠ "object_header") vs ∧
  from_option (λ hd, (r_range hd).2) 0 (last base) ≤ s.2.

Abbreviation sp m s Q := (swp m s Q (λ s _, sound s)).

Lemma swp_on_report {A} (m : Stateful Report A) (s : Cursor) (Q : Cursor → A → Prop) (R : Cursor → Error → Prop) :
  swp m s.1 (λ o a, Q (o, s.2) a) (λ o e, R (o, s.2) e) → swp (on_report m) s Q R.
Proof. unfold swp, on_report. by destruct (m s.1) as [o [a|e| |]]. Qed.

Lemma sp_lift {A} (r : result A) s (Q : Cursor → A → Prop) :
  sound s → wp r (Q s) (λ _, True) → sp (lift r) s Q.
Proof. intros Hs H. apply swp_lift. by eapply wp_mono. Qed.

Lemma sp_throw {A} e s (Q : Cursor → A → Prop) : sound s → sp (throw e) s Q.
Proof. done. Qed.

Lemma sp_position s (Q : Cursor → Z → Prop) : Q s s.2 → sp position s Q.
Proof. done. Qed.

(** Moving over octets that records cover. *)
Lemma sound_move s q :
  sound s → s.2 ≤ q ≤ zlen b →
  (∀ i, s.2 ≤ i < q → ∃ r, r ∈ records s.1 ∧ (r_range r).1 ≤ i < (r_range r).2) → sound (s.1, q).
Proof.
  intros (Hr & Hp & Ht & Hc) Hq Hm. split; [done|]. split; [simpl; lia|]. split; [done|].
  intros i Hi. destruct (decide (i < s.2)); [apply Hc|apply Hm]; simpl in *; lia.
Qed.

Lemma sp_warn c a z s (Q : Cursor → unit → Prop) :
  sound s → 0 ≤ a → a ≤ z → z ≤ zlen b → (∀ o, sound (o, s.2) → records o = records s.1 → Q (o, s.2) ()) →
  sp (on_report (warn c (a, z))) s Q.
Proof using Hsource.
  intros (Hr & Hp & Ht & Hc) Ha Hz Hl HQ. apply swp_on_report, swp_modify. destruct Hr as (Hok & Hs & Hlim).
  assert (records (with_issue s.1 c (a, z)) = records s.1) as Hrec by (unfold with_issue; by destruct (_ <? _)).
  apply HQ; [|done]. unfold sound. cbn [fst snd]. rewrite Hrec. split; [|done].
  unfold reports. split; [|by unfold with_issue; destruct (_ <? _)].
  apply with_issue_ok; [done|]. unfold in_source, len. rewrite Hs, Hsource. by split_and!.
Qed.

(** Adding a record that says what its octets say. *)
Lemma sp_add rec s (Q : Cursor → unit → Prop) :
  sound s → 0 ≤ (r_range rec).1 → record_true b rec →
  (∀ o, sound (o, s.2) → records o = records s.1 ++ [rec] → Q (o, s.2) ()) →
  sp (on_report (add rec)) s Q.
Proof using.
  intros Hs Ha Htrue HQ. pose proof Hs as ((Hok & Hsrc & Hlim) & Hp & Ht & Hc).
  apply swp_on_report, swp_attempt. eapply wp_mono; [apply add_record_checked; [done|]| |].
  - split; [done|]. eapply Forall_impl; [exact Htrue|]. by intros f [? _].
  - intros o (-> & _ & Hok'). apply HQ; [|done]. split; [by split|]. split; [done|]. split.
    + apply Forall_app; auto.
    + intros i Hi. destruct (Hc i Hi) as (r & Hr & ?). exists r. split; [|done]. apply elem_of_app. by left.
  - intros e _. by destruct s.
Qed.

(** Adding a record of a value. *)
Lemma since_add base k s o rec k' :
  since base k s → sound o → records o.1 = records s.1 ++ [rec] → r_kind rec ≠ "object_header" →
  k + values [rec] = k' → o.2 = s.2 → since base k' o.
Proof.
  intros [_ (vs & Hvs & Hk & Hh & Hlow)] Ho Hrec Hkind <- Hpos. split; [done|]. exists (vs ++ [rec]).
  rewrite Hrec, Hvs, app_assoc, Hpos. split; [done|]. split; [|split; [by apply Forall_app; auto|done]].
  rewrite <- Hk. unfold values. by rewrite List.filter_app, zlen_app.
Qed.

Lemma since_move base k s q : since base k s → s.2 ≤ q → sound (s.1, q) → since base k (s.1, q).
Proof.
  intros [_ (vs & Hvs & Hk & Hh & Hlow)] Hq Hs. split; [done|]. exists vs. split_and!; try done. simpl. lia.
Qed.

Lemma sp_need at_ n fld s (Q : Cursor → unit → Prop) :
  sound s → 0 ≤ at_ ≤ zlen b → 0 ≤ n ≤ i64_max → (at_ + n ≤ zlen b → Q s ()) → sp (lift (need b at_ n fld)) s Q.
Proof using Hlen. intros Hs Ha Hn HQ. apply sp_lift; [done|]. apply wp_need; [lia|lia|lia|done|done]. Qed.

Lemma sp_fields {range} (r : result (list Field)) s (Q : Cursor → list Field → Prop) :
  sound s → wp r (fields_true b range) (λ _, True) → (∀ fs, fields_true b range fs → Q s fs) → sp (lift r) s Q.
Proof. intros Hs H HQ. apply sp_lift; [done|]. eapply wp_mono; [exact H|apply HQ|done]. Qed.

Ltac sp_step :=
  lazymatch goal with
  | |- swp (mbind _ _) _ _ _ => apply swp_bind
  | |- swp (mret _) _ _ _ => apply swp_ret
  | |- swp (throw _) _ _ _ => apply sp_throw; assumption
  | |- swp position _ _ _ => apply sp_position
  | |- swp (if _ then _ else _) _ _ _ => apply swp_if; intros; bool_facts
  | |- swp (let _ := _ in _) _ _ _ => cbv zeta
  end.

(** A record that ends a value, and the step past it. *)
Lemma sp_value_add rec q base k s (Q : Cursor → unit → Prop) :
  since base k s → (r_range rec).1 = s.2 → (r_range rec).2 = q → s.2 ≤ q ≤ zlen b → record_true b rec →
  r_kind rec ≠ "object_header" → values [rec] = 1 → (∀ o, since base (k + 1) (o, q) → Q (o, s.2) ()) →
  sp (on_report (add rec)) s Q.
Proof using.
  intros Hs H1 H2 Hq Htrue Hkind Hv HQ. pose proof Hs as [Hsnd _]. pose proof Hsnd as (_ & Hp & _).
  apply sp_add; [done|lia|done|]. intros o Ho Hrec. apply HQ.
  apply (since_move base (k + 1) (o, s.2)); [eapply since_add; try done; by rewrite Hv|simpl; lia|].
  apply (sound_move (o, s.2)); [done|simpl; lia|].
  intros i Hi. exists rec. cbn [fst]. rewrite Hrec, H1, H2. split; [|exact Hi]. apply elem_of_app. right.
  apply elem_of_cons. by left.
Qed.

Lemma sp_value_record rec q base k s :
  since base k s → (r_range rec).1 = s.2 → (r_range rec).2 = q → s.2 ≤ q ≤ zlen b → record_true b rec →
  r_kind rec ≠ "object_header" → values [rec] = 1 →
  sp (on_report (add rec) ;; move_to q) s (λ s' _, since base (k + 1) s').
Proof using.
  intros. apply swp_bind. by eapply sp_value_add.
Qed.

Lemma sp_value_step h shp c base k s :
  header_ok b h → count h = Some c → 0 ≤ k < c → shape_ok shp → shp ≠ Attribute → since base k s →
  sp (value_step b h shp () k) s (λ s' _, since base (k + 1) s').
Proof using Hb Hlen.
  intros Hh Hc Hk Hshp Hna Hs. pose proof Hs as [Hsnd _]. pose proof Hsnd as (_ & Hp & _).
  pose proof Hh as (Hpre & _).
  pose proof (shape_width_bound _ Hshp) as Hw.
  unfold value_step. cbv zeta. do 2 sp_step. sp_step. apply sp_need; [done|lia..|]. intros Hfit.
  sp_step. eapply (sp_fields (range := (s.2, s.2 + prefix h + shape_width shp))); [done|eapply wp_index_field; [exact Hh|exact Hc|lia..]|].
  intros idx Hidx. sp_step. eapply sp_fields; [done|apply (wp_value_fields _ Hb Hlen (s.2, s.2 + prefix h + shape_width shp)); [done|done|lia|lia]|].
  intros fs Hfs. apply sp_value_record; simpl; try done; try lia.
  by apply fields_true_app.
Qed.

Lemma sp_hashed length a z s (Q : Cursor → Value → Prop) :
  sound s → 0 ≤ a → length = z - a → a ≤ z → z ≤ zlen b → (∀ v, reading (sub b a z) v → Q s v) →
  sp (lift (hashed b length a z)) s Q.
Proof using.
  intros Hs Ha -> Hz Hl HQ. apply sp_lift; [done|]. unfold hashed. apply wp_bind, wp_slice; [done..|].
  rewrite digest_ok, bind_Ok. apply wp_ok, HQ. rewrite <- (zlen_sub b a z) at 1 by lia. constructor.
Qed.

Lemma sp_idx i s (Q : Cursor → Z → Prop) : sound s → 0 ≤ i < zlen b → Q s (nthz b i) → sp (lift (idx b i)) s Q.
Proof using. intros. apply sp_lift; [done|]. by apply wp_idx. Qed.

Lemma sp_uint i n s (Q : Cursor → Z → Prop) :
  sound s → 0 ≤ i → 0 ≤ n → i + n ≤ zlen b → Q s (from_le_bytes (sub b i (i + n))) → sp (lift (uint b i n true)) s Q.
Proof using. intros. apply sp_lift; [done|]. by apply wp_uint. Qed.

(** *** Attributes *)

Lemma sp_list_entry a k base ord s :
  since base k s → 0 ≤ a → 0 ≤ ord → a + ord * 2 + 2 ≤ zlen b →
  sp (list_entry b a () ord) s (λ s' _, since base k s' ∧ s'.2 = s.2).
Proof using Hb Hlen Hsource.
  intros Hs Ha Ho Hz. pose proof Hs as [Hsnd _]. unfold list_entry. cbv zeta.
  sp_step. apply sp_idx; [done|lia|]. sp_step. apply sp_idx; [done|lia|].
  apply sp_add; [done|simpl; lia| |].
  - apply fields_true_cons; [apply true_octet; lia|]. apply fields_true_cons; [|constructor].
    replace (a + ord * 2 + 2) with (a + ord * 2 + 1 + 1) by lia. apply true_octet; lia.
  - intros o Ho' Hrec. split; [|done]. eapply since_add; [done|done|exact Hrec|done|apply Z.add_0_r|done].
Qed.

(** What the match on the data type gives: fields, and a value read from its octets. *)
Definition attribute_read base k range a z (p : Z) (s : Cursor) (mv : list Field * Value) : Prop :=
  since base k s ∧ s.2 = p ∧ fields_true b range mv.1 ∧ reading (sub b a z) mv.2.

Lemma wp_signed_attribute a length :
  0 ≤ a → 0 ≤ length → a + length ≤ zlen b →
  wp (signed_attribute b a length)
     (λ n, n = as_signed (8 * zlen (sub b a (a + length))) (from_le_bytes (sub b a (a + length)))) (λ _, True).
Proof using Hb Hlen Hsource.
  intros Ha Hl Hz. unfold signed_attribute. rewrite zlen_sub by lia.
  destruct (Z.eqb_spec length 1) as [->|]; [|destruct (Z.eqb_spec length 2) as [->|]; [|destruct (Z.eqb_spec length 4) as [->|]]].
  - apply wp_bind, wp_idx; [lia|]. apply wp_ok. rewrite le_one by lia. f_equal. lia.
  - apply wp_bind, wp_uint; [lia..|]. apply wp_ok. rewrite as_unsigned_16 by done. f_equal. lia.
  - apply wp_bind, wp_uint; [lia..|]. apply wp_ok. rewrite as_unsigned_32 by done. f_equal. lia.
  - done.
Qed.

Lemma sp_attribute_list base k range a length s :
  since base k s → 0 ≤ a → 0 ≤ length → a + length ≤ zlen b → length mod 2 = 0 →
  sp (foldC (list_entry b a) () (seqZ 0 (length / 2))) s
     (λ s' _, sp (v ← lift (hashed b length a (a + length));
                  mret ([derived "list_entry_count" (length / 2) (a, a + length) "attribute_list_pairs"], v)) s'
                 (attribute_read base k range a (a + length) s.2)).
Proof using Hb Hlen Hsource.
  intros Hs Ha Hl Hz Heven. pose proof (Z.div_mod length 2 ltac:(lia)).
  apply (swp_fold (λ _ s' _, since base k s' ∧ s'.2 = s.2)) with (done := []); [|done|].
  - rewrite app_nil_l. intros pre ord post s' [] Hsplit [Hs' <-].
    assert (ord ∈ seqZ 0 (length / 2)) as Hin%elem_of_seqZ by (rewrite Hsplit; set_solver).
    eapply swp_mono; [apply sp_list_entry; [exact Hs'|lia..]|done|done].
  - intros s' [] [Hs' Hp]. sp_step. apply sp_hashed; [apply Hs'|lia..|]. intros v Hv. sp_step.
    split; [done|]. split; [done|]. split; [|done]. apply fields_true_cons; [|constructor].
    split; [by split|]. do 4 right. left. split; [done|]. simpl. do 2 f_equal. lia.
Qed.

Lemma sp_attribute_value base k range var ty data a length s :
  since base k s → 0 ≤ data → data ≤ a → 0 ≤ length → a + length ≤ zlen b →
  sp (attribute_value b var ty data a length (a + length)) s (attribute_read base k range a (a + length) s.2).
Proof using Hb Hlen Hsource.
  intros Hs Hd Ha Hl Hz. pose proof Hs as [Hsnd _]. unfold attribute_value.
  assert (∀ v, reading (sub b a (a + length)) v → attribute_read base k range a (a + length) s.2 s ([], v)) as Hplain
    by (intros v Hv; split; [done|split; [done|split; [constructor|done]]]).
  assert (zlen (sub b a (a + length)) = length) as Hn by (rewrite zlen_sub; lia).
  repeat sp_step; try done.
  - apply sp_hashed; [done|lia..|]. intros v Hv. sp_step. auto.
  - apply sp_uint; [done|lia..|]. sp_step. apply Hplain. constructor.
  - apply sp_lift; [done|]. eapply wp_mono; [apply wp_signed_attribute; lia| |done]. intros n Hnv.
    sp_step. apply (swp_mono _ _ (λ s' _, since base k s' ∧ s'.2 = s.2) _ (λ s _, sound s)); [|intros s' [] [Hs' Hp]|done].
    + repeat sp_step; [|done]. apply sp_warn; [done|lia..|]. intros o Ho Hrec. split; [|done].
      destruct Hs as [_ (vs & Hvs & ?)]. split; [done|]. exists vs. split; [|done]. by rewrite <- Hvs.
    + repeat sp_step.
      * split; [done|]. split; [done|]. split; [constructor|]. apply reads_truth; [done|]. bool_facts. lia.
      * split; [done|]. split; [done|]. split; [constructor|]. rewrite Hnv. constructor.
  - apply sp_uint; [done|lia..|]. sp_step. apply Hplain. assert (length = 4) as -> by lia. rewrite as_unsigned_32 by (done || lia). by apply reads_float32.
  - apply sp_uint; [done|lia..|]. sp_step. apply Hplain. assert (length = 8) as -> by lia. by apply reads_float64.
  - apply sp_uint; [done|lia..|]. sp_step. apply Hplain. assert (length = 6) as -> by lia. by apply reads_time.
  - apply sp_attribute_list; [done|lia..].
  - apply sp_warn; [done|lia..|]. intros o Ho Hrec. sp_step. apply sp_hashed; [done|lia..|]. intros v Hv. sp_step.
    split; [|by split; [|split; [constructor|]]].
    destruct Hs as [_ (vs & Hvs & ?)]. split; [done|]. exists vs. split; [|done]. by rewrite <- Hvs.
Qed.

Lemma sp_attribute_step h c base k s :
  header_ok b h → count h = Some c → 0 ≤ k < c → since base k s →
  sp (attribute_step b h () k) s (λ s' _, since base (k + 1) s').
Proof using Hb Hlen Hsource.
  intros Hh Hc Hk Hs. pose proof Hs as [Hsnd _]. pose proof Hsnd as (_ & Hp & _). pose proof Hh as (Hpre & _).
  unfold attribute_step. do 2 sp_step. sp_step. apply sp_need; [done|lia..|]. intros Hfit. cbv zeta.
  set (data := s.2 + prefix h) in *.
  sp_step. apply sp_idx; [done|lia|]. sp_step. apply sp_idx; [done|lia|].
  pose proof (nthz_byte b (data + 1) Hb) as Hbyte.
  set (ty := nthz b data). set (enc := nthz b (data + 1)) in *.
  set (length := if ty =? 255 then 256 + enc else enc).
  assert (0 ≤ length ≤ 511) as Hlength by (unfold length; destruct (ty =? 255); lia).
  sp_step. apply sp_need; [done|lia..|]. intros Hfit2.
  sp_step. eapply (sp_fields (range := (s.2, data + 2 + length))); [done|eapply wp_index_field; [exact Hh|exact Hc|lia..]|].
  intros idx Hidx. sp_step.
  eapply swp_mono; [eapply (sp_attribute_value base k (s.2, data + 2 + length)); [exact Hs|lia..]| |done].
  intros s' [more value] (Hs' & Hp' & Hmore & Hval). cbn [fst snd] in *.
  apply sp_value_record; simpl; try done; try lia.
  apply fields_true_app; [done|]. apply fields_true_cons; [apply true_octet; lia|].
  apply fields_true_cons; [replace (data + 2) with (data + 1 + 1) by lia; apply true_octet; lia|].
  apply fields_true_app; [|apply fields_true_app; [done|]].
  - unfold length. destruct (ty =? 255); [|constructor]. apply fields_true_cons; [|constructor].
    split; [split; simpl; [lia|done]|]. do 3 right. left. by split.
  - apply fields_true_cons; [|constructor]. apply true_direct; [lia|done].
Qed.

(** *** File objects and packed values *)

Lemma sp_file_object_step h c base k s :
  header_ok b h → count h = Some c → 2 ≤ variation h ≤ 8 → since base k s →
  sp (file_object_step b h () k) s (λ s' _, since base (k + 1) s').
Proof using Hb Hlen Hsource.
  intros Hh Hc Hv Hs. pose proof Hs as [Hsnd _]. pose proof Hsnd as (_ & Hp & _).
  unfold file_object_step. do 2 sp_step. sp_step. apply sp_need; [done|lia..|]. intros Hfit.
  sp_step. apply sp_uint; [done|lia..|]. cbv zeta. rewrite as_unsigned_16 by (done || lia).
  pose proof (le_bound b Hb s.2 2 ltac:(lia) ltac:(lia) ltac:(lia)) as Hn.
  set (length := from_le_bytes (sub b s.2 (s.2 + 2))) in *. change (256 ^ 2) with 65536 in Hn.
  sp_step. apply sp_lift; [done|]. apply wp_ok_or; [|done]. intros m Hm.
  destruct (checked_add usize_max s.2 2) as [m'|] eqn:Hm'; [|done]. apply checked_add_Some in Hm' as [-> _].
  apply checked_add_Some in Hm as [-> _].
  sp_step. apply sp_need; [done|lia..|]. intros Hfit2.
  sp_step. eapply sp_fields; [done|apply (wp_file_object_fields b Hb Hlen s.2 length); [lia..|done]|].
  intros fs Hfs. apply sp_value_record; simpl; try done; try lia.
Qed.

(** A loop over the values. *)
Lemma sp_each (step : unit → Z → Decoding unit) c base s :
  0 ≤ c → since base 0 s →
  (∀ k s, 0 ≤ k < c → since base k s → sp (step () k) s (λ s' _, since base (k + 1) s')) →
  sp (foldC step () (seqZ 0 c)) s (λ s' _, since base c s').
Proof using.
  intros Hc Hs Hstep. apply (swp_fold (λ pre s' _, since base (zlen pre) s')) with (done := []); [|done|].
  - rewrite app_nil_l. intros pre k post s' [] Hsplit Hs'. apply seqZ_split in Hsplit as (-> & ? & _).
    eapply swp_mono; [by apply Hstep| |done]. intros s'' [] Hs''. by rewrite zlen_app.
  - intros s' []. rewrite app_nil_l. by rewrite zlen_seqZ.
Qed.

(** The records of the first values of a packed array. *)
Definition packed_covered (p0 bits n : Z) (s : Cursor) : Prop :=
  s.2 = p0 ∧ ∀ j, 0 ≤ j < n → ∃ r, r ∈ records s.1 ∧ r_range r = (p0 + j * bits / 8, p0 + j * bits / 8 + 1).

Lemma sp_packed_step h c bits p0 base k s :
  header_ok b h → count h = Some c → prefix h = 0 → shape_ok (Packed bits) → 0 ≤ k < c → 0 ≤ p0 →
  p0 + (k * bits / 8 + 1) ≤ zlen b → since base k s → packed_covered p0 bits k s →
  sp (packed_step b h bits p0 () k) s (λ s' _, since base (k + 1) s' ∧ packed_covered p0 bits (k + 1) s').
Proof using Hb Hlen Hsource.
  intros Hh Hc Hpre Hbits Hk Hp0 Hfit Hs [Hpos Hcov]. pose proof Hs as [Hsnd _]. unfold packed_step. cbv zeta.
  simpl in Hbits. pose proof (Z.div_pos (k * bits) 8 ltac:(lia) ltac:(lia)).
  set (at_ := p0 + k * bits / 8) in *.
  sp_step. eapply (sp_fields (range := (at_, at_ + 1))); [done|eapply wp_index_field; [exact Hh|exact Hc|lia..]|].
  intros idx Hidx. sp_step. apply sp_idx; [done|lia|].
  pose proof (Z.mod_pos_bound (k * bits) 8 ltac:(lia)).
  apply sp_add; [done|simpl; lia| |].
  - apply fields_true_app; [done|]. apply fields_true_cons; [|constructor].
    destruct Hbits as [-> | ->]; cbn [Z.eqb Pos.eqb].
    + rewrite land_bit by lia. apply true_bit; lia.
    + change (Z.shiftl 1 2 - 1) with 3. apply true_pair; [lia|].
      pose proof (Z.div_mod (k * 2) 8 ltac:(lia)). lia.
  - intros o Ho Hrec. split; [by eapply since_add|]. split; [done|]. cbn [fst]. rewrite Hrec.
    intros j Hj. destruct (decide (j = k)) as [->|].
    + eexists. split; [apply elem_of_app; right; apply elem_of_cons; by left|done].
    + destruct (Hcov j ltac:(lia)) as (r & Hr & ?). exists r. split; [|done]. apply elem_of_app. by left.
Qed.

Lemma sp_packed h c bits base s :
  header_ok b h → count h = Some c → shape_ok (Packed bits) → since base 0 s →
  sp (packed b h c bits) s (λ s' _, since base c s').
Proof using Hb Hlen Hsource.
  intros Hh Hc Hbits Hs. pose proof Hs as [Hsnd _]. pose proof Hsnd as (_ & Hp & _).
  pose proof Hh as (_ & Hcount & _). specialize (Hcount c Hc). simpl in Hbits.
  unfold packed. do 2 sp_step. sp_step; [done|]. assert (prefix h = 0) as Hpre by lia.
  sp_step. apply sp_lift; [done|]. rewrite mul_ovf_ok by nia. apply wp_ok. cbv zeta.
  assert (0 ≤ div_ceil (c * bits) 8 ∧ c * bits ≤ 8 * div_ceil (c * bits) 8 < c * bits + 8) as Hceil.
  { unfold div_ceil. pose proof (Z.div_mod (c * bits + 8 - 1) 8 ltac:(lia)).
    pose proof (Z.mod_pos_bound (c * bits + 8 - 1) 8 ltac:(lia)). nia. }
  sp_step. apply sp_need; [done|lia|nia|]. intros Hfit. sp_step.
  apply (swp_fold (λ pre s' _, since base (zlen pre) s' ∧ packed_covered s.2 bits (zlen pre) s')) with (done := []).
  - rewrite app_nil_l. intros pre k post s' [] Hsplit [Hs' Hcov].
    apply seqZ_split in Hsplit as (-> & ? & _).
    pose proof (Z.div_mod (zlen pre * bits) 8 ltac:(lia)). pose proof (Z.mod_pos_bound (zlen pre * bits) 8 ltac:(lia)).
    eapply swp_mono; [apply (sp_packed_step h c); try done; nia| |done].
    intros s'' [] Hs''. by rewrite zlen_app.
  - split; [done|]. split; [done|]. intros j Hj. unfold zlen in Hj. simpl in Hj. lia.
  - intros s' []. rewrite app_nil_l, zlen_seqZ by lia. intros [Hs' [Hpos Hcov]]. apply swp_modify.
    apply since_move; [done|lia|]. apply sound_move; [apply Hs'|lia|]. intros i Hi.
    set (j := (i - s.2) * 8 / bits).
    assert (j * bits = (i - s.2) * 8) as Hj.
    { subst j. destruct Hbits as [-> | ->]; [by rewrite Z.div_1_r, Z.mul_1_r|].
      replace ((i - s.2) * 8) with ((i - s.2) * 4 * 2) by lia. by rewrite Z.div_mul. }
    destruct (Hcov j ltac:(nia)) as (r & Hr & Hrange). exists r. split; [done|]. rewrite Hrange, Hj. simpl.
    rewrite Z.div_mul by done. lia.
Qed.

(** *** [objects] *)

Lemma sp_objects h base s :
  header_ok b h → since base 0 s →
  sp (objects b h) s (λ s' _, ∃ c, count h = Some c ∧ since base c s').
Proof using Hb Hlen Hsource.
  intros Hh Hs. pose proof Hs as [Hsnd _]. pose proof Hh as (_ & Hcount & _ & Hfile).
  unfold objects. do 2 sp_step. destruct (count h) as [c|] eqn:Hc; [|by sp_step].
  specialize (Hcount c eq_refl).
  eapply (swp_mono _ _ (λ s' _, since base c s') _ (λ s' _, sound s')); [|intros s' a Hs'; by exists c|done].
  sp_step. apply swp_on_report, swp_get. replace (s.1, s.2) with s by by destruct s.
  sp_step; [done|]. sp_step.
  { apply sp_each; [lia|done|]. intros. eapply sp_file_object_step; [done|exact Hc|apply Hfile; lia|done]. }
  sp_step. apply sp_lift; [done|]. apply wp_ok_or; [|done]. intros shp Hshp%shape_ok_of.
  destruct shp.
  1: by apply sp_packed.
  all: apply sp_each; [lia|done|]; intros; (by eapply sp_attribute_step) || by eapply sp_value_step.
Qed.

(** *** Read requests *)

Lemma sp_advance n s (Q : Cursor → unit → Prop) :
  sound s → 0 ≤ n ≤ zlen b → (∀ o, sound (o, s.2) → records o = records s.1 → Q (o, s.2) ()) →
  sp (on_report (advance n)) s Q.
Proof using Hsource.
  intros ((Hok & Hs & Hl) & Hp & Ht & Hc) Hn HQ. apply swp_on_report, swp_modify. apply HQ; [|done].
  split; [|done]. split; [|done]. destruct Hok. constructor; try done. simpl. rewrite Hs. unfold len. by rewrite Hsource.
Qed.

Lemma sp_selector_step h c base k s :
  header_ok b h → 0 ≤ k < c → since base k s →
  sp (selector_step b h c () k) s (λ s' _, since base (k + 1) s').
Proof using Hb Hlen Hsource.
  intros (Hpre & _) Hk Hs. pose proof Hs as [Hsnd _]. pose proof Hsnd as (_ & Hp & _).
  unfold selector_step. do 2 sp_step. sp_step. apply sp_need; [done|lia..|]. intros Hfit.
  sp_step. apply sp_uint; [done|lia..|].
  sp_step. eapply sp_value_add; try done; try (simpl; lia).
  { apply fields_true_cons; [apply true_uint; lia|constructor]. }
  intros o Ho. sp_step. apply swp_modify. sp_step; [|by sp_step].
  cbn [fst snd] in *. apply sp_advance; [apply Ho|lia|]. intros o' Ho' Hrec. cbn [fst snd] in *.
  destruct Ho as [_ (vs & Hvs & ?)]. split; [done|]. exists vs. split; [|done]. cbn [fst] in *. by rewrite Hrec.
Qed.

Lemma sp_selectors h base s :
  header_ok b h → since base 0 s →
  sp (selectors b h) s
     (λ s' _, prefix h = 0 ∧ since base 0 s' ∨ prefix h ≠ 0 ∧ ∃ c, count h = Some c ∧ since base c s').
Proof using Hb Hlen Hsource.
  intros Hh Hs. pose proof Hs as [Hsnd _]. pose proof Hh as (_ & Hcount & _).
  unfold selectors. do 2 sp_step. sp_step; [|sp_step; left; split; [lia|done]].
  destruct (count h) as [c|] eqn:Hc; [|by sp_step]. specialize (Hcount c eq_refl).
  eapply (swp_mono _ _ (λ s' _, since base c s') _ (λ s' _, sound s')); [|intros s' a Hs'; right|done].
  - apply sp_each; [lia|done|]. intros. by eapply sp_selector_step.
  - split; [lia|]. by exists c.
Qed.

(** *** Headers *)

(** What a qualifier gives: the header of the record [hd] announces its values. *)
Definition qualified (start g v q : Z) (r : option Z * option Z * Z * Z * list Field) : Prop :=
  let '(c, f, pre, stop, more) := r in
  let h := {| group := g; variation := v; qualifier := q; count := c; first := f; prefix := pre;
              range_witness := (start + 3, stop) |} in
  let hd := record_new "object_header" (start, stop) (header_fields start g v q ++ more) in
  start + 3 ≤ stop ≤ zlen b ∧ fields_true b (start, stop) more ∧ header_ok b h ∧
  ∀ context,
    if headers_only context && (pre =? 0) then announced context hd = 0
    else ∀ n, c = Some n → announced context hd = n.

Lemma wp_parse_range start g v q code :
  0 ≤ start → start + 3 ≤ zlen b → 0 ≤ code ≤ 2 → Z.shiftr q 4 = 0 → (q = 0x5b → 2 ≤ v ≤ 8) →
  wp (parse_range b (start + 3) code) (qualified start g v q) (λ _, True).
Proof using Hb Hlen Hsource.
  intros Hs Hz Hcode Hq Hfile. unfold parse_range. cbv zeta.
  assert (1 ≤ Z.shiftl 1 code ≤ 4) as Hn.
  { assert (code = 0 ∨ code = 1 ∨ code = 2) as [->|[-> | ->]] by lia; by vm_compute. }
  set (n := Z.shiftl 1 code) in *.
  apply wp_bind, wp_need; [lia|lia|lia| |done]. intros Hfit. do 2 (apply wp_bind, wp_uint; [lia..|]).
  destruct (Z.ltb_spec (from_le_bytes (sub b (start + 3 + n) (start + 3 + n + n))) (from_le_bytes (sub b (start + 3) (start + 3 + n)))); [done|].
  apply wp_ok. pose proof (le_bound b Hb (start + 3) n ltac:(lia) ltac:(lia) ltac:(lia)) as H1.
  pose proof (le_bound b Hb (start + 3 + n) n ltac:(lia) ltac:(lia) ltac:(lia)) as H2.
  assert (256 ^ n ≤ 256 ^ 4) as H3 by (apply Z.pow_le_mono_r; lia). change (256 ^ 4) with 4294967296 in H3.
  split; [lia|]. split; [|split].
  - apply fields_true_cons; [apply true_uint; lia|]. apply fields_true_cons; [|constructor].
    replace (start + 3 + n * 2) with (start + 3 + n + n) by lia. apply true_uint; lia.
  - split; [by left|]. split; [intros c [= <-]; lia|]. split; [|done]. intros f [= <-].
    eexists (start + 3), n, _. simpl. split; [f_equal; lia|]. split; [lia|]. split; [done|]. split; [done|].
    replace (start + 3 + 2 * n) with (start + 3 + n + n) by lia. lia.
  - intros context. unfold announced, number. simpl. rewrite Hq. simpl. rewrite andb_true_r.
    destruct (headers_only context); [done|]. by intros m [= <-].
Qed.

Lemma wp_parse_count start g v q code :
  0 ≤ start → start + 3 ≤ zlen b → 7 ≤ code ≤ 9 → 0 ≤ Z.shiftr q 4 ≤ 3 → (q = 0x5b → 2 ≤ v ≤ 8) →
  wp (parse_count b (start + 3) (Z.shiftr q 4) code) (qualified start g v q) (λ _, True).
Proof using Hb Hlen Hsource.
  intros Hs Hz Hcode Hq Hfile. unfold parse_count. cbv zeta.
  assert (1 ≤ Z.shiftl 1 (code - 7) ≤ 4) as Hn.
  { assert (code = 7 ∨ code = 8 ∨ code = 9) as [->|[-> | ->]] by lia; by vm_compute. }
  set (n := Z.shiftl 1 (code - 7)) in *.
  apply wp_bind, wp_need; [lia|lia|lia| |done]. intros Hfit. apply wp_bind, wp_uint; [lia..|].
  apply wp_ok. pose proof (le_bound b Hb (start + 3) n ltac:(lia) ltac:(lia) ltac:(lia)) as H1.
  assert (256 ^ n ≤ 256 ^ 4) as H3 by (apply Z.pow_le_mono_r; lia). change (256 ^ 4) with 4294967296 in H3.
  split; [lia|]. split; [|split].
  - apply fields_true_cons; [apply true_uint; lia|constructor].
  - split; [|split; [intros c [= <-]; lia|split; [done|done]]]. simpl.
    assert (Z.shiftr q 4 = 0 ∨ Z.shiftr q 4 = 1 ∨ Z.shiftr q 4 = 2 ∨ Z.shiftr q 4 = 3)
      as [->|[->|[-> | ->]]] by lia; simpl; auto.
  - intros context. unfold announced, number. simpl.
    assert (Z.shiftr q 4 = 0 ∨ Z.shiftr q 4 = 1 ∨ Z.shiftr q 4 = 2 ∨ Z.shiftr q 4 = 3)
      as [->|[->|[-> | ->]]] by lia; simpl; destruct (headers_only context); simpl; try done; by intros m [= <-].
Qed.

Lemma wp_parse_qualifier start g v q :
  0 ≤ start → start + 3 ≤ zlen b → 0 ≤ q < 256 →
  wp (parse_qualifier b start g v q) (qualified start g v q) (λ _, True).
Proof using Hb Hlen Hsource.
  intros Hs Hz Hq. unfold parse_qualifier. cbv zeta.
  assert (q = 0x5b → Z.shiftr q 4 = 5) as H5b by (by intros ->).
  destruct (_ && _) eqn:H1; [|clear H1; destruct (_ && _) eqn:H2; [|clear H2; destruct (_ && _) eqn:H3; [|clear H3; destruct (_ && _) eqn:H4; [|done]]]].
  - apply andb_true_iff in H1 as [Hc Hr%between_true]. apply Z.eqb_eq in Hc.
    apply wp_parse_range; try done; lia.
  - apply andb_true_iff in H2 as [Hc _]. apply Z.eqb_eq in Hc. apply wp_ok.
    split; [lia|]. split; [constructor|]. split; [split; [by left|]; split; [done|]; split; [done|]; simpl; lia|].
    intros context. unfold announced, number. simpl. rewrite Hc. simpl. by destruct (headers_only context).
  - apply andb_true_iff in H3 as [Hc%between_true Hr%between_true]. apply wp_parse_count; try done; lia.
  - repeat apply andb_true_iff in H4 as [H4 ?]. apply Z.eqb_eq in H4.
    match goal with H : between 2 8 v = true |- _ => apply between_true in H as Hv end.
    unfold parse_file_count. apply wp_bind, wp_need; [lia|lia|lia| |done]. intros Hfit. apply wp_bind, wp_idx; [lia|].
    apply wp_ok. pose proof (nthz_byte b (start + 3) Hb).
    split; [lia|]. split; [apply fields_true_cons; [apply true_octet; lia|constructor]|]. split.
    + split; [by left|]. split; [intros c [= <-]; lia|]. split; [done|]. simpl. lia.
    + intros context. unfold announced, number. simpl. rewrite H4. simpl.
      destruct (headers_only context); simpl; [done|]. by intros m [= <-].
Qed.

(** The state after a header. *)
Definition headed (s s' : Cursor) (h : Header) : Prop :=
  ∃ hd, header_ok b h ∧ since (records s.1 ++ [hd]) 0 s' ∧ s.2 + 3 ≤ (r_range hd).2 ∧ r_kind hd = "object_header" ∧
    ∀ context, if headers_only context && (prefix h =? 0) then announced context hd = 0
               else ∀ n, count h = Some n → announced context hd = n.

Lemma sp_parse_header s : sound s → sp (parse_header b) s (headed s).
Proof using Hb Hlen Hsource.
  intros Hs. pose proof Hs as (_ & Hp & _). unfold parse_header. do 2 sp_step.
  sp_step. apply sp_need; [done|lia..|]. intros Hfit. do 3 (sp_step; apply sp_idx; [done|lia|]).
  sp_step; [done|]. sp_step. apply sp_lift; [done|].
  eapply wp_mono; [apply wp_parse_qualifier; [lia|lia|apply nthz_byte, Hb]| |done].
  intros [[[[c f] pre] stop] more] (Hstop & Hmore & Hh & Hann).
  set (g := nthz b s.2) in *. set (v := nthz b (s.2 + 1)) in *. set (q := nthz b (s.2 + 2)) in *.
  set (hd := record_new "object_header" (s.2, stop) (header_fields s.2 g v q ++ more)) in *.
  sp_step. apply sp_add; [done|simpl; lia| |].
  { apply fields_true_app; [|done]. unfold header_fields.
    repeat (apply fields_true_cons; [|]); [apply true_octet; lia| | |constructor].
    - replace (s.2 + 2) with (s.2 + 1 + 1) by lia. apply true_octet; lia.
    - replace (s.2 + 3) with (s.2 + 2 + 1) by lia. apply true_octet; lia. }
  intros o Ho Hrec. sp_step. apply swp_modify. sp_step. exists hd.
  split; [done|]. split; [|split; [simpl; lia|split; [done|exact Hann]]].
  assert (sound (o, stop)) as Hso.
  { apply (sound_move (o, s.2)); [done|simpl; lia|]. intros i Hi. exists hd. cbn [fst]. rewrite Hrec.
    split; [|simpl in *; lia]. apply elem_of_app. right. apply elem_of_cons. by left. }
  split; [done|]. exists []. rewrite app_nil_r, last_snoc. split; [done|]. split; [done|]. split; [constructor|]. simpl. lia.
Qed.

Lemma sp_context_checks context start h s :
  sound s → 0 ≤ start → start + 3 ≤ zlen b → sp (context_checks b context start h) s (λ s' _, s' = s).
Proof using Hb Hlen Hsource.
  intros Hs Ha Hz. unfold context_checks. do 2 sp_step. sp_step. apply sp_idx; [done|lia|]. by repeat sp_step.
Qed.

(** One round: a header and its values. *)
Lemma sp_decode_header context s :
  sound s → blocks context (records s.1) →
  sp (decode_header b context) s
     (λ s' _, sound s' ∧ blocks context (records s'.1) ∧ s.2 + 3 ≤ s'.2).
Proof using Hb Hlen Hsource.
  intros Hs Hblocks. pose proof Hs as (_ & Hp & _). unfold decode_header. do 2 sp_step.
  sp_step. eapply swp_mono; [by apply sp_parse_header| |done].
  intros s' h (hd & Hh & Hs' & Hlow & Hkind & Hann). pose proof Hs' as [Hsnd (_ & _ & _ & _ & Hpos)].
  rewrite last_snoc in Hpos. cbn [from_option] in Hpos. pose proof Hsnd as (_ & Hp' & _).
  sp_step. eapply swp_mono; [apply sp_context_checks; [done|lia|lia]| |done]. intros s'' _ ->.
  assert (∀ k s'', since (records s.1 ++ [hd]) k s'' → announced context hd = k →
            sound s'' ∧ blocks context (records s''.1) ∧ s.2 + 3 ≤ s''.2) as Hend.
  { intros k s'' [Hsnd' (vs & Hvs & Hk & Hkinds & Hpos')] Hn. rewrite last_snoc in Hpos'. cbn [from_option] in Hpos'.
    split; [done|]. split; [|lia]. rewrite Hvs, <- app_assoc. constructor; [done|done|done|congruence]. }
  specialize (Hann context). fold (headers_only context). destruct (headers_only context); cbn [andb] in Hann.
  - eapply swp_mono; [by eapply sp_selectors| |done]. intros s'' _ [[Hpre Hs'']|(Hpre & c & Hc & Hs'')].
    + rewrite Hpre in Hann. by eapply Hend.
    + rewrite (proj2 (Z.eqb_neq _ _) Hpre) in Hann. eapply Hend; [done|auto].
  - eapply swp_mono; [by eapply sp_objects| |done]. intros s'' _ (c & Hc & Hs''). eapply Hend; [done|auto].
Qed.

(** *** The loop *)

(** A report that tells the truth about its source. *)
Definition faithful (context : Context) (r : Report) : Prop :=
  reports l source r ∧ Forall (record_true b) (records r) ∧ covered (records r) (consumed r) ∧
  (rp_status r = DecodedSubset → consumed r = len source ∧ blocks context (records r)).

Lemma sound_consumed s : sound s → sound (with_consumed s.1 s.2, s.2).
Proof using Hsource.
  intros ((Hok & Hs & Hl) & Hp & H). split; [|done]. split; [|done]. destruct Hok. constructor; try done.
  simpl. rewrite Hs. unfold len. by rewrite Hsource.
Qed.

Lemma faithful_stop context s e : sound s → faithful context (stop s.1 e s.2).
Proof using Hsource.
  intros ((Hok & Hs & Hl) & Hp & Ht & Hc).
  assert (rp_source (stop s.1 e s.2) = source ∧ rp_limits (stop s.1 e s.2) = l ∧
          records (stop s.1 e s.2) = records s.1 ∧ consumed (stop s.1 e s.2) = s.2) as (H1 & H2 & H3 & H4).
  { assert (Z.min s.2 (len (rp_source s.1)) = s.2) as Hmin by (rewrite Hs; unfold len; rewrite Hsource; lia).
    unfold stop, with_issue. destruct (_ <? _); by split_and!. }
  split; [split_and!; [apply stop_ok; [done|lia]|done|done]|]. rewrite H3, H4. split; [done|]. split; [done|].
  intros Hd. by apply stop_not_decoded in Hd.
Qed.

Lemma decode_loop context out :
  sound (out, 0) → records out = [] → consumed out = 0 →
  wp (loop (S (length b)) (decode_round b context) (out, 0)) (faithful context) (λ _, False).
Proof using Hb Hlen Hsource.
  intros Hs Hrec Hcons.
  apply (wp_loop (λ s, sound s ∧ blocks context (records s.1) ∧ consumed s.1 = s.2) (λ s, zlen b - s.2)).
  - intros [o p] (Hsnd & Hblocks & Hpos). pose proof Hsnd as (Hrep & Hp & Ht & Hc). cbn [fst snd] in *.
    unfold decode_round. destruct (Z.ltb_spec p (zlen b)).
    + pose proof (sp_decode_header context (o, p) Hsnd Hblocks) as Hround. unfold swp in Hround.
      destruct (decode_header b context (o, p)) as [[o' p'] r]. cbn [fst snd] in Hround.
      apply wp_bind, wp_catch. eapply wp_mono; [exact Hround|..].
      * intros _ (Hs' & Hb' & Hlow). pose proof Hs' as (_ & Hp' & _). cbn [fst snd] in *. apply wp_ok.
        split; [|cbn [snd]; lia]. split; [by apply (sound_consumed (o', p'))|done].
      * intros e Hs'. apply wp_ok. by apply (faithful_stop context (o', p')).
    + apply wp_ok. split; [done|]. split; [done|]. rewrite Hpos. split; [done|]. intros _.
      split; [|done]. destruct Hrep as (_ & Hsrc & _). unfold len. rewrite Hsource. lia.
  - split; [done|]. split; [|done]. cbn [fst]. rewrite Hrec. constructor.
  - cbn [snd]. unfold zlen. lia.
Qed.
End decoder.


(** A response: two packed inputs, one analog input with flags and a device attribute list of
    one entry. *)
Definition sample_objects : EvidenceBytes :=
  from_packet [1; 1; 0; 0; 1; 2;  30; 2; 0; 5; 5; 1; 156; 255;  0; 255; 0; 0; 0; 254; 2; 240; 1]
    (sample_packet 3) 60.
Example sample_objects_report :
  (r ← SemDnp3.decode sample_objects ResponseValues sem_default;
   Ok (rp_status r, consumed r, map (λ x, (r_kind x, r_range x)) (records r))) =
  Ok (DecodedSubset, 23,
      [("object_header", (0, 5)); ("object_value", (5, 6)); ("object_value", (5, 6));
       ("object_header", (6, 11)); ("object_value", (11, 14));
       ("object_header", (14, 19)); ("attribute_list_entry", (21, 23)); ("attribute_value", (19, 23))]).
Proof. by vm_compute. Qed.


(** An attribute with an empty value: its value would cite no octet, so [add] refuses the
    record and the report is rejected in the name of an internal invariant. *)
Definition empty_attribute : EvidenceBytes := from_packet [0; 252; 0; 0; 0; 1; 0] (sample_packet 3) 60.

Example empty_attribute_rejected :
  (r ← SemDnp3.decode empty_attribute ResponseValues sem_default;
   Ok (rp_status r, consumed r, issues r)) =
  Ok (Rejected, 5, [{| i_code := "semantic_field"; i_range := (5, 7) |}]).
Proof. by vm_compute. Qed.
