(* ===== verification/Workflow.v ===== *)
(** * DNP3 workflow witnesses ([src/src/semantics/dnp3_workflow.rs])

    The application header, and the two verifiers that re-derive, from the link
    frames kept in a decoding result, what a fragment or a message claims: its
    addresses, direction, header, bytes and packets.  Both charge their work to a
    budget that outlives a failed verification, so they are written in a monad
    that threads the budget through values and errors alike. *)

From S2P Require Import Prelude Errors Stateful Ord Provenance Sha256 Semantics Dnp3Link Dnp3App.

#[global] Instance LinkControl_eq_dec : EqDecision LinkControl.
Proof. solve_decision. Defined.

(** ** Work accounting

    [work: &mut usize]: the state is the budget used, also when the computation fails. *)
Abbreviation Charged := (Stateful Z).

(** [charge(work, amount, limit)], with the error of the module it is in. *)
Definition charge_as (field : string) (amount lim : Z) : Charged unit := λ work,
  match checked_add usize_max work amount with
  | Some n => if n <=? lim then (n, Ok ()) else (work, Err (limit field))
  | None => (work, Err (limit field))
  end.
Definition charge (amount lim : Z) : Charged unit := charge_as "dnp3_correlation_work" amount lim.

(** [broadcast_confirm_policy]. *)
Definition broadcast_confirm_policy (address : Z) : option string :=
  if address =? 0xfffd then Some "not_required"
  else if address =? 0xfffe then Some "required"
  else if address =? 0xffff then Some "optional"
  else None.

(** ** [Header] *)

Record Header : Type := { h_control : Z; h_function : Z; h_length : Z }.

Definition h_sequence (h : Header) : Z := Z.land (h_control h) 15.
Definition h_first (h : Header) : bool := has_bits (h_control h) 0x80.
Definition h_final (h : Header) : bool := has_bits (h_control h) 0x40.
Definition h_confirm (h : Header) : bool := has_bits (h_control h) 0x20.
Definition h_unsolicited (h : Header) : bool := has_bits (h_control h) 0x10.

(** [matches!(x, a..=b)] and [matches!(x, a | b | ..)]. *)
Definition within (a b x : Z) : bool := (a <=? x) && (x <=? b).
Definition one_of (l : list Z) (x : Z) : bool := existsb (Z.eqb x) l.

(** [header]. *)
Definition header (raw : EvidenceBytes) : result Header :=
  if negb (validate raw) then Err (fail Invariant 0 "dnp3_workflow_provenance") else
  let b := data raw in
  need b 0 2 "dnp3_workflow_header_truncated" ;;
  control ← idx b 0;
  function ← idx b 1;
  let h := {| h_control := control; h_function := function;
              h_length := if within 0x81 0x83 function then 4 else 2 |} in
  need b 0 (h_length h) "dnp3_workflow_iin_truncated" ;;
  if one_of [0x20; 0x21; 0x83; 0x1d] (h_function h)
  then Err (fail UnsupportedTransport 1 "dnp3_authentication_workflow_opaque")
  else if negb (within 0 0x1f (h_function h) || one_of [0x81; 0x82] (h_function h))
  then Err (fail UnsupportedTransport 1 "dnp3_reserved_application_function")
  else if ((h_function h =? 0x82) && negb (h_unsolicited h))
       || (negb (h_function h =? 0) && negb (h_function h =? 0x82) && h_unsolicited h)
       || ((h_function h <? 0x80) && h_confirm h)
  then Err (fail ProtocolFraming 0 "dnp3_application_control_function_conflict")
  else if one_of [0; 23; 24] (h_function h) &&
          (negb (zlen b =? 2) || negb (h_first h) || negb (h_final h))
  then Err (fail ProtocolFraming 0 "dnp3_header_only_workflow_shape")
  else Ok h.

(** ** [verified_fragment_witness] *)

Record FragmentLinkWitness : Type := {
  flw_frame : Z;
  flw_control : Z;
  flw_header : EvidenceBytes;
  transport_control : Z;
  transport_header : EvidenceBytes;
  frame_length : Z;
  frame_sha256 : list Z;
}.
Record FragmentWitness : Type := {
  fw_source : Z;
  fw_destination : Z;
  link_direction : bool;
  fw_header : Header;
  header_bytes : EvidenceBytes;
  fw_packets : list PacketId;
  links : list FragmentLinkWitness;
}.

Definition fragment_mismatch : Error := fail Invariant 0 "dnp3_fragment_witness_mismatch".

(** The local variables of the loop over the frames of the fragment. *)
Record WitnessState : Type := {
  ws_transport : EvidenceBytes;
  ws_packets : list PacketId;
  ws_links : list FragmentLinkWitness;
  ws_direction : option bool;
  ws_previous : option Z;
  ws_final_seen : bool;
  ws_seen : list (Z * list Z);
  ws_frames : list (Z * unit);
}.
Definition witness_start : WitnessState :=
  {| ws_transport := evidence_default; ws_packets := []; ws_links := []; ws_direction := None;
     ws_previous := None; ws_final_seen := false; ws_seen := []; ws_frames := [] |}.

(** The class the function of a verified header gives. *)
Definition witness_class (function : Z) : result MessageClass :=
  if function =? 0 then Ok McConfirm
  else if within 1 30 function then Ok McRequest
  else if function =? 31 then Err (fail UnsupportedTransport 1 "dnp3_workflow_outside_subset")
  else if function =? 0x81 then Ok McResponse
  else if function =? 0x82 then Ok McUnsolicited
  else Err fragment_mismatch.

(** The public fields of the fragment against its header; the conditions are
    tested in the order of the source, the slice only when the others hold. *)
Definition fields_agree (f : ApplicationFragment) (h : Header) (class : MessageClass) : result unit :=
  if negb (af_control f =? h_control h) || negb (af_function f =? h_function h)
     || negb (af_sequence f =? h_sequence h) || negb (bool_decide (af_class f = class))
     || negb (eqb (af_first f) (h_first h)) || negb (eqb (final_fragment f) (h_final h))
     || negb (eqb (confirmation_requested f) (h_confirm h))
  then Err fragment_mismatch else
  iin ← (if h_length h =? 4 then n ← uint (data (af_raw f)) 2 2 true; Ok (Some n) else Ok None);
  if negb (bool_decide (af_iin f = iin)) then Err fragment_mismatch else
  objects ← Provenance.slice (af_raw f) (h_length h) (len (af_raw f));
  if negb (bool_decide (af_objects f = objects)) || (zlen (af_frames f) =? 0)
  then Err fragment_mismatch else Ok ().

(** The frame as reparsed, against the frame as kept and the fragment. *)
Definition frame_agrees (fragment : ApplicationFragment) (frame parsed : LinkFrame) (used : Z)
    (direction : option bool) : bool :=
  (used =? len (lf_raw frame)) && (lf_control frame =? lf_control parsed)
  && bool_decide (lf_link_control frame = lf_link_control parsed)
  && (lf_source frame =? lf_source parsed) && (lf_destination frame =? lf_destination parsed)
  && eqb (broadcast frame) (broadcast parsed)
  && bool_decide (user_data frame = user_data parsed)
  && (lf_source parsed =? af_source fragment) && (lf_destination parsed =? af_destination fragment)
  && match direction with
     | Some d => eqb d (lc_direction (lf_link_control parsed))
     | None => true
     end
  && primary (lf_link_control parsed)
  && one_of [3; 4] (lc_function (lf_link_control parsed))
  && match link_issue (lf_control parsed) (lf_source parsed) (lf_destination parsed)
             (len (user_data parsed)) with
     | Some _ => false
     | None => true
     end.

(** The segment's place in the transport sequence: a duplicate of a segment seen
    before, or the next one, whose bytes are appended. *)
Definition place_witness (l : Limits) (st : WitnessState) (parsed : LinkFrame)
    : result (WitnessState) :=
  let b := data (user_data parsed) in
  b0 ← idx b 0;
  let sequence := Z.land b0 63 in
  let expected := (λ last, Z.land (last + 1) 63) <$> ws_previous st in
  let duplicate := negb (bool_decide (expected = Some sequence)) &&
    match bt_get (ws_seen st) sequence with Some old => bytes_eqb old b | None => false end in
  if ws_final_seen st then Err fragment_mismatch
  else if duplicate then Ok st
  else if negb (eqb (bool_decide (ws_previous st = None)) (has_bits b0 64))
       || (negb (bool_decide (ws_previous st = None)) && negb (bool_decide (expected = Some sequence)))
  then Err fragment_mismatch
  else
    piece ← Provenance.slice (user_data parsed) 1 (zlen b);
    transport ← append (ws_transport st) piece (max_application_bytes l);
    Ok {| ws_transport := transport; ws_packets := ws_packets st; ws_links := ws_links st;
          ws_direction := ws_direction st; ws_previous := Some sequence;
          ws_final_seen := has_bits b0 128; ws_seen := bt_insert (ws_seen st) sequence b;
          ws_frames := ws_frames st |}.

(** [packets.extend(..)] and [links.push(..)]. *)
Definition record_link (st : WitnessState) (index : Z) (parsed : LinkFrame) : result WitnessState :=
  h ← Provenance.slice (lf_raw parsed) 0 10;
  b0 ← idx (data (user_data parsed)) 0;
  th ← Provenance.slice (user_data parsed) 0 1;
  sha ← digest (data (lf_raw parsed));
  Ok {| ws_transport := ws_transport st; ws_packets := ws_packets st ++ packets (lf_raw parsed);
        ws_links := ws_links st ++
          [{| flw_frame := index; flw_control := lf_control parsed; flw_header := h;
              transport_control := b0; transport_header := th;
              frame_length := len (lf_raw parsed); frame_sha256 := sha |}];
        ws_direction := ws_direction st; ws_previous := ws_previous st;
        ws_final_seen := ws_final_seen st; ws_seen := ws_seen st; ws_frames := ws_frames st |}.

Definition with_frame (st : WitnessState) (index : Z) : WitnessState :=
  {| ws_transport := ws_transport st; ws_packets := ws_packets st; ws_links := ws_links st;
     ws_direction := ws_direction st; ws_previous := ws_previous st;
     ws_final_seen := ws_final_seen st; ws_seen := ws_seen st;
     ws_frames := bt_insert (ws_frames st) index () |}.
Definition with_direction (st : WitnessState) (d : bool) : WitnessState :=
  {| ws_transport := ws_transport st; ws_packets := ws_packets st; ws_links := ws_links st;
     ws_direction := Some d; ws_previous := ws_previous st;
     ws_final_seen := ws_final_seen st; ws_seen := ws_seen st; ws_frames := ws_frames st |}.

(** What the loop does with a frame of the fragment once its work is charged. *)
Definition check_frame (l : Limits) (fragment : ApplicationFragment) (capture_ : list Z)
    (st : WitnessState) (index : Z) (frame : LinkFrame) : result WitnessState :=
  if negb (validate (lf_raw frame)) ||
     existsb (λ s, negb (bytes_eqb (capture (packet s)) capture_)) (spans (lf_raw frame))
  then Err fragment_mismatch else
  p ← parse_link (lf_raw frame) 0 (lf_stream_offset frame);
  let '(parsed, used) := p in
  if negb (frame_agrees fragment frame parsed used (ws_direction st))
  then Err fragment_mismatch else
  let st := with_direction st (lc_direction (lf_link_control parsed)) in
  st ← place_witness l st parsed;
  record_link st index parsed.

Definition witness_frame (out : Dnp3Result) (l : Limits) (fragment : ApplicationFragment)
    (capture_ : list Z) (st : WitnessState) (index : Z) : Charged WitnessState :=
  let max := max_correlation_checks l in
  charge 1 max ;;
  if bt_get (ws_frames st) index then throw fragment_mismatch else
  let st := with_frame st index in
  frame ← lift (ok_or (get (frames out) index) fragment_mismatch);
  charge (len (lf_raw frame)) max ;;
  charge (zlen (spans (lf_raw frame))) max ;;
  charge (len (user_data frame)) max ;;
  charge (zlen (spans (user_data frame))) max ;;
  lift (check_frame l fragment capture_ st index frame).

(** The checks after the loop and the witness. *)
Definition finish_witness (fragment : ApplicationFragment) (h : Header) (st : WitnessState)
    : result FragmentWitness :=
  if negb (ws_final_seen st) || negb (bool_decide (ws_transport st = af_raw fragment))
  then Err fragment_mismatch else
  direction ← ok_or (ws_direction st) fragment_mismatch;
  hb ← Provenance.slice (af_raw fragment) 0 (h_length h);
  Ok {| fw_source := af_source fragment; fw_destination := af_destination fragment;
        link_direction := direction; fw_header := h; header_bytes := hb;
        fw_packets := sort_dedup (ws_packets st); links := ws_links st |}.

Definition individual (address : Z) : bool := String.eqb (address_kind address) "individual".

(** The tests before the loop; they give the header and the capture. *)
Definition fragment_checks (l : Limits) (fragment : ApplicationFragment) : result (Header * list Z) :=
  if max_application_bytes l <? len (af_raw fragment)
  then Err (limit "dnp3_fragment_witness_bytes") else
  h ← header (af_raw fragment);
  class ← witness_class (h_function h);
  fields_agree fragment h class ;;
  if negb (individual (af_source fragment)) || negb (individual (af_destination fragment))
  then Err (fail UnsupportedTransport 0 "dnp3_confirmation_non_individual_address") else
  first ← ok_or (head (spans (af_raw fragment))) fragment_mismatch;
  Ok (h, capture (packet first)).

(** [verified_fragment_witness]. *)
Definition verified_fragment_witness (out : Dnp3Result) (fragment : ApplicationFragment) (l : Limits)
    : Charged FragmentWitness :=
  let max := max_correlation_checks l in
  charge 1 max ;;
  charge (len (af_raw fragment)) max ;;
  charge (zlen (spans (af_raw fragment))) max ;;
  charge (len (af_objects fragment)) max ;;
  charge (zlen (spans (af_objects fragment))) max ;;
  hc ← lift (fragment_checks l fragment);
  let '(h, capture_) := hc in
  st ← foldC (witness_frame out l fragment capture_) witness_start (af_frames fragment);
  lift (finish_witness fragment h st).

(** ** [verified_message_direction] *)

Definition pairing_mismatch : Error := fail Invariant 0 "dnp3_pairing_witness_mismatch".

Record MessageState : Type := {
  ms_objects : EvidenceBytes;
  ms_packets : list PacketId;
  ms_expected : Z;
  ms_fragments : list (Z * unit);
  ms_frames : list (Z * unit);
  ms_capture : option (list Z);
}.

(** One link of the witness of a fragment. *)
Definition claim_frame (l : Limits) (st : MessageState) (link : FragmentLinkWitness)
    : Charged MessageState :=
  charge 1 (max_correlation_checks l) ;;
  if bt_get (ms_frames st) (flw_frame link) then throw pairing_mismatch
  else mret {| ms_objects := ms_objects st; ms_packets := ms_packets st;
               ms_expected := ms_expected st; ms_fragments := ms_fragments st;
               ms_frames := bt_insert (ms_frames st) (flw_frame link) ();
               ms_capture := ms_capture st |}.

(** The witness of a fragment, against the message. *)
Definition witness_agrees (message : ApplicationMessage) (direction : bool) (st : MessageState)
    (ordinal : Z) (fragment : ApplicationFragment) (w : FragmentWitness) (observed : list Z) : bool :=
  let h := fw_header w in
  (af_source fragment =? am_source message) && (af_destination fragment =? am_destination message)
  && (h_function h =? am_function message) && bool_decide (af_class fragment = am_class message)
  && eqb (link_direction w) direction
  && eqb (h_first h) (ordinal =? 0)
  && eqb (h_final h) (ordinal + 1 =? zlen (am_fragments message))
  && (h_sequence h =? ms_expected st)
  && match ms_capture st with Some c => bytes_eqb c observed | None => true end.

(** One fragment of the message. *)
Definition message_fragment (out : Dnp3Result) (l : Limits) (message : ApplicationMessage)
    (direction : bool) (st : MessageState) (oi : Z * Z) : Charged MessageState :=
  let '(ordinal, index_) := oi in
  charge 1 (max_correlation_checks l) ;;
  if bt_get (ms_fragments st) index_ then throw pairing_mismatch else
  fragment ← lift (ok_or (get (fragments out) index_) pairing_mismatch);
  w ← verified_fragment_witness out fragment l;
  first ← lift (index (fw_packets w) 0);
  let observed := capture first in
  if negb (witness_agrees message direction st ordinal fragment w observed)
  then throw pairing_mismatch else
  let st := {| ms_objects := ms_objects st; ms_packets := ms_packets st;
               ms_expected := ms_expected st;
               ms_fragments := bt_insert (ms_fragments st) index_ ();
               ms_frames := ms_frames st; ms_capture := Some observed |} in
  st ← foldC (claim_frame l) st (links w);
  objects ← lift (append (ms_objects st) (af_objects fragment) (max_application_bytes l));
  mret {| ms_objects := objects; ms_packets := ms_packets st ++ fw_packets w;
          ms_expected := Z.land (h_sequence (fw_header w) + 1) 15;
          ms_fragments := ms_fragments st; ms_frames := ms_frames st;
          ms_capture := ms_capture st |}.

(** [verified_message_direction]. *)
Definition verified_message_direction (out : Dnp3Result) (message : ApplicationMessage) (l : Limits)
    : Charged bool :=
  let max := max_correlation_checks l in
  if negb (complete message) || (zlen (am_fragments message) =? 0)
  then throw (fail Truncated 0 "dnp3_pairing_incomplete_message") else
  if negb (individual (am_source message)) || negb (individual (am_destination message))
  then throw (fail UnsupportedTransport 0 "dnp3_pairing_non_individual_address") else
  direction ← lift (match am_class message with
                    | McRequest | McConfirm => Ok true
                    | McResponse | McUnsolicited => Ok false
                    | McUnknown => Err pairing_mismatch
                    end);
  st ← foldC (message_fragment out l message direction)
         {| ms_objects := evidence_default; ms_packets := [];
            ms_expected := am_first_sequence message; ms_fragments := []; ms_frames := [];
            ms_capture := None |}
         (zip (seqZ 0 (zlen (am_fragments message))) (am_fragments message));
  charge (len (am_objects message)) max ;;
  charge (zlen (spans (am_objects message))) max ;;
  charge (zlen (am_packets message)) max ;;
  if negb (bool_decide (ms_objects st = am_objects message))
     || negb (bool_decide (sort_dedup (ms_packets st) = am_packets message))
  then throw pairing_mismatch else mret direction.
