(* ===== verification/WorkflowFacts.v ===== *)
(** * Correctness of the workflow witnesses

    A witness is only ever given for what the captured link frames encode: the
    frames a fragment cites are CRC-checked encodings from one capture, and its
    bytes are exactly their transport segments in sequence.  The verifiers return
    on every result, also one whose public fields were altered. *)

From S2P Require Import Prelude Errors Stateful Ord Provenance Wire Sha256 Stream Semantics Dnp3Link Dnp3LinkFacts.
From S2P Require Import Dnp3App Dnp3AppFacts Workflow.

(** ** Rules for charged computations *)

Lemma wpce_charge_as {R : Error → Prop} fld n lim (Q : unit → Prop) :
  Q () → R (limit fld) → wpce (charge_as fld n lim) Q R.
Proof.
  intros HQ HR work. unfold charge_as. destruct (checked_add _ _ _); [|done]. by destruct (_ <=? _).
Qed.

Lemma wpc_charge n lim (Q : unit → Prop) : Q () → wpc (charge n lim) Q.
Proof. intros. by apply wpce_charge_as. Qed.

(** ** What a witness stands for *)

Section spec.
Context (fs : list LinkFrame) (src dst : Z) (c : list Z) (dir : bool).

(** Frame [i] is a CRC-checked user-data frame between the two addresses, all its
    bytes from capture [c], with transport octet [h] and data [rest]. *)
Definition datum (i : Z) (f : LinkFrame) (h : Z) (rest : list Z) : Prop :=
  get fs i = Some f ∧ lf_source f = src ∧ lf_destination f = dst ∧
  data (lf_raw f) = encode_link (lf_control f) (lf_destination f) (lf_source f) (h :: rest) ∧
  data (user_data f) = h :: rest ∧ ev_ok (user_data f) ∧ ev_ok (lf_raw f) ∧
  Forall (λ s, capture (packet s) = c) (spans (lf_raw f)) ∧
  lf_link_control f = link_control (lf_control f) ∧
  primary (lf_link_control f) = true ∧ lc_direction (lf_link_control f) = dir.

(** [transported ids s bytes os fin]: the frames [ids], none listed twice, begin
    with a FIR segment; every further one carries the next transport sequence
    number, or repeats a frame before it, which adds nothing; none but the last
    has FIN, and that iff [fin].  [bytes] and [os] are the segments and sources. *)
Inductive transported : list Z → Z → list Z → list (PacketId * Z) → bool → Prop :=
  | tr_first i f h rest :
      datum i f h rest → has_bits h 64 = true →
      transported [i] (Z.land h 63) rest (drop 1 (origins (user_data f))) (has_bits h 128)
  | tr_next ids s bytes os i f h rest :
      transported ids s bytes os false → datum i f h rest → has_bits h 64 = false →
      Z.land h 63 = Z.land (s + 1) 63 → i ∉ ids →
      transported (ids ++ [i]) (Z.land h 63) (bytes ++ rest)
        (os ++ drop 1 (origins (user_data f))) (has_bits h 128)
  | tr_again ids s bytes os i f h rest j g :
      transported ids s bytes os false → datum i f h rest → i ∉ ids →
      j ∈ ids → datum j g h rest → transported (ids ++ [i]) s bytes os false.
End spec.

(** The packets of the frames [ids]. *)
Definition cited (fs : list LinkFrame) (ids : list Z) (ps : list PacketId) : Prop :=
  ∀ p, p ∈ ps ↔ ∃ i f, i ∈ ids ∧ get fs i = Some f ∧ p ∈ fst <$> origins (lf_raw f).

Record witnessed (fs : list LinkFrame) (r : ApplicationFragment) (w : FragmentWitness) : Prop := {
  wd_addresses : fw_source w = af_source r ∧ fw_destination w = af_destination r;
  wd_header : header (af_raw r) = Ok (fw_header w);
  wd_control : af_control r = h_control (fw_header w) ∧ af_function r = h_function (fw_header w);
  wd_transport : ∃ c s, transported fs (af_source r) (af_destination r) c (link_direction w)
                          (af_frames r) s (data (af_raw r)) (origins (af_raw r)) true;
  wd_objects : ∃ n, af_objects r = n ∧ ev_ok n ∧
                 data n = drop (Z.to_nat (h_length (fw_header w))) (data (af_raw r));
  wd_packets : cited fs (af_frames r) (fw_packets w);
  wd_links : map flw_frame (links w) = af_frames r;
}.

(** The values the program can hold. *)
Definition frame_typed (f : LinkFrame) : Prop :=
  ev_typed (lf_raw f) ∧ i64_min ≤ lf_stream_offset f ≤ i64_max.
Definition result_typed (o : Dnp3Result) : Prop :=
  Forall frame_typed (frames o) ∧ Forall (λ r, ev_typed (af_raw r)) (fragments o).

(** ** The header *)

Lemma wp_header raw :
  ev_typed raw →
  wp (header raw) (λ h, ev_ok raw ∧ 2 ≤ h_length h ≤ zlen (data raw) ∧
        (h_length h = 4 ∨ h_length h = 2)) (λ _, True).
Proof.
  intros Ht. unfold header. destruct (validate raw) eqn:Hv; [|done]. cbn [negb].
  assert (ev_ok raw) as Hev by done. apply wp_bind. unfold need at 1.
  destruct (checked_add usize_max 0 2) as [n|] eqn:Hn; [|done].
  apply checked_add_Some in Hn as [-> _]. destruct (Z.ltb_spec (zlen (data raw)) (0 + 2)); [done|].
  apply wp_ok, wp_bind, wp_idx; [lia|]. apply wp_bind, wp_idx; [lia|]. cbv zeta.
  set (n := if within 0x81 0x83 (nthz (data raw) 1) then 4 else 2). cbn [h_length].
  assert (n = 4 ∨ n = 2) as Hn by (unfold n; destruct (within _ _ _); auto).
  apply wp_bind. unfold need, checked_add. rewrite (proj2 (Z.leb_le (0 + n) _)) by lia.
  destruct (Z.ltb_spec (zlen (data raw)) (0 + n)); [done|]. apply wp_ok.
  repeat (match goal with |- wp (if ?b then _ else _) _ _ => destruct b; [done|] end).
  apply wp_ok. cbn [h_length]. split_and!; [done|lia|lia|done].
Qed.

Lemma wp_fields_agree r h class :
  ev_ok (af_raw r) → 2 ≤ h_length h ≤ zlen (data (af_raw r)) →
  (h_length h = 4 ∨ h_length h = 2) →
  wp (fields_agree r h class)
     (λ _, af_control r = h_control h ∧ af_function r = h_function h ∧ ev_ok (af_objects r) ∧
           data (af_objects r) = drop (Z.to_nat (h_length h)) (data (af_raw r)) ∧
           af_frames r ≠ []) (λ _, True).
Proof.
  intros Hev Hl H24. unfold fields_agree.
  destruct (_ || _) eqn:Hc; [done|]. repeat (apply orb_false_iff in Hc as [Hc ?]).
  bool_facts. apply wp_bind.
  assert (wp (if h_length h =? 4 then n ← uint (data (af_raw r)) 2 2 true; Ok (Some n) else Ok None)
            (λ _, True) (λ _, True)) as Hi.
  { destruct (Z.eqb_spec (h_length h) 4); [|done]. unfold uint.
    apply wp_bind, wp_bind, wp_slice; [lia|lia|lia|]. done. }
  eapply wp_mono; [exact Hi|intros iin _|done]. destruct (negb _); [done|].
  destruct (slice_ev_ok (af_raw r) (h_length h) (zlen (data (af_raw r)))) as (e & He & He1 & He2 & _);
    [done|lia|lia|lia|]. unfold len. rewrite He, bind_Ok.
  destruct (bool_decide (af_objects r = e)) eqn:Ho; [|done].
  destruct (Z.eqb_spec (zlen (af_frames r)) 0); [done|]. cbn [negb orb]. apply wp_ok.
  apply bool_decide_eq_true in Ho. rewrite Ho, He2. split_and!; try done; try lia.
  - apply sub_full_from. lia.
  - intros Hnil. by match goal with H : zlen (af_frames r) ≠ 0 |- _ => rewrite Hnil in H end.
Qed.

(** ** The frames *)

Lemma link_issue_data c s d n :
  link_issue c s d n = None → primary (link_control c) = true →
  one_of [3; 4] (lc_function (link_control c)) = true → n ≠ 0.
Proof.
  unfold link_issue, one_of. intros H Hp Hf ->. rewrite Hp, Hf in H. cbn [negb andb Z.eqb] in H.
  by repeat case_match.
Qed.

Lemma origins_packets e p : ev_ok e → p ∈ packets e ↔ p ∈ fst <$> origins e.
Proof.
  intros [_ Hv]%ev_ok_layout. unfold packets, origins. rewrite elem_of_sort_dedup.
  revert Hv. generalize 0. induction (spans e) as [|s l IH]; intros c; [done|].
  intros (H1 & H2 & H3 & H4 & H5)%validate_from_cons.
  rewrite spans_origins_cons, fmap_app, elem_of_app. simpl. rewrite elem_of_cons, (IH _ H5).
  assert (p ∈ fst <$> span_origins s ↔ p = packet s) as ->; [|done].
  unfold span_origins. rewrite list_elem_of_fmap. setoid_rewrite list_elem_of_fmap. split.
  - by intros (x & -> & y & -> & _).
  - intros ->. exists (packet s, packet_start s). split; [done|]. exists (packet_start s).
    split; [done|]. apply elem_of_seqZ. lia.
Qed.

Section witness.
Context (l : Limits) (Hmax : max_application_bytes l ≤ i64_max).
Context (out : Dnp3Result) (Hout : Forall frame_typed (frames out)).
Context (r : ApplicationFragment) (c : list Z).

Abbreviation src := (af_source r).
Abbreviation dst := (af_destination r).

(** The state of the loop after the frames [ids]. *)
Record ws_ok (ids : list Z) (st : WitnessState) : Prop := {
  wo_transport : ev_ok (ws_transport st);
  wo_frames : ∀ i, is_Some (bt_get (ws_frames st) i) ↔ i ∈ ids;
  wo_links : map flw_frame (ws_links st) = ids;
  wo_packets : cited (frames out) ids (ws_packets st);
  wo_chain : match ws_previous st with
    | None => ids = [] ∧ ws_direction st = None ∧ ws_seen st = [] ∧ ws_final_seen st = false ∧
              data (ws_transport st) = [] ∧ origins (ws_transport st) = []
    | Some s => ∃ dir, ws_direction st = Some dir ∧ s = Z.land s 63 ∧
        transported (frames out) src dst c dir ids s (data (ws_transport st))
          (origins (ws_transport st)) (ws_final_seen st) ∧
        (∀ q b, bt_get (ws_seen st) q = Some b →
           ∃ j g h rest, j ∈ ids ∧ datum (frames out) src dst c dir j g h rest ∧ b = h :: rest)
    end;
}.

Lemma witness_start_ok : ws_ok [] witness_start.
Proof.
  split; try done; [apply evidence_default_ok| |].
  - intros i. simpl. split; [by intros [? ?]|by intros ?%not_elem_of_nil].
  - intros p. split; [by intros ?%not_elem_of_nil|]. by intros (i & f & ?%not_elem_of_nil & _).
Qed.

(** A frame that passes the tests is a datum. *)
Lemma agreed_datum index frame parsed used dir :
  get (frames out) index = Some frame → ev_ok (lf_raw frame) →
  Forall (λ s, capture (packet s) = c) (spans (lf_raw frame)) →
  link_post (lf_raw frame) 0 (lf_stream_offset frame) (parsed, used) →
  frame_agrees r frame parsed used dir = true →
  ∃ h rest, datum (frames out) src dst c (lc_direction (lf_link_control parsed)) index frame h rest ∧
    user_data parsed = user_data frame ∧ data (lf_raw parsed) = data (lf_raw frame) ∧
    origins (lf_raw parsed) = origins (lf_raw frame) ∧ ev_ok (lf_raw parsed) ∧
    10 ≤ zlen (data (lf_raw frame)) ∧ data (user_data frame) = h :: rest ∧
    (∀ d, dir = Some d → d = lc_direction (lf_link_control parsed)).
Proof.
  intros Hg Hev Hc (P1 & P2 & P3 & P4 & P5 & P6 & P7 & P8 & P9 & P10 & P11 & P12 & P13 & P14).
  unfold frame_agrees. rewrite !andb_true_iff, !Z.eqb_eq, !bool_decide_eq_true.
  intros ((((((((((((Au & A2) & A3) & A4) & A5) & A6) & A7) & A8) & A9) & Ad) & Ap) & Af) & Ai).
  destruct (link_issue _ _ _ _) eqn:Hi; [done|].
  rewrite P14 in Ap, Af. pose proof (link_issue_data _ _ _ _ Hi Ap Af) as Hne.
  destruct (data (user_data parsed)) as [|h rest] eqn:Hd;
    [by unfold len in Hne; rewrite Hd in Hne|].
  unfold len in Au. rewrite Z.add_0_l, Au, sub_full in P3, P7.
  rewrite Z.add_0_l, Au, <- (zlen_origins _ Hev), sub_full in P8.
  assert (bytes_ok (h :: rest)) as Hby by (rewrite <- Hd; apply P4).
  destruct (encode_link_view (lf_control parsed) (lf_destination parsed) (lf_source parsed)
              (h :: rest) [] Hby) as (Hlen & _).
  rewrite app_nil_r, <- P3 in Hlen.
  pose proof (blocks_len_nonneg (zlen (h :: rest)) (zlen_nonneg _)).
  pose proof (zlen_nonneg (h :: rest)).
  exists h, rest. rewrite A7, P7, P8. split_and!; try done; try lia.
  - unfold datum. rewrite A2, A4, A5, A7, A3, P14. by split_and!.
  - intros d ->. by apply eqb_prop in Ad.
Qed.

(** The segments seen are segments of the frames. *)
Lemma seen_insert ids (seen : list (Z * list Z)) i f h rest dir :
  datum (frames out) src dst c dir i f h rest →
  (∀ q b, bt_get seen q = Some b →
     ∃ j g h rest, j ∈ ids ∧ datum (frames out) src dst c dir j g h rest ∧ b = h :: rest) →
  ∀ q b, bt_get (bt_insert seen (Z.land h 63) (h :: rest)) q = Some b →
     ∃ j g h rest, j ∈ ids ++ [i] ∧ datum (frames out) src dst c dir j g h rest ∧ b = h :: rest.
Proof.
  intros Hd Hs q b. rewrite bt_get_insert. setoid_rewrite elem_of_app. setoid_rewrite list_elem_of_singleton.
  case_decide; [intros [= <-]; by exists i, f, h, rest; auto|].
  intros (j & g & h' & rest' & Hj & Hg)%Hs. exists j, g, h', rest'. auto.
Qed.

(** Placing the segment of frame [i], and noting its packets. *)
Lemma wp_place ids st i f parsed h rest dir :
  ws_ok ids st → i ∉ ids → datum (frames out) src dst c dir i f h rest →
  user_data parsed = user_data f → (∀ d, ws_direction st = Some d → d = dir) →
  wp (place_witness l (with_direction (with_frame st i) dir) parsed)
     (λ st', ev_ok (ws_transport st') ∧ ws_frames st' = bt_insert (ws_frames st) i () ∧
        ws_links st' = ws_links st ∧ ws_packets st' = ws_packets st ∧
        ∃ s, ws_direction st' = Some dir ∧ ws_previous st' = Some s ∧ s = Z.land s 63 ∧
          transported (frames out) src dst c dir (ids ++ [i]) s (data (ws_transport st'))
            (origins (ws_transport st')) (ws_final_seen st') ∧
          (∀ q b, bt_get (ws_seen st') q = Some b →
             ∃ j g h rest, j ∈ ids ++ [i] ∧ datum (frames out) src dst c dir j g h rest ∧
                           b = h :: rest)) (λ _, True).
Proof.
  intros [W1 W2 W3 W4 W5] Hi Hd Hu Hdir. pose proof Hd as (D1 & D2 & D3 & D4 & D5 & D6 & D7 & D8 & D9).
  unfold place_witness. rewrite Hu, D5. pose proof (zlen_nonneg rest).
  apply wp_bind, wp_idx; [rewrite zlen_cons; lia|]. rewrite nthz_0. cbv zeta.
  cbn [ws_previous ws_seen ws_final_seen ws_transport with_direction with_frame ws_direction
       ws_frames ws_links ws_packets].
  destruct (ws_final_seen st) eqn:Hfin; [done|].
  destruct (segment_body f h rest D6 D5) as (e & He & He1 & He2 & He3).
  unfold len in He. rewrite D5 in He.
  destruct (ws_previous st) as [s|] eqn:Hp.
  - destruct W5 as (dir' & Wd & Ws & Wt & Wseen). pose proof (Hdir _ Wd) as ->.
    cbn [fmap option_fmap option_map]. destruct (negb (bool_decide _) && _) eqn:Hdup.
    + apply andb_true_iff in Hdup as [_ Hold].
      destruct (bt_get (ws_seen st) (Z.land h 63)) as [old|] eqn:Hs; [|done].
      apply bytes_eqb_eq in Hold as ->. destruct (Wseen _ _ Hs) as (j & g & h' & rest' & Hj & Hg & [= <- <-]).
      apply wp_ok. cbn [ws_transport ws_frames ws_links ws_packets with_direction with_frame
                        ws_direction ws_previous ws_final_seen ws_seen].
      split_and!; try done. exists s. rewrite Hfin. split_and!; try done; [by eapply tr_again|].
      intros q b Hq. destruct (Wseen q b Hq) as (j' & g' & h1 & rest1 & Hj' & Hg' & Hb).
      exists j', g', h1, rest1. split; [|done]. apply elem_of_app. by left.
    + rewrite (bool_decide_eq_false_2 (Some s = None)) by done. cbn [negb andb].
      destruct (has_bits h 64) eqn:Hf; [done|]. cbn [eqb negb orb].
      case_bool_decide as Hseq; [|done]. cbn [negb]. injection Hseq as Hseq.
      rewrite He, bind_Ok. apply wp_bind. eapply wp_mono; [by apply (wp_append _ _ _ (λ t, ev_ok t ∧
        data t = data (ws_transport st) ++ data e ∧ origins t = origins (ws_transport st) ++ origins e))| |done].
      intros t (T1 & T2 & T3). apply wp_ok.
      cbn [ws_transport ws_frames ws_links ws_packets ws_direction ws_previous ws_final_seen ws_seen].
      split_and!; try done. exists (Z.land h 63). rewrite T2, T3, He2, He3.
      split_and!; try done; [by rewrite <- Z.land_assoc|by eapply tr_next|].
      by apply (seen_insert ids _ i f h rest dir).
  - destruct W5 as (-> & Wd & Wseen & Wf & Wt & Wo). rewrite Wseen. cbn [bt_get].
    rewrite andb_false_r. rewrite (bool_decide_eq_true_2 (None = None)) by done. cbn [negb andb].
    rewrite orb_false_r. destruct (has_bits h 64) eqn:Hf; [|done]. cbn [eqb negb].
    rewrite He, bind_Ok. apply wp_bind. eapply wp_mono; [by apply (wp_append _ _ _ (λ t, ev_ok t ∧
      data t = data (ws_transport st) ++ data e ∧ origins t = origins (ws_transport st) ++ origins e))| |done].
    intros t (T1 & T2 & T3). apply wp_ok.
    cbn [ws_transport ws_frames ws_links ws_packets ws_direction ws_previous ws_final_seen ws_seen].
    split_and!; try done. exists (Z.land h 63). rewrite T2, T3, He2, He3, Wt, Wo.
    split_and!; try done; [by rewrite <- Z.land_assoc|by apply (tr_first _ _ _ _ _ i f h rest)|].
    by apply (seen_insert [] [] i f h rest dir); [|intros ? ? [=]].
Qed.

Lemma cited_snoc ids ps i f qs :
  cited (frames out) ids ps → get (frames out) i = Some f →
  (∀ p, p ∈ qs ↔ p ∈ fst <$> origins (lf_raw f)) → cited (frames out) (ids ++ [i]) (ps ++ qs).
Proof.
  intros Hc Hg Hq p. rewrite elem_of_app, (Hc p), (Hq p).
  setoid_rewrite elem_of_app. setoid_rewrite list_elem_of_singleton. split.
  - intros [(j & g & Hj & Hg' & Hp)|Hp]; [exists j, g|exists i, f]; auto.
  - intros (j & g & [Hj| ->] & Hg' & Hp); [left; by exists j, g|right]. by simplify_eq.
Qed.

Lemma wp_check_frame ids st i f :
  ws_ok ids st → i ∉ ids → get (frames out) i = Some f →
  wp (check_frame l r c (with_frame st i) i f) (ws_ok (ids ++ [i])) (λ _, True).
Proof using All.
  intros Hok Hi Hg. pose proof Hok as [W1 W2 W3 W4 W5]. unfold check_frame.
  destruct (validate (lf_raw f)) eqn:Hv; [|done]. cbn [negb orb].
  assert (frame_typed f) as [Hty Hso].
  { rewrite Forall_forall in Hout. apply Hout. apply get_Some in Hg as [_ Hg].
    by eapply list_elem_of_lookup_2. }
  assert (ev_ok (lf_raw f)) as Hev by done.
  destruct (existsb _ _) eqn:Hcap; [done|].
  assert (Forall (λ s, capture (packet s) = c) (spans (lf_raw f))) as Hc.
  { apply Forall_forall. intros s Hs. rewrite <- not_true_iff_false, existsb_exists in Hcap.
    destruct (bytes_eqb (capture (packet s)) c) eqn:E; [by apply bytes_eqb_eq|].
    exfalso. apply Hcap. exists s. split; [by apply list_elem_of_In|by rewrite E]. }
  apply wp_bind. eapply wp_mono; [apply parse_link_spec; [done|split; [lia|apply zlen_nonneg]|lia]| |done].
  intros [parsed used] Hpost. destruct (frame_agrees _ _ _ _ _) eqn:Ha; [|done]. cbn [negb].
  destruct (agreed_datum i f parsed used _ Hg Hev Hc Hpost Ha)
    as (h & rest & Hd & Hu & Hrd & Hro & Hrok & H10 & Hdat & Hdir).
  apply wp_bind. eapply wp_mono; [by apply (wp_place ids st i f parsed h rest)| |done].
  intros st1 (S1 & S2 & S3 & S4 & s & S5 & S6 & S7 & S8 & S9). unfold record_link.
  destruct (slice_ev_ok (lf_raw parsed) 0 10) as (hd & -> & _); [done|lia|lia|rewrite Hrd; lia|].
  rewrite bind_Ok. rewrite Hu, Hdat. pose proof (zlen_nonneg rest).
  apply wp_bind, wp_idx; [rewrite zlen_cons; lia|]. 
  destruct (slice_ev_ok (user_data f) 0 1) as (th & -> & _); [apply Hd|lia|lia|rewrite Hdat, zlen_cons; lia|].
  rewrite bind_Ok, digest_ok, bind_Ok. apply wp_ok.
  split; cbn [ws_transport ws_frames ws_links ws_packets ws_direction ws_previous ws_final_seen ws_seen].
  - done.
  - intros j. rewrite S2, bt_get_insert, elem_of_app, list_elem_of_singleton. case_decide as Hj.
    + split; [by right|by eexists].
    + rewrite W2. naive_solver.
  - by rewrite S3, map_app, W3.
  - rewrite S4. eapply cited_snoc; [done|done|]. intros p. by rewrite (origins_packets _ _ Hrok), Hro.
  - rewrite S6. by exists (lc_direction (lf_link_control parsed)).
Qed.

Lemma wpc_witness_frame ids st i :
  ws_ok ids st → wpc (witness_frame out l r c st i) (ws_ok (ids ++ [i])).
Proof using All.
  intros Hok. unfold witness_frame. cbv zeta. apply wpc_bind, wpc_charge.
  destruct (bt_get (ws_frames st) i) as [[]|] eqn:Hi; [apply wpc_throw|].
  assert (i ∉ ids) as Hn.
  { intros Hin%(wo_frames _ _ Hok). rewrite Hi in Hin. by destruct Hin. }
  destruct (get (frames out) i) as [f|] eqn:Hg; [|apply wpc_bind, wpc_lift; done].
  apply wpc_bind, wpc_lift, wp_ok. do 4 apply wpc_bind, wpc_charge.
  by apply wpc_lift, wp_check_frame.
Qed.
End witness.

Lemma finish_witness_spec out r c h st ids :
  ws_ok out r c ids st → ids = af_frames r → ev_ok (af_raw r) →
  header (af_raw r) = Ok h → 2 ≤ h_length h ≤ zlen (data (af_raw r)) →
  af_control r = h_control h ∧ af_function r = h_function h ∧ ev_ok (af_objects r) ∧
  data (af_objects r) = drop (Z.to_nat (h_length h)) (data (af_raw r)) ∧ af_frames r ≠ [] →
  wp (finish_witness r h st) (witnessed (frames out) r) (λ _, True).
Proof.
  intros [W1 W2 W3 W4 W5] -> Hev Hh Hl (F1 & F2 & F3 & F4 & F5). unfold finish_witness.
  destruct (ws_final_seen st) eqn:Hfin; [|done]. cbn [negb orb].
  destruct (bool_decide (ws_transport st = af_raw r)) eqn:Ht; [|done]. cbn [negb].
  apply bool_decide_eq_true in Ht.
  destruct (ws_previous st) as [s|]; [|by destruct W5 as (? & _)].
  destruct W5 as (dir & -> & _ & Wt & _). cbn [ok_or]. rewrite bind_Ok.
  destruct (slice_ev_ok (af_raw r) 0 (h_length h)) as (hb & -> & _); [done|lia..|].
  rewrite bind_Ok. apply wp_ok. split; cbn; try done.
  - exists c, s. by rewrite <- Ht.
  - by exists (af_objects r).
  - intros p. by rewrite elem_of_sort_dedup, (W4 p).
Qed.

Lemma verified_fragment_spec l out r :
  max_application_bytes l ≤ i64_max → Forall frame_typed (frames out) → ev_typed (af_raw r) →
  wpc (verified_fragment_witness out r l) (witnessed (frames out) r).
Proof.
  intros Hmax Hout Hty. unfold verified_fragment_witness. cbv zeta.
  do 5 apply wpc_bind, wpc_charge.
  apply wpc_bind, (wpc_mono _ (λ '(h, c), ev_ok (af_raw r) ∧ header (af_raw r) = Ok h ∧
    2 ≤ h_length h ≤ zlen (data (af_raw r)) ∧
    (af_control r = h_control h ∧ af_function r = h_function h ∧ ev_ok (af_objects r) ∧
     data (af_objects r) = drop (Z.to_nat (h_length h)) (data (af_raw r)) ∧ af_frames r ≠ []))).
  - apply wpc_lift. unfold fragment_checks. destruct (_ <? _); [done|].
    pose proof (wp_header (af_raw r) Hty) as Hh.
    destruct (header (af_raw r)) as [h|e| |] eqn:Eh; try done. rewrite bind_Ok.
    destruct Hh as (H1 & H2 & H3). apply wp_bind. unfold witness_class.
    assert (∀ cl, wp (fields_agree r h cl;;
      (if negb (individual (af_source r)) || negb (individual (af_destination r))
       then Err (fail UnsupportedTransport 0 "dnp3_confirmation_non_individual_address")
       else first ← ok_or (head (spans (af_raw r))) fragment_mismatch;
            Ok (h, capture (packet first))))
     (λ '(h0, _), ev_ok (af_raw r) ∧ Ok (E:=Error) h = Ok h0 ∧ 2 ≤ h_length h0 ≤ zlen (data (af_raw r)) ∧
        (af_control r = h_control h0 ∧ af_function r = h_function h0 ∧ ev_ok (af_objects r) ∧
         data (af_objects r) = drop (Z.to_nat (h_length h0)) (data (af_raw r)) ∧ af_frames r ≠ []))
     (λ _, True)) as Hrest.
    { intros cl. apply wp_bind. eapply wp_mono; [by apply wp_fields_agree| |done].
      intros u Hf. destruct (_ || _); [done|]. apply wp_bind, wp_ok_or; [|done].
      intros a _. by apply wp_ok. }
    repeat case_match; apply wp_ok || done; apply Hrest.
  - intros [h c] (H1 & H2 & H3 & H4). apply wpc_bind.
    apply (wpc_fold (ws_ok out r c)) with (done := []).
    + intros pre a post s _ Hs. by apply (wpc_witness_frame l Hmax out Hout).
    + apply witness_start_ok.
    + intros st Hst. rewrite app_nil_l in Hst. apply wpc_lift. by eapply finish_witness_spec.
Qed.

(** Every frame a transport sequence lists is a datum of it. *)
Lemma transported_all fs src dst c dir ids s bytes os fin :
  transported fs src dst c dir ids s bytes os fin →
  ∀ i, i ∈ ids → ∃ f h rest, datum fs src dst c dir i f h rest.
Proof.
  induction 1 as [i f h rest Hd|ids s bytes os i f h rest _ IH Hd|ids s bytes os i f h rest j g _ IH Hd];
    intros k Hk; rewrite ?elem_of_app, ?list_elem_of_singleton in Hk.
  - subst k. by exists f, h, rest.
  - destruct Hk as [Hk| ->]; [by apply IH|by exists f, h, rest].
  - destruct Hk as [Hk| ->]; [by apply IH|by exists f, h, rest].
Qed.

Lemma transported_datum fs src dst c dir ids s bytes os fin :
  transported fs src dst c dir ids s bytes os fin →
  ∃ i f h rest, i ∈ ids ∧ datum fs src dst c dir i f h rest.
Proof.
  intros H. assert (∃ i, i ∈ ids) as (i & Hi).
  { destruct H as [i|? ? ? ? i|? ? ? ? i]; exists i; rewrite ?elem_of_app, list_elem_of_singleton; auto. }
  destruct (transported_all _ _ _ _ _ _ _ _ _ _ H i Hi) as (f & h & rest & Hd). by exists i, f, h, rest.
Qed.

(** The packets a witness cites are of one capture. *)
Definition one_capture (c : list Z) (ps : list PacketId) : Prop := Forall (λ p, capture p = c) ps.

Lemma witnessed_capture fs r w : witnessed fs r w → ∃ c, one_capture c (fw_packets w).
Proof.
  intros [_ _ _ (c & s & Ht) _ Hp _]. exists c. apply Forall_forall. intros p (i & f & Hi & Hg & Hq)%Hp.
  destruct (transported_all _ _ _ _ _ _ _ _ _ _ Ht i Hi) as (g & h & rest & D1 & D2 & D3 & D4 & D5 & D6 & D7 & D8 & _).
  simplify_eq. apply (origins_packets _ _ D7) in Hq. unfold packets in Hq.
  apply elem_of_sort_dedup, list_elem_of_fmap in Hq as (sp & -> & Hsp).
  by eapply Forall_forall in D8.
Qed.

(** A witness cites a packet. *)
Lemma witnessed_packet fs r w : witnessed fs r w → fw_packets w ≠ [].
Proof.
  intros [_ _ _ (c & s & Ht) _ Hp _] Hnil. rewrite Hnil in Hp.
  destruct (transported_datum _ _ _ _ _ _ _ _ _ _ Ht) as (i & f & h & rest & Hi & D1 & D2 & D3 & D4 & D5 & D6 & D7 & _).
  assert (origins (lf_raw f) ≠ []) as Hne.
  { intros Ho. pose proof (zlen_origins _ D7) as Hz. rewrite Ho, D4 in Hz.
    assert (bytes_ok (h :: rest)) as Hby by (rewrite <- D5; apply D6).
    destruct (encode_link_view (lf_control f) (lf_destination f) (lf_source f) (h :: rest) [] Hby) as (Hlen & _).
    rewrite app_nil_r, <- Hz in Hlen. pose proof (blocks_len_nonneg (zlen (h :: rest)) (zlen_nonneg _)).
    pose proof (zlen_nonneg (h :: rest)). change (zlen (@nil (PacketId * Z))) with 0 in Hlen. lia. }
  destruct (origins (lf_raw f)) as [|[p q] os] eqn:Ho; [done|].
  apply (not_elem_of_nil p), (Hp p). exists i, f. split_and!; [done..|]. rewrite Ho. apply list_elem_of_here.
Qed.

(** ** Messages *)

(** [enumerate] counts from zero. *)
Lemma zip_seq_ordinal {A} (xs : list A) pre post o x :
  zip (seqZ 0 (zlen xs)) xs = pre ++ (o, x) :: post → o = zlen pre.
Proof.
  intros H. assert (zip (seqZ 0 (zlen xs)) xs !! length pre = Some (o, x)) as Hl
    by (rewrite H; by apply list_lookup_middle).
  rewrite lookup_zip_with in Hl. apply bind_Some in Hl as (a & Ha & Hl).
  apply bind_Some in Hl as (b & Hb & [= -> ->]). apply lookup_seqZ in Ha as [-> _]. unfold zlen. lia.
Qed.

Section message.
Context (l : Limits) (Hmax : max_application_bytes l ≤ i64_max).
Context (out : Dnp3Result) (Hout : result_typed out).
Context (m : ApplicationMessage) (dir : bool).

(** What the verifier establishes of the fragment at a position of the message. *)
Definition part_of (oi : Z * Z) (rw : ApplicationFragment * FragmentWitness) : Prop :=
  let '(r, w) := rw in
  get (fragments out) oi.2 = Some r ∧ witnessed (frames out) r w ∧
  af_source r = am_source m ∧ af_destination r = am_destination m ∧
  h_function (fw_header w) = am_function m ∧ af_class r = am_class m ∧ link_direction w = dir ∧
  h_first (fw_header w) = (oi.1 =? 0) ∧
  h_final (fw_header w) = (oi.1 + 1 =? zlen (am_fragments m)) ∧
  h_sequence (fw_header w) = Z.land (am_first_sequence m + oi.1) 15.

Definition part_frames (rw : ApplicationFragment * FragmentWitness) : list Z := map flw_frame (links rw.2).

(** The state of the loop after the fragments [pre]. *)
Record ms_ok (pre : list (Z * Z)) (parts : list (ApplicationFragment * FragmentWitness))
    (st : MessageState) : Prop := {
  mo_parts : Forall2 part_of pre parts;
  mo_objects : ev_ok (ms_objects st);
  mo_bytes : data (ms_objects st) = concat ((λ rw, data (af_objects rw.1)) <$> parts);
  mo_packets : ms_packets st = concat ((λ rw, fw_packets rw.2) <$> parts);
  mo_fragments : NoDup (pre.*2);
  mo_claimed : ∀ i, is_Some (bt_get (ms_fragments st) i) ↔ i ∈ pre.*2;
  mo_frames : NoDup (concat (part_frames <$> parts));
  mo_frame_set : ∀ i, is_Some (bt_get (ms_frames st) i) ↔ i ∈ concat (part_frames <$> parts);
  mo_sequence : ms_expected st = (match pre with [] => am_first_sequence m
                                  | _ => Z.land (am_first_sequence m + zlen pre) 15 end);
  mo_capture : match ms_capture st with
               | Some c => one_capture c (ms_packets st)
               | None => ms_packets st = []
               end;
}.

Definition same_but_frames (st st' : MessageState) : Prop :=
  ms_objects st' = ms_objects st ∧ ms_packets st' = ms_packets st ∧
  ms_expected st' = ms_expected st ∧ ms_fragments st' = ms_fragments st ∧
  ms_capture st' = ms_capture st.

Lemma wpc_claims (K : list Z) st ls :
  (∀ i, is_Some (bt_get (ms_frames st) i) ↔ i ∈ K) → NoDup K →
  wpc (foldC (claim_frame l) st ls)
      (λ st', same_but_frames st st' ∧ NoDup (K ++ map flw_frame ls) ∧
              ∀ i, is_Some (bt_get (ms_frames st') i) ↔ i ∈ K ++ map flw_frame ls).
Proof.
  intros HK Hnd. apply (wpc_fold (λ pre st', same_but_frames st st' ∧ NoDup (K ++ map flw_frame pre) ∧
    ∀ i, is_Some (bt_get (ms_frames st') i) ↔ i ∈ K ++ map flw_frame pre)) with (done := []).
  - intros pre w post s _ (Hs & Hn & Hi). unfold claim_frame. apply wpc_bind, wpc_charge.
    destruct (bt_get (ms_frames s) (flw_frame w)) as [[]|] eqn:E; [apply wpc_throw|].
    apply wpc_ret. rewrite map_app, app_assoc. cbn [map]. split_and!; [done| |].
    + apply NoDup_app. split_and!; [done| |apply NoDup_singleton].
      intros x Hx ->%list_elem_of_singleton. apply Hi in Hx. rewrite E in Hx. by destruct Hx.
    + intros i. cbn [ms_frames]. rewrite bt_get_insert, (elem_of_app (K ++ _)), list_elem_of_singleton.
      case_decide as Hd; [split; [by right|by eexists]|]. rewrite Hi. naive_solver.
  - rewrite app_nil_r. done.
  - done.
Qed.

Lemma wpc_message_fragment pre post parts st o i :
  zip (seqZ 0 (zlen (am_fragments m))) (am_fragments m) = pre ++ (o, i) :: post →
  ms_ok pre parts st →
  wpc (message_fragment out l m dir st (o, i)) (λ st', ∃ rw, ms_ok (pre ++ [(o, i)]) (parts ++ [rw]) st').
Proof using Hmax Hout.
  intros Hz [M1 M2 M3 M4 M5 M6 M7 M8 M9 M10]. pose proof (zip_seq_ordinal _ _ _ _ _ Hz) as Ho.
  unfold message_fragment. apply wpc_bind, wpc_charge.
  destruct (bt_get (ms_fragments st) i) as [[]|] eqn:Hi; [apply wpc_throw|].
  destruct (get (fragments out) i) as [r|] eqn:Hg; [|by apply wpc_bind, wpc_lift].
  apply wpc_bind, wpc_lift, wp_ok. destruct Hout as [Hf Hr].
  assert (ev_typed (af_raw r)) as Hty.
  { rewrite Forall_forall in Hr. apply Hr. apply get_Some in Hg as [_ Hg]. by eapply list_elem_of_lookup_2. }
  apply wpc_bind. eapply wpc_mono; [by apply (verified_fragment_spec l out r)|]. intros w Hw.
  pose proof (witnessed_packet _ _ _ Hw) as Hp. destruct (fw_packets w) as [|p ps] eqn:Hps; [done|].
  apply wpc_bind, wpc_lift, wp_ok. cbv zeta.
  destruct (witness_agrees _ _ _ _ _ _ _) eqn:Ha; [|apply wpc_throw]. cbn [negb].
  unfold witness_agrees in Ha. rewrite !andb_true_iff, !Z.eqb_eq, bool_decide_eq_true in Ha.
  destruct Ha as ((((((((A1 & A2) & A3) & A4) & A5) & A6) & A7) & A8) & A9).
  apply eqb_prop in A5, A6, A7.
  apply wpc_bind. eapply wpc_mono; [apply (wpc_claims (concat (part_frames <$> parts))); [apply M8|apply M7]|].
  intros st1 ((S1 & S2 & S3 & S4 & S5) & Hnd & Hset). cbn [ms_objects ms_packets ms_expected ms_fragments] in *.
  apply wpc_bind, wpc_lift. rewrite S1.
  destruct (wd_objects _ _ _ Hw) as (obj & Hobj & Hoe & _). subst obj.
  eapply wp_mono; [apply (wp_append _ _ _ (λ t, ev_ok t ∧
    data t = data (ms_objects st) ++ data (af_objects r))); auto| |done].
  intros objs [Ho1 Ho2]. apply wpc_ret. exists (r, w).
  assert (h_sequence (fw_header w) = Z.land (am_first_sequence m + o) 15) as Hseq.
  { rewrite A8, M9, Ho. destruct pre; [|done]. rewrite zlen_nil, Z.add_0_r. rewrite M9 in A8. cbn in A8.
    rewrite <- A8. unfold h_sequence. by rewrite <- Z.land_assoc. }
  split; cbn [ms_objects ms_packets ms_expected ms_fragments ms_frames].
  - apply Forall2_app; [done|]. constructor; [|done]. by split_and!.
  - done.
  - by rewrite Ho2, M3, fmap_app, concat_app; simpl; rewrite app_nil_r.
  - rewrite S2, M4, fmap_app, concat_app. simpl. by rewrite Hps, app_nil_r.
  - rewrite fmap_app. apply NoDup_app. split_and!; [done| |apply NoDup_singleton].
    intros x Hx ->%list_elem_of_singleton. apply M6 in Hx. cbn in Hx. rewrite Hi in Hx. by destruct Hx.
  - intros x. rewrite S4, bt_get_insert, fmap_app, elem_of_app. cbn. rewrite list_elem_of_singleton.
    case_decide as Hd; [split; [by right|by eexists]|]. rewrite M6. naive_solver.
  - rewrite fmap_app, concat_app. simpl. by rewrite app_nil_r.
  - intros x. rewrite Hset, fmap_app, concat_app. simpl. by rewrite app_nil_r.
  - rewrite Hseq, Ho, zlen_app. change (zlen [(zlen pre, i)]) with 1. destruct (pre ++ [(zlen pre, i)]) eqn:E.
    { by destruct pre. }
    rewrite !mod16, Zplus_mod_idemp_l. f_equal. lia.
  - cbn [ms_capture]. rewrite S5. cbn [ms_capture].
    destruct (witnessed_capture _ _ _ Hw) as (c & Hc). rewrite Hps in Hc. pose proof Hc as [Hcp _]%Forall_cons.
    rewrite S2. apply Forall_app. rewrite Hcp. split; [|done].
    destruct (ms_capture st) as [c'|]; [|rewrite M10; constructor]. apply bytes_eqb_eq in A9. by rewrite A9, Hcp in M10.
Qed.

(** What a verified message is. *)
Definition message_verified : Prop :=
  complete m = true ∧ am_fragments m ≠ [] ∧ NoDup (am_fragments m) ∧
  individual (am_source m) = true ∧ individual (am_destination m) = true ∧
  dir = bool_decide (am_class m = McRequest ∨ am_class m = McConfirm) ∧
  ∃ parts, Forall2 part_of (zip (seqZ 0 (zlen (am_fragments m))) (am_fragments m)) parts ∧
    NoDup (concat (part_frames <$> parts)) ∧
    data (am_objects m) = concat ((λ rw, data (af_objects rw.1)) <$> parts) ∧
    am_packets m = sort_dedup (concat ((λ rw, fw_packets rw.2) <$> parts)) ∧ am_packets m ≠ [] ∧
    ∃ c, one_capture c (am_packets m).
End message.

Lemma verified_message_spec l out m :
  max_application_bytes l ≤ i64_max → result_typed out →
  wpc (verified_message_direction out m l) (message_verified out m).
Proof.
  intros Hmax Hout. unfold verified_message_direction. cbv zeta.
  destruct (complete m) eqn:Hc; [|apply wpc_throw].
  destruct (Z.eqb_spec (zlen (am_fragments m)) 0) as [|Hne]; [apply wpc_throw|]. cbn [negb orb].
  destruct (individual (am_source m)) eqn:Hs; [|apply wpc_throw].
  destruct (individual (am_destination m)) eqn:Hd; [|apply wpc_throw]. cbn [negb orb].
  apply wpc_bind, wpc_lift.
  assert (∀ dir, dir = bool_decide (am_class m = McRequest ∨ am_class m = McConfirm) →
    wpc (st ← foldC (message_fragment out l m dir)
         {| ms_objects := evidence_default; ms_packets := [];
            ms_expected := am_first_sequence m; ms_fragments := []; ms_frames := [];
            ms_capture := None |} (zip (seqZ 0 (zlen (am_fragments m))) (am_fragments m));
       charge (len (am_objects m)) (max_correlation_checks l) ;;
       charge (zlen (spans (am_objects m))) (max_correlation_checks l) ;;
       charge (zlen (am_packets m)) (max_correlation_checks l) ;;
       if negb (bool_decide (ms_objects st = am_objects m))
          || negb (bool_decide (sort_dedup (ms_packets st) = am_packets m))
       then throw pairing_mismatch else mret dir) (message_verified out m)) as Hrest.
  2:{ destruct (am_class m) eqn:Hcl; try done; apply wp_ok, Hrest; by rewrite ?bool_decide_eq_true_2, ?bool_decide_eq_false_2 by naive_solver. }
  intros dir Hdir. apply wpc_bind.
  apply (wpc_fold (λ pre st, ∃ parts, ms_ok out m dir pre parts st)) with (done := []).
  - intros pre [o i] post st Hz (parts & Hst). rewrite app_nil_l in Hz.
    eapply wpc_mono; [by eapply (wpc_message_fragment l Hmax out Hout)|].
    intros st' (rw & Hrw). by eexists.
  - exists []. split; try done; try constructor; try apply evidence_default_ok.
    all: try (by intros [? ?]). all: by intros ?%not_elem_of_nil.
  - intros st (parts & [M1 M2 M3 M4 M5 M6 M7 M8 M9 M10]). rewrite app_nil_l in *.
    do 3 apply wpc_bind, wpc_charge.
    destruct (bool_decide (ms_objects st = am_objects m)) eqn:E1; [|apply wpc_throw].
    destruct (bool_decide (sort_dedup (ms_packets st) = am_packets m)) eqn:E2; [|apply wpc_throw].
    cbn [negb orb]. apply bool_decide_eq_true in E1, E2. apply wpc_ret.
    assert (am_fragments m ≠ []) as Hnil by (intros H; by rewrite H in Hne).
    unfold message_verified. rewrite snd_zip in M5 by (rewrite length_seqZ; unfold zlen; lia).
    split_and!; try done. exists parts. rewrite <- E1, <- E2, M3, M4. split_and!; try done.
    2:{ destruct (ms_capture st) as [c|]; [|rewrite M4 in M10; rewrite M10; exists []; constructor]. exists c.
        apply Forall_forall. intros p Hp. rewrite elem_of_sort_dedup, <- M4 in Hp.
        revert p Hp. by apply Forall_forall. }
    destruct (am_fragments m) as [|i ids] eqn:Hids; [done|].
    destruct parts as [|[r w] parts].
    { apply Forall2_nil_inv_r in M1. rewrite zlen_cons in M1. unfold seqZ in M1.
      replace (Z.to_nat (1 + zlen ids)) with (S (length ids)) in M1 by (unfold zlen; lia). done. }
    assert (∃ oi, part_of out m dir oi (r, w)) as (oi & _ & Hw & _).
    { destruct (zip _ _) as [|oi rest]; [by apply Forall2_nil_inv_l in M1|].
      apply Forall2_cons in M1 as [H _]. by exists oi. }
    pose proof (witnessed_packet _ _ _ Hw) as Hp. intros Hnone. apply Hp.
    destruct (fw_packets w) as [|p ps] eqn:Hps; [done|]. exfalso.
    apply (not_elem_of_nil p). rewrite <- Hnone, elem_of_sort_dedup. simpl. rewrite Hps. apply list_elem_of_here.
Qed.

(** ** The budget *)

(** The work used never decreases and never exceeds the limit, whatever the outcome. *)
Definition paid {A} (lim : Z) (m : Charged A) : Prop :=
  ∀ work, work ≤ lim → work ≤ (m work).1 ≤ lim.

Create HintDb paid discriminated.

Section paid.
Context (lim : Z).

Lemma paid_ret {A} (a : A) : paid lim (mret a).
Proof. intros w Hw. cbn. lia. Qed.

Lemma paid_lift {A} (r : result A) : paid lim (lift r).
Proof. intros w Hw. cbn. lia. Qed.

Lemma paid_throw {A} e : paid (A:=A) lim (throw e).
Proof. apply paid_lift. Qed.

Lemma paid_charge_as fld n : 0 ≤ n → paid lim (charge_as fld n lim).
Proof.
  intros Hn w Hw. unfold charge_as, checked_add. destruct (_ <=? usize_max); [|cbn; lia].
  destruct (Z.leb_spec (w + n) lim); cbn; lia.
Qed.

Lemma paid_charge n : 0 ≤ n → paid lim (charge n lim).
Proof. apply paid_charge_as. Qed.

Lemma paid_bind {A B} (m : Charged A) (f : A → Charged B) :
  paid lim m → (∀ a, paid lim (f a)) → paid lim (m ≫= f).
Proof.
  intros Hm Hf w Hw. specialize (Hm w Hw). unfold mbind, stateful_bind.
  destruct (m w) as [w' [a|e| |]]; cbn in *; try lia. specialize (Hf a w'). lia.
Qed.

Lemma paid_catch {A} (m : Charged A) : paid lim m → paid lim (catchC m).
Proof. intros Hm w Hw. specialize (Hm w Hw). unfold catchC. by destruct (m w). Qed.

Lemma paid_fold {S A} (f : S → A → Charged S) s l :
  (∀ s a, paid lim (f s a)) → paid lim (foldC f s l).
Proof.
  intros Hf. revert s. induction l as [|a l IH]; intros s; cbn [foldC]; [apply paid_ret|].
  by apply paid_bind.
Qed.
End paid.

#[export] Hint Resolve paid_ret paid_lift paid_throw paid_catch paid_fold : paid.

(** Follow the structure of a charged computation. *)
Ltac paid_go :=
  repeat match goal with
  | |- paid _ (_ ≫= _) => apply paid_bind; [|intros ?]
  | |- paid _ (charge_as _ _ _) => apply paid_charge_as; (lia || apply zlen_nonneg)
  | |- paid _ (charge _ _) => apply paid_charge; (lia || apply zlen_nonneg)
  | |- paid _ (foldC _ _ _) => apply paid_fold; intros ? ?
  | |- paid _ (catchC _) => apply paid_catch
  | |- paid _ (let _ := _ in _) => cbv zeta
  | |- paid _ (let '(_, _) := ?p in _) => destruct p
  | |- paid _ (match ?x with _ => _ end) => destruct x
  | |- paid _ _ => solve [eauto with paid]
  end.

Lemma paid_fragment out r l : paid (max_correlation_checks l) (verified_fragment_witness out r l).
Proof. unfold verified_fragment_witness, witness_frame. paid_go. Qed.

#[export] Hint Resolve paid_fragment : paid.

Lemma paid_message out m l : paid (max_correlation_checks l) (verified_message_direction out m l).
Proof. unfold verified_message_direction, message_fragment, claim_frame. paid_go. Qed.

#[export] Hint Resolve paid_message : paid.

(** ** The properties *)

(** C12: pairing authority is re-derived, never trusted.  For any decoding result
    and message, however their public fields were altered,
    [verified_message_direction] returns and stays within its work budget.  When it
    accepts, the message is complete and every listed fragment is a fragment of
    the result, listed once, in sequence from FIR to FIN, whose bytes and sources
    are exactly the transport segments of CRC-checked link frames of one capture
    between the two individual addresses in the stated direction; no frame serves
    two fragments, and objects and packets are exactly those of the fragments. *)
Theorem message_direction_sound (l : Limits) (out : Dnp3Result) (m : ApplicationMessage) (work : Z) :
  max_application_bytes l ≤ i64_max → result_typed out → work ≤ max_correlation_checks l →
  work ≤ (verified_message_direction out m l work).1 ≤ max_correlation_checks l ∧
  wp (verified_message_direction out m l work).2 (message_verified out m) (λ _, True).
Proof.
  intros Hmax Hout Hw. split; [by apply paid_message|]. by apply verified_message_spec.
Qed.

(** ** Witness *)

(** The result of decoding the sample message. *)
Definition sample_dnp3_result : Dnp3Result :=
  match decode sample_dnp3_stream limits_default with Ok o => o | _ => result_default end.
Definition sample_dnp3_message : ApplicationMessage :=
  match messages sample_dnp3_result with m :: _ => m | [] =>
    {| am_source := 0; am_destination := 0; am_function := 0; am_first_sequence := 0;
       am_class := McUnknown; complete := false; am_fragments := []; am_packets := [];
       am_objects := evidence_default |} end.

Example sample_message_accepted :
  (verified_message_direction sample_dnp3_result sample_dnp3_message limits_default 0).2 = Ok true.
Proof. by vm_compute. Qed.

(** [ev_typed] and [result_typed], as boolean tests. *)
Definition ev_typedb (e : EvidenceBytes) : bool :=
  forallb (λ b, (0 <=? b) && (b <? 256)) (data e) && (zlen (data e) <=? i64_max) &&
  forallb (λ s, 0 <=? packet_start s) (spans e).
Definition result_typedb (o : Dnp3Result) : bool :=
  forallb (λ f, ev_typedb (lf_raw f) && (i64_min <=? lf_stream_offset f) &&
                (lf_stream_offset f <=? i64_max)) (frames o) &&
  forallb (λ r, ev_typedb (af_raw r)) (fragments o).

Lemma forallb_Forall_impl {A} (f : A → bool) (P : A → Prop) l :
  (∀ a, f a = true → P a) → forallb f l = true → Forall P l.
Proof.
  intros Hf H. apply Forall_forall. intros a Ha%list_elem_of_In.
  rewrite forallb_forall in H. auto.
Qed.

Lemma ev_typedb_ok e : ev_typedb e = true → ev_typed e.
Proof.
  unfold ev_typedb. rewrite !andb_true_iff. intros [[H1 H2] H3]. apply Z.leb_le in H2. split_and!; [|done|].
  - eapply forallb_Forall_impl, H1. intros b [H0 H4]%andb_true_iff. split; [by apply Z.leb_le|by apply Z.ltb_lt].
  - eapply forallb_Forall_impl, H3. intros s. by rewrite Z.leb_le.
Qed.

Lemma result_typedb_ok o : result_typedb o = true → result_typed o.
Proof.
  unfold result_typedb. rewrite andb_true_iff. intros [H1 H2]. split.
  - eapply forallb_Forall_impl, H1. intros f Hf. rewrite !andb_true_iff in Hf.
    destruct Hf as [[Ht Ha] Hb]. apply Z.leb_le in Ha, Hb. split; [by apply ev_typedb_ok|done].
  - eapply forallb_Forall_impl, H2. intros r. apply ev_typedb_ok.
Qed.

Lemma message_direction_sound_witness :
  0 ≤ (verified_message_direction sample_dnp3_result sample_dnp3_message limits_default 0).1
    ≤ max_correlation_checks limits_default ∧
  wp (verified_message_direction sample_dnp3_result sample_dnp3_message limits_default 0).2
    (message_verified sample_dnp3_result sample_dnp3_message) (λ _, True).
Proof.
  apply (message_direction_sound limits_default sample_dnp3_result sample_dnp3_message 0);
    [by vm_compute| |by vm_compute].
  apply result_typedb_ok. by vm_compute.
Defined.
