(* ===== verification/Correlate.v ===== *)
(** * Correlation ([src/src/correlate.rs], [src/src/correlate/dnp3_confirmations.rs])

    The pairing of requests with responses by their captured identifiers, and of
    DNP3 confirmations with the response fragments they may confirm.  Both loops
    thread one work budget ([Charged]); what a failed verification has used stays
    charged. *)

From S2P Require Import Prelude Errors Stateful Ord Provenance Dnp3Link Dnp3App Modbus Workflow.

(** ** The application data of engine.rs that correlation reads *)

Inductive ApplicationData : Type :=
| Dnp3 (r : Dnp3Result)
| Modbus_ (r : ModbusResult)
| Failed (e : Error).

Record ApplicationAnalysis : Type := {
  aa_flow : Z;
  aa_dir : Z;
  protocol : string;
  app_data : ApplicationData;
}.

Record MessageRef : Type := { application : Z; message : Z }.
Record Transaction : Type := {
  t_protocol : string;
  t_flow : Z;
  requests : list MessageRef;
  responses : list MessageRef;
  status : string;
  reason : string;
}.
Record Group : Type := {
  g_requests : list MessageRef;
  g_responses : list MessageRef;
  uncertain_boundary : bool;
}.
Definition group_default : Group :=
  {| g_requests := []; g_responses := []; uncertain_boundary := false |}.

(** [capture_scope]. *)
Definition capture_scope (raw : EvidenceBytes) : option (list Z) :=
  if negb (validate raw) then None else
  first ← head (spans raw);
  let c := capture (packet first) in
  if forallb (λ s, bytes_eqb (capture (packet s)) c) (spans raw) then Some c else None.

(** Protocol, capture, flow, controller address or unit, outstation address,
    sequence or transaction, function. *)
Definition PairKey : Type := string * (list Z * (Z * (Z * (Z * (Z * Z))))).

(** The local variables of [transactions], the work apart. *)
Record Pairing : Type := {
  groups : list (PairKey * Group);
  output : list Transaction;
  count : Z;
}.
Definition with_output (st : Pairing) (t : Transaction) : Pairing :=
  {| groups := groups st; output := output st ++ [t]; count := count st |}.

(** [groups.entry(key).or_default()] and the push to one of its sides. *)
Definition push_side (st : Pairing) (key : PairKey) (request uncertain : bool) (r : MessageRef)
    : Pairing :=
  let g := default group_default (bt_get (groups st) key) in
  let g := {| g_requests := if request then g_requests g ++ [r] else g_requests g;
              g_responses := if request then g_responses g else g_responses g ++ [r];
              uncertain_boundary := uncertain_boundary g || uncertain |} in
  {| groups := bt_insert (groups st) key g; output := output st; count := count st |}.

Definition bump_count (l : Limits) (st : Pairing) : result Pairing :=
  n ← add_ovf usize_max (count st) 1;
  if max_protocol_messages l <? n then Err (limit "correlation_messages")
  else Ok {| groups := groups st; output := output st; count := n |}.

(** A row for one message that is not grouped. *)
Definition lone (proto : string) (flow : Z) (request : bool) (r : MessageRef) (st why : string)
    : Transaction :=
  {| t_protocol := proto; t_flow := flow; requests := if request then [r] else [];
     responses := if request then [] else [r]; status := st; reason := why |}.

(** The status of a DNP3 message that is not paired. *)
Definition dnp3_status (m : ApplicationMessage) (verified : bool + Error) (no_response : bool)
    : string * string :=
  if negb (complete m) then ("incomplete", "application_fragments_missing")
  else match verified with
  | inr e => ("unclassified", field e)
  | inl _ =>
      if no_response
      then ("no_response_expected", "captured_function_explicitly_suppresses_response")
      else match am_class m with
      | McUnsolicited => ("unsolicited", "no_request_required")
      | McConfirm => ("confirmation", "fragment_confirmation_observed_pairing_not_implemented")
      | _ => ("unclassified", "function_or_role_not_supported")
      end
  end.

Definition is_request (m : ApplicationMessage) : bool := bool_decide (am_class m = McRequest).

(** One DNP3 message. *)
Definition pair_dnp3 (l : Limits) (ai : Z) (app : ApplicationAnalysis) (out : Dnp3Result)
    (st : Pairing) (im : Z * ApplicationMessage) : Charged Pairing :=
  let '(mi, m) := im in
  st ← lift (bump_count l st);
  let reference := {| application := ai; message := mi |} in
  verified ← catchC (if complete m && (aa_dir app <=? 1) && String.eqb (protocol app) "dnp3"
                     then verified_message_direction out m l
                     else throw (error_new Truncated 0 "dnp3_pairing_incomplete_or_direction_unknown"
                                           "not pairable"));
  if match verified with inr e => bool_decide (Errors.code e = LimitExceeded) | inl _ => false end
  then throw (limit "dnp3_correlation_work") else
  let no_response := is_request m && one_of [6; 8; 10; 12] (am_function m) in
  if negb (complete m) || match verified with inr _ => true | inl _ => false end || no_response
     || negb (bool_decide (am_class m = McRequest) || bool_decide (am_class m = McResponse))
  then
    let '(s, why) := dnp3_status m verified no_response in
    mret (with_output st (lone "dnp3" (aa_flow app) (is_request m) reference s why))
  else
    let '(controller, outstation) :=
      if is_request m then (am_source m, am_destination m) else (am_destination m, am_source m) in
    first ← lift (index (am_packets m) 0);
    mret (push_side st ("dnp3", (capture first, (aa_flow app, (controller, (outstation,
            (am_first_sequence m, 0)))))) (is_request m) false reference).

(** The work a Modbus message is charged. *)
Definition charge_scope (l : Limits) (raw : EvidenceBytes) : Charged unit := λ work,
  match work ← checked_add usize_max work (zlen (spans raw)); checked_add usize_max work 1 with
  | Some n => if n <=? max_correlation_checks l then (n, Ok ())
              else (work, Err (limit "transaction_capture_scope_work"))
  | None => (work, Err (limit "transaction_capture_scope_work"))
  end.

(** One Modbus message. *)
Definition pair_modbus (l : Limits) (ai : Z) (app : ApplicationAnalysis)
    (st : Pairing) (im : Z * ModbusMessage) : Charged Pairing :=
  let '(mi, m) := im in
  st ← lift (bump_count l st);
  let reference := {| application := ai; message := mi |} in
  charge_scope l (m_raw m) ;;
  let request := bool_decide (m_role m = Request) in
  match capture_scope (m_raw m) with
  | Some c =>
      if negb (shape_valid m) || negb (semantics_supported m) || bool_decide (m_role m = RUnknown)
      then mret (with_output st (lone "modbus" (aa_flow app) request reference "unclassified"
                   "invalid_or_unsupported_pdu_shape_or_endpoint_role"))
      else mret (push_side st ("modbus", (c, (aa_flow app, (unit_id m, (0, (transaction m,
                   Z.land (m_function m) 0x7f)))))) request (negb (boundary_verified m)) reference)
  | None => mret (with_output st (lone "modbus" (aa_flow app) request reference "unclassified"
                    "modbus_transaction_capture_scope_invalid"))
  end.

Definition pair_application (l : Limits) (st : Pairing) (ia : Z * ApplicationAnalysis)
    : Charged Pairing :=
  let '(ai, app) := ia in
  match app_data app with
  | Dnp3 out => foldC (pair_dnp3 l ai app out) st (enumerate (Dnp3App.messages out))
  | Modbus_ out => foldC (pair_modbus l ai app) st (enumerate (Modbus.messages out))
  | Failed _ => mret st
  end.

(** The only request and the only response of a group. *)
Definition single (g : Group) : option (MessageRef * MessageRef) :=
  match g_requests g, g_responses g with [q], [r] => Some (q, r) | _, _ => None end.

(** [inconsistent_modbus]. *)
Definition inconsistent_modbus (apps : list ApplicationAnalysis) (proto : string) (g : Group)
    : result bool :=
  match single g with
  | Some (q, r) =>
      if negb (String.eqb proto "modbus") then Ok false else
      a ← index apps (application q);
      b ← index apps (application r);
      match app_data a, app_data b with
      | Modbus_ x, Modbus_ y =>
          m ← index (Modbus.messages x) (message q);
          n ← index (Modbus.messages y) (message r);
          ok ← response_matches m n;
          Ok (negb ok)
      | _, _ => Ok false
      end
  | None => Ok false
  end.

(** [dnp_same_direction]. *)
Definition dnp_same_direction (apps : list ApplicationAnalysis) (proto : string) (g : Group)
    : result bool :=
  match single g with
  | Some (q, r) =>
      if negb (String.eqb proto "dnp3") then Ok false else
      a ← index apps (application q);
      b ← index apps (application r);
      Ok (aa_dir a =? aa_dir b)
  | None => Ok false
  end.

(** The status of a group. *)
Definition group_status (g : Group) (same_direction inconsistent : bool) : string * string :=
  match single g with
  | Some _ =>
      if same_direction
      then ("ambiguous", "dnp3_request_response_capture_directions_not_opposite")
      else if inconsistent
      then ("inconsistent_response", "request_response_pdu_fields_disagree")
      else if uncertain_boundary g
      then ("candidate_unverified_boundary", "midstream_mbap_alignment_not_independently_proven")
      else ("candidate_pair", "matching_protocol_identifiers_not_attack_proof")
  | None =>
      if zlen (g_requests g) =? 0 then ("orphan_response", "request_not_observed")
      else if zlen (g_responses g) =? 0 then ("unanswered", "response_not_observed")
      else ("ambiguous", "identifier_reuse_or_duplicate_application_messages")
  end.

(** One group of the final loop. *)
Definition close_group (apps : list ApplicationAnalysis) (out : list Transaction)
    (kg : PairKey * Group) : result (list Transaction) :=
  let '((proto, (_, (flow, _))), g) := kg in
  inconsistent ← inconsistent_modbus apps proto g;
  same ← dnp_same_direction apps proto g;
  let '(s, why) := group_status g same inconsistent in
  Ok (out ++ [{| t_protocol := proto; t_flow := flow; requests := g_requests g;
                 responses := g_responses g; status := s; reason := why |}]).

(** [transactions]. *)
Definition transactions (apps : list ApplicationAnalysis) (l : Limits) : result (list Transaction) :=
  st ← (foldC (pair_application l) {| groups := []; output := []; count := 0 |} (enumerate apps) 0).2;
  foldM (close_group apps) (output st) (groups st).

(** ** dnp3_confirmations.rs *)

Record FragmentRef : Type := { fr_application : Z; fr_fragment : Z }.
Record ConfirmationFragment : Type := {
  cf_reference : FragmentRef;
  cf_direction : Z;
  cf_witness : FragmentWitness;
}.
Record ExcludedTarget : Type := { et_fragment : ConfirmationFragment; et_reason : string }.
Record ConfirmationCandidate : Type := {
  cc_flow : Z;
  confirms : list ConfirmationFragment;
  targets : list ConfirmationFragment;
  excluded_targets : list ExcludedTarget;
  unclassified_fragments : list FragmentRef;
  cc_status : string;
  cc_reason : string;
  cc_error : option Error;
}.
Record ConfirmGroup : Type := {
  cg_confirms : list ConfirmationFragment;
  cg_responses : list ConfirmationFragment;
}.
Definition ConfirmKey : Type := list Z * (Z * (Z * (Z * (Z * bool)))).

Inductive InvalidScope : Type :=
| InvalidCapture (c : list Z) (flow : Z)
| UnknownCapture (flow : Z).

(** [derive(Ord)]. *)
#[global] Instance InvalidScope_ord : Ord InvalidScope.
Proof.
  refine (proj_ord (λ s, match s with InvalidCapture c f => (false, (c, f))
                                    | UnknownCapture f => (true, ([], f)) end) _).
  intros [c f|f] [c' f'|f']; simpl; congruence.
Defined.

(** [charge] of dnp3_confirmations.rs. *)
Definition charge_confirm (l : Limits) (amount : Z) : Charged unit :=
  charge_as "dnp3_confirmation_correlation_work" amount (max_correlation_checks l).

(** [invalid_scope]: the frames are visited until one decides. *)
Fixpoint scope_of_frames (out : Dnp3Result) (l : Limits) (flow : Z) (c : list Z) (fs : list Z)
    : Charged InvalidScope :=
  match fs with
  | [] => mret (InvalidCapture c flow)
  | index :: fs =>
      charge_confirm l 1 ;;
      match get (Dnp3App.frames out) index with
      | None => mret (UnknownCapture flow)
      | Some frame =>
          charge_confirm l (zlen (spans (lf_raw frame))) ;;
          if bool_decide (capture_scope (lf_raw frame) = Some c)
          then scope_of_frames out l flow c fs
          else mret (UnknownCapture flow)
      end
  end.

Definition invalid_scope (out : Dnp3Result) (fragment : ApplicationFragment) (flow : Z) (l : Limits)
    : Charged InvalidScope :=
  charge_confirm l (zlen (spans (af_raw fragment))) ;;
  match capture_scope (af_raw fragment) with
  | None => mret (UnknownCapture flow)
  | Some c => scope_of_frames out l flow c (af_frames fragment)
  end.

(** The local variables of [dnp3_confirmation_candidates], the work apart. *)
Record Confirming : Type := {
  c_groups : list (ConfirmKey * ConfirmGroup);
  c_invalid : list (InvalidScope * list FragmentRef);
  c_output : list ConfirmationCandidate;
  c_fragments : Z;
}.

(** An unverified fragment: noted in its scope and reported by itself. *)
Definition unclassified (st : Confirming) (scope : InvalidScope) (flow : Z) (r : FragmentRef)
    (e : Error) : Confirming :=
  {| c_groups := c_groups st;
     c_invalid := bt_insert (c_invalid st) scope (default [] (bt_get (c_invalid st) scope) ++ [r]);
     c_output := c_output st ++
       [{| cc_flow := flow; confirms := []; targets := []; excluded_targets := [];
           unclassified_fragments := [r]; cc_status := "unclassified"; cc_reason := field e;
           cc_error := Some e |}];
     c_fragments := c_fragments st |}.

(** A verified fragment with a confirmation or response function. *)
Definition observe (st : Confirming) (key : ConfirmKey) (confirm : bool) (o : ConfirmationFragment)
    : Confirming :=
  let g := default {| cg_confirms := []; cg_responses := [] |} (bt_get (c_groups st) key) in
  let g := {| cg_confirms := if confirm then cg_confirms g ++ [o] else cg_confirms g;
              cg_responses := if confirm then cg_responses g else cg_responses g ++ [o] |} in
  {| c_groups := bt_insert (c_groups st) key g; c_invalid := c_invalid st;
     c_output := c_output st; c_fragments := c_fragments st |}.

Definition bump_fragments (l : Limits) (st : Confirming) : result Confirming :=
  n ← ok_or (n ← checked_add usize_max (c_fragments st) 1;
             if n <=? max_protocol_messages l then Some n else None)
            (limit "dnp3_confirmation_fragments");
  Ok {| c_groups := c_groups st; c_invalid := c_invalid st; c_output := c_output st;
        c_fragments := n |}.

(** One fragment. *)
Definition confirm_fragment (l : Limits) (ai : Z) (app : ApplicationAnalysis) (out : Dnp3Result)
    (st : Confirming) (ifr : Z * ApplicationFragment) : Charged Confirming :=
  let '(fi, fragment) := ifr in
  charge_confirm l 1 ;;
  st ← lift (bump_fragments l st);
  let reference := {| fr_application := ai; fr_fragment := fi |} in
  verified ← catchC (if (aa_dir app <=? 1) && String.eqb (protocol app) "dnp3"
                     then verified_fragment_witness out fragment l
                     else throw (error_new Invariant 0 "dnp3_confirmation_application_scope_invalid"
                       "protocol or captured direction disagrees with the supplied DNP3 scope"));
  match verified with
  | inr e =>
      if bool_decide (Errors.code e = LimitExceeded) then throw e else
      scope ← invalid_scope out fragment (aa_flow app) l;
      mret (unclassified st scope (aa_flow app) reference e)
  | inl w =>
      let h := fw_header w in
      if negb (one_of [0; 0x81; 0x82] (h_function h)) then mret st else
      let confirm := h_function h =? 0 in
      let '(source, destination) := if confirm then (fw_source w, fw_destination w)
                                    else (fw_destination w, fw_source w) in
      first ← lift (index (fw_packets w) 0);
      mret (observe st (capture first, (aa_flow app, (source, (destination,
                         (h_sequence h, h_unsolicited h))))) confirm
              {| cf_reference := reference; cf_direction := aa_dir app; cf_witness := w |})
  end.

Definition confirm_application (l : Limits) (st : Confirming) (ia : Z * ApplicationAnalysis)
    : Charged Confirming :=
  let '(ai, app) := ia in
  charge_confirm l 1 ;;
  match app_data app with
  | Dnp3 out => foldC (confirm_fragment l ai app out) st (enumerate (Dnp3App.fragments out))
  | _ => mret st
  end.

(** The opposition of a response to the confirms: by capture direction, by link
    direction, and by one confirm in both. *)
Definition opposition (l : Limits) (response : ConfirmationFragment) (acc : bool * bool * bool)
    (confirm : ConfirmationFragment) : Charged (bool * bool * bool) :=
  charge_confirm l 1 ;;
  let '(oc, ol, both) := acc in
  let c := negb (cf_direction confirm =? cf_direction response) in
  let k := negb (eqb (link_direction (cf_witness confirm)) (link_direction (cf_witness response))) in
  mret (oc || c, ol || k, both || (c && k)).

(** Why a response is not a target. *)
Definition exclusion (response : ConfirmationFragment) (o : bool * bool * bool) : option string :=
  let '(oc, ol, both) := o in
  if negb (h_confirm (fw_header (cf_witness response)))
  then Some "target_does_not_request_confirmation"
  else if negb oc then Some "captured_application_directions_not_opposite"
  else if negb ol then Some "link_dir_not_opposite"
  else if negb both then Some "direction_evidence_not_jointly_compatible"
  else None.

Definition place_response (l : Limits) (cs : list ConfirmationFragment)
    (acc : list ConfirmationFragment * list ExcludedTarget) (response : ConfirmationFragment)
    : Charged (list ConfirmationFragment * list ExcludedTarget) :=
  charge_confirm l 1 ;;
  o ← foldC (opposition l response) (false, false, false) cs;
  match exclusion response o with
  | Some why => mret (acc.1, acc.2 ++ [{| et_fragment := response; et_reason := why |}])
  | None => mret (acc.1 ++ [response], acc.2)
  end.

(** The unverified fragments that may hide in a scope. *)
Definition blocked_by (l : Limits) (invalid : list (InvalidScope * list FragmentRef))
    (acc : list FragmentRef) (scope : InvalidScope) : Charged (list FragmentRef) :=
  match bt_get invalid scope with
  | Some refs => charge_confirm l (zlen refs) ;; mret (acc ++ refs)
  | None => mret acc
  end.

Definition confirm_status (unknown : bool) (unclassified_ : list FragmentRef)
    (cs ts : list ConfirmationFragment) (xs : list ExcludedTarget) : string * string :=
  if unknown then ("ambiguous", "unverified_fragment_capture_scope_unknown_in_same_flow")
  else if negb (zlen unclassified_ =? 0)
  then ("ambiguous", "unverified_fragment_identifier_in_same_flow")
  else if 1 <? zlen cs then ("ambiguous", "duplicate_or_reused_confirmation_identifier")
  else if zlen ts =? 0
  then ("unmatched_confirmation", "no_verified_response_fragment_matches_all_confirmation_fields")
  else if (1 <? zlen ts) || negb (zlen xs =? 0)
  then ("ambiguous", "duplicate_or_reused_response_identifier")
  else ("candidate_confirmation", "unique_verified_fragment_identifiers_not_receipt_or_causality").

(** One group of the final loop. *)
Definition close_confirms (l : Limits) (invalid : list (InvalidScope * list FragmentRef))
    (out : list ConfirmationCandidate) (kg : ConfirmKey * ConfirmGroup)
    : Charged (list ConfirmationCandidate) :=
  let '((c, (flow, _)), g) := kg in
  if zlen (cg_confirms g) =? 0 then mret out else
  charge_confirm l (zlen (cg_confirms g)) ;;
  tx ← foldC (place_response l (cg_confirms g)) ([], []) (cg_responses g);
  let unknown := UnknownCapture flow in
  blocked ← foldC (blocked_by l invalid) [] [InvalidCapture c flow; unknown];
  let '(s, why) := confirm_status (if bt_get invalid unknown then true else false) blocked
                     (cg_confirms g) tx.1 tx.2 in
  mret (out ++ [{| cc_flow := flow; confirms := cg_confirms g; targets := tx.1;
                   excluded_targets := tx.2; unclassified_fragments := blocked;
                   cc_status := s; cc_reason := why; cc_error := None |}]).

(** [dnp3_confirmation_candidates]. *)
Definition confirmation_candidates (apps : list ApplicationAnalysis) (l : Limits)
    : Charged (list ConfirmationCandidate) :=
  st ← foldC (confirm_application l)
         {| c_groups := []; c_invalid := []; c_output := []; c_fragments := 0 |} (enumerate apps);
  foldC (close_confirms l (c_invalid st)) (c_output st) (c_groups st).

Definition dnp3_confirmation_candidates (apps : list ApplicationAnalysis) (l : Limits)
    : result (list ConfirmationCandidate) := (confirmation_candidates apps l 0).2.
