(* ===== verification/CorrelateFacts.v ===== *)
(** * Correctness of correlation

    Every message is reported exactly once, in a row of its own or in the row of
    its identifiers; a row is a candidate pair exactly when its identifiers have
    one request and one response and these fit each other.  A confirmation is a
    candidate only where no unverified fragment could be the one it answers. *)

From S2P Require Import Prelude Errors Stateful Ord Provenance Sha256 Dnp3Link Dnp3App Dnp3AppFacts Modbus.
From Stdlib Require Import Sorting.Sorted.
From S2P Require Import ModbusFacts Workflow WorkflowFacts Correlate.

(** ** Numbered lists *)

Lemma enumerate_NoDup {A} (l : list A) : NoDup (fst <$> enumerate l).
Proof.
  unfold enumerate. rewrite fst_zip by (rewrite length_seqZ; unfold zlen; lia). apply NoDup_seqZ.
Qed.

(** ** What the rows are about *)

Definition row_refs (t : Transaction) : list MessageRef := requests t ++ responses t.

(** The messages of an application, and of all of them. *)
Definition message_refs (ia : Z * ApplicationAnalysis) : list MessageRef :=
  match app_data ia.2 with
  | Dnp3 o => (λ im, {| application := ia.1; message := im.1 |}) <$> enumerate (Dnp3App.messages o)
  | Modbus_ o => (λ im, {| application := ia.1; message := im.1 |}) <$> enumerate (Modbus.messages o)
  | Failed _ => []
  end.
Definition all_refs (apps : list ApplicationAnalysis) : list MessageRef :=
  concat (message_refs <$> enumerate apps).

(** The values the program can hold. *)
Definition app_typed (a : ApplicationAnalysis) : Prop :=
  match app_data a with
  | Dnp3 o => result_typed o
  | Modbus_ o => Forall (λ m, ev_typed (m_raw m)) (Modbus.messages o)
  | Failed _ => True
  end.

Section spec.
Context (apps : list ApplicationAnalysis).

(** Message [r] is a DNP3 message of flow [flow] that the verifier accepted, with
    the identifiers given: controller [x], outstation [y] and sequence [s]. *)
Definition carries_dnp3 (request : bool) (r : MessageRef) (c : list Z) (flow x y s : Z) : Prop :=
  ∃ a o m, get apps (application r) = Some a ∧ aa_flow a = flow ∧ app_data a = Dnp3 o ∧
    get (Dnp3App.messages o) (message r) = Some m ∧
    message_verified o m request ∧ one_capture c (am_packets m) ∧
    am_class m = (if request then McRequest else McResponse) ∧
    (request = true → am_function m ∉ [6; 8; 10; 12]) ∧
    am_first_sequence m = s ∧
    (if request then (am_source m, am_destination m) else (am_destination m, am_source m)) = (x, y).

(** Message [r] is a well-formed Modbus message of one capture with the identifiers. *)
Definition carries_modbus (request : bool) (r : MessageRef) (c : list Z) (flow x s f : Z) : Prop :=
  ∃ a o m, get apps (application r) = Some a ∧ aa_flow a = flow ∧ app_data a = Modbus_ o ∧
    get (Modbus.messages o) (message r) = Some m ∧
    shape_valid m = true ∧ semantics_supported m = true ∧
    m_role m = (if request then Request else Response) ∧ capture_scope (m_raw m) = Some c ∧
    unit_id m = x ∧ transaction m = s ∧ Z.land (m_function m) 0x7f = f.

Definition carries (key : PairKey) (request : bool) (r : MessageRef) : Prop :=
  let '(proto, (c, (flow, (x, (y, (s, f)))))) := key in
  (proto = "dnp3" ∧ f = 0 ∧ carries_dnp3 request r c flow x y s) ∨
  (proto = "modbus" ∧ y = 0 ∧ carries_modbus request r c flow x s f).

(** The frame of a Modbus message was not found from the start of the stream. *)
Definition doubtful (r : MessageRef) : Prop :=
  ∃ a o m, get apps (application r) = Some a ∧ app_data a = Modbus_ o ∧
    get (Modbus.messages o) (message r) = Some m ∧ boundary_verified m = false.

(** Response [r] fits request [q]: DNP3, seen in different directions; Modbus,
    both at certain frame boundaries and the response answering the request. *)
Definition answered (q r : MessageRef) : Prop :=
  ∃ a b, get apps (application q) = Some a ∧ get apps (application r) = Some b ∧
    match app_data a, app_data b with
    | Dnp3 _, Dnp3 _ => aa_dir a ≠ aa_dir b
    | Modbus_ x, Modbus_ y => ¬ doubtful q ∧ ¬ doubtful r ∧
        ∃ m n, get (Modbus.messages x) (message q) = Some m ∧
               get (Modbus.messages y) (message r) = Some n ∧ response_matches m n = Ok true
    | _, _ => False
    end.

(** A message that is not grouped. *)
Definition alone (t : Transaction) : Prop :=
  (∃ r, row_refs t = [r]) ∧
  status t ∈ ["incomplete"; "unclassified"; "no_response_expected"; "unsolicited"; "confirmation"].

(** The row of the messages that carry the identifiers [key]. *)
Record grouped (key : PairKey) (t : Transaction) : Prop := {
  gr_key : (t_protocol t, t_flow t) = (key.1, key.2.2.1);
  gr_some : row_refs t ≠ [];
  gr_requests : Forall (carries key true) (requests t);
  gr_responses : Forall (carries key false) (responses t);
  gr_orphan : status t = "orphan_response" ↔ requests t = [];
  gr_unanswered : status t = "unanswered" ↔ responses t = [];
  gr_pair : status t = "candidate_pair" ↔
              ∃ q r, requests t = [q] ∧ responses t = [r] ∧ answered q r;
}.

(** ** The loop over the messages *)

Definition group_refs (g : Group) : list MessageRef := g_requests g ++ g_responses g.

Record group_ok (key : PairKey) (g : Group) : Prop := {
  go_some : group_refs g ≠ [];
  go_requests : Forall (carries key true) (g_requests g);
  go_responses : Forall (carries key false) (g_responses g);
  go_doubt : uncertain_boundary g = true ↔ Exists doubtful (group_refs g);
}.

Definition state_refs (st : Pairing) : list MessageRef :=
  concat (row_refs <$> output st) ++ concat ((λ kg, group_refs kg.2) <$> groups st).

(** The state after the messages [seen]. *)
Record pairing_ok (l : Limits) (seen : list MessageRef) (st : Pairing) : Prop := {
  po_refs : state_refs st ≡ₚ seen;
  po_alone : Forall alone (output st);
  po_wf : bt_wf (groups st);
  po_groups : Forall (λ kg, group_ok kg.1 kg.2) (groups st);
  po_count : 0 ≤ count st ≤ max_protocol_messages l;
}.

Lemma pairing_alone l seen st t r :
  pairing_ok l seen st → row_refs t = [r] →
  status t ∈ ["incomplete"; "unclassified"; "no_response_expected"; "unsolicited"; "confirmation"] →
  pairing_ok l (seen ++ [r]) (with_output st t).
Proof.
  intros [H1 H2 H3 H4 H5] Hr Hs. split; try done.
  - unfold state_refs, with_output. cbn [output groups]. rewrite fmap_app, concat_app. simpl.
    rewrite Hr, app_nil_r, <- app_assoc. rewrite (Permutation_app_comm [r]), app_assoc.
    by apply Permutation_app_tail.
  - apply Forall_app. split; [done|]. apply Forall_singleton. split; [by exists r|done].
Qed.

Lemma pairing_member l seen st key request uncertain r :
  pairing_ok l seen st → carries key request r → (uncertain = true ↔ doubtful r) →
  pairing_ok l (seen ++ [r]) (push_side st key request uncertain r).
Proof.
  intros [H1 H2 H3 H4 H5] Hc Hu.
  set (g := default group_default (bt_get (groups st) key)).
  set (g' := {| g_requests := if request then g_requests g ++ [r] else g_requests g;
                g_responses := if request then g_responses g else g_responses g ++ [r];
                uncertain_boundary := uncertain_boundary g || uncertain |}).
  assert (group_refs g' ≡ₚ group_refs g ++ [r]) as Hperm.
  { unfold group_refs, g'. cbn [g_requests g_responses]. destruct request; [|by rewrite app_assoc].
    by rewrite <- !app_assoc, (Permutation_app_comm [r]). }
  assert (g = group_default ∨ group_ok key g) as Hg.
  { unfold g. destruct (bt_get (groups st) key) as [g0|] eqn:E; [right|by left].
    by apply (Forall_bt_get _ _ _ _ H4) in E. }
  change (push_side st key request uncertain r) with
    {| groups := bt_insert (groups st) key g'; output := output st; count := count st |}.
  split; try done.
  - rewrite <- H1. unfold state_refs. cbn [groups output]. rewrite <- app_assoc. apply Permutation_app_head.
    apply (bt_insert_concat group_refs); [done|]. rewrite Hperm. unfold g.
    by destruct (bt_get (groups st) key).
  - by apply bt_insert_wf.
  - apply Forall_bt_insert; [done|]. cbn [fst snd]. split.
    + intros Hnil. rewrite Hnil in Hperm. apply Permutation_nil_l in Hperm. by destruct (group_refs g).
    + unfold g'. cbn [g_requests]. destruct Hg as [->|[]]; destruct request; simpl; repeat constructor; try done.
      apply Forall_app. by repeat constructor.
    + unfold g'. cbn [g_responses]. destruct Hg as [->|[]]; destruct request; simpl; repeat constructor; try done.
      apply Forall_app. by repeat constructor.
    + rewrite Exists_exists. setoid_rewrite Hperm. unfold g'. cbn [uncertain_boundary].
      rewrite orb_true_iff, Hu. setoid_rewrite elem_of_app. setoid_rewrite list_elem_of_singleton.
      destruct Hg as [->|[_ _ _ Hd]].
      * simpl. split; [intros [?|?]; [done|by exists r; auto]|].
        intros (x & [?%not_elem_of_nil| ->] & ?); [done|by right].
      * rewrite Hd, Exists_exists. naive_solver.
Qed.

Lemma wpc_bump l st (Q : Pairing → Prop) :
  0 ≤ count st ≤ max_protocol_messages l → max_protocol_messages l ≤ i64_max →
  (count st + 1 ≤ max_protocol_messages l →
   Q {| groups := groups st; output := output st; count := count st + 1 |}) →
  wpce (S := Z) (lift (bump_count l st)) Q is_limit.
Proof.
  intros Hc Hl HQ. apply wpc_lift. unfold bump_count. apply wp_bind, wp_add_ovf; [lia|].
  destruct (Z.ltb_spec (max_protocol_messages l) (count st + 1)); [by eexists|]. by apply wp_ok, HQ.
Qed.

Context (l : Limits) (Hcount : max_protocol_messages l ≤ i64_max).
Context (Hbytes : max_application_bytes l ≤ i64_max).

(** What the verifier says of a message, whatever it charged. *)
Lemma wpc_verified app o m (Q : bool + Error → Prop) :
  result_typed o →
  (∀ d, complete m = true → aa_dir app ≤ 1 → protocol app = "dnp3" → message_verified o m d → Q (inl d)) →
  (∀ e, Q (inr e)) →
  wpce (catchC (if complete m && (aa_dir app <=? 1) && String.eqb (protocol app) "dnp3"
                then verified_message_direction o m l
                else throw (error_new Truncated 0 "dnp3_pairing_incomplete_or_direction_unknown"
                                      "not pairable"))) Q is_limit.
Proof using Hbytes.
  intros Ho HQ HE. apply (wpce_catch _ _ (λ d, complete m = true ∧ aa_dir app ≤ 1 ∧
    protocol app = "dnp3" ∧ message_verified o m d) (λ _, True)); [|naive_solver|auto].
  destruct (complete m && _ && _) eqn:Hc; [|by apply wpc_throw].
  apply andb_true_iff in Hc as [[Hc Hd]%andb_true_iff Hp]. apply String.eqb_eq in Hp.
  eapply wpc_mono; [by apply verified_message_spec|]. intros d Hv. split_and!; [done|lia|done|done].
Qed.

Lemma dnp3_status_alone m v nr :
  (dnp3_status m v nr).1 ∈ ["incomplete"; "unclassified"; "no_response_expected"; "unsolicited"; "confirmation"].
Proof. unfold dnp3_status. repeat case_match; simpl; set_solver. Qed.

Lemma lone_refs proto flow b r s why : row_refs (lone proto flow b r s why) = [r].
Proof. by destruct b. Qed.

Lemma wpc_pair_dnp3 ai app o seen st mi m :
  get apps ai = Some app → app_data app = Dnp3 o → result_typed o →
  get (Dnp3App.messages o) mi = Some m → pairing_ok l seen st →
  wpce (pair_dnp3 l ai app o st (mi, m))
       (pairing_ok l (seen ++ [{| application := ai; message := mi |}])) is_limit.
Proof using Hcount Hbytes.
  intros Happ Hdata Ho Hm Hst. unfold pair_dnp3. apply wpc_bind.
  apply wpc_bump; [apply Hst|done|]. intros Hle. cbv zeta.
  set (r := {| application := ai; message := mi |}).
  assert (pairing_ok l seen {| groups := groups st; output := output st; count := count st + 1 |}) as Hst'.
  { destruct Hst as [H1 H2 H3 H4 H5]. split; try done. cbn [count]. lia. }
  revert Hst'. generalize {| groups := groups st; output := output st; count := count st + 1 |}.
  clear Hst Hle. intros st' Hst. apply wpc_bind, wpc_verified; [done| |].
  2:{ intros e. destruct (bool_decide _); [apply wpce_throw; by eexists|]. rewrite orb_true_r. cbn [orb].
      pose proof (dnp3_status_alone m (inr e) (is_request m && one_of [6; 8; 10; 12] (am_function m))) as Hs.
      destruct (dnp3_status m _ _) as [s why]. apply wpc_ret, pairing_alone; [done|apply lone_refs|done]. }
  intros d Hc Hdir Hproto Hv. rewrite Hc. cbn [negb orb].
  set (nr := is_request m && one_of [6; 8; 10; 12] (am_function m)).
  destruct (nr || _) eqn:Hrow.
  { pose proof (dnp3_status_alone m (inl d) nr) as Hs. destruct (dnp3_status m _ _) as [s why].
    apply wpc_ret, pairing_alone; [done|apply lone_refs|done]. }
  apply orb_false_iff in Hrow as [Hnr Hcl%negb_false_iff].
  assert (am_class m = (if is_request m then McRequest else McResponse)) as Hclass.
  { unfold is_request. destruct (am_class m); try done; by cbn in Hcl. }
  assert (d = is_request m) as Hd.
  { destruct Hv as (_ & _ & _ & _ & _ & -> & _). unfold is_request. rewrite Hclass. by destruct (is_request m). }
  pose proof Hv as (_ & _ & _ & _ & _ & _ & parts & _ & _ & _ & _ & Hne & c & Hcap).
  destruct (am_packets m) as [|p ps] eqn:Hps; [done|].
  destruct (if is_request m then (am_source m, am_destination m) else (am_destination m, am_source m))
    as [x y] eqn:Hxy.
  apply wpc_bind, wpc_lift, wp_ok. pose proof Hcap as [Hp _]%Forall_cons. rewrite Hp.
  apply wpc_ret, pairing_member; [done| |].
  - left. split_and!; [done..|]. exists app, o, m. rewrite Hps. split_and!; try done.
    + by rewrite <- Hd.
    + intros Hreq. unfold nr in Hnr. rewrite Hreq in Hnr. cbn [andb] in Hnr. intros Hin.
      apply not_true_iff_false in Hnr. apply Hnr. unfold one_of. apply existsb_exists.
      exists (am_function m). split; [by apply list_elem_of_In|by apply Z.eqb_eq].
  - split; [done|]. intros (a & o' & n & Ha & Ho' & _). cbn in Ha. rewrite Happ in Ha. simplify_eq. congruence.
Qed.

Lemma wpc_charge_scope raw (Q : unit → Prop) : Q () → wpce (charge_scope l raw) Q is_limit.
Proof. intros HQ w. unfold charge_scope. repeat case_match; simpl; try done; by eexists. Qed.

Lemma wpc_pair_modbus ai app o seen st mi m :
  get apps ai = Some app → app_data app = Modbus_ o →
  get (Modbus.messages o) mi = Some m → pairing_ok l seen st →
  wpce (pair_modbus l ai app st (mi, m))
       (pairing_ok l (seen ++ [{| application := ai; message := mi |}])) is_limit.
Proof using Hcount Hbytes.
  intros Happ Hdata Hm Hst. unfold pair_modbus. apply wpc_bind.
  apply wpc_bump; [apply Hst|done|]. intros Hle. cbv zeta.
  set (r := {| application := ai; message := mi |}).
  assert (pairing_ok l seen {| groups := groups st; output := output st; count := count st + 1 |}) as Hst'.
  { destruct Hst as [H1 H2 H3 H4 H5]. split; try done. cbn [count]. lia. }
  revert Hst'. generalize {| groups := groups st; output := output st; count := count st + 1 |}.
  clear Hst Hle. intros st' Hst. apply wpc_bind, wpc_charge_scope.
  assert ("unclassified" ∈ ["incomplete"; "unclassified"; "no_response_expected"; "unsolicited"; "confirmation"]) as Hs
    by set_solver.
  destruct (capture_scope (m_raw m)) as [c|] eqn:Hcap;
    [|apply wpc_ret, pairing_alone; [done|apply lone_refs|done]].
  destruct (_ || _) eqn:Hrow; [apply wpc_ret, pairing_alone; [done|apply lone_refs|done]|].
  apply orb_false_iff in Hrow as [[Hsh%negb_false_iff Hsem%negb_false_iff]%orb_false_iff Hrole%bool_decide_eq_false].
  apply wpc_ret, pairing_member; [done| |].
  - right. split_and!; [done..|]. exists app, o, m. split_and!; try done.
    destruct (m_role m); try done; by case_bool_decide.
  - rewrite negb_true_iff. split; [intros Hb; by exists app, o, m|].
    intros (a & o' & n & Ha & Ho' & Hn & Hb). cbn in Ha, Hn. congruence.
Qed.

Lemma wpc_pair_application ai app seen st :
  get apps ai = Some app → app_typed app → pairing_ok l seen st →
  wpce (pair_application l st (ai, app)) (pairing_ok l (seen ++ message_refs (ai, app))) is_limit.
Proof using Hcount Hbytes.
  intros Happ Hty Hst. unfold pair_application, message_refs, app_typed in *. cbn [fst snd].
  destruct (app_data app) as [o|o|e] eqn:Hdata.
  - apply (wpc_fold (λ pre, pairing_ok l (seen ++ ((λ im, {| application := ai; message := im.1 |}) <$> pre))))
      with (done := []).
    + intros pre [mi m] post s Hz Hs. rewrite fmap_app, app_assoc.
      apply (wpc_pair_dnp3 ai app o); [done|done|done|by eapply enumerate_member|done].
    + by rewrite app_nil_r.
    + intros s. by rewrite app_nil_l.
  - apply (wpc_fold (λ pre, pairing_ok l (seen ++ ((λ im, {| application := ai; message := im.1 |}) <$> pre))))
      with (done := []).
    + intros pre [mi m] post s Hz Hs. rewrite fmap_app, app_assoc.
      apply (wpc_pair_modbus ai app o); [done|done|by eapply enumerate_member|done].
    + by rewrite app_nil_r.
    + intros s. by rewrite app_nil_l.
  - apply wpc_ret. by rewrite app_nil_r.
Qed.

(** ** Closing the groups *)

Lemma single_Some g q r : single g = Some (q, r) → g_requests g = [q] ∧ g_responses g = [r].
Proof. unfold single. intros H. by repeat case_match; simplify_eq. Qed.

Lemma single_None g : single g = None → ¬ ∃ q r, g_requests g = [q] ∧ g_responses g = [r].
Proof. unfold single. intros H (q & r & Hq & Hr). by rewrite Hq, Hr in H. Qed.

Lemma certain key g q r :
  group_ok key g → single g = Some (q, r) →
  uncertain_boundary g = false ↔ ¬ doubtful q ∧ ¬ doubtful r.
Proof.
  intros [_ _ _ Hd] [Hq Hr]%single_Some. rewrite <- not_true_iff_false, Hd. unfold group_refs.
  rewrite Hq, Hr. simpl. rewrite !Exists_cons, Exists_nil. tauto.
Qed.

(** The tests of a pair decide whether the response fits. *)
Lemma pair_tests key g q r :
  Forall app_typed apps → group_ok key g → single g = Some (q, r) →
  wp (i ← inconsistent_modbus apps key.1 g; s ← dnp_same_direction apps key.1 g; Ok (i, s))
     (λ '(i, s), negb s && negb i && negb (uncertain_boundary g) = true ↔ answered q r) (λ _, False).
Proof.
  intros Hty Hg Hs. pose proof (certain _ _ _ _ Hg Hs) as Hcert. pose proof (single_Some _ _ _ Hs) as [Hq Hr].
  destruct Hg as [_ Hqs Hrs _]. rewrite Hq in Hqs. rewrite Hr in Hrs.
  rewrite Forall_singleton in Hqs, Hrs. destruct key as (proto & c & flow & x & y & s & f).
  unfold inconsistent_modbus, dnp_same_direction. rewrite Hs. unfold carries in Hqs, Hrs.
  cbn [fst] in *. destruct Hqs as [(-> & _ & Hqs)|(-> & _ & Hqs)], Hrs as [(? & _ & Hrs)|(? & _ & Hrs)]; try done.
  - cbn [String.eqb Ascii.eqb Bool.eqb negb]. rewrite bind_Ok.
    destruct Hqs as (a & o & m & Ha & _ & Ho & _), Hrs as (b & o' & n & Hb & _ & Ho' & _).
    apply wp_bind, wp_bind, (index_get _ _ a); [done|]. apply wp_bind, (index_get _ _ b); [done|].
    apply wp_ok, wp_ok.
    assert (¬ doubtful q ∧ ¬ doubtful r) as Hnd.
    { split; intros (z & w & u & Hz & Hw & _); simplify_eq; congruence. }
    apply Hcert in Hnd. rewrite Hnd. cbn [negb]. rewrite !andb_true_r, negb_true_iff, Z.eqb_neq. split.
    + intros Hne. exists a, b. by rewrite Ho, Ho'.
    + intros (a' & b' & Ha' & Hb' & Hd). simplify_eq. by rewrite Ho, Ho' in Hd.
  - destruct Hqs as (a & o & m & Ha & _ & Ho & Hm & _), Hrs as (b & o' & n & Hb & _ & Ho' & Hn & _).
    assert (∀ z w u i, get apps i = Some z → app_data z = Modbus_ w → u ∈ Modbus.messages w → bytes_ok (data (m_raw u)))
      as Hbt.
    { intros z w u i [_ Hz]%get_Some Hw Hu. apply list_elem_of_lookup_2 in Hz.
      rewrite Forall_forall in Hty. specialize (Hty _ Hz). unfold app_typed in Hty. rewrite Hw in Hty.
      rewrite Forall_forall in Hty. by apply (Hty _ Hu). }
    assert (∀ w u i, get (Modbus.messages w) i = Some u → u ∈ Modbus.messages w) as Hin
      by (intros w u i [_ Hz]%get_Some; by eapply list_elem_of_lookup_2).
    cbn [String.eqb Ascii.eqb Bool.eqb negb].
    apply wp_bind, wp_bind, (index_get _ _ a); [done|]. apply wp_bind, (index_get _ _ b); [done|].
    rewrite Ho, Ho'. apply wp_bind, (index_get _ _ m); [done|]. apply wp_bind, (index_get _ _ n); [done|].
    pose proof (response_spec m n (Hbt _ _ _ _ Ha Ho (Hin _ _ _ Hm)) (Hbt _ _ _ _ Hb Ho' (Hin _ _ _ Hn))) as Hresp.
    destruct (response_matches m n) as [ok|?| |] eqn:Hrm; try done. rewrite bind_Ok. apply wp_ok, wp_bind, wp_ok, wp_ok.
    cbn [negb andb]. rewrite negb_involutive, andb_true_iff, negb_true_iff, Hcert. split.
    + intros [-> [H1 H2]]. exists a, b. rewrite Ho, Ho'. split_and!; try done. by exists m, n.
    + intros (a' & b' & Ha' & Hb' & Hd). simplify_eq. rewrite Ho, Ho' in Hd.
      destruct Hd as (H1 & H2 & m' & n' & Hm' & Hn' & Hok).
      simplify_eq. rewrite Hrm in Hok. by injection Hok.
Qed.

Lemma close_group_spec key g out :
  Forall app_typed apps → group_ok key g →
  wp (close_group apps out (key, g))
     (λ out', ∃ t, out' = out ++ [t] ∧ grouped key t ∧ row_refs t = group_refs g) (λ _, False).
Proof.
  intros Hty Hg. pose proof (pair_tests key g) as Hpair.
  destruct key as (proto & c & flow & x & y & s & f). unfold close_group. cbn [fst] in Hpair.
  set (key := (proto, (c, (flow, (x, (y, (s, f)))))) : PairKey) in *.
  pose proof Hg as [Hsome Hqs Hrs _]. unfold group_status.
  destruct (single g) as [[q r]|] eqn:Hs.
  - specialize (Hpair q r Hty Hg eq_refl). pose proof (single_Some _ _ _ Hs) as [Hq Hr].
    destruct (inconsistent_modbus _ _ _) as [i|?| |] eqn:Hi; try done. rewrite bind_Ok. rewrite bind_Ok in Hpair.
    destruct (dnp_same_direction _ _ _) as [sm|?| |] eqn:Hsm; try done. rewrite bind_Ok. rewrite bind_Ok in Hpair.
    change (negb sm && negb i && negb (uncertain_boundary g) = true ↔ answered q r) in Hpair.
    assert (∀ st why, st ≠ "orphan_response" → st ≠ "unanswered" →
      (st = "candidate_pair" ↔ answered q r) →
      grouped key {| t_protocol := proto; t_flow := flow; requests := g_requests g;
                     responses := g_responses g; status := st; reason := why |}) as Hrow.
    { intros st why H1 H2 H3. split; cbn [requests responses status t_protocol t_flow]; try done.
      - rewrite Hq. done.
      - rewrite Hr. done.
      - rewrite H3, Hq, Hr. split; [intros H; by exists q, r|]. intros (q' & r' & [= <-] & [= <-] & H). done. }
    destruct sm; [|destruct i; [|destruct (uncertain_boundary g)]]; cbn [negb andb] in Hpair;
      apply wp_ok; eexists; (split; [done|]); (split; [apply Hrow; [done..|]|done]);
      rewrite <- Hpair; done.
  - unfold inconsistent_modbus, dnp_same_direction. rewrite Hs, !bind_Ok.
    pose proof (single_None _ Hs) as Hno.
    assert (∀ st why, (st = "orphan_response" ↔ g_requests g = []) → (st = "unanswered" ↔ g_responses g = []) →
      st ≠ "candidate_pair" →
      grouped key {| t_protocol := proto; t_flow := flow; requests := g_requests g;
                     responses := g_responses g; status := st; reason := why |}) as Hrow.
    { intros st why H1 H2 H3. split; cbn [requests responses status t_protocol t_flow]; try done.
      split; [done|]. intros (q & r & Hq & Hr & _). destruct Hno. by exists q, r. }
    assert (∀ xs : list MessageRef, zlen xs = 0 ↔ xs = []) as Hz.
    { intros [|z xs]; [done|]. rewrite zlen_cons. pose proof (zlen_nonneg xs). split; [lia|done]. }
    unfold group_refs in Hsome.
    destruct (Z.eqb_spec (zlen (g_requests g)) 0) as [Hq|Hq]; [|destruct (Z.eqb_spec (zlen (g_responses g)) 0) as [Hr|Hr]];
      rewrite Hz in *; apply wp_ok; eexists; (split; [done|]); (split; [apply Hrow|done]);
      try done; split; try done; intros Hnil; rewrite ?Hq, ?Hnil in Hsome; done.
Qed.

Lemma close_groups_spec st rows :
  Forall app_typed apps → Forall (λ kg, group_ok kg.1 kg.2) (groups st) →
  wp (foldM (close_group apps) rows (groups st))
     (λ rows', ∃ gs, rows' = rows ++ gs ∧ Forall2 grouped ((groups st).*1) gs ∧
        concat (row_refs <$> gs) = concat ((λ kg, group_refs kg.2) <$> groups st)) (λ _, False).
Proof.
  intros Hty Hgs.
  apply (wp_foldM (λ pre rows', ∃ gs, rows' = rows ++ gs ∧ Forall2 grouped (pre.*1) gs ∧
    concat (row_refs <$> gs) = concat ((λ kg, group_refs kg.2) <$> pre)) _ _ _ _ []).
  - intros pre [key g] post rows' Heq (gs & -> & Hgr & Hrefs). rewrite app_nil_l in Heq.
    assert (group_ok key g) as Hg.
    { rewrite Heq in Hgs. apply Forall_app in Hgs as [_ [Hg _]%Forall_cons]. done. }
    eapply wp_mono; [by apply close_group_spec| |done]. intros out' (t & -> & Ht & Hr).
    exists (gs ++ [t]). rewrite !fmap_app, !concat_app, Hrefs. split_and!; [by rewrite app_assoc| |].
    + apply Forall2_app; [done|]. by constructor.
    + simpl. by rewrite Hr.
  - exists []. by rewrite app_nil_r.
  - intros s. by rewrite app_nil_l.
Qed.
End spec.

(** ** The properties *)

Lemma all_refs_NoDup apps : NoDup (all_refs apps).
Proof.
  unfold all_refs. pose proof (enumerate_NoDup apps) as Hnd.
  assert (∀ ia, NoDup (message_refs ia) ∧ Forall (λ r, application r = ia.1) (message_refs ia)) as Hone.
  { intros [ai app]. unfold message_refs. cbn [fst snd].
    assert (∀ A (xs : list A), NoDup ((λ im, {| application := ai; message := im.1 |}) <$> enumerate xs)) as H.
    { intros A xs. pose proof (enumerate_NoDup xs) as H.
      replace ((λ im, {| application := ai; message := im.1 |}) <$> enumerate xs)
        with ((λ i, {| application := ai; message := i |}) <$> (fst <$> enumerate xs))
        by (by rewrite <- list_fmap_compose).
      apply NoDup_fmap_2; [by intros ? ? [=]|done]. }
    destruct (app_data app); [split; [apply H|]..|split; [by apply NoDup_nil|by apply Forall_nil]];
      apply Forall_forall; intros x (im & -> & _)%list_elem_of_fmap; done. }
  induction (enumerate apps) as [|ia l IH]; simpl; [by apply NoDup_nil|].
  apply NoDup_cons in Hnd as [Hn Hnd]. destruct (Hone ia) as [H1 H2].
  apply NoDup_app. split_and!; [done| |by apply IH].
  intros r Hr Hin. rewrite Forall_forall in H2. apply H2 in Hr.
  apply elem_of_concat in Hin as (rs & Hib & Hin).
  apply list_elem_of_fmap in Hib as (ib & -> & Hib).
  destruct (Hone ib) as [_ H3]. rewrite Forall_forall in H3. apply H3 in Hin.
  apply Hn. rewrite <- Hr, Hin. by apply list_elem_of_fmap_2.
Qed.

Lemma transactions_spec (apps : list ApplicationAnalysis) (l : Limits) :
  0 ≤ max_protocol_messages l ≤ i64_max → max_application_bytes l ≤ i64_max →
  Forall app_typed apps →
  wp (transactions apps l)
     (λ rows, ∃ lones keys gs, rows = lones ++ gs ∧ Forall alone lones ∧
        StronglySorted lt_ord keys ∧ Forall2 (grouped apps) keys gs ∧
        concat (row_refs <$> rows) ≡ₚ all_refs apps ∧ NoDup (concat (row_refs <$> rows))) is_limit.
Proof.
  intros Hl Hb Hty. unfold transactions. apply wp_bind.
  assert (wpce (foldC (pair_application l) {| groups := []; output := []; count := 0 |} (enumerate apps))
    (pairing_ok apps l (all_refs apps)) is_limit) as Hfold; [|eapply wp_mono; [apply Hfold| |done]].
  - apply (wpc_fold (λ pre, pairing_ok apps l (concat (message_refs <$> pre)))) with (done := []).
    + intros pre [ai app] post s Hz Hs. pose proof (enumerate_member _ _ _ _ _ Hz) as Hg.
      rewrite fmap_app, concat_app. simpl. rewrite app_nil_r. apply wpc_pair_application; try done || lia.
      apply get_Some in Hg as [_ Hg]. apply list_elem_of_lookup_2 in Hg. by eapply Forall_forall in Hty.
    + split; cbn; try constructor; done || lia.
    + intros s. by rewrite app_nil_l.
  - intros st [H1 H2 H3 H4 H5].
    eapply wp_mono; [by apply (close_groups_spec apps st)| |done].
    intros rows (gs & -> & Hgs & Hrefs). exists (output st), ((groups st).*1), gs.
    assert (concat (row_refs <$> output st ++ gs) ≡ₚ all_refs apps) as Hp.
    { by rewrite fmap_app, concat_app, Hrefs. }
    split_and!; try done. rewrite Hp. apply all_refs_NoDup.
Qed.


(** ** Witnesses *)

Definition sample_modbus (l : list Z) (role : Role) : ModbusResult :=
  match Modbus.decode (sample_stream l) role limits_default with
  | Ok r => r
  | _ => {| Modbus.messages := []; Modbus.issues := [] |}
  end.

(** A DNP3 request without a response, a Modbus request and its response. *)
Definition sample_apps : list ApplicationAnalysis :=
  [{| aa_flow := 0; aa_dir := 0; protocol := "dnp3"; app_data := Dnp3 sample_dnp3_result |};
   {| aa_flow := 1; aa_dir := 0; protocol := "modbus";
      app_data := Modbus_ (sample_modbus sample_request Request) |};
   {| aa_flow := 1; aa_dir := 1; protocol := "modbus";
      app_data := Modbus_ (sample_modbus sample_response Response) |}].

Definition app_typedb (a : ApplicationAnalysis) : bool :=
  match app_data a with
  | Dnp3 o => result_typedb o
  | Modbus_ o => forallb (λ m, ev_typedb (m_raw m)) (Modbus.messages o)
  | Failed _ => true
  end.

Lemma app_typedb_ok apps : forallb app_typedb apps = true → Forall app_typed apps.
Proof.
  apply forallb_Forall_impl. intros a. unfold app_typedb, app_typed. destruct (app_data a); [|..|done].
  - apply result_typedb_ok.
  - apply forallb_Forall_impl. intros m. apply ev_typedb_ok.
Qed.

Example sample_transactions :
  (rows ← transactions sample_apps limits_default;
   Ok (map (λ t, (t_protocol t, status t, length (requests t), length (responses t))) rows)) =
  Ok [("dnp3", "unanswered", 1%nat, 0%nat); ("modbus", "candidate_pair", 1%nat, 1%nat)].
Proof. by vm_compute. Qed.

