(* ===== verification/ConfirmFacts.v ===== *)
(** * Correctness of the confirmation candidates

    The fragments of a capture are classified one by one into a ledger, and the
    rows are a function of the ledger: the unverified fragments one by one, then
    for every set of identifiers with a confirmation the confirmations, the
    responses they may confirm and the unverified fragments that block a claim. *)

From S2P Require Import Prelude Errors Stateful Ord Provenance Sha256 Dnp3Link Dnp3LinkFacts Dnp3App Dnp3AppFacts.
From Stdlib Require Import Sorting.Sorted.
From S2P Require Import Stream Workflow WorkflowFacts Correlate CorrelateFacts.

(** ** Classification *)

Inductive verdict : Type :=
| Unverified (s : InvalidScope) (flow : Z) (e : Error)
| Other
| Observed (key : ConfirmKey) (confirm : bool) (o : ConfirmationFragment).

Definition ledger : Type := list (FragmentRef * verdict).

Definition fragment_refs (ia : Z * ApplicationAnalysis) : list FragmentRef :=
  match app_data ia.2 with
  | Dnp3 o => (λ im, {| fr_application := ia.1; fr_fragment := im.1 |}) <$> enumerate (Dnp3App.fragments o)
  | _ => []
  end.
Definition all_fragments (apps : list ApplicationAnalysis) : list FragmentRef :=
  concat (fragment_refs <$> enumerate apps).

(** The observations under a key, and the unverified fragments of a scope, in order. *)
Definition selected (ld : ledger) (key : ConfirmKey) (confirm : bool) : list ConfirmationFragment :=
  omap (λ x : FragmentRef * verdict, match x.2 with
            | Observed k b o => if decide (k = key ∧ b = confirm) then Some o else None
            | _ => None
            end) ld.
Definition unverified_in (ld : ledger) (s : InvalidScope) : list FragmentRef :=
  omap (λ x : FragmentRef * verdict, match x.2 with
            | Unverified s' _ _ => if decide (s' = s) then Some x.1 else None
            | _ => None
            end) ld.
Definition unverified_row (r : FragmentRef) (flow : Z) (e : Error) : ConfirmationCandidate :=
  {| cc_flow := flow; confirms := []; targets := []; excluded_targets := [];
     unclassified_fragments := [r]; cc_status := "unclassified"; cc_reason := field e;
     cc_error := Some e |}.
Definition unverified_rows (ld : ledger) : list ConfirmationCandidate :=
  omap (λ x : FragmentRef * verdict, match x.2 with
            | Unverified _ flow e => Some (unverified_row x.1 flow e)
            | _ => None
            end) ld.

(** ** What a verdict says of its fragment *)

(** An unverified fragment is placed in a capture only when all its evidence, link
    frames included, is from that capture. *)
Definition scope_ok (out : Dnp3Result) (r : ApplicationFragment) (flow : Z) (s : InvalidScope) : Prop :=
  match s with
  | UnknownCapture f => f = flow
  | InvalidCapture c f => f = flow ∧ capture_scope (af_raw r) = Some c ∧
      ∀ i, i ∈ af_frames r → ∃ fr, get (Dnp3App.frames out) i = Some fr ∧ capture_scope (lf_raw fr) = Some c
  end.

(** An observation under the key [c, flow, x, y, s, u] is a verified fragment with
    these identifiers; the addresses of a response are swapped. *)
Definition observed_ok (a : ApplicationAnalysis) (out : Dnp3Result) (ref : FragmentRef)
    (r : ApplicationFragment) (key : ConfirmKey) (confirm : bool) (o : ConfirmationFragment) : Prop :=
  let '(c, (flow, (x, (y, (s, u))))) := key in let w := cf_witness o in
  cf_reference o = ref ∧ cf_direction o = aa_dir a ∧ flow = aa_flow a ∧
  witnessed (Dnp3App.frames out) r w ∧ one_capture c (fw_packets w) ∧
  (if confirm then h_function (fw_header w) = 0 ∧ fw_source w = x ∧ fw_destination w = y
   else h_function (fw_header w) ∈ [0x81; 0x82] ∧ fw_source w = y ∧ fw_destination w = x) ∧
  h_sequence (fw_header w) = s ∧ h_unsolicited (fw_header w) = u.

Definition verdict_ok (apps : list ApplicationAnalysis) (x : FragmentRef * verdict) : Prop :=
  ∃ a out r, get apps (fr_application x.1) = Some a ∧ app_data a = Dnp3 out ∧
    get (Dnp3App.fragments out) (fr_fragment x.1) = Some r ∧
    match x.2 with
    | Unverified s flow e => flow = aa_flow a ∧ scope_ok out r flow s
    | Other => ∃ w, witnessed (Dnp3App.frames out) r w ∧ h_function (fw_header w) ∉ [0; 0x81; 0x82]
    | Observed key confirm o => observed_ok a out x.1 r key confirm o
    end.

(** Response [r] may be what [c] confirms: it asks for a confirmation and was sent
    the other way, in the capture and by its link frames. *)
Definition facing (c r : ConfirmationFragment) : bool :=
  negb (cf_direction c =? cf_direction r) &&
  negb (eqb (link_direction (cf_witness c)) (link_direction (cf_witness r))).
Definition is_target (cs : list ConfirmationFragment) (r : ConfirmationFragment) : bool :=
  h_confirm (fw_header (cf_witness r)) && existsb (λ c, facing c r) cs.

(** The row of a key with confirmations. *)
Record confirm_row (ld : ledger) (key : ConfirmKey) (t : ConfirmationCandidate) : Prop := {
  cr_flow : cc_flow t = key.2.1;
  cr_confirms : confirms t = selected ld key true;
  cr_targets : targets t = List.filter (is_target (confirms t)) (selected ld key false);
  cr_excluded : et_fragment <$> excluded_targets t =
                List.filter (λ r, negb (is_target (confirms t) r)) (selected ld key false);
  cr_blocked : unclassified_fragments t = unverified_in ld (InvalidCapture key.1 key.2.1) ++
                                          unverified_in ld (UnknownCapture key.2.1);
  cr_error : cc_error t = None;
  cr_status : cc_status t = "candidate_confirmation" ↔
    unclassified_fragments t = [] ∧
    ∃ c r, confirms t = [c] ∧ selected ld key false = [r] ∧
           h_confirm (fw_header (cf_witness r)) = true ∧ facing c r = true;
}.

(** ** The loop over the fragments *)

Definition group_default : ConfirmGroup := {| cg_confirms := []; cg_responses := [] |}.

Record confirming_ok (apps : list ApplicationAnalysis) (l : Limits) (ld : ledger) (st : Confirming) : Prop := {
  ok_verdicts : Forall (verdict_ok apps) ld;
  ok_wf : bt_wf (c_groups st);
  ok_groups : ∀ key, default group_default (bt_get (c_groups st) key) =
                {| cg_confirms := selected ld key true; cg_responses := selected ld key false |};
  ok_invalid : ∀ s, bt_get (c_invalid st) s =
                 match unverified_in ld s with [] => None | refs => Some refs end;
  ok_output : c_output st = unverified_rows ld;
  ok_count : 0 ≤ c_fragments st ≤ max_protocol_messages l;
}.

Lemma selected_snoc ld x key b : selected (ld ++ [x]) key b = selected ld key b ++ selected [x] key b.
Proof. apply omap_app. Qed.
Lemma unverified_snoc ld x s : unverified_in (ld ++ [x]) s = unverified_in ld s ++ unverified_in [x] s.
Proof. apply omap_app. Qed.
Lemma rows_snoc ld x : unverified_rows (ld ++ [x]) = unverified_rows ld ++ unverified_rows [x].
Proof. apply omap_app. Qed.

(** Decide the tests of a key against itself or another one. *)
Ltac keys :=
  repeat case_decide;
  try match goal with
  | H : ¬ (?k = ?k ∧ ?b = ?b) |- _ => by destruct H
  | H : _ ∧ _ |- _ => destruct H; congruence
  end.

Section loop.
Context (apps : list ApplicationAnalysis) (l : Limits).

Lemma confirming_unverified ld st r s flow e :
  confirming_ok apps l ld st → verdict_ok apps (r, Unverified s flow e) →
  confirming_ok apps l (ld ++ [(r, Unverified s flow e)]) (unclassified st s flow r e).
Proof.
  intros [H1 H2 H3 H4 H5 H6] Hv. split; cbn [c_groups c_invalid c_output c_fragments unclassified]; try done.
  - apply Forall_app. by repeat constructor.
  - intros key. by rewrite !selected_snoc, !app_nil_r.
  - intros s'. rewrite bt_get_insert, unverified_snoc. unfold unverified_in at 2. simpl.
    rewrite !H4. destruct (decide (s = s')) as [->|].
    + by destruct (unverified_in ld s').
    + by rewrite app_nil_r.
  - by rewrite rows_snoc, H5.
Qed.

Lemma confirming_other ld st r :
  confirming_ok apps l ld st → verdict_ok apps (r, Other) → confirming_ok apps l (ld ++ [(r, Other)]) st.
Proof.
  intros [H1 H2 H3 H4 H5 H6] Hv. split; try done.
  - apply Forall_app. by repeat constructor.
  - intros key. by rewrite !selected_snoc, !app_nil_r.
  - intros s'. by rewrite unverified_snoc, app_nil_r.
  - by rewrite rows_snoc, app_nil_r.
Qed.

Lemma confirming_observed ld st r key b o :
  confirming_ok apps l ld st → verdict_ok apps (r, Observed key b o) →
  confirming_ok apps l (ld ++ [(r, Observed key b o)]) (observe st key b o).
Proof.
  intros [H1 H2 H3 H4 H5 H6] Hv. split; unfold observe; cbn [c_groups c_invalid c_output c_fragments]; try done.
  - apply Forall_app. by repeat constructor.
  - by apply bt_insert_wf.
  - intros key'. rewrite bt_get_insert, !selected_snoc. unfold selected at 2 4. simpl.
    destruct (decide (key = key')) as [<-|Hne].
    + fold group_default. rewrite H3. cbn [default id cg_confirms cg_responses].
      destruct b; keys; by rewrite ?app_nil_r.
    + destruct b; keys; rewrite !app_nil_r; apply H3.
  - intros s'. by rewrite unverified_snoc, app_nil_r.
  - by rewrite rows_snoc, app_nil_r.
Qed.

(** ** One fragment *)

Abbreviation exhausted := (λ e : Error, Errors.code e = LimitExceeded).

Lemma wpc_charge_confirm n (Q : unit → Prop) : Q () → wpce (charge_confirm l n) Q exhausted.
Proof. intros HQ. by apply wpce_charge_as. Qed.

Lemma wpc_invalid_scope out r flow :
  wpce (invalid_scope out r flow l) (scope_ok out r flow) exhausted.
Proof.
  unfold invalid_scope. apply wpc_bind, wpc_charge_confirm.
  destruct (capture_scope (af_raw r)) as [c|] eqn:Hc; [|by apply wpc_ret].
  assert (∀ fs, (∀ i, i ∈ af_frames r → i ∈ fs ∨
      ∃ fr, get (Dnp3App.frames out) i = Some fr ∧ capture_scope (lf_raw fr) = Some c) →
    wpce (scope_of_frames out l flow c fs) (scope_ok out r flow) exhausted) as Hloop; [|by apply Hloop; auto].
  induction fs as [|i fs IH]; intros Hin; cbn [scope_of_frames].
  - apply wpc_ret. split_and!; [done..|]. intros i [?%not_elem_of_nil|]%Hin; done.
  - apply wpc_bind, wpc_charge_confirm. destruct (get (Dnp3App.frames out) i) as [fr|] eqn:Hg; [|by apply wpc_ret].
    apply wpc_bind, wpc_charge_confirm. case_bool_decide as Hs; [|by apply wpc_ret].
    apply IH. intros j [[->|]%elem_of_cons|]%Hin; [right; by exists fr|by left|by right].
Qed.

Context (Hbytes : max_application_bytes l ≤ i64_max) (Hmax : max_protocol_messages l ≤ i64_max).

Lemma wpc_bump_fragments ld st (Q : Confirming → Prop) :
  confirming_ok apps l ld st → (∀ st', confirming_ok apps l ld st' → Q st') →
  wpce (S := Z) (lift (bump_fragments l st)) Q exhausted.
Proof.
  intros [H1 H2 H3 H4 H5 H6] HQ. apply wpc_lift. unfold bump_fragments.
  apply wp_bind, wp_ok_or; [|done]. intros n Hn. apply bind_Some in Hn as (k & Hk & Hn).
  apply checked_add_Some in Hk as [-> _]. destruct (Z.leb_spec (c_fragments st + 1) (max_protocol_messages l)); [|done].
  injection Hn as <-. apply wp_ok, HQ. split; try done. cbn [c_fragments]. lia.
Qed.

Lemma wpc_confirm_fragment ai app out ld st fi r :
  get apps ai = Some app → app_data app = Dnp3 out → result_typed out →
  get (Dnp3App.fragments out) fi = Some r → confirming_ok apps l ld st →
  wpce (confirm_fragment l ai app out st (fi, r))
    (λ st', ∃ v, confirming_ok apps l (ld ++ [({| fr_application := ai; fr_fragment := fi |}, v)]) st') exhausted.
Proof using Hbytes Hmax.
  intros Ha Hd [Hf Hr] Hg Hst. unfold confirm_fragment. apply wpc_bind, wpc_charge_confirm.
  apply wpc_bind. eapply wpc_bump_fragments; [done|]. clear st Hst. intros st Hst. cbv zeta.
  set (ref := {| fr_application := ai; fr_fragment := fi |}).
  assert (ev_typed (af_raw r)) as Hty.
  { rewrite Forall_forall in Hr. apply Hr. apply get_Some in Hg as [_ Hg]. by eapply list_elem_of_lookup_2. }
  apply wpc_bind, (wpce_catch _ _ (witnessed (Dnp3App.frames out) r) (λ _, True)).
  { destruct (_ && _); [by apply verified_fragment_spec|by apply wpc_throw]. }
  2:{ intros e _. case_bool_decide as Hcode; [by apply wpce_throw|].
      apply wpc_bind. eapply wpce_mono; [apply wpc_invalid_scope| |done]. intros s Hs.
      apply wpc_ret. eexists. apply confirming_unverified; [done|]. exists app, out, r. by split_and!. }
  intros w Hw. destruct (one_of [0; 0x81; 0x82] (h_function (fw_header w))) eqn:Hfn; cbn [negb].
  2:{ apply wpc_ret. exists Other. apply confirming_other; [done|]. exists app, out, r. split_and!; try done.
      exists w. split; [done|]. intros Hin. apply not_true_iff_false in Hfn. apply Hfn. unfold one_of.
      apply existsb_exists. exists (h_function (fw_header w)). split; [by apply list_elem_of_In|by apply Z.eqb_eq]. }
  destruct (witnessed_capture _ _ _ Hw) as (c & Hc). pose proof (witnessed_packet _ _ _ Hw) as Hp.
  destruct (if h_function (fw_header w) =? 0 then _ else _) as [x y] eqn:Hxy.
  destruct (fw_packets w) as [|p ps] eqn:Hps; [done|]. pose proof Hc as [Hcp _]%Forall_cons.
  apply wpc_bind, wpc_lift, wp_ok, wpc_ret. rewrite Hcp. eexists. apply confirming_observed; [done|].
  exists app, out, r. cbn [fst snd]. split_and!; try done. cbn. rewrite Hps. split_and!; try done.
  unfold one_of in Hfn. cbn [existsb] in Hfn.
  destruct (Z.eqb_spec (h_function (fw_header w)) 0); [by simplify_eq|].
  split; [|by simplify_eq]. rewrite orb_false_l, orb_false_r in Hfn.
  rewrite orb_true_iff, !Z.eqb_eq in Hfn. set_solver.
Qed.

Lemma wpc_confirm_application ai app ld st :
  get apps ai = Some app → app_typed app → confirming_ok apps l ld st →
  wpce (confirm_application l st (ai, app))
    (λ st', ∃ vs, fst <$> vs = fragment_refs (ai, app) ∧ confirming_ok apps l (ld ++ vs) st') exhausted.
Proof using Hbytes Hmax.
  intros Ha Hty Hst. unfold confirm_application, fragment_refs, app_typed in *. cbn [fst snd].
  apply wpc_bind, wpc_charge_confirm.
  destruct (app_data app) as [out|o|e] eqn:Hd; try (apply wpc_ret; exists []; by rewrite app_nil_r).
  apply (wpc_fold (λ pre st, ∃ vs, fst <$> vs = (λ im, {| fr_application := ai; fr_fragment := im.1 |}) <$> pre ∧
    confirming_ok apps l (ld ++ vs) st)) with (done := []).
  - intros pre [fi r] post s Hz (vs & Hvs & Hs). eapply wpce_mono;
      [by apply (wpc_confirm_fragment ai app out (ld ++ vs)); [..|by eapply enumerate_member|]| |done].
    intros s' (v & Hv). exists (vs ++ [({| fr_application := ai; fr_fragment := fi |}, v)]).
    rewrite !fmap_app, Hvs, app_assoc. done.
  - exists []. by rewrite app_nil_r.
  - intros s. by rewrite app_nil_l.
Qed.

(** ** The rows *)

Lemma wpc_opposition cs r :
  wpce (foldC (opposition l r) (false, false, false) cs)
    (λ o, exclusion r o = None ↔ is_target cs r = true) exhausted.
Proof.
  apply (wpc_fold (λ pre o, o =
    (existsb (λ c, negb (cf_direction c =? cf_direction r)) pre,
     existsb (λ c, negb (eqb (link_direction (cf_witness c)) (link_direction (cf_witness r)))) pre,
     existsb (λ c, facing c r) pre))) with (done := []).
  - intros pre c post o _ ->. unfold opposition. apply wpc_bind, wpc_charge_confirm.
    apply wpc_ret. rewrite !existsb_app. cbn [existsb]. by rewrite !orb_false_r.
  - done.
  - intros o ->. rewrite app_nil_l. unfold exclusion, is_target.
    destruct (h_confirm _); cbn [negb andb]; [|done].
    destruct (existsb (λ c, facing c r) cs) eqn:Hf.
    + apply existsb_exists in Hf as (c & Hin & [H1 H2]%andb_true_iff).
      rewrite (proj2 (existsb_exists _ cs)) by (by exists c). cbn [negb].
      by rewrite (proj2 (existsb_exists _ cs)) by (by exists c).
    + split; [|done]. by repeat match goal with |- context [existsb ?f cs] => destruct (existsb f cs) end.
Qed.

Lemma wpc_place_responses cs rs :
  wpce (foldC (place_response l cs) ([], []) rs)
    (λ tx, tx.1 = List.filter (is_target cs) rs ∧
           et_fragment <$> tx.2 = List.filter (λ r, negb (is_target cs r)) rs) exhausted.
Proof.
  apply (wpc_fold (λ pre tx, tx.1 = List.filter (is_target cs) pre ∧
    et_fragment <$> tx.2 = List.filter (λ r, negb (is_target cs r)) pre)) with (done := []).
  - intros pre r post [ts xs] _ [H1 H2]. cbn [fst snd] in *. unfold place_response.
    apply wpc_bind, wpc_charge_confirm, wpc_bind. eapply wpce_mono; [apply wpc_opposition| |done].
    intros o Ho. rewrite !List.filter_app. cbn [List.filter].
    destruct (exclusion r o) as [why|] eqn:Hx; apply wpc_ret; cbn [fst snd].
    + assert (is_target cs r = false) as -> by (apply not_true_iff_false; rewrite <- Ho; congruence). cbn [negb].
      by rewrite fmap_app, H1, H2, app_nil_r.
    + rewrite (proj1 Ho Hx). cbn [negb]. by rewrite H1, H2, app_nil_r.
  - done.
  - done.
Qed.

Lemma wpc_blocked ld st s (Q : list FragmentRef → Prop) acc :
  confirming_ok apps l ld st → Q (acc ++ unverified_in ld s) →
  wpce (blocked_by l (c_invalid st) acc s) Q exhausted.
Proof.
  intros Hst HQ. unfold blocked_by. rewrite (ok_invalid _ _ _ _ Hst).
  destruct (unverified_in ld s) as [|x xs] eqn:E; rewrite <- ?E in *.
  - apply wpc_ret. by rewrite E, app_nil_r in HQ.
  - apply wpc_bind, wpc_charge_confirm. by apply wpc_ret.
Qed.

Lemma zlen_zero {A} (xs : list A) : zlen xs = 0 ↔ xs = [].
Proof. destruct xs as [|x xs]; [done|]. rewrite zlen_cons. pose proof (zlen_nonneg xs). split; [lia|done]. Qed.

Lemma candidate_status unknown blocked cs rs ts xs :
  cs ≠ [] → (unknown = true → blocked ≠ []) →
  ts = List.filter (is_target cs) rs →
  et_fragment <$> xs = List.filter (λ r, negb (is_target cs r)) rs →
  (confirm_status unknown blocked cs ts xs).1 = "candidate_confirmation" ↔
  blocked = [] ∧ ∃ c r, cs = [c] ∧ rs = [r] ∧
    h_confirm (fw_header (cf_witness r)) = true ∧ facing c r = true.
Proof.
  intros Hcs Hu Hts Hxs. unfold confirm_status.
  destruct unknown; [split; [done|]; intros [-> _]; by destruct Hu|].
  destruct (Z.eqb_spec (zlen blocked) 0) as [Hb|Hb]; rewrite zlen_zero in Hb; cbn [negb];
    [|split; [done|]; by intros [? _]].
  destruct (Z.ltb_spec 1 (zlen cs)) as [H1|H1].
  { split; [done|]. intros (_ & c & r & -> & _). by change (zlen [c]) with 1 in H1. }
  destruct cs as [|c [|c' cs]]; [done| |rewrite !zlen_cons in H1; pose proof (zlen_nonneg cs); lia].
  assert (∀ r, is_target [c] r = true ↔ h_confirm (fw_header (cf_witness r)) = true ∧ facing c r = true) as Ht.
  { intros r. unfold is_target. cbn [existsb]. by rewrite orb_false_r, andb_true_iff. }
  destruct (Z.eqb_spec (zlen ts) 0) as [H0|H0]; rewrite zlen_zero in H0.
  { split; [done|]. intros (_ & c' & r & [= <-] & -> & Hr%Ht). subst ts. cbn in H0. by rewrite Hr in H0. }
  destruct ((1 <? zlen ts) || negb (zlen xs =? 0)) eqn:Hm.
  - split; [done|]. intros (_ & c' & r & [= <-] & -> & Hr%Ht). subst ts. cbn in Hm, Hxs.
    rewrite Hr in Hm, Hxs. apply fmap_nil_inv in Hxs as ->. done.
  - split; [|done]. intros _. split; [done|]. apply orb_false_iff in Hm as [Hm Hx%negb_false_iff].
    apply Z.eqb_eq, zlen_zero in Hx as ->. symmetry in Hxs. exists c.
    assert (ts = rs) as Hall.
    { rewrite Hts. clear -Hxs. induction rs as [|r rs IH]; [done|]. cbn in *.
      destruct (is_target [c] r); [|done]. cbn in Hxs. by rewrite IH. }
    destruct rs as [|r [|r' rs]]; [by subst|..].
    + assert (is_target [c] r = true) as Hr by (cbn in Hxs; by destruct (is_target [c] r)).
      apply Ht in Hr as [? ?]. by exists r.
    + rewrite Hall, !zlen_cons in Hm. pose proof (zlen_nonneg rs). lia.
Qed.

Lemma wpc_close_confirms ld st rows key g :
  confirming_ok apps l ld st → (key, g) ∈ c_groups st →
  wpce (close_confirms l (c_invalid st) rows (key, g))
    (λ rows', if zlen (cg_confirms g) =? 0 then rows' = rows
              else ∃ t, rows' = rows ++ [t] ∧ confirm_row ld key t) exhausted.
Proof.
  intros Hst Hin. pose proof (ok_groups _ _ _ _ Hst key) as Hg.
  rewrite (bt_elem_get _ _ _ (ok_wf _ _ _ _ Hst) Hin) in Hg. cbn [default id] in Hg.
  destruct key as (c & flow & rest). set (key := (c, (flow, rest)) : ConfirmKey) in *. unfold close_confirms.
  destruct (zlen (cg_confirms g) =? 0) eqn:Hz; [by apply wpc_ret|]. apply Z.eqb_neq in Hz. rewrite zlen_zero in Hz.
  apply wpc_bind, wpc_charge_confirm, wpc_bind. eapply wpce_mono; [apply wpc_place_responses| |done].
  intros [ts xs] [H1 H2]. cbn [fst snd] in *. apply wpc_bind. cbn [foldC]. 
  apply wpc_bind. eapply wpc_blocked; [done|]. apply wpc_bind. eapply wpc_blocked; [done|]. apply wpc_ret.
  rewrite app_nil_l. set (blocked := unverified_in ld (InvalidCapture c flow) ++ unverified_in ld (UnknownCapture flow)).
  set (unknown := if bt_get (c_invalid st) (UnknownCapture flow) then true else false).
  assert (unknown = true → blocked ≠ []) as Hu.
  { unfold unknown, blocked. rewrite (ok_invalid _ _ _ _ Hst). intros Hk [_ Hnil]%app_eq_nil. by rewrite Hnil in Hk. }
  pose proof (candidate_status unknown blocked (cg_confirms g) (cg_responses g) ts xs Hz Hu H1 H2) as Hstatus.
  destruct (confirm_status _ _ _ _ _) as [s why]. cbn [fst] in Hstatus. apply wpc_ret. eexists. split; [done|].
  rewrite Hg in *. split; cbn [cc_flow confirms targets excluded_targets unclassified_fragments cc_status cc_error];
    try done.
Qed.

Lemma sorted_filter {V} (p : ConfirmKey * V → bool) m :
  StronglySorted lt_ord (m.*1) → StronglySorted lt_ord ((List.filter p m).*1).
Proof.
  induction m as [|kv m IH]; [done|]. cbn. intros [Hs Hall]%StronglySorted_inv.
  destruct (p kv); [|by apply IH]. cbn. constructor; [by apply IH|].
  apply Forall_forall. intros k (x & -> & Hx)%list_elem_of_fmap.
  apply list_elem_of_In, List.filter_In in Hx as [Hx%list_elem_of_In _].
  rewrite Forall_forall in Hall. by apply Hall, list_elem_of_fmap_2.
Qed.
End loop.

(** ** The property *)

Lemma confirmations_spec (apps : list ApplicationAnalysis) (l : Limits) :
  0 ≤ max_protocol_messages l ≤ i64_max → max_application_bytes l ≤ i64_max →
  Forall app_typed apps →
  wp (dnp3_confirmation_candidates apps l)
     (λ rows, ∃ ld keys gs, fst <$> ld = all_fragments apps ∧ Forall (verdict_ok apps) ld ∧
        rows = unverified_rows ld ++ gs ∧ StronglySorted lt_ord keys ∧
        (∀ key, key ∈ keys ↔ selected ld key true ≠ []) ∧ Forall2 (confirm_row ld) keys gs)
     (λ e, Errors.code e = LimitExceeded).
Proof.
  intros Hl Hb Hty. unfold dnp3_confirmation_candidates, confirmation_candidates.
  match goal with |- wp (?m 0).2 ?Q ?R => assert (wpce m Q R) as H; [|apply H] end.
  apply wpc_bind. apply (wpc_fold (λ pre st, ∃ ld, fst <$> ld = concat (fragment_refs <$> pre) ∧
    confirming_ok apps l ld st)) with (done := []).
  - intros pre [ai app] post st Hz (ld & Hld & Hst). pose proof (enumerate_member _ _ _ _ _ Hz) as Hg.
    assert (app_typed app) as Hta.
    { apply get_Some in Hg as [_ Hg]. apply list_elem_of_lookup_2 in Hg. by eapply Forall_forall in Hty. }
    eapply wpce_mono; [apply (wpc_confirm_application apps l Hb ltac:(lia) ai app ld); done| |done].
    intros st' (vs & Hvs & Hst'). exists (ld ++ vs). split; [|done].
    rewrite !fmap_app, concat_app, Hld, Hvs. simpl. by rewrite app_nil_r.
  - exists []. split; [done|]. split; cbn; try constructor; done || lia.
  - intros st (ld & Hld & Hst). rewrite app_nil_l in Hld.
    set (some := λ kg : ConfirmKey * ConfirmGroup, negb (zlen (cg_confirms kg.2) =? 0)).
    apply (wpc_fold (λ pre rows, ∃ gs, rows = unverified_rows ld ++ gs ∧
      Forall2 (confirm_row ld) ((List.filter some pre).*1) gs)) with (done := []).
    + intros pre [key g] post rows Hz (gs & -> & Hgs). rewrite app_nil_l in Hz.
      eapply wpce_mono; [apply (wpc_close_confirms apps l ld st _ key g Hst); rewrite Hz; set_solver| |done].
      intros rows' Hrows. rewrite List.filter_app. cbn [List.filter]. unfold some at 2. cbn [snd].
      destruct (zlen (cg_confirms g) =? 0); cbn [negb]; [exists gs; by rewrite Hrows, app_nil_r|].
      destruct Hrows as (t & -> & Ht). exists (gs ++ [t]). split; [by rewrite app_assoc|].
      rewrite fmap_app. apply Forall2_app; [done|]. by constructor.
    + exists []. rewrite (ok_output _ _ _ _ Hst), app_nil_r. done.
    + intros rows (gs & -> & Hgs). rewrite app_nil_l in Hgs.
      exists ld, ((List.filter some (c_groups st)).*1), gs. split_and!; try done; [apply Hst|..].
      * apply sorted_filter. apply (ok_wf _ _ _ _ Hst).
      * intros key. pose proof (ok_groups _ _ _ _ Hst key) as Hg. rewrite list_elem_of_fmap. split.
        -- intros ([k g] & -> & Hin%list_elem_of_In%List.filter_In). destruct Hin as [Hin Hsome].
           apply list_elem_of_In in Hin. cbn [fst] in *. unfold some in Hsome. cbn [snd] in Hsome.
           rewrite (bt_elem_get _ _ _ (ok_wf _ _ _ _ Hst) Hin) in Hg. cbn [default id] in Hg. rewrite Hg in Hsome.
           intros Hnil. cbn [cg_confirms] in Hsome. by rewrite Hnil in Hsome.
        -- intros Hne. destruct (bt_get (c_groups st) key) as [g|] eqn:E;
             [|by injection Hg as Hnil _; destruct Hne]. cbn [default id] in Hg. exists (key, g). split; [done|].
           apply list_elem_of_In, List.filter_In. split; [by apply list_elem_of_In, bt_get_elem|].
           unfold some. cbn [snd]. rewrite Hg. cbn [cg_confirms]. apply negb_true_iff, Z.eqb_neq.
           by rewrite zlen_zero.
Qed.

(** C15: a confirmation candidate rules out every other explanation it could see.
    On any typed applications [dnp3_confirmation_candidates] returns or exhausts a
    budget.  Every DNP3 fragment is classified, once and in order, as unverified, as
    verified with an unrelated function, or as observed under the identifiers its
    link frames encode.  The rows are the unverified fragments, then one row for each
    set of identifiers with a confirmation, in key order: all confirmations, the
    responses split into targets and excluded ones, and all unverified fragments of
    the flow that are not proven to be from another capture.  A row is a candidate
    exactly when there is no such fragment, one confirmation and one response, and
    the response asks for a confirmation and was sent the other way. *)
Theorem confirmations_sound (apps : list ApplicationAnalysis) (l : Limits) :
  0 ≤ max_protocol_messages l ≤ i64_max → max_application_bytes l ≤ i64_max →
  Forall app_typed apps →
  wp (dnp3_confirmation_candidates apps l)
     (λ rows, ∃ ld keys gs, fst <$> ld = all_fragments apps ∧ Forall (verdict_ok apps) ld ∧
        rows = unverified_rows ld ++ gs ∧ StronglySorted lt_ord keys ∧
        (∀ key, key ∈ keys ↔ selected ld key true ≠ []) ∧ Forall2 (confirm_row ld) keys gs)
     (λ e, Errors.code e = LimitExceeded).
Proof. apply confirmations_spec. Qed.

(** ** Witness *)

(** A response that asks for a confirmation, and the confirmation. *)
Definition sample_stream_of (bytes : list Z) : StreamResult :=
  {| Stream.base_sequence := None; Stream.r_anchored := false;
     Stream.chunks := [{| Stream.c_offset := 0; Stream.c_bytes := from_packet bytes (sample_packet 7) 42 |}];
     Stream.gaps := []; Stream.conflicts := []; Stream.duplicate_observed_bytes := 0 |}.
Definition sample_dnp3 (bytes : list Z) : Dnp3Result :=
  match decode (sample_stream_of bytes) limits_default with Ok o => o | _ => result_default end.
Definition sample_exchange : list ApplicationAnalysis :=
  [{| aa_flow := 0; aa_dir := 0; protocol := "dnp3";
      app_data := Dnp3 (sample_dnp3 (encode_link 0x44 1 1024 [0xc0; 0xe3; 0x81; 0; 0])) |};
   {| aa_flow := 0; aa_dir := 1; protocol := "dnp3";
      app_data := Dnp3 (sample_dnp3 (encode_link 0xc4 1024 1 [0xc0; 0xc3; 0x00])) |}].

Example sample_confirmations :
  (rows ← dnp3_confirmation_candidates sample_exchange limits_default;
   Ok (map (λ t, (cc_status t, length (confirms t), length (targets t), length (excluded_targets t))) rows)) =
  Ok [("candidate_confirmation", 1%nat, 1%nat, 0%nat)].
Proof. by vm_compute. Qed.

Lemma confirmations_sound_witness :
  wp (dnp3_confirmation_candidates sample_exchange limits_default)
     (λ rows, ∃ ld keys gs, fst <$> ld = all_fragments sample_exchange ∧
        Forall (verdict_ok sample_exchange) ld ∧
        rows = unverified_rows ld ++ gs ∧ StronglySorted lt_ord keys ∧
        (∀ key, key ∈ keys ↔ selected ld key true ≠ []) ∧ Forall2 (confirm_row ld) keys gs)
     (λ e, Errors.code e = LimitExceeded).
Proof.
  apply (confirmations_sound sample_exchange limits_default); [by vm_compute|by vm_compute|].
  apply app_typedb_ok. by vm_compute.
Defined.
