(* ===== verification/Engine.v ===== *)
(** * The analysis ([src/src/engine.rs])

    [analyze] runs one pass over a capture: every packet becomes an observation,
    is decoded, reassembled and handed to the flow tracker or to the datagram
    analysis, and its disposition is recorded; at the end the flows are rebuilt,
    decoded by protocol and correlated.  The loop over the records is
    [on_record] on the record [Pass] of the source's local variables. *)

From S2P Require Import Prelude Errors Stateful Ord Provenance Time Capture Wire Fragment Stream Tracker.
From S2P Require Import Dnp3Link Dnp3App Modbus Protocol Sha256 Workflow Correlate.

(** [Display for Error]. *)
Definition to_string (e : Error) : string :=
  as_str (Errors.code e) +:+ " at byte " +:+ pretty (offset e) +:+ " (" +:+ field e +:+ "): " +:+
  detail e.

Inductive Disposition : Type :=
| DPending
| DTcp (flow direction : Z)
| DUdp
| DFragmentPending
| DFragmentIncomplete (why : string)
| DRejected (code detail : string)
| DAmbiguous (flows : list Z).

(** [Disposition::as_str]. *)
Definition disposition_str (d : Disposition) : string :=
  match d with
  | DPending => "pending"
  | DTcp _ _ => "tcp_assigned"
  | DUdp => "udp_observed"
  | DFragmentPending => "fragment_pending"
  | DFragmentIncomplete _ => "fragment_incomplete"
  | DRejected _ _ => "rejected_or_unsupported"
  | DAmbiguous _ => "ambiguous_generation"
  end.

Record PacketObservation : Type := {
  po_id : PacketId;
  metadata : PacketMeta;
  packet_sha256 : list Z;
  po_source : option Endpoint;
  po_destination : option Endpoint;
  po_transport : option string;
  disposition : Disposition;
  po_warnings : list string;
}.

Record Analysis : Type := {
  capture_sha256 : list Z;
  labels_sha256 : option (list Z);
  capture_bytes : Z;
  config : Config;
  a_records : Z;
  metadata_records : Z;
  secret_blocks : Z;
  a_packets : list PacketObservation;
  a_flows : list FlowResult;
  applications : list ApplicationAnalysis;
  datagrams : list DatagramAnalysis;
  fragment_notices : list FragmentNotice;
  a_transactions : list Transaction;
  confirmation_candidates : list ConfirmationCandidate;
  confirmation_error : option Error;
  correlation_error : option Error;
}.

(** ** Observations *)

Definition with_disposition (d : Disposition) (p : PacketObservation) : PacketObservation :=
  {| po_id := po_id p; metadata := metadata p; packet_sha256 := packet_sha256 p;
     po_source := po_source p; po_destination := po_destination p;
     po_transport := po_transport p; disposition := d; po_warnings := po_warnings p |}.
Definition with_warning (w : string) (p : PacketObservation) : PacketObservation :=
  {| po_id := po_id p; metadata := metadata p; packet_sha256 := packet_sha256 p;
     po_source := po_source p; po_destination := po_destination p;
     po_transport := po_transport p; disposition := disposition p;
     po_warnings := po_warnings p ++ [w] |}.
Definition with_transport (s d : Endpoint) (t : string) (p : PacketObservation) : PacketObservation :=
  {| po_id := po_id p; metadata := metadata p; packet_sha256 := packet_sha256 p;
     po_source := Some s; po_destination := Some d; po_transport := Some t;
     disposition := disposition p; po_warnings := po_warnings p |}.

Definition rejected (e : Error) : Disposition := DRejected (as_str (Errors.code e)) (to_string e).

(** [each_packet]: the observation an identity names is updated in place. *)
Definition each_step (action : PacketObservation → PacketObservation)
    (ps : list PacketObservation) (id : PacketId) : result (list PacketObservation) :=
  i ← ok_or (checked_sub (Provenance.frame id) 1)
        (error_new Invariant 0 "packet_identity" "invalid frame ID");
  p ← ok_or (p ← get ps i; if bool_decide (po_id p = id) then Some p else None)
        (error_new Invariant 0 "packet_identity" "provenance points outside this capture");
  Ok (<[Z.to_nat i := action p]> ps).

Definition each_packet (ps : list PacketObservation) (ids : list PacketId)
    (action : PacketObservation → PacketObservation) : result (list PacketObservation) :=
  foldM (each_step action) ps ids.

(** [fragment_notice]. *)
Definition fragment_notice (ps : list PacketObservation) (n : FragmentNotice)
    : result (list PacketObservation) :=
  each_packet ps (n_packets n) (with_disposition (DFragmentIncomplete (n_code n))).

(** ** The local variables of [analyze] *)

Record Pass : Type := {
  p_fragments : FragmentReassembler;
  p_tracker : TcpTracker;
  p_packets : list PacketObservation;
  p_notices : list FragmentNotice;
  p_datagrams : list DatagramAnalysis;
  udp_retained : Z;
  p_records : Z;
  p_metadata : Z;
  p_secrets : Z;
}.

Definition with_fragments (st : Pass) (r : FragmentReassembler) : Pass :=
  {| p_fragments := r; p_tracker := p_tracker st; p_packets := p_packets st;
     p_notices := p_notices st; p_datagrams := p_datagrams st; udp_retained := udp_retained st;
     p_records := p_records st; p_metadata := p_metadata st; p_secrets := p_secrets st |}.
Definition with_tracker (st : Pass) (t : TcpTracker) : Pass :=
  {| p_fragments := p_fragments st; p_tracker := t; p_packets := p_packets st;
     p_notices := p_notices st; p_datagrams := p_datagrams st; udp_retained := udp_retained st;
     p_records := p_records st; p_metadata := p_metadata st; p_secrets := p_secrets st |}.
Definition with_packets (st : Pass) (ps : list PacketObservation) : Pass :=
  {| p_fragments := p_fragments st; p_tracker := p_tracker st; p_packets := ps;
     p_notices := p_notices st; p_datagrams := p_datagrams st; udp_retained := udp_retained st;
     p_records := p_records st; p_metadata := p_metadata st; p_secrets := p_secrets st |}.
Definition with_notice (st : Pass) (n : FragmentNotice) : Pass :=
  {| p_fragments := p_fragments st; p_tracker := p_tracker st; p_packets := p_packets st;
     p_notices := p_notices st ++ [n]; p_datagrams := p_datagrams st;
     udp_retained := udp_retained st;
     p_records := p_records st; p_metadata := p_metadata st; p_secrets := p_secrets st |}.
Definition with_datagram (st : Pass) (d : DatagramAnalysis) (n : Z) : Pass :=
  {| p_fragments := p_fragments st; p_tracker := p_tracker st; p_packets := p_packets st;
     p_notices := p_notices st; p_datagrams := p_datagrams st ++ [d]; udp_retained := n;
     p_records := p_records st; p_metadata := p_metadata st; p_secrets := p_secrets st |}.
Definition with_counts (st : Pass) (r m s : Z) : Pass :=
  {| p_fragments := p_fragments st; p_tracker := p_tracker st; p_packets := p_packets st;
     p_notices := p_notices st; p_datagrams := p_datagrams st; udp_retained := udp_retained st;
     p_records := r; p_metadata := m; p_secrets := s |}.

(** [fragment_notice(..)?; notices.push(notice)]. *)
Definition on_notice (st : Pass) (n : FragmentNotice) : result Pass :=
  ps ← fragment_notice (p_packets st) n;
  Ok (with_notice (with_packets st ps) n).

(** [packets[at]], updated. *)
Definition update_at (st : Pass) (at_ : Z) (action : PacketObservation → PacketObservation)
    : result Pass :=
  p ← index (p_packets st) at_;
  Ok (with_packets st (<[Z.to_nat at_ := action p]> (p_packets st))).

(** [each_packet(..)?] on the observations of the pass. *)
Definition update_each (st : Pass) (ids : list PacketId)
    (action : PacketObservation → PacketObservation) : result Pass :=
  ps ← each_packet (p_packets st) ids action;
  Ok (with_packets st ps).

(** ** One packet *)

(** A record that is not a packet. *)
Definition on_metadata (st : Pass) (k : RecordKind) : result Pass :=
  m ← add_ovf usize_max (p_metadata st) 1;
  s ← match k with KSecrets _ _ => add_ovf usize_max (p_secrets st) 1 | _ => Ok (p_secrets st) end;
  Ok (with_counts st (p_records st) m s).

(** The warnings of a record, and the exact time of its packet. *)
Definition packet_warnings (record : CapRecord) (m : PacketMeta) : result (list string * option Z) :=
  time ← (match timestamp m with
          | Some t => r ← catch (unix_nanos t); Ok (match r with inl n => Some n | inr _ => None end)
          | None => Ok None
          end : result (option Z));
  Ok (map w_code (warnings record)
      ++ (if captured_len m <? original_len m then ["snaplen_truncated_packet"] else [])
      ++ (if timestamp m then [] else ["capture_timestamp_absent"])
      ++ (if timestamp m then if (time : option Z) then [] else ["timestamp_not_exact_in_nanoseconds"] else []),
      time).

(** The observation a packet starts with. *)
Definition observation (id : PacketId) (m : PacketMeta) (sha : list Z) (ws : list string)
    : PacketObservation :=
  {| po_id := id; metadata := m; packet_sha256 := sha; po_source := None; po_destination := None;
     po_transport := None; disposition := DPending; po_warnings := ws |}.

(** The action on the packets of a TCP segment. *)
Definition tcp_action (s : TcpSegment) (a : Assignment) (p : PacketObservation) : PacketObservation :=
  let p := with_transport (tcp_source s) (tcp_destination s) "tcp" p in
  let p := match tcp_checksum s with
           | Wire.Invalid => with_warning "invalid_tcp_checksum_observed" p
           | NotChecked => with_warning "unsupported_tcp_checksum_operands" p
           | _ => p
           end in
  with_disposition
    (match a with
     | Assigned flow dir => DTcp flow dir
     | Ambiguous ids => DAmbiguous ids
     | Unassigned why => DRejected why "cannot safely assign a connection generation"
     end) p.

(** The action on the packets of a UDP datagram. *)
Definition udp_action (u : UdpDatagram) (p : PacketObservation) : PacketObservation :=
  let p := with_disposition DUdp
             (with_transport (udp_source u) (udp_destination u) "udp" p) in
  match udp_checksum u with
  | Wire.Invalid => with_warning "invalid_udp_checksum_observed" p
  | NotChecked => with_warning "unsupported_udp_checksum_operands" p
  | _ => p
  end.

(** The datagram analysis of a UDP payload. *)
Definition on_udp (c : Config) (sc : Scope) (ids : list PacketId) (st : Pass) (u : UdpDatagram)
    : result Pass :=
  let l := Protocol.limits c in
  if negb (is_empty (udp_payload u)) &&
     (contains (dnp3_ports c) (port (udp_source u)) ||
      contains (dnp3_ports c) (port (udp_destination u))) then
    if max_protocol_messages l <=? zlen (p_datagrams st) then Err (limit "udp_applications") else
    kept ← ok_or (checked_add usize_max (udp_retained st) (len (udp_payload u)))
             (limit "udp_retained_payload");
    if max_retained_payload l <? kept then Err (limit "udp_retained_payload") else
    a ← analyze_udp sc u ids (dnp3_ports c) l;
    match a with
    | Some d => Ok (with_datagram st d kept)
    | None => Ok st
    end
  else Ok st.

(** A complete datagram and the packets it was assembled from. *)
Definition on_datagram (c : Config) (time : option Z) (st : Pass) (dg : Datagram)
    (ids : list PacketId) : result Pass :=
  t ← catch (decode_transport dg (checksum_policy c));
  match t with
  | inr e => update_each st ids (with_disposition (rejected e))
  | inl (Tcp s) =>
      r ← ingest_with_packets (p_tracker st) (scope dg) ids time s;
      let '(tr, a) := r in
      update_each (with_tracker st tr) ids (tcp_action s a)
  | inl (Udp u) =>
      st ← update_each st ids (udp_action u);
      on_udp c (scope dg) ids st u
  end.

(** A decoded network datagram. *)
Definition on_network (c : Config) (time : option Z) (at_ : Z) (id : PacketId) (frame_ : Z)
    (st : Pass) (network : Datagram) : result Pass :=
  let bad := bool_decide (ip_checksum network = Wire.Invalid) in
  st ← (if bad then update_at st at_ (with_warning "invalid_ipv4_checksum_observed") else Ok st);
  if bool_decide (checksum_policy c = RequireValid) && bad then
    update_at st at_ (with_disposition
      (DRejected "checksum" "IPv4 checksum rejected by configured policy"))
  else
    r ← Fragment.push (p_fragments st) network frame_;
    let '(fr, outcome) := r in
    let st := with_fragments st fr in
    match outcome with
    | Pending => update_at st at_ (with_disposition DFragmentPending)
    | Rejected n => on_notice st n
    | Complete dg ids => on_datagram c time st dg (if zlen ids =? 0 then [id] else ids)
    end.

(** A packet record. *)
Definition on_packet (c : Config) (identity : list Z) (record : CapRecord) (st : Pass)
    (m : PacketMeta) (d : list Z) : result Pass :=
  e ← expire (p_fragments st) (frame m);
  let '(fr, ns) := e in
  st ← foldM on_notice (with_fragments st fr) ns;
  let id := {| capture := identity; Provenance.frame := frame m;
               Provenance.record_offset := r_offset record |} in
  next ← add_ovf u64_max (zlen (p_packets st)) 1;
  if negb (frame m =? next)
  then Err (error_new Invariant (r_offset record) "frame" "noncontiguous packet numbering") else
  wt ← packet_warnings record m;
  let '(ws, time) := wt in
  sha ← digest d;
  let st := with_packets st (p_packets st ++ [observation id m sha ws]) in
  at_ ← sub_ovf (zlen (p_packets st)) 1;
  let sc := {| Wire.section := Capture.section m; Wire.interface := Capture.interface m;
               link_interface := None; vlans := [] |} in
  n ← catch (decode_packet (link_type m) d id sc);
  match n with
  | inr e => update_at st at_ (with_disposition (rejected e))
  | inl network => on_network c time at_ id (frame m) st network
  end.

(** One record of the capture. *)
Definition on_record (c : Config) (identity : list Z) (st : Pass) (record : CapRecord) : result Pass :=
  n ← add_ovf usize_max (p_records st) 1;
  let st := with_counts st n (p_metadata st) (p_secrets st) in
  p ← record_packet record;
  match p with
  | None => on_metadata st (kind record)
  | Some (m, d) => on_packet c identity record st m d
  end.

(** [for record in CaptureIter::new(..)?]: the first error is returned. *)
Definition pass_step (c : Config) (identity : list Z) (x : CaptureIter * Pass)
    : result (step (CaptureIter * Pass) Pass) :=
  let '(it, st) := x in
  n ← Capture.next it;
  match n with
  | (_, None) => Ok (Break st)
  | (_, Some (inr e)) => Err e
  | (it, Some (inl record)) => st ← on_record c identity st record; Ok (Continue (it, st))
  end.

(** ** The flows *)

(** The role of one direction of a Modbus flow. *)
Definition modbus_role (c : Config) (f : FlowResult) (direction : Z) : Role :=
  let a := contains (modbus_ports c) (port (fk_a (fr_key f))) in
  let b := contains (modbus_ports c) (port (fk_b (fr_key f))) in
  if eqb a b then RUnknown
  else if ((direction =? 0) && a) || ((direction =? 1) && b) then Response
  else Request.

(** The application of one direction, when a protocol is selected. *)
Definition dissect (c : Config) (f : FlowResult) (sel_ : Selection) (direction : Z)
    (stream : StreamResult) : result (option (string * ApplicationData)) :=
  if sel_dnp3 sel_ && sel_modbus sel_ then
    Ok (Some ("ambiguous", Failed (error_new ProtocolFraming 0 "protocol_selection"
        "multiple content/configuration interpretations remain unresolved")))
  else if sel_dnp3 sel_ then
    r ← catch (Dnp3App.decode stream (Protocol.limits c));
    Ok (Some ("dnp3", match r with inl d => Dnp3 d | inr e => Failed e end))
  else if sel_modbus sel_ then
    r ← catch (Modbus.decode stream (modbus_role c f direction) (Protocol.limits c));
    Ok (Some ("modbus", match r with inl d => Modbus_ d | inr e => Failed e end))
  else Ok None.

Definition on_direction (c : Config) (f : FlowResult) (sel_ : Selection)
    (apps : list ApplicationAnalysis) (direction : Z) : result (list ApplicationAnalysis) :=
  match sel (streams f) direction with
  | Some stream =>
      if zlen (chunks stream) =? 0 then Ok apps else
      d ← dissect c f sel_ direction stream;
      match d with
      | Some (proto, dat) =>
          Ok (apps ++ [{| aa_flow := fr_id f; aa_dir := direction; protocol := proto;
                          app_data := dat |}])
      | None => Ok apps
      end
  | None => Ok apps
  end.

Definition on_flow (c : Config) (apps : list ApplicationAnalysis) (f : FlowResult)
    : result (list ApplicationAnalysis) :=
  detected ← classify_flow f c;
  foldM (on_direction c f detected) apps [0; 1].

(** ** [analyze] *)

Definition nonterminal (d : Disposition) : bool :=
  match d with DPending | DFragmentPending => true | _ => false end.

(** The end of the pass: what is left in the reassembler is reported, and no
    packet may be left without an outcome. *)
Definition finish_pass (st : Pass) : result Pass :=
  st ← foldM on_notice st (Fragment.finish (p_fragments st));
  if existsb (λ p, nonterminal (disposition p)) (p_packets st)
  then Err (error_new Invariant 0 "packet_conservation"
              "nonterminal packet disposition remains at EOF")
  else Ok st.

(** What is made of the flows once the pass is over. *)
Definition conclude (c : Config) (input identity : list Z) (st : Pass) : result Analysis :=
  let l := Protocol.limits c in
  fs ← tracker_finish (p_tracker st) (overlap_policy c);
  apps ← foldM (on_flow c) [] fs;
  t ← catch (transactions apps l);
  k ← catch (dnp3_confirmation_candidates apps l);
  Ok {| capture_sha256 := identity; labels_sha256 := None; capture_bytes := zlen input;
        config := c; a_records := p_records st; metadata_records := p_metadata st;
        secret_blocks := p_secrets st; a_packets := p_packets st; a_flows := fs;
        applications := apps; datagrams := p_datagrams st; fragment_notices := p_notices st;
        a_transactions := match t with inl t => t | inr _ => [] end;
        confirmation_candidates := match k with inl k => k | inr _ => [] end;
        confirmation_error := match k with inl _ => None | inr e => Some e end;
        correlation_error := match t with inl _ => None | inr e => Some e end |}.

Definition analyze (input : list Z) (c : Config) : result Analysis :=
  config_validate c ;;
  if max_input_bytes (Protocol.limits c) <? zlen input then Err (limit "input_bytes") else
  identity ← digest input;
  t ← tracker_new (Protocol.limits c) (idle_timeout_ns c);
  it ← capture_iter_new input (Protocol.limits c) (parse_mode c);
  st ← loop (S (S (length input))) (pass_step c identity)
         (it, {| p_fragments := reassembler_new (Protocol.limits c); p_tracker := t; p_packets := [];
                 p_notices := []; p_datagrams := []; udp_retained := 0; p_records := 0;
                 p_metadata := 0; p_secrets := 0 |});
  st ← finish_pass st;
  conclude c input identity st.

(** ** [has_diagnostics] *)

Definition dnp3_incomplete (r : Dnp3Result) : bool :=
  negb (zlen (Dnp3App.issues r) =? 0) || existsb (λ m, negb (complete m)) (Dnp3App.messages r).

Definition stream_degraded (s : option StreamResult) : bool :=
  match s with
  | Some s => negb (zlen (gaps s) =? 0) || negb (zlen (conflicts s) =? 0)
  | None => false
  end.

Definition clean_disposition (d : Disposition) : bool :=
  match d with DTcp _ _ | DUdp => true | _ => false end.

Definition has_diagnostics (a : Analysis) : bool :=
  existsb (λ d, match da_data d with inr _ => true | inl r => dnp3_incomplete r end) (datagrams a)
  || existsb (λ p, negb (zlen (po_warnings p) =? 0) || negb (clean_disposition (disposition p)))
       (a_packets a)
  || negb (zlen (fragment_notices a) =? 0)
  || (if correlation_error a then true else false)
  || (if confirmation_error a then true else false)
  || existsb (λ f, fr_midstream f || negb (fr_closed f) || negb (zlen (fr_anomalies f) =? 0)
                   || negb (zlen (reconstruction_errors f) =? 0)
                   || stream_degraded (streams f).1 || stream_degraded (streams f).2) (a_flows a)
  || existsb (λ x, match app_data x with
                   | Failed _ => true
                   | Dnp3 d => dnp3_incomplete d
                   | Modbus_ m => negb (zlen (Modbus.issues m) =? 0)
                   end) (applications a).
