(* ===== verification/EngineFacts.v ===== *)
(** * Correctness of the analysis

    One pass over a capture accounts for every packet: the observations are the
    packets of the capture in order, and none is left without an outcome, because
    every packet that waits for fragments is cited by a retained fragment set.
    The internal invariant errors of the program are never returned. *)

From S2P Require Import Prelude Errors Ord Provenance Time Capture CaptureFacts Wire WireFacts.
From S2P Require Import Fragment FragmentFacts Stream StreamFacts Tracker TrackerFacts.
From S2P Require Import Dnp3Link Dnp3LinkFacts Modbus ModbusFacts Protocol ProtocolFacts.
From S2P Require Import Dnp3App Dnp3AppFacts Sha256 Index IndexFacts Workflow WorkflowFacts.
From S2P Require Import Correlate CorrelateFacts ConfirmFacts Engine.

(** ** Updating observations *)

(** What no action changes. *)
Definition fixed (p : PacketObservation) : PacketId * PacketMeta * list Z :=
  (po_id p, metadata p, packet_sha256 p).

(** An action that only reports an outcome. *)
Definition settles (d : Disposition) (act : PacketObservation → PacketObservation) : Prop :=
  ∀ p, fixed (act p) = fixed p ∧ disposition (act p) = d.

Lemma with_disposition_settles d : settles d (with_disposition d).
Proof. done. Qed.

(** The observations stand at the place of their frame number. *)
Definition in_place (ps : list PacketObservation) : Prop :=
  ∀ i p, ps !! i = Some p → Provenance.frame (po_id p) = Z.of_nat i + 1.

(** The identity names an observation. *)
Definition known (ps : list PacketObservation) (id : PacketId) : Prop :=
  ∃ p, get ps (Provenance.frame id - 1) = Some p ∧ po_id p = id.

(** The packets [ids] have the outcome [d], the others are as before. *)
Definition settled (d : Disposition) (ids : list PacketId) (ps ps' : list PacketObservation) : Prop :=
  Forall2 (λ p p', fixed p' = fixed p ∧ (po_id p ∈ ids → disposition p' = d) ∧ (po_id p ∉ ids → p' = p)) ps ps'.

Lemma fixed_id p q : fixed p = fixed q → po_id p = po_id q.
Proof. by intros [=]. Qed.

Lemma known_in ps id : known ps id → ∃ p, p ∈ ps ∧ po_id p = id.
Proof. intros (p & [_ Hp]%get_Some & Hid). exists p. split; [by eapply list_elem_of_lookup_2|done]. Qed.

Lemma in_known ps p : in_place ps → p ∈ ps → known ps (po_id p).
Proof.
  intros Hpl (i & Hi)%list_elem_of_lookup. exists p. split; [|done]. rewrite (Hpl i p Hi).
  apply get_Some. split; [lia|]. by replace (Z.to_nat _) with i by lia.
Qed.

Lemma Forall2_lookup_fixed ps ps' (R : PacketObservation → PacketObservation → Prop) :
  (∀ p p', R p p' → fixed p' = fixed p) → Forall2 R ps ps' →
  (in_place ps → in_place ps') ∧ (∀ id, known ps id ↔ known ps' id).
Proof.
  intros HR Hall. assert (∀ i p', ps' !! i = Some p' → ∃ p, ps !! i = Some p ∧ po_id p' = po_id p) as H1.
  { intros i p' Hi. destruct (Forall2_lookup_r _ _ _ _ _ Hall Hi) as (p & Hp & Hr).
    exists p. split; [done|]. by apply fixed_id, HR. }
  assert (∀ i p, ps !! i = Some p → ∃ p', ps' !! i = Some p' ∧ po_id p' = po_id p) as H2.
  { intros i p Hi. destruct (Forall2_lookup_l _ _ _ _ _ Hall Hi) as (p' & Hp & Hr).
    exists p'. split; [done|]. by apply fixed_id, HR. }
  split.
  - intros Hpl i p' Hi. destruct (H1 i p' Hi) as (p & Hp & ->). by apply Hpl.
  - intros id. split.
    + intros (p & [H0 Hp]%get_Some & Hid). destruct (H2 _ _ Hp) as (p' & Hp' & He).
      exists p'. split; [by apply get_Some|congruence].
    + intros (p' & [H0 Hp]%get_Some & Hid). destruct (H1 _ _ Hp) as (p & Hp' & He).
      exists p. split; [by apply get_Some|congruence].
Qed.

Lemma each_step_spec d act ps id :
  in_place ps → known ps id → settles d act →
  wp (each_step act ps id) (settled d [id] ps) (λ _, False).
Proof.
  intros Hpl (p & Hg & Hid) Hact. unfold each_step, checked_sub. pose proof Hg as [H0 Hp]%get_Some.
  destruct (Z.leb_spec 1 (Provenance.frame id)); [|lia]. apply wp_bind.
  apply wp_ok. rewrite Hg. cbn [mbind option_bind]. rewrite bool_decide_eq_true_2 by done.
  apply wp_ok. unfold settled. apply Forall2_same_length_lookup. rewrite length_insert. split; [done|].
  intros i x y Hx Hy. rewrite list_lookup_insert in Hy. case_decide as Hi.
  - destruct Hi as [<- _]. rewrite Hp in Hx. injection Hx as <-. injection Hy as <-.
    destruct (Hact p) as [Hf Hd]. split_and!; [done|done|]. intros Hn. destruct Hn. rewrite Hid.
    by apply list_elem_of_singleton.
  - rewrite Hx in Hy. injection Hy as <-. split_and!; [done| |done].
    intros Hin%list_elem_of_singleton. destruct Hi. split; [|by eapply lookup_lt_Some].
    pose proof (Hpl i x Hx) as Hfr. rewrite Hin in Hfr. lia.
Qed.

Lemma settled_refl d ps : settled d [] ps ps.
Proof. induction ps; constructor; [|done]. split_and!; [done| |done]. by intros ?%not_elem_of_nil. Qed.

Lemma settled_trans d ids1 ids2 ps ps1 ps2 :
  settled d ids1 ps ps1 → settled d ids2 ps1 ps2 → settled d (ids1 ++ ids2) ps ps2.
Proof.
  intros H12 H23. unfold settled. revert ps2 H23.
  induction H12 as [|p p1 ps ps1 (F1 & S1 & N1) _ IH]; intros ps2 H23; inversion H23 as [|? p2 ? ? (F2 & S2 & N2) H2]; subst;
    constructor; [|by apply IH].
  pose proof (fixed_id _ _ F1) as Hid. rewrite Hid in S2, N2. rewrite F2, F1.
  split_and!; [done| |].
  - rewrite elem_of_app. destruct (decide (po_id p ∈ ids2)) as [|Hn]; [auto|].
    intros [Hin|]; [|done]. rewrite N2 by done. auto.
  - rewrite not_elem_of_app. intros [Ha Hb]. by rewrite N2, N1.
Qed.

Lemma settled_fixed d ids ps ps' :
  settled d ids ps ps' → (in_place ps → in_place ps') ∧ (∀ id, known ps id ↔ known ps' id).
Proof. apply Forall2_lookup_fixed. by intros p p' (? & _). Qed.

Lemma each_packet_spec d act ps ids :
  in_place ps → Forall (known ps) ids → settles d act →
  wp (each_packet ps ids act) (settled d ids ps) (λ _, False).
Proof.
  intros Hpl Hk Hact. unfold each_packet.
  apply (wp_foldM (λ pre ps', settled d pre ps ps')) with (done := []); [|apply settled_refl|done].
  intros pre id post ps' Heq Hs. rewrite app_nil_l in Heq. rewrite Heq in Hk.
  apply Forall_app in Hk as [_ [Hid _]%Forall_cons]. destruct (settled_fixed _ _ _ _ Hs) as [Hin Hkn].
  eapply wp_mono; [apply each_step_spec; [by apply Hin|by apply Hkn|done]| |done].
  intros ps2 Hs2. by eapply settled_trans.
Qed.

(** Any outcome: the packets [ids] are settled for good. *)
Definition closed_off (ids : list PacketId) (ps ps' : list PacketObservation) : Prop :=
  Forall2 (λ p p', fixed p' = fixed p ∧ (po_id p ∈ ids → nonterminal (disposition p') = false) ∧
                   (po_id p ∉ ids → p' = p)) ps ps'.

Lemma settled_closed d ids ps ps' : nonterminal d = false → settled d ids ps ps' → closed_off ids ps ps'.
Proof.
  intros Hd Hs. eapply Forall2_impl; [exact Hs|]. intros p p' (H1 & H2 & H3).
  split_and!; [done| |done]. intros Hin. by rewrite H2.
Qed.

Lemma closed_refl ps : closed_off [] ps ps.
Proof. induction ps; constructor; [|done]. split_and!; [done| |done]. by intros ?%not_elem_of_nil. Qed.

Lemma closed_trans ids1 ids2 ps ps1 ps2 :
  closed_off ids1 ps ps1 → closed_off ids2 ps1 ps2 → closed_off (ids1 ++ ids2) ps ps2.
Proof.
  intros H12 H23. unfold closed_off. revert ps2 H23.
  induction H12 as [|p p1 ps ps1 (F1 & S1 & N1) _ IH]; intros ps2 H23; inversion H23 as [|? p2 ? ? (F2 & S2 & N2) H2]; subst;
    constructor; [|by apply IH].
  pose proof (fixed_id _ _ F1) as Hid. rewrite Hid in S2, N2. rewrite F2, F1.
  split_and!; [done| |].
  - rewrite elem_of_app. destruct (decide (po_id p ∈ ids2)) as [|Hn]; [auto|].
    intros [Hin|]; [|done]. rewrite N2 by done. auto.
  - rewrite not_elem_of_app. intros [Ha Hb]. by rewrite N2, N1.
Qed.

Lemma closed_fixed ids ps ps' :
  closed_off ids ps ps' → (in_place ps → in_place ps') ∧ (∀ id, known ps id ↔ known ps' id).
Proof. apply Forall2_lookup_fixed. by intros p p' (? & _). Qed.

(** ** What the pass maintains *)

Section pass.
Context (input : list Z) (c : Config).

(** The identity of a packet, and what its observation holds for good. *)
Definition identity_of (e : IndexEntry) : PacketId :=
  {| capture := sha_reference input; Provenance.frame := frame (packet_meta e);
     Provenance.record_offset := Index.record_offset e |}.
Definition observed_as (e : IndexEntry) (p : PacketObservation) : Prop :=
  fixed p = (identity_of e, packet_meta e, sha_reference (entry_bytes input e)).

(** The identity names one of the packets seen. *)
Definition listed (es : list IndexEntry) (id : PacketId) : Prop :=
  ∃ e, get es (Provenance.frame id - 1) = Some e ∧ id = identity_of e.

(** An outcome stands for something: a waiting packet is cited by a retained
    fragment set, a TCP packet by its flow. *)
Definition accounted (fr : FragmentReassembler) (fs : list Flow) (p : PacketObservation) : Prop :=
  match disposition p with
  | DPending | DFragmentPending => ∃ k a, bt_get (sets fr) k = Some a ∧ po_id p ∈ Fragment.a_packets a
  | DTcp flow dir => (dir = 0 ∨ dir = 1) ∧ ∃ f, get fs flow = Some f ∧ po_id p ∈ fl_packets f
  | _ => True
  end.

(** [es] are the packets seen so far; the outcome of the packets [owed] is open. *)
Record pass_ok (es : list IndexEntry) (owed : PacketId → Prop) (cs : Z * Z * Z) (st : Pass) : Prop := {
  ps_fragments : fr_ok (p_fragments st);
  ps_tracker : tracker_ok (p_tracker st);
  ps_observed : Forall2 observed_as es (p_packets st);
  ps_place : in_place (p_packets st);
  ps_cited : ∀ k a, bt_get (sets (p_fragments st)) k = Some a → Forall (listed es) (Fragment.a_packets a);
  ps_accounted : ∀ p, p ∈ p_packets st →
    owed (po_id p) ∨ accounted (p_fragments st) (flows (p_tracker st)) p;
  ps_counts : (p_records st, p_metadata st, p_secrets st) = cs;
}.

Definition nothing (_ : PacketId) : Prop := False.
Definition unless (owed : PacketId → Prop) (ids : list PacketId) (id : PacketId) : Prop :=
  owed id ∧ id ∉ ids.

Lemma pass_ok_owed es (owed owed' : PacketId → Prop) cs st :
  (∀ id, owed id → owed' id) → pass_ok es owed cs st → pass_ok es owed' cs st.
Proof. intros Hi []. constructor; try done. intros p Hp. destruct (ps_accounted0 p Hp); auto. Qed.

Lemma listed_known es ps id : Forall2 observed_as es ps → listed es id → known ps id.
Proof.
  intros Hall (e & [H0 He]%get_Some & Hid). destruct (Forall2_lookup_l _ _ _ _ _ Hall He) as (p & Hp & Ho).
  exists p. split; [by apply get_Some|]. injection Ho as ? _ _. congruence.
Qed.

Lemma listed_app es e id : listed es id → listed (es ++ [e]) id.
Proof. intros (x & Hx & ?). exists x. split; [by apply get_app_Some|done]. Qed.

Lemma observed_fixed es ps ps' :
  Forall2 observed_as es ps → Forall2 (λ p p', fixed p' = fixed p) ps ps' → Forall2 observed_as es ps'.
Proof.
  intros H1 H2. revert ps' H2. induction H1 as [|e p es ps Ho _ IH]; intros ps' H2; inversion H2; subst; constructor.
  - unfold observed_as in *. congruence.
  - by apply IH.
Qed.

(** ** Settling packets *)

Lemma settle_ok es owed cs st d ids ps' :
  pass_ok es owed cs st → settled d ids (p_packets st) ps' →
  (∀ p, po_id p ∈ ids → disposition p = d → accounted (p_fragments st) (flows (p_tracker st)) p) →
  pass_ok es (unless owed ids) cs (with_packets st ps').
Proof.
  intros [] Hs Hd. destruct (settled_fixed _ _ _ _ Hs) as [Hpl _]. constructor; try done; simpl.
  - eapply observed_fixed; [done|]. eapply Forall2_impl; [exact Hs|]. by intros p p' (? & _).
  - by apply Hpl.
  - intros p' (i & Hi)%list_elem_of_lookup.
    destruct (Forall2_lookup_r _ _ _ _ _ Hs Hi) as (p & Hp & Hf & Hin & Hout). pose proof (fixed_id _ _ Hf) as Hid.
    destruct (decide (po_id p ∈ ids)) as [Hm|Hn].
    + right. apply Hd; [by rewrite Hid|auto].
    + rewrite (Hout Hn). apply list_elem_of_lookup_2 in Hp. destruct (ps_accounted0 p Hp); [left|by right].
      by split.
Qed.

Lemma each_settled es owed cs st d ids act :
  pass_ok es owed cs st → Forall (listed es) ids → settles d act →
  (∀ p, po_id p ∈ ids → disposition p = d → accounted (p_fragments st) (flows (p_tracker st)) p) →
  wp (each_packet (p_packets st) ids act)
     (λ ps, pass_ok es (unless owed ids) cs (with_packets st ps) ∧ settled d ids (p_packets st) ps)
     (λ _, False).
Proof.
  intros Hok Hids Hact Hd.
  eapply wp_mono; [apply (each_packet_spec d); [apply Hok| |done]| |done].
  - eapply Forall_impl; [exact Hids|]. intros id. apply listed_known, Hok.
  - intros ps Hs. split; [by eapply settle_ok|done].
Qed.

Lemma on_notice_spec es owed cs st n :
  pass_ok es owed cs st → Forall (listed es) (n_packets n) →
  wp (on_notice st n)
     (λ st', pass_ok es (unless owed (n_packets n)) cs st' ∧
             closed_off (n_packets n) (p_packets st) (p_packets st')) (λ _, False).
Proof.
  intros Hok Hn. unfold on_notice, fragment_notice. apply wp_bind.
  eapply wp_mono; [eapply (each_settled es owed cs st (DFragmentIncomplete (n_code n))); try done| |done].
  - intros p _ Hp. unfold accounted. by rewrite Hp.
  - intros ps [[] Hs]. apply wp_ok. split; [by constructor|]. by eapply settled_closed; [|exact Hs].
Qed.

Lemma on_notices_spec es owed cs st ns :
  pass_ok es owed cs st → Forall (λ n, Forall (listed es) (n_packets n)) ns →
  wp (foldM on_notice st ns)
     (λ st', pass_ok es (unless owed (concat (n_packets <$> ns))) cs st' ∧
             closed_off (concat (n_packets <$> ns)) (p_packets st) (p_packets st')) (λ _, False).
Proof.
  intros Hok Hns.
  apply (wp_foldM (λ pre st', pass_ok es (unless owed (concat (n_packets <$> pre))) cs st' ∧
             closed_off (concat (n_packets <$> pre)) (p_packets st) (p_packets st'))) with (done := []); [| |done].
  - intros pre n post st1 Heq [Hok1 Hcl]. rewrite app_nil_l in Heq. rewrite Heq in Hns.
    apply Forall_app in Hns as [_ [Hn _]%Forall_cons].
    eapply wp_mono; [by apply on_notice_spec| |done]. intros st2 [Hok2 Hcl2].
    rewrite fmap_app, concat_app. simpl. rewrite app_nil_r. split; [|by eapply closed_trans].
    eapply pass_ok_owed; [|exact Hok2]. unfold unless. intros id. rewrite elem_of_app. naive_solver.
  - split; [|apply closed_refl]. eapply pass_ok_owed; [|exact Hok]. intros id Ho. split; [done|]. apply not_elem_of_nil.
Qed.

(** ** Changes of the state that keep it *)

(** Relabelling: warnings and endpoints of an observation are free. *)
Lemma relabel_ok es owed cs st i p q :
  pass_ok es owed cs st → p_packets st !! i = Some p → fixed q = fixed p → disposition q = disposition p →
  pass_ok es owed cs (with_packets st (<[i := q]> (p_packets st))).
Proof.
  intros [] Hp Hf Hd.
  assert (∀ x, <[i := q]> (p_packets st) !! x = p_packets st !! x ∨
               x = i ∧ <[i := q]> (p_packets st) !! x = Some q) as Hx.
  { intros x. destruct (decide (x = i)) as [->|]; [right|left; by apply list_lookup_insert_ne].
    split; [done|]. apply list_lookup_insert_eq. by eapply lookup_lt_Some. }
  constructor; try done; simpl.
  - eapply Forall2_same_length_lookup. rewrite length_insert.
    pose proof (Forall2_length _ _ _ ps_observed0). split; [done|]. intros x e y He Hy.
    destruct (Hx x) as [Hl|[-> Hl]]; rewrite Hl in Hy.
    + by eapply Forall2_lookup_lr.
    + injection Hy as <-. unfold observed_as. rewrite Hf.
      change (observed_as e p). by eapply Forall2_lookup_lr.
  - intros x y Hy. destruct (Hx x) as [Hl|[-> Hl]]; rewrite Hl in Hy; [by apply ps_place0|].
    injection Hy as <-. rewrite (fixed_id _ _ Hf). by apply ps_place0.
  - intros y (x & Hy)%list_elem_of_lookup. destruct (Hx x) as [Hl|[-> Hl]]; rewrite Hl in Hy.
    + eapply ps_accounted0, list_elem_of_lookup_2, Hy.
    + injection Hy as <-. unfold accounted. rewrite Hd, (fixed_id _ _ Hf).
      by eapply ps_accounted0, list_elem_of_lookup_2.
Qed.

(** The tracker only adds to its flows. *)
Definition extends (fs fs' : list Flow) : Prop :=
  ∀ i f, get fs i = Some f → ∃ g, get fs' i = Some g ∧ ∀ id, id ∈ fl_packets f → id ∈ fl_packets g.

Lemma with_tracker_ok es owed cs st t :
  pass_ok es owed cs st → tracker_ok t → extends (flows (p_tracker st)) (flows t) →
  pass_ok es owed cs (with_tracker st t).
Proof.
  intros [] Ht Hext. constructor; try done; simpl. intros p Hp.
  destruct (ps_accounted0 p Hp) as [|Ha]; [by left|right]. unfold accounted in *.
  destruct (disposition p); try done. destruct Ha as (Hd & f & Hf & Hin). split; [done|].
  destruct (Hext _ _ Hf) as (g & Hg & Hsub). exists g. auto.
Qed.

(** Packets of a set that is gone are owed an outcome. *)
Lemma with_fragments_ok es (owed owed' : PacketId → Prop) cs st fr :
  pass_ok es owed cs st → fr_ok fr →
  (∀ k a, bt_get (sets fr) k = Some a → Forall (listed es) (Fragment.a_packets a)) →
  (∀ id, owed id → owed' id) →
  (∀ k a id, bt_get (sets (p_fragments st)) k = Some a → id ∈ Fragment.a_packets a →
     owed' id ∨ ∃ k' a', bt_get (sets fr) k' = Some a' ∧ id ∈ Fragment.a_packets a') →
  pass_ok es owed' cs (with_fragments st fr).
Proof.
  intros [] Hfr Hc Ho Hset. constructor; try done; simpl. intros p Hp.
  destruct (ps_accounted0 p Hp) as [|Ha]; [by left; apply Ho|]. unfold accounted in *.
  destruct (disposition p); try (by right);
    destruct Ha as (k & a & Hk & Hin); by eapply Hset.
Qed.

(** One more packet. *)
Lemma observe_ok es cs st e ws :
  pass_ok es nothing cs st → frame (packet_meta e) = zlen es + 1 →
  let o := observation (identity_of e) (packet_meta e) (sha_reference (entry_bytes input e)) ws in
  pass_ok (es ++ [e]) (λ id, id = identity_of e) cs (with_packets st (p_packets st ++ [o])).
Proof.
  intros [] Hfr o. pose proof (Forall2_length _ _ _ ps_observed0) as Hlen. constructor; try done; simpl.
  - apply Forall2_app; [done|]. by constructor.
  - intros i p Hi. apply lookup_app_Some in Hi as [Hi|[Hge Hi]]; [by apply ps_place0|].
    apply list_lookup_singleton_Some in Hi as [Hz <-]. simpl. rewrite Hfr. unfold zlen. lia.
  - intros k a Hk. eapply Forall_impl; [by eapply ps_cited0|]. intros id. apply listed_app.
  - intros p [Hp| ->%list_elem_of_singleton]%elem_of_app; [|by left].
    destruct (ps_accounted0 p Hp) as [[]|]; by right.
Qed.

Lemma on_udp_ok es cs st sc ids u :
  limits_ok (Protocol.limits c) → max_application_bytes (Protocol.limits c) ≤ i64_max →
  pass_ok es nothing cs st → ids ≠ [] → ev_typed (udp_payload u) →
  wp (on_udp c sc ids st u) (pass_ok es nothing cs) is_limit.
Proof.
  intros Hl Hm Hok Hids Hty. unfold on_udp. destruct (_ && _); [|done]. destruct (_ <=? _); [by eexists|].
  apply wp_bind, wp_ok_or; [|by eexists]. intros kept _. destruct (_ <? _); [by eexists|].
  apply wp_bind. eapply wp_mono; [by apply analyze_udp_spec| |done].
  intros [d|] _; [|done]. apply wp_ok. destruct Hok. by constructor.
Qed.

(** ** One packet *)

Context (Hlimits : limits_ok (Protocol.limits c)).
Context (Happ : max_application_bytes (Protocol.limits c) ≤ i64_max).

Lemma unless_nothing (owed : PacketId → Prop) ids id :
  (∀ id, owed id → id ∈ ids) → unless owed ids id → nothing id.
Proof. intros Hi [Ho Hn]. by apply Hn, Hi. Qed.

(** All that was owed is settled. *)
Lemma settle_all es owed cs st d ids act :
  pass_ok es owed cs st → Forall (listed es) ids → (∀ id, owed id → id ∈ ids) → settles d act →
  (∀ p, po_id p ∈ ids → disposition p = d → accounted (p_fragments st) (flows (p_tracker st)) p) →
  wp (update_each st ids act) (pass_ok es nothing cs) (λ _, False).
Proof.
  intros Hok Hids Ho Hact Hd. unfold update_each. apply wp_bind.
  eapply wp_mono; [by eapply each_settled| |done]. intros ps [Hps _]. apply wp_ok.
  eapply pass_ok_owed; [|exact Hps]. intros id. by apply unless_nothing.
Qed.

(** What the tracker does with a segment. *)
Lemma ingest_extends t sc ids now s :
  tracker_ok t → ids ≠ [] → ev_ok (tcp_payload s) → zlen (data (tcp_payload s)) ≤ 65535 →
  wp (ingest_with_packets t sc ids now s)
     (λ '(t', a), tracker_ok t' ∧ extends (flows t) (flows t') ∧
        match a with
        | Assigned flow dir => (dir = 0 ∨ dir = 1) ∧
            ∃ g, get (flows t') flow = Some g ∧ ∀ id, id ∈ ids → id ∈ fl_packets g
        | _ => True
        end) is_limit.
Proof.
  intros Hok Hids Hev Hlen.
  destruct (flow_key_new sc (tcp_source s) (tcp_destination s)) as [key dir] eqn:Hkey.
  eapply wp_mono; [by apply (ingest_spec t sc ids now s key dir)| |].
  - assert (extends (flows t) (flows t)) as Hrefl by (intros i f Hf; by exists f).
    intros [t' [flow d|l|why]] [Hok' Ha]; [|by destruct Ha as [-> _]..].
    split; [done|]. assert (∃ old new, d = dir ∧ assigned t t' key dir ids s old new flow) as (old & new & -> & Hass).
    { destruct Ha as [-> Ha]. destruct (syn s && negb (ack s)); eauto. }
    destruct Hass as (H0 & f & g & Hold & _ & Hg & (_ & _ & _ & _ & _ & Hp & _) & Hoth). split.
    + intros i h [Hi Hh]%get_Some. destruct (decide (i = flow)) as [->|Hne].
      * exists g. split; [by apply get_Some|]. intros id Hin. rewrite Hp.
        destruct Hold as [(Hf & _)|(_ & _ & -> & _)].
        -- rewrite Hf in Hh. injection Hh as ->. apply elem_of_app. by left.
        -- apply lookup_lt_Some in Hh. unfold zlen in Hh. lia.
      * exists h. split; [|done]. apply get_Some. split; [done|]. rewrite Hoth; [done| |done].
        apply lookup_lt_Some in Hh. unfold zlen. lia.
    + split; [by eapply flow_key_dir|]. exists g. split; [by apply get_Some|].
      intros id Hin. rewrite Hp, !elem_of_app. auto.
  - intros e [[_ ?]|[[-> _]|[[-> _]|[-> _]]]]; [done|by eexists..].
Qed.

Lemma on_datagram_spec es owed cs st time dg ids :
  pass_ok es owed cs st → datagram_ok dg → ids ≠ [] → Forall (listed es) ids →
  (∀ id, owed id → id ∈ ids) →
  wp (on_datagram c time st dg ids) (pass_ok es nothing cs) is_limit.
Proof using Hlimits Happ.
  intros Hok Hdg Hne Hids Ho. unfold on_datagram. apply wp_bind, wp_catch.
  eapply wp_mono; [by apply decode_transport_spec| |].
  2:{ intros e _. eapply wp_mono; [eapply (settle_all _ _ _ _ (rejected e)); [done..|apply with_disposition_settles|]|done|done].
      intros p _ Hp. unfold accounted. by rewrite Hp. }
  intros t (_ & (prefix & _ & _ & Ht) & _). pose proof Hdg as (_ & Hlen & _).
  destruct t as [s|u]; simpl in Ht.
  - destruct Ht as (_ & (Hab & Hb & Hev & Hd & _) & _). apply wp_bind.
    eapply wp_mono; [apply ingest_extends; [apply Hok|done|done|]| |done].
    { rewrite Hd, zlen_sub by lia. lia. }
    intros [t a] (Ht & Hext & Ha).
    eapply wp_mono; [eapply (settle_all _ _ _ (with_tracker st t)
        match a with Assigned f d => DTcp f d | Ambiguous l => DAmbiguous l
                   | Unassigned why => DRejected why "cannot safely assign a connection generation" end);
      [by apply with_tracker_ok|done|done| |]|done|done].
    + intros p. unfold tcp_action, fixed. by destruct (tcp_checksum s).
    + intros p Hin Hp. unfold accounted. rewrite Hp. destruct a; try done. simpl.
      destruct Ha as (Hdir & g & Hg & Hsub). split; [done|]. exists g. auto.
  - destruct Ht as (_ & (_ & _ & [Hev _] & _) & _). apply wp_bind.
    eapply wp_mono; [eapply (settle_all _ _ _ _ DUdp); [done..| |]| |done].
    + intros p. unfold udp_action, fixed. by destruct (udp_checksum u).
    + intros p _ Hp. unfold accounted. by rewrite Hp.
    + intros st' Hst'. by apply on_udp_ok.
Qed.

(** ** Fragments *)

(** Evidence cut from one packet cites that packet. *)
Lemma payload_packets id pkt ev a b :
  WireFacts.cites id pkt ev a b → Forall (λ q, q = id) (packets ev) ∧ (data ev ≠ [] → id ∈ packets ev).
Proof.
  intros (Hab & Hb & Hev & Hd & Ho). split.
  - apply Forall_forall. intros q Hq. rewrite origins_packets, Ho in Hq by done.
    apply list_elem_of_fmap in Hq as (x & -> & Hx). by apply list_elem_of_fmap in Hx as (y & -> & _).
  - intros Hne. rewrite origins_packets, Ho by done. apply list_elem_of_fmap. exists (id, a). split; [done|].
    apply list_elem_of_fmap. exists a. split; [done|]. apply elem_of_seqZ. split; [lia|].
    destruct (Z.eq_dec a b) as [->|]; [|lia]. by rewrite sub_empty in Hd.
Qed.

(** [push] changes the set of one key to cite [ids], which contain what it cited. *)
Definition set_moved (r r' : FragmentReassembler) (key : Key) (ids : list PacketId) : Prop :=
  fr_ok r' ∧ (∀ k, k ≠ key → bt_get (sets r') k = bt_get (sets r) k) ∧
  (∀ id, id ∈ cited_by r key → id ∈ ids) ∧ (cited_by r' key = ids ∨ bt_get (sets r') key = None).

Lemma set_moved_ok es (owed owed' : PacketId → Prop) cs st r' key ids :
  pass_ok es owed cs st → set_moved (p_fragments st) r' key ids → Forall (listed es) ids →
  (∀ id, owed id → owed' id) → (cited_by r' key = ids ∨ ∀ id, id ∈ ids → owed' id) →
  pass_ok es owed' cs (with_fragments st r').
Proof.
  intros Hok (Hr & Hoth & Hsub & Hkey) Hids Ho Hgone. pose proof Hok as [].
  eapply with_fragments_ok; [done..| |done|].
  - intros k a Ha. destruct (decide (k = key)) as [->|Hne].
    + destruct Hkey as [Hc|Hn]; [|congruence]. unfold cited_by in Hc. rewrite Ha in Hc. by rewrite Hc.
    + rewrite Hoth in Ha by done. by eapply ps_cited0.
  - intros k a id Ha Hin. destruct (decide (k = key)) as [->|Hne].
    + assert (id ∈ ids) as Hi by (apply Hsub; unfold cited_by; by rewrite Ha).
      destruct Hgone as [Hc|Hg]; [right|left; auto]. unfold cited_by in Hc.
      destruct (bt_get (sets r') key) as [a'|] eqn:Hk; [|subst ids; by apply not_elem_of_nil in Hi].
      exists key, a'. split; [done|]. by rewrite Hc.
    + right. exists k, a. by rewrite Hoth.
Qed.

(** ** The packet's own observation *)

Section at_packet.
Context (es : list IndexEntry) (cs : Z * Z * Z) (at_ : Z) (e : IndexEntry) (He : get es at_ = Some e).

Lemma this_observation owed st :
  pass_ok es owed cs st →
  ∃ p, get (p_packets st) at_ = Some p ∧ po_id p = identity_of e ∧ Provenance.frame (identity_of e) = at_ + 1.
Proof using He.
  intros []. pose proof He as [H0 He']%get_Some.
  destruct (Forall2_lookup_l _ _ _ _ _ ps_observed0 He') as (p & Hp & Ho).
  exists p. assert (po_id p = identity_of e) as Hid by (by injection Ho).
  split_and!; [by apply get_Some|done|]. rewrite <- Hid, (ps_place0 _ _ Hp). lia.
Qed.

Lemma this_listed owed st : pass_ok es owed cs st → listed es (identity_of e).
Proof using He.
  intros Hok. destruct (this_observation owed st Hok) as (p & _ & _ & Hf). exists e.
  split; [|done]. rewrite Hf. by replace (at_ + 1 - 1) with at_ by lia.
Qed.

Lemma update_this owed st act :
  pass_ok es owed cs st → update_at st at_ act = update_each st [identity_of e] act.
Proof using He.
  intros Hok. destruct (this_observation owed st Hok) as (p & Hp & Hid & Hf).
  unfold update_at, update_each, each_packet. cbn [foldM]. unfold each_step, checked_sub.
  rewrite Hf. destruct (Z.leb_spec 1 (at_ + 1)); [|apply get_Some in Hp as [? _]; lia].
  replace (at_ + 1 - 1) with at_ by lia. cbn [ok_or]. rewrite bind_Ok, Hp.
  rewrite (get_index _ _ _ Hp), bind_Ok. cbn [mbind option_bind].
  by rewrite bool_decide_eq_true_2.
Qed.

Lemma settle_this owed st d act :
  pass_ok es owed cs st → (∀ x, owed x → x = identity_of e) → settles d act →
  (∀ p, po_id p = identity_of e → disposition p = d → accounted (p_fragments st) (flows (p_tracker st)) p) →
  wp (update_at st at_ act) (pass_ok es nothing cs) (λ _, False).
Proof using He.
  intros Hok Ho Hact Hd. rewrite (update_this owed) by done.
  eapply settle_all; [done|..|done|].
  - apply List.Forall_cons; [by eapply this_listed|constructor].
  - intros x Hx. apply list_elem_of_singleton. auto.
  - intros p Hp%list_elem_of_singleton. auto.
Qed.

Lemma warn_this owed st w :
  pass_ok es owed cs st → wp (update_at st at_ (with_warning w)) (pass_ok es owed cs) (λ _, False).
Proof using He.
  intros Hok. destruct (this_observation owed st Hok) as (p & Hp & _ & _). unfold update_at.
  rewrite (get_index _ _ _ Hp), bind_Ok. apply wp_ok. apply get_Some in Hp as [_ Hp]. by eapply relabel_ok.
Qed.

(** What becomes of a fragment. *)
Lemma on_fragment_spec st time id pkt start dg info fr_ :
  pass_ok es (λ x, x = identity_of e) cs st → id = identity_of e →
  WireFacts.decoded id pkt start dg → fragment dg = Some info → 0 ≤ fr_ ≤ u64_max →
  wp (r ← Fragment.push (p_fragments st) dg fr_;
      let '(fr, outcome) := r in
      let st := with_fragments st fr in
      match outcome with
      | Pending => update_at st at_ (with_disposition DFragmentPending)
      | Rejected n => on_notice st n
      | Complete dg ids => on_datagram c time st dg (if zlen ids =? 0 then [id] else ids)
      end) (pass_ok es nothing cs) is_limit.
Proof using He Hlimits Happ.
  intros Hok -> [Hdg (b & _ & Hcites)] Hf Hfr. pose proof Hok as [].
  pose proof (this_listed _ _ Hok) as Hthis.
  destruct (payload_packets _ _ _ _ _ Hcites) as [Honly Hin].
  assert (identity_of e ∈ packets (payload dg)) as Hpk.
  { apply Hin. pose proof Hdg as (_ & _ & _ & Hfo). destruct (Hfo _ Hf) as (_ & _ & _ & Hn & _).
    intros Hd. rewrite Hd in Hn. by apply Z.lt_irrefl in Hn. }
  set (key := fragment_key dg info). set (ids := sort_dedup (cited_by (p_fragments st) key ++ packets (payload dg))).
  assert (Forall (listed es) (packets (payload dg))) as Hpl.
  { eapply Forall_impl; [exact Honly|]. by intros ? ->. }
  assert (Forall (listed es) ids) as Hids.
  { apply Forall_forall. intros q [Hq|Hq]%elem_of_sort_dedup%elem_of_app; [|by eapply Forall_forall in Hpl].
    unfold cited_by in Hq. destruct (bt_get _ key) as [a|] eqn:Ha; [|by apply not_elem_of_nil in Hq].
    specialize (ps_cited0 _ _ Ha). by eapply Forall_forall in ps_cited0. }
  assert (identity_of e ∈ ids) as Hi by (apply elem_of_sort_dedup, elem_of_app; by right).
  assert (∀ q, q ∈ cited_by (p_fragments st) key → q ∈ ids) as Hsub
    by (intros q ?; apply elem_of_sort_dedup, elem_of_app; by left).
  apply wp_bind. eapply wp_mono; [apply wp_eq, fragment_push_spec; done| |done].
  intros [r' out] [(Hr' & Hoth & Hout) Heq]. pose proof (push_packets _ _ _ _ _ _ Heq Hf) as Hpp.
  cbv zeta in Hpp. fold key in Hpp, Hoth, Hout. fold ids in Hpp. destruct out as [|dg' ids'|n].
  - eapply wp_mono; [eapply settle_this|done|done]; [|done|apply with_disposition_settles|].
    + eapply (set_moved_ok _ _ _ _ _ _ key ids); try done; [split_and!; auto|by left].
    + intros p Hp Hd. unfold accounted. rewrite Hd, Hp. simpl. unfold cited_by in Hpp.
      destruct (bt_get (sets r') key) as [a|] eqn:Ha; [|rewrite <- Hpp in Hi; by apply not_elem_of_nil in Hi].
      exists key, a. by rewrite Hpp.
  - subst ids'. rewrite (proj2 (Z.eqb_neq (zlen ids) 0))
      by (intros Hz%zlen_0_nil; rewrite Hz in Hi; by apply not_elem_of_nil in Hi).
    destruct Hout as (_ & Hgone & Hdg' & _).
    eapply (on_datagram_spec es (λ x, x ∈ ids)); try done.
    + eapply (set_moved_ok _ _ _ _ _ _ key ids); try done; [split_and!; auto|by intros x ->|by right].
    + intros Hz. rewrite Hz in Hi. by apply not_elem_of_nil in Hi.
  - assert (pass_ok es (λ x, x = identity_of e) cs (with_fragments st r') ∧
            Forall (listed es) (n_packets n) ∧ identity_of e ∈ n_packets n) as (Hok' & Hn & Hin').
    { destruct Hpp as [[-> ->]|[-> Hc]].
      - split_and!; try done.
      - split_and!; try done. eapply (set_moved_ok _ _ _ _ _ _ key ids); try done; [split_and!; auto|by left]. }
    eapply wp_mono; [by apply on_notice_spec| |done]. intros st' [Hst' _].
    eapply pass_ok_owed; [|exact Hst']. intros x [-> Hx]. by apply Hx.
Qed.

(** A datagram that is not a fragment. *)
Lemma on_whole_spec st time pkt start dg fr_ :
  pass_ok es (λ x, x = identity_of e) cs st → WireFacts.decoded (identity_of e) pkt start dg →
  fragment dg = None →
  wp (r ← Fragment.push (p_fragments st) dg fr_;
      let '(fr, outcome) := r in
      let st := with_fragments st fr in
      match outcome with
      | Pending => update_at st at_ (with_disposition DFragmentPending)
      | Rejected n => on_notice st n
      | Complete dg ids => on_datagram c time st dg (if zlen ids =? 0 then [identity_of e] else ids)
      end) (pass_ok es nothing cs) is_limit.
Proof using He Hlimits Happ.
  intros Hok [Hdg (b & _ & Hcites)] Hf. pose proof Hok as [].
  destruct (payload_packets _ _ _ _ _ Hcites) as [Honly _]. pose proof (this_listed _ _ Hok) as Hthis.
  unfold Fragment.push. rewrite limits_ok_validate, bind_Ok by apply ps_fragments0. rewrite Hf, bind_Ok.
  set (ids := if zlen (packets (payload dg)) =? 0 then [identity_of e] else packets (payload dg)).
  assert (ids ≠ [] ∧ Forall (λ q, q = identity_of e) ids) as [Hne Hids].
  { unfold ids. destruct (Z.eqb_spec (zlen (packets (payload dg))) 0) as [|Hz].
    - split; [done|]. by rewrite Forall_singleton.
    - split; [|done]. intros Hn. by rewrite Hn in Hz. }
  eapply (on_datagram_spec es (λ x, x = identity_of e)); try done.
  - eapply Forall_impl; [exact Hids|]. by intros ? ->.
  - intros x ->. destruct ids as [|y ids]; [done|]. apply Forall_cons in Hids as [-> _]. apply list_elem_of_here.
Qed.

Lemma on_network_spec st time pkt start dg fr_ :
  pass_ok es (λ x, x = identity_of e) cs st → WireFacts.decoded (identity_of e) pkt start dg →
  0 ≤ fr_ ≤ u64_max →
  wp (on_network c time at_ (identity_of e) fr_ st dg) (pass_ok es nothing cs) is_limit.
Proof using He Hlimits Happ.
  intros Hok Hd Hfr. unfold on_network. cbv zeta. apply wp_bind.
  eapply (wp_mono _ (pass_ok es (λ x, x = identity_of e) cs) _ (λ _, False)); [| |done].
  { destruct (bool_decide (ip_checksum dg = Invalid)); [by apply warn_this|done]. }
  intros st1 Hok1. destruct (_ && _).
  - eapply wp_mono; [eapply settle_this|done|done]; [done|done|apply with_disposition_settles|].
    intros p _ Hp. unfold accounted. by rewrite Hp.
  - destruct (fragment dg) as [info|] eqn:Hf; [by eapply on_fragment_spec|by eapply on_whole_spec].
Qed.
End at_packet.

(** ** One record *)

Lemma expired_dec l fr_ a : {expired l fr_ a} + {¬ expired l fr_ a}.
Proof.
  unfold expired. destruct (deadline_of _ _) as [d|]; [|right; by intros (? & ? & _)].
  destruct (Z_le_dec d fr_); [left; by exists d|right; by intros (? & [= <-] & ?)].
Qed.

(** Expired sets are reported, and their packets settled. *)
Lemma on_expiry_spec es st cs fr_ :
  pass_ok es nothing cs st →
  wp (expire (p_fragments st) fr_)
     (λ '(fr, ns), wp (foldM on_notice (with_fragments st fr) ns) (pass_ok es nothing cs) is_limit)
     is_limit.
Proof.
  intros Hok. pose proof Hok as []. eapply wp_mono; [by apply expire_spec| |done].
  intros [fr ns] (Hfr' & _ & Hkeep & Hrep & Hcite).
  assert (pass_ok es (λ id, ∃ n, n ∈ ns ∧ id ∈ n_packets n) cs (with_fragments st fr)) as Hok1.
  { eapply with_fragments_ok; [done..| |by intros ? []|].
    - intros k a [Ha _]%Hkeep. by eapply ps_cited0.
    - intros k a id Ha Hin. destruct (expired_dec (f_limits (p_fragments st)) fr_ a) as [He|He].
      + left. destruct (Hrep k a Ha He) as (n & Hn & Hp). exists n. by rewrite Hp.
      + right. exists k, a. split; [by apply Hkeep|done]. }
  eapply wp_mono; [apply on_notices_spec; [exact Hok1|]| |done].
  - apply Forall_forall. intros n Hn. destruct (Hcite n Hn) as (k & a & Ha & ->). by eapply ps_cited0.
  - intros st1 (Hok2 & _). eapply pass_ok_owed; [|exact Hok2].
    intros id [(n & Hn & Hin) Hno]. destruct Hno. apply elem_of_concat. eauto using list_elem_of_fmap_2.
Qed.

Lemma packet_warnings_safe record m :
  from_option ts_typed True (timestamp m) → wp (packet_warnings record m) (λ _, True) is_limit.
Proof.
  intros Ht. unfold packet_warnings. apply wp_bind. destruct (timestamp m) as [t|]; [|done].
  apply wp_bind, wp_catch. pose proof (unix_nanos_safe t Ht) as Hs. by destruct (unix_nanos t).
Qed.

(** The packet with the entry [e] is the next one after [es]. *)
Lemma on_packet_spec es e st cs record :
  bytes_ok input → zlen input ≤ i64_max →
  pass_ok es nothing cs st → entry_ok input (zlen es + 1) e → zlen es + 1 ≤ u64_max →
  r_offset record = Index.record_offset e →
  wp (on_packet c (sha_reference input) record st (packet_meta e) (entry_bytes input e))
     (pass_ok (es ++ [e]) nothing cs) is_limit.
Proof using Hlimits Happ.
  intros Hb Hl Hok (Hfr & Hoff & Hdo & Hcl & Hend & Hts) Hmax Hro. unfold on_packet.
  apply wp_bind. eapply wp_mono; [by apply (on_expiry_spec es st cs)| |done].
  intros [fr ns] Hexp. apply wp_bind. eapply wp_mono; [exact Hexp| |done]. clear Hexp. intros st1 Hok1.
  assert (zlen (p_packets st1) = zlen es) as Hz
    by (unfold zlen; by rewrite (Forall2_length _ _ _ (ps_observed _ _ _ _ Hok1))).
  cbv zeta. rewrite Hro. change {| capture := _; Provenance.frame := _; Provenance.record_offset := _ |} with (identity_of e).
  apply wp_bind, wp_add_ovf; [lia|]. rewrite Hz, Hfr, Z.eqb_refl. cbn [negb].
  apply wp_bind. eapply wp_mono; [by apply packet_warnings_safe| |done]. intros [ws time] _.
  rewrite digest_ok, bind_Ok.
  pose proof (observe_ok es cs st1 e ws Hok1 Hfr) as Hok2. cbv zeta in Hok2. revert Hok2.
  set (st2 := with_packets st1 _). intros Hok2.
  assert (zlen (p_packets st2) = zlen es + 1) as Hz2
    by (unfold st2; simpl; rewrite zlen_app, Hz; done).
  apply wp_bind, wp_sub_ovf; [pose proof (zlen_nonneg es); lia|]. rewrite Hz2.
  replace (zlen es + 1 - 1) with (zlen es) by lia.
  pose proof (get_length es [] e) as Hget.
  apply wp_bind, wp_catch. eapply wp_mono; [apply decode_packet_spec| |].
  - split_and!; [by apply bytes_ok_sub|..]; unfold entry_bytes, entry_start in *; simpl; rewrite ?zlen_sub by lia; lia.
  - intros dg (start & Hs & Hd). by eapply on_network_spec; [..|pose proof (zlen_nonneg es); lia].
  - intros err _. eapply wp_mono; [eapply (settle_this _ _ _ _ Hget)|done|done]; [done|done| |].
    + apply (with_disposition_settles (rejected err)).
    + intros p _ Hp. unfold accounted. by rewrite Hp.
Qed.

(** The records of the capture, and what they are to the pass. *)
Context (Hbytes : bytes_ok input) (Hlen : zlen input ≤ i64_max).
Context (rs : list CapRecord).
Context (Htiles : tiles input 0 rs) (Hnum : numbered 1 rs) (Hrange : Forall packet_range rs).
Context (Hcount : zlen rs ≤ max_records (Protocol.limits c)).

Definition is_secret (r : CapRecord) : bool := match kind r with KSecrets _ _ => true | _ => false end.
Definition counts_of (pre : list CapRecord) : Z * Z * Z :=
  (zlen pre, zlen pre - zlen (omap entry_of pre), zlen (List.filter is_secret pre)).
Definition seen (pre : list CapRecord) : Pass → Prop :=
  pass_ok (omap entry_of pre) nothing (counts_of pre).

Lemma tiles_at pos pre r post :
  0 ≤ pos → tiles input pos (pre ++ r :: post) →
  0 ≤ r_offset r ∧ r_offset r + zlen (raw r) ≤ zlen input ∧
  raw r = Prelude.sub input (r_offset r) (r_offset r + zlen (raw r)).
Proof.
  revert pos. induction pre as [|x pre IH]; intros pos Hpos; simpl.
  - intros (-> & H1 & H2 & H3 & _). done.
  - intros (_ & H1 & _ & _ & H). apply (IH (pos + zlen (raw x))); [lia|done].
Qed.

Lemma record_at pre r post :
  rs = pre ++ r :: post →
  match entry_of r with
  | Some e => record_packet r = Ok (Some (packet_meta e, entry_bytes input e)) ∧
      entry_ok input (zlen (omap entry_of pre) + 1) e ∧ r_offset r = Index.record_offset e ∧ is_secret r = false
  | None => record_packet r = Ok None
  end.
Proof using Hlen Htiles Hnum Hrange.
  intros Hrs. destruct (record_cases r) as [(p & Hk & He)|(-> & Hp & _)]; [|done]. rewrite He.
  destruct (entries_of_records input 0 1 rs ltac:(lia) Hlen Htiles Hnum Hrange) as [Hes _].
  pose proof Htiles as Ht. rewrite Hrs in Hes, Ht. rewrite omap_app in Hes.
  destruct (tiles_at 0 pre r post) as (T1 & T2 & T3); [lia|done|].
  pose proof Hrange as Hr. rewrite Hrs in Hr. apply Forall_app in Hr as [_ [Hr _]%Forall_cons].
  split_and!; [by apply record_packet_bytes| |done|by unfold is_secret; rewrite Hk].
  simpl in Hes. rewrite He in Hes.
  pose proof (entries_ok_lookup _ _ _ (length (omap entry_of pre)) _ Hes (list_lookup_middle _ _ _ _ eq_refl)) as Hx.
  unfold zlen. by rewrite Z.add_comm.
Qed.

Lemma on_record_spec pre r post st :
  rs = pre ++ r :: post → seen pre st →
  wp (on_record c (sha_reference input) st r) (seen (pre ++ [r])) is_limit.
Proof using All.
  intros Hrs Hok. pose proof (record_at pre r post Hrs) as Hr. pose proof Hok as [].
  assert (zlen pre + 1 ≤ zlen rs) as Hpre.
  { rewrite Hrs, zlen_app, zlen_cons. pose proof (zlen_nonneg post). lia. }
  pose proof Hlimits as Hl. limits_facts Hl. pose proof (zlen_omap_le entry_of pre) as Hom.
  pose proof (zlen_nonneg (omap entry_of pre)).
  unfold counts_of in ps_counts0. injection ps_counts0 as Hc1 Hc2 Hc3.
  unfold on_record. apply wp_bind, wp_add_ovf; [lia|]. cbv zeta.
  assert (seen (pre ++ [r]) =
    pass_ok (omap entry_of pre ++ omap entry_of [r]) nothing (counts_of (pre ++ [r]))) as Hseen
    by (unfold seen; by rewrite omap_app).
  rewrite Hseen. unfold counts_of. rewrite omap_app, !zlen_app, List.filter_app, zlen_app.
  change (zlen [r]) with 1. cbn [omap list_omap List.filter].
  destruct (entry_of r) as [e|].
  - destruct Hr as (-> & He & Ho & ->). rewrite bind_Ok.
    eapply on_packet_spec; [done|done| |exact He|lia|exact Ho]. constructor; try done. cbn.
    rewrite Hc1, Hc2, Hc3. change (zlen [e]) with 1. change (zlen []) with 0. f_equal; [f_equal|]; lia.
  - rewrite Hr, bind_Ok, app_nil_r. unfold on_metadata. apply wp_bind, wp_add_ovf; [simpl; lia|].
    assert (zlen (List.filter is_secret pre) ≤ zlen pre) as Hsec
      by (unfold zlen; pose proof (List.filter_length_le is_secret pre); lia).
    apply wp_bind, (wp_mono _ (λ s, s = p_secrets st + zlen (if is_secret r then [r] else [])) _ (λ _, False));
      [| |done].
    + unfold is_secret. destruct (kind r); try (apply wp_ok; change (zlen []) with 0; simpl; lia).
      apply wp_add_ovf; [simpl; lia|done].
    + intros s ->. apply wp_ok. constructor; try done. simpl. rewrite Hc1, Hc2, Hc3.
      change (zlen []) with 0. do 2 f_equal. lia.
Qed.

(** ** The pass *)

Lemma pass_loop fuel it pre post st err :
  iter_ok it → terminal it = false → collect fuel it = Ok (post, err) → rs = pre ++ post → seen pre st →
  wp (loop fuel (pass_step c (sha_reference input)) (it, st))
     (λ st', err = None ∧ seen rs st') (λ e, err = Some e ∨ is_limit e).
Proof using All.
  revert it pre post st. induction fuel as [|fuel IH]; intros it pre post st Hit Ht Hc Hrs Hseen; [done|].
  cbn [collect] in Hc. rewrite loop_S. unfold pass_step at 2. cbv beta iota. pose proof (wp_next it Hit) as Hn.
  destruct (Capture.next it) as [[it' [[r|e]|]]|e| |]; try done; rewrite !bind_Ok in *; simpl in Hn.
  - apply bind_ok in Hc as ([post' err'] & Hc & [= <- <-]). destruct Hn as (_ & Hit' & Ht' & _).
    apply wp_bind, wp_bind. eapply wp_mono; [by eapply on_record_spec| |by right].
    intros st' Hst'. apply wp_ok. eapply IH; [done|done|exact Hc| |exact Hst']. by rewrite <- app_assoc.
  - injection Hc as <- <-. by left.
  - injection Hc as <- <-. apply wp_ok. split; [done|]. by rewrite Hrs, app_nil_r.
Qed.

Lemma finish_pass_spec es cs st :
  pass_ok es nothing cs st →
  wp (finish_pass st)
     (λ st', pass_ok es nothing cs st' ∧ Forall (λ p, nonterminal (disposition p) = false) (p_packets st'))
     (λ _, False).
Proof.
  intros Hok. pose proof Hok as []. pose proof ps_fragments0 as (_ & Hwf & _). unfold finish_pass. apply wp_bind.
  eapply wp_mono; [apply on_notices_spec; [exact Hok|]| |done].
  - apply Forall_forall. intros n ([k a] & -> & Hin)%list_elem_of_fmap.
    eapply ps_cited0, bt_elem_get; [done|exact Hin].
  - intros st' [Hok' Hcl].
    assert (Forall (λ p, nonterminal (disposition p) = false) (p_packets st')) as Hterm.
    { apply Forall_forall. intros p' (i & Hi)%list_elem_of_lookup.
      destruct (Forall2_lookup_r _ _ _ _ _ Hcl Hi) as (p & Hp & _ & Hin & Hout).
      set (ids := concat _) in *. destruct (decide (po_id p ∈ ids)) as [|Hn]; [auto|]. rewrite (Hout Hn).
      apply list_elem_of_lookup_2 in Hp. destruct (ps_accounted0 p Hp) as [[]|Ha]. unfold accounted in Ha.
      destruct (disposition p); try done; destruct Hn, Ha as (k & a & Ha%bt_get_elem & Hin');
        (apply elem_of_concat; exists (Fragment.a_packets a); split; [|done]; unfold Fragment.finish;
         change (map ?f ?l) with (f <$> l); rewrite <- list_fmap_compose; apply list_elem_of_fmap;
         by exists (k, a)). }
    assert (existsb (λ p, nonterminal (disposition p)) (p_packets st') = false) as ->.
    { apply not_true_is_false. intros (p & Hp%list_elem_of_In & Hn)%existsb_exists.
      eapply Forall_forall in Hterm; [|exact Hp]. simpl in Hterm. congruence. }
    apply wp_ok. split; [|done]. eapply pass_ok_owed; [|exact Hok']. by intros id [[] _].
Qed.
End pass.

(** ** What is made of the flows *)

(** Chunks with their positions inside the range of the program's integers. *)
Definition chunk_bounded (ch : StreamChunk) : Prop :=
  ev_ok (c_bytes ch) ∧ i64_min ≤ c_offset ch ∧ c_offset ch + zlen (data (c_bytes ch)) ≤ i64_max.

Lemma stream_bounded pol a st :
  asm_ok a → stream_post pol a st → Forall chunk_bounded (chunks st).
Proof.
  intros (Hl & Hmm & Hsp & Hsegs & _ & _ & _ & Hfin & _) [Hnil Hrec].
  limits_facts Hl. change (2 ^ 30) with 1073741824 in *.
  destruct (decide (segments a = [])) as [He|Hne]; [by rewrite (proj1 (Hnil He))|].
  destruct (Hrec Hne) as (lo & hi & (Hlo & Hhi & _) & [Hcs _] & _).
  assert (∀ k, (∃ i seg, nth_seg (segments a) i seg ∧ (s_start seg = k ∨ s_end seg = k)) ∨ extra_boundary a k →
               -1073741824 ≤ k ≤ 2147483648) as Hk.
  { intros k [(i & seg & [_ Hseg] & Hk)|[[_ ->]|Hk]]; [|lia|specialize (Hfin _ Hk); lia].
    pose proof (Forall_lookup_1 _ _ _ _ Hsegs Hseg) as (_ & Hs1 & Hs2). lia. }
  apply Hk in Hlo, Hhi. eapply Forall_impl; [exact Hcs|].
  intros ch (Hev & Hb1 & Hb2). unfold chunk_end in *. split_and!; [done|lia|lia].
Qed.

Definition flow_typed (f : FlowResult) : Prop :=
  ∀ d st, d = 0 ∨ d = 1 → sel (streams f) d = Some st → Forall chunk_bounded (chunks st).

Lemma flow_result_typed pol f r : flow_result pol f r → flow_typed r.
Proof.
  intros (_ & _ & _ & _ & _ & _ & _ & _ & Hs) d st Hd Hst. specialize (Hs d Hd). rewrite Hst in Hs.
  destruct Hs as (a & [Ha _] & Hp). by eapply stream_bounded.
Qed.

Lemma flow_typed_chunks f : flow_typed f → Forall chunk_bytes_ok (flow_chunks f).
Proof.
  intros Hf. unfold flow_chunks. apply Forall_app.
  assert (∀ ch, chunk_bounded ch → chunk_bytes_ok ch) as Hc by (by intros ch ([[Hb _] _] & _)).
  split; [destruct (streams f).1 as [st|] eqn:Hs|destruct (streams f).2 as [st|] eqn:Hs]; try constructor; simpl.
  - eapply Forall_impl; [apply (Hf 0 st); auto|done].
  - eapply Forall_impl; [apply (Hf 1 st); auto|done].
Qed.

(** Decoded applications hold evidence of machine size. *)
Lemma decoded_typed cs o : Forall chunk_bounded cs → Dnp3AppFacts.decoded cs o → result_typed o.
Proof.
  intros Hcs Hd. induction Hd as [|cs ch o o' Hd IH (Hfs & Hfrs & _)]; [by split; constructor|].
  apply Forall_app in Hcs as [Hcs [(_ & Hlo & Hhi) _]%Forall_cons]. destruct (IH Hcs) as [I1 I2].
  destruct Hfs as (fs & Hf & Hfs), Hfrs as (frs & Hr & Hfrs). unfold result_typed.
  rewrite Hf, Hr. split; apply Forall_app; split; try done.
  - eapply Forall_impl; [exact Hfs|]. intros f (p & n & Hp & Hn & _ & Hl & _ & _ & [Hty _] & _ & _ & Ho & _).
    split; [done|]. rewrite Ho. enough (0 ≤ n) by lia. destruct (Z.le_gt_cases 0 n) as [|Hneg]; [done|].
    unfold Prelude.sub in Hl. by rewrite Z2Nat.nonpos in Hl by lia.
  - eapply Forall_impl; [exact Hfrs|]. intros r (? & ? & ? & ? & ? & Hr').
    by destruct Hr' as (_ & _ & _ & _ & _ & _ & _ & _ & _ & _ & _ & _ & _ & _ & [Hty _]).
Qed.

Lemma framed_typed ch v role p ms q : framed ch v role p ms q → Forall (λ m, ev_typed (m_raw m)) ms.
Proof.
  revert p. induction ms as [|m ms IH]; intros p; simpl; [constructor|].
  intros [(_ & [Hty _] & _) H]. constructor; [done|by eapply IH].
Qed.

Lemma modbus_typed st role l out :
  limits_ok l → Forall chunk_bounded (chunks st) → Modbus.decode st role l = Ok out →
  Forall (λ m, ev_typed (m_raw m)) (Modbus.messages out).
Proof.
  intros Hl Hcs Hd.
  assert (Forall ModbusFacts.chunk_typed (chunks st)) as Hty
    by (eapply Forall_impl; [exact Hcs|]; intros ch (H1 & H2 & _); by split).
  pose proof (modbus_decode_spec st role l Hl Hty) as Hw. rewrite Hd in Hw.
  destruct Hw as (_ & parts & Hp & -> & _). clear Hd Hcs Hty.
  induction Hp as [|ch [ms iss] cs parts [(q & Hq & _) _] _ IH]; simpl; [constructor|].
  apply Forall_app. split; [by eapply framed_typed|done].
Qed.

(** An application is what the decoder of its protocol makes of one direction of a
    reported flow, and fails only for a budget or an unresolved selection. *)
Definition app_of (c : Config) (fs : list FlowResult) (x : ApplicationAnalysis) : Prop :=
  ∃ f st, f ∈ fs ∧ aa_flow x = fr_id f ∧ (aa_dir x = 0 ∨ aa_dir x = 1) ∧
    sel (streams f) (aa_dir x) = Some st ∧ chunks st ≠ [] ∧
    match app_data x with
    | Dnp3 o => protocol x = "dnp3" ∧ Dnp3App.decode st (Protocol.limits c) = Ok o
    | Modbus_ o => protocol x = "modbus" ∧
        Modbus.decode st (modbus_role c f (aa_dir x)) (Protocol.limits c) = Ok o
    | Failed e => protocol x = "ambiguous" ∨ is_limit e
    end.

Section conclude.
Context (c : Config).
Abbreviation l := (Protocol.limits c).
Context (Hl : limits_ok l) (Happ : max_application_bytes l ≤ i64_max).
Context (Hmsg : max_protocol_messages l ≤ i64_max).

Lemma app_of_typed fs x : Forall flow_typed fs → app_of c fs x → app_typed x.
Proof using Hl Happ.
  intros Hfs (f & st & Hf & _ & Hd & Hst & _ & Hx). eapply Forall_forall in Hfs; [|exact Hf].
  specialize (Hfs _ _ Hd Hst). unfold app_typed. destruct (app_data x) as [o|o|e]; [| |done].
  - destruct Hx as [_ Hx]. eapply decoded_typed; [exact Hfs|].
    eapply wp_value; [apply decode_spec; [done|done|]|exact Hx].
    eapply Forall_impl; [exact Hfs|]. intros ch ([Hty _] & Ho & _). by split.
  - destruct Hx as [_ Hx]. by eapply modbus_typed.
Qed.

Lemma dnp3_data_spec st :
  Forall chunk_bounded (chunks st) →
  wp (r ← catch (Dnp3App.decode st l);
      Ok (Some ("dnp3", match r with inl d => Dnp3 d | inr e => Failed e end)))
     (λ x, ∃ y, x = Some ("dnp3", y) ∧
        match y with Dnp3 o => Dnp3App.decode st l = Ok o | Modbus_ _ => False | Failed e => is_limit e end)
     (λ _, False).
Proof using Hl Happ.
  intros Hst. apply wp_bind, wp_catch. eapply wp_mono; [apply wp_eq, decode_spec; [done|done|]| |].
  - eapply Forall_impl; [exact Hst|]. intros ch ([Hty _] & Ho & _). by split.
  - intros o [_ Ho]. apply wp_ok. by exists (Dnp3 o).
  - intros e He. apply wp_ok. exists (Failed e). split; [done|].
    destruct He as [He|(_ & ch & Hin & Hv)]; [done|]. eapply Forall_forall in Hst; [|exact Hin].
    destruct Hst as ([_ Hv'] & _). congruence.
Qed.

Lemma modbus_data_spec st role :
  Forall chunk_bounded (chunks st) →
  wp (r ← catch (Modbus.decode st role l);
      Ok (Some ("modbus", match r with inl d => Modbus_ d | inr e => Failed e end)))
     (λ x, ∃ y, x = Some ("modbus", y) ∧
        match y with Modbus_ o => Modbus.decode st role l = Ok o | Dnp3 _ => False | Failed e => is_limit e end)
     (λ _, False).
Proof using Hl.
  intros Hst. apply wp_bind, wp_catch. eapply wp_mono; [apply wp_eq, modbus_decode_spec; [done|]| |].
  - eapply Forall_impl; [exact Hst|]. intros ch (Hty & Ho & _). by split.
  - intros o [_ Ho]. apply wp_ok. by exists (Modbus_ o).
  - intros e He. apply wp_ok. exists (Failed e). split; [done|].
    destruct He as [[-> | ->]|[-> _]]; by eexists.
Qed.

Lemma on_direction_spec fs f s apps dir :
  f ∈ fs → flow_typed f → (dir = 0 ∨ dir = 1) → Forall (app_of c fs) apps →
  wp (on_direction c f s apps dir) (Forall (app_of c fs)) (λ _, False).
Proof using Hl Happ.
  intros Hf Hty Hdir Happs. unfold on_direction. destruct (sel (streams f) dir) as [st|] eqn:Hst; [|done].
  destruct (Z.eqb_spec (zlen (chunks st)) 0) as [|Hz]; [done|].
  assert (chunks st ≠ []) as Hne by (intros Hn; by rewrite Hn in Hz).
  specialize (Hty _ _ Hdir Hst). apply wp_bind.
  apply (wp_mono _ (λ x, ∀ proto dat, x = Some (proto, dat) →
    app_of c fs {| aa_flow := fr_id f; aa_dir := dir; protocol := proto; app_data := dat |}) _ (λ _, False)); [| |done].
  - unfold dissect. destruct (_ && _); [|destruct (sel_dnp3 s); [|destruct (sel_modbus s); [|done]]].
    + apply wp_ok. intros proto dat [= <- <-]. exists f, st. split_and!; try done. by left.
    + eapply wp_mono; [by apply dnp3_data_spec| |done]. intros x (y & -> & Hy) proto dat [= <- <-].
      exists f, st. split_and!; try done. simpl. destruct y; [done|done|by right].
    + eapply wp_mono; [by apply modbus_data_spec| |done]. intros x (y & -> & Hy) proto dat [= <- <-].
      exists f, st. split_and!; try done. simpl. destruct y; [done|done|by right].
  - intros [[proto dat]|] Hx; [|done]. apply wp_ok, Forall_app. split; [done|].
    constructor; [by apply Hx|constructor].
Qed.

Lemma on_flows_spec fs :
  Forall flow_typed fs → wp (foldM (on_flow c) [] fs) (Forall (app_of c fs)) (λ _, False).
Proof using Hl Happ.
  intros Hfs. apply (wp_foldM (λ _ apps, Forall (app_of c fs) apps)) with (done := []); [|constructor|done].
  intros pre f post apps Heq Happs. rewrite app_nil_l in Heq.
  assert (f ∈ fs) as Hin by (rewrite Heq; apply elem_of_app; right; apply list_elem_of_here).
  assert (flow_typed f) as Hf by (by eapply Forall_forall in Hfs).
  unfold on_flow. destruct (classify_flow_spec f c) as (s & -> & _); [by apply flow_typed_chunks|].
  rewrite bind_Ok. apply (wp_foldM (λ _ apps, Forall (app_of c fs) apps)) with (done := []); [|done|done].
  intros pre' d post' apps' Hd Happs'. apply on_direction_spec; try done.
  assert (d ∈ [0; 1]) as Hin' by (rewrite app_nil_l in Hd; rewrite Hd; apply elem_of_app; right; apply list_elem_of_here).
  apply elem_of_cons in Hin' as [->|Hin'%list_elem_of_singleton]; auto.
Qed.

(** The rows of the analysis account for all its messages, or a budget was used up. *)
Definition correlated (a : Analysis) : Prop :=
  match correlation_error a with
  | None => transactions (applications a) l = Ok (a_transactions a) ∧
            concat (row_refs <$> a_transactions a) ≡ₚ all_refs (applications a)
  | Some e => is_limit e ∧ a_transactions a = []
  end ∧
  match confirmation_error a with
  | None => dnp3_confirmation_candidates (applications a) l = Ok (Engine.confirmation_candidates a)
  | Some e => Errors.code e = LimitExceeded ∧ Engine.confirmation_candidates a = []
  end.

Lemma caught_transactions apps :
  Forall app_typed apps →
  wp (catch (transactions apps l))
     (λ x, match x with
           | inl rows => transactions apps l = Ok rows ∧ concat (row_refs <$> rows) ≡ₚ all_refs apps
           | inr e => is_limit e
           end) (λ _, False).
Proof using Hl Happ Hmsg.
  intros Hty. apply wp_catch. eapply wp_mono; [apply wp_eq, transactions_spec; [|done..]| |done].
  - split; [|done]. limits_facts Hl. lia.
  - intros rows [(_ & _ & _ & _ & _ & _ & _ & Hp & _) Heq]. done.
Qed.

Lemma caught_confirmations apps :
  Forall app_typed apps →
  wp (catch (dnp3_confirmation_candidates apps l))
     (λ x, match x with
           | inl rows => dnp3_confirmation_candidates apps l = Ok rows
           | inr e => Errors.code e = LimitExceeded
           end) (λ _, False).
Proof using Hl Happ Hmsg.
  intros Hty. apply wp_catch. eapply wp_mono; [apply wp_eq, confirmations_spec; [|done..]| |done].
  - split; [|done]. limits_facts Hl. lia.
  - by intros rows [_ Heq].
Qed.

Lemma conclude_spec input identity st :
  tracker_ok (p_tracker st) →
  wp (conclude c input identity st)
     (λ a, Forall2 (flow_result (overlap_policy c)) (flows (p_tracker st)) (a_flows a) ∧
        Forall (app_of c (a_flows a)) (applications a) ∧ correlated a ∧
        capture_sha256 a = identity ∧ capture_bytes a = zlen input ∧ config a = c ∧
        (a_records a, metadata_records a, secret_blocks a) = (p_records st, p_metadata st, p_secrets st) ∧
        a_packets a = p_packets st ∧ datagrams a = p_datagrams st ∧ fragment_notices a = p_notices st)
     (λ _, False).
Proof using All.
  intros Ht. unfold conclude. cbv zeta. apply wp_bind.
  eapply wp_mono; [by apply tracker_finish_spec| |done]. intros fs Hfs.
  assert (Forall flow_typed fs) as Hty.
  { apply Forall_forall. intros r (i & Hi)%list_elem_of_lookup.
    destruct (Forall2_lookup_r _ _ _ _ _ Hfs Hi) as (f & _ & Hr). by eapply flow_result_typed. }
  apply wp_bind. eapply wp_mono; [by apply on_flows_spec| |done]. intros apps Happs.
  assert (Forall app_typed apps) as Htyped by (eapply Forall_impl; [exact Happs|]; intros x; by apply app_of_typed).
  apply wp_bind. eapply wp_mono; [by apply caught_transactions| |done]. intros rows Hrows.
  apply wp_bind. eapply wp_mono; [by apply caught_confirmations| |done]. intros cands Hcands.
  apply wp_ok. split_and!; try done. unfold correlated; simpl. split; [by destruct rows|by destruct cands].
Qed.
End conclude.

(** ** The analysis *)

(** Configurations the program can hold; a budget beyond [i64] bounds nothing. *)
Definition config_typed (c : Config) : Prop :=
  limits_typed (Protocol.limits c) ∧ max_application_bytes (Protocol.limits c) ≤ i64_max ∧
  max_protocol_messages (Protocol.limits c) ≤ i64_max ∧
  zlen (dnp3_ports c) ≤ i64_max ∧ zlen (modbus_ports c) ≤ i64_max.

Lemma config_validate_spec c :
  config_typed c →
  wp (config_validate c) (λ _, limits_ok (Protocol.limits c) ∧ 0 < idle_timeout_ns c)
     (λ e, config_validate c = Err e).
Proof.
  intros (Hty & _ & _ & H1 & H2). unfold config_validate.
  destruct (Errors.validate (Protocol.limits c)) as [u|e| |] eqn:Hv; rewrite ?bind_Ok; try done.
  - destruct (Z.leb_spec (idle_timeout_ns c) 0); [done|]. destruct (existsb _ _); [done|].
    rewrite add_ovf_ok, bind_Ok by lia. destruct (_ <? _); [done|]. split; [|done]. by eapply validate_limits_ok.
  - revert Hv. unfold Errors.validate. by repeat case_match.
  - revert Hv. unfold Errors.validate. by repeat case_match.
Qed.

(** A packet has an outcome, and a TCP packet is in the flow it names. *)
Definition resolved (fs : list FlowResult) (p : PacketObservation) : Prop :=
  nonterminal (disposition p) = false ∧
  ∀ flow dir, disposition p = DTcp flow dir →
    (dir = 0 ∨ dir = 1) ∧ ∃ r, get fs flow = Some r ∧ fr_id r = flow ∧ po_id p ∈ fr_packets r.

Lemma accounted_resolved pol fr t fs p :
  tracker_ok t → Forall2 (flow_result pol) (flows t) fs → nonterminal (disposition p) = false →
  accounted fr (flows t) p → resolved fs p.
Proof.
  intros (_ & _ & _ & _ & _ & _ & _ & _ & Hgen) Hfs Hn Ha. split; [done|]. intros flow dir Hd.
  unfold accounted in Ha. rewrite Hd in Ha. destruct Ha as (Hdir & f & [H0 Hf]%get_Some & Hin). split; [done|].
  destruct (Forall2_lookup_l _ _ _ _ _ Hfs Hf) as (r & Hr & Hres). exists r.
  destruct Hres as (Hid & _ & _ & _ & _ & _ & _ & Hp & _). split_and!; [by apply get_Some| |by apply Hp].
  rewrite Hid. destruct (Hgen _ _ Hf) as [-> _]. lia.
Qed.

(** What an analysis says of the records of the capture. *)
Definition accounts (input : list Z) (c : Config) (rs : list CapRecord) (a : Analysis) : Prop :=
  capture_sha256 a = sha_reference input ∧ capture_bytes a = zlen input ∧ config a = c ∧
  a_records a = zlen rs ∧ metadata_records a = zlen rs - zlen (a_packets a) ∧
  secret_blocks a = zlen (List.filter is_secret rs) ∧
  Forall2 (observed_as input) (omap entry_of rs) (a_packets a) ∧
  Forall (resolved (a_flows a)) (a_packets a) ∧
  Forall (app_of c (a_flows a)) (applications a) ∧ correlated c a.

(** The pass and the conclusion, over the records the iterator returns. *)
Lemma pass_spec input c it rs err t :
  bytes_ok input → zlen input ≤ i64_max → config_typed c → limits_ok (Protocol.limits c) →
  capture_iter_new input (Protocol.limits c) (parse_mode c) = Ok it →
  collect (S (S (length input))) it = Ok (rs, err) →
  tracker_ok t → flows t = [] →
  wp (st ← loop (S (S (length input))) (pass_step c (sha_reference input))
             (it, {| p_fragments := reassembler_new (Protocol.limits c); p_tracker := t; p_packets := [];
                     p_notices := []; p_datagrams := []; udp_retained := 0; p_records := 0;
                     p_metadata := 0; p_secrets := 0 |});
      st ← finish_pass st;
      conclude c input (sha_reference input) st)
     (λ a, err = None ∧ concat (raw <$> rs) = input ∧ accounts input c rs a)
     (λ e, err = Some e ∨ is_limit e).
Proof.
  intros Hb Hlen (Hty & Happ & Hmsg & _) Hl Hnew Hc Ht Hfs.
  destruct (capture_iter_lossless_spec input _ _ it Hb Hlen Hty Hnew)
    as (rs' & err' & Hc' & T & N & P & M & Hall).
  rewrite Hc in Hc'. injection Hc' as <- <-.
  destruct (capture_iter_new_ok input _ _ it Hb Hlen Hty Hnew) as (Hit & Hterm & _).
  apply wp_bind. eapply wp_mono;
    [eapply (pass_loop input c Hl Happ Hb Hlen rs T N P M _ it [] rs _ err Hit Hterm Hc eq_refl)| |done].
  { constructor; try done; simpl; [by apply reassembler_new_ok|by intros p ?%not_elem_of_nil]. }
  intros st [-> Hst]. apply wp_bind. eapply wp_mono; [by apply finish_pass_spec| |done].
  intros st' [Hst' Hout]. pose proof Hst' as []. eapply wp_mono; [by apply conclude_spec| |done].
  intros a (Hflows & Happs & Hcorr & Hsha & Hcb & Hcfg & Hcounts & Hpk & _ & _).
  split_and!; [done|by apply Hall|]. unfold accounts. rewrite Hpk.
  pose proof (Forall2_length _ _ _ ps_observed0) as Hpl. unfold counts_of in ps_counts0. rewrite ps_counts0 in Hcounts.
  injection Hcounts as C1 C2 C3. split_and!; try done.
  - rewrite C2. unfold zlen. by rewrite Hpl.
  - apply Forall_forall. intros p Hp. eapply Forall_forall in Hout; [|exact Hp].
    destruct (ps_accounted0 p Hp) as [[]|Ha]. by eapply accounted_resolved.
Qed.

(** C1: the analysis accounts for every packet.  On every input and configuration
    [analyze] terminates without aborting.  If it returns a result, the capture was
    read to its last byte; the observations are exactly its packets, in order, with
    their identities, positions and digests; none is left without an outcome, and a
    packet assigned to a TCP flow is cited by the reported flow of that number; the
    applications are what the decoders make of the reported streams; and the
    transactions account for all their messages.  Otherwise the configuration is
    invalid, the capture cannot be decoded, or a budget is used up: the invariant
    errors of the program (packet identity, numbering, conservation) never occur. *)
Theorem analyze_total (input : list Z) (c : Config) :
  bytes_ok input → zlen input ≤ i64_max → config_typed c →
  wp (analyze input c)
     (λ a, ∃ it rs, capture_iter_new input (Protocol.limits c) (parse_mode c) = Ok it ∧
        collect (S (S (length input))) it = Ok (rs, None) ∧
        concat (raw <$> rs) = input ∧ accounts input c rs a)
     (λ e, is_limit e ∨ config_validate c = Err e ∨
        ∃ it rs, capture_iter_new input (Protocol.limits c) (parse_mode c) = Ok it ∧
          collect (S (S (length input))) it = Ok (rs, Some e)).
Proof.
  intros Hb Hlen Hc. pose proof Hc as (Hty & _). unfold analyze. apply wp_bind.
  eapply wp_mono; [by apply config_validate_spec| |by auto]. intros u [Hl Hidle].
  destruct (Z.ltb_spec (max_input_bytes (Protocol.limits c)) (zlen input)) as [|Hmax]; [left; by eexists|].
  rewrite digest_ok, bind_Ok.
  pose proof (tracker_new_spec (Protocol.limits c) (idle_timeout_ns c) Hty) as Ht. revert Ht.
  unfold tracker_new. rewrite limits_ok_validate, bind_Ok by done.
  rewrite (proj2 (Z.leb_gt _ _) Hidle), bind_Ok. intros Ht.
  destruct (capture_iter_new input (Protocol.limits c) (parse_mode c)) as [it| | |] eqn:Hnew;
    try (exfalso; revert Hnew; unfold capture_iter_new, decoder_new;
         by rewrite (proj2 (Z.ltb_ge _ _) Hmax), limits_ok_validate by done).
  destruct (capture_iter_lossless_spec input _ _ it Hb Hlen Hty Hnew) as (rs & err & Hcol & _).
  rewrite bind_Ok. eapply wp_mono; [by eapply pass_spec| |].
  - intros a (-> & Hraw & Ha). by exists it, rs.
  - intros e [-> |He]; [|by left]. right; right. by exists it, rs.
Qed.

(** ** Witness *)

(** A capture of one Ethernet frame that carries a TCP segment. *)
Definition sample_frames : list Z :=
  CaptureFacts.sample_header ++ [5; 0; 0; 0; 6; 0; 0; 0; 58; 0; 0; 0; 58; 0; 0; 0] ++ sample_frame.

Example sample_analysis :
  (a ← analyze sample_frames config_default;
   Ok (a_records a, metadata_records a, disposition <$> a_packets a, fr_id <$> a_flows a, has_diagnostics a)) =
  Ok (2, 1, [DTcp 0 0], [0], true).
Proof. by vm_compute. Qed.

Lemma sample_frames_ok : bytes_ok sample_frames.
Proof.
  eapply (forallb_Forall_impl (λ b, (0 <=? b) && (b <? 256))); [|by vm_compute].
  intros b [H0 H1]%andb_true_iff. split; [by apply Z.leb_le|by apply Z.ltb_lt].
Qed.

Lemma config_default_typed : config_typed config_default.
Proof. split_and!; [apply limits_default_ok|by vm_compute..]. Qed.

Lemma analyze_total_witness :
  wp (analyze sample_frames config_default)
     (λ a, ∃ it rs, capture_iter_new sample_frames (Protocol.limits config_default) (parse_mode config_default) = Ok it ∧
        collect (S (S (length sample_frames))) it = Ok (rs, None) ∧
        concat (raw <$> rs) = sample_frames ∧ accounts sample_frames config_default rs a)
     (λ e, is_limit e ∨ config_validate config_default = Err e ∨
        ∃ it rs, capture_iter_new sample_frames (Protocol.limits config_default) (parse_mode config_default) = Ok it ∧
          collect (S (S (length sample_frames))) it = Ok (rs, Some e)).
Proof.
  apply (analyze_total sample_frames config_default); [apply sample_frames_ok|by vm_compute|apply config_default_typed].
Defined.
