(* ===== verification/Codec.v ===== *)
(** * The history codec ([src/history/src/codec.rs])

    A canonical little-endian, length-delimited encoding.  The encoder appends to its
    buffer; the decoder moves a position through the bytes it was given.  Strings are
    their UTF-8 octets.  [Codec] is the contract between this file and the formats
    built on it: what was written is read back, and what is read was written so. *)

From S2P Require Import Prelude Errors Stateful Json.

(** [bad] of lib.rs. *)
Definition bad (fld detail : string) : Error := error_new Invariant 0 fld detail.

(** ** [Encoder] *)

Definition put_u8 (e : list Z) (v : Z) : list Z := e ++ [v].
Definition put_u16 (e : list Z) (v : Z) : list Z := e ++ to_le_bytes 2 v.
Definition put_u32 (e : list Z) (v : Z) : list Z := e ++ to_le_bytes 4 v.
Definition put_u64 (e : list Z) (v : Z) : list Z := e ++ to_le_bytes 8 v.
Definition put_i64 (e : list Z) (v : Z) : list Z := e ++ to_le_bytes 8 (as_unsigned 64 v).
Definition put_i128 (e : list Z) (v : Z) : list Z := e ++ to_le_bytes 16 (as_unsigned 128 v).
Definition put_hash (e v : list Z) : list Z := e ++ v.
Definition put_bool (e : list Z) (v : bool) : list Z := put_u8 e (Z.b2z v).
Definition put_bytes (e b : list Z) : result (list Z) :=
  if u32_max <? zlen b then Err (limit "history_blob") else Ok (put_u32 e (zlen b) ++ b).
Definition put_text (e v : list Z) : result (list Z) := put_bytes e v.
Definition put_option {A} (put : list Z → A → list Z) (e : list Z) (v : option A) : list Z :=
  let e := put_bool e (if v then true else false) in
  match v with Some n => put e n | None => e end.
Definition put_option_u32 : list Z → option Z → list Z := put_option put_u32.
Definition put_option_i64 : list Z → option Z → list Z := put_option put_i64.
Definition put_option_i128 : list Z → option Z → list Z := put_option put_i128.

(** ** [Decoder] *)

Record Decoder : Type := { d_bytes : list Z; d_at : Z }.
Definition decoder_new (b : list Z) : Decoder := {| d_bytes := b; d_at := 0 |}.
Definition Reading : Type → Type := Stateful Decoder.

(** [Decoder::take]. *)
Definition take (n : Z) : Reading (list Z) := λ d,
  match checked_add usize_max (d_at d) n with
  | None => (d, Err (limit "history_offset"))
  | Some stop =>
      if stop <=? zlen (d_bytes d)
      then ({| d_bytes := d_bytes d; d_at := stop |}, Ok (sub (d_bytes d) (d_at d) stop))
      else (d, Err (bad "history_record" "truncated field"))
  end.
Definition get_u8 : Reading Z := l ← take 1; lift (idx l 0).
Definition get_bool : Reading bool :=
  v ← get_u8;
  if v =? 0 then mret false
  else if v =? 1 then mret true
  else throw (bad "history_bool" "noncanonical boolean").
Definition get_le (n : Z) : Reading Z := l ← take n; mret (from_le_bytes l).
Definition get_u16 : Reading Z := get_le 2.
Definition get_u32 : Reading Z := get_le 4.
Definition get_u64 : Reading Z := get_le 8.
Definition get_i64 : Reading Z := v ← get_le 8; mret (as_signed 64 v).
Definition get_i128 : Reading Z := v ← get_le 16; mret (as_signed 128 v).
Definition get_hash : Reading (list Z) := take 32.
Definition get_bytes (max : Z) : Reading (list Z) :=
  n ← get_u32;
  if max <? n then throw (limit "history_blob") else take n.

(** [std::str::from_utf8]: the characters the octets encode, the shortest way and without
    surrogates. *)
Definition tail_octet (x : Z) : bool := (0x80 <=? x) && (x <=? 0xbf).
Definition utf8_3 (x y : Z) : bool :=
  if x =? 0xe0 then (0xa0 <=? y) && (y <=? 0xbf)
  else if x =? 0xed then (0x80 <=? y) && (y <=? 0x9f)
  else (0xe1 <=? x) && (x <=? 0xef) && tail_octet y.
Definition utf8_4 (x y : Z) : bool :=
  if x =? 0xf0 then (0x90 <=? y) && (y <=? 0xbf)
  else if x =? 0xf4 then (0x80 <=? y) && (y <=? 0x8f)
  else (0xf1 <=? x) && (x <=? 0xf3) && tail_octet y.
Fixpoint utf8_chars (b : list Z) : option (list Z) :=
  match b with
  | [] => Some []
  | x :: r =>
      if x <? 0x80 then cons x <$> utf8_chars r else
      match r with
      | [] => None
      | y :: r =>
          if (0xc2 <=? x) && (x <=? 0xdf) && tail_octet y
          then cons ((x - 0xc0) * 64 + (y - 0x80)) <$> utf8_chars r else
          match r with
          | [] => None
          | z :: r =>
              if utf8_3 x y && tail_octet z
              then cons ((x - 0xe0) * 4096 + (y - 0x80) * 64 + (z - 0x80)) <$> utf8_chars r else
              match r with
              | [] => None
              | w :: r =>
                  if utf8_4 x y && tail_octet z && tail_octet w
                  then cons ((x - 0xf0) * 262144 + (y - 0x80) * 4096 + (z - 0x80) * 64 + (w - 0x80)) <$> utf8_chars r
                  else None
              end
          end
      end
  end.
Definition utf8 (b : list Z) : bool := if utf8_chars b then true else false.
Definition get_text (max : Z) : Reading (list Z) :=
  b ← get_bytes max;
  if utf8 b then mret b else throw (bad "history_text" "invalid UTF-8").
Definition get_option {A} (get : Reading A) : Reading (option A) :=
  present ← get_bool;
  if (present : bool) then n ← get; mret (Some n) else mret None.
Definition get_option_u32 : Reading (option Z) := get_option get_u32.
Definition get_option_i64 : Reading (option Z) := get_option get_i64.
Definition get_option_i128 : Reading (option Z) := get_option get_i128.

(** [Decoder::finish]. *)
Definition finish : Reading unit := λ d,
  (d, if d_at d =? zlen (d_bytes d) then Ok () else Err (bad "history_record" "trailing bytes")).

(** [(0..n).map(|_| get(d)).collect()]. *)
Fixpoint get_times {A} (n : nat) (get : Reading A) : Reading (list A) :=
  match n with
  | O => mret []
  | S n => a ← get; l ← get_times n get; mret (a :: l)
  end.

(** A decoder of whole inputs. *)
Definition decode_all {A} (get : Reading A) (b : list Z) : result A := (get (decoder_new b)).2.

(** A sequence after its length, which must not exceed [max]. *)
Definition get_counted {A} (count : Reading Z) (max : Z) (e : Error) (get : Reading A) : Reading (list A) :=
  n ← count;
  if max <? n then throw e else get_times (Z.to_nat n) get.
