(* ===== verification/CodecFacts.v ===== *)
(** * Laws of the history codec

    [Codec get put valid]: [get] reads what [put] writes of a [valid] value, and whatever it
    reads is valid and was written so.  The laws of composed formats follow field by
    field; a whole input is decoded exactly when it is the encoding of a valid value. *)

From S2P Require Import Prelude Errors Stateful Codec.

(** ** Positions *)

Definition in_bounds (d : Decoder) : Prop :=
  0 ≤ d_at d ≤ zlen (d_bytes d) ∧ bytes_ok (d_bytes d) ∧ zlen (d_bytes d) ≤ i64_max.
Definition skip (d : Decoder) (n : Z) : Decoder := {| d_bytes := d_bytes d; d_at := d_at d + n |}.

(** The octets [w] are next. *)
Definition ahead (d : Decoder) (w : list Z) : Prop :=
  d_at d + zlen w ≤ zlen (d_bytes d) ∧ sub (d_bytes d) (d_at d) (d_at d + zlen w) = w.

Lemma skip_skip d n k : skip (skip d n) k = skip d (n + k).
Proof. unfold skip. simpl. f_equal. lia. Qed.
Lemma skip_0 d : skip d 0 = d.
Proof. destruct d. unfold skip. simpl. f_equal. lia. Qed.

Lemma in_bounds_skip d w : in_bounds d → ahead d w → in_bounds (skip d (zlen w)).
Proof.
  intros (Hat & Hb & Hl) [Hw _]. pose proof (zlen_nonneg w). split; [simpl; lia|done].
Qed.

Lemma ahead_nil d : in_bounds d → ahead d [].
Proof. intros (Hat & _). split; rewrite zlen_nil, Z.add_0_r; [lia|]. apply sub_empty. Qed.

Lemma ahead_app d v w : in_bounds d → ahead d (v ++ w) ↔ ahead d v ∧ ahead (skip d (zlen v)) w.
Proof.
  intros (Hat & _). unfold ahead. simpl. rewrite zlen_app.
  pose proof (zlen_nonneg v). pose proof (zlen_nonneg w). split.
  - intros [Hl Hs].
    rewrite (sub_split (d_bytes d) (d_at d) (d_at d + zlen v) (d_at d + (zlen v + zlen w))) in Hs by lia.
    apply app_inj_1 in Hs as [Hv Hw]; [|apply Nat2Z.inj; change (zlen (sub (d_bytes d) (d_at d) (d_at d + zlen v)) = zlen v); rewrite zlen_sub; lia].
    replace (d_at d + zlen v + zlen w) with (d_at d + (zlen v + zlen w)) by lia. split; split; done || lia.
  - intros [[Hl1 Hv] [Hl2 Hw]]. split; [lia|].
    rewrite (sub_split (d_bytes d) (d_at d) (d_at d + zlen v) (d_at d + (zlen v + zlen w))) by lia.
    rewrite Hv. f_equal. by replace (d_at d + (zlen v + zlen w)) with (d_at d + zlen v + zlen w) by lia.
Qed.

Lemma ahead_skip d v w : in_bounds d → ahead d v → ahead (skip d (zlen v)) w → ahead d (v ++ w).
Proof. intros Hd Hv Hw. by apply ahead_app. Qed.

(** ** The contract *)

Class Codec {A} (get : Reading A) (put : A → list Z) (valid : A → Prop) : Prop := {
  codec_complete a d :
    valid a → in_bounds d → ahead d (put a) → get d = (skip d (zlen (put a)), Ok a);
  codec_canonical d :
    in_bounds d → swp get d (λ d' a, valid a ∧ ahead d (put a) ∧ d' = skip d (zlen (put a))) (λ _ _, True);
}.
#[global] Hint Mode Codec - ! - - : typeclass_instances.

(** The laws at a bind. *)
Section steps.
Context {A B : Type} {get : Reading A} {put : A → list Z} {valid : A → Prop} `{!Codec get put valid}.

Lemma complete_step (k : A → Reading B) a d rest r :
  valid a → in_bounds d → ahead d (put a ++ rest) →
  (in_bounds (skip d (zlen (put a))) → ahead (skip d (zlen (put a))) rest → k a (skip d (zlen (put a))) = r) →
  (get ≫= k) d = r.
Proof.
  intros Ha Hd [H1 H2]%ahead_app Hk; [|done]. unfold mbind, stateful_bind.
  rewrite (codec_complete a d Ha Hd H1). apply Hk; [by apply in_bounds_skip|done].
Qed.

Lemma canonical_step (k : A → Reading B) d (Q : Decoder → B → Prop) :
  in_bounds d →
  (∀ a, valid a → ahead d (put a) → in_bounds (skip d (zlen (put a))) →
     swp (k a) (skip d (zlen (put a))) Q (λ _ _, True)) →
  swp (get ≫= k) d Q (λ _ _, True).
Proof.
  intros Hd Hk. apply swp_bind. eapply swp_mono; [by apply codec_canonical| |done].
  intros d' a (Ha & Hw & ->). apply Hk; [done|done|by apply in_bounds_skip].
Qed.
End steps.

(** A value that is checked after it was read. *)
Lemma codec_checked {A} (get : Reading A) put valid (c : A → bool) (e : A → Error) :
  Codec get put valid →
  Codec (a ← get; if c a then mret a else throw (e a)) put (λ a, valid a ∧ c a = true).
Proof.
  intros Hc. constructor.
  - intros a d [Ha Ht] Hd Hw. unfold mbind, stateful_bind. by rewrite (codec_complete a d Ha Hd Hw), Ht.
  - intros d Hd. apply canonical_step; [done|]. intros a Ha Hw _. destruct (c a) eqn:Ht; [|done]. by apply swp_ret.
Qed.

(** A value in another form. *)
Lemma codec_iso {A B} (get : Reading A) (get' : Reading B) put valid (f : A → B) (g : B → A) (valid' : B → Prop) :
  Codec get put valid → (∀ d, in_bounds d → get' d = (a ← get; mret (f a)) d) →
  (∀ b, valid' b → valid (g b) ∧ f (g b) = b) → (∀ a, valid a → valid' (f a) ∧ g (f a) = a) →
  Codec get' (λ b, put (g b)) valid'.
Proof.
  intros Hc Heq Hfg Hgf. constructor.
  - intros b d Hb Hd Hw. destruct (Hfg b Hb) as [Hv Hid]. rewrite (Heq d Hd). unfold mbind, stateful_bind.
    rewrite (codec_complete (g b) d Hv Hd Hw). simpl. unfold mret, stateful_ret. by rewrite Hid.
  - intros d Hd. enough (swp (a ← get; mret (f a)) d (λ d' b, valid' b ∧ ahead d (put (g b)) ∧ d' = skip d (zlen (put (g b)))) (λ _ _, True)) as H
      by (unfold swp in *; by rewrite (Heq d Hd)).
    apply canonical_step; [done|]. intros a Ha Hw _. apply swp_ret. destruct (Hgf a Ha) as [Hv Hid]. by rewrite Hid.
Qed.

(** ** Primitive formats *)

#[global] Instance take_codec n : 0 ≤ n ≤ i64_max → Codec (take n) (λ l, l) (λ l, zlen l = n ∧ bytes_ok l).
Proof.
  intros Hn. constructor.
  - intros l d [Hl Hb] (Hat & _ & Hmax) [Hw Hs]. unfold take, checked_add. rewrite Hl in *.
    rewrite (proj2 (Z.leb_le _ usize_max)), (proj2 (Z.leb_le _ (zlen _))) by lia. unfold skip. by rewrite Hs.
  - intros d (Hat & Hb & Hmax). unfold take, swp, checked_add. rewrite (proj2 (Z.leb_le _ usize_max)) by lia.
    destruct (Z.leb_spec (d_at d + n) (zlen (d_bytes d))); [|done]. cbn [fst snd wp].
    assert (zlen (sub (d_bytes d) (d_at d) (d_at d + n)) = n) as Hz by (rewrite zlen_sub; lia).
    split; [split; [done|by apply bytes_ok_sub]|]. unfold ahead, skip. rewrite Hz. split; [|done]. split; [lia|done].
Qed.

Lemma get_le_codec n :
  0 ≤ n ≤ 100 → Codec (get_le n) (to_le_bytes (Z.to_nat n)) (λ v, 0 ≤ v < 256 ^ n).
Proof.
  intros Hn. pose proof (take_codec n ltac:(lia)) as Ht. constructor.
  - intros v d Hv Hd Hw. unfold get_le. eapply (complete_step (get := take n) _ (to_le_bytes (Z.to_nat n) v) d []).
    + split; [unfold zlen; rewrite length_to_le_bytes; lia|apply to_le_bytes_ok].
    + done.
    + by rewrite app_nil_r.
    + intros _ _. unfold mret, stateful_ret. rewrite from_to_le, Z2Nat.id, Z.mod_small by lia. done.
  - intros d Hd. unfold get_le. apply canonical_step; [done|]. intros l [Hl Hb] Hw _. apply swp_ret.
    pose proof (from_le_bound l Hb) as Hr. rewrite Hl in Hr. split; [done|].
    assert (to_le_bytes (Z.to_nat n) (from_le_bytes l) = l) as ->; [|done].
    replace (Z.to_nat n) with (length l) by (unfold zlen in Hl; lia). by apply to_from_le.
Qed.

(** The same contract in other words. *)
Lemma codec_ext {A} (get : Reading A) put put' valid valid' :
  Codec get put valid → (∀ a, valid a ↔ valid' a) → (∀ a, valid a → put a = put' a) → Codec get put' valid'.
Proof.
  intros Hc Hv Hp. constructor.
  - intros a d Ha Hd Hw. apply Hv in Ha. rewrite <- Hp in Hw |- * by done. by apply codec_complete.
  - intros d Hd. eapply swp_mono; [by apply codec_canonical| |done]. intros d' a (Ha & Hw & ->).
    rewrite <- Hp by done. by split; [apply Hv|].
Qed.

#[global] Instance get_u16_codec : Codec get_u16 (to_le_bytes 2) (λ v, 0 ≤ v ≤ u16_max).
Proof. eapply codec_ext; [apply (get_le_codec 2); lia|intros a; simpl; lia|done]. Qed.
#[global] Instance get_u32_codec : Codec get_u32 (to_le_bytes 4) (λ v, 0 ≤ v ≤ u32_max).
Proof. eapply codec_ext; [apply (get_le_codec 4); lia|intros a; simpl; lia|done]. Qed.
#[global] Instance get_u64_codec : Codec get_u64 (to_le_bytes 8) (λ v, 0 ≤ v ≤ u64_max).
Proof. eapply codec_ext; [apply (get_le_codec 8); lia|intros a; simpl; lia|done]. Qed.

#[global] Instance get_u8_codec : Codec get_u8 (λ v, [v]) is_byte.
Proof.
  unfold get_u8. apply (codec_iso (take 1) _ (λ l, l) (λ l, zlen l = 1 ∧ bytes_ok l) (λ l, nthz l 0) (λ v, [v])); [apply take_codec; lia|..].
  - intros d (Hat & _ & Hl). unfold take, mbind, stateful_bind.
    destruct (checked_add _ _ _) as [stop|] eqn:Hs; [|done].
    apply checked_add_Some in Hs as [-> _]. destruct (Z.leb_spec (d_at d + 1) (zlen (d_bytes d))); [|done].
    unfold lift, mret, stateful_ret. f_equal. apply idx_ok. rewrite zlen_sub; lia.
  - intros v Hv. by repeat constructor; try apply Hv.
  - intros [|x [|y l]] [Hl Hb]; unfold zlen in Hl; simpl in Hl; try lia. split; [|done]. by apply Forall_inv in Hb.
Qed.

#[global] Instance get_bool_codec : Codec get_bool (λ v, [Z.b2z v]) (λ _, True).
Proof.
  constructor.
  - intros v d _ Hd Hw. unfold get_bool. eapply (complete_step _ (Z.b2z v) d []); [destruct v; by compute|done|by rewrite app_nil_r|].
    intros _ _. by destruct v.
  - intros d Hd. unfold get_bool. apply canonical_step; [done|]. intros v Hv Hw _.
    apply swp_if; intros H0; [|apply swp_if; intros H1; [|done]]; apply swp_ret.
    + by apply Z.eqb_eq in H0 as ->.
    + by apply Z.eqb_eq in H1 as ->.
Qed.

(** Two's complement. *)
Lemma as_signed_unsigned w v : 1 ≤ w → - 2 ^ (w - 1) ≤ v < 2 ^ (w - 1) → as_signed w (as_unsigned w v) = v.
Proof.
  intros Hw Hv. assert (2 ^ w = 2 * 2 ^ (w - 1)) as H2 by (rewrite <- Z.pow_succ_r by lia; f_equal; lia).
  unfold as_signed, as_unsigned. destruct (decide (0 ≤ v)).
  - rewrite Z.mod_small by lia. by rewrite (proj2 (Z.ltb_lt _ _)) by lia.
  - assert (v mod 2 ^ w = v + 2 ^ w) as -> by (symmetry; apply Z.mod_unique with (-1); lia).
    rewrite (proj2 (Z.ltb_ge _ _)) by lia. lia.
Qed.

Lemma as_unsigned_signed w v : 1 ≤ w → 0 ≤ v < 2 ^ w → as_unsigned w (as_signed w v) = v.
Proof.
  intros Hw Hv. assert (2 ^ w = 2 * 2 ^ (w - 1)) as H2 by (rewrite <- Z.pow_succ_r by lia; f_equal; lia).
  unfold as_signed, as_unsigned. destruct (Z.ltb_spec v (2 ^ (w - 1))); [apply Z.mod_small; lia|].
  symmetry. apply Z.mod_unique with (-1); lia.
Qed.

Lemma signed_codec n w :
  0 < n ≤ 100 → w = 8 * n →
  Codec (v ← get_le n; mret (as_signed w v)) (λ v, to_le_bytes (Z.to_nat n) (as_unsigned w v))
    (λ v, - 2 ^ (w - 1) ≤ v < 2 ^ (w - 1)).
Proof.
  intros Hn ->. eapply (codec_iso (get_le n) _ (to_le_bytes (Z.to_nat n)) _ (as_signed (8 * n)) (as_unsigned (8 * n)));
    [apply get_le_codec; lia|done|..].
  all: assert (256 ^ n = 2 ^ (8 * n)) as Hp by (by rewrite Z.pow_mul_r by lia).
  - intros v Hv. split; [|apply as_signed_unsigned; lia]. rewrite Hp. apply Z.mod_pos_bound. lia.
  - intros v Hv. rewrite Hp in Hv. split; [|apply as_unsigned_signed; lia].
    assert (2 ^ (8 * n) = 2 * 2 ^ (8 * n - 1)) by (rewrite <- Z.pow_succ_r by lia; f_equal; lia).
    unfold as_signed. destruct (Z.ltb_spec v (2 ^ (8 * n - 1))); lia.
Qed.

Definition i64_ok (v : Z) : Prop := - 2 ^ 63 ≤ v < 2 ^ 63.
Definition i128_ok (v : Z) : Prop := - 2 ^ 127 ≤ v < 2 ^ 127.
#[global] Instance get_i64_codec : Codec get_i64 (λ v, to_le_bytes 8 (as_unsigned 64 v)) i64_ok.
Proof. apply (signed_codec 8 64); lia. Qed.
#[global] Instance get_i128_codec : Codec get_i128 (λ v, to_le_bytes 16 (as_unsigned 128 v)) i128_ok.
Proof. apply (signed_codec 16 128); lia. Qed.

Definition hash_ok (v : list Z) : Prop := zlen v = 32 ∧ bytes_ok v.
#[global] Instance get_hash_codec : Codec get_hash (λ v, v) hash_ok.
Proof. apply take_codec. lia. Qed.

(** ** Composed formats *)

Section compose.
Context {A : Type} {get : Reading A} {put : A → list Z} {valid : A → Prop} `{!Codec get put valid}.

Definition option_octets (v : option A) : list Z :=
  [Z.b2z (if v then true else false)] ++ match v with Some a => put a | None => [] end.

#[global] Instance get_option_codec :
  Codec (get_option get) option_octets (λ v, match v with Some a => valid a | None => True end).
Proof.
  constructor.
  - intros v d Hv Hd Hw. unfold get_option. destruct v as [a|].
    + eapply (complete_step _ true d (put a)); [done|done|done|]. intros Hd' Hw'.
      eapply (complete_step _ a _ []); [done|done|by rewrite app_nil_r|]. intros _ _.
      unfold mret, stateful_ret. by rewrite skip_skip, <- zlen_app.
    + by eapply (complete_step _ false d []).
  - intros d Hd. unfold get_option. apply canonical_step; [done|]. intros [] _ Hw Hd'.
    + apply canonical_step; [done|]. intros a Ha Hw' _. apply swp_ret. split; [done|].
      unfold option_octets. split; [by apply ahead_skip|]. by rewrite skip_skip, <- zlen_app.
    + apply swp_ret. by rewrite <- (app_nil_r [_]) at 1.
Qed.

#[global] Instance get_times_codec n :
  Codec (get_times n get) (λ l, concat (map put l)) (λ l, length l = n ∧ Forall valid l).
Proof.
  induction n as [|n IH].
  - constructor.
    + intros l d [Hl _] Hd _. destruct l; [|done]. simpl. by rewrite zlen_nil, skip_0.
    + intros d Hd. apply swp_ret. simpl. rewrite zlen_nil, skip_0. split; [done|]. split; [|done]. by apply ahead_nil.
  - constructor.
    + intros [|a l] d [Hl Hv] Hd Hw; [done|]. apply Forall_cons in Hv as [Ha Hv]. simpl in Hl. cbn [get_times].
      eapply (complete_step _ a d); [done|done|exact Hw|]. intros Hd' Hw'.
      eapply (complete_step (get := get_times n get) _ l _ []); [split; [lia|done]|done|by rewrite app_nil_r|].
      intros _ _. unfold mret, stateful_ret. by rewrite skip_skip, <- zlen_app.
    + intros d Hd. cbn [get_times]. apply canonical_step; [done|]. intros a Ha Hw Hd'.
      apply canonical_step; [done|]. intros l [Hl Hv] Hw' _. apply swp_ret. simpl.
      split; [split; [lia|by constructor]|]. split; [by apply ahead_skip|]. by rewrite skip_skip, <- zlen_app.
Qed.
End compose.

(** Length-delimited octets. *)
Definition blob (b : list Z) : list Z := to_le_bytes 4 (zlen b) ++ b.
Definition blob_ok (max : Z) (b : list Z) : Prop := zlen b ≤ max ∧ zlen b ≤ u32_max ∧ bytes_ok b.

#[global] Instance get_bytes_codec max : Codec (get_bytes max) blob (blob_ok max).
Proof.
  constructor.
  - intros b d (Hm & Hu & Hb) Hd Hw. unfold get_bytes. pose proof (zlen_nonneg b).
    eapply (complete_step _ (zlen b) d b); [simpl; lia|done|done|]. intros Hd' Hw'.
    rewrite (proj2 (Z.ltb_ge _ _)) by lia. pose proof (take_codec (zlen b) ltac:(lia)).
    rewrite (codec_complete (get := take (zlen b)) b) by done. by rewrite skip_skip, <- zlen_app.
  - intros d Hd. unfold get_bytes. apply canonical_step; [done|]. intros n Hn Hw Hd'.
    apply swp_if; intros Hm; bool_facts; [done|]. pose proof (take_codec n ltac:(lia)).
    eapply swp_mono; [by apply (codec_canonical (get := take n))| |done].
    intros d' b ([Hl Hb] & Hw' & ->). subst n. split; [by split_and!; [lia|lia|]|].
    split; [by apply ahead_skip|]. by rewrite skip_skip, <- zlen_app.
Qed.

#[global] Instance get_text_codec max : Codec (get_text max) blob (λ b, blob_ok max b ∧ utf8 b = true).
Proof. unfold get_text. apply codec_checked, _. Qed.

Lemma put_bytes_ok e b : zlen b ≤ u32_max → put_bytes e b = Ok (e ++ blob b).
Proof.
  intros H. unfold put_bytes, blob, put_u32. rewrite (proj2 (Z.ltb_ge _ _)) by done. by rewrite <- app_assoc.
Qed.

Lemma put_option_octets {A} (put : list Z → A → list Z) (octets : A → list Z) e v :
  (∀ e a, put e a = e ++ octets a) → put_option put e v = e ++ option_octets (put := octets) v.
Proof.
  intros H. unfold put_option, put_bool, put_u8, option_octets. destruct v as [a|]; [|done].
  by rewrite H, <- app_assoc.
Qed.

(** ** Whole inputs *)

Lemma decoder_new_bounds b : bytes_ok b → zlen b ≤ i64_max → in_bounds (decoder_new b).
Proof. intros Hb Hl. split; [simpl; pose proof (zlen_nonneg b); lia|done]. Qed.

Lemma ahead_all b : ahead (decoder_new b) b.
Proof. split; simpl; rewrite Z.add_0_l; [lia|apply sub_full]. Qed.

Section whole.
Context {A : Type} {get : Reading A} {put : A → list Z} {valid : A → Prop} `{!Codec get put valid}.

(** A whole input is decoded exactly when it is the encoding of a valid value. *)
Lemma whole_exact b :
  bytes_ok b → zlen b ≤ i64_max →
  wp (decode_all (a ← get; finish ;; mret a) b) (λ a, valid a ∧ b = put a) (λ _, ∀ a, valid a → b ≠ put a).
Proof.
  intros Hb Hl. pose proof (decoder_new_bounds b Hb Hl) as Hd. pose proof (codec_canonical (get := get) _ Hd) as Hc.
  assert (∀ a, valid a → b = put a → (get (decoder_new b)) = (skip (decoder_new b) (zlen b), Ok a)) as Hput.
  { intros a Ha ->. apply codec_complete; [done|done|apply ahead_all]. }
  unfold decode_all, mbind, stateful_bind. unfold swp in Hc.
  destruct (get (decoder_new b)) as [d' [a|e| |]] eqn:Hg; cbn [fst snd wp] in *; try done.
  - destruct Hc as (Ha & [Hlen Hs] & ->). unfold finish. simpl in *. rewrite Z.add_0_l in *.
    destruct (Z.eqb_spec (zlen (put a)) (zlen b)) as [Heq|Hne]; simpl.
    + split; [done|]. by rewrite Heq, sub_full in Hs.
    + intros a' Ha' Hb'. specialize (Hput a' Ha' Hb'). injection Hput as H1 ->. congruence.
  - intros a Ha Hba. by specialize (Hput a Ha Hba).
Qed.
End whole.

(** A sequence after its length. *)
Lemma get_counted_codec {A} (count : Reading Z) putc bound max e (get : Reading A) put valid :
  Codec count putc (λ n, 0 ≤ n ≤ bound) → Codec get put valid → max ≤ bound →
  Codec (get_counted count max e get) (λ l, putc (zlen l) ++ concat (map put l)) (λ l, zlen l ≤ max ∧ Forall valid l).
Proof.
  intros Hc Hg Hmax. constructor.
  - intros l d [Hl Hv] Hd Hw. unfold get_counted. pose proof (zlen_nonneg l).
    eapply (complete_step _ (zlen l) d); [lia|done|exact Hw|]. intros Hd' Hw'.
    rewrite (proj2 (Z.ltb_ge _ _)) by lia.
    rewrite (codec_complete (get := get_times (Z.to_nat (zlen l)) get) l);
      [by rewrite skip_skip, <- zlen_app|split; [unfold zlen; lia|done]|done|done].
  - intros d Hd. unfold get_counted. apply canonical_step; [done|]. intros n Hn Hw Hd'.
    apply swp_if; intros Hm; bool_facts; [done|].
    eapply swp_mono; [by apply (codec_canonical (get := get_times (Z.to_nat n) get))| |done].
    intros d' l ([Hl Hv] & Hw' & ->). assert (zlen l = n) as <- by (unfold zlen; lia).
    split; [split; [lia|done]|]. split; [by apply ahead_skip|]. by rewrite skip_skip, <- zlen_app.
Qed.

(** What was put after what was there. *)
Lemma foldl_put {A} (put : list Z → A → list Z) (octets : A → list Z) e l :
  (∀ e a, put e a = e ++ octets a) → foldl put e l = e ++ concat (map octets l).
Proof.
  intros H. revert e. induction l as [|a l IH]; intros e; simpl; [by rewrite app_nil_r|].
  by rewrite IH, H, <- app_assoc.
Qed.

(** A whole input that is checked, or turned into something else, after it was read. *)
Section then_.
Context {A B : Type} {get : Reading A} {put : A → list Z} {valid : A → Prop} `{!Codec get put valid}.

Lemma whole_then (f : A → result B) b (R : Error → Prop) :
  bytes_ok b → zlen b ≤ i64_max → (∀ a, valid a → b = put a → wp (f a) (λ _, True) R) → 
  wp (decode_all (a ← get; finish ;; lift (f a)) b)
     (λ r, ∃ a, valid a ∧ b = put a ∧ f a = Ok r)
     (λ e, (∀ a, valid a → b ≠ put a) ∨ R e ∧ ∃ a, valid a ∧ b = put a ∧ f a = Err e).
Proof.
  intros Hb Hl Hf. pose proof (whole_exact (get := get) b Hb Hl) as H.
  unfold decode_all, mbind, stateful_bind in *.
  destruct (get (decoder_new b)) as [d' [a|e| |]]; cbn [snd] in *; try done; [|by left].
  unfold finish in *. destruct (d_at d' =? zlen (d_bytes d')); cbn [snd] in *; [|by left].
  destruct H as [Ha ->]. specialize (Hf a Ha eq_refl). unfold lift. cbn [snd].
  destruct (f a) as [r|e| |] eqn:Hfa; try done; simpl in *; [by exists a|]. right. split; [done|]. by exists a.
Qed.

(** The encoding of a valid value is decoded to what the check makes of it. *)
Lemma whole_back (f : A → result B) a :
  valid a → bytes_ok (put a) → zlen (put a) ≤ i64_max →
  decode_all (a ← get; finish ;; lift (f a)) (put a) = f a.
Proof.
  intros Ha Hb Hl. pose proof (decoder_new_bounds _ Hb Hl) as Hd. unfold decode_all, mbind, stateful_bind.
  rewrite (codec_complete a _ Ha Hd (ahead_all _)). unfold finish, skip. simpl. rewrite Z.add_0_l, Z.eqb_refl.
  by destruct (f a).
Qed.

End then_.

Section checked.
Context {A : Type} {get : Reading A} {put : A → list Z} {valid : A → Prop} `{!Codec get put valid}.

(** Both, for a check that gives back what it was given. *)
Lemma wp_whole_checked (f : A → result A) b :
  bytes_ok b → zlen b ≤ i64_max → (∀ a, wp (f a) (λ a', a' = a) (λ _, True)) →
  wp (decode_all (a ← get; finish ;; lift (f a)) b) (λ a, valid a ∧ b = put a ∧ f a = Ok a) (λ _, True).
Proof.
  intros Hb Hl Hf. pose proof (whole_then (get := get) f b (λ _, True) Hb Hl) as Hw. cbv beta in Hw.
  eapply wp_mono; [apply Hw| |done].
  - intros a _ _. eapply wp_mono; [apply Hf|done|done].
  - intros a' (a & Ha & -> & Hfa). specialize (Hf a). rewrite Hfa in Hf. simpl in Hf. by subst.
Qed.

Lemma whole_checked (f : A → result A) b a :
  bytes_ok b → zlen b ≤ i64_max → (∀ a, wp (f a) (λ a', a' = a) (λ _, True)) →
  decode_all (a ← get; finish ;; lift (f a)) b = Ok a ↔ valid a ∧ b = put a ∧ f a = Ok a.
Proof.
  intros Hb Hl Hf. split.
  - intros H. pose proof (wp_whole_checked f b Hb Hl Hf) as Hw. by rewrite H in Hw.
  - intros (Ha & -> & Hfa). by rewrite whole_back.
Qed.
End checked.
