(* ===== verification/HistModel.v ===== *)
(** * The history model ([src/history/src/model.rs])

    The configuration of a history workspace, the tuple a TCP observation belongs to, and
    the observation itself with the captured octets it was read from.  Each has a
    canonical encoding. *)

From S2P Require Import Prelude Errors Stateful Json Ord Sha256 Wire Codec.

Definition ENGINE : list Z := text "pcap-evidence-history/2;state-policy/1".
Definition MODULUS : Z := Z.shiftl 1 32.

Inductive EpochPolicy : Type := StrictAlternatives | NearestFrontier.
#[global] Instance EpochPolicy_eq_dec : EqDecision EpochPolicy.
Proof. solve_decision. Defined.

(** ** [Config] *)

Record HConfig : Type := {
  hc_source_bytes : Z;
  hc_disk_bytes : Z;
  hc_records : Z;
  hc_record_bytes : Z;
  hc_hot_tuples : Z;
  hc_generations : Z;
  hc_witnesses : Z;
  hc_epoch_candidates : Z;
  hc_sequence_horizon : Z;
  hc_epoch_policy : EpochPolicy;
  hc_sort_entries : Z;
  hc_merge_fan_in : Z;
  hc_query_bytes : Z;
  hc_query_intervals : Z;
  hc_query_work : Z;
  hc_checkpoint_records : Z;
}.

Definition hconfig_default : HConfig := {|
  hc_source_bytes := 1024 * 1024 * 1024 * 1024;
  hc_disk_bytes := 1024 * 1024 * 1024 * 1024;
  hc_records := 20000000000;
  hc_record_bytes := 2 * 1024 * 1024;
  hc_hot_tuples := 64;
  hc_generations := 128;
  hc_witnesses := 2048;
  hc_epoch_candidates := 16;
  hc_sequence_horizon := 16 * 1024 * 1024;
  hc_epoch_policy := StrictAlternatives;
  hc_sort_entries := 32768;
  hc_merge_fan_in := 16;
  hc_query_bytes := 65536;
  hc_query_intervals := 4096;
  hc_query_work := 128 * 1024 * 1024;
  hc_checkpoint_records := 10000;
|}.

(** [(a..=b).contains(&x)]. *)
Definition contains (a b x : Z) : bool := (a <=? x) && (x <=? b).

(** [Config::validate]; [usize] has 64 bits. *)
Definition config_validate (c : HConfig) : result unit :=
  if (hc_source_bytes c =? 0) || (u64_max / 8 <? hc_source_bytes c)
     || (hc_disk_bytes c <? 1024)
     || (hc_records c =? 0) || (u64_max / 2 <? hc_records c)
     || negb (contains 4096 (16 * 1024 * 1024) (hc_record_bytes c))
     || negb (contains 1 4096 (hc_hot_tuples c))
     || negb (contains 1 4096 (hc_generations c))
     || negb (contains 1 4096 (hc_witnesses c))
     || negb (contains 1 64 (hc_epoch_candidates c))
     || negb (contains 1 (Z.shiftl 1 31 - 1) (hc_sequence_horizon c))
     || negb (contains 2 1000000 (hc_sort_entries c))
     || negb (contains 2 64 (hc_merge_fan_in c))
     || negb (contains 1 (1024 * 1024) (hc_query_bytes c))
     || negb (contains 1 65536 (hc_query_intervals c))
     || (hc_query_work c =? 0) || (hc_checkpoint_records c =? 0)
  then Err (bad "history_config" "invalid or excessive resource limit") else Ok ().

(** The numbers in the order they are written. *)
Definition config_numbers (c : HConfig) : list Z :=
  [hc_source_bytes c; hc_disk_bytes c; hc_records c; hc_record_bytes c; hc_hot_tuples c; hc_generations c;
   hc_witnesses c; hc_epoch_candidates c; hc_sequence_horizon c; hc_sort_entries c; hc_merge_fan_in c;
   hc_query_bytes c; hc_query_intervals c; hc_query_work c; hc_checkpoint_records c].
Definition policy_octet (p : EpochPolicy) : Z :=
  match p with StrictAlternatives => 0 | NearestFrontier => 1 end.

(** [Config::encode]. *)
Definition config_encode (c : HConfig) : result (list Z) :=
  config_validate c ;;
  e ← put_text [] ENGINE;
  Ok (put_u8 (foldl put_u64 e (config_numbers c)) (policy_octet (hc_epoch_policy c))).

(** [usize::try_from] and [i64::try_from] of a [u64]. *)
Definition to_usize (v : Z) : result Z := if v <=? usize_max then Ok v else Err (limit "history_config").
Definition to_i64 (v : Z) : result Z := if v <=? i64_max then Ok v else Err (limit "sequence_horizon").

(** [Config::decode], the fields before [finish]. *)
Definition get_policy : Reading EpochPolicy :=
  p ← get_u8;
  if p =? 0 then mret StrictAlternatives
  else if p =? 1 then mret NearestFrontier
  else throw (bad "history_policy" "unknown epoch policy").
Definition get_config : Reading HConfig :=
  engine ← get_text 128;
  if negb (bytes_eqb engine ENGINE)
  then throw (bad "history_engine" "unsupported engine/policy identity; rebuild a new workspace from the immutable original capture")
  else
    v ← get_times 15 get_u64;
    v3 ← lift (to_usize (nthz v 3));
    v4 ← lift (to_usize (nthz v 4));
    v5 ← lift (to_usize (nthz v 5));
    v6 ← lift (to_usize (nthz v 6));
    v7 ← lift (to_usize (nthz v 7));
    v8 ← lift (to_i64 (nthz v 8));
    v9 ← lift (to_usize (nthz v 9));
    v10 ← lift (to_usize (nthz v 10));
    v11 ← lift (to_usize (nthz v 11));
    v12 ← lift (to_usize (nthz v 12));
    policy ← get_policy;
    mret {| hc_source_bytes := nthz v 0; hc_disk_bytes := nthz v 1; hc_records := nthz v 2;
            hc_record_bytes := v3; hc_hot_tuples := v4; hc_generations := v5; hc_witnesses := v6;
            hc_epoch_candidates := v7; hc_sequence_horizon := v8; hc_sort_entries := v9;
            hc_merge_fan_in := v10; hc_query_bytes := v11; hc_query_intervals := v12;
            hc_query_work := nthz v 13; hc_checkpoint_records := nthz v 14;
            hc_epoch_policy := policy |}.
Definition config_decode (b : list Z) : result HConfig :=
  decode_all (c ← get_config; finish ;; lift (config_validate c ;; Ok c)) b.

(** [Config::digest]. *)
Definition config_digest (c : HConfig) : result (list Z) := e ← config_encode c; digest e.

Record SourceIdentity : Type := { si_sha256 : list Z; si_bytes : Z }.
#[global] Instance SourceIdentity_eq_dec : EqDecision SourceIdentity.
Proof. solve_decision. Defined.

(** ** [Key] *)

Record Key : Type := {
  k_section : Z;
  k_interface : Z;
  k_link_interface : option Z;
  k_vlans : list Z;
  k_tunnels : list (list Z);
  k_a : Endpoint;
  k_b : Endpoint;
}.
#[global] Instance Key_eq_dec : EqDecision Key.
Proof. solve_decision. Defined.

(** [endpoint] and [read_endpoint]. *)
Definition put_endpoint (e : list Z) (p : Endpoint) : list Z :=
  let e := match address p with V4 o => put_u8 e 4 ++ o | V6 o => put_u8 e 6 ++ o end in
  put_u16 e (port p).
Definition get_address : Reading IpAddr :=
  family ← get_u8;
  if family =? 4 then o ← take 4; mret (V4 o)
  else if family =? 6 then o ← take 16; mret (V6 o)
  else throw (bad "history_address" "unknown family").
Definition get_endpoint : Reading Endpoint :=
  a ← get_address;
  p ← get_u16;
  mret {| address := a; port := p |}.

(** [char::is_control], and [chars().any(char::is_control)] of a string. *)
Definition is_control (c : Z) : bool := (c <=? 0x1f) || ((0x7f <=? c) && (c <=? 0x9f)).
Definition has_control (s : list Z) : bool :=
  match utf8_chars s with Some cs => existsb is_control cs | None => false end.

(** [Key::encode]. *)
Definition put_texts (e : list Z) (l : list (list Z)) : result (list Z) := foldM put_text e l.
Definition key_encode (k : Key) : result (list Z) :=
  if bool_decide (cmp (k_a k) (k_b k) = Gt) || (8 <? zlen (k_vlans k))
     || existsb (λ v, 4095 <? v) (k_vlans k) || (16 <? zlen (k_tunnels k))
     || existsb (λ s, (512 <? zlen s) || has_control s) (k_tunnels k)
  then Err (bad "history_tuple" "noncanonical or excessive tuple scope") else
  let e := put_u32 (put_u32 [] (k_section k)) (k_interface k) in
  let e := put_option_u32 e (k_link_interface k) in
  let e := foldl put_u16 (put_u8 e (zlen (k_vlans k))) (k_vlans k) in
  e ← put_texts (put_u8 e (zlen (k_tunnels k))) (k_tunnels k);
  Ok (put_endpoint (put_endpoint e (k_a k)) (k_b k)).

(** [Key::decode]. *)
Definition get_key : Reading Key :=
  section ← get_u32;
  interface ← get_u32;
  link_interface ← get_option_u32;
  vlans ← get_counted get_u8 8 (limit "vlans") get_u16;
  tunnels ← get_counted get_u8 16 (limit "tunnels") (get_text 512);
  a ← get_endpoint;
  b ← get_endpoint;
  mret {| k_section := section; k_interface := interface; k_link_interface := link_interface;
          k_vlans := vlans; k_tunnels := tunnels; k_a := a; k_b := b |}.
Definition key_decode (b : list Z) : result Key :=
  decode_all (k ← get_key; finish ;; lift (key_encode k ;; Ok k)) b.
Definition key_digest (k : Key) : result (list Z) := e ← key_encode k; digest e.

(** ** [Witness] *)

Record Witness : Type := {
  w_start : Z;
  w_end : Z;
  w_frame : Z;
  w_record_offset : Z;
  w_packet_start : Z;
  w_source_offset : Z;
}.
#[global] Instance Witness_eq_dec : EqDecision Witness.
Proof. solve_decision. Defined.
Definition put_witness (e : list Z) (w : Witness) : list Z :=
  let e := put_u64 (put_u32 (put_u32 e (w_start w)) (w_end w)) (w_frame w) in
  put_u64 (put_u32 (put_u64 e (w_record_offset w)) (w_packet_start w)) (w_source_offset w).
Definition get_witness : Reading Witness :=
  start ← get_u32;
  stop ← get_u32;
  frame ← get_u64;
  record_offset ← get_u64;
  packet_start ← get_u32;
  source_offset ← get_u64;
  mret {| w_start := start; w_end := stop; w_frame := frame; w_record_offset := record_offset;
          w_packet_start := packet_start; w_source_offset := source_offset |}.

(** ** [TcpInput] *)

Record TcpInput : Type := {
  i_key : Key;
  i_direction : Z;
  i_frame : Z;
  i_when : option Z;
  i_raw : list Z;
  i_witnesses : list Witness;
  i_sequence : Z;
  i_acknowledgement : Z;
  i_flags : Z;
  i_window : Z;
  i_timestamp_value : option Z;
  i_header_bytes : Z;
}.
#[global] Instance TcpInput_eq_dec : EqDecision TcpInput.
Proof. solve_decision. Defined.

(** The closures [u16at] and [u32at] of [TcpInput::new]. *)
Definition u16at (raw : list Z) (n : Z) : result Z := b ← slice raw n (n + 2); Ok (from_be_bytes b).
Definition u32at (raw : list Z) (n : Z) : result Z := b ← slice raw n (n + 4); Ok (from_be_bytes b).

(** The loop over the witnesses: the end of the octets they cover. *)
Definition witness_step (len cursor : Z) (w : Witness) : result Z :=
  if negb (w_start w =? cursor) || (w_end w <=? w_start w) || (len <? w_end w) || (w_frame w =? 0)
     || bool_decide (checked_add u64_max (w_source_offset w) (w_end w - w_start w) = None)
     || bool_decide (checked_add u32_max (w_packet_start w) (w_end w - w_start w) = None)
  then Err (bad "tcp_witness" "invalid source-span layout") else Ok (w_end w).

(** One round of the loop over the options: the position and the timestamp so far. *)
Definition option_step (raw : list Z) (header_bytes : Z) (s : Z * option Z)
    : result (step (Z * option Z) (option Z)) :=
  let '(at_, timestamp) := s in
  if header_bytes <=? at_ then Ok (Break timestamp) else
  kind ← idx raw at_;
  if kind =? 0 then Ok (Break timestamp)
  else if kind =? 1 then Ok (Continue (at_ + 1, timestamp))
  else
    n ← ok_or (get raw (at_ + 1)) (bad "tcp_option" "missing length");
    if (n <? 2) || (header_bytes <? at_ + n) then Err (bad "tcp_option" "invalid option extent") else
    timestamp ← (if kind =? 8 then
                   if negb (n =? 10) || bool_decide (timestamp ≠ None)
                   then Err (bad "tcp_timestamp" "invalid/duplicate timestamp option")
                   else v ← u32at raw (at_ + 2); Ok (Some v)
                 else Ok timestamp);
    Ok (Continue (at_ + n, timestamp)).

(** [TcpInput::new]; a round of the loop takes at least an octet of the header. *)
Definition tcp_input_new (key : Key) (direction frame : Z) (when : option Z) (raw : list Z)
    (witnesses : list Witness) (c : HConfig) : result TcpInput :=
  config_validate c ;;
  key_encode key ;;
  if (1 <? direction) || (frame =? 0) || (zlen raw <? 20) || (65535 <? zlen raw)
     || (hc_witnesses c <? zlen witnesses)
  then Err (bad "tcp_input" "invalid input bounds") else
  r12 ← idx raw 12;
  let header_bytes := Z.shiftr r12 4 * 4 in
  if negb (contains 20 60 header_bytes) || (zlen raw <? header_bytes)
  then Err (bad "tcp_header" "invalid header length") else
  let '(src, dst) := if direction =? 0 then (k_a key, k_b key) else (k_b key, k_a key) in
  p0 ← u16at raw 0;
  p2 ← u16at raw 2;
  if negb (p0 =? port src) || negb (p2 =? port dst)
  then Err (bad "tcp_ports" "tuple disagrees with transport header") else
  cursor ← foldM (witness_step (zlen raw)) 0 witnesses;
  if negb (cursor =? zlen raw) then Err (bad "tcp_witness" "raw bytes lack complete witnesses") else
  timestamp ← loop (S (Z.to_nat header_bytes)) (option_step raw header_bytes) (20, None);
  sequence ← u32at raw 4;
  acknowledgement ← u32at raw 8;
  r13 ← idx raw 13;
  window ← u16at raw 14;
  Ok {| i_key := key; i_direction := direction; i_frame := frame; i_when := when; i_raw := raw;
        i_witnesses := witnesses; i_sequence := sequence; i_acknowledgement := acknowledgement;
        i_flags := Z.lor r13 (Z.shiftl (Z.land r12 1) 8); i_window := window;
        i_timestamp_value := timestamp; i_header_bytes := header_bytes |}.

Definition i_syn (p : TcpInput) : bool := negb (Z.land (i_flags p) 2 =? 0).
Definition i_fin (p : TcpInput) : bool := negb (Z.land (i_flags p) 1 =? 0).
Definition i_rst (p : TcpInput) : bool := negb (Z.land (i_flags p) 4 =? 0).
Definition i_ack (p : TcpInput) : bool := negb (Z.land (i_flags p) 16 =? 0).
Definition i_data_sequence (p : TcpInput) : Z := wrapping_add 32 (i_sequence p) (Z.b2z (i_syn p)).
Definition i_payload (p : TcpInput) : list Z := drop (Z.to_nat (i_header_bytes p)) (i_raw p).

(** [TcpInput::encode] and [TcpInput::decode]. *)
Definition tcp_input_encode (p : TcpInput) : result (list Z) :=
  key ← key_encode (i_key p);
  e ← put_bytes [] key;
  let e := put_option_i128 (put_u64 (put_u8 e (i_direction p)) (i_frame p)) (i_when p) in
  e ← put_bytes e (i_raw p);
  n ← (if u32_max <? zlen (i_witnesses p) then Err (limit "witnesses") else Ok (zlen (i_witnesses p)));
  Ok (foldl put_witness (put_u32 e n) (i_witnesses p)).
Definition get_tcp_input (c : HConfig) : Reading (Key * Z * Z * option Z * list Z * list Witness) :=
  kb ← get_bytes 10000;
  key ← lift (key_decode kb);
  direction ← get_u8;
  frame ← get_u64;
  when ← get_option_i128;
  raw ← get_bytes 65535;
  witnesses ← get_counted get_u32 (hc_witnesses c) (limit "witnesses") get_witness;
  mret (key, direction, frame, when, raw, witnesses).
Definition tcp_input_decode (b : list Z) (c : HConfig) : result TcpInput :=
  decode_all (r ← get_tcp_input c; finish ;;
    let '(key, direction, frame, when, raw, witnesses) := r in
    lift (tcp_input_new key direction frame when raw witnesses c)) b.
