(* ===== verification/HistModelFacts.v ===== *)
(** * Canonical encodings of the history model

    A configuration, a tuple and a TCP observation are decoded from their encoding and
    from nothing else; an observation shows the fields of the captured header, and its
    witnesses cover the captured octets without a gap. *)

From S2P Require Import Prelude Errors Stateful Json Ord Sha256 Wire ModbusFacts Codec CodecFacts HistModel.

(** The laws of the codec, one step at a time. *)
Ltac reads v := eapply (complete_step _ v); [|done|done|intros ? ?].
Ltac writes := eapply canonical_step; [done|]; intros ? ? ? ?.
Ltac written :=
  apply swp_ret; split; [|split; [repeat (refine (ahead_skip _ _ _ _ _ _); [done|done|]); done|by rewrite !skip_skip, <- !zlen_app]].

(** ** [Config] *)

Definition config_typed (c : HConfig) : Prop :=
  Forall (λ n, 0 ≤ n ≤ u64_max) (config_numbers c) ∧ hc_sequence_horizon c ≤ i64_max.
Definition config_octets (c : HConfig) : list Z :=
  blob ENGINE ++ concat (map (to_le_bytes 8) (config_numbers c)) ++ [policy_octet (hc_epoch_policy c)].

#[global] Instance get_policy_codec : Codec get_policy (λ p, [policy_octet p]) (λ _, True).
Proof.
  constructor.
  - intros p d _ Hd Hw. unfold get_policy. eapply (complete_step _ (policy_octet p) d []); [by destruct p|done|done|].
    intros _ _. by destruct p.
  - intros d Hd. unfold get_policy. writes. apply swp_if; intros Hp; [|apply swp_if; intros Hq; [|done]]; apply swp_ret.
    + by apply Z.eqb_eq in Hp as ->.
    + by apply Z.eqb_eq in Hq as ->.
Qed.

Lemma lift_step {A B} (a : A) (k : A → Reading B) d : (lift (Ok a) ≫= k) d = k a d.
Proof. done. Qed.

Lemma to_usize_ok v : v ≤ u64_max → to_usize v = Ok v.
Proof. intros H. unfold to_usize. by rewrite (proj2 (Z.leb_le _ _)). Qed.

Lemma engine_ok : blob_ok 128 ENGINE ∧ utf8 ENGINE = true.
Proof. split; [|by vm_compute]. split_and!; [by vm_compute|by vm_compute|]. apply small_bytes_ok. by vm_compute. Qed.

Lemma nthz_all (P : Z → Prop) l i : Forall P l → P 0 → P (nthz l i).
Proof.
  intros Hl H0. unfold nthz. destruct (nth_in_or_default (Z.to_nat i) l 0) as [Hin| ->]; [|done].
  rewrite Forall_forall in Hl. by apply Hl, list_elem_of_In.
Qed.

#[global] Instance get_config_codec : Codec get_config config_octets config_typed.
Proof.
  constructor.
  - intros c d [Hn Hs] Hd Hw. unfold get_config.
    eapply (complete_step _ ENGINE d); [apply engine_ok|done|exact Hw|]. intros Hd1 Hw1.
    change (negb (bytes_eqb ENGINE ENGINE)) with false. cbv iota.
    eapply (complete_step (get := get_times 15 get_u64) _ (config_numbers c)); [by split|done|exact Hw1|]. intros Hd2 Hw2.
    assert (∀ i, nthz (config_numbers c) i ≤ u64_max) as Hle
      by (intros i; apply (nthz_all (λ n, n ≤ u64_max)); [eapply Forall_impl; [exact Hn|simpl; lia]|done]).
    rewrite !to_usize_ok by done.
    replace (to_i64 (nthz (config_numbers c) 8)) with (@Ok Error Z (hc_sequence_horizon c))
      by (unfold to_i64; by rewrite (proj2 (Z.leb_le _ _))).
    rewrite !lift_step.
    eapply (complete_step _ (hc_epoch_policy c) _ []); [done|done|exact Hw2|]. intros _ _.
    unfold mret, stateful_ret. rewrite !skip_skip, <- !zlen_app. f_equal. by destruct c.
  - intros d Hd. unfold get_config. writes. apply swp_if; intros He; [done|].
    apply negb_false_iff, bytes_eqb_eq in He as ->. writes.
    match goal with H : _ ∧ Forall _ ?w |- _ => destruct H as [Hlen Hall]; rename w into v end.
    do 15 (destruct v as [|? v]; [done|]). destruct v; [|done]. clear Hlen.
    cbv [nthz Z.to_nat Pos.to_nat Pos.iter_op Nat.add nth].
    pose proof Hall as Hall'. repeat (apply Forall_cons in Hall as [? Hall]).
    do 5 (apply swp_bind, swp_lift; rewrite to_usize_ok by lia; apply wp_ok).
    apply swp_bind, swp_lift. unfold to_i64. case_match eqn:Hh; [apply wp_ok|done]. apply Z.leb_le in Hh.
    do 4 (apply swp_bind, swp_lift; rewrite to_usize_ok by lia; apply wp_ok).
    writes. apply swp_ret.
    split; [split; [exact Hall'|exact Hh]|].
    split; [apply ahead_skip; [done|done|]; apply ahead_skip; done|].
    by rewrite !skip_skip, <- !zlen_app.
Qed.

Lemma config_bounds c :
  config_validate c = Ok () →
  1 ≤ hc_witnesses c ≤ 4096 ∧ 1 ≤ hc_generations c ≤ 4096 ∧ 1 ≤ hc_epoch_candidates c ≤ 64 ∧
  1 ≤ hc_sequence_horizon c < 2 ^ 31.
Proof.
  unfold config_validate, contains. case_match eqn:H; [done|]. intros _. bool_facts.
  change (Z.shiftl 1 31 - 1) with (2 ^ 31 - 1) in *. lia.
Qed.

Lemma config_encode_octets c :
  config_validate c = Ok () → config_encode c = Ok (config_octets c).
Proof.
  intros H. unfold config_encode. rewrite H. cbn [mbind res_bind]. unfold put_text.
  rewrite put_bytes_ok by by vm_compute. cbn [mbind res_bind]. unfold put_u8, put_u64.
  rewrite (foldl_put _ (to_le_bytes 8)) by done. by rewrite <- app_assoc.
Qed.

Lemma wp_config_decode b :
  bytes_ok b → zlen b ≤ i64_max →
  wp (config_decode b) (λ c, config_typed c ∧ b = config_octets c ∧ config_validate c = Ok ()) (λ _, True).
Proof.
  intros Hb Hl. unfold config_decode. eapply wp_mono; [apply (wp_whole_checked (λ c, config_validate c ;; Ok c)); [done|done|]| |done].
  - intros c. unfold config_validate. by case_match.
  - intros c (Ht & Hb' & Hv). split; [done|]. split; [done|]. unfold config_validate in *. by case_match.
Qed.

Lemma config_decode_octets c :
  config_typed c → config_validate c = Ok () → bytes_ok (config_octets c) → zlen (config_octets c) ≤ i64_max →
  config_decode (config_octets c) = Ok c.
Proof. intros Ht Hv Hb Hl. unfold config_decode. rewrite (whole_back (get := get_config)) by done. by rewrite Hv. Qed.

(** A configuration is decoded from its encoding and from nothing else: a byte string
    decodes to [c] exactly when [c] passes validation and is encoded so. *)
Theorem config_exact b c :
  bytes_ok b → zlen b ≤ i64_max →
  config_decode b = Ok c ↔ config_typed c ∧ config_encode c = Ok b.
Proof.
  intros Hb Hl. split.
  - intros H. pose proof (wp_config_decode b Hb Hl) as Hw. rewrite H in Hw. destruct Hw as (Ht & -> & Hv).
    split; [done|]. by apply config_encode_octets.
  - intros [Ht He]. assert (config_validate c = Ok ()) as Hv
      by (unfold config_encode in He; unfold config_validate in *; by case_match).
    rewrite config_encode_octets in He by done. injection He as <-. by apply config_decode_octets.
Qed.
Lemma hconfig_default_typed : config_typed hconfig_default.
Proof.
  unfold config_typed. split; [apply Forall_forall|by vm_compute].
  intros n Hn. apply list_elem_of_In in Hn.
  assert (forallb (λ n, (0 <=? n) && (n <=? u64_max)) (config_numbers hconfig_default) = true) as H by by vm_compute.
  rewrite forallb_forall in H. specialize (H n Hn). bool_facts. lia.
Qed.
Lemma config_exact_witness :
  config_decode (config_octets hconfig_default) = Ok hconfig_default.
Proof.
  apply config_exact; [apply small_bytes_ok; by vm_compute|by vm_compute|].
  split; [exact hconfig_default_typed|vm_compute; reflexivity].
Defined.

(** ** [Key] *)

Definition address_typed (a : IpAddr) : Prop :=
  match a with V4 o => zlen o = 4 ∧ bytes_ok o | V6 o => zlen o = 16 ∧ bytes_ok o end.
Definition endpoint_typed (p : Endpoint) : Prop := address_typed (address p) ∧ 0 ≤ port p ≤ u16_max.
Definition address_octets (a : IpAddr) : list Z := match a with V4 o => [4] ++ o | V6 o => [6] ++ o end.
Definition endpoint_octets (p : Endpoint) : list Z := address_octets (address p) ++ to_le_bytes 2 (port p).

#[global] Instance get_address_codec : Codec get_address address_octets address_typed.
Proof.
  pose proof (take_codec 4 ltac:(lia)) as H4. pose proof (take_codec 16 ltac:(lia)) as H16. constructor.
  - intros [o|o] d Ha Hd Hw; unfold get_address.
    + eapply (complete_step _ 4 d o); [by compute|done|exact Hw|]. intros Hd' Hw'. cbn [Z.eqb Pos.eqb].
      eapply (complete_step (get := take 4) _ o _ []); [done|done|by rewrite app_nil_r|]. intros _ _.
      unfold mret, stateful_ret. cbn [address_octets]. by rewrite skip_skip, <- zlen_app.
    + eapply (complete_step _ 6 d o); [by compute|done|exact Hw|]. intros Hd' Hw'. cbn [Z.eqb Pos.eqb].
      eapply (complete_step (get := take 16) _ o _ []); [done|done|by rewrite app_nil_r|]. intros _ _.
      unfold mret, stateful_ret. cbn [address_octets]. by rewrite skip_skip, <- zlen_app.
  - intros d Hd. unfold get_address. writes.
    apply swp_if; intros Hf; [|apply swp_if; clear Hf; intros Hf; [|done]]; apply Z.eqb_eq in Hf as ->;
      writes; apply swp_ret; (split; [done|]);
      (split; [refine (ahead_skip d [_] _ _ _ _); done|]); by rewrite skip_skip, <- zlen_app.
Qed.

#[global] Instance get_endpoint_codec : Codec get_endpoint endpoint_octets endpoint_typed.
Proof.
  constructor.
  - intros [a p] d [Ha Hp] Hd Hw. simpl in Ha, Hp. unfold get_endpoint.
    eapply (complete_step _ a d); [done|done|exact Hw|]. intros Hd1 Hw1.
    eapply (complete_step _ p _ []); [done|done|by rewrite app_nil_r|]. intros _ _.
    unfold mret, stateful_ret. by rewrite skip_skip, <- zlen_app.
  - intros d Hd. unfold get_endpoint. writes. writes. apply swp_ret. split; [done|].
    split; [by apply ahead_skip|]. by rewrite skip_skip, <- zlen_app.
Qed.

Definition u32_ok (v : Z) : Prop := 0 ≤ v ≤ u32_max.
Definition u16_ok (v : Z) : Prop := 0 ≤ v ≤ u16_max.
Definition string_ok (s : list Z) : Prop := bytes_ok s ∧ utf8 s = true.
Definition key_typed (k : Key) : Prop :=
  u32_ok (k_section k) ∧ u32_ok (k_interface k) ∧ (match k_link_interface k with Some i => u32_ok i | None => True end) ∧
  Forall u16_ok (k_vlans k) ∧ Forall string_ok (k_tunnels k) ∧ endpoint_typed (k_a k) ∧ endpoint_typed (k_b k).
(** What the lengths written leave room for. *)
Definition key_bounded (k : Key) : Prop :=
  zlen (k_vlans k) ≤ 8 ∧ zlen (k_tunnels k) ≤ 16 ∧ Forall (λ s, zlen s ≤ 512) (k_tunnels k).
Definition vlan_octets (l : list Z) : list Z := [zlen l] ++ concat (map (to_le_bytes 2) l).
Definition tunnel_octets (l : list (list Z)) : list Z := [zlen l] ++ concat (map blob l).
Definition key_octets (k : Key) : list Z :=
  to_le_bytes 4 (k_section k) ++ to_le_bytes 4 (k_interface k) ++
  option_octets (put := to_le_bytes 4) (k_link_interface k) ++
  vlan_octets (k_vlans k) ++ tunnel_octets (k_tunnels k) ++ endpoint_octets (k_a k) ++ endpoint_octets (k_b k).

Definition octet_codec : Codec get_u8 (λ n, [n]) (λ n, 0 ≤ n ≤ 255).
Proof. eapply codec_ext; [apply get_u8_codec|intros n; unfold is_byte; lia|done]. Qed.

Definition vlans_codec : Codec (get_counted get_u8 8 (limit "vlans") get_u16) vlan_octets (λ l, zlen l ≤ 8 ∧ Forall u16_ok l) :=
  get_counted_codec get_u8 _ 255 8 _ get_u16 _ _ octet_codec _ ltac:(lia).
Lemma tunnels_codec :
  Codec (get_counted get_u8 16 (limit "tunnels") (get_text 512)) tunnel_octets
    (λ l, zlen l ≤ 16 ∧ Forall string_ok l ∧ Forall (λ s, zlen s ≤ 512) l).
Proof.
  eapply codec_ext; [eapply (get_counted_codec get_u8 _ 255 16 _ (get_text 512)); [apply octet_codec|apply _|lia]| |done].
  intros l. rewrite !Forall_forall. unfold string_ok, blob_ok.
  split; intros [Hn Ht]; (split; [done|]); [split; intros x Hx; naive_solver|].
  intros x Hx. destruct Ht as [H1 H2]. destruct (H1 x Hx). specialize (H2 x Hx). by repeat split; try lia.
Qed.

#[global] Instance get_key_codec : Codec get_key key_octets (λ k, key_typed k ∧ key_bounded k).
Proof.
  pose proof vlans_codec as Hvc. pose proof tunnels_codec as Htc. constructor.
  - intros [s i l vs ts a b] d [(Hs & Hi & Hl & Hv & Ht & Ha & Hb) (Hv' & Ht' & Ht'')] Hd Hw. simpl in *. unfold get_key.
    eapply (complete_step _ s d); [done|done|exact Hw|]. intros ? Hw1.
    eapply (complete_step _ i _); [done|done|exact Hw1|]. intros ? Hw2.
    eapply (complete_step _ l _); [done|done|exact Hw2|]. intros ? Hw3.
    eapply (complete_step _ vs _); [done|done|exact Hw3|]. intros ? Hw4.
    eapply (complete_step _ ts _); [done|done|exact Hw4|]. intros ? Hw5.
    eapply (complete_step _ a _); [done|done|exact Hw5|]. intros ? Hw6.
    eapply (complete_step _ b _ []); [done|done|by rewrite app_nil_r|]. intros _ _.
    unfold mret, stateful_ret, key_octets. simpl. by rewrite !skip_skip, <- !zlen_app.
  - intros d Hd. unfold get_key. repeat writes. written.
    by unfold key_typed, key_bounded, u32_ok; simpl; destruct_and?; split_and!.
Qed.

(** What [Key::encode] accepts: ends in order, VLAN identifiers, bounded scopes without
    control characters. *)
Definition key_accepted (k : Key) : bool :=
  negb (bool_decide (cmp (k_a k) (k_b k) = Gt) || (8 <? zlen (k_vlans k))
        || existsb (λ v, 4095 <? v) (k_vlans k) || (16 <? zlen (k_tunnels k))
        || existsb (λ s, (512 <? zlen s) || has_control s) (k_tunnels k)).

Lemma existsb_none {A} (p : A → bool) l : existsb p l = false → Forall (λ x, p x = false) l.
Proof. induction l as [|x l IH]; simpl; [done|]. intros [Hx Hl]%orb_false_iff. auto. Qed.

Lemma key_accepted_bounded k : key_accepted k = true → key_bounded k.
Proof.
  unfold key_accepted. rewrite negb_true_iff, !orb_false_iff. intros ((((_ & Hv) & _) & Ht) & Hs%existsb_none).
  bool_facts. split_and!; [lia|lia|]. eapply Forall_impl; [exact Hs|]. intros s [H _]%orb_false_iff. bool_facts. lia.
Qed.

Lemma put_texts_ok e l : Forall (λ s, zlen s ≤ 512) l → put_texts e l = Ok (e ++ concat (map blob l)).
Proof.
  unfold put_texts. intros H. revert e. induction H as [|s l Hs _ IH]; intros e; simpl; [by rewrite app_nil_r|].
  unfold put_text. rewrite put_bytes_ok by lia. cbn [mbind res_bind]. by rewrite IH, <- app_assoc.
Qed.

Lemma put_endpoint_octets e p : put_endpoint e p = e ++ endpoint_octets p.
Proof.
  unfold put_endpoint, endpoint_octets, address_octets, put_u16, put_u8. destruct (address p); by rewrite <- !app_assoc.
Qed.

Lemma key_encode_spec k : key_encode k = if key_accepted k then Ok (key_octets k) else Err (bad "history_tuple" "noncanonical or excessive tuple scope").
Proof.
  destruct (key_accepted k) eqn:Hk.
  - pose proof (key_accepted_bounded k Hk) as (Hv & Ht & Hs). unfold key_accepted in Hk. apply negb_true_iff in Hk.
    unfold key_encode. rewrite Hk. rewrite put_texts_ok by done. cbn [mbind res_bind]. f_equal.
    rewrite !put_endpoint_octets. unfold put_u16. rewrite (foldl_put _ (to_le_bytes 2)) by done.
    unfold put_option_u32. rewrite (put_option_octets put_u32 (to_le_bytes 4)) by done.
    unfold put_u8, put_u32, key_octets, vlan_octets, tunnel_octets. by rewrite <- !app_assoc.
  - unfold key_accepted in Hk. apply negb_false_iff in Hk. unfold key_encode. by rewrite Hk.
Qed.

Lemma wp_key_decode b :
  bytes_ok b → zlen b ≤ i64_max →
  wp (key_decode b) (λ k, key_typed k ∧ key_accepted k = true ∧ b = key_octets k) (λ _, True).
Proof.
  intros Hb Hl. unfold key_decode. eapply wp_mono; [apply (wp_whole_checked (λ k, key_encode k ;; Ok k)); [done|done|]| |done].
  - intros k. rewrite key_encode_spec. by destruct (key_accepted k).
  - intros k ([Ht _] & -> & Hk). rewrite key_encode_spec in Hk. by destruct (key_accepted k).
Qed.

Lemma key_decode_spec b k :
  bytes_ok b → zlen b ≤ i64_max →
  key_decode b = Ok k ↔ key_typed k ∧ key_accepted k = true ∧ key_encode k = Ok b.
Proof.
  intros Hb Hl. split.
  - intros H. pose proof (wp_key_decode b Hb Hl) as Hw. rewrite H in Hw. destruct Hw as (Ht & Hk & ->).
    by rewrite key_encode_spec, Hk.
  - intros (Ht & Hk & He). pose proof (key_accepted_bounded k Hk) as Hbd. rewrite key_encode_spec, Hk in He. injection He as <-.
    unfold key_decode. rewrite (whole_back (get := get_key)) by done. by rewrite key_encode_spec, Hk.
Qed.

(** A tuple is decoded from its encoding and from nothing else: a byte string decodes
    to [k] exactly when [k] is encoded so, and then [k] has its ends in order, VLAN
    identifiers of twelve bits and bounded scopes without control characters. *)
Theorem key_exact b k :
  bytes_ok b → zlen b ≤ i64_max →
  key_decode b = Ok k ↔ key_typed k ∧ key_accepted k = true ∧ key_encode k = Ok b.
Proof. apply key_decode_spec. Qed.

Definition sample_key : Key := {|
  k_section := 0; k_interface := 1; k_link_interface := Some 3; k_vlans := [100]; k_tunnels := [text "vxlan:7"];
  k_a := {| address := V4 [10; 0; 0; 1]; port := 1000 |}; k_b := {| address := V4 [10; 0; 0; 2]; port := 502 |} |}.
Lemma key_exact_witness : key_decode (key_octets sample_key) = Ok sample_key.
Proof.
  apply key_exact; [apply small_bytes_ok; by vm_compute|by vm_compute|].
  split; [|split; by vm_compute]. unfold key_typed, u32_ok, u16_ok, string_ok, endpoint_typed. simpl.
  repeat split; repeat constructor; try (by vm_compute); try (apply small_bytes_ok; by vm_compute); try lia.
Defined.

(** ** [TcpInput] *)

Definition u64_ok (v : Z) : Prop := 0 ≤ v ≤ u64_max.
Definition witness_typed (w : Witness) : Prop :=
  u32_ok (w_start w) ∧ u32_ok (w_end w) ∧ u64_ok (w_frame w) ∧ u64_ok (w_record_offset w) ∧
  u32_ok (w_packet_start w) ∧ u64_ok (w_source_offset w).
Definition witness_octets (w : Witness) : list Z :=
  to_le_bytes 4 (w_start w) ++ to_le_bytes 4 (w_end w) ++ to_le_bytes 8 (w_frame w) ++
  to_le_bytes 8 (w_record_offset w) ++ to_le_bytes 4 (w_packet_start w) ++ to_le_bytes 8 (w_source_offset w).

(** Consecutive spans from [at_] to [n], each inside its packet and the source. *)
Fixpoint covered (at_ : Z) (ws : list Witness) (n : Z) : Prop :=
  match ws with
  | [] => at_ = n
  | w :: ws =>
      w_start w = at_ ∧ at_ < w_end w ∧ w_frame w ≠ 0 ∧
      w_source_offset w + (w_end w - w_start w) ≤ u64_max ∧
      w_packet_start w + (w_end w - w_start w) ≤ u32_max ∧ covered (w_end w) ws n
  end.
Definition witnesses_of (i : Z) (ws : list Witness) : list Witness :=
  filter (λ w, w_start w ≤ i < w_end w) ws.

Lemma covered_le a ws n : covered a ws n → a ≤ n.
Proof. revert a. induction ws as [|w ws IH]; intros a; simpl; [lia|]. intros (? & ? & ? & ? & ? & ?%IH). lia. Qed.

Lemma covered_before i a ws n : covered a ws n → i < a → witnesses_of i ws = [].
Proof.
  revert a. induction ws as [|w ws IH]; intros a; [done|]. simpl. intros (? & ? & ? & ? & ? & H) Hi.
  unfold witnesses_of. rewrite filter_cons_False by lia. apply (IH (w_end w)); [done|lia].
Qed.

Lemma covered_once i a ws n : covered a ws n → a ≤ i < n → ∃ w, witnesses_of i ws = [w].
Proof.
  revert a. induction ws as [|w ws IH]; intros a; simpl; [lia|]. intros (? & ? & ? & ? & ? & H) Hi.
  destruct (decide (i < w_end w)).
  - exists w. unfold witnesses_of. rewrite filter_cons_True by lia. f_equal. by apply (covered_before i (w_end w) ws n).
  - unfold witnesses_of. rewrite filter_cons_False by lia. apply (IH (w_end w)); [done|lia].
Qed.

Lemma wp_witnesses len ws at_ :
  wp (foldM (witness_step len) at_ ws) (λ stop, covered at_ ws stop ∧ (at_ ≤ len → stop ≤ len)) (λ e, code e = Invariant).
Proof.
  revert at_. induction ws as [|w ws IH]; intros at_; cbn [foldM]; [by apply wp_ok|]. apply wp_bind.
  unfold witness_step. destruct (_ || _) eqn:Hw; [by apply wp_err|]. apply wp_ok. bool_facts.
  repeat match goal with H : bool_decide _ = false |- _ => apply bool_decide_eq_false in H end.
  rewrite checked_add_None in *. eapply wp_mono; [apply IH| |done].
  intros stop [Hc Hl]. split; [simpl; split_and!; done || lia|]. intros _. apply Hl. lia.
Qed.

(** The timestamp is the value of an option of the header. *)
Definition timestamp_at (raw : list Z) (header_bytes v : Z) : Prop :=
  ∃ at_, 20 ≤ at_ ∧ at_ + 10 ≤ header_bytes ∧ nthz raw at_ = 8 ∧ nthz raw (at_ + 1) = 10 ∧
    v = from_be_bytes (sub raw (at_ + 2) (at_ + 6)).

Lemma wp_config_validate c :
  wp (config_validate c) (λ _, config_validate c = Ok ()) (λ e, code e = Invariant).
Proof. unfold config_validate. by case_match. Qed.
Lemma wp_key_encode k :
  wp (key_encode k) (λ b, key_accepted k = true ∧ b = key_octets k) (λ e, code e = Invariant).
Proof. rewrite key_encode_spec. by destruct (key_accepted k). Qed.

Lemma wp_u16at raw n (Q : Z → Prop) (R : Error → Prop) :
  0 ≤ n ≤ zlen raw - 2 → Q (from_be_bytes (sub raw n (n + 2))) → wp (u16at raw n) Q R.
Proof. intros. unfold u16at. by wp_go. Qed.
Lemma wp_u32at raw n (Q : Z → Prop) (R : Error → Prop) :
  0 ≤ n ≤ zlen raw - 4 → Q (from_be_bytes (sub raw n (n + 4))) → wp (u32at raw n) Q R.
Proof. intros. unfold u32at. by wp_go. Qed.

Lemma wp_options raw header_bytes :
  bytes_ok raw → 20 ≤ header_bytes ≤ zlen raw →
  wp (loop (S (Z.to_nat header_bytes)) (option_step raw header_bytes) (20, None))
     (λ t, ∀ v, t = Some v → timestamp_at raw header_bytes v) (λ e, code e = Invariant).
Proof.
  intros Hb Hh.
  apply (wp_loop (λ s, 20 ≤ s.1 ≤ header_bytes ∧ ∀ v, s.2 = Some v → timestamp_at raw header_bytes v) (λ s, header_bytes - s.1));
    [|split; [simpl; lia|done]|simpl; lia].
  intros [at_ t] [Hat Ht]. simpl in Hat, Ht. unfold option_step.
  wp_step; [by wp_step|]. wp_step. wp_step. wp_step; [by wp_step|]. wp_step; [wp_step; simpl; split; [split; [lia|done]|lia]|].
  apply wp_bind, wp_ok_or; [|done]. intros n Hn. pose proof (proj1 (get_Some _ _ _) Hn) as [_ Hl].
  apply nthz_lookup in Hl; [|lia]. pose proof (nthz_byte raw (at_ + 1) Hb).
  wp_step; [by wp_step|]. apply wp_bind. wp_step; [wp_step; [by wp_step|]|].
  - wp_step. apply wp_u32at; [lia|]. wp_go. simpl. split; [split; [lia|]|lia].
    intros v [= <-]. exists at_. replace (at_ + 6) with (at_ + 2 + 4) by lia. split_and!; try done; lia.
  - wp_go. simpl. split; [split; [lia|done]|lia].
Qed.

Lemma lor_high x b : 0 ≤ x < 256 → Z.lor x (Z.shiftl (Z.land b 1) 8) = x + 256 * (b mod 2).
Proof.
  intros Hx. change (Z.land b 1) with (Z.land b (Z.ones 1)). rewrite Z.land_ones by lia. change (2 ^ 1) with 2.
  rewrite <- Z.add_nocarry_lor; [rewrite Z.shiftl_mul_pow2 by lia; change (2 ^ 8) with 256; lia|].
  apply Z.bits_inj'. intros n Hn. rewrite Z.land_spec, Z.bits_0. destruct (decide (n < 8)).
  - rewrite Z.shiftl_spec_low by lia. by rewrite andb_false_r.
  - rewrite (Z.bits_above_log2 x n); [done|lia|]. destruct (decide (x = 0)) as [->|]; [simpl; lia|].
    apply Z.log2_lt_pow2; [lia|]. apply (Z.lt_le_trans _ (2 ^ 8)); [lia|]. apply Z.pow_le_mono_r; lia.
Qed.

Definition header_true (key : Key) (direction : Z) (raw : list Z) (p : TcpInput) : Prop :=
  let '(src, dst) := if direction =? 0 then (k_a key, k_b key) else (k_b key, k_a key) in
  from_be_bytes (sub raw 0 2) = port src ∧ from_be_bytes (sub raw 2 4) = port dst ∧
  i_sequence p = from_be_bytes (sub raw 4 8) ∧ i_acknowledgement p = from_be_bytes (sub raw 8 12) ∧
  i_header_bytes p = nthz raw 12 / 16 * 4 ∧ i_flags p = nthz raw 13 + 256 * (nthz raw 12 mod 2) ∧
  i_window p = from_be_bytes (sub raw 14 16) ∧
  20 ≤ i_header_bytes p ≤ zlen raw ∧ i_payload p = sub raw (i_header_bytes p) (zlen raw) ∧
  (∀ v, i_timestamp_value p = Some v → timestamp_at raw (i_header_bytes p) v).

(** What the fields of an observation written in the journal fit into. *)
Definition Observed : Type := Key * Z * Z * option Z * list Z * list Witness.
Definition observed (p : TcpInput) : Observed := (i_key p, i_direction p, i_frame p, i_when p, i_raw p, i_witnesses p).

Lemma tcp_input_new_spec key direction frame when raw ws c :
  bytes_ok raw →
  wp (tcp_input_new key direction frame when raw ws c)
     (λ p, observed p = (key, direction, frame, when, raw, ws) ∧ header_true key direction raw p ∧
           covered 0 ws (zlen raw) ∧ (key_accepted key = true ∧ zlen raw ≤ 65535 ∧ zlen ws ≤ hc_witnesses c) ∧
           direction ≤ 1 ∧ frame ≠ 0)
     (λ e, code e = Invariant).
Proof.
  intros Hb. unfold tcp_input_new. apply wp_bind. eapply wp_mono; [apply wp_config_validate| |done]. intros _ _.
  apply wp_bind. eapply wp_mono; [apply wp_key_encode| |done]. intros _ [Hka _].
  wp_step; [by wp_step|]. bool_facts. wp_step. wp_step. cbv zeta. wp_step; [by wp_step|]. bool_facts.
  unfold contains in *. bool_facts. pose proof (nthz_byte raw 12 Hb). pose proof (nthz_byte raw 13 Hb).
  unfold header_true. destruct (if direction =? 0 then _ else _) as [src dst].
  wp_step. apply wp_u16at; [lia|]. wp_step. apply wp_u16at; [lia|]. wp_step; [by wp_step|].
  wp_step. eapply wp_mono; [apply wp_witnesses| |done]. intros stop [Hc _]. wp_step; [by wp_step|].
  wp_step. eapply wp_mono; [apply wp_options; [done|lia]| |done]. intros t Ht.
  wp_step. apply wp_u32at; [lia|]. wp_step. apply wp_u32at; [lia|]. wp_step. wp_step. wp_step. apply wp_u16at; [lia|].
  wp_step. cbn [i_key i_direction i_frame i_when i_raw i_witnesses i_sequence i_acknowledgement i_flags i_window
    i_timestamp_value i_header_bytes]. bool_facts.
  rewrite Z.shiftr_div_pow2 in * by lia. change (2 ^ 4) with 16 in *.
  split; [done|]. assert (stop = zlen raw) as -> by (by apply Z.eqb_eq). split; [|split_and!; done || lia].
  split_and!; try done; try (by apply Z.eqb_eq); try lia; [by apply lor_high|].
  unfold i_payload, sub. cbn [i_header_bytes i_raw]. rewrite take_ge; [done|]. rewrite length_drop. unfold zlen. lia.
Qed.


#[global] Instance get_witness_codec : Codec get_witness witness_octets witness_typed.
Proof.
  constructor.
  - intros [s e f r p o] d (Hs & He & Hf & Hr & Hp & Ho) Hd Hw. simpl in *. unfold get_witness.
    eapply (complete_step _ s d); [done|done|exact Hw|]. intros ? Hw1.
    eapply (complete_step _ e _); [done|done|exact Hw1|]. intros ? Hw2.
    eapply (complete_step _ f _); [done|done|exact Hw2|]. intros ? Hw3.
    eapply (complete_step _ r _); [done|done|exact Hw3|]. intros ? Hw4.
    eapply (complete_step _ p _); [done|done|exact Hw4|]. intros ? Hw5.
    eapply (complete_step _ o _ []); [done|done|by rewrite app_nil_r|]. intros _ _.
    unfold mret, stateful_ret, witness_octets. simpl. by rewrite !skip_skip, <- !zlen_app.
  - intros d Hd. unfold get_witness. repeat writes. written. done.
Qed.

Definition observed_octets (r : Observed) : list Z :=
  let '(key, direction, frame, when, raw, witnesses) := r in
  blob (key_octets key) ++ [direction] ++ to_le_bytes 8 frame ++
  option_octets (put := λ v, to_le_bytes 16 (as_unsigned 128 v)) when ++ blob raw ++
  to_le_bytes 4 (zlen witnesses) ++ concat (map witness_octets witnesses).
Definition observed_typed (r : Observed) : Prop :=
  let '(key, direction, frame, when, raw, witnesses) := r in
  key_typed key ∧ is_byte direction ∧ u64_ok frame ∧ (match when with Some v => i128_ok v | None => True end) ∧
  bytes_ok raw ∧ Forall witness_typed witnesses.
Definition observed_bounded (c : HConfig) (r : Observed) : Prop :=
  let '(key, _, _, _, raw, witnesses) := r in
  key_accepted key = true ∧ zlen raw ≤ 65535 ∧ zlen witnesses ≤ hc_witnesses c.

Lemma zlen_blob b : zlen (blob b) = 4 + zlen b.
Proof. unfold blob. rewrite zlen_app. unfold zlen at 1. by rewrite length_to_le_bytes. Qed.

Lemma zlen_le n v : zlen (to_le_bytes n v) = Z.of_nat n.
Proof. unfold zlen. by rewrite length_to_le_bytes. Qed.

Lemma zlen_concat_le {A} (f : A → list Z) (k : Z) l : Forall (λ x, zlen (f x) ≤ k) l → zlen (concat (map f l)) ≤ k * zlen l.
Proof.
  induction 1 as [|x l Hx _ IH]; simpl in *; [change (0 ≤ k * 0); lia|]. rewrite zlen_cons, zlen_app. lia.
Qed.

Lemma zlen_endpoint p : endpoint_typed p → zlen (endpoint_octets p) ≤ 19.
Proof.
  intros [Ha _]. unfold endpoint_octets, address_octets. rewrite zlen_app, zlen_le.
  destruct (address p); rewrite zlen_app, zlen_cons, zlen_nil; simpl in Ha; lia.
Qed.

Lemma bytes_ok_concat {A} (f : A → list Z) l : Forall (λ x, bytes_ok (f x)) l → bytes_ok (concat (map f l)).
Proof. induction 1; simpl; [constructor|]. by apply bytes_ok_app. Qed.
Lemma address_octets_ok a : address_typed a → bytes_ok (address_octets a).
Proof. destruct a; intros [_ H]; constructor; done. Qed.

(** Concatenated octets are octets. *)
Ltac octets :=
  repeat first
    [ done | apply to_le_bytes_ok | apply bytes_ok_app; split | apply Forall_cons; split
    | apply Forall_nil | apply bytes_ok_concat ].

(** The largest tuple fits the limit of the journal. *)
Lemma key_octets_fit k : key_typed k → key_accepted k = true → blob_ok 10000 (key_octets k).
Proof.
  intros Ht Hk. pose proof (key_accepted_bounded k Hk) as (Hv & Hts & Hs). 
  assert (zlen (key_octets k) ≤ 10000) as Hle.
  { destruct Ht as (_ & _ & _ & _ & _ & Ha%zlen_endpoint & Hb%zlen_endpoint).
    unfold key_octets, vlan_octets, tunnel_octets, option_octets. rewrite !zlen_app, !zlen_le, !zlen_cons, !zlen_nil.
    assert (zlen (match k_link_interface k with Some a => to_le_bytes 4 a | None => [] end) ≤ 4)
      by (destruct (k_link_interface k); rewrite ?zlen_le, ?zlen_nil; lia).
    assert (zlen (concat (map (to_le_bytes 2) (k_vlans k))) ≤ 2 * zlen (k_vlans k))
      by (apply zlen_concat_le, Forall_true; intros; by rewrite zlen_le).
    assert (zlen (concat (map blob (k_tunnels k))) ≤ 516 * zlen (k_tunnels k))
      by (apply zlen_concat_le; eapply Forall_impl; [exact Hs|]; intros s Hs'; simpl in Hs'; rewrite zlen_blob; lia).
    lia. }
  split; [done|]. split; [lia|]. destruct Ht as (_ & _ & _ & _ & Hs' & [Ha _] & [Hb _]).
  unfold key_octets, vlan_octets, tunnel_octets, option_octets, endpoint_octets. octets.
  - by destruct (k_link_interface k).
  - destruct (k_link_interface k); octets.
  - pose proof (zlen_nonneg (k_vlans k)). unfold is_byte. lia.
  - apply Forall_true. intros. octets.
  - pose proof (zlen_nonneg (k_tunnels k)). unfold is_byte. lia.
  - eapply Forall_impl; [exact Hs'|]. intros s [? _]. unfold blob. octets.
  - by apply address_octets_ok.
  - by apply address_octets_ok.
Qed.

Definition sample_source : SourceIdentity := {| si_sha256 := repeat 0 32; si_bytes := 1 |}.
Definition sample_raw : list Z :=
  [3; 232; 1; 246; 0; 0; 0; 1; 0; 0; 0; 2; 0x80; 0x18; 4; 0; 0; 0; 0; 0; 1; 1; 8; 10; 0; 0; 0; 5; 0; 0; 0; 6; 65; 66].
Definition sample_witnesses : list Witness :=
  [{| w_start := 0; w_end := 30; w_frame := 1; w_record_offset := 24; w_packet_start := 34; w_source_offset := 74 |};
   {| w_start := 30; w_end := 34; w_frame := 2; w_record_offset := 124; w_packet_start := 34; w_source_offset := 174 |}].
Definition sample_input : TcpInput := {|
  i_key := sample_key; i_direction := 0; i_frame := 2; i_when := Some (-5); i_raw := sample_raw;
  i_witnesses := sample_witnesses; i_sequence := 1; i_acknowledgement := 2; i_flags := 24; i_window := 1024;
  i_timestamp_value := Some 5; i_header_bytes := 32 |}.

Lemma witnesses_codec c :
  hc_witnesses c ≤ u32_max →
  Codec (get_counted get_u32 (hc_witnesses c) (limit "witnesses") get_witness)
    (λ l, to_le_bytes 4 (zlen l) ++ concat (map witness_octets l))
    (λ l, zlen l ≤ hc_witnesses c ∧ Forall witness_typed l).
Proof. intros H. apply (get_counted_codec _ _ u32_max); [apply _|apply _|done]. Qed.

Lemma get_tcp_input_codec c :
  hc_witnesses c ≤ u32_max →
  Codec (get_tcp_input c) observed_octets (λ r, observed_typed r ∧ observed_bounded c r).
Proof.
  intros Hc. pose proof (witnesses_codec c Hc) as Hwc. constructor.
  - intros [[[[[k dir] fr] wh] raw] ws] d [(Hk & Hdir & Hfr & Hwh & Hraw & Hws) (Hka & Hl & Hn)] Hd Hw.
    unfold get_tcp_input, observed_octets in *. pose proof (key_octets_fit k Hk Hka) as Hfit.
    eapply (complete_step (get := get_bytes 10000) _ (key_octets k) d); [exact Hfit|done|exact Hw|]. intros ? Hw1.
    assert (key_decode (key_octets k) = Ok k) as ->
      by (apply key_decode_spec; [apply Hfit|unfold blob_ok in Hfit; lia|rewrite key_encode_spec, Hka; done]).
    rewrite lift_step.
    eapply (complete_step _ dir _); [done|done|exact Hw1|]. intros ? Hw2.
    eapply (complete_step _ fr _); [done|done|exact Hw2|]. intros ? Hw3.
    eapply (complete_step _ wh _); [done|done|exact Hw3|]. intros ? Hw4.
    eapply (complete_step (get := get_bytes 65535) _ raw _); [split_and!; done || lia|done|exact Hw4|]. intros ? Hw5.
    eapply (complete_step _ ws _ []); [done|done|by rewrite app_nil_r|]. intros _ _.
    unfold mret, stateful_ret. by rewrite !skip_skip, <- !zlen_app.
  - intros d Hd. unfold get_tcp_input. writes.
    match goal with H : blob_ok 10000 _ |- _ => destruct H as (? & ? & ?) end.
    apply swp_bind, swp_lift. eapply wp_mono; [apply wp_key_decode; [done|lia]| |done]. intros k (Hk & Hka & ->).
    repeat writes. written.
    by unfold blob_ok, observed_typed, observed_bounded in *; destruct_and?; split_and!.
Qed.

Lemma put_witness_octets e w : put_witness e w = e ++ witness_octets w.
Proof. unfold put_witness, put_u64, put_u32, witness_octets. by rewrite <- !app_assoc. Qed.

Lemma tcp_input_encode_ok c p :
  observed_bounded c (observed p) → hc_witnesses c ≤ u32_max → blob_ok 10000 (key_octets (i_key p)) →
  tcp_input_encode p = Ok (observed_octets (observed p)).
Proof.
  unfold observed_bounded, observed. intros (Hk & Hl & Hn) Hc (Hfit & _).
  unfold tcp_input_encode, observed_octets. rewrite key_encode_spec, Hk. cbn [mbind res_bind].
  rewrite put_bytes_ok by lia. cbn [mbind res_bind]. rewrite put_bytes_ok by lia. cbn [mbind res_bind].
  rewrite (proj2 (Z.ltb_ge _ _)) by lia. cbn [mbind res_bind]. f_equal.
  rewrite (foldl_put _ witness_octets) by apply put_witness_octets. unfold put_option_i128.
  rewrite (put_option_octets put_i128 (λ v, to_le_bytes 16 (as_unsigned 128 v))) by done.
  unfold put_u64, put_u8, put_u32. rewrite app_nil_l, <- !app_assoc. done.
Qed.

Definition input_of (c : HConfig) (r : Observed) : result TcpInput :=
  let '(key, direction, frame, when, raw, witnesses) := r in tcp_input_new key direction frame when raw witnesses c.

Lemma tcp_input_decode_eq b c :
  tcp_input_decode b c = decode_all (r ← get_tcp_input c; finish ;; lift (input_of c r)) b.
Proof.
  unfold tcp_input_decode, decode_all, mbind, stateful_bind.
  by destruct (get_tcp_input c (decoder_new b)) as [d [[[[[[k dir] fr] wh] raw] ws]|e| |]].
Qed.

(** What is written of an observation is read back as what its packet makes of it. *)
Lemma observed_octets_fit c r :
  config_validate c = Ok () → observed_typed r → observed_bounded c r →
  bytes_ok (observed_octets r) ∧ zlen (observed_octets r) ≤ i64_max.
Proof.
  destruct r as [[[[[k dir] fr] wh] raw] ws]. intros Hc (Hk & Hdir & _ & _ & Hraw & _) (Hka & Hl & Hn).
  destruct (key_octets_fit k Hk Hka) as (Hkl & _ & Hkb). unfold observed_octets, option_octets. split.
  - unfold blob. octets; try (by destruct wh; octets). apply Forall_true. intros w. unfold witness_octets. octets.
  - rewrite !zlen_app, !zlen_blob, !zlen_le, !zlen_cons, !zlen_nil.
    assert (zlen (match wh with Some a => to_le_bytes 16 (as_unsigned 128 a) | None => [] end) ≤ 16)
      by (destruct wh; rewrite ?zlen_le, ?zlen_nil; lia).
    assert (zlen (concat (map witness_octets ws)) ≤ 36 * zlen ws).
    { apply zlen_concat_le, Forall_true. intros w. unfold witness_octets. rewrite !zlen_app, !zlen_le. lia. }
    destruct (config_bounds c Hc). lia.
Qed.

Lemma wp_rederive c p :
  config_validate c = Ok () → observed_typed (observed p) → zlen (i_raw p) ≤ 65535 → zlen (i_witnesses p) ≤ hc_witnesses c →
  wp (tcp_input_encode p) (λ b, tcp_input_decode b c = input_of c (observed p)) (λ _, True).
Proof.
  intros Hc Ht Hr Hn. destruct (key_accepted (i_key p)) eqn:Hk.
  - assert (hc_witnesses c ≤ u32_max) as Hw by (destruct (config_bounds c Hc); lia).
    assert (observed_bounded c (observed p)) as Hbd by done.
    rewrite (tcp_input_encode_ok c) by (done || by apply key_octets_fit; [apply Ht|]). apply wp_ok.
    rewrite tcp_input_decode_eq. pose proof (get_tcp_input_codec c Hw).
    destruct (observed_octets_fit c _ Hc Ht Hbd).
    by refine (whole_back (get := get_tcp_input c) (input_of c) (observed p) _ _ _).
  - unfold tcp_input_encode. rewrite key_encode_spec, Hk. done.
Qed.

(** What a journal record shows is a well-formed observation, encoded as the record. *)
Lemma wp_tcp_input_decode b c :
  bytes_ok b → zlen b ≤ i64_max → config_validate c = Ok () →
  wp (tcp_input_decode b c)
     (λ p, observed_typed (observed p) ∧ observed_bounded c (observed p) ∧ b = observed_octets (observed p) ∧
           tcp_input_new (i_key p) (i_direction p) (i_frame p) (i_when p) (i_raw p) (i_witnesses p) c = Ok p ∧
           header_true (i_key p) (i_direction p) (i_raw p) p ∧ covered 0 (i_witnesses p) (zlen (i_raw p)))
     (λ _, True).
Proof.
  intros Hb Hl Hc. assert (hc_witnesses c ≤ u32_max) as Hw by (destruct (config_bounds c Hc); lia).
  pose proof (get_tcp_input_codec c Hw) as Hcodec. rewrite tcp_input_decode_eq.
  eapply wp_mono; [apply (whole_then (A := Observed) (get := get_tcp_input c) (input_of c) b (λ _, True) Hb Hl)| |done].
  - intros [[[[[k dir] fr] wh] raw] ws] [(_ & _ & _ & _ & Hraw & _) _] _.
    eapply wp_mono; [by apply tcp_input_new_spec|done|done].
  - intros p (r & [Ht Hbd] & -> & Hnew). destruct r as [[[[[k dir] fr] wh] raw] ws]. simpl in Hnew.
    pose proof (tcp_input_new_spec k dir fr wh raw ws c) as Hs. rewrite Hnew in Hs.
    destruct Hs as (Heq & Hh & Hcov & _); [apply Ht|]. rewrite <- Heq in Ht, Hbd |- *. by injection Heq as <- <- <- <- <- <-.
Qed.

(** C27: an observation is read back from a journal record exactly as it was written: a byte
    string decodes to [p] exactly when [p] is what its tuple, packet and witnesses make
    an observation and [p] is encoded so.  No record with altered, missing or added octets
    is taken for [p]. *)
Theorem tcp_input_exact b c p :
  bytes_ok b → zlen b ≤ i64_max → config_validate c = Ok () →
  tcp_input_decode b c = Ok p ↔
  observed_typed (observed p) ∧
  tcp_input_new (i_key p) (i_direction p) (i_frame p) (i_when p) (i_raw p) (i_witnesses p) c = Ok p ∧
  tcp_input_encode p = Ok b.
Proof.
  intros Hb Hl Hc. assert (hc_witnesses c ≤ u32_max) as Hw by (destruct (config_bounds c Hc); lia).
  pose proof (get_tcp_input_codec c Hw) as Hcodec. split.
  - intros H. destruct (wp_value _ _ _ _ (wp_tcp_input_decode b c Hb Hl Hc) H) as (Ht & Hbd & -> & Hnew & _).
    split; [done|]. split; [done|]. apply (tcp_input_encode_ok c); [done|done|]. apply key_octets_fit; [apply Ht|apply Hbd].
  - intros (Ht & Hnew & He). pose proof (tcp_input_new_spec (i_key p) (i_direction p) (i_frame p) (i_when p) (i_raw p) (i_witnesses p) c) as Hs.
    rewrite Hnew in Hs. destruct Hs as (_ & _ & _ & Hbd & _); [apply Ht|].
    rewrite (tcp_input_encode_ok c) in He by (done || by apply key_octets_fit; [apply Ht|apply Hbd]). injection He as <-.
    rewrite tcp_input_decode_eq.
    by refine (eq_trans (whole_back (get := get_tcp_input c) (input_of c) (observed p) _ _ _) _).
Qed.
Lemma tcp_input_exact_witness :
  tcp_input_decode (observed_octets (observed sample_input)) hconfig_default = Ok sample_input.
Proof.
  apply tcp_input_exact; [apply small_bytes_ok; by vm_compute|by vm_compute|by vm_compute|].
  split; [|split; by vm_compute]. unfold observed, observed_typed, key_typed, string_ok, endpoint_typed. simpl.
  repeat split; repeat constructor; try (by vm_compute); try (apply small_bytes_ok; by vm_compute); try lia.
Defined.
