(* ===== verification/HistState.v ===== *)
(** * Generations of a tuple ([src/history/src/state.rs])

    A tuple's observations are placed in generations of the connection.  A packet has
    one candidate place for every generation and wire-sequence epoch it may belong to; a
    generation changes only when a packet has a single candidate, or when the policy
    chooses the nearest one.  The [Store] of states on disk is not modelled. *)

From S2P Require Import Prelude Errors Stateful Json Ord Sha256 Wire Codec HistModel.

(** ** Arrays of two *)

(** [a[direction]] of an array of two; [TcpInput::new] admits the directions 0 and 1. *)
Definition side {A} (direction : Z) (a : A * A) : A := if direction =? 0 then a.1 else a.2.
Definition set_side {A} (direction : Z) (x : A) (a : A * A) : A * A :=
  if direction =? 0 then (x, a.2) else (a.1, x).

(** ** [Generation] *)

Record Generation : Type := {
  g_id : list Z;
  birth : Z;
  syn : option Z * option Z;
  anchor : option Z * option Z;
  low : Z * Z;
  high : Z * Z;
  fin : option Z * option Z;
  g_reset : bool;
  midstream : bool;
  last_time : option Z;
}.
#[global] Instance Generation_eq_dec : EqDecision Generation.
Proof. solve_decision. Defined.

Definition is_some {A} (o : option A) : bool := if o then true else false.

(** [Generation::closed]. *)
Definition closed (g : Generation) : bool := g_reset g || (is_some (fin g).1 && is_some (fin g).2).

(** The loops over an array of two, and the fields of one. *)
Definition put_two {A} (put : list Z → A → list Z) (e : list Z) (a : A * A) : list Z := put (put e a.1) a.2.
Definition get_two {A} (get : Reading A) : Reading (A * A) := a ← get; b ← get; mret (a, b).

(** [Generation::encode] and [Generation::decode]. *)
Definition put_generation (e : list Z) (g : Generation) : list Z :=
  let e := put_u64 (put_hash e (g_id g)) (birth g) in
  let e := put_two put_option_u32 (put_two put_option_u32 e (syn g)) (anchor g) in
  let e := put_two put_i64 (put_two put_i64 e (low g)) (high g) in
  let e := put_two put_option_i64 e (fin g) in
  put_option_i128 (put_bool (put_bool e (g_reset g)) (midstream g)) (last_time g).
Definition get_generation : Reading Generation :=
  id ← get_hash;
  born ← get_u64;
  s ← get_two get_option_u32;
  a ← get_two get_option_u32;
  l ← get_two get_i64;
  h ← get_two get_i64;
  f ← get_two get_option_i64;
  r ← get_bool;
  m ← get_bool;
  t ← get_option_i128;
  mret {| g_id := id; birth := born; syn := s; anchor := a; low := l; high := h; fin := f;
          g_reset := r; midstream := m; last_time := t |}.

(** ** [Placement] and [Decision] *)

Record Placement : Type := {
  p_generation : list Z;
  p_direction : Z;
  p_offset : Z;
  p_selected : bool;
}.
#[global] Instance Placement_eq_dec : EqDecision Placement.
Proof. solve_decision. Defined.

Record Decision : Type := {
  before : list Z;
  after : list Z;
  placements : list Placement;
  reasons : list (list Z);
  policy_assumption : bool;
}.
#[global] Instance Decision_eq_dec : EqDecision Decision.
Proof. solve_decision. Defined.

(** A length that must fit 32 bits. *)
Definition count32 {A} (l : list A) (fld : string) : result Z :=
  if u32_max <? zlen l then Err (limit fld) else Ok (zlen l).

(** [Decision::encode] and [Decision::decode]. *)
Definition put_placement (e : list Z) (p : Placement) : list Z :=
  put_bool (put_i64 (put_u8 (put_hash e (p_generation p)) (p_direction p)) (p_offset p)) (p_selected p).
Definition decision_encode (d : Decision) : result (list Z) :=
  let e := put_bool (put_hash (put_hash [] (before d)) (after d)) (policy_assumption d) in
  n ← count32 (placements d) "history_candidates";
  let e := foldl put_placement (put_u32 e n) (placements d) in
  m ← count32 (reasons d) "history_reasons";
  put_texts (put_u32 e m) (reasons d).
Definition get_placement : Reading Placement :=
  p ← (g ← get_hash;
       dir ← get_u8;
       at_ ← get_i64;
       s ← get_bool;
       mret {| p_generation := g; p_direction := dir; p_offset := at_; p_selected := s |});
  if p_direction p <=? 1 then mret p else throw (bad "history_direction" "invalid direction").
Definition get_decision (c : HConfig) : Reading Decision :=
  b ← get_hash;
  a ← get_hash;
  assumption ← get_bool;
  ps ← get_counted get_u32 (Z.min usize_max (hc_generations c * hc_epoch_candidates c)) (limit "history_candidates") get_placement;
  rs ← get_counted get_u32 32 (limit "history_reasons") (get_text 256);
  mret {| before := b; after := a; placements := ps; reasons := rs; policy_assumption := assumption |}.
Definition decision_decode (b : list Z) (c : HConfig) : result Decision :=
  decode_all (d ← get_decision c; finish ;; mret d) b.

(** ** [TupleState] *)

Record TupleState : Type := { t_key : Key; generations : list Generation }.
#[global] Instance TupleState_eq_dec : EqDecision TupleState.
Proof. solve_decision. Defined.
Definition tuple_new (key : Key) : TupleState := {| t_key := key; generations := [] |}.

(** [TupleState::encode] and [TupleState::decode]. *)
Definition tuple_encode (s : TupleState) : result (list Z) :=
  key ← key_encode (t_key s);
  e ← put_bytes [] key;
  n ← count32 (generations s) "generations";
  Ok (foldl put_generation (put_u32 e n) (generations s)).
Definition get_tuple (c : HConfig) : Reading TupleState :=
  kb ← get_bytes 10000;
  key ← lift (key_decode kb);
  gs ← get_counted get_u32 (hc_generations c) (limit "generations") get_generation;
  mret {| t_key := key; generations := gs |}.
Definition bounds_invalid (g : Generation) : bool :=
  (birth g =? 0) || ((low g).1 >? (high g).1) || ((low g).2 >? (high g).2).
Definition tuple_decode (b : list Z) (c : HConfig) : result TupleState :=
  decode_all (s ← get_tuple c; finish ;;
    lift (if existsb bounds_invalid (generations s) then Err (bad "history_state" "invalid generation bounds")
          else Ok s)) b.

(** [TupleState::create]: the state with the new generation, and its place. *)
Definition create (st : TupleState) (p : TcpInput) (s : SourceIdentity) (c : HConfig) : result (TupleState * Z) :=
  if hc_generations c <=? zlen (generations st) then Err (limit "generations_per_tuple") else
  seed ← put_text [] (text "pcap-evidence/history-generation/v1");
  key ← key_encode (t_key st);
  seed ← put_bytes (put_hash seed (si_sha256 s)) key;
  id ← digest (put_u64 (put_u64 seed (i_frame p)) (zlen (generations st)));
  let g := {| g_id := id; birth := i_frame p; syn := (None, None); anchor := (None, None); low := (0, 0);
              high := (0, 0); fin := (None, None); g_reset := false;
              midstream := negb (i_syn p) || i_ack p; last_time := None |} in
  Ok ({| t_key := t_key st; generations := generations st ++ [g] |}, zlen (generations st)).

(** ** [epoch_candidates] *)

(** [i64::try_from] of an [i128]. *)
Definition i64_try_from (v : Z) (e : Error) : result Z :=
  if (i64_min <=? v) && (v <=? i64_max) then Ok v else Err e.
Fixpoint mapM {A B} (f : A → result B) (l : list A) : result (list B) :=
  match l with
  | [] => Ok []
  | a :: l => b ← f a; bs ← mapM f l; Ok (b :: bs)
  end.
Definition epoch_candidates (sequence anchor low high max : Z) : result (list Z) :=
  if (high <? low) || (max =? 0) || (64 <? max) then Err (bad "sequence_epoch" "invalid range/budget") else
  let residue := wrapping_sub 32 sequence anchor in
  let first := (low - residue + MODULUS - 1) / MODULUS in
  let last := (high - residue) / MODULUS in
  if last <? first then Ok []
  else if max <? last - first + 1 then Err (limit "sequence_epoch_candidates")
  else mapM (λ k, i64_try_from (residue + k * MODULUS) (limit "sequence_epoch")) (seqZ first (last - first + 1)).

(** ** [TupleState::ingest] *)

(** Places in the generations: the generation's position, and the offset in it. *)
Definition Candidates : Type := list (Z * Z).
Definition Reasons : Type := list (list Z).

(** A SYN that a generation has seen already. *)
Definition repeated_syn (p : TcpInput) (ig : Z * Generation) : Candidates :=
  let '(i, g) := ig in
  if negb (closed g) && bool_decide (side (i_direction p) (syn g) = Some (i_sequence p)) then [(i, 0)] else [].
(** A generation opened from the other end only, without data. *)
Definition simultaneous (direction : Z) (g : Generation) : bool :=
  negb (closed g) && negb (midstream g) && negb (is_some (side direction (syn g)))
  && is_some (side (1 - direction) (syn g)) && bool_decide (high g = (0, 0)).
Definition syn_candidates (st : TupleState) (p : TcpInput) (s : SourceIdentity) (c : HConfig)
    : result (TupleState * Candidates * Reasons) :=
  let candidates := concat (map (repeated_syn p) (enumerate (generations st))) in
  if bool_decide (candidates = []) then
    if match last (generations st) with Some g => simultaneous (i_direction p) g | None => false end
    then Ok (st, [(zlen (generations st) - 1, 0)], [text "simultaneous_open_candidate"])
    else
      r ← create st p s c;
      let '(st, i) := r in
      Ok (st, [(i, 0)], [text "observed_syn_generation_boundary"])
  else Ok (st, candidates, [text "repeated_syn_candidate_not_endpoint_identity"]).

(** The places of any other packet in one generation; [continue] leaves it without. *)
Definition excluded_syn (p : TcpInput) (g : Generation) : bool :=
  i_syn p &&
  (closed g
   || (match side (i_direction p) (syn g) with Some x => negb (x =? i_sequence p) | None => false end)
   || (match side (1 - i_direction p) (syn g) with
       | Some peer => negb (i_ack p) || negb (i_acknowledgement p =? wrapping_add 32 peer 1)
       | None => false
       end)).
Definition data_candidates (p : TcpInput) (c : HConfig) (ig : Z * Generation) : result Candidates :=
  let '(i, g) := ig in
  let direction := i_direction p in
  if excluded_syn p g then Ok [] else
  match side direction (anchor g) with
  | Some a =>
      hi ← (if closed g then Ok (side direction (high g))
            else i64_try_from (side direction (high g) + hc_sequence_horizon c) (limit "sequence_span"));
      lo ← (if is_some (side direction (syn g)) then Ok 0
            else i64_try_from (side direction (low g) - hc_sequence_horizon c) (limit "sequence_span"));
      ats ← epoch_candidates (i_data_sequence p) a lo hi (hc_epoch_candidates c);
      Ok (map (pair i) ats)
  | None => Ok (if closed g then [] else [(i, 0)])
  end.
Definition other_candidates (st : TupleState) (p : TcpInput) (s : SourceIdentity) (c : HConfig)
    : result (TupleState * Candidates * Reasons) :=
  candidates ← foldM (λ out ig, l ← data_candidates p c ig; Ok (out ++ l)) [] (enumerate (generations st));
  if bool_decide (candidates = []) && i_syn p then
    r ← create st p s c;
    let '(st, i) := r in
    Ok (st, [(i, 0)], [text "syn_ack_without_observed_generation"])
  else Ok (st, candidates, []).
Definition find_candidates (st : TupleState) (p : TcpInput) (s : SourceIdentity) (c : HConfig)
    : result (TupleState * Candidates * Reasons) :=
  if i_syn p && negb (i_ack p) then syn_candidates st p s c
  else if bool_decide (generations st = []) then
    r ← create st p s c;
    let '(st, i) := r in
    Ok (st, [(i, 0)], [text "missing_initial_syn"])
  else other_candidates st p s c.

(** The distances to the frontier, in order, with the candidates they belong to. *)
Definition ranked (g : Generation) (direction : Z) (cs : Candidates) : list (Z * Z) :=
  sort (map (λ ja, (Z.abs (ja.2.2 - side direction (high g)), ja.1)) (enumerate cs)).
Definition nearest (g : Generation) (direction : Z) (cs : Candidates) : result (option Z) :=
  match ranked g direction cs with
  | [] => Panic
  | [r0] => Ok (Some r0.2)
  | r0 :: r1 :: _ => Ok (if r0.1 <? r1.1 then Some r0.2 else None)
  end.
(** The candidate that is selected, and whether the policy did it. *)
Definition select (c : HConfig) (st : TupleState) (direction : Z) (cs : Candidates) : result (option Z * bool) :=
  if (1 <? zlen cs) && bool_decide (hc_epoch_policy c = NearestFrontier)
     && forallb (λ x, match head cs with Some y => x.1 =? y.1 | None => false end) cs
  then
    first ← index cs 0;
    g ← index (generations st) first.1;
    j ← nearest g direction cs;
    Ok (j, is_some j)
  else Ok (if zlen cs =? 1 then Some 0 else None, false).

(** The generation a packet was placed in at [at_], and what there is to say of it. *)
Definition said (b : bool) (reason : string) : Reasons := if b then [text reason] else [].
Definition place (g : Generation) (p : TcpInput) (at_ : Z) : result (Generation * Reasons) :=
  let direction := i_direction p in
  let late := said (closed g) "late_packet_after_observed_close" in
  let reversal := said (match i_when p, last_time g with Some now, Some last => now <? last | _, _ => false end)
                    "capture_clock_reversal" in
  let untimed := said (negb (is_some (i_when p))) "timestamp_unavailable" in
  let time := match i_when p with
              | Some t => Some (match last_time g with Some old => Z.max old t | None => t end)
              | None => last_time g
              end in
  stop ← i64_try_from (at_ + zlen (i_payload p)) (limit "sequence_span");
  let beyond := said (match side direction (fin g) with
                      | Some f => (f <? stop) && negb (zlen (i_payload p) =? 0)
                      | None => false
                      end) "payload_beyond_observed_fin" in
  let conflict := i_fin p && match side direction (fin g) with Some old => negb (old =? stop) | None => false end in
  Ok ({| g_id := g_id g; birth := birth g;
         syn := if i_syn p then set_side direction (Some (i_sequence p)) (syn g) else syn g;
         anchor := match side direction (anchor g) with
                   | Some _ => anchor g
                   | None => set_side direction (Some (i_data_sequence p)) (anchor g)
                   end;
         low := set_side direction (Z.min (side direction (low g)) at_) (low g);
         high := set_side direction (Z.max (side direction (high g)) stop) (high g);
         fin := if i_fin p && negb conflict then set_side direction (Some stop) (fin g) else fin g;
         g_reset := g_reset g || i_rst p; midstream := midstream g; last_time := time |},
      late ++ reversal ++ untimed ++ beyond ++ said conflict "conflicting_fin_position").
Definition settle (st : TupleState) (p : TcpInput) (cs : Candidates) (selected : option Z)
    : result (TupleState * Reasons) :=
  match selected with
  | None => Ok (st, [])
  | Some j =>
      ia ← index cs j;
      g ← index (generations st) ia.1;
      r ← place g p ia.2;
      let '(g, said) := r in
      Ok ({| t_key := t_key st; generations := <[Z.to_nat ia.1 := g]> (generations st) |}, said)
  end.
Definition placement_of (st : TupleState) (direction : Z) (selected : option Z) (jc : Z * (Z * Z)) : result Placement :=
  let '(j, (i, at_)) := jc in
  g ← index (generations st) i;
  Ok {| p_generation := g_id g; p_direction := direction; p_offset := at_;
        p_selected := bool_decide (selected = Some j) |}.

(** [ingest_inner] once the packet was read again and [old] is the digest of the state. *)
Definition decide_packet (st : TupleState) (p : TcpInput) (s : SourceIdentity) (c : HConfig) (old : list Z)
    : result (TupleState * Decision) :=
  r ← find_candidates st p s c;
  let '(st, candidates, found) := r in
  r ← select c st (i_direction p) candidates;
  let '(selected, assumption) := r in
  r ← settle st p candidates selected;
  let '(st, placed) := r in
  ps ← mapM (placement_of st (i_direction p) selected) (enumerate candidates);
  e ← tuple_encode st;
  new ← digest e;
  Ok (st, {| before := old; after := new; placements := ps;
             reasons := found
               ++ said assumption "nearest_frontier_epoch_assumption_alternatives_retained"
               ++ said (1 <? zlen candidates) "multiple_generation_or_sequence_epoch_candidates"
               ++ said (zlen candidates =? 0) "outside_observed_generation_hypotheses"
               ++ said (i_window p =? 0) "zero_advertised_window_no_scale_inference" ++ placed;
             policy_assumption := assumption |}).

(** [ingest_inner]: the state it leaves, where it succeeds. *)
Definition ingest_inner (st : TupleState) (input : TcpInput) (s : SourceIdentity) (c : HConfig)
    : result (TupleState * Decision) :=
  config_validate c ;;
  e ← tcp_input_encode input;
  p ← tcp_input_decode e c;
  if negb (bool_decide (i_key p = t_key st)) then Err (bad "history_key" "input tuple changed") else
  e ← tuple_encode st;
  old ← digest e;
  decide_packet st p s c old.

(** [ingest]: a copy of the state is worked on, and kept only on success. *)
Definition ingest (input : TcpInput) (s : SourceIdentity) (c : HConfig) : Stateful TupleState Decision := λ st,
  match (config_validate c ;;
         (if (65535 <? zlen (i_raw input)) || (hc_witnesses c <? zlen (i_witnesses input))
             || (hc_generations c <? zlen (generations st)) then Err (limit "history_state_input") else Ok ()) ;;
         key_encode (t_key st) ;;
         ingest_inner st input s c) with
  | Ok (candidate, decision) => (candidate, Ok decision)
  | Err e => (st, Err e)
  | Panic => (st, Panic)
  | OutOfFuel => (st, OutOfFuel)
  end.
