(* ===== verification/HistStateFacts.v ===== *)
(** * Generations, placements and their records

    The wire-sequence epochs of a packet are enumerated exactly; a tuple's state stays
    well formed, is left alone by an observation that is refused, and only widens what it
    has observed; states and decisions are decoded from their encodings. *)

From S2P Require Import Prelude Errors Stateful Json Ord Sha256 Wire ModbusFacts Codec CodecFacts HistModel HistModelFacts HistState.
From Stdlib Require Import Sorting.

(** ** [epoch_candidates] *)

Section mapM.
Context {A B : Type}.
Lemma mapM_total (f : A → result B) (g : A → B) l : (∀ a, a ∈ l → f a = Ok (g a)) → mapM f l = Ok (map g l).
Proof.
  induction l as [|a l IH]; intros H; [done|]. simpl. rewrite H by set_solver. cbn [mbind res_bind].
  by rewrite IH by set_solver.
Qed.

Lemma wp_mapM (f : A → result B) l (P : A → B → Prop) (R : Error → Prop) :
  (∀ a, a ∈ l → wp (f a) (P a) R) → wp (mapM f l) (λ bs, Forall2 P l bs) R.
Proof.
  induction l as [|a l IH]; intros H; simpl; [by constructor|]. apply wp_bind.
  eapply wp_mono; [apply H; set_solver| |done]. intros b Hb. apply wp_bind.
  eapply wp_mono; [apply IH; set_solver| |done]. intros bs Hbs. apply wp_ok. by constructor.
Qed.
End mapM.

(** The offsets in a range that a wire sequence number stands for. *)
Definition alias (sequence anchor at_ : Z) : Prop := (at_ - (sequence - anchor)) mod MODULUS = 0.

Lemma alias_iff sequence anchor at_ :
  alias sequence anchor at_ ↔ ∃ k, at_ = wrapping_sub 32 sequence anchor + k * MODULUS.
Proof.
  unfold alias, wrapping_sub. change (2 ^ 32) with MODULUS. assert (MODULUS = 4294967296) as HM by done. split.
  - intros H. exists ((at_ - (sequence - anchor)) / MODULUS + (sequence - anchor) / MODULUS). rewrite HM in *. dlia.
  - intros [k ->]. rewrite HM in *. dlia.
Qed.

Lemma first_epoch lo residue k : lo ≤ residue + k * MODULUS ↔ (lo - residue + MODULUS - 1) / MODULUS ≤ k.
Proof. change MODULUS with 4294967296. dlia. Qed.
Lemma last_epoch hi residue k : residue + k * MODULUS ≤ hi ↔ k ≤ (hi - residue) / MODULUS.
Proof. change MODULUS with 4294967296. dlia. Qed.

Lemma i64_try_from_ok v e : i64_min ≤ v ≤ i64_max → i64_try_from v e = Ok v.
Proof. intros [H1 H2]. unfold i64_try_from. by rewrite (proj2 (Z.leb_le _ _) H1), (proj2 (Z.leb_le _ _) H2). Qed.

Lemma epochs_sorted r m n : StronglySorted Z.lt (map (λ k, r + k * MODULUS) (seqZ m n)).
Proof.
  unfold seqZ. rewrite map_map. generalize 0%nat as o. induction (Z.to_nat n) as [|j IH]; intros o; [constructor|].
  simpl. constructor; [apply IH|]. apply Forall_forall. intros x Hx.
  apply list_elem_of_In, in_map_iff in Hx as (i & <- & Hi%in_seq). change MODULUS with 4294967296. lia.
Qed.

Lemma wp_epochs sequence anchor lo hi max :
  i64_min ≤ lo → hi ≤ i64_max → 0 ≤ max →
  wp (epoch_candidates sequence anchor lo hi max)
     (λ l, lo ≤ hi ∧ 0 < max ≤ 64 ∧ zlen l ≤ max ∧ StronglySorted Z.lt l ∧
           ∀ x, x ∈ l ↔ lo ≤ x ≤ hi ∧ alias sequence anchor x)
     (λ e, code e = Invariant ∧ (hi < lo ∨ max = 0 ∨ 64 < max) ∨
           e = limit "sequence_epoch_candidates" ∧
           ∃ x, alias sequence anchor x ∧ lo ≤ x ∧ x + max * MODULUS ≤ hi).
Proof.
  intros Hlo Hhi Hmax. unfold epoch_candidates. set (residue := wrapping_sub 32 sequence anchor).
  set (first := (lo - residue + MODULUS - 1) / MODULUS). set (last := (hi - residue) / MODULUS).
  assert (∀ k, first ≤ k ≤ last ↔ lo ≤ residue + k * MODULUS ≤ hi) as Hk
    by (intros k; unfold first, last; by rewrite <- first_epoch, <- last_epoch).
  wp_step; [wp_step; left; split; [done|lia]|]. cbv zeta. bool_facts. wp_step; [|wp_step].
  - apply wp_ok. split_and!; try lia; [done|constructor|]. intros x. split; [set_solver|].
    intros [Hx [k ->]%alias_iff]. apply Hk in Hx. lia.
  - apply wp_err. right. split; [done|]. exists (residue + first * MODULUS). split; [apply alias_iff; by exists first|].
    pose proof (proj1 (Hk first) ltac:(lia)). pose proof (proj1 (Hk last) ltac:(lia)).
    change MODULUS with 4294967296 in *. nia.
  - rewrite (mapM_total _ (λ k, residue + k * MODULUS)).
    + apply wp_ok. split_and!; try lia; [|apply epochs_sorted|].
      * unfold zlen. rewrite length_map, length_seqZ. lia.
      * intros x. rewrite list_elem_of_In, in_map_iff. split.
        -- intros (k & <- & Hin%list_elem_of_In%elem_of_seqZ). split; [apply Hk; lia|]. apply alias_iff. by exists k.
        -- intros [Hx [k ->]%alias_iff]. exists k. split; [done|]. apply list_elem_of_In, elem_of_seqZ.
           apply Hk in Hx. lia.
    + intros k Hin%elem_of_seqZ. apply i64_try_from_ok. pose proof (proj1 (Hk k) ltac:(lia)). lia.
Qed.

(** ** A well-formed state *)

Definition option_all {A} (P : A → Prop) (o : option A) : Prop := match o with Some a => P a | None => True end.

(** One end of a generation: what was observed surrounds the origin, a FIN lies inside, and
    nothing is known of an end without an anchor. *)
Definition side_ok (g : Generation) (d : Z) : Prop :=
  i64_min ≤ side d (low g) ≤ 0 ∧ 0 ≤ side d (high g) ≤ i64_max ∧
  option_all u32_ok (side d (syn g)) ∧ option_all u32_ok (side d (anchor g)) ∧
  option_all (λ f, side d (low g) ≤ f ≤ side d (high g)) (side d (fin g)) ∧
  (side d (anchor g) = None →
   side d (syn g) = None ∧ side d (fin g) = None ∧ side d (low g) = 0 ∧ side d (high g) = 0).
Definition gen_ok (g : Generation) : Prop :=
  hash_ok (g_id g) ∧ 0 < birth g ≤ u64_max ∧ (∀ d, side_ok g d) ∧ option_all i128_ok (last_time g).
Definition state_ok (c : HConfig) (st : TupleState) : Prop :=
  key_typed (t_key st) ∧ zlen (generations st) ≤ hc_generations c ∧ Forall gen_ok (generations st).

Lemma side_set {A} d d' (x : A) a :
  side d' (set_side d x a) = if bool_decide (d = 0 ↔ d' = 0) then x else side d' a.
Proof.
  unfold side, set_side. destruct (Z.eqb_spec d 0), (Z.eqb_spec d' 0); case_bool_decide; simpl; tauto.
Qed.

Lemma sides {A} (P : A → Prop) (a : A * A) : (∀ d, P (side d a)) ↔ P a.1 ∧ P a.2.
Proof.
  split; [intros H; split; [apply (H 0)|apply (H 1)]|]. intros [? ?] e. unfold side. by destruct (e =? 0).
Qed.

(** What a generation keeps when it sees another packet. *)
Definition kept {A} (o o' : option A) : Prop := match o with Some a => o' = Some a | None => True end.
Definition gen_extends (g g' : Generation) : Prop :=
  g_id g' = g_id g ∧ birth g' = birth g ∧ midstream g' = midstream g ∧
  (∀ d, side d (low g') ≤ side d (low g) ∧ side d (high g) ≤ side d (high g') ∧
        kept (side d (syn g)) (side d (syn g')) ∧ kept (side d (anchor g)) (side d (anchor g')) ∧
        kept (side d (fin g)) (side d (fin g'))) ∧
  (g_reset g = true → g_reset g' = true) ∧
  match last_time g with Some t => ∃ t', last_time g' = Some t' ∧ t ≤ t' | None => True end.

Lemma gen_extends_refl g : gen_extends g g.
Proof.
  unfold gen_extends, kept. split_and!; try done.
  - intros d. split_and!; try lia; by case_match.
  - case_match; eauto with lia.
Qed.

(** A packet with typed fields, and a place for it that its SYN does not contradict. *)
Definition packet_ok (p : TcpInput) : Prop :=
  (i_direction p = 0 ∨ i_direction p = 1) ∧ u32_ok (i_sequence p) ∧ option_all i128_ok (i_when p) ∧
  0 < i_frame p ≤ u64_max.
Definition syn_fits (p : TcpInput) (g : Generation) : Prop :=
  i_syn p = true → ∀ x, side (i_direction p) (syn g) = Some x → x = i_sequence p.

Lemma data_sequence_u32 p : u32_ok (i_data_sequence p).
Proof.
  unfold i_data_sequence, wrapping_add, u32_ok. pose proof (Z.mod_pos_bound (i_sequence p + Z.b2z (i_syn p)) (2 ^ 32)). lia.
Qed.

Section place.
Context (g : Generation) (p : TcpInput) (at_ : Z).

(** The fields of the generation that [place] makes. *)
Definition placed (stop : Z) (g' : Generation) : Prop :=
  let d := i_direction p in
  g_id g' = g_id g ∧ birth g' = birth g ∧ midstream g' = midstream g ∧ g_reset g' = g_reset g || i_rst p ∧
  last_time g' = (match i_when p with
                  | Some t => Some (match last_time g with Some old => Z.max old t | None => t end)
                  | None => last_time g
                  end) ∧
  (∀ e, if bool_decide (d = 0 ↔ e = 0) then
     side e (low g') = Z.min (side d (low g)) at_ ∧ side e (high g') = Z.max (side d (high g)) stop ∧
     (side e (syn g') = if i_syn p then Some (i_sequence p) else side d (syn g)) ∧
     side e (anchor g') = Some (default (i_data_sequence p) (side d (anchor g))) ∧
     (side e (fin g') = side d (fin g) ∨ i_fin p = true ∧ side d (fin g) = None ∧ side e (fin g') = Some stop
      ∨ side d (fin g) = Some stop ∧ side e (fin g') = Some stop)
   else side e (low g') = side e (low g) ∧ side e (high g') = side e (high g) ∧ side e (syn g') = side e (syn g) ∧
     side e (anchor g') = side e (anchor g) ∧ side e (fin g') = side e (fin g)).

Lemma side_same {A} d e (a : A * A) : (d = 0 ↔ e = 0) → side e a = side d a.
Proof. unfold side. destruct (Z.eqb_spec d 0), (Z.eqb_spec e 0); tauto. Qed.

Lemma place_spec :
  wp (place g p at_) (λ r, ∃ stop, stop = at_ + zlen (i_payload p) ∧ i64_min ≤ stop ≤ i64_max ∧ placed stop r.1)
     (λ e, e = limit "sequence_span").
Proof.
  unfold place. cbv zeta. apply wp_bind. unfold i64_try_from. destruct (_ && _) eqn:Hs; [|done]. bool_facts.
  apply wp_ok, wp_ok. exists (at_ + zlen (i_payload p)). split; [done|]. split; [lia|].
  unfold placed. cbn. do 5 (split; [done|]). intros e. rewrite !side_set.
  case_bool_decide as He.
  - split; [done|]. split; [done|]. split; [|split].
    + destruct (i_syn p); [by rewrite side_set, bool_decide_true|by apply side_same].
    + destruct (side (i_direction p) (anchor g)) eqn:Ha; simpl; [by rewrite (side_same (i_direction p))|].
      by rewrite side_set, bool_decide_true.
    + destruct (i_fin p); simpl; [|left; by apply side_same].
      destruct (side (i_direction p) (fin g)) as [f|] eqn:Hf; simpl.
      * destruct (Z.eqb_spec f (at_ + zlen (i_payload p))); simpl; [|left; by rewrite (side_same (i_direction p))].
        subst. right. right. by rewrite side_set, bool_decide_true.
      * right. left. by rewrite side_set, bool_decide_true.
  - split; [done|]. split; [done|]. split; [|split].
    + destruct (i_syn p); [by rewrite side_set, bool_decide_false|done].
    + destruct (side (i_direction p) (anchor g)); [done|]. by rewrite side_set, bool_decide_false.
    + destruct (_ && _); [by rewrite side_set, bool_decide_false|done].
Qed.
End place.

Lemma placed_ok g p at_ stop g' :
  gen_ok g → packet_ok p → i64_min ≤ at_ ≤ i64_max → stop = at_ + zlen (i_payload p) → stop ≤ i64_max →
  placed g p at_ stop g' → gen_ok g'.
Proof.
  intros (Hid & Hb & Hs & Ht) (Hd & Hq & Hw & _) Hat -> Hst (Hid' & Hb' & _ & _ & Hl & Hside).
  pose proof (zlen_nonneg (i_payload p)). unfold gen_ok. rewrite Hid', Hb'. split; [done|]. split; [done|]. split.
  - intros e. specialize (Hside e). case_bool_decide as He.
    + destruct Hside as (Hlo & Hhi & Hsy & Han & Hfi). destruct (Hs (i_direction p)) as (H1 & H2 & H3 & H4 & H5 & H6).
      unfold side_ok. rewrite Hlo, Hhi, Hsy, Han. split; [lia|]. split; [lia|]. split; [by destruct (i_syn p)|].
      split; [simpl; destruct (side (i_direction p) (anchor g)); [done|apply data_sequence_u32]|]. split; [|done].
      destruct Hfi as [-> | [(_ & _ & ->)|[_ ->]]]; simpl; [|lia|lia].
      destruct (side (i_direction p) (fin g)); simpl in *; [lia|done].
    + destruct Hside as (Hlo & Hhi & Hsy & Han & Hfi). unfold side_ok. rewrite Hlo, Hhi, Hsy, Han, Hfi. apply Hs.
  - rewrite Hl. destruct (i_when p) as [t|]; [|done]. destruct (last_time g) as [old|]; simpl in *; [|done].
    unfold i128_ok in *. lia.
Qed.

Lemma placed_extends g p at_ stop g' :
  syn_fits p g → placed g p at_ stop g' → gen_extends g g'.
Proof.
  intros Hf (Hid' & Hb' & Hm & Hr & Hl & Hside). unfold gen_extends. split; [done|]. split; [done|]. split; [done|]. split.
  - intros e. specialize (Hside e). case_bool_decide as He.
    + destruct Hside as (Hlo & Hhi & Hsy & Han & Hfi). rewrite Hlo, Hhi, Hsy, Han.
      rewrite !(side_same (i_direction p) e) in * by done. split; [lia|]. split; [lia|].
      unfold kept. split; [|split].
      * destruct (side (i_direction p) (syn g)) as [x|] eqn:Hx; [|done]. destruct (i_syn p) eqn:Hsyn; [|done]. f_equal. symmetry. by apply (Hf Hsyn).
      * by destruct (side (i_direction p) (anchor g)).
      * destruct Hfi as [-> | [(_ & -> & _)|[-> ->]]]; try done; by destruct (side (i_direction p) (fin g)).
    + destruct Hside as (-> & -> & -> & -> & ->). unfold kept. split_and!; try lia; by (destruct (side e _)).
  - rewrite Hr, Hl. split; [by intros ->|]. destruct (i_when p); destruct (last_time g); try done; eexists; (split; [done|lia]).
Qed.

(** ** Candidates *)

(** A place where a packet may be: in a generation its SYN does not contradict, and at an
    offset its sequence number stands for. *)
Definition at_alias (p : TcpInput) (g : Generation) (at_ : Z) : Prop :=
  match side (i_direction p) (anchor g) with
  | Some a => alias (i_data_sequence p) a at_
  | None => at_ = 0
  end.
(** A SYN that opens a connection counts as the origin of its generation, whatever was
    observed before it; every other packet goes where its sequence number says. *)
Definition opening (p : TcpInput) : bool := i_syn p && negb (i_ack p).
Definition cand_ok (p : TcpInput) (st : TupleState) (c : Z * Z) : Prop :=
  ∃ g, get (generations st) c.1 = Some g ∧ syn_fits p g ∧ i64_min ≤ c.2 ≤ i64_max ∧
    (if opening p then c.2 = 0 else at_alias p g c.2).
(** A generation that has seen this SYN. *)
Definition syn_seen (p : TcpInput) (g : Generation) : Prop := side (i_direction p) (syn g) = Some (i_sequence p).
(** An opening SYN has one place, or its places have seen it. *)
Definition openings_ok (p : TcpInput) (st : TupleState) (cs : Candidates) : Prop :=
  opening p = true → zlen cs = 1 ∨ ∀ x g, x ∈ cs → get (generations st) x.1 = Some g → syn_seen p g.

Lemma repeated_syn_ok p st ig c :
  ig ∈ enumerate (generations st) → opening p = true → c ∈ repeated_syn p ig →
  cand_ok p st c ∧ ∃ g, get (generations st) c.1 = Some g ∧ syn_seen p g.
Proof.
  destruct ig as [i g]. intros Hin%enumerate_get Hop. unfold repeated_syn. destruct (_ && _) eqn:Hb; [|set_solver].
  bool_facts. intros ->%list_elem_of_singleton. case_bool_decide as He; [|done]. split; exists g; [|done]. split; [done|].
  split; [intros _ x; congruence|]. rewrite Hop. simpl. split; [lia|done].
Qed.

Lemma data_candidates_ok p c st ig :
  opening p = false → gen_ok ig.2 → config_validate c = Ok () → ig ∈ enumerate (generations st) →
  wp (data_candidates p c ig) (λ l, Forall (cand_ok p st) l) (λ _, True).
Proof.
  destruct ig as [i g]. simpl. intros Hop (_ & _ & Hs & _) Hc Hin%enumerate_get. unfold data_candidates. cbv zeta.
  destruct (Hs (i_direction p)) as (Hlo & Hhi & _).
  destruct (config_bounds c Hc) as (_ & _ & Hm & Hh).
  destruct (excluded_syn p g) eqn:He; [by apply wp_ok|].
  assert (syn_fits p g) as Hfit.
  { intros Hsyn x Hx. unfold excluded_syn in He. rewrite Hsyn, Hx in He. simpl in He. bool_facts. lia. }
  destruct (side (i_direction p) (anchor g)) as [a|] eqn:Ha.
  - apply wp_bind. apply (wp_mono _ (λ hi, i64_min ≤ hi ≤ i64_max) _ (λ _, True)); [| |done].
    { destruct (closed g); [apply wp_ok; lia|]. unfold i64_try_from. case_match eqn:Hv; [|done]. bool_facts. apply wp_ok. lia. }
    intros hi Hhi'. apply wp_bind. apply (wp_mono _ (λ lo, i64_min ≤ lo ≤ i64_max) _ (λ _, True)); [| |done].
    { destruct (is_some _); [apply wp_ok; lia|]. unfold i64_try_from. case_match eqn:Hv; [|done]. bool_facts. apply wp_ok. lia. }
    intros lo Hlo'. apply wp_bind. eapply wp_mono; [apply wp_epochs; lia| |done].
    intros l (_ & _ & _ & _ & Hl). apply wp_ok, Forall_forall. intros x [y [-> Hy]]%list_elem_of_fmap.
    apply Hl in Hy as [Hy Hal]. exists g. split; [done|]. split; [done|]. simpl. split; [lia|].
    rewrite Hop. unfold at_alias. by rewrite Ha.
  - apply wp_ok. destruct (closed g); [done|]. apply Forall_singleton. exists g. split; [done|]. split; [done|].
    simpl. split; [lia|]. rewrite Hop. unfold at_alias. by rewrite Ha.
Qed.

Definition fresh (g : Generation) : Prop :=
  syn g = (None, None) ∧ anchor g = (None, None) ∧ fin g = (None, None) ∧ low g = (0, 0) ∧ high g = (0, 0) ∧
  g_reset g = false.

Lemma wp_create st p s c :
  key_typed (t_key st) → key_accepted (t_key st) = true → packet_ok p →
  wp (create st p s c)
     (λ r, ∃ g, r = ({| t_key := t_key st; generations := generations st ++ [g] |}, zlen (generations st)) ∧
        gen_ok g ∧ fresh g ∧ birth g = i_frame p ∧ zlen (generations st) < hc_generations c) (λ _, True).
Proof.
  intros Ht Hk (_ & _ & _ & Hf). unfold create. wp_step; [by wp_step|]. apply wp_bind.
  unfold put_text at 1. rewrite put_bytes_ok by by vm_compute. apply wp_ok. rewrite key_encode_spec, Hk. cbn [mbind res_bind].
  rewrite put_bytes_ok by (destruct (key_octets_fit (t_key st) Ht Hk); lia). cbn [mbind res_bind].
  rewrite digest_ok. cbn [mbind res_bind]. cbv zeta. apply wp_ok. eexists. split; [done|]. split_and!; try done; [|lia].
  split_and!; simpl; try lia; try done.
  - split; [apply sha_reference_length|apply sha_reference_bytes].
  - intros d. unfold side_ok, side. simpl. by destruct (d =? 0).
Qed.

(** The state with the candidates: the old one, or one with a new generation that is the
    packet's only place. *)
Definition grown (c : HConfig) (p : TcpInput) (st st' : TupleState) (cs : Candidates) : Prop :=
  st' = st ∨
  ∃ g, st' = {| t_key := t_key st; generations := generations st ++ [g] |} ∧ gen_ok g ∧ fresh g ∧
       birth g = i_frame p ∧ zlen (generations st) < hc_generations c ∧ cs = [(zlen (generations st), 0)].
Definition found (c : HConfig) (p : TcpInput) (st : TupleState) (r : TupleState * Candidates * Reasons) : Prop :=
  let '(st', cs, _) := r in grown c p st st' cs ∧ Forall (cand_ok p st') cs ∧ openings_ok p st' cs.

Lemma fresh_ok p st g :
  fresh g → cand_ok p {| t_key := t_key st; generations := generations st ++ [g] |} (zlen (generations st), 0).
Proof.
  intros (Hs & Ha & _). exists g. simpl. rewrite get_snoc. split; [done|]. split; [|split; [lia|]].
  - intros _ x. rewrite Hs. unfold side. by destruct (_ =? 0).
  - destruct (opening p); [done|]. unfold at_alias. rewrite Ha. unfold side. by destruct (_ =? 0).
Qed.

Lemma wp_created c p s st rs :
  key_typed (t_key st) → key_accepted (t_key st) = true → packet_ok p →
  wp (r ← create st p s c; let '(st, i) := r in Ok (st, [(i, 0)], rs)) (found c p st) (λ _, True).
Proof.
  intros Ht Hk Hp. apply wp_bind. eapply wp_mono; [by apply wp_create| |done].
  intros r (g & -> & Hg & Hf & Hb & Hn). apply wp_ok. split; [right; by exists g|].
  split; [by apply Forall_singleton, fresh_ok|]. intros _. by left.
Qed.

Lemma wp_find_candidates c p s st :
  config_validate c = Ok () → state_ok c st → key_accepted (t_key st) = true → packet_ok p →
  wp (find_candidates st p s c) (found c p st) (λ _, True).
Proof.
  intros Hc (Ht & Hn & Hg) Hk Hp. unfold find_candidates. fold (opening p).
  destruct (opening p) eqn:Hop; [|wp_step; [by apply wp_created|]].
  - unfold syn_candidates. cbv zeta. case_bool_decide.
    + destruct (last (generations st)) as [g|] eqn:Hl; [|by apply wp_created].
      destruct (simultaneous (i_direction p) g) eqn:Hsim; [|by apply wp_created].
      apply wp_ok. split; [by left|]. split; [|intros _; by left]. apply Forall_singleton. exists g. rewrite Hop.
      apply last_Some in Hl as [gs Hl]. simpl. split; [|split; [|split; [lia|done]]].
      * rewrite Hl, zlen_app, zlen_cons, zlen_nil. replace (zlen gs + (1 + 0) - 1) with (zlen gs) by lia. apply get_snoc.
      * intros _ x Hx. unfold simultaneous in Hsim. by rewrite Hx, !andb_false_r in Hsim.
    + assert (∀ x, x ∈ concat (map (repeated_syn p) (enumerate (generations st))) →
        cand_ok p st x ∧ ∃ g, get (generations st) x.1 = Some g ∧ syn_seen p g) as Hall.
      { intros x (l & [ig [<- Hin]]%in_map_iff & Hx)%list_elem_of_In%in_concat.
        apply (repeated_syn_ok p st ig); [by apply list_elem_of_In|done|by apply list_elem_of_In]. }
      apply wp_ok. split; [by left|]. split; [apply Forall_forall; intros x Hx; by apply Hall|].
      intros _. right. intros x g Hx Hg'. destruct (Hall x Hx) as (_ & g' & Hx' & Hsy). congruence.
  - unfold other_candidates. apply wp_bind.
    apply (wp_mono _ (λ cs, Forall (cand_ok p st) cs) _ (λ _, True)); [| |done].
    + apply (wp_foldM (λ _ cs, Forall (cand_ok p st) cs) _ _ _ _ []); [|done|done].
      intros pre [i g] post cs Hz Hcs. apply wp_bind. eapply wp_mono; [apply (data_candidates_ok p c st)| |done].
      * done.
      * rewrite Forall_forall in Hg. apply Hg. apply enumerate_member, get_Some in Hz as [_ Hz].
        simpl. by eapply list_elem_of_lookup_2.
      * done.
      * rewrite app_nil_l in Hz. rewrite Hz. set_solver.
      * intros l Hl. apply wp_ok. by apply Forall_app.
    + intros cs Hcs. wp_step; [by apply wp_created|]. apply wp_ok. split; [by left|]. split; [done|]. by intros ?; congruence.
Qed.

(** ** The selection *)

(** Closer to a frontier than every other candidate. *)
Definition nearer (frontier : Z) (cs : Candidates) (j : Z) : Prop :=
  ∃ x, get cs j = Some x ∧
    ∀ k y, k ≠ j → get cs k = Some y → Z.abs (x.2 - frontier) < Z.abs (y.2 - frontier).

Lemma elem_of_ranked g d cs r :
  r ∈ ranked g d cs ↔ ∃ x, get cs r.2 = Some x ∧ r.1 = Z.abs (x.2 - side d (high g)).
Proof.
  unfold ranked. rewrite sort_perm, list_elem_of_In, in_map_iff. split.
  - intros ([j x] & <- & Hin%list_elem_of_In%enumerate_get). by exists x.
  - destruct r as [dist j]. intros (x & Hx & Hd). exists (j, x). simpl in *. subst. split; [done|].
    by apply list_elem_of_In, elem_of_enumerate.
Qed.

Lemma pair_le_fst (x y : Z * Z) : cmp x y ≠ Gt → x.1 ≤ y.1.
Proof.
  destruct x, y. unfold cmp. simpl. unfold pair_cmp. simpl. destruct (Z.compare_spec z z1); simpl; lia || done.
Qed.

Lemma wp_nearest g d cs :
  cs ≠ [] → wp (nearest g d cs) (λ o, option_all (nearer (side d (high g)) cs) o) (λ _ : Error, False).
Proof.
  intros Hne. unfold nearest. pose proof (elem_of_ranked g d cs) as Hin. pose proof (sort_sorted (A := Z * Z)) as Hs.
  specialize (Hs (map (λ ja, (Z.abs (ja.2.2 - side d (high g)), ja.1)) (enumerate cs))). fold (ranked g d cs) in Hs.
  assert (ranked g d cs ≠ []) as Hne'.
  { destruct cs as [|x cs]; [done|]. intros Hr. specialize (Hin (Z.abs (x.2 - side d (high g)), 0)).
    rewrite Hr in Hin. destruct Hin as [_ Hin]. by apply not_elem_of_nil in Hin; [|exists x]. }
  destruct (ranked g d cs) as [|r0 [|r1 rest]]; [done|..].
  - apply wp_ok. simpl. destruct (proj1 (Hin r0)) as (x & Hx & Hd); [set_solver|]. exists x. split; [done|].
    intros k y Hk Hy. destruct (Hin (Z.abs (y.2 - side d (high g)), k)) as [_ Hin'].
    apply list_elem_of_singleton in Hin'; [by subst r0|]. by exists y.
  - apply wp_ok. destruct (Z.ltb_spec r0.1 r1.1) as [Hlt|]; [|done]. simpl.
    destruct (proj1 (Hin r0)) as (x & Hx & Hd); [set_solver|]. exists x. split; [done|]. intros k y Hk Hy.
    destruct (Hin (Z.abs (y.2 - side d (high g)), k)) as [_ Hin'].
    apply elem_of_cons in Hin' as [<-|Hin']; [done| |by exists y].
    apply StronglySorted_inv in Hs as [Hs _]. apply StronglySorted_inv in Hs as [_ Hall].
    apply elem_of_cons in Hin' as [<-|Hin']; [simpl in *; lia|].
    rewrite Forall_forall in Hall. apply Hall, pair_le_fst in Hin'. simpl in *. lia.
Qed.

(** A candidate is selected if it is the only one, or if the policy says so and it is
    closest to the frontier of the generation all candidates are in. *)
Definition selected_ok (c : HConfig) (st : TupleState) (d : Z) (cs : Candidates) (r : option Z * bool) : Prop :=
  option_all (λ j, ∃ x, get cs j = Some x) r.1 ∧
  (r.2 = false → r.1 = if zlen cs =? 1 then Some 0 else None) ∧
  (r.2 = true → hc_epoch_policy c = NearestFrontier ∧ ∃ j i g, r.1 = Some j ∧ get (generations st) i = Some g ∧
     Forall (λ x, x.1 = i) cs ∧ nearer (side d (high g)) cs j).

Lemma wp_select c p st d cs :
  Forall (cand_ok p st) cs → wp (select c st d cs) (selected_ok c st d cs) (λ _, False).
Proof.
  intros Hcs. unfold select. wp_step.
  - bool_facts. repeat match goal with H : bool_decide _ = true |- _ => apply bool_decide_eq_true in H end.
    destruct cs as [|x cs]; [done|]. cbn [head] in *.
    apply wp_bind, (index_get _ _ x); [done|]. apply Forall_cons in Hcs as [(g & Hg & _) _].
    apply wp_bind, (index_get _ _ g); [done|]. apply wp_bind. eapply wp_mono; [by apply wp_nearest| |done].
    intros [j|] Hj; apply wp_ok; [|split_and!; try done]; simpl in Hj.
    + split; [destruct Hj as (y & Hy & _); by exists y|]. split; [done|]. intros _. split; [done|].
      exists j, x.1, g. split; [done|]. split; [done|]. split; [|done].
      apply Forall_forall. intros y Hy. match goal with H : forallb _ _ = true |- _ => rewrite forallb_forall in H; specialize (H y) end.
      rewrite <- list_elem_of_In in *. naive_solver lia.
    + intros _. simpl. destruct (Z.eqb_spec (zlen (x :: cs)) 1); [lia|done].
  - apply wp_ok. split; [|by split]. simpl. destruct (Z.eqb_spec (zlen cs) 1); [|done].
    destruct cs as [|x cs]; [done|]. by exists x.
Qed.

(** ** [ingest] *)

Lemma header_packet_ok key direction frame when raw ws p :
  bytes_ok raw → observed_typed (observed p) → observed p = (key, direction, frame, when, raw, ws) →
  header_true key direction raw p → direction ≤ 1 → frame ≠ 0 → packet_ok p.
Proof.
  intros Hb (_ & Hd & Hf & Hw & _) [= <- <- <- <- <- <-] Hh H1 H2. unfold is_byte, u64_ok in *.
  split; [lia|]. split; [|split; [done|lia]]. unfold header_true in Hh.
  destruct (if i_direction p =? 0 then _ else _). destruct Hh as (_ & _ & -> & _ & _ & _ & _ & Hl & _).
  pose proof (from_be_bound (sub (i_raw p) 4 8)) as Hbd. rewrite zlen_sub in Hbd by lia.
  specialize (Hbd ltac:(by apply bytes_ok_sub)). unfold u32_ok. change (256 ^ (8 - 4)) with 4294967296 in Hbd. lia.
Qed.

(** The state after the selected candidate, if any, took the packet in. *)
Definition settled (p : TcpInput) (st st' : TupleState) (cs : Candidates) (selected : option Z) : Prop :=
  match selected with
  | None => st' = st
  | Some j => ∃ i at_ g g' stop, get cs j = Some (i, at_) ∧ get (generations st) i = Some g ∧
      stop = at_ + zlen (i_payload p) ∧ stop ≤ i64_max ∧ placed g p at_ stop g' ∧
      st' = {| t_key := t_key st; generations := <[Z.to_nat i := g']> (generations st) |}
  end.

Lemma wp_settle p st cs selected :
  Forall (cand_ok p st) cs → option_all (λ j, ∃ x, get cs j = Some x) selected →
  wp (settle st p cs selected) (λ r, settled p st r.1 cs selected) (λ _, True).
Proof.
  intros Hcs Hsel. unfold settle. destruct selected as [j|]; [|by apply wp_ok]. destruct Hsel as ([i at_] & Hj).
  apply wp_bind, (index_get _ _ (i, at_)); [done|]. pose proof Hj as [_ Hj']%get_Some.
  rewrite Forall_lookup in Hcs. destruct (Hcs _ _ Hj') as (g & Hg & _). simpl in Hg.
  apply wp_bind, (index_get _ _ g); [done|]. apply wp_bind. eapply wp_mono; [apply place_spec| |done].
  intros [g' said_] (stop & Hstop & Hr & Hp). apply wp_ok. exists i, at_, g, g', stop. split_and!; done || lia.
Qed.

Definition widened (st st' : TupleState) : Prop :=
  t_key st' = t_key st ∧ Forall2 gen_extends (generations st) (generations st').

Lemma settled_ok c p st st' cs selected :
  state_ok c st → packet_ok p → Forall (cand_ok p st) cs → settled p st st' cs selected →
  state_ok c st' ∧ widened st st'.
Proof.
  intros Hst Hp Hcs Hs. assert (Forall2 gen_extends (generations st) (generations st)) as Hrefl
    by (apply Forall2_same_length_lookup_2; [done|]; intros i x y -> [= ->]; apply gen_extends_refl).
  destruct selected as [j|]; [|by rewrite Hs].
  destruct Hs as (i & at_ & g & g' & stop & Hj & Hg & Hstop & Hle & Hpl & ->).
  pose proof Hj as [_ Hj']%get_Some. rewrite Forall_lookup in Hcs.
  destruct (Hcs _ _ Hj') as (g0 & Hg0 & Hfit & Hat & _). simpl in *. rewrite Hg in Hg0. injection Hg0 as <-.
  destruct Hst as (Hk & Hn & Hgs). pose proof Hg as [_ Hgl]%get_Some.
  split; [|split; [done|]].
  - split; [done|]. simpl. split; [unfold zlen in *; by rewrite length_insert|]. apply Forall_insert; [done|].
    eapply placed_ok; [|done..]. rewrite Forall_lookup in Hgs. by apply (Hgs (Z.to_nat i)).
  - simpl. rewrite <- (list_insert_id (generations st) (Z.to_nat i) g) at 1 by done.
    apply Forall2_insert; [done|]. by eapply placed_extends.
Qed.

(** ** Encodings of states and decisions *)

Section two.
Context {A : Type} {get : Reading A} {put : A → list Z} {valid : A → Prop} `{!Codec get put valid}.
Definition two_octets (a : A * A) : list Z := put a.1 ++ put a.2.

#[global] Instance get_two_codec : Codec (get_two get) two_octets (λ a, valid a.1 ∧ valid a.2).
Proof.
  constructor.
  - intros [a b] d [Ha Hb] Hd Hw. unfold get_two. simpl in *.
    eapply (complete_step _ a d); [done|done|exact Hw|]. intros ? Hw1.
    eapply (complete_step _ b _ []); [done|done|by rewrite app_nil_r|]. intros _ _.
    unfold mret, stateful_ret, two_octets. simpl. by rewrite !skip_skip, <- !zlen_app.
  - intros d Hd. unfold get_two. repeat writes. written. done.
Qed.

Lemma put_two_octets {B} (put' : list Z → B → list Z) (octets : B → list Z) e a :
  (∀ e b, put' e b = e ++ octets b) → put_two put' e a = e ++ (octets a.1 ++ octets a.2).
Proof. intros H. unfold put_two. by rewrite !H, <- app_assoc. Qed.
End two.

Notation i64_octets := (λ v, to_le_bytes 8 (as_unsigned 64 v)).
Notation i128_octets := (λ v, to_le_bytes 16 (as_unsigned 128 v)).
Definition generation_octets (g : Generation) : list Z :=
  g_id g ++ to_le_bytes 8 (birth g) ++ two_octets (put := option_octets (put := to_le_bytes 4)) (syn g) ++
  two_octets (put := option_octets (put := to_le_bytes 4)) (anchor g) ++ two_octets (put := i64_octets) (low g) ++
  two_octets (put := i64_octets) (high g) ++ two_octets (put := option_octets (put := i64_octets)) (fin g) ++
  [Z.b2z (g_reset g)] ++ [Z.b2z (midstream g)] ++ option_octets (put := i128_octets) (last_time g).
Definition generation_typed (g : Generation) : Prop :=
  hash_ok (g_id g) ∧ u64_ok (birth g) ∧ (∀ d, option_all u32_ok (side d (syn g))) ∧
  (∀ d, option_all u32_ok (side d (anchor g))) ∧ (∀ d, i64_ok (side d (low g))) ∧ (∀ d, i64_ok (side d (high g))) ∧
  (∀ d, option_all i64_ok (side d (fin g))) ∧ option_all i128_ok (last_time g).

#[global] Instance get_generation_codec : Codec get_generation generation_octets generation_typed.
Proof.
  constructor.
  - intros [id b s a l h f r m t] d Hg Hd Hw. unfold generation_typed in Hg. rewrite !sides in Hg. simpl in *.
    destruct Hg as (H1 & H2 & H3 & H4 & H5 & H6 & H7 & H8). unfold get_generation.
    eapply (complete_step _ id d); [done|done|exact Hw|]. intros ? Hw1.
    eapply (complete_step _ b _); [done|done|exact Hw1|]. intros ? Hw2.
    eapply (complete_step _ s _); [done|done|exact Hw2|]. intros ? Hw3.
    eapply (complete_step _ a _); [done|done|exact Hw3|]. intros ? Hw4.
    eapply (complete_step _ l _); [done|done|exact Hw4|]. intros ? Hw5.
    eapply (complete_step _ h _); [done|done|exact Hw5|]. intros ? Hw6.
    eapply (complete_step _ f _); [done|done|exact Hw6|]. intros ? Hw7.
    eapply (complete_step _ r _); [done|done|exact Hw7|]. intros ? Hw8.
    eapply (complete_step _ m _); [done|done|exact Hw8|]. intros ? Hw9.
    eapply (complete_step _ t _ []); [done|done|by rewrite app_nil_r|]. intros _ _.
    unfold mret, stateful_ret, generation_octets. simpl. by rewrite !skip_skip, <- !zlen_app.
  - intros d Hd. unfold get_generation. repeat writes. written.
    unfold generation_typed. rewrite !sides. done.
Qed.

Lemma put_generation_octets e g : put_generation e g = e ++ generation_octets g.
Proof.
  unfold put_generation, put_option_u32, put_option_i64, put_option_i128.
  rewrite (put_option_octets put_i128 i128_octets) by done.
  rewrite (put_two_octets _ (option_octets (put := i64_octets))) by (intros; by rewrite (put_option_octets put_i64 i64_octets)).
  rewrite !(put_two_octets put_i64 i64_octets) by done.
  rewrite !(put_two_octets _ (option_octets (put := to_le_bytes 4))) by (intros; by rewrite (put_option_octets put_u32 (to_le_bytes 4))).
  unfold put_bool, put_u8, put_u64, put_hash, generation_octets, two_octets. by rewrite <- !app_assoc.
Qed.

Definition tuple_octets (st : TupleState) : list Z :=
  blob (key_octets (t_key st)) ++ to_le_bytes 4 (zlen (generations st)) ++ concat (map generation_octets (generations st)).
Definition tuple_typed (st : TupleState) : Prop := key_typed (t_key st) ∧ Forall generation_typed (generations st).
Definition tuple_bounded (c : HConfig) (st : TupleState) : Prop :=
  key_accepted (t_key st) = true ∧ zlen (generations st) ≤ hc_generations c.

Lemma tuple_encode_ok c st :
  config_validate c = Ok () → key_typed (t_key st) → tuple_bounded c st → tuple_encode st = Ok (tuple_octets st).
Proof.
  intros Hc Ht [Hk Hn]. destruct (config_bounds c Hc) as (_ & Hg & _). destruct (key_octets_fit _ Ht Hk) as (Hl & _ & _).
  unfold tuple_encode, count32. rewrite key_encode_spec, Hk. cbn [mbind res_bind].
  rewrite put_bytes_ok by lia. cbn [mbind res_bind]. rewrite (proj2 (Z.ltb_ge _ _)) by lia. cbn [mbind res_bind].
  rewrite (foldl_put _ generation_octets) by apply put_generation_octets. unfold put_u32.
  by rewrite app_nil_l, <- !app_assoc.
Qed.

Lemma generations_codec c :
  config_validate c = Ok () →
  Codec (get_counted get_u32 (hc_generations c) (limit "generations") get_generation)
    (λ l, to_le_bytes 4 (zlen l) ++ concat (map generation_octets l))
    (λ l, zlen l ≤ hc_generations c ∧ Forall generation_typed l).
Proof.
  intros Hc. destruct (config_bounds c Hc) as (_ & Hg & _). apply (get_counted_codec _ _ u32_max); [apply _|apply _|lia].
Qed.

Lemma get_tuple_codec c :
  config_validate c = Ok () → Codec (get_tuple c) tuple_octets (λ st, tuple_typed st ∧ tuple_bounded c st).
Proof.
  intros Hc. pose proof (generations_codec c Hc) as Hgc. constructor.
  - intros [k gs] d [[Hk Hgs] [Hka Hn]] Hd Hw. simpl in *. unfold get_tuple, tuple_octets in *. simpl in *.
    pose proof (key_octets_fit k Hk Hka) as Hfit.
    eapply (complete_step (get := get_bytes 10000) _ (key_octets k) d); [exact Hfit|done|exact Hw|]. intros ? Hw1.
    assert (key_decode (key_octets k) = Ok k) as ->
      by (apply key_decode_spec; [apply Hfit|unfold blob_ok in Hfit; lia|rewrite key_encode_spec, Hka; done]).
    rewrite lift_step.
    eapply (complete_step _ gs _ []); [done|done|by rewrite app_nil_r|]. intros _ _.
    unfold mret, stateful_ret. by rewrite !skip_skip, <- !zlen_app.
  - intros d Hd. unfold get_tuple. writes.
    match goal with H : blob_ok 10000 _ |- _ => destruct H as (? & ? & ?) end.
    apply swp_bind, swp_lift. eapply wp_mono; [apply wp_key_decode; [done|lia]| |done]. intros k (Hk & Hka & ->).
    writes. written. by unfold tuple_typed, tuple_bounded; destruct_and?; split_and!.
Qed.

Lemma bounds_valid l :
  existsb bounds_invalid l = false ↔ Forall (λ g, birth g ≠ 0 ∧ ∀ d, side d (low g) ≤ side d (high g)) l.
Proof.
  induction l as [|g l IH]; [done|]. simpl. rewrite orb_false_iff, Forall_cons, IH.
  assert (bounds_invalid g = false ↔ birth g ≠ 0 ∧ ∀ d, side d (low g) ≤ side d (high g)) as ->; [|done].
  unfold bounds_invalid. rewrite !orb_false_iff, Z.eqb_neq, !Z.gtb_ltb, !Z.ltb_ge. split.
  - intros [[? ?] ?]. split; [done|]. intros d. unfold side. by destruct (d =? 0).
  - intros [? H]. split; [split; [done|apply (H 0)]|apply (H 1)].
Qed.

(** A spilled state is read back exactly as it was written: a byte string decodes to
    [st] exactly when [st] has ordered bounds and real births, keeps the configured
    number of generations, and is encoded so. *)
Theorem tuple_state_exact b c st :
  bytes_ok b → zlen b ≤ i64_max → config_validate c = Ok () →
  tuple_decode b c = Ok st ↔
  tuple_typed st ∧ zlen (generations st) ≤ hc_generations c ∧
  Forall (λ g, birth g ≠ 0 ∧ ∀ d, side d (low g) ≤ side d (high g)) (generations st) ∧ tuple_encode st = Ok b.
Proof.
  intros Hb Hl Hc. pose proof (get_tuple_codec c Hc) as Hcodec. unfold tuple_decode.
  rewrite (whole_checked (get := get_tuple c)
    (λ s, if existsb bounds_invalid (generations s) then Err (bad "history_state" "invalid generation bounds") else Ok s));
    [|done|done|intros a; by destruct (existsb _ _)].
  rewrite <- bounds_valid. split.
  - intros ([Ht Hbd] & -> & Hf). destruct (existsb _ _); [done|].
    split; [done|]. split; [apply Hbd|]. split; [done|]. apply (tuple_encode_ok c); [done|apply Ht|done].
  - intros (Ht & Hn & Hv & He). pose proof He as He'. unfold tuple_encode in He'. rewrite key_encode_spec in He'.
    destruct (key_accepted (t_key st)) eqn:Hk; [|done]. rewrite (tuple_encode_ok c) in He by (done || apply Ht).
    injection He as <-. rewrite Hv. done.
Qed.

(** ** [Decision] *)

Definition placement_octets (p : Placement) : list Z :=
  p_generation p ++ [p_direction p] ++ to_le_bytes 8 (as_unsigned 64 (p_offset p)) ++ [Z.b2z (p_selected p)].
Definition placement_typed (p : Placement) : Prop :=
  hash_ok (p_generation p) ∧ 0 ≤ p_direction p ≤ 1 ∧ i64_ok (p_offset p).
#[global] Instance get_placement_codec : Codec get_placement placement_octets placement_typed.
Proof.
  eapply codec_ext; [apply (codec_checked _ placement_octets
    (λ p, hash_ok (p_generation p) ∧ is_byte (p_direction p) ∧ i64_ok (p_offset p)))| |done].
  - constructor.
    + intros [g dir at_ s] d (Hg & Hdir & Hat) Hd Hw. simpl in *.
      eapply (complete_step _ g d); [done|done|exact Hw|]. intros ? Hw1.
      eapply (complete_step _ dir _); [done|done|exact Hw1|]. intros ? Hw2.
      eapply (complete_step _ at_ _); [done|done|exact Hw2|]. intros ? Hw3.
      eapply (complete_step _ s _ []); [done|done|by rewrite app_nil_r|]. intros _ _.
      unfold mret, stateful_ret, placement_octets. simpl. by rewrite !skip_skip, <- !zlen_app.
    + intros d Hd. repeat writes. written. done.
  - intros p. simpl. unfold placement_typed, is_byte. rewrite Z.leb_le. intuition lia.
Qed.

Definition decision_octets (d : Decision) : list Z :=
  before d ++ after d ++ [Z.b2z (policy_assumption d)] ++
  (to_le_bytes 4 (zlen (placements d)) ++ concat (map placement_octets (placements d))) ++
  (to_le_bytes 4 (zlen (reasons d)) ++ concat (map blob (reasons d))).
Definition decision_typed (c : HConfig) (d : Decision) : Prop :=
  hash_ok (before d) ∧ hash_ok (after d) ∧
  (zlen (placements d) ≤ hc_generations c * hc_epoch_candidates c ∧ Forall placement_typed (placements d)) ∧
  (zlen (reasons d) ≤ 32 ∧ Forall (λ s, blob_ok 256 s ∧ utf8 s = true) (reasons d)).

Lemma placements_codec c :
  config_validate c = Ok () →
  Codec (get_counted get_u32 (Z.min usize_max (hc_generations c * hc_epoch_candidates c)) (limit "history_candidates") get_placement)
    (λ l, to_le_bytes 4 (zlen l) ++ concat (map placement_octets l))
    (λ l, zlen l ≤ hc_generations c * hc_epoch_candidates c ∧ Forall placement_typed l).
Proof.
  intros Hc. destruct (config_bounds c Hc) as (_ & Hg & He & _).
  assert (hc_generations c * hc_epoch_candidates c ≤ 4096 * 64) by nia. rewrite Z.min_r by lia.
  apply (get_counted_codec _ _ u32_max); [apply _|apply _|lia].
Qed.
Definition reasons_codec :
  Codec (get_counted get_u32 32 (limit "history_reasons") (get_text 256))
    (λ l, to_le_bytes 4 (zlen l) ++ concat (map blob l)) (λ l, zlen l ≤ 32 ∧ Forall (λ s, blob_ok 256 s ∧ utf8 s = true) l) :=
  get_counted_codec _ _ u32_max 32 _ (get_text 256) _ _ _ _ ltac:(lia).

Lemma get_decision_codec c :
  config_validate c = Ok () → Codec (get_decision c) decision_octets (decision_typed c).
Proof.
  intros Hc. pose proof (placements_codec c Hc) as Hpc. pose proof reasons_codec as Hrc. constructor.
  - intros [b a ps rs m] d (Hb & Ha & Hps & Hrs) Hd Hw. simpl in *. unfold get_decision.
    eapply (complete_step _ b d); [done|done|exact Hw|]. intros ? Hw1.
    eapply (complete_step _ a _); [done|done|exact Hw1|]. intros ? Hw2.
    eapply (complete_step _ m _); [done|done|exact Hw2|]. intros ? Hw3.
    eapply (complete_step _ ps _); [done|done|exact Hw3|]. intros ? Hw4.
    eapply (complete_step _ rs _ []); [done|done|by rewrite app_nil_r|]. intros _ _.
    unfold mret, stateful_ret, decision_octets. simpl. by rewrite !skip_skip, <- !zlen_app.
  - intros d Hd. unfold get_decision. repeat writes. written. done.
Qed.

(** A decision is read back from the journal exactly as it was written: a byte string
    decodes to [d] exactly when [d] has no more placements and reasons than the limits,
    its directions are 0 or 1, and it is encoded so. *)
Theorem decision_exact b c d :
  bytes_ok b → zlen b ≤ i64_max → config_validate c = Ok () →
  decision_decode b c = Ok d ↔ decision_typed c d ∧ decision_encode d = Ok b.
Proof.
  intros Hb Hl Hc. pose proof (get_decision_codec c Hc) as Hcodec. destruct (config_bounds c Hc) as (_ & Hg & He & _).
  assert (decision_decode b c = Ok d ↔ decision_typed c d ∧ b = decision_octets d) as ->.
  { unfold decision_decode. transitivity (decision_typed c d ∧ b = decision_octets d ∧ @Ok Error _ d = Ok d); [|tauto].
    by apply (whole_checked (get := get_decision c) (@Ok Error Decision)). }
  assert (decision_typed c d → decision_encode d = Ok (decision_octets d)) as Henc; [|split; intros [Ht Hd]; (split; [done|]); rewrite Henc in * by done; congruence].
  intros (_ & _ & [Hps _] & [Hrs Hr]). unfold decision_encode, count32.
  assert (hc_generations c * hc_epoch_candidates c ≤ 4096 * 64) by nia.
  rewrite (proj2 (Z.ltb_ge u32_max (zlen (placements d)))), (proj2 (Z.ltb_ge u32_max (zlen (reasons d)))) by lia. cbn [mbind res_bind].
  rewrite put_texts_ok by (eapply Forall_impl; [exact Hr|]; intros s [(? & _) _]; lia).
  rewrite (foldl_put _ placement_octets) by (intros; unfold put_placement, put_bool, put_i64, put_u8, put_hash; by rewrite <- !app_assoc).
  unfold put_u32, put_bool, put_u8, put_hash, decision_octets. by rewrite app_nil_l, <- !app_assoc.
Qed.

(** ** What [ingest] does *)

(** Nothing observed is lost: generations only widen, and at most one is added. *)
Definition grows (st st' : TupleState) : Prop :=
  t_key st' = t_key st ∧
  ∃ olds news, generations st' = olds ++ news ∧ Forall2 gen_extends (generations st) olds ∧ (length news ≤ 1)%nat.

Lemma gen_extends_all gs : Forall2 gen_extends gs gs.
Proof. apply Forall2_same_length_lookup_2; [done|]. intros i x y -> [= ->]. apply gen_extends_refl. Qed.

Lemma grown_state_ok c p st st' cs : state_ok c st → grown c p st st' cs → state_ok c st' ∧ t_key st' = t_key st.
Proof.
  intros (Ht & Hn & Hg) [->|(g & -> & Hgo & _ & _ & Hlt & _)]; [done|]. split; [|done]. split; [done|]. simpl. split.
  - rewrite zlen_app, zlen_cons, zlen_nil. lia.
  - apply Forall_app. split; [done|by apply Forall_singleton].
Qed.

Lemma grown_widened c p st st1 st' cs : grown c p st st1 cs → widened st1 st' → grows st st'.
Proof.
  intros [->|(g & -> & _)] [Hk Hw]; split; try done.
  - exists (generations st'), []. rewrite app_nil_r. split; [done|]. split; [done|simpl; lia].
  - simpl in Hw. apply Forall2_app_inv_l in Hw as (olds & news & Ho & Hn & ->). exists olds, news. split; [done|]. split; [done|].
    apply Forall2_length in Hn. simpl in Hn. lia.
Qed.

(** Where a packet stands in a generation that has taken it in. *)
Definition stands_at (p : TcpInput) (g : Generation) (at_ : Z) : Prop :=
  if opening p then at_ = 0 ∧ syn_seen p g else at_alias p g at_.

(** A candidate's offset is right for the generation as it is left, too. *)
Lemma settled_place p st st' cs r c x :
  Forall (cand_ok p st) cs → openings_ok p st cs → selected_ok c st (i_direction p) cs r → settled p st st' cs r.1 → x ∈ cs →
  ∃ g, get (generations st') x.1 = Some g ∧ stands_at p g x.2.
Proof.
  intros Hcs Hop (_ & Hno & Hyes) Hs Hx. rewrite Forall_forall in Hcs. destruct (Hcs x Hx) as (g & Hg & _ & _ & Hal). unfold stands_at, openings_ok in *.
  destruct r as [[j|] asm]; simpl in *.
  2: { subst st'. exists g. split; [done|]. destruct (opening p) eqn:Ho; [|done]. split; [done|].
       destruct (Hop eq_refl) as [H1|Hseen]; [|by eapply Hseen].
       destruct asm; [by destruct (Hyes eq_refl) as (_ & ? & ? & ? & ? & _)|]. rewrite H1 in Hno. by specialize (Hno eq_refl). }
  destruct Hs as (i & at_ & g0 & g' & stop & Hj & Hg0 & Hstop & Hle & (_ & _ & _ & _ & _ & Hpl) & ->). simpl.
  pose proof Hg as [Hx0 Hgl]%get_Some. pose proof Hg0 as [Hi0 Hgl0]%get_Some. pose proof (lookup_lt_Some _ _ _ Hgl0).
  destruct (decide (i = x.1)) as [->|Hne].
  - rewrite Hg in Hg0. injection Hg0 as <-. exists g'. split; [apply get_Some; split; [done|by apply list_lookup_insert_eq]|].
    specialize (Hpl (i_direction p)). rewrite bool_decide_true in Hpl by done.
    destruct Hpl as (_ & _ & Hsy & Han & _). destruct (opening p) eqn:Ho.
    + split; [done|]. unfold syn_seen. unfold opening in Ho. apply andb_true_iff in Ho as [Ho _]. by rewrite Hsy, Ho.
    + unfold at_alias in *. rewrite Han.
      destruct (side (i_direction p) (anchor g)); simpl; [done|]. rewrite Hal. unfold alias. by rewrite Z.sub_diag.
  - exists g. split; [apply get_Some; split; [done|]; by rewrite list_lookup_insert_ne by lia|].
    destruct (opening p) eqn:Ho; [|done]. split; [done|]. destruct (Hop eq_refl) as [H1|Hseen]; [|by eapply Hseen].
    exfalso. apply Hne. apply get_Some in Hj as [_ Hj]. destruct cs as [|y [|z cs]]; [done| |rewrite !zlen_cons in H1; pose proof (zlen_nonneg cs); lia].
    apply list_elem_of_singleton in Hx as ->. by apply list_elem_of_lookup_2, list_elem_of_singleton in Hj as <-.
Qed.

(** What a decision says of a packet [p] that took a state from [st] to [st']. *)
Definition decision_true (c : HConfig) (p : TcpInput) (st st' : TupleState) (d : Decision) : Prop :=
  (∀ q, q ∈ placements d → p_direction q = i_direction p ∧
     ∃ g, g ∈ generations st' ∧ p_generation q = g_id g ∧ stands_at p g (p_offset q)) ∧
  (∀ j k q q', get (placements d) j = Some q → get (placements d) k = Some q' →
     p_selected q = true → p_selected q' = true → j = k) ∧
  ((∀ q, q ∈ placements d → p_selected q = false) → st' = st) ∧
  (policy_assumption d = true → hc_epoch_policy c = NearestFrontier) ∧
  (∀ b, tuple_encode st = Ok b → before d = sha_reference b) ∧
  (∀ b, tuple_encode st' = Ok b → after d = sha_reference b).

Definition placement_made (st : TupleState) (dir : Z) (selected : option Z) (jc : Z * (Z * Z)) (q : Placement) : Prop :=
  ∃ g, get (generations st) jc.2.1 = Some g ∧
    q = {| p_generation := g_id g; p_direction := dir; p_offset := jc.2.2; p_selected := bool_decide (selected = Some jc.1) |}.

Lemma lookup_enumerate {A} (l : list A) n jx :
  enumerate l !! n = Some jx → jx.1 = Z.of_nat n ∧ l !! n = Some jx.2.
Proof.
  unfold enumerate. rewrite lookup_zip_with. intros (a & Ha & Hb)%bind_Some. apply bind_Some in Hb as (b & Hb & [= <-]).
  apply lookup_seqZ in Ha as [-> _]. simpl. split; [lia|done].
Qed.

Lemma placements_selected st dir selected cs qs j q :
  Forall2 (placement_made st dir selected) (enumerate cs) qs → get qs j = Some q → p_selected q = true → selected = Some j.
Proof.
  intros Hq [Hj Hl]%get_Some Hs. destruct (Forall2_lookup_r _ _ _ _ _ Hq Hl) as ([k x] & [Hk _]%lookup_enumerate & g & _ & ->).
  simpl in *. apply bool_decide_eq_true in Hs. rewrite Hs. f_equal. lia.
Qed.

(** Without a selected placement, the state is what it was. *)
Lemma unselected c p st st1 st2 cs r qs :
  grown c p st st1 cs → selected_ok c st1 (i_direction p) cs r → settled p st1 st2 cs r.1 →
  Forall2 (placement_made st2 (i_direction p) r.1) (enumerate cs) qs → (∀ q, q ∈ qs → p_selected q = false) → st2 = st.
Proof.
  intros Hg (Hsel & Hno & Hyes) Hs Hqs Hq. destruct r as [[j|] asm]; simpl in *.
  - destruct Hsel as [x Hx]. pose proof (elem_of_enumerate _ _ _ Hx) as [n Hn]%list_elem_of_lookup.
    destruct (Forall2_lookup_l _ _ _ _ _ Hqs Hn) as (q & Hq' & g & _ & ->).
    specialize (Hq _ (list_elem_of_lookup_2 _ _ _ Hq')). simpl in Hq. by rewrite bool_decide_true in Hq.
  - subst st2. destruct Hg as [->|(g & -> & _ & _ & _ & _ & ->)]; [done|].
    destruct asm; [by destruct (Hyes eq_refl) as (_ & ? & ? & ? & ? & _)|]. by specialize (Hno eq_refl).
Qed.

Lemma wp_placements st dir selected cs :
  (∀ x, x ∈ cs → ∃ g, get (generations st) x.1 = Some g) →
  wp (mapM (placement_of st dir selected) (enumerate cs))
     (λ qs, Forall2 (placement_made st dir selected) (enumerate cs) qs) (λ _, False).
Proof.
  intros Hcs. apply wp_mapM. intros [j [i at_]] Hin%enumerate_get. unfold placement_of.
  destruct (Hcs (i, at_)) as (g & Hg); [apply get_Some in Hin as [_ Hin]; by eapply list_elem_of_lookup_2|].
  apply wp_bind, (index_get _ _ g); [done|]. apply wp_ok. by exists g.
Qed.

Lemma wp_decide st p s c b :
  config_validate c = Ok () → state_ok c st → key_accepted (t_key st) = true → packet_ok p →
  tuple_encode st = Ok b →
  wp (decide_packet st p s c (sha_reference b))
     (λ r, state_ok c r.1 ∧ grows st r.1 ∧ decision_true c p st r.1 r.2) (λ _, True).
Proof.
  intros Hc Hst Hk Hp Hb. unfold decide_packet. apply wp_bind. eapply wp_mono; [by apply wp_find_candidates| |done].
  intros [[st1 cs] rs] (Hgr & Hcs & Hopen). destruct (grown_state_ok c p st st1 cs Hst Hgr) as [Hst1 Hk1].
  apply wp_bind. eapply wp_mono; [by eapply wp_select| |done]. intros [sel asm] Hso. pose proof Hso as (Hsel & Hno & Hyes). simpl in *.
  apply wp_bind. eapply wp_mono; [by apply wp_settle| |done]. intros [st2 said_] Hs. simpl in Hs.
  destruct (settled_ok c p st1 st2 cs sel Hst1 Hp Hcs Hs) as [Hst2 Hw].
  assert (∀ x, x ∈ cs → ∃ g, get (generations st2) x.1 = Some g ∧ stands_at p g x.2) as Hal
    by (intros x Hx; by eapply (settled_place p st1 st2 cs (sel, asm) c)).
  apply wp_bind. eapply wp_mono; [apply wp_placements; naive_solver| |done]. intros qs Hqs.
  assert (t_key st2 = t_key st) as Hk2 by (destruct Hw; congruence).
  apply wp_bind. rewrite (tuple_encode_ok c) by (done || apply Hst2 || (split; [by rewrite Hk2|apply Hst2])). apply wp_ok.
  rewrite digest_ok. cbn [mbind res_bind]. apply wp_ok. split; [done|]. split; [by eapply grown_widened|].
  split_and!; simpl; [..|congruence|].
  - intros q [n Hq]%list_elem_of_lookup. destruct (Forall2_lookup_r _ _ _ _ _ Hqs Hq) as ([j x] & [_ Hx]%lookup_enumerate & g & Hg & ->).
    simpl in *. split; [done|]. destruct (Hal x) as (g' & Hg' & Ha); [by eapply list_elem_of_lookup_2|].
    rewrite Hg in Hg'. injection Hg' as <-. exists g. split; [|done]. apply get_Some in Hg as [_ Hg]. by eapply list_elem_of_lookup_2.
  - intros j k q q' Hj Hk' Hq Hq'. pose proof (placements_selected _ _ _ _ _ _ _ Hqs Hj Hq).
    pose proof (placements_selected _ _ _ _ _ _ _ Hqs Hk' Hq'). congruence.
  - intros Hq. by eapply (unselected c p st st1 st2 cs (sel, asm)).
  - intros ->. by apply Hyes.
  - intros b' Hb'. rewrite (tuple_encode_ok c) in Hb' by (done || apply Hst2 || (split; [by rewrite Hk2|apply Hst2])).
    by injection Hb' as <-.
Qed.

(** C11: an observation either leaves a tuple's state exactly as it was, with an error, or
    widens it: the state stays well formed and within its limits, no generation loses
    what it has seen, and at most one is added.  The decision names generations of the
    new state: a SYN without ACK at offset 0 of generations whose SYN in its direction it
    is, any other packet at offsets its data sequence number stands for (0 where nothing
    of its direction was observed).  It selects at most one of them, changes nothing if it selects none, and is bound to the digests of both states.
    All of it follows from the packet read again from its raw octets. *)
Theorem ingest_true input s c st :
  state_ok c st → observed_typed (observed input) →
  swp (ingest input s c) st
      (λ st' d, state_ok c st' ∧ grows st st' ∧
         ∃ p, tcp_input_new (i_key input) (i_direction input) (i_frame input) (i_when input) (i_raw input)
                (i_witnesses input) c = Ok p ∧ decision_true c p st st' d)
      (λ st' _, st' = st).
Proof.
  intros Hst Ht.
  enough (wp (config_validate c ;;
         (if (65535 <? zlen (i_raw input)) || (hc_witnesses c <? zlen (i_witnesses input))
             || (hc_generations c <? zlen (generations st)) then Err (limit "history_state_input") else Ok ()) ;;
         key_encode (t_key st) ;; ingest_inner st input s c)
      (λ r, state_ok c r.1 ∧ grows st r.1 ∧ ∃ p, input_of c (observed input) = Ok p ∧ decision_true c p st r.1 r.2) (λ _, True)) as H.
  { unfold swp, ingest. by destruct (config_validate c ;; _) as [[st' d]|e| |]. }
  apply wp_bind. eapply wp_mono; [apply wp_config_validate| |done]. intros ? Hc. cbv beta in Hc.
  wp_step. wp_step; [done|]. wp_step. bool_facts. apply wp_bind. eapply wp_mono; [apply wp_key_encode| |done]. intros _ [Hk _].
  unfold ingest_inner. apply wp_bind. rewrite Hc. apply wp_ok. apply wp_bind.
  eapply wp_mono; [apply (wp_rederive c input Hc Ht); lia| |done]. intros e He. apply wp_bind. rewrite He.
  pose proof (tcp_input_new_spec (i_key input) (i_direction input) (i_frame input) (i_when input) (i_raw input) (i_witnesses input) c) as Hs.
  change (input_of c (observed input)) with (tcp_input_new (i_key input) (i_direction input) (i_frame input) (i_when input) (i_raw input) (i_witnesses input) c).
  destruct (tcp_input_new _ _ _ _ _ _ c) as [p|e'| |] eqn:Hnew; [|done|by destruct Hs; apply Ht..].
  apply wp_ok. destruct Hs as (Heq & Hh & _ & _ & Hd & Hf); [apply Ht|].
  assert (packet_ok p) as Hp by (eapply header_packet_ok; [apply Ht|by rewrite Heq|done..]).
  wp_step; [done|]. apply wp_bind.
  assert (tuple_encode st = Ok (tuple_octets st)) as Henc by (apply (tuple_encode_ok c); [done|apply Hst|split; [done|apply Hst]]).
  rewrite Henc. apply wp_ok. apply wp_bind. rewrite digest_ok. apply wp_ok.
  eapply wp_mono; [by apply (wp_decide st p s c (tuple_octets st))| |done].
  intros [st' d] (Hok & Hgr & Hdec). split; [done|]. split; [done|]. by exists p.
Qed.

Lemma sample_key_typed : key_typed sample_key.
Proof.
  unfold key_typed, string_ok, endpoint_typed. simpl.
  repeat split; repeat constructor; try (by vm_compute); try (apply small_bytes_ok; by vm_compute); try lia.
Qed.
Lemma sample_typed : observed_typed (observed sample_input).
Proof.
  split; [apply sample_key_typed|]. simpl. unfold witness_typed.
  repeat split; repeat constructor; try (by vm_compute); try (apply small_bytes_ok; by vm_compute); try lia.
Qed.
Lemma sample_state_ok : state_ok hconfig_default (tuple_new sample_key).
Proof. split; [apply sample_key_typed|]. split; [by vm_compute|constructor]. Qed.
Lemma sample_ingest :
  ∃ d, (ingest sample_input sample_source hconfig_default (tuple_new sample_key)).2 = Ok d ∧ zlen (placements d) = 1.
Proof.
  assert (match (ingest sample_input sample_source hconfig_default (tuple_new sample_key)).2 with
          | Ok d => zlen (placements d) =? 1 | _ => false end = true) as Hok by by vm_compute.
  destruct ((ingest sample_input sample_source hconfig_default (tuple_new sample_key)).2) as [d|e| |]; try done.
  exists d. split; [done|by apply Z.eqb_eq].
Qed.
Lemma ingest_true_witness :
  ∃ d, (ingest sample_input sample_source hconfig_default (tuple_new sample_key)).2 = Ok d ∧ zlen (placements d) = 1 ∧
    state_ok hconfig_default (ingest sample_input sample_source hconfig_default (tuple_new sample_key)).1.
Proof.
  destruct sample_ingest as (d & Hd & Hn). exists d. split; [exact Hd|]. split; [exact Hn|].
  apply (swp_value _ _ _ _ _ (ingest_true _ sample_source _ _ sample_state_ok sample_typed) Hd).
Defined.

(** A connection first seen in the middle: the origin of its offsets is the first packet
    observed, and a SYN captured after it lies before the origin.  From then on the octets
    between the two have no place: the lowest offset considered is 0, not the SYN's. *)
Definition sample_segment (seq flags_octet : Z) (data : list Z) : TcpInput :=
  let raw := [3; 232; 1; 246] ++ to_be_bytes 4 seq ++ [0; 0; 0; 2; 0x50; flags_octet; 4; 0; 0; 0; 0; 0] ++ data in
  {| i_key := sample_key; i_direction := 0; i_frame := 2; i_when := Some 5; i_raw := raw;
     i_witnesses := [{| w_start := 0; w_end := zlen raw; w_frame := 1; w_record_offset := 24; w_packet_start := 34; w_source_offset := 74 |}];
     i_sequence := 0; i_acknowledgement := 0; i_flags := 0; i_window := 0; i_timestamp_value := None; i_header_bytes := 0 |}.
Definition offsets (r : result Decision) : option (list Z) :=
  match r with Ok d => Some (map p_offset (placements d)) | _ => None end.
Example octet_after_late_syn :
  let run st p := ingest p sample_source hconfig_default st in
  let '(st, d0) := run (tuple_new sample_key) (sample_segment 1000 0x10 [65]) in
  let '(st, d1) := run st (sample_segment 998 0x12 []) in
  let '(st, d2) := run st (sample_segment 999 0x10 [66]) in
  map offsets [d0; d1; d2] = [Some [0]; Some [-1]; Some []].
Proof. by vm_compute. Qed.
(** The same SYN once more, without its ACK, is placed at the origin and not where it was
    placed the first time. *)
Example repeated_syn_at_origin :
  let run st p := ingest p sample_source hconfig_default st in
  let '(st, d0) := run (tuple_new sample_key) (sample_segment 1000 0x10 [65]) in
  let '(st, d1) := run st (sample_segment 998 0x12 []) in
  let '(st, d2) := run st (sample_segment 998 0x02 []) in
  map offsets [d0; d1; d2] = [Some [0]; Some [-1]; Some [0]].
Proof. by vm_compute. Qed.

(** C20: the offsets a packet is tried at are exactly those in the range that its 32-bit
    sequence number stands for, in ascending order; there are at most [max] of them, and
    the answer is an error only for an empty range, a budget outside 1 to 64, or a range
    with more than [max] of them. *)
Theorem epoch_candidates_exact sequence anchor low high max :
  i64_min ≤ low → high ≤ i64_max → 0 ≤ max →
  wp (epoch_candidates sequence anchor low high max)
     (λ l, low ≤ high ∧ 0 < max ≤ 64 ∧ zlen l ≤ max ∧ StronglySorted Z.lt l ∧
           ∀ x, x ∈ l ↔ low ≤ x ≤ high ∧ alias sequence anchor x)
     (λ e, code e = Invariant ∧ (high < low ∨ max = 0 ∨ 64 < max) ∨
           e = limit "sequence_epoch_candidates" ∧
           ∃ x, alias sequence anchor x ∧ low ≤ x ∧ x + max * MODULUS ≤ high).
Proof. apply wp_epochs. Qed.
(** Three epochs around the start: a sequence number ten below the anchor. *)
Lemma epoch_candidates_exact_witness :
  epoch_candidates 90 100 (-5000000000) 5000000000 4 = Ok [-4294967306; -10; 4294967286] ∧
  ∀ x, x ∈ [-4294967306; -10; 4294967286] ↔ -5000000000 ≤ x ≤ 5000000000 ∧ alias 90 100 x.
Proof.
  pose proof (epoch_candidates_exact 90 100 (-5000000000) 5000000000 4 ltac:(lia) ltac:(lia) ltac:(lia)) as H.
  assert (epoch_candidates 90 100 (-5000000000) 5000000000 4 = Ok [-4294967306; -10; 4294967286]) as He by by vm_compute.
  rewrite He in H. split; [exact He|]. apply H.
Defined.

Definition sample_generation : Generation := {|
  g_id := repeat 7 32; birth := 3; syn := (Some 99, None); anchor := (Some 100, None); low := (0, 0);
  high := (20, 0); fin := (Some 20, None); g_reset := false; midstream := false; last_time := Some (-1) |}.
Definition sample_tuple : TupleState := {| t_key := sample_key; generations := [sample_generation] |}.
Lemma tuple_state_exact_witness : tuple_decode (tuple_octets sample_tuple) hconfig_default = Ok sample_tuple.
Proof.
  apply tuple_state_exact; [apply small_bytes_ok; by vm_compute|by vm_compute|by vm_compute|].
  split; [split; [exact sample_key_typed|apply Forall_singleton]|split; [by vm_compute|split; [|by vm_compute]]].
  - unfold generation_typed. rewrite !sides. unfold hash_ok, u64_ok, u32_ok, i64_ok, i128_ok. simpl.
    repeat split; try (by vm_compute); try (apply small_bytes_ok; by vm_compute); try lia.
  - apply Forall_singleton. split; [by vm_compute|]. intros d. unfold side. by destruct (d =? 0).
Defined.

Definition sample_decision : Decision := {|
  before := repeat 1 32; after := repeat 2 32;
  placements := [{| p_generation := repeat 7 32; p_direction := 1; p_offset := -40; p_selected := true |}];
  reasons := [text "missing_initial_syn"]; policy_assumption := false |}.
Lemma decision_exact_witness : decision_decode (decision_octets sample_decision) hconfig_default = Ok sample_decision.
Proof.
  apply decision_exact; [apply small_bytes_ok; by vm_compute|by vm_compute|by vm_compute|].
  split; [|by vm_compute]. unfold decision_typed, placement_typed, hash_ok, i64_ok. simpl.
  repeat split; repeat constructor; try (by vm_compute); try (apply small_bytes_ok; by vm_compute); try lia.
Defined.
