(* ===== verification/Journal.v ===== *)
(** * The history journal ([src/history/src/journal.rs])

    An append-only file of records, each bound by a digest to the one before it.  A file is
    the list of its octets with a position in it; writes and reads do not fail, and what
    the buffered writer holds counts as written.  The disk quota, which the writer shares
    with the other users of the workspace, is part of the state of every operation. *)

From S2P Require Import Prelude Errors Stateful Json Sha256 Codec HistModel.

Definition MAGIC : list Z := text "PCHIST01".
Definition DOMAIN : list Z := text "pcap-evidence/history-record/v1" ++ [0].
Definition PACKET : Z := 1.
Definition TCP : Z := 2.
Definition NOTICE : Z := 3.
Definition CHECKPOINT : Z := 4.
Definition ABORT : Z := 254.
Definition SEAL : Z := 255.
(** [[PACKET, TCP, NOTICE, CHECKPOINT, ABORT, SEAL].contains(&kind)]. *)
Definition known_kind (kind : Z) : bool := existsb (Z.eqb kind) [PACKET; TCP; NOTICE; CHECKPOINT; ABORT; SEAL].

(** ** [DiskBudget] *)

Record DiskBudget : Type := { q_used : Z; q_peak : Z; q_maximum : Z }.
Definition charge (q : DiskBudget) (n : Z) : result DiskBudget :=
  next ← ok_or (checked_add u64_max (q_used q) n) (limit "history_disk");
  if q_maximum q <? next then Err (limit "history_disk")
  else Ok {| q_used := next; q_peak := Z.max (q_peak q) next; q_maximum := q_maximum q |}.
Definition release (q : DiskBudget) (n : Z) : result DiskBudget :=
  used ← ok_or (checked_sub (q_used q) n) (bad "history_disk" "budget accounting underflow");
  Ok {| q_used := used; q_peak := q_peak q; q_maximum := q_maximum q |}.
Definition quota (maximum : Z) : DiskBudget := {| q_used := 0; q_peak := 0; q_maximum := maximum |}.

(** [hash_reader]: the source arrives in the pieces [read] returns, up to an empty one. *)
Definition hash_piece (max : Z) (s : Sha256 * Z) (b : list Z) : result (Sha256 * Z) :=
  let '(hash, total) := s in
  total ← ok_or (checked_add u64_max total (zlen b)) (limit "source_bytes");
  if (max <? total) || (u64_max / 8 <? total) then Err (limit "source_bytes") else
  hash ← update hash b;
  Ok (hash, total).
Definition hash_reader (reads : list (list Z)) (max : Z) : result SourceIdentity :=
  r ← foldM (hash_piece max) (sha256_new, 0) reads;
  sha ← finalize r.1;
  Ok {| si_sha256 := sha; si_bytes := r.2 |}.

(** ** [Writer] *)

Record JHeader : Type := { jh_source : SourceIdentity; jh_config : HConfig; jh_digest : list Z; jh_bytes : Z }.

Definition header_bytes (source : SourceIdentity) (c : HConfig) : result (list Z * list Z) :=
  config ← config_encode c;
  body ← put_bytes (put_u64 (put_hash [] (si_sha256 source)) (si_bytes source)) config;
  let out := MAGIC ++ to_le_bytes 4 (zlen body) ++ body in
  sha ← digest out;
  Ok (out ++ sha, sha).

Record Writer : Type := {
  w_file : list Z;
  w_header : JHeader;
  w_count : Z;
  w_position : Z;
  w_previous : list Z;
  w_poisoned : bool;
  w_terminal : bool;
}.

(** A writer with the quota it shares. *)
Definition Writing : Type → Type := Stateful (Writer * DiskBudget).

(** [Writer::create] of a path that does not exist. *)
Definition writer_create (source : SourceIdentity) (config : HConfig) (q : DiskBudget) : result (Writer * DiskBudget) :=
  config_validate config ;;
  h ← header_bytes source config;
  let '(bytes, sha) := h in
  q ← charge q (zlen bytes);
  Ok ({| w_file := bytes;
         w_header := {| jh_source := source; jh_config := config; jh_digest := sha; jh_bytes := zlen bytes |};
         w_count := 0; w_position := zlen bytes; w_previous := sha; w_poisoned := false; w_terminal := false |}, q).

(** The digest a record is bound by. *)
Definition record_digest (previous length payload : list Z) : result (list Z) :=
  hash ← foldM update sha256_new [DOMAIN; previous; length; payload];
  finalize hash.

(** [write_record], the part before anything is written: the octets and what is recorded
    of them. *)
Definition prepare_record (w : Writer) (kind : Z) (body : list Z) : result (Z * list Z * list Z * list Z) :=
  if negb (known_kind kind) then Err (bad "history_kind" "unknown record type") else
  len ← ok_or (checked_add usize_max (zlen body) 9) (limit "history_record");
  if (hc_record_bytes (jh_config (w_header w)) <? len) || (hc_records (jh_config (w_header w)) <=? w_count w)
  then Err (limit "history_record") else
  seq ← ok_or (checked_add u64_max (w_count w) 1) (limit "history_sequence");
  let length := to_le_bytes 4 len in
  let payload := put_u64 (put_u8 [] kind) seq ++ body in
  sha ← record_digest (w_previous w) length payload;
  Ok (seq, length, payload, sha).
Definition write_record (kind : Z) (body : list Z) : Writing (Z * list Z) :=
  s ← get_state;
  r ← lift (prepare_record s.1 kind body);
  let '(seq, length, payload, sha) := r in
  bytes ← lift (ok_or (checked_add u64_max (zlen payload) 36) (limit "history_record"));
  attempt (λ s, q ← charge s.2 bytes; Ok (s.1, q)) ;;
  let offset := w_position s.1 in
  modify (λ s, ({| w_file := w_file s.1 ++ length ++ payload ++ sha; w_header := w_header s.1;
                   w_count := w_count s.1; w_position := w_position s.1; w_previous := w_previous s.1;
                   w_poisoned := w_poisoned s.1; w_terminal := w_terminal s.1 |}, s.2)) ;;
  position ← lift (ok_or (checked_add u64_max offset bytes) (limit "history_position"));
  modify (λ s, ({| w_file := w_file s.1; w_header := w_header s.1; w_count := seq; w_position := position;
                   w_previous := sha; w_poisoned := w_poisoned s.1;
                   w_terminal := (kind =? ABORT) || (kind =? SEAL) |}, s.2)) ;;
  mret (offset, sha).

(** [Writer::append]. *)
Definition poison (s : Writer * DiskBudget) : Writer * DiskBudget :=
  let w := s.1 in
  ({| w_file := w_file w; w_header := w_header w; w_count := w_count w; w_position := w_position w;
      w_previous := w_previous w; w_poisoned := true; w_terminal := w_terminal w |}, s.2).
Definition append (kind : Z) (body : list Z) : Writing (Z * list Z) := λ s,
  if w_poisoned s.1 || w_terminal s.1 then (s, Err (bad "history_writer" "writer is failed or terminal")) else
  match write_record kind body s with
  | (s, Err e) => (poison s, Err e)
  | r => r
  end.

(** [Writer::sync]. *)
Definition sync : Writing unit :=
  s ← get_state;
  if w_poisoned s.1 then throw (bad "history_writer" "failed writer") else mret ().

(** ** [Reader] *)

Record JRecord : Type := { r_kind : Z; r_sequence : Z; r_body : list Z; r_offset : Z; r_digest : list Z }.
Record JReader : Type := {
  j_file : list Z;
  j_at : Z;
  j_header : JHeader;
  j_count : Z;
  j_position : Z;
  j_previous : list Z;
  j_sealed : bool;
  j_aborted : bool;
  j_ended : bool;
}.

(** A file is read like the octets of a decoder: from a position on.  [exact]: the next
    [n] octets; a short file is read to its end. *)
Definition exact (n : Z) : Reading (list Z) := λ f,
  if d_at f + n <=? zlen (d_bytes f)
  then ({| d_bytes := d_bytes f; d_at := d_at f + n |}, Ok (sub (d_bytes f) (d_at f) (d_at f + n)))
  else ({| d_bytes := d_bytes f; d_at := zlen (d_bytes f) |},
        Err (error_new Truncated 0 "history_record" "partial journal field")).

(** [Reader::open] of a regular file. *)
Definition get_source : Reading (SourceIdentity * HConfig) :=
  sha ← get_hash;
  n ← get_u64;
  cb ← get_bytes 2048;
  config ← lift (config_decode cb);
  mret ({| si_sha256 := sha; si_bytes := n |}, config).
Definition read_header : Reading JHeader :=
  prefix ← exact 12;
  if negb (bytes_eqb (sub prefix 0 8) MAGIC) then throw (bad "history_magic" "not a history-v1 journal") else
  let len := from_le_bytes (sub prefix 8 12) in
  if 4096 <? len then throw (limit "history_header") else
  body ← exact len;
  stored ← exact 32;
  sha ← lift (digest (prefix ++ body));
  if negb (bytes_eqb sha stored) then throw (bad "history_header" "header digest mismatch") else
  r ← lift (decode_all (r ← get_source; finish ;; mret r) body);
  let '(source, config) := r in
  if hc_source_bytes config <? si_bytes source then throw (limit "source_bytes") else
  mret {| jh_source := source; jh_config := config; jh_digest := sha; jh_bytes := 12 + len + 32 |}.
Definition reader_open (file : list Z) : result JReader :=
  match read_header (decoder_new file) with
  | (f, Ok h) =>
      Ok {| j_file := d_bytes f; j_at := d_at f; j_header := h; j_count := 0; j_position := jh_bytes h;
            j_previous := jh_digest h; j_sealed := false; j_aborted := false; j_ended := false |}
  | (_, Err e) => Err e
  | (_, Panic) => Panic
  | (_, OutOfFuel) => OutOfFuel
  end.

(** A read of the reader's file. *)
Definition reading {A} (m : Reading A) : Stateful JReader A := λ r,
  let '(f, a) := m {| d_bytes := j_file r; d_at := j_at r |} in
  ({| j_file := d_bytes f; j_at := d_at f; j_header := j_header r; j_count := j_count r; j_position := j_position r;
      j_previous := j_previous r; j_sealed := j_sealed r; j_aborted := j_aborted r; j_ended := j_ended r |}, a).

(** The octets of a record after its first one: its length, payload and digest. *)
Definition read_frame (first : list Z) (max_record_bytes max_records count : Z)
    : Reading (list Z * list Z * list Z) :=
  rest ← exact 3;
  let length := first ++ rest in
  let len := from_le_bytes length in
  if negb (contains 9 max_record_bytes len) || (max_records <=? count) then throw (limit "history_record") else
  payload ← exact len;
  stored ← exact 32;
  mret (length, payload, stored).

(** The fields of a payload. *)
Definition get_record (len : Z) : Reading (Z * Z * list Z) :=
  kind ← get_u8;
  sequence ← get_u64;
  n ← lift (sub_ovf len 9);
  body ← take n;
  mret (kind, sequence, body).
Definition get_checked_record (len count : Z) : Reading (Z * Z * list Z) :=
  kind ← get_u8;
  sequence ← get_u64;
  next ← lift (add_ovf u64_max count 1);
  if negb (sequence =? next) || negb (known_kind kind)
  then throw (bad "history_sequence" "noncanonical record sequence/type") else
  n ← lift (sub_ovf len 9);
  body ← take n;
  mret (kind, sequence, body).

Definition end_reader (r : JReader) : JReader :=
  {| j_file := j_file r; j_at := j_at r; j_header := j_header r; j_count := j_count r; j_position := j_position r;
     j_previous := j_previous r; j_sealed := j_sealed r; j_aborted := j_aborted r; j_ended := true |}.
(** The frame after the records of [r], checked and recorded. *)
Definition bind_record (r : JReader) (frame : list Z * list Z * list Z) : Stateful JReader (option JRecord) :=
  let '(length, payload, stored) := frame in
  sha ← lift (record_digest (j_previous r) length payload);
  if negb (bytes_eqb sha stored) then throw (bad "history_chain" "record hash mismatch") else
  x ← lift (decode_all (x ← get_checked_record (zlen payload) (j_count r); finish ;; mret x) payload);
  let '(kind, sequence, body) := x in
  position ← lift (ok_or (checked_add u64_max (j_position r) (zlen payload + 36)) (limit "history_position"));
  modify (λ r', {| j_file := j_file r'; j_at := j_at r'; j_header := j_header r'; j_count := sequence;
                   j_position := position; j_previous := sha; j_sealed := kind =? SEAL;
                   j_aborted := kind =? ABORT; j_ended := j_ended r' |}) ;;
  mret (Some {| r_kind := kind; r_sequence := sequence; r_body := body; r_offset := j_position r; r_digest := sha |}).
Definition read_record : Stateful JReader (option JRecord) :=
  r ← get_state;
  if j_ended r then mret None
  else if zlen (j_file r) <=? j_at r then modify end_reader ;; mret None
  else
    first ← reading (exact 1);
    if j_sealed r || j_aborted r then throw (bad "history_terminal" "data after terminal record") else
    frame ← reading (read_frame first (hc_record_bytes (jh_config (j_header r))) (hc_records (jh_config (j_header r))) (j_count r));
    bind_record r frame.

(** [Reader::next_record]. *)
Definition next_record : Stateful JReader (option JRecord) := λ r,
  match read_record r with
  | (r, Err e) => (end_reader r, Err e)
  | x => x
  end.

(** [Reader::indexed]. *)
Definition read_indexed (offset max_record_bytes : Z) : Reading (list Z * list Z * list Z * list Z) :=
  start ← lift (sub_ovf offset 32);
  modify (λ f, {| d_bytes := d_bytes f; d_at := start |}) ;;
  previous ← exact 32;
  length ← exact 4;
  let len := from_le_bytes length in
  if negb (contains 9 max_record_bytes len) then throw (limit "history_record") else
  payload ← exact len;
  stored ← exact 32;
  mret (previous, length, payload, stored).
Definition indexed (offset : Z) (sha : list Z) : Stateful JReader JRecord :=
  r ← get_state;
  if offset <? jh_bytes (j_header r) then throw (bad "history_index" "offset inside header") else
  f ← reading (read_indexed offset (hc_record_bytes (jh_config (j_header r))));
  let '(previous, length, payload, stored) := f in
  if negb (bytes_eqb stored sha) then throw (bad "history_index" "record digest does not match verified index") else
  computed ← lift (record_digest previous length payload);
  if negb (bytes_eqb computed sha) then throw (bad "history_index" "indexed payload or predecessor drift") else
  x ← lift (decode_all (get_record (zlen payload)) payload);
  let '(kind, sequence, body) := x in
  mret {| r_kind := kind; r_sequence := sequence; r_body := body; r_offset := offset; r_digest := sha |}.
