(* ===== verification/JournalFacts.v ===== *)
(** * The journal file

    What a writer has written is the header and the chain of its records, and a reader
    accepts exactly such files: it reads back the records that were appended, at the
    offsets and with the digests the writer reported, and any other file is refused. *)

From S2P Require Import Prelude Errors Stateful Json Sha256 ModbusFacts Codec CodecFacts HistModel HistModelFacts Journal.

(** ** The file *)

Definition payload_octets (n kind : Z) (body : list Z) : list Z := [kind] ++ to_le_bytes 8 n ++ body.
Definition bound_digest (previous payload : list Z) : list Z :=
  sha_reference (DOMAIN ++ previous ++ to_le_bytes 4 (zlen payload) ++ payload).
Definition record_octets (previous payload : list Z) : list Z :=
  to_le_bytes 4 (zlen payload) ++ payload ++ bound_digest previous payload.

(** The records after [n] others, the last one with the digest [previous]. *)
Fixpoint chain (previous : list Z) (n : Z) (rs : list (Z * list Z)) : list Z :=
  match rs with
  | [] => []
  | (kind, body) :: rs =>
      let payload := payload_octets (n + 1) kind body in
      record_octets previous payload ++ chain (bound_digest previous payload) (n + 1) rs
  end.
Fixpoint chain_digest (previous : list Z) (n : Z) (rs : list (Z * list Z)) : list Z :=
  match rs with
  | [] => previous
  | (kind, body) :: rs => chain_digest (bound_digest previous (payload_octets (n + 1) kind body)) (n + 1) rs
  end.
Definition source_octets (source : SourceIdentity) (c : HConfig) : list Z :=
  si_sha256 source ++ to_le_bytes 8 (si_bytes source) ++ blob (config_octets c).
Definition prefix_octets (source : SourceIdentity) (c : HConfig) : list Z :=
  MAGIC ++ to_le_bytes 4 (zlen (source_octets source c)) ++ source_octets source c.
Definition header_digest (source : SourceIdentity) (c : HConfig) : list Z := sha_reference (prefix_octets source c).
Definition header_octets (source : SourceIdentity) (c : HConfig) : list Z :=
  prefix_octets source c ++ header_digest source c.
Definition journal (source : SourceIdentity) (c : HConfig) (rs : list (Z * list Z)) : list Z :=
  header_octets source c ++ chain (header_digest source c) 0 rs.

Lemma chain_app previous n rs rs' :
  chain previous n (rs ++ rs') = chain previous n rs ++ chain (chain_digest previous n rs) (n + zlen rs) rs'.
Proof.
  revert previous n. induction rs as [|[kind body] rs IH]; intros previous n; cbn [app chain chain_digest].
  - by rewrite Z.add_0_r.
  - rewrite IH. replace (n + zlen ((kind, body) :: rs)) with (n + 1 + zlen rs) by (rewrite zlen_cons; lia). by rewrite <- app_assoc.
Qed.
Lemma chain_digest_app previous n rs rs' :
  chain_digest previous n (rs ++ rs') = chain_digest (chain_digest previous n rs) (n + zlen rs) rs'.
Proof.
  revert previous n. induction rs as [|[kind body] rs IH]; intros previous n; cbn [app chain chain_digest].
  - by rewrite Z.add_0_r.
  - rewrite IH. replace (n + zlen ((kind, body) :: rs)) with (n + 1 + zlen rs) by (rewrite zlen_cons; lia). done.
Qed.

Lemma record_digest_ok previous payload :
  record_digest previous (to_le_bytes 4 (zlen payload)) payload = Ok (bound_digest previous payload).
Proof.
  unfold record_digest, bound_digest. rewrite incremental_spec. cbn [concat]. by rewrite app_nil_r.
Qed.

(** ** The writer *)

Definition header_of (source : SourceIdentity) (c : HConfig) : JHeader := {|
  jh_source := source; jh_config := c; jh_digest := header_digest source c;
  jh_bytes := zlen (header_octets source c) |}.

Definition terminal_kind (kind : Z) : bool := (kind =? ABORT) || (kind =? SEAL).
Definition record_ok (c : HConfig) (r : Z * list Z) : Prop :=
  known_kind r.1 = true ∧ zlen r.2 + 9 ≤ hc_record_bytes c.
(** Records in the order of a journal: nothing follows a terminal one. *)
Fixpoint records_ok (c : HConfig) (rs : list (Z * list Z)) : Prop :=
  match rs with
  | [] => True
  | r :: rs => record_ok c r ∧ (terminal_kind r.1 = true → rs = []) ∧ records_ok c rs
  end.
Definition ends_terminal (rs : list (Z * list Z)) : bool :=
  match last rs with Some r => terminal_kind r.1 | None => false end.

(** What a writer that did not fail has written. *)
Definition writer_ok (source : SourceIdentity) (c : HConfig) (w : Writer) (rs : list (Z * list Z)) : Prop :=
  w_file w = journal source c rs ∧ w_header w = header_of source c ∧ w_count w = zlen rs ∧
  w_position w = zlen (w_file w) ∧ w_previous w = chain_digest (header_digest source c) 0 rs ∧
  w_terminal w = ends_terminal rs ∧ w_poisoned w = false ∧ records_ok c rs ∧ zlen rs ≤ hc_records c.

Lemma config_octets_fit c : zlen (config_octets c) ≤ 2048.
Proof.
  unfold config_octets. rewrite !zlen_app, zlen_blob, zlen_cons, zlen_nil. change (zlen ENGINE) with 38.
  assert (zlen (concat (map (to_le_bytes 8) (config_numbers c))) ≤ 8 * zlen (config_numbers c))
    by (apply zlen_concat_le, Forall_true; intros; by rewrite zlen_le).
  change (zlen (config_numbers c)) with 15 in *. lia.
Qed.

Lemma source_encode source c :
  config_validate c = Ok () → header_bytes source c = Ok (header_octets source c, header_digest source c).
Proof.
  intros Hc. unfold header_bytes. rewrite config_encode_octets by done. cbn [mbind res_bind].
  assert (zlen (config_octets c) ≤ u32_max) as Hl.
  { pose proof (config_octets_fit c). lia. }
  rewrite put_bytes_ok by done. cbn [mbind res_bind]. rewrite digest_ok. cbn [mbind res_bind].
  unfold put_u64, put_hash, header_octets, header_digest, prefix_octets, source_octets. by rewrite app_nil_l, <- !app_assoc.
Qed.

Lemma ends_terminal_snoc rs r : ends_terminal (rs ++ [r]) = terminal_kind r.1.
Proof. unfold ends_terminal. by rewrite last_snoc. Qed.

Lemma records_ok_snoc c rs r :
  records_ok c rs → ends_terminal rs = false → record_ok c r → records_ok c (rs ++ [r]).
Proof.
  intros Hrs He Hr. induction rs as [|r' rs IH]; [done|]. destruct Hrs as (H1 & H2 & H3). cbn [app records_ok].
  split; [done|]. split.
  - intros Ht. rewrite (H2 Ht) in He. unfold ends_terminal in He. simpl in He. congruence.
  - apply IH; [done|]. destruct rs; [done|]. exact He.
Qed.

Lemma config_records c :
  config_validate c = Ok () → hc_record_bytes c ≤ 16 * 1024 * 1024 ∧ hc_records c ≤ u64_max / 2 ∧ 4096 ≤ hc_record_bytes c.
Proof. unfold config_validate, contains. case_match eqn:H; [done|]. intros _. bool_facts. lia. Qed.

Lemma zlen_sha m : zlen (sha_reference m) = 32.
Proof. apply sha_reference_length. Qed.
Lemma zlen_payload n kind body : zlen (payload_octets n kind body) = zlen body + 9.
Proof. unfold payload_octets. rewrite zlen_app, zlen_app, zlen_le, zlen_cons, zlen_nil. lia. Qed.
Lemma zlen_record previous payload : zlen (record_octets previous payload) = zlen payload + 36.
Proof. unfold record_octets, bound_digest. rewrite !zlen_app, zlen_le, zlen_sha. lia. Qed.

(** Why a record is not written. *)
Definition refused (c : HConfig) (w : Writer) (q : DiskBudget) (rs : list (Z * list Z)) (r : Z * list Z) : Prop :=
  ends_terminal rs = true ∨ ¬ record_ok c r ∨ hc_records c ≤ zlen rs ∨
  Z.min u64_max (q_maximum q) < q_used q + (zlen r.2 + 45) ∨ u64_max < zlen (w_file w) + (zlen r.2 + 45).

Lemma wp_prepare source c w q rs kind body :
  config_validate c = Ok () → writer_ok source c w rs →
  wp (prepare_record w kind body)
     (λ r, let payload := payload_octets (zlen rs + 1) kind body in
           r = (zlen rs + 1, to_le_bytes 4 (zlen payload), payload, bound_digest (w_previous w) payload) ∧
           record_ok c (kind, body) ∧ zlen rs < hc_records c)
     (λ _, refused c w q rs (kind, body)).
Proof.
  intros Hc (_ & Hh & Hn & _ & Hp & _). destruct (config_records c Hc) as (Hb & Hr & _). unfold prepare_record, refused, record_ok.
  cbn [fst snd]. rewrite Hh, Hn. cbn [header_of jh_config]. pose proof (zlen_nonneg body). pose proof (zlen_nonneg rs).
  wp_step; [apply wp_err; right; left; intros [Hk _]; congruence|]. bool_facts.
  apply wp_bind, wp_ok_or; [intros len Hlen|intros Hlen%checked_add_None; right; left; lia].
  apply checked_add_Some in Hlen as [-> _]. wp_step; [apply wp_err|].
  { destruct (Z.ltb_spec (hc_record_bytes c) (zlen body + 9)); [right; left; lia|]. right. right. left. lia. }
  bool_facts. apply wp_bind, wp_ok_or; [intros seq [-> _]%checked_add_Some|intros Hx%checked_add_None; exfalso; dlia].
  cbv zeta. change (put_u64 (put_u8 [] kind) (zlen rs + 1) ++ body) with (payload_octets (zlen rs + 1) kind body).
  apply wp_bind. rewrite <- (zlen_payload (zlen rs + 1) kind). rewrite record_digest_ok.
  apply wp_ok, wp_ok. split; [done|]. split; [|lia]. split; [done|]. rewrite zlen_payload in *. lia.
Qed.

Lemma wp_charge q n (R : Error → Prop) :
  0 ≤ n → (Z.min u64_max (q_maximum q) < q_used q + n → ∀ e, R e) →
  wp (charge q n) (λ q', q_used q' = q_used q + n ∧ q_maximum q' = q_maximum q ∧ q_used q' ≤ q_maximum q) R.
Proof.
  intros Hn Hr. unfold charge. apply wp_bind, wp_ok_or; [intros next [-> Hx]%checked_add_Some|intros Hx%checked_add_None; apply Hr; lia].
  wp_step; [apply wp_err, Hr; lia|]. apply wp_ok. simpl. lia.
Qed.

Lemma journal_snoc source c rs kind body :
  journal source c (rs ++ [(kind, body)]) =
  journal source c rs ++ record_octets (chain_digest (header_digest source c) 0 rs) (payload_octets (zlen rs + 1) kind body).
Proof.
  unfold journal. rewrite chain_app, <- app_assoc. do 2 f_equal. cbn [chain]. by rewrite app_nil_r, Z.add_0_l.
Qed.

Lemma swp_write source c w q rs kind body :
  config_validate c = Ok () → writer_ok source c w rs → ends_terminal rs = false →
  swp (write_record kind body) (w, q)
      (λ s' r, writer_ok source c s'.1 (rs ++ [(kind, body)]) ∧ r = (zlen (w_file w), w_previous s'.1) ∧
         q_used s'.2 = q_used q + (zlen body + 45) ∧ q_maximum s'.2 = q_maximum q ∧ q_used s'.2 ≤ q_maximum q)
      (λ _ _, refused c w q rs (kind, body)).
Proof.
  intros Hc Hw Ht. pose proof Hw as (Hf & Hh & Hn & Hpos & Hp & Hte & Hpo & Hrs & Hmax). unfold write_record.
  apply swp_bind, swp_get, swp_bind, swp_lift. cbn [fst snd].
  eapply wp_mono; [by apply (wp_prepare source c w q rs)| |done]. cbv zeta. intros r (-> & Hr & Hlt).
  set (payload := payload_octets (zlen rs + 1) kind body). cbv iota. pose proof (zlen_nonneg body). pose proof (zlen_nonneg rs).
  assert (zlen payload = zlen body + 9) as Hpl by apply zlen_payload.
  destruct (config_records c Hc) as (Hb & _ & _). unfold record_ok in Hr. cbn [snd] in Hr.
  apply swp_bind, swp_lift, wp_ok_or; [intros bytes [-> _]%checked_add_Some|intros Hx%checked_add_None; exfalso; lia].
  apply swp_bind, swp_attempt. cbn [fst snd]. apply wp_bind. eapply wp_mono; [apply (wp_charge q _ (λ _, refused c w q rs (kind, body))); [lia|]| |done].
  { intros Hx _. unfold refused. cbn [snd]. lia. }
  intros q' (Hu & Hm & Hle). apply wp_ok. cbn [fst snd]. cbv zeta. apply swp_bind, swp_modify. cbn [fst snd].
  apply swp_bind, swp_lift, wp_ok_or; [intros position [-> _]%checked_add_Some|].
  2: { intros Hx%checked_add_None. unfold refused. cbn [snd]. lia. }
  apply swp_bind, swp_modify, swp_ret. cbn [fst snd w_file w_previous]. rewrite Hpos. split; [|split; [done|lia]].
  unfold writer_ok. cbn [w_file w_header w_count w_position w_previous w_poisoned w_terminal].
  rewrite journal_snoc, Hf, Hp. split_and!; try done.
  - rewrite zlen_app, zlen_cons, zlen_nil. lia.
  - rewrite !zlen_app. unfold bound_digest. rewrite zlen_le, zlen_sha. lia.
  - rewrite chain_digest_app, Z.add_0_l. done.
  - by rewrite ends_terminal_snoc.
  - by apply records_ok_snoc.
  - rewrite zlen_app, zlen_cons, zlen_nil. lia.
Qed.

(** A new writer has written the header, and paid for it. *)
Lemma wp_writer_create source c q :
  config_typed c →
  wp (writer_create source c q)
     (λ s, writer_ok source c s.1 [] ∧ config_validate c = Ok () ∧ q_used s.2 = q_used q + zlen (header_octets source c)) (λ _, True).
Proof.
  intros [Ht _]. unfold writer_create. apply wp_bind. eapply wp_mono; [apply wp_config_validate| |done]. intros ? Hc. cbv beta in Hc.
  apply wp_bind. rewrite source_encode by done. apply wp_ok. apply wp_bind.
  eapply wp_mono; [apply (wp_charge q _ (λ _, True)); [apply zlen_nonneg|done]| |done]. intros q' (Hu & _). apply wp_ok.
  split; [|done]. unfold writer_ok, journal. cbn [fst w_file w_header w_count w_position w_previous w_terminal w_poisoned chain chain_digest].
  rewrite app_nil_r. split_and!; try done. unfold config_numbers in Ht. decompose_Forall. simpl in *. rewrite zlen_nil. lia.
Qed.

(** C18: what a writer has written is the journal of the records it accepted, in order.  An
    append adds one record, bound by its digest to all before it, and reports where it
    starts; it charges the quota its octets and stays within it.  A writer that fails or
    has written a terminal record writes no more, and it fails for no other reason than
    an unknown kind, a terminal record before, a full record, journal or disk. *)
Theorem append_true source c w q rs kind body :
  config_validate c = Ok () → writer_ok source c w rs →
  swp (append kind body) (w, q)
      (λ s' r, writer_ok source c s'.1 (rs ++ [(kind, body)]) ∧ r = (zlen (journal source c rs), w_previous s'.1) ∧
         q_used s'.2 - q_used q = zlen (w_file s'.1) - zlen (w_file w) ∧ q_used s'.2 ≤ q_maximum q)
      (λ s' _, refused c w q rs (kind, body) ∧
         (∀ kind' body', ∃ e, append kind' body' s' = (s', Err e))).
Proof.
  intros Hc Hw. pose proof Hw as (Hf & _ & _ & Hpos & _ & Hte & Hpo & _). unfold append, swp. cbn [fst]. rewrite Hpo, Hte. cbn [orb].
  destruct (ends_terminal rs) eqn:Ht.
  - split; [by left|]. intros kind' body'. cbn [fst]. rewrite Hpo, Hte. cbn [orb]. eauto.
  - pose proof (swp_write source c w q rs kind body Hc Hw Ht) as H. unfold swp in H.
    destruct (write_record kind body (w, q)) as [s' [r|e| |]]; cbn [fst snd wp] in *; try done.
    + destruct H as (Hw' & -> & Hu & _ & Hle). split; [done|]. rewrite <- Hf. split; [done|]. split; [|done].
      destruct Hw' as (-> & _). rewrite Hf, journal_snoc, !zlen_app, zlen_record, zlen_payload. lia.
    + split; [done|]. intros kind' body'. simpl. eauto.
Qed.

(** ** The reader *)

#[global] Instance exact_codec n : 0 ≤ n → Codec (exact n) (λ l, l) (λ l, zlen l = n ∧ bytes_ok l).
Proof.
  intros Hn. constructor.
  - intros l d [Hl Hb] _ [Hw Hs]. unfold exact. rewrite <- Hl, (proj2 (Z.leb_le _ _)) by lia. unfold skip. by rewrite Hs.
  - intros d (Hat & Hb & Hmax). unfold exact, swp. destruct (Z.leb_spec (d_at d + n) (zlen (d_bytes d))); [|done].
    cbn [fst snd wp]. assert (zlen (sub (d_bytes d) (d_at d) (d_at d + n)) = n) as Hz by (rewrite zlen_sub; lia).
    split; [split; [done|by apply bytes_ok_sub]|]. unfold ahead, skip. rewrite Hz. split; [|done]. split; [lia|done].
Qed.

Lemma config_octets_ok c : bytes_ok (config_octets c).
Proof.
  unfold config_octets, blob. octets. by destruct (hc_epoch_policy c).
Qed.
Lemma config_octets_blob c : blob_ok 2048 (config_octets c).
Proof. split; [apply config_octets_fit|]. split; [pose proof (config_octets_fit c); lia|apply config_octets_ok]. Qed.

Definition source_typed (sc : SourceIdentity * HConfig) : Prop :=
  (hash_ok (si_sha256 sc.1) ∧ u64_ok (si_bytes sc.1)) ∧ config_typed sc.2 ∧ config_validate sc.2 = Ok ().
#[global] Instance get_source_codec : Codec get_source (λ sc, source_octets sc.1 sc.2) source_typed.
Proof.
  constructor.
  - intros [[sha n] c] d ([Hs Hn] & Hc & Hv) Hd Hw. simpl in *. unfold get_source, source_octets in *. simpl in *.
    eapply (complete_step _ sha d); [done|done|exact Hw|]. intros ? Hw1.
    eapply (complete_step _ n _); [done|done|exact Hw1|]. intros ? Hw2.
    eapply (complete_step (get := get_bytes 2048) _ (config_octets c) _ []); [apply config_octets_blob|done|by rewrite app_nil_r|]. intros _ _.
    rewrite config_decode_octets by (done || apply config_octets_ok || (pose proof (config_octets_fit c); lia)).
    rewrite lift_step. unfold mret, stateful_ret. by rewrite !skip_skip, <- !zlen_app.
  - intros d Hd. unfold get_source. writes. writes. writes.
    match goal with H : blob_ok 2048 _ |- _ => destruct H as (? & ? & ?) end.
    apply swp_bind, swp_lift. eapply wp_mono; [apply wp_config_decode; [done|lia]| |done]. intros c (Hc & -> & Hv).
    written. done.
Qed.

Lemma source_octets_ok sc : source_typed sc → bytes_ok (source_octets sc.1 sc.2) ∧ zlen (source_octets sc.1 sc.2) ≤ 4096.
Proof.
  intros ([[Hl Hb] _] & _). unfold source_octets, blob. split.
  - apply bytes_ok_app; split; [done|]. apply bytes_ok_app; split; [apply to_le_bytes_ok|].
    apply bytes_ok_app; split; [apply to_le_bytes_ok|apply config_octets_ok].
  - rewrite !zlen_app, !zlen_le. pose proof (config_octets_fit sc.2). lia.
Qed.

(** A header a journal may have. *)
Definition header_valid (h : JHeader) : Prop :=
  h = header_of (jh_source h) (jh_config h) ∧ source_typed (jh_source h, jh_config h) ∧
  si_bytes (jh_source h) ≤ hc_source_bytes (jh_config h).

Lemma prefix_split source c :
  prefix_octets source c = (MAGIC ++ to_le_bytes 4 (zlen (source_octets source c))) ++ source_octets source c.
Proof. unfold prefix_octets. by rewrite app_assoc. Qed.

Lemma zlen_header source c : zlen (header_octets source c) = 12 + zlen (source_octets source c) + 32.
Proof. unfold header_octets, header_digest, prefix_octets. rewrite !zlen_app, zlen_le, zlen_sha. change (zlen MAGIC) with 8. lia. Qed.

Lemma read_header_complete h d :
  header_valid h → in_bounds d → ahead d (header_octets (jh_source h) (jh_config h)) →
  read_header d = (skip d (zlen (header_octets (jh_source h) (jh_config h))), Ok h).
Proof.
  pose proof (exact_codec 12 ltac:(lia)) as H12. pose proof (exact_codec 32 ltac:(lia)) as H32.
  revert h d.
  intros [s c dg n] d (Hh & Hsc & Hmax) Hd Hw. injection Hh as -> ->. cbn [jh_source jh_config] in *.
  destruct (source_octets_ok (s, c) Hsc) as [Hb Hl]. cbn [fst snd] in *. set (so := source_octets s c) in *.
  pose proof (zlen_nonneg so). pose proof (exact_codec (zlen so) ltac:(lia)) as Hso.
  set (pre := MAGIC ++ to_le_bytes 4 (zlen so)). assert (zlen pre = 12) as Hpre by (unfold pre; rewrite zlen_app, zlen_le; done).
  unfold header_octets in Hw. rewrite prefix_split, <- app_assoc in Hw. fold so pre in Hw. unfold read_header.
  eapply (complete_step (get := exact 12) _ pre d); [split; [done|unfold pre; octets]|done|exact Hw|]. intros ? Hw1.
  assert (sub pre 0 8 = MAGIC) as -> by (unfold pre; apply (sub_0_app MAGIC)).
  assert (from_le_bytes (sub pre 8 12) = zlen so) as ->.
  { unfold pre. rewrite sub_app_r by (change (zlen MAGIC) with 8; lia). change (8 - zlen MAGIC) with 0. change (12 - zlen MAGIC) with 4.
    change 4 with (Z.of_nat 4). rewrite <- (zlen_le 4 (zlen so)), sub_full, from_to_le, Z.mod_small; [done|]. change (256 ^ Z.of_nat 4) with 4294967296. lia. }
  change (negb (bytes_eqb MAGIC MAGIC)) with false. cbv iota zeta. rewrite (proj2 (Z.ltb_ge _ _)) by lia.
  eapply (complete_step (get := exact (zlen so)) _ so _); [done|done|exact Hw1|]. intros ? Hw2.
  eapply (complete_step (get := exact 32) _ (header_digest s c) _ []);
    [split; [apply zlen_sha|apply sha_reference_bytes]|done|by rewrite app_nil_r|]. intros _ _.
  rewrite digest_ok, lift_step. unfold pre, so. rewrite <- prefix_split. fold (header_digest s c) so.
  rewrite bytes_eqb_refl. cbn [negb].
  assert (decode_all (r ← get_source; finish ;; mret r) so = Ok (s, c)) as ->
    by (apply (whole_checked (get := get_source) (@Ok Error _) so (s, c)); [done|lia|done|done]).
  rewrite lift_step. rewrite (proj2 (Z.ltb_ge _ _)) by lia. unfold mret, stateful_ret, header_of.
  assert (zlen (header_digest s c) = 32) as -> by apply zlen_sha.
  rewrite !skip_skip, zlen_header. fold so pre. by rewrite Hpre, Z.add_assoc.
Qed.

Lemma read_header_canonical d :
  in_bounds d →
  swp read_header d (λ d' h, header_valid h ∧ ahead d (header_octets (jh_source h) (jh_config h)) ∧
    d' = skip d (zlen (header_octets (jh_source h) (jh_config h)))) (λ _ _, True).
Proof.
  pose proof (exact_codec 12 ltac:(lia)) as H12. pose proof (exact_codec 32 ltac:(lia)) as H32.
  revert d.
  intros d Hd. unfold read_header. writes. apply swp_if; intros Hm; [done|]. apply negb_false_iff, bytes_eqb_eq in Hm.
  cbv zeta. apply swp_if; intros Hl; [done|]. bool_facts.
  match goal with H : zlen _ = 12 ∧ _ |- _ => destruct H as [Ha12 Hab] end.
  assert (bytes_ok (sub a 8 12)) as Hlb by (by apply bytes_ok_sub).
  assert (a = MAGIC ++ to_le_bytes 4 (from_le_bytes (sub a 8 12))) as Ha.
  { rewrite <- (sub_full a) at 1. rewrite Ha12, (sub_split a 0 8 12), Hm by lia. f_equal.
    replace 4%nat with (length (sub a 8 12)) by (pose proof (zlen_sub a 8 12); unfold zlen in *; lia). by rewrite to_from_le. }
  pose proof (from_le_bound (sub a 8 12) Hlb) as Hn. set (n := from_le_bytes (sub a 8 12)) in *.
  pose proof (exact_codec n ltac:(lia)) as Hen. writes. writes.
  apply swp_bind, swp_lift. rewrite digest_ok. apply wp_ok. apply swp_if; intros Hdg; [done|]. apply negb_false_iff, bytes_eqb_eq in Hdg.
  match goal with H : zlen ?b = n ∧ bytes_ok _ |- _ => destruct H as [Hbn Hbb]; rename b into body end.
  apply swp_bind, swp_lift. eapply wp_mono; [apply (wp_whole_checked (get := get_source) (@Ok Error _) body); [done|lia|done]| |done].
  intros [s c] (Hsc & -> & _). cbn [fst snd] in *. apply swp_if; intros Hmax; [done|]. bool_facts.
  assert (a ++ source_octets s c = prefix_octets s c) as Hpre by (rewrite prefix_split, Hbn; by rewrite <- Ha).
  rewrite Hpre in *. fold (header_digest s c) in Hdg. destruct Hdg. apply swp_ret. cbn [jh_source jh_config].
  match goal with H : zlen (header_digest s c) = 32 ∧ _ |- _ => destruct H as [Hd32 _] end. split; [|split].
  - split; [|split; [done|simpl; lia]]. unfold header_of. cbn [jh_source jh_config]. by rewrite zlen_header, Hbn.
  - unfold header_octets. rewrite <- Hpre, <- app_assoc. apply ahead_skip; [done|done|]. by apply ahead_skip.
  - by rewrite !skip_skip, zlen_header, Hd32, Ha12, Z.add_assoc.
Qed.

#[global] Instance read_header_codec : Codec read_header (λ h, header_octets (jh_source h) (jh_config h)) header_valid.
Proof. constructor; [apply read_header_complete|apply read_header_canonical]. Qed.

(** One record of a file: its length, payload and digest. *)
Definition framed (mb mr count : Z) : Reading (list Z * list Z * list Z) := first ← exact 1; read_frame first mb mr count.
Definition frame_octets (f : list Z * list Z * list Z) : list Z := let '(length, payload, stored) := f in length ++ payload ++ stored.
Definition frame_valid (mb mr count : Z) (f : list Z * list Z * list Z) : Prop :=
  let '(length, payload, stored) := f in
  length = to_le_bytes 4 (zlen payload) ∧ bytes_ok payload ∧ hash_ok stored ∧ 9 ≤ zlen payload ≤ mb ∧ count < mr.

Lemma framed_codec mb mr count : mb ≤ u32_max → Codec (framed mb mr count) frame_octets (frame_valid mb mr count).
Proof.
  intros Hmb. pose proof (exact_codec 1 ltac:(lia)) as H1. pose proof (exact_codec 3 ltac:(lia)) as H3.
  pose proof (exact_codec 32 ltac:(lia)) as H32. constructor.
  - intros [[l p] s] d (-> & Hp & Hs & Hlen & Hc) Hd Hw. unfold framed, read_frame, frame_octets in *.
    pose proof (exact_codec (zlen p) ltac:(lia)) as Hep.
    assert (∃ x r, to_le_bytes 4 (zlen p) = [x] ++ r ∧ zlen r = 3) as (x & r & Hl & Hr) by (eexists _, _; by split).
    pose proof (to_le_bytes_ok 4 (zlen p)) as Hb. rewrite Hl in Hw, Hb. rewrite <- app_assoc in Hw. apply bytes_ok_app in Hb as [Hx Hrb].
    eapply (complete_step (get := exact 1) _ [x] d); [done|done|exact Hw|]. intros ? Hw1.
    eapply (complete_step (get := exact 3) _ r _); [done|done|exact Hw1|]. intros ? Hw2.
    rewrite <- Hl, from_to_le, Z.mod_small by (change (256 ^ Z.of_nat 4) with 4294967296; lia). cbv zeta.
    unfold contains. rewrite (proj2 (Z.leb_le 9 _)), (proj2 (Z.leb_le _ mb)), (proj2 (Z.leb_gt mr count)) by lia. cbn [andb negb orb].
    eapply (complete_step (get := exact (zlen p)) _ p _); [done|done|exact Hw2|]. intros ? Hw3.
    eapply (complete_step (get := exact 32) _ s _ []); [done|done|by rewrite app_nil_r|]. intros _ _.
    unfold mret, stateful_ret. rewrite !skip_skip, Hl, !zlen_app. do 2 f_equal. lia.
  - intros d Hd. unfold framed, read_frame. writes. writes. cbv zeta.
    apply swp_if; intros Hc; [done|]. unfold contains in Hc. bool_facts.
    repeat match goal with H : zlen _ = _ ∧ bytes_ok _ |- _ => destruct H end.
    match goal with H : zlen ?x = 1, H' : zlen ?y = 3 |- _ => assert (bytes_ok (x ++ y)) as Hb by (by apply bytes_ok_app);
      assert (length (x ++ y) = 4%nat) as Hl by (rewrite length_app; unfold zlen in *; lia) end.
    pose proof (to_from_le _ Hb) as Hle. rewrite Hl in Hle.
    match type of Hle with to_le_bytes 4 ?n = _ => pose proof (exact_codec n ltac:(lia)) as Hen; set (len := n) in * end.
    writes. writes. apply swp_ret.
    repeat match goal with H : zlen _ = _ ∧ bytes_ok _ |- _ => destruct H end.
    match goal with H : zlen ?p = len, H' : zlen ?s = 32 |- _ => split; [|split] end.
    + split; [congruence|]. split; [done|]. split; [by split|]. split; [lia|lia].
    + unfold frame_octets. rewrite <- app_assoc. repeat (refine (ahead_skip _ _ _ _ _ _); [done|done|]). done.
    + unfold frame_octets. rewrite !skip_skip, !zlen_app. f_equal. lia.
Qed.

(** The fields of a payload. *)
Definition fields_octets (f : Z * Z * list Z) : list Z := let '(kind, n, body) := f in payload_octets n kind body.
Definition fields_valid (len count : Z) (f : Z * Z * list Z) : Prop :=
  let '(kind, n, body) := f in
  known_kind kind = true ∧ n = count + 1 ∧ zlen body = len - 9 ∧ bytes_ok body.

Lemma known_octet kind : known_kind kind = true → is_byte kind.
Proof.
  unfold known_kind. simpl. rewrite !orb_true_iff, !Z.eqb_eq. unfold PACKET, TCP, NOTICE, CHECKPOINT, ABORT, SEAL, is_byte. lia.
Qed.

Lemma fields_codec len count :
  9 ≤ len ≤ i64_max → 0 ≤ count < u64_max → Codec (get_checked_record len count) fields_octets (fields_valid len count).
Proof.
  intros Hl Hc. pose proof (take_codec (len - 9) ltac:(lia)) as Ht. unfold get_checked_record. constructor.
  - intros [[k n] b] d (Hk & -> & Hb & Hbb) Hd Hw. unfold fields_octets, payload_octets in *.
    eapply (complete_step _ k d); [by apply known_octet|done|exact Hw|]. intros ? Hw1.
    eapply (complete_step _ (count + 1) _); [lia|done|exact Hw1|]. intros ? Hw2.
    rewrite add_ovf_ok, lift_step, Z.eqb_refl, Hk by lia. cbn [negb orb]. rewrite sub_ovf_ok, lift_step by lia.
    eapply (complete_step (get := Codec.take (len - 9)) _ b _ []); [done|done|by rewrite app_nil_r|]. intros _ _.
    unfold mret, stateful_ret. by rewrite !skip_skip, <- !zlen_app.
  - intros d Hd. writes. writes. apply swp_bind, swp_lift. rewrite add_ovf_ok by lia. apply wp_ok, swp_if; intros Hk; [done|].
    apply swp_bind, swp_lift. rewrite sub_ovf_ok by lia. apply wp_ok. writes. written. bool_facts.
    repeat match goal with H : _ ∧ _ |- _ => destruct H end. split; [done|]. split; [lia|]. done.
Qed.

(** Where a reader reads. *)
Definition pos (r : JReader) : Decoder := {| d_bytes := j_file r; d_at := j_at r |}.

Lemma reading_step {A B} (m : Reading A) (k : A → Stateful JReader B) r :
  (reading m ≫= k) r =
  match m (pos r) with
  | (f, Ok a) => k a {| j_file := d_bytes f; j_at := d_at f; j_header := j_header r; j_count := j_count r;
      j_position := j_position r; j_previous := j_previous r; j_sealed := j_sealed r; j_aborted := j_aborted r; j_ended := j_ended r |}
  | (f, e) => ((reading m r).1, match e with Ok _ => OutOfFuel | Err e => Err e | Panic => Panic | OutOfFuel => OutOfFuel end)
  end.
Proof. unfold mbind, stateful_bind, reading. fold (pos r). destruct (m (pos r)) as [f [a|e| |]]; done. Qed.

Definition next_payload (r : JReader) (x : Z * list Z) : list Z := payload_octets (j_count r + 1) x.1 x.2.
Definition next_octets (r : JReader) (x : Z * list Z) : list Z := record_octets (j_previous r) (next_payload r x).
(** The reader past its next record, and that record. *)
Definition advanced (r : JReader) (x : Z * list Z) : JReader :=
  {| j_file := j_file r; j_at := j_at r + zlen (next_octets r x); j_header := j_header r; j_count := j_count r + 1;
     j_position := j_position r + zlen (next_octets r x); j_previous := bound_digest (j_previous r) (next_payload r x);
     j_sealed := x.1 =? SEAL; j_aborted := x.1 =? ABORT; j_ended := false |}.
Definition record_of (r : JReader) (x : Z * list Z) : JRecord :=
  {| r_kind := x.1; r_sequence := j_count r + 1; r_body := x.2; r_offset := j_position r;
     r_digest := bound_digest (j_previous r) (next_payload r x) |}.

Definition reader_good (r : JReader) : Prop :=
  j_ended r = false ∧ in_bounds (pos r) ∧ config_validate (jh_config (j_header r)) = Ok () ∧
  0 ≤ j_count r ≤ hc_records (jh_config (j_header r)) ∧
  j_position r = j_at r ∧ hash_ok (j_previous r).
Definition open_ended (r : JReader) : bool := negb (j_sealed r || j_aborted r).
(** A record that may come next. *)
Definition may_follow (r : JReader) (x : Z * list Z) : Prop :=
  open_ended r = true ∧ record_ok (jh_config (j_header r)) x ∧ bytes_ok x.2 ∧ j_count r < hc_records (jh_config (j_header r)).

Lemma reading_bind {A B} (m : Reading A) (k : A → Reading B) r :
  reading (m ≫= k) r = (reading m ≫= λ a, reading (k a)) r.
Proof.
  unfold reading, mbind, stateful_bind. fold (pos r). by destruct (m (pos r)) as [[bs at_] [a|e| |]].
Qed.

Definition read_framed (r : JReader) : Reading (list Z * list Z * list Z) :=
  framed (hc_record_bytes (jh_config (j_header r))) (hc_records (jh_config (j_header r))) (j_count r).

Lemma read_record_rest r :
  j_ended r = false → in_bounds (pos r) → open_ended r = true →
  read_record r =
  if zlen (j_file r) <=? j_at r then (end_reader r, Ok None) else (reading (read_framed r) ≫= bind_record r) r.
Proof.
  intros He (Hat & _) Ho. unfold open_ended in Ho. apply negb_true_iff in Ho. unfold read_record, mbind at 1, stateful_bind, get_state.
  rewrite He. destruct (zlen (j_file r) <=? j_at r) eqn:Hl; [done|]. apply Z.leb_gt in Hl.
  unfold read_framed, framed, mbind at 3, stateful_bind at 1. rewrite reading_bind. rewrite !reading_step. rewrite Ho.
  assert (exact 1 (pos r) = (skip (pos r) 1, Ok (sub (j_file r) (j_at r) (j_at r + 1)))) as ->
    by (unfold exact; simpl; by rewrite (proj2 (Z.leb_le _ _)) by lia).
  done.
Qed.

Lemma lift_ok {S A B} (a : A) (k : A → Stateful S B) s : (lift (Ok a) ≫= k) s = k a s.
Proof. done. Qed.

Lemma get_step {S A} (k : S → Stateful S A) s : (get_state ≫= k) s = k s s.
Proof. done. Qed.

Lemma frame_of_record r x : frame_octets (to_le_bytes 4 (zlen (next_payload r x)), next_payload r x, bound_digest (j_previous r) (next_payload r x)) = next_octets r x.
Proof. done. Qed.

Lemma bound_hash previous payload : hash_ok (bound_digest previous payload).
Proof. split; [apply sha_reference_length|apply sha_reference_bytes]. Qed.

Lemma zlen_next r x : zlen (next_payload r x) = zlen x.2 + 9.
Proof. apply zlen_payload. Qed.

Lemma next_record_complete r x :
  reader_good r → may_follow r x → ahead (pos r) (next_octets r x) →
  next_record r = (advanced r x, Ok (Some (record_of r x))).
Proof.
  intros (He & Hd & Hc & Hn & Hpos & Hprev) (Ho & [Hk Hl] & Hb & Hm) Hw. destruct (config_records _ Hc) as (Hmb & Hmr & _).
  pose proof (zlen_nonneg x.2) as Hx. pose proof (zlen_next r x) as Hpl. set (p := next_payload r x) in *.
  assert (fields_valid (zlen p) (j_count r) (x.1, j_count r + 1, x.2)) as Hf by (split_and!; done || lia).
  assert (bytes_ok p) as Hpb.
  { unfold p, next_payload, payload_octets. apply bytes_ok_app; split; [by apply Forall_singleton, known_octet|].
    apply bytes_ok_app; split; [apply to_le_bytes_ok|done]. }
  assert (j_at r + zlen (next_octets r x) ≤ zlen (j_file r)) as Hfit by apply Hw.
  assert (zlen (next_octets r x) = zlen p + 36) as Hz by apply zlen_record.
  pose proof Hd as (Hat & _ & Hmax). simpl in Hat, Hmax.
  unfold next_record. rewrite read_record_rest by done. rewrite (proj2 (Z.leb_gt _ _)) by lia. rewrite reading_step.
  pose proof (framed_codec (hc_record_bytes (jh_config (j_header r))) (hc_records (jh_config (j_header r))) (j_count r) ltac:(lia)) as Hfc.
  unfold read_framed. rewrite <- (frame_of_record r x) in Hw. fold p in Hw.
  rewrite (codec_complete (get := framed _ _ _) (to_le_bytes 4 (zlen p), p, bound_digest (j_previous r) p) (pos r));
    [|split_and!; done || lia || apply bound_hash|done|done].
  unfold bind_record. rewrite record_digest_ok, lift_ok, bytes_eqb_refl. cbn [negb].
  assert (decode_all (x ← get_checked_record (zlen p) (j_count r); finish ;; mret x) p = Ok (x.1, j_count r + 1, x.2)) as ->.
  { pose proof (fields_codec (zlen p) (j_count r) ltac:(lia) ltac:(dlia)) as Hfd.
    apply (whole_checked (get := get_checked_record (zlen p) (j_count r)) (@Ok Error _)); [done|lia|done|done]. }
  rewrite lift_ok. unfold checked_add.
  rewrite (proj2 (Z.leb_le _ u64_max)) by lia.
  pose proof (frame_of_record r x) as Hfr. fold p in Hfr. rewrite Hfr. unfold advanced, record_of. fold p.
  by rewrite Hz, He.
Qed.

Lemma read_record_closed r :
  j_ended r = false → in_bounds (pos r) → open_ended r = false →
  ∃ r' e, read_record r = if zlen (j_file r) <=? j_at r then (end_reader r, Ok None) else (r', Err e).
Proof.
  intros He (Hat & _) Ho. unfold open_ended in Ho. apply negb_false_iff in Ho. unfold read_record, mbind at 1, stateful_bind, get_state.
  rewrite He. destruct (zlen (j_file r) <=? j_at r) eqn:Hl; [by exists r, (limit "")|]. apply Z.leb_gt in Hl.
  rewrite reading_step, Ho. unfold exact. simpl. rewrite (proj2 (Z.leb_le _ _)) by lia. eexists _, _. done.
Qed.

Lemma swp_bind_record r p st s :
  bytes_ok p → 9 ≤ zlen p ≤ u32_max → 0 ≤ j_count r < u64_max → j_position r + zlen p + 36 ≤ u64_max →
  swp (bind_record r (to_le_bytes 4 (zlen p), p, st)) s
      (λ s' o, ∃ x, known_kind x.1 = true ∧ bytes_ok x.2 ∧ next_payload r x = p ∧ st = bound_digest (j_previous r) p ∧
         o = Some (record_of r x) ∧
         s' = {| j_file := j_file s; j_at := j_at s; j_header := j_header s; j_count := j_count r + 1;
                 j_position := j_position r + (zlen p + 36); j_previous := bound_digest (j_previous r) p;
                 j_sealed := x.1 =? SEAL; j_aborted := x.1 =? ABORT; j_ended := j_ended s |}) (λ _ _, True).
Proof.
  intros Hb Hp Hc Hpos. unfold bind_record. apply swp_bind, swp_lift. rewrite record_digest_ok. apply wp_ok.
  apply swp_if; intros Hd; [done|]. apply negb_false_iff, bytes_eqb_eq in Hd.
  pose proof (fields_codec (zlen p) (j_count r) ltac:(lia) Hc) as Hfd.
  apply swp_bind, swp_lift. eapply wp_mono; [apply (wp_whole_checked (get := get_checked_record (zlen p) (j_count r)) (@Ok Error _) p); [done|lia|done]| |done].
  intros [[k n] body] ((Hk & -> & Hl & Hbody) & Heq & _).
  apply swp_bind, swp_lift, wp_ok_or; [intros position [-> _]%checked_add_Some|intros Hx%checked_add_None; exfalso; lia].
  apply swp_bind, swp_modify, swp_ret. exists (k, body). unfold record_of, next_payload. cbn [fst snd].
  unfold fields_octets in Heq. rewrite <- Heq. by rewrite Hd.
Qed.

(** The position after a frame, with nothing else changed. *)
Definition pos_after (r : JReader) (p st : list Z) : JReader :=
  {| j_file := j_file r; j_at := j_at r + zlen (frame_octets (to_le_bytes 4 (zlen p), p, st)); j_header := j_header r;
     j_count := j_count r; j_position := j_position r; j_previous := j_previous r; j_sealed := j_sealed r;
     j_aborted := j_aborted r; j_ended := j_ended r |}.

Lemma next_record_canonical r :
  reader_good r →
  swp next_record r
    (λ r' o, match o with
             | None => r' = end_reader r ∧ j_at r = zlen (j_file r)
             | Some rec => ∃ x, may_follow r x ∧ ahead (pos r) (next_octets r x) ∧ r' = advanced r x ∧ rec = record_of r x
             end) (λ _ _, True).
Proof.
  intros (He & Hd & Hc & Hn & Hpos & Hprev). destruct (config_records _ Hc) as (Hmb & Hmr & _). pose proof Hd as (Hat & _ & Hmax). simpl in Hat, Hmax.
  destruct (open_ended r) eqn:Ho.
  2: { unfold swp, next_record. destruct (read_record_closed r He Hd Ho) as (r' & e & ->).
    destruct (zlen (j_file r) <=? j_at r) eqn:Hl; [split; [done|lia]|done]. }
  unfold swp, next_record. rewrite read_record_rest by done. destruct (zlen (j_file r) <=? j_at r) eqn:Hl; [split; [done|lia]|].
  rewrite !reading_step.
  pose proof (framed_codec (hc_record_bytes (jh_config (j_header r))) (hc_records (jh_config (j_header r))) (j_count r) ltac:(lia)) as Hfc.
  pose proof (codec_canonical (get := read_framed r) (pos r) Hd) as Hcan. unfold swp in Hcan.
  destruct (read_framed r (pos r)) as [f [[[l p] st]|e| |]]; cbn [fst snd wp] in *; try done.
  destruct Hcan as ((-> & Hpb & Hst & Hlen & Hcnt) & Hw & ->).
  pose proof (swp_bind_record r p st (pos_after r p st) Hpb ltac:(lia) ltac:(dlia) ltac:(lia)) as Hb. unfold swp in Hb.
  change (bind_record r _ _) with (bind_record r (to_le_bytes 4 (zlen p), p, st) (pos_after r p st)).
  destruct (bind_record r _ (pos_after r p st)) as [r' [o|e| |]]; cbn [fst snd wp] in *; try done.
  destruct Hb as (x & Hk & Hbody & Hp & -> & -> & ->). exists x. rewrite <- Hp in Hw, Hlen |- *. rewrite frame_of_record in Hw.
  split; [|split; [done|split; [|done]]].
  - split; [done|]. split; [|done]. split; [done|]. rewrite zlen_next in Hlen. lia.
  - assert (zlen (next_octets r x) = zlen (next_payload r x) + 36) as Hz by apply zlen_record.
    unfold advanced, pos_after. rewrite frame_of_record. cbn [j_file j_at j_header j_count j_position j_previous j_sealed j_aborted j_ended].
    by rewrite He, <- Hz.
Qed.

(** ** Whole journals *)

(** [while let Some(record) = reader.next_record()?]. *)
Fixpoint read_all (fuel : nat) (r : JReader) : result (list JRecord) :=
  match fuel with
  | O => OutOfFuel
  | S fuel =>
      match next_record r with
      | (r, Ok (Some x)) => l ← read_all fuel r; Ok (x :: l)
      | (_, Ok None) => Ok []
      | (_, Err e) => Err e
      | (_, Panic) => Panic
      | (_, OutOfFuel) => OutOfFuel
      end
  end.
Definition read_journal (file : list Z) : result (JHeader * list JRecord) :=
  r ← reader_open file;
  l ← read_all (S (length file)) r;
  Ok (j_header r, l).

(** Records with their places: the first one at [offset], after [n] others. *)
Fixpoint listed (offset : Z) (previous : list Z) (n : Z) (rs : list (Z * list Z)) : list JRecord :=
  match rs with
  | [] => []
  | (kind, body) :: rs =>
      let payload := payload_octets (n + 1) kind body in
      let sha := bound_digest previous payload in
      {| r_kind := kind; r_sequence := n + 1; r_body := body; r_offset := offset; r_digest := sha |} ::
      listed (offset + zlen (record_octets previous payload)) sha (n + 1) rs
  end.

Definition journal_ok (c : HConfig) (rs : list (Z * list Z)) : Prop :=
  records_ok c rs ∧ Forall (λ r, bytes_ok r.2) rs ∧ zlen rs ≤ hc_records c.
(** What may follow where a reader is. *)
Definition all_follow (r : JReader) (rs : list (Z * list Z)) : Prop :=
  (open_ended r = false → rs = []) ∧ records_ok (jh_config (j_header r)) rs ∧ Forall (λ x, bytes_ok x.2) rs ∧
  j_count r + zlen rs ≤ hc_records (jh_config (j_header r)).
Definition rest_octets (r : JReader) (rs : list (Z * list Z)) : list Z := chain (j_previous r) (j_count r) rs.
Definition rest_is (r : JReader) (w : list Z) : Prop := ahead (pos r) w ∧ j_at r + zlen w = zlen (j_file r).

Lemma rest_cons r x rs : rest_octets r (x :: rs) = next_octets r x ++ rest_octets (advanced r x) rs.
Proof. by destruct x. Qed.

Lemma advanced_good r x : reader_good r → may_follow r x → ahead (pos r) (next_octets r x) → reader_good (advanced r x).
Proof.
  intros (He & Hd & Hc & Hn & Hpos & Hp) (_ & _ & _ & Hm) Hw. split; [done|]. split; [by apply (in_bounds_skip (pos r))|]. split; [done|].
  split; [simpl; lia|]. split; [simpl; lia|apply bound_hash].
Qed.

Lemma open_advanced r x : open_ended (advanced r x) = negb (terminal_kind x.1).
Proof. unfold open_ended, terminal_kind. cbn [advanced j_sealed j_aborted]. by rewrite orb_comm. Qed.

Lemma all_follow_cons r x rs : all_follow r (x :: rs) ↔ may_follow r x ∧ all_follow (advanced r x) rs.
Proof.
  unfold all_follow, may_follow. rewrite open_advanced, Forall_cons, zlen_cons. cbn [records_ok advanced j_header j_count].
  pose proof (zlen_nonneg rs). split.
  - intros (Ho & (Hr & Ht & Hrs) & [Hb Hbs] & Hn). destruct (open_ended r); [|by specialize (Ho eq_refl)].
    split; [split_and!; done || lia|]. split; [|split_and!; done || lia]. intros Hk. apply Ht. by apply negb_false_iff.
  - intros ((Ho & Hr & Hb & Hm) & Ht & Hrs & Hbs & Hn). split; [congruence|]. split; [|split; [done|lia]].
    split; [done|]. split; [|done]. intros Hk. apply Ht. by rewrite Hk.
Qed.

Lemma rest_is_cons r x rs :
  reader_good r → rest_is r (rest_octets r (x :: rs)) ↔
  ahead (pos r) (next_octets r x) ∧ rest_is (advanced r x) (rest_octets (advanced r x) rs).
Proof.
  intros (_ & Hd & _). unfold rest_is. rewrite rest_cons, ahead_app, zlen_app by done.
  change (pos (advanced r x)) with (skip (pos r) (zlen (next_octets r x))). cbn [advanced j_at j_file].
  split; [intros [[? ?] ?]|intros (? & ? & ?)]; split_and!; done || lia.
Qed.

Lemma listed_cons r x rs :
  listed (j_position r) (j_previous r) (j_count r) (x :: rs) =
  record_of r x :: listed (j_position (advanced r x)) (j_previous (advanced r x)) (j_count (advanced r x)) rs.
Proof. by destruct x. Qed.

Lemma zlen_next_octets r x : 45 ≤ zlen (next_octets r x).
Proof. unfold next_octets. rewrite zlen_record, zlen_next. pose proof (zlen_nonneg x.2). lia. Qed.

Lemma next_record_end r : reader_good r → j_at r = zlen (j_file r) → (next_record r).2 = Ok None.
Proof.
  intros (He & Hd & _) Hat. unfold next_record. destruct (open_ended r) eqn:Ho.
  - rewrite read_record_rest, (proj2 (Z.leb_le _ _)) by (done || lia). done.
  - destruct (read_record_closed r He Hd Ho) as (r' & e & ->). by rewrite (proj2 (Z.leb_le _ _)) by lia.
Qed.

Lemma read_all_complete rs r fuel :
  reader_good r → all_follow r rs → rest_is r (rest_octets r rs) → zlen (j_file r) - j_at r < Z.of_nat fuel →
  read_all fuel r = Ok (listed (j_position r) (j_previous r) (j_count r) rs).
Proof.
  revert r fuel. induction rs as [|x rs IH]; intros r [|fuel] Hg Hf Hw Hfuel; try (destruct Hg as (_ & (Hat & _) & _); simpl in Hat; lia).
  - destruct Hw as [_ Hw]. unfold rest_octets in Hw. cbn [chain] in Hw. rewrite zlen_nil in Hw. cbn [read_all].
    pose proof (next_record_end r Hg ltac:(lia)) as Hn. destruct (next_record r) as [r' o]. cbn [snd] in Hn. by rewrite Hn.
  - apply rest_is_cons in Hw as [Hx Hw]; [|done]. apply all_follow_cons in Hf as [Hm Hf]. cbn [read_all].
    rewrite (next_record_complete r x) by done. pose proof (zlen_next_octets r x).
    rewrite IH; [|by apply advanced_good|done|done|cbn [advanced j_file j_at]; lia]. by rewrite listed_cons.
Qed.

Lemma wp_read_all fuel r :
  reader_good r → zlen (j_file r) - j_at r < Z.of_nat fuel →
  wp (read_all fuel r)
     (λ l, ∃ rs, all_follow r rs ∧ rest_is r (rest_octets r rs) ∧ l = listed (j_position r) (j_previous r) (j_count r) rs) (λ _, True).
Proof.
  revert r. induction fuel as [|fuel IH]; intros r Hg Hfuel; [destruct Hg as (_ & (Hat & _) & _); simpl in Hat; lia|].
  cbn [read_all]. pose proof (next_record_canonical r Hg) as Hn. unfold swp in Hn.
  destruct (next_record r) as [r' [[x|]|e| |]]; cbn [fst snd wp] in *; try done.
  - destruct Hn as (y & Hm & Hw & -> & ->). pose proof (zlen_next_octets r y). apply wp_bind.
    eapply wp_mono; [apply IH; [by apply advanced_good|cbn [advanced j_file j_at]; lia]| |done].
    intros l (rs & Hf & Hr & ->). apply wp_ok. exists (y :: rs). split; [by apply all_follow_cons|].
    split; [by apply rest_is_cons|]. by rewrite listed_cons.
  - destruct Hn as [-> Hat]. exists []. split; [|split; [|done]].
    + destruct Hg as (_ & _ & _ & Hn & _). split; [done|]. split; [done|]. split; [constructor|]. rewrite zlen_nil. lia.
    + split; [apply ahead_nil; apply Hg|]. unfold rest_octets. cbn [chain]. rewrite zlen_nil. lia.
Qed.

Definition header_of_journal (source : SourceIdentity) (c : HConfig) : Prop :=
  source_typed (source, c) ∧ si_bytes source ≤ hc_source_bytes c.

(** The reader of a file with a given header. *)
Definition reader_of (file : list Z) (h : JHeader) : JReader :=
  {| j_file := file; j_at := jh_bytes h; j_header := h; j_count := 0; j_position := jh_bytes h; j_previous := jh_digest h;
     j_sealed := false; j_aborted := false; j_ended := false |}.

Lemma wp_reader_open file :
  bytes_ok file → zlen file ≤ i64_max →
  wp (reader_open file) (λ r, ∃ h, header_valid h ∧ r = reader_of file h ∧
        ahead (decoder_new file) (header_octets (jh_source h) (jh_config h)))
     (λ _, ∀ h, header_valid h → ¬ ahead (decoder_new file) (header_octets (jh_source h) (jh_config h))).
Proof.
  intros Hb Hl. pose proof (decoder_new_bounds file Hb Hl) as Hd. unfold reader_open.
  pose proof (read_header_canonical _ Hd) as Hc. unfold swp in Hc.
  assert (∀ h, header_valid h → ahead (decoder_new file) (header_octets (jh_source h) (jh_config h)) →
            read_header (decoder_new file) = (skip (decoder_new file) (zlen (header_octets (jh_source h) (jh_config h))), Ok h)) as Hcomp
    by (intros; by apply read_header_complete).
  destruct (read_header (decoder_new file)) as [f [h|e| |]]; cbn [fst snd wp] in *; try done.
  - destruct Hc as (Hh & Hw & ->). exists h. split; [done|]. split; [|done]. unfold reader_of, skip, decoder_new. cbn [d_bytes d_at].
    destruct Hh as (Hh & _). rewrite Hh. cbn [header_of jh_bytes jh_source jh_config]. by rewrite Z.add_0_l.
  - intros h Hh Hw. by specialize (Hcomp h Hh Hw).
Qed.

Lemma reader_of_good file h :
  bytes_ok file → zlen file ≤ i64_max → header_valid h →
  ahead (decoder_new file) (header_octets (jh_source h) (jh_config h)) → reader_good (reader_of file h).
Proof.
  intros Hb Hl (Hh & (_ & [Ht _] & Hc) & _) [Hw _]. assert (jh_bytes h = zlen (header_octets (jh_source h) (jh_config h))) as Hn by (by rewrite Hh at 1).
  pose proof (zlen_nonneg (header_octets (jh_source h) (jh_config h))). simpl in Hw, Hc.
  split; [done|]. split; [split; [simpl; lia|done]|]. split; [done|]. split; [|split; [done|]].
  - cbn [reader_of j_count j_header]. unfold config_numbers in Ht. decompose_Forall. simpl in *. lia.
  - cbn [reader_of j_previous]. rewrite Hh. split; [apply sha_reference_length|apply sha_reference_bytes].
Qed.

Lemma ahead_whole file w : ahead (decoder_new file) w ∧ zlen w = zlen file ↔ file = w.
Proof.
  split; [|intros ->; split; [apply ahead_all|done]]. intros [[_ Hs] Hl]. cbn [decoder_new d_bytes d_at] in Hs.
  by rewrite Z.add_0_l, Hl, sub_full in Hs.
Qed.

Lemma rest_is_journal file h rs :
  bytes_ok file → zlen file ≤ i64_max → header_valid h →
  ahead (decoder_new file) (header_octets (jh_source h) (jh_config h)) →
  rest_is (reader_of file h) (rest_octets (reader_of file h) rs) ↔ file = journal (jh_source h) (jh_config h) rs.
Proof.
  intros Hb Hl (Hh & _) Hw. pose proof (decoder_new_bounds file Hb Hl) as Hd.
  rewrite <- ahead_whole. unfold journal. rewrite ahead_app, zlen_app by done. unfold rest_is, rest_octets.
  change (pos (reader_of file h)) with {| d_bytes := file; d_at := jh_bytes h |}. cbn [reader_of j_at j_file j_previous j_count].
  assert (jh_digest h = header_digest (jh_source h) (jh_config h)) as -> by (by rewrite Hh at 1).
  assert (jh_bytes h = zlen (header_octets (jh_source h) (jh_config h))) as -> by (by rewrite Hh at 1).
  assert (∀ n, skip (decoder_new file) n = {| d_bytes := file; d_at := n |}) as -> by done. tauto.
Qed.

Lemma reader_of_follow file h rs : all_follow (reader_of file h) rs ↔ journal_ok (jh_config h) rs.
Proof. unfold all_follow, journal_ok. cbn [reader_of j_header j_count]. change (open_ended _) with true. rewrite Z.add_0_l. naive_solver. Qed.

Lemma wp_read_journal file :
  bytes_ok file → zlen file ≤ i64_max →
  wp (read_journal file)
     (λ r, header_valid r.1 ∧ ∃ rs, journal_ok (jh_config r.1) rs ∧ file = journal (jh_source r.1) (jh_config r.1) rs ∧
              r.2 = listed (jh_bytes r.1) (jh_digest r.1) 0 rs) (λ _, True).
Proof.
  intros Hb Hl. unfold read_journal. apply wp_bind. eapply wp_mono; [by apply wp_reader_open| |done].
  intros r (h & Hh & -> & Hw). pose proof (reader_of_good file h Hb Hl Hh Hw) as Hg. apply wp_bind.
  assert (0 ≤ jh_bytes h) by (destruct Hg as (_ & ([? _] & _) & _); done).
  eapply wp_mono; [apply (wp_read_all _ _ Hg)| |done].
  { cbn [reader_of j_file j_at]. unfold zlen in *. lia. }
  intros l (rs & Hf & Hr & ->). apply wp_ok. cbn [fst snd reader_of j_header]. split; [done|]. exists rs.
  split; [by apply reader_of_follow in Hf|].
  split; [|done]. by apply rest_is_journal.
Qed.

Lemma reader_open_complete file h :
  bytes_ok file → zlen file ≤ i64_max → header_valid h →
  ahead (decoder_new file) (header_octets (jh_source h) (jh_config h)) → reader_open file = Ok (reader_of file h).
Proof.
  intros Hb Hl Hh Hw. unfold reader_open. rewrite (read_header_complete h) by (done || by apply decoder_new_bounds).
  unfold reader_of, skip, decoder_new. cbn [d_bytes d_at].
  assert (jh_bytes h = zlen (header_octets (jh_source h) (jh_config h))) as -> by (destruct Hh as [Hh _]; by rewrite Hh at 1).
  by rewrite Z.add_0_l.
Qed.

Lemma read_journal_complete source c rs :
  bytes_ok (journal source c rs) → zlen (journal source c rs) ≤ i64_max → header_of_journal source c → journal_ok c rs →
  read_journal (journal source c rs) = Ok (header_of source c, listed (jh_bytes (header_of source c)) (header_digest source c) 0 rs).
Proof.
  intros Hb Hl [Hsc Hmax] Hrs. set (file := journal source c rs) in *. set (h := header_of source c).
  assert (header_valid h) as Hh by done. pose proof (decoder_new_bounds file Hb Hl) as Hd.
  assert (ahead (decoder_new file) (header_octets source c)) as Hw.
  { pose proof (ahead_all file) as H. unfold file at 2, journal in H. by apply ahead_app in H as [? _]. }
  pose proof (reader_of_good file h Hb Hl Hh Hw) as Hg. assert (0 ≤ jh_bytes h) by (destruct Hg as (_ & ([? _] & _) & _); done).
  unfold read_journal. rewrite (reader_open_complete file h) by done. cbn [mbind res_bind].
  rewrite (read_all_complete rs); [done|done|by apply reader_of_follow|by apply rest_is_journal|].
  cbn [reader_of j_file j_at]. unfold zlen in *. lia.
Qed.

(** C7: a journal is read back exactly as it was written: a file is accepted, to its end,
    exactly when it is the header of a source and a configuration and the chain of some
    records, a terminal one only at the end; the reader then reports those records, in
    order, at their offsets and with their digests.  A file that is cut short, extended,
    reordered or changed in any other way is refused. *)
Theorem journal_exact file :
  bytes_ok file → zlen file ≤ i64_max →
  wp (read_journal file)
     (λ r, let '(h, l) := r in
        h = header_of (jh_source h) (jh_config h) ∧ header_of_journal (jh_source h) (jh_config h) ∧
        ∃ rs, journal_ok (jh_config h) rs ∧ file = journal (jh_source h) (jh_config h) rs ∧
              l = listed (jh_bytes h) (jh_digest h) 0 rs)
     (λ _, ∀ source c rs, header_of_journal source c → journal_ok c rs → file ≠ journal source c rs).
Proof.
  intros Hb Hl. pose proof (wp_read_journal file Hb Hl) as Hc.
  assert (∀ source c rs, header_of_journal source c → journal_ok c rs → file = journal source c rs → ∃ r, read_journal file = Ok r) as Hcomp.
  { intros source c rs Hh Hrs ->. eexists. by apply read_journal_complete. }
  destruct (read_journal file) as [[h l]|e| |]; cbn [fst snd wp] in *; try done.
  - destruct Hc as ((Hh & Hsc & Hmax) & Hrs). done.
  - intros source c rs Hh Hrs Hf. by destruct (Hcomp source c rs Hh Hrs Hf).
Qed.

(** ** Indexed reads *)

Lemma journal_tail source c rs : ∃ w, journal source c rs = w ++ chain_digest (header_digest source c) 0 rs.
Proof.
  induction rs as [|[k b] rs _] using rev_ind.
  - exists (prefix_octets source c). unfold journal, header_octets. cbn [chain chain_digest]. by rewrite app_nil_r.
  - rewrite journal_snoc, chain_digest_app, Z.add_0_l. cbn [chain_digest]. unfold record_octets. eexists. by rewrite !app_assoc.
Qed.

Lemma listed_records_app offset previous n rs rs' :
  listed offset previous n (rs ++ rs') =
  listed offset previous n rs ++ listed (offset + zlen (chain previous n rs)) (chain_digest previous n rs) (n + zlen rs) rs'.
Proof.
  revert offset previous n. induction rs as [|[kind body] rs IH]; intros offset previous n; cbn [app listed chain chain_digest].
  - by rewrite zlen_nil, !Z.add_0_r.
  - rewrite IH. cbn [app]. f_equal. f_equal. rewrite zlen_app, zlen_cons. f_equal; lia.
Qed.

(** A listed record stands after the journal of those before it. *)
Lemma listed_elem source c rs x :
  x ∈ listed (zlen (header_octets source c)) (header_digest source c) 0 rs →
  ∃ pre kind body post, rs = pre ++ (kind, body) :: post ∧
    let payload := payload_octets (zlen pre + 1) kind body in
    let previous := chain_digest (header_digest source c) 0 pre in
    x = {| r_kind := kind; r_sequence := zlen pre + 1; r_body := body; r_offset := zlen (journal source c pre);
           r_digest := bound_digest previous payload |}.
Proof.
  induction rs as [|[k b] rs IH] using rev_ind; [by intros ?%not_elem_of_nil|].
  rewrite listed_records_app, elem_of_app. intros [Hx|Hx].
  - destruct (IH Hx) as (pre & k' & b' & post & -> & Hx'). exists pre, k', b', (post ++ [(k, b)]).
    by rewrite <- app_assoc.
  - exists rs, k, b, []. split; [done|]. cbn [listed] in Hx. apply list_elem_of_singleton in Hx as ->.
    unfold journal. by rewrite zlen_app, !Z.add_0_l.
Qed.

Lemma get_record_complete len kind n body d :
  is_byte kind → 0 ≤ n ≤ u64_max → bytes_ok body → len = zlen body + 9 → zlen body ≤ i64_max → in_bounds d →
  ahead d (payload_octets n kind body) → get_record len d = (skip d (zlen (payload_octets n kind body)), Ok (kind, n, body)).
Proof.
  intros Hk Hn Hb -> Hl Hd Hw. pose proof (zlen_nonneg body). pose proof (take_codec (zlen body) ltac:(lia)) as Ht.
  unfold get_record, payload_octets in *.
  eapply (complete_step _ kind d); [done|done|exact Hw|]. intros Hd1 Hw1.
  eapply (complete_step _ n _); [done|done|exact Hw1|]. intros Hd2 Hw2.
  rewrite sub_ovf_ok, lift_step by lia. replace (zlen body + 9 - 9) with (zlen body) by lia.
  eapply (complete_step (get := Codec.take (zlen body)) _ body _ []); [done|done|by rewrite app_nil_r|]. intros _ _.
  unfold mret, stateful_ret. by rewrite !skip_skip, <- !zlen_app.
Qed.

Lemma read_indexed_complete mb offset previous payload file at_ :
  bytes_ok file → zlen file ≤ i64_max → 32 ≤ offset → hash_ok previous → bytes_ok payload → 9 ≤ zlen payload ≤ mb → mb ≤ u32_max →
  ahead {| d_bytes := file; d_at := offset - 32 |} (previous ++ record_octets previous payload) →
  ∃ f, read_indexed offset mb {| d_bytes := file; d_at := at_ |} =
       (f, Ok (previous, to_le_bytes 4 (zlen payload), payload, bound_digest previous payload)).
Proof.
  intros Hb Hl Hoff [Hp32 Hpb] Hpay Hlen Hmb Hw. unfold read_indexed. rewrite sub_ovf_ok, lift_ok by lia.
  change (modify ?g ≫= ?k) with (λ s : Decoder, k () (g s)). cbv beta. cbn [d_bytes].
  assert (in_bounds {| d_bytes := file; d_at := offset - 32 |}) as Hd.
  { split; [|done]. simpl. destruct Hw as [Hw _]. simpl in Hw. rewrite zlen_app in Hw.
    pose proof (zlen_nonneg previous). pose proof (zlen_nonneg (record_octets previous payload)). lia. }
  pose proof (exact_codec 32 ltac:(lia)) as H32. pose proof (exact_codec 4 ltac:(lia)) as H4.
  pose proof (exact_codec (zlen payload) ltac:(lia)) as Hep. unfold record_octets in Hw. eexists.
  eapply (complete_step (get := exact 32) _ previous _); [done|done|exact Hw|]. intros ? Hw1.
  eapply (complete_step (get := exact 4) _ (to_le_bytes 4 (zlen payload)) _); [split; [apply zlen_le|apply to_le_bytes_ok]|done|exact Hw1|]. intros ? Hw2.
  rewrite from_to_le, Z.mod_small by (change (256 ^ Z.of_nat 4) with 4294967296; lia). cbv zeta.
  unfold contains. rewrite (proj2 (Z.leb_le 9 _)), (proj2 (Z.leb_le _ mb)) by lia. cbn [andb negb].
  eapply (complete_step (get := exact (zlen payload)) _ payload _); [done|done|exact Hw2|]. intros ? Hw3.
  eapply (complete_step (get := exact 32) _ (bound_digest previous payload) _ []); [apply bound_hash|done|by rewrite app_nil_r|].
  intros _ _. done.
Qed.

Lemma records_ok_elem c rs x : records_ok c rs → x ∈ rs → record_ok c x.
Proof.
  induction rs as [|r rs IH]; [by intros _ ?%not_elem_of_nil|]. intros (H1 & _ & H3) [->|Hx]%elem_of_cons; auto.
Qed.

Lemma journal_app source c rs rs' :
  journal source c (rs ++ rs') = journal source c rs ++ chain (chain_digest (header_digest source c) 0 rs) (zlen rs) rs'.
Proof. unfold journal. by rewrite chain_app, Z.add_0_l, <- app_assoc. Qed.

Lemma chain_digest_hash previous n rs : hash_ok previous → hash_ok (chain_digest previous n rs).
Proof.
  revert previous n. induction rs as [|[k b] rs IH]; intros previous n H; [done|]. cbn [chain_digest]. apply IH, bound_hash.
Qed.

Lemma ahead_middle a w b : ahead {| d_bytes := a ++ w ++ b; d_at := zlen a |} w.
Proof.
  split; cbn [d_bytes d_at]; [rewrite !zlen_app; pose proof (zlen_nonneg b); lia|].
  rewrite sub_app_r by lia. rewrite Z.sub_diag. replace (zlen a + zlen w - zlen a) with (zlen w) by lia. apply sub_0_app.
Qed.


(** ** Examples *)

Lemma sample_header_ok : header_of_journal sample_source hconfig_default.
Proof.
  split; [|by vm_compute]. split; [|split; [exact hconfig_default_typed|by vm_compute]].
  split; [split; [by vm_compute|apply small_bytes_ok; by vm_compute]|by vm_compute].
Qed.
Definition sample_records : list (Z * list Z) := [(PACKET, [1; 2]); (SEAL, [])].
Definition sample_journal : list Z := journal sample_source hconfig_default sample_records.
Lemma sample_journal_octets : bytes_ok sample_journal ∧ zlen sample_journal ≤ i64_max.
Proof. split; [apply small_bytes_ok; by vm_compute|by vm_compute]. Qed.
Lemma sample_records_ok : journal_ok hconfig_default sample_records.
Proof.
  split; [|split; [|by vm_compute]].
  - split; [split; [done|by vm_compute]|]. split; [done|]. split; [split; [done|by vm_compute]|]. by split.
  - constructor; [apply small_bytes_ok; by vm_compute|]. apply Forall_singleton. constructor.
Qed.
Lemma sample_read : ∃ r, read_journal sample_journal = Ok r ∧ zlen r.2 = 2.
Proof.
  assert (match read_journal sample_journal with Ok r => zlen r.2 =? 2 | _ => false end = true) as H by by vm_compute.
  destruct (read_journal sample_journal) as [r|e| |]; try done. exists r. split; [done|by apply Z.eqb_eq].
Qed.
Lemma journal_exact_witness :
  ∃ h l, read_journal sample_journal = Ok (h, l) ∧ zlen l = 2 ∧
    ∃ rs, sample_journal = journal (jh_source h) (jh_config h) rs ∧ l = listed (jh_bytes h) (jh_digest h) 0 rs.
Proof.
  destruct sample_read as ([h l] & Hr & Hl). exists h, l. split; [exact Hr|]. split; [exact Hl|].
  pose proof (wp_value _ _ _ _ (journal_exact sample_journal (proj1 sample_journal_octets) (proj2 sample_journal_octets)) Hr) as H.
  cbv beta iota in H. destruct H as (_ & _ & rs & _ & Hf & Hls). exists rs. split; [exact Hf|exact Hls].
Defined.

Definition sample_writer : Writer := {|
  w_file := journal sample_source hconfig_default []; w_header := header_of sample_source hconfig_default; w_count := 0;
  w_position := zlen (journal sample_source hconfig_default []); w_previous := header_digest sample_source hconfig_default;
  w_poisoned := false; w_terminal := false |}.
Lemma sample_append : ∃ r, (append PACKET [1; 2] (sample_writer, quota 10000)).2 = Ok r.
Proof.
  assert (match (append PACKET [1; 2] (sample_writer, quota 10000)).2 with Ok _ => true | _ => false end = true) as H by by vm_compute.
  destruct (append PACKET [1; 2] (sample_writer, quota 10000)).2 as [r|e| |]; try done. by exists r.
Qed.
Lemma sample_writer_ok : writer_ok sample_source hconfig_default sample_writer [].
Proof.
  unfold writer_ok, sample_writer. cbn [w_file w_header w_count w_position w_previous w_poisoned w_terminal chain_digest records_ok].
  repeat (split; [reflexivity|]). by vm_compute.
Qed.
Lemma append_true_witness :
  writer_ok sample_source hconfig_default (append PACKET [1; 2] (sample_writer, quota 10000)).1.1 [(PACKET, [1; 2])].
Proof.
  destruct sample_append as [r Hr].
  exact (proj1 (swp_value _ _ _ _ _ (append_true sample_source hconfig_default sample_writer (quota 10000) [] PACKET [1; 2]
    (eq_refl (Ok ())) sample_writer_ok) Hr)).
Defined.

Definition sample_second : JRecord :=
  let h := header_octets sample_source hconfig_default in
  let d := header_digest sample_source hconfig_default in
  let first := payload_octets 1 PACKET [1; 2] in
  {| r_kind := SEAL; r_sequence := 2; r_body := []; r_offset := zlen h + zlen (record_octets d first);
     r_digest := bound_digest (bound_digest d first) (payload_octets 2 SEAL []) |}.
Definition sample_reader : JReader :=
  {| j_file := sample_journal; j_at := 7; j_header := header_of sample_source hconfig_default; j_count := 0; j_position := 0;
     j_previous := []; j_sealed := false; j_aborted := false; j_ended := true |}.
Lemma sample_second_listed :
  sample_second ∈ listed (zlen (header_octets sample_source hconfig_default)) (header_digest sample_source hconfig_default) 0 sample_records.
Proof. unfold sample_records. cbn [listed]. apply elem_of_cons. right. apply elem_of_cons. left. reflexivity. Qed.
