(* ===== verification/HistIndex.v ===== *)
(** * The history interval index ([src/history/src/index.rs])

    Fixed-width rows, one for every placement of payload octets, sorted by generation,
    direction and offset.  The rows are appended to [placements.raw] in arrival order; an
    external merge sort of bounded memory turns that file into [ranges.idx], which is
    searched by bisection.  A read returns as many octets as the operating system likes
    ([FileRead]); files are otherwise as in [Journal], and a run file, the directory it is
    in and the shared quota are the state [Disk]. *)

From stdpp Require Import gmap.
From S2P Require Import Prelude Errors Stateful Ord Codec HistModel Journal.

Definition WIDTH : Z := 112.

Record Row : Type := {
  x_generation : list Z;
  x_direction : Z;
  x_selected : bool;
  x_start : Z;
  x_end : Z;
  x_record_offset : Z;
  x_record_digest : list Z;
  x_ordinal : Z;
}.

(** [Row::key], nested to the right. *)
Definition row_key (r : Row) : list Z * (Z * (Z * (Z * (Z * (Z * (bool * list Z)))))) :=
  (x_generation r, (x_direction r, (x_start r, (x_end r, (x_ordinal r, (x_record_offset r,
   (x_selected r, x_record_digest r))))))).
#[global] Instance row_ord : Ord Row.
Proof. refine (proj_ord row_key _). intros [] [] H. by injection H as -> -> -> -> -> -> -> ->. Defined.

(** The checked operations of an [i64]. *)
Definition checked_i64 (v : Z) : option Z := if (i64_min <=? v) && (v <=? i64_max) then Some v else None.

(** [Row::encode]. *)
Definition row_encode (r : Row) : result (list Z) :=
  if (1 <? x_direction r) || (x_end r <=? x_start r)
     || (if checked_i64 (x_end r - x_start r) is Some n then 65535 <? n else true)
     || (x_ordinal r =? 0)
  then Err (bad "history_index" "invalid interval") else
  let e := put_hash [] (x_generation r) in
  let e := put_u8 e (x_direction r) in
  let e := put_u8 e (Z.b2z (x_selected r)) in
  let e := e ++ [0; 0; 0; 0; 0; 0] in
  let e := put_i64 e (x_start r) in
  let e := put_i64 e (x_end r) in
  let e := put_u64 e (x_record_offset r) in
  let e := put_hash e (x_record_digest r) in
  let e := put_u64 e (x_ordinal r) in
  Ok (put_u64 e 0).

(** [Row::decode]. *)
Definition get_row : Reading Row :=
  generation ← get_hash;
  direction ← get_u8;
  selected ← get_bool;
  reserved ← take 6;
  if negb (bytes_eqb reserved [0; 0; 0; 0; 0; 0]) then throw (bad "history_index" "reserved bytes set") else
  start ← get_i64;
  end_ ← get_i64;
  record_offset ← get_u64;
  record_digest ← get_hash;
  ordinal ← get_u64;
  last ← get_u64;
  if negb (last =? 0) then throw (bad "history_index" "reserved bytes set") else
  mret {| x_generation := generation; x_direction := direction; x_selected := selected; x_start := start;
          x_end := end_; x_record_offset := record_offset; x_record_digest := record_digest; x_ordinal := ordinal |}.
Definition row_decode (b : list Z) : result Row :=
  if negb (zlen b =? WIDTH) then Err (bad "history_index" "wrong entry width") else
  decode_all (r ← get_row; finish ;; lift (row_encode r ;; Ok r)) b.

(** ** Files *)

(** [Read::read] of a file: at least one octet unless none is left, at most as many as
    asked for; how many is up to the operating system and the buffer in between. *)
Class FileRead : Type := {
  read_size : list Z → Z → Z → Z;
  read_size_ok file at_ n : 0 < n → 0 ≤ at_ < zlen file → 1 ≤ read_size file at_ n ≤ Z.min n (zlen file - at_);
}.

(** The files of a workspace that a sort touches, by name. *)
Inductive Path : Type := Raw | Ranges | Run (pass n : Z).
#[global] Instance path_eq_dec : EqDecision Path.
Proof. solve_decision. Defined.
#[global] Instance path_countable : Countable Path.
Proof.
  refine (inj_countable' (λ p, match p with Raw => inl false | Ranges => inl true | Run p n => inr (p, n) end)
    (λ x : bool + Z * Z, match x with inl false => Raw | inl true => Ranges | inr (p, n) => Run p n end) _).
  by intros [].
Defined.

Record Disk : Type := {
  k_files : gmap Path (list Z);
  k_sort_dir : bool;
  k_quota : DiskBudget;
}.

(** An I/O error with the operating system's text. *)
Definition io_error (text : string) : Error := error_new Io 0 "io" text.

Section index.
Context {files_read : FileRead} (no_file file_exists : string).

Definition read_some (n : Z) : Reading (list Z) := λ f,
  if (n <=? 0) || (zlen (d_bytes f) <=? d_at f) then (f, Ok []) else
  let stop := d_at f + read_size (d_bytes f) (d_at f) n in
  ({| d_bytes := d_bytes f; d_at := stop |}, Ok (sub (d_bytes f) (d_at f) stop)).

(** [read_row]; [fuel] bounds the reads. *)
Fixpoint fill_row (fuel : nat) (b : list Z) : Reading (option (list Z)) :=
  match fuel with
  | O => lift OutOfFuel
  | S fuel =>
      if zlen b <? WIDTH then
        k ← read_some (WIDTH - zlen b);
        if zlen k =? 0 then
          if zlen b =? 0 then mret None else throw (bad "history_index" "partial entry")
        else fill_row fuel (b ++ k)
      else mret (Some b)
  end.
Definition read_row : Reading (option Row) :=
  b ← fill_row (S (Z.to_nat WIDTH)) [];
  match b with
  | None => mret None
  | Some b => r ← lift (row_decode b); mret (Some r)
  end.

(** ** [sort_checked] *)

Section sorting.
Context {C : Type} (check : C → C * result unit).

(** The disk, and the state of the caller's [check]. *)
Definition Sorting : Type → Type := Stateful (Disk * C).

Definition checked : Sorting unit := λ s, let '(c, r) := check s.2 in ((s.1, c), r).
Definition disk (f : Disk → result Disk) : Sorting unit := attempt (λ s, d ← f s.1; Ok (d, s.2)).

Definition set_files (f : gmap Path (list Z)) (d : Disk) : Disk :=
  {| k_files := f; k_sort_dir := k_sort_dir d; k_quota := k_quota d |}.
Definition set_quota (q : DiskBudget) (d : Disk) : Disk :=
  {| k_files := k_files d; k_sort_dir := k_sort_dir d; k_quota := q |}.

(** [File::open]. *)
Definition open_file (p : Path) : Sorting Decoder :=
  s ← get_state;
  match k_files s.1 !! p with
  | Some b => mret (decoder_new b)
  | None => throw (io_error no_file)
  end.
(** [create_new(true).open(..)]. *)
Definition create_file (p : Path) : Sorting unit := disk (λ d,
  match k_files d !! p with
  | Some _ => Err (io_error file_exists)
  | None => Ok (set_files (<[p := []]> (k_files d)) d)
  end).
Definition create_dir : Sorting unit := disk (λ d,
  if k_sort_dir d then Err (io_error file_exists)
  else Ok {| k_files := k_files d; k_sort_dir := true; k_quota := k_quota d |}).
Definition is_run (p : Path) : bool := match p with Run _ _ => true | _ => false end.
(** [fs::remove_dir] of an empty directory. *)
Definition remove_dir : Sorting unit := disk (λ d,
  if negb (k_sort_dir d) then Err (io_error no_file)
  else if existsb (λ f, is_run f.1) (map_to_list (k_files d)) then Err (io_error file_exists)
  else Ok {| k_files := k_files d; k_sort_dir := false; k_quota := k_quota d |}).
Definition rename (p p' : Path) : Sorting unit := disk (λ d,
  match k_files d !! p with
  | Some b => Ok (set_files (<[p' := b]> (delete p (k_files d))) d)
  | None => Err (io_error no_file)
  end).
(** [remove_owned] of a regular file: the file is gone even when the release fails. *)
Definition remove_owned (p : Path) : Sorting unit :=
  f ← open_file p;
  disk (λ d, Ok (set_files (delete p (k_files d)) d)) ;;
  disk (λ d, q ← release (k_quota d) (zlen (d_bytes f)); Ok (set_quota q d)).

(** [write_row] to the file [p]. *)
Definition write_row (p : Path) (r : Row) : Sorting unit :=
  disk (λ d, q ← charge (k_quota d) WIDTH; Ok (set_quota q d)) ;;
  b ← lift (row_encode r);
  disk (λ d, Ok (set_files (<[p := default [] (k_files d !! p) ++ b]> (k_files d)) d)).
(** [read_row] of an open file. *)
Definition read_from (f : Decoder) : Sorting (Decoder * option Row) :=
  lift (let '(f, r) := read_row f in r ← r; Ok (f, r)).

(** The chunk of the next [entries] rows. *)
Definition chunk_row (entries : Z) (s : Decoder * list Row)
    : Sorting (step (Decoder * list Row) (Decoder * list Row)) :=
  let '(source, chunk) := s in
  if zlen chunk <? entries then
    (if zlen chunk `mod` 4096 =? 0 then checked else mret ()) ;;
    r ← read_from source;
    match r with
    | (source, Some r) => mret (Continue (source, chunk ++ [r]))
    | (source, None) => mret (Break (source, chunk))
    end
  else mret (Break (source, chunk)).
Definition count_row (p : Path) (total : Z) (r : Row) : Sorting Z :=
  write_row p r ;; lift (ok_or (checked_add u64_max total 1) (limit "history_index_count")).
Definition chunk_step (fuel : nat) (entries : Z) (s : Decoder * Z * Z)
    : Sorting (step (Decoder * Z * Z) (Z * Z)) :=
  let '(source, count, total) := s in
  checked ;;
  x ← loopC fuel (chunk_row entries) (source, []);
  let '(source, chunk) := x in
  if zlen chunk =? 0 then mret (Break (count, total)) else
  create_file (Run 0 count) ;;
  total ← foldC (count_row (Run 0 count)) total (sort chunk);
  count ← lift (add_ovf u64_max count 1);
  mret (Continue (source, count, total)).

(** The heap holds the next row of each run with the run's number; the least is on top. *)
Definition Heap : Type := list (Row * Z).
Definition open_run (pass : Z) (s : list Decoder * Heap) (n : Z) : Sorting (list Decoder * Heap) :=
  let '(files, heap) := s in
  f ← open_file (Run pass n);
  x ← read_from f;
  let '(f, r) := x in
  let heap := match r with Some r => insert_sorted (r, zlen files) heap | None => heap end in
  mret (files ++ [f], heap).
Definition merge_step (p : Path) (s : list Decoder * Heap * Z)
    : Sorting (step (list Decoder * Heap * Z) unit) :=
  let '(files, heap, merged) := s in
  match heap with
  | [] => mret (Break ())
  | (r, i) :: heap =>
      (if merged `mod` 4096 =? 0 then checked else mret ()) ;;
      merged ← lift (add_ovf usize_max merged 1);
      write_row p r ;;
      f ← lift (index files i);
      x ← read_from f;
      let '(f, next) := x in
      let heap := match next with Some n => insert_sorted (n, i) heap | None => heap end in
      mret (Continue (<[Z.to_nat i := f]> files, heap, merged))
  end.
Definition group_step (fuel : nat) (pass fan_in count : Z) (s : Z * Z) : Sorting (step (Z * Z) Z) :=
  let '(first, next) := s in
  if first <? count then
    checked ;;
    stop ← lift (add_ovf u64_max first fan_in);
    let stop := Z.min count stop in
    x ← foldC (open_run pass) ([], []) (seqZ first (stop - first));
    let '(files, heap) := x in
    target ← lift (add_ovf u64_max pass 1);
    create_file (Run target next) ;;
    loopC fuel (merge_step (Run target next)) (files, heap, 0) ;;
    foldC (λ _ n, remove_owned (Run pass n)) () (seqZ first (stop - first)) ;;
    next ← lift (add_ovf u64_max next 1);
    mret (Continue (stop, next))
  else mret (Break next).
Definition pass_step (fuel : nat) (fan_in : Z) (s : Z * Z) : Sorting (step (Z * Z) Z) :=
  let '(pass, count) := s in
  if 1 <? count then
    next ← loopC (S (Z.to_nat count)) (group_step fuel pass fan_in count) (0, 0);
    pass ← lift (add_ovf u64_max pass 1);
    mret (Continue (pass, next))
  else mret (Break pass).

Definition sort_checked (entries fan_in : Z) : Sorting Z :=
  if negb (contains 2 1000000 entries) || negb (contains 2 64 fan_in)
  then throw (bad "history_sort" "invalid sort budgets") else
  source ← open_file Raw;
  create_dir ;;
  let fuel := S (S (length (d_bytes source))) in
  x ← loopC fuel (chunk_step fuel entries) (source, 0, 0);
  let '(count, total) := x in
  remove_owned Raw ;;
  if count =? 0 then
    create_file Ranges ;; remove_dir ;; mret 0
  else
    pass ← loopC fuel (pass_step fuel fan_in) (0, count);
    rename (Run pass 0) Ranges ;;
    remove_dir ;;
    mret total.
End sorting.

(** [sort]: nothing to check. *)
Definition sort_index (entries fan_in : Z) : Stateful (Disk * unit) Z :=
  sort_checked (λ c, (c, Ok ())) entries fan_in.

(** ** [Index] *)

Record RangeIndex : Type := { i_file : Decoder; i_count : Z }.
(** [Index::open] of a regular file. *)
Definition index_open (b : list Z) : result RangeIndex :=
  if negb (zlen b `mod` WIDTH =? 0) then Err (bad "history_index" "misaligned index")
  else Ok {| i_file := decoder_new b; i_count := zlen b `div` WIDTH |}.
(** [Index::at]. *)
Definition row_at (n : Z) : Stateful RangeIndex Row := λ x,
  if i_count x <=? n then (x, Err (bad "history_index" "entry outside index")) else
  if u64_max <? n * WIDTH then (x, Err (limit "history_index_offset")) else
  let '(f, r) := read_row {| d_bytes := d_bytes (i_file x); d_at := n * WIDTH |} in
  ({| i_file := f; i_count := i_count x |},
   r ← r; ok_or r (bad "history_index" "unexpected EOF")).
(** [Index::lower_bound]. *)
Definition below (r : Row) (generation : list Z) (direction start : Z) : bool :=
  if cmp (x_generation r, (x_direction r, x_start r)) (generation, (direction, start)) is Lt then true else false.
Fixpoint bisect (fuel : nat) (generation : list Z) (direction start lo hi : Z) : Stateful RangeIndex Z :=
  match fuel with
  | O => lift OutOfFuel
  | S fuel =>
      if lo <? hi then
        let mid := lo + (hi - lo) `div` 2 in
        r ← row_at mid;
        if below r generation direction start
        then bisect fuel generation direction start (mid + 1) hi
        else bisect fuel generation direction start lo mid
      else mret lo
  end.
Definition lower_bound (generation : list Z) (direction start : Z) : Stateful RangeIndex Z :=
  x ← get_state;
  bisect (S (Z.to_nat (i_count x))) generation direction start 0 (i_count x).
End index.
