(* ===== verification/HistIndexFacts.v ===== *)
(** * The interval index is sorted and searched exactly

    A row is decoded from its encoding and from nothing else, however many reads it takes.
    The merge of sorted runs is the sorted run of their rows, so the passes end with the
    rows of the input in order and the quota as it was; bisection finds the first row that
    is not below a key. *)

From stdpp Require Import gmap sorting.
From Stdlib Require Import Sorting.
From S2P Require Import Prelude Errors Stateful Ord ModbusFacts Codec CodecFacts HistModel HistModelFacts Journal HistIndex.

(** ** Rows *)

Definition row_typed (r : Row) : Prop :=
  hash_ok (x_generation r) ∧ is_byte (x_direction r) ∧ i64_ok (x_start r) ∧ i64_ok (x_end r) ∧
  0 ≤ x_record_offset r ≤ u64_max ∧ hash_ok (x_record_digest r) ∧ 0 ≤ x_ordinal r ≤ u64_max.
(** What [Row::encode] accepts. *)
Definition row_interval (r : Row) : Prop :=
  x_direction r ≤ 1 ∧ x_start r < x_end r ≤ x_start r + 65535 ∧ x_ordinal r ≠ 0.
Definition row_valid (r : Row) : Prop := row_typed r ∧ row_interval r.

Definition row_octets (r : Row) : list Z :=
  x_generation r ++ [x_direction r] ++ [Z.b2z (x_selected r)] ++ [0; 0; 0; 0; 0; 0] ++
  to_le_bytes 8 (as_unsigned 64 (x_start r)) ++ to_le_bytes 8 (as_unsigned 64 (x_end r)) ++
  to_le_bytes 8 (x_record_offset r) ++ x_record_digest r ++ to_le_bytes 8 (x_ordinal r) ++ to_le_bytes 8 0.

#[global] Instance get_row_codec : Codec get_row row_octets row_typed.
Proof.
  pose proof (take_codec 6 ltac:(lia)) as H6. constructor.
  - intros [g d s b e o h n] f (Hg & Hd & Hs & He & Ho & Hh & Hn) Hf Hw. simpl in *. unfold get_row.
    eapply (complete_step _ g f); [done|done|exact Hw|]. intros ? Hw1.
    eapply (complete_step _ d _); [done|done|exact Hw1|]. intros ? Hw2.
    eapply (complete_step _ s _); [done|done|exact Hw2|]. intros ? Hw3.
    eapply (complete_step (get := take 6) _ [0; 0; 0; 0; 0; 0] _);
      [split; [done|apply small_bytes_ok; by vm_compute]|done|exact Hw3|]. intros ? Hw4.
    change (negb (bytes_eqb [0; 0; 0; 0; 0; 0] [0; 0; 0; 0; 0; 0])) with false. cbv iota.
    eapply (complete_step _ b _); [done|done|exact Hw4|]. intros ? Hw5.
    eapply (complete_step _ e _); [done|done|exact Hw5|]. intros ? Hw6.
    eapply (complete_step _ o _); [done|done|exact Hw6|]. intros ? Hw7.
    eapply (complete_step _ h _); [done|done|exact Hw7|]. intros ? Hw8.
    eapply (complete_step _ n _); [done|done|exact Hw8|]. intros ? Hw9.
    eapply (complete_step _ 0 _ []); [lia|done|by rewrite app_nil_r|]. intros _ _.
    change (negb (0 =? 0)) with false. cbv iota.
    unfold mret, stateful_ret, row_octets. simpl x_generation. by rewrite !skip_skip, <- !zlen_app.
  - intros d Hd. unfold get_row. writes. writes. writes. writes.
    apply swp_if; intros Hz; [done|]. apply negb_false_iff, bytes_eqb_eq in Hz. subst. repeat writes.
    apply swp_if; intros Hz; [done|]. apply negb_false_iff, Z.eqb_eq in Hz. subst.
    written. unfold row_typed; simpl; tauto.
Qed.

Lemma row_encode_octets r : row_typed r → row_interval r → row_encode r = Ok (row_octets r).
Proof.
  intros (_ & _ & Hs & He & _) (Hd & Hi & Hn). unfold row_encode, i64_ok in *.
  assert (checked_i64 (x_end r - x_start r) = Some (x_end r - x_start r)) as ->
    by (unfold checked_i64; by rewrite !(proj2 (Z.leb_le _ _)) by lia).
  rewrite (proj2 (Z.ltb_ge 1 _)), (proj2 (Z.leb_gt _ _)), (proj2 (Z.ltb_ge 65535 _)), (proj2 (Z.eqb_neq _ _)) by lia.
  simpl. unfold put_u64, put_i64, put_hash, put_u8, row_octets. by rewrite <- !app_assoc.
Qed.

Lemma wp_row_encode r :
  row_typed r → wp (row_encode r) (λ b, row_interval r ∧ b = row_octets r) (λ e, ¬ row_interval r).
Proof.
  intros Ht. destruct (decide (x_direction r ≤ 1 ∧ x_start r < x_end r ≤ x_start r + 65535 ∧ x_ordinal r ≠ 0)) as [Hi|Hi].
  - by rewrite row_encode_octets.
  - unfold row_encode. case_match eqn:Hc; [done|]. exfalso. apply Hi. clear Hi.
    destruct Ht as (_ & _ & Hs & He & _). unfold i64_ok, checked_i64 in *. bool_facts.
    destruct ((i64_min <=? _) && _) eqn:Hr; bool_facts; [|done]. lia.
Qed.

Lemma zlen_row_octets r : row_typed r → zlen (row_octets r) = WIDTH.
Proof.
  intros ([Hg _] & _ & _ & _ & _ & [Hh _] & _). unfold row_octets. rewrite !zlen_app, Hg, Hh.
  unfold zlen. by rewrite !length_to_le_bytes.
Qed.

Lemma row_octets_ok r : row_typed r → bytes_ok (row_octets r).
Proof.
  intros ([_ Hg] & Hd & _ & _ & _ & [_ Hh] & _). unfold row_octets. rewrite !bytes_ok_app.
  split_and!; try done; try apply to_le_bytes_ok; [by constructor|..]; apply small_bytes_ok; by destruct (x_selected r).
Qed.

Lemma row_octets_inj r r' : row_typed r → row_typed r' → row_octets r = row_octets r' → r = r'.
Proof.
  intros Hr Hr' Heq. pose proof (zlen_row_octets r Hr). pose proof (row_octets_ok r Hr) as Hb. unfold WIDTH in *.
  pose proof (whole_back (get := get_row) (λ r, Ok r) r Hr Hb ltac:(lia)) as H1.
  rewrite Heq in Hb, H1. pose proof (zlen_row_octets r' Hr'). unfold WIDTH in *.
  pose proof (whole_back (get := get_row) (λ r, Ok r) r' Hr' Hb ltac:(lia)) as H2.
  cbv beta in H2. rewrite H1 in H2. by injection H2.
Qed.

(** A row is decoded from its encoding and from nothing else. *)
Lemma wp_row_decode b :
  bytes_ok b → wp (row_decode b) (λ r, row_valid r ∧ b = row_octets r) (λ _, ∀ r, row_valid r → b ≠ row_octets r).
Proof.
  intros Hb. unfold row_decode. destruct (Z.eqb_spec (zlen b) WIDTH) as [Hl|Hl]; simpl.
  - eapply wp_mono; [apply (whole_then (get := get_row) _ b (λ _, True)); [done|unfold WIDTH in *; lia|]|..].
    + intros r Hr _. apply wp_bind. eapply wp_mono; [by apply wp_row_encode|done|done].
    + intros r (r' & Hr & -> & Hf). pose proof (wp_row_encode r' Hr) as Hw.
      apply bind_ok in Hf as (k & Hk & [= ->]). rewrite Hk in Hw. by destruct Hw.
    + intros e [Hno|(_ & r & Hr & -> & Hf)] r' [Ht Hi]; [by apply Hno|]. intros <-%row_octets_inj; [|done|done].
      by rewrite row_encode_octets in Hf.
  - intros r [Hr _] ->. by rewrite zlen_row_octets in Hl.
Qed.

Lemma row_decode_octets r : row_valid r → row_decode (row_octets r) = Ok r.
Proof.
  intros Hr. pose proof (wp_row_decode _ (row_octets_ok r (proj1 Hr))) as Hw.
  destruct (row_decode _) as [r'|e| |]; simpl in Hw; try done; [|by specialize (Hw r Hr)].
  destruct Hw as [Hr' Heq%row_octets_inj]; [by subst|apply Hr|apply Hr'].
Qed.

(** ** Reading rows *)

Definition at_pos (f : Decoder) (n : Z) : Decoder := {| d_bytes := d_bytes f; d_at := n |}.

Section index.
Context {files_read : FileRead} (no_file file_exists : string).

Lemma swp_read_some n f (Q : Decoder → list Z → Prop) R :
  0 < n → 0 ≤ d_at f ≤ zlen (d_bytes f) → (d_at f = zlen (d_bytes f) → Q f []) →
  (∀ k, 1 ≤ k ≤ n → d_at f + k ≤ zlen (d_bytes f) → Q (at_pos f (d_at f + k)) (sub (d_bytes f) (d_at f) (d_at f + k))) →
  swp (read_some n) f Q R.
Proof.
  intros Hn Hat He Hk. unfold swp, read_some. rewrite (proj2 (Z.leb_gt _ _)) by lia. cbn [orb].
  destruct (Z.leb_spec (zlen (d_bytes f)) (d_at f)); cbn [fst snd wp]; [apply He; lia|].
  pose proof (read_size_ok (d_bytes f) (d_at f) n ltac:(lia) ltac:(lia)). apply Hk; lia.
Qed.

(** The next row in however many reads. *)
Lemma fill_row_spec fuel b f start :
  0 ≤ start → start + zlen b = d_at f → d_at f ≤ zlen (d_bytes f) → b = sub (d_bytes f) start (d_at f) →
  zlen b ≤ WIDTH → WIDTH - zlen b < Z.of_nat fuel →
  swp (fill_row fuel b) f
    (λ f' o, match o with
             | None => start = zlen (d_bytes f) ∧ f' = at_pos f start
             | Some b' => start + WIDTH ≤ zlen (d_bytes f) ∧ f' = at_pos f (start + WIDTH) ∧
                          b' = sub (d_bytes f) start (start + WIDTH)
             end)
    (λ _ _, start < zlen (d_bytes f) < start + WIDTH).
Proof.
  revert b f. induction fuel as [|fuel IH]; intros b f Hs Hat Hle Hb Hw Hf; [pose proof (zlen_nonneg b); lia|].
  cbn [fill_row]. apply swp_if; intros Hc; bool_facts.
  2: { apply swp_ret. assert (d_at f = start + WIDTH) as Heq by lia. rewrite <- Heq. split; [lia|]. split; [by destruct f|done]. }
  pose proof (zlen_nonneg b). apply swp_bind, swp_read_some; [lia|lia|..].
  - intros Hend. rewrite zlen_nil, Z.eqb_refl. apply swp_if; intros H0; bool_facts.
    + apply swp_ret. split; [lia|]. unfold at_pos. replace start with (d_at f) by lia. by destruct f.
    + apply swp_throw. lia.
  - intros n Hn Hmore. assert (zlen (sub (d_bytes f) (d_at f) (d_at f + n)) = n) as Hz by (rewrite zlen_sub; lia).
    rewrite Hz, (proj2 (Z.eqb_neq _ _)) by lia.
    eapply swp_mono; [apply (IH (b ++ _) (at_pos f (d_at f + n)))|..]; simpl; rewrite ?zlen_app, ?Hz; try lia.
    + rewrite (sub_split _ start (d_at f) (d_at f + n)) by lia. by rewrite <- Hb.
    + intros f' o H'. exact H'.
Qed.

Lemma read_row_spec f :
  0 ≤ d_at f ≤ zlen (d_bytes f) → bytes_ok (d_bytes f) →
  swp read_row f
    (λ f' o, match o with
             | None => d_at f = zlen (d_bytes f) ∧ f' = f
             | Some r => d_at f + WIDTH ≤ zlen (d_bytes f) ∧ f' = at_pos f (d_at f + WIDTH) ∧ row_valid r ∧
                         sub (d_bytes f) (d_at f) (d_at f + WIDTH) = row_octets r
             end)
    (λ _ _, d_at f < zlen (d_bytes f) ∧
            ∀ r, row_valid r → sub (d_bytes f) (d_at f) (Z.min (d_at f + WIDTH) (zlen (d_bytes f))) ≠ row_octets r).
Proof.
  intros Hat Hb. unfold read_row. apply swp_bind.
  eapply swp_mono; [apply (fill_row_spec _ [] f (d_at f)); rewrite ?zlen_nil, ?sub_empty; lia || done|..].
  - intros f' [b|]; cbv beta iota.
    + intros (Hle & -> & ->). apply swp_bind, swp_lift.
      eapply wp_mono; [apply wp_row_decode; by apply bytes_ok_sub|..].
      * intros r [Hr Hsub]. by apply swp_ret.
      * intros e Hno. split; [unfold WIDTH in *; lia|]. intros r Hr. rewrite Z.min_l by lia. by apply Hno.
    + intros [Hend ->]. apply swp_ret. split; [done|]. by destruct f.
  - intros f' e Hm. cbv beta in Hm. split; [lia|]. intros r Hr Heq. apply (f_equal zlen) in Heq.
    rewrite zlen_sub, (zlen_row_octets r) in Heq by (lia || apply Hr). lia.
Qed.

(** The rows a file holds from a position on. *)
Definition rows_octets (rs : list Row) : list Z := concat (map row_octets rs).

Lemma zlen_rows_octets rs : Forall row_valid rs → zlen (rows_octets rs) = WIDTH * zlen rs.
Proof.
  unfold rows_octets. induction 1 as [|r rs [Hr _] _ IH]; [done|]. simpl.
  rewrite zlen_app, zlen_cons, IH, zlen_row_octets by done. lia.
Qed.

Lemma rows_octets_ok rs : Forall row_valid rs → bytes_ok (rows_octets rs).
Proof.
  unfold rows_octets. induction 1 as [|r rs [Hr _] _ IH]; [constructor|]. simpl.
  apply bytes_ok_app. split; [by apply row_octets_ok|done].
Qed.

Lemma rows_octets_app rs rs' : rows_octets (rs ++ rs') = rows_octets rs ++ rows_octets rs'.
Proof. unfold rows_octets. by rewrite map_app, concat_app. Qed.

(** [f] stands before the rows [rs], the last of its file. *)
Definition reads_rows (f : Decoder) (rs : list Row) : Prop :=
  ∃ done, Forall row_valid (done ++ rs) ∧ d_bytes f = rows_octets (done ++ rs) ∧ d_at f = WIDTH * zlen done.

Lemma reads_all rs : Forall row_valid rs → reads_rows (decoder_new (rows_octets rs)) rs.
Proof. intros H. by exists []. Qed.

Lemma row_ahead done r rs :
  Forall row_valid (done ++ r :: rs) →
  sub (rows_octets (done ++ r :: rs)) (WIDTH * zlen done) (WIDTH * zlen done + WIDTH) = row_octets r.
Proof.
  intros [Hd [Hr _]%Forall_cons]%Forall_app. pose proof (zlen_rows_octets _ Hd) as Hl.
  pose proof (zlen_row_octets r (proj1 Hr)) as Hz. rewrite rows_octets_app, sub_app_r, Hl by (unfold WIDTH in *; lia).
  unfold rows_octets. cbn [map concat]. rewrite sub_app_l by lia. replace (_ - _) with 0 by lia.
  replace (_ + _ - _) with (zlen (row_octets r)) by lia. apply sub_full.
Qed.

Lemma read_next f rs :
  reads_rows f rs →
  swp read_row f (λ f' o, match rs with [] => o = None ∧ f' = f | r :: rs => o = Some r ∧ reads_rows f' rs end) (λ _ _, False).
Proof.
  intros (done & Hv & Hb & Hat). pose proof (zlen_rows_octets _ Hv) as Hl. rewrite zlen_app in Hl.
  pose proof Hv as [Hvd Hvr]%Forall_app. pose proof (zlen_rows_octets _ Hvd) as Hld.
  pose proof (zlen_nonneg done). pose proof (zlen_nonneg rs). unfold WIDTH in *.
  eapply swp_mono; [apply read_row_spec; rewrite Hb; [lia|by apply rows_octets_ok]|..]; cbv beta; rewrite Hb; unfold WIDTH in *.
  - intros f' o Ho. destruct rs as [|r rs].
    + destruct o as [r|]; [|by destruct Ho as [_ ->]]. rewrite zlen_nil in *. lia.
    + rewrite zlen_cons in *. pose proof (zlen_nonneg rs). destruct o as [x|]; [|lia].
      destruct Ho as (_ & -> & Hx & Hs). apply Forall_cons in Hvr as [Hr Hvr].
      assert (x = r) as ->.
      { apply row_octets_inj; [apply Hx|apply Hr|]. by rewrite <- Hs, Hat, row_ahead. }
      split; [done|]. exists (done ++ [r]). rewrite <- app_assoc. split; [done|]. split; [done|].
      simpl. rewrite Hat, zlen_app, zlen_cons, zlen_nil. unfold WIDTH. lia.
  - intros _ e [Hlt Hno]. destruct rs as [|r rs]; [rewrite zlen_nil in *; lia|]. apply Forall_cons in Hvr as [Hr Hvr].
    apply (Hno r Hr). rewrite zlen_cons in *. pose proof (zlen_nonneg rs). rewrite Z.min_l by lia.
    rewrite Hat. by apply row_ahead.
Qed.

(** ** Merging, as lists *)

Abbreviation row_le := (λ x y : Row, cmp x y ≠ Gt).
Abbreviation entry_le := (λ x y : Row * Z, cmp x y ≠ Gt).

Lemma sorted_rows_unique rs rs' : StronglySorted row_le rs → StronglySorted row_le rs' → rs ≡ₚ rs' → rs = rs'.
Proof.
  assert (AntiSymm (=) row_le) by (intros x y Hxy Hyx; apply cmp_eq; rewrite (cmp_antisym x y) in Hyx; by destruct (cmp x y)).
  apply (StronglySorted_unique row_le).
Qed.

Lemma sort_unique rs out : StronglySorted row_le out → out ≡ₚ rs → out = sort rs.
Proof. intros Hs Hp. apply sorted_rows_unique; [done|apply sort_sorted|]. by rewrite sort_perm. Qed.

Lemma entry_le_row x y : entry_le x y → row_le x.1 y.1.
Proof. change (pair_cmp x y ≠ Gt → row_le x.1 y.1). unfold pair_cmp. by destruct (cmp x.1 y.1). Qed.

(** What a merge keeps: [out] is written, the heap holds the next row of every run that has
    one, [rests] is what the runs hold after it. *)
Record merging (all out : list Row) (heap : Heap) (rests : list (list Row)) : Prop := {
  mg_heap : StronglySorted entry_le heap;
  mg_once : NoDup heap.*2;
  mg_next r i : (r, i) ∈ heap → ∃ l, get rests i = Some l ∧ StronglySorted row_le (r :: l);
  mg_listed i l : get rests i = Some l → l ≠ [] → i ∈ heap.*2;
  mg_perm : out ++ heap.*1 ++ concat rests ≡ₚ all;
  mg_out : StronglySorted row_le out;
  mg_below x y : x ∈ out → y ∈ heap.*1 → row_le x y;
}.

Lemma get_insert_rest {A} (l : list A) i j x y :
  get l i = Some x → get (<[Z.to_nat i := y]> l) j = if decide (i = j) then Some y else get l j.
Proof.
  intros [Hi Hl]%get_Some. unfold get. case_decide as Hij.
  - subst. destruct (Z.leb_spec 0 j); [|lia]. rewrite list_lookup_insert_eq; [done|by eapply lookup_lt_Some].
  - destruct (Z.leb_spec 0 j); [|done]. apply list_lookup_insert_ne. lia.
Qed.

Lemma concat_insert_rest {A} (rests : list (list A)) i n l :
  rests !! i = Some (n :: l) → concat rests ≡ₚ n :: concat (<[i := l]> rests).
Proof.
  revert i. induction rests as [|k rests IH]; intros [|i]; try done; simpl.
  - by intros [= ->].
  - intros H. rewrite (IH i H). symmetry. apply Permutation_middle.
Qed.

Lemma merging_done all out rests : merging all out [] rests → out = sort all.
Proof.
  intros []. apply sort_unique; [done|]. rewrite <- mg_perm0. simpl.
  assert (concat rests = []) as ->; [|by rewrite app_nil_r].
  destruct (concat rests) as [|x l] eqn:Hc; [done|]. assert (x ∈ concat rests) as Hx by (rewrite Hc; left).
  apply elem_of_concat in Hx as (k & [i Hi]%list_elem_of_lookup & Hxk).
  exfalso. apply (not_elem_of_nil (Z.of_nat i)). apply (mg_listed0 _ k); [|by intros ->; apply not_elem_of_nil in Hxk].
  apply get_Some. split; [lia|]. by rewrite Nat2Z.id.
Qed.

(** The popped row is the least of those left. *)
Lemma merging_least all out r i heap rests x :
  merging all out ((r, i) :: heap) rests → x ∈ r :: heap.*1 → row_le r x.
Proof.
  intros [[_ Hall]%StronglySorted_inv] [->|Hx]%elem_of_cons; [by rewrite cmp_refl|].
  apply list_elem_of_fmap in Hx as (y & -> & Hy). rewrite Forall_forall in Hall. by apply (entry_le_row (r, i) y), Hall.
Qed.

Lemma merging_out all out r i heap rests :
  merging all out ((r, i) :: heap) rests → StronglySorted row_le (out ++ [r]).
Proof.
  intros []. apply (StronglySorted_app_2 row_le); [|done|repeat constructor].
  intros x y Hx ->%list_elem_of_singleton. apply mg_below0; [done|]. left.
Qed.

Lemma merging_pop all out r i heap rests :
  merging all out ((r, i) :: heap) rests →
  ∃ l, get rests i = Some l ∧
    match l with
    | [] => merging all (out ++ [r]) heap rests
    | n :: l => merging all (out ++ [r]) (insert_sorted (n, i) heap) (<[Z.to_nat i := l]> rests)
    end.
Proof.
  intros H. pose proof (λ x, merging_least _ _ _ _ _ _ x H) as Hleast. pose proof (merging_out _ _ _ _ _ _ H) as Hout.
  destruct H as [[Hh _]%StronglySorted_inv [Hni Hnd]%NoDup_cons Hn Hli Hp Ho Hb]. destruct (Hn r i) as (l & Hl & Hs); [left|].
  exists l. split; [done|].
  assert (∀ x y, x ∈ out ++ [r] → y ∈ r :: heap.*1 → row_le x y) as Hbelow.
  { intros x y [Hx| ->%list_elem_of_singleton]%elem_of_app Hy; [by apply Hb|by apply Hleast]. }
  destruct l as [|n l].
  - constructor; [done|done|by intros r' j Hj; apply Hn; right|..].
    + intros j k Hk Hne. destruct (proj1 (elem_of_cons _ _ _) (Hli j k Hk Hne)) as [->|Hj]; [|done].
      simpl in *. congruence.
    + rewrite <- Hp. rewrite <- app_assoc. done.
    + done.
    + intros x y Hx Hy. apply Hbelow; [done|by right].
  - apply StronglySorted_inv in Hs as [Hs [Hrn _]%Forall_cons].
    constructor; [by apply insert_sorted_sorted|rewrite insert_sorted_perm; by constructor|..].
    + intros r' j Hj. rewrite insert_sorted_perm in Hj. rewrite (get_insert_rest _ _ _ _ _ Hl).
      apply elem_of_cons in Hj as [[= -> ->]|Hj]; [rewrite decide_True by done; by exists l|].
      rewrite decide_False; [apply Hn; by right|]. intros <-. apply Hni. by apply (list_elem_of_fmap_2 snd) in Hj.
    + intros j k Hk Hne. rewrite insert_sorted_perm. rewrite (get_insert_rest _ _ _ _ _ Hl) in Hk. case_decide; [subst; left|].
      right. by destruct (proj1 (elem_of_cons _ _ _) (Hli j k Hk Hne)) as [->|Hj].
    + rewrite <- Hp, <- app_assoc, insert_sorted_perm. apply get_Some in Hl as [_ Hl].
      rewrite (concat_insert_rest _ _ _ _ Hl). simpl. do 2 f_equiv. apply Permutation_middle.
    + done.
    + intros x y Hx Hy. rewrite insert_sorted_perm in Hy. simpl in Hy. apply elem_of_cons in Hy as [->|Hy].
      * apply (le_ord_trans _ r); [apply Hbelow; [done|left]|done].
      * apply Hbelow; [done|by right].
Qed.

(** One more run is opened. *)
Lemma merging_open all heap rests l :
  merging all [] heap rests → StronglySorted row_le l →
  merging (all ++ l) [] (match l with r :: _ => insert_sorted (r, zlen rests) heap | [] => heap end) (rests ++ [tail l]).
Proof.
  intros [Hh Hnd Hn Hli Hp Ho Hb] Hs.
  assert (∀ i l', get rests i = Some l' → get (rests ++ [tail l]) i = Some l') as Hold.
  { intros i l' [Hi Hl]%get_Some. apply get_Some. split; [done|]. by apply lookup_app_l_Some. }
  assert (zlen rests ∉ heap.*2) as Hnew.
  { intros ([r j] & Hj & Hin)%list_elem_of_fmap. simpl in Hj. subst j. destruct (Hn _ _ Hin) as (k & Hk & _).
    by rewrite (proj2 (get_None rests (zlen rests) (zlen_nonneg _))) in Hk by done. }
  assert (∀ i k, get (rests ++ [tail l]) i = Some k → i = zlen rests ∧ k = tail l ∨ get rests i = Some k) as Hget.
  { intros i k [Hi Hk]%get_Some. apply lookup_app_Some in Hk as [Hk|[Hge Hk]]; [right; by apply get_Some|left].
    apply list_lookup_singleton_Some in Hk as [H0 <-]. unfold zlen. split; [lia|done]. }
  assert (concat (rests ++ [tail l]) = concat rests ++ tail l) as Hc by (rewrite concat_app; simpl; by rewrite app_nil_r).
  destruct l as [|r l]; constructor; rewrite ?Hc, ?app_nil_r; try done.
  - intros r i (k & Hk & Hks)%Hn. exists k. split; [by apply Hold|done].
  - intros i k [[-> ->]|Hk]%Hget Hne; [done|by eapply Hli].
  - by apply insert_sorted_sorted.
  - rewrite insert_sorted_perm. by constructor.
  - intros r' i Hi. rewrite insert_sorted_perm in Hi. apply elem_of_cons in Hi as [[= -> ->]|Hi].
    + exists l. split; [|done]. apply get_snoc.
    + destruct (Hn _ _ Hi) as (k & Hk & Hks). exists k. split; [by apply Hold|done].
  - intros i k [[-> ->]|Hk]%Hget Hne; rewrite insert_sorted_perm; [left|right; by eapply Hli].
  - rewrite <- Hp, insert_sorted_perm. simpl. rewrite app_assoc. apply Permutation_middle.
  - intros x y Hx. by apply not_elem_of_nil in Hx.
Qed.

(** ** The sort *)

Section sorted.
Context {C : Type} (check : C → C * result unit) (R : Error → Prop) (maximum top : Z).
Context (check_ok : ∀ c, wp (check c).2 (λ _, True) R).
(** The quota never has to hold more than [top]. *)
Context (small : maximum ≤ u64_max) (full : maximum < top → R (limit "history_disk")).

(** The files, the octets charged to the quota and whether the directory of runs exists. *)
Definition at_disk (F : gmap Path (list Z)) (u : Z) (b : bool) (s : Disk * C) : Prop :=
  k_files s.1 = F ∧ q_used (k_quota s.1) = u ∧ q_maximum (k_quota s.1) = maximum ∧ k_sort_dir s.1 = b.
Abbreviation runs m s Q := (swp m s Q (λ _, R)).

Lemma checked_spec F u b s : at_disk F u b s → runs (checked check) s (λ s' _, at_disk F u b s').
Proof.
  intros H. unfold swp, checked. specialize (check_ok s.2). destruct (check s.2) as [c r]. simpl in *.
  by destruct r.
Qed.

Lemma check_if_spec (t : bool) F u b s :
  at_disk F u b s → runs (if t then checked check else mret ()) s (λ s' _, at_disk F u b s').
Proof. intros H. destruct t; [by apply checked_spec|by apply swp_ret]. Qed.

Lemma open_file_spec p x F u b s (Q : Disk * C → Decoder → Prop) :
  at_disk F u b s → F !! p = Some x → (at_disk F u b s → Q s (decoder_new x)) → runs (open_file no_file p) s Q.
Proof. intros H Hx HQ. unfold open_file. apply swp_bind, swp_get. destruct H as (<- & H). rewrite Hx. by apply swp_ret, HQ. Qed.

Lemma create_file_spec p F u b s :
  at_disk F u b s → F !! p = None → runs (create_file file_exists p) s (λ s' _, at_disk (<[p := []]> F) u b s').
Proof.
  intros (<- & Hu & Hm & Hb) Hp. unfold create_file, disk. apply swp_attempt. rewrite Hp. apply wp_bind, wp_ok, wp_ok.
  by split.
Qed.

Lemma write_row_spec p r x F u b s :
  at_disk F u b s → F !! p = Some x → row_valid r → u + WIDTH ≤ top →
  runs (write_row p r) s (λ s' _, at_disk (<[p := x ++ row_octets r]> F) (u + WIDTH) b s').
Proof.
  intros (<- & <- & Hm & Hb) Hp Hr Ht. unfold write_row, disk. apply swp_bind, swp_attempt. unfold charge.
  apply wp_bind, wp_bind, wp_bind, wp_ok_or; [|intros Ho%checked_add_None; apply full; lia].
  intros v [-> Hv]%checked_add_Some. case_match eqn:Hc; bool_facts; [apply full; lia|].
  apply wp_ok, wp_ok, swp_bind, swp_lift. rewrite row_encode_octets by apply Hr. apply wp_ok, swp_attempt, wp_bind, wp_ok, wp_ok.
  simpl. rewrite Hp. by split.
Qed.

Lemma remove_owned_spec p x F u b s :
  at_disk F u b s → F !! p = Some x → zlen x ≤ u →
  runs (remove_owned no_file p) s (λ s' _, at_disk (delete p F) (u - zlen x) b s').
Proof.
  intros H Hp Hu. unfold remove_owned, disk. apply swp_bind. eapply open_file_spec; [done|done|]. intros (<- & <- & Hm & Hb).
  apply swp_bind, swp_attempt. cbn [mbind res_bind wp]. apply swp_attempt, wp_bind, wp_bind. unfold release, checked_sub. simpl.
  rewrite (proj2 (Z.leb_le _ _)) by done. apply wp_ok. by split.
Qed.

Lemma read_from_spec f rs F u b s :
  at_disk F u b s → reads_rows f rs →
  runs (read_from f) s (λ s' x, at_disk F u b s' ∧
    match rs with [] => x = (f, None) | r :: rs => ∃ f', x = (f', Some r) ∧ reads_rows f' rs end).
Proof.
  intros H Hf. apply read_next in Hf. unfold swp in *. unfold read_from. destruct (read_row f) as [f' [o|e| |]]; simpl in *; try done.
  split; [done|]. destruct rs as [|r rs]; [by destruct Hf as [-> ->]|]. destruct Hf as [-> Hf]. by exists f'.
Qed.

(** Opening the runs of a group. *)
Definition run_ok (l : list Row) : Prop := Forall row_valid l ∧ StronglySorted row_le l.

Lemma open_runs_spec pass first g F u b s :
  at_disk F u b s → Forall run_ok g →
  (∀ i l, g !! i = Some l → F !! Run pass (first + Z.of_nat i) = Some (rows_octets l)) →
  runs (foldC (open_run no_file pass) ([], []) (seqZ first (zlen g))) s
    (λ s' x, at_disk F u b s' ∧ ∃ rests, Forall2 reads_rows x.1 rests ∧ merging (concat g) [] x.2 rests).
Proof.
  intros Hs Hg Hf.
  apply (swp_fold (λ pre s' x, at_disk F u b s' ∧ ∃ rests, Forall2 reads_rows x.1 rests ∧ zlen rests = zlen pre ∧
    merging (concat (firstn (length pre) g)) [] x.2 rests) _ _ _ []).
  - intros pre n post s1 [files heap] Heq (Hs1 & rests & Hr & Hz & Hm).
    assert (n = first + Z.of_nat (length pre) ∧ (length pre < length g)%nat) as [-> Hlt].
    { assert (seqZ first (zlen g) !! length pre = Some n) as H by (simpl in Heq; rewrite Heq; by apply list_lookup_middle).
      apply lookup_seqZ in H as [-> H]. split; [done|]. unfold zlen in H. lia. }
    destruct (lookup_lt_is_Some_2 g (length pre) Hlt) as [l Hl]. rewrite Forall_lookup in Hg. destruct (Hg _ _ Hl) as [Hv Hso].
    unfold open_run. apply swp_bind. eapply open_file_spec; [exact Hs1|by apply Hf|]. intros _.
    apply swp_bind. eapply swp_mono; [apply (read_from_spec _ l); [exact Hs1|by apply reads_all]| |done].
    intros s2 [f o] [Hs2 Ho]. cbn [fst snd] in *.
    rewrite length_app, Nat.add_1_r, (take_S_r _ _ _ Hl), concat_app. simpl. rewrite app_nil_r.
    pose proof (merging_open _ _ _ l Hm Hso) as Hm'. assert (zlen files = zlen rests) as Hfz by (unfold zlen; by rewrite (Forall2_length _ _ _ Hr)).
    destruct l as [|r l]; [injection Ho as -> ->|destruct Ho as (f' & [= -> ->] & Hf')]; apply swp_ret; (split; [done|]).
    + exists (rests ++ [[]]). split_and!; [apply Forall2_app; [done|constructor; [by apply (reads_all [])|done]]|by rewrite !zlen_app, Hz|done].
    + exists (rests ++ [l]). simpl. rewrite Hfz. split_and!; [apply Forall2_app; [done|by constructor]|by rewrite !zlen_app, Hz|done].
  - split; [done|]. exists []. split; [constructor|]. split; [done|]. constructor; simpl; try done; try constructor;
      [by intros ? ? ?%not_elem_of_nil|by intros ? ? [_ ?]%get_Some|by intros ? ? ?%not_elem_of_nil].
  - intros s' x (Hs' & rests & Hr & Hz & Hm). split; [done|]. exists rests. split; [done|].
    by rewrite firstn_all2 in Hm by (simpl; rewrite length_seqZ; unfold zlen; lia).
Qed.

(** The merge of a group. *)
Definition merge_inv (p : Path) all F u b (x : list Decoder * Heap * Z) (s : Disk * C) : Prop :=
  ∃ out rests, at_disk (<[p := rows_octets out]> F) (u + WIDTH * zlen out) b s ∧
    Forall2 reads_rows x.1.1 rests ∧ merging all out x.1.2 rests ∧ x.2 = zlen out.

Lemma merging_left all out heap rests : merging all out heap rests → zlen out + zlen heap ≤ zlen all.
Proof.
  intros H. pose proof (Permutation_length (mg_perm _ _ _ _ H)) as Hl. rewrite !length_app, length_fmap in Hl.
  unfold zlen. lia.
Qed.

Lemma merge_step_spec p all F u b x s :
  merge_inv p all F u b x s → Forall row_valid all → u + WIDTH * zlen all ≤ top → zlen all ≤ i64_max →
  runs (merge_step check p x) s (λ s' r,
    match r with
    | Continue x' => merge_inv p all F u b x' s' ∧ 0 ≤ zlen all - x'.2 < zlen all - x.2
    | Break _ => at_disk (<[p := rows_octets (sort all)]> F) (u + WIDTH * zlen all) b s'
    end).
Proof.
  destruct x as [[files heap] merged]. intros (out & rests & Hs & Hr & Hm & Hx) Hv Hu Hall. cbn [fst snd] in *. subst merged.
  pose proof (merging_left _ _ _ _ Hm) as Hle. unfold merge_step. destruct heap as [|[r i] heap].
  - apply swp_ret. pose proof (merging_done _ _ _ Hm) as ->. assert (zlen (sort all) = zlen all) as Hz
      by (unfold zlen; by rewrite (Permutation_length (sort_perm all))). by rewrite Hz in Hs.
  - rewrite zlen_cons in Hle. pose proof (zlen_nonneg heap). apply swp_bind.
    eapply swp_mono; [apply (check_if_spec _ _ _ _ s Hs)| |done]. intros s1 [] Hs1. apply swp_bind, swp_lift.
    rewrite add_ovf_ok by lia. apply wp_ok, swp_bind.
    assert (row_valid r) as Hrv.
    { rewrite Forall_forall in Hv. apply Hv. rewrite <- (mg_perm _ _ _ _ Hm). simpl. set_solver. }
    eapply swp_mono; [eapply (write_row_spec p r _ _ _ b s1 Hs1); [apply lookup_insert_eq|done|unfold WIDTH in *; lia]| |done].
    intros s2 [] Hs2. destruct (merging_pop _ _ _ _ _ _ Hm) as (l & Hl & Hm').
    pose proof Hl as [Hi Hli]%get_Some. destruct (Forall2_lookup_r _ _ _ _ _ Hr Hli) as (f & Hf & Hfl).
    apply swp_bind, swp_lift, (index_get _ _ f); [by apply get_Some|].
    apply swp_bind. eapply swp_mono; [by apply (read_from_spec f l _ _ _ s2 Hs2)| |done].
    intros s3 [f' o] [Hs3 Ho]. rewrite insert_insert_eq in Hs3.
    replace (rows_octets out ++ row_octets r) with (rows_octets (out ++ [r])) in Hs3
      by (rewrite rows_octets_app; unfold rows_octets; simpl; by rewrite app_nil_r).
    assert (zlen (out ++ [r]) = zlen out + 1) as Hz by (rewrite zlen_app, zlen_cons, zlen_nil; lia).
    replace (u + WIDTH * zlen out + WIDTH) with (u + WIDTH * zlen (out ++ [r])) in Hs3 by lia.
    destruct l as [|n l]; [injection Ho as -> ->|destruct Ho as (g & [= -> ->] & Hg)]; apply swp_ret; (split; [|simpl; lia]).
    + exists (out ++ [r]), rests. split; [done|]. split; [|done]. simpl. by rewrite list_insert_id.
    + exists (out ++ [r]), (<[Z.to_nat i := l]> rests). split; [done|]. split; [|done]. simpl. by apply Forall2_insert.
Qed.

Lemma merge_spec p all files heap rests F u b fuel s :
  at_disk F u b s → F !! p = Some [] → Forall2 reads_rows files rests → merging all [] heap rests →
  Forall row_valid all → u + WIDTH * zlen all ≤ top → zlen all ≤ i64_max → zlen all < Z.of_nat fuel →
  runs (loopC fuel (merge_step check p) (files, heap, 0)) s
    (λ s' _, at_disk (<[p := rows_octets (sort all)]> F) (u + WIDTH * zlen all) b s').
Proof.
  intros Hs Hp Hr Hm Hv Hu Hall Hf. eapply (swp_loop (merge_inv p all F u b) (λ x, zlen all - x.2)).
  - intros x s1 Hx. eapply swp_mono; [by apply merge_step_spec| |done]. by intros s2 [x'|[]].
  - exists [], rests. simpl. rewrite insert_id by done. change (zlen []) with 0. by rewrite Z.mul_0_r, Z.add_0_r.
  - simpl. pose proof (zlen_nonneg all). lia.
Qed.

(** The runs that were merged are removed. *)
Definition in_runs (pass first n : Z) (x : Path) : bool :=
  match x with Run q k => (q =? pass) && (first <=? k) && (k <? first + n) | _ => false end.

Lemma zlen_concat_take {A} (g : list (list A)) i l :
  g !! i = Some l → zlen (concat (firstn (S i) g)) = zlen (concat (firstn i g)) + zlen l ∧ 
  zlen (concat (firstn i g)) + zlen l ≤ zlen (concat g).
Proof.
  intros H. rewrite (take_S_r _ _ _ H), concat_app, zlen_app. simpl. rewrite app_nil_r. split; [done|].
  rewrite <- (firstn_skipn (S i) g) at 2. rewrite concat_app, zlen_app, (take_S_r _ _ _ H), concat_app, zlen_app.
  simpl. rewrite app_nil_r. pose proof (zlen_nonneg (concat (skipn (S i) g))). lia.
Qed.

Lemma remove_runs_spec pass first g F u b s :
  at_disk F u b s → Forall run_ok g → WIDTH * zlen (concat g) ≤ u →
  (∀ i l, g !! i = Some l → F !! Run pass (first + Z.of_nat i) = Some (rows_octets l)) →
  runs (foldC (λ _ n, remove_owned no_file (Run pass n)) () (seqZ first (zlen g))) s
    (λ s' _, ∃ F', at_disk F' (u - WIDTH * zlen (concat g)) b s' ∧
       ∀ x, F' !! x = if in_runs pass first (zlen g) x then None else F !! x).
Proof.
  intros Hs Hg Hu Hf.
  apply (swp_fold (λ pre s' (_ : unit), ∃ F', at_disk F' (u - WIDTH * zlen (concat (firstn (length pre) g))) b s' ∧
       ∀ x, F' !! x = if in_runs pass first (zlen pre) x then None else F !! x) _ _ _ []).
  - intros pre n post s1 [] Heq (F' & Hs1 & HF). simpl in Heq.
    assert (n = first + Z.of_nat (length pre) ∧ (length pre < length g)%nat) as [-> Hlt].
    { assert (seqZ first (zlen g) !! length pre = Some n) as H by (rewrite Heq; by apply list_lookup_middle).
      apply lookup_seqZ in H as [-> H]. split; [done|]. unfold zlen in H. lia. }
    destruct (lookup_lt_is_Some_2 g (length pre) Hlt) as [l Hl]. rewrite Forall_lookup in Hg. destruct (Hg _ _ Hl) as [Hv _].
    pose proof (zlen_concat_take g _ l Hl) as [Hz Hzl]. pose proof (zlen_rows_octets l Hv) as Hlen.
    eapply swp_mono; [apply (remove_owned_spec _ (rows_octets l) _ _ _ s1 Hs1); [|unfold WIDTH in *; lia]| |done].
    + rewrite HF, <- (Hf _ _ Hl). unfold in_runs. rewrite Z.eqb_refl.
      rewrite (proj2 (Z.ltb_ge _ (first + zlen pre))) by (unfold zlen; lia). by rewrite andb_false_r.
    + intros s2 [] Hs2. eexists. split.
      * rewrite length_app, Nat.add_1_r, Hz, Z.mul_add_distr_l, Z.sub_add_distr, <- Hlen. exact Hs2.
      * intros x. rewrite lookup_delete, HF, zlen_app. change (zlen [_]) with 1. case_decide as Hx.
        -- subst x. unfold in_runs. rewrite Z.eqb_refl, (proj2 (Z.leb_le _ _)), (proj2 (Z.ltb_lt _ _)) by (unfold zlen; lia). done.
        -- destruct x as [| |q k]; try done. unfold in_runs. destruct (Z.eqb_spec q pass); [|done].
           subst q. destruct (Z.leb_spec first k); [|done]. simpl. assert (k ≠ first + zlen pre) by (intros ->; by apply Hx).
           destruct (Z.ltb_spec k (first + zlen pre)), (Z.ltb_spec k (first + (zlen pre + 1))); done || lia.
  - exists F. split; [by replace (u - WIDTH * _) with u by (simpl; change (zlen (@nil Row)) with 0; lia)|]. intros [| |q k]; try done. unfold in_runs.
    change (zlen (@nil Z)) with 0. destruct (Z.leb_spec first k), (Z.ltb_spec k (first + 0)); rewrite ?andb_false_r; done || lia.
  - intros s' [] (F' & Hs' & HF). exists F'.
    assert (length ([] ++ seqZ first (zlen g)) = length g) as Hlen by (simpl; rewrite length_seqZ; unfold zlen; lia).
    rewrite Hlen, firstn_all in Hs'. split; [done|]. intros x. rewrite HF.
    by replace (zlen ([] ++ seqZ first (zlen g))) with (zlen g) by (unfold zlen at 2; rewrite Hlen; done).
Qed.

(** The files of a pass: the runs from number [first] on of [g], and what was merged so far. *)
Definition shape (pass first : Z) (g done : list (list Row)) (F : gmap Path (list Z)) : Prop :=
  ∀ x, F !! x = match x with
                | Run q n => if q =? pass then (if first <=? n then rows_octets <$> get g n else None)
                             else if q =? pass + 1 then rows_octets <$> get done n else None
                | _ => None
                end.

Lemma zlen_concat_perm {A} (g g' : list (list A)) : concat g ≡ₚ concat g' → zlen (concat g) = zlen (concat g').
Proof. intros H. unfold zlen. by rewrite (Permutation_length H). Qed.

Lemma runs_valid g : Forall run_ok g → Forall row_valid (concat g).
Proof. intros H. apply Forall_concat. eapply Forall_impl; [exact H|]. by intros l []. Qed.

Lemma concat_sub {A} (g : list (list A)) a b :
  0 ≤ a ≤ b → b ≤ zlen g →
  concat (firstn (Z.to_nat b) g) = concat (firstn (Z.to_nat a) g) ++ concat (sub g a b) ∧ zlen (concat (sub g a b)) ≤ zlen (concat g).
Proof.
  intros Ha Hb. pose proof (sub_split g 0 a b ltac:(lia) ltac:(lia)) as Hs. unfold sub in Hs at 1 2. rewrite !skipn_0, !Z.sub_0_r in Hs.
  rewrite Hs, concat_app by lia. split; [done|]. rewrite <- (sub_full g) at 2. rewrite (sub_split g 0 a (zlen g)), (sub_split g a b (zlen g)) by lia.
  rewrite !concat_app, !zlen_app. pose proof (zlen_nonneg (concat (sub g 0 a))). pose proof (zlen_nonneg (concat (sub g b (zlen g)))). lia.
Qed.

Definition group_inv (pass fan_in : Z) (g : list (list Row)) u b (x : Z * Z) (s : Disk * C) : Prop :=
  ∃ F done, at_disk F u b s ∧ shape pass x.1 g done F ∧ x.1 = Z.min (zlen g) (fan_in * x.2) ∧ x.2 = zlen done ∧
    (0 < x.2 → fan_in * (x.2 - 1) < zlen g) ∧ Forall run_ok done ∧ concat done ≡ₚ concat (firstn (Z.to_nat x.1) g).

(** One more merge: the group is read, its merge is written, its runs are removed. *)
Lemma shape_merged pass first stop g done l F F2 F' :
  shape pass first g done F → 0 ≤ first ≤ stop →
  F2 = <[Run (pass + 1) (zlen done) := rows_octets l]> F →
  (∀ x, F' !! x = if in_runs pass first (stop - first) x then None else F2 !! x) →
  shape pass stop g (done ++ [l]) F'.
Proof.
  intros HF Hst -> HF' x. rewrite HF'. destruct x as [| |q k]; [by rewrite lookup_insert_ne, HF by done..|]. unfold in_runs.
  rewrite lookup_insert. destruct (Z.eqb_spec q pass) as [->|Hq]; simpl.
  - rewrite decide_False by (intros [=]; lia). rewrite HF, Z.eqb_refl.
    destruct (Z.leb_spec first k), (Z.leb_spec stop k), (Z.ltb_spec k (first + (stop - first))); done || lia.
  - rewrite HF, (proj2 (Z.eqb_neq _ _) Hq). case_decide as Hx.
    + injection Hx as <- <-. by rewrite Z.eqb_refl, get_snoc.
    + destruct (Z.eqb_spec q (pass + 1)) as [->|]; [|done]. assert (k ≠ zlen done) by congruence. f_equal.
      unfold get. destruct (Z.leb_spec 0 k); [|done]. destruct (decide (k < zlen done)).
      * symmetry. apply lookup_app_l. unfold zlen in *. lia.
      * rewrite !lookup_ge_None_2; [done|rewrite length_app; simpl|]; unfold zlen in *; lia.
Qed.

Lemma group_step_spec pass fan_in g u b fuel x s :
  group_inv pass fan_in g u b x s → Forall run_ok g → 0 ≤ pass < u64_max → 2 ≤ fan_in ≤ 64 → zlen g ≤ i64_max →
  WIDTH * zlen (concat g) ≤ u → u + WIDTH * zlen (concat g) ≤ top → zlen (concat g) ≤ i64_max →
  zlen (concat g) < Z.of_nat fuel →
  runs (group_step no_file file_exists check fuel pass fan_in (zlen g) x) s (λ s' r,
    match r with
    | Continue x' => group_inv pass fan_in g u b x' s' ∧ 0 ≤ zlen g - x'.1 < zlen g - x.1
    | Break n => x.1 = zlen g ∧ n = x.2 ∧ group_inv pass fan_in g u b x s'
    end).
Proof.
  destruct x as [first next]. intros (F & done & Hs & HF & Hfirst & Hnext & Hlast & Hok & Hp) Hg Hpass Hfan Hgl Hu Htop Hall Hfuel.
  cbn [fst snd] in *. pose proof (zlen_nonneg done). pose proof (zlen_nonneg g). unfold group_step.
  apply swp_if; intros Hc; bool_facts; [|apply swp_ret; split; [nia|]; split; [done|]; by exists F, done].
  apply swp_bind. eapply swp_mono; [by apply checked_spec| |done]. intros s1 [] Hs1.
  apply swp_bind, swp_lift. rewrite add_ovf_ok by lia. apply wp_ok. set (stop := Z.min (zlen g) (first + fan_in)).
  assert (0 ≤ first < stop ∧ stop ≤ zlen g) as [Hst Hstg] by nia. pose proof (concat_sub g first stop ltac:(lia) Hstg) as [Hcat Hle].
  assert (zlen (sub g first stop) = stop - first) as Hz by (rewrite zlen_sub; lia). rewrite <- Hz.
  assert (Forall run_ok (sub g first stop)) as Hgg by by apply Forall_sub.
  assert (∀ i l, sub g first stop !! i = Some l → F !! Run pass (first + Z.of_nat i) = Some (rows_octets l)) as HFg.
  { intros i l Hl. rewrite HF, Z.eqb_refl, (proj2 (Z.leb_le _ _)) by lia. pose proof (lookup_lt_Some _ _ _ Hl) as Hi.
    rewrite lookup_sub in Hl by (unfold zlen in Hz; lia). apply fmap_Some. exists l. split; [|done]. apply get_Some. split; [lia|].
    by replace (Z.to_nat (first + Z.of_nat i)) with (Z.to_nat first + i)%nat by lia. }
  apply swp_bind. eapply swp_mono; [by apply (open_runs_spec pass first _ F u b s1)| |done].
  intros s2 [files heap] (Hs2 & rests & Hr & Hm). cbn [fst snd] in *.
  apply swp_bind, swp_lift. rewrite add_ovf_ok by lia. apply wp_ok, swp_bind.
  eapply swp_mono; [apply (create_file_spec _ _ _ _ s2 Hs2)| |done].
  { rewrite HF, (proj2 (Z.eqb_neq _ _)), Z.eqb_refl by lia. apply fmap_None, get_None; lia. }
  intros s3 [] Hs3. apply swp_bind. eapply swp_mono; [eapply merge_spec; try done; [apply lookup_insert_eq|by apply runs_valid|unfold WIDTH in *; lia..]| |done].
  intros s4 [] Hs4. rewrite insert_insert_eq in Hs4. apply swp_bind.
  eapply swp_mono; [apply (remove_runs_spec pass first _ _ _ b s4 Hs4 Hgg)| |done].
  { pose proof (zlen_nonneg (concat g)). unfold WIDTH in *. lia. }
  { intros i l Hl. rewrite lookup_insert_ne by (intros [=]; lia). by apply HFg. }
  intros s5 [] (F' & Hs5 & HF'). apply swp_bind, swp_lift. rewrite add_ovf_ok by nia. apply wp_ok, swp_ret. split; [|simpl; lia].
  rewrite Z.add_simpl_r in Hs5. exists F', (done ++ [sort (concat (sub g first stop))]). cbn [fst snd].
  split; [exact Hs5|]. split; [eapply shape_merged; [done|lia|by rewrite <- Hnext|by rewrite <- Hz]|].
  split; [nia|]. split; [rewrite zlen_app, Hnext; done|]. split; [intros _; replace (next + 1 - 1) with next by lia; nia|]. split.
  - apply Forall_app. split; [done|]. apply Forall_singleton. split; [|apply sort_sorted]. rewrite sort_perm. by apply runs_valid.
  - rewrite concat_app, Hcat, Hp. simpl. by rewrite app_nil_r, sort_perm.
Qed.

(** The passes end with one run. *)
Definition pass_inv (rows : list Row) N u b (x : Z * Z) (s : Disk * C) : Prop :=
  ∃ F g, at_disk F u b s ∧ shape x.1 0 g [] F ∧ x.2 = zlen g ∧ Forall run_ok g ∧ concat g ≡ₚ rows ∧
    0 ≤ x.1 ∧ x.1 + x.2 ≤ N ∧ 1 ≤ x.2.

Lemma shape_next pass g done F : shape pass (zlen g) g done F → shape (pass + 1) 0 done [] F.
Proof.
  intros HF x. rewrite HF. destruct x as [| |q k]; [done|done|].
  destruct (Z.eqb_spec q pass), (Z.eqb_spec q (pass + 1)), (Z.eqb_spec q (pass + 1 + 1)); try lia; try done.
  - destruct (Z.leb_spec (zlen g) k); [|done]. pose proof (zlen_nonneg g). by rewrite (proj2 (get_None g k ltac:(lia))).
  - unfold get. by destruct (0 <=? k).
  - unfold get. by destruct (0 <=? k).
Qed.

Lemma pass_step_spec fuel fan_in rows N u b x s :
  pass_inv rows N u b x s → 2 ≤ fan_in ≤ 64 → N ≤ i64_max → WIDTH * zlen rows ≤ u → u + WIDTH * zlen rows ≤ top →
  zlen rows ≤ i64_max → zlen rows < Z.of_nat fuel →
  runs (pass_step no_file file_exists check fuel fan_in x) s (λ s' r,
    match r with
    | Continue x' => pass_inv rows N u b x' s' ∧ 0 ≤ x'.2 < x.2
    | Break pass => at_disk {[Run pass 0 := rows_octets (sort rows)]} u b s'
    end).
Proof.
  destruct x as [pass count]. intros (F & g & Hs & HF & Hc & Hok & Hp & H0 & HN & H1) Hfan HNl Hu Htop Hrl Hfuel.
  cbn [fst snd] in *. subst count. assert (zlen (concat g) = zlen rows) as Hz by (unfold zlen; by rewrite (Permutation_length Hp)).
  unfold pass_step. apply swp_if; intros Hc; bool_facts.
  - apply swp_bind. eapply swp_mono; [apply (swp_loop (group_inv pass fan_in g u b) (λ x, zlen g - x.1)
      (λ _, R) _ (λ s' n, ∃ x, x.1 = zlen g ∧ n = x.2 ∧ group_inv pass fan_in g u b x s'))| |done].
    + intros x s1 Hx. eapply swp_mono; [apply group_step_spec; try done; lia| |done].
      intros s2 [x'|n]; [done|]. intros H. by exists x.
    + exists F, []. cbn [fst snd]. change (zlen []) with 0. split; [done|]. split; [done|]. split; [lia|]. split; [done|].
      split; [lia|]. split; [constructor|done].
    + cbn [fst]. lia.
    + cbv beta. intros s1 n ([first next] & Hfirst & -> & F' & done & Hs' & HF' & Hmin & Hn & Hlast & Hdone & Hpd).
      cbn [fst snd] in *. apply swp_bind, swp_lift. rewrite add_ovf_ok by lia. apply wp_ok, swp_ret. subst first.
      assert (1 ≤ next < zlen g) by (pose proof (zlen_nonneg done); nia).
      split; [|cbn [snd]; lia]. exists F', done. cbn [fst snd]. split; [done|]. split; [by apply shape_next in HF'|].
      split; [done|]. split; [done|]. split; [|lia]. rewrite Hpd, <- Hp. unfold zlen. by rewrite Nat2Z.id, firstn_all.
  - apply swp_ret. destruct g as [|l [|l' g]]; rewrite ?zlen_cons, ?zlen_nil in *;
      [lia| |pose proof (zlen_nonneg g); lia]. simpl in Hp. rewrite app_nil_r in Hp. apply Forall_singleton in Hok as [Hv Hso].
    assert (F = {[Run pass 0 := rows_octets (sort rows)]}) as <-; [|done]. rewrite <- (sort_unique _ _ Hso Hp).
    apply map_eq. intros x. rewrite HF. rewrite lookup_singleton. destruct x as [| |q k]; [done..|].
    destruct (Z.eqb_spec q pass) as [->|]; [|rewrite decide_False by congruence; destruct (q =? pass + 1); [unfold get; by destruct (0 <=? k)|done]].
    unfold get. destruct (Z.leb_spec 0 k); [|by rewrite decide_False by (intros [=]; lia)].
    destruct (decide (k = 0)) as [->|]; [by rewrite decide_True by done|]. rewrite decide_False by congruence.
    by replace (Z.to_nat k) with (S (Z.to_nat (k - 1))) by lia.
Qed.

(** The chunks of the input [input]. *)
Lemma row_between rows n :
  Forall row_valid rows → 0 ≤ n < zlen rows →
  ∃ r, row_valid r ∧ sub (rows_octets rows) (WIDTH * n) (WIDTH * n + WIDTH) = row_octets r ∧
       WIDTH * n + WIDTH ≤ zlen (rows_octets rows) ∧ get rows n = Some r.
Proof.
  intros Hv Hn. destruct (lookup_lt_is_Some_2 rows (Z.to_nat n)) as [r Hr]; [unfold zlen in Hn; lia|]. exists r.
  rewrite Forall_lookup in Hv. split; [by eapply Hv|]. pose proof (take_drop_middle _ _ _ Hr) as Heq.
  assert (Forall row_valid rows) as Hall by by apply Forall_lookup. pose proof (zlen_rows_octets _ Hall) as Hl.
  rewrite <- Heq in Hall. pose proof (row_ahead _ _ _ Hall) as Hra. rewrite Heq in Hra.
  assert (zlen (firstn (Z.to_nat n) rows) = n) as Hz by (unfold zlen in *; rewrite length_firstn; lia). rewrite Hz in Hra.
  split; [done|]. split; [unfold WIDTH in *; lia|]. apply get_Some. split; [lia|done].
Qed.

Section chunks.
Context (input : list Z) (input_ok : bytes_ok input) (input_len : zlen input ≤ i64_max).
Context (malformed : (∀ rs, Forall row_valid rs → input ≠ rows_octets rs) → ∀ e, R e).

Definition scanned (f : Decoder) (rs : list Row) : Prop :=
  d_bytes f = input ∧ Forall row_valid rs ∧ d_at f = WIDTH * zlen rs ∧ d_at f ≤ zlen input ∧ sub input 0 (d_at f) = rows_octets rs.

Lemma read_scanned f rs F u b s :
  at_disk F u b s → scanned f rs →
  runs (read_from f) s (λ s' x, at_disk F u b s' ∧
    match x with (f', None) => f' = f ∧ input = rows_octets rs | (f', Some r) => row_valid r ∧ scanned f' (rs ++ [r]) end).
Proof.
  intros Hs (Hb & Hv & Hat & Hle & Hsub). pose proof (zlen_nonneg rs).
  assert (0 ≤ d_at f ≤ zlen (d_bytes f)) as Hpos by (rewrite Hb; unfold WIDTH in *; lia).
  pose proof (read_row_spec f Hpos ltac:(by rewrite Hb)) as Hr.
  unfold swp in *. unfold read_from. rewrite Hb in Hr. destruct (read_row f) as [f' [[r|]|e| |]]; simpl in *; try done.
  - destruct Hr as (Hl & -> & Hrv & Hrs). split; [done|]. split; [done|]. split; [done|]. simpl. split; [apply Forall_app_2; [done|by constructor]|].
    rewrite zlen_app, zlen_cons, zlen_nil. split; [unfold WIDTH in *; lia|]. split; [lia|].
    rewrite (sub_split _ 0 (d_at f)) by (unfold WIDTH in *; lia). rewrite Hsub, Hrs, rows_octets_app. unfold rows_octets at 3. simpl.
    by rewrite app_nil_r.
  - destruct Hr as [Hend ->]. split; [done|]. split; [done|]. by rewrite Hend, sub_full in Hsub.
  - destruct Hr as [Hlt Hno]. apply malformed. intros rows Hrows ->. pose proof (zlen_rows_octets _ Hrows) as Hlr.
    destruct (row_between rows (zlen rs)) as (r & Hr & Hrs & Hw & _); [done|unfold WIDTH in *; lia|].
    apply (Hno r Hr). rewrite Z.min_l, Hat by lia. exact Hrs.
Qed.

Lemma chunk_spec entries F u b fuel source rs s :
  at_disk F u b s → scanned source rs → 2 ≤ entries → zlen input < Z.of_nat fuel →
  runs (loopC fuel (chunk_row check entries) (source, [])) s (λ s' x, at_disk F u b s' ∧
    scanned x.1 (rs ++ x.2) ∧ Forall row_valid x.2 ∧ (x.2 = [] → input = rows_octets rs)).
Proof.
  intros Hs Hsc He Hfuel.
  eapply (swp_loop (λ x s, at_disk F u b s ∧ scanned x.1 (rs ++ x.2)) (λ x, zlen input - d_at x.1)).
  - intros [f chunk] s1 (Hs1 & Hsc1). cbn [fst snd] in *. unfold chunk_row.
    pose proof Hsc1 as (Hb & Hv & Hat & Hle & Hsub). apply swp_if; intros Hc; bool_facts.
    + apply swp_bind. eapply swp_mono; [by apply check_if_spec| |done]. intros s2 [] Hs2.
      apply swp_bind. eapply swp_mono; [by apply (read_scanned f (rs ++ chunk))| |done].
      intros s3 [f' [r|]] [Hs3 Hx]; apply swp_ret; cbn [fst snd].
      * destruct Hx as [Hr Hsc']. pose proof Hsc' as (_ & _ & Hat' & Hle' & _).
        rewrite app_assoc. split; [done|]. rewrite zlen_app, zlen_cons, zlen_nil in Hat'. unfold WIDTH in *. lia.
      * destruct Hx as [-> Hin]. split; [done|]. split; [done|]. apply Forall_app in Hv as [_ Hv]. split; [done|].
        intros ->. by rewrite app_nil_r in Hin.
    + apply swp_ret. split; [done|]. split; [done|]. apply Forall_app in Hv as [_ Hv]. split; [done|].
      cbn [snd]. intros ->. rewrite zlen_nil in Hc. lia.
  - cbn [fst snd]. by rewrite app_nil_r.
  - destruct Hsc as (_ & _ & Hat & Hle & _). pose proof (zlen_nonneg rs). unfold WIDTH in *. cbn [fst]. lia.
Qed.

Lemma count_rows_spec p l F u b total s :
  at_disk F u b s → F !! p = Some [] → Forall row_valid l → u + WIDTH * zlen l ≤ top → total + zlen l ≤ u64_max →
  runs (foldC (count_row p) total l) s (λ s' t, at_disk (<[p := rows_octets l]> F) (u + WIDTH * zlen l) b s' ∧ t = total + zlen l).
Proof.
  intros Hs Hp Hv Ht Htot.
  apply (swp_fold (λ pre s' t, at_disk (<[p := rows_octets pre]> F) (u + WIDTH * zlen pre) b s' ∧ t = total + zlen pre) _ _ _ []).
  - intros pre r post s1 t Heq [Hs1 ->]. simpl in Heq. subst l. apply Forall_app in Hv as [Hv [Hr Hv']%Forall_cons].
    rewrite !zlen_app, !zlen_cons in *. pose proof (zlen_nonneg pre). pose proof (zlen_nonneg post). unfold count_row.
    apply swp_bind. eapply swp_mono; [eapply (write_row_spec p r _ _ _ b s1 Hs1); [apply lookup_insert_eq|done|unfold WIDTH in *; lia]| |done].
    intros s2 [] Hs2. apply swp_lift. unfold checked_add. rewrite (proj2 (Z.leb_le _ _)) by lia. apply wp_ok.
    rewrite insert_insert_eq in Hs2. rewrite zlen_nil, rows_octets_app. split; [|lia]. unfold rows_octets at 2. simpl. rewrite app_nil_r.
    by replace (u + WIDTH * (zlen pre + (1 + 0))) with (u + WIDTH * zlen pre + WIDTH) by lia.
  - simpl. rewrite insert_id by done. change (zlen []) with 0. by rewrite Z.mul_0_r, !Z.add_0_r.
  - intros s' t H. exact H.
Qed.

Definition chunk_inv u b (x : Decoder * Z * Z) (s : Disk * C) : Prop :=
  ∃ F g rs, at_disk (<[Raw := input]> F) (u + WIDTH * zlen rs) b s ∧ scanned x.1.1 rs ∧ shape 0 0 g [] F ∧
    Forall run_ok g ∧ concat g ≡ₚ rs ∧ x.1.2 = zlen g ∧ zlen g ≤ zlen rs ∧ x.2 = zlen rs.

Lemma shape_chunk g l F : shape 0 0 g [] F → shape 0 0 (g ++ [l]) [] (<[Run 0 (zlen g) := rows_octets l]> F).
Proof.
  intros HF x. rewrite lookup_insert. case_decide as Hx; [subst; by rewrite Z.eqb_refl, (proj2 (Z.leb_le _ _)), get_snoc by apply zlen_nonneg|].
  rewrite HF. destruct x as [| |q k]; try done. destruct (Z.eqb_spec q 0) as [->|]; [|done]. destruct (Z.leb_spec 0 k); [|done].
  f_equal. assert (k ≠ zlen g) by congruence. unfold get. rewrite (proj2 (Z.leb_le _ _)) by done. destruct (decide (k < zlen g)).
  - symmetry. apply lookup_app_l. unfold zlen in *. lia.
  - rewrite !lookup_ge_None_2; [done|rewrite length_app; simpl|]; unfold zlen in *; lia.
Qed.

Lemma chunk_step_spec entries u b fuel x s :
  chunk_inv u b x s → 2 ≤ entries → zlen input < Z.of_nat fuel → u + zlen input ≤ top →
  runs (chunk_step file_exists check fuel entries x) s (λ s' r,
    match r with
    | Continue x' => chunk_inv u b x' s' ∧ 0 ≤ zlen input - d_at x'.1.1 < zlen input - d_at x.1.1
    | Break y => y = (x.1.2, x.2) ∧ ∃ F g rs, at_disk (<[Raw := input]> F) (u + WIDTH * zlen rs) b s' ∧ shape 0 0 g [] F ∧
        Forall run_ok g ∧ concat g ≡ₚ rs ∧ x.1.2 = zlen g ∧ zlen g ≤ zlen rs ∧ x.2 = zlen rs ∧ Forall row_valid rs ∧ input = rows_octets rs
    end).
Proof.
  destruct x as [[source count] total]. intros (F & g & rs & Hs & Hsc & HF & Hok & Hp & Hc & Hgl & Ht) He Hfuel Htop. cbn [fst snd] in *.
  unfold chunk_step. apply swp_bind. eapply swp_mono; [by apply checked_spec| |done]. intros s1 [] Hs1.
  apply swp_bind. eapply swp_mono; [by eapply (chunk_spec entries _ _ b fuel source rs s1 Hs1)| |done].
  intros s2 [f chunk] (Hs2 & Hsc' & Hv & Hend). cbn [fst snd] in *. apply swp_if; intros H0.
  - apply swp_ret. split; [done|]. exists F, g, rs. apply Z.eqb_eq, zlen_0_nil in H0. split_and!; try done; [apply Hsc|by apply Hend].
  - apply Z.eqb_neq in H0. pose proof Hsc' as (Hb & Hvr & Hat & Hle & _). pose proof Hsc as (_ & _ & Hat0 & _). pose proof (zlen_nonneg chunk).
    rewrite zlen_app in Hat. pose proof (zlen_nonneg rs). pose proof (zlen_nonneg g).
    assert (zlen (sort chunk) = zlen chunk) as Hz by (unfold zlen; by rewrite (Permutation_length (sort_perm chunk))).
    assert (F !! Run 0 count = None) as Hnew
      by (rewrite HF, Z.eqb_refl; destruct (Z.leb_spec 0 count); [|done]; by rewrite (proj2 (get_None g count ltac:(lia))) by lia).
    apply swp_bind. eapply swp_mono; [apply (create_file_spec _ _ _ _ s2 Hs2); by rewrite lookup_insert_ne| |done].
    intros s3 [] Hs3. apply swp_bind. eapply swp_mono; [apply (count_rows_spec _ (sort chunk) _ _ _ _ s3 Hs3)| |done].
    + apply lookup_insert_eq.
    + by rewrite sort_perm.
    + unfold WIDTH in *. lia.
    + unfold WIDTH in *. lia.
    + intros s4 t [Hs4 ->]. apply swp_bind, swp_lift. rewrite add_ovf_ok by (unfold WIDTH in *; lia). apply wp_ok, swp_ret. cbn [fst snd].
      split; [|unfold WIDTH in *; lia]. exists (<[Run 0 count := rows_octets (sort chunk)]> F), (g ++ [sort chunk]), (rs ++ chunk). cbn [fst snd].
      rewrite insert_insert_eq, insert_insert_ne in Hs4 by done. rewrite !zlen_app, Hz, concat_app in *. change (zlen [sort chunk]) with 1.
      split; [by replace (u + WIDTH * (zlen rs + zlen chunk)) with (u + WIDTH * zlen rs + WIDTH * zlen chunk) by lia|].
      split; [done|]. split; [subst count; by apply shape_chunk|].
      split; [apply Forall_app_2; [done|constructor; [|constructor]; split; [by rewrite sort_perm|apply sort_sorted]]|].
      simpl. rewrite app_nil_r, Hp, sort_perm. split; [done|]. lia.
Qed.

Lemma chunks_spec entries u b fuel s :
  at_disk {[Raw := input]} u b s → 2 ≤ entries → zlen input < Z.of_nat fuel → u + zlen input ≤ top →
  runs (loopC fuel (chunk_step file_exists check fuel entries) (decoder_new input, 0, 0)) s (λ s' y, ∃ F g rs,
    at_disk (<[Raw := input]> F) (u + zlen input) b s' ∧ shape 0 0 g [] F ∧ Forall run_ok g ∧ concat g ≡ₚ rs ∧
    y = (zlen g, zlen rs) ∧ zlen g ≤ zlen rs ∧ Forall row_valid rs ∧ input = rows_octets rs).
Proof.
  intros Hs He Hfuel Htop. eapply (swp_loop (chunk_inv u b) (λ x, zlen input - d_at x.1.1)).
  - intros x s2 Hx. eapply swp_mono; [by apply (chunk_step_spec entries u b fuel x s2)| |done].
    intros s3 [x'|y]; [done|]. intros (-> & F & g & rs & Hs3 & HF & Hok & Hp & Hc & Hle & Ht & Hv & Hin).
    exists F, g, rs. rewrite Hc, Ht. rewrite Hin at 2. by rewrite (zlen_rows_octets _ Hv).
  - exists ∅, [], []. cbn [fst snd]. change (zlen []) with 0. rewrite Z.mul_0_r, Z.add_0_r. split; [done|].
    split; [split; [done|]; simpl; rewrite Z.mul_0_r; pose proof (zlen_nonneg input); by split_and!|].
    split; [|by split_and!]. intros [| |q n]; rewrite lookup_empty; try done. unfold get.
    destruct (q =? 0), (q =? 0 + 1), (0 <=? n); done.
  - simpl. pose proof (zlen_nonneg input). lia.
Qed.
End chunks.

Lemma passes_spec fuel fan_in rows g F u b s :
  at_disk F u b s → shape 0 0 g [] F → Forall run_ok g → concat g ≡ₚ rows → 1 ≤ zlen g ≤ zlen rows →
  2 ≤ fan_in ≤ 64 → WIDTH * zlen rows ≤ u → u + WIDTH * zlen rows ≤ top →
  zlen rows ≤ i64_max → zlen rows < Z.of_nat fuel →
  runs (loopC fuel (pass_step no_file file_exists check fuel fan_in) (0, zlen g)) s
    (λ s' pass, at_disk {[Run pass 0 := rows_octets (sort rows)]} u b s').
Proof.
  intros Hs HF Hok Hp Hg Hfan Hu Htop Hl Hfuel. eapply (swp_loop (pass_inv rows (zlen rows) u b) (λ x, x.2)).
  - intros x s1 Hx. eapply swp_mono; [by apply (pass_step_spec fuel fan_in rows (zlen rows))| |done]. by intros s2 [x'|pass].
  - exists F, g. cbn [fst snd]. by split_and!; try lia.
  - cbn [snd]. lia.
Qed.
End sorted.

Lemma create_dir_spec {C} R maximum F u (s : Disk * C) :
  at_disk maximum F u false s → swp (create_dir file_exists) s (λ s' _, at_disk maximum F u true s') (λ _, R).
Proof.
  intros (<- & <- & Hm & Hb). unfold create_dir, disk. apply swp_attempt. rewrite Hb. apply wp_bind, wp_ok, wp_ok. by split.
Qed.

Lemma remove_dir_spec {C} R maximum F u (s : Disk * C) :
  at_disk maximum F u true s → (∀ q n, F !! Run q n = None) →
  swp (remove_dir no_file file_exists) s (λ s' _, at_disk maximum F u false s') (λ _, R).
Proof.
  intros (<- & <- & Hm & Hb) Hno. unfold remove_dir, disk. apply swp_attempt. rewrite Hb. cbn [negb].
  destruct (existsb _ _) eqn:He; [exfalso|apply wp_bind, wp_ok, wp_ok; by split].
  apply existsb_exists in He as ([p x] & Hin%list_elem_of_In%elem_of_map_to_list & Hp). destruct p; try done. simpl in Hin.
  by rewrite Hno in Hin.
Qed.

Lemma rename_spec {C} R maximum p p' x F u b (s : Disk * C) :
  at_disk maximum F u b s → F !! p = Some x →
  swp (rename no_file p p') s (λ s' _, at_disk maximum (<[p' := x]> (delete p F)) u b s') (λ _, R).
Proof.
  intros (<- & <- & Hm & Hb) Hp. unfold rename, disk. apply swp_attempt. rewrite Hp. apply wp_bind, wp_ok, wp_ok. by split.
Qed.

(** C9: the external sort leaves in [ranges.idx] exactly the rows of [placements.raw] in
    order, the quota as it was and no other file, for every chunk size, fan-in and way to
    split reads.  It terminates without aborting, and fails only for budgets out of range,
    an interruption by the caller, an input that is not rows, or a quota smaller than what
    is used and the input once more. *)
Theorem sort_exact {C : Type} (check : C → C * result unit) (stop : Error → Prop) (entries fan_in maximum used : Z)
    (input : list Z) (s : Disk * C) :
  (∀ c, wp (check c).2 (λ _, True) stop) →
  bytes_ok input → zlen input ≤ i64_max → zlen input ≤ used → maximum ≤ u64_max →
  at_disk maximum {[Raw := input]} used false s →
  swp (sort_checked no_file file_exists check entries fan_in) s
    (λ s' total, ∃ rows, Forall row_valid rows ∧ input = rows_octets rows ∧ total = zlen rows ∧
       at_disk maximum {[Ranges := rows_octets (sort rows)]} used false s')
    (λ _ e, ¬ (2 ≤ entries ≤ 1000000 ∧ 2 ≤ fan_in ≤ 64) ∧ e = bad "history_sort" "invalid sort budgets" ∨
       e = limit "history_disk" ∧ maximum < used + zlen input ∨ stop e ∨
       ∀ rows, Forall row_valid rows → input ≠ rows_octets rows).
Proof.
  intros Hcheck Hb Hl Hu Hmax Hs. set (R e := _ ∧ e = bad _ _ ∨ _). unfold sort_checked.
  apply swp_if; intros Hc; [left; split; [|done]; unfold contains in Hc; lia|]. unfold contains in Hc. bool_facts.
  assert (∀ c, wp (check c).2 (λ _, True) R) as Hck by (intros c; eapply wp_mono; [apply Hcheck|done|]; intros e He; right; right; by left).
  assert (maximum < used + zlen input → R (limit "history_disk")) as Hfull by (intros Hx; right; by left).
  assert ((∀ rs, Forall row_valid rs → input ≠ rows_octets rs) → ∀ e, R e) as Hmal by (intros Hx e; by do 3 right).
  apply swp_bind. eapply (open_file_spec R maximum); [exact Hs|apply lookup_insert_eq|]. intros _.
  apply swp_bind. eapply swp_mono; [by apply (create_dir_spec R)| |done]. intros s1 [] Hs1. simpl d_bytes.
  set (fuel := S (S (length input))). assert (zlen input + 1 < Z.of_nat fuel) as Hfuel by (unfold fuel, zlen; lia). clearbody fuel.
  apply swp_bind. eapply swp_mono; [apply (chunks_spec check R maximum (used + zlen input) Hck Hmax Hfull input Hb Hl Hmal entries used true fuel s1 Hs1); lia| |done].
  intros s2 y (F & g & rs & Hs2 & HF & Hok & Hp & -> & Hle & Hv & Hin).
  assert (zlen input = WIDTH * zlen rs) as Hz by (rewrite Hin; by apply zlen_rows_octets).
  apply swp_bind. eapply swp_mono; [apply (remove_owned_spec R maximum _ input _ _ _ s2 Hs2); [apply lookup_insert_eq|pose proof (zlen_nonneg input); lia]| |done].
  intros s3 [] Hs3. rewrite Z.add_simpl_r, delete_insert_id in Hs3 by (by rewrite HF). cbv beta iota.
  apply swp_if; intros Hc0.
  - apply Z.eqb_eq, zlen_0_nil in Hc0. subst g. apply Permutation_nil in Hp. subst rs.
    apply swp_bind. eapply swp_mono; [apply (create_file_spec R maximum Ranges _ _ _ s3 Hs3); by rewrite HF| |done].
    intros s4 [] Hs4. apply swp_bind. eapply swp_mono; [apply (remove_dir_spec R maximum _ _ s4 Hs4)| |done].
    { intros q n. rewrite lookup_insert_ne, HF by done. unfold get. by destruct (q =? 0), (q =? 0 + 1), (0 <=? n). }
    intros s5 [] Hs5. apply swp_ret. exists []. split; [done|]. split; [done|]. split; [done|].
    assert (F = ∅) as ->; [|exact Hs5]. apply map_eq. intros x. rewrite HF, lookup_empty. destruct x as [| |q n]; try done.
    unfold get. by destruct (q =? 0), (q =? 0 + 1), (0 <=? n).
  - apply Z.eqb_neq in Hc0. pose proof (zlen_nonneg g).
    apply swp_bind. eapply swp_mono; [apply (passes_spec check R maximum (used + zlen input) Hck Hmax Hfull fuel fan_in rs g F _ _ s3 Hs3);
      done || unfold WIDTH in *; lia| |done].
    intros s4 pass Hs4. apply swp_bind. eapply swp_mono; [eapply (rename_spec R maximum _ Ranges _ _ _ _ s4 Hs4), lookup_singleton_eq| |done].
    intros s5 [] Hs5. rewrite delete_singleton_eq in Hs5. apply swp_bind.
    eapply swp_mono; [apply (remove_dir_spec R maximum _ _ s5 Hs5)| |done]; [by intros q n; rewrite lookup_insert_ne|].
    intros s6 [] Hs6. apply swp_ret. by exists rs.
Qed.

(** ** The search *)

Definition index_of (x : RangeIndex) (rows : list Row) : Prop :=
  d_bytes (i_file x) = rows_octets rows ∧ Forall row_valid rows ∧ i_count x = zlen rows ∧ WIDTH * zlen rows ≤ i64_max.

Lemma index_open_spec rows :
  Forall row_valid rows → WIDTH * zlen rows ≤ i64_max →
  ∃ x, index_open (rows_octets rows) = Ok x ∧ index_of x rows.
Proof.
  intros Hv Hl. unfold index_open. rewrite (zlen_rows_octets _ Hv), Z.mul_comm, Z_mod_mult, Z_div_mult by done.
  eexists. split; [done|]. by repeat split.
Qed.

Lemma row_at_spec n x rows :
  index_of x rows → 0 ≤ n →
  swp (row_at n) x (λ x' r, index_of x' rows ∧ get rows n = Some r) (λ x' e, x' = x ∧ zlen rows ≤ n ∧ e = bad "history_index" "entry outside index").
Proof.
  intros (Hb & Hv & Hc & Hl) Hn. unfold swp, row_at. rewrite Hc. destruct (Z.leb_spec (zlen rows) n); [done|].
  rewrite (proj2 (Z.ltb_ge _ _)) by (unfold WIDTH in *; lia). destruct (row_between rows n Hv ltac:(lia)) as (r & Hr & Hsub & Hle & Hg).
  pose proof (read_row_spec (at_pos (i_file x) (n * WIDTH))) as Hw. unfold swp, at_pos in Hw. simpl in Hw.
  rewrite Hb, (Z.mul_comm n) in *. specialize (Hw ltac:(unfold WIDTH in *; lia) ltac:(by apply rows_octets_ok)).
  destruct (read_row _) as [f [[r'|]|e| |]]; simpl in *; try done.
  - destruct Hw as (_ & -> & Hr' & Hrs). rewrite Hsub in Hrs. apply row_octets_inj in Hrs as ->; [|apply Hr|apply Hr']. by repeat split.
  - unfold WIDTH in *. lia.
  - destruct Hw as [_ Hno]. exfalso. apply (Hno r Hr). by rewrite Z.min_l by done.
Qed.

(** The keys a search compares are a prefix of the order of the rows. *)
(** The keys of a search, in order. *)
Definition search_key (r : Row) : list Z * (Z * Z) := (x_generation r, (x_direction r, x_start r)).
Lemma row_le_key r r' : row_le r r' → cmp (search_key r) (search_key r') ≠ Gt.
Proof.
  change (row_le r r') with (pair_cmp (row_key r) (row_key r') ≠ Gt). simpl. unfold pair_cmp, then_cmp. simpl.
  unfold pair_cmp, then_cmp. simpl.
  destruct (list_cmp _ _); [|done|done]. destruct (x_direction r ?= x_direction r'); [|done|done].
  unfold pair_cmp. simpl. by destruct (x_start r ?= x_start r').
Qed.
Lemma below_le r r' g d o : row_le r r' → below r' g d o = true → below r g d o = true.
Proof.
  intros Hle%row_le_key. unfold below. fold (search_key r) (search_key r'). intros Hb.
  destruct (cmp (search_key r') _) eqn:Hc; [done| |done].
  enough (lt_ord (search_key r) (g, (d, o))) as Hlt by (unfold lt_ord in Hlt; by rewrite Hlt).
  unfold lt_ord. destruct (cmp (search_key r) (search_key r')) eqn:He; [|by eapply cmp_trans|done].
  apply cmp_eq in He. by rewrite He.
Qed.

Lemma below_sorted rows g d o i j r r' :
  StronglySorted row_le rows → get rows i = Some r → get rows j = Some r' → i ≤ j →
  below r' g d o = true → below r g d o = true.
Proof.
  intros Hs [Hi Hr]%get_Some [Hj Hr']%get_Some Hij Hb. destruct (decide (i = j)) as [->|]; [congruence|].
  eapply below_le; [|exact Hb]. rewrite <- (take_drop_middle _ _ _ Hr) in Hs, Hr'.
  apply StronglySorted_app in Hs as (_ & _ & [_ Hall]%StronglySorted_inv). rewrite Forall_lookup in Hall.
  pose proof (lookup_lt_Some _ _ _ Hr) as Hlt. rewrite lookup_app_r in Hr' by (rewrite length_firstn; lia).
  rewrite length_firstn, Nat.min_l in Hr' by lia. replace (Z.to_nat j - Z.to_nat i)%nat with (S (Z.to_nat j - Z.to_nat i - 1)) in Hr' by lia.
  by apply (Hall _ _ Hr').
Qed.

Lemma bisect_spec g d o rows fuel lo hi x :
  index_of x rows → StronglySorted row_le rows → 0 ≤ lo ≤ hi → hi ≤ zlen rows → hi - lo < Z.of_nat fuel →
  (∀ i r, get rows i = Some r → i < lo → below r g d o = true) →
  (∀ i r, get rows i = Some r → hi ≤ i → below r g d o = false) →
  swp (bisect fuel g d o lo hi) x
    (λ x' n, index_of x' rows ∧ 0 ≤ n ≤ zlen rows ∧ ∀ i r, get rows i = Some r → below r g d o = bool_decide (i < n))
    (λ _ _, False).
Proof.
  intros Hx Hs. revert lo hi x Hx. induction fuel as [|fuel IH]; intros lo hi x Hx Hlo Hhi Hf Hbelow Habove; [lia|].
  cbn [bisect]. apply swp_if; intros Hc.
  - pose proof (Z.div_lt (hi - lo) 2 ltac:(lia) ltac:(lia)). pose proof (Z.div_pos (hi - lo) 2 ltac:(lia) ltac:(lia)).
    set (mid := lo + (hi - lo) `div` 2) in *. apply swp_bind. eapply swp_mono; [by apply (row_at_spec mid); [|lia]| |].
    + intros x' r [Hx' Hr]. apply swp_if; intros Hb; apply IH; try done; try lia; intros i r' Hr' Hi.
      * destruct (decide (i < lo)); [by eapply Hbelow|]. eapply (below_sorted rows g d o i mid); try done; lia.
      * destruct (below r' g d o) eqn:Hb'; [|done]. rewrite (below_sorted rows g d o mid i r r') in Hb; done || lia.
    + intros _ e (_ & Hle & _). lia.
  - apply swp_ret. split; [done|]. split; [lia|]. intros i r Hr. case_bool_decide; [by eapply Hbelow|]. apply (Habove i r Hr). lia.
Qed.

Lemma lower_bound_spec x rows generation direction start :
  index_of x rows → StronglySorted row_le rows →
  swp (lower_bound generation direction start) x
    (λ x' n, index_of x' rows ∧ 0 ≤ n ≤ zlen rows ∧
       ∀ i r, get rows i = Some r → below r generation direction start = bool_decide (i < n))
    (λ _ _, False).
Proof.
  intros Hix Hs. unfold lower_bound. apply swp_bind, swp_get. pose proof (zlen_nonneg rows).
  destruct Hix as (Hb & Hv' & Hc & Hl'). apply bisect_spec; try done; rewrite ?Hc; try lia.
  - intros i r [Hi _]%get_Some Hlt. lia.
  - intros i r [Hi Hr%lookup_lt_Some]%get_Some Hle. unfold zlen in Hle. lia.
Qed.

(** C22: on a sorted file of rows the search returns, without an error, the number of rows
    whose generation, direction and start are below the key: exactly the rows before that
    number are. *)
Theorem lower_bound_exact (rows : list Row) (generation : list Z) (direction start : Z) :
  Forall row_valid rows → StronglySorted (λ r r', cmp r r' ≠ Gt) rows → WIDTH * zlen rows ≤ i64_max →
  ∃ x, index_open (rows_octets rows) = Ok x ∧
    swp (lower_bound generation direction start) x
      (λ x' n, index_of x' rows ∧ 0 ≤ n ≤ zlen rows ∧
         ∀ i r, get rows i = Some r → below r generation direction start = bool_decide (i < n))
      (λ _ _, False).
Proof.
  intros Hv Hs Hl. destruct (index_open_spec rows Hv Hl) as (x & Hx & Hix). exists x. split; [done|]. by apply lower_bound_spec.
Qed.
End index.

(** ** An index of three rows *)

(** Reads of at most fifty octets. *)
#[local] Instance fifty : FileRead.
Proof. refine {| read_size file at_ n := Z.min (Z.min n 50) (zlen file - at_) |}. lia. Defined.

Definition sample_interval (g start ordinal : Z) : Row :=
  {| x_generation := repeat g 32; x_direction := 0; x_selected := true; x_start := start; x_end := start + 20;
     x_record_offset := 100 * ordinal; x_record_digest := repeat ordinal 32; x_ordinal := ordinal |}.
Definition sample_rows : list Row := [sample_interval 7 100 1; sample_interval 5 10 2; sample_interval 5 0 3].
Definition sample_disk : Disk * unit :=
  ({| k_files := {[Raw := rows_octets sample_rows]}; k_sort_dir := false;
      k_quota := {| q_used := 336; q_peak := 336; q_maximum := 672 |} |}, ()).

Lemma sample_rows_valid : Forall row_valid sample_rows.
Proof.
  repeat constructor; try lia; by vm_compute.
Qed.

Lemma sort_exact_witness :
  ∃ rows, Forall row_valid rows ∧ rows_octets sample_rows = rows_octets rows ∧ 3 = zlen rows ∧
    at_disk 672 {[Ranges := rows_octets (sort rows)]} 336 false (sort_index "" "" 2 2 sample_disk).1.
Proof.
  apply (swp_value _ _ _ _ _ (sort_exact "" "" (λ c, (c, Ok ())) (λ _, False) 2 2 672 336 (rows_octets sample_rows) sample_disk
    (λ _, I) (rows_octets_ok _ sample_rows_valid) ltac:(by vm_compute) ltac:(by vm_compute) ltac:(lia) ltac:(by repeat split))).
  by vm_compute.
Defined.

Lemma lower_bound_exact_witness :
  ∃ x, index_open (rows_octets (sort sample_rows)) = Ok x ∧
    swp (lower_bound (repeat 5 32) 0 5) x
      (λ x' n, index_of x' (sort sample_rows) ∧ 0 ≤ n ≤ zlen (sort sample_rows) ∧
         ∀ i r, get (sort sample_rows) i = Some r → below r (repeat 5 32) 0 5 = bool_decide (i < n))
      (λ _ _, False).
Proof.
  apply (lower_bound_exact (sort sample_rows) (repeat 5 32) 0 5).
  - rewrite sort_perm. apply sample_rows_valid.
  - apply sort_sorted.
  - by vm_compute.
Defined.

(** The search finds the row between the two others. *)
Example lower_bound_sample :
  match index_open (rows_octets (sort sample_rows)) with
  | Ok x => (lower_bound (repeat 5 32) 0 5 x).2
  | _ => OutOfFuel
  end = Ok 1.
Proof. by vm_compute. Qed.
