(* ===== verification/HistQuery.v ===== *)
(** * Interval queries ([src/history/src/query.rs], and the records of pipeline.rs it reads)

    A [History] is an opened workspace: the source, the sealed journal, the sorted index
    of placements and the table of packets, all by their octets.  A query walks the index,
    reads every overlapping observation from the journal, checks its witnesses against the
    source, and cuts the interval at every boundary: no alternative is dropped.  Seeking
    a file is part of each read; what the operating system says of a failed read is the
    parameter [io_text]. *)

From S2P Require Import Prelude Errors Stateful Json Ord Sha256 Codec HistModel HistState Journal HistIndex.

(** ** The packet table ([PacketRow] of pipeline.rs) *)

Definition PACKET_WIDTH : Z := 80.
Record PacketRow : Type := {
  pr_frame : Z;
  pr_record_offset : Z;
  pr_data_offset : Z;
  pr_cap : Z;
  pr_original : Z;
  pr_section : Z;
  pr_interface : Z;
  pr_link : Z;
  pr_digest : list Z;
}.

(** [PacketRow::encode] and [PacketRow::decode]. *)
Definition packet_encode (p : PacketRow) : list Z :=
  let e := put_u64 (put_u64 (put_u64 [] (pr_frame p)) (pr_record_offset p)) (pr_data_offset p) in
  let e := put_u32 (put_u32 e (pr_cap p)) (pr_original p) in
  let e := put_u32 (put_u32 (put_u32 e (pr_section p)) (pr_interface p)) (pr_link p) in
  put_hash (put_u32 e 0) (pr_digest p).
Definition get_packet : Reading PacketRow :=
  frame ← get_u64;
  record_offset ← get_u64;
  data_offset ← get_u64;
  cap ← get_u32;
  original ← get_u32;
  section ← get_u32;
  interface ← get_u32;
  link ← get_u32;
  reserved ← get_u32;
  if negb (reserved =? 0) then throw (bad "packet_index" "reserved field") else
  sha ← get_hash;
  mret {| pr_frame := frame; pr_record_offset := record_offset; pr_data_offset := data_offset; pr_cap := cap;
          pr_original := original; pr_section := section; pr_interface := interface; pr_link := link; pr_digest := sha |}.
Definition packet_decode (b : list Z) : result PacketRow :=
  decode_all (p ← get_packet; finish ;;
    lift (if (pr_frame p =? 0) || (pr_data_offset p <? pr_record_offset p)
          then Err (bad "packet_index" "invalid frame/offset") else Ok p)) b.

(** ** The TCP record of the journal ([tcp_record] and [decode_tcp_record] of pipeline.rs) *)

Definition tcp_record (input : TcpInput) (decision : Decision) : result (list Z) :=
  i ← tcp_input_encode input;
  e ← put_bytes [] i;
  d ← decision_encode decision;
  put_bytes e d.
Definition get_tcp_record (c : HConfig) : Reading (TcpInput * Decision) :=
  i ← get_bytes (hc_record_bytes c);
  input ← lift (tcp_input_decode i c);
  d ← get_bytes (hc_record_bytes c);
  decision ← lift (decision_decode d c);
  mret (input, decision).
Definition decode_tcp_record (b : list Z) (c : HConfig) : result (TcpInput * Decision) :=
  decode_all (r ← get_tcp_record c; finish ;; mret r) b.

Section query.
Context {files_read : FileRead} (io_text : list Z → Z → Z → string).

(** [seek(SeekFrom::Start(at))] and [read_exact] of [n] octets. *)
Definition read_at (file : list Z) (at_ n : Z) : result (list Z) :=
  if at_ + n <=? zlen file then Ok (sub file at_ (at_ + n)) else Err (io_error (io_text file at_ n)).

(** [PacketRow::get]. *)
Definition packet_at (packets : list Z) (frame : Z) : result PacketRow :=
  at_ ← ok_or (x ← checked_sub frame 1; checked_mul u64_max x PACKET_WIDTH) (limit "packet_index");
  b ← read_at packets at_ PACKET_WIDTH;
  row ← packet_decode b;
  if negb (pr_frame row =? frame) then Err (bad "packet_index" "ordinal mismatch") else Ok row.

(** ** [History] *)

Record History : Type := {
  h_source : list Z;
  h_journal : JReader;
  h_index : RangeIndex;
  h_packets : list Z;
  h_config : HConfig;
  h_identity : SourceIdentity;
}.
Definition Querying : Type → Type := Stateful History.
Definition on_index {A} (m : Stateful RangeIndex A) : Querying A := λ h,
  let '(x, r) := m (h_index h) in
  ({| h_source := h_source h; h_journal := h_journal h; h_index := x; h_packets := h_packets h;
      h_config := h_config h; h_identity := h_identity h |}, r).
Definition on_journal {A} (m : Stateful JReader A) : Querying A := λ h,
  let '(x, r) := m (h_journal h) in
  ({| h_source := h_source h; h_journal := x; h_index := h_index h; h_packets := h_packets h;
      h_config := h_config h; h_identity := h_identity h |}, r).

(** [hash_file] of a regular file, in whatever pieces it is read. *)
Fixpoint hash_loop (fuel : nat) (max : Z) (s : Sha256 * Z) : Reading (Sha256 * Z) :=
  match fuel with
  | O => lift OutOfFuel
  | S fuel =>
      k ← read_some 65536;
      if zlen k =? 0 then mret s else
      s ← lift (hash_piece max s k);
      hash_loop fuel max s
  end.
Definition hash_file (file : list Z) (max : Z) : result SourceIdentity :=
  r ← decode_all (hash_loop (S (length file)) max (sha256_new, 0)) file;
  sha ← finalize r.1;
  Ok {| si_sha256 := sha; si_bytes := r.2 |}.

(** The journal to its end, and the body of its seal. *)
Fixpoint find_seal (fuel : nat) (seal : option (list Z)) : Stateful JReader (option (list Z)) :=
  match fuel with
  | O => lift OutOfFuel
  | S fuel =>
      r ← next_record;
      match r with
      | Some r => find_seal fuel (if r_kind r =? SEAL then Some (r_body r) else seal)
      | None => mret seal
      end
  end.
Record Seal : Type := {
  s_packets : Z; s_tcp : Z; s_notices : Z; s_intervals : Z;
  s_range_hash : list Z; s_range_len : Z; s_packet_hash : list Z; s_packet_len : Z;
}.
Definition get_seal : Reading Seal :=
  packets ← get_u64;
  tcp ← get_u64;
  notices ← get_u64;
  intervals ← get_u64;
  range_hash ← get_hash;
  range_len ← get_u64;
  packet_hash ← get_hash;
  packet_len ← get_u64;
  mret {| s_packets := packets; s_tcp := tcp; s_notices := notices; s_intervals := intervals;
          s_range_hash := range_hash; s_range_len := range_len; s_packet_hash := packet_hash; s_packet_len := packet_len |}.

(** The rows from [n] on are strictly in order after [previous]. *)
Definition order_row (previous : option Row) (n : Z) : Stateful RangeIndex (option Row) :=
  row ← row_at n;
  if (if previous is Some old then (if cmp old row is Lt then false else true) else false)
  then throw (bad "history_index" "index is not sorted") else mret (Some row).

(** The identities of the index files against the seal. *)
Definition seal_disagrees (s : Seal) (range packet : SourceIdentity) : result bool :=
  if negb (bytes_eqb (si_sha256 range) (s_range_hash s)) || negb (si_bytes range =? s_range_len s)
     || negb (bytes_eqb (si_sha256 packet) (s_packet_hash s)) || negb (si_bytes packet =? s_packet_len s)
  then Ok true else
  n ← ok_or (checked_mul u64_max (s_intervals s) WIDTH) (limit "index_count");
  if negb (s_range_len s =? n) then Ok true else
  m ← ok_or (checked_mul u64_max (s_packets s) PACKET_WIDTH) (limit "packet_count");
  Ok (negb (s_packet_len s =? m)).

(** [History::open] of a workspace whose files are there. *)
Definition history_open (source journal ranges packets : list Z) : result History :=
  reader ← reader_open journal;
  let header := j_header reader in
  let config := jh_config header in
  identity ← hash_file source (hc_source_bytes config);
  if negb (bool_decide (identity = jh_source header)) then Err (bad "history_source" "source identity mismatch") else
  x ← (let '(reader, r) := find_seal (S (length journal)) None reader in r ← r; Ok (reader, r));
  let '(reader, seal) := x in
  body ← ok_or seal (bad "history_incomplete" "no complete seal; do not present partial history as verified");
  s ← decode_all (s ← get_seal; finish ;; mret s) body;
  range ← hash_file ranges (hc_disk_bytes config);
  packet ← hash_file packets (hc_disk_bytes config);
  disagree ← seal_disagrees s range packet;
  if (disagree : bool) then Err (bad "history_index" "sealed index identities/counts disagree") else
  index ← index_open ranges;
  x ← (let '(index, r) := foldC order_row None (seqZ 0 (i_count index)) index in r ← r; Ok index);
  Ok {| h_source := source; h_journal := reader; h_index := x; h_packets := packets; h_config := config;
        h_identity := jh_source header |}.

(** ** [generations] *)

Definition generation_step (after : option (list Z)) (page : Z) (s : Z * Z * list (list Z))
    : Querying (step (Z * Z * list (list Z)) (list (list Z))) :=
  let '(at_, seen, out) := s in
  h ← get_state;
  if (at_ <? i_count (h_index h)) && (zlen out <? page) then
    row ← on_index (row_at at_);
    at_ ← lift (add_ovf u64_max at_ 1);
    seen ← lift (add_ovf u64_max seen 1);
    if hc_query_intervals (h_config h) <? seen then throw (limit "generation_scan") else
    if (if after is Some id then (if cmp (x_generation row) id is Gt then false else true) else false)
    then mret (Continue (at_, seen, out)) else
    let out := if bool_decide (last out = Some (x_generation row)) then out else out ++ [x_generation row] in
    n ← on_index (lower_bound (x_generation row) 1 i64_max);
    mret (Continue (Z.max n at_, seen, out))
  else mret (Break out).
Definition generations_page (after : option (list Z)) (page : Z) : Querying (list (list Z)) :=
  if negb (contains 1 200 page) then throw (limit "generation_page") else
  h ← get_state;
  at_ ← (match after with Some id => on_index (lower_bound id 1 i64_max) | None => mret 0 end);
  loopC (S (Z.to_nat (i_count (h_index h)))) (generation_step after page) (at_, 0, []).

(** ** [range] *)

Definition spend (max work n : Z) : result Z :=
  work ← ok_or (checked_add u64_max work n) (limit "query_work");
  if max <? work then Err (limit "query_work") else Ok work.

(** [source_witnesses]: the stored octets are the source's. *)
Definition check_witness (h : History) (input : TcpInput) (work : Z) (w : Witness) : result Z :=
  p ← packet_at (h_packets h) (w_frame w);
  n ← sub_ovf (w_end w) (w_start w);
  if negb (pr_record_offset p =? w_record_offset w) || (pr_cap p <? w_packet_start w + n)
     || negb (bool_decide (checked_add u64_max (pr_data_offset p) (w_packet_start w) = Some (w_source_offset w)))
  then Err (bad "history_witness" "witness outside canonical packet") else
  work ← spend (hc_query_work (h_config h)) work n;
  bytes ← read_at (h_source h) (w_source_offset w) n;
  raw ← slice (i_raw input) (w_start w) (w_end w);
  if negb (bytes_eqb raw bytes) then Err (bad "history_witness" "stored transport bytes disagree with original source")
  else Ok work.
Definition source_witnesses (h : History) (input : TcpInput) (work : Z) : result Z :=
  foldM (check_witness h input) work (i_witnesses input).

Record Observation : Type := { o_row : Row; o_input : TcpInput; o_decision : Decision }.

Section range.
Context (generation : list Z) (direction start stop : Z).

(** The decision of the journal places the payload where the index says. *)
Definition placed_by (row : Row) (d : Decision) : bool :=
  existsb (λ p, bytes_eqb (p_generation p) generation && (p_direction p =? direction)
                && (p_offset p =? x_start row) && Bool.eqb (p_selected p) (x_selected row)) (placements d).

(** The observation of an overlapping row. *)
Definition load_observation (row : Row) (work : Z) : Querying (Z * Observation) :=
  record ← on_journal (indexed (x_record_offset row) (x_record_digest row));
  if negb (r_kind record =? TCP) || negb (r_sequence record =? x_ordinal row)
  then throw (bad "history_index" "index targets wrong record") else
  h ← get_state;
  work ← lift (spend (hc_query_work (h_config h)) work (zlen (r_body record)));
  x ← lift (decode_tcp_record (r_body record) (h_config h));
  let '(input, decision) := x in
  size ← lift (signed_ovf i64_min i64_max (x_end row - x_start row));
  if negb (size =? zlen (i_payload input)) || negb (placed_by row decision)
  then throw (bad "history_index" "index placement is not emitted by journal decision") else
  work ← lift (source_witnesses h input work);
  mret (work, {| o_row := row; o_input := input; o_decision := decision |}).

(** The state of the scan: the position, the work, the rows scanned, the observations and
    the boundaries so far. *)
Record Scan : Type := { c_at : Z; c_work : Z; c_scanned : Z; c_seen : list Observation; c_cuts : list (Z * unit) }.
Definition scan_step (s : Scan) : Querying (step Scan Scan) :=
  h ← get_state;
  if negb (c_at s <? i_count (h_index h)) then mret (Break s) else
  if hc_query_intervals (h_config h) <=? c_scanned s then throw (limit "query_scan") else
  scanned ← lift (add_ovf usize_max (c_scanned s) 1);
  work ← lift (spend (hc_query_work (h_config h)) (c_work s) WIDTH);
  row ← on_index (row_at (c_at s));
  at_ ← lift (add_ovf u64_max (c_at s) 1);
  let s := {| c_at := at_; c_work := work; c_scanned := scanned; c_seen := c_seen s; c_cuts := c_cuts s |} in
  if negb (bytes_eqb (x_generation row) generation) || negb (x_direction row =? direction) || (stop <=? x_start row)
  then mret (Break s) else
  if x_end row <=? start then mret (Continue s) else
  if hc_query_intervals (h_config h) <=? zlen (c_seen s) then throw (limit "query_intervals") else
  x ← load_observation row work;
  let '(work, o) := x in
  mret (Continue {| c_at := at_; c_work := work; c_scanned := scanned; c_seen := c_seen s ++ [o];
    c_cuts := bt_insert (bt_insert (c_cuts s) (Z.max (x_start row) start) ()) (Z.min (x_end row) stop) () |}).

(** One observation against the piece between [a] and [b]. *)
Record Tally : Type := {
  y_work : Z; y_references : Z; y_selected : option (list Z); y_conflict : bool; y_uncertain : bool; y_ids : list Z;
}.
Definition tally (c : HConfig) (a b : Z) (s : Tally) (io : Z * Observation) : result Tally :=
  let '(i, o) := io in
  work ← spend (hc_query_work c) (y_work s) 1;
  if (x_start (o_row o) <=? a) && (b <=? x_end (o_row o)) then
    from ← signed_ovf i64_min i64_max (a - x_start (o_row o));
    to ← signed_ovf i64_min i64_max (b - x_start (o_row o));
    raw ← slice (i_payload (o_input o)) from to;
    work ← spend (hc_query_work c) work (zlen raw);
    references ← add_ovf usize_max (y_references s) 1;
    if Z.min usize_max (hc_query_intervals c * 4) <? references then Err (limit "query_evidence_references") else
    Ok {| y_work := work; y_references := references;
          y_selected := Some (default raw (y_selected s));
          y_conflict := y_conflict s || match y_selected s with Some old => negb (bytes_eqb old raw) | None => false end;
          y_uncertain := y_uncertain s || negb (x_selected (o_row o));
          y_ids := y_ids s ++ [i] |}
  else Ok {| y_work := work; y_references := y_references s; y_selected := y_selected s; y_conflict := y_conflict s;
             y_uncertain := y_uncertain s; y_ids := y_ids s |}.

Inductive PieceStatus : Type := Gap | Conflicting | Ambiguous | Candidate.
Record RangePiece : Type := { e_start : Z; e_end : Z; e_status : PieceStatus; e_ids : list Z; e_bytes : option (list Z) }.
Definition piece_status (t : Tally) : PieceStatus :=
  match y_selected t with
  | None => Gap
  | Some _ => if y_conflict t then Conflicting else if y_uncertain t then Ambiguous else Candidate
  end.
Definition piece_step (c : HConfig) (seen : list Observation) (s : Z * Z * list RangePiece) (ab : Z * Z)
    : result (Z * Z * list RangePiece) :=
  let '(work, references, pieces) := s in
  let '(a, b) := ab in
  t ← foldM (tally c a b) {| y_work := work; y_references := references; y_selected := None; y_conflict := false;
                             y_uncertain := false; y_ids := [] |} (enumerate seen);
  Ok (y_work t, y_references t, pieces ++ [{| e_start := a; e_end := b; e_status := piece_status t; e_ids := y_ids t;
    e_bytes := if y_conflict t || y_uncertain t then None else y_selected t |}]).

(** [windows(2)]. *)
Definition windows (l : list Z) : list (Z * Z) := zip l (tail l).

(** [range], without the rendering. *)
Definition range_evidence : Querying (list RangePiece * list Observation) :=
  size ← lift (match checked_i64 (stop - start) with
               | Some n => if 0 <? n then Ok n else Err (bad "query_range" "positive ordered range required")
               | None => Err (bad "query_range" "positive ordered range required")
               end);
  h ← get_state;
  if (1 <? direction) || (hc_query_bytes (h_config h) <? size) then throw (limit "query_bytes") else
  let low := Z.max i64_min (start - 65535) in
  at_ ← on_index (lower_bound generation direction low);
  s ← loopC (S (Z.to_nat (i_count (h_index h)))) scan_step
        {| c_at := at_; c_work := 0; c_scanned := 0; c_seen := []; c_cuts := bt_insert (bt_insert [] start ()) stop () |};
  r ← lift (foldM (piece_step (h_config h) (c_seen s)) (c_work s, 0, []) (windows (c_cuts s).*1));
  mret (r.2, c_seen s).
End range.

(** ** The report of [range] *)

Definition json_object (l : list (string * Json)) : Json := Object (map (λ kv, (text kv.1, kv.2)) l).
(** [i64::to_string]. *)
Definition signed_decimal (v : Z) : list Z := if v <? 0 then 45 :: decimal (- v) else decimal v.
Definition piece_status_text (s : PieceStatus) : string :=
  match s with
  | Gap => "gap" | Conflicting => "conflicting_bytes" | Ambiguous => "ambiguous_sequence_placement" | Candidate => "candidate"
  end.
Definition piece_json (p : RangePiece) : Json :=
  json_object [("start", String_ (signed_decimal (e_start p))); ("end", String_ (signed_decimal (e_end p)));
    ("status", String_ (text (piece_status_text (e_status p)))); ("observation_ids", Array (map Number (e_ids p)));
    ("bytes_hex", match e_bytes p with Some b => String_ (hex b) | None => Null end)]%string.
Definition witness_json (w : Witness) : Json :=
  json_object [("frame", String_ (decimal (w_frame w))); ("source_offset", String_ (decimal (w_source_offset w)));
    ("packet_start", Number (w_packet_start w)); ("raw_start", Number (w_start w)); ("raw_end", Number (w_end w))]%string.
Definition observation_json (io : Z * Observation) : result Json :=
  let '(i, o) := io in
  sha ← digest (i_payload (o_input o));
  Ok (json_object [("id", Number i); ("journal_sequence", String_ (decimal (x_ordinal (o_row o))));
    ("packet", String_ (decimal (i_frame (o_input o)))); ("start", String_ (signed_decimal (x_start (o_row o))));
    ("end", String_ (signed_decimal (x_end (o_row o)))); ("placement_selected", Bool (x_selected (o_row o)));
    ("policy_assumption", Bool (policy_assumption (o_decision o)));
    ("decision_reasons", Array (map (λ r, String_ (default [] (utf8_chars r))) (reasons (o_decision o))));
    ("state_before_sha256", String_ (hex (before (o_decision o)))); ("state_after_sha256", String_ (hex (after (o_decision o))));
    ("tcp_header_bytes", Number (i_header_bytes (o_input o))); ("payload_sha256", String_ (hex sha));
    ("witnesses", Array (map witness_json (i_witnesses (o_input o))))]%string).

Definition range_report (identity : SourceIdentity) (generation : list Z) (direction : Z) (pieces : list RangePiece)
    (evidence : list Json) : Json :=
  json_object [("schema", String_ (text "pcap-evidence.history-range.v1"));
    ("source_sha256", String_ (hex (si_sha256 identity))); ("generation", String_ (hex generation));
    ("direction", Number direction); ("integrity_checked", Bool true); ("semantic_replay_verified", Bool false);
    ("pieces", Array (map piece_json pieces)); ("observations", Array evidence)]%string.

(** [range]. *)
Definition range (generation : list Z) (direction start stop : Z) : Querying Json :=
  x ← range_evidence generation direction start stop;
  let '(pieces, seen) := x in
  h ← get_state;
  evidence ← lift (mapM observation_json (enumerate seen));
  let report := range_report (h_identity h) generation direction pieces evidence in
  lift (encode_bounded report (hc_record_bytes (h_config h))) ;;
  mret report.

(** ** [extent] (typed_range_impl.rs) *)

Definition extent_step (generation : list Z) (direction max_rows : Z) (s : Z * Z * option (Z * Z))
    : Querying (step (Z * Z * option (Z * Z)) (option (Z * Z))) :=
  let '(at_, scanned, found) := s in
  h ← get_state;
  if negb (at_ <? i_count (h_index h)) then mret (Break found) else
  row ← on_index (row_at at_);
  if negb (bytes_eqb (x_generation row) generation) || negb (x_direction row =? direction) then mret (Break found) else
  scanned ← lift (add_ovf u64_max scanned 1);
  if max_rows <? scanned then throw (limit "extent_scan") else
  at_ ← lift (add_ovf u64_max at_ 1);
  mret (Continue (at_, scanned,
    Some (match found with
          | Some (a, b) => (Z.min a (x_start row), Z.max b (x_end row))
          | None => (x_start row, x_end row)
          end))).
Definition extent (generation : list Z) (direction max_rows : Z) : Querying (option (Z * Z)) :=
  if (1 <? direction) || (max_rows =? 0) then throw (limit "extent_scan") else
  h ← get_state;
  at_ ← on_index (lower_bound generation direction i64_min);
  loopC (S (Z.to_nat (i_count (h_index h)))) (extent_step generation direction max_rows) (at_, 0, None).
End query.
