(* ===== verification/HistQueryFacts.v ===== *)
(** * Queries show everything the index places

    The observations of a range are exactly the rows of the generation and direction that
    overlap it; each was read from the record the index names and its octets were compared
    with the source.  The pieces tile the range, and each lists every observation that
    covers it: bytes are shown only where all of them agree. *)

From stdpp Require Import sorting.
From Stdlib Require Import Sorting.
From S2P Require Import Prelude Errors Stateful Json Ord Sha256 ModbusFacts Codec CodecFacts.
From S2P Require Import HistModel HistModelFacts HistState HistStateFacts Journal JournalFacts HistIndex HistIndexFacts HistQuery.

(** ** Indexed reads of any record *)

(** What a field read leaves of the file. *)
Definition keeps_bytes {A} (m : Reading A) : Prop := ∀ d, d_bytes (m d).1 = d_bytes d.
Lemma keeps_bind {A B} (m : Reading A) (k : A → Reading B) : keeps_bytes m → (∀ a, keeps_bytes (k a)) → keeps_bytes (m ≫= k).
Proof.
  intros Hm Hk d. unfold mbind, stateful_bind. specialize (Hm d). destruct (m d) as [d' [a|e| |]]; simpl in *; try done.
  rewrite <- Hm. apply Hk.
Qed.
Lemma keeps_lift {A} (r : result A) : keeps_bytes (lift r).
Proof. done. Qed.
Lemma keeps_exact n : keeps_bytes (exact n).
Proof. intros d. unfold exact. by case_match. Qed.
Lemma keeps_indexed offset mb : keeps_bytes (read_indexed offset mb).
Proof.
  unfold read_indexed. apply keeps_bind; [done|]. intros start. apply keeps_bind; [done|]. intros _.
  apply keeps_bind; [apply keeps_exact|]. intros previous. apply keeps_bind; [apply keeps_exact|]. intros length. cbv zeta.
  case_match; [done|]. apply keeps_bind; [apply keeps_exact|]. intros payload. apply keeps_bind; [apply keeps_exact|]. done.
Qed.

(** The part of [indexed] after the frame was read. *)
Definition check_frame (offset : Z) (sha : list Z) (f : list Z * list Z * list Z * list Z) : result JRecord :=
  let '(previous, length, payload, stored) := f in
  if negb (bytes_eqb stored sha) then Err (bad "history_index" "record digest does not match verified index") else
  computed ← record_digest previous length payload;
  if negb (bytes_eqb computed sha) then Err (bad "history_index" "indexed payload or predecessor drift") else
  x ← decode_all (get_record (zlen payload)) payload;
  let '(kind, sequence, body) := x in
  Ok {| r_kind := kind; r_sequence := sequence; r_body := body; r_offset := offset; r_digest := sha |}.

Definition same_journal (r r' : JReader) : Prop := j_file r' = j_file r ∧ j_header r' = j_header r.

Lemma lift_cases {S A B} (r : result A) (k : A → Stateful S B) s :
  (lift r ≫= k) s = match r with Ok a => k a s | Err e => (s, Err e) | Panic => (s, Panic) | OutOfFuel => (s, OutOfFuel) end.
Proof. by destruct r. Qed.

Lemma indexed_value offset sha r :
  same_journal r (indexed offset sha r).1 ∧
  (indexed offset sha r).2 =
    (if offset <? jh_bytes (j_header r) then Err (bad "history_index" "offset inside header")
     else (read_indexed offset (hc_record_bytes (jh_config (j_header r))) (pos r)).2 ≫= check_frame offset sha).
Proof.
  unfold indexed. rewrite get_step. destruct (offset <? _); [done|]. rewrite reading_step.
  pose proof (keeps_indexed offset (hc_record_bytes (jh_config (j_header r))) (pos r)) as Hk. unfold reading. fold (pos r).
  destruct (read_indexed _ _ (pos r)) as [f [[[[previous length] payload] stored]|e| |]]; cbn [fst snd] in *; try done.
  unfold check_frame. cbn [mbind res_bind]. destruct (negb (bytes_eqb stored sha)); [done|]. rewrite lift_cases.
  destruct (record_digest _ _ _) as [computed|e| |]; try done. rewrite bind_Ok. destruct (negb (bytes_eqb computed sha)); [done|].
  rewrite lift_cases. by destruct (decode_all _ _) as [[[k n] b]|e| |].
Qed.

Lemma read_indexed_at offset mb file a a' :
  (read_indexed offset mb {| d_bytes := file; d_at := a |}).2 = (read_indexed offset mb {| d_bytes := file; d_at := a' |}).2.
Proof. unfold read_indexed. rewrite !lift_cases. by destruct (sub_ovf offset 32). Qed.

(** Where the reader stands does not matter. *)
Lemma indexed_stable offset sha r r' : same_journal r r' → (indexed offset sha r').2 = (indexed offset sha r).2.
Proof.
  intros [Hf Hh]. destruct (indexed_value offset sha r) as [_ ->], (indexed_value offset sha r') as [_ ->]. rewrite Hh.
  unfold pos. rewrite Hf. by rewrite (read_indexed_at _ _ _ (j_at r') (j_at r)).
Qed.

Definition journal_readable (r : JReader) : Prop :=
  bytes_ok (j_file r) ∧ zlen (j_file r) ≤ i64_max ∧ 32 ≤ jh_bytes (j_header r) ∧ config_validate (jh_config (j_header r)) = Ok ().

Lemma wp_journal_frame offset sha previous length payload stored :
  bytes_ok payload → 9 ≤ zlen payload ≤ i64_max → length = to_le_bytes 4 (zlen payload) →
  wp (check_frame offset sha (previous, length, payload, stored)) (λ x, bytes_ok (r_body x) ∧ zlen (r_body x) ≤ i64_max) (λ _, True).
Proof.
  intros Hb Hl ->. unfold check_frame. case_match; [done|]. rewrite record_digest_ok. cbn [mbind res_bind]. case_match; [done|].
  apply wp_bind. pose proof (take_codec (zlen payload - 9) ltac:(lia)) as Ht.
  pose proof (decoder_new_bounds payload Hb ltac:(lia)) as Hd.
  assert (swp (get_record (zlen payload)) (decoder_new payload) (λ _ x, bytes_ok x.2 ∧ zlen x.2 ≤ i64_max) (λ _ _, True)) as Hw.
  { unfold get_record. writes. writes. apply swp_bind, swp_lift. rewrite sub_ovf_ok by lia. apply wp_ok. writes. apply swp_ret.
    cbn [snd]. destruct_and?. split; [done|lia]. }
  unfold swp in Hw. unfold decode_all. eapply wp_mono; [exact Hw| |done]. by intros [[k n] b].
Qed.

Lemma indexed_spec offset sha r :
  journal_readable r →
  swp (indexed offset sha) r
    (λ r' x, same_journal r r' ∧ (indexed offset sha r).2 = Ok x ∧ bytes_ok (r_body x) ∧ zlen (r_body x) ≤ i64_max) (λ _ _, True).
Proof.
  intros (Hb & Hl & Hh & Hc). unfold swp. destruct (indexed_value offset sha r) as [Hs Hv].
  enough (wp (indexed offset sha r).2 (λ x, bytes_ok (r_body x) ∧ zlen (r_body x) ≤ i64_max) (λ _, True)) as H.
  { eapply wp_mono; [apply wp_eq, H| |done]. intros x [[? ?] ->]. by split_and!. }
  rewrite Hv. destruct (Z.ltb_spec offset (jh_bytes (j_header r))); [done|]. apply wp_bind.
  enough (swp (read_indexed offset (hc_record_bytes (jh_config (j_header r)))) (pos r)
    (λ _ f, let '(previous, length, payload, stored) := f in bytes_ok payload ∧ 9 ≤ zlen payload ≤ i64_max ∧ length = to_le_bytes 4 (zlen payload)) (λ _ _, True)) as Hw.
  { eapply wp_mono; [exact Hw| |done]. intros [[[previous length] payload] stored] (? & ? & ?). by apply wp_journal_frame. }
  unfold read_indexed. apply swp_bind, swp_lift. rewrite sub_ovf_ok by lia. apply wp_ok, swp_bind, swp_modify. unfold pos. cbn [d_bytes].
  destruct (Z.leb_spec (offset - 32 + 32) (zlen (j_file r))) as [Hin|Hout].
  2: { apply swp_bind. unfold swp, exact. cbn [d_bytes d_at]. by rewrite (proj2 (Z.leb_gt _ _)). }
  assert (in_bounds {| d_bytes := j_file r; d_at := offset - 32 |}) as Hd by (split; [simpl; lia|done]).
  pose proof (exact_codec 32 ltac:(lia)) as H32. pose proof (exact_codec 4 ltac:(lia)) as H4.
  writes. writes. apply swp_if; intros Hlen; [done|]. apply negb_false_iff in Hlen. unfold contains in Hlen. bool_facts.
  destruct (config_records _ Hc) as (Hmb & _).
  match goal with H : zlen ?a = 4 ∧ bytes_ok ?a |- _ => destruct H as [Hl4 Hb4]; pose proof (from_le_bound a Hb4) as Hbound; rename a into length4 end.
  pose proof (exact_codec (from_le_bytes length4) ltac:(lia)) as Hep. writes. writes. apply swp_ret.
  destruct_and?. split; [done|]. split; [lia|]. match goal with H : zlen _ = from_le_bytes _ |- _ => rewrite H end.
  replace 4%nat with (length length4) by (unfold zlen in Hl4; lia). symmetry. by apply to_from_le.
Qed.

(** ** Records and packets *)

Lemma wp_decision_decode b c :
  bytes_ok b → zlen b ≤ i64_max → config_validate c = Ok () → wp (decision_decode b c) (λ d, decision_typed c d) (λ _, True).
Proof.
  intros Hb Hl Hc. pose proof (get_decision_codec c Hc) as Hcodec. unfold decision_decode.
  eapply wp_mono; [by apply (whole_exact (get := get_decision c))|by intros d [? _]|done].
Qed.

(** What is known of an observation that was decoded. *)
Definition input_shown (p : TcpInput) : Prop :=
  bytes_ok (i_raw p) ∧ 20 ≤ i_header_bytes p ≤ zlen (i_raw p) ∧ zlen (i_raw p) ≤ 65535 ∧
  i_payload p = sub (i_raw p) (i_header_bytes p) (zlen (i_raw p)) ∧
  covered 0 (i_witnesses p) (zlen (i_raw p)) ∧ Forall witness_typed (i_witnesses p).

Lemma wp_decode_tcp_record b c :
  bytes_ok b → zlen b ≤ i64_max → config_validate c = Ok () →
  wp (decode_tcp_record b c) (λ x, input_shown x.1 ∧ decision_typed c x.2) (λ _, True).
Proof.
  intros Hb Hl Hc. destruct (config_records _ Hc) as (Hmb & _). pose proof (decoder_new_bounds b Hb Hl) as Hd.
  unfold decode_tcp_record, decode_all.
  enough (swp (r ← get_tcp_record c; finish ;; mret r) (decoder_new b) (λ _ x, input_shown x.1 ∧ decision_typed c x.2) (λ _ _, True)) as H by exact H.
  apply swp_bind. unfold get_tcp_record. writes. apply swp_bind, swp_lift.
  match goal with H : blob_ok _ ?a |- _ => destruct H as (Hm1 & Hu1 & Hb1) end.
  eapply wp_mono; [apply wp_tcp_input_decode; [done|lia|done]| |done].
  intros p (Ht & (_ & Hr65 & _) & _ & _ & Hh & Hcov). writes. apply swp_bind, swp_lift.
  match goal with H : blob_ok _ _ |- _ => destruct H as (Hm2 & Hu2 & Hb2) end.
  eapply wp_mono; [apply wp_decision_decode; [done|lia|done]| |done]. intros decision Hdec. apply swp_ret.
  apply swp_bind. unfold swp at 1, finish. cbn [snd fst]. case_match; [|done]. apply swp_ret. split; [|done].
  destruct Ht as (_ & _ & _ & _ & Hraw & Hws). unfold header_true in Hh. destruct (if i_direction p =? 0 then _ else _).
  destruct_and?. unfold input_shown. cbn [fst]. tauto.
Qed.

Definition packet_typed (p : PacketRow) : Prop :=
  u64_ok (pr_frame p) ∧ u64_ok (pr_record_offset p) ∧ u64_ok (pr_data_offset p) ∧ u32_ok (pr_cap p) ∧ u32_ok (pr_original p) ∧
  u32_ok (pr_section p) ∧ u32_ok (pr_interface p) ∧ u32_ok (pr_link p) ∧ hash_ok (pr_digest p).
Definition packet_octets (p : PacketRow) : list Z :=
  to_le_bytes 8 (pr_frame p) ++ to_le_bytes 8 (pr_record_offset p) ++ to_le_bytes 8 (pr_data_offset p) ++
  to_le_bytes 4 (pr_cap p) ++ to_le_bytes 4 (pr_original p) ++ to_le_bytes 4 (pr_section p) ++
  to_le_bytes 4 (pr_interface p) ++ to_le_bytes 4 (pr_link p) ++ to_le_bytes 4 0 ++ pr_digest p.
#[global] Instance get_packet_codec : Codec get_packet packet_octets packet_typed.
Proof.
  constructor.
  - intros [f r d c o s i l h] x (Hf & Hr & Hd & Hc & Ho & Hs & Hi & Hl & Hh) Hx Hw. simpl in *. unfold get_packet.
    eapply (complete_step _ f x); [done|done|exact Hw|]. intros ? Hw1.
    eapply (complete_step _ r _); [done|done|exact Hw1|]. intros ? Hw2.
    eapply (complete_step _ d _); [done|done|exact Hw2|]. intros ? Hw3.
    eapply (complete_step _ c _); [done|done|exact Hw3|]. intros ? Hw4.
    eapply (complete_step _ o _); [done|done|exact Hw4|]. intros ? Hw5.
    eapply (complete_step _ s _); [done|done|exact Hw5|]. intros ? Hw6.
    eapply (complete_step _ i _); [done|done|exact Hw6|]. intros ? Hw7.
    eapply (complete_step _ l _); [done|done|exact Hw7|]. intros ? Hw8.
    eapply (complete_step _ 0 _); [lia|done|exact Hw8|]. intros ? Hw9. change (negb (0 =? 0)) with false. cbv iota.
    eapply (complete_step _ h _ []); [done|done|by rewrite app_nil_r|]. intros _ _.
    unfold mret, stateful_ret, packet_octets. simpl pr_frame. by rewrite !skip_skip, <- !zlen_app.
  - intros x Hx. unfold get_packet. repeat writes. apply swp_if; intros Hz; [done|]. apply negb_false_iff, Z.eqb_eq in Hz. subst.
    writes. written. unfold packet_typed, u64_ok, u32_ok. simpl. tauto.
Qed.

(** A packet row is decoded from its encoding and from nothing else. *)
Lemma wp_packet_decode b :
  bytes_ok b → zlen b ≤ i64_max →
  wp (packet_decode b) (λ p, packet_typed p ∧ b = packet_octets p ∧ pr_frame p ≠ 0 ∧ pr_record_offset p ≤ pr_data_offset p) (λ _, True).
Proof.
  intros Hb Hl. unfold packet_decode. eapply wp_mono; [apply (wp_whole_checked (get := get_packet)); [done|done|]| |done].
  - intros p. by case_match.
  - intros p (Ht & Hp & Hf). case_match eqn:Hc; [done|]. bool_facts. split_and!; done || lia.
Qed.

(** The members of a list that were passed. *)
Lemma filter_next {A} (p : A → bool) (l : list A) n r :
  get l n = Some r →
  List.filter p (firstn (Z.to_nat (n + 1)) l) =
  List.filter p (firstn (Z.to_nat n) l) ++ (if p r then [r] else []).
Proof.
  intros [Hn Hr]%get_Some. replace (Z.to_nat (n + 1)) with (S (Z.to_nat n)) by lia.
  rewrite (take_S_r _ _ _ Hr), List.filter_app. simpl. by destruct (p r).
Qed.

Section query.
Context {files_read : FileRead} (io_text : list Z → Z → Z → string).

Lemma wp_read_at file at_ n (Q : list Z → Prop) :
  (at_ + n ≤ zlen file → Q (sub file at_ (at_ + n))) → wp (read_at io_text file at_ n) Q (λ _, True).
Proof. intros H. unfold read_at. destruct (Z.leb_spec (at_ + n) (zlen file)); [by apply wp_ok, H|done]. Qed.

Lemma wp_packet_at packets frame :
  bytes_ok packets → wp (packet_at io_text packets frame) (λ p, pr_frame p = frame ∧ packet_typed p) (λ _, True).
Proof.
  intros Hb. unfold packet_at. apply wp_bind, wp_ok_or; [|done]. intros at_ Hat. apply wp_bind, wp_read_at. intros Hl.
  assert (0 ≤ at_ ∨ at_ < 0) as [H0|H0] by lia.
  2: { exfalso. unfold checked_sub, checked_mul in Hat. destruct (1 <=? frame) eqn:Hf; [|done]. cbn [mbind option_bind] in Hat.
       case_match; [|done]. injection Hat as <-. unfold PACKET_WIDTH in *. lia. }
  apply wp_bind. eapply wp_mono; [apply wp_packet_decode; [by apply bytes_ok_sub|rewrite zlen_sub; unfold PACKET_WIDTH in *; lia]| |done].
  intros p (Ht & _). case_match eqn:Hf; [done|]. apply wp_ok. bool_facts. split; [lia|done].
Qed.

(** The stored octets of a witness are octets of the source, inside the packet it names. *)
Definition attested (source packets : list Z) (raw : list Z) (w : Witness) : Prop :=
  let n := w_end w - w_start w in
  w_source_offset w + n ≤ zlen source ∧ sub source (w_source_offset w) (w_source_offset w + n) = sub raw (w_start w) (w_end w) ∧
  ∃ p, packet_at io_text packets (w_frame w) = Ok p ∧ pr_record_offset p = w_record_offset w ∧
       w_packet_start w + n ≤ pr_cap p ∧ pr_data_offset p + w_packet_start w = w_source_offset w.

Lemma wp_spend max work n : wp (spend max work n) (λ w, w = work + n ∧ w ≤ max) (λ _, True).
Proof.
  unfold spend. apply wp_bind, wp_ok_or; [|done]. intros w [-> _]%checked_add_Some. case_match eqn:H; [done|]. apply wp_ok. lia.
Qed.

Lemma wp_check_witnesses h p ws a work :
  bytes_ok (h_packets h) → covered a ws (zlen (i_raw p)) → 0 ≤ a → Forall witness_typed ws →
  wp (foldM (check_witness io_text h p) work ws) (λ _, Forall (attested (h_source h) (h_packets h) (i_raw p)) ws) (λ _, True).
Proof.
  intros Hb. revert a work. induction ws as [|w ws IH]; intros a work Hcov Ha Hws; cbn [foldM]; [by apply wp_ok|]. simpl in Hcov.
  destruct Hcov as (Hs & He & Hf & Hso & Hps & Hcov). apply Forall_cons in Hws as [Hw Hws]. pose proof (covered_le _ _ _ Hcov).
  apply wp_bind. unfold check_witness. apply wp_bind. eapply wp_mono; [apply wp_eq; by apply wp_packet_at| |done].
  intros row [_ Hrow]. apply wp_bind. rewrite sub_ovf_ok by lia. apply wp_ok. case_match eqn:Hc; [done|]. bool_facts.
  apply wp_bind. eapply wp_mono; [apply wp_spend| |done]. intros work' _. apply wp_bind, wp_read_at. intros Hin.
  apply wp_bind. rewrite slice_ok by lia. apply wp_ok. case_match eqn:Heq; [done|]. apply wp_ok. bool_facts.
  eapply wp_mono; [apply (IH (w_end w)); [done|lia|done]| |done]. intros w0 Hall. constructor; [|done].
  split; [done|]. split; [by symmetry|]. exists row.
  match goal with H : bool_decide _ = true |- _ => apply bool_decide_eq_true, checked_add_Some in H as [Hoff _] end.
  split; [done|]. split; [lia|]. split; [lia|done].
Qed.

Lemma wp_source_witnesses h p work :
  bytes_ok (h_packets h) → input_shown p →
  wp (source_witnesses io_text h p work) (λ _, Forall (attested (h_source h) (h_packets h) (i_raw p)) (i_witnesses p)) (λ _, True).
Proof. intros Hb (_ & _ & _ & _ & Hcov & Hws). by apply (wp_check_witnesses h p _ 0). Qed.

(** ** An opened workspace *)

(** The rows are in order and everything else is as it was opened. *)
Definition history_ok (rows : list Row) (h : History) : Prop :=
  bytes_ok (h_packets h) ∧ journal_readable (h_journal h) ∧ config_validate (h_config h) = Ok () ∧
  index_of (h_index h) rows ∧ StronglySorted (λ r r', cmp r r' ≠ Gt) rows.
Definition same_history (rows : list Row) (h h' : History) : Prop :=
  h_source h' = h_source h ∧ h_packets h' = h_packets h ∧ h_config h' = h_config h ∧ h_identity h' = h_identity h ∧
  same_journal (h_journal h) (h_journal h') ∧ index_of (h_index h') rows.

Lemma same_history_refl rows h : history_ok rows h → same_history rows h h.
Proof. intros (_ & _ & _ & Hi & _). by repeat split; try apply Hi. Qed.

Lemma on_index_spec {A} (m : Stateful RangeIndex A) rows h0 h (Q : A → Prop) (R : RangeIndex → Error → Prop) :
  same_history rows h0 h → swp m (h_index h) (λ x a, index_of x rows ∧ Q a) R →
  swp (on_index m) h (λ h' a, same_history rows h0 h' ∧ Q a) (λ _ _, True).
Proof.
  intros (Hs & Hp & Hc & Hi & Hj & _) Hm. unfold swp, on_index in *. destruct (m (h_index h)) as [x [a|e| |]]; simpl in *; try done.
  destruct Hm as [Hx Ha]. split; [by repeat split; try apply Hj; try apply Hx|done].
Qed.

Lemma row_of_index rows h0 h n :
  same_history rows h0 h → 0 ≤ n →
  swp (on_index (row_at n)) h (λ h' r, same_history rows h0 h' ∧ get rows n = Some r) (λ _ _, True).
Proof.
  intros Hs Hn. eapply (on_index_spec _ rows h0 h (λ r, get rows n = Some r)); [done|].
  apply row_at_spec; [apply Hs|done].
Qed.

Lemma key_between g d a b (k : list Z * (Z * Z)) :
  cmp (g, (d, a)) k ≠ Gt → cmp k (g, (d, b)) ≠ Gt → k.1 = g ∧ k.2.1 = d ∧ a ≤ k.2.2 ≤ b.
Proof.
  destruct k as [g' [d' x]]. simpl. unfold pair_cmp, then_cmp. simpl. unfold pair_cmp, then_cmp. simpl. intros H1 H2.
  assert (g' = g) as ->.
  { destruct (cmp g g') eqn:Hg; [by apply cmp_eq in Hg| |by unfold cmp in Hg; simpl in Hg; rewrite Hg in H1].
    exfalso. pose proof (cmp_antisym g g') as Ha. rewrite Hg in Ha. unfold cmp in Ha. simpl in Ha. by rewrite Ha in H2. }
  pose proof (cmp_refl g) as Hr. unfold cmp in Hr. simpl in Hr. rewrite Hr in H1, H2.
  assert (d' = d) as ->.
  { destruct (Z.compare_spec d d'), (Z.compare_spec d' d); try done; lia. }
  rewrite Z.compare_refl in H1, H2. split; [done|]. split; [done|].
  destruct (Z.compare_spec a x), (Z.compare_spec x b); try done; lia.
Qed.

Section range.
Context (generation : list Z) (direction start stop : Z) (rows : list Row) (h0 : History) (ok : history_ok rows h0).

(** The rows of a range. *)
Definition overlaps (r : Row) : bool :=
  bytes_eqb (x_generation r) generation && (x_direction r =? direction) && (x_start r <? stop) && (start <? x_end r).

(** An observation is read from the record its row names, and every octet of it is attested
    by the source. *)
Definition observation_true (o : Observation) : Prop :=
  input_shown (o_input o) ∧ zlen (i_payload (o_input o)) = x_end (o_row o) - x_start (o_row o) ∧
  placed_by generation direction (o_row o) (o_decision o) = true ∧
  Forall (attested (h_source h0) (h_packets h0) (i_raw (o_input o))) (i_witnesses (o_input o)) ∧
  ∃ x, (indexed (x_record_offset (o_row o)) (x_record_digest (o_row o)) (h_journal h0)).2 = Ok x ∧ r_kind x = TCP ∧
       r_sequence x = x_ordinal (o_row o) ∧ decode_tcp_record (r_body x) (h_config h0) = Ok (o_input o, o_decision o).

Lemma load_observation_spec row work h :
  same_history rows h0 h → row_valid row →
  swp (load_observation io_text generation direction row work) h
    (λ h' x, same_history rows h0 h' ∧ o_row x.2 = row ∧ observation_true x.2) (λ _ _, True).
Proof.
  destruct ok as (Hpk & Hjr & Hcv & _). intros Hs Hrv. pose proof Hs as (Hsrc & Hpkt & Hc & Hi & [Hjf Hjh] & Hix). unfold load_observation.
  apply swp_bind. assert (journal_readable (h_journal h)) as Hjr' by (unfold journal_readable in *; by rewrite Hjf, Hjh).
  pose proof (indexed_spec (x_record_offset row) (x_record_digest row) (h_journal h) Hjr') as Hx.
  unfold swp at 1, on_journal. unfold swp in Hx. destruct (indexed _ _ (h_journal h)) as [j [x|e| |]] eqn:Hxe; cbn [fst snd wp] in *; try done.
  destruct Hx as ([Hf Hh] & _ & Hb & Hl). apply swp_if; intros Hk; [done|]. bool_facts.
  apply swp_bind, swp_get. cbn [h_config]. apply swp_bind, swp_lift. eapply wp_mono; [apply wp_spend| |done]. intros work1 _.
  apply swp_bind, swp_lift. eapply wp_mono; [apply wp_eq, wp_decode_tcp_record; [done|done|by rewrite Hc]| |done].
  intros [input decision] [[Hin _] Hdec]. cbn [fst] in Hin. apply swp_bind, swp_lift.
  assert (x_end row - x_start row ≤ 65535 ∧ 0 ≤ x_end row - x_start row) as [Hd1 Hd2] by (destruct Hrv as [_ (_ & ? & _)]; lia).
  rewrite signed_ovf_ok by lia. apply wp_ok, swp_if; intros Hz; [done|]. bool_facts.
  apply swp_bind, swp_lift. eapply wp_mono; [apply wp_source_witnesses; [by rewrite Hpkt|done]| |done].
  cbn [h_source h_packets]. intros work2 Hatt. apply swp_ret. cbn [snd o_row]. split; [by repeat split; simpl; try congruence; try apply Hix|].
  split; [done|]. rewrite Hsrc, Hpkt in Hatt. unfold observation_true. cbn [o_row o_input o_decision].
  split; [done|]. split; [lia|]. split; [done|]. split; [done|]. exists x. rewrite <- Hc.
  pose proof (indexed_stable (x_record_offset row) (x_record_digest row) (h_journal h0) (h_journal h) (conj Hjf Hjh)) as Hst.
  rewrite Hxe in Hst. cbn [snd] in Hst. split; [done|]. split; [lia|]. split; [lia|done].
Qed.

Lemma overlaps_true r :
  overlaps r = true ↔ x_generation r = generation ∧ x_direction r = direction ∧ x_start r < stop ∧ start < x_end r.
Proof.
  unfold overlaps. rewrite !andb_true_iff, bytes_eqb_eq, Z.eqb_eq, !Z.ltb_lt. tauto.
Qed.

(** The search for the range starts at or after every row too short to reach it. *)
Definition low : Z := Z.max i64_min (start - 65535).
Lemma overlaps_not_below r : row_valid r → below r generation direction low = true → overlaps r = false.
Proof.
  intros [(_ & _ & Hs & _) (_ & Hl & _)] Hb. apply not_true_is_false. intros (Hg & Hd & Hst & He)%overlaps_true. revert Hb.
  unfold below. rewrite Hg, Hd. simpl. unfold pair_cmp, then_cmp. simpl. pose proof (cmp_refl generation) as Hr. unfold cmp in Hr. simpl in Hr.
  rewrite Hr. unfold pair_cmp, then_cmp. simpl. rewrite Z.compare_refl.
  unfold low, i64_ok in *. destruct (Z.compare_spec (x_start r) (Z.max i64_min (start - 65535))); try done. lia.
Qed.

(** Past the first row of another key, or behind the range, nothing overlaps it. *)
Lemma overlaps_after r r' :
  cmp r r' ≠ Gt → below r generation direction low = false →
  bytes_eqb (x_generation r) generation && (x_direction r =? direction) && (x_start r <? stop) = false → overlaps r' = false.
Proof.
  intros Hle Hb Hr. apply not_true_is_false. intros (Hg & Hd & Hst & He)%overlaps_true. apply row_le_key in Hle.
  unfold search_key in Hle at 2. rewrite Hg, Hd in Hle.
  assert (cmp (generation, (direction, low)) (search_key r) ≠ Gt) as Hge.
  { intros Hc. apply cmp_gt in Hc. unfold below in Hb. unfold lt_ord in Hc. fold (search_key r) in Hb. by rewrite Hc in Hb. }
  destruct (key_between _ _ _ _ _ Hge Hle) as (Hkg & Hkd & Hks). simpl in Hkg, Hkd, Hks. apply not_true_iff_false in Hr. apply Hr.
  rewrite !andb_true_iff, bytes_eqb_eq, Z.eqb_eq, Z.ltb_lt. split; [done|lia].
Qed.

(** The boundaries: the ends of the range and of every observation in it. *)
Definition cuts_of (seen : list Observation) (cuts : list (Z * unit)) : Prop :=
  bt_wf cuts ∧ ∀ k, k ∈ cuts.*1 ↔ k = start ∨ k = stop ∨
    ∃ o, o ∈ seen ∧ (k = Z.max (x_start (o_row o)) start ∨ k = Z.min (x_end (o_row o)) stop).

Lemma cuts_snoc seen cuts o :
  cuts_of seen cuts →
  cuts_of (seen ++ [o]) (bt_insert (bt_insert cuts (Z.max (x_start (o_row o)) start) ()) (Z.min (x_end (o_row o)) stop) ()).
Proof.
  intros [Hw Hk]. split; [by do 2 apply bt_insert_wf|]. intros k. rewrite !elem_of_insert_keys, Hk. split.
  - intros [->|[->|[->|[->|(o' & Ho & H)]]]]; [right; right; exists o; set_solver..|by left|by right; left|].
    right. right. exists o'. set_solver.
  - intros [->|[->|(o' & [Ho| ->%list_elem_of_singleton]%elem_of_app & H)]]; [tauto..| |tauto].
    right. right. right. right. by exists o'.
Qed.

Lemma config_query c : config_validate c = Ok () → 1 ≤ hc_query_intervals c ≤ 65536 ∧ 1 ≤ hc_query_bytes c ≤ 1048576.
Proof. unfold config_validate, contains. case_match eqn:H; [done|]. intros _. bool_facts. lia. Qed.

Definition scan_inv (at0 : Z) (s : Scan) (h : History) : Prop :=
  same_history rows h0 h ∧ at0 ≤ c_at s ≤ zlen rows ∧
  map o_row (c_seen s) = List.filter overlaps (firstn (Z.to_nat (c_at s)) rows) ∧
  Forall observation_true (c_seen s) ∧ cuts_of (c_seen s) (c_cuts s).
Definition scanned_all (s : Scan) (h : History) : Prop :=
  same_history rows h0 h ∧ map o_row (c_seen s) = List.filter overlaps rows ∧
  Forall observation_true (c_seen s) ∧ cuts_of (c_seen s) (c_cuts s).

Lemma filter_from n r :
  get rows n = Some r → below r generation direction low = false →
  bytes_eqb (x_generation r) generation && (x_direction r =? direction) && (x_start r <? stop) = false →
  List.filter overlaps rows = List.filter overlaps (firstn (Z.to_nat n) rows).
Proof.
  destruct ok as (_ & _ & _ & _ & Hso). intros [Hn Hr]%get_Some Hb Hm. rewrite <- (take_drop_middle _ _ _ Hr) at 1.
  rewrite List.filter_app. rewrite (filter_none overlaps (r :: _)); [by rewrite app_nil_r|].
  rewrite <- (take_drop_middle _ _ _ Hr) in Hso. apply StronglySorted_app in Hso as (_ & _ & [_ Hall]%StronglySorted_inv).
  constructor; [apply (overlaps_after r r); [by rewrite cmp_refl|done|done]|].
  eapply Forall_impl; [exact Hall|]. intros r' Hle. by apply (overlaps_after r r').
Qed.

Lemma scan_step_spec at0 s h :
  0 ≤ at0 → (∀ i r, get rows i = Some r → below r generation direction low = bool_decide (i < at0)) → scan_inv at0 s h →
  swp (scan_step io_text generation direction start stop s) h
    (λ h' x, match x with
             | Continue s' => scan_inv at0 s' h' ∧ 0 ≤ zlen rows - c_at s' < zlen rows - c_at s
             | Break s' => scanned_all s' h'
             end) (λ _ _, True).
Proof.
  intros H0 Hlow (Hs & [Hlo Hhi] & Hseen & Htrue & Hcuts). pose proof Hs as (_ & _ & _ & _ & _ & Hix).
  pose proof Hix as (_ & Hv & Hcount & Hmax). unfold scan_step. apply swp_bind, swp_get. apply swp_if; intros Hc.
  - apply swp_ret. split; [done|]. split; [|done]. rewrite Hseen, firstn_all2; [done|]. unfold zlen in *. lia.
  - apply swp_if; intros Hq; [done|]. apply swp_bind, swp_lift. rewrite Hcount in Hc. bool_facts.
    assert (h_config h = h_config h0) as Hcf by apply Hs. destruct ok as (_ & _ & Hcv & _). pose proof (config_query _ Hcv).
    rewrite Hcf in *.
    rewrite add_ovf_ok by lia. apply wp_ok, swp_bind, swp_lift. eapply wp_mono; [apply wp_spend| |done]. intros work _.
    apply swp_bind. eapply swp_mono; [apply (row_of_index rows h0 h (c_at s) Hs); lia| |done].
    intros h1 r [Hs1 Hr]. apply swp_bind, swp_lift. rewrite add_ovf_ok by (unfold WIDTH in *; lia). apply wp_ok. cbv zeta.
    pose proof (Hlow _ _ Hr) as Hb. rewrite bool_decide_false in Hb by lia.
    pose proof (filter_next overlaps rows _ _ Hr) as Hnext. apply swp_if; intros Hm.
    + apply swp_ret. split; [done|]. cbn [c_seen c_cuts]. split; [|done]. rewrite Hseen. symmetry. apply (filter_from _ r); [done|done|].
      rewrite Z.leb_antisym in Hm.
      apply not_true_is_false. intros [[Hm1 Hm2]%andb_true_iff Hm3]%andb_true_iff. by rewrite Hm1, Hm2, Hm3 in Hm.
    + rewrite Z.leb_antisym in Hm. apply orb_false_iff in Hm as [[Hm1 Hm2]%orb_false_iff Hm3].
      apply swp_if; intros He.
      * apply swp_ret. split; [|cbn [c_at]; lia]. split; [done|]. cbn [c_at c_seen c_cuts]. split; [lia|]. split; [|done].
        rewrite Hnext. assert (overlaps r = false) as ->; [|by rewrite app_nil_r].
        unfold overlaps. rewrite (proj2 (Z.ltb_ge start _)) by lia. by rewrite andb_false_r.
      * apply swp_if; intros Hfull; [done|]. apply swp_bind.
        assert (row_valid r) as Hrv by (apply get_Some in Hr as [_ Hr]; rewrite Forall_lookup in Hv; by eapply Hv).
        eapply swp_mono; [by apply (load_observation_spec r work h1)| |done].
        intros h2 [work2 o] (Hs2 & Ho & Hot). cbn [snd] in *. apply swp_ret. split; [|cbn [c_at]; lia]. split; [done|].
        cbn [c_at c_seen c_cuts]. split; [lia|]. rewrite Hnext. assert (overlaps r = true) as ->.
        { apply overlaps_true. bool_facts. split; [done|]. split; [lia|]. split; lia. }
        split; [by rewrite map_app, Hseen, <- Ho|]. split; [apply Forall_app_2; [done|by constructor]|].
        rewrite <- Ho. by apply cuts_snoc.
Qed.

Lemma scan_spec at0 h :
  0 ≤ at0 ≤ zlen rows → (∀ i r, get rows i = Some r → below r generation direction low = bool_decide (i < at0)) →
  same_history rows h0 h →
  swp (loopC (S (Z.to_nat (zlen rows))) (scan_step io_text generation direction start stop)
         {| c_at := at0; c_work := 0; c_scanned := 0; c_seen := []; c_cuts := bt_insert (bt_insert [] start ()) stop () |}) h
      (λ h' s, scanned_all s h') (λ _ _, True).
Proof.
  intros H0 Hlow Hs. destruct ok as (_ & _ & _ & (_ & Hv & _) & _).
  eapply (swp_loop (scan_inv at0) (λ s, zlen rows - c_at s)).
  - intros s h1 Hi. by apply scan_step_spec; [lia|..].
  - split; [done|]. cbn [c_at c_seen c_cuts]. split; [lia|]. split; [|split; [constructor|]].
    + simpl. symmetry. apply filter_none, Forall_lookup. intros i r Hr.
      pose proof (lookup_lt_Some _ _ _ Hr) as Hi. rewrite length_firstn in Hi. rewrite lookup_take_lt in Hr by lia.
      apply overlaps_not_below; [rewrite Forall_lookup in Hv; by eapply Hv|].
      rewrite (Hlow (Z.of_nat i)); [by rewrite bool_decide_true by lia|]. apply get_Some. split; [lia|]. by rewrite Nat2Z.id.
    + split; [do 2 apply bt_insert_wf; constructor|]. intros k. rewrite !elem_of_insert_keys. simpl. set_solver.
  - cbn [c_at]. lia.
Qed.

(** ** Pieces *)

(** What an observation shows of a piece it covers. *)
Definition covers (a b : Z) (o : Observation) : bool := (x_start (o_row o) <=? a) && (b <=? x_end (o_row o)).
Definition slice_of (a b : Z) (o : Observation) : list Z :=
  sub (i_payload (o_input o)) (a - x_start (o_row o)) (b - x_start (o_row o)).
Definition conflicting (slices : list (list Z)) : bool :=
  match slices with [] => false | s :: l => existsb (λ t, negb (bytes_eqb s t)) l end.
Definition unselected (cov : list (Z * Observation)) : bool := existsb (λ io, negb (x_selected (o_row io.2))) cov.
Definition slices_of (a b : Z) (cov : list (Z * Observation)) : list (list Z) := map (λ io, slice_of a b io.2) cov.
Definition covering (a b : Z) (l : list (Z * Observation)) : list (Z * Observation) := List.filter (λ io, covers a b io.2) l.

Definition tallied (a b : Z) (cov : list (Z * Observation)) (t : Tally) : Prop :=
  y_ids t = cov.*1 ∧ y_selected t = head (slices_of a b cov) ∧ y_conflict t = conflicting (slices_of a b cov) ∧
  y_uncertain t = unselected cov.

Lemma conflicting_snoc slices x :
  conflicting (slices ++ [x]) =
  conflicting slices || match head slices with Some old => negb (bytes_eqb old x) | None => false end.
Proof. destruct slices as [|s l]; [done|]. simpl. rewrite existsb_app. simpl. by rewrite orb_false_r. Qed.

(** The payload fills the interval of its row. *)
Definition sized (o : Observation) : Prop :=
  zlen (i_payload (o_input o)) = x_end (o_row o) - x_start (o_row o) ∧ x_start (o_row o) < x_end (o_row o) ≤ x_start (o_row o) + 65535.

Lemma wp_tally c a b t io cov :
  1 ≤ hc_query_intervals c ≤ 65536 → a < b → sized io.2 → tallied a b cov t → 0 ≤ y_references t ≤ 4 * 65536 →
  wp (tally c a b t io)
     (λ t', tallied a b (cov ++ covering a b [io]) t' ∧ 0 ≤ y_references t' ≤ 4 * 65536) (λ _, True).
Proof.
  intros Hc Hab [Hz Hrow] (Hi & Hs & Hcf & Hu) Hr. destruct io as [i o]. cbn [snd] in *. unfold tally, covering. simpl.
  apply wp_bind. eapply wp_mono; [apply wp_spend| |done]. intros work _. fold (covers a b o).
  change ((x_start (o_row o) <=? a) && (b <=? x_end (o_row o))) with (covers a b o). destruct (covers a b o) eqn:Hco.
  2: { apply wp_ok. rewrite app_nil_r. done. }
  unfold covers in Hco. bool_facts. apply wp_bind. rewrite signed_ovf_ok by lia. apply wp_ok, wp_bind.
  rewrite signed_ovf_ok by lia. apply wp_ok, wp_bind. rewrite slice_ok by lia. apply wp_ok. fold (slice_of a b o).
  apply wp_bind. eapply wp_mono; [apply wp_spend| |done]. intros work2 _. apply wp_bind. rewrite add_ovf_ok by lia. apply wp_ok.
  case_match eqn:Hm; [done|]. apply wp_ok. split; [|cbn [y_references]; lia]. unfold tallied, slices_of, unselected in *.
  cbn [y_ids y_selected y_conflict y_uncertain]. rewrite fmap_app, map_app. cbn [map snd]. rewrite conflicting_snoc, existsb_app, Hi, Hcf, Hu, Hs. simpl.
  split; [done|]. split; [by destruct cov|]. split; [done|]. by rewrite orb_false_r.
Qed.

Definition piece_of (seen : list Observation) (ab : Z * Z) : RangePiece :=
  let '(a, b) := ab in
  let cov := covering a b (enumerate seen) in
  {| e_start := a; e_end := b;
     e_status := match slices_of a b cov with
                 | [] => Gap
                 | _ => if conflicting (slices_of a b cov) then Conflicting else if unselected cov then Ambiguous else Candidate
                 end;
     e_ids := cov.*1;
     e_bytes := if conflicting (slices_of a b cov) || unselected cov then None else head (slices_of a b cov) |}.

Lemma wp_range_piece c seen work references pieces a b :
  1 ≤ hc_query_intervals c ≤ 65536 → a < b → Forall sized seen → 0 ≤ references ≤ 4 * 65536 →
  wp (piece_step c seen (work, references, pieces) (a, b))
     (λ r, r.2 = pieces ++ [piece_of seen (a, b)] ∧ 0 ≤ r.1.2 ≤ 4 * 65536) (λ _, True).
Proof.
  intros Hc Hab Hsz Hr. unfold piece_step. apply wp_bind.
  apply (wp_foldM (λ pre t, tallied a b (covering a b pre) t ∧ 0 ≤ y_references t ≤ 4 * 65536) _ _ _ _ []).
  - intros pre io post t Heq [Ht Hrt]. unfold covering. rewrite List.filter_app. apply wp_tally; try done.
    rewrite Forall_forall in Hsz. apply Hsz. destruct io as [i o].
    apply enumerate_member, get_Some in Heq as [_ Heq].
    by eapply list_elem_of_lookup_2.
  - done.
  - intros t [(Hi & Hs & Hcf & Hu) Hrt]. apply wp_ok. cbn [fst snd]. split; [|done]. simpl in *. f_equal. f_equal.
    unfold piece_status. rewrite Hi, Hs, Hcf, Hu. by destruct (slices_of _ _ _).
Qed.

Lemma wp_pieces c seen pairs work references pieces :
  1 ≤ hc_query_intervals c ≤ 65536 → Forall (λ ab, ab.1 < ab.2) pairs → Forall sized seen → 0 ≤ references ≤ 4 * 65536 →
  wp (foldM (piece_step c seen) (work, references, pieces) pairs)
     (λ r, r.2 = pieces ++ map (piece_of seen) pairs) (λ _, True).
Proof.
  intros Hc Hp Hsz. revert work references pieces. induction Hp as [|[a b] pairs Hab _ IH]; intros work references pieces Hr; cbn [foldM].
  - apply wp_ok. by rewrite app_nil_r.
  - apply wp_bind. eapply wp_mono; [by apply wp_range_piece| |done]. intros [[work2 references2] pieces2] [Heq Hr2]. cbn [fst snd] in *.
    subst pieces2. eapply wp_mono; [by apply IH| |done]. intros r Hr3. simpl. by rewrite Hr3, <- app_assoc.
Qed.

(** Consecutive boundaries. *)
Fixpoint tiles (a : Z) (l : list (Z * Z)) (b : Z) : Prop :=
  match l with
  | [] => a = b
  | p :: l => p.1 = a ∧ a < p.2 ∧ tiles p.2 l b
  end.

Lemma lt_ord_Z (a b : Z) : lt_ord a b → a < b.
Proof. done. Qed.

Lemma windows_cons a b l : windows (a :: b :: l) = (a, b) :: windows (b :: l).
Proof. done. Qed.

Lemma windows_tile a l b :
  StronglySorted lt_ord (a :: l) → b ∈ a :: l → Forall (λ k, k ≤ b) (a :: l) → tiles a (windows (a :: l)) b.
Proof.
  revert a. induction l as [|c l IH]; intros a Hs Hb Hall.
  - by apply list_elem_of_singleton in Hb.
  - rewrite windows_cons. apply StronglySorted_inv in Hs as [Hs Ha]. apply Forall_cons in Hall as [Hab Hall].
    apply Forall_cons in Ha as [Hac%lt_ord_Z _]. simpl. split; [done|]. split; [done|]. apply IH; [done| |done].
    apply elem_of_cons in Hb as [->|Hb]; [|done]. apply Forall_cons in Hall as [? _]. simpl in *. lia.
Qed.

Lemma tiles_ordered a l b : tiles a l b → Forall (λ p, p.1 < p.2) l.
Proof. revert a. induction l as [|[x y] l IH]; intros a; simpl; [constructor|]. intros (-> & Hy & Ht). constructor; [done|by eapply IH]. Qed.

(** No boundary lies inside a piece. *)
Lemma windows_between l a b k : StronglySorted lt_ord l → (a, b) ∈ windows l → k ∈ l → k ≤ a ∨ b ≤ k.
Proof.
  induction l as [|x l IH]; [set_solver|]. destruct l as [|y l]; [set_solver|]. rewrite windows_cons.
  intros [Hs Hx]%StronglySorted_inv Hw Hk. rewrite Forall_forall in Hx. apply elem_of_cons in Hw as [[= -> ->]|Hw].
  - apply elem_of_cons in Hk as [->|Hk]; [by left|]. right. apply StronglySorted_inv in Hs as [_ Hy].
    apply elem_of_cons in Hk as [->|Hk]; [lia|]. rewrite Forall_forall in Hy. apply Z.lt_le_incl, lt_ord_Z, Hy, Hk.
  - apply elem_of_cons in Hk as [->|Hk]; [|by apply IH]. left.
    assert (a ∈ y :: l) as Ha by (apply elem_of_zip_l in Hw; exact Hw). apply Z.lt_le_incl, lt_ord_Z, Hx, Ha.
Qed.

(** A piece lies inside an observation or outside of it. *)
Definition separated (seen : list Observation) (p : Z * Z) : Prop :=
  Forall (λ o, covers p.1 p.2 o = true ∨ x_end (o_row o) ≤ p.1 ∨ p.2 ≤ x_start (o_row o)) seen.

Lemma tiles_le a l b : tiles a l b → a ≤ b.
Proof. revert a. induction l as [|[x y] l IH]; intros a; simpl; [lia|]. intros (-> & Hy & Ht). apply IH in Ht. lia. Qed.
Lemma tiles_range a l b : tiles a l b → Forall (λ p, a ≤ p.1 ∧ p.2 ≤ b) l.
Proof.
  revert a. induction l as [|[x y] l IH]; intros a; simpl; [constructor|]. intros (-> & Hy & Ht).
  pose proof (tiles_le _ _ _ Ht).
  constructor; [simpl; lia|]. eapply Forall_impl; [by apply IH|]. simpl. lia.
Qed.

Lemma cuts_pieces seen cuts :
  start < stop → cuts_of seen cuts → Forall (λ o, overlaps (o_row o) = true ∧ x_start (o_row o) < x_end (o_row o)) seen →
  tiles start (windows cuts.*1) stop ∧ Forall (separated seen) (windows cuts.*1).
Proof.
  intros Hr [Hs Hk] Hseen. rewrite Forall_forall in Hseen.
  assert (∀ k, k ∈ cuts.*1 → start ≤ k ≤ stop) as Hin.
  { intros k [->|[->|(o & [(_ & _ & H1 & H2)%overlaps_true H3]%Hseen & H)]]%Hk; lia. }
  assert (tiles start (windows cuts.*1) stop) as Ht.
  { unfold bt_wf in Hs. destruct (cuts.*1) as [|a l]; [exfalso; eapply not_elem_of_nil, Hk; by left|].
    assert (a = start) as ->.
    { apply StronglySorted_inv in Hs as [_ Ha]. pose proof (proj2 (Hk start) (or_introl eq_refl)) as [->|H]%elem_of_cons; [done|].
      rewrite Forall_forall in Ha. apply Ha, lt_ord_Z in H. pose proof (Hin a ltac:(left)). lia. }
    apply windows_tile; [done|apply Hk; by right; left|]. apply Forall_forall. intros k Hkin. by apply Hin. }
  split; [done|]. apply tiles_range in Ht as Hrange. rewrite Forall_forall in Hrange. apply Forall_forall. intros [a b] Hw.
  pose proof (Hrange _ Hw) as [Ha Hb]. apply Forall_forall. intros o Ho. simpl in *.
  pose proof (Hseen _ Ho) as [(_ & _ & H1 & H2)%overlaps_true H3].
  assert (Z.max (x_start (o_row o)) start ∈ cuts.*1) as Hc1 by (apply Hk; right; right; exists o; tauto).
  assert (Z.min (x_end (o_row o)) stop ∈ cuts.*1) as Hc2 by (apply Hk; right; right; exists o; tauto).
  pose proof (windows_between _ _ _ _ Hs Hw Hc1). pose proof (windows_between _ _ _ _ Hs Hw Hc2).
  unfold covers. destruct (Z.leb_spec (x_start (o_row o)) a); [destruct (Z.leb_spec b (x_end (o_row o))); [by left|]|]; right; simpl; lia.
Qed.

Lemma seen_rows seen :
  map o_row seen = List.filter overlaps rows → Forall (λ o, overlaps (o_row o) = true ∧ row_valid (o_row o)) seen.
Proof.
  destruct ok as (_ & _ & _ & (_ & Hv & _) & _). intros Hm. apply Forall_forall. intros o Ho.
  assert (In (o_row o) (List.filter overlaps rows)) as [Hin Hov]%filter_In by (rewrite <- Hm; apply in_map, list_elem_of_In, Ho).
  split; [done|]. rewrite Forall_forall in Hv. by apply Hv, list_elem_of_In.
Qed.

Lemma range_evidence_spec :
  swp (range_evidence io_text generation direction start stop) h0
    (λ h x, same_history rows h0 h ∧ map o_row x.2 = List.filter overlaps rows ∧ Forall observation_true x.2 ∧
       ∃ pairs, tiles start pairs stop ∧ Forall (separated x.2) pairs ∧ x.1 = map (piece_of x.2) pairs) (λ _ _, True).
Proof.
  pose proof ok as (_ & _ & Hcv & Hix & Hso). unfold range_evidence. apply swp_bind, swp_lift.
  assert (wp (match checked_i64 (stop - start) with
              | Some n => if 0 <? n then Ok n else Err (bad "query_range" "positive ordered range required")
              | None => Err (bad "query_range" "positive ordered range required")
              end) (λ n, start < stop) (λ _, True)) as Hsize.
  { destruct (checked_i64 (stop - start)) as [n|] eqn:Hq; [|done]. destruct (Z.ltb_spec 0 n); [|done]. apply wp_ok.
    unfold checked_i64 in Hq. case_match; [|done]. simplify_eq. lia. }
  eapply wp_mono; [exact Hsize| |done]. intros size Hlt. apply swp_bind, swp_get. apply swp_if; intros _; [done|].
  apply swp_bind. eapply swp_mono.
  { eapply (on_index_spec _ rows h0 h0); [by apply same_history_refl|]. by apply lower_bound_spec. }
  2: done.
  intros h1 at0 (Hs1 & Hat & Hlow). fold low in Hlow. destruct Hix as (_ & _ & Hcount & _). rewrite Hcount.
  apply swp_bind. eapply swp_mono; [by apply (scan_spec at0 h1)| |done]. intros h2 s (Hs2 & Hseen & Htrue & Hcuts).
  pose proof (seen_rows _ Hseen) as Hrows. destruct (cuts_pieces (c_seen s) (c_cuts s)) as [Htiles Hsep]; [done|done| |].
  { eapply Forall_impl; [exact Hrows|]. intros o [Ho [_ (_ & ? & _)]]. split; [done|lia]. }
  assert (Forall sized (c_seen s)) as Hsized.
  { apply Forall_forall. intros o Ho. rewrite Forall_forall in Hrows, Htrue. destruct (Hrows o Ho) as [_ [_ (_ & ? & _)]].
    destruct (Htrue o Ho) as (_ & ? & _). split; [done|lia]. }
  apply swp_bind, swp_lift. eapply wp_mono; [apply wp_pieces| |done].
  - by apply config_query.
  - by eapply tiles_ordered.
  - done.
  - lia.
  - intros r Hr. apply swp_ret. cbn [fst snd]. split; [done|]. split; [done|]. split; [done|]. by exists (windows (c_cuts s).*1).
Qed.
End range.

Lemma wp_observation_json io : wp (observation_json io) (λ _, True) (λ _, True).
Proof. destruct io as [i o]. unfold observation_json. rewrite digest_ok. by rewrite bind_Ok. Qed.

Lemma wp_encode_bounded j n : wp (encode_bounded j n) (λ _, True) (λ _, True).
Proof. unfold encode_bounded, encoded_len_bounded. apply wp_bind, wp_ok_or; [|done]. intros; by apply wp_ok. Qed.

(** What a range query says of the rows [rows] of a workspace. *)
Definition range_shown (generation : list Z) (direction start stop : Z) (rows : list Row) (h : History) (report : Json) : Prop :=
  ∃ seen pairs evidence,
    map o_row seen = List.filter (overlaps generation direction start stop) rows ∧
    Forall (observation_true generation direction h) seen ∧
    tiles start pairs stop ∧ Forall (separated seen) pairs ∧
    mapM observation_json (enumerate seen) = Ok evidence ∧
    report = range_report (h_identity h) generation direction (map (piece_of seen) pairs) evidence.

Lemma range_spec generation direction start stop (rows : list Row) (h : History) :
  history_ok rows h →
  swp (range io_text generation direction start stop) h
    (λ h' report, same_history rows h h' ∧ range_shown generation direction start stop rows h report) (λ _ _, True).
Proof.
  intros Hok. unfold range. apply swp_bind. eapply swp_mono; [by apply range_evidence_spec| |done].
  intros h' [pieces seen] (Hs & Hseen & Htrue & pairs & Ht & Hsep & Hp). cbn [fst snd] in *. apply swp_bind, swp_get.
  apply swp_bind, swp_lift. eapply wp_mono; [apply wp_eq, (wp_mapM _ _ (λ _ _, True)); intros; apply wp_observation_json| |done].
  intros evidence [_ He]. cbv zeta. apply swp_bind, swp_lift. eapply wp_mono; [apply wp_encode_bounded| |done]. intros _ _.
  apply swp_ret. split; [done|]. exists seen, pairs, evidence. pose proof Hs as (_ & _ & _ & Hid & _). rewrite <- Hid, <- Hp. by split_and!.
Qed.
End query.
