(* ===== verification/HistOpenFacts.v ===== *)
(** * An opened workspace is what was sealed

    [History::open] succeeds only on a source with the digest and length of the journal's
    header, a journal that is well formed to its last octet and ends in a seal, and index
    and packet files with the digests and lengths of that seal; the index is then a
    strictly sorted list of valid rows, one for each interval the seal counts. *)

From stdpp Require Import sorting.
From Stdlib Require Import Sorting.
From S2P Require Import Prelude Errors Stateful Ord Sha256 ModbusFacts SemanticsFacts Codec CodecFacts.
From S2P Require Import HistModel HistModelFacts HistState Journal JournalFacts HistIndex HistIndexFacts HistQuery HistQueryFacts.

Section opening.
Context {files_read : FileRead}.

(** ** Files by their digest *)

(** The longest file that is hashed under a limit. *)
Definition hash_limit (max : Z) : Z := Z.min max (u64_max / 8).

Lemma hash_loop_spec fuel max d s bs rest :
  0 ≤ d_at d ≤ zlen (d_bytes d) → d_at d ≤ hash_limit max →
  absorbed s (sub (d_bytes d) 0 (d_at d)) bs rest → h_bytes s = d_at d mod 2 ^ 64 →
  zlen (d_bytes d) - d_at d < Z.of_nat fuel →
  swp (hash_loop fuel max (s, d_at d)) d
    (λ _ r, r.2 = zlen (d_bytes d) ∧ zlen (d_bytes d) ≤ hash_limit max ∧
       ∃ bs rest, absorbed r.1 (d_bytes d) bs rest ∧ h_bytes r.1 = zlen (d_bytes d) mod 2 ^ 64)
    (λ _ _, hash_limit max < zlen (d_bytes d)).
Proof.
  revert d s bs rest. induction fuel as [|fuel IH]; intros d s bs rest Hd Hmax Hab Hby Hf; [lia|]. cbn [hash_loop].
  apply swp_bind, swp_read_some; [done|done| |].
  - intros He. rewrite zlen_nil. apply swp_ret. cbn [fst snd]. rewrite He, sub_full in *. split; [done|]. split; [done|]. by exists bs, rest.
  - intros k Hk Hle. rewrite zlen_sub by lia. apply swp_if; intros Hz; [lia|]. apply swp_bind, swp_lift. unfold hash_piece.
    rewrite zlen_sub by lia. replace (d_at d + k - d_at d) with k by lia. apply wp_bind.
    apply wp_ok_or; [|intros Hn; unfold checked_add in Hn; case_match; [done|];
      unfold hash_limit in *; change (u64_max / 8) with 2305843009213693951 in *; lia].
    intros total [-> _]%checked_add_Some. case_match eqn:Hm; [apply orb_true_iff in Hm as [Hm|Hm]; cbn [wp]; unfold hash_limit; lia|].
    destruct (update_spec s _ bs rest (sub (d_bytes d) (d_at d) (d_at d + k)) Hab) as (s1 & bs1 & rest1 & -> & Hab1 & Hby1).
    rewrite bind_Ok. apply wp_ok.
    change (d_at d + k) with (d_at (at_pos d (d_at d + k))) at 1. eapply (IH (at_pos d (d_at d + k)) s1 bs1 rest1); simpl.
    + lia.
    + unfold hash_limit. bool_facts. lia.
    + by rewrite (sub_split _ 0 (d_at d)) by lia.
    + rewrite Hby1, Hby, zlen_sub by lia. unfold wrapping_add. rewrite Z.add_mod_idemp_l by lia. f_equal. lia.
    + lia.
Qed.

(** The digest and length of a file. *)
Definition identity_of (file : list Z) : SourceIdentity := {| si_sha256 := sha_reference file; si_bytes := zlen file |}.

Lemma wp_hash_file file max :
  0 ≤ max → wp (hash_file file max) (λ i, i = identity_of file ∧ zlen file ≤ hash_limit max) (λ _, hash_limit max < zlen file).
Proof.
  intros Hmax. unfold hash_file. apply wp_bind. pose proof (zlen_nonneg file).
  pose proof (hash_loop_spec (S (length file)) max (decoder_new file) sha256_new [] []) as Hw. cbn [decoder_new d_at d_bytes] in Hw.
  assert (0 ≤ hash_limit max) as H0 by (by apply Z.min_glb).
  specialize (Hw ltac:(lia) H0). rewrite sub_empty in Hw. specialize (Hw absorbed_new eq_refl ltac:(unfold zlen; lia)).
  unfold swp in Hw. unfold decode_all. eapply wp_mono; [exact Hw| |done].
  intros [s n] (Hn & Hle & bs & rest & Hab & Hby). cbn [fst snd] in *. rewrite (finalize_spec s _ bs rest Hab Hby).
  rewrite bind_Ok. apply wp_ok. by rewrite Hn.
Qed.
Lemma hash_file_complete file max : 0 ≤ max → zlen file ≤ hash_limit max → hash_file file max = Ok (identity_of file).
Proof.
  intros H0 Hl. pose proof (wp_hash_file file max H0) as Hw. destruct (hash_file file max); cbn [wp] in *; try done; [|lia]. by destruct Hw as [-> _].
Qed.

(** ** The seal *)

Definition seal_numbers (s : Seal) : Prop :=
  u64_ok (s_packets s) ∧ u64_ok (s_tcp s) ∧ u64_ok (s_notices s) ∧ u64_ok (s_intervals s) ∧ hash_ok (s_range_hash s) ∧
  u64_ok (s_range_len s) ∧ hash_ok (s_packet_hash s) ∧ u64_ok (s_packet_len s).
Definition seal_octets (s : Seal) : list Z :=
  to_le_bytes 8 (s_packets s) ++ to_le_bytes 8 (s_tcp s) ++ to_le_bytes 8 (s_notices s) ++ to_le_bytes 8 (s_intervals s) ++
  s_range_hash s ++ to_le_bytes 8 (s_range_len s) ++ s_packet_hash s ++ to_le_bytes 8 (s_packet_len s).
#[global] Instance get_seal_codec : Codec get_seal seal_octets seal_numbers.
Proof.
  constructor.
  - intros [p t n i rh rl ph pl] x (Hp & Ht & Hn & Hi & Hrh & Hrl & Hph & Hpl) Hx Hw. simpl in *. unfold get_seal.
    eapply (complete_step _ p x); [done|done|exact Hw|]. intros ? Hw1.
    eapply (complete_step _ t _); [done|done|exact Hw1|]. intros ? Hw2.
    eapply (complete_step _ n _); [done|done|exact Hw2|]. intros ? Hw3.
    eapply (complete_step _ i _); [done|done|exact Hw3|]. intros ? Hw4.
    eapply (complete_step _ rh _); [done|done|exact Hw4|]. intros ? Hw5.
    eapply (complete_step _ rl _); [done|done|exact Hw5|]. intros ? Hw6.
    eapply (complete_step _ ph _); [done|done|exact Hw6|]. intros ? Hw7.
    eapply (complete_step _ pl _ []); [done|done|by rewrite app_nil_r|]. intros _ _.
    unfold mret, stateful_ret, seal_octets. simpl. by rewrite !skip_skip, <- !zlen_app.
  - intros x Hx. unfold get_seal. repeat writes. written. unfold seal_numbers, u64_ok. simpl. tauto.
Qed.

(** The seal is the last record. *)
Definition last_seal (seal : option (list Z)) (rs : list (Z * list Z)) : option (list Z) :=
  if last rs is Some (k, body) then if k =? SEAL then Some body else seal else seal.

Lemma last_seal_cons r seal x rs :
  all_follow (advanced r x) rs →
  last_seal (if r_kind (record_of r x) =? SEAL then Some (r_body (record_of r x)) else seal) rs = last_seal seal (x :: rs).
Proof.
  intros [Hopen _]. destruct x as [k body]. unfold last_seal. cbn [record_of r_kind r_body fst snd].
  destruct rs as [|[k2 b2] rs]; [done|]. assert ((k =? SEAL) = false) as ->; [|by rewrite last_cons_cons].
  rewrite open_advanced in Hopen. unfold terminal_kind in Hopen. cbn [fst] in Hopen.
  destruct (k =? SEAL); [|done]. rewrite orb_true_r in Hopen. by specialize (Hopen eq_refl).
Qed.

Lemma find_seal_spec fuel seal r :
  reader_good r → zlen (j_file r) - j_at r < Z.of_nat fuel →
  swp (find_seal fuel seal) r
    (λ r' b, same_journal r r' ∧ ∃ rs, all_follow r rs ∧ rest_is r (rest_octets r rs) ∧ b = last_seal seal rs) (λ _ _, True).
Proof.
  revert r seal. induction fuel as [|fuel IH]; intros r seal Hg Hf; [destruct Hg as (_ & (Hat & _) & _); simpl in Hat; lia|].
  cbn [find_seal]. apply swp_bind. eapply swp_mono; [by apply next_record_canonical| |done]. intros r' [x|].
  - intros (y & Hm & Hw & -> & ->). pose proof (zlen_next_octets r y).
    eapply swp_mono; [apply IH; [by apply advanced_good|cbn [advanced j_file j_at]; lia]| |done].
    intros r2 b ([Hs1 Hs2] & rs & Hfo & Hr & ->). split; [done|]. exists (y :: rs). split; [by apply all_follow_cons|].
    split; [by apply rest_is_cons|]. by apply last_seal_cons.
  - intros [-> Hat]. apply swp_ret. split; [done|]. exists []. destruct Hg as (_ & Hb & _ & Hn & _).
    split; [split; [done|]; split; [done|]; split; [constructor|]; rewrite zlen_nil; lia|].
    split; [|done]. split; [by apply ahead_nil|]. unfold rest_octets. cbn [chain]. rewrite zlen_nil. lia.
Qed.

Lemma find_seal_complete rs seal r fuel :
  reader_good r → all_follow r rs → rest_is r (rest_octets r rs) → zlen (j_file r) - j_at r < Z.of_nat fuel →
  ∃ r', find_seal fuel seal r = (r', Ok (last_seal seal rs)).
Proof.
  revert seal r fuel. induction rs as [|x rs IH]; intros seal r [|fuel] Hg Hf Hw Hfuel; try (destruct Hg as (_ & (Hat & _) & _); simpl in Hat; lia).
  - destruct Hw as [_ Hw]. unfold rest_octets in Hw. cbn [chain] in Hw. rewrite zlen_nil in Hw. cbn [find_seal].
    pose proof (next_record_end r Hg ltac:(lia)) as Hn. unfold mbind, stateful_bind.
    destruct (next_record r) as [r' o]. cbn [snd] in Hn. rewrite Hn. by exists r'.
  - apply rest_is_cons in Hw as [Hx Hw]; [|done]. apply all_follow_cons in Hf as [Hm Hf]. cbn [find_seal]. unfold mbind, stateful_bind.
    rewrite (next_record_complete r x) by done. pose proof (zlen_next_octets r x). rewrite <- (last_seal_cons r) by done.
    apply IH; [by apply advanced_good|done|done|cbn [advanced j_file j_at]; lia].
Qed.

(** ** The order of the index *)

(** The first [n] rows of a file are read and strictly in order. *)
Definition ordered (ranges : list Z) (n : Z) (rows : list Row) : Prop :=
  zlen rows = n ∧ Forall row_valid rows ∧ sub ranges 0 (WIDTH * n) = rows_octets rows ∧ StronglySorted lt_ord rows.
Definition order_inv (ranges : list Z) (n : Z) (x : RangeIndex) (previous : option Row) : Prop :=
  d_bytes (i_file x) = ranges ∧ i_count x = zlen ranges `div` WIDTH ∧ ∃ rows, ordered ranges n rows ∧ previous = last rows.

Lemma sorted_after (rows : list Row) r :
  StronglySorted lt_ord rows → (∀ old, last rows = Some old → lt_ord old r) → StronglySorted lt_ord (rows ++ [r]).
Proof.
  intros Hs Hr. apply StronglySorted_app_2; [|done|repeat constructor]. intros x y Hx ->%list_elem_of_singleton.
  destruct rows as [|z rows] using rev_ind; [set_solver|]. rewrite last_snoc in Hr. specialize (Hr z eq_refl).
  apply elem_of_app in Hx as [Hx| ->%list_elem_of_singleton]; [|done].
  assert (lt_ord x z) as Hxz by (eapply (StronglySorted_app_1_elem_of lt_ord); [exact Hs|done|set_solver]).
  unfold lt_ord in *. by eapply cmp_trans.
Qed.

Lemma order_row_spec ranges n x previous :
  bytes_ok ranges → 0 ≤ n → WIDTH * (n + 1) ≤ zlen ranges ≤ i64_max → order_inv ranges n x previous →
  swp (order_row previous n) x (λ x' p, order_inv ranges (n + 1) x' p) (λ _ _, True).
Proof.
  intros Hb Hn Hl (Hx & Hc & rows & (Hz & Hv & Hsub & Hs) & ->). unfold order_row. apply swp_bind. unfold swp at 1, row_at.
  rewrite Hc. destruct (Z.leb_spec (zlen ranges `div` WIDTH) n); [done|]. rewrite (proj2 (Z.ltb_ge _ _)) by (unfold WIDTH in *; lia).
  pose proof (read_row_spec (at_pos (i_file x) (n * WIDTH))) as Hw. unfold swp, at_pos in Hw. cbn [d_bytes d_at] in Hw. rewrite Hx in Hw |- *.
  specialize (Hw ltac:(unfold WIDTH in *; lia) Hb). destruct (read_row _) as [f [[r|]|e| |]]; cbn [fst snd wp ok_or mbind res_bind] in *; try done.
  destruct Hw as (Hle & -> & Hr & Hrs). apply swp_if; intros Ho; [done|]. apply swp_ret. split; [done|]. split; [done|].
  exists (rows ++ [r]). rewrite last_snoc. split; [|done]. split; [rewrite zlen_app; change (zlen [r]) with 1; lia|].
  split; [by apply Forall_app_2; [|constructor]|]. split.
  - rewrite rows_octets_app, (sub_split _ 0 (WIDTH * n)), Hsub by (unfold WIDTH in *; lia). f_equal. unfold rows_octets. cbn [map concat].
    rewrite app_nil_r, <- Hrs. f_equal; lia.
  - apply sorted_after; [done|]. intros old Hold. rewrite Hold in Ho. unfold lt_ord. by destruct (cmp old r).
Qed.

Lemma order_spec ranges x :
  bytes_ok ranges → zlen ranges ≤ i64_max → index_open ranges = Ok x →
  swp (foldC order_row None (seqZ 0 (i_count x))) x
    (λ x' _, ∃ rows, ranges = rows_octets rows ∧ index_of x' rows ∧ StronglySorted lt_ord rows) (λ _ _, True).
Proof.
  intros Hb Hl Hx. unfold index_open in Hx. case_match eqn:Hm; [done|]. apply negb_false_iff, Z.eqb_eq in Hm. simplify_eq. cbn [i_count].
  pose proof (Z_div_exact_full_2 (zlen ranges) WIDTH ltac:(done) Hm) as Hd. set (count := zlen ranges `div` WIDTH) in *.
  pose proof (zlen_nonneg ranges). assert (0 ≤ count) by (clearbody count; unfold WIDTH in *; lia).
  apply (swp_fold (λ pre x p, order_inv ranges (zlen pre) x p) order_row _ _ []).
  - intros pre a post x p Heq Hi. rewrite app_nil_l in Heq. destruct (seqZ_split _ _ _ _ Heq) as (-> & Hlt & _).
    rewrite zlen_app. change (zlen [zlen pre]) with 1. pose proof (zlen_nonneg pre). apply order_row_spec; [done..| |done].
    unfold WIDTH in *. lia.
  - split; [done|]. split; [done|]. exists []. split; [|done]. split; [done|]. split; [constructor|]. split; [by rewrite sub_empty|constructor].
  - intros x p (Hf & Hc & rows & (Hz & Hv & Hsub & Hs) & _). rewrite app_nil_l in Hz, Hsub.
    rewrite zlen_seqZ in Hz, Hsub by done. exists rows. rewrite <- Hd, sub_full in Hsub. split; [done|].
    split; [|done]. split; [by rewrite Hf|]. split; [done|]. split; [by rewrite Hc, Hz|]. rewrite Hz. lia.
Qed.

(** Rows in order are read through in order. *)
Lemma order_complete x rows :
  index_of x rows → StronglySorted lt_ord rows →
  swp (foldC order_row None (seqZ 0 (i_count x))) x (λ _ _, True) (λ _ _, False).
Proof.
  intros Hix Hs. pose proof Hix as (_ & _ & Hc & _). rewrite Hc. pose proof (zlen_nonneg rows).
  apply (swp_fold (λ pre x p, index_of x rows ∧ p = last (firstn (length pre) rows)) order_row _ _ []); [|done|done].
  intros pre n post x1 p Heq [Hx1 ->]. rewrite app_nil_l in Heq. destruct (seqZ_split _ _ _ _ Heq) as (-> & Hlt & _).
  unfold order_row. apply swp_bind. eapply swp_mono; [apply (row_at_spec _ x1 rows Hx1); lia| |by intros s e (_ & ? & _); lia].
  intros x2 r [Hx2 [_ Hr]%get_Some]. unfold zlen in Hr. rewrite Nat2Z.id in Hr.
  assert (∀ old, last (firstn (length pre) rows) = Some old → cmp old r = Lt) as Hlast.
  { intros old Hold. rewrite <- (take_drop_middle _ _ _ Hr) in Hs. apply last_Some_elem_of in Hold.
    apply StronglySorted_app in Hs as (Hs & _). apply (Hs old r); [done|left]. }
  apply swp_if; intros Ho.
  - destruct (last _) as [old|]; [|done]. by rewrite (Hlast old eq_refl) in Ho.
  - apply swp_ret. split; [done|]. rewrite length_app. cbn [length]. rewrite Nat.add_1_r, (take_S_r _ _ _ Hr). by rewrite last_snoc.
Qed.

(** ** [History::open] *)

(** A workspace that is whole: a sealed journal of the source, and the files the seal
    names. *)
Definition whole (source log ranges packets : list Z) (i : SourceIdentity) (c : HConfig) (rs : list (Z * list Z)) (s : Seal)
    (rows : list Row) : Prop :=
  (header_of_journal i c ∧ journal_ok c rs ∧ log = journal i c rs ∧ i = identity_of source ∧
   last rs = Some (SEAL, seal_octets s) ∧ seal_numbers s) ∧
  (identity_of ranges = {| si_sha256 := s_range_hash s; si_bytes := s_range_len s |} ∧
   identity_of packets = {| si_sha256 := s_packet_hash s; si_bytes := s_packet_len s |} ∧
   zlen source ≤ hash_limit (hc_source_bytes c) ∧ zlen ranges ≤ hash_limit (hc_disk_bytes c) ∧
   zlen packets ≤ hash_limit (hc_disk_bytes c)) ∧
  (ranges = rows_octets rows ∧ Forall row_valid rows ∧ StronglySorted lt_ord rows ∧
   zlen ranges = WIDTH * s_intervals s ∧ zlen packets = PACKET_WIDTH * s_packets s).

Lemma lt_le_sorted rows : StronglySorted lt_ord rows → StronglySorted (λ r r', cmp r r' ≠ Gt) rows.
Proof.
  induction 1 as [|r rows Hs IH Hr]; constructor; [done|]. eapply Forall_impl; [exact Hr|]. unfold lt_ord. by intros r' ->.
Qed.

Lemma config_files c : config_typed c → 0 ≤ hc_source_bytes c ∧ 0 ≤ hc_disk_bytes c.
Proof. intros [Ht _]. unfold config_numbers in Ht. decompose_Forall. simpl in *. lia. Qed.

Lemma seal_body c rs k body : journal_ok c rs → config_validate c = Ok () → last rs = Some (k, body) → bytes_ok body ∧ zlen body ≤ i64_max.
Proof.
  intros (Hr & Hb & _) Hc Hl. apply last_Some_elem_of in Hl. rewrite Forall_forall in Hb. split; [by apply (Hb (k, body))|].
  destruct (records_ok_elem _ _ _ Hr Hl) as [_ H]. destruct (config_records _ Hc) as (? & _). simpl in *. lia.
Qed.

Lemma wp_seal_disagrees s ranges packets :
  wp (seal_disagrees s (identity_of ranges) (identity_of packets))
    (λ b, b = false →
       identity_of ranges = {| si_sha256 := s_range_hash s; si_bytes := s_range_len s |} ∧
       identity_of packets = {| si_sha256 := s_packet_hash s; si_bytes := s_packet_len s |} ∧
       zlen ranges = WIDTH * s_intervals s ∧ zlen packets = PACKET_WIDTH * s_packets s) (λ _, True).
Proof.
  unfold seal_disagrees, identity_of. cbn [si_sha256 si_bytes]. case_match eqn:Hc; [by apply wp_ok|].
  apply wp_bind, wp_ok_or; [|done]. intros n Hn. case_match eqn:Hl; [by apply wp_ok|].
  apply wp_bind, wp_ok_or; [|done]. intros m Hm. apply wp_ok. intros Hp. bool_facts.
  unfold checked_mul in *. destruct (s_intervals s * WIDTH <=? _); [|done]. destruct (s_packets s * PACKET_WIDTH <=? _); [|done].
  simplify_eq. repeat match goal with H : bytes_eqb _ _ = true |- _ => apply bytes_eqb_eq in H end.
  split; [f_equal; [done|lia]|]. split; [f_equal; [done|lia]|]. split; lia.
Qed.
Lemma seal_agrees s ranges packets :
  identity_of ranges = {| si_sha256 := s_range_hash s; si_bytes := s_range_len s |} →
  identity_of packets = {| si_sha256 := s_packet_hash s; si_bytes := s_packet_len s |} →
  zlen ranges = WIDTH * s_intervals s → zlen packets = PACKET_WIDTH * s_packets s →
  zlen ranges ≤ u64_max → zlen packets ≤ u64_max →
  seal_disagrees s (identity_of ranges) (identity_of packets) = Ok false.
Proof.
  intros Hr Hp Hrn Hpn Hrl Hpl. unfold seal_disagrees. rewrite Hr, Hp. cbn [si_sha256 si_bytes]. rewrite !bytes_eqb_refl, !Z.eqb_refl. cbn [negb orb].
  injection Hr as _ Hr. injection Hp as _ Hp. unfold checked_mul. rewrite (proj2 (Z.leb_le _ _)) by lia. cbn [ok_or]. rewrite bind_Ok.
  rewrite (proj2 (Z.eqb_eq _ _)) by lia. cbn [negb]. rewrite (proj2 (Z.leb_le _ _)) by lia. cbn [ok_or]. rewrite bind_Ok.
  by rewrite (proj2 (Z.eqb_eq _ _)) by lia.
Qed.

(** A journal that was read to its end can be read anywhere. *)
Lemma journal_read_readable r r' :
  reader_good r → header_valid (j_header r) → bytes_ok (j_file r) → zlen (j_file r) ≤ i64_max → same_journal r r' → journal_readable r'.
Proof.
  intros (_ & _ & Hc & _) (Hh & _) Hb Hl [Hf Hjh]. unfold journal_readable. rewrite Hf, Hjh. split; [done|]. split; [done|].
  split; [|done]. rewrite Hh. cbn [header_of jh_bytes]. rewrite zlen_header.
  pose proof (zlen_nonneg (source_octets (jh_source (j_header r)) (jh_config (j_header r)))). lia.
Qed.

Section files.
Context (source log ranges packets : list Z) (Hlb : bytes_ok log) (Hll : zlen log ≤ i64_max) (Hrb : bytes_ok ranges)
  (Hrl : zlen ranges ≤ i64_max) (Hpb : bytes_ok packets).

Lemma wp_history_open :
  wp (history_open source log ranges packets)
    (λ h, (h_source h = source ∧ h_packets h = packets ∧ j_file (h_journal h) = log) ∧
       ∃ rs s rows, whole source log ranges packets (h_identity h) (h_config h) rs s rows ∧ history_ok rows h)
    (λ _, True).
Proof using All.
  unfold history_open. apply wp_bind. eapply wp_mono; [by apply wp_reader_open| |done].
  intros r (h & Hh & -> & Hw). pose proof (reader_of_good log h Hlb Hll Hh Hw) as Hg. pose proof Hh as (Heq & Hsrc & Hmax).
  pose proof Hsrc as (_ & Hct & Hcv). cbn [snd] in Hcv, Hct. destruct (config_files _ Hct) as [Hc1 Hc2].
  cbv zeta. cbn [reader_of j_header]. apply wp_bind. eapply wp_mono; [by apply wp_hash_file| |done]. intros identity [-> Hls].
  case_match eqn:Hid; [done|]. apply negb_false_iff, bool_decide_eq_true in Hid. apply wp_bind.
  pose proof (find_seal_spec (S (length log)) None _ Hg) as Hf. fold (reader_of log h). cbn [reader_of j_file j_at] in Hf.
  assert (0 ≤ jh_bytes h) by (destruct Hg as (_ & ([? _] & _) & _); done).
  specialize (Hf ltac:(unfold zlen; lia)). unfold swp in Hf. fold (reader_of log h) in Hf.
  destruct (find_seal _ _ (reader_of log h)) as [r' [seal|e| |]]; cbn [fst snd wp mbind res_bind] in *; try done.
  destruct Hf as ([Hjf Hjh] & rs & Hfo & Hr & ->). apply reader_of_follow in Hfo. apply rest_is_journal in Hr; [|done..]. unfold last_seal.
  destruct (last rs) as [[k body]|] eqn:Hlast; [|done]. destruct (k =? SEAL) eqn:Hk; [|done]. apply Z.eqb_eq in Hk as ->.
  cbn [ok_or mbind res_bind]. destruct (seal_body _ _ _ _ Hfo Hcv Hlast) as [Hbb Hbl]. apply wp_bind.
  eapply wp_mono; [by apply (whole_exact (get := get_seal))| |done]. intros s [Hs ->].
  apply wp_bind. eapply wp_mono; [by apply wp_hash_file| |done]. intros range [-> Hlr].
  apply wp_bind. eapply wp_mono; [by apply wp_hash_file| |done]. intros packet [-> Hlp]. apply wp_bind.
  eapply wp_mono; [apply wp_seal_disagrees| |done]. intros [] Hagree; [done|]. destruct (Hagree eq_refl) as (Hri & Hpi & Hrn & Hpn).
  apply wp_bind. destruct (index_open ranges) as [index|e| |] eqn:Hx; [|done|by unfold index_open in Hx; case_match..]. apply wp_ok.
  pose proof (order_spec _ _ Hrb Hrl Hx) as Ho. unfold swp in Ho. apply wp_bind.
  destruct (foldC order_row _ _ index) as [x [p|e| |]]; cbn [fst snd wp mbind res_bind] in *; try done.
  destruct Ho as (rows & Hrows & Hix & Hsort). split; [done|]. pose proof Hix as (_ & Hv & _).
  exists rs, s, rows. split; [split; [by do 5 (split; [done|])|split; by do 4 (split; [done|])]|]. split; [done|].
  split; [by apply (journal_read_readable (reader_of log h))|]. split; [done|]. split; [done|]. by apply lt_le_sorted.
Qed.

Lemma history_open_complete i c rs s rows :
  whole source log ranges packets i c rs s rows → ∃ h, history_open source log ranges packets = Ok h.
Proof using Hlb Hll Hrl.
  intros ((Hsc & Hrs & Hlog & Hi & Hlast & Hs) & (Hri & Hpi & Hls & Hlr & Hlp) & Hrows & Hv & Hsort & Hrn & Hpn).
  pose proof Hsc as [(_ & Hct & Hcv) _]. cbn [snd] in Hcv, Hct. destruct (config_files _ Hct) as [Hc1 Hc2].
  set (h := header_of i c). assert (header_valid h) as Hh by done.
  assert (ahead (decoder_new log) (header_octets i c)) as Hw.
  { pose proof (ahead_all log) as H. rewrite Hlog in H at 2. unfold journal in H. apply ahead_app in H as [? _]; [done|by apply decoder_new_bounds]. }
  pose proof (reader_of_good log h Hlb Hll Hh Hw) as Hg. assert (0 ≤ jh_bytes h) by (destruct Hg as (_ & ([? _] & _) & _); done).
  unfold history_open. rewrite (reader_open_complete log h), bind_Ok by done. cbv zeta. cbn [reader_of j_header h header_of jh_config jh_source].
  fold h. fold (reader_of log h). rewrite (hash_file_complete source), bind_Ok by done. rewrite bool_decide_true by done. cbn [negb].
  destruct (find_seal_complete rs None (reader_of log h) (S (length log))) as (r' & ->); [done|by apply reader_of_follow| | |].
  { by apply rest_is_journal. }
  { cbn [reader_of j_file j_at]. unfold zlen. lia. }
  rewrite !bind_Ok. unfold last_seal. rewrite Hlast, Z.eqb_refl. cbn [ok_or]. rewrite bind_Ok.
  destruct (seal_body _ _ _ _ Hrs Hcv Hlast) as [Hbb Hbl].
  assert (decode_all (s ← get_seal; finish ;; mret s) (seal_octets s) = Ok s) as ->.
  { by apply (whole_checked (get := get_seal) (@Ok Error _)). }
  rewrite bind_Ok, (hash_file_complete ranges), bind_Ok, (hash_file_complete packets), bind_Ok by done. rewrite seal_agrees, bind_Ok; [|done..|lia|].
  2: { unfold hash_limit in Hlp. change (u64_max / 8) with 2305843009213693951 in Hlp. lia. }
  pose proof (zlen_rows_octets rows Hv) as Hz. rewrite <- Hrows in Hz.
  destruct (index_open_spec rows Hv) as (x & Hx & Hix); [lia|]. rewrite <- Hrows in Hx. rewrite Hx, bind_Ok.
  pose proof (order_complete x rows Hix Hsort) as Ho. unfold swp in Ho.
  destruct (foldC order_row _ _ x) as [x' [p|e| |]]; cbn [fst snd wp] in *; try done. rewrite !bind_Ok. by eexists.
Qed.

(** C10: [History::open] succeeds on the workspaces that are whole and on no other: the
    source has the digest and the length of the journal's header; the journal is, to its
    last octet, the chain of its records, of which the last is a seal; the index and the
    packet table have the digests and lengths of that seal; and the index is the encoding
    of valid rows in strictly increasing order, as many as the seal counts.  It does not
    panic. *)
Theorem open_exact :
  wp (history_open source log ranges packets)
    (λ h, (h_source h = source ∧ h_packets h = packets ∧ j_file (h_journal h) = log) ∧
       ∃ rs s rows, whole source log ranges packets (h_identity h) (h_config h) rs s rows)
    (λ _, ∀ i c rs s rows, ¬ whole source log ranges packets i c rs s rows).
Proof using All.
  pose proof wp_history_open as Hw. destruct (history_open source log ranges packets) as [h|e| |] eqn:Hh; cbn [wp] in *; try done.
  - destruct Hw as (Hf & rs & s & rows & Hwh & _). split; [done|]. by exists rs, s, rows.
  - intros i c rs s rows Hwh. destruct (history_open_complete i c rs s rows Hwh) as [h Hok]. congruence.
Qed.

Lemma opened h :
  history_open source log ranges packets = Ok h →
  ∃ rows, ranges = rows_octets rows ∧ StronglySorted lt_ord rows ∧ history_ok rows h.
Proof using All.
  intros Hh. pose proof wp_history_open as Hw. rewrite Hh in Hw.
  destruct Hw as (_ & rs & s & rows & (_ & _ & ? & _ & ? & _) & Hok). by exists rows.
Qed.

(** C8: a range query on an opened workspace shows what the index places and nothing else, and does not panic.
    Its observations are the rows of the generation and direction that overlap the range,
    in the order of the index; each was read from the journal record its row names, is
    placed there by the decision of that record, and has octets that are the source's,
    inside the packets its witnesses name.  The pieces tile the range without gap or
    overlap and none is cut by the end of an observation; a piece names every observation
    that covers it, and has octets exactly if they agree and all are selected. *)
Theorem range_exact (io_text : list Z → Z → Z → string) (generation : list Z) (direction start stop : Z) (h : History) :
  history_open source log ranges packets = Ok h →
  ∃ rows, ranges = rows_octets rows ∧ StronglySorted lt_ord rows ∧
    swp (range io_text generation direction start stop) h
      (λ h' report, same_history rows h h' ∧ range_shown io_text generation direction start stop rows h report)
      (λ _ _, True).
Proof using All.
  intros (rows & Hr & Hso & Hok)%opened. exists rows. split; [done|]. split; [done|]. by apply range_spec.
Qed.
End files.
End opening.

(** ** A workspace of two segments that overlap *)

#[local] Instance fifty : FileRead.
Proof. refine {| read_size file at_ n := Z.min (Z.min n 50) (zlen file - at_) |}. lia. Defined.

Definition sample_segment (payload : list Z) : list Z :=
  [3; 232; 1; 246; 0; 0; 0; 1; 0; 0; 0; 2; 0x50; 0x18; 4; 0; 0; 0; 0; 0] ++ payload.
Definition sample_source_octets : list Z := [7; 7] ++ sample_segment [1; 2; 3; 4] ++ sample_segment [3; 9; 5].
Definition sample_packet (frame at_ n : Z) : PacketRow := {|
  pr_frame := frame; pr_record_offset := at_; pr_data_offset := at_; pr_cap := n; pr_original := n; pr_section := 0;
  pr_interface := 0; pr_link := 1; pr_digest := repeat 0 32 |}.
Definition sample_packets : list Z := packet_encode (sample_packet 1 2 24) ++ packet_encode (sample_packet 2 26 23).
Definition sample_observed (frame at_ : Z) (payload : list Z) : TcpInput := {|
  i_key := sample_key; i_direction := 0; i_frame := frame; i_when := None; i_raw := sample_segment payload;
  i_witnesses := [{| w_start := 0; w_end := zlen (sample_segment payload); w_frame := frame; w_record_offset := at_;
                     w_packet_start := 0; w_source_offset := at_ |}];
  i_sequence := 1; i_acknowledgement := 2; i_flags := 24; i_window := 1024; i_timestamp_value := None; i_header_bytes := 20 |}.
Definition sample_placed (offset : Z) : Decision := {|
  before := repeat 1 32; after := repeat 2 32;
  placements := [{| p_generation := repeat 5 32; p_direction := 0; p_offset := offset; p_selected := true |}];
  reasons := []; policy_assumption := false |}.
Definition sample_tcp (frame at_ offset : Z) (payload : list Z) : list Z :=
  match tcp_record (sample_observed frame at_ payload) (sample_placed offset) with Ok b => b | _ => [] end.
Definition sample_tcps : list (Z * list Z) := [(TCP, sample_tcp 1 2 0 [1; 2; 3; 4]); (TCP, sample_tcp 2 26 2 [3; 9; 5])].
Definition sample_identity : SourceIdentity := identity_of sample_source_octets.
Definition sample_listed : list JRecord :=
  listed (zlen (header_octets sample_identity hconfig_default)) (header_digest sample_identity hconfig_default) 0 sample_tcps.
Definition sample_row (x : JRecord) (start stop : Z) : Row := {|
  x_generation := repeat 5 32; x_direction := 0; x_selected := true; x_start := start; x_end := stop;
  x_record_offset := r_offset x; x_record_digest := r_digest x; x_ordinal := r_sequence x |}.
Definition sample_ranges : list Z :=
  match sample_listed with [x; y] => rows_octets [sample_row x 0 4; sample_row y 2 5] | _ => [] end.
Definition sample_seal : Seal := {|
  s_packets := 2; s_tcp := 2; s_notices := 0; s_intervals := 2;
  s_range_hash := sha_reference sample_ranges; s_range_len := zlen sample_ranges;
  s_packet_hash := sha_reference sample_packets; s_packet_len := zlen sample_packets |}.
Definition sample_log : list Z :=
  journal sample_identity hconfig_default (sample_tcps ++ [(SEAL, seal_octets sample_seal)]).

Lemma sample_octets : bytes_ok sample_log ∧ bytes_ok sample_ranges ∧ bytes_ok sample_packets.
Proof. split; [|split]; apply small_bytes_ok; by vm_compute. Qed.
Lemma sample_lengths : zlen sample_log ≤ i64_max ∧ zlen sample_ranges ≤ i64_max.
Proof. split; by vm_compute. Qed.
Abbreviation sample_opened := (history_open sample_source_octets sample_log sample_ranges sample_packets).
Lemma sample_opens : ∃ h, sample_opened = Ok h.
Proof.
  assert (match sample_opened with Ok _ => true | _ => false end = true) as H by by vm_compute.
  destruct sample_opened as [h|e| |]; [by exists h|done..].
Qed.

Lemma open_exact_witness :
  ∃ h rs s rows, history_open sample_source_octets sample_log sample_ranges sample_packets = Ok h ∧
    whole sample_source_octets sample_log sample_ranges sample_packets (h_identity h) (h_config h) rs s rows.
Proof.
  destruct sample_opens as [h Hh].
  destruct sample_octets as (Hl & Hr & Hp), sample_lengths as [Hll Hrl].
  pose proof (wp_value _ _ _ _ (open_exact sample_source_octets sample_log sample_ranges sample_packets Hl Hll Hr Hrl Hp) Hh) as H.
  cbv beta in H. destruct H as (_ & rs & s & rows & Hw). exists h, rs, s, rows. split; [exact Hh|exact Hw].
Defined.

(** The octets both segments agree on are shown, the others are not. *)
Definition sample_io (file : list Z) (at_ n : Z) : string := "failed to fill whole buffer"%string.
Example range_sample :
  match sample_opened with
  | Ok h => match (range_evidence sample_io (repeat 5 32) 0 0 6 h).2 with
            | Ok (pieces, seen) => map (λ p, (e_start p, e_end p, e_status p, e_ids p, e_bytes p)) pieces
            | _ => []
            end
  | _ => []
  end = [(0, 2, Candidate, [0], Some [1; 2]); (2, 4, Conflicting, [0; 1], None); (4, 5, Candidate, [1], Some [5]);
         (5, 6, Gap, [], None)].
Proof. by vm_compute. Qed.
Lemma sample_ranged : ∀ h, sample_opened = Ok h → ∃ report, (range sample_io (repeat 5 32) 0 0 6 h).2 = Ok report.
Proof.
  assert (match sample_opened with Ok h => match (range sample_io (repeat 5 32) 0 0 6 h).2 with Ok _ => true | _ => false end | _ => false end = true)
    as H by by vm_compute.
  intros h Hh. rewrite Hh in H. clear Hh. destruct (range _ _ _ _ _ h).2 as [report|e| |]; [by exists report|done..].
Qed.

Lemma range_exact_witness :
  ∃ h rows report, sample_opened = Ok h ∧ (range sample_io (repeat 5 32) 0 0 6 h).2 = Ok report ∧
    sample_ranges = rows_octets rows ∧ range_shown sample_io (repeat 5 32) 0 0 6 rows h report.
Proof.
  destruct sample_opens as [h Hh]. destruct sample_octets as (Hl & Hr & Hp), sample_lengths as [Hll Hrl].
  destruct (sample_ranged h Hh) as [report Hrep].
  destruct (range_exact sample_source_octets sample_log sample_ranges sample_packets Hl Hll Hr Hrl Hp sample_io (repeat 5 32) 0 0 6 h Hh)
    as (rows & Hrows & _ & Hw).
  unfold swp in Hw. pose proof (wp_value _ _ _ _ Hw Hrep) as H. cbv beta in H. destruct H as [_ H].
  exists h, rows, report. split; [exact Hh|]. split; [exact Hrep|]. split; [exact Hrows|exact H].
Defined.
