(* ===== verification/HistPagesFacts.v ===== *)
(** * Pages of generations, and the extent of one

    Both walk the sorted index without reading the journal.  A page lists the next
    generations in order and omits none; an extent is the least interval that holds every
    row of a generation and direction, or an error: a limit never shortens it. *)

From stdpp Require Import sorting.
From Stdlib Require Import Sorting.
From S2P Require Import Prelude Errors Stateful Ord ModbusFacts Codec CodecFacts HistModel.
From S2P Require Import HistModelFacts Journal JournalFacts HistIndex HistIndexFacts HistQuery HistQueryFacts HistOpenFacts.

Section pages.
Context {files_read : FileRead} (rows : list Row) (h0 : History) (ok : history_ok rows h0).

(** ** Positions in the index *)

Lemma index_search g d o h :
  same_history rows h0 h →
  swp (on_index (lower_bound g d o)) h
    (λ h' n, same_history rows h0 h' ∧ 0 ≤ n ≤ zlen rows ∧ ∀ i r, get rows i = Some r → below r g d o = bool_decide (i < n))
    (λ _ _, False).
Proof using ok.
  destruct ok as (_ & _ & _ & _ & Hso). intros Hs. pose proof Hs as (_ & _ & _ & _ & _ & Hix).
  pose proof (lower_bound_spec (h_index h) rows g d o Hix Hso) as Hw. unfold swp, on_index in *.
  destruct (lower_bound g d o (h_index h)) as [x [n|e| |]]; cbn [fst snd wp] in *; try done.
  destruct Hw as [Hx Hn]. split; [|done]. destruct Hs as (? & ? & ? & ? & ? & _). done.
Qed.

Lemma index_row n h :
  same_history rows h0 h → 0 ≤ n < zlen rows →
  swp (on_index (row_at n)) h (λ h' r, same_history rows h0 h' ∧ get rows n = Some r) (λ _ _, False).
Proof using ok.
  intros Hs Hn. pose proof Hs as (_ & _ & _ & _ & _ & Hix). pose proof (row_at_spec n (h_index h) rows Hix ltac:(lia)) as Hw.
  unfold swp, on_index in *. destruct (row_at n (h_index h)) as [x [r|e| |]]; cbn [fst snd wp] in *; try done; [|lia].
  destruct Hw as [Hx Hr]. split; [|done]. destruct Hs as (? & ? & ? & ? & ? & _). done.
Qed.

Lemma row_is_valid i r : get rows i = Some r → row_valid r.
Proof using ok. intros [_ Hr]%get_Some. destruct ok as (_ & _ & _ & (_ & Hv & _) & _). rewrite Forall_forall in Hv. by eapply Hv, list_elem_of_lookup_2. Qed.

Lemma rows_ordered i j r r' : get rows i = Some r → get rows j = Some r' → i ≤ j → cmp r r' ≠ Gt.
Proof using ok.
  destruct ok as (_ & _ & _ & _ & Hso). intros [Hi Hr]%get_Some [Hj Hr']%get_Some Hij.
  destruct (decide (i = j)) as [->|Hne]; [simplify_eq; by rewrite cmp_refl|].
  rewrite <- (take_drop_middle _ _ _ Hr) in Hso. apply StronglySorted_app in Hso as (_ & _ & [_ Hall]%StronglySorted_inv).
  rewrite Forall_forall in Hall. apply Hall. apply (list_elem_of_lookup_2 _ (Z.to_nat j - S (Z.to_nat i))%nat).
  rewrite lookup_drop. by replace (S (Z.to_nat i) + _)%nat with (Z.to_nat j) by lia.
Qed.

(** ** [generations] *)

Lemma below_generation r f :
  row_valid r → below r f 1 i64_max = match cmp (x_generation r) f with Gt => false | _ => true end.
Proof.
  intros [(_ & _ & Hs & He & _) (Hd & Hl & _)]. unfold below. simpl. unfold pair_cmp, then_cmp. simpl.
  destruct (list_cmp _ _); [|done|done]. unfold pair_cmp, then_cmp, i64_ok in *. simpl.
  destruct (Z.compare_spec (x_direction r) 1); [|done|lia]. by destruct (Z.compare_spec (x_start r) i64_max); [lia| |lia].
Qed.

Definition later (after : option (list Z)) (g : list Z) : Prop := if after is Some id then lt_ord id g else True.
(** Everything at or before the last generation listed. *)
Definition floor (after : option (list Z)) (out : list (list Z)) : option (list Z) :=
  if last out is Some g then Some g else after.

Definition page_inv (after : option (list Z)) (page : Z) (x : Z * Z * list (list Z)) (h : History) : Prop :=
  let '(at_, seen, out) := x in
  same_history rows h0 h ∧ 0 ≤ at_ ≤ zlen rows ∧ seen = zlen out ∧ zlen out ≤ page ∧ StronglySorted lt_ord out ∧
  (∀ g, g ∈ out → later after g ∧ ∃ i r, get rows i = Some r ∧ x_generation r = g) ∧
  (∀ i r, get rows i = Some r → i < at_ ↔ ¬ later (floor after out) (x_generation r)) ∧
  (∀ i r, get rows i = Some r → i < at_ → later after (x_generation r) → x_generation r ∈ out).

(** The next generations after [after], in order: all of them, or a full page of the first. *)
Definition page_shown (after : option (list Z)) (page : Z) (out : list (list Z)) : Prop :=
  StronglySorted lt_ord out ∧ zlen out ≤ page ∧
  (∀ g, g ∈ out → later after g ∧ ∃ i r, get rows i = Some r ∧ x_generation r = g) ∧
  (∀ i r, get rows i = Some r → later after (x_generation r) →
     x_generation r ∈ out ∨ zlen out = page ∧ Forall (λ g, lt_ord g (x_generation r)) out).

Lemma later_dec after g : later after g ∨ ¬ later after g.
Proof. destruct after as [id|]; [|by left]. simpl. unfold lt_ord. destruct (cmp id g); auto. Qed.
Lemma later_floor after out g :
  (∀ g, g ∈ out → later after g) → later (floor after out) g → later after g.
Proof.
  unfold floor. destruct (last out) as [x|] eqn:Hl; [|done]. intros Hall Hg. apply last_Some_elem_of, Hall in Hl.
  destruct after as [id|]; [|done]. simpl in *. by eapply lt_ord_trans.
Qed.
Lemma sorted_last (out : list (list Z)) (x g : list Z) : StronglySorted lt_ord out → last out = Some x → lt_ord x g → Forall (λ y, lt_ord y g) out.
Proof.
  intros Hs Hl Hg. destruct out as [|y out _] using rev_ind; [done|]. rewrite last_snoc in Hl. simplify_eq.
  apply StronglySorted_app in Hs as (Hs & _). apply Forall_app_2; [|by constructor]. apply Forall_forall. intros z Hz.
  eapply lt_ord_trans; [apply (Hs z x); [done|left]|done].
Qed.

Lemma page_end after page at_ seen out h :
  page_inv after page (at_, seen, out) h → zlen rows ≤ at_ ∨ page ≤ zlen out → page_shown after page out.
Proof.
  intros (_ & Hat & _ & Hp & Hs & Hout & Hfl & Hin) Hend. split; [done|]. split; [done|]. split; [done|].
  intros i r Hr Hl. destruct (decide (i < at_)) as [Hi|Hi]; [left; by eapply Hin|].
  assert (i < zlen rows) by (apply get_Some in Hr as [? Hr]; apply lookup_lt_Some in Hr; unfold zlen; lia).
  right. split; [lia|]. destruct (later_dec (floor after out) (x_generation r)) as [Hf|Hf]; [|exfalso; by apply Hi, (Hfl i r Hr)].
  unfold floor in Hf. destruct (last out) as [x|] eqn:Hlast; [by eapply sorted_last|].
  apply last_None in Hlast as ->. constructor.
Qed.

(** The row a page is at begins a generation that is not listed. *)
Lemma page_row after page at_ seen out r h :
  page_inv after page (at_, seen, out) h → get rows at_ = Some r →
  later (floor after out) (x_generation r) ∧ later after (x_generation r) ∧ last out ≠ Some (x_generation r).
Proof.
  intros (_ & Hat & _ & Hp & Hs & Hout & Hfl & Hin) Hr.
  destruct (later_dec (floor after out) (x_generation r)) as [Hf|Hf]; [|apply (Hfl _ _ Hr) in Hf; lia].
  split; [done|]. split; [eapply later_floor; [|exact Hf]; intros g Hg; by apply Hout|].
  intros Hlast. unfold floor in Hf. rewrite Hlast in Hf. simpl in Hf. by apply lt_ord_irrefl in Hf.
Qed.

(** A generation is listed once its first row is met. *)
Lemma page_next after page at_ out n r h h' :
  page_inv after page (at_, zlen out, out) h → zlen out < page → get rows at_ = Some r → same_history rows h0 h' → 0 ≤ n ≤ zlen rows →
  (∀ i r', get rows i = Some r' → below r' (x_generation r) 1 i64_max = bool_decide (i < n)) →
  at_ < n ∧ page_inv after page (n, zlen out + 1, out ++ [x_generation r]) h'.
Proof using ok.
  intros Hpi Hlt Hr Hs' Hn Hbel. destruct (page_row _ _ _ _ _ _ _ Hpi Hr) as (Hf & Hl & _).
  destruct Hpi as (_ & Hat & _ & Hp & Hs & Hout & Hfl & Hin).
  assert (∀ i r', get rows i = Some r' → i < n ↔ cmp (x_generation r') (x_generation r) ≠ Gt) as Hn'.
  { intros i r' Hr'. specialize (Hbel i r' Hr'). rewrite below_generation in Hbel by (by eapply row_is_valid).
    destruct (cmp _ _), (decide (i < n)); rewrite ?bool_decide_true, ?bool_decide_false in Hbel by done; naive_solver. }
  assert (at_ < n) as Hatn by (apply (Hn' _ _ Hr); by rewrite cmp_refl).
  split; [done|].
  split; [done|]. split; [done|]. split; [by rewrite zlen_app|]. split; [rewrite zlen_app; change (zlen [_]) with 1; lia|].
  split; [|split; [|split]].
  - apply StronglySorted_app_2; [|done|repeat constructor]. intros y z Hy ->%list_elem_of_singleton.
    unfold floor in Hf. destruct (last out) as [x|] eqn:Hlast; [|apply last_None in Hlast as ->; set_solver].
    pose proof (sorted_last _ _ _ Hs Hlast Hf) as Hall. rewrite Forall_forall in Hall. by apply Hall.
  - intros g [Hg| ->%list_elem_of_singleton]%elem_of_app; [by apply Hout|]. split; [done|]. by exists at_, r.
  - intros i r' Hr'. rewrite (Hn' i r' Hr'). unfold floor. rewrite last_snoc. simpl. rewrite <- cmp_gt. done.
  - intros i r' Hr' Hi Hl'. apply elem_of_app. destruct (decide (i < at_)) as [Hb|Hb]; [left; by eapply Hin|]. right.
    apply list_elem_of_singleton. apply (Hn' i r' Hr') in Hi. pose proof (rows_ordered at_ i r r' Hr Hr' ltac:(lia)) as Ho.
    apply row_le_key in Ho. unfold search_key in Ho. simpl in Ho. unfold pair_cmp, then_cmp in Ho. simpl in Ho.
    destruct (cmp (x_generation r') (x_generation r)) eqn:Hc; [by apply cmp_eq in Hc| |done].
    pose proof (cmp_antisym (x_generation r') (x_generation r)) as Ha. rewrite Hc in Ha. unfold cmp in Ha. simpl in Ha. by rewrite Ha in Ho.
Qed.

(** What a page that is refused says. *)
Definition page_refused (page : Z) (e : Error) : Prop :=
  (¬ 1 ≤ page ≤ 200 ∧ e = limit "generation_page") ∨ (hc_query_intervals (h_config h0) < page ∧ e = limit "generation_scan").

Lemma generation_step_spec after page x h :
  page ≤ 200 → page_inv after page x h →
  swp (generation_step after page x) h
    (λ h' r, match r with
             | Continue x' => page_inv after page x' h' ∧ 0 ≤ zlen rows - x'.1.1 < zlen rows - x.1.1
             | Break out => same_history rows h0 h' ∧ page_shown after page out
             end) (λ _ e, page_refused page e).
Proof using ok.
  intros Hpage. destruct x as [[at_ seen] out]. intros Hi. pose proof Hi as (Hs & Hat & -> & _). unfold generation_step.
  pose proof Hs as (_ & _ & Hcf & _ & _ & (_ & _ & Hc & Hm)). apply swp_bind, swp_get. rewrite Hc, Hcf. apply swp_if; intros Hb.
  2: { apply swp_ret. split; [done|]. eapply page_end; [exact Hi|]. apply andb_false_iff in Hb as [Hb|Hb]; lia. }
  apply andb_true_iff in Hb as [Hb1 Hb2]. apply swp_bind. eapply swp_mono; [by apply (index_row at_ h Hs); lia| |done].
  intros h1 r [Hs1 Hr]. pose proof (zlen_nonneg out). apply swp_bind, swp_lift.
  rewrite add_ovf_ok by (unfold WIDTH in *; lia). apply wp_ok, swp_bind, swp_lift. rewrite add_ovf_ok by lia. apply wp_ok, swp_if; intros Hq.
  { right. split; [lia|done]. }
  destruct (page_row _ _ _ _ _ _ _ Hi Hr) as (_ & Hl & Hlast). apply swp_if; intros Hskip.
  { exfalso. destruct after as [id|]; [|done]. simpl in Hl. apply cmp_gt in Hl. by rewrite Hl in Hskip. }
  cbv zeta. rewrite bool_decide_false by done. apply swp_bind. eapply swp_mono; [by apply index_search| |done].
  intros h2 n (Hs2 & Hn & Hbel). apply swp_ret.
  destruct (page_next _ _ _ _ n r h h2 Hi) as [Hlt Hinv]; [lia|done..|]. rewrite Z.max_l by lia. split; [done|]. cbn [fst]. lia.
Qed.

Lemma generations_spec after page :
  swp (generations_page after page) h0 (λ h out, same_history rows h0 h ∧ page_shown after page out) (λ _ e, page_refused page e).
Proof using ok.
  unfold generations_page, contains. apply swp_if; intros Hp; [left; split; [lia|done]|]. apply swp_bind, swp_get.
  pose proof (same_history_refl rows h0 ok) as Hs0. pose proof (zlen_nonneg rows).
  assert (i_count (h_index h0) = zlen rows) as -> by apply Hs0. apply swp_bind.
  assert (∀ n h, same_history rows h0 h → 0 ≤ n ≤ zlen rows →
    (∀ i r, get rows i = Some r → i < n ↔ ¬ later after (x_generation r)) →
    swp (loopC (S (Z.to_nat (zlen rows))) (generation_step after page) (n, 0, [])) h
      (λ h out, same_history rows h0 h ∧ page_shown after page out) (λ _ e, page_refused page e)) as Hloop.
  { intros n h Hs Hn Hi. eapply (swp_loop (page_inv after page) (λ x, zlen rows - x.1.1) (λ _, page_refused page)).
    - intros x h1 Hx. apply generation_step_spec; [lia|done].
    - split; [done|]. split; [done|]. split; [done|]. split; [rewrite zlen_nil; lia|]. split; [constructor|]. split; [set_solver|].
      split; [done|]. intros i r Hr Hlt Hl. by destruct (proj1 (Hi i r Hr) Hlt).
    - cbn [fst]. lia. }
  destruct after as [id|].
  - eapply swp_mono; [by apply index_search| |done]. intros h n (Hs & Hn & Hbel). apply Hloop; [done|done|]. intros i r Hr.
    specialize (Hbel i r Hr). rewrite below_generation in Hbel by (by eapply row_is_valid). simpl. rewrite <- cmp_gt.
    destruct (cmp _ _), (decide (i < n)); rewrite ?bool_decide_true, ?bool_decide_false in Hbel by done; naive_solver.
  - apply swp_ret. apply Hloop; [done|lia|]. intros i r [Hi _]%get_Some. simpl. split; [lia|tauto].
Qed.

(** ** [extent] *)

(** The least interval that holds every row. *)
Definition extent_of (l : list Row) (found : option (Z * Z)) : Prop :=
  match found with
  | None => l = []
  | Some (a, b) => (∃ r, r ∈ l ∧ x_start r = a) ∧ (∃ r, r ∈ l ∧ x_end r = b) ∧ Forall (λ r, a ≤ x_start r ∧ x_end r ≤ b) l
  end.
Lemma extent_snoc l r found :
  extent_of l found →
  extent_of (l ++ [r]) (Some (match found with
    | Some (a, b) => (Z.min a (x_start r), Z.max b (x_end r))
    | None => (x_start r, x_end r)
    end)).
Proof.
  destruct found as [[a b]|]; simpl.
  - intros ((ra & Ha & <-) & (rb & Hb & <-) & Hall). split; [|split].
    + destruct (Z.min_spec (x_start ra) (x_start r)) as [[_ ->]|[_ ->]]; [exists ra|exists r]; set_solver.
    + destruct (Z.max_spec (x_end rb) (x_end r)) as [[_ ->]|[_ ->]]; [exists r|exists rb]; set_solver.
    + apply Forall_app_2; [|constructor; [lia|done]]. eapply Forall_impl; [exact Hall|]. simpl. lia.
  - intros ->. split; [exists r; set_solver|]. split; [exists r; set_solver|]. by repeat constructor.
Qed.

Definition of_key (g : list Z) (d : Z) (r : Row) : bool := bytes_eqb (x_generation r) g && (x_direction r =? d).
Lemma of_key_overlaps g d r : row_valid r → overlaps g d i64_min i64_max r = of_key g d r.
Proof.
  intros [(_ & _ & Hs & He & _) (_ & Hl & _)]. unfold overlaps, i64_ok in *.
  rewrite (proj2 (Z.ltb_lt (x_start r) _)), (proj2 (Z.ltb_lt _ (x_end r))) by lia. by rewrite !andb_true_r.
Qed.
Lemma of_key_rows g d l : Forall row_valid l → List.filter (overlaps g d i64_min i64_max) l = List.filter (of_key g d) l.
Proof. induction 1 as [|r l Hr _ IH]; [done|]. simpl. by rewrite of_key_overlaps, IH. Qed.

Section extent.
Context (g : list Z) (d max_rows : Z).
Definition extent_refused (e : Error) : Prop :=
  e = limit "extent_scan" ∧ (1 < d ∨ max_rows = 0 ∨ max_rows < zlen (List.filter (of_key g d) rows)).
Definition extent_inv (at0 : Z) (x : Z * Z * option (Z * Z)) (h : History) : Prop :=
  let '(at_, scanned, found) := x in
  let l := List.filter (of_key g d) (firstn (Z.to_nat at_) rows) in
  same_history rows h0 h ∧ at0 ≤ at_ ≤ zlen rows ∧ scanned = zlen l ∧ extent_of l found.

Lemma rows_valid : Forall row_valid rows.
Proof using ok. destruct ok as (_ & _ & _ & (_ & Hv & _) & _). done. Qed.

Lemma key_from n r :
  get rows n = Some r → below r g d i64_min = false → of_key g d r = false →
  List.filter (of_key g d) rows = List.filter (of_key g d) (firstn (Z.to_nat n) rows).
Proof using ok.
  intros Hr Hb Hk. pose proof rows_valid as Hv. rewrite <- !of_key_rows by (done || by apply Forall_take).
  apply (filter_from (λ _ _ _, EmptyString) g d i64_min i64_max rows h0 ok n r); [done|done|]. unfold of_key in Hk. by rewrite Hk.
Qed.

Lemma extent_step_spec at0 x h :
  0 ≤ at0 → 0 ≤ max_rows → (∀ i r, get rows i = Some r → below r g d i64_min = bool_decide (i < at0)) → extent_inv at0 x h →
  swp (extent_step g d max_rows x) h
    (λ h' y, match y with
             | Continue x' => extent_inv at0 x' h' ∧ 0 ≤ zlen rows - x'.1.1 < zlen rows - x.1.1
             | Break found => same_history rows h0 h' ∧ extent_of (List.filter (of_key g d) rows) found
             end) (λ _ e, extent_refused e).
Proof using ok.
  intros H0 Hm Hlow. destruct x as [[at_ scanned] found]. intros (Hs & [Hlo Hhi] & Hsc & Hf). unfold extent_step.
  pose proof Hs as (_ & _ & _ & _ & _ & (_ & _ & Hc & Hmax)). apply swp_bind, swp_get. rewrite Hc. apply swp_if; intros Hb.
  { apply swp_ret. split; [done|]. rewrite firstn_all2 in Hf; [done|]. unfold zlen in *. lia. }
  apply swp_bind. eapply swp_mono; [by apply (index_row at_ h Hs); lia| |done]. intros h1 r [Hs1 Hr].
  pose proof (Hlow _ _ Hr) as Hbel. rewrite bool_decide_false in Hbel by lia.
  pose proof (filter_next (of_key g d) rows at_ r Hr) as Hnext. pose proof (zlen_nonneg (List.filter (of_key g d) (firstn (Z.to_nat at_) rows))).
  assert (zlen (List.filter (of_key g d) (firstn (Z.to_nat (at_ + 1)) rows)) ≤ zlen (List.filter (of_key g d) rows)) as Hle.
  { rewrite <- (take_drop (Z.to_nat (at_ + 1)) rows) at 2. rewrite List.filter_app, zlen_app.
    pose proof (zlen_nonneg (List.filter (of_key g d) (drop (Z.to_nat (at_ + 1)) rows))). lia. }
  apply swp_if; intros Hk.
  - apply swp_ret. split; [done|]. rewrite (key_from at_ r Hr Hbel); [done|]. unfold of_key. by destruct (bytes_eqb _ g), (_ =? d).
  - assert (of_key g d r = true) as Hkr by (unfold of_key; by destruct (bytes_eqb _ g), (_ =? d)).
    rewrite Hkr in Hnext. assert (zlen (List.filter (of_key g d) (firstn (Z.to_nat at_) rows)) ≤ zlen rows) as Hfl.
    { pose proof (filter_length_le (of_key g d) (firstn (Z.to_nat at_) rows)) as Hl. rewrite length_firstn in Hl. unfold zlen. lia. }
    apply swp_bind, swp_lift. rewrite add_ovf_ok by (unfold WIDTH in *; lia). apply wp_ok, swp_if; intros Hq.
    + split; [done|]. right. right. rewrite Hnext, zlen_app in Hle. change (zlen [r]) with 1 in Hle. lia.
    + apply swp_bind, swp_lift. rewrite add_ovf_ok by (unfold WIDTH in *; lia). apply wp_ok, swp_ret. split; [|cbn [fst]; lia].
      split; [done|]. split; [lia|]. rewrite Hnext. split; [rewrite zlen_app; by rewrite Hsc|]. by apply extent_snoc.
Qed.

Lemma extent_spec :
  0 ≤ max_rows →
  swp (extent g d max_rows) h0
    (λ h found, same_history rows h0 h ∧ extent_of (List.filter (of_key g d) rows) found) (λ _ e, extent_refused e).
Proof using ok.
  intros Hm. unfold extent. apply swp_if; intros Hr.
  { split; [done|]. apply orb_true_iff in Hr as [Hr|Hr]; [left|right; left]; lia. }
  pose proof (same_history_refl rows h0 ok) as Hs0. pose proof (zlen_nonneg rows). apply swp_bind, swp_get.
  assert (i_count (h_index h0) = zlen rows) as -> by apply Hs0. apply swp_bind.
  eapply swp_mono; [by apply index_search| |done]. intros h n (Hs & Hn & Hbel).
  eapply (swp_loop (extent_inv n) (λ x, zlen rows - x.1.1) (λ _, extent_refused)).
  - intros x h1 Hx. by apply (extent_step_spec n); [lia|..].
  - assert (List.filter (of_key g d) (firstn (Z.to_nat n) rows) = []) as Hnone; [|split; [done|]; split; [lia|]; by rewrite Hnone].
    apply filter_none, Forall_lookup. intros i r Hi. pose proof (lookup_lt_Some _ _ _ Hi) as Hlt. rewrite length_firstn in Hlt.
    rewrite lookup_take_lt in Hi by lia. pose proof rows_valid as Hv. rewrite Forall_lookup in Hv.
    rewrite <- of_key_overlaps by (by eapply Hv). apply (overlaps_not_below (λ _ _ _, EmptyString)); [by eapply Hv|].
    assert (get rows (Z.of_nat i) = Some r) as Hg by (apply get_Some; split; [lia|]; by rewrite Nat2Z.id).
    unfold low. rewrite Z.max_l by lia. rewrite (Hbel _ _ Hg). by apply bool_decide_true; lia.
  - cbn [fst]. lia.
Qed.
End extent.
End pages.

Section files.
Context {files_read : FileRead} (source log ranges packets : list Z) (Hlb : bytes_ok log) (Hll : zlen log ≤ i64_max)
  (Hrb : bytes_ok ranges) (Hrl : zlen ranges ≤ i64_max) (Hpb : bytes_ok packets) (h : History)
  (Hopen : history_open source log ranges packets = Ok h).

(** C19: a page of generations of an opened workspace lists generations of the index that
    come after the given one, strictly in order, and omits none: a generation of the index
    that is not listed comes after all of a full page.  It is refused only for a page
    size outside 1 to 200, or larger than the intervals a query may scan. *)
Theorem generations_exact after page :
  ∃ rows, ranges = rows_octets rows ∧ StronglySorted lt_ord rows ∧
    swp (generations_page after page) h (λ h' out, same_history rows h h' ∧ page_shown rows after page out)
      (λ _ e, page_refused h page e).
Proof using All.
  destruct (opened source log ranges packets Hlb Hll Hrb Hrl Hpb h Hopen) as (rows & Hr & Hso & Hok).
  exists rows. split; [done|]. split; [done|]. by apply generations_spec.
Qed.

(** C21: the extent of a generation and direction of an opened workspace is the least
    interval that holds all its rows, and there is none only if it has no rows; with a
    direction, a limit and no more rows than the limit it is never refused. *)
Theorem extent_exact g d max_rows :
  0 ≤ max_rows →
  ∃ rows, ranges = rows_octets rows ∧ StronglySorted lt_ord rows ∧
    swp (extent g d max_rows) h
      (λ h' found, same_history rows h h' ∧ extent_of (List.filter (of_key g d) rows) found)
      (λ _ e, extent_refused rows g d max_rows e).
Proof using All.
  intros Hm. destruct (opened source log ranges packets Hlb Hll Hrb Hrl Hpb h Hopen) as (rows & Hr & Hso & Hok).
  exists rows. split; [done|]. split; [done|]. by apply extent_spec.
Qed.
End files.

#[local] Existing Instance fifty.

Lemma generations_exact_witness :
  ∃ h rows, sample_opened = Ok h ∧ sample_ranges = rows_octets rows ∧
    swp (generations_page None 10) h (λ h' out, same_history rows h h' ∧ page_shown rows None 10 out)
      (λ _ e, page_refused h 10 e).
Proof.
  destruct sample_opens as [h Hh]. destruct sample_octets as (Hl & Hr & Hp), sample_lengths as [Hll Hrl].
  destruct (generations_exact sample_source_octets sample_log sample_ranges sample_packets Hl Hll Hr Hrl Hp h Hh None 10)
    as (rows & Hrows & _ & Hw).
  exists h, rows. split; [exact Hh|]. split; [exact Hrows|exact Hw].
Defined.
Lemma extent_exact_witness :
  ∃ h rows, sample_opened = Ok h ∧ sample_ranges = rows_octets rows ∧
    swp (extent (repeat 5 32) 0 2) h
      (λ h' found, same_history rows h h' ∧ extent_of (List.filter (of_key (repeat 5 32) 0) rows) found)
      (λ _ e, extent_refused rows (repeat 5 32) 0 2 e).
Proof.
  destruct sample_opens as [h Hh]. destruct sample_octets as (Hl & Hr & Hp), sample_lengths as [Hll Hrl].
  destruct (extent_exact sample_source_octets sample_log sample_ranges sample_packets Hl Hll Hr Hrl Hp h Hh (repeat 5 32) 0 2 ltac:(lia))
    as (rows & Hrows & _ & Hw).
  exists h, rows. split; [exact Hh|]. split; [exact Hrows|exact Hw].
Defined.

(** The two segments are one extent, unless only one row may be scanned. *)
Example pages_sample :
  match sample_opened with
  | Ok h => ((generations_page None 10 h).2, (generations_page (Some (repeat 5 32)) 10 h).2,
             (extent (repeat 5 32) 0 2 h).2, (extent (repeat 5 32) 1 2 h).2, (extent (repeat 5 32) 0 1 h).2)
  | _ => (OutOfFuel, OutOfFuel, OutOfFuel, OutOfFuel, OutOfFuel)
  end = (Ok [repeat 5 32], Ok [], Ok (Some (0, 5)), Ok None, Err (limit "extent_scan")).
Proof. by vm_compute. Qed.
